(* ===== verification/_CoqProject ===== *)
-Q . S2P
Prelude.v
RustStr.v
Json.v
TeamTypes.v
Tokens.v
Backend.v
TeamRun.v
TeamThreads.v
TeamLifecycle.v
TeamTheorems.v
TeamRecords.v
Cursor.v
TaggedMap.v
Command.v
Event.v
Negotiate.v
Blind.v
OrchTheorems.v
BrokerState.v
BrokerTheorems.v
JoinTicket.v
Device.v
DeviceTheorems.v
DevicePromises.v
Retention.v
RemoteActions.v
Paths.v
Surfaces.v
WorkflowRun.v
ReviewJob.v
TeamTable.v
JobTheorems.v
Approvals.v
Transcript.v
Runtime.v
Push.v
ThreadState.v
ThreadTurns.v
ThreadRows.v
ThreadFlow.v
ThreadLemmas.v
ThreadTheorems.v
LiveText.v
ThreadDeletion.v
Watchdog.v
Promotion.v
History.v
Patch.v
Pages.v
Snapshot.v
SnapshotTheorems.v
ControlStore.v
ControlPlane.v
ControlLemmas.v
ControlTheorems.v
ControlGrants.v
Licenses.v
Blocklist.v
Limits.v
Admission.v
HttpRequests.v
PublicApi.v
PublicApiTheorems.v
Writer.v
RemoteRequest.v
RemoteReply.v
RemoteChunks.v
RemotePublish.v
RemoteDispatch.v
ChunkTheorems.v
RemoteDispatchTheorems.v
Publisher.v
BrokerSession.v
Guards.v
SessionTheorems.v
Process.v
TeamControl.v
TeamDrive.v
TeamSafety.v
TeamConcurrency.v
