(* ===== verification/Prelude.v ===== *)
(** * Sealwire relay: verification library

    ** The program

    Sealwire lets a phone or browser drive coding agents that run on one's own
    machine.  A _relay_ (crates/relay-server) owns the agents' threads and the state
    around them; a _broker_ (crates/relay-broker) is a rendezvous server that passes
    sealed messages between a relay and its remote devices; an _orchestration
    driver_, in the relay or across a protocol, runs task teams on the relay's
    threads.  crates/relay-api holds the task-team state machine and the driver
    protocol that both sides share.  A device reaches its relay by scanning a pairing
    ticket: it joins the broker room with a join ticket, registers, is approved on the
    relay, and receives its secret in a pairing result that the broker delivers to
    that one peer; later sessions are opened by answering a claim challenge.

    ** The files

    Shared.  This file: results and the [?] operator, machine integers, record
    update, case-analysis tactics, hint databases, reachability.  [RustStr]: strings
    as UTF-8 bytes ([trim], [chars], [to_ascii_lowercase], splitting, truncation).
    [Json]: serde's data model and the errors of the protocol; a derived decoder reads a map in any
    key order or a sequence in field order, refuses duplicates, and refuses unknown
    keys where the type says so; [UnitEnum] and [Serde] are the interfaces through which
    enums and field codecs are used.

    Task teams (crates/relay-api/src/team.rs, lib.rs).  [TeamTypes]: the enums, task
    definition, sub-tasks and their names on the wire.  [TeamRun]: the record and its
    mutators ([set_status], [fail_run] for [fail], [block], [cancel], [request_pause],
    [request_stop], [settle_paused], [resume], [reconcile_after_restore], ...), each the
    whole function with its guards.  [TeamThreads]: which threads a run owns and how a
    provisional thread id is replaced.  [TeamLifecycle]: the operations as labels of a
    transition system and the abstract status machine.  [TeamTheorems], [TeamRecords]:
    terminal statuses are final; every run of operations is a path of the abstract
    machine; a user's stop outranks a failure; restoring after a crash settles and is
    idempotent; thread ownership covers every seat and survives rekeying and retirement;
    re-planning, reviving and minting keep ids distinct; the backend is pinned once
    execution started; the enums round-trip with their fallbacks.

    Driver protocol (crates/relay-api/src/orchestration.rs).  [Tokens]: bounded
    tokens, versions and bounded vectors, as types that carry the proof of their
    check.  [Backend]: the lenient decoders of the persisted backend and progress.  [Cursor],
    [TaggedMap], [Command], [Event]: the strict decoders of the wire.  [Negotiate],
    [Blind], [OrchTheorems]: negotiation picks the greatest common version; nothing
    but numbers, booleans and tokens crosses the wire; decoders accept exactly their
    closed sets; damaged state is never taken for clean or executable.

    Broker (crates/relay-broker/src/state.rs, protocol.rs, events.rs, join_ticket.rs,
    auth.rs).  [BrokerState]: rooms, seats and mailboxes, joining with eviction,
    leaving, publishing.  [BrokerTheorems]: the invariant of reachable rooms; one
    pairing ticket holds one seat; a replaced connection is powerless; delivery is
    sound, complete for broadcasts, and pairing results reach only their target.
    [JoinTicket]: claims, validation, minting, verification; its [Module TicketModel] is a
    concrete instance of the crypto interface, so its laws are satisfiable.

    Devices (crates/relay-server/src/state/relay/device.rs).  [Device]: every
    operation that changes pairing state, with the slice of [RelayState] it touches.
    [DeviceTheorems]: the operations as a transition system and the invariant.
    [DevicePromises]: approval pairs the device that registered, under its id as
    normalised once more, bystanders cannot take a pairing over, tickets and challenges are single-use and expire,
    revocation cuts a device off.

    Reach and control (crates/relay-server/src/state.rs, state/relay.rs).  [Paths]: path
    normalisation, the allowed roots and the scope of a device, over the interface
    [FileSystem] with the laws [FileSystemLaws]; a scope is containment of directories.
    [RemoteActions]: the replay cache, and that a resent action runs once unless the full
    cache evicted it.  [Surfaces]:
    the controller lease, watch sets with connection generations, delivery of transcript
    deltas, the queue of the broker publisher; and the theorems: one device controls at
    a time and keeps control while it beats; deltas reach exactly the watchers whose watch
    is in the scope of the device that declared it;
    a stale connection changes nothing; a full queue drops deltas and never results.

    Jobs (state/workflow.rs, state/review.rs, state/relay.rs).  [Retention]: the pruning
    of finished jobs, stated once over the class [Retained].  [WorkflowRun], [ReviewJob],
    [TeamTable]: the records, their status writes, the relay's tables and the locks that
    live jobs hold, the reading of a reviewer's verdict.  [JobTheorems]: the workflow
    status machine; blocked recovery is begun by one caller; live jobs are never pruned;
    the gate on team runs agrees with the run it resolves; approval is explicit.

    Threads and transcripts (state/relay.rs, state/relay/transcript.rs, runtime.rs,
    background.rs, approval.rs, ask_user_question.rs).  [Approvals]: pending approvals and
    questions, and the payloads of their decisions.  [Transcript]: entries and their merging.
    [Runtime]: the runtime of one thread.  [ThreadState]: the slice of [RelayState] that holds
    threads.  [ThreadTurns], [ThreadRows], [ThreadFlow]: the operations on it, turn by turn,
    row by row, and the provider events and activations that compose them.  [ThreadLemmas]:
    what each leaves alone.  [ThreadTheorems]: transcript revisions chain.  [LiveText]: the
    deltas a client receives rebuild the relay's text.  [ThreadDeletion]: what is
    left of a deleted thread whatever arrives for it.  [Watchdog]: stalled turns are stopped (state/app/mod.rs, sessions.rs).
    [Promotion]: a provisional thread becomes a real one, and all but the parent of its
    reviewers moves along.  [History]: re-reading a provider's history loses no entry and
    shortens no text of one whose kind stays.

    Push (state/relay/push.rs).  [Push]: attention tracking, subscriptions, the check of an
    endpoint; a thread notifies exactly when it newly needs attention.

    Views (protocol.rs, state/relay/runtime.rs).  [Patch]: the patches offered for undo.
    [Pages]: transcript pages by bytes, entries by id, long fields in chunks; pages fit
    their budget, cover the transcripts the relay holds itself, and chunks reassemble.
    [Snapshot]: the reduction of a session snapshot and of the thread list to the budget of
    a surface.  [SnapshotTheorems]: it ends, is honest about what it dropped, and a remote
    surface sees only what it may.

    Control plane of the broker (crates/relay-broker/src/public_control.rs).
    [ControlStore]: the rows and every operation of the store.  [ControlPlane]: the requests,
    in a state-and-error monad over the memory and a persistence backend whose saves and
    reloads may fail.  [ControlLemmas]: what a request may do to a store ([effect]), and the
    rule by which an invariant of the effects is one of the memory and the backend
    ([step_holds]).  [ControlTheorems]: the invariant; client credentials need the client's
    key; revocation is final.  [ControlGrants]: rotation, the device limit, saves,
    enrolment, the round trip of the persisted state; in its [Module ControlExamples], runs.

    Front of the broker (crates/relay-broker/src/lib.rs, licenses.rs, blocklist.rs,
    crates/relay-http/src/lib.rs).  [Licenses]: licence codes over the rows of their table;
    a code is redeemed once.  [Blocklist]: addresses, networks and the address a request is
    judged by; bans match addresses, not spellings.
    [Limits]: the hardening configuration, the sliding window, the byte bucket in binary64
    arithmetic, connection counts, metrics; the window counts exactly, and no
    accepted frame is beyond a budget.  [Admission]: the join of a socket and its life
    ([handle_socket]), and any number of sockets side by side ([net_exec]);
    admission needs a ticket, published frames are vetted, open sockets
    account for every seat.  [HttpRequests]: headers, credentials, cookies, errors
    and the theorems on them.  [PublicApi]: one definition per route, in a state-and-error monad over
    the broker's state; [PublicApiTheorems]: enrolment is all or nothing while the backend
    of the control plane answers, credentials need an active licence, and licences are private; its last module runs them.

    The relay's broker channel (crates/relay-server/src/broker/).  [Writer] (writer.rs): the
    task that writes the socket, with its lanes for pings, ordinary frames and chunk trains.
    Chunks are paced across replies, each lane keeps its order, a reply is written whole
    unless its surface left, and a writer let go of finishes.  [RemoteRequest]
    (remote_actions.rs): the forty actions and how each is treated.  [RemoteReply]
    (protocol.rs): replies, payloads and their JSON.  [RemoteChunks] (crypto.rs): sealing,
    and cutting a reply into chunks.  [RemotePublish]: what is handed to the writer, and
    in its second part claims and proofs (session_claim.rs).  [RemoteDispatch]: the handlers, over
    the interface [RelayApp] of the application.  [ChunkTheorems], with an
    instance in its [Module Model]: large replies arrive whole in frames the broker takes.
    [RemoteDispatchTheorems]: an action needs authority and is executed once; claims are
    bound; in its last module, runs of the handlers.
    [Publisher] (broker.rs): the spacing of snapshots, the backoff of connections, the merging
    of waiting deltas, and the publishing of what the relay has queued; [meanwhile] is what
    the rest of the relay does while a publication awaits; merging is
    invisible to its readers, targeted frames reach exactly their peers, the backoff is
    bounded.  [BrokerSession]: the frames the broker sends, the payloads of surfaces, and one
    definition per arm of the session's select loop ([session_step]), its start and its end.
    [SessionTheorems]: watchers are told everything, private sessions are sealed, snapshots
    are spaced, follow every change and show the session of their moment, a silent broker is noticed, and no surface ends a
    session; its module [SessionExamples] runs sessions.

    The relay's local HTTP front (crates/relay-server/src/auth.rs, host_guard.rs, main.rs).
    [Guards]: API tokens and sessions, the guard of hosts, the guard against forged requests,
    the layers a request passes in their order, the checks of images, and the rendering of
    errors.  Requests of foreign pages, and of pages of the machine without the custom header, are refused, a relay is open only where its operator
    says so, a login lasts exactly its time, and images are bounded before they are decoded.

    Team runs as concurrent tasks (state/app/team.rs, with the parts of review.rs, workflow.rs
    and sessions.rs that it uses).  [Process]: tasks over one state that interleave at their
    awaits, own guards with a [Drop], and may be cancelled or panic at an await; and the rules
    that turn a property of every task into one of every execution (what each hold of the lock
    does, exclusive guards, standing needs that some task attends to, questions asked under a
    gate only).  [TeamControl]: one [Proc] per request of a user (start, pause, stop, cancel,
    resume, reopen, resolve, mark, a message to a thread) and per crash net, each hold of the
    relay's lock one step.  [TeamDrive]: the driver's task, its port, turns and their waits,
    seats, reseeding, commits.  [TeamSafety]: the tasks as a [Runtime], and what each may do in
    one hold.  [TeamConcurrency]: only one task acts for a run; only a resume wakes it; in
    builds with a driver no run is left running without one, no recovery half done; a settled run stays quiet.
    Assumed of the rest: the driver, which is not in the repository, is any program over the
    port whose record updates leave the standing of a run to the port ([polite]); what providers,
    git, directories and clocks answer is arbitrary; the rest of the relay keeps the gates and
    the standing of runs ([elsewhere]); crash nets run to their end while the process lives;
    the theorems on one run exclude requests that start a run under its id.

    ** Conventions

    The clock is an argument [now], random tokens and nonces are arguments, and
    cryptography is a class ([TicketCrypto] with the laws [TicketLaws]; [DeviceCrypto] and
    [Ed25519], without laws); so are the file system, the URL parser ([UrlParser]), the
    sizes of serde_json ([SerdeJson], [SnapshotSizes]), the networks of ipnet ([IpNets] with
    [IpNetLaws]), what the http crate takes for a header value or a URI ([HttpLib]) and whether a provider is
    found for a turn to stop and what it answers ([StopCall]), the cipher ([SecretBox] with [SecretBoxLaws]), the encoding of the views a reply
    carries ([ViewSerde]) and of a request ([RequestSerde]).  The outcome of each database call is an argument [Io].  [u32] and [u64] are [Z], with
    wrapping, saturating and clamping written out where the code has them.  A method on [&mut self] is a
    function from state to state, paired with its result when it has one: state
    changes on error paths are kept.  [HashMap]s are [gmap]s; the iteration order is
    whatever [map_to_list] gives, and no theorem depends on it.  A mutex-guarded method
    is one atomic step; a request of the control plane that locks twice is two steps, and
    the theorems on runs interleave them.  Log lines are left out.
    The clock readings of one HTTP request coincide, and so do those of one arm of the
    session's loop; what the application does for a session is the class [SessionApp].
    [session_step] is undefined on a timer that is not due.  Where a request awaits between its
    steps, an argument [others] is what the other requests did to the state meanwhile.  [f64]
    is [SpecFloat]'s binary64.

    Fuel.  [hex_go] prints a [u64] in hexadecimal with fuel 16, the number of its digits
    ([hex_u64_inj]).  [words] splits a string with its length as fuel.  [read_back] and
    [gather] follow page and chunk cursors, and [shrink] and [shrink_threads] are the loops
    of a reduction; the termination theorems of [Pages] and [SnapshotTheorems] show
    that the fuel they are given suffices.  [issue_new_relay_ids] runs on a list of drawn
    ids, and fails with [StillDrawing] when none of them is free.  [flush_rounds]
    has as fuel the number of deltas, and publishes at least one a round ([flush_task]).
    A wait of [TeamControl] or [TeamDrive] asks [HowLong] for the number of its rounds: the answer
    is arbitrary, and a finite execution needs finitely many.
    Every other recursion is structural.  Theorems about the broker's connection counter
    assume that it has not wrapped: fewer than 2^64 joins in a process.

    ** What is not modelled

    Sockets, routing tables and the serving of files, file I/O, SQL beyond per-table upserts,
    updates and deletes, writers to the broker's database other than the broker, provider
    processes, and the rendering of pairing URLs and QR codes; the frontend, the desktop shell
    and the JavaScript worker.  The start-up configuration of the control plane.
    The application layer (state/app/) other than team runs: its handlers are async tasks over
    providers, git and the state; the operations on the state they call are the components
    above, their own sequencing is not modelled.  Usage accounting is a SQLite store and reports over it.  The
    writers of the legacy transcript.  The serde form of a whole run and its persistence are
    left out, the fields that decide what a restored run may do are not. *)

From Stdlib Require Import ZArith Lia.
From stdpp Require Export base tactics option list strings gmap fin_maps pretty.

#[global] Set Default Proof Using "Type".

(** ** Results

    [Result<A, E>] of the source.  The [?] operator is the notation
    [let? x := c in k]: an error leaves the function at once. *)
Inductive result (A E : Type) : Type :=
| Ok (a : A)
| Err (e : E).
Arguments Ok {A E} a.
Arguments Err {A E} e.

Declare Scope rust_scope.
Delimit Scope rust_scope with rust.

Notation "'let?' x ':=' c 'in' k" :=
  (match c with Ok x => k | Err e => Err e end)
  (at level 10, x pattern, c at level 100, k at level 200,
   format "'let?'  x  ':='  c  'in' '//' k") : rust_scope.
Notation "c '?>' k" :=
  (match c with Ok _ => k | Err e => Err e end)
  (at level 199, k at level 200, right associativity,
   format "c  '?>' '//' k") : rust_scope.
Open Scope rust_scope.

#[export] Instance result_eq_dec {A E} `{EqDecision A, EqDecision E} :
  EqDecision (result A E).
Proof. solve_decision. Defined.

Definition is_ok {A E} (r : result A E) : bool :=
  match r with Ok _ => true | Err _ => false end.

(** [Option::ok_or]. *)
Definition ok_or {A E} (o : option A) (e : E) : result A E :=
  match o with Some a => Ok a | None => Err e end.

(** [Result::ok]. *)
Definition result_ok {A E} (r : result A E) : option A :=
  match r with Ok a => Some a | Err _ => None end.

(** [Option::is_some] and [Option::is_none]. *)
Definition is_some {A} (o : option A) : bool :=
  match o with Some _ => true | None => false end.
Definition is_none {A} (o : option A) : bool := negb (is_some o).

(** [Option::or]. *)
Definition option_or {A} (a b : option A) : option A :=
  match a with Some _ => a | None => b end.

(** [Option::get_or_insert_with]: the value kept in the slot. *)
Definition get_or_insert {A} (o : option A) (d : A) : option A :=
  match o with Some _ => o | None => Some d end.

(** Constructors that keep the proof of what they checked. *)
Definition try_with {A B E} (r : result A E) (k : ∀ a, r = Ok a → B) : result B E :=
  match r as r' return r = r' → result B E with
  | Ok a => λ H, Ok (k a H)
  | Err e => λ _, Err e
  end eq_refl.

Definition check_with {B E} (b : bool) (e : E) (k : b = true → B) : result B E :=
  match b as b' return b = b' → result B E with
  | true => λ H, Ok (k H)
  | false => λ _, Err e
  end eq_refl.

Lemma try_with_spec {A B E} (r : result A E) (k : ∀ a, r = Ok a → B) :
  match try_with r k with
  | Ok b => ∃ a H, b = k a H
  | Err e => r = Err e
  end.
Proof. destruct r; cbn; eauto. Qed.

Lemma check_with_spec {B E} (b : bool) (e : E) (k : b = true → B) :
  match check_with b e k with
  | Ok v => ∃ H, v = k H
  | Err e' => e' = e ∧ b = false
  end.
Proof. destruct b; cbn; eauto. Qed.

Lemma ok_or_Ok {A E} (o : option A) (e : E) a :
  ok_or o e = Ok a ↔ o = Some a.
Proof. destruct o; naive_solver. Qed.

Lemma is_some_true {A} (o : option A) : is_some o = true ↔ is_Some o.
Proof. rewrite <- not_eq_None_Some. destruct o; cbn; naive_solver. Qed.

Lemma is_some_false {A} (o : option A) : is_some o = false ↔ o = None.
Proof. destruct o; cbn; split; congruence. Qed.

(** ** Machine integers

    A [u32], [u64] or [usize] is a [Z]; the operations that can leave the
    width say how they come back into it. *)
Open Scope Z_scope.

Definition u32_max : Z := 2 ^ 32 - 1.
Definition u64_max : Z := 2 ^ 64 - 1.
Definition in_u32 (z : Z) : Prop := 0 ≤ z ≤ u32_max.
Definition in_u64 (z : Z) : Prop := 0 ≤ z ≤ u64_max.

(** [a + b] in a build without overflow checks, and [wrapping_add]. *)
Definition u32_add (a b : Z) : Z := (a + b) mod 2 ^ 32.
Definition u64_add (a b : Z) : Z := (a + b) mod 2 ^ 64.
Definition u64_saturating_add (a b : Z) : Z := Z.min (a + b) u64_max.
Definition u64_saturating_sub (a b : Z) : Z := Z.max 0 (a - b).
Definition u64_clamp (x lo hi : Z) : Z := Z.max lo (Z.min x hi).

Lemma u64_add_small a b : 0 ≤ a → 0 ≤ b → a + b ≤ u64_max → u64_add a b = a + b.
Proof. unfold u64_add, u64_max. intros. apply Z.mod_small. lia. Qed.

Lemma u64_add_range a b : in_u64 (u64_add a b).
Proof.
  unfold in_u64, u64_add, u64_max.
  pose proof (Z.mod_pos_bound (a + b) (2 ^ 64) ltac:(lia)). lia.
Qed.

Lemma u32_add_range a b : in_u32 (u32_add a b).
Proof.
  unfold in_u32, u32_add, u32_max.
  pose proof (Z.mod_pos_bound (a + b) (2 ^ 32) ltac:(lia)). lia.
Qed.

(** ** Field update

    [r <| f := v |>] is the record [r] with field [f] replaced.  A record
    type declares how it is rebuilt from its projections ([Expand]); the
    setter of a field abstracts that field's projection in the rebuilding
    function. *)
Class Expand (R : Type) := expand : R → R.
Class Setter {R T : Type} (proj : R → T) := set_field : (T → T) → R → R.
Arguments set_field {R T} proj {_} _ _.

Ltac find_setter :=
  lazymatch goal with
  | |- @Setter ?R ?T ?proj =>
      let e := constr:(_ : Expand R) in
      let e := eval hnf in e in
      lazymatch eval pattern proj in e with
      | ?F proj =>
          let s := constr:(fun (g : T → T) (r : R) => F (fun x => g (proj x)) r) in
          let s := eval cbv beta in s in
          exact s
      end
  end.
#[export] Hint Extern 1 (Setter _) => find_setter : typeclass_instances.

Notation "r <| f := v |>" := (set_field f (fun _ => v) r)
  (at level 1, left associativity, format "r  <|  f  :=  v  |>") : rust_scope.
Notation "r <| f ::= g |>" := (set_field f g r)
  (at level 1, left associativity, format "r  <|  f  ::=  g  |>") : rust_scope.

(** An update that leaves the field as it was: [set_noop p f r] replaces
    [r <| p ::= f |>] by [r], with the equation on the field as a first goal. *)
Ltac set_noop p f r :=
  let H := fresh in
  assert (set_field p f r = r) as H;
  [ destruct r; unfold set_field; cbn in *; f_equal | rewrite H; clear H ].

(** ** Shared automation *)

(** Case analysis on the [if]s and [match]es of the goal or a hypothesis. *)
Ltac case_if :=
  match goal with
  | |- context [if ?b then _ else _] => destruct b eqn:?
  | H : context [if ?b then _ else _] |- _ => destruct b eqn:?
  end.
Ltac case_mt :=
  match goal with
  | |- context [match ?x with _ => _ end] => destruct x eqn:?
  | H : context [match ?x with _ => _ end] |- _ => destruct x eqn:?
  end.

Create HintDb relay.
Create HintDb relay_rw.

(** ** Reachability

    The states a component can be in: those an initial state reaches by
    finitely many steps. *)
Section Reachability.
Context {S L : Type} (init : S → Prop) (step : S → L → S → Prop).

Inductive reachable : S → Prop :=
| reach_init s : init s → reachable s
| reach_step s l s' : reachable s → step s l s' → reachable s'.

Lemma reachable_ind_inv (I : S → Prop) :
  (∀ s, init s → I s) →
  (∀ s l s', reachable s → I s → step s l s' → I s') →
  ∀ s, reachable s → I s.
Proof using Type. intros Hi Hs s Hr. induction Hr; eauto. Qed.
End Reachability.
