(* ===== verification/RustStr.v ===== *)
(** * Rust strings

    A Rust [str] is a sequence of UTF-8 bytes, here Rocq's [string].  This file
    holds the operations of [str] the relay uses: [trim] (Unicode white space),
    [starts_with], [ends_with], [contains], [split_once], [to_ascii_lowercase],
    [chars], and the ASCII character classes, with the lemmas the components
    share. *)

From Stdlib Require Import ZArith Lia Ascii.
From S2P Require Import Prelude.

Open Scope string_scope.
Open Scope Z_scope.

(** [++] on strings computes on its first argument under [cbn]. *)
#[global] Arguments String.append !_ _ / : simpl nomatch.

(** ** Bytes *)

Definition byte_val (a : ascii) : Z := Z.of_nat (nat_of_ascii a).

Lemma byte_val_range a : 0 ≤ byte_val a < 256.
Proof. unfold byte_val. pose proof (nat_ascii_bounded a). lia. Qed.

Lemma byte_val_inj a b : byte_val a = byte_val b → a = b.
Proof.
  unfold byte_val. intros H.
  rewrite <- (ascii_nat_embedding a), <- (ascii_nat_embedding b). f_equal. lia.
Qed.

Definition in_range (lo x hi : Z) : bool := (lo <=? x) && (x <=? hi).

Lemma in_range_true lo x hi : in_range lo x hi = true ↔ lo ≤ x ≤ hi.
Proof. unfold in_range. rewrite andb_true_iff, !Z.leb_le. done. Qed.

Lemma in_range_false lo x hi : in_range lo x hi = false ↔ x < lo ∨ hi < x.
Proof. unfold in_range. rewrite andb_false_iff, !Z.leb_gt. lia. Qed.

(** [u8::is_ascii_alphanumeric] / [char::is_ascii_alphanumeric]. *)
Definition is_ascii_alphanumeric (a : ascii) : bool :=
  let z := byte_val a in
  in_range 48 z 57 || in_range 65 z 90 || in_range 97 z 122.

(** [to_ascii_lowercase] on one byte and on a string. *)
Definition ascii_lower (a : ascii) : ascii :=
  let z := byte_val a in
  if in_range 65 z 90 then ascii_of_nat (Z.to_nat (z + 32)) else a.

Fixpoint string_map (f : ascii → ascii) (s : string) : string :=
  match s with
  | EmptyString => EmptyString
  | String a s' => String (f a) (string_map f s')
  end.

Definition to_ascii_lowercase (s : string) : string := string_map ascii_lower s.

Fixpoint string_forall (p : ascii → bool) (s : string) : bool :=
  match s with
  | EmptyString => true
  | String a s' => p a && string_forall p s'
  end.

Fixpoint string_rev_app (s acc : string) : string :=
  match s with
  | EmptyString => acc
  | String a s' => string_rev_app s' (String a acc)
  end.
Definition string_rev (s : string) : string := string_rev_app s EmptyString.
#[global] Arguments string_rev : simpl never.

Definition is_empty (s : string) : bool :=
  match s with EmptyString => true | _ => false end.

(** [String::len]: the number of bytes. *)
Definition str_len (s : string) : Z := Z.of_nat (String.length s).

(** ** White space and [trim]

    The code points with the Unicode property White_Space, as their UTF-8
    encodings of one, two or three bytes. *)
Definition is_ws1 (a : ascii) : bool :=
  let z := byte_val a in in_range 9 z 13 || (z =? 32).
Definition is_ws2 (a b : ascii) : bool :=
  (byte_val a =? 194) && ((byte_val b =? 133) || (byte_val b =? 160)).
Definition is_ws3 (a b c : ascii) : bool :=
  let x := byte_val a in let y := byte_val b in let z := byte_val c in
  ((x =? 225) && (y =? 154) && (z =? 128))
  || ((x =? 226) && (y =? 128)
      && (in_range 128 z 138 || (z =? 168) || (z =? 169) || (z =? 175)))
  || ((x =? 226) && (y =? 129) && (z =? 159))
  || ((x =? 227) && (y =? 128) && (z =? 128)).

Fixpoint trim_start (s : string) : string :=
  match s with
  | EmptyString => EmptyString
  | String a s1 =>
      if is_ws1 a then trim_start s1 else
      match s1 with
      | EmptyString => s
      | String b s2 =>
          if is_ws2 a b then trim_start s2 else
          match s2 with
          | EmptyString => s
          | String c s3 => if is_ws3 a b c then trim_start s3 else s
          end
      end
  end.

(** [trim_start] on the reversed bytes: the encodings are read backwards. *)
Fixpoint trim_start_rev (s : string) : string :=
  match s with
  | EmptyString => EmptyString
  | String a s1 =>
      if is_ws1 a then trim_start_rev s1 else
      match s1 with
      | EmptyString => s
      | String b s2 =>
          if is_ws2 b a then trim_start_rev s2 else
          match s2 with
          | EmptyString => s
          | String c s3 => if is_ws3 c b a then trim_start_rev s3 else s
          end
      end
  end.

Definition trim_end (s : string) : string := string_rev (trim_start_rev (string_rev s)).
Definition trim (s : string) : string := trim_end (trim_start s).

(** [str::trim().is_empty()], the check the sources write most often. *)
Definition is_blank (s : string) : bool := is_empty (trim s).

(** ** Prefixes, suffixes, substrings *)

Fixpoint starts_with (p s : string) : bool :=
  match p, s with
  | EmptyString, _ => true
  | String a p', String b s' => Ascii.eqb a b && starts_with p' s'
  | String _ _, EmptyString => false
  end.

Definition ends_with (p s : string) : bool :=
  starts_with (string_rev p) (string_rev s).

Fixpoint contains (p s : string) : bool :=
  starts_with p s ||
  match s with EmptyString => false | String _ s' => contains p s' end.

(** [str::split_once] on one ASCII character. *)
Fixpoint split_once (c : ascii) (s : string) : option (string * string) :=
  match s with
  | EmptyString => None
  | String a s' =>
      if Ascii.eqb a c then Some (EmptyString, s')
      else match split_once c s' with
           | Some (l, r) => Some (String a l, r)
           | None => None
           end
  end.

(** ** Characters

    [chars] decodes the scalar values of a UTF-8 string.  A Rust [str] is always
    valid UTF-8; on bytes that no valid string holds (an overlong encoding) the
    decoder yields the lead byte, so no such sequence reads as ASCII. *)
Definition scalar (lead v : Z) : Z := if v <? 128 then lead else v.
Definition cont (a : ascii) : Z := byte_val a mod 64.

Fixpoint chars (s : string) : list Z :=
  match s with
  | EmptyString => []
  | String a s1 =>
      let z := byte_val a in
      if z <? 192 then z :: chars s1 else
      match s1 with
      | EmptyString => [z]
      | String b s2 =>
          if z <? 224 then scalar z (z mod 32 * 64 + cont b) :: chars s2 else
          match s2 with
          | EmptyString => [z]
          | String c s3 =>
              if z <? 240 then scalar z (z mod 16 * 4096 + cont b * 64 + cont c) :: chars s3 else
              match s3 with
              | EmptyString => [z]
              | String d s4 =>
                  scalar z (z mod 8 * 262144 + cont b * 4096 + cont c * 64 + cont d) :: chars s4
              end
          end
      end
  end.

(** ** Lemmas *)

Lemma string_rev_app_spec s acc : string_rev_app s acc = string_rev s ++ acc.
Proof.
  unfold string_rev. revert acc.
  induction s as [|a s IH]; intros acc; cbn; [done|].
  rewrite IH, (IH (String a "")).
  enough (∀ x y z : string, (x ++ y) ++ z = x ++ (y ++ z)) as ->; [done|].
  intros x y z. induction x; cbn; congruence.
Qed.

Lemma string_app_assoc (x y z : string) : (x ++ y) ++ z = x ++ (y ++ z).
Proof. induction x; cbn; congruence. Qed.

Lemma string_app_nil_r (x : string) : x ++ "" = x.
Proof. induction x; cbn; congruence. Qed.

Lemma string_rev_cons a s : string_rev (String a s) = string_rev s ++ String a "".
Proof. unfold string_rev at 1. cbn. apply string_rev_app_spec. Qed.

Lemma string_rev_append s t : string_rev (s ++ t) = string_rev t ++ string_rev s.
Proof.
  induction s as [|a s IH]; cbn; [by rewrite string_app_nil_r|].
  by rewrite !string_rev_cons, IH, string_app_assoc.
Qed.

Lemma string_rev_involutive s : string_rev (string_rev s) = s.
Proof.
  induction s as [|a s IH]; [done|].
  rewrite string_rev_cons, string_rev_append, IH. done.
Qed.

Lemma string_rev_empty s : string_rev s = "" ↔ s = "".
Proof.
  split; [|by intros ->]. intros H.
  by rewrite <- (string_rev_involutive s), H.
Qed.

Lemma starts_with_spec p s : starts_with p s = true ↔ ∃ t, s = p ++ t.
Proof.
  revert s. induction p as [|a p IH]; intros s; cbn.
  - split; [by exists s | done].
  - destruct s as [|b s]; cbn.
    + split; [done | by intros [t Ht]].
    + rewrite andb_true_iff, Ascii.eqb_eq, IH. split.
      * intros [-> [t ->]]. by exists t.
      * intros [t Ht]. injection Ht as -> ->. split; eauto.
Qed.

Lemma contains_spec p s : contains p s = true ↔ ∃ l r, s = l ++ p ++ r.
Proof.
  induction s as [|a s IH]; cbn [contains].
  - rewrite orb_false_r, starts_with_spec. split.
    + intros [t Ht]. by exists "", t.
    + intros (l & r & H). destruct l; [by exists r | done].
  - rewrite orb_true_iff, starts_with_spec, IH. split.
    + intros [[t Ht] | (l & r & ->)]; [by exists "", t | by exists (String a l), r].
    + intros (l & r & H). destruct l as [|b l]; cbn in H.
      * left. by exists r.
      * right. injection H as -> ->. eauto.
Qed.

Lemma ends_with_spec p s : ends_with p s = true ↔ ∃ t, s = t ++ p.
Proof.
  unfold ends_with. rewrite starts_with_spec. split; intros [t Ht].
  - exists (string_rev t).
    by rewrite <- (string_rev_involutive s), Ht, string_rev_append, string_rev_involutive.
  - exists (string_rev t). by rewrite Ht, string_rev_append.
Qed.

Lemma contains_refl s : contains s s = true.
Proof. apply contains_spec. exists "", "". by rewrite string_app_nil_r. Qed.

Lemma contains_app_r p s t : contains p t = true → contains p (s ++ t) = true.
Proof.
  rewrite !contains_spec. intros (l & r & ->). exists (s ++ l), r.
  by rewrite string_app_assoc.
Qed.

Lemma contains_app_l p s t : contains p s = true → contains p (s ++ t) = true.
Proof.
  rewrite !contains_spec. intros (l & r & ->). exists l, (r ++ t).
  by rewrite !string_app_assoc.
Qed.

Lemma split_once_spec c s l r :
  split_once c s = Some (l, r) →
  s = l ++ String c r ∧ string_forall (λ a, negb (Ascii.eqb a c)) l = true.
Proof.
  revert l r. induction s as [|a s IH]; intros l r H; [done|]. cbn in H.
  destruct (Ascii.eqb_spec a c) as [->|Hne].
  - injection H as <- <-. done.
  - destruct (split_once c s) as [[l' r']|] eqn:E; [|done].
    injection H as <- <-. destruct (IH _ _ eq_refl) as [-> Hl]. cbn.
    rewrite Hl. destruct (Ascii.eqb_spec a c); done.
Qed.

Lemma split_once_app c l r :
  string_forall (λ a, negb (Ascii.eqb a c)) l = true →
  split_once c (l ++ String c r) = Some (l, r).
Proof.
  induction l as [|a l IH]; cbn.
  - by rewrite Ascii.eqb_refl.
  - rewrite andb_true_iff, negb_true_iff. intros [-> Hl]. by rewrite IH.
Qed.

Lemma string_forall_app p s t :
  string_forall p (s ++ t) = string_forall p s && string_forall p t.
Proof. induction s; cbn; [done|]. rewrite IHs. by rewrite andb_assoc. Qed.

Lemma string_forall_rev p s : string_forall p (string_rev s) = string_forall p s.
Proof.
  induction s as [|a s IH]; [done|].
  rewrite string_rev_cons, string_forall_app, IH. cbn. rewrite andb_true_r.
  apply andb_comm.
Qed.

Lemma string_forall_impl p q s :
  (∀ a, p a = true → q a = true) → string_forall p s = true → string_forall q s = true.
Proof.
  intros Hpq. induction s; cbn; [done|]. rewrite !andb_true_iff. naive_solver.
Qed.

Lemma is_empty_true s : is_empty s = true ↔ s = "".
Proof. destruct s; naive_solver. Qed.

Lemma is_empty_false s : is_empty s = false ↔ s ≠ "".
Proof. destruct s; naive_solver. Qed.

(** A string that starts and ends with bytes that no white-space encoding
    uses is left alone by [trim]. *)
Lemma trim_start_id a s : byte_val a < 128 → is_ws1 a = false → trim_start (String a s) = String a s.
Proof.
  intros Ha Hw. cbn. rewrite Hw. destruct s as [|b s]; [done|].
  assert (is_ws2 a b = false) as ->.
  { unfold is_ws2. destruct (Z.eqb_spec (byte_val a) 194); [lia|done]. }
  destruct s as [|c s]; [done|].
  assert (is_ws3 a b c = false) as ->; [|done].
  unfold is_ws3.
  destruct (Z.eqb_spec (byte_val a) 225); [lia|].
  destruct (Z.eqb_spec (byte_val a) 226); [lia|].
  destruct (Z.eqb_spec (byte_val a) 227); [lia|]. done.
Qed.

Lemma trim_start_rev_id a s :
  byte_val a < 128 → is_ws1 a = false → trim_start_rev (String a s) = String a s.
Proof.
  intros Ha Hw. cbn. rewrite Hw. destruct s as [|b s]; [done|].
  assert (is_ws2 b a = false) as ->.
  { unfold is_ws2. destruct (Z.eqb_spec (byte_val a) 133); [lia|].
    destruct (Z.eqb_spec (byte_val a) 160); [lia|]. by rewrite andb_false_r. }
  destruct s as [|c s]; [done|].
  assert (is_ws3 c b a = false) as ->; [|done].
  unfold is_ws3, in_range.
  repeat match goal with
  | |- context [byte_val a =? ?k] => destruct (Z.eqb_spec (byte_val a) k); [lia|]
  | |- context [?k <=? byte_val a] => destruct (Z.leb_spec k (byte_val a)); [lia|]
  end.
  by rewrite ?andb_false_r.
Qed.

(** ** ASCII strings: one character per byte *)

Definition is_ascii_byte (a : ascii) : bool := byte_val a <? 128.

Fixpoint bytes (s : string) : list Z :=
  match s with EmptyString => [] | String a s' => byte_val a :: bytes s' end.

Lemma scalar_ge lead v : 192 ≤ lead → 128 ≤ scalar lead v.
Proof. unfold scalar. intros. destruct (Z.ltb_spec v 128); lia. Qed.

(** If every character is below 128 then the characters are the bytes. *)
Lemma chars_ascii s : Forall (λ c, c < 128) (chars s) → chars s = bytes s.
Proof.
  induction s as [|a s IH]; [done|]. cbn [chars bytes].
  destruct (Z.ltb_spec (byte_val a) 192).
  - intros [_ H2]%Forall_cons. by rewrite IH.
  - assert (∀ v l, Forall (λ c, c < 128) (scalar (byte_val a) v :: l) → False) as Hno.
    { intros v l [Hc _]%Forall_cons. pose proof (scalar_ge (byte_val a) v). lia. }
    assert (¬ Forall (λ c, c < 128) [byte_val a]) as Hno1.
    { rewrite Forall_singleton. lia. }
    intros HF. exfalso.
    destruct s as [|b [|c [|d s]]]; repeat case_if; eauto.
Qed.

Lemma bytes_string_forall (P : Z → Prop) q s :
  (∀ a, P (byte_val a) → q a = true) → Forall P (bytes s) → string_forall q s = true.
Proof.
  intros Hq. induction s as [|a s IH]; cbn; [done|].
  intros [Ha Hs]%Forall_cons. by rewrite Hq, IH.
Qed.

(** ** Characters of a UTF-8 string, taken from the front

    [s.chars().take(n).collect::<String>()]: whole encodings, by lead byte. *)
Fixpoint take_chars (n : nat) (s : string) : string :=
  match n with
  | O => EmptyString
  | S n =>
      match s with
      | EmptyString => EmptyString
      | String a s1 =>
          let z := byte_val a in
          if z <? 192 then String a (take_chars n s1) else
          match s1 with
          | EmptyString => s
          | String b s2 =>
              if z <? 224 then String a (String b (take_chars n s2)) else
              match s2 with
              | EmptyString => s
              | String c s3 =>
                  if z <? 240 then String a (String b (String c (take_chars n s3))) else
                  match s3 with
                  | EmptyString => s
                  | String d s4 => String a (String b (String c (String d (take_chars n s4))))
                  end
              end
          end
      end
  end.

(** A string of ASCII characters from their codes. *)
Fixpoint of_codes (cs : list Z) : string :=
  match cs with
  | [] => EmptyString
  | c :: cs => String (ascii_of_nat (Z.to_nat c)) (of_codes cs)
  end.

Lemma chars_take_chars n s : chars (take_chars n s) = take n (chars s).
Proof.
  revert s. induction n as [|n IH]; intros s; [done|].
  destruct s as [|a s1]; [done|]. cbn [take_chars chars].
  destruct (byte_val a <? 192) eqn:E1; [cbn; by rewrite E1, IH|].
  destruct s1 as [|b s2]; [cbn; rewrite E1; by destruct n|].
  destruct (byte_val a <? 224) eqn:E2; [cbn; by rewrite E1, E2, IH|].
  destruct s2 as [|c s3]; [cbn; rewrite E1, E2; by destruct n|].
  destruct (byte_val a <? 240) eqn:E3; [cbn; by rewrite E1, E2, E3, IH|].
  destruct s3 as [|d s4]; [cbn; rewrite E1, E2, E3; by destruct n|].
  cbn. by rewrite E1, E2, E3, IH.
Qed.

(** [s.chars().skip(n).collect::<String>()]. *)
Fixpoint drop_chars (n : nat) (s : string) : string :=
  match n with
  | O => s
  | S n =>
      match s with
      | EmptyString => EmptyString
      | String a s1 =>
          let z := byte_val a in
          if z <? 192 then drop_chars n s1 else
          match s1 with
          | EmptyString => EmptyString
          | String b s2 =>
              if z <? 224 then drop_chars n s2 else
              match s2 with
              | EmptyString => EmptyString
              | String c s3 =>
                  if z <? 240 then drop_chars n s3 else
                  match s3 with
                  | EmptyString => EmptyString
                  | String d s4 => drop_chars n s4
                  end
              end
          end
      end
  end.

Lemma take_drop_chars n s : (take_chars n s ++ drop_chars n s)%string = s.
Proof.
  revert s. induction n as [|n IH]; intros s; [done|].
  destruct s as [|a s1]; [done|]. cbn [take_chars drop_chars].
  destruct (byte_val a <? 192); [cbn; by rewrite IH|]. destruct s1 as [|b s2]; [done|].
  destruct (byte_val a <? 224); [cbn; by rewrite IH|]. destruct s2 as [|c s3]; [done|].
  destruct (byte_val a <? 240); [cbn; by rewrite IH|]. destruct s3 as [|d s4]; [done|].
  cbn. by rewrite IH.
Qed.

Lemma chars_drop_chars n s : chars (drop_chars n s) = drop n (chars s).
Proof.
  revert s. induction n as [|n IH]; intros s; [done|].
  destruct s as [|a s1]; [done|]. cbn [drop_chars chars].
  destruct (byte_val a <? 192); [cbn; by rewrite IH|].
  destruct s1 as [|b s2]; [cbn; by destruct n|].
  destruct (byte_val a <? 224); [cbn; by rewrite IH|].
  destruct s2 as [|c s3]; [cbn; by destruct n|].
  destruct (byte_val a <? 240); [cbn; by rewrite IH|].
  destruct s3 as [|d s4]; [cbn; by destruct n|].
  cbn. by rewrite IH.
Qed.

Lemma drop_chars_add a b s : drop_chars b (drop_chars a s) = drop_chars (a + b) s.
Proof.
  revert s. induction a as [|a IH]; intros s; [done|]. cbn [Nat.add drop_chars].
  destruct s as [|x s1]; [by destruct b|].
  destruct (byte_val x <? 192); [apply IH|]. destruct s1 as [|y s2]; [by destruct b|].
  destruct (byte_val x <? 224); [apply IH|]. destruct s2 as [|z s3]; [by destruct b|].
  destruct (byte_val x <? 240); [apply IH|]. destruct s3 as [|w s4]; [by destruct b|]. apply IH.
Qed.

Lemma drop_chars_all n s : (length (chars s) <= n)%nat → drop_chars n s = "".
Proof.
  intros Hn. assert (chars (drop_chars n s) = []) as H by (rewrite chars_drop_chars; by apply drop_ge).
  destruct (drop_chars n s) as [|a s1]; [done|]. exfalso. cbn in H. repeat case_match; done.
Qed.

Lemma take_chars_all n s : (length (chars s) <= n)%nat → take_chars n s = s.
Proof.
  intros Hn. rewrite <- (take_drop_chars n s) at 2.
  by rewrite (drop_chars_all n s Hn), string_app_nil_r.
Qed.
