(* ===== verification/Json.v ===== *)
(** * JSON and its decoders

    The errors of the orchestration protocol's bounded values ([ProtocolValueError] of
    crates/relay-api/src/orchestration.rs), and serde's data model. *)

From Stdlib Require Import ZArith Lia.
From S2P Require Import Prelude RustStr.

Inductive ProtocolValueError : Type :=
| Empty (field : string)
| TooLong (field : string) (max actual : Z)
| InvalidCharacter (field : string) (character : Z)
| InvalidTokenShape (field : string)
| TooManyItems (field : string) (max actual : Z)
| NoCompatibleProtocol (local_min local_max peer_min peer_max : Z)
| UnsupportedLocalProtocolRange (requested_min requested_max supported_min supported_max : Z)
| InvalidRange (min max : Z)
| UnsupportedProtocolVersion (version : Z)
| MalformedDriverProgress
| UnknownBackend.

#[export] Instance ProtocolValueError_eq_dec : EqDecision ProtocolValueError.
Proof. solve_decision. Defined.

(** ** The serde data model and the derived decoders

    [json] is what a self-describing deserializer (serde_json in this program)
    hands to a [Visitor]: null, booleans, the three number classes serde_json
    distinguishes, strings, sequences, and maps as the list of entries a
    [MapAccess] yields, duplicates included.  The decoders below are the ones
    serde's derive macro and its standard implementations give for the types the
    relay declares; hand-written visitors are modelled in the component files. *)
Open Scope string_scope.
Open Scope Z_scope.

Inductive json : Type :=
| JNull
| JBool (b : bool)
| JU64 (z : Z)
| JI64 (z : Z)
| JF64 (repr : string)
| JStr (s : string)
| JSeq (l : list json)
| JMap (es : list (string * json)).

(** Numbers are in the class serde_json reports them in. *)
Definition wf_u64 (z : Z) : bool := in_range 0 z u64_max.
Definition wf_i64 (z : Z) : bool := in_range (- 2 ^ 63) z (-1).

(** ** Decoding errors ([serde::de::Error]) *)
Inductive de_error : Type :=
| InvalidType
| InvalidValue
| InvalidLength
| UnknownField (field : string)
| DuplicateField (field : string)
| MissingField (field : string)
| UnknownVariant (variant : string)
| CustomValue (e : ProtocolValueError)
| Custom (msg : string).

Definition decoder (A : Type) : Type := json → result A de_error.

(** ** Standard implementations *)

Definition de_string : decoder string := λ j,
  match j with JStr s => Ok s | _ => Err InvalidType end.

Definition de_bool : decoder bool := λ j,
  match j with JBool b => Ok b | _ => Err InvalidType end.

Definition de_uint (max : Z) : decoder Z := λ j,
  match j with
  | JU64 z | JI64 z => if in_range 0 z max then Ok z else Err InvalidValue
  | _ => Err InvalidType
  end.
Definition de_u64 : decoder Z := de_uint u64_max.
Definition de_u32 : decoder Z := de_uint u32_max.

(** [Option<T>]: null is [None]. *)
Definition de_option {A} (d : decoder A) : decoder (option A) := λ j,
  match j with
  | JNull => Ok None
  | _ => let? a := d j in Ok (Some a)
  end.

Fixpoint de_list {A} (d : decoder A) (l : list json) : result (list A) de_error :=
  match l with
  | [] => Ok []
  | j :: l' => let? a := d j in let? r := de_list d l' in Ok (a :: r)
  end.

(** A derived enum of unit variants: the variant name as a string, or the
    externally tagged map form with a unit payload. *)
Definition de_unit_enum {A} (of_name : string → option A) : decoder A := λ j,
  match j with
  | JStr s => ok_or (of_name s) (UnknownVariant s)
  | JMap [(s, JNull)] => ok_or (of_name s) (UnknownVariant s)
  | _ => Err InvalidType
  end.

(** ** Derived structs

    A derived struct decodes from a map, or positionally from a sequence.  While
    the entries are read each known field is decoded in place and a second
    occurrence is an error; an unknown field is an error under
    [deny_unknown_fields] and skipped otherwise.  The fields are then taken from
    the entries. *)
Definition struct_entries (fields : list string) (j : json) :
    result (list (string * json)) de_error :=
  match j with
  | JMap es => Ok es
  | JSeq l => if bool_decide (length l ≤ length fields)%nat
              then Ok (zip fields l) else Err InvalidLength
  | _ => Err InvalidType
  end.

Fixpoint struct_scan (deny : bool) (check : string → option (json → result () de_error))
    (seen : list string) (es : list (string * json)) : result () de_error :=
  match es with
  | [] => Ok ()
  | (k, v) :: es' =>
      match check k with
      | None => if deny then Err (UnknownField k) else struct_scan deny check seen es'
      | Some d =>
          if bool_decide (k ∈ seen) then Err (DuplicateField k)
          else d v ?> struct_scan deny check (k :: seen) es'
      end
  end.

(** The entry of a field, first occurrence. *)
Fixpoint entry (k : string) (es : list (string * json)) : option json :=
  match es with
  | [] => None
  | (k', v) :: es' => if decide (k = k') then Some v else entry k es'
  end.

(** A required field, and one with [#[serde(default)]]. *)
Definition required {A} (k : string) (d : decoder A) (es : list (string * json)) :
    result A de_error :=
  match entry k es with Some v => d v | None => Err (MissingField k) end.
Definition defaulted {A} (k : string) (d : decoder A) (dflt : A) (es : list (string * json)) :
    result A de_error :=
  match entry k es with Some v => d v | None => Ok dflt end.

(** A decoder used only for whether it succeeds. *)
Definition checks {A} (d : decoder A) : json → result () de_error :=
  λ j, let? _ := d j in Ok ().

(** ** Encoding *)

(** An entry that is left out when the option is [None]
    ([skip_serializing_if = "Option::is_none"]). *)
Definition opt_entry {A} (k : string) (f : A → json) (o : option A) : list (string * json) :=
  match o with Some a => [(k, f a)] | None => [] end.

Definition ser_option {A} (f : A → json) (o : option A) : json :=
  match o with Some a => f a | None => JNull end.

(** ** Types that round-trip

    [Serde A] is the contract a type with both [Serialize] and [Deserialize]
    keeps: decoding what it encodes gives the value back.  [serde_valid] is what
    the Rust type guarantees of its values (integer widths).  [serde_nonnull]
    lets the type stand under [Option]. *)
Class Serde (A : Type) := {
  ser : A → json;
  de : decoder A;
  serde_valid : A → Prop;
  de_ser : ∀ a, serde_valid a → de (ser a) = Ok a;
  serde_nonnull : ∀ a, ser a ≠ JNull
}.

Lemma de_list_ser {A} `{Serde A} (l : list A) :
  Forall serde_valid l → de_list de (map ser l) = Ok l.
Proof.
  induction 1 as [|a l Ha Hl IH]; cbn; [done|]. by rewrite de_ser, IH.
Qed.

Lemma de_option_ser {A} `{Serde A} (o : option A) :
  (∀ a, o = Some a → serde_valid a) → de_option de (ser_option ser o) = Ok o.
Proof.
  intros Hv. destruct o as [a|]; cbn; [|done].
  pose proof (serde_nonnull a) as Hn. pose proof (de_ser a (Hv a eq_refl)) as Hd.
  unfold de_option. destruct (ser a); try done; by rewrite Hd.
Qed.

(** ** Lemmas on scans and entries *)

Lemma entry_elem k es v : entry k es = Some v → (k, v) ∈ es.
Proof.
  induction es as [|[k' v'] es IH]; cbn; [done|].
  case_decide; [intros [= ->]; subst; left | intros Hk; right; auto].
Qed.

Lemma entry_None k es : entry k es = None ↔ k ∉ es.*1.
Proof.
  induction es as [|[k' v'] es IH]; cbn.
  - split; [intros _; apply not_elem_of_nil | done].
  - rewrite not_elem_of_cons, <- IH. case_decide; naive_solver.
Qed.

Lemma struct_scan_keys deny check seen es :
  struct_scan deny check seen es = Ok () → deny = true →
  NoDup (es.*1) ∧ (∀ k, k ∈ es.*1 → is_Some (check k) ∧ k ∉ seen).
Proof.
  intros H Hd. revert seen H. induction es as [|[k v] es IH]; cbn; intros seen H.
  - split; [constructor | intros k Hk; by apply not_elem_of_nil in Hk].
  - destruct (check k) as [d|] eqn:Ck; [|by subst].
    case_bool_decide as Hin; [done|]. destruct (d v); [|done].
    destruct (IH _ H) as [Hnd Hk]. split.
    + constructor; [|done]. intros Hk'. apply Hk in Hk' as [_ Hns]. set_solver.
    + intros k' [->|Hk']%elem_of_cons; [by rewrite Ck; eauto|].
      apply Hk in Hk' as [? ?]. set_solver.
Qed.

(** ** Field tables

    A derived struct is its table of fields, each with the decoder that runs when
    its entry is met.  [derived_struct] is the part of the derived [visit_map] that
    reads the entries; positional input (the derived [visit_seq]) is the same
    entries in field order. *)
Definition field_table : Type := list (string * (json → result () de_error)).

Fixpoint field_check (tbl : field_table) (k : string) : option (json → result () de_error) :=
  match tbl with
  | [] => None
  | (k', d) :: tbl' => if decide (k = k') then Some d else field_check tbl' k
  end.

Definition derived_struct (deny : bool) (tbl : field_table) (j : json) :
    result (list (string * json)) de_error :=
  let? es := struct_entries tbl.*1 j in
  let? _ := struct_scan deny (field_check tbl) [] es in Ok es.

Lemma struct_scan_ok deny check seen es :
  Forall (λ e, ∃ d, check e.1 = Some d ∧ d e.2 = Ok ()) es → NoDup es.*1 →
  (∀ k, k ∈ es.*1 → k ∉ seen) → struct_scan deny check seen es = Ok ().
Proof.
  intros HF. revert seen. induction HF as [|[k v] es (d & Hc & Hd) _ IH]; intros seen Hnd Hs; [done|].
  cbn [fmap list_fmap fst] in Hnd, Hs. apply NoDup_cons in Hnd as [Hk Hnd].
  cbn [struct_scan]. cbn [fst snd] in Hc, Hd. rewrite Hc.
  rewrite bool_decide_eq_false_2 by (apply Hs; left). rewrite Hd.
  apply IH; [done|]. intros k' Hk'. rewrite not_elem_of_cons. split; [congruence|].
  apply Hs. by right.
Qed.

(** A map whose entries all check decodes to itself. *)
Lemma derived_struct_ok deny tbl es :
  Forall (λ e, ∃ d, field_check tbl e.1 = Some d ∧ d e.2 = Ok ()) es → NoDup es.*1 →
  derived_struct deny tbl (JMap es) = Ok es.
Proof.
  intros HF Hnd. unfold derived_struct, struct_entries.
  rewrite struct_scan_ok; auto using not_elem_of_nil.
Qed.

(** Under [deny_unknown_fields] the accepted maps name known fields, each once. *)
Lemma derived_struct_keys tbl es es' :
  derived_struct true tbl (JMap es) = Ok es' →
  es' = es ∧ NoDup es.*1 ∧ ∀ k, k ∈ es.*1 → is_Some (field_check tbl k).
Proof.
  unfold derived_struct, struct_entries. destruct (struct_scan _ _ _ _) as [[]|] eqn:E; [|done].
  intros [= <-]. apply struct_scan_keys in E as [Hnd Hk]; [|done].
  split_and!; try done. intros k Hk'. by apply Hk.
Qed.

Lemma required_Some {A} k (d : decoder A) es v :
  entry k es = Some v → required k d es = d v.
Proof. unfold required. by intros ->. Qed.

Lemma defaulted_entry {A} k (d : decoder A) dflt es :
  defaulted k d dflt es = match entry k es with Some v => d v | None => Ok dflt end.
Proof. done. Qed.

Lemma checks_ok {A} (d : decoder A) j a : d j = Ok a → checks d j = Ok ().
Proof. unfold checks. by intros ->. Qed.

(** ** Derived enums of unit variants *)
Class UnitEnum (A : Type) := {
  enum_name : A → string;
  enum_all : list A;
  enum_complete : ∀ a, a ∈ enum_all;
  enum_name_inj : ∀ a b, enum_name a = enum_name b → a = b
}.

Definition enum_of_name {A} `{UnitEnum A} (s : string) : option A :=
  find (λ a, bool_decide (enum_name a = s)) enum_all.

Definition enum_deserialize {A} `{UnitEnum A} : decoder A := de_unit_enum enum_of_name.
Definition enum_serialize {A} `{UnitEnum A} (a : A) : json := JStr (enum_name a).

Lemma enum_of_name_spec {A} `{UnitEnum A} s a : enum_of_name s = Some a ↔ enum_name a = s.
Proof.
  unfold enum_of_name. split.
  - intros [_ E]%find_some. by apply bool_decide_eq_true in E.
  - intros <-. pose proof (enum_complete a) as Ha. revert Ha.
    generalize enum_all. intros l. induction l as [|b l IH]; intros Ha.
    { by apply not_elem_of_nil in Ha. }
    cbn. destruct (bool_decide_reflect (enum_name b = enum_name a)) as [E|E].
    + f_equal. by apply enum_name_inj.
    + apply IH. apply elem_of_cons in Ha as [->|]; [done|done].
Qed.

#[export] Program Instance enum_serde {A} `{UnitEnum A} : Serde A := {|
  ser := enum_serialize; de := enum_deserialize; serde_valid := λ _, True |}.
Next Obligation.
  intros A ? a _. unfold enum_deserialize, enum_serialize, de_unit_enum.
  by rewrite (proj2 (enum_of_name_spec _ a) eq_refl).
Qed.
Next Obligation. done. Qed.

(** Both obligations of a concrete enum. *)
Ltac unit_enum :=
  first [ by intros []; apply (bool_decide_unpack _); vm_compute
        | by intros [] [] E; first [reflexivity | vm_compute in E; discriminate E] ].

(** ** Scalars *)
#[export] Program Instance u64_serde : Serde Z := {|
  ser := JU64; de := de_u64; serde_valid := in_u64 |}.
Next Obligation.
  intros a Ha. unfold de_u64, de_uint, in_range. unfold in_u64 in Ha.
  rewrite !(proj2 (Z.leb_le _ _)) by lia. done.
Qed.
Next Obligation. done. Qed.

#[export] Program Instance bool_serde : Serde bool := {|
  ser := JBool; de := de_bool; serde_valid := λ _, True |}.
Next Obligation. done. Qed.
Next Obligation. done. Qed.

Lemma de_u32_ok z : in_u32 z → de_u32 (JU64 z) = Ok z.
Proof.
  intros Hz. unfold de_u32, de_uint, in_range. unfold in_u32 in Hz.
  by rewrite !(proj2 (Z.leb_le _ _)) by lia.
Qed.

(** A decoded field is one of the table. *)
Lemma field_check_elem tbl k : is_Some (field_check tbl k) ↔ k ∈ tbl.*1.
Proof.
  induction tbl as [|[k' d] tbl IH]; cbn.
  - rewrite is_Some_alt, elem_of_nil. done.
  - rewrite elem_of_cons. case_decide; [|rewrite IH]; naive_solver.
Qed.

(** A decidable fact about every name of a list. *)
Lemma names_forall (p : string → bool) l k : forallb p l = true → k ∈ l → p k = true.
Proof. rewrite forallb_forall. intros H Hk. apply H. by apply list_elem_of_In. Qed.

Lemma de_ser_at {A} `{Serde A} (a : A) : serde_valid a → checks de (ser a) = Ok ().
Proof. intros Hv. eapply checks_ok. by apply de_ser. Qed.

(** ** Automation for derived structs *)

Lemma u64_de_ser z : in_u64 z → de_u64 (JU64 z) = Ok z.
Proof. exact (de_ser z). Qed.

Lemma opt_u64_de_ser z : in_u64 z → de_option de_u64 (JU64 z) = Ok (Some z).
Proof. intros H. cbn -[de_u64]. by rewrite u64_de_ser. Qed.

Lemma opt_string_de_ser s : de_option de_string (JStr s) = Ok (Some s).
Proof. done. Qed.

Lemma string_de_ser s : de_string (JStr s) = Ok s.
Proof. done. Qed.

Lemma enum_de_ser {A} `{UnitEnum A} (a : A) : de (ser a) = Ok a.
Proof. exact (de_ser a I). Qed.

#[export] Hint Resolve u64_de_ser opt_u64_de_ser opt_string_de_ser string_de_ser enum_de_ser
  de_u32_ok : relay.

(** The keys of a literal map differ, and each of its entries checks against its
    field. *)
Ltac struct_nodup := apply (bool_decide_unpack _); reflexivity.
Ltac struct_checks :=
  repeat constructor; cbn [fst snd]; (eexists; split; [reflexivity|]);
  eapply checks_ok; eauto with relay.

(** Reading a derived struct back from its own encoding: each field finds its own
    value. *)
Ltac read_field :=
  match goal with
  | |- context [required ?k ?d ?es] =>
      let v := eval hnf in (entry k es) in
      lazymatch v with Some ?x => rewrite (required_Some k d es x) by reflexivity end
  | |- context [defaulted ?k ?d ?a ?es] =>
      let v := eval hnf in (entry k es) in
      rewrite (defaulted_entry k d a es);
      replace (entry k es) with v by reflexivity; cbv iota beta
  end.
