(* ===== verification/TeamTypes.v ===== *)
(** * Task teams: vocabulary (crates/relay-api/src/team.rs)

    The closed enums of a team run with their wire names and their lenient
    decoders, the task definition ([TaskSpec]) with its two edits, and the records
    a run is made of: sub-tasks, retired team leads, parked questions, seats. *)

From Stdlib Require Import ZArith Lia.
From S2P Require Import Prelude RustStr Json.

Open Scope string_scope.
Open Scope Z_scope.

(** ** Ceilings *)
Definition MAX_SUBTASK_REVIEW_ROUNDS : Z := 2.
Definition MAX_MR_ROUNDS : Z := 2.
Definition MAX_TL_GENERATIONS : Z := 8.

(** ** Run status *)
Inductive TeamRunStatus : Type :=
| Queued | Running | PausePending | Paused | AwaitingUser | Done | Escalated
| Blocked | Resolving | Failed | Interrupted | Cancelled.

#[export] Instance TeamRunStatus_eq_dec : EqDecision TeamRunStatus.
Proof. solve_decision. Defined.

Definition status_as_str (s : TeamRunStatus) : string :=
  match s with
  | Queued => "queued"
  | Running => "running"
  | PausePending => "pause_pending"
  | Paused => "paused"
  | AwaitingUser => "awaiting_user"
  | Done => "done"
  | Escalated => "escalated"
  | Blocked => "blocked"
  | Resolving => "resolving"
  | Failed => "failed"
  | Interrupted => "interrupted"
  | Cancelled => "cancelled"
  end.

Definition status_from_wire (raw : string) : TeamRunStatus :=
  if decide (raw = "queued") then Queued
  else if decide (raw = "running") then Running
  else if decide (raw = "pause_pending") then PausePending
  else if decide (raw = "paused") then Paused
  else if decide (raw = "awaiting_user") then AwaitingUser
  else if decide (raw = "done") then Done
  else if decide (raw = "escalated") then Escalated
  else if decide (raw = "blocked") then Blocked
  else if decide (raw = "resolving") then Resolving
  else if decide (raw = "interrupted") then Interrupted
  else if decide (raw = "cancelled") then Cancelled
  else Failed.

Definition is_terminal (s : TeamRunStatus) : bool :=
  match s with Done | Escalated | Failed | Interrupted | Cancelled => true | _ => false end.

Definition is_resumable (s : TeamRunStatus) : bool :=
  match s with Paused => true | _ => false end.

Definition is_reopenable (s : TeamRunStatus) : bool :=
  match s with Done | Escalated | Interrupted | Failed => true | _ => false end.

Definition is_settled_without_driver (s : TeamRunStatus) : bool :=
  match s with Paused | Blocked | Resolving => true | _ => false end.

(** The [Option::<String>::deserialize] head every lenient decoder starts with:
    null and a missing name give the default, a string is looked up, anything
    else is a type error. *)
Definition de_lenient_name {A} (from_wire : string → A) (dflt : A) : decoder A := λ j,
  let? raw := de_option de_string j in
  Ok (match raw with Some s => from_wire s | None => dflt end).

Definition status_deserialize : decoder TeamRunStatus :=
  de_lenient_name status_from_wire Failed.

(** ** Pause kind *)
Inductive TeamPauseKind : Type := PauseUser | PauseProvider | PauseBoundary.

#[export] Instance TeamPauseKind_eq_dec : EqDecision TeamPauseKind.
Proof. solve_decision. Defined.

Definition pause_kind_as_str (k : TeamPauseKind) : string :=
  match k with
  | PauseUser => "user"
  | PauseProvider => "provider"
  | PauseBoundary => "boundary"
  end.

Definition pause_kind_from_wire (raw : string) : TeamPauseKind :=
  if decide (raw = "provider") then PauseProvider
  else if decide (raw = "boundary") then PauseBoundary
  else PauseUser.

Definition pause_kind_deserialize : decoder TeamPauseKind :=
  de_lenient_name pause_kind_from_wire PauseUser.

(** ** Phase *)
Inductive TeamPhase : Type :=
| Intake | Design | DesignReview | Planning | SubTasks | MrGate | Wrapping | Finished.

#[export] Instance TeamPhase_eq_dec : EqDecision TeamPhase.
Proof. solve_decision. Defined.

Definition phase_as_str (p : TeamPhase) : string :=
  match p with
  | Intake => "intake"
  | Design => "design"
  | DesignReview => "design_review"
  | Planning => "planning"
  | SubTasks => "sub_tasks"
  | MrGate => "mr_gate"
  | Wrapping => "wrapping"
  | Finished => "finished"
  end.

Definition phase_from_wire (raw : string) : TeamPhase :=
  if decide (raw = "intake") then Intake
  else if decide (raw = "design") then Design
  else if decide (raw = "design_review") then DesignReview
  else if decide (raw = "planning") then Planning
  else if decide (raw = "sub_tasks") then SubTasks
  else if decide (raw = "mr_gate") then MrGate
  else if decide (raw = "wrapping") then Wrapping
  else Finished.

Definition phase_deserialize : decoder TeamPhase := de_lenient_name phase_from_wire Intake.

(** ** Sub-task status *)
Inductive SubTaskStatus : Type :=
| SubPending | SubImplementing | SubDone | SubEscalated | SubFailed | SubSkipped
| SubSuperseded.

#[export] Instance SubTaskStatus_eq_dec : EqDecision SubTaskStatus.
Proof. solve_decision. Defined.

Definition sub_status_as_str (s : SubTaskStatus) : string :=
  match s with
  | SubPending => "pending"
  | SubImplementing => "implementing"
  | SubDone => "done"
  | SubEscalated => "escalated"
  | SubFailed => "failed"
  | SubSkipped => "skipped"
  | SubSuperseded => "superseded"
  end.

Definition sub_status_from_wire (raw : string) : SubTaskStatus :=
  if decide (raw = "pending") then SubPending
  else if decide (raw = "implementing") then SubImplementing
  else if decide (raw = "done") then SubDone
  else if decide (raw = "escalated") then SubEscalated
  else if decide (raw = "skipped") then SubSkipped
  else if decide (raw = "superseded") then SubSuperseded
  else SubFailed.

Definition sub_is_terminal (s : SubTaskStatus) : bool :=
  match s with
  | SubDone | SubEscalated | SubFailed | SubSkipped | SubSuperseded => true
  | _ => false
  end.

Definition sub_status_deserialize : decoder SubTaskStatus :=
  de_lenient_name sub_status_from_wire SubPending.

(** ** The task definition *)
Record TaskSpec : Type := MkTaskSpec {
  ts_title : string;
  ts_context : string;
  ts_acceptance_criteria : string;
  ts_agreed_scope : string;
  ts_quality_rules : string
}.
#[export] Instance TaskSpec_expand : Expand TaskSpec := λ r,
  MkTaskSpec (ts_title r) (ts_context r) (ts_acceptance_criteria r)
    (ts_agreed_scope r) (ts_quality_rules r).
Definition TaskSpec_default : TaskSpec := MkTaskSpec "" "" "" "" "".

Record TaskSpecUpdates : Type := MkTaskSpecUpdates {
  tu_title : option string;
  tu_context : option string;
  tu_acceptance_criteria : option string;
  tu_agreed_scope : option string;
  tu_quality_rules : option string
}.

Definition updates_is_empty (u : TaskSpecUpdates) : bool :=
  is_none (tu_title u) && is_none (tu_context u) && is_none (tu_acceptance_criteria u)
  && is_none (tu_agreed_scope u) && is_none (tu_quality_rules u).

Definition changed_fields (u : TaskSpecUpdates) : list string :=
  omap (λ '(name, present), if (present : bool) then Some name else None)
    [("title", is_some (tu_title u));
     ("context", is_some (tu_context u));
     ("acceptance criteria", is_some (tu_acceptance_criteria u));
     ("agreed scope", is_some (tu_agreed_scope u));
     ("quality rules", is_some (tu_quality_rules u))].

(** One iteration of the loop in [apply_updates]: the field afterwards and
    whether it was rewritten. *)
Definition apply_field (field : string) (value : option string) (changed : bool) :
    string * bool :=
  match value with
  | Some replacement => (replacement, true)
  | None => (field, changed)
  end.

Definition apply_updates (s : TaskSpec) (u : TaskSpecUpdates) : TaskSpec * bool :=
  let '(title, c) := apply_field (ts_title s) (tu_title u) false in
  let '(context, c) := apply_field (ts_context s) (tu_context u) c in
  let '(criteria, c) := apply_field (ts_acceptance_criteria s) (tu_acceptance_criteria u) c in
  let '(scope, c) := apply_field (ts_agreed_scope s) (tu_agreed_scope u) c in
  let '(rules, c) := apply_field (ts_quality_rules s) (tu_quality_rules u) c in
  (MkTaskSpec title context criteria scope rules, c).

(** The newline the source writes as [\n]. *)
Definition nl : string := String (Ascii.ascii_of_nat 10) "".

Definition widen_scope (s : TaskSpec) (addition : string) : TaskSpec * bool :=
  let addition := trim addition in
  if is_empty addition then (s, false)
  else if is_empty (trim (ts_agreed_scope s))
  then (s <| ts_agreed_scope := addition |>, true)
  else (s <| ts_agreed_scope :=
          ts_agreed_scope s ++ nl ++ nl ++ "Also in scope: " ++ addition |>, true).

(** ** Verdicts (crates/relay-api/src/lib.rs) *)
Record WorkflowVerdict : Type := MkVerdict {
  wv_approved : bool;
  wv_summary : option string;
  wv_findings : list string
}.
Definition verdict_approved : WorkflowVerdict := MkVerdict true None [].
Definition verdict_needs_changes (findings : list string) : WorkflowVerdict :=
  MkVerdict false None findings.

(** ** Sub-task ids *)

(** [mint_number]: [fetch_update] stores [max now (prev + 1)] in [last] and the
    call returns what it stored.  The addition is on [u64]. *)
Definition mint_number (last now : Z) : Z * Z :=
  let minted := Z.max now (u64_add last 1) in (minted, minted).

(** [format!("{:x}", n)]. *)
Definition hex_digit (d : Z) : Ascii.ascii :=
  Ascii.ascii_of_nat (Z.to_nat (if d <? 10 then 48 + d else 87 + d)).
Fixpoint hex_go (fuel : nat) (n : Z) (acc : string) : string :=
  match fuel with
  | O => acc
  | S f => let acc := String (hex_digit (n mod 16)) acc in
           if n / 16 =? 0 then acc else hex_go f (n / 16) acc
  end.
Definition hex_u64 (n : Z) : string := hex_go 16 n "".

(** [mint_sub_task_id]: the clock is an argument and the static [LAST] is
    threaded. *)
Definition mint_sub_task_id (last now : Z) : string * Z :=
  let '(minted, last') := mint_number last now in ("st-" ++ hex_u64 minted, last').

(** ** Sub-tasks *)
Record SubTask : Type := MkSubTask {
  st_id : string;
  st_title : string;
  st_brief : string;
  st_status : SubTaskStatus;
  st_rounds_used : Z;
  st_reruns : Z;
  st_base_commit : string;
  st_dev_thread_id : option string;
  st_reviewer_thread_id : option string;
  st_owned_thread_ids : list string;
  st_last_verdict : option WorkflowVerdict;
  st_result_summary : option string;
  st_digested : bool;
  st_error : option string;
  st_dev_turns_landed : Z;
  st_cycle : Z
}.
#[export] Instance SubTask_expand : Expand SubTask := λ r,
  MkSubTask (st_id r) (st_title r) (st_brief r) (st_status r) (st_rounds_used r)
    (st_reruns r) (st_base_commit r) (st_dev_thread_id r) (st_reviewer_thread_id r)
    (st_owned_thread_ids r) (st_last_verdict r) (st_result_summary r) (st_digested r)
    (st_error r) (st_dev_turns_landed r) (st_cycle r).
Definition SubTask_default : SubTask :=
  MkSubTask "" "" "" SubPending 0 0 "" None None [] None None false None 0 0.

Record TlGeneration : Type := MkTlGeneration {
  tg_thread_id : string;
  tg_reason : string;
  tg_retired_at : Z
}.
#[export] Instance TlGeneration_expand : Expand TlGeneration := λ r,
  MkTlGeneration (tg_thread_id r) (tg_reason r) (tg_retired_at r).

Record AwaitingUserRec : Type := MkAwaitingUser {
  au_thread_id : string;
  au_request_id : string;
  au_role : string;
  au_asked_at : Z
}.
#[export] Instance AwaitingUserRec_expand : Expand AwaitingUserRec := λ r,
  MkAwaitingUser (au_thread_id r) (au_request_id r) (au_role r) (au_asked_at r).
#[export] Instance AwaitingUserRec_eq_dec : EqDecision AwaitingUserRec.
Proof. solve_decision. Defined.

Inductive TeamThreadSlot : Type :=
| SlotTl
| SlotSubTaskDev (index : nat)
| SlotSubTaskReviewer (index : nat)
| SlotRunOwned (index : nat)
| SlotMrDev.

Inductive TeamRole : Type := RoleTl | RoleDev | RoleReviewer.

Definition role_as_str (r : TeamRole) : string :=
  match r with RoleTl => "tl" | RoleDev => "dev" | RoleReviewer => "reviewer" end.

(** ** Wire enums

    The contract of an enum written with [as_str] and read back with a
    [from_wire] that never fails. *)
Class WireEnum (A : Type) := {
  wire_name : A → string;
  wire_read : string → A;
  wire_default : A;
  wire_fallback : A;
  wire_read_name : ∀ a, wire_read (wire_name a) = a;
  wire_unknown : ∀ s, (∀ a, wire_name a ≠ s) → wire_read s = wire_fallback
}.

(** Each name the reader tests for is the name of the value it returns. *)
Ltac wire_other reader :=
  let s := fresh "s" in let H := fresh "H" in
  intros s H; unfold reader;
  repeat (let E := fresh "E" in case_decide as E;
    [ exfalso; match type of E with _ = ?n => apply (H (reader n)); by rewrite E end | ]);
  done.

#[export] Program Instance status_wire : WireEnum TeamRunStatus := {|
  wire_name := status_as_str; wire_read := status_from_wire;
  wire_default := Failed; wire_fallback := Failed |}.
Next Obligation. by intros []. Qed.
Next Obligation. wire_other status_from_wire. Qed.

#[export] Program Instance pause_kind_wire : WireEnum TeamPauseKind := {|
  wire_name := pause_kind_as_str; wire_read := pause_kind_from_wire;
  wire_default := PauseUser; wire_fallback := PauseUser |}.
Next Obligation. by intros []. Qed.
Next Obligation. wire_other pause_kind_from_wire. Qed.

#[export] Program Instance phase_wire : WireEnum TeamPhase := {|
  wire_name := phase_as_str; wire_read := phase_from_wire;
  wire_default := Intake; wire_fallback := Finished |}.
Next Obligation. by intros []. Qed.
Next Obligation. wire_other phase_from_wire. Qed.

#[export] Program Instance sub_status_wire : WireEnum SubTaskStatus := {|
  wire_name := sub_status_as_str; wire_read := sub_status_from_wire;
  wire_default := SubPending; wire_fallback := SubFailed |}.
Next Obligation. by intros []. Qed.
Next Obligation. wire_other sub_status_from_wire. Qed.
