(* ===== verification/Tokens.v ===== *)
(** * Bounded protocol values (crates/relay-api/src/orchestration.rs)

    Opaque identifiers, protocol versions and bounded vectors.  The Rust types
    have private fields and a validating constructor; here each is a record that
    carries the proof its constructor checked, so a value of the type is valid by
    construction.  The lenient field readers of the persisted records follow. *)

From Stdlib Require Import ZArith Lia.
From S2P Require Import Prelude RustStr Json.

Open Scope string_scope.
Open Scope Z_scope.

Definition CURRENT_PROTOCOL_VERSION : Z := 1.
Definition MIN_PROTOCOL_VERSION : Z := 1.
Definition MAX_OPAQUE_ID_LEN : Z := 96.
Definition MAX_DRIVER_VERSION_LEN : Z := 64.
Definition MAX_COMMAND_BINDINGS : Z := 16.
Definition MAX_CANDIDATE_THREADS : Z := 16.
Definition MAX_CURSOR_ARTIFACTS : Z := 64.

(** ** Token validation *)

(** [character.is_ascii_alphanumeric() || matches!(character, '-' | '_' | '.')]. *)
Definition token_char (c : Z) : bool :=
  in_range 48 c 57 || in_range 65 c 90 || in_range 97 c 122
  || (c =? 45) || (c =? 95) || (c =? 46).

(** The loop over [raw.chars()]: the first character that is not allowed. *)
Fixpoint first_bad_char (cs : list Z) : option Z :=
  match cs with
  | [] => None
  | c :: cs' => if token_char c then first_bad_char cs' else Some c
  end.

Definition validate_token (field raw : string) (max_len : Z) : result string ProtocolValueError :=
  if is_empty raw then Err (Empty field)
  else if max_len <? str_len raw then Err (TooLong field max_len (str_len raw))
  else match first_bad_char (chars raw) with
       | Some c => Err (InvalidCharacter field c)
       | None =>
           if starts_with "." raw || ends_with "." raw || contains ".." raw
           then Err (InvalidTokenShape field)
           else Ok raw
       end.

Lemma validate_token_same field raw max s : validate_token field raw max = Ok s → s = raw.
Proof. unfold validate_token. intros H. repeat case_if; repeat case_mt; congruence. Qed.

Lemma validate_token_fix field raw max s :
  validate_token field raw max = Ok s → validate_token field s max = Ok s.
Proof. intros H. by pose proof (validate_token_same _ _ _ _ H) as ->. Qed.

(** ** The [bounded_token!] newtypes *)
Record token (field : string) (max : Z) : Type := Token {
  token_str : string;
  token_valid : validate_token field token_str max = Ok token_str
}.
Arguments Token {field max} token_str token_valid.
Arguments token_str {field max} _.
Arguments token_valid {field max} _.

Lemma token_eq {field max} (a b : token field max) : token_str a = token_str b → a = b.
Proof.
  destruct a as [a Ha], b as [b Hb]; cbn. intros <-. f_equal. apply proof_irrel.
Qed.

#[export] Instance token_eq_dec {field max} : EqDecision (token field max).
Proof.
  intros a b. destruct (decide (token_str a = token_str b)) as [E|E].
  - left. by apply token_eq.
  - right. by intros ->.
Defined.

(** [$name::new]. *)
Definition token_new (field : string) (max : Z) (raw : string) :
    result (token field max) ProtocolValueError :=
  try_with (validate_token field raw max)
    (λ s H, Token s (validate_token_fix _ _ _ _ H)).

(** The [TokenVisitor]: strings only. *)
Definition token_deserialize (field : string) (max : Z) : decoder (token field max) := λ j,
  match j with
  | JStr s => match token_new field max s with Ok t => Ok t | Err e => Err (CustomValue e) end
  | _ => Err InvalidType
  end.

Definition token_serialize {field max} (t : token field max) : json := JStr (token_str t).

Definition CommandId : Type := token "command_id" MAX_OPAQUE_ID_LEN.
Definition EventId : Type := token "event_id" MAX_OPAQUE_ID_LEN.
Definition DriverRunId : Type := token "driver_run_id" MAX_OPAQUE_ID_LEN.
Definition ThreadHandle : Type := token "thread_handle" MAX_OPAQUE_ID_LEN.
Definition TemplateId : Type := token "template_id" MAX_OPAQUE_ID_LEN.
Definition ArtifactId : Type := token "artifact_id" MAX_OPAQUE_ID_LEN.
Definition DriverVersion : Type := token "driver_version" MAX_DRIVER_VERSION_LEN.
Definition UnknownBackendKind : Type := token "unknown_backend_kind" MAX_OPAQUE_ID_LEN.

(** Constructors, named as the Rust ones are used. *)
Definition CommandId_new : string → result CommandId ProtocolValueError := token_new _ _.
Definition DriverRunId_new : string → result DriverRunId ProtocolValueError := token_new _ _.
Definition DriverVersion_new : string → result DriverVersion ProtocolValueError := token_new _ _.
Definition UnknownBackendKind_new : string → result UnknownBackendKind ProtocolValueError :=
  token_new _ _.

(** ** Protocol versions *)
Definition version_supported (v : Z) : bool :=
  in_range MIN_PROTOCOL_VERSION v CURRENT_PROTOCOL_VERSION.

Record SupportedProtocolVersion : Type := MkVersion {
  version_get : Z;
  version_valid : version_supported version_get = true
}.

#[export] Instance version_eq_dec : EqDecision SupportedProtocolVersion.
Proof.
  intros [a Ha] [b Hb]. destruct (decide (a = b)) as [->|E].
  - left. f_equal. apply proof_irrel.
  - right. congruence.
Defined.

Definition version_new (v : Z) : result SupportedProtocolVersion ProtocolValueError :=
  check_with (version_supported v) (UnsupportedProtocolVersion v) (MkVersion v).

Definition version_deserialize : decoder SupportedProtocolVersion := λ j,
  let? v := de_u32 j in
  match version_new v with Ok s => Ok s | Err e => Err (CustomValue e) end.

(** [deserialize_supported_protocol_version]. *)
Definition de_supported_version : decoder Z := λ j,
  let? v := version_deserialize j in Ok (version_get v).

(** ** Bounded vectors *)
Definition fits {A} (max : Z) (items : list A) : bool := Z.of_nat (length items) <=? max.

Record BoundedVec (A : Type) (max : Z) : Type := MkBoundedVec {
  bv_items : list A;
  bv_valid : fits max bv_items = true
}.
Arguments MkBoundedVec {A max} bv_items bv_valid.
Arguments bv_items {A max} _.

Lemma bounded_eq {A max} (a b : BoundedVec A max) : bv_items a = bv_items b → a = b.
Proof. destruct a as [a Ha], b as [b Hb]; cbn. intros <-. f_equal. apply proof_irrel. Qed.

Definition bounded_new {A} (max : Z) (field : string) (items : list A) :
    result (BoundedVec A max) ProtocolValueError :=
  check_with (fits max items) (TooManyItems field max (Z.of_nat (length items)))
    (MkBoundedVec items).

(** [BoundedVecVisitor::visit_seq]: the element after the last slot is only
    skipped over, never decoded.  [room] counts the free slots. *)
Fixpoint bounded_visit {A} (d : decoder A) (max : Z) (room : nat) (l : list json) :
    result (list A) de_error :=
  match room with
  | O => match l with
         | [] => Ok []
         | _ :: _ => Err (CustomValue (TooManyItems "bounded_vector" max (max + 1)))
         end
  | S room' =>
      match l with
      | [] => Ok []
      | j :: l' => let? a := d j in let? r := bounded_visit d max room' l' in Ok (a :: r)
      end
  end.

Lemma bounded_visit_length {A} (d : decoder A) max room l items :
  bounded_visit d max room l = Ok items → (length items ≤ room)%nat.
Proof.
  revert l items. induction room as [|room IH]; intros [|j l] items; cbn;
    try (intros [= <-]; cbn; lia); try done.
  destruct (d j) as [a|]; [|done]. destruct (bounded_visit d max room l) as [r|] eqn:E; [|done].
  intros [= <-]. cbn. apply IH in E. lia.
Qed.

Lemma bounded_visit_fits {A} (d : decoder A) max l items :
  0 ≤ max → bounded_visit d max (Z.to_nat max) l = Ok items → fits max items = true.
Proof. intros Hm H%bounded_visit_length. unfold fits. apply Z.leb_le. lia. Qed.

Definition bounded_deserialize {A} (d : decoder A) (max : Z) : decoder (BoundedVec A max) := λ j,
  match j with
  | JSeq l =>
      let? items := bounded_visit d max (Z.to_nat max) l in
      match bounded_new max "bounded_vector" items with
      | Ok v => Ok v
      | Err e => Err (CustomValue e)
      end
  | _ => Err InvalidType
  end.

Definition bounded_serialize {A} (f : A → json) {max} (v : BoundedVec A max) : json :=
  JSeq (map f (bv_items v)).

Definition bounded_empty {A max} (H : 0 ≤ max) : BoundedVec A max :=
  MkBoundedVec [] (proj2 (Z.leb_le 0 max) H).

(** ** Lenient readers of persisted fields *)

(** [LenientString]: a string, or nothing for any other shape. *)
Definition lenient_string (j : json) : option string :=
  match j with JStr s => Some s | _ => None end.

Inductive LenientNullableString : Type := LnsNull | LnsValue (s : string) | LnsInvalid.

Definition lenient_nullable_string (j : json) : LenientNullableString :=
  match j with JStr s => LnsValue s | JNull => LnsNull | _ => LnsInvalid end.

Definition lenient_bool (j : json) : option bool :=
  match j with JBool b => Some b | _ => None end.

Definition lenient_u32 (j : json) : option Z :=
  match j with
  | JU64 z | JI64 z => if in_range 0 z u32_max then Some z else None
  | _ => None
  end.

Definition lenient_u64 (j : json) : option Z :=
  match j with
  | JU64 z => Some z
  | JI64 z => if in_range 0 z u64_max then Some z else None
  | _ => None
  end.

(** ** Constructors and their inverses *)

Lemma token_new_spec field max raw :
  match token_new field max raw with
  | Ok t => token_str t = raw
  | Err e => validate_token field raw max = Err e
  end.
Proof.
  unfold token_new.
  pose proof (try_with_spec (validate_token field raw max)
    (λ s H, Token s (validate_token_fix field raw max s H))) as S.
  destruct (try_with _ _); [|done]. destruct S as (s & H & ->). cbn.
  by apply validate_token_same in H.
Qed.

Lemma token_new_Ok field max raw t : token_new field max raw = Ok t → token_str t = raw.
Proof. intros H. pose proof (token_new_spec field max raw) as S. by rewrite H in S. Qed.

Lemma token_new_Err field max raw e :
  token_new field max raw = Err e ↔ validate_token field raw max = Err e.
Proof.
  pose proof (token_new_spec field max raw) as S.
  destruct (token_new field max raw) as [t|e'] eqn:E.
  - split; [done|]. rewrite <- S, (token_valid t). done.
  - rewrite S. split; congruence.
Qed.

Lemma token_new_str {field max} (t : token field max) :
  token_new field max (token_str t) = Ok t.
Proof.
  destruct (token_new field max (token_str t)) as [t'|e] eqn:E.
  - f_equal. apply token_eq. by apply token_new_Ok in E.
  - apply token_new_Err in E. by rewrite token_valid in E.
Qed.

Lemma version_new_spec v :
  match version_new v with
  | Ok s => version_get s = v
  | Err e => e = UnsupportedProtocolVersion v ∧ version_supported v = false
  end.
Proof.
  unfold version_new.
  pose proof (check_with_spec (version_supported v) (UnsupportedProtocolVersion v)
    (MkVersion v)) as S.
  destruct (check_with _ _ _); [|done]. by destruct S as [H ->].
Qed.

Lemma version_eq (a b : SupportedProtocolVersion) : version_get a = version_get b → a = b.
Proof. destruct a as [a Ha], b as [b Hb]; cbn. intros <-. f_equal. apply proof_irrel. Qed.

Lemma version_new_get v : version_new (version_get v) = Ok v.
Proof.
  pose proof (version_new_spec (version_get v)) as S.
  destruct (version_new (version_get v)) as [s|e].
  - f_equal. by apply version_eq.
  - destruct S as [_ S]. by rewrite version_valid in S.
Qed.

Lemma bounded_new_spec {A} max field (items : list A) :
  match bounded_new max field items with
  | Ok v => bv_items v = items
  | Err e => e = TooManyItems field max (Z.of_nat (length items)) ∧ fits max items = false
  end.
Proof.
  unfold bounded_new.
  pose proof (check_with_spec (fits max items)
    (TooManyItems field max (Z.of_nat (length items))) (MkBoundedVec items)) as S.
  destruct (check_with _ _ _); [|done]. by destruct S as [H ->].
Qed.

Lemma bounded_new_items {A max} field (v : BoundedVec A max) :
  bounded_new max field (bv_items v) = Ok v.
Proof.
  pose proof (bounded_new_spec max field (bv_items v)) as S.
  destruct (bounded_new max field (bv_items v)) as [s|e].
  - f_equal. by apply bounded_eq.
  - destruct S as [_ S]. by rewrite (bv_valid _ _ v) in S.
Qed.
