(* ===== verification/Backend.v ===== *)
(** * The orchestration backend pin ([OrchestrationBackendRef])

    A team run pins one backend.  This build drives [LegacyEmbedded] only; the
    others are kept but inert.  The persisted form is decoded without ever
    failing: whatever this build does not fully recognise becomes
    [UnknownNonExecuting], keeping only identity slots that pass the token
    grammar. *)

From Stdlib Require Import ZArith Lia.
From S2P Require Import Prelude RustStr Json Tokens.

Open Scope string_scope.
Open Scope Z_scope.

Inductive OrchestrationBackendRef : Type :=
| LegacyEmbedded
| Cloud (protocol_version : SupportedProtocolVersion) (driver_version : DriverVersion)
    (cloud_run_id : DriverRunId)
| LocalSidecar (protocol_version : SupportedProtocolVersion) (driver_version : DriverVersion)
| UnknownNonExecuting (original_kind : option UnknownBackendKind)
    (protocol_version : option Z) (driver_version : option DriverVersion)
    (cloud_run_id : option DriverRunId).

#[export] Instance OrchestrationBackendRef_eq_dec : EqDecision OrchestrationBackendRef.
Proof. unfold UnknownBackendKind, DriverVersion, DriverRunId. solve_decision. Defined.

Definition backend_default : OrchestrationBackendRef := LegacyEmbedded.

Inductive OrchestrationBackendKind : Type :=
| KindLegacyEmbedded | KindCloud | KindLocalSidecar | KindUnknownNonExecuting.

#[export] Instance OrchestrationBackendKind_eq_dec : EqDecision OrchestrationBackendKind.
Proof. solve_decision. Defined.

Definition backend_kind (b : OrchestrationBackendRef) : OrchestrationBackendKind :=
  match b with
  | LegacyEmbedded => KindLegacyEmbedded
  | Cloud _ _ _ => KindCloud
  | LocalSidecar _ _ => KindLocalSidecar
  | UnknownNonExecuting _ _ _ _ => KindUnknownNonExecuting
  end.

Definition is_legacy_embedded (b : OrchestrationBackendRef) : bool :=
  match b with LegacyEmbedded => true | _ => false end.

Definition backend_is_executable (b : OrchestrationBackendRef) : bool :=
  match b with LegacyEmbedded => true | _ => false end.

Definition supported_protocol_version (b : OrchestrationBackendRef) : option Z :=
  match b with
  | LegacyEmbedded => Some CURRENT_PROTOCOL_VERSION
  | Cloud v _ _ | LocalSidecar v _ => Some (version_get v)
  | UnknownNonExecuting _ _ _ _ => None
  end.

Definition unknown_non_executing : OrchestrationBackendRef :=
  UnknownNonExecuting None None None None.

(** [raw.and_then(|raw| T::new(raw).ok())]. *)
Definition parse_slot {T} (mk : string → result T ProtocolValueError) (raw : option string) :
    option T := raw ≫= λ s, result_ok (mk s).

Definition unknown_from_parts (original_kind : option string) (protocol_version : option Z)
    (driver_version cloud_run_id : option string) : OrchestrationBackendRef :=
  UnknownNonExecuting (parse_slot UnknownBackendKind_new original_kind) protocol_version
    (parse_slot DriverVersion_new driver_version) (parse_slot DriverRunId_new cloud_run_id).

Definition original_unknown_kind (b : OrchestrationBackendRef) : option string :=
  match b with
  | UnknownNonExecuting (Some kind) _ _ _ => Some (token_str kind)
  | _ => None
  end.

Definition non_executing_reason (b : OrchestrationBackendRef) : option string :=
  match b with
  | LegacyEmbedded => None
  | Cloud _ _ _ => Some
      "this task is pinned to Cloud orchestration, but this relay build has no Cloud transport"
  | LocalSidecar _ _ => Some
      "this task is pinned to a local sidecar, but this relay build has no sidecar transport"
  | UnknownNonExecuting _ _ _ _ => Some
      "this task is pinned to an orchestration backend this relay build does not understand"
  end.

(** ** Encoding *)
Definition backend_serialize (b : OrchestrationBackendRef) : json :=
  JMap match b with
  | LegacyEmbedded => [("kind", JStr "legacy_embedded")]
  | Cloud v d r =>
      [("kind", JStr "cloud"); ("protocol_version", JU64 (version_get v));
       ("driver_version", token_serialize d); ("cloud_run_id", token_serialize r)]
  | LocalSidecar v d =>
      [("kind", JStr "local_sidecar"); ("protocol_version", JU64 (version_get v));
       ("driver_version", token_serialize d)]
  | UnknownNonExecuting k v d r =>
      ([("kind", JStr "unknown_non_executing")]
       ++ opt_entry "original_kind" token_serialize k
       ++ opt_entry "protocol_version" JU64 v
       ++ opt_entry "driver_version" token_serialize d
       ++ opt_entry "cloud_run_id" token_serialize r)%list
  end.

(** ** Decoding *)
Inductive BackendField : Type :=
| BfKind | BfOriginalKind | BfProtocolVersion | BfDriverVersion | BfCloudRunId | BfUnknown.

Definition backend_field (raw : string) : BackendField :=
  if decide (raw = "kind") then BfKind
  else if decide (raw = "original_kind") then BfOriginalKind
  else if decide (raw = "protocol_version") then BfProtocolVersion
  else if decide (raw = "driver_version") then BfDriverVersion
  else if decide (raw = "cloud_run_id") then BfCloudRunId
  else BfUnknown.

(** The locals of [BackendVisitor::visit_map].  A [*_seen] flag and its slot are
    one [option (option A)]: the outer level is the flag. *)
Record BackendAcc : Type := MkBackendAcc {
  ba_kind : option (option string);
  ba_original_kind : option (option string);
  ba_protocol_version : option (option Z);
  ba_driver_version : option (option string);
  ba_cloud_run_id : option (option string);
  ba_unsupported : bool
}.
#[export] Instance BackendAcc_expand : Expand BackendAcc := λ r,
  MkBackendAcc (ba_kind r) (ba_original_kind r) (ba_protocol_version r)
    (ba_driver_version r) (ba_cloud_run_id r) (ba_unsupported r).
Definition backend_acc0 : BackendAcc := MkBackendAcc None None None None None false.

(** One entry into one slot: a second occurrence or an unreadable value marks
    the shape as unsupported. *)
Definition slot_fill {A} (slot : option (option A)) (value : option A) (bad : bool) :
    option (option A) * bool :=
  match slot with
  | Some _ => (slot, true)
  | None => (Some value, bad || is_none value)
  end.

Definition backend_put (field : BackendField) (acc : BackendAcc) (v : json) : BackendAcc :=
  match field with
  | BfKind =>
      let '(s, u) := slot_fill (ba_kind acc) (lenient_string v) (ba_unsupported acc) in
      acc <| ba_kind := s |> <| ba_unsupported := u |>
  | BfOriginalKind =>
      let '(s, u) := slot_fill (ba_original_kind acc) (lenient_string v) (ba_unsupported acc) in
      acc <| ba_original_kind := s |> <| ba_unsupported := u |>
  | BfProtocolVersion =>
      let '(s, u) := slot_fill (ba_protocol_version acc) (lenient_u32 v) (ba_unsupported acc) in
      acc <| ba_protocol_version := s |> <| ba_unsupported := u |>
  | BfDriverVersion =>
      let '(s, u) := slot_fill (ba_driver_version acc) (lenient_string v) (ba_unsupported acc) in
      acc <| ba_driver_version := s |> <| ba_unsupported := u |>
  | BfCloudRunId =>
      let '(s, u) := slot_fill (ba_cloud_run_id acc) (lenient_string v) (ba_unsupported acc) in
      acc <| ba_cloud_run_id := s |> <| ba_unsupported := u |>
  | BfUnknown => acc <| ba_unsupported := true |>
  end.

Definition backend_step (acc : BackendAcc) (e : string * json) : BackendAcc :=
  backend_put (backend_field e.1) acc e.2.

Definition backend_loop (acc : BackendAcc) (es : list (string * json)) : BackendAcc :=
  fold_left backend_step es acc.

(** What [visit_map] builds once the entries are read. *)
Definition backend_finish (acc : BackendAcc) : OrchestrationBackendRef :=
  let kind := mjoin (ba_kind acc) in
  let original_kind := mjoin (ba_original_kind acc) in
  let protocol_version := mjoin (ba_protocol_version acc) in
  let driver_version := mjoin (ba_driver_version acc) in
  let cloud_run_id := mjoin (ba_cloud_run_id acc) in
  let unsupported := ba_unsupported acc in
  let unknown := unknown_from_parts (option_or original_kind kind) protocol_version
                   driver_version cloud_run_id in
  match kind with
  | None => unknown
  | Some k =>
      if decide (k = "legacy_embedded") then
        if unsupported || is_some original_kind || is_some protocol_version
           || is_some driver_version || is_some cloud_run_id
        then unknown else LegacyEmbedded
      else if decide (k = "cloud") then
        if unsupported || is_some original_kind then unknown
        else match protocol_version ≫= λ v, result_ok (version_new v),
                   parse_slot DriverVersion_new driver_version,
                   parse_slot DriverRunId_new cloud_run_id with
             | Some v, Some d, Some r => Cloud v d r
             | _, _, _ => unknown
             end
      else if decide (k = "local_sidecar") then
        if unsupported || is_some original_kind || is_some cloud_run_id then unknown
        else match protocol_version ≫= λ v, result_ok (version_new v),
                   parse_slot DriverVersion_new driver_version with
             | Some v, Some d => LocalSidecar v d
             | _, _ => unknown
             end
      else if decide (k = "unknown_non_executing") then
        unknown_from_parts original_kind protocol_version driver_version cloud_run_id
      else unknown
  end.

Definition backend_deserialize (j : json) : OrchestrationBackendRef :=
  match j with
  | JMap es => backend_finish (backend_loop backend_acc0 es)
  | JStr s => unknown_from_parts (Some s) None None None
  | _ => unknown_non_executing
  end.

(** What the Rust types guarantee of a backend value. *)
Definition backend_typed (b : OrchestrationBackendRef) : Prop :=
  match b with UnknownNonExecuting _ (Some v) _ _ => in_u32 v | _ => True end.

(** ** Lemmas *)

Lemma version_u32 v : in_range 0 (version_get v) u32_max = true.
Proof.
  pose proof (version_valid v) as H. unfold version_supported in H.
  apply in_range_true in H. apply in_range_true.
  unfold MIN_PROTOCOL_VERSION, CURRENT_PROTOCOL_VERSION, u32_max in *. lia.
Qed.

Lemma parse_slot_token {field max} (o : option (token field max)) :
  parse_slot (token_new field max) (token_str <$> o) = o.
Proof. destruct o as [t|]; cbn; [|done]. by rewrite token_new_str. Qed.

Lemma backend_field_known :
  backend_field "kind" = BfKind ∧ backend_field "original_kind" = BfOriginalKind ∧
  backend_field "protocol_version" = BfProtocolVersion ∧
  backend_field "driver_version" = BfDriverVersion ∧
  backend_field "cloud_run_id" = BfCloudRunId.
Proof. done. Qed.

(** The accumulator after the entries of an encoded backend. *)
Lemma backend_loop_encoded kind k v d r :
  (∀ z, v = Some z → in_range 0 z u32_max = true) →
  backend_loop backend_acc0
    ([("kind", JStr kind)]
     ++ opt_entry "original_kind" JStr k ++ opt_entry "protocol_version" JU64 v
     ++ opt_entry "driver_version" JStr d ++ opt_entry "cloud_run_id" JStr r)%list
  = MkBackendAcc (Some (Some kind)) (Some <$> k) (Some <$> v) (Some <$> d) (Some <$> r) false.
Proof.
  intros Hv. destruct backend_field_known as (E1 & E2 & E3 & E4 & E5).
  unfold backend_loop, backend_step.
  destruct k as [k|], v as [v|], d as [d|], r as [r|];
    cbn [opt_entry app fold_left fst snd];
    rewrite ?E1, ?E2, ?E3, ?E4, ?E5; cbn -[in_range]; rewrite ?Hv by done; done.
Qed.

Lemma mjoin_fmap_Some {A} (o : option A) : mjoin (Some <$> o) = o.
Proof. by destruct o. Qed.

(** Decoding the encoding of a backend gives it back. *)
Lemma backend_decode_encode b :
  backend_typed b → backend_deserialize (backend_serialize b) = b.
Proof.
  destruct b as [|v d r|v d|k v d r]; intros Ht; [done| | |];
    unfold backend_deserialize, backend_serialize, token_serialize.
  - pose proof (backend_loop_encoded "cloud" None (Some (version_get v))
      (Some (token_str d)) (Some (token_str r))) as E.
    cbn [opt_entry app] in E. rewrite E.
    2: { intros z [= <-]. apply version_u32. }
    unfold backend_finish. cbn -[version_new]. rewrite version_new_get.
    unfold parse_slot, DriverVersion_new, DriverRunId_new. cbn. by rewrite !token_new_str.
  - pose proof (backend_loop_encoded "local_sidecar" None (Some (version_get v))
      (Some (token_str d)) None) as E.
    cbn [opt_entry app] in E. rewrite E.
    2: { intros z [= <-]. apply version_u32. }
    unfold backend_finish. cbn -[version_new]. rewrite version_new_get.
    unfold parse_slot, DriverVersion_new. cbn. by rewrite !token_new_str.
  - pose proof (backend_loop_encoded "unknown_non_executing" (token_str <$> k) v
      (token_str <$> d) (token_str <$> r)) as E.
    assert (∀ T (f : T → string) key o,
      opt_entry key JStr (f <$> o) = opt_entry key (λ t, JStr (f t)) o) as Ho
      by (intros ??? []; done).
    rewrite !Ho in E. unfold token_serialize. rewrite E.
    2: { intros z ->. by apply in_range_true. }
    unfold backend_finish. cbn [ba_kind ba_original_kind ba_protocol_version ba_driver_version
      ba_cloud_run_id]. rewrite !mjoin_fmap_Some. cbn [mjoin option_join].
    rewrite !decide_False, decide_True by done.
    unfold unknown_from_parts, parse_slot, UnknownBackendKind_new, DriverVersion_new,
      DriverRunId_new.
    f_equal; match goal with
    | |- context [token_str <$> ?o] => destruct o as [t|]; [|done]; cbn; by rewrite token_new_str
    | _ => done
    end.
Qed.

(** * Durable driver progress ([DriverProgress] of crates/relay-api/src/orchestration.rs)

    The counters a run persists for its driver.  Decoding never fails: whatever
    cannot be read faithfully sets the [malformed] marker, and the marker is
    written back, so a load/save cycle cannot launder a damaged record into a
    clean one. *)
Record DriverProgress : Type := MkProgress {
  dp_state_revision : Z;
  dp_last_command_seq : Z;
  dp_last_event_seq : Z;
  dp_in_flight_command_id : option CommandId;
  dp_malformed : bool
}.
#[export] Instance DriverProgress_expand : Expand DriverProgress := λ r,
  MkProgress (dp_state_revision r) (dp_last_command_seq r) (dp_last_event_seq r)
    (dp_in_flight_command_id r) (dp_malformed r).
#[export] Instance DriverProgress_eq_dec : EqDecision DriverProgress.
Proof. intros [] []. unfold CommandId in *. solve_decision. Defined.

Definition progress_default : DriverProgress := MkProgress 0 0 0 None false.
Definition progress_malformed : DriverProgress := progress_default <| dp_malformed := true |>.
Definition is_malformed (p : DriverProgress) : bool := dp_malformed p.

(** ** Encoding *)
Definition is_false (value : bool) : bool := negb value.

Definition progress_serialize (p : DriverProgress) : json :=
  JMap ([("state_revision", JU64 (dp_state_revision p));
         ("last_command_seq", JU64 (dp_last_command_seq p));
         ("last_event_seq", JU64 (dp_last_event_seq p));
         ("in_flight_command_id", ser_option token_serialize (dp_in_flight_command_id p))]
        ++ (if is_false (dp_malformed p) then [] else [("malformed", JBool (dp_malformed p))]))%list.

(** ** Decoding *)
Inductive ProgressField : Type :=
| PfStateRevision | PfLastCommandSeq | PfLastEventSeq | PfInFlightCommandId | PfMalformed
| PfUnknown.

#[export] Instance ProgressField_eq_dec : EqDecision ProgressField.
Proof. solve_decision. Defined.

Definition progress_field (raw : string) : ProgressField :=
  if decide (raw = "state_revision") then PfStateRevision
  else if decide (raw = "last_command_seq") then PfLastCommandSeq
  else if decide (raw = "last_event_seq") then PfLastEventSeq
  else if decide (raw = "in_flight_command_id") then PfInFlightCommandId
  else if decide (raw = "malformed") then PfMalformed
  else PfUnknown.

(** The value of a known field, first occurrence. *)
Definition progress_put (field : ProgressField) (v : json) (p : DriverProgress) : DriverProgress :=
  match field with
  | PfStateRevision =>
      match lenient_u64 v with
      | Some value => p <| dp_state_revision := value |>
      | None => p <| dp_malformed := true |>
      end
  | PfLastCommandSeq =>
      match lenient_u64 v with
      | Some value => p <| dp_last_command_seq := value |>
      | None => p <| dp_malformed := true |>
      end
  | PfLastEventSeq =>
      match lenient_u64 v with
      | Some value => p <| dp_last_event_seq := value |>
      | None => p <| dp_malformed := true |>
      end
  | PfInFlightCommandId =>
      match lenient_nullable_string v with
      | LnsNull => p <| dp_in_flight_command_id := None |>
      | LnsValue raw =>
          match CommandId_new raw with
          | Ok command_id => p <| dp_in_flight_command_id := Some command_id |>
          | Err _ => p <| dp_malformed := true |>
          end
      | LnsInvalid => p <| dp_malformed := true |>
      end
  | PfMalformed =>
      match lenient_bool v with
      | Some value => p <| dp_malformed := dp_malformed p || value |>
      | None => p <| dp_malformed := true |>
      end
  | PfUnknown => p <| dp_malformed := true |>
  end.

(** One entry of [visit_map].  The [*_seen] flags are the list of known fields
    already met. *)
Definition progress_step (st : list ProgressField * DriverProgress) (e : string * json) :
    list ProgressField * DriverProgress :=
  let '(seen, p) := st in
  let field := progress_field e.1 in
  if decide (field = PfUnknown) then (seen, p <| dp_malformed := true |>)
  else if bool_decide (field ∈ seen) then (seen, p <| dp_malformed := true |>)
  else (field :: seen, progress_put field e.2 p).

Definition progress_loop (st : list ProgressField * DriverProgress)
    (es : list (string * json)) : list ProgressField * DriverProgress :=
  fold_left progress_step es st.

Definition progress_deserialize (j : json) : DriverProgress :=
  match j with
  | JMap es => (progress_loop ([], progress_default) es).2
  | _ => progress_malformed
  end.

(** ** Lemmas *)

Lemma progress_put_malformed field v p :
  dp_malformed p = true → dp_malformed (progress_put field v p) = true.
Proof.
  intros H. destruct p as [a b c d m]. cbn in H. subst m.
  destruct field; cbn; repeat case_mt; done.
Qed.

(** Once set, the marker survives every later entry. *)
Lemma progress_step_malformed st e :
  dp_malformed st.2 = true → dp_malformed (progress_step st e).2 = true.
Proof.
  destruct st as [seen p]. cbn [snd]. intros H. unfold progress_step.
  destruct (decide _); [done|]. case_bool_decide; [done|]. by apply progress_put_malformed.
Qed.

Lemma progress_loop_malformed st es :
  dp_malformed st.2 = true → dp_malformed (progress_loop st es).2 = true.
Proof.
  revert st. induction es as [|e es IH]; intros st H; [done|].
  cbn. by apply IH, progress_step_malformed.
Qed.

(** A clean outcome means every key was a known one, met once. *)
Lemma progress_loop_clean es seen p :
  dp_malformed (progress_loop (seen, p) es).2 = false →
  Forall (λ e, progress_field e.1 ≠ PfUnknown ∧ progress_field e.1 ∉ seen) es ∧
  NoDup (progress_field <$> es.*1).
Proof.
  revert seen p. induction es as [|[k v] es IH]; intros seen p H.
  { split; constructor. }
  change (dp_malformed (progress_loop (progress_step (seen, p) (k, v)) es).2 = false) in H.
  unfold progress_step in H. cbn [fst snd] in H.
  assert (∀ st, dp_malformed st.2 = true → dp_malformed (progress_loop st es).2 = false → False)
    as Hno by (intros st H1 H2; by rewrite progress_loop_malformed in H2).
  destruct (decide (progress_field k = PfUnknown)) as [Hu|Hu]; [by eapply Hno in H|].
  destruct (bool_decide_reflect (progress_field k ∈ seen)) as [Hs|Hs];
    [by eapply Hno in H|].
  destruct (IH _ _ H) as [HF Hnd]. split.
  - constructor; [done|]. eapply Forall_impl; [exact HF|]. cbn. set_solver.
  - cbn. constructor; [|done]. intros Hin.
    apply list_elem_of_fmap in Hin as (k' & E & Hin).
    apply list_elem_of_fmap in Hin as ([k'' v''] & -> & Hin). cbn in E.
    rewrite Forall_forall in HF. apply HF in Hin as [_ Hin]. cbn in Hin. rewrite <- E in Hin.
    set_solver.
Qed.

(** Decoding the encoding of a progress record gives it back. *)
Lemma progress_decode_encode p :
  progress_deserialize (progress_serialize p) = p.
Proof.
  destruct p as [a b c d m]. destruct d as [t|], m; try reflexivity;
    unfold progress_deserialize, progress_serialize, progress_loop;
    cbn [dp_state_revision dp_last_command_seq dp_last_event_seq dp_in_flight_command_id
      dp_malformed is_false negb app ser_option token_serialize fold_left].
  all: unfold progress_step; cbn [fst snd].
  all: change (progress_field "state_revision") with PfStateRevision;
    change (progress_field "last_command_seq") with PfLastCommandSeq;
    change (progress_field "last_event_seq") with PfLastEventSeq;
    change (progress_field "in_flight_command_id") with PfInFlightCommandId;
    change (progress_field "malformed") with PfMalformed.
  all: repeat (rewrite decide_False by done; rewrite bool_decide_eq_false_2 by set_solver).
  all: unfold progress_put, CommandId_new, token_serialize; cbn [lenient_u64 lenient_nullable_string lenient_bool];
    rewrite token_new_str; reflexivity.
Qed.
