(* ===== verification/TeamRun.v ===== *)
(** * Task teams: one run (crates/relay-api/src/team.rs)

    [TeamRun] is the durable record of one execution of the team pipeline.  Each
    method is a function of the run that also takes the clock reading [now] its
    calls of [unix_now] see, and returns the new run with the method's result.
    The static counter behind [mint_sub_task_id] is threaded explicitly. *)

From Stdlib Require Import ZArith Lia.
From S2P Require Import Prelude RustStr Json TeamTypes Tokens Backend.

Open Scope string_scope.
Open Scope Z_scope.

Record TeamRun : Type := MkTeamRun {
  tr_id : string;
  tr_status : TeamRunStatus;
  tr_phase : TeamPhase;
  tr_spec : TaskSpec;
  tr_sub_tasks : list SubTask;
  tr_orchestration_backend : OrchestrationBackendRef;
  tr_driver_progress : DriverProgress;
  tr_team_id : option string;
  tr_team_version_id : option string;
  tr_complex : option bool;
  tr_slug : string;
  tr_branch : string;
  tr_target_ref : string;
  tr_base_commit : string;
  tr_repo_main_worktree : string;
  tr_cwd : string;
  tr_source_dirty : bool;
  tr_plan_rel_path : string;
  tr_design_rel_path : string;
  tr_report_rel_path : string;
  tr_tl_thread_id : string;
  tr_tl_provider : string;
  tr_tl_model : string;
  tr_tl_effort : string;
  tr_tl_succession : list TlGeneration;
  tr_tl_turns_this_generation : Z;
  tr_tl_reseed_reason : option string;
  tr_run_owned_thread_ids : list string;
  tr_run_owned_thread_roles : gmap string string;
  tr_mr_dev_thread_id : option string;
  tr_pending_user_notes : list string;
  tr_reopened_count : Z;
  tr_dev_provider : string;
  tr_dev_model : string;
  tr_dev_effort : string;
  tr_reviewer_provider : string;
  tr_reviewer_model : string;
  tr_reviewer_effort : string;
  tr_dev_agents : option Z;
  tr_max_review_rounds : Z;
  tr_max_mr_rounds : Z;
  tr_design_review_rounds : Z;
  tr_mr_rounds_used : Z;
  tr_in_flight_thread : option string;
  tr_pause_requested : bool;
  tr_stopping : bool;
  tr_pause_requested_by : string;
  tr_pause_reason : option string;
  tr_pause_kind : option TeamPauseKind;
  tr_awaiting : option AwaitingUserRec;
  tr_design_verdict : option WorkflowVerdict;
  tr_mr_verdict : option WorkflowVerdict;
  tr_unresolved : list string;
  tr_head_commit : option string;
  tr_requested_by_device_id : string;
  tr_requested_at : Z;
  tr_updated_at : Z;
  tr_error : option string
}.
#[export] Instance TeamRun_expand : Expand TeamRun := λ r,
  MkTeamRun
    (tr_id r) (tr_status r) (tr_phase r) (tr_spec r) (tr_sub_tasks r)
    (tr_orchestration_backend r) (tr_driver_progress r) (tr_team_id r)
    (tr_team_version_id r) (tr_complex r) (tr_slug r) (tr_branch r) (tr_target_ref r)
    (tr_base_commit r) (tr_repo_main_worktree r) (tr_cwd r) (tr_source_dirty r)
    (tr_plan_rel_path r) (tr_design_rel_path r) (tr_report_rel_path r)
    (tr_tl_thread_id r) (tr_tl_provider r) (tr_tl_model r) (tr_tl_effort r)
    (tr_tl_succession r) (tr_tl_turns_this_generation r) (tr_tl_reseed_reason r)
    (tr_run_owned_thread_ids r) (tr_run_owned_thread_roles r) (tr_mr_dev_thread_id r)
    (tr_pending_user_notes r) (tr_reopened_count r) (tr_dev_provider r)
    (tr_dev_model r) (tr_dev_effort r) (tr_reviewer_provider r) (tr_reviewer_model r)
    (tr_reviewer_effort r) (tr_dev_agents r) (tr_max_review_rounds r)
    (tr_max_mr_rounds r) (tr_design_review_rounds r) (tr_mr_rounds_used r)
    (tr_in_flight_thread r) (tr_pause_requested r) (tr_stopping r)
    (tr_pause_requested_by r) (tr_pause_reason r) (tr_pause_kind r) (tr_awaiting r)
    (tr_design_verdict r) (tr_mr_verdict r) (tr_unresolved r) (tr_head_commit r)
    (tr_requested_by_device_id r) (tr_requested_at r) (tr_updated_at r) (tr_error r).

Definition TeamRun_default : TeamRun :=
  MkTeamRun
    "" Failed Intake TaskSpec_default [] backend_default progress_default None None
    None "" "" "" "" "" "" false "" "" "" "" "" "" "" [] 0 None [] ∅ None [] 0 "" "" ""
    "" "" "" None 0 0 0 0 None false false "" None None None None None [] None "" 0 0
    None.

Definition TeamRun_new (now : Z) (id : string) (spec : TaskSpec) (cwd requested_by : string) :
    TeamRun :=
  TeamRun_default
    <| tr_id := id |>
    <| tr_status := Queued |>
    <| tr_phase := Intake |>
    <| tr_spec := spec |>
    <| tr_cwd := cwd |>
    <| tr_max_review_rounds := MAX_SUBTASK_REVIEW_ROUNDS |>
    <| tr_max_mr_rounds := MAX_MR_ROUNDS |>
    <| tr_requested_by_device_id := requested_by |>
    <| tr_requested_at := now |>
    <| tr_updated_at := now |>.

(** ** Backend selection *)

Definition nonempty {A} (l : list A) : bool := match l with [] => false | _ => true end.

Definition orchestration_execution_started (r : TeamRun) : bool :=
  negb (bool_decide (tr_status r = Queued))
  || negb (bool_decide (tr_phase r = Intake))
  || negb (is_empty (tr_tl_thread_id r))
  || nonempty (tr_tl_succession r)
  || nonempty (tr_run_owned_thread_ids r)
  || is_some (tr_mr_dev_thread_id r)
  || nonempty (tr_sub_tasks r)
  || negb (dp_state_revision (tr_driver_progress r) =? 0)
  || negb (dp_last_command_seq (tr_driver_progress r) =? 0)
  || negb (dp_last_event_seq (tr_driver_progress r) =? 0)
  || is_some (dp_in_flight_command_id (tr_driver_progress r))
  || is_malformed (tr_driver_progress r)
  || is_some (tr_complex r)
  || is_some (tr_design_verdict r)
  || is_some (tr_mr_verdict r)
  || nonempty (tr_unresolved r)
  || is_some (tr_head_commit r)
  || is_some (tr_awaiting r)
  || tr_pause_requested r
  || tr_stopping r
  || is_some (tr_error r).

Definition set_orchestration_backend (now : Z) (backend : OrchestrationBackendRef)
    (r : TeamRun) : TeamRun * result bool string :=
  if decide (tr_orchestration_backend r = backend) then (r, Ok false)
  else if orchestration_execution_started r
  then (r, Err "orchestration backend cannot change after execution begins")
  else (r <| tr_orchestration_backend := backend |> <| tr_updated_at := now |>, Ok true).

Definition is_executable_by_current_build (r : TeamRun) : bool :=
  backend_is_executable (tr_orchestration_backend r).

Definition is_live_in_current_build (r : TeamRun) : bool :=
  is_executable_by_current_build r && negb (is_terminal (tr_status r)).

Definition non_executing_backend_reason (r : TeamRun) : option string :=
  non_executing_reason (tr_orchestration_backend r).

(** ** Status writes *)

(** The guard of every write a driver makes. *)
Definition driver_locked (s : TeamRunStatus) : bool :=
  is_terminal s || is_settled_without_driver s.

Definition set_status (now : Z) (status : TeamRunStatus) (r : TeamRun) : TeamRun :=
  if driver_locked (tr_status r) then r
  else r <| tr_status := status |> <| tr_updated_at := now |>.

Definition fail_run (now : Z) (error : string) (r : TeamRun) : TeamRun :=
  if driver_locked (tr_status r) then r
  else
    let r := r <| tr_error := Some error |> in
    if tr_stopping r then r <| tr_updated_at := now |>
    else set_status now Failed r.

Definition block (now : Z) (error : string) (r : TeamRun) : TeamRun :=
  if is_terminal (tr_status r) then r
  else r <| tr_error := Some error |> <| tr_stopping := false |>
         <| tr_status := Blocked |> <| tr_updated_at := now |>.

Definition request_pause (now : Z) (device_id : string) (r : TeamRun) : TeamRun :=
  if driver_locked (tr_status r) then r
  else set_status now PausePending
         (r <| tr_pause_requested := true |> <| tr_pause_requested_by := device_id |>).

Definition request_stop (now : Z) (device_id : string) (r : TeamRun) : TeamRun :=
  if driver_locked (tr_status r) then r
  else (request_pause now device_id r) <| tr_stopping := true |> <| tr_updated_at := now |>.

Definition settle_paused (now : Z) (reason : string) (kind : TeamPauseKind) (r : TeamRun) :
    TeamRun * bool :=
  if driver_locked (tr_status r) then (r, false)
  else (r <| tr_pause_requested := false |>
          <| tr_stopping := false |>
          <| tr_pause_reason := Some reason |>
          <| tr_pause_kind := Some kind |>
          <| tr_in_flight_thread := None |>
          <| tr_awaiting := None |>
          <| tr_status := Paused |>
          <| tr_updated_at := now |>, true).

(** ** Team-lead succession *)

Definition request_tl_reseed (now : Z) (reason : string) (r : TeamRun) : TeamRun :=
  if is_some (tr_tl_reseed_reason r) then r
  else r <| tr_tl_reseed_reason := Some reason |> <| tr_updated_at := now |>.

Definition tl_generation_count (r : TeamRun) : Z :=
  Z.of_nat (length (tr_tl_succession r)) + 1.

Definition retire_tl (now : Z) (reason : string) (r : TeamRun) : TeamRun * bool :=
  if MAX_TL_GENERATIONS <=? tl_generation_count r then (r, false)
  else
    let r := if is_empty (tr_tl_thread_id r) then r
             else r <| tr_tl_succession ::= λ l,
                        (l ++ [MkTlGeneration (tr_tl_thread_id r) reason now])%list |> in
    (r <| tr_tl_thread_id := "" |>
       <| tr_tl_turns_this_generation := 0 |>
       <| tr_tl_reseed_reason := None |>
       <| tr_updated_at := now |>, true).

(** ** User decisions *)

Definition resume (now : Z) (r : TeamRun) : TeamRun * bool :=
  if is_resumable (tr_status r)
  then (r <| tr_pause_requested := false |>
          <| tr_stopping := false |>
          <| tr_pause_requested_by := "" |>
          <| tr_pause_reason := None |>
          <| tr_pause_kind := None |>
          <| tr_error := None |>
          <| tr_status := Running |>
          <| tr_updated_at := now |>, true)
  else (r, false).

Definition cancel (now : Z) (reason : string) (r : TeamRun) : TeamRun * bool :=
  if is_terminal (tr_status r) then (r, false)
  else (r <| tr_error := Some reason |>
          <| tr_pause_requested := false |>
          <| tr_stopping := false |>
          <| tr_awaiting := None |>
          <| tr_in_flight_thread := None |>
          <| tr_status := Cancelled |>
          <| tr_updated_at := now |>, true).

Definition force_mark_status (now : Z) (status : TeamRunStatus) (r : TeamRun) : TeamRun * bool :=
  match status with
  | Done | Cancelled =>
      if decide (tr_status r = status) then (r, false)
      else
        let r := r <| tr_pause_requested := false |>
                   <| tr_stopping := false |>
                   <| tr_awaiting := None |>
                   <| tr_in_flight_thread := None |>
                   <| tr_pause_reason := None |>
                   <| tr_pause_kind := None |> in
        let r := match status with
                 | Done => r <| tr_error := None |>
                 | _ => if is_none (tr_error r)
                        then r <| tr_error := Some "the task was marked cancelled" |> else r
                 end in
        (r <| tr_status := status |> <| tr_updated_at := now |>, true)
  | _ => (r, false)
  end.

(** ** Recovery *)

Definition begin_resolving_blocked (now : Z) (r : TeamRun) : TeamRun * bool :=
  if bool_decide (tr_status r = Blocked)
  then (r <| tr_status := Resolving |> <| tr_updated_at := now |>, true)
  else (r, false).

Definition resolve_as_paused (now : Z) (reason : string) (kind : TeamPauseKind) (r : TeamRun) :
    TeamRun * bool :=
  if bool_decide (tr_status r = Resolving)
  then (r <| tr_pause_requested := false |>
          <| tr_stopping := false |>
          <| tr_pause_reason := Some reason |>
          <| tr_pause_kind := Some kind |>
          <| tr_in_flight_thread := None |>
          <| tr_status := Paused |>
          <| tr_updated_at := now |>, true)
  else (r, false).

Definition restore_resolving_as_blocked (now : Z) (error : string) (r : TeamRun) :
    TeamRun * bool :=
  if bool_decide (tr_status r = Resolving) then (block now error r, true) else (r, false).

Definition mark_interrupted_if_stranded (now : Z) (r : TeamRun) : TeamRun * bool :=
  if is_terminal (tr_status r) || is_resumable (tr_status r) then (r, false)
  else (r <| tr_error := get_or_insert (tr_error r)
               "the task team's driver was lost; re-run to continue from the last completed step" |>
          <| tr_status := Interrupted |>
          <| tr_updated_at := now |>, true).

Definition detach_unresumable_tl (now : Z) (r : TeamRun) : TeamRun :=
  let r := r <| tr_tl_thread_id := "" |> <| tr_pause_requested := false |>
             <| tr_awaiting := None |> in
  if is_terminal (tr_status r) then r
  else r <| tr_error := get_or_insert (tr_error r)
              "the team lead's session had not started when the relay restarted; re-run this task" |>
         <| tr_status := Interrupted |> <| tr_updated_at := now |>.

(** ** Sub-tasks *)

(** [iter().position(p)] and [get_mut(i)]. *)
Fixpoint position {A} (p : A → bool) (l : list A) : option nat :=
  match l with
  | [] => None
  | x :: l' => if p x then Some O else S <$> position p l'
  end.

Definition sub_open (t : SubTask) : bool :=
  negb (sub_is_terminal (st_status t)) || negb (st_digested t).

Definition current_sub_task (r : TeamRun) : option nat := position sub_open (tr_sub_tasks r).

Definition rollback_current_round (r : TeamRun) : TeamRun :=
  let r := r <| tr_awaiting := None |> in
  match current_sub_task r with
  | None => r
  | Some index =>
      r <| tr_sub_tasks ::= alter (λ task,
             if sub_is_terminal (st_status task) then task
             else task <| st_status := SubPending |>) index |>
  end.

Definition revive_selected (only : option (list string)) (task : SubTask) : bool :=
  match only with
  | None => bool_decide (st_status task = SubEscalated)
  | Some ids => sub_is_terminal (st_status task) && bool_decide (st_id task ∈ ids)
  end.

(** The body of the loop in [revive_sub_tasks] for a selected sub-task. *)
Definition revive_task (working_cycle : Z) (task : SubTask) : SubTask :=
  task <| st_status := SubPending |>
       <| st_rounds_used := 0 |>
       <| st_digested := false |>
       <| st_dev_turns_landed := 0 |>
       <| st_dev_thread_id := None |>
       <| st_reruns := u32_add (st_reruns task) 1 |>
       <| st_cycle := working_cycle |>.

Definition revive_sub_tasks (now : Z) (only : option (list string)) (r : TeamRun) :
    TeamRun * bool :=
  let working_cycle := tr_reopened_count r in
  let revived := existsb (revive_selected only) (tr_sub_tasks r) in
  let r := r <| tr_sub_tasks ::= map (λ task,
                  if revive_selected only task then revive_task working_cycle task else task) |> in
  if negb revived then (r, false)
  else
    let r := r <| tr_design_review_rounds := 0 |>
               <| tr_mr_rounds_used := 0 |>
               <| tr_unresolved := [] |>
               <| tr_mr_verdict := None |>
               <| tr_design_verdict := None |> in
    let r := match tr_phase r with
             | MrGate | Wrapping => r <| tr_phase := SubTasks |>
             | _ => r
             end in
    (r <| tr_updated_at := now |>, true).

Definition revive_escalated_sub_tasks (now : Z) (r : TeamRun) : TeamRun * bool :=
  revive_sub_tasks now None r.

(** The first loop of [replan_sub_tasks]. *)
Definition supersede (task : SubTask) : SubTask :=
  if sub_is_terminal (st_status task) then task
  else task <| st_status := SubSuperseded |> <| st_digested := true |>.

(** Its second loop.  [last] is the mint's static counter and [clock] gives the
    nanosecond reading a re-mint would make at each iteration. *)
Fixpoint replan_push (cycle : Z) (clock : nat → Z) (i : nat) (last : Z)
    (tasks planned : list SubTask) : list SubTask * Z :=
  match planned with
  | [] => (tasks, last)
  | task :: planned' =>
      let '(id, last) :=
        if existsb (λ kept, bool_decide (st_id kept = st_id task)) tasks
        then mint_sub_task_id last (clock i) else (st_id task, last) in
      let task := task <| st_id := id |> <| st_cycle := cycle |> in
      replan_push cycle clock (S i) last (tasks ++ [task])%list planned'
  end.

Definition replan_sub_tasks (now : Z) (clock : nat → Z) (last : Z) (planned : list SubTask)
    (r : TeamRun) : TeamRun * Z :=
  let '(tasks, last) :=
    replan_push (tr_reopened_count r) clock 0 last (map supersede (tr_sub_tasks r)) planned in
  (r <| tr_sub_tasks := tasks |> <| tr_updated_at := now |>, last).

Definition hold_phase_for_waiting_sub_tasks (now : Z) (r : TeamRun) : TeamRun * bool :=
  let closing := match tr_phase r with MrGate | Wrapping | Finished => true | _ => false end in
  if negb closing || is_none (current_sub_task r) then (r, false)
  else (r <| tr_phase := SubTasks |>
          <| tr_mr_verdict := None |>
          <| tr_unresolved := [] |>
          <| tr_updated_at := now |>, true).

(** ** Restore *)

Definition append_restore_error (reason : string) (r : TeamRun) : TeamRun :=
  match tr_error r with
  | Some error =>
      if contains reason error then r
      else if is_blank error then r <| tr_error := Some reason |>
      else r <| tr_error := Some (error ++ "; " ++ reason) |>
  | None => r <| tr_error := Some reason |>
  end.

(** The four fields the paused branch compares before and after. *)
Definition settled_fields (r : TeamRun) : bool * bool * option AwaitingUserRec * option string :=
  (tr_pause_requested r, tr_stopping r, tr_awaiting r, tr_error r).

Definition reconcile_after_restore (now : Z) (r : TeamRun) : TeamRun * bool :=
  if is_terminal (tr_status r) then (r, false)
  else
    let settled_before := settled_fields r in
    let r := match non_executing_backend_reason r with
             | Some reason => append_restore_error reason r
             | None => r
             end in
    match tr_status r with
    | Paused =>
        let r := r <| tr_pause_requested := false |> <| tr_stopping := false |>
                   <| tr_awaiting := None |> in
        let changed := negb (bool_decide (settled_before = settled_fields r)) in
        (if changed then r <| tr_updated_at := now |> else r, changed)
    | PausePending =>
        ((settle_paused now "the relay restarted while the team was pausing" PauseBoundary r).1,
         true)
    | AwaitingUser =>
        ((settle_paused now
            "the relay restarted while the team was waiting on your answer; that step will be re-run"
            PauseBoundary (rollback_current_round r)).1, true)
    | _ =>
        if is_executable_by_current_build r then mark_interrupted_if_stranded now r
        else (r <| tr_pause_requested := false |> <| tr_stopping := false |>
                <| tr_awaiting := None |> <| tr_status := Failed |>
                <| tr_updated_at := now |>, true)
    end.
