(* ===== verification/TeamThreads.v ===== *)
(** * Task teams: the threads a run owns (crates/relay-api/src/team.rs)

    A run names threads in many places: the team lead and its predecessors, the
    run-owned list with its role tags, the developer of the merge-request gate,
    each sub-task's seats and history, the turn in flight and the parked question.
    [rekey_thread] rewrites all of them when a provider replaces a provisional id;
    [owned_thread_ids] is the set a drain reaches. *)

From Stdlib Require Import ZArith Lia.
From S2P Require Import Prelude RustStr Json TeamTypes TeamRun.

Open Scope string_scope.
Open Scope Z_scope.

(** ** Re-keying *)

(** The closure [swap]: the slot afterwards, and whether it set [changed]. *)
Definition swap (pending real slot : string) : string :=
  if decide (slot = pending) then real else slot.
Definition swaps (pending slot : string) : bool := bool_decide (slot = pending).
#[global] Arguments swap : simpl never.
#[global] Arguments swaps : simpl never.

Definition swap_generation (pending real : string) (g : TlGeneration) : TlGeneration :=
  g <| tg_thread_id ::= swap pending real |>.

Definition swap_task (pending real : string) (t : SubTask) : SubTask :=
  t <| st_dev_thread_id ::= fmap (swap pending real) |>
    <| st_reviewer_thread_id ::= fmap (swap pending real) |>
    <| st_owned_thread_ids ::= map (swap pending real) |>.

Definition opt_swaps (pending : string) (o : option string) : bool :=
  match o with Some slot => swaps pending slot | None => false end.

Definition task_swaps (pending : string) (t : SubTask) : bool :=
  opt_swaps pending (st_dev_thread_id t)
  || opt_swaps pending (st_reviewer_thread_id t)
  || existsb (swaps pending) (st_owned_thread_ids t).

(** [BTreeMap::remove] then [insert] under the new key. *)
Definition rekey_roles (pending real : string) (m : gmap string string) : gmap string string :=
  match m !! pending with
  | Some role => <[real := role]> (delete pending m)
  | None => m
  end.

Definition rekey_changed (pending : string) (r : TeamRun) : bool :=
  swaps pending (tr_tl_thread_id r)
  || existsb (λ g, swaps pending (tg_thread_id g)) (tr_tl_succession r)
  || existsb (swaps pending) (tr_run_owned_thread_ids r)
  || opt_swaps pending (tr_mr_dev_thread_id r)
  || existsb (task_swaps pending) (tr_sub_tasks r)
  || is_some (tr_run_owned_thread_roles r !! pending)
  || opt_swaps pending (tr_in_flight_thread r)
  || opt_swaps pending (au_thread_id <$> tr_awaiting r).

Definition rekey_thread (now : Z) (pending real : string) (r : TeamRun) : TeamRun * bool :=
  if is_empty pending || bool_decide (pending = real) then (r, false)
  else
    let changed := rekey_changed pending r in
    let r := r <| tr_tl_thread_id ::= swap pending real |>
               <| tr_tl_succession ::= map (swap_generation pending real) |>
               <| tr_run_owned_thread_ids ::= map (swap pending real) |>
               <| tr_mr_dev_thread_id ::= fmap (swap pending real) |>
               <| tr_sub_tasks ::= map (swap_task pending real) |>
               <| tr_run_owned_thread_roles ::= rekey_roles pending real |>
               <| tr_in_flight_thread ::= fmap (swap pending real) |>
               <| tr_awaiting ::= fmap (λ a, a <| au_thread_id ::= swap pending real |>) |> in
    (if changed then r <| tr_updated_at := now |> else r, changed).

(** ** Seats *)

Definition slot_id (slot : TeamThreadSlot) (r : TeamRun) : option string :=
  match slot with
  | SlotTl => Some (tr_tl_thread_id r)
  | SlotSubTaskDev index => tr_sub_tasks r !! index ≫= st_dev_thread_id
  | SlotSubTaskReviewer index => tr_sub_tasks r !! index ≫= st_reviewer_thread_id
  | SlotRunOwned index => tr_run_owned_thread_ids r !! index
  | SlotMrDev => tr_mr_dev_thread_id r
  end.

Definition thread_in_slot (slot : TeamThreadSlot) (r : TeamRun) : option string :=
  match slot_id slot r with
  | Some id => if is_empty id then None else Some id
  | None => None
  end.

Definition record_run_thread (now : Z) (thread_id : string) (r : TeamRun) : TeamRun :=
  if is_empty thread_id || bool_decide (thread_id ∈ tr_run_owned_thread_ids r) then r
  else r <| tr_run_owned_thread_ids ::= λ l, (l ++ [thread_id])%list |> <| tr_updated_at := now |>.

Definition record_run_thread_role (now : Z) (thread_id : string) (role : TeamRole)
    (r : TeamRun) : TeamRun :=
  if is_empty thread_id then r
  else r <| tr_run_owned_thread_roles ::= <[thread_id := role_as_str role]> |>
         <| tr_updated_at := now |>.

(** ** Ownership *)

Definition task_candidates (t : SubTask) : list string :=
  (st_owned_thread_ids t ++ option_list (st_dev_thread_id t)
   ++ option_list (st_reviewer_thread_id t))%list.

Definition thread_candidates (r : TeamRun) : list string :=
  ([tr_tl_thread_id r] ++ map tg_thread_id (tr_tl_succession r)
   ++ tr_run_owned_thread_ids r ++ option_list (tr_mr_dev_thread_id r)
   ++ flat_map task_candidates (tr_sub_tasks r))%list.

(** The loop that keeps the first occurrence of each non-empty candidate. *)
Definition push_new (ids : list string) (id : string) : list string :=
  if negb (is_empty id) && negb (existsb (λ seen, bool_decide (seen = id)) ids)
  then (ids ++ [id])%list else ids.

Definition owned_thread_ids (r : TeamRun) : list string :=
  fold_left push_new (thread_candidates r) [].

(** ** Lemmas *)

Lemma existsb_elem_string (id : string) ids :
  existsb (λ seen, bool_decide (seen = id)) ids = true ↔ id ∈ ids.
Proof.
  rewrite existsb_exists. split.
  - intros (x & Hx & E). apply bool_decide_eq_true in E as ->. by apply list_elem_of_In.
  - intros H. exists id. rewrite bool_decide_eq_true. split; [by apply list_elem_of_In|done].
Qed.

Lemma push_new_elem ids id x : x ∈ push_new ids id ↔ x ∈ ids ∨ (x = id ∧ id ≠ "").
Proof.
  unfold push_new.
  destruct (is_empty id) eqn:He; cbn [negb andb].
  { apply is_empty_true in He. naive_solver. }
  apply is_empty_false in He.
  destruct (existsb _ ids) eqn:Hx; cbn [negb].
  - apply existsb_elem_string in Hx. naive_solver.
  - rewrite elem_of_app, list_elem_of_singleton. naive_solver.
Qed.

Lemma push_new_NoDup ids id : NoDup ids → NoDup (push_new ids id).
Proof.
  intros H. unfold push_new.
  destruct (is_empty id), (existsb _ ids) eqn:Hx; cbn; try done.
  apply NoDup_app. split; [done|]. split; [|apply NoDup_singleton].
  intros x Hx1 ->%list_elem_of_singleton.
  assert (existsb (λ seen, bool_decide (seen = id)) ids = true) by (by apply existsb_elem_string).
  congruence.
Qed.

Lemma fold_push_new_elem l ids x :
  x ∈ fold_left push_new l ids ↔ x ∈ ids ∨ (x ∈ l ∧ x ≠ "").
Proof.
  revert ids. induction l as [|id l IH]; intros ids; cbn.
  - set_solver.
  - rewrite IH, push_new_elem, elem_of_cons. naive_solver.
Qed.

Lemma fold_push_new_NoDup l ids : NoDup ids → NoDup (fold_left push_new l ids).
Proof. revert ids. induction l; cbn; eauto using push_new_NoDup. Qed.

(** Membership in the owned set. *)
Lemma owned_thread_ids_elem r x : x ∈ owned_thread_ids r ↔ x ∈ thread_candidates r ∧ x ≠ "".
Proof. unfold owned_thread_ids. rewrite fold_push_new_elem. set_solver. Qed.

Lemma owned_thread_ids_NoDup r : NoDup (owned_thread_ids r).
Proof. apply fold_push_new_NoDup, NoDup_nil_2. Qed.

Lemma swap_neq pending real slot : pending ≠ real → swap pending real slot ≠ pending.
Proof. unfold swap. case_decide; congruence. Qed.

Lemma swap_id pending real slot : slot ≠ pending → swap pending real slot = slot.
Proof. unfold swap. by case_decide. Qed.

Lemma swaps_false pending slot : swaps pending slot = false ↔ slot ≠ pending.
Proof. apply bool_decide_eq_false. Qed.

Lemma map_swap_id pending real l :
  existsb (swaps pending) l = false → map (swap pending real) l = l.
Proof.
  induction l as [|x l IH]; cbn; [done|]. rewrite orb_false_iff, swaps_false.
  intros [Hx Hl]. by rewrite swap_id, IH.
Qed.

Lemma fmap_swap_id pending real o :
  opt_swaps pending o = false → swap pending real <$> o = o.
Proof. destruct o as [x|]; cbn; [|done]. rewrite swaps_false. intros. by rewrite swap_id. Qed.

Lemma elem_option_list {A} (x : A) o : x ∈ option_list o ↔ o = Some x.
Proof.
  destruct o as [y|]; cbn; [rewrite list_elem_of_singleton; naive_solver|].
  rewrite elem_of_nil. naive_solver.
Qed.

(** Nothing to swap, nothing swapped. *)
Lemma map_id_on {A} (f : A → A) (p : A → bool) l :
  (∀ x, p x = false → f x = x) → existsb p l = false → map f l = l.
Proof.
  intros Hf. induction l as [|x l IH]; cbn; [done|].
  rewrite orb_false_iff. intros [Hx Hl]. by rewrite Hf, IH.
Qed.

Lemma swap_generation_id pending real g :
  swaps pending (tg_thread_id g) = false → swap_generation pending real g = g.
Proof.
  rewrite swaps_false. destruct g. unfold swap_generation, set_field. cbn. intros. by rewrite swap_id.
Qed.

Lemma swap_task_id pending real t :
  task_swaps pending t = false → swap_task pending real t = t.
Proof.
  unfold task_swaps, swap_task. rewrite !orb_false_iff. intros [[H1 H2] H3].
  destruct t; unfold set_field; cbn in *. by rewrite !fmap_swap_id, map_swap_id.
Qed.

Lemma rekey_unchanged now pending real r :
  (rekey_thread now pending real r).2 = false → (rekey_thread now pending real r).1 = r.
Proof.
  unfold rekey_thread. case_if; [done|]. cbn [fst snd]. intros Hc. rewrite Hc.
  unfold rekey_changed in Hc. rewrite !orb_false_iff in Hc. destruct_and?.
  set_noop tr_tl_thread_id (swap pending real) r; [by apply swap_id, swaps_false|].
  set_noop tr_tl_succession (map (swap_generation pending real)) r.
  { eapply map_id_on; [apply swap_generation_id | done]. }
  set_noop tr_run_owned_thread_ids (map (swap pending real)) r; [by apply map_swap_id|].
  set_noop tr_mr_dev_thread_id (fmap (M:=option) (swap pending real)) r; [by apply fmap_swap_id|].
  set_noop tr_sub_tasks (map (swap_task pending real)) r.
  { eapply map_id_on; [apply swap_task_id | done]. }
  set_noop tr_run_owned_thread_roles (rekey_roles pending real) r.
  { unfold rekey_roles. by rewrite (proj1 (is_some_false _)). }
  set_noop tr_in_flight_thread (fmap (M:=option) (swap pending real)) r; [by apply fmap_swap_id|].
  match goal with |- set_field tr_awaiting ?f r = _ => set_noop tr_awaiting f r end; [|done].
  destruct tr_awaiting as [a|]; cbn in *; [|done]. f_equal.
  destruct a; cbn in *. by rewrite swap_id by (by apply swaps_false).
Qed.

(** Re-keying the tasks and the generations maps their candidates. *)
Lemma swap_task_candidates pending real t :
  task_candidates (swap_task pending real t) = map (swap pending real) (task_candidates t).
Proof.
  destruct t. unfold task_candidates, swap_task. cbn. rewrite !map_app. f_equal. f_equal.
  - by destruct st_dev_thread_id.
  - by destruct st_reviewer_thread_id.
Qed.

Lemma flat_map_swap pending real l :
  flat_map task_candidates (map (swap_task pending real) l)
  = map (swap pending real) (flat_map task_candidates l).
Proof.
  induction l as [|t l IH]; cbn [flat_map map]; [done|].
  by rewrite map_app, swap_task_candidates, IH.
Qed.

Lemma rekey_candidates now pending real r :
  pending ≠ "" → pending ≠ real →
  thread_candidates (rekey_thread now pending real r).1
  = map (swap pending real) (thread_candidates r).
Proof.
  intros Hp Hne. unfold rekey_thread.
  rewrite (proj2 (is_empty_false pending)) by done.
  rewrite bool_decide_eq_false_2 by done. cbn [orb].
  assert (∀ (b : bool) r', thread_candidates (if b then r' <| tr_updated_at := now |> else r')
    = thread_candidates r') as Hu by (intros [] []; done).
  cbn [fst]. rewrite Hu. destruct r. unfold thread_candidates. cbn.
  f_equal. rewrite !map_app, flat_map_swap, !map_map. f_equal.
  f_equal. f_equal. by destruct tr_mr_dev_thread_id.
Qed.

Lemma rekey_roles_eq now pending real r :
  pending ≠ "" → pending ≠ real →
  tr_run_owned_thread_roles (rekey_thread now pending real r).1
  = rekey_roles pending real (tr_run_owned_thread_roles r).
Proof.
  intros Hp Hne. unfold rekey_thread.
  rewrite (proj2 (is_empty_false pending)) by done.
  rewrite bool_decide_eq_false_2 by done. cbn [orb fst]. destruct r; case_if; done.
Qed.

Lemma rekey_roles_pending pending real m :
  pending ≠ real → rekey_roles pending real m !! pending = None.
Proof.
  intros Hne. unfold rekey_roles. destruct (m !! pending) eqn:E; [|done].
  rewrite lookup_insert_ne by done. apply lookup_delete_eq.
Qed.

Lemma rekey_roles_real pending real m role :
  m !! pending = Some role → rekey_roles pending real m !! real = Some role.
Proof. unfold rekey_roles. intros ->. apply lookup_insert_eq. Qed.
