(* ===== verification/TeamLifecycle.v ===== *)
(** * Task teams: the lifecycle of a run

    Every public mutator of [TeamRun] is a constructor of [TeamOp]; [exec] runs one
    and [exec_all] a sequence, each operation with its own clock reading.
    [status_edge] is the abstract state machine: the status changes each operation
    may make and from where.  The refinement lemma says a run only ever moves along
    its edges, and the lifecycle theorems follow from the edges alone. *)

From Stdlib Require Import ZArith Lia.
From S2P Require Import Prelude RustStr Json TeamTypes Tokens Backend TeamRun TeamThreads.

Open Scope string_scope.
Open Scope Z_scope.

(** ** Operations *)
Inductive TeamOp : Type :=
| OpSetBackend (backend : OrchestrationBackendRef)
| OpSetStatus (status : TeamRunStatus)
| OpFail (error : string)
| OpBlock (error : string)
| OpRequestPause (device : string)
| OpRequestStop (device : string)
| OpSettlePaused (reason : string) (kind : TeamPauseKind)
| OpRequestReseed (reason : string)
| OpRetireTl (reason : string)
| OpResume
| OpCancel (reason : string)
| OpForceMark (status : TeamRunStatus)
| OpBeginResolving
| OpResolveAsPaused (reason : string) (kind : TeamPauseKind)
| OpRestoreResolving (error : string)
| OpMarkInterrupted
| OpDetachTl
| OpRollback
| OpRevive (only : option (list string))
| OpReplan (clock : nat → Z) (last : Z) (planned : list SubTask)
| OpHoldPhase
| OpRekey (pending real : string)
| OpRecordThread (thread_id : string)
| OpRecordRole (thread_id : string) (role : TeamRole)
| OpReconcile.

Definition exec (now : Z) (op : TeamOp) (r : TeamRun) : TeamRun :=
  match op with
  | OpSetBackend b => (set_orchestration_backend now b r).1
  | OpSetStatus s => set_status now s r
  | OpFail e => fail_run now e r
  | OpBlock e => block now e r
  | OpRequestPause d => request_pause now d r
  | OpRequestStop d => request_stop now d r
  | OpSettlePaused reason k => (settle_paused now reason k r).1
  | OpRequestReseed reason => request_tl_reseed now reason r
  | OpRetireTl reason => (retire_tl now reason r).1
  | OpResume => (resume now r).1
  | OpCancel reason => (cancel now reason r).1
  | OpForceMark s => (force_mark_status now s r).1
  | OpBeginResolving => (begin_resolving_blocked now r).1
  | OpResolveAsPaused reason k => (resolve_as_paused now reason k r).1
  | OpRestoreResolving e => (restore_resolving_as_blocked now e r).1
  | OpMarkInterrupted => (mark_interrupted_if_stranded now r).1
  | OpDetachTl => detach_unresumable_tl now r
  | OpRollback => rollback_current_round r
  | OpRevive only => (revive_sub_tasks now only r).1
  | OpReplan clock last planned => (replan_sub_tasks now clock last planned r).1
  | OpHoldPhase => (hold_phase_for_waiting_sub_tasks now r).1
  | OpRekey p q => (rekey_thread now p q r).1
  | OpRecordThread t => record_run_thread now t r
  | OpRecordRole t role => record_run_thread_role now t role r
  | OpReconcile => (reconcile_after_restore now r).1
  end.

Fixpoint exec_all (ops : list (Z * TeamOp)) (r : TeamRun) : TeamRun :=
  match ops with
  | [] => r
  | (now, op) :: ops' => exec_all ops' (exec now op r)
  end.

(** The overrides a person makes, and the recoveries that answer for a person or
    for a restart.  Everything else is open to the driver. *)
Definition user_op (op : TeamOp) : bool :=
  match op with
  | OpResume | OpCancel _ | OpForceMark _ | OpBeginResolving | OpResolveAsPaused _ _
  | OpRestoreResolving _ | OpMarkInterrupted | OpDetachTl | OpReconcile => true
  | _ => false
  end.

(** ** The abstract state machine *)
Inductive status_edge : TeamOp → TeamRunStatus → TeamRunStatus → Prop :=
| edge_set s s' : driver_locked s = false → status_edge (OpSetStatus s') s s'
| edge_fail e s : driver_locked s = false → status_edge (OpFail e) s Failed
| edge_block e s : is_terminal s = false → status_edge (OpBlock e) s Blocked
| edge_pause d s : driver_locked s = false → status_edge (OpRequestPause d) s PausePending
| edge_stop d s : driver_locked s = false → status_edge (OpRequestStop d) s PausePending
| edge_settle reason k s : driver_locked s = false → status_edge (OpSettlePaused reason k) s Paused
| edge_resume : status_edge OpResume Paused Running
| edge_cancel reason s : is_terminal s = false → status_edge (OpCancel reason) s Cancelled
| edge_mark s s' : s' = Done ∨ s' = Cancelled → status_edge (OpForceMark s') s s'
| edge_resolving : status_edge OpBeginResolving Blocked Resolving
| edge_resolved reason k : status_edge (OpResolveAsPaused reason k) Resolving Paused
| edge_unresolved e : status_edge (OpRestoreResolving e) Resolving Blocked
| edge_strand s : is_terminal s = false → s ≠ Paused → status_edge OpMarkInterrupted s Interrupted
| edge_detach s : is_terminal s = false → status_edge OpDetachTl s Interrupted
| edge_repause s : s = PausePending ∨ s = AwaitingUser → status_edge OpReconcile s Paused
| edge_reinterrupt s : is_terminal s = false → s ≠ Paused → s ≠ PausePending → s ≠ AwaitingUser →
    status_edge OpReconcile s Interrupted
| edge_refail s : is_terminal s = false → s ≠ Paused → s ≠ PausePending → s ≠ AwaitingUser →
    status_edge OpReconcile s Failed.

(** ** Refinement *)

Lemma append_restore_error_status reason r :
  tr_status (append_restore_error reason r) = tr_status r.
Proof. unfold append_restore_error. destruct r, tr_error; cbn; repeat case_if; done. Qed.

Lemma rollback_status r : tr_status (rollback_current_round r) = tr_status r.
Proof. unfold rollback_current_round. destruct (current_sub_task _); by destruct r. Qed.

Lemma rekey_status now p q r : tr_status (rekey_thread now p q r).1 = tr_status r.
Proof. unfold rekey_thread. destruct r. repeat (case_if; cbn); done. Qed.

Lemma replan_status now clock last planned r :
  tr_status (replan_sub_tasks now clock last planned r).1 = tr_status r.
Proof. unfold replan_sub_tasks. destruct (replan_push _ _ _ _ _ _). by destruct r. Qed.

Lemma revive_status now only r : tr_status (revive_sub_tasks now only r).1 = tr_status r.
Proof. unfold revive_sub_tasks. destruct r, tr_phase; cbn; case_if; done. Qed.

(** Operations that never write the status. *)
Definition keeps_status (op : TeamOp) : bool :=
  match op with
  | OpSetBackend _ | OpRequestReseed _ | OpRetireTl _ | OpRollback | OpRevive _
  | OpReplan _ _ _ | OpHoldPhase | OpRekey _ _ | OpRecordThread _ | OpRecordRole _ _ => true
  | _ => false
  end.

Lemma exec_keeps_status now op r :
  keeps_status op = true → tr_status (exec now op r) = tr_status r.
Proof.
  destruct op; try done; intros _; cbn [exec];
    auto using rollback_status, rekey_status, replan_status, revive_status.
  - unfold set_orchestration_backend. case_decide; [done|]. case_if; by destruct r.
  - unfold request_tl_reseed. case_if; by destruct r.
  - unfold retire_tl. destruct r. repeat (case_if; cbn); done.
  - unfold hold_phase_for_waiting_sub_tasks. case_if; by destruct r.
  - unfold record_run_thread. case_if; by destruct r.
  - unfold record_run_thread_role. case_if; by destruct r.
Qed.

(** Restoring a run: where its status goes. *)
Definition restored_status (r : TeamRun) : TeamRunStatus :=
  if is_terminal (tr_status r) then tr_status r
  else match tr_status r with
       | Paused | PausePending | AwaitingUser => Paused
       | _ => if is_executable_by_current_build r then Interrupted else Failed
       end.

Lemma append_restore_error_backend reason r :
  is_executable_by_current_build (append_restore_error reason r)
  = is_executable_by_current_build r.
Proof.
  unfold is_executable_by_current_build, append_restore_error.
  destruct r, tr_error; cbn; repeat case_if; done.
Qed.

Lemma settle_paused_status now reason k r :
  tr_status (settle_paused now reason k r).1
  = if driver_locked (tr_status r) then tr_status r else Paused.
Proof. unfold settle_paused. case_if; [done|]. by destruct r. Qed.

Lemma mark_interrupted_status now r :
  tr_status (mark_interrupted_if_stranded now r).1
  = if is_terminal (tr_status r) || is_resumable (tr_status r) then tr_status r
    else Interrupted.
Proof. unfold mark_interrupted_if_stranded. case_if; [done|]. by destruct r. Qed.

Lemma reconcile_status now r :
  tr_status (reconcile_after_restore now r).1 = restored_status r.
Proof.
  unfold reconcile_after_restore, restored_status.
  destruct (is_terminal (tr_status r)) eqn:Ht; [done|].
  set (r1 := match non_executing_backend_reason r with
             | Some reason => append_restore_error reason r | None => r end).
  assert (tr_status r1 = tr_status r ∧
    is_executable_by_current_build r1 = is_executable_by_current_build r) as [Hs Hx].
  { subst r1. destruct (non_executing_backend_reason r); [|done].
    split; [apply append_restore_error_status | apply append_restore_error_backend]. }
  rewrite Hs, Hx. clearbody r1.
  destruct (tr_status r) eqn:Es; try done; cbn [fst];
    try (rewrite settle_paused_status, ?rollback_status, Hs; done);
    try (case_if; [rewrite mark_interrupted_status, Hs; done | by destruct r1]).
  case_if; by destruct r1.
Qed.

(** A run keeps its status or moves along an edge of the operation it ran. *)
Lemma exec_status_edge now op r :
  tr_status (exec now op r) = tr_status r ∨
  status_edge op (tr_status r) (tr_status (exec now op r)).
Proof.
  destruct (keeps_status op) eqn:Hk; [left; by apply exec_keeps_status|].
  destruct op; try done; cbn [exec].
  - unfold set_status. case_if; [by left|]. right. destruct r. by constructor.
  - unfold fail_run, set_status. destruct r; cbn.
    repeat (case_if; cbn); auto; right; by constructor.
  - unfold block. case_if; [by left|]. right. destruct r. by constructor.
  - unfold request_pause, set_status. destruct r; cbn.
    repeat (case_if; cbn); auto; right; by constructor.
  - unfold request_stop, request_pause, set_status. destruct r; cbn.
    repeat (case_if; cbn); auto; right; by constructor.
  - rewrite settle_paused_status. case_if; [by left|]. right. by constructor.
  - unfold resume. case_if; [|by left]. right. destruct r, tr_status; try done. constructor.
  - unfold cancel. case_if; [by left|]. right. destruct r. by constructor.
  - unfold force_mark_status. destruct status; try (by left); (case_decide; [by left|]); right;
      destruct r; cbn; repeat (case_if; cbn); constructor; auto.
  - unfold begin_resolving_blocked. case_bool_decide as E; [|by left]. right. destruct r.
    cbn in *. subst. constructor.
  - unfold resolve_as_paused. case_bool_decide as E; [|by left]. right. destruct r.
    cbn in *. subst. constructor.
  - unfold restore_resolving_as_blocked, block. case_bool_decide as E; [|by left]. right.
    destruct r. cbn in *. subst. constructor.
  - rewrite mark_interrupted_status. case_if; [by left|]. right.
    destruct (tr_status r); try done; by constructor.
  - unfold detach_unresumable_tl. destruct r; cbn. case_if; [by left|]. right. by constructor.
  - rewrite reconcile_status. unfold restored_status.
    destruct (is_terminal (tr_status r)) eqn:Ht; [by left|].
    destruct (tr_status r); try done; auto; try (right; constructor; auto; done);
      case_if; right; by constructor.
Qed.

(** ** Consequences of the edges *)

Lemma driver_locked_false s :
  driver_locked s = false ↔ is_terminal s = false ∧ is_settled_without_driver s = false.
Proof. apply orb_false_iff. Qed.

Lemma edge_terminal op s s' :
  status_edge op s s' → is_terminal s = true → ∃ m, op = OpForceMark m.
Proof.
  intros H Ht. destruct H as [? ? H|? ? H|? ? H|? ? H|? ? H|? ? ? H| |? ? H| | | | |? H|? H
    |? H|? H|? H]; eauto; try done; rewrite ?driver_locked_false in H; destruct_and?;
    destruct_or?; simplify_eq; congruence.
Qed.

Lemma exec_terminal now op r :
  (∀ m, op ≠ OpForceMark m) → is_terminal (tr_status r) = true →
  tr_status (exec now op r) = tr_status r.
Proof.
  intros Hop Ht. destruct (exec_status_edge now op r) as [|H]; [done|].
  apply edge_terminal in H as [m ->]; [|done]. by destruct (Hop m).
Qed.

Lemma edge_settled op s s' :
  status_edge op s s' → user_op op = false → is_settled_without_driver s = true →
  ∃ e, op = OpBlock e ∧ s' = Blocked.
Proof.
  intros H Hu Hs. destruct H as [? ? H|? ? H|? ? H|? ? H|? ? H|? ? ? H| | | | | | | | | | |];
    eauto; try done; apply driver_locked_false in H as [? ?]; congruence.
Qed.
