(* ===== verification/TeamTheorems.v ===== *)
(** * Task teams: theorems

    What a task-team run promises: terminal states are final, settled states are
    the user's, a restore always lands in a settled state, a stop outranks the
    failure it causes, and no thread a run ever owned escapes its drain. *)

From Stdlib Require Import ZArith Lia.
From S2P Require Import Prelude RustStr Json TeamTypes Tokens Backend TeamRun TeamThreads.
From S2P Require Import TeamLifecycle.

Open Scope string_scope.
Open Scope Z_scope.

(** A run to try the theorems on. *)
Definition sample_task (id : string) (status : SubTaskStatus) : SubTask :=
  SubTask_default <| st_id := id |> <| st_status := status |> <| st_digested := sub_is_terminal status |>
    <| st_dev_thread_id := Some ("dev-" ++ id) |> <| st_owned_thread_ids := ["dev-" ++ id] |>.
Definition sample_run : TeamRun :=
  (TeamRun_new 100 "run-1" TaskSpec_default "/work" "phone")
    <| tr_status := Running |> <| tr_phase := SubTasks |>
    <| tr_tl_thread_id := "claude-pending-1" |>
    <| tr_sub_tasks := [sample_task "st-1" SubDone; sample_task "st-2" SubImplementing] |>.

(** ** Lifecycle *)

Lemma exec_all_rtc ops r :
  rtc (λ s s', ∃ op, status_edge op s s') (tr_status r) (tr_status (exec_all ops r)).
Proof.
  revert r. induction ops as [|[now op] ops IH]; intros r; cbn; [done|].
  destruct (exec_status_edge now op r) as [<-|H]; [apply IH|].
  eapply rtc_l; [by exists op | apply IH].
Qed.

(** Whatever sequence of operations runs on a team run, at whatever clock
    readings, its status walks a path of the abstract state machine [status_edge]. *)
Theorem team_status_refines_machine ops r :
  rtc (λ s s', ∃ op, status_edge op s s') (tr_status r) (tr_status (exec_all ops r)).
Proof. apply exec_all_rtc. Qed.

(** A terminal status is final: no sequence of operations changes it, the
    explicit relabel [force_mark_status] apart. *)
Theorem team_terminal_is_final ops r :
  is_terminal (tr_status r) = true →
  Forall (λ e : Z * TeamOp, ∀ m, e.2 ≠ OpForceMark m) ops →
  tr_status (exec_all ops r) = tr_status r.
Proof.
  intros Ht Hops. revert r Ht. induction Hops as [|[now op] ops Hop _ IH]; intros r Ht; [done|].
  cbn. pose proof (exec_terminal now op r Hop Ht) as E. rewrite IH; [done | by rewrite E].
Qed.

Lemma team_terminal_is_final_witness :
  tr_status (exec_all [(1, OpResume); (2, OpFail "late"); (3, OpReconcile)]
    (sample_run <| tr_status := Cancelled |>)) = Cancelled.
Proof.
  rewrite (team_terminal_is_final [(1, OpResume); (2, OpFail "late"); (3, OpReconcile)]
    (sample_run <| tr_status := Cancelled |>)); [done | done |].
  repeat constructor; done.
Defined.

(** A status the user settled ([Paused], [Blocked], [Resolving]) is only left by
    a user's or a recovery's operation; an operation open to the driver keeps it,
    and [block] alone can turn it into [Blocked]. *)
Theorem team_settled_is_the_users now op r :
  is_settled_without_driver (tr_status r) = true → user_op op = false →
  tr_status (exec now op r) = tr_status r ∨
  (∃ e, op = OpBlock e) ∧ tr_status (exec now op r) = Blocked.
Proof.
  intros Hs Hu. destruct (exec_status_edge now op r) as [|H]; [by left|].
  destruct (edge_settled _ _ _ H Hu Hs) as (e & -> & E). right. eauto.
Qed.

Lemma team_settled_is_the_users_witness :
  tr_status (exec 7 (OpFail "turn ended") (sample_run <| tr_status := Paused |>)) = Paused.
Proof.
  destruct (team_settled_is_the_users 7 (OpFail "turn ended")
    (sample_run <| tr_status := Paused |>)) as [H|[[e H] _]]; [done | done | exact H | done].
Defined.

(** The exception is real: the driver's [block] takes a run the user paused out of
    [Paused], although the source says settled states are never written by a driver. *)
Theorem driver_block_overwrites_pause now e r :
  tr_status r = Paused →
  tr_status (exec now (OpBlock e) r) = Blocked ∧
  (resume now (exec now (OpBlock e) r)).2 = false.
Proof.
  intros Hs. cbn [exec]. unfold block. rewrite Hs. cbn [is_terminal].
  destruct r. done.
Qed.

Lemma driver_block_overwrites_pause_witness :
  tr_status (exec 7 (OpBlock "no answer") (sample_run <| tr_status := Paused |>)) = Blocked ∧
  (resume 7 (exec 7 (OpBlock "no answer") (sample_run <| tr_status := Paused |>))).2 = false.
Proof. apply driver_block_overwrites_pause. reflexivity. Defined.

(** ** Stop, pause and resume *)

Lemma request_stop_state now d r :
  driver_locked (tr_status r) = false →
  tr_status (request_stop now d r) = PausePending ∧ tr_stopping (request_stop now d r) = true.
Proof.
  intros H. unfold request_stop, request_pause, set_status. rewrite H.
  destruct r; cbn in *. by rewrite H.
Qed.

(** C6: a stop outranks the failure it causes: while a stop is draining, [fail]
    records the error and leaves the run pausing, and the pause then settles into a
    run that resumes to [Running] with the error gone. *)
Theorem stop_outranks_failure t1 t2 t3 t4 device e reason k r :
  driver_locked (tr_status r) = false →
  let failed := fail_run t2 e (request_stop t1 device r) in
  tr_status failed = PausePending ∧ tr_error failed = Some e ∧
  let '(paused, ok) := settle_paused t3 reason k failed in
  ok = true ∧ tr_status paused = Paused ∧
  let '(resumed, ok') := resume t4 paused in
  ok' = true ∧ tr_status resumed = Running ∧ tr_error resumed = None.
Proof.
  intros H. destruct (request_stop_state t1 device r H) as [Hs Hst].
  set (r1 := request_stop t1 device r) in *. clearbody r1.
  cbn zeta. unfold fail_run. rewrite Hs. destruct r1; cbn in *. subst. by cbn.
Qed.

Lemma stop_outranks_failure_witness :
  let failed := fail_run 2 "turn vanished" (request_stop 1 "phone" sample_run) in
  tr_status failed = PausePending ∧ tr_error failed = Some "turn vanished" ∧
  let '(paused, ok) := settle_paused 3 "stopped" PauseUser failed in
  ok = true ∧ tr_status paused = Paused ∧
  let '(resumed, ok') := resume 4 paused in
  ok' = true ∧ tr_status resumed = Running ∧ tr_error resumed = None.
Proof. apply stop_outranks_failure. reflexivity. Defined.

(** A failure during a graceful pause is the run's own: with no stop draining,
    [fail] after [request_pause] ends the run as [Failed]. *)
Theorem failure_during_graceful_pause t1 t2 device e r :
  driver_locked (tr_status r) = false → tr_stopping r = false →
  tr_status (fail_run t2 e (request_pause t1 device r)) = Failed.
Proof.
  intros H Hs. unfold fail_run, request_pause, set_status. rewrite H.
  destruct r; cbn in *. subst. rewrite H. done.
Qed.

Lemma failure_during_graceful_pause_witness :
  tr_status (fail_run 2 "boom" (request_pause 1 "phone" sample_run)) = Failed.
Proof. apply failure_during_graceful_pause; reflexivity. Defined.

(** ** Restore *)

Lemma append_restore_error_contains reason r :
  ∃ e, tr_error (append_restore_error reason r) = Some e ∧ contains reason e = true.
Proof.
  unfold append_restore_error. destruct r, tr_error as [e|]; cbn.
  - destruct (contains reason e) eqn:Hc; cbn; [eauto|].
    destruct (is_blank e); cbn; eexists; split; eauto using contains_refl.
    apply contains_app_r, (contains_app_r _ "; "), contains_refl.
  - eauto using contains_refl.
Qed.

Lemma append_restore_error_fix reason r e :
  tr_error r = Some e → contains reason e = true → append_restore_error reason r = r.
Proof. unfold append_restore_error. intros -> ->. done. Qed.

(** A run a restore leaves alone. *)
Definition restore_fixed (r : TeamRun) : Prop :=
  is_terminal (tr_status r) = true ∨
  tr_status r = Paused ∧ tr_pause_requested r = false ∧ tr_stopping r = false ∧
  tr_awaiting r = None ∧
  (∀ reason, non_executing_backend_reason r = Some reason →
     ∃ e, tr_error r = Some e ∧ contains reason e = true).

Lemma restore_fixed_noop now r : restore_fixed r → reconcile_after_restore now r = (r, false).
Proof.
  unfold reconcile_after_restore. intros [Ht|(Hs & Hp & Hst & Ha & He)]; [by rewrite Ht|].
  rewrite Hs. cbn [is_terminal].
  assert (match non_executing_backend_reason r with
          | Some reason => append_restore_error reason r | None => r end = r) as ->.
  { destruct (non_executing_backend_reason r) as [reason|]; [|done].
    destruct (He reason eq_refl) as (e & E & Hc). by eapply append_restore_error_fix. }
  rewrite Hs. unfold settled_fields.
  assert (r <| tr_pause_requested := false |> <| tr_stopping := false |> <| tr_awaiting := None |>
    = r) as ->. { destruct r; cbn in *. by subst. }
  by rewrite bool_decide_eq_true_2.
Qed.

Lemma rollback_fields r :
  tr_error (rollback_current_round r) = tr_error r ∧
  tr_orchestration_backend (rollback_current_round r) = tr_orchestration_backend r.
Proof. unfold rollback_current_round. destruct (current_sub_task _); by destruct r. Qed.

Lemma append_restore_error_backend_eq reason r :
  tr_orchestration_backend (append_restore_error reason r) = tr_orchestration_backend r.
Proof. unfold append_restore_error. destruct r, tr_error; cbn; repeat case_if; done. Qed.

Lemma settle_paused_fixed now reason k r :
  driver_locked (tr_status r) = false →
  (∀ why, non_executing_backend_reason r = Some why →
     ∃ e, tr_error r = Some e ∧ contains why e = true) →
  restore_fixed (settle_paused now reason k r).1.
Proof.
  intros Hl He. unfold settle_paused. rewrite Hl. right. destruct r; cbn in *. auto.
Qed.

Lemma reconcile_fixed now r : restore_fixed (reconcile_after_restore now r).1.
Proof.
  unfold reconcile_after_restore.
  destruct (is_terminal (tr_status r)) eqn:Ht; [by left|].
  set (r1 := match non_executing_backend_reason r with
             | Some reason => append_restore_error reason r | None => r end).
  assert (tr_status r1 = tr_status r ∧
    ∀ why, non_executing_backend_reason r1 = Some why →
      ∃ e, tr_error r1 = Some e ∧ contains why e = true) as [Hs He].
  { subst r1. unfold non_executing_backend_reason.
    destruct (non_executing_reason (tr_orchestration_backend r)) as [reason|] eqn:E.
    - split; [apply append_restore_error_status|]. rewrite append_restore_error_backend_eq, E.
      intros why [= <-]. apply append_restore_error_contains.
    - rewrite E. split; [done|]. by intros. }
  rewrite Hs. clearbody r1.
  destruct (tr_status r) eqn:Es; try done; cbn [fst];
    try (case_if; [left; rewrite mark_interrupted_status, Hs; done | left; by destruct r1]).
  - apply settle_paused_fixed; [by rewrite Hs | done].
  - right. case_if; destruct r1; cbn in *; auto.
  - apply settle_paused_fixed; [by rewrite rollback_status, Hs|].
    destruct (rollback_fields r1) as [-> Hb].
    unfold non_executing_backend_reason. by rewrite Hb.
Qed.

(** A restore always settles a run: afterwards it is terminal or [Paused] with no
    request, stop or question pending, and a second restore changes nothing. *)
Theorem restore_settles_and_is_idempotent now now' r :
  let r' := (reconcile_after_restore now r).1 in
  (is_terminal (tr_status r') = true ∨
   tr_status r' = Paused ∧ tr_pause_requested r' = false ∧ tr_stopping r' = false ∧
   tr_awaiting r' = None) ∧
  reconcile_after_restore now' r' = (r', false).
Proof.
  cbn zeta. pose proof (reconcile_fixed now r) as H. split.
  - destruct H as [|(? & ? & ? & ? & _)]; auto.
  - by apply restore_fixed_noop.
Qed.

(** Where a restore takes each status: paused, pausing and asking runs resume
    later, other live runs are [Interrupted] when this build can drive their backend
    and [Failed] otherwise. *)
Theorem restore_status_by_case now r :
  let r' := (reconcile_after_restore now r).1 in
  tr_status r' =
    (if is_terminal (tr_status r) then tr_status r
     else if bool_decide (tr_status r ∈ [Paused; PausePending; AwaitingUser]) then Paused
     else if is_executable_by_current_build r then Interrupted else Failed).
Proof.
  cbn zeta. rewrite reconcile_status. unfold restored_status. by destruct (tr_status r).
Qed.

(** ** Threads *)

Lemma slot_id_candidate slot r id : slot_id slot r = Some id → id ∈ thread_candidates r.
Proof.
  unfold thread_candidates. destruct slot as [|i|i|i|]; cbn; rewrite !elem_of_cons.
  - intros [= ->]. by left.
  - intros (t & Ht & Hd)%bind_Some. right. rewrite !elem_of_app. do 3 right.
    apply list_elem_of_In, in_flat_map. exists t.
    rewrite <- !list_elem_of_In. split; [by eapply list_elem_of_lookup_2|].
    unfold task_candidates. rewrite !elem_of_app, !elem_option_list. auto.
  - intros (t & Ht & Hd)%bind_Some. right. rewrite !elem_of_app. do 3 right.
    apply list_elem_of_In, in_flat_map. exists t.
    rewrite <- !list_elem_of_In. split; [by eapply list_elem_of_lookup_2|].
    unfold task_candidates. rewrite !elem_of_app, !elem_option_list. auto.
  - intros H. right. rewrite !elem_of_app. right. left. by eapply list_elem_of_lookup_2.
  - intros H. right. rewrite !elem_of_app, elem_option_list. auto.
Qed.

(** C7: the drain set names each thread once and never the empty id, and holds the thread of
    every seat, of every retired team lead, every thread listed as owned by the run and every
    thread a sub-task ever owned.  The other places of a run that hold a thread id (the turn in
    flight, the thread awaited, the keys of the role map) do not enter it by themselves. *)
Theorem owned_threads_complete r :
  NoDup (owned_thread_ids r) ∧ "" ∉ owned_thread_ids r ∧
  (∀ slot id, thread_in_slot slot r = Some id → id ∈ owned_thread_ids r) ∧
  (∀ g, g ∈ tr_tl_succession r → tg_thread_id g ≠ "" → tg_thread_id g ∈ owned_thread_ids r) ∧
  (∀ id, id ∈ tr_run_owned_thread_ids r → id ≠ "" → id ∈ owned_thread_ids r) ∧
  (∀ t id, t ∈ tr_sub_tasks r → id ∈ st_owned_thread_ids t → id ≠ "" → id ∈ owned_thread_ids r).
Proof.
  split; [apply owned_thread_ids_NoDup|]. setoid_rewrite owned_thread_ids_elem.
  split; [naive_solver|]. split.
  { intros slot id. unfold thread_in_slot. destruct (slot_id slot r) as [x|] eqn:E; [|done].
    destruct (is_empty x) eqn:He; [done|]. intros [= <-]. split; [by eapply slot_id_candidate|].
    by apply is_empty_false. }
  unfold thread_candidates. setoid_rewrite elem_of_app. setoid_rewrite elem_of_app.
  setoid_rewrite elem_of_app. setoid_rewrite elem_of_app. repeat split; try done.
  - right. left. rewrite list_elem_of_fmap. eauto.
  - auto.
  - do 4 right. apply list_elem_of_In, in_flat_map. exists t. rewrite <- !list_elem_of_In.
    split; [done|]. unfold task_candidates. rewrite elem_of_app. auto.
Qed.

Lemma is_empty_swap pending real id :
  pending ≠ "" → real ≠ "" → is_empty (swap pending real id) = is_empty id.
Proof.
  intros Hp Hr. unfold swap. case_decide; [subst|done].
  by rewrite (proj2 (is_empty_false _) Hp), (proj2 (is_empty_false _) Hr).
Qed.

Lemma rekey_slot_id now pending real slot r :
  pending ≠ "" → pending ≠ real →
  slot_id slot (rekey_thread now pending real r).1 = swap pending real <$> slot_id slot r.
Proof.
  intros Hp Hne. unfold rekey_thread. rewrite (proj2 (is_empty_false pending)) by done.
  rewrite bool_decide_eq_false_2 by done. cbn [orb fst].
  assert (∀ (b : bool) r', slot_id slot (if b then r' <| tr_updated_at := now |> else r')
    = slot_id slot r') as -> by (intros [] []; destruct slot; done).
  destruct r, slot; cbn; rewrite ?list_lookup_fmap; try done.
  all: destruct (tr_sub_tasks !! index) as [t|]; cbn; [|done]; by destruct t.
Qed.

(** Promotion of a provisional thread id: every seat reads the new id where it
    held the old one, the old id leaves the drain set, the drain set is the image of
    the old one, the role tag follows, and [false] means the record is untouched. *)
Theorem rekey_thread_renames now pending real r :
  pending ≠ "" → real ≠ "" → pending ≠ real →
  let '(r', changed) := rekey_thread now pending real r in
  (∀ slot, thread_in_slot slot r' = swap pending real <$> thread_in_slot slot r) ∧
  pending ∉ owned_thread_ids r' ∧
  (∀ id, id ∈ owned_thread_ids r' ↔ ∃ old, old ∈ owned_thread_ids r ∧ id = swap pending real old) ∧
  tr_run_owned_thread_roles r' !! pending = None ∧
  (∀ role, tr_run_owned_thread_roles r !! pending = Some role →
     tr_run_owned_thread_roles r' !! real = Some role) ∧
  (changed = false → r' = r).
Proof.
  intros Hp Hr Hne. destruct (rekey_thread now pending real r) as [r' changed] eqn:E.
  assert (r' = (rekey_thread now pending real r).1) as -> by (by rewrite E).
  assert (∀ id, id ∈ owned_thread_ids (rekey_thread now pending real r).1 ↔
    ∃ old, old ∈ owned_thread_ids r ∧ id = swap pending real old) as Hset.
  { intros id. rewrite owned_thread_ids_elem, rekey_candidates by done.
    setoid_rewrite owned_thread_ids_elem. rewrite list_elem_of_fmap.
    pose proof (is_empty_swap pending real) as He. split.
    - intros [(old & -> & Hin) Hn]. exists old. split_and!; try done.
      apply is_empty_false. rewrite <- (He old) by done. by apply is_empty_false.
    - intros (old & [Hin Hn] & ->). split; [eauto|].
      apply is_empty_false. rewrite He by done. by apply is_empty_false. }
  split_and!; [| | exact Hset | | |
    intros Hc; apply rekey_unchanged; by rewrite E].
  - intros slot. unfold thread_in_slot. rewrite rekey_slot_id by done.
    destruct (slot_id slot r) as [id|]; cbn; [|done]. rewrite is_empty_swap by done.
    by destruct (is_empty id).
  - rewrite Hset. intros (old & _ & H). by eapply swap_neq, eq_sym, H.
  - rewrite rekey_roles_eq by done. by apply rekey_roles_pending.
  - intros role. rewrite rekey_roles_eq by done. apply rekey_roles_real.
Qed.

Lemma rekey_thread_renames_witness :
  let '(r', changed) := rekey_thread 9 "claude-pending-1" "session-7" sample_run in
  (∀ slot, thread_in_slot slot r' =
     swap "claude-pending-1" "session-7" <$> thread_in_slot slot sample_run) ∧
  "claude-pending-1" ∉ owned_thread_ids r' ∧
  (∀ id, id ∈ owned_thread_ids r' ↔
     ∃ old, old ∈ owned_thread_ids sample_run ∧ id = swap "claude-pending-1" "session-7" old) ∧
  tr_run_owned_thread_roles r' !! "claude-pending-1" = None ∧
  (∀ role, tr_run_owned_thread_roles sample_run !! "claude-pending-1" = Some role →
     tr_run_owned_thread_roles r' !! "session-7" = Some role) ∧
  (changed = false → r' = sample_run).
Proof. apply rekey_thread_renames; done. Defined.

(** ** Team leads *)

Lemma retire_tl_candidates now reason r x :
  x ≠ "" → x ∈ thread_candidates (retire_tl now reason r).1 ↔ x ∈ thread_candidates r.
Proof.
  intros Hx. unfold retire_tl. case_if; [done|].
  destruct (is_empty (tr_tl_thread_id r)) eqn:He; destruct r; cbn in *;
    unfold thread_candidates; cbn; rewrite ?map_app, !elem_of_cons, !elem_of_app; cbn.
  - apply is_empty_true in He. subst. done.
  - rewrite list_elem_of_singleton. naive_solver.
Qed.

(** Team-lead succession is bounded and loses nobody: a retirement succeeds
    exactly below the cap of eight generations, keeps the count within it, and leaves
    the set of owned threads as it was. *)
Theorem retire_tl_bounded_and_owned now reason r :
  tl_generation_count r ≤ MAX_TL_GENERATIONS →
  let '(r', ok) := retire_tl now reason r in
  (ok = true ↔ tl_generation_count r < MAX_TL_GENERATIONS) ∧
  tl_generation_count r' ≤ MAX_TL_GENERATIONS ∧
  (∀ id, id ∈ owned_thread_ids r' ↔ id ∈ owned_thread_ids r) ∧
  (ok = true → thread_in_slot SlotTl r' = None ∧ tr_tl_reseed_reason r' = None).
Proof.
  intros Hc. destruct (retire_tl now reason r) as [r' ok] eqn:E.
  assert (∀ id, id ∈ owned_thread_ids r' ↔ id ∈ owned_thread_ids r) as Hown.
  { intros id. rewrite !owned_thread_ids_elem.
    pose proof (retire_tl_candidates now reason r id) as H. rewrite E in H. cbn in H. naive_solver. }
  revert E. unfold retire_tl, tl_generation_count in *. case_if; intros [= <- <-].
  - split_and!; try done; lia.
  - assert (Z.of_nat (length (tr_tl_succession r)) + 1 < MAX_TL_GENERATIONS) by lia.
    split_and!; [done | | done | ].
    + destruct (is_empty (tr_tl_thread_id r)); destruct r; cbn in *; [lia|].
      rewrite length_app. cbn. lia.
    + intros _. destruct (is_empty (tr_tl_thread_id r)); by destruct r.
Qed.

Lemma retire_tl_bounded_and_owned_witness :
  let '(r', ok) := retire_tl 5 "context window" sample_run in
  (ok = true ↔ tl_generation_count sample_run < MAX_TL_GENERATIONS) ∧
  tl_generation_count r' ≤ MAX_TL_GENERATIONS ∧
  (∀ id, id ∈ owned_thread_ids r' ↔ id ∈ owned_thread_ids sample_run) ∧
  (ok = true → thread_in_slot SlotTl r' = None ∧ tr_tl_reseed_reason r' = None).
Proof. apply (retire_tl_bounded_and_owned 5 "context window" sample_run). vm_compute. congruence. Defined.

(** ** Sub-tasks *)

Lemma revive_tasks now only r :
  tr_sub_tasks (revive_sub_tasks now only r).1 =
  map (λ t, if revive_selected only t then revive_task (tr_reopened_count r) t else t)
    (tr_sub_tasks r).
Proof. unfold revive_sub_tasks. destruct r, tr_phase; cbn; case_if; done. Qed.

Lemma revive_result now only r :
  (revive_sub_tasks now only r).2 = existsb (revive_selected only) (tr_sub_tasks r).
Proof. unfold revive_sub_tasks. destruct r, tr_phase; cbn; case_if; cbn; by destruct existsb. Qed.

Lemma position_Some {A} (p : A → bool) l i :
  position p l = Some i ↔
  (∃ x, l !! i = Some x ∧ p x = true) ∧ ∀ j y, (j < i)%nat → l !! j = Some y → p y = false.
Proof.
  revert i. induction l as [|a l IH]; intros i; cbn.
  { split; [done|]. intros [(x & ? & _) _]. by rewrite lookup_nil in *. }
  destruct (p a) eqn:Ha.
  - split.
    + intros [= <-]. split; [by exists a | lia].
    + intros [_ H]. destruct i as [|i]; [done|]. specialize (H 0%nat a). rewrite H in Ha; [done|lia|done].
  - rewrite fmap_Some. setoid_rewrite IH. split.
    + intros (j & [Hx Hb] & ->). split; [done|]. intros [|k] y Hk; cbn.
      * by intros [= <-].
      * apply Hb. lia.
    + intros [(x & Hx & Hp) Hb]. destruct i as [|i]; cbn in Hx; [simplify_eq; congruence|].
      exists i. split; [|done]. split; [eauto|]. intros j y Hj. apply (Hb (S j)). lia.
Qed.

Lemma position_None {A} (p : A → bool) l : position p l = None ↔ ∀ x, x ∈ l → p x = false.
Proof.
  induction l as [|a l IH]; cbn.
  { split; [|done]. intros _ x Hx. by apply not_elem_of_nil in Hx. }
  setoid_rewrite elem_of_cons. destruct (p a) eqn:Ha.
  - split; [done|]. intros H. rewrite H in Ha by auto. done.
  - rewrite fmap_None, IH. naive_solver.
Qed.

Lemma revive_task_open only cycle t :
  sub_open (if revive_selected only t then revive_task cycle t else t)
  = revive_selected only t || sub_open t.
Proof. destruct (revive_selected only t); by destruct t. Qed.

(** A revived run has a sub-task for the driver to work on. *)
Lemma revive_current now only r :
  existsb (revive_selected only) (tr_sub_tasks r) = true →
  is_Some (current_sub_task (revive_sub_tasks now only r).1).
Proof.
  intros (t & Ht & Hs)%existsb_exists. unfold current_sub_task. rewrite revive_tasks.
  apply not_eq_None_Some. rewrite position_None. intros H.
  rewrite <- list_elem_of_In in Ht.
  apply (list_elem_of_fmap_2 (λ t, if revive_selected only t
    then revive_task (tr_reopened_count r) t else t)) in Ht. apply H in Ht.
  by rewrite revive_task_open, Hs in Ht.
Qed.

Lemma revive_closing now only r :
  (revive_sub_tasks now only r).2 = true →
  let r' := (revive_sub_tasks now only r).1 in
  tr_phase r' ≠ MrGate ∧ tr_phase r' ≠ Wrapping ∧ tr_unresolved r' = [] ∧ tr_mr_verdict r' = None.
Proof.
  cbn zeta. unfold revive_sub_tasks. destruct (negb _); [done|]. by destruct r, tr_phase.
Qed.

Lemma revive_noop now only r :
  (revive_sub_tasks now only r).2 = false → (revive_sub_tasks now only r).1 = r.
Proof.
  rewrite revive_result. intros H. unfold revive_sub_tasks. rewrite H. cbn [negb fst].
  match goal with |- set_field tr_sub_tasks ?f r = _ => set_noop tr_sub_tasks f r end; [|done].
  eapply map_id_on; [|done]. by intros x ->.
Qed.

Lemma revive_owned now only r id :
  (∀ t, t ∈ tr_sub_tasks r → ∀ d, st_dev_thread_id t = Some d → d ∈ st_owned_thread_ids t) →
  id ∈ thread_candidates r → id ∈ thread_candidates (revive_sub_tasks now only r).1.
Proof.
  intros Hseat. unfold thread_candidates. rewrite revive_tasks.
  assert (tr_tl_thread_id (revive_sub_tasks now only r).1 = tr_tl_thread_id r ∧
    tr_tl_succession (revive_sub_tasks now only r).1 = tr_tl_succession r ∧
    tr_run_owned_thread_ids (revive_sub_tasks now only r).1 = tr_run_owned_thread_ids r ∧
    tr_mr_dev_thread_id (revive_sub_tasks now only r).1 = tr_mr_dev_thread_id r)
    as (-> & -> & -> & ->)
    by (unfold revive_sub_tasks; destruct (negb _); by destruct r, tr_phase).
  rewrite !elem_of_app. intros [|[|[|[|H]]]]; auto 6. do 4 right.
  rewrite !list_elem_of_In, !in_flat_map in *. destruct H as (t & Ht & Hin).
  eexists. split; [apply in_map, Ht|]. rewrite <- !list_elem_of_In in *.
  specialize (Hseat t Ht). destruct (revive_selected only t); [|done].
  unfold task_candidates in *. rewrite !elem_of_app, !elem_option_list in *.
  destruct t; cbn in *. destruct Hin as [|[|]]; auto.
Qed.

(** Reviving by id touches exactly the named sub-tasks that were terminal: they
    come back pending with their budget and report reset and the rejected session out
    of its seat, every other sub-task (work in flight included) is untouched, the
    threads stay in the drain set when the seat was recorded, and the closing phases
    fall back to the sub-task phase so the revived work is picked up. *)
Theorem revive_sub_tasks_spec now only r :
  (∀ t, t ∈ tr_sub_tasks r → ∀ d, st_dev_thread_id t = Some d → d ∈ st_owned_thread_ids t) →
  let '(r', revived) := revive_sub_tasks now only r in
  (∀ i t, tr_sub_tasks r !! i = Some t →
     tr_sub_tasks r' !! i =
       Some (if revive_selected only t then revive_task (tr_reopened_count r) t else t)) ∧
  (∀ t, revive_selected only t = true → sub_is_terminal (st_status t) = true) ∧
  (revived = true →
     is_Some (current_sub_task r') ∧ tr_phase r' ≠ MrGate ∧ tr_phase r' ≠ Wrapping ∧
     tr_unresolved r' = [] ∧ tr_mr_verdict r' = None) ∧
  (revived = false → r' = r) ∧
  (∀ id, id ∈ owned_thread_ids r → id ∈ owned_thread_ids r').
Proof.
  intros Hseat. pose proof (revive_tasks now only r) as Ht.
  pose proof (revive_noop now only r) as Hn. pose proof (revive_closing now only r) as Hc.
  pose proof (revive_current now only r) as Hcur. rewrite <- (revive_result now only r) in Hcur.
  pose proof (λ id, revive_owned now only r id Hseat) as Ho.
  destruct (revive_sub_tasks now only r) as [r' revived]. cbn [fst snd] in *.
  split_and!; auto.
  - intros i t E. by rewrite Ht, list_lookup_fmap, E.
  - intros t. unfold revive_selected. destruct only; [by intros [? _]%andb_true_iff|].
    by intros ->%bool_decide_eq_true.
  - intros id. rewrite !owned_thread_ids_elem. intros [? ?]; auto.
Qed.

Lemma revive_sub_tasks_spec_witness :
  let '(r', revived) := revive_sub_tasks 5 (Some ["st-1"; "st-2"]) sample_run in
  (∀ i t, tr_sub_tasks sample_run !! i = Some t →
     tr_sub_tasks r' !! i =
       Some (if revive_selected (Some ["st-1"; "st-2"]) t
             then revive_task (tr_reopened_count sample_run) t else t)) ∧
  (∀ t, revive_selected (Some ["st-1"; "st-2"]) t = true → sub_is_terminal (st_status t) = true) ∧
  (revived = true →
     is_Some (current_sub_task r') ∧ tr_phase r' ≠ MrGate ∧ tr_phase r' ≠ Wrapping ∧
     tr_unresolved r' = [] ∧ tr_mr_verdict r' = None) ∧
  (revived = false → r' = sample_run) ∧
  (∀ id, id ∈ owned_thread_ids sample_run → id ∈ owned_thread_ids r').
Proof.
  apply (revive_sub_tasks_spec 5 (Some ["st-1"; "st-2"]) sample_run).
  intros t [->|[->|[]%not_elem_of_nil]%elem_of_cons]%elem_of_cons d [= <-]; left.
Defined.
