(* ===== verification/TeamRecords.v ===== *)
(** * Task teams: plans, sub-task ids, the backend pin and the task definition

    Theorems on the parts of a run that are records rather than states: replanning
    keeps every earlier record reachable under a unique id, minted ids are distinct,
    the backend is pinned once execution begins, and the task definition changes only
    in the fields an edit names. *)

From Stdlib Require Import ZArith Lia.
From S2P Require Import Prelude RustStr Json TeamTypes Tokens Backend TeamRun TeamThreads.
From S2P Require Import TeamLifecycle.

Open Scope string_scope.
Open Scope Z_scope.

(** ** Hexadecimal ids *)

(** Reading a hexadecimal numeral back. *)
Definition hex_value (c : Ascii.ascii) : Z :=
  let z := byte_val c in if z <? 58 then z - 48 else z - 87.
Fixpoint hex_read (acc : Z) (s : string) : Z :=
  match s with
  | EmptyString => acc
  | String c s' => hex_read (acc * 16 + hex_value c) s'
  end.

Lemma hex_value_digit d : 0 ≤ d < 16 → hex_value (hex_digit d) = d.
Proof.
  intros H.
  assert (Forall (λ k, hex_value (hex_digit k) = k) (Z.of_nat <$> seq 0 16)) as HF
    by (by vm_compute; repeat constructor).
  rewrite Forall_forall in HF. apply HF.
  rewrite list_elem_of_fmap. exists (Z.to_nat d). rewrite elem_of_seq. lia.
Qed.

Lemma hex_go_read fuel n acc :
  0 ≤ n < 16 ^ Z.of_nat fuel → (0 < fuel)%nat →
  hex_read 0 (hex_go fuel n acc) = hex_read n acc.
Proof.
  revert n acc. induction fuel as [|f IH]; intros n acc Hn Hf; [lia|].
  cbn [hex_go]. pose proof (Z.mod_pos_bound n 16 ltac:(lia)).
  pose proof (Z.div_mod n 16 ltac:(lia)) as Hdm.
  destruct (Z.eqb_spec (n / 16) 0) as [E|E].
  - cbn [hex_read]. rewrite hex_value_digit by lia. f_equal. lia.
  - rewrite IH; cbn [hex_read].
    + rewrite hex_value_digit by lia. f_equal. lia.
    + rewrite Nat2Z.inj_succ, Z.pow_succ_r in Hn by lia. split; [apply Z.div_pos; lia|].
      apply Z.div_lt_upper_bound; lia.
    + destruct f; [|lia]. change (16 ^ Z.of_nat 1) with 16 in Hn.
      rewrite Z.div_small in E by lia. done.
Qed.

Lemma hex_u64_inj n m : in_u64 n → in_u64 m → hex_u64 n = hex_u64 m → n = m.
Proof.
  unfold in_u64, u64_max, hex_u64. intros Hn Hm H.
  apply (f_equal (hex_read 0)) in H. rewrite !hex_go_read in H; try done; lia.
Qed.

(** The id a mint writes for a number. *)
Definition sub_task_id (n : Z) : string := "st-" ++ hex_u64 n.

Lemma sub_task_id_inj n m : in_u64 n → in_u64 m → sub_task_id n = sub_task_id m → n = m.
Proof. unfold sub_task_id. intros Hn Hm H. injection H as H. by apply hex_u64_inj. Qed.

Lemma mint_spec last now :
  0 ≤ last → last + 1 ≤ u64_max →
  mint_sub_task_id last now = (sub_task_id (Z.max now (last + 1)), Z.max now (last + 1)).
Proof.
  intros H1 H2. unfold mint_sub_task_id, mint_number. rewrite u64_add_small by lia. done.
Qed.

(** A sequence of mints by one process. *)
Fixpoint mint_all (last : Z) (clock : list Z) : list string :=
  match clock with
  | [] => []
  | now :: clock' =>
      let '(id, last') := mint_sub_task_id last now in id :: mint_all last' clock'
  end.

Lemma mint_all_above clock last bound :
  0 ≤ last → Forall (λ now, now ≤ bound) clock → last ≤ bound →
  bound + Z.of_nat (length clock) ≤ u64_max →
  NoDup (mint_all last clock) ∧
  ∀ id, id ∈ mint_all last clock → ∃ n, last < n ≤ u64_max ∧ id = sub_task_id n.
Proof.
  intros H0 Hc. revert last bound H0 Hc.
  induction clock as [|now clock IH]; intros last bound H0 Hc Hl Hb.
  { split; [constructor|]. intros id Hid. by apply not_elem_of_nil in Hid. }
  cbn [length] in Hb. apply Forall_cons in Hc as [Hn Hc].
  cbn [mint_all]. rewrite mint_spec by lia. set (m := Z.max now (last + 1)).
  destruct (IH m (bound + 1)) as [Hnd Hab].
  - lia.
  - eapply Forall_impl; [exact Hc|]. cbn. lia.
  - subst m. lia.
  - lia.
  - split.
    + constructor; [|done]. intros (n & Hgt & E)%Hab.
      apply sub_task_id_inj in E; unfold in_u64; subst m; lia.
    + intros id [->|(n & Hgt & ->)%Hab]%elem_of_cons; eexists; (split; [|done]); subst m; lia.
Qed.

(** The ids one relay process mints are all distinct, whatever its clock reads
    (repeated or backward readings included), as long as the counter does not reach the
    end of [u64]. *)
Theorem minted_ids_distinct clock bound :
  0 ≤ bound → Forall (λ now, now ≤ bound) clock →
  bound + Z.of_nat (length clock) ≤ u64_max →
  NoDup (mint_all 0 clock).
Proof. intros. by apply (mint_all_above clock 0 bound). Qed.

Lemma minted_ids_distinct_witness : NoDup (mint_all 0 [1700000000; 1700000000; 5; 1700000000]).
Proof.
  apply (minted_ids_distinct _ 1700000000); [lia | repeat constructor; lia |].
  vm_compute. congruence.
Defined.

(** ** Replanning *)

Lemma supersede_id t : st_id (supersede t) = st_id t.
Proof. unfold supersede. destruct t; cbn. by case_if. Qed.

Lemma replan_push_prefix cycle clock i last tasks planned :
  ∃ added, (replan_push cycle clock i last tasks planned).1 = (tasks ++ added)%list ∧
    Forall2 (λ t t', st_cycle t' = cycle ∧ t' = t <| st_id := st_id t' |> <| st_cycle := cycle |>)
      planned added.
Proof.
  revert i last tasks. induction planned as [|t planned IH]; intros i last tasks; cbn.
  { exists []. by rewrite app_nil_r. }
  case_mt. edestruct IH as (added & -> & HF). eexists.
  rewrite <- app_assoc. split; [done|]. constructor; [|done]. by destruct t.
Qed.

(** The ids no later mint of this process may produce. *)
Definition mint_fresh (last : Z) (ids : list string) : Prop :=
  ∀ n, last < n ≤ u64_max → sub_task_id n ∉ ids.

Lemma existsb_same_id tasks (t : SubTask) :
  existsb (λ kept, bool_decide (st_id kept = st_id t)) tasks = true ↔ st_id t ∈ (st_id <$> tasks).
Proof.
  rewrite existsb_exists, list_elem_of_fmap. setoid_rewrite bool_decide_eq_true.
  setoid_rewrite <- list_elem_of_In. naive_solver.
Qed.

Lemma replan_push_NoDup cycle clock bound planned i last tasks :
  (∀ j, clock j ≤ bound) → 0 ≤ last ≤ bound → bound + Z.of_nat (length planned) ≤ u64_max →
  NoDup (st_id <$> tasks) → mint_fresh last (st_id <$> tasks) → mint_fresh last (st_id <$> planned) →
  NoDup (st_id <$> (replan_push cycle clock i last tasks planned).1).
Proof.
  intros Hc. assert (∀ j b, bound ≤ b → clock j ≤ b) as Hc' by (intros j b ?; specialize (Hc j); lia).
  clear Hc. revert bound i last tasks Hc'.
  induction planned as [|t planned IH]; intros bound i last tasks Hc Hl Hb Hnd Hf Hp; [done|].
  cbn [length] in Hb. cbn [replan_push].
  destruct (existsb _ tasks) eqn:Hx.
  - rewrite mint_spec by lia. set (m := Z.max (clock i) (last + 1)).
    pose proof (Hc i bound ltac:(lia)).
    apply (IH (bound + 1)); [intros; apply Hc; lia | subst m; lia | lia | | |].
    + rewrite fmap_app. cbn. apply NoDup_app. split; [done|].
      split; [|apply NoDup_singleton]. intros x Hx' ->%list_elem_of_singleton.
      revert Hx'. destruct t; cbn. apply Hf. subst m. lia.
    + intros n Hn. rewrite fmap_app, elem_of_app. intros [H1|H1].
      * revert H1. apply Hf. subst m. lia.
      * apply list_elem_of_singleton in H1. destruct t; cbn in H1.
        apply sub_task_id_inj in H1; unfold in_u64; subst m; lia.
    + intros n Hn Hin. apply (Hp n); [subst m; lia|]. cbn. by right.
  - assert (st_id t ∉ (st_id <$> tasks)) as Hni.
    { intros Hin. apply existsb_same_id in Hin. congruence. }
    apply (IH bound); [intros; by apply Hc | lia | lia | | |].
    + rewrite fmap_app. apply NoDup_app. split; [done|].
      split; [|apply NoDup_singleton]. intros x Hx' ->%list_elem_of_singleton.
      by destruct t.
    + intros n Hn. rewrite fmap_app, elem_of_app. intros [H1|H1]; [by apply (Hf n)|].
      apply list_elem_of_singleton in H1. apply (Hp n); [done|]. cbn.
      destruct t; cbn in *. subst. left.
    + intros n Hn Hin. apply (Hp n); [done|]. cbn. by right.
Qed.

Lemma replan_tasks now clock last planned r :
  tr_sub_tasks (replan_sub_tasks now clock last planned r).1 =
  (replan_push (tr_reopened_count r) clock 0 last (map supersede (tr_sub_tasks r)) planned).1.
Proof. unfold replan_sub_tasks. destruct (replan_push _ _ _ _ _ _). by destruct r. Qed.

(** Replanning drops no record: every earlier sub-task keeps its place and its id,
    a finished one is untouched and an unfinished one becomes [Superseded] and needs no
    report; the new plan follows in order, stamped with the current cycle, and every id
    is unique again even when a planned id collides with a retained one. *)
Theorem replan_sub_tasks_spec now clock bound last planned r :
  (∀ j, clock j ≤ bound) → 0 ≤ last ≤ bound → bound + Z.of_nat (length planned) ≤ u64_max →
  NoDup (st_id <$> tr_sub_tasks r) →
  mint_fresh last (st_id <$> tr_sub_tasks r) → mint_fresh last (st_id <$> planned) →
  let tasks := tr_sub_tasks (replan_sub_tasks now clock last planned r).1 in
  (∀ i t, tr_sub_tasks r !! i = Some t →
     tasks !! i = Some (supersede t) ∧ st_id (supersede t) = st_id t ∧
     sub_open (supersede t) = sub_is_terminal (st_status t) && negb (st_digested t)) ∧
  length tasks = (length (tr_sub_tasks r) + length planned)%nat ∧
  (∀ i t, planned !! i = Some t → ∃ t', tasks !! (length (tr_sub_tasks r) + i)%nat = Some t' ∧
     t' = t <| st_id := st_id t' |> <| st_cycle := tr_reopened_count r |>) ∧
  NoDup (st_id <$> tasks).
Proof.
  intros Hc Hl Hb Hnd Hf Hp.
  assert ((st_id <$> map supersede (tr_sub_tasks r)) = (st_id <$> tr_sub_tasks r)) as Hids.
  { change (map supersede) with (fmap (M:=list) supersede). rewrite <- list_fmap_compose.
    apply list_fmap_ext. intros i t _. apply supersede_id. }
  pose proof (replan_push_NoDup (tr_reopened_count r) clock bound planned 0 last
    (map supersede (tr_sub_tasks r))) as HN. rewrite Hids in HN.
  specialize (HN Hc Hl Hb Hnd Hf Hp).
  destruct (replan_push_prefix (tr_reopened_count r) clock 0 last
    (map supersede (tr_sub_tasks r)) planned) as (added & Ha & HF).
  cbn zeta. rewrite replan_tasks. rewrite Ha in *.
  pose proof (Forall2_length _ _ _ HF) as Hlen. split_and!; [| | | done].
  - intros i t E. split; [|split; [apply supersede_id|]].
    + rewrite lookup_app_l; [|rewrite length_map; by eapply lookup_lt_Some].
      by rewrite list_lookup_fmap, E.
    + destruct t as [? ? ? []]; unfold supersede; cbn; done.
  - rewrite length_app, length_map. lia.
  - intros i t E. destruct (Forall2_lookup_l _ _ _ _ _ HF E) as (t' & E' & _ & Ht').
    exists t'. split; [|done]. rewrite lookup_app_r by (rewrite length_map; lia).
    rewrite length_map. by replace (length (tr_sub_tasks r) + i - length (tr_sub_tasks r))%nat with i by lia.
Qed.

Lemma replan_sub_tasks_spec_witness :
  let r := TeamRun_default <| tr_sub_tasks := [SubTask_default <| st_id := "st-a" |>] |> in
  NoDup (st_id <$> tr_sub_tasks
    (replan_sub_tasks 9 (λ _, 300) 255 [SubTask_default <| st_id := "st-a" |>] r).1).
Proof.
  cbn zeta.
  apply (replan_sub_tasks_spec 9 (λ _, 300) 300 255 [SubTask_default <| st_id := "st-a" |>]
    (TeamRun_default <| tr_sub_tasks := [SubTask_default <| st_id := "st-a" |>] |>)).
  - done.
  - lia.
  - vm_compute. congruence.
  - apply NoDup_singleton.
  - intros n Hn ->%list_elem_of_singleton%(sub_task_id_inj n 10); unfold in_u64, u64_max in *; lia.
  - intros n Hn ->%list_elem_of_singleton%(sub_task_id_inj n 10); unfold in_u64, u64_max in *; lia.
Defined.

(** ** The backend pin *)

Lemma append_restore_error_pin reason r :
  tr_orchestration_backend (append_restore_error reason r) = tr_orchestration_backend r.
Proof. unfold append_restore_error. destruct r, tr_error; cbn; repeat case_if; done. Qed.

Lemma rollback_pin r :
  tr_orchestration_backend (rollback_current_round r) = tr_orchestration_backend r.
Proof. unfold rollback_current_round. destruct (current_sub_task _); by destruct r. Qed.

Lemma settle_pin now reason k r :
  tr_orchestration_backend (settle_paused now reason k r).1 = tr_orchestration_backend r.
Proof. unfold settle_paused. case_if; by destruct r. Qed.

Lemma interrupt_pin now r :
  tr_orchestration_backend (mark_interrupted_if_stranded now r).1 = tr_orchestration_backend r.
Proof. unfold mark_interrupted_if_stranded. case_if; by destruct r. Qed.

Lemma reconcile_pin now r :
  tr_orchestration_backend (reconcile_after_restore now r).1 = tr_orchestration_backend r.
Proof.
  unfold reconcile_after_restore. case_if; [done|].
  set (r1 := match non_executing_backend_reason r with
             | Some reason => append_restore_error reason r | None => r end).
  assert (tr_orchestration_backend r1 = tr_orchestration_backend r) as <-.
  { subst r1. case_mt; [apply append_restore_error_pin | done]. }
  clearbody r1. destruct (tr_status r1); cbn [fst];
    rewrite ?settle_pin, ?rollback_pin; try done;
    case_if; rewrite ?interrupt_pin; by destruct r1.
Qed.

Lemma replan_pin now clock last planned r :
  tr_orchestration_backend (replan_sub_tasks now clock last planned r).1
  = tr_orchestration_backend r.
Proof. unfold replan_sub_tasks. destruct (replan_push _ _ _ _ _ _). by destruct r. Qed.

Lemma force_mark_pin now s r :
  tr_orchestration_backend (force_mark_status now s r).1 = tr_orchestration_backend r.
Proof.
  unfold force_mark_status. destruct s; try done; (case_decide; [done|]); destruct r; cbn;
    repeat (case_if; cbn); done.
Qed.

(** What one operation may do to the backend. *)
Lemma exec_backend now op r :
  tr_orchestration_backend (exec now op r) = tr_orchestration_backend r ∨
  ∃ b, op = OpSetBackend b ∧ orchestration_execution_started r = false ∧
       tr_orchestration_backend (exec now op r) = b.
Proof.
  destruct op; cbn [exec].
  { unfold set_orchestration_backend. case_decide as E; [by left|].
    destruct (orchestration_execution_started r) eqn:H; [by left|].
    right. exists backend. by destruct r. }
  all: left; rewrite ?reconcile_pin, ?replan_pin, ?rollback_pin, ?settle_pin, ?interrupt_pin,
    ?force_mark_pin; try done.
  all: unfold set_status, fail_run, block, request_pause, request_stop, request_tl_reseed,
    retire_tl, resume, cancel, begin_resolving_blocked, resolve_as_paused,
    restore_resolving_as_blocked, detach_unresumable_tl, revive_sub_tasks,
    hold_phase_for_waiting_sub_tasks, rekey_thread, record_run_thread, record_run_thread_role,
    block, request_pause, set_status.
  all: destruct r; cbn; repeat (case_if; cbn); try done.
  all: by destruct tr_phase.
Qed.

(** The orchestration backend is pinned: of all operations only backend selection
    writes it, and only while nothing of the run has started; afterwards a different
    selection is refused and changes nothing, and choosing the same backend is accepted. *)
Theorem backend_is_pinned now op b r :
  (tr_orchestration_backend (exec now op r) ≠ tr_orchestration_backend r →
     (∃ b', op = OpSetBackend b') ∧ orchestration_execution_started r = false) ∧
  (orchestration_execution_started r = true → b ≠ tr_orchestration_backend r →
     set_orchestration_backend now b r
     = (r, Err "orchestration backend cannot change after execution begins")) ∧
  set_orchestration_backend now (tr_orchestration_backend r) r = (r, Ok false).
Proof.
  split_and!.
  - intros Hne. destruct (exec_backend now op r) as [|(b' & -> & ? & _)]; [done|]. eauto.
  - intros Hs Hb. unfold set_orchestration_backend. case_decide; [done|]. by rewrite Hs.
  - unfold set_orchestration_backend. by case_decide.
Qed.

(** ** The task definition *)

Definition field_after (o : option string) (old : string) : string := default old o.

(** An edit of the task definition rewrites exactly the fields it carries, says
    whether it carried any, and [changed_fields] names as many fields as it rewrote. *)
Theorem apply_updates_spec s u :
  apply_updates s u =
    (MkTaskSpec (field_after (tu_title u) (ts_title s)) (field_after (tu_context u) (ts_context s))
       (field_after (tu_acceptance_criteria u) (ts_acceptance_criteria s))
       (field_after (tu_agreed_scope u) (ts_agreed_scope s))
       (field_after (tu_quality_rules u) (ts_quality_rules s)),
     negb (updates_is_empty u)) ∧
  (updates_is_empty u = true ↔ changed_fields u = []) ∧
  NoDup (changed_fields u).
Proof.
  destruct u as [[] [] [] [] []]; (split; [done|]); (split; [done|]);
    apply (bool_decide_unpack _); by vm_compute.
Qed.

(** Widening only adds: the agreed scope afterwards contains the old scope and the
    trimmed addition, no other field moves, and a blank addition changes nothing. *)
Theorem widen_scope_only_adds s addition :
  let '(s', changed) := widen_scope s addition in
  (changed = negb (is_blank addition)) ∧
  (changed = false → s' = s) ∧
  (changed = true → contains (trim addition) (ts_agreed_scope s') = true ∧
     (is_blank (ts_agreed_scope s) = false → contains (ts_agreed_scope s) (ts_agreed_scope s') = true)) ∧
  (ts_title s', ts_context s', ts_acceptance_criteria s', ts_quality_rules s')
  = (ts_title s, ts_context s, ts_acceptance_criteria s, ts_quality_rules s).
Proof.
  unfold widen_scope, is_blank. destruct (is_empty (trim addition)) eqn:Ha; [done|].
  destruct (is_empty (trim (ts_agreed_scope s))) eqn:Hs; destruct s; cbn -[contains].
  - split_and!; try done. intros _. split; [apply contains_refl | done].
  - split_and!; try done. intros _. split.
    + apply contains_app_r, (contains_app_r _ nl), (contains_app_r _ nl),
        (contains_app_r _ "Also in scope: "), contains_refl.
    + intros _. apply contains_app_l, contains_refl.
Qed.

(** ** Wire names *)

(** The four persisted enums round-trip through their wire names and no string or
    null can make a state file fail to decode: an unknown run status reads as the
    terminal [Failed], an unknown phase as [Finished], an unknown sub-task status as the
    terminal [SubFailed], an unknown pause kind as the user's. *)
Theorem wire_enums_decode_safely (raw : string) :
  (∀ s, status_deserialize (JStr (status_as_str s)) = Ok s) ∧
  (∀ p, phase_deserialize (JStr (phase_as_str p)) = Ok p) ∧
  (∀ s, sub_status_deserialize (JStr (sub_status_as_str s)) = Ok s) ∧
  (∀ k, pause_kind_deserialize (JStr (pause_kind_as_str k)) = Ok k) ∧
  ((∀ s, status_as_str s ≠ raw) → status_deserialize (JStr raw) = Ok Failed) ∧
  ((∀ p, phase_as_str p ≠ raw) → phase_deserialize (JStr raw) = Ok Finished) ∧
  ((∀ s, sub_status_as_str s ≠ raw) → sub_status_deserialize (JStr raw) = Ok SubFailed) ∧
  ((∀ k, pause_kind_as_str k ≠ raw) → pause_kind_deserialize (JStr raw) = Ok PauseUser) ∧
  status_deserialize JNull = Ok Failed ∧ sub_status_deserialize JNull = Ok SubPending.
Proof.
  split_and!; try done; try (intros []; done); intros H; cbn; f_equal.
  - exact (wire_unknown (A:=TeamRunStatus) raw H).
  - exact (wire_unknown (A:=TeamPhase) raw H).
  - exact (wire_unknown (A:=SubTaskStatus) raw H).
  - exact (wire_unknown (A:=TeamPauseKind) raw H).
Qed.
