(* ===== verification/Cursor.v ===== *)
(** * The content-blind driver cursor (crates/relay-api/src/orchestration.rs)

    The closed vocabulary of protocol v1 (statuses, phases, roles, artifact
    references) and [DriverCursor], the only view of a run a remote driver gets:
    counters, closed enums and opaque handles, never text. *)

From Stdlib Require Import ZArith Lia.
From S2P Require Import Prelude RustStr Json TeamTypes Tokens Backend TeamRun.

Open Scope string_scope.
Open Scope Z_scope.

(** ** Closed enums *)
Inductive DriverRunStatus : Type :=
| DrQueued | DrRunning | DrPausePending | DrPaused | DrAwaitingUser | DrDone | DrEscalated
| DrBlocked | DrResolving | DrFailed | DrInterrupted | DrCancelled.

#[export] Instance DriverRunStatus_eq_dec : EqDecision DriverRunStatus.
Proof. solve_decision. Defined.

#[export] Program Instance DriverRunStatus_enum : UnitEnum DriverRunStatus := {|
  enum_name s := match s with
    | DrQueued => "queued" | DrRunning => "running" | DrPausePending => "pause_pending"
    | DrPaused => "paused" | DrAwaitingUser => "awaiting_user" | DrDone => "done"
    | DrEscalated => "escalated" | DrBlocked => "blocked" | DrResolving => "resolving"
    | DrFailed => "failed" | DrInterrupted => "interrupted" | DrCancelled => "cancelled"
    end;
  enum_all := [DrQueued; DrRunning; DrPausePending; DrPaused; DrAwaitingUser; DrDone;
    DrEscalated; DrBlocked; DrResolving; DrFailed; DrInterrupted; DrCancelled] |}.
Next Obligation. unit_enum. Qed.
Next Obligation. unit_enum. Qed.

Definition from_team_status (s : TeamRunStatus) : DriverRunStatus :=
  match s with
  | Queued => DrQueued
  | Running => DrRunning
  | PausePending => DrPausePending
  | Paused => DrPaused
  | AwaitingUser => DrAwaitingUser
  | Done => DrDone
  | Escalated => DrEscalated
  | Blocked => DrBlocked
  | Resolving => DrResolving
  | Failed => DrFailed
  | Interrupted => DrInterrupted
  | Cancelled => DrCancelled
  end.

Inductive DriverPhase : Type :=
| DpIntake | DpDesign | DpDesignReview | DpPlanning | DpSubTasks | DpMrGate | DpWrapping
| DpFinished.

#[export] Instance DriverPhase_eq_dec : EqDecision DriverPhase.
Proof. solve_decision. Defined.

#[export] Program Instance DriverPhase_enum : UnitEnum DriverPhase := {|
  enum_name p := match p with
    | DpIntake => "intake" | DpDesign => "design" | DpDesignReview => "design_review"
    | DpPlanning => "planning" | DpSubTasks => "sub_tasks" | DpMrGate => "mr_gate"
    | DpWrapping => "wrapping" | DpFinished => "finished"
    end;
  enum_all := [DpIntake; DpDesign; DpDesignReview; DpPlanning; DpSubTasks; DpMrGate; DpWrapping;
    DpFinished] |}.
Next Obligation. unit_enum. Qed.
Next Obligation. unit_enum. Qed.

Definition from_team_phase (p : TeamPhase) : DriverPhase :=
  match p with
  | Intake => DpIntake
  | Design => DpDesign
  | DesignReview => DpDesignReview
  | Planning => DpPlanning
  | SubTasks => DpSubTasks
  | MrGate => DpMrGate
  | Wrapping => DpWrapping
  | Finished => DpFinished
  end.

#[export] Program Instance OrchestrationBackendKind_enum : UnitEnum OrchestrationBackendKind := {|
  enum_name k := match k with
    | KindLegacyEmbedded => "legacy_embedded" | KindCloud => "cloud"
    | KindLocalSidecar => "local_sidecar" | KindUnknownNonExecuting => "unknown_non_executing"
    end;
  enum_all := [KindLegacyEmbedded; KindCloud; KindLocalSidecar; KindUnknownNonExecuting] |}.
Next Obligation. unit_enum. Qed.
Next Obligation. unit_enum. Qed.

(** ** Roles: a string on the wire, never the tagged-map form *)
Inductive DriverRole : Type := DrvTl | DrvDev | DrvReviewer.

#[export] Instance DriverRole_eq_dec : EqDecision DriverRole.
Proof. solve_decision. Defined.

Definition driver_role_as_str (r : DriverRole) : string :=
  match r with DrvTl => "tl" | DrvDev => "dev" | DrvReviewer => "reviewer" end.

Definition driver_role_from_wire (raw : string) : option DriverRole :=
  if decide (raw = "tl") then Some DrvTl
  else if decide (raw = "dev") then Some DrvDev
  else if decide (raw = "reviewer") then Some DrvReviewer
  else None.

Definition from_team_role (r : TeamRole) : DriverRole :=
  match r with RoleTl => DrvTl | RoleDev => DrvDev | RoleReviewer => DrvReviewer end.
Definition as_team_role (r : DriverRole) : TeamRole :=
  match r with DrvTl => RoleTl | DrvDev => RoleDev | DrvReviewer => RoleReviewer end.

Definition driver_role_serialize (r : DriverRole) : json := JStr (driver_role_as_str r).
Definition driver_role_deserialize : decoder DriverRole := λ j,
  let? raw := de_string j in
  ok_or (driver_role_from_wire raw) (Custom ("unsupported driver role `" ++ raw ++ "`")).

#[export] Program Instance driver_role_serde : Serde DriverRole := {|
  ser := driver_role_serialize; de := driver_role_deserialize; serde_valid := λ _, True |}.
Next Obligation. by intros []. Qed.
Next Obligation. done. Qed.

(** ** Artifacts *)
Inductive ArtifactKind : Type :=
| AkTaskSpec | AkPlan | AkDesign | AkReport | AkSubTaskBrief | AkWorkspaceDiff
| AkReviewVerdict | AkTranscriptDigest.

#[export] Instance ArtifactKind_eq_dec : EqDecision ArtifactKind.
Proof. solve_decision. Defined.

#[export] Program Instance ArtifactKind_enum : UnitEnum ArtifactKind := {|
  enum_name k := match k with
    | AkTaskSpec => "task_spec" | AkPlan => "plan" | AkDesign => "design" | AkReport => "report"
    | AkSubTaskBrief => "sub_task_brief" | AkWorkspaceDiff => "workspace_diff"
    | AkReviewVerdict => "review_verdict" | AkTranscriptDigest => "transcript_digest"
    end;
  enum_all := [AkTaskSpec; AkPlan; AkDesign; AkReport; AkSubTaskBrief; AkWorkspaceDiff;
    AkReviewVerdict; AkTranscriptDigest] |}.
Next Obligation. unit_enum. Qed.
Next Obligation. unit_enum. Qed.

Inductive ArtifactBindingSlot : Type :=
| AsTaskSpec | AsPlan | AsDesign | AsReport | AsSubTaskBrief | AsDiff | AsVerdict
| AsPriorSummary.

#[export] Instance ArtifactBindingSlot_eq_dec : EqDecision ArtifactBindingSlot.
Proof. solve_decision. Defined.

#[export] Program Instance ArtifactBindingSlot_enum : UnitEnum ArtifactBindingSlot := {|
  enum_name k := match k with
    | AsTaskSpec => "task_spec" | AsPlan => "plan" | AsDesign => "design" | AsReport => "report"
    | AsSubTaskBrief => "sub_task_brief" | AsDiff => "diff" | AsVerdict => "verdict"
    | AsPriorSummary => "prior_summary"
    end;
  enum_all := [AsTaskSpec; AsPlan; AsDesign; AsReport; AsSubTaskBrief; AsDiff; AsVerdict;
    AsPriorSummary] |}.
Next Obligation. unit_enum. Qed.
Next Obligation. unit_enum. Qed.

#[export] Program Instance token_serde {field max} : Serde (token field max) := {|
  ser := token_serialize; de := token_deserialize field max; serde_valid := λ _, True |}.
Next Obligation. intros field max a _. cbn. by rewrite token_new_str. Qed.
Next Obligation. done. Qed.

Record ArtifactRef : Type := MkArtifactRef {
  ar_artifact_id : ArtifactId;
  ar_kind : ArtifactKind;
  ar_revision : Z;
  ar_size_bytes : option Z
}.

Definition artifact_ref_fields : field_table :=
  [("artifact_id", checks (token_deserialize "artifact_id" MAX_OPAQUE_ID_LEN));
   ("kind", checks (de : decoder ArtifactKind));
   ("revision", checks de_u64);
   ("size_bytes", checks (de_option de_u64))].

Definition artifact_ref_deserialize : decoder ArtifactRef := λ j,
  let? es := derived_struct true artifact_ref_fields j in
  let? artifact_id := required "artifact_id" (token_deserialize _ _) es in
  let? kind := required "kind" de es in
  let? revision := required "revision" de_u64 es in
  let? size_bytes := defaulted "size_bytes" (de_option de_u64) None es in
  Ok (MkArtifactRef artifact_id kind revision size_bytes).

Definition artifact_ref_serialize (a : ArtifactRef) : json :=
  JMap ([("artifact_id", token_serialize (ar_artifact_id a)); ("kind", ser (ar_kind a));
         ("revision", JU64 (ar_revision a))] ++ opt_entry "size_bytes" JU64 (ar_size_bytes a))%list.

(** The widths the Rust type guarantees. *)
Definition artifact_ref_typed (a : ArtifactRef) : Prop :=
  in_u64 (ar_revision a) ∧ ∀ n, ar_size_bytes a = Some n → in_u64 n.

Lemma token_de_ser {field max} (t : token field max) :
  token_deserialize field max (token_serialize t) = Ok t.
Proof. exact (de_ser t I). Qed.
#[export] Hint Resolve token_de_ser : relay.

#[export] Program Instance artifact_ref_serde : Serde ArtifactRef := {|
  ser := artifact_ref_serialize; de := artifact_ref_deserialize;
  serde_valid := artifact_ref_typed |}.
Next Obligation.
  intros [i k r s] [Hr Hs]. cbn in Hr, Hs.
  unfold artifact_ref_deserialize, artifact_ref_serialize. cbn [ar_artifact_id ar_kind ar_revision ar_size_bytes].
  rewrite derived_struct_ok.
  - destruct s as [s|]; cbn [opt_entry app]; repeat read_field;
      rewrite token_de_ser, enum_de_ser, u64_de_ser by done; [|done].
    by rewrite opt_u64_de_ser by auto.
  - destruct s as [s|]; cbn [opt_entry app]; struct_checks.
  - destruct s; struct_nodup.
Qed.
Next Obligation. done. Qed.

Record ArtifactBinding : Type := MkArtifactBinding {
  ab_slot : ArtifactBindingSlot;
  ab_artifact : ArtifactRef
}.

Definition artifact_binding_fields : field_table :=
  [("slot", checks (de : decoder ArtifactBindingSlot)); ("artifact", checks (de : decoder ArtifactRef))].

Definition artifact_binding_deserialize : decoder ArtifactBinding := λ j,
  let? es := derived_struct true artifact_binding_fields j in
  let? slot := required "slot" de es in
  let? artifact := required "artifact" de es in
  Ok (MkArtifactBinding slot artifact).

Definition artifact_binding_serialize (b : ArtifactBinding) : json :=
  JMap [("slot", ser (ab_slot b)); ("artifact", ser (ab_artifact b))].

#[export] Program Instance artifact_binding_serde : Serde ArtifactBinding := {|
  ser := artifact_binding_serialize; de := artifact_binding_deserialize;
  serde_valid b := artifact_ref_typed (ab_artifact b) |}.
Next Obligation.
  intros [s a] Ha. cbn in Ha. pose proof (de_ser a Ha) as Hd.
  unfold artifact_binding_deserialize, artifact_binding_serialize. cbn [ab_slot ab_artifact].
  rewrite derived_struct_ok; [| struct_checks | struct_nodup].
  repeat read_field. by rewrite enum_de_ser, Hd.
Qed.
Next Obligation. done. Qed.

(** ** Bounded vectors of round-tripping items *)

Lemma bounded_visit_ser {A} `{Serde A} max room (l : list A) :
  Forall serde_valid l → (length l ≤ room)%nat →
  bounded_visit de max room (map ser l) = Ok l.
Proof.
  intros Hl. revert room. induction Hl as [|a l Ha _ IH]; intros [|room] Hr; cbn in *; try done; [lia|].
  by rewrite de_ser, IH by (done || lia).
Qed.

#[export] Program Instance bounded_serde {A max} `{Serde A} : Serde (BoundedVec A max) := {|
  ser := bounded_serialize ser; de := bounded_deserialize de max;
  serde_valid v := Forall serde_valid (bv_items v) |}.
Next Obligation.
  intros A max ? v Hv. unfold bounded_deserialize, bounded_serialize.
  rewrite bounded_visit_ser; [by rewrite bounded_new_items | done |].
  pose proof (bv_valid _ _ v) as Hf. unfold fits in Hf. apply Z.leb_le in Hf. lia.
Qed.
Next Obligation. done. Qed.

(** ** The cursor *)
Record DriverCursor : Type := MkCursor {
  dc_protocol_version : Z;
  dc_backend : OrchestrationBackendKind;
  dc_status : DriverRunStatus;
  dc_phase : DriverPhase;
  dc_state_revision : Z;
  dc_last_command_seq : Z;
  dc_last_event_seq : Z;
  dc_in_flight_command_id : option CommandId;
  dc_current_sub_task_index : Z;
  dc_sub_task_count : Z;
  dc_current_rounds_used : Z;
  dc_max_review_rounds : Z;
  dc_design_review_rounds : Z;
  dc_mr_rounds_used : Z;
  dc_tl_generation : Z;
  dc_pause_requested : bool;
  dc_awaiting_user : bool;
  dc_artifacts : BoundedVec ArtifactRef MAX_CURSOR_ARTIFACTS
}.

Definition bounded_usize_to_u32 (value : nat) : Z := Z.min (Z.of_nat value) u32_max.

Definition cursor_from_team_run (run : TeamRun) (artifacts : list ArtifactRef) :
    result DriverCursor ProtocolValueError :=
  if is_malformed (tr_driver_progress run) then Err MalformedDriverProgress
  else
    let? protocol_version :=
      ok_or (supported_protocol_version (tr_orchestration_backend run)) UnknownBackend in
    let current := current_sub_task run in
    let current_rounds_used :=
      default 0 (st_rounds_used <$> (current ≫= λ index, tr_sub_tasks run !! index)) in
    let? artifacts := bounded_new MAX_CURSOR_ARTIFACTS "artifacts" artifacts in
    Ok (MkCursor protocol_version
          (backend_kind (tr_orchestration_backend run))
          (from_team_status (tr_status run))
          (from_team_phase (tr_phase run))
          (dp_state_revision (tr_driver_progress run))
          (dp_last_command_seq (tr_driver_progress run))
          (dp_last_event_seq (tr_driver_progress run))
          (dp_in_flight_command_id (tr_driver_progress run))
          (bounded_usize_to_u32 (default (length (tr_sub_tasks run)) current))
          (bounded_usize_to_u32 (length (tr_sub_tasks run)))
          current_rounds_used
          (tr_max_review_rounds run)
          (tr_design_review_rounds run)
          (tr_mr_rounds_used run)
          (bounded_usize_to_u32 (length (tr_tl_succession run) + 1))
          (tr_pause_requested run)
          (is_some (tr_awaiting run))
          artifacts).

Definition cursor_fields : field_table :=
  [("protocol_version", checks de_supported_version);
   ("backend", checks (de : decoder OrchestrationBackendKind));
   ("status", checks (de : decoder DriverRunStatus));
   ("phase", checks (de : decoder DriverPhase));
   ("state_revision", checks de_u64);
   ("last_command_seq", checks de_u64);
   ("last_event_seq", checks de_u64);
   ("in_flight_command_id", checks (de_option (token_deserialize "command_id" MAX_OPAQUE_ID_LEN)));
   ("current_sub_task_index", checks de_u32);
   ("sub_task_count", checks de_u32);
   ("current_rounds_used", checks de_u32);
   ("max_review_rounds", checks de_u32);
   ("design_review_rounds", checks de_u32);
   ("mr_rounds_used", checks de_u32);
   ("tl_generation", checks de_u32);
   ("pause_requested", checks de_bool);
   ("awaiting_user", checks de_bool);
   ("artifacts", checks (de : decoder (BoundedVec ArtifactRef MAX_CURSOR_ARTIFACTS)))].

Lemma cursor_artifacts_room : 0 ≤ MAX_CURSOR_ARTIFACTS.
Proof. by vm_compute. Qed.

Definition cursor_deserialize : decoder DriverCursor := λ j,
  let? es := derived_struct true cursor_fields j in
  let? protocol_version := required "protocol_version" de_supported_version es in
  let? backend := required "backend" de es in
  let? status := required "status" de es in
  let? phase := required "phase" de es in
  let? state_revision := required "state_revision" de_u64 es in
  let? last_command_seq := required "last_command_seq" de_u64 es in
  let? last_event_seq := required "last_event_seq" de_u64 es in
  let? in_flight := defaulted "in_flight_command_id" (de_option (token_deserialize _ _)) None es in
  let? current_sub_task_index := required "current_sub_task_index" de_u32 es in
  let? sub_task_count := required "sub_task_count" de_u32 es in
  let? current_rounds_used := required "current_rounds_used" de_u32 es in
  let? max_review_rounds := required "max_review_rounds" de_u32 es in
  let? design_review_rounds := required "design_review_rounds" de_u32 es in
  let? mr_rounds_used := required "mr_rounds_used" de_u32 es in
  let? tl_generation := required "tl_generation" de_u32 es in
  let? pause_requested := required "pause_requested" de_bool es in
  let? awaiting_user := required "awaiting_user" de_bool es in
  let? artifacts := defaulted "artifacts" de (bounded_empty cursor_artifacts_room) es in
  Ok (MkCursor protocol_version backend status phase state_revision last_command_seq
        last_event_seq in_flight current_sub_task_index sub_task_count current_rounds_used
        max_review_rounds design_review_rounds mr_rounds_used tl_generation pause_requested
        awaiting_user artifacts).

Definition cursor_serialize (c : DriverCursor) : json :=
  JMap ([("protocol_version", JU64 (dc_protocol_version c));
         ("backend", ser (dc_backend c));
         ("status", ser (dc_status c));
         ("phase", ser (dc_phase c));
         ("state_revision", JU64 (dc_state_revision c));
         ("last_command_seq", JU64 (dc_last_command_seq c));
         ("last_event_seq", JU64 (dc_last_event_seq c))]
        ++ opt_entry "in_flight_command_id" token_serialize (dc_in_flight_command_id c)
        ++ [("current_sub_task_index", JU64 (dc_current_sub_task_index c));
            ("sub_task_count", JU64 (dc_sub_task_count c));
            ("current_rounds_used", JU64 (dc_current_rounds_used c));
            ("max_review_rounds", JU64 (dc_max_review_rounds c));
            ("design_review_rounds", JU64 (dc_design_review_rounds c));
            ("mr_rounds_used", JU64 (dc_mr_rounds_used c));
            ("tl_generation", JU64 (dc_tl_generation c));
            ("pause_requested", JBool (dc_pause_requested c));
            ("awaiting_user", JBool (dc_awaiting_user c));
            ("artifacts", ser (dc_artifacts c))])%list.

(** The widths of the Rust type, and a version this build speaks. *)
Definition cursor_typed (c : DriverCursor) : Prop :=
  version_supported (dc_protocol_version c) = true ∧
  in_u64 (dc_state_revision c) ∧ in_u64 (dc_last_command_seq c) ∧
  in_u64 (dc_last_event_seq c) ∧
  in_u32 (dc_current_sub_task_index c) ∧ in_u32 (dc_sub_task_count c) ∧
  in_u32 (dc_current_rounds_used c) ∧ in_u32 (dc_max_review_rounds c) ∧
  in_u32 (dc_design_review_rounds c) ∧ in_u32 (dc_mr_rounds_used c) ∧
  in_u32 (dc_tl_generation c) ∧
  Forall artifact_ref_typed (bv_items (dc_artifacts c)).

Lemma supported_de_ser v :
  version_supported v = true → de_supported_version (JU64 v) = Ok v.
Proof.
  intros Hv. unfold de_supported_version, version_deserialize.
  pose proof (version_u32 (MkVersion v Hv)) as Hr. cbn in Hr. apply in_range_true in Hr.
  rewrite de_u32_ok by done.
  pose proof (version_new_get (MkVersion v Hv)) as E. cbn in E. by rewrite E.
Qed.

Lemma opt_token_de_ser {field max} (t : token field max) :
  de_option (token_deserialize field max) (token_serialize t) = Ok (Some t).
Proof. exact (de_option_ser (Some t) (λ _ _, I)). Qed.

#[export] Hint Resolve supported_de_ser opt_token_de_ser : relay.

#[export] Program Instance cursor_serde : Serde DriverCursor := {|
  ser := cursor_serialize; de := cursor_deserialize; serde_valid := cursor_typed |}.
Next Obligation.
  intros [v b st ph sr cs es fl i n ru mr dr mrr tl pr aw ar] Ht.
  unfold cursor_typed in Ht. cbn in Ht. destruct_and!.
  assert (de (ser ar) = Ok ar) as Hd by (by apply de_ser).
  unfold cursor_deserialize, cursor_serialize. cbn [dc_protocol_version dc_backend dc_status
    dc_phase dc_state_revision dc_last_command_seq dc_last_event_seq dc_in_flight_command_id
    dc_current_sub_task_index dc_sub_task_count dc_current_rounds_used dc_max_review_rounds
    dc_design_review_rounds dc_mr_rounds_used dc_tl_generation dc_pause_requested
    dc_awaiting_user dc_artifacts].
  rewrite derived_struct_ok.
  - destruct fl as [t|]; cbn [opt_entry app]; repeat read_field;
      rewrite supported_de_ser, !enum_de_ser, !u64_de_ser, !de_u32_ok by done;
      cbn [de_bool]; rewrite ?opt_token_de_ser, Hd; done.
  - destruct fl as [t|]; cbn [opt_entry app]; struct_checks.
  - destruct fl; struct_nodup.
Qed.
Next Obligation. done. Qed.

Lemma cursor_decode_encode c : cursor_typed c → cursor_deserialize (cursor_serialize c) = Ok c.
Proof. exact (de_ser c). Qed.

Lemma position_lt {A} (p : A → bool) l i : position p l = Some i → (i < length l)%nat.
Proof.
  revert i. induction l as [|x l IH]; cbn; [done|]. intros i. case_if; [intros [= <-]; lia|].
  intros (j & Hj & ->)%fmap_Some. apply IH in Hj. lia.
Qed.
