(* ===== verification/TaggedMap.v ===== *)
(** * Closed tagged objects

    [DriverCommand] and [DriverEvent] have the same hand-written visitor: a map
    with a [kind] and, per kind, a fixed set of fields.  Keys may come in any order;
    once the kind is known a field that does not belong to it is refused before its
    value is decoded, a repeated field is refused, and what was read before the kind
    is checked at the end.  The visitor is modelled once, over the table of fields,
    the fields each kind allows, the fields its match arm rejects, and what it
    builds; a slot of the Rust visitor is the entry read for that field. *)

From Stdlib Require Import ZArith Lia.
From S2P Require Import Prelude RustStr Json.

Open Scope string_scope.
Open Scope Z_scope.

Section Tagged.
Context {K A : Type}.
Context (noun : string) (kind_de : decoder K) (kind_name : K → string).
Context (fields : field_table) (allowed : K → string → bool).
Context (rejects : K → list string) (build : K → list (string * json) → result A de_error).

Definition extra_error (kd : K) (k : string) : de_error :=
  Custom ("field " ++ k ++ " is not valid for " ++ kind_name kd ++ " " ++ noun).

(** The guard at the head of the loop. *)
Definition guard_field (kind : option K) (k : string) : result () de_error :=
  match kind with
  | Some kd => if allowed kd k then Ok () else Err (extra_error kd k)
  | None => Ok ()
  end.

(** The [while let Some(field) = map.next_key()?] loop, [read_map_field] included. *)
Fixpoint tagged_scan (kind : option K) (seen : list string) (es : list (string * json)) :
    result (option K) de_error :=
  match es with
  | [] => Ok kind
  | (k, v) :: es' =>
      if decide (k = "kind") then
        if bool_decide (k ∈ seen) then Err (DuplicateField k)
        else let? kd := kind_de v in tagged_scan (Some kd) (k :: seen) es'
      else match field_check fields k with
           | None => Err (UnknownField k)
           | Some d =>
               guard_field kind k ?>
               if bool_decide (k ∈ seen) then Err (DuplicateField k)
               else d v ?> tagged_scan kind (k :: seen) es'
           end
  end.

(** The run of [reject_*_extra] calls of a match arm. *)
Fixpoint reject_extras (kd : K) (names : list string) (es : list (string * json)) :
    result () de_error :=
  match names with
  | [] => Ok ()
  | k :: names' =>
      if is_some (entry k es) then Err (extra_error kd k) else reject_extras kd names' es
  end.

Definition tagged_visit_map (es : list (string * json)) : result A de_error :=
  let? kind := tagged_scan None [] es in
  let? kd := ok_or kind (MissingField "kind") in
  let? a := build kd es in
  let? _ := reject_extras kd (rejects kd) es in
  Ok a.

Definition tagged_deserialize (j : json) : result A de_error :=
  match j with JMap es => tagged_visit_map es | _ => Err InvalidType end.

(** ** What is accepted *)

(** An entry that belongs to a kind. *)
Definition entry_of_kind (kd : K) (e : string * json) : Prop :=
  if decide (e.1 = "kind") then kind_de e.2 = Ok kd
  else allowed kd e.1 = true ∧ ∃ d, field_check fields e.1 = Some d ∧ d e.2 = Ok ().

Lemma reject_extras_ok kd names es :
  reject_extras kd names es = Ok () ↔ ∀ k, k ∈ names → entry k es = None.
Proof using All.
  induction names as [|k names IH]; cbn.
  { split; [|done]. intros _ k Hk. by apply not_elem_of_nil in Hk. }
  setoid_rewrite elem_of_cons. destruct (entry k es) eqn:E; cbn; [|rewrite IH; naive_solver].
  split; [done|]. intros H. rewrite H in E by auto. done.
Qed.

(** What one successful scan says about the entries. *)
Lemma tagged_scan_inv kind seen es kd :
  tagged_scan kind seen es = Ok (Some kd) →
  NoDup es.*1 ∧ (∀ k, k ∈ es.*1 → k ∉ seen) ∧
  (∀ k v, (k, v) ∈ es → k ≠ "kind" → ∃ d, field_check fields k = Some d ∧ d v = Ok ()) ∧
  (∀ v, ("kind", v) ∈ es → kind_de v = Ok kd) ∧ ("kind" ∉ es.*1 → kind = Some kd).
Proof using All.
  revert kind seen. induction es as [|[k v] es IH]; cbn [tagged_scan]; intros kind seen H.
  { injection H as ->. split_and!; try set_solver. constructor. }
  destruct (decide (k = "kind")) as [->|Hk].
  - case_bool_decide as Hin; [done|]. destruct (kind_de v) as [kd'|] eqn:Ev; [|done].
    destruct (IH _ _ H) as (Hnd & Hs & Hf & Hv & Hn).
    assert ("kind" ∉ es.*1) as Hni by (intros Hi; apply Hs in Hi; set_solver).
    specialize (Hn Hni) as [= ->]. cbn. split_and!.
    + by constructor.
    + intros k [->|Hk']%elem_of_cons; [done|]. apply Hs in Hk'. set_solver.
    + intros k v' [[= -> ->]|Hin']%elem_of_cons; [done|eauto].
    + intros v' [[= ->]|Hin']%elem_of_cons; [done|eauto].
    + set_solver.
  - destruct (field_check fields k) as [d|] eqn:Ef; [|done].
    destruct (guard_field kind k) as [[]|]; [|done]. case_bool_decide as Hin; [done|].
    destruct (d v) as [[]|] eqn:Ed; [|done].
    destruct (IH _ _ H) as (Hnd & Hs & Hf & Hv & Hn). cbn. split_and!.
    + constructor; [|done]. intros Hi. apply Hs in Hi. set_solver.
    + intros k' [->|Hk']%elem_of_cons; [done|]. apply Hs in Hk'. set_solver.
    + intros k' v' [[= -> ->]|Hin']%elem_of_cons; eauto.
    + intros v' [[= E _]|Hin']%elem_of_cons; [congruence|eauto].
    + intros Hni. apply Hn. set_solver.
Qed.

(** Entries that belong to one kind scan in any order. *)
Lemma tagged_scan_ok kind seen es kd :
  Forall (entry_of_kind kd) es → NoDup es.*1 → (∀ k, k ∈ es.*1 → k ∉ seen) →
  (kind = None ∨ kind = Some kd) →
  tagged_scan kind seen es
  = Ok (if bool_decide ("kind" ∈ es.*1) then Some kd else kind).
Proof using All.
  intros HF. revert kind seen. induction HF as [|[k v] es He _ IH]; intros kind seen Hnd Hs Hkd.
  { done. }
  cbn [fmap list_fmap fst] in *. apply NoDup_cons in Hnd as [Hk Hnd].
  assert (bool_decide (k ∈ seen) = false) as Hsk by (apply bool_decide_eq_false_2, Hs; left).
  assert (∀ k', k' ∈ es.*1 → k' ∉ k :: seen) as Hs'.
  { intros k' Hk'. rewrite not_elem_of_cons. split; [congruence|]. apply Hs. by right. }
  unfold entry_of_kind in He. cbn [fst snd] in He. cbn [tagged_scan].
  destruct (decide (k = "kind")) as [->|Hne].
  - rewrite Hsk, He, IH by auto. rewrite (bool_decide_eq_true_2 ("kind" ∈ "kind" :: _)) by left.
    by destruct (bool_decide _).
  - destruct He as (Ha & d & Hf & Hd). rewrite Hf.
    assert (guard_field kind k = Ok ()) as -> by (destruct Hkd as [-> | ->]; cbn; by rewrite ?Ha).
    rewrite Hsk, Hd, IH by auto.
    rewrite (bool_decide_ext ("kind" ∈ k :: es.*1) ("kind" ∈ es.*1)); [done|].
    rewrite elem_of_cons. naive_solver.
Qed.

(** ** Acceptance, under the two facts each instance checks *)
Context (rejects_exact : ∀ kd k,
  is_Some (field_check fields k) → (k ∈ rejects kd ↔ allowed kd k = false)).
Context (rejects_known : ∀ kd k, k ∈ rejects kd → is_Some (field_check fields k) ∧ k ≠ "kind").

Lemma tagged_visit_iff es a :
  tagged_visit_map es = Ok a ↔
  NoDup es.*1 ∧ "kind" ∈ es.*1 ∧ ∃ kd, Forall (entry_of_kind kd) es ∧ build kd es = Ok a.
Proof using All.
  unfold tagged_visit_map. split.
  - destruct (tagged_scan None [] es) as [[kd|]|] eqn:Es; cbn [ok_or]; try done.
    destruct (build kd es) as [a'|] eqn:Eb; [|done].
    destruct (reject_extras kd (rejects kd) es) as [[]|] eqn:Er; [|done]. intros [= ->].
    rewrite reject_extras_ok in Er.
    apply tagged_scan_inv in Es as (Hnd & _ & Hf & Hv & Hn).
    split; [done|]. split; [destruct (decide ("kind" ∈ es.*1)) as [|Hni]; [done|]; by specialize (Hn Hni)|].
    exists kd. split; [|done]. apply Forall_forall. intros [k v] Hin. unfold entry_of_kind. cbn.
    destruct (decide (k = "kind")) as [->|Hk]; [by apply Hv|].
    destruct (Hf k v Hin Hk) as (d & Hd & Hdv). split; [|eauto].
    destruct (allowed kd k) eqn:Ha; [done|]. apply rejects_exact in Ha; [|eauto].
    apply Er, entry_None in Ha. destruct Ha. apply list_elem_of_fmap. by exists (k, v).
  - intros (Hnd & Hk & kd & HF & Hb).
    rewrite (tagged_scan_ok None [] es kd) by (auto using not_elem_of_nil).
    rewrite bool_decide_eq_true_2 by done. cbn [ok_or]. rewrite Hb.
    assert (reject_extras kd (rejects kd) es = Ok ()) as ->; [|done].
    apply reject_extras_ok. intros k Hin. apply entry_None. intros Hin'.
    destruct (rejects_known _ _ Hin) as [Hkn Hne].
    apply list_elem_of_fmap in Hin' as ([k' v] & -> & Hin').
    rewrite Forall_forall in HF. apply HF in Hin'. unfold entry_of_kind in Hin'. cbn in *.
    destruct (decide (k' = "kind")); [done|]. destruct Hin' as [Ha _].
    apply rejects_exact in Hin; [congruence | done].
Qed.

Context (build_entries : ∀ kd es es', (∀ k, entry k es = entry k es') → build kd es = build kd es').

Lemma entry_perm es es' k : NoDup es.*1 → es ≡ₚ es' → entry k es = entry k es'.
Proof.
  intros Hnd Hp. assert (NoDup es'.*1) as Hnd' by (by rewrite <- Hp).
  assert (∀ l v, NoDup l.*1 → (k, v) ∈ l → entry k l = Some v) as He.
  { intros l v. induction l as [|[k' v'] l IH]; cbn; [by intros _ ?%not_elem_of_nil|].
    intros [Hk Hl]%NoDup_cons [[= -> ->]|Hin]%elem_of_cons; [by rewrite decide_True|].
    rewrite decide_False; [by apply IH|]. intros ->. destruct Hk.
    apply list_elem_of_fmap. by exists (k', v). }
  destruct (entry k es) as [v|] eqn:E.
  - symmetry. apply He; [done|]. rewrite <- Hp. by apply entry_elem.
  - symmetry. apply entry_None. apply entry_None in E. by rewrite <- Hp.
Qed.

(** The order of the keys never matters. *)
Lemma tagged_visit_perm es es' a :
  es ≡ₚ es' → tagged_visit_map es = Ok a → tagged_visit_map es' = Ok a.
Proof using All.
  intros Hp. rewrite !tagged_visit_iff. intros (Hnd & Hk & kd & HF & Hb).
  split_and!; [by rewrite <- Hp | by rewrite <- Hp |]. exists kd. split; [by rewrite <- Hp|].
  rewrite <- Hb. apply build_entries. intros k. symmetry. by apply entry_perm.
Qed.
End Tagged.
