(* ===== verification/Command.v ===== *)
(** * Driver commands (crates/relay-api/src/orchestration.rs)

    The closed set of requests a content-blind driver may make, their envelope, and
    the diff and merge-base targets they select. *)

From Stdlib Require Import ZArith Lia.
From S2P Require Import Prelude RustStr Json TeamTypes Tokens Backend TeamRun.
From S2P Require Import Cursor TaggedMap.

Open Scope string_scope.
Open Scope Z_scope.

Inductive DiffScope : Type := ScopeHead | ScopeCurrentSubTask | ScopeMergeBaseTarget.
#[export] Instance DiffScope_eq_dec : EqDecision DiffScope.
Proof. solve_decision. Defined.
#[export] Program Instance DiffScope_enum : UnitEnum DiffScope := {|
  enum_name s := match s with
    | ScopeHead => "head" | ScopeCurrentSubTask => "current_sub_task"
    | ScopeMergeBaseTarget => "merge_base_target"
    end;
  enum_all := [ScopeHead; ScopeCurrentSubTask; ScopeMergeBaseTarget] |}.
Next Obligation. unit_enum. Qed.
Next Obligation. unit_enum. Qed.

Inductive MergeBaseTarget : Type := PinnedTarget.
#[export] Instance MergeBaseTarget_eq_dec : EqDecision MergeBaseTarget.
Proof. solve_decision. Defined.
#[export] Program Instance MergeBaseTarget_enum : UnitEnum MergeBaseTarget := {|
  enum_name _ := "pinned_target"; enum_all := [PinnedTarget] |}.
Next Obligation. unit_enum. Qed.
Next Obligation. unit_enum. Qed.

Definition Candidates : Type := BoundedVec ThreadHandle MAX_CANDIDATE_THREADS.
Definition Bindings : Type := BoundedVec ArtifactBinding MAX_COMMAND_BINDINGS.

Inductive DriverCommand : Type :=
| RequireWorkspace
| StartThread (role : DriverRole)
| ResumeOrStartThread (role : DriverRole) (candidates : Candidates)
| RunTemplate (thread : ThreadHandle) (role : DriverRole) (template_id : TemplateId)
    (bindings : Bindings)
| CheckpointCommit
| CollectDiff (scope : DiffScope)
| MergeBase (target : MergeBaseTarget)
| Commit (message_template_id : TemplateId) (bindings : Bindings)
| PauseAtBoundary
| SettleRun (status : DriverRunStatus).

(** ** Kinds *)
Inductive DriverCommandKind : Type :=
| CkRequireWorkspace | CkStartThread | CkResumeOrStartThread | CkRunTemplate
| CkCheckpointCommit | CkCollectDiff | CkMergeBase | CkCommit | CkPauseAtBoundary | CkSettleRun.

Definition command_kind_as_str (k : DriverCommandKind) : string :=
  match k with
  | CkRequireWorkspace => "require_workspace"
  | CkStartThread => "start_thread"
  | CkResumeOrStartThread => "resume_or_start_thread"
  | CkRunTemplate => "run_template"
  | CkCheckpointCommit => "checkpoint_commit"
  | CkCollectDiff => "collect_diff"
  | CkMergeBase => "merge_base"
  | CkCommit => "commit"
  | CkPauseAtBoundary => "pause_at_boundary"
  | CkSettleRun => "settle_run"
  end.

Definition command_kind_visit_str (value : string) : result DriverCommandKind de_error :=
  if decide (value = "require_workspace") then Ok CkRequireWorkspace
  else if decide (value = "start_thread") then Ok CkStartThread
  else if decide (value = "resume_or_start_thread") then Ok CkResumeOrStartThread
  else if decide (value = "run_template") then Ok CkRunTemplate
  else if decide (value = "checkpoint_commit") then Ok CkCheckpointCommit
  else if decide (value = "collect_diff") then Ok CkCollectDiff
  else if decide (value = "merge_base") then Ok CkMergeBase
  else if decide (value = "commit") then Ok CkCommit
  else if decide (value = "pause_at_boundary") then Ok CkPauseAtBoundary
  else if decide (value = "settle_run") then Ok CkSettleRun
  else Err (UnknownVariant value).

Definition command_kind_deserialize : decoder DriverCommandKind := λ j,
  match j with JStr s => command_kind_visit_str s | _ => Err InvalidType end.

(** ** Fields *)

(** The names [DriverCommandField] reads, with the type [read_map_field] decodes. *)
Definition command_fields : field_table :=
  [("role", checks (de : decoder DriverRole));
   ("candidates", checks (de : decoder Candidates));
   ("thread", checks (de : decoder ThreadHandle));
   ("template_id", checks (de : decoder TemplateId));
   ("bindings", checks (de : decoder Bindings));
   ("scope", checks (de : decoder DiffScope));
   ("target", checks (de : decoder MergeBaseTarget));
   ("message_template_id", checks (de : decoder TemplateId));
   ("status", checks (de : decoder DriverRunStatus))].

Definition command_field_allowed_for_kind (kind : DriverCommandKind) (field : string) : bool :=
  bool_decide (field ∈
    match kind with
    | CkRequireWorkspace | CkCheckpointCommit | CkPauseAtBoundary => []
    | CkStartThread => ["role"]
    | CkResumeOrStartThread => ["role"; "candidates"]
    | CkRunTemplate => ["thread"; "role"; "template_id"; "bindings"]
    | CkCollectDiff => ["scope"]
    | CkMergeBase => ["target"]
    | CkCommit => ["message_template_id"; "bindings"]
    | CkSettleRun => ["status"]
    end).

(** The fields each match arm passes to [reject_command_extra], in order. *)
Definition command_rejects (kind : DriverCommandKind) : list string :=
  match kind with
  | CkRequireWorkspace | CkCheckpointCommit | CkPauseAtBoundary =>
      ["role"; "candidates"; "thread"; "template_id"; "bindings"; "scope"; "target";
       "message_template_id"; "status"]
  | CkStartThread =>
      ["candidates"; "thread"; "template_id"; "bindings"; "scope"; "target";
       "message_template_id"; "status"]
  | CkResumeOrStartThread =>
      ["thread"; "template_id"; "bindings"; "scope"; "target"; "message_template_id"; "status"]
  | CkRunTemplate => ["candidates"; "scope"; "target"; "message_template_id"; "status"]
  | CkCollectDiff =>
      ["role"; "candidates"; "thread"; "template_id"; "bindings"; "target";
       "message_template_id"; "status"]
  | CkMergeBase =>
      ["role"; "candidates"; "thread"; "template_id"; "bindings"; "scope";
       "message_template_id"; "status"]
  | CkCommit => ["role"; "candidates"; "thread"; "template_id"; "scope"; "target"; "status"]
  | CkSettleRun =>
      ["role"; "candidates"; "thread"; "template_id"; "bindings"; "scope"; "target";
       "message_template_id"]
  end.

(** The [required_map_field] calls of each match arm and the command it makes. *)
Definition command_build (kind : DriverCommandKind) (es : list (string * json)) :
    result DriverCommand de_error :=
  match kind with
  | CkRequireWorkspace => Ok RequireWorkspace
  | CkStartThread =>
      let? role := required "role" de es in Ok (StartThread role)
  | CkResumeOrStartThread =>
      let? role := required "role" de es in
      let? candidates := required "candidates" de es in
      Ok (ResumeOrStartThread role candidates)
  | CkRunTemplate =>
      let? thread := required "thread" de es in
      let? role := required "role" de es in
      let? template_id := required "template_id" de es in
      let? bindings := required "bindings" de es in
      Ok (RunTemplate thread role template_id bindings)
  | CkCheckpointCommit => Ok CheckpointCommit
  | CkCollectDiff => let? scope := required "scope" de es in Ok (CollectDiff scope)
  | CkMergeBase => let? target := required "target" de es in Ok (MergeBase target)
  | CkCommit =>
      let? message_template_id := required "message_template_id" de es in
      let? bindings := required "bindings" de es in
      Ok (Commit message_template_id bindings)
  | CkPauseAtBoundary => Ok PauseAtBoundary
  | CkSettleRun => let? status := required "status" de es in Ok (SettleRun status)
  end.

Definition command_deserialize : decoder DriverCommand :=
  tagged_deserialize "command" command_kind_deserialize command_kind_as_str command_fields
    command_field_allowed_for_kind command_rejects command_build.

(** ** Encoding: internally tagged *)
Definition command_entries (c : DriverCommand) : list (string * json) :=
  match c with
  | RequireWorkspace => [("kind", JStr "require_workspace")]
  | StartThread role => [("kind", JStr "start_thread"); ("role", ser role)]
  | ResumeOrStartThread role candidates =>
      [("kind", JStr "resume_or_start_thread"); ("role", ser role); ("candidates", ser candidates)]
  | RunTemplate thread role template_id bindings =>
      [("kind", JStr "run_template"); ("thread", ser thread); ("role", ser role);
       ("template_id", ser template_id); ("bindings", ser bindings)]
  | CheckpointCommit => [("kind", JStr "checkpoint_commit")]
  | CollectDiff scope => [("kind", JStr "collect_diff"); ("scope", ser scope)]
  | MergeBase target => [("kind", JStr "merge_base"); ("target", ser target)]
  | Commit message_template_id bindings =>
      [("kind", JStr "commit"); ("message_template_id", ser message_template_id);
       ("bindings", ser bindings)]
  | PauseAtBoundary => [("kind", JStr "pause_at_boundary")]
  | SettleRun status => [("kind", JStr "settle_run"); ("status", ser status)]
  end.
Definition command_serialize (c : DriverCommand) : json := JMap (command_entries c).

(** The widths inside a command's bindings. *)
Definition command_typed (c : DriverCommand) : Prop :=
  match c with
  | RunTemplate _ _ _ b | Commit _ b => serde_valid b
  | _ => True
  end.

(** ** The envelope *)
Record DriverCommandEnvelope : Type := MkCommandEnvelope {
  ce_protocol_version : Z;
  ce_command_id : CommandId;
  ce_sequence : Z;
  ce_expected_revision : Z;
  ce_command : DriverCommand
}.

Definition command_envelope_fields : field_table :=
  [("protocol_version", checks de_supported_version);
   ("command_id", checks (token_deserialize "command_id" MAX_OPAQUE_ID_LEN));
   ("sequence", checks de_u64);
   ("expected_revision", checks de_u64);
   ("command", checks command_deserialize)].

Definition command_envelope_deserialize : decoder DriverCommandEnvelope := λ j,
  let? es := derived_struct true command_envelope_fields j in
  let? protocol_version := required "protocol_version" de_supported_version es in
  let? command_id := required "command_id" (token_deserialize _ _) es in
  let? sequence := required "sequence" de_u64 es in
  let? expected_revision := required "expected_revision" de_u64 es in
  let? command := required "command" command_deserialize es in
  Ok (MkCommandEnvelope protocol_version command_id sequence expected_revision command).

Definition command_envelope_serialize (e : DriverCommandEnvelope) : json :=
  JMap [("protocol_version", JU64 (ce_protocol_version e)); ("command_id", token_serialize (ce_command_id e));
        ("sequence", JU64 (ce_sequence e)); ("expected_revision", JU64 (ce_expected_revision e));
        ("command", command_serialize (ce_command e))].

Definition command_envelope_typed (e : DriverCommandEnvelope) : Prop :=
  version_supported (ce_protocol_version e) = true ∧ in_u64 (ce_sequence e) ∧
  in_u64 (ce_expected_revision e) ∧ command_typed (ce_command e).

(** ** Lemmas *)

Lemma command_rejects_exact kd k :
  is_Some (field_check command_fields k) →
  (k ∈ command_rejects kd ↔ command_field_allowed_for_kind kd k = false).
Proof.
  rewrite field_check_elem. intros Hk.
  pose proof (names_forall (λ k, Bool.eqb (bool_decide (k ∈ command_rejects kd))
    (negb (command_field_allowed_for_kind kd k))) command_fields.*1 k) as HF.
  apply eqb_prop in HF; [| by destruct kd; vm_compute | done].
  destruct (bool_decide_reflect (k ∈ command_rejects kd));
    destruct (command_field_allowed_for_kind kd k); naive_solver.
Qed.

Lemma command_rejects_known kd k :
  k ∈ command_rejects kd → is_Some (field_check command_fields k) ∧ k ≠ "kind".
Proof.
  intros Hk. rewrite field_check_elem.
  pose proof (names_forall (λ k, bool_decide (k ∈ command_fields.*1 ∧ k ≠ "kind"))
    (command_rejects kd) k) as HF.
  apply (bool_decide_eq_true_1 _), HF; [by destruct kd; vm_compute | done].
Qed.

Lemma command_build_entries kd es es' :
  (∀ k, entry k es = entry k es') → command_build kd es = command_build kd es'.
Proof. intros H. unfold command_build, required. by rewrite !H. Qed.

(** The kind of a command. *)
Definition kind_of_command (c : DriverCommand) : DriverCommandKind :=
  match c with
  | RequireWorkspace => CkRequireWorkspace
  | StartThread _ => CkStartThread
  | ResumeOrStartThread _ _ => CkResumeOrStartThread
  | RunTemplate _ _ _ _ => CkRunTemplate
  | CheckpointCommit => CkCheckpointCommit
  | CollectDiff _ => CkCollectDiff
  | MergeBase _ => CkMergeBase
  | Commit _ _ => CkCommit
  | PauseAtBoundary => CkPauseAtBoundary
  | SettleRun _ => CkSettleRun
  end.

Lemma command_decode_encode c :
  command_typed c → command_deserialize (command_serialize c) = Ok c.
Proof.
  intros Ht. unfold command_deserialize, command_serialize, tagged_deserialize.
  apply tagged_visit_iff; [apply command_rejects_exact | apply command_rejects_known |].
  split; [destruct c; struct_nodup|].
  split; [destruct c; left|]. exists (kind_of_command c). split.
  - destruct c; repeat constructor; cbn [fst snd]; try reflexivity; eexists;
      (split; [reflexivity|]); apply de_ser_at; try done; apply Forall_forall; done.
  - destruct c; cbn [command_build command_entries kind_of_command]; try reflexivity;
      repeat read_field; rewrite !de_ser; try done; apply Forall_forall; done.
Qed.

#[export] Program Instance command_serde : Serde DriverCommand := {|
  ser := command_serialize; de := command_deserialize; serde_valid := command_typed |}.
Next Obligation. apply command_decode_encode. Qed.
Next Obligation. done. Qed.

Lemma command_envelope_decode_encode e :
  command_envelope_typed e → command_envelope_deserialize (command_envelope_serialize e) = Ok e.
Proof.
  destruct e as [v i s r c]. intros (Hv & Hs & Hr & Hc). cbn in *.
  unfold command_envelope_deserialize, command_envelope_serialize.
  cbn [ce_protocol_version ce_command_id ce_sequence ce_expected_revision ce_command].
  pose proof (command_decode_encode c Hc) as Hd.
  rewrite derived_struct_ok; [| struct_checks | struct_nodup].
  repeat read_field. rewrite supported_de_ser, token_de_ser, !u64_de_ser by done.
  by rewrite Hd.
Qed.
