(* ===== verification/Event.v ===== *)
(** * Driver events (crates/relay-api/src/orchestration.rs)

    The closed set of answers the local executor gives a content-blind driver, and
    their envelope. *)

From Stdlib Require Import ZArith Lia.
From S2P Require Import Prelude RustStr Json TeamTypes Tokens Backend TeamRun.
From S2P Require Import Cursor TaggedMap.

Open Scope string_scope.
Open Scope Z_scope.

Inductive CommandRejection : Type :=
| UnknownRevision | DuplicateCommand | StaleCommand | BackendMismatch | PermissionDenied
| WorkspaceUnavailable | TemplateUnavailable | ArtifactUnavailable | ExecutorBusy | InvalidState
| UnsupportedProtocol.
#[export] Instance CommandRejection_eq_dec : EqDecision CommandRejection.
Proof. solve_decision. Defined.
#[export] Program Instance CommandRejection_enum : UnitEnum CommandRejection := {|
  enum_name r := match r with
    | UnknownRevision => "unknown_revision" | DuplicateCommand => "duplicate_command"
    | StaleCommand => "stale_command" | BackendMismatch => "backend_mismatch"
    | PermissionDenied => "permission_denied" | WorkspaceUnavailable => "workspace_unavailable"
    | TemplateUnavailable => "template_unavailable"
    | ArtifactUnavailable => "artifact_unavailable" | ExecutorBusy => "executor_busy"
    | InvalidState => "invalid_state" | UnsupportedProtocol => "unsupported_protocol"
    end;
  enum_all := [UnknownRevision; DuplicateCommand; StaleCommand; BackendMismatch; PermissionDenied;
    WorkspaceUnavailable; TemplateUnavailable; ArtifactUnavailable; ExecutorBusy; InvalidState;
    UnsupportedProtocol] |}.
Next Obligation. unit_enum. Qed.
Next Obligation. unit_enum. Qed.

Inductive TurnOutcomeKind : Type := TurnReplied | TurnSilent | TurnFailed | TurnBlocked.
#[export] Instance TurnOutcomeKind_eq_dec : EqDecision TurnOutcomeKind.
Proof. solve_decision. Defined.
#[export] Program Instance TurnOutcomeKind_enum : UnitEnum TurnOutcomeKind := {|
  enum_name o := match o with
    | TurnReplied => "replied" | TurnSilent => "silent" | TurnFailed => "failed"
    | TurnBlocked => "blocked"
    end;
  enum_all := [TurnReplied; TurnSilent; TurnFailed; TurnBlocked] |}.
Next Obligation. unit_enum. Qed.
Next Obligation. unit_enum. Qed.

Inductive DriverEvent : Type :=
| CommandAccepted
| CommandRejected (reason : CommandRejection)
| WorkspaceReady
| ThreadReady (thread : ThreadHandle) (role : DriverRole)
| TurnFinished (outcome : TurnOutcomeKind) (artifact : option ArtifactRef)
| DiffCollected (changed : bool) (artifact : ArtifactRef)
| MergeBaseResolved (available : bool) (artifact : option ArtifactRef)
| CommitRecorded (changed : bool) (artifact : option ArtifactRef)
| CursorAdvanced (cursor : DriverCursor)
| RunSettled (status : DriverRunStatus).

(** ** Kinds *)
Inductive DriverEventKind : Type :=
| EkCommandAccepted | EkCommandRejected | EkWorkspaceReady | EkThreadReady | EkTurnFinished
| EkDiffCollected | EkMergeBaseResolved | EkCommitRecorded | EkCursorAdvanced | EkRunSettled.

Definition event_kind_as_str (k : DriverEventKind) : string :=
  match k with
  | EkCommandAccepted => "command_accepted"
  | EkCommandRejected => "command_rejected"
  | EkWorkspaceReady => "workspace_ready"
  | EkThreadReady => "thread_ready"
  | EkTurnFinished => "turn_finished"
  | EkDiffCollected => "diff_collected"
  | EkMergeBaseResolved => "merge_base_resolved"
  | EkCommitRecorded => "commit_recorded"
  | EkCursorAdvanced => "cursor_advanced"
  | EkRunSettled => "run_settled"
  end.

Definition event_kind_visit_str (value : string) : result DriverEventKind de_error :=
  if decide (value = "command_accepted") then Ok EkCommandAccepted
  else if decide (value = "command_rejected") then Ok EkCommandRejected
  else if decide (value = "workspace_ready") then Ok EkWorkspaceReady
  else if decide (value = "thread_ready") then Ok EkThreadReady
  else if decide (value = "turn_finished") then Ok EkTurnFinished
  else if decide (value = "diff_collected") then Ok EkDiffCollected
  else if decide (value = "merge_base_resolved") then Ok EkMergeBaseResolved
  else if decide (value = "commit_recorded") then Ok EkCommitRecorded
  else if decide (value = "cursor_advanced") then Ok EkCursorAdvanced
  else if decide (value = "run_settled") then Ok EkRunSettled
  else Err (UnknownVariant value).

Definition event_kind_deserialize : decoder DriverEventKind := λ j,
  match j with JStr s => event_kind_visit_str s | _ => Err InvalidType end.

(** ** Fields *)
Definition event_fields : field_table :=
  [("reason", checks (de : decoder CommandRejection));
   ("thread", checks (de : decoder ThreadHandle));
   ("role", checks (de : decoder DriverRole));
   ("outcome", checks (de : decoder TurnOutcomeKind));
   ("artifact", checks (de_option (de : decoder ArtifactRef)));
   ("changed", checks de_bool);
   ("available", checks de_bool);
   ("cursor", checks (de : decoder DriverCursor));
   ("status", checks (de : decoder DriverRunStatus))].

Definition event_field_allowed_for_kind (kind : DriverEventKind) (field : string) : bool :=
  bool_decide (field ∈
    match kind with
    | EkCommandAccepted | EkWorkspaceReady => []
    | EkCommandRejected => ["reason"]
    | EkThreadReady => ["thread"; "role"]
    | EkTurnFinished => ["outcome"; "artifact"]
    | EkDiffCollected => ["changed"; "artifact"]
    | EkMergeBaseResolved => ["available"; "artifact"]
    | EkCommitRecorded => ["changed"; "artifact"]
    | EkCursorAdvanced => ["cursor"]
    | EkRunSettled => ["status"]
    end).

Definition event_rejects (kind : DriverEventKind) : list string :=
  match kind with
  | EkCommandAccepted | EkWorkspaceReady =>
      ["reason"; "thread"; "role"; "outcome"; "artifact"; "changed"; "available"; "cursor"; "status"]
  | EkCommandRejected =>
      ["thread"; "role"; "outcome"; "artifact"; "changed"; "available"; "cursor"; "status"]
  | EkThreadReady => ["reason"; "outcome"; "artifact"; "changed"; "available"; "cursor"; "status"]
  | EkTurnFinished => ["reason"; "thread"; "role"; "changed"; "available"; "cursor"; "status"]
  | EkDiffCollected => ["reason"; "thread"; "role"; "outcome"; "available"; "cursor"; "status"]
  | EkMergeBaseResolved => ["reason"; "thread"; "role"; "outcome"; "changed"; "cursor"; "status"]
  | EkCommitRecorded => ["reason"; "thread"; "role"; "outcome"; "available"; "cursor"; "status"]
  | EkCursorAdvanced =>
      ["reason"; "thread"; "role"; "outcome"; "artifact"; "changed"; "available"; "status"]
  | EkRunSettled =>
      ["reason"; "thread"; "role"; "outcome"; "artifact"; "changed"; "available"; "cursor"]
  end.

(** [artifact.unwrap_or(None)]. *)
Definition optional_artifact (es : list (string * json)) : result (option ArtifactRef) de_error :=
  defaulted "artifact" (de_option de) None es.

Definition required_artifact (es : list (string * json)) : result ArtifactRef de_error :=
  let? slot := required "artifact" (de_option de) es in
  ok_or slot (Custom "artifact must not be null").

Definition event_build (kind : DriverEventKind) (es : list (string * json)) :
    result DriverEvent de_error :=
  match kind with
  | EkCommandAccepted => Ok CommandAccepted
  | EkCommandRejected => let? reason := required "reason" de es in Ok (CommandRejected reason)
  | EkWorkspaceReady => Ok WorkspaceReady
  | EkThreadReady =>
      let? thread := required "thread" de es in
      let? role := required "role" de es in
      Ok (ThreadReady thread role)
  | EkTurnFinished =>
      let? outcome := required "outcome" de es in
      let? artifact := optional_artifact es in
      Ok (TurnFinished outcome artifact)
  | EkDiffCollected =>
      let? changed := required "changed" de_bool es in
      let? artifact := required_artifact es in
      Ok (DiffCollected changed artifact)
  | EkMergeBaseResolved =>
      let? available := required "available" de_bool es in
      let? artifact := optional_artifact es in
      Ok (MergeBaseResolved available artifact)
  | EkCommitRecorded =>
      let? changed := required "changed" de_bool es in
      let? artifact := optional_artifact es in
      Ok (CommitRecorded changed artifact)
  | EkCursorAdvanced => let? cursor := required "cursor" de es in Ok (CursorAdvanced cursor)
  | EkRunSettled => let? status := required "status" de es in Ok (RunSettled status)
  end.

Definition event_deserialize : decoder DriverEvent :=
  tagged_deserialize "event" event_kind_deserialize event_kind_as_str event_fields
    event_field_allowed_for_kind event_rejects event_build.

(** ** Encoding: internally tagged, an absent artifact is null *)
Definition event_entries (e : DriverEvent) : list (string * json) :=
  match e with
  | CommandAccepted => [("kind", JStr "command_accepted")]
  | CommandRejected reason => [("kind", JStr "command_rejected"); ("reason", ser reason)]
  | WorkspaceReady => [("kind", JStr "workspace_ready")]
  | ThreadReady thread role =>
      [("kind", JStr "thread_ready"); ("thread", ser thread); ("role", ser role)]
  | TurnFinished outcome artifact =>
      [("kind", JStr "turn_finished"); ("outcome", ser outcome);
       ("artifact", ser_option ser artifact)]
  | DiffCollected changed artifact =>
      [("kind", JStr "diff_collected"); ("changed", JBool changed); ("artifact", ser artifact)]
  | MergeBaseResolved available artifact =>
      [("kind", JStr "merge_base_resolved"); ("available", JBool available);
       ("artifact", ser_option ser artifact)]
  | CommitRecorded changed artifact =>
      [("kind", JStr "commit_recorded"); ("changed", JBool changed);
       ("artifact", ser_option ser artifact)]
  | CursorAdvanced cursor => [("kind", JStr "cursor_advanced"); ("cursor", ser cursor)]
  | RunSettled status => [("kind", JStr "run_settled"); ("status", ser status)]
  end.
Definition event_serialize (e : DriverEvent) : json := JMap (event_entries e).

Definition event_typed (e : DriverEvent) : Prop :=
  match e with
  | TurnFinished _ a | MergeBaseResolved _ a | CommitRecorded _ a =>
      ∀ r, a = Some r → artifact_ref_typed r
  | DiffCollected _ a => artifact_ref_typed a
  | CursorAdvanced c => cursor_typed c
  | _ => True
  end.

(** ** The envelope *)
Record DriverEventEnvelope : Type := MkEventEnvelope {
  ee_protocol_version : Z;
  ee_event_id : EventId;
  ee_sequence : Z;
  ee_command_id : CommandId;
  ee_observed_revision : Z;
  ee_event : DriverEvent
}.

Definition event_envelope_fields : field_table :=
  [("protocol_version", checks de_supported_version);
   ("event_id", checks (token_deserialize "event_id" MAX_OPAQUE_ID_LEN));
   ("sequence", checks de_u64);
   ("command_id", checks (token_deserialize "command_id" MAX_OPAQUE_ID_LEN));
   ("observed_revision", checks de_u64);
   ("event", checks event_deserialize)].

Definition event_envelope_deserialize : decoder DriverEventEnvelope := λ j,
  let? es := derived_struct true event_envelope_fields j in
  let? protocol_version := required "protocol_version" de_supported_version es in
  let? event_id := required "event_id" (token_deserialize _ _) es in
  let? sequence := required "sequence" de_u64 es in
  let? command_id := required "command_id" (token_deserialize _ _) es in
  let? observed_revision := required "observed_revision" de_u64 es in
  let? event := required "event" event_deserialize es in
  Ok (MkEventEnvelope protocol_version event_id sequence command_id observed_revision event).

Definition event_envelope_serialize (e : DriverEventEnvelope) : json :=
  JMap [("protocol_version", JU64 (ee_protocol_version e));
        ("event_id", token_serialize (ee_event_id e)); ("sequence", JU64 (ee_sequence e));
        ("command_id", token_serialize (ee_command_id e));
        ("observed_revision", JU64 (ee_observed_revision e));
        ("event", event_serialize (ee_event e))].

Definition event_envelope_typed (e : DriverEventEnvelope) : Prop :=
  version_supported (ee_protocol_version e) = true ∧ in_u64 (ee_sequence e) ∧
  in_u64 (ee_observed_revision e) ∧ event_typed (ee_event e).

(** ** Lemmas *)

Lemma event_rejects_exact kd k :
  is_Some (field_check event_fields k) →
  (k ∈ event_rejects kd ↔ event_field_allowed_for_kind kd k = false).
Proof.
  rewrite field_check_elem. intros Hk.
  pose proof (names_forall (λ k, Bool.eqb (bool_decide (k ∈ event_rejects kd))
    (negb (event_field_allowed_for_kind kd k))) event_fields.*1 k) as HF.
  apply eqb_prop in HF; [| by destruct kd; vm_compute | done].
  destruct (bool_decide_reflect (k ∈ event_rejects kd));
    destruct (event_field_allowed_for_kind kd k); naive_solver.
Qed.

Lemma event_rejects_known kd k :
  k ∈ event_rejects kd → is_Some (field_check event_fields k) ∧ k ≠ "kind".
Proof.
  intros Hk. rewrite field_check_elem.
  pose proof (names_forall (λ k, bool_decide (k ∈ event_fields.*1 ∧ k ≠ "kind"))
    (event_rejects kd) k) as HF.
  apply (bool_decide_eq_true_1 _), HF; [by destruct kd; vm_compute | done].
Qed.

Lemma event_build_entries kd es es' :
  (∀ k, entry k es = entry k es') → event_build kd es = event_build kd es'.
Proof.
  intros H. unfold event_build, optional_artifact, required_artifact, required, defaulted.
  by rewrite !H.
Qed.

Definition kind_of_event (e : DriverEvent) : DriverEventKind :=
  match e with
  | CommandAccepted => EkCommandAccepted
  | CommandRejected _ => EkCommandRejected
  | WorkspaceReady => EkWorkspaceReady
  | ThreadReady _ _ => EkThreadReady
  | TurnFinished _ _ => EkTurnFinished
  | DiffCollected _ _ => EkDiffCollected
  | MergeBaseResolved _ _ => EkMergeBaseResolved
  | CommitRecorded _ _ => EkCommitRecorded
  | CursorAdvanced _ => EkCursorAdvanced
  | RunSettled _ => EkRunSettled
  end.

Lemma de_artifact_present a :
  artifact_ref_typed a → de_option de (ser a) = Ok (Some a).
Proof. intros Ha. by apply (de_option_ser (Some a)); intros ? [= <-]. Qed.

Lemma event_decode_encode e : event_typed e → event_deserialize (event_serialize e) = Ok e.
Proof.
  intros Ht. unfold event_deserialize, event_serialize, tagged_deserialize.
  apply tagged_visit_iff; [apply event_rejects_exact | apply event_rejects_known |].
  split; [destruct e; struct_nodup|].
  split; [destruct e; left|]. exists (kind_of_event e). split.
  - destruct e; repeat constructor; cbn [fst snd]; try reflexivity; eexists;
      (split; [reflexivity|]);
      first [ reflexivity | by apply de_ser_at
            | eapply checks_ok; first [by apply de_option_ser | by apply de_artifact_present] ].
  - destruct e; cbn [event_build event_entries kind_of_event]; unfold optional_artifact,
      required_artifact; try reflexivity; repeat read_field; cbn [de_bool];
      rewrite ?de_option_ser, ?de_artifact_present, ?de_ser; done.
Qed.

Lemma event_envelope_decode_encode e :
  event_envelope_typed e → event_envelope_deserialize (event_envelope_serialize e) = Ok e.
Proof.
  destruct e as [v i s c r ev]. intros (Hv & Hs & Hr & He). cbn in Hv, Hs, Hr, He.
  unfold event_envelope_deserialize, event_envelope_serialize.
  cbn [ee_protocol_version ee_event_id ee_sequence ee_command_id ee_observed_revision ee_event].
  pose proof (event_decode_encode ev He) as Hd.
  rewrite derived_struct_ok; [| struct_checks | struct_nodup].
  repeat read_field. rewrite supported_de_ser, !token_de_ser, !u64_de_ser by done.
  by rewrite Hd.
Qed.
