(* ===== verification/Negotiate.v ===== *)
(** * Protocol negotiation (crates/relay-api/src/orchestration.rs) *)

From Stdlib Require Import ZArith Lia.
From S2P Require Import Prelude RustStr Json TeamTypes Tokens Backend TeamRun.
From S2P Require Import Cursor.

Open Scope string_scope.
Open Scope Z_scope.

Record ProtocolRange : Type := MkRange { range_min : Z; range_max : Z }.

Definition range_new (min max : Z) : result ProtocolRange ProtocolValueError :=
  if (min =? 0) || (max =? 0) || (max <? min) then Err (InvalidRange min max)
  else Ok (MkRange min max).

Definition range_current : ProtocolRange := MkRange MIN_PROTOCOL_VERSION CURRENT_PROTOCOL_VERSION.

Definition range_fields : field_table := [("min", checks de_u32); ("max", checks de_u32)].

Definition range_deserialize : decoder ProtocolRange := λ j,
  let? es := derived_struct true range_fields j in
  let? min := required "min" de_u32 es in
  let? max := required "max" de_u32 es in
  match range_new min max with Ok r => Ok r | Err e => Err (CustomValue e) end.

Definition range_serialize (r : ProtocolRange) : json :=
  JMap [("min", JU64 (range_min r)); ("max", JU64 (range_max r))].

Record ProtocolHello : Type := MkHello {
  ph_supported : ProtocolRange;
  ph_driver_version : DriverVersion;
  ph_backend : OrchestrationBackendKind
}.

Definition hello_fields : field_table :=
  [("supported", checks range_deserialize);
   ("driver_version", checks (token_deserialize "driver_version" MAX_DRIVER_VERSION_LEN));
   ("backend", checks (de : decoder OrchestrationBackendKind))].

Definition hello_deserialize : decoder ProtocolHello := λ j,
  let? es := derived_struct true hello_fields j in
  let? supported := required "supported" range_deserialize es in
  let? driver_version := required "driver_version" (token_deserialize _ _) es in
  let? backend := required "backend" de es in
  Ok (MkHello supported driver_version backend).

Record ProtocolNegotiation : Type := MkNegotiation { selected_version : Z }.

Definition negotiate_protocol (local peer : ProtocolRange) :
    result ProtocolNegotiation ProtocolValueError :=
  let local_min := Z.max (range_min local) MIN_PROTOCOL_VERSION in
  let local_max := Z.min (range_max local) CURRENT_PROTOCOL_VERSION in
  if local_max <? local_min then
    Err (UnsupportedLocalProtocolRange (range_min local) (range_max local)
           MIN_PROTOCOL_VERSION CURRENT_PROTOCOL_VERSION)
  else
    let min := Z.max local_min (range_min peer) in
    let max := Z.min local_max (range_max peer) in
    if max <? min then
      Err (NoCompatibleProtocol local_min local_max (range_min peer) (range_max peer))
    else Ok (MkNegotiation max).

(** ** Theorems *)

(** A version both ends and this build can speak. *)
Definition common_version (a b : ProtocolRange) (v : Z) : Prop :=
  MIN_PROTOCOL_VERSION ≤ v ≤ CURRENT_PROTOCOL_VERSION ∧
  range_min a ≤ v ≤ range_max a ∧ range_min b ≤ v ≤ range_max b.

(** Negotiation picks the greatest version that both endpoints advertise and this
    build supports, succeeds exactly when there is one, and does not depend on which
    endpoint is the local one. *)
Theorem negotiate_picks_greatest_common local peer :
  (∀ n, negotiate_protocol local peer = Ok n ↔
     common_version local peer (selected_version n) ∧
     ∀ v, common_version local peer v → v ≤ selected_version n) ∧
  (is_ok (negotiate_protocol local peer) = true ↔ ∃ v, common_version local peer v) ∧
  (∀ n, negotiate_protocol local peer = Ok n → negotiate_protocol peer local = Ok n).
Proof.
  assert (∀ a b n, negotiate_protocol a b = Ok n ↔
    common_version a b (selected_version n) ∧ ∀ v, common_version a b v → v ≤ selected_version n)
    as Hspec.
  { intros a b [n]. unfold negotiate_protocol, common_version. cbn [selected_version].
    split.
    - repeat case_if; intros [= <-]; rewrite Z.ltb_ge in *; split; [|intros v ?]; lia.
    - intros [Hc Hm]. repeat case_if; rewrite ?Z.ltb_lt, ?Z.ltb_ge in *; try lia.
      specialize (Hm (Z.min (Z.min (range_max a) CURRENT_PROTOCOL_VERSION) (range_max b))).
      f_equal. f_equal. lia. }
  split_and!; [apply Hspec | |].
  - unfold negotiate_protocol, common_version. split.
    + repeat case_if; cbn; try done. intros _. rewrite !Z.ltb_ge in *.
      exists (Z.min (Z.min (range_max local) CURRENT_PROTOCOL_VERSION) (range_max peer)). lia.
    + intros [v Hv]. repeat case_if; rewrite ?Z.ltb_lt in *; try done; lia.
  - intros n. rewrite !Hspec. unfold common_version. intros [H1 H2]. split; [tauto|].
    intros v Hv. apply H2. tauto.
Qed.

(** A range read from the wire is one [ProtocolRange::new] accepts. *)
Lemma range_decoded_valid j r :
  range_deserialize j = Ok r → 1 ≤ range_min r ≤ range_max r.
Proof.
  unfold range_deserialize, range_new. destruct (derived_struct _ _ _) as [es|]; [|done].
  unfold required, de_u32, de_uint, in_range. intros H.
  repeat case_mt; simplify_eq; cbn;
    rewrite ?orb_false_iff, ?andb_true_iff, ?Z.eqb_neq, ?Z.ltb_ge, ?Z.leb_le in *; lia.
Qed.
