(* ===== verification/Blind.v ===== *)
(** * Content blindness of the driver protocol

    The protocol promises that a remote driver never sends or receives text: no
    prompt, path, URL, ref or transcript.  [blind] says that of a wire value: every
    string in it, keys included, is short and made of letters, digits, dashes,
    underscores and dots only.  Each decoder of the protocol accepts blind values
    only; the proofs compose along the decoders. *)

From Stdlib Require Import ZArith Lia Ascii.
From S2P Require Import Prelude RustStr Json TeamTypes Tokens Backend TeamRun.
From S2P Require Import Cursor TaggedMap Command Event Negotiate.

Open Scope string_scope.
Open Scope Z_scope.

Definition plain (s : string) : bool :=
  negb (is_empty s) && (str_len s <=? MAX_OPAQUE_ID_LEN)
  && string_forall (λ a, token_char (byte_val a)) s.

Inductive blind : json → Prop :=
| blind_null : blind JNull
| blind_bool b : blind (JBool b)
| blind_u64 z : blind (JU64 z)
| blind_i64 z : blind (JI64 z)
| blind_str s : plain s = true → blind (JStr s)
| blind_seq l : Forall blind l → blind (JSeq l)
| blind_map es : Forall (λ e, plain e.1 = true ∧ blind e.2) es → blind (JMap es).

(** A decoder that accepts blind values only. *)
Class Blind {A} (d : decoder A) := blind_decode j a : d j = Ok a → blind j.

(** ** Tokens *)

Lemma first_bad_char_None cs : first_bad_char cs = None → Forall (λ c, token_char c = true) cs.
Proof. induction cs as [|c cs IH]; cbn; [done|]. case_if; [|done]. auto. Qed.

Lemma token_char_ascii c : token_char c = true → c < 128.
Proof.
  unfold token_char, in_range. rewrite !orb_true_iff, !andb_true_iff, !Z.leb_le, !Z.eqb_eq. lia.
Qed.

Lemma validate_token_plain field raw max s :
  max ≤ MAX_OPAQUE_ID_LEN → validate_token field raw max = Ok s → plain s = true.
Proof.
  intros Hm. unfold validate_token. destruct (is_empty raw) eqn:He; [done|].
  destruct (Z.ltb_spec max (str_len raw)); [done|].
  destruct (first_bad_char (chars raw)) eqn:Hf; [done|]. case_if; [done|]. intros [= <-].
  apply first_bad_char_None in Hf.
  rewrite chars_ascii in Hf by (eapply Forall_impl; [exact Hf | apply token_char_ascii]).
  unfold plain. rewrite He, !andb_true_iff. split_and!; [done | apply Z.leb_le; lia|].
  by eapply bytes_string_forall; [|exact Hf].
Qed.

Lemma token_blind field max : max ≤ MAX_OPAQUE_ID_LEN → Blind (token_deserialize field max).
Proof.
  intros Hm j t. unfold token_deserialize. destruct j; try done.
  destruct (token_new field max s) as [t'|] eqn:E; [|done]. intros _.
  constructor. pose proof (token_new_Ok _ _ _ _ E) as <-.
  apply (validate_token_plain field (token_str t') max); [done | apply token_valid].
Qed.
#[export] Instance id_blind field : Blind (token_deserialize field MAX_OPAQUE_ID_LEN).
Proof. by apply token_blind. Qed.
#[export] Instance driver_version_blind field :
  Blind (token_deserialize field MAX_DRIVER_VERSION_LEN).
Proof. apply token_blind. by vm_compute. Qed.
#[export] Instance id_serde_blind field : Blind (de : decoder (token field MAX_OPAQUE_ID_LEN)).
Proof. exact (id_blind field). Qed.

(** ** Scalars, enums, options, vectors *)

Lemma de_uint_blind max : Blind (de_uint max).
Proof. intros j a. unfold de_uint. destruct j; try done; constructor. Qed.
#[export] Instance u64_blind : Blind de_u64 := de_uint_blind _.
#[export] Instance u32_blind : Blind de_u32 := de_uint_blind _.

#[export] Instance de_bool_blind : Blind de_bool.
Proof. intros [] a; try done; constructor. Qed.

#[export] Instance supported_blind : Blind de_supported_version.
Proof.
  intros j a. unfold de_supported_version, version_deserialize.
  destruct (de_u32 j) eqn:E; [|done]. intros _. by eapply u32_blind.
Qed.

#[export] Instance option_blind {A} (d : decoder A) `{!Blind d} : Blind (de_option d).
Proof.
  intros j a. unfold de_option. destruct (d j) as [x|] eqn:E.
  - intros _. by eapply blind_decode.
  - destruct j; try done. constructor.
Qed.

(** The names of an enum are plain. *)
Class PlainEnum (A : Type) `{UnitEnum A} := plain_names : forallb (λ a : A, plain (enum_name a)) enum_all = true.

Lemma plain_enum_name {A} `{PlainEnum A} (a : A) : plain (enum_name a) = true.
Proof.
  pose proof plain_names as Hp. rewrite forallb_forall in Hp. apply Hp, list_elem_of_In, enum_complete.
Qed.

#[export] Instance enum_blind {A} `{PlainEnum A} : Blind (de : decoder A).
Proof.
  intros j a. unfold de. cbn. unfold enum_deserialize, de_unit_enum.
  assert (∀ s, ok_or (enum_of_name s) (UnknownVariant s) = Ok a → plain s = true) as Hs.
  { intros s Ho%ok_or_Ok%enum_of_name_spec. subst. apply plain_enum_name. }
  destruct j as [| | | | |s|l|[|[k []] []]]; try done; intros E%Hs.
  - by constructor.
  - constructor. repeat constructor. done.
Qed.

#[export] Instance status_plain : PlainEnum DriverRunStatus. Proof. by vm_compute. Qed.
#[export] Instance phase_plain : PlainEnum DriverPhase. Proof. by vm_compute. Qed.
#[export] Instance backend_kind_plain : PlainEnum OrchestrationBackendKind. Proof. by vm_compute. Qed.
#[export] Instance artifact_kind_plain : PlainEnum ArtifactKind. Proof. by vm_compute. Qed.
#[export] Instance slot_plain : PlainEnum ArtifactBindingSlot. Proof. by vm_compute. Qed.
#[export] Instance scope_plain : PlainEnum DiffScope. Proof. by vm_compute. Qed.
#[export] Instance target_plain : PlainEnum MergeBaseTarget. Proof. by vm_compute. Qed.
#[export] Instance rejection_plain : PlainEnum CommandRejection. Proof. by vm_compute. Qed.
#[export] Instance outcome_plain : PlainEnum TurnOutcomeKind. Proof. by vm_compute. Qed.

#[export] Instance driver_role_blind : Blind (de : decoder DriverRole).
Proof.
  intros j a. unfold de. cbn. unfold driver_role_deserialize.
  destruct j as [| | | | |s| |]; try done. cbn [de_string]. intros H%ok_or_Ok.
  unfold driver_role_from_wire in H. repeat case_decide; simplify_eq; by constructor.
Qed.

Lemma bounded_visit_blind {A} (d : decoder A) `{!Blind d} max room l items :
  bounded_visit d max room l = Ok items → Forall blind l.
Proof.
  revert l items. induction room as [|room IH]; intros [|j l] items; cbn; try done.
  destruct (d j) eqn:Ej; [|done]. destruct (bounded_visit d max room l) eqn:El; [|done].
  intros _. constructor; [by eapply blind_decode | by eapply IH].
Qed.

#[export] Instance bounded_blind {A max} (S : Serde A) `{!Blind (de : decoder A)} :
  Blind (de : decoder (BoundedVec A max)).
Proof.
  intros j a. unfold de at 1. cbn. unfold bounded_deserialize. destruct j as [| | | | | |l|]; try done.
  destruct (bounded_visit de max (Z.to_nat max) l) eqn:E; [|done]. intros _. constructor.
  by eapply bounded_visit_blind.
Qed.

(** ** Structs and tagged objects *)

Definition blind_table (tbl : field_table) : Prop :=
  Forall (λ f : string * _, plain f.1 = true ∧ ∀ j, f.2 j = Ok () → blind j) tbl.

Lemma checks_blind {A} (d : decoder A) `{!Blind d} j : checks d j = Ok () → blind j.
Proof. unfold checks. destruct (d j) eqn:E; [|done]. intros _. by eapply blind_decode. Qed.

Lemma field_check_blind tbl k d :
  blind_table tbl → field_check tbl k = Some d → plain k = true ∧ ∀ j, d j = Ok () → blind j.
Proof.
  intros HF. induction HF as [|[k' d'] tbl H _ IH]; cbn; [done|].
  case_decide; [subst; by intros [= <-] | done].
Qed.

Lemma struct_scan_blind tbl seen es :
  blind_table tbl → struct_scan true (field_check tbl) seen es = Ok () →
  Forall (λ e, plain e.1 = true ∧ blind e.2) es.
Proof.
  intros Ht. revert seen. induction es as [|[k v] es IH]; intros seen H; [constructor|]. cbn in H.
  destruct (field_check tbl k) as [d|] eqn:E; [|done]. case_bool_decide; [done|].
  destruct (d v) as [[]|] eqn:Ed; [|done].
  destruct (field_check_blind _ _ _ Ht E). constructor; [cbn; eauto | by eapply IH].
Qed.

Lemma derived_struct_blind tbl j es :
  blind_table tbl → derived_struct true tbl j = Ok es → blind j.
Proof.
  intros Ht. unfold derived_struct, struct_entries.
  destruct j as [| | | | | |l|es']; try done.
  - case_bool_decide as Hl; [|done]. destruct (struct_scan _ _ _ _) as [[]|] eqn:E; [|done].
    intros _. apply struct_scan_blind in E; [|done]. constructor. apply Forall_forall.
    intros j Hj. rewrite <- (snd_zip tbl.*1 l) in Hj by (rewrite length_fmap in *; lia).
    apply list_elem_of_fmap in Hj as (e & -> & He). rewrite Forall_forall in E. by apply E.
  - destruct (struct_scan _ _ _ _) as [[]|] eqn:E; [|done]. intros _.
    constructor. by eapply struct_scan_blind.
Qed.

(** Discharges a literal field table. *)
Ltac blind_tbl :=
  repeat apply Forall_cons_2; try apply Forall_nil_2;
  (split; [by vm_compute|]); let x := fresh in intros x; exact (checks_blind _ x).
(** A derived struct is blind when its table is. *)
Ltac blind_struct d :=
  intros j a; unfold d;
  match goal with |- context [derived_struct true ?t j] =>
    let E := fresh in destruct (derived_struct true t j) eqn:E; [|done];
    intros _; apply derived_struct_blind in E; [done | blind_tbl]
  end.

#[export] Instance artifact_ref_blind : Blind (de : decoder ArtifactRef).
Proof. unfold de; cbn. blind_struct artifact_ref_deserialize. Qed.
#[export] Instance artifact_binding_blind : Blind (de : decoder ArtifactBinding).
Proof. unfold de; cbn. blind_struct artifact_binding_deserialize. Qed.
#[export] Instance cursor_blind : Blind (de : decoder DriverCursor).
Proof. unfold de; cbn. blind_struct cursor_deserialize. Qed.

Lemma tagged_blind {K A} noun kind_de kind_name fields allowed rejects build
    (Hre : ∀ (kd : K) k, is_Some (field_check fields k) → (k ∈ rejects kd ↔ allowed kd k = false))
    (Hrk : ∀ kd k, k ∈ rejects kd → is_Some (field_check fields k) ∧ k ≠ "kind")
    (Hkind : Blind kind_de) (Htbl : blind_table fields) :
  Blind (tagged_deserialize (A:=A) noun kind_de kind_name fields allowed rejects build).
Proof.
  intros [| | | | | | |es] a; cbn; try done. intros H.
  apply tagged_visit_iff in H as (_ & _ & kd & HF & _); [|done..].
  constructor. eapply Forall_impl; [exact HF|]. intros [k v]. unfold entry_of_kind. cbn.
  destruct (decide (k = "kind")) as [->|]; [intros E; split; [done | by eapply Hkind]|].
  intros (_ & d & Hd & Hv). destruct (field_check_blind _ _ _ Htbl Hd). eauto.
Qed.

Lemma command_kind_blind : Blind command_kind_deserialize.
Proof.
  intros [| | | | |s| |] a; cbn; try done. unfold command_kind_visit_str.
  repeat (case_decide; [subst; by constructor|]). done.
Qed.
Lemma event_kind_blind : Blind event_kind_deserialize.
Proof.
  intros [| | | | |s| |] a; cbn; try done. unfold event_kind_visit_str.
  repeat (case_decide; [subst; by constructor|]). done.
Qed.

#[export] Instance command_blind : Blind command_deserialize.
Proof.
  apply tagged_blind; [apply command_rejects_exact | apply command_rejects_known
    | apply command_kind_blind | blind_tbl].
Qed.
#[export] Instance event_blind : Blind event_deserialize.
Proof.
  apply tagged_blind; [apply event_rejects_exact | apply event_rejects_known
    | apply event_kind_blind | blind_tbl].
Qed.
#[export] Instance range_blind : Blind range_deserialize.
Proof. blind_struct range_deserialize. Qed.

(** The driver protocol is content-blind in both directions: every command
    envelope, event envelope and hello the relay accepts off the wire, in map or
    positional form, carries only numbers, booleans and short tokens of letters,
    digits, dashes, underscores and dots, so no path, URL, ref or prose can ride in
    any field. *)
Theorem protocol_is_content_blind j :
  (∀ c, command_envelope_deserialize j = Ok c → blind j) ∧
  (∀ e, event_envelope_deserialize j = Ok e → blind j) ∧
  (∀ h, hello_deserialize j = Ok h → blind j).
Proof.
  split_and!; revert j; [blind_struct command_envelope_deserialize
    | blind_struct event_envelope_deserialize | blind_struct hello_deserialize].
Qed.

(** A blind value has no slash, colon or space in any string. *)
Lemma plain_excludes s a : plain s = true → a = "/"%char ∨ a = ":"%char ∨ a = " "%char →
  contains (String a "") s = false.
Proof.
  unfold plain. rewrite !andb_true_iff. intros [_ Hs] Ha.
  induction s as [|b s IH]; [done|]. cbn in *. apply andb_true_iff in Hs as [Hb Hs].
  rewrite IH by done. rewrite orb_false_r, andb_true_r. apply Ascii.eqb_neq. intros <-.
  by destruct Ha as [-> |[-> | ->]].
Qed.
