(* ===== verification/OrchTheorems.v ===== *)
(** * The orchestration protocol: theorems

    Persisted records decode totally and fail closed, wire objects are closed and
    order-insensitive, and every bounded value stays within its bound. *)

From Stdlib Require Import ZArith Lia Ascii.
From S2P Require Import Prelude RustStr Json TeamTypes Tokens Backend TeamRun.
From S2P Require Import Cursor TaggedMap Command Event Negotiate Blind.

Open Scope string_scope.
Open Scope Z_scope.

(** ** Tokens *)

(** A token accepted by a [bounded_token!] type is non-empty, within its length
    bound, free of slashes, colons and spaces, and neither starts nor ends with a dot
    nor contains two in a row, so it can be neither a path nor a URL nor a relative
    reference; what is accepted is kept unchanged. *)
Theorem token_grammar field max raw t :
  max ≤ MAX_OPAQUE_ID_LEN → token_new field max raw = Ok t →
  token_str t = raw ∧ raw ≠ "" ∧ str_len raw ≤ max ∧
  contains "/" raw = false ∧ contains ":" raw = false ∧ contains " " raw = false ∧
  starts_with "." raw = false ∧ ends_with "." raw = false ∧ contains ".." raw = false.
Proof.
  intros Hm Ht. pose proof (token_new_Ok _ _ _ _ Ht) as E. pose proof (token_valid t) as Hv.
  rewrite E in Hv. pose proof (validate_token_plain _ _ _ _ Hm Hv) as Hp.
  split; [done|]. unfold validate_token in Hv.
  destruct (is_empty raw) eqn:He; [done|]. destruct (Z.ltb_spec max (str_len raw)); [done|].
  destruct (first_bad_char _); [done|].
  destruct (starts_with "." raw || ends_with "." raw || contains ".." raw) eqn:Hd; [done|].
  rewrite !orb_false_iff in Hd. destruct_and?.
  split_and!; try done; try lia; try (by apply is_empty_false);
    apply (plain_excludes raw); auto.
Qed.

Lemma token_grammar_witness :
  ∃ t, token_new "command_id" 96 "cmd-7.a" = Ok t ∧ token_str t = "cmd-7.a" ∧
    contains "/" "cmd-7.a" = false.
Proof.
  destruct (token_new "command_id" 96 "cmd-7.a") as [t|e] eqn:E.
  - exists t. destruct (token_grammar "command_id" 96 "cmd-7.a" t) as (H1 & _ & _ & H2 & _).
    + done.
    + exact E.
    + done.
  - exfalso. apply token_new_Err in E. vm_compute in E. discriminate E.
Defined.

(** ** Bounded vectors *)

Lemma bounded_visit_over {A} (d : decoder A) max room l x rest :
  length l = room →
  ∃ e, bounded_visit d max room (l ++ x :: rest)%list = Err e ∧
    ∀ x' rest', bounded_visit d max room (l ++ x' :: rest')%list = Err e.
Proof.
  revert l. induction room as [|room IH]; intros [|j l] Hl; try done.
  - cbn. eauto.
  - injection Hl as Hl. cbn. destruct (d j) as [a|e]; [|eauto].
    destruct (IH l Hl) as (e & -> & H). exists e. split; [done|]. intros. by rewrite H.
Qed.

(** An oversized vector is refused without looking past the bound: decoding a
    sequence longer than [max] fails, and the failure does not depend on the element
    after the last slot or on anything that follows it; what decodes has at most [max]
    items. *)
Theorem bounded_vec_stops_at_bound {A} (d : decoder A) max (l : list json) :
  0 ≤ max → length l = Z.to_nat max →
  (∃ e, ∀ x rest, bounded_deserialize d max (JSeq (l ++ x :: rest)%list) = Err e) ∧
  (∀ j v, bounded_deserialize d max j = Ok v → Z.of_nat (length (bv_items v)) ≤ max).
Proof.
  intros Hm Hl. split.
  - destruct (bounded_visit_over d max (Z.to_nat max) l JNull [] Hl) as (e & _ & H).
    exists e. intros x rest. unfold bounded_deserialize. by rewrite H.
  - intros j v _. pose proof (bv_valid _ _ v) as Hf. unfold fits in Hf. by apply Z.leb_le.
Qed.

Lemma bounded_vec_stops_at_bound_witness :
  ∃ e, ∀ x rest, bounded_deserialize de_u64 2 (JSeq ([JU64 1; JU64 2] ++ x :: rest)%list) = Err e.
Proof.
  destruct (bounded_vec_stops_at_bound de_u64 2 [JU64 1; JU64 2]) as [H _];
    [lia | reflexivity | exact H].
Defined.

(** ** The backend reference *)

Definition slot_filled {A} (s : option (option A)) : bool :=
  match s with Some (Some _) => true | _ => false end.

(** Whether the slot of a field holds a value. *)
Definition filled (f : BackendField) (acc : BackendAcc) : bool :=
  match f with
  | BfKind => slot_filled (ba_kind acc)
  | BfOriginalKind => slot_filled (ba_original_kind acc)
  | BfProtocolVersion => slot_filled (ba_protocol_version acc)
  | BfDriverVersion => slot_filled (ba_driver_version acc)
  | BfCloudRunId => slot_filled (ba_cloud_run_id acc)
  | BfUnknown => false
  end.

Lemma backend_put_keeps f acc v g :
  (ba_unsupported acc = true → ba_unsupported (backend_put f acc v) = true) ∧
  (filled g acc = true → filled g (backend_put f acc v) = true).
Proof.
  destruct acc as [k o p d r u], f; cbn; unfold slot_fill;
    (split; [intros ->; repeat case_mt; simplify_eq; done|]);
    destruct g; cbn; repeat case_mt; simplify_eq; done.
Qed.

Lemma backend_put_fills f acc v :
  ba_unsupported (backend_put f acc v) = false →
  filled f acc = false ∧ filled f (backend_put f acc v) = true.
Proof.
  destruct acc as [k o p d r u], f; cbn; unfold slot_fill; try done;
    repeat case_mt; simplify_eq; cbn; try done;
    match goal with |- context [lenient_string v] => destruct (lenient_string v)
                  | |- context [lenient_u32 v] => destruct (lenient_u32 v) end;
    cbn; rewrite ?orb_true_r; done.
Qed.

Lemma backend_loop_keeps es acc g :
  (ba_unsupported acc = true → ba_unsupported (backend_loop acc es) = true) ∧
  (filled g acc = true → filled g (backend_loop acc es) = true).
Proof.
  revert acc. induction es as [|[k v] es IH]; intros acc; [done|].
  change (backend_loop acc ((k, v) :: es)) with (backend_loop (backend_step acc (k, v)) es).
  destruct (IH (backend_step acc (k, v))) as [H1 H2].
  destruct (backend_put_keeps (backend_field k) acc v g) as [H3 H4]. unfold backend_step in *.
  cbn [fst snd] in *. auto.
Qed.

(** A supported shape fills one slot per entry, each once. *)
Lemma backend_loop_fills es acc :
  ba_unsupported (backend_loop acc es) = false →
  Forall (λ e : string * json, filled (backend_field e.1) acc = false ∧
    filled (backend_field e.1) (backend_loop acc es) = true) es ∧
  NoDup (backend_field <$> es.*1).
Proof.
  revert acc. induction es as [|[k v] es IH]; intros acc H; [split; constructor|].
  change (backend_loop acc ((k, v) :: es)) with (backend_loop (backend_step acc (k, v)) es) in *.
  set (acc' := backend_step acc (k, v)) in *.
  assert (ba_unsupported acc' = false) as Hu.
  { destruct (ba_unsupported acc') eqn:E; [|done].
    by rewrite (proj1 (backend_loop_keeps es acc' BfUnknown) E) in H. }
  destruct (backend_put_fills (backend_field k) acc v Hu) as [Hf Hf'].
  destruct (IH acc' H) as [HF Hnd]. split.
  - constructor; cbn [fst].
    + split; [done|]. apply backend_loop_keeps, Hf'.
    + eapply Forall_impl; [exact HF|]. intros [k' v'] [H1 H2]. cbn in *. split; [|done].
      destruct (filled (backend_field k') acc) eqn:E; [|done].
      assert (filled (backend_field k') acc' = true) by (by apply backend_put_keeps). congruence.
  - cbn. constructor; [|done]. intros Hin. rewrite <- list_fmap_compose in Hin.
    apply list_elem_of_fmap in Hin as ([k' v'] & E & Hin). cbn in E.
    rewrite Forall_forall in HF. apply HF in Hin as [Hin _]. cbn in Hin. rewrite <- E in Hin.
    assert (filled (backend_field k) acc' = true) by exact Hf'. congruence.
Qed.

Lemma backend_finish_legacy acc :
  backend_finish acc = LegacyEmbedded →
  mjoin (ba_kind acc) = Some "legacy_embedded" ∧ ba_unsupported acc = false ∧
  ∀ f, filled f acc = true → f = BfKind.
Proof.
  destruct acc as [k o p d r u]. unfold backend_finish.
  cbn [ba_kind ba_original_kind ba_protocol_version ba_driver_version ba_cloud_run_id
    ba_unsupported].
  destruct (mjoin k) as [kk|]; [|done]. destruct (decide (kk = "legacy_embedded")) as [->|].
  - case_if; [done|]. rewrite !orb_false_iff in *. destruct_and?. intros _.
    split_and!; try done. intros []; cbn; try done;
      repeat match goal with H : is_some (mjoin ?x) = false |- _ =>
        is_var x; destruct x as [[]|]; try done end.
  - intros H. exfalso. repeat case_mt; simplify_eq; done.
Qed.

Lemma backend_field_kind k : backend_field k = BfKind → k = "kind".
Proof. unfold backend_field. repeat case_decide; done. Qed.

(** Only the exact record [{"kind": "legacy_embedded"}] makes a run executable by
    this build: with an extra, repeated, misspelt or unreadable field, or in any other
    shape, the reference decodes to something inert. *)
Theorem only_exact_legacy_is_executable j :
  backend_is_executable (backend_deserialize j) = true ↔
  j = JMap [("kind", JStr "legacy_embedded")].
Proof.
  split; [|by intros ->].
  intros H. assert (backend_deserialize j = LegacyEmbedded) as E
    by (by destruct (backend_deserialize j)). clear H.
  destruct j as [| | | | | | |es]; try done. cbn [backend_deserialize] in E.
  apply backend_finish_legacy in E as (Hk & Hu & Hf).
  apply backend_loop_fills in Hu as [HF Hnd].
  assert (∀ e, e ∈ es → e.1 = "kind") as Hkeys.
  { intros e He. rewrite Forall_forall in HF. apply HF in He as [_ He].
    by apply backend_field_kind, Hf. }
  destruct es as [|[k v] es]; [done|].
  pose proof (Hkeys (k, v) ltac:(left)) as E. cbn in E. subst k.
  destruct es as [|[k' v'] es].
  - destruct v; try done. cbn in Hk. by injection Hk as ->.
  - exfalso. pose proof (Hkeys (k', v') ltac:(right; left)) as E. cbn in E. subst k'.
    cbn in Hnd. apply NoDup_cons in Hnd as [Hn _]. apply Hn. left.
Qed.

(** What a decoded reference guarantees. *)
Lemma lenient_u32_range j z : lenient_u32 j = Some z → in_u32 z.
Proof.
  unfold lenient_u32. destruct j; try done; case_if; intros [= <-];
    by apply in_range_true.
Qed.

Lemma backend_loop_version es acc :
  (∀ z, ba_protocol_version acc = Some (Some z) → in_u32 z) →
  ∀ z, ba_protocol_version (backend_loop acc es) = Some (Some z) → in_u32 z.
Proof.
  revert acc. induction es as [|[k v] es IH]; intros acc H; [done|].
  apply IH. unfold backend_step. cbn [fst snd]. destruct acc as [? ? p ? ? ?].
  destruct (backend_field k); cbn in *; unfold slot_fill; repeat case_mt; simplify_eq; cbn in *;
    try done; intros z [= E]; by eapply lenient_u32_range.
Qed.

Lemma backend_decoded_typed j : backend_typed (backend_deserialize j).
Proof.
  destruct j as [| | | | |s| |es]; try done. cbn [backend_deserialize].
  pose proof (backend_loop_version es backend_acc0 ltac:(done)) as Hv.
  destruct (backend_loop backend_acc0 es) as [k o p d r u]. cbn in Hv.
  unfold backend_finish. cbn [ba_kind ba_original_kind ba_protocol_version ba_driver_version
    ba_cloud_run_id ba_unsupported].
  assert (∀ a b c, backend_typed (unknown_from_parts a (mjoin p) b c)) as Hu.
  { intros a b c. cbn. destruct p as [[z|]|]; cbn; auto. }
  repeat case_mt; simplify_eq; try done; try apply Hu.
Qed.

(** A load/save cycle never changes a backend pin: encoding a reference and decoding
    it gives it back, and whatever was decoded, however damaged the source, is decoded
    again to itself from its own encoding. *)
Theorem backend_pin_survives_reload b j :
  (backend_typed b → backend_deserialize (backend_serialize b) = b) ∧
  backend_deserialize (backend_serialize (backend_deserialize j)) = backend_deserialize j.
Proof.
  split; [apply backend_decode_encode|]. apply backend_decode_encode, backend_decoded_typed.
Qed.

(** ** Progress *)

(** Progress survives a load/save cycle with its marker, a damaged record can never
    be laundered into a clean one, and a clean result means every key was known and
    appeared once. *)
Theorem progress_fails_closed p j es :
  progress_deserialize (progress_serialize p) = p ∧
  is_malformed (progress_deserialize (progress_serialize (progress_deserialize j)))
  = is_malformed (progress_deserialize j) ∧
  (is_malformed (progress_deserialize (JMap es)) = false →
     NoDup (progress_field <$> es.*1) ∧ PfUnknown ∉ (progress_field <$> es.*1)) ∧
  (∀ k v, is_malformed (progress_deserialize (JMap es)) = true →
     is_malformed (progress_deserialize (JMap (es ++ [(k, v)])%list)) = true).
Proof.
  split; [apply progress_decode_encode|]. split; [by rewrite progress_decode_encode|]. split.
  - unfold is_malformed. cbn [progress_deserialize]. intros H.
    apply progress_loop_clean in H as [HF Hnd]. split; [done|].
    rewrite <- list_fmap_compose. intros (e & E & Hin)%list_elem_of_fmap.
    rewrite Forall_forall in HF. apply HF in Hin as [Hin _]. by apply Hin.
  - unfold is_malformed. cbn [progress_deserialize]. intros k v H. unfold progress_loop in *.
    rewrite fold_left_app. cbn [fold_left]. by apply progress_step_malformed.
Qed.

(** ** Commands and events *)

Lemma required_present {A} k (d : decoder A) es a : required k d es = Ok a → k ∈ es.*1.
Proof.
  unfold required. destruct (entry k es) eqn:E; [|done]. intros _.
  apply list_elem_of_fmap. exists (k, j). split; [done|]. by apply entry_elem.
Qed.

(** An accepted command has the kind its map names. *)
Lemma command_build_kind kd es c : command_build kd es = Ok c → kind_of_command c = kd.
Proof. destruct kd; cbn; intros H; repeat case_mt; simplify_eq; done. Qed.

(** The keys a built command requires are there. *)
Lemma command_build_keys kd es c k :
  command_build kd es = Ok c → command_field_allowed_for_kind kd k = true → k ∈ es.*1.
Proof.
  unfold command_field_allowed_for_kind. rewrite bool_decide_eq_true.
  destruct kd; cbn [command_build]; intros H Hk; rewrite ?elem_of_cons, ?elem_of_nil in Hk;
    repeat match type of H with
    | context [required ?k ?d es] => destruct (required k d es) eqn:?; [|done]
    end;
    repeat match goal with
    | Hr : required _ _ es = Ok _ |- _ => apply required_present in Hr
    end; naive_solver.
Qed.

Lemma command_visit_iff es c :
  command_deserialize (JMap es) = Ok c ↔
  NoDup es.*1 ∧ "kind" ∈ es.*1 ∧ ∃ kd,
    Forall (entry_of_kind command_kind_deserialize command_fields
      command_field_allowed_for_kind kd) es ∧ command_build kd es = Ok c.
Proof.
  apply tagged_visit_iff; [apply command_rejects_exact | apply command_rejects_known].
Qed.

Lemma event_visit_iff es e :
  event_deserialize (JMap es) = Ok e ↔
  NoDup es.*1 ∧ "kind" ∈ es.*1 ∧ ∃ kd,
    Forall (entry_of_kind event_kind_deserialize event_fields event_field_allowed_for_kind kd) es
    ∧ event_build kd es = Ok e.
Proof. apply tagged_visit_iff; [apply event_rejects_exact | apply event_rejects_known]. Qed.

Lemma command_entries_keys c k :
  k ∈ (command_entries c).*1 ↔
  k = "kind" ∨ command_field_allowed_for_kind (kind_of_command c) k = true.
Proof.
  unfold command_field_allowed_for_kind. rewrite bool_decide_eq_true.
  destruct c; cbn; rewrite ?elem_of_cons, ?elem_of_nil; naive_solver.
Qed.

(** The command decoder accepts exactly the closed set: an accepted object has
    precisely the keys the command's own encoding has, each once; the order of the keys
    does not matter; and every command the relay can build is read back from its
    encoding. *)
Theorem command_decoder_is_closed es c :
  command_deserialize (JMap es) = Ok c →
  es.*1 ≡ₚ (command_entries c).*1 ∧
  (∀ es', es ≡ₚ es' → command_deserialize (JMap es') = Ok c) ∧
  (command_typed c → command_deserialize (command_serialize c) = Ok c).
Proof.
  intros H. split_and!; [| |apply command_decode_encode].
  - apply command_visit_iff in H as (Hnd & Hk & kd & HF & Hb).
    pose proof (command_build_kind _ _ _ Hb) as <-.
    apply NoDup_Permutation; [done | by destruct c; struct_nodup|]. intros k.
    rewrite command_entries_keys. split.
    + intros (e & -> & He)%list_elem_of_fmap. rewrite Forall_forall in HF. apply HF in He.
      unfold entry_of_kind in He. destruct (decide (e.1 = "kind")); [by left|].
      right. by destruct He.
    + intros [->|Ha]; [done|]. by eapply command_build_keys.
  - intros es' Hp. unfold command_deserialize, tagged_deserialize in *.
    eapply tagged_visit_perm; [apply command_rejects_exact | apply command_rejects_known
      | apply command_build_entries | exact Hp | exact H].
Qed.

Lemma command_decoder_is_closed_witness :
  command_deserialize (JMap [("role", JStr "dev"); ("kind", JStr "start_thread")])
  = Ok (StartThread DrvDev).
Proof.
  destruct (command_decoder_is_closed [("kind", JStr "start_thread"); ("role", JStr "dev")]
    (StartThread DrvDev)) as (_ & H & _); [reflexivity|].
  apply H. apply perm_swap.
Defined.

(** The event decoder is closed the same way: fields outside the event's kind are
    refused wherever they appear, key order does not matter, and every event is read
    back from its encoding, a missing artifact and a null one alike. *)
Theorem event_decoder_is_closed es e :
  event_deserialize (JMap es) = Ok e →
  NoDup es.*1 ∧
  (∀ k, k ∈ es.*1 → k = "kind" ∨ event_field_allowed_for_kind (kind_of_event e) k = true) ∧
  (∀ es', es ≡ₚ es' → event_deserialize (JMap es') = Ok e) ∧
  (event_typed e → event_deserialize (event_serialize e) = Ok e).
Proof.
  intros H. split_and!; [| | |apply event_decode_encode].
  - by apply event_visit_iff in H as (Hnd & _).
  - apply event_visit_iff in H as (_ & _ & kd & HF & Hb).
    assert (kind_of_event e = kd) as ->.
    { destruct kd; cbn in Hb; repeat case_mt; simplify_eq; done. }
    intros k (x & -> & Hx)%list_elem_of_fmap. rewrite Forall_forall in HF. apply HF in Hx.
    unfold entry_of_kind in Hx. destruct (decide (x.1 = "kind")); [by left|]. right. by destruct Hx.
  - intros es' Hp. unfold event_deserialize, tagged_deserialize in *.
    eapply tagged_visit_perm; [apply event_rejects_exact | apply event_rejects_known
      | apply event_build_entries | exact Hp | exact H].
Qed.

Lemma event_decoder_is_closed_witness :
  event_deserialize (JMap [("status", JStr "done"); ("kind", JStr "run_settled")])
  = Ok (RunSettled DrDone).
Proof.
  destruct (event_decoder_is_closed [("kind", JStr "run_settled"); ("status", JStr "done")]
    (RunSettled DrDone)) as (_ & _ & H & _); [reflexivity|].
  apply H. apply perm_swap.
Defined.

(** Both envelopes round-trip: a command or event envelope with a protocol version
    this build speaks is read back unchanged from its own encoding. *)
Theorem envelopes_round_trip ce ee :
  (command_envelope_typed ce →
     command_envelope_deserialize (command_envelope_serialize ce) = Ok ce) ∧
  (event_envelope_typed ee →
     event_envelope_deserialize (event_envelope_serialize ee) = Ok ee).
Proof. split; [apply command_envelope_decode_encode | apply event_envelope_decode_encode]. Qed.

(** ** The cursor *)

(** The widths a [TeamRun]'s Rust type guarantees for the fields a cursor copies. *)
Definition run_typed (r : TeamRun) : Prop :=
  in_u64 (dp_state_revision (tr_driver_progress r)) ∧
  in_u64 (dp_last_command_seq (tr_driver_progress r)) ∧
  in_u64 (dp_last_event_seq (tr_driver_progress r)) ∧
  (∀ t, t ∈ tr_sub_tasks r → in_u32 (st_rounds_used t)) ∧
  in_u32 (tr_max_review_rounds r) ∧ in_u32 (tr_design_review_rounds r) ∧
  in_u32 (tr_mr_rounds_used r).

Lemma bounded_usize_u32 n : in_u32 (bounded_usize_to_u32 n).
Proof. unfold in_u32, bounded_usize_to_u32, u32_max. lia. Qed.

Lemma supported_version_valid b v :
  supported_protocol_version b = Some v → version_supported v = true.
Proof. destruct b; cbn; intros [= <-]; [done | apply version_valid..]. Qed.

(** A cursor is only made for a run whose backend is understood and whose progress
    is intact; when it is made, the peer's decoder reads it back unchanged, its sub-task
    index never passes the count, and the status and phase are the run's own. *)
Theorem cursor_fails_closed_and_round_trips r arts :
  run_typed r → Forall artifact_ref_typed arts →
  (is_malformed (tr_driver_progress r) = true →
     cursor_from_team_run r arts = Err MalformedDriverProgress) ∧
  (is_malformed (tr_driver_progress r) = false →
     backend_kind (tr_orchestration_backend r) = KindUnknownNonExecuting →
     cursor_from_team_run r arts = Err UnknownBackend) ∧
  (∀ c, cursor_from_team_run r arts = Ok c →
     cursor_deserialize (cursor_serialize c) = Ok c ∧
     dc_current_sub_task_index c ≤ dc_sub_task_count c ∧
     enum_name (dc_status c) = status_as_str (tr_status r) ∧
     enum_name (dc_phase c) = phase_as_str (tr_phase r)).
Proof.
  intros (H1 & H2 & H3 & Hr & H4 & H5 & H6) Ha. unfold cursor_from_team_run. split_and!.
  - by intros ->.
  - intros -> Hb. by destruct (tr_orchestration_backend r).
  - intros c Hc. destruct (is_malformed _); [done|].
    destruct (supported_protocol_version _) as [v|] eqn:Ev; [|done]. cbn [ok_or] in Hc.
    pose proof (bounded_new_spec MAX_CURSOR_ARTIFACTS "artifacts" arts) as Hn.
    destruct (bounded_new _ _ _) as [bv|]; [|done]. injection Hc as <-. split_and!.
    + apply cursor_decode_encode. unfold cursor_typed.
      cbn [dc_protocol_version dc_state_revision dc_last_command_seq dc_last_event_seq
        dc_current_sub_task_index dc_sub_task_count dc_current_rounds_used dc_max_review_rounds
        dc_design_review_rounds dc_mr_rounds_used dc_tl_generation dc_artifacts].
      split_and!; eauto using bounded_usize_u32, supported_version_valid.
      * destruct (current_sub_task r ≫= _) as [t|] eqn:Et; cbn; [|by unfold in_u32, u32_max].
        apply bind_Some in Et as (i & _ & Et). eapply Hr, list_elem_of_lookup_2, Et.
      * by rewrite Hn.
    + cbn. destruct (current_sub_task r) as [i|] eqn:Ei; cbn; [|lia].
      unfold bounded_usize_to_u32. enough (i < length (tr_sub_tasks r))%nat by lia.
      by apply position_lt in Ei.
    + cbn. by destruct (tr_status r).
    + cbn. by destruct (tr_phase r).
Qed.

Lemma cursor_fails_closed_and_round_trips_witness :
  is_ok (cursor_from_team_run (TeamRun_new 5 "run" TaskSpec_default "/w" "phone") []) = true ∧
  ∀ c, cursor_from_team_run (TeamRun_new 5 "run" TaskSpec_default "/w" "phone") [] = Ok c →
    cursor_deserialize (cursor_serialize c) = Ok c.
Proof.
  destruct (cursor_fails_closed_and_round_trips
    (TeamRun_new 5 "run" TaskSpec_default "/w" "phone") []) as (_ & _ & H).
  - unfold run_typed, in_u64, in_u32, u64_max, u32_max. cbn.
    unfold MAX_SUBTASK_REVIEW_ROUNDS.
    split_and!; try lia. by intros t ?%not_elem_of_nil.
  - constructor.
  - split; [reflexivity|]. intros c Hc. exact (proj1 (H c Hc)).
Defined.
