(* ===== verification/BrokerState.v ===== *)
(** * Broker rooms (crates/relay-broker/src/state.rs, protocol.rs)

    The rendezvous state of the broker: rooms of peers, each peer with a mailbox.
    A mailbox is an unbounded channel whose sending half sits in the room and whose
    receiving half belongs to the connection, so mailboxes live in a store of their
    own and a seat names its mailbox; sending to a mailbox whose receiver is gone
    drops the message, as [UnboundedSender::send] does.  The mutex makes each
    operation atomic.  [HashMap] iteration order is whatever [map_to_list] gives;
    no theorem depends on it.  Log lines and the counters they print are left out. *)

From Stdlib Require Import ZArith Lia.
From S2P Require Import Prelude RustStr Json.

Open Scope string_scope.
Open Scope Z_scope.

(** ** Vocabulary (protocol.rs) *)
Inductive PeerRole : Type := PeerRelay | PeerSurface.
#[export] Instance PeerRole_eq_dec : EqDecision PeerRole.
Proof. solve_decision. Defined.
#[export] Program Instance PeerRole_enum : UnitEnum PeerRole := {|
  enum_name r := match r with PeerRelay => "relay" | PeerSurface => "surface" end;
  enum_all := [PeerRelay; PeerSurface] |}.
Next Obligation. unit_enum. Qed.
Next Obligation. unit_enum. Qed.

Record PeerSummary : Type := MkPeerSummary {
  ps_peer_id : string;
  ps_role : PeerRole;
  ps_device_id : option string
}.

Inductive PresenceKind : Type := PresenceJoined | PresenceLeft.

Inductive ServerMessage : Type :=
| SmWelcome (protocol_version : Z) (channel_id peer_id : string) (peers : list PeerSummary)
| SmPresence (channel_id : string) (kind : PresenceKind) (peer : PeerSummary)
| SmMessage (channel_id from_peer_id : string) (from_role : PeerRole) (payload : json)
| SmError (code message : string).

(** ** State *)
Record PeerHandle : Type := MkPeerHandle {
  ph_connection_id : Z;
  ph_role : PeerRole;
  ph_device_id : option string;
  ph_pairing_id : option string;
  ph_tx : nat
}.

Notation RoomState := (gmap string PeerHandle).

(** A mailbox: whether its receiver is alive, and what was sent, oldest first. *)
Record Mailbox : Type := MkMailbox { mb_open : bool; mb_messages : list ServerMessage }.

Inductive UsageEventKind : Type := UeConnect | UeDisconnect | UePublish.

Record UsageEvent : Type := MkUsageEvent {
  ue_event : UsageEventKind;
  ue_channel_id : string;
  ue_peer_id : string;
  ue_role : PeerRole;
  ue_device_id : option string;
  ue_payload_kind : option string
}.

Record BrokerState : Type := MkBroker {
  br_rooms : gmap string RoomState;
  br_next_connection_id : Z;
  br_mailboxes : gmap nat Mailbox;
  br_next_mailbox : nat;
  br_events : option (list UsageEvent)
}.
#[export] Instance BrokerState_expand : Expand BrokerState := λ b,
  MkBroker (br_rooms b) (br_next_connection_id b) (br_mailboxes b) (br_next_mailbox b) (br_events b).

(** [BrokerState::default] and [with_event_sink]. *)
Definition broker_init (sink : bool) : BrokerState :=
  MkBroker ∅ 0 ∅ 0 (if sink then Some [] else None).

Definition record_event (e : UsageEvent) (b : BrokerState) : BrokerState :=
  b <| br_events ::= fmap (λ l, (l ++ [e])%list) |>.

(** ** Mailboxes *)
Definition mb_push (ms : list ServerMessage) (m : Mailbox) : Mailbox :=
  if mb_open m then MkMailbox true (mb_messages m ++ ms)%list else m.

(** What a step sends: mailbox and message, in order. *)
Definition Outbox : Type := list (nat * ServerMessage).

Definition send_list (ob : Outbox) (boxes : gmap nat Mailbox) : gmap nat Mailbox :=
  foldl (λ boxes o, alter (mb_push [o.2]) o.1 boxes) boxes ob.

Definition send (ob : Outbox) (b : BrokerState) : BrokerState :=
  b <| br_mailboxes ::= send_list ob |>.

(** The receiving half is dropped: the connection task ended. *)
Definition drop_receiver (rx : nat) (b : BrokerState) : BrokerState :=
  b <| br_mailboxes ::= alter (λ m, MkMailbox false (mb_messages m)) rx |>.

(** ** Errors *)
Inductive BrokerError : Type :=
| AlreadyConnected (peer_id channel_id : string)
| ChannelNotActive (channel_id : string)
| NotConnected (peer_id channel_id : string)
| ConnectionReplaced (peer_id channel_id : string)
| InvalidTargeted (e : de_error)
| EmptyTarget
| RefusedBroadcast (payload_kind : string).

(** ** Joining *)
Record JoinResult : Type := MkJoinResult {
  jr_connection_id : Z;
  jr_existing_peers : list PeerSummary;
  jr_receiver : nat
}.

Definition summary (peer_id : string) (h : PeerHandle) : PeerSummary :=
  MkPeerSummary peer_id (ph_role h) (ph_device_id h).

Definition event_of (kind : UsageEventKind) (channel_id peer_id : string) (h : PeerHandle) :
    UsageEvent :=
  MkUsageEvent kind channel_id peer_id (ph_role h) (ph_device_id h) None.

(** One message to every peer of a room. *)
Definition to_all (room : RoomState) (m : ServerMessage) : Outbox :=
  map (λ '(_, h), (ph_tx h, m)) (map_to_list room).

(** The peers a join on the same pairing ticket supersedes. *)
Definition superseded_peers (peer_id : string) (pairing_id : option string) (room : RoomState) :
    list string :=
  match pairing_id with
  | None => []
  | Some p =>
      omap (λ '(existing, h),
        if bool_decide (existing ≠ peer_id ∧ ph_pairing_id h = Some p) then Some existing else None)
        (map_to_list room)
  end.

(** One iteration of the eviction loop, on the room, what is sent and what is
    recorded. *)
Definition evict (channel_id : string) (st : RoomState * Outbox * list UsageEvent)
    (victim : string) : RoomState * Outbox * list UsageEvent :=
  let '(room, ob, evs) := st in
  match room !! victim with
  | None => st
  | Some handle =>
      let room := delete victim room in
      (room,
       (ob ++ [(ph_tx handle, SmError "pairing_ticket_superseded"
                  "another client joined with this pairing ticket")]
           ++ to_all room (SmPresence channel_id PresenceLeft (summary victim handle)))%list,
       (evs ++ [event_of UeDisconnect channel_id victim handle])%list)
  end.

(** [inner.next_connection_id.wrapping_add(1).max(1)]. *)
Definition bump_connection_id (n : Z) : Z := Z.max (u64_add n 1) 1.

(** The events of a relay's replaced connection. *)
Definition replaced_events (channel_id peer_id : string) (existing : option PeerHandle) :
    list UsageEvent :=
  match existing with Some h => [event_of UeDisconnect channel_id peer_id h] | None => [] end.

Definition record_events (evs : list UsageEvent) (b : BrokerState) : BrokerState :=
  foldl (λ b e, record_event e b) b evs.

Definition join (channel_id peer_id : string) (role : PeerRole)
    (device_id pairing_id : option string) (b : BrokerState) :
    BrokerState * result JoinResult BrokerError :=
  let joined_peer := MkPeerSummary peer_id role device_id in
  let connection_id := bump_connection_id (br_next_connection_id b) in
  let b := b <| br_next_connection_id := connection_id |> in
  let room := default ∅ (br_rooms b !! channel_id) in
  let existing := room !! peer_id in
  if match existing with
     | Some h => bool_decide (ph_role h = PeerRelay ∧ role = PeerRelay)
     | None => true
     end
  then
    let '(room, ob, evs) :=
      foldl (evict channel_id) (room, [], replaced_events channel_id peer_id existing)
        (superseded_peers peer_id pairing_id room) in
    let others := delete peer_id room in
    let existing_peers := map (λ '(id, h), summary id h) (map_to_list others) in
    let ob := (ob ++ to_all others (SmPresence channel_id PresenceJoined joined_peer))%list in
    let tx := br_next_mailbox b in
    let handle := MkPeerHandle connection_id role device_id pairing_id tx in
    let b := b <| br_mailboxes ::= λ m, <[tx := MkMailbox true []]> (send_list ob m) |>
               <| br_next_mailbox := S tx |>
               <| br_rooms ::= <[channel_id := <[peer_id := handle]> room]> |> in
    let b := record_events
               (evs ++ [MkUsageEvent UeConnect channel_id peer_id role device_id None])%list b in
    (b, Ok (MkJoinResult connection_id existing_peers tx))
  else (b, Err (AlreadyConnected peer_id channel_id)).

(** ** Leaving *)
Definition leave_inner (channel_id peer_id : string) (expected : option Z) (b : BrokerState) :
    BrokerState :=
  match br_rooms b !! channel_id with
  | None => b
  | Some room =>
      match room !! peer_id with
      | None => b
      | Some handle =>
          if match expected with
             | Some id => bool_decide (ph_connection_id handle = id)
             | None => true
             end
          then
            let room := delete peer_id room in
            let b := send (to_all room (SmPresence channel_id PresenceLeft (summary peer_id handle))) b in
            let b := record_event (event_of UeDisconnect channel_id peer_id handle) b in
            if bool_decide (room = ∅) then b <| br_rooms ::= delete channel_id |>
            else b <| br_rooms ::= <[channel_id := room]> |>
          else b
      end
  end.

Definition leave (channel_id peer_id : string) : BrokerState → BrokerState :=
  leave_inner channel_id peer_id None.
Definition leave_connection (channel_id peer_id : string) (connection_id : Z) :
    BrokerState → BrokerState :=
  leave_inner channel_id peer_id (Some connection_id).

(** ** Publishing *)

(** [payload.get("kind").and_then(Value::as_str)]: objects only, strings only. *)
Definition kind_str (payload : json) : option string :=
  match payload with
  | JMap es => match entry "kind" es with Some (JStr s) => Some s | _ => None end
  | _ => None
  end.

Definition is_targeted_messages_payload (payload : json) : bool :=
  bool_decide (kind_str payload = Some "targeted_messages").

Definition must_not_be_broadcast (payload_kind : string) : bool :=
  bool_decide (payload_kind = "encrypted_pairing_result").

Definition payload_kind (payload : json) : string := default "-" (kind_str payload).

Record TargetedMessagePayload : Type := MkTargeted {
  tm_target_peer_id : string;
  tm_payload : json
}.

(** [serde_json::Value] takes any value. *)
Definition de_value : decoder json := λ j, Ok j.

Definition targeted_message_deserialize : decoder TargetedMessagePayload := λ j,
  let? es := derived_struct false
    [("target_peer_id", checks de_string); ("payload", checks de_value)] j in
  let? target_peer_id := required "target_peer_id" de_string es in
  let? payload := required "payload" de_value es in
  Ok (MkTargeted target_peer_id payload).

Definition de_vec {A} (d : decoder A) : decoder (list A) := λ j,
  match j with JSeq l => de_list d l | _ => Err InvalidType end.

Definition targeted_messages_deserialize : decoder (list TargetedMessagePayload) := λ j,
  let? es := derived_struct false [("messages", checks (de_vec targeted_message_deserialize))] j in
  required "messages" (de_vec targeted_message_deserialize) es.

Definition parse_targeted_messages_payload (payload : json) :
    result (list TargetedMessagePayload) BrokerError :=
  match targeted_messages_deserialize payload with
  | Err e => Err (InvalidTargeted e)
  | Ok messages =>
      if existsb (λ m, is_empty (tm_target_peer_id m)) messages then Err EmptyTarget
      else Ok messages
  end.

(** The loop over targeted messages: the sender and missing peers are skipped. *)
Definition targeted_outbox (channel_id from : string) (role : PeerRole) (room : RoomState)
    (messages : list TargetedMessagePayload) : Outbox :=
  omap (λ m,
    if decide (tm_target_peer_id m = from) then None
    else h ← room !! tm_target_peer_id m;
         Some (ph_tx h, SmMessage channel_id from role (tm_payload m))) messages.

Definition publish_inner (channel_id from : string) (expected : option Z) (payload : json)
    (b : BrokerState) : BrokerState * result () BrokerError :=
  match br_rooms b !! channel_id with
  | None => (b, Err (ChannelNotActive channel_id))
  | Some room =>
      match room !! from with
      | None => (b, Err (NotConnected from channel_id))
      | Some sender =>
          if match expected with
             | Some id => negb (bool_decide (ph_connection_id sender = id))
             | None => false
             end
          then (b, Err (ConnectionReplaced from channel_id))
          else
            let role := ph_role sender in
            let kind := payload_kind payload in
            let event := MkUsageEvent UePublish channel_id from role (ph_device_id sender)
                           (Some kind) in
            if is_targeted_messages_payload payload then
              match parse_targeted_messages_payload payload with
              | Err e => (b, Err e)
              | Ok messages =>
                  (send (targeted_outbox channel_id from role room messages)
                     (record_event event b), Ok ())
              end
            else if must_not_be_broadcast kind then (b, Err (RefusedBroadcast kind))
            else (send (to_all (delete from room) (SmMessage channel_id from role payload))
                    (record_event event b), Ok ())
      end
  end.

Definition publish (channel_id from : string) (payload : json) :=
  publish_inner channel_id from None payload.
Definition publish_connection (channel_id from : string) (connection_id : Z) (payload : json) :=
  publish_inner channel_id from (Some connection_id) payload.
