(* ===== verification/BrokerTheorems.v ===== *)
(** * Broker rooms: theorems

    Well-formed rooms stay well-formed, a replaced connection can neither leave nor
    publish for its successor, one pairing ticket holds one seat, and a message goes
    to the peers of its room it was meant for and to nobody else. *)

From Stdlib Require Import ZArith Lia.
From S2P Require Import Prelude RustStr Json BrokerState.

Open Scope string_scope.
Open Scope Z_scope.

(** ** Mailboxes *)

Definition sent_to (c : nat) (ob : Outbox) : list ServerMessage :=
  omap (λ o : nat * ServerMessage, if decide (o.1 = c) then Some o.2 else None) ob.

Lemma mb_push_nil m : mb_push [] m = m.
Proof. destruct m as [[] ms]; unfold mb_push; cbn; [by rewrite app_nil_r | done]. Qed.

Lemma mb_push_app ms ms' m : mb_push ms' (mb_push ms m) = mb_push (ms ++ ms')%list m.
Proof. destruct m as [[] l]; unfold mb_push; cbn; [by rewrite app_assoc | done]. Qed.

(** What a mailbox holds after a step's sends. *)
Lemma send_list_lookup ob boxes c :
  send_list ob boxes !! c = mb_push (sent_to c ob) <$> boxes !! c.
Proof.
  revert boxes. induction ob as [|[t m] ob IH]; intros boxes.
  - cbn. destruct (boxes !! c); cbn; [by rewrite mb_push_nil | done].
  - change (send_list ((t, m) :: ob) boxes) with (send_list ob (alter (mb_push [m]) t boxes)).
    rewrite IH. unfold sent_to. cbn [omap list_omap fst snd].
    destruct (decide (t = c)) as [->|Hne].
    + rewrite lookup_alter_eq. destruct (boxes !! c); cbn; [by rewrite mb_push_app | done].
    + by rewrite lookup_alter_ne.
Qed.

Lemma sent_to_elem c ob m : m ∈ sent_to c ob ↔ (c, m) ∈ ob.
Proof.
  unfold sent_to. rewrite list_elem_of_omap. split.
  - intros ([t m'] & Hin & E). cbn in E. destruct (decide (t = c)); simplify_eq. done.
  - intros H. exists (c, m). cbn. by rewrite decide_True.
Qed.

Lemma to_all_elem room m c x :
  (c, x) ∈ to_all room m ↔ x = m ∧ ∃ pid h, room !! pid = Some h ∧ ph_tx h = c.
Proof.
  unfold to_all. rewrite list_elem_of_fmap. split.
  - intros ([pid h] & [= -> ->] & Hin). apply elem_of_map_to_list in Hin. eauto.
  - intros (-> & pid & h & Hl & <-). exists (pid, h). split; [done|]. by apply elem_of_map_to_list.
Qed.

Lemma targeted_outbox_elem ch from role room msgs c x :
  (c, x) ∈ targeted_outbox ch from role room msgs →
  ∃ pid h p, room !! pid = Some h ∧ ph_tx h = c ∧ pid ≠ from ∧ x = SmMessage ch from role p ∧
    MkTargeted pid p ∈ msgs.
Proof.
  unfold targeted_outbox. rewrite list_elem_of_omap. intros ([t p] & Hin & E). cbn in E.
  destruct (decide (t = from)); [done|]. apply bind_Some in E as (h & Hl & [= <- <-]).
  exists t, h, p. auto.
Qed.

(** ** Seats *)

Definition seat (b : BrokerState) (ch pid : string) (h : PeerHandle) : Prop :=
  ∃ room, br_rooms b !! ch = Some room ∧ room !! pid = Some h.

Record broker_wf (b : BrokerState) : Prop := {
  wf_nonempty : ∀ ch room, br_rooms b !! ch = Some room → room ≠ ∅;
  wf_tx : ∀ ch pid h, seat b ch pid h → (ph_tx h < br_next_mailbox b)%nat;
  wf_tx_inj : ∀ ch pid h ch' pid' h', seat b ch pid h → seat b ch' pid' h' →
    ph_tx h = ph_tx h' → ch = ch' ∧ pid = pid';
  wf_pairing : ∀ ch pid pid' h h' p, seat b ch pid h → seat b ch pid' h' →
    ph_pairing_id h = Some p → ph_pairing_id h' = Some p → pid = pid';
  wf_conn : ∀ ch pid h, seat b ch pid h → 1 ≤ ph_connection_id h ≤ br_next_connection_id b;
  wf_conn_inj : ∀ ch pid h ch' pid' h', seat b ch pid h → seat b ch' pid' h' →
    ph_connection_id h = ph_connection_id h' → ch = ch' ∧ pid = pid';
  wf_next : 0 ≤ br_next_connection_id b
}.

Lemma record_events_frame evs b :
  br_rooms (record_events evs b) = br_rooms b ∧
  br_next_connection_id (record_events evs b) = br_next_connection_id b ∧
  br_mailboxes (record_events evs b) = br_mailboxes b ∧
  br_next_mailbox (record_events evs b) = br_next_mailbox b.
Proof.
  revert b. induction evs as [|e evs IH]; intros b; [done|].
  change (record_events (e :: evs) b) with (record_events evs (record_event e b)).
  destruct (IH (record_event e b)) as (-> & -> & -> & ->). by destruct b.
Qed.

Lemma superseded_elem peer p room pid :
  pid ∈ superseded_peers peer (Some p) room ↔
  pid ≠ peer ∧ ∃ h, room !! pid = Some h ∧ ph_pairing_id h = Some p.
Proof.
  unfold superseded_peers. rewrite list_elem_of_omap. split.
  - intros ([pid' h] & Hin & E). case_bool_decide; simplify_eq.
    apply elem_of_map_to_list in Hin. naive_solver.
  - intros (Hne & h & Hl & Hp). exists (pid, h).
    split; [by apply elem_of_map_to_list|]. by rewrite bool_decide_eq_true_2.
Qed.

Lemma evict_room ch victims room ob evs pid :
  (foldl (evict ch) (room, ob, evs) victims).1.1 !! pid
  = if bool_decide (pid ∈ victims) then None else room !! pid.
Proof.
  revert room ob evs. induction victims as [|v vs IH]; intros room ob evs; [done|].
  cbn [foldl]. unfold evict at 2. destruct (room !! v) as [h|] eqn:Ev; rewrite IH.
  - destruct (decide (pid = v)) as [->|Hne].
    + rewrite lookup_delete_eq. rewrite (bool_decide_eq_true_2 (v ∈ v :: vs)) by left.
      by destruct (bool_decide _).
    + rewrite lookup_delete_ne by done.
      rewrite (bool_decide_ext (pid ∈ v :: vs) (pid ∈ vs)); [done|]. set_solver.
  - destruct (decide (pid = v)) as [->|Hne].
    + rewrite Ev. rewrite (bool_decide_eq_true_2 (v ∈ v :: vs)) by left. by destruct (bool_decide _).
    + rewrite (bool_decide_ext (pid ∈ v :: vs) (pid ∈ vs)); [done|]. set_solver.
Qed.

(** The room a join leaves behind, and the handle it seats. *)
Lemma join_Ok ch peer role dev pair b b' r :
  join ch peer role dev pair b = (b', Ok r) →
  let room := default ∅ (br_rooms b !! ch) in
  let room' := (foldl (evict ch) (room, [], replaced_events ch peer (room !! peer))
                  (superseded_peers peer pair room)).1.1 in
  let id := bump_connection_id (br_next_connection_id b) in
  br_rooms b' = <[ch := <[peer := MkPeerHandle id role dev pair (br_next_mailbox b)]> room']>
                  (br_rooms b) ∧
  br_next_connection_id b' = id ∧ br_next_mailbox b' = S (br_next_mailbox b) ∧
  jr_connection_id r = id ∧ jr_receiver r = br_next_mailbox b.
Proof.
  destruct b as [rooms next boxes nm evs]. unfold join. cbn zeta. unfold set_field.
  cbn [br_rooms br_next_connection_id br_mailboxes br_next_mailbox br_events].
  case_if; [|by intros [= <- <-]].
  destruct (foldl _ _ _) as [[room' ob] evs'] eqn:Ef. intros [= <- <-]. cbn [fst].
  match goal with |- context [record_events ?e ?x] =>
    destruct (record_events_frame e x) as (-> & -> & _ & ->) end. done.
Qed.

(** Who is seated after a join. *)
Lemma join_seat ch peer role dev pair b b' r ch' pid h :
  join ch peer role dev pair b = (b', Ok r) →
  seat b' ch' pid h ↔
  (ch' = ch ∧ pid = peer ∧
     h = MkPeerHandle (bump_connection_id (br_next_connection_id b)) role dev pair
           (br_next_mailbox b)) ∨
  ((ch' ≠ ch ∨ pid ≠ peer) ∧ seat b ch' pid h ∧
     ¬ (ch' = ch ∧ is_Some pair ∧ ph_pairing_id h = pair)).
Proof.
  intros (Hr & _)%join_Ok. unfold seat. rewrite Hr. clear Hr. cbn zeta.
  destruct (decide (ch' = ch)) as [->|Hne].
  2: { rewrite lookup_insert_ne by done. naive_solver. }
  rewrite lookup_insert_eq. set (room := default ∅ (br_rooms b !! ch)).
  set (room' := (foldl _ _ _).1.1).
  transitivity (<[peer := MkPeerHandle (bump_connection_id (br_next_connection_id b)) role dev
    pair (br_next_mailbox b)]> room' !! pid = Some h); [naive_solver|].
  destruct (decide (pid = peer)) as [->|Hp]; [rewrite lookup_insert_eq; naive_solver|].
  rewrite lookup_insert_ne by done. subst room'. rewrite evict_room.
  assert ((∃ r0, br_rooms b !! ch = Some r0 ∧ r0 !! pid = Some h) ↔ room !! pid = Some h) as Hs.
  { subst room. destruct (br_rooms b !! ch); cbn; [naive_solver|]. rewrite lookup_empty. naive_solver. }
  rewrite Hs. destruct pair as [p|].
  - case_bool_decide as Hin; rewrite superseded_elem in Hin; naive_solver.
  - rewrite bool_decide_eq_false_2 by apply not_elem_of_nil. naive_solver.
Qed.

Lemma bump_small n : 0 ≤ n → n < u64_max → bump_connection_id n = n + 1.
Proof. intros H1 H2. unfold bump_connection_id. rewrite u64_add_small by lia. lia. Qed.

Lemma join_Err ch peer role dev pair b b' e :
  join ch peer role dev pair b = (b', Err e) →
  b' = b <| br_next_connection_id := bump_connection_id (br_next_connection_id b) |>.
Proof.
  unfold join. case_if; [|by intros [= <- <-]].
  destruct (foldl _ _ _) as [[room' ob] evs']. done.
Qed.

Lemma join_wf ch peer role dev pair b :
  broker_wf b → br_next_connection_id b < u64_max → broker_wf (join ch peer role dev pair b).1.
Proof.
  intros Hw Hn. pose proof (bump_small _ (wf_next b Hw) Hn) as Hb.
  destruct (join ch peer role dev pair b) as [b' [r|e]] eqn:Ej; cbn [fst].
  - pose proof (join_Ok _ _ _ _ _ _ _ _ Ej) as (Hrooms & Hnext & Hnm & _). cbn zeta in Hrooms.
    pose proof (λ ch' pid h, join_seat _ _ _ _ _ _ _ _ ch' pid h Ej) as Hs.
    destruct Hw as [W1 W2 W3 W4 W5 W6 W7]. rewrite Hb in *. split.
    + intros c rm. rewrite Hrooms. destruct (decide (c = ch)) as [->|].
      * rewrite lookup_insert_eq. intros [= <-]. apply insert_non_empty.
      * rewrite lookup_insert_ne by done. apply W1.
    + intros c pid h [(_ & _ & ->)|(_ & Hseat & _)]%Hs; rewrite Hnm; cbn; [lia|].
      apply W2 in Hseat. lia.
    + intros c p h c' p' h' H1%Hs H2%Hs E.
      destruct H1 as [(-> & -> & ->)|(_ & S1 & _)], H2 as [(-> & -> & ->)|(_ & S2 & _)];
        cbn in E; auto; [apply W2 in S2 | apply W2 in S1 | by eapply W3]; lia.
    + intros c p p' h h' x H1%Hs H2%Hs E E'.
      destruct H1 as [(-> & -> & ->)|(_ & S1 & N1)], H2 as [(Hc & -> & ->)|(_ & S2 & N2)];
        cbn in E, E'; subst; auto; [destruct N2 | destruct N1 | by eapply W4];
        split_and!; eauto; congruence.
    + intros c p h [(-> & -> & ->)|(_ & S1 & _)]%Hs; rewrite Hnext; cbn; [lia|].
      apply W5 in S1. lia.
    + intros c p h c' p' h' H1%Hs H2%Hs E.
      destruct H1 as [(-> & -> & ->)|(_ & S1 & _)], H2 as [(-> & -> & ->)|(_ & S2 & _)];
        cbn in E; auto; [apply W5 in S2 | apply W5 in S1 | by eapply W6]; lia.
    + rewrite Hnext. lia.
  - apply join_Err in Ej as ->. destruct Hw as [W1 W2 W3 W4 W5 W6 W7].
    destruct b; split; cbn in *; auto; [|rewrite Hb; lia].
    intros c p h H1. rewrite Hb. apply W5 in H1. lia.
Qed.

(** Who is seated after a leave. *)
Lemma leave_cases ch peer expected b :
  leave_inner ch peer expected b = b ∨
  ∃ room h, br_rooms b !! ch = Some room ∧ room !! peer = Some h ∧
    (expected = None ∨ expected = Some (ph_connection_id h)) ∧
    br_rooms (leave_inner ch peer expected b)
    = (if bool_decide (delete peer room = ∅) then delete ch (br_rooms b)
       else <[ch := delete peer room]> (br_rooms b)) ∧
    br_next_connection_id (leave_inner ch peer expected b) = br_next_connection_id b ∧
    br_next_mailbox (leave_inner ch peer expected b) = br_next_mailbox b ∧
    br_mailboxes (leave_inner ch peer expected b)
    = send_list (to_all (delete peer room) (SmPresence ch PresenceLeft (summary peer h)))
        (br_mailboxes b).
Proof.
  unfold leave_inner. destruct (br_rooms b !! ch) as [room|] eqn:Er; [|by left].
  destruct (room !! peer) as [h|] eqn:Eh; [|by left].
  destruct (match expected with Some id => bool_decide (ph_connection_id h = id) | None => true end)
    eqn:Ee; [|by left]. right. exists room, h. split_and!; auto.
  - destruct expected; [|by left]. apply bool_decide_eq_true in Ee. subst. by right.
  - case_if; by destruct b.
  - case_if; by destruct b.
  - case_if; by destruct b.
  - case_if; by destruct b.
Qed.

Lemma leave_seat ch peer expected b ch' pid h :
  seat (leave_inner ch peer expected b) ch' pid h → seat b ch' pid h.
Proof.
  destruct (leave_cases ch peer expected b) as [->|(room & h0 & Er & _ & _ & Hr & _)]; [done|].
  unfold seat. rewrite Hr. intros (rm & Hl & Hp).
  destruct (decide (ch' = ch)) as [->|Hne]; case_bool_decide as Hd.
  - by rewrite lookup_delete_eq in Hl.
  - rewrite lookup_insert_eq in Hl. injection Hl as <-. apply lookup_delete_Some in Hp as [_ Hp]. eauto.
  - rewrite lookup_delete_ne in Hl by done. eauto.
  - rewrite lookup_insert_ne in Hl by done. eauto.
Qed.

(** Fewer seats, same counters: still well-formed. *)
Lemma wf_sub b b' :
  broker_wf b → (∀ ch pid h, seat b' ch pid h → seat b ch pid h) →
  (∀ ch room, br_rooms b' !! ch = Some room → room ≠ ∅) →
  br_next_connection_id b' = br_next_connection_id b → br_next_mailbox b' = br_next_mailbox b →
  broker_wf b'.
Proof.
  intros [W1 W2 W3 W4 W5 W6 W7] Hs Hr Hn Hm.
  split; rewrite ?Hn, ?Hm; eauto.
Qed.

Lemma leave_wf ch peer expected b : broker_wf b → broker_wf (leave_inner ch peer expected b).
Proof.
  intros Hw. pose proof (leave_seat ch peer expected b) as Hs.
  destruct (leave_cases ch peer expected b) as [->|(room & h & Er & _ & _ & Hr & Hn & Hm & _)];
    [done|].
  apply (wf_sub b); try done. intros c rm. rewrite Hr. case_bool_decide as Hd.
  - intros [_ H]%lookup_delete_Some. by eapply wf_nonempty.
  - intros [[<- <-]|[_ H]]%lookup_insert_Some; [done | by eapply wf_nonempty].
Qed.

(** ** What a publish does *)

(** The mailboxes' growth: [sends b b' c ms] when mailbox [c] received [ms]. *)
Definition received (b b' : BrokerState) (c : nat) (ms : list ServerMessage) : Prop :=
  br_mailboxes b' !! c = mb_push ms <$> br_mailboxes b !! c.

Lemma publish_cases ch from expected payload b :
  (publish_inner ch from expected payload b).2 ≠ Ok () ∧
  (publish_inner ch from expected payload b).1 = b
  ∨ ∃ room sender ob e,
    br_rooms b !! ch = Some room ∧ room !! from = Some sender ∧
    (∀ id, expected = Some id → ph_connection_id sender = id) ∧
    publish_inner ch from expected payload b = (send ob (record_event e b), Ok ()) ∧
    ((∃ msgs, is_targeted_messages_payload payload = true ∧
        parse_targeted_messages_payload payload = Ok msgs ∧
        ob = targeted_outbox ch from (ph_role sender) room msgs) ∨
     is_targeted_messages_payload payload = false ∧
     must_not_be_broadcast (payload_kind payload) = false ∧
     ob = to_all (delete from room) (SmMessage ch from (ph_role sender) payload)).
Proof.
  unfold publish_inner. destruct (br_rooms b !! ch) as [room|] eqn:Er; [|by left].
  destruct (room !! from) as [sender|] eqn:Es; [|by left].
  destruct (match expected with
    | Some id => negb (bool_decide (ph_connection_id sender = id)) | None => false end) eqn:Ee;
    [by left|].
  assert (∀ id, expected = Some id → ph_connection_id sender = id) as Hid.
  { intros id ->. by apply negb_false_iff, bool_decide_eq_true in Ee. }
  cbn zeta. destruct (is_targeted_messages_payload payload) eqn:Et.
  - destruct (parse_targeted_messages_payload payload) as [msgs|e] eqn:Ep; [|by left].
    right. do 4 eexists. split_and!; try done. left. eauto.
  - destruct (must_not_be_broadcast (payload_kind payload)) eqn:Em; [by left|].
    right. do 4 eexists. split_and!; try done. right. done.
Qed.

Lemma send_record_frame ob e b c :
  br_rooms (send ob (record_event e b)) = br_rooms b ∧
  br_next_connection_id (send ob (record_event e b)) = br_next_connection_id b ∧
  br_next_mailbox (send ob (record_event e b)) = br_next_mailbox b ∧
  received b (send ob (record_event e b)) c (sent_to c ob).
Proof. destruct b. split_and!; try done. apply send_list_lookup. Qed.

Lemma received_unique b b' c ms ms' :
  received b b' c ms → received b b' c ms' →
  (∃ m, br_mailboxes b !! c = Some m ∧ mb_open m = true) → ms = ms'.
Proof.
  unfold received. intros -> H (m & Hm & Ho). rewrite Hm in H. cbn in H. injection H as H.
  unfold mb_push in H. rewrite Ho in H. injection H as H. by apply app_inv_head in H.
Qed.

Lemma publish_wf ch from expected payload b :
  broker_wf b → broker_wf (publish_inner ch from expected payload b).1.
Proof.
  intros Hw. destruct (publish_cases ch from expected payload b)
    as [[_ ->]|(room & sender & ob & e & _ & _ & _ & -> & _)]; [done|]. cbn [fst].
  destruct (send_record_frame ob e b 0) as (H1 & H2 & H3 & _).
  apply (wf_sub b); try done. rewrite H1. apply (wf_nonempty b Hw).
Qed.

(** ** Runs of the broker *)
Inductive BrokerOp : Type :=
| BJoin (channel_id peer_id : string) (role : PeerRole) (device_id pairing_id : option string)
| BLeave (channel_id peer_id : string)
| BLeaveConnection (channel_id peer_id : string) (connection_id : Z)
| BPublish (channel_id from : string) (payload : json)
| BPublishConnection (channel_id from : string) (connection_id : Z) (payload : json)
| BDropReceiver (rx : nat).

Definition broker_exec (op : BrokerOp) (b : BrokerState) : BrokerState :=
  match op with
  | BJoin ch p role dev pairing => (join ch p role dev pairing b).1
  | BLeave ch p => leave ch p b
  | BLeaveConnection ch p id => leave_connection ch p id b
  | BPublish ch from payload => (publish ch from payload b).1
  | BPublishConnection ch from id payload => (publish_connection ch from id payload b).1
  | BDropReceiver rx => drop_receiver rx b
  end.

(** A step while the connection counter has not reached the end of [u64]. *)
Definition broker_step (b : BrokerState) (op : BrokerOp) (b' : BrokerState) : Prop :=
  br_next_connection_id b < u64_max ∧ b' = broker_exec op b.

Lemma init_wf sink : broker_wf (broker_init sink).
Proof.
  split; cbn; try done; unfold seat; cbn; try (intros * (? & Hl & _); by rewrite lookup_empty in Hl).
Qed.

Lemma exec_wf op b : broker_wf b → br_next_connection_id b < u64_max → broker_wf (broker_exec op b).
Proof.
  intros Hw Hn. destruct op; cbn [broker_exec]; auto using join_wf, leave_wf, publish_wf.
  - by apply leave_wf.
  - by apply leave_wf.
  - by apply publish_wf.
  - by apply publish_wf.
  - apply (wf_sub _ _ Hw); try by destruct b. destruct b. apply (wf_nonempty _ Hw).
Qed.

Definition broker_reachable (sink : bool) : BrokerState → Prop :=
  reachable (λ b, b = broker_init sink) broker_step.

Lemma reachable_wf sink b : broker_reachable sink b → broker_wf b.
Proof.
  apply reachable_ind_inv.
  - intros ? ->. apply init_wf.
  - intros s op s' _ Hw [Hn ->]. by apply exec_wf.
Qed.

(** ** Properties *)

(** In every state the broker can reach, no room is empty, every peer has a mailbox
    and a connection id of its own, and no room seats two peers on one pairing ticket. *)
Theorem broker_rooms_well_formed sink b :
  broker_reachable sink b →
  (∀ ch room, br_rooms b !! ch = Some room → room ≠ ∅) ∧
  (∀ ch pid h ch' pid' h', seat b ch pid h → seat b ch' pid' h' →
     ph_tx h = ph_tx h' ∨ ph_connection_id h = ph_connection_id h' → ch = ch' ∧ pid = pid') ∧
  (∀ ch pid pid' h h' p, seat b ch pid h → seat b ch pid' h' →
     ph_pairing_id h = Some p → ph_pairing_id h' = Some p → pid = pid').
Proof.
  intros Hw%reachable_wf. split_and!.
  - apply (wf_nonempty b Hw).
  - intros * H1 H2 [E|E]; [by eapply (wf_tx_inj b Hw) | by eapply (wf_conn_inj b Hw)].
  - apply (wf_pairing b Hw).
Qed.

Lemma broker_rooms_well_formed_witness :
  br_rooms (broker_exec (BJoin "room" "s1" PeerSurface None (Some "pair")) (broker_init true))
    !! "room" ≠ Some ∅.
Proof.
  intros E. apply (proj1 (broker_rooms_well_formed true _ ltac:(
    eapply reach_step; [apply reach_init; reflexivity | split; [by vm_compute | reflexivity]]))
    "room" ∅ E eq_refl).
Defined.

(** One pairing ticket, one seat: a join that presents a pairing ticket evicts
    every earlier holder in that room, seats the newcomer, and leaves every other peer of
    every room where it was. *)
Theorem pairing_ticket_holds_one_seat ch peer role dev p b b' r :
  join ch peer role dev (Some p) b = (b', Ok r) →
  (∀ pid h, seat b' ch pid h → ph_pairing_id h = Some p → pid = peer) ∧
  (∃ h, seat b' ch peer h ∧ ph_connection_id h = jr_connection_id r ∧ ph_tx h = jr_receiver r) ∧
  (∀ ch' pid h, seat b ch' pid h → (ch', pid) ≠ (ch, peer) →
     ch' ≠ ch ∨ ph_pairing_id h ≠ Some p → seat b' ch' pid h).
Proof.
  intros Hj. pose proof (λ c q h, join_seat _ _ _ _ _ _ _ _ c q h Hj) as Hs.
  apply join_Ok in Hj as (_ & _ & _ & Hc & Hrx). rewrite Hc, Hrx. split_and!.
  - intros pid h [(_ & -> & _)|(_ & _ & Hn)]%Hs E; [done|]. destruct Hn. eauto.
  - eexists. split; [apply Hs; left; done | done].
  - intros c q h Hq Hne Hor. apply Hs. right. split_and!; [| done | naive_solver].
    destruct (decide (c = ch)); [right; congruence | by left].
Qed.

Lemma pairing_ticket_holds_one_seat_witness :
  let b := broker_exec (BJoin "room" "s1" PeerSurface None (Some "pair")) (broker_init true) in
  ∃ b' r, join "room" "s2" PeerSurface None (Some "pair") b = (b', Ok r) ∧
    ∀ pid h, seat b' "room" pid h → ph_pairing_id h = Some "pair" → pid = "s2".
Proof.
  cbn zeta. set (b := broker_exec _ _).
  assert (is_ok (join "room" "s2" PeerSurface None (Some "pair") b).2 = true) as Hok
    by (vm_compute; reflexivity).
  destruct (join "room" "s2" PeerSurface None (Some "pair") b) as [b' [r|e]] eqn:E;
    [|discriminate Hok].
  exists b', r. split; [reflexivity|].
  exact (proj1 (pairing_ticket_holds_one_seat _ _ _ _ _ _ _ _ E)).
Defined.

(** A connection that was replaced is powerless: leaving with its old connection id
    changes nothing, publishing with it is refused and changes nothing, so a late close
    of a stale socket cannot unseat its successor. *)
Theorem stale_connection_is_powerless ch peer id payload b h :
  seat b ch peer h → ph_connection_id h ≠ id →
  leave_connection ch peer id b = b ∧
  publish_connection ch peer id payload b = (b, Err (ConnectionReplaced peer ch)).
Proof.
  intros (room & Hr & Hp) Hne. unfold leave_connection, publish_connection, leave_inner,
    publish_inner. rewrite Hr, Hp. rewrite bool_decide_eq_false_2 by done. done.
Qed.

Lemma stale_connection_is_powerless_witness :
  let h := MkPeerHandle 2 PeerRelay None None 1 in
  let b := MkBroker {["room" := {["relay" := h]}]} 2 ∅ 2 None in
  leave_connection "room" "relay" 1 b = b ∧
  publish_connection "room" "relay" 1 JNull b = (b, Err (ConnectionReplaced "relay" "room")).
Proof.
  cbn zeta. apply (stale_connection_is_powerless "room" "relay" 1 JNull _
    (MkPeerHandle 2 PeerRelay None None 1)); [|done].
  exists {["relay" := MkPeerHandle 2 PeerRelay None None 1]}. done.
Defined.

(** A publish reaches the peers it was meant for and nobody else: whatever lands in
    any mailbox of the broker is a message from the sender, in a mailbox of another peer
    of the sender's own room, and either the sender addressed that peer by name or the
    payload was a broadcast of a kind that may be broadcast; a refused publish changes
    nothing at all. *)
Theorem publish_delivery_is_sound ch from expected payload b :
  let '(b', res) := publish_inner ch from expected payload b in
  (res ≠ Ok () → b' = b) ∧
  (∀ c, ∃ ms, received b b' c ms ∧
     ∀ m, m ∈ ms → ∃ pid h sender p,
       seat b ch pid h ∧ ph_tx h = c ∧ pid ≠ from ∧ seat b ch from sender ∧
       m = SmMessage ch from (ph_role sender) p ∧
       ((∃ msgs, parse_targeted_messages_payload payload = Ok msgs ∧ MkTargeted pid p ∈ msgs) ∨
        p = payload ∧ payload_kind payload ≠ "encrypted_pairing_result")).
Proof.
  destruct (publish_cases ch from expected payload b)
    as [[Hne Hb]|(room & sender & ob & e & Hr & Hs & _ & E & Hob)].
  - destruct (publish_inner _ _ _ _ b) as [b' res]. cbn in Hne, Hb. subst. split; [done|].
    intros c. exists []. split; [|by intros m ?%not_elem_of_nil]. unfold received.
    destruct (br_mailboxes b !! c); cbn; [by rewrite mb_push_nil | done].
  - rewrite E. split; [done|]. intros c. exists (sent_to c ob).
    split; [apply send_record_frame|]. intros m Hm%sent_to_elem.
    assert (∀ pid h, room !! pid = Some h → seat b ch pid h) as Hseat by (intros; by exists room).
    destruct Hob as [(msgs & _ & Hp & ->)|(_ & Hk & ->)].
    + apply targeted_outbox_elem in Hm as (pid & h & p & Hl & <- & Hne & -> & Hin).
      exists pid, h, sender, p. split_and!; eauto.
    + apply to_all_elem in Hm as (-> & pid & h & Hl & <-).
      apply lookup_delete_Some in Hl as [Hne Hl]. exists pid, h, sender, payload.
      split_and!; eauto. right. split; [done|]. by apply bool_decide_eq_false in Hk.
Qed.

(** C4: the sealed pairing result never reaches a bystander: in a reachable broker, a
    message whose payload is an [encrypted_pairing_result] only enters the mailbox of the
    peer its sender named as the target. *)
Theorem pairing_result_reaches_only_its_target sink ch from expected payload b ch' pid h ms m p role :
  broker_reachable sink b → seat b ch' pid h →
  received b (publish_inner ch from expected payload b).1 (ph_tx h) ms →
  (∃ box, br_mailboxes b !! ph_tx h = Some box ∧ mb_open box = true) →
  m ∈ ms → m = SmMessage ch from role p → payload_kind p = "encrypted_pairing_result" →
  ch' = ch ∧ ∃ msgs, parse_targeted_messages_payload payload = Ok msgs ∧ MkTargeted pid p ∈ msgs.
Proof.
  intros Hw%reachable_wf Hseat Hrec Hopen Hm -> Hk.
  destruct (publish_cases ch from expected payload b)
    as [[_ Hb]|(room & sender & ob & e & Hr & Hs & _ & E & Hob)].
  - rewrite Hb in Hrec. assert (received b b (ph_tx h) []) as H0.
    { unfold received. destruct (br_mailboxes b !! ph_tx h); cbn; [by rewrite mb_push_nil | done]. }
    rewrite (received_unique _ _ _ _ _ Hrec H0 Hopen) in Hm. by apply not_elem_of_nil in Hm.
  - rewrite E in Hrec. cbn [fst] in Hrec.
    destruct (send_record_frame ob e b (ph_tx h)) as (_ & _ & _ & H0).
    rewrite (received_unique _ _ _ _ _ Hrec H0 Hopen), sent_to_elem in Hm.
    assert (∀ q h', room !! q = Some h' → ph_tx h' = ph_tx h → ch' = ch ∧ pid = q) as Huniq.
    { intros q h' Hq Et. eapply (wf_tx_inj b Hw); [done | by exists room | done]. }
    destruct Hob as [(msgs & _ & Hp & ->)|(_ & Hkb & ->)].
    + apply targeted_outbox_elem in Hm as (q & h' & p' & Hl & Et & _ & [= _ <-] & Hin).
      destruct (Huniq q h' Hl Et) as [-> ->]. eauto.
    + apply to_all_elem in Hm as ([= _ <-] & _). rewrite Hk in Hkb. done.
Qed.

(** A mailbox nobody of the room uses gets nothing; its only user's gets one copy. *)
Lemma sent_to_all_none room m c :
  (∀ q h, room !! q = Some h → ph_tx h ≠ c) → sent_to c (to_all room m) = [].
Proof.
  intros Hno. destruct (sent_to c (to_all room m)) as [|x l] eqn:E; [done|].
  assert (x ∈ sent_to c (to_all room m)) as Hx by (rewrite E; left).
  apply sent_to_elem, to_all_elem in Hx as (_ & q & h & Hl & Et). by destruct (Hno q h).
Qed.

Lemma sent_to_all_one room m pid h :
  room !! pid = Some h → (∀ q h', room !! q = Some h' → ph_tx h' = ph_tx h → q = pid) →
  sent_to (ph_tx h) (to_all room m) = [m].
Proof.
  intros Hl Hu. apply Permutation_singleton_r.
  assert (to_all room m ≡ₚ (ph_tx h, m) :: to_all (delete pid room) m) as Hp.
  { unfold to_all. rewrite <- (map_to_list_delete room pid h) by done. done. }
  unfold sent_to. rewrite Hp. cbn [omap list_omap fst snd]. rewrite decide_True by done.
  change (m :: sent_to (ph_tx h) (to_all (delete pid room) m) ≡ₚ [m]).
  rewrite sent_to_all_none; [done|]. intros q h' [Hne Hq]%lookup_delete_Some Et.
  by apply Hne, eq_sym, (Hu q h').
Qed.

(** An accepted broadcast is complete: every other peer of the room with a live
    connection receives it exactly once, and the sender not at all. *)
Theorem broadcast_reaches_everyone_once sink ch from expected payload b b' pid h box :
  broker_reachable sink b → publish_inner ch from expected payload b = (b', Ok ()) →
  is_targeted_messages_payload payload = false →
  seat b ch pid h → br_mailboxes b !! ph_tx h = Some box → mb_open box = true →
  ∃ sender, seat b ch from sender ∧
    br_mailboxes b' !! ph_tx h = Some (MkMailbox true
      (mb_messages box ++ if decide (pid = from) then []
                          else [SmMessage ch from (ph_role sender) payload])%list).
Proof.
  intros Hw%reachable_wf E Ht (room & Hr & Hl) Hbox Hopen.
  destruct (publish_cases ch from expected payload b)
    as [[Hne _]|(room' & sender & ob & e & Hr' & Hs & _ & E' & Hob)]; [by rewrite E in Hne|].
  rewrite Hr in Hr'. injection Hr' as <-. rewrite E in E'. injection E' as ->.
  destruct Hob as [(msgs & Ht' & _)|(_ & _ & ->)]; [congruence|].
  exists sender. split; [by exists room|].
  match goal with |- br_mailboxes (send ?ob _) !! _ = _ =>
    destruct (send_record_frame ob e b (ph_tx h)) as (_ & _ & _ & ->) end.
  rewrite Hbox. cbn [fmap option_fmap option_map]. unfold mb_push. rewrite Hopen.
  assert (∀ q h', room !! q = Some h' → ph_tx h' = ph_tx h → q = pid) as Hu.
  { intros q h' Hq Et. eapply (wf_tx_inj b Hw); [by exists room | by exists room | done]. }
  do 3 f_equal. destruct (decide (pid = from)) as [->|Hne].
  - apply sent_to_all_none. intros q h' [Hne Hq]%lookup_delete_Some Et.
    by apply Hne, eq_sym, (Hu q h').
  - apply (sent_to_all_one _ _ pid); [by rewrite lookup_delete_ne|].
    intros q h' [_ Hq]%lookup_delete_Some. by apply Hu.
Qed.

(** A room of two, for the delivery theorems. *)
Definition sample_broker : BrokerState :=
  broker_exec (BJoin "room" "phone" PeerSurface None (Some "pair"))
    (broker_exec (BJoin "room" "relay" PeerRelay None None) (broker_init true)).

Lemma sample_broker_reachable : broker_reachable true sample_broker.
Proof.
  eapply reach_step; [eapply reach_step; [apply reach_init; reflexivity|]|];
    (split; [|reflexivity]); by vm_compute.
Qed.

Definition sample_wrapped : json :=
  JMap [("kind", JStr "targeted_messages");
        ("messages", JSeq [JMap [("target_peer_id", JStr "phone");
           ("payload", JMap [("kind", JStr "encrypted_pairing_result")])]])].

Lemma pairing_result_reaches_only_its_target_witness :
  ∃ msgs, parse_targeted_messages_payload sample_wrapped = Ok msgs ∧
    MkTargeted "phone" (JMap [("kind", JStr "encrypted_pairing_result")]) ∈ msgs.
Proof.
  destruct (pairing_result_reaches_only_its_target true "room" "relay" None sample_wrapped
    sample_broker "room" "phone" (MkPeerHandle 2 PeerSurface None (Some "pair") 1)
    [SmMessage "room" "relay" PeerRelay (JMap [("kind", JStr "encrypted_pairing_result")])]
    (SmMessage "room" "relay" PeerRelay (JMap [("kind", JStr "encrypted_pairing_result")]))
    (JMap [("kind", JStr "encrypted_pairing_result")]) PeerRelay) as [_ H].
  - exact sample_broker_reachable.
  - eexists. split; vm_compute; reflexivity.
  - vm_compute. reflexivity.
  - eexists. split; vm_compute; reflexivity.
  - left.
  - reflexivity.
  - vm_compute. reflexivity.
  - exact H.
Defined.

Lemma broadcast_reaches_everyone_once_witness :
  ∃ sender, seat sample_broker "room" "relay" sender ∧
    br_mailboxes (publish "room" "relay" (JMap [("kind", JStr "session_snapshot")])
      sample_broker).1 !! 1%nat
    = Some (MkMailbox true [SmMessage "room" "relay" (ph_role sender)
        (JMap [("kind", JStr "session_snapshot")])]).
Proof.
  destruct (broadcast_reaches_everyone_once true "room" "relay" None
    (JMap [("kind", JStr "session_snapshot")]) sample_broker
    (publish "room" "relay" (JMap [("kind", JStr "session_snapshot")]) sample_broker).1
    "phone" (MkPeerHandle 2 PeerSurface None (Some "pair") 1) (MkMailbox true []))
    as (sender & H1 & H2).
  - exact sample_broker_reachable.
  - vm_compute. reflexivity.
  - vm_compute. reflexivity.
  - eexists. split; vm_compute; reflexivity.
  - vm_compute. reflexivity.
  - reflexivity.
  - exists sender. split; [exact H1 | exact H2].
Defined.
