(* ===== verification/JoinTicket.v ===== *)
(** * Broker join tickets (crates/relay-broker/src/join_ticket.rs, auth.rs)

    A join ticket is [base64url(claims-json) "." base64url(hmac)].  The base64,
    HMAC-SHA256 and JSON-text libraries are the class [TicketCrypto]; what the code
    relies on is [TicketLaws].  [HmacSha256::new_from_slice] accepts a key of any
    length, so its error branch does not appear.  [rand] supplies the nonce, which is
    an argument of the constructors. *)

From Stdlib Require Import ZArith Lia Ascii.
From S2P Require Import Prelude RustStr Json BrokerState.

Open Scope string_scope.
Open Scope Z_scope.

(** ** The libraries *)
Class TicketCrypto := {
  b64_encode : string → string;
  b64_decode : string → option string;
  hmac_sha256 : string → string → string;
  json_to_vec : json → string;
  json_from_slice : string → option json
}.

(** Documented behaviour: decoding inverts encoding, the URL-safe alphabet has no dot,
    and the text of a value of objects, strings and integers reads back. *)
Fixpoint plain_json (j : json) : bool :=
  match j with
  | JF64 _ => false
  | JU64 z => wf_u64 z
  | JI64 z => wf_i64 z
  | JSeq l => forallb plain_json l
  | JMap es => forallb (λ e : string * json, plain_json e.2) es
  | _ => true
  end.

Class TicketLaws `{TicketCrypto} := {
  b64_decode_encode : ∀ s, b64_decode (b64_encode s) = Some s;
  b64_no_dot : ∀ s, string_forall (λ a, negb (Ascii.eqb a "."%char)) (b64_encode s) = true;
  json_text_round_trip : ∀ j, plain_json j = true → json_from_slice (json_to_vec j) = Some j
}.

(** ** Claims *)
Definition JOIN_TICKET_VERSION : Z := 1.

Inductive JoinTicketKind : Type := RelayJoin | PairingSurfaceJoin | DeviceSurfaceJoin.
#[export] Instance JoinTicketKind_eq_dec : EqDecision JoinTicketKind.
Proof. solve_decision. Defined.
#[export] Program Instance JoinTicketKind_enum : UnitEnum JoinTicketKind := {|
  enum_name k := match k with
    | RelayJoin => "relay_join" | PairingSurfaceJoin => "pairing_surface_join"
    | DeviceSurfaceJoin => "device_surface_join"
    end;
  enum_all := [RelayJoin; PairingSurfaceJoin; DeviceSurfaceJoin] |}.
Next Obligation. unit_enum. Qed.
Next Obligation. unit_enum. Qed.

Record JoinTicketClaims : Type := MkClaims {
  jc_version : Z;
  jc_kind : JoinTicketKind;
  jc_channel_id : string;
  jc_role : PeerRole;
  jc_peer_id : option string;
  jc_pairing_id : option string;
  jc_device_id : option string;
  jc_expires_at : option Z;
  jc_nonce : string
}.

Definition relay_join_with_expiry (nonce channel_id peer_id : string) (expires_at : option Z) :
    JoinTicketClaims :=
  MkClaims JOIN_TICKET_VERSION RelayJoin channel_id PeerRelay (Some peer_id) None None expires_at
    nonce.
Definition relay_join (nonce channel_id peer_id : string) : JoinTicketClaims :=
  relay_join_with_expiry nonce channel_id peer_id None.
Definition pairing_surface_join (nonce channel_id pairing_id : string) (expires_at : Z) :
    JoinTicketClaims :=
  MkClaims JOIN_TICKET_VERSION PairingSurfaceJoin channel_id PeerSurface None (Some pairing_id) None
    (Some expires_at) nonce.
Definition device_surface_join (nonce channel_id device_id : string) (expires_at : option Z) :
    JoinTicketClaims :=
  MkClaims JOIN_TICKET_VERSION DeviceSurfaceJoin channel_id PeerSurface None None (Some device_id)
    expires_at nonce.

Inductive TicketError : Type :=
| TeVersion (version : Z)
| TeChannelRequired
| TeNonceRequired
| TeWrongRole (kind : JoinTicketKind)
| TeIdRequired (kind : JoinTicketKind)
| TeForeignId (kind : JoinTicketKind)
| TeExpiryRequired
| TeMalformed
| TeSignature
| TePayload
| TeExpired
| TeEmptySecret.

(** [self.x.as_deref().map(str::trim).unwrap_or("").is_empty()]. *)
Definition opt_blank (o : option string) : bool := is_empty (default "" (trim <$> o)).

Definition claims_validate (c : JoinTicketClaims) : result () TicketError :=
  if negb (jc_version c =? JOIN_TICKET_VERSION) then Err (TeVersion (jc_version c))
  else if is_blank (jc_channel_id c) then Err TeChannelRequired
  else if is_blank (jc_nonce c) then Err TeNonceRequired
  else match jc_kind c with
  | RelayJoin =>
      if negb (bool_decide (jc_role c = PeerRelay)) then Err (TeWrongRole RelayJoin)
      else if opt_blank (jc_peer_id c) then Err (TeIdRequired RelayJoin)
      else if is_some (jc_pairing_id c) || is_some (jc_device_id c)
      then Err (TeForeignId RelayJoin)
      else Ok ()
  | PairingSurfaceJoin =>
      if negb (bool_decide (jc_role c = PeerSurface)) then Err (TeWrongRole PairingSurfaceJoin)
      else if opt_blank (jc_pairing_id c) then Err (TeIdRequired PairingSurfaceJoin)
      else if is_some (jc_device_id c) then Err (TeForeignId PairingSurfaceJoin)
      else if is_none (jc_expires_at c) then Err TeExpiryRequired
      else Ok ()
  | DeviceSurfaceJoin =>
      if negb (bool_decide (jc_role c = PeerSurface)) then Err (TeWrongRole DeviceSurfaceJoin)
      else if opt_blank (jc_device_id c) then Err (TeIdRequired DeviceSurfaceJoin)
      else if is_some (jc_pairing_id c) then Err (TeForeignId DeviceSurfaceJoin)
      else Ok ()
  end.

(** ** Claims on the wire: derived, unknown fields ignored *)
Definition claims_fields : field_table :=
  [("version", checks de_u32);
   ("kind", checks (de : decoder JoinTicketKind));
   ("channel_id", checks de_string);
   ("role", checks (de : decoder PeerRole));
   ("peer_id", checks (de_option de_string));
   ("pairing_id", checks (de_option de_string));
   ("device_id", checks (de_option de_string));
   ("expires_at", checks (de_option de_u64));
   ("nonce", checks de_string)].

Definition claims_deserialize : decoder JoinTicketClaims := λ j,
  let? es := derived_struct false claims_fields j in
  let? version := required "version" de_u32 es in
  let? kind := required "kind" de es in
  let? channel_id := required "channel_id" de_string es in
  let? role := required "role" de es in
  let? peer_id := defaulted "peer_id" (de_option de_string) None es in
  let? pairing_id := defaulted "pairing_id" (de_option de_string) None es in
  let? device_id := defaulted "device_id" (de_option de_string) None es in
  let? expires_at := defaulted "expires_at" (de_option de_u64) None es in
  let? nonce := required "nonce" de_string es in
  Ok (MkClaims version kind channel_id role peer_id pairing_id device_id expires_at nonce).

Definition claims_serialize (c : JoinTicketClaims) : json :=
  JMap ([("version", JU64 (jc_version c)); ("kind", ser (jc_kind c));
         ("channel_id", JStr (jc_channel_id c)); ("role", ser (jc_role c))]
        ++ opt_entry "peer_id" JStr (jc_peer_id c)
        ++ opt_entry "pairing_id" JStr (jc_pairing_id c)
        ++ opt_entry "device_id" JStr (jc_device_id c)
        ++ opt_entry "expires_at" JU64 (jc_expires_at c)
        ++ [("nonce", JStr (jc_nonce c))])%list.

Definition claims_typed (c : JoinTicketClaims) : Prop :=
  in_u32 (jc_version c) ∧ ∀ e, jc_expires_at c = Some e → in_u64 e.

(** ** Keys *)
Record JoinTicketKey : Type := MkKey { jk_secret : string }.

Definition key_from_secret (secret : string) : result JoinTicketKey TicketError :=
  if is_empty secret then Err TeEmptySecret else Ok (MkKey secret).

Section Tickets.
Context `{TicketCrypto}.

Definition sign (k : JoinTicketKey) (payload_b64 : string) : string :=
  b64_encode (hmac_sha256 (jk_secret k) payload_b64).

(** [mac.verify_slice] compares with the tag it computes. *)
Definition verify_signature (k : JoinTicketKey) (payload_b64 signature_b64 : string) :
    result () TicketError :=
  match b64_decode signature_b64 with
  | None => Err TeSignature
  | Some signature =>
      if bool_decide (signature = hmac_sha256 (jk_secret k) payload_b64) then Ok ()
      else Err TeSignature
  end.

Definition mint (k : JoinTicketKey) (c : JoinTicketClaims) : result string TicketError :=
  let? _ := claims_validate c in
  let payload_b64 := b64_encode (json_to_vec (claims_serialize c)) in
  Ok (payload_b64 ++ "." ++ sign k payload_b64).

Definition verify (now : Z) (k : JoinTicketKey) (token : string) :
    result JoinTicketClaims TicketError :=
  let? parts := ok_or (split_once "."%char token) TeMalformed in
  let? _ := verify_signature k parts.1 parts.2 in
  let? payload := ok_or (b64_decode parts.1) TePayload in
  let? j := ok_or (json_from_slice payload) TePayload in
  let? claims := match claims_deserialize j with Ok c => Ok c | Err _ => Err TePayload end in
  let? _ := claims_validate claims in
  match jc_expires_at claims with
  | Some expires_at => if expires_at <? now then Err TeExpired else Ok claims
  | None => Ok claims
  end.
End Tickets.

(** ** Authentication mode (auth.rs) *)
Inductive BrokerAuthMode : Type := SelfHostedSharedSecret | PublicControlPlane.

Definition auth_mode_parse (value : option string) : result BrokerAuthMode string :=
  match value with
  | None => Ok SelfHostedSharedSecret
  | Some v =>
      let v := trim v in
      if is_empty v then Ok SelfHostedSharedSecret
      else if decide (v = "self_hosted") then Ok SelfHostedSharedSecret
      else if decide (v = "public") then Ok PublicControlPlane
      else Err v
  end.

Definition auth_mode_as_str (m : BrokerAuthMode) : string :=
  match m with SelfHostedSharedSecret => "self_hosted" | PublicControlPlane => "public" end.

(** ** Lemmas *)

Lemma claims_decode_encode c :
  claims_typed c → claims_deserialize (claims_serialize c) = Ok c.
Proof.
  destruct c as [v k ch r p pa d e n]. intros [Hv He]. cbn in Hv, He.
  unfold claims_deserialize, claims_serialize.
  cbn [jc_version jc_kind jc_channel_id jc_role jc_peer_id jc_pairing_id jc_device_id
    jc_expires_at jc_nonce].
  rewrite derived_struct_ok.
  - destruct p, pa, d, e; cbn [opt_entry app]; repeat read_field;
      rewrite de_u32_ok, !enum_de_ser, ?opt_string_de_ser, ?opt_u64_de_ser by auto; done.
  - destruct p, pa, d, e; cbn [opt_entry app]; struct_checks.
  - destruct p, pa, d, e; struct_nodup.
Qed.

Lemma claims_plain c : claims_typed c → plain_json (claims_serialize c) = true.
Proof.
  destruct c as [v k ch r p pa d e n]. intros [Hv He]. cbn in Hv, He.
  assert (wf_u64 v = true) as Hw.
  { unfold wf_u64, in_range. unfold in_u32, u32_max in Hv. unfold u64_max.
    rewrite andb_true_iff, !Z.leb_le. lia. }
  assert (∀ x, e = Some x → wf_u64 x = true) as Hx.
  { intros x Ex. specialize (He x Ex). unfold wf_u64, in_range. unfold in_u64 in He.
    rewrite andb_true_iff, !Z.leb_le. lia. }
  unfold claims_serialize. cbn [plain_json jc_version jc_kind jc_channel_id jc_role jc_peer_id
    jc_pairing_id jc_device_id jc_expires_at jc_nonce].
  destruct p, pa, d, e; cbn [opt_entry app forallb snd]; cbn -[wf_u64]; rewrite Hw, ?Hx; done.
Qed.

(** ** Theorems *)

Section TicketTheorems.
Context `{TicketLaws}.

Lemma verify_sign k payload :
  verify_signature k payload (sign k payload) = Ok ().
Proof using Type*.
  unfold verify_signature, sign. rewrite b64_decode_encode. by rewrite bool_decide_eq_true_2.
Qed.

Lemma mint_Ok k c token :
  mint k c = Ok token →
  claims_validate c = Ok () ∧
  split_once "."%char token =
    Some (b64_encode (json_to_vec (claims_serialize c)),
          sign k (b64_encode (json_to_vec (claims_serialize c)))).
Proof using Type*.
  unfold mint. destruct (claims_validate c) as [[]|]; [|done]. intros [= <-]. split; [done|].
  apply (split_once_app "."%char), b64_no_dot.
Qed.

(** A minted ticket is honoured: the broker accepts, with the same key and up to and
    including its expiry second, exactly the claims that were minted. *)
Theorem minted_ticket_verifies now k c token :
  claims_typed c → mint k c = Ok token →
  (∀ e, jc_expires_at c = Some e → now ≤ e) →
  verify now k token = Ok c.
Proof using Type*.
  intros Ht Hm He. apply mint_Ok in Hm as [Hv Hs]. unfold verify. rewrite Hs. cbn [ok_or fst snd].
  rewrite verify_sign, b64_decode_encode. cbn [ok_or].
  rewrite json_text_round_trip by (by apply claims_plain). cbn [ok_or].
  rewrite claims_decode_encode, Hv by done. destruct (jc_expires_at c) as [e|]; [|done].
  destruct (Z.ltb_spec e now); [specialize (He e eq_refl); lia | done].
Qed.
End TicketTheorems.

(** What validation establishes. *)
Lemma claims_validate_shape c :
  claims_validate c = Ok () →
  jc_version c = JOIN_TICKET_VERSION ∧ is_blank (jc_channel_id c) = false ∧
  match jc_kind c with
  | RelayJoin => jc_role c = PeerRelay ∧ opt_blank (jc_peer_id c) = false ∧
      jc_pairing_id c = None ∧ jc_device_id c = None
  | PairingSurfaceJoin => jc_role c = PeerSurface ∧ opt_blank (jc_pairing_id c) = false ∧
      jc_device_id c = None ∧ is_Some (jc_expires_at c)
  | DeviceSurfaceJoin => jc_role c = PeerSurface ∧ opt_blank (jc_device_id c) = false ∧
      jc_pairing_id c = None
  end.
Proof.
  unfold claims_validate. destruct (Z.eqb_spec (jc_version c) JOIN_TICKET_VERSION); [|done].
  cbn [negb]. destruct (is_blank (jc_channel_id c)); [done|]. destruct (is_blank (jc_nonce c)); [done|].
  destruct (jc_kind c); repeat (case_bool_decide; cbn [negb]; [|done]); case_if; try done;
    intros Hv; repeat case_if; try done; split_and!; try done;
    rewrite ?orb_false_iff, ?is_some_false in *; unfold is_none in *;
    rewrite ?negb_false_iff, ?is_some_true in *; naive_solver.
Qed.

(** An accepted ticket is authentic, current and well-shaped: its second half
    decodes to the key's MAC of its first half, it has not expired, a relay ticket names a
    relay and no device or pairing, a pairing ticket is a surface's, names its pairing and
    always expires, and a device ticket is a surface's and names its device only. *)
Theorem accepted_ticket_is_sound `{TicketCrypto} now k token c :
  verify now k token = Ok c →
  (∃ payload sig, token = payload ++ String "."%char sig ∧
     b64_decode sig = Some (hmac_sha256 (jk_secret k) payload)) ∧
  (∀ e, jc_expires_at c = Some e → now ≤ e) ∧
  jc_version c = JOIN_TICKET_VERSION ∧ is_blank (jc_channel_id c) = false ∧
  match jc_kind c with
  | RelayJoin => jc_role c = PeerRelay ∧ opt_blank (jc_peer_id c) = false ∧
      jc_pairing_id c = None ∧ jc_device_id c = None
  | PairingSurfaceJoin => jc_role c = PeerSurface ∧ opt_blank (jc_pairing_id c) = false ∧
      jc_device_id c = None ∧ is_Some (jc_expires_at c)
  | DeviceSurfaceJoin => jc_role c = PeerSurface ∧ opt_blank (jc_device_id c) = false ∧
      jc_pairing_id c = None
  end.
Proof.
  unfold verify. destruct (split_once "."%char token) as [[payload sig]|] eqn:Es; [|done].
  cbn [ok_or fst snd]. destruct (verify_signature k payload sig) as [[]|] eqn:Ev; [|done].
  destruct (b64_decode payload); [|done]. cbn [ok_or].
  destruct (json_from_slice _) as [j|]; [|done]. cbn [ok_or].
  destruct (claims_deserialize j) as [c'|]; [|done].
  destruct (claims_validate c') as [[]|] eqn:Ec; [|done]. intros Hr.
  assert (c' = c ∧ ∀ e, jc_expires_at c = Some e → now ≤ e) as [-> He].
  { destruct (jc_expires_at c') as [e|] eqn:Ee.
    - destruct (Z.ltb_spec e now); [done|]. injection Hr as ->. split; [done|].
      rewrite Ee. by intros ? [= <-].
    - injection Hr as ->. split; [done|]. by rewrite Ee. }
  split; [|split; [done | by apply claims_validate_shape]]. exists payload, sig.
  split; [by apply split_once_spec in Es as [-> _]|].
  unfold verify_signature in Ev. destruct (b64_decode sig); [|done].
  case_bool_decide; [by subst | done].
Qed.

(** * A model of the ticket libraries

    Concrete functions that satisfy [TicketLaws], so that the ticket theorems can be
    tried on a ticket: bytes as pairs of letters for base64, a key-prefixed copy for
    the MAC, and a bijective numbering for the JSON text. *)
(** ** JSON values as numbered trees *)
Fixpoint json_tree (j : json) : gen_tree (string + Z) :=
  match j with
  | JNull => GenNode 0 []
  | JBool b => GenNode (if b then 1 else 2) []
  | JU64 z => GenNode 3 [GenLeaf (inr z)]
  | JI64 z => GenNode 4 [GenLeaf (inr z)]
  | JF64 s => GenNode 5 [GenLeaf (inl s)]
  | JStr s => GenNode 6 [GenLeaf (inl s)]
  | JSeq l => GenNode 7 (map json_tree l)
  | JMap es => GenNode 8 (map (λ e, GenNode 9 [GenLeaf (inl e.1); json_tree e.2]) es)
  end.

Fixpoint tree_json (t : gen_tree (string + Z)) : json :=
  match t with
  | GenNode 1 [] => JBool true
  | GenNode 2 [] => JBool false
  | GenNode 3 [GenLeaf (inr z)] => JU64 z
  | GenNode 4 [GenLeaf (inr z)] => JI64 z
  | GenNode 5 [GenLeaf (inl s)] => JF64 s
  | GenNode 6 [GenLeaf (inl s)] => JStr s
  | GenNode 7 l => JSeq (map tree_json l)
  | GenNode 8 l => JMap (map (λ t, match t with
                                   | GenNode 9 [GenLeaf (inl k); v] => (k, tree_json v)
                                   | _ => ("", JNull)
                                   end) l)
  | _ => JNull
  end.

Section JsonInd.
Context (P : json → Prop).
Context (Hnull : P JNull) (Hbool : ∀ b, P (JBool b)) (Hu : ∀ z, P (JU64 z)) (Hi : ∀ z, P (JI64 z)).
Context (Hf : ∀ s, P (JF64 s)) (Hs : ∀ s, P (JStr s)).
Context (Hseq : ∀ l, Forall P l → P (JSeq l)).
Context (Hmap : ∀ es, Forall (λ e : string * json, P e.2) es → P (JMap es)).

Definition json_nested_ind : ∀ j, P j :=
  fix go j :=
    match j with
    | JNull => Hnull
    | JBool b => Hbool b
    | JU64 z => Hu z
    | JI64 z => Hi z
    | JF64 s => Hf s
    | JStr s => Hs s
    | JSeq l => Hseq l ((fix all l : Forall P l :=
        match l with
        | [] => Forall_nil_2 P
        | x :: l => Forall_cons_2 P x l (go x) (all l)
        end) l)
    | JMap es => Hmap es ((fix all es : Forall (λ e : string * json, P e.2) es :=
        match es with
        | [] => Forall_nil_2 _
        | e :: es => Forall_cons_2 _ e es (go e.2) (all es)
        end) es)
    end.
End JsonInd.

Lemma tree_json_tree j : tree_json (json_tree j) = j.
Proof.
  induction j as [| [] | | | | | l IH | es IH] using json_nested_ind; try done; cbn; f_equal.
  - rewrite map_map. induction IH as [|x l Hx _ IHl]; cbn; [done|]. by rewrite Hx, IHl.
  - rewrite map_map. induction IH as [|[k v] es Hv _ IHes]; cbn in *; [done|]. by rewrite Hv, IHes.
Qed.

Fixpoint pos_text (p : positive) : string :=
  match p with
  | xH => ""
  | xO p => String "0"%char (pos_text p)
  | xI p => String "1"%char (pos_text p)
  end.
Fixpoint text_pos (s : string) : positive :=
  match s with
  | EmptyString => xH
  | String c s => if Ascii.eqb c "1"%char then xI (text_pos s) else xO (text_pos s)
  end.
Lemma text_pos_text p : text_pos (pos_text p) = p.
Proof. induction p; cbn; congruence. Qed.

(** ** Bytes as pairs of letters *)
Definition letter (n : nat) : ascii := ascii_of_nat (97 + n).
Fixpoint letters_encode (s : string) : string :=
  match s with
  | EmptyString => ""
  | String a s => let n := nat_of_ascii a in
      String (letter (n / 16)) (String (letter (n mod 16)) (letters_encode s))
  end.
Fixpoint letters_decode (s : string) : option string :=
  match s with
  | EmptyString => Some ""
  | String a (String b s) =>
      String (ascii_of_nat ((nat_of_ascii a - 97) * 16 + (nat_of_ascii b - 97))) <$> letters_decode s
  | _ => None
  end.
Lemma letters_decode_encode s : letters_decode (letters_encode s) = Some s.
Proof.
  induction s as [|a s IH]; [done|]. cbn [letters_encode letters_decode]. rewrite IH. cbn.
  f_equal. f_equal. clear. by destruct a as [[] [] [] [] [] [] [] []].
Qed.
Lemma letters_no_dot s :
  string_forall (λ a, negb (Ascii.eqb a "."%char)) (letters_encode s) = true.
Proof.
  induction s as [|a s IH]; [done|]. cbn [letters_encode string_forall]. rewrite IH, andb_true_r.
  clear. by destruct a as [[] [] [] [] [] [] [] []].
Qed.

(** Local to this model: clients choose their own library. *)
Definition model_crypto : TicketCrypto := {|
  b64_encode := letters_encode;
  b64_decode := letters_decode;
  hmac_sha256 := λ secret msg, secret ++ "|" ++ msg;
  json_to_vec := λ j, pos_text (encode (json_tree j));
  json_from_slice := λ s, tree_json <$> decode (text_pos s)
|}.

Lemma model_laws : @TicketLaws model_crypto.
Proof.
  split; cbn.
  - apply letters_decode_encode.
  - apply letters_no_dot.
  - intros j _. rewrite text_pos_text, decode_encode. cbn. by rewrite tree_json_tree.
Qed.

(** ** The ticket theorems on a ticket *)
Definition sample_key : JoinTicketKey := MkKey "k".
Definition sample_claims : JoinTicketClaims := pairing_surface_join "n" "c" "p" 500.

Lemma sample_mint : is_ok (mint (H:=model_crypto) sample_key sample_claims) = true.
Proof. reflexivity. Qed.

Lemma minted_ticket_verifies_witness :
  ∃ token, mint (H:=model_crypto) sample_key sample_claims = Ok token ∧
    verify (H:=model_crypto) 500 sample_key token = Ok sample_claims.
Proof.
  pose proof sample_mint as Hok.
  destruct (mint (H:=model_crypto) sample_key sample_claims) as [token|e] eqn:E; [|discriminate Hok].
  exists token. split; [reflexivity|].
  apply (@minted_ticket_verifies model_crypto model_laws 500 sample_key sample_claims token).
  - split; [vm_compute; split; congruence|]. intros e [= <-]. vm_compute. split; congruence.
  - exact E.
  - intros e [= <-]. lia.
Defined.

Definition sample_token : string :=
  match mint (H:=model_crypto) sample_key sample_claims with Ok t => t | Err _ => "" end.

Lemma accepted_ticket_is_sound_witness :
  verify (H:=model_crypto) 500 sample_key sample_token = Ok sample_claims ∧
  jc_role sample_claims = PeerSurface.
Proof.
  assert (verify (H:=model_crypto) 500 sample_key sample_token = Ok sample_claims) as E
    by (vm_compute; reflexivity).
  split; [exact E|].
  destruct (@accepted_ticket_is_sound model_crypto 500 sample_key sample_token sample_claims E)
    as (_ & _ & _ & _ & Hs). exact (proj1 Hs).
Defined.
