(* ===== verification/Device.v ===== *)
(** * Remote devices (crates/relay-server/src/state/relay/device.rs)

    Pairing tickets, pairing requests and their approval, claim challenges,
    revocation.  [PairingState] is the part of [RelayState] this code reads and
    writes; the views carry what the source's views carry.  Random tokens are
    arguments, SHA-256 and base64 are parameters ([DeviceCrypto]).
    Rendering a ticket as a URL and QR code, log lines and the boolean
    [clear_watched_threads_for_device] returns (ignored by its caller) are not
    modelled.  Every operation returns the state next to its result: pruning
    happens on the error paths too. *)

From Stdlib Require Import ZArith Lia Ascii String.
From S2P Require Import Prelude RustStr.

Open Scope string_scope.
Open Scope Z_scope.

Definition DEFAULT_PAIRING_TTL_SECS : Z := 180.
Definition MAX_PAIRING_TTL_SECS : Z := 600.
Definition CLAIM_CHALLENGE_TTL_SECS : Z := 60.

Inductive DeviceLifecycleState : Type := LcPending | LcApproved | LcRejected | LcRevoked.

(** ** Records *)
Record PendingPairing : Type := MkPendingPairing {
  pp_pairing_id : string;
  pp_pairing_secret : string;
  pp_secret_hash : string;
  pp_created_at : Z;
  pp_expires_at : Z;
  pp_path_scope : list string
}.

Record PairedDevice : Type := MkPairedDevice {
  pd_device_id : string;
  pd_label : string;
  pd_payload_secret : string;
  pd_device_verify_key : string;
  pd_created_at : Z;
  pd_last_seen_at : option Z;
  pd_last_peer_id : option string;
  pd_broker_join_ticket_expires_at : option Z;
  pd_path_scope : list string
}.
#[export] Instance PairedDevice_expand : Expand PairedDevice := λ d,
  MkPairedDevice (pd_device_id d) (pd_label d) (pd_payload_secret d) (pd_device_verify_key d)
    (pd_created_at d) (pd_last_seen_at d) (pd_last_peer_id d)
    (pd_broker_join_ticket_expires_at d) (pd_path_scope d).

Record DeviceRecord : Type := MkDeviceRecord {
  dr_device_id : string;
  dr_label : string;
  dr_lifecycle_state : DeviceLifecycleState;
  dr_created_at : Z;
  dr_state_changed_at : Z;
  dr_last_seen_at : option Z;
  dr_last_peer_id : option string;
  dr_device_verify_key : string;
  dr_broker_join_ticket_expires_at : option Z;
  dr_path_scope : list string
}.
#[export] Instance DeviceRecord_expand : Expand DeviceRecord := λ r,
  MkDeviceRecord (dr_device_id r) (dr_label r) (dr_lifecycle_state r) (dr_created_at r)
    (dr_state_changed_at r) (dr_last_seen_at r) (dr_last_peer_id r) (dr_device_verify_key r)
    (dr_broker_join_ticket_expires_at r) (dr_path_scope r).

Record PendingPairingRequest : Type := MkRequest {
  pr_pairing_id : string;
  pr_device_id : string;
  pr_label : string;
  pr_requested_at : Z;
  pr_expires_at : Z;
  pr_broker_peer_id : string;
  pr_device_verify_key : string;
  pr_path_scope : list string
}.
#[export] Instance PendingPairingRequest_expand : Expand PendingPairingRequest := λ r,
  MkRequest (pr_pairing_id r) (pr_device_id r) (pr_label r) (pr_requested_at r) (pr_expires_at r)
    (pr_broker_peer_id r) (pr_device_verify_key r) (pr_path_scope r).

Record ClaimChallenge : Type := MkClaimChallenge {
  cc_challenge_id : string;
  cc_device_id : string;
  cc_peer_id : string;
  cc_challenge : string;
  cc_expires_at : Z
}.

Record PairedDeviceView : Type := MkPairedDeviceView {
  pv_device_id : string;
  pv_label : string;
  pv_lifecycle_state : DeviceLifecycleState;
  pv_created_at : Z;
  pv_last_seen_at : option Z;
  pv_last_peer_id : option string;
  pv_broker_join_ticket_expires_at : option Z;
  pv_fingerprint : option string;
  pv_path_scope : list string
}.

Record PendingPairingRequestView : Type := MkRequestView {
  rv_pairing_id : string;
  rv_device_id : string;
  rv_label : string;
  rv_lifecycle_state : DeviceLifecycleState;
  rv_requested_at : Z;
  rv_expires_at : Z;
  rv_broker_peer_id : string;
  rv_fingerprint : option string;
  rv_path_scope : list string
}.

Record DeviceRecordView : Type := MkDeviceRecordView {
  drv_device_id : string;
  drv_label : string;
  drv_lifecycle_state : DeviceLifecycleState;
  drv_created_at : Z;
  drv_state_changed_at : Z;
  drv_last_seen_at : option Z;
  drv_last_peer_id : option string;
  drv_broker_join_ticket_expires_at : option Z;
  drv_fingerprint : option string;
  drv_path_scope : list string
}.

Record IssuedClaimChallenge : Type := MkIssued {
  ic_challenge_id : string;
  ic_challenge : string;
  ic_expires_at : Z
}.

Record PreparedPairingTicket : Type := MkPrepared {
  pt_pairing_id : string;
  pt_pairing_secret : string;
  pt_expires_at : Z;
  pt_path_scope : list string
}.

Record CompletedPairing : Type := MkCompleted {
  cp_pairing_id : string;
  cp_pairing_secret : string;
  cp_expires_at : Z;
  cp_device_verify_key : string;
  cp_device : option PairedDeviceView;
  cp_payload_secret : option string;
  cp_relay_id : option string;
  cp_relay_label : option string;
  cp_client_claim_id : option string;
  cp_client_claim_nonce : option string;
  cp_client_claim_expires_at : option Z;
  cp_device_refresh_token : option string;
  cp_device_join_ticket : option string;
  cp_device_join_ticket_expires_at : option Z;
  cp_error : option string;
  cp_path_scope : list string
}.
#[export] Instance CompletedPairing_expand : Expand CompletedPairing := λ c,
  MkCompleted (cp_pairing_id c) (cp_pairing_secret c) (cp_expires_at c) (cp_device_verify_key c)
    (cp_device c) (cp_payload_secret c) (cp_relay_id c) (cp_relay_label c) (cp_client_claim_id c)
    (cp_client_claim_nonce c) (cp_client_claim_expires_at c) (cp_device_refresh_token c)
    (cp_device_join_ticket c) (cp_device_join_ticket_expires_at c) (cp_error c) (cp_path_scope c).

Record PendingPairingResult : Type := MkPairingResult {
  res_pairing_id : string;
  res_target_peer_id : string;
  res_pairing_secret : string;
  res_device : option PairedDeviceView;
  res_payload_secret : option string;
  res_relay_id : option string;
  res_relay_label : option string;
  res_client_claim_id : option string;
  res_client_claim_nonce : option string;
  res_client_claim_expires_at : option Z;
  res_device_refresh_token : option string;
  res_device_join_ticket : option string;
  res_device_join_ticket_expires_at : option Z;
  res_error : option string
}.

Record WatchedSurface : Type := MkWatched {
  ws_device_id : string;
  ws_thread_ids : gset string;
  ws_generation : Z
}.

(** The slice of [RelayState]. *)
Record PairingState : Type := MkPairingState {
  ps_pending_pairings : gmap string PendingPairing;
  ps_pending_pairing_requests : gmap string PendingPairingRequest;
  ps_completed_pairings : gmap string CompletedPairing;
  ps_pending_claim_challenges : gmap string ClaimChallenge;
  ps_paired_devices : gmap string PairedDevice;
  ps_device_records : gmap string DeviceRecord;
  ps_online_surface_peer_devices : gmap string string;
  ps_watched_threads : gmap string WatchedSurface;
  ps_push_subscriptions : gmap string (list string);
  ps_active_controller_device_id : option string;
  ps_active_controller_last_seen_at : option Z;
  ps_orchestrator_thread_id : option string;
  ps_orchestrator_device_id : option string;
  ps_orchestrator_system_prompt : option string;
  ps_orchestrator_system_prompt_version : option Z
}.
#[export] Instance PairingState_expand : Expand PairingState := λ s,
  MkPairingState (ps_pending_pairings s) (ps_pending_pairing_requests s) (ps_completed_pairings s)
    (ps_pending_claim_challenges s) (ps_paired_devices s) (ps_device_records s)
    (ps_online_surface_peer_devices s) (ps_watched_threads s) (ps_push_subscriptions s)
    (ps_active_controller_device_id s) (ps_active_controller_last_seen_at s)
    (ps_orchestrator_thread_id s) (ps_orchestrator_device_id s) (ps_orchestrator_system_prompt s)
    (ps_orchestrator_system_prompt_version s).

Inductive DeviceError : Type :=
| MissingOrExpired | InvalidSecret | AnotherDeviceWaiting | NotWaiting | WrongDevice | NotPaired
| ChallengeMissing | ChallengeWrongDevice | ChallengeWrongPeer | VerifyKeyMissing
| CompletedMissing.

(** ** Normalisation *)

(** [non_empty] of state.rs. *)
Definition non_empty (value : option string) : option string :=
  v ← value; let t := trim v in if is_empty t then None else Some t.

(** The loop of [normalize_remote_device_id]; the result is built in reverse. *)
Fixpoint normalize_loop (cs : list Z) (normalized : list Z) (previous_was_dash : bool) : list Z :=
  match cs with
  | [] => normalized
  | c :: cs =>
      if in_range 48 c 57 || in_range 65 c 90 || in_range 97 c 122
      then normalize_loop cs (c :: normalized) false
      else if ((c =? 45) || (c =? 95) || (c =? 32) || (c =? 46))
              && negb previous_was_dash && negb (bool_decide (normalized = []))
      then normalize_loop cs (45 :: normalized) true
      else normalize_loop cs normalized previous_was_dash
  end.

(** [while normalized.ends_with('-') { normalized.pop(); }]. *)
Fixpoint pop_dashes (normalized : list Z) : list Z :=
  match normalized with
  | 45 :: rest => pop_dashes rest
  | _ => normalized
  end.

Definition normalize_remote_device_id (value : option string) : option string :=
  v ← value;
  let input := to_ascii_lowercase (trim v) in
  if is_empty input then None
  else
    let normalized := rev (pop_dashes (normalize_loop (chars input) [] false)) in
    if bool_decide (normalized = []) then None
    else Some (of_codes (take 48 normalized)).

Definition normalize_device_label (value : option string) (fallback : string) : string :=
  let label := default (trim fallback) (non_empty value) in
  let normalized := trim label in
  let normalized := if is_empty normalized then "Remote Device" else normalized in
  if bool_decide (80 < length (chars normalized))%nat then take_chars 80 normalized else normalized.

(** [normalize_remote_device_id(..).filter(|c| !c.is_empty())]. *)
Definition requested_id (requested : option string) : option string :=
  d ← normalize_remote_device_id requested; if is_empty d then None else Some d.

(** [requested.as_deref().or(Some(peer_id)).unwrap_or("Remote Device")]. *)
Definition label_fallback (requested : option string) (peer_id : string) : string :=
  default peer_id requested.

(** ** Pruning *)
Definition prune_expired_pairings (now : Z) (s : PairingState) : PairingState :=
  let pending := filter (λ '(_, p), now < pp_expires_at p) (ps_pending_pairings s) in
  s <| ps_pending_pairings := pending |>
    <| ps_pending_pairing_requests ::= filter (λ '(id, _), is_Some (pending !! id)) |>
    <| ps_completed_pairings ::= filter (λ '(_, c), now < cp_expires_at c) |>.

Definition prune_expired_claim_challenges (now : Z) (s : PairingState) : PairingState :=
  s <| ps_pending_claim_challenges ::= filter (λ '(_, c), now < cc_expires_at c) |>.

Definition prune_claim_challenges_for_device (device_id except : string) (s : PairingState) :
    PairingState :=
  s <| ps_pending_claim_challenges ::=
         filter (λ '(id, c), cc_device_id c ≠ device_id ∨ id = except) |>.

(** ** Device records *)
Definition approved_from (d : PairedDevice) : DeviceRecord :=
  MkDeviceRecord (pd_device_id d) (pd_label d) LcApproved (pd_created_at d) (pd_created_at d)
    (pd_last_seen_at d) (pd_last_peer_id d) (pd_device_verify_key d)
    (pd_broker_join_ticket_expires_at d) (pd_path_scope d).

(** The record an approved device leaves, given the one there was. *)
Definition synced_record (d : PairedDevice) (now : Z) (old : option DeviceRecord) : DeviceRecord :=
  (default (approved_from d) old)
    <| dr_label := pd_label d |>
    <| dr_lifecycle_state := LcApproved |>
    <| dr_last_seen_at := pd_last_seen_at d |>
    <| dr_last_peer_id := pd_last_peer_id d |>
    <| dr_device_verify_key := pd_device_verify_key d |>
    <| dr_broker_join_ticket_expires_at := pd_broker_join_ticket_expires_at d |>
    <| dr_path_scope := pd_path_scope d |>
    <| dr_state_changed_at := now |>.

Definition sync_device_record_from_approved_device (d : PairedDevice) (now : Z)
    (s : PairingState) : PairingState :=
  s <| ps_device_records ::= λ m,
         <[pd_device_id d := synced_record d now (m !! pd_device_id d)]> m |>.

(** The record a rejected request leaves. *)
Definition rejected_record (device_id label key last_peer_id : string) (created_at now : Z)
    (old : option DeviceRecord) : DeviceRecord :=
  (default (MkDeviceRecord device_id label LcRejected created_at now None (Some last_peer_id) key
              None []) old)
    <| dr_label := label |>
    <| dr_lifecycle_state := LcRejected |>
    <| dr_state_changed_at := now |>
    <| dr_last_peer_id := Some last_peer_id |>
    <| dr_device_verify_key := key |>
    <| dr_broker_join_ticket_expires_at := None |>.

Definition record_rejected_device (device_id label key last_peer_id : string) (created_at now : Z)
    (s : PairingState) : PairingState :=
  s <| ps_device_records ::= λ m,
         <[device_id := rejected_record device_id label key last_peer_id created_at now
                          (m !! device_id)]> m |>.

(** The record a revoked device leaves. *)
Definition revoked_record (d : PairedDevice) (now : Z) (old : option DeviceRecord) : DeviceRecord :=
  (default (approved_from d) old)
    <| dr_label := pd_label d |>
    <| dr_lifecycle_state := LcRevoked |>
    <| dr_state_changed_at := now |>
    <| dr_last_seen_at := pd_last_seen_at d |>
    <| dr_last_peer_id := pd_last_peer_id d |>
    <| dr_device_verify_key := pd_device_verify_key d |>
    <| dr_broker_join_ticket_expires_at := pd_broker_join_ticket_expires_at d |>.

Definition record_revoked_device (d : PairedDevice) (now : Z) (s : PairingState) : PairingState :=
  s <| ps_device_records ::= λ m,
         <[pd_device_id d := revoked_record d now (m !! pd_device_id d)]> m |>.

Definition bind_surface_peer_to_device (device_id peer_id : string) (s : PairingState) :
    PairingState :=
  s <| ps_online_surface_peer_devices ::= <[peer_id := device_id]> |>.

Definition clear_watched_threads_for_device (device_id : string) (s : PairingState) :
    PairingState :=
  s <| ps_watched_threads ::= filter (λ '(_, w), ws_device_id w ≠ device_id) |>.

Definition clear_orchestrator_pin_if_device (device_id : string) (s : PairingState) :
    PairingState :=
  if bool_decide (ps_orchestrator_device_id s = Some device_id)
  then s <| ps_orchestrator_thread_id := None |>
         <| ps_orchestrator_device_id := None |>
         <| ps_orchestrator_system_prompt := None |>
         <| ps_orchestrator_system_prompt_version := None |>
  else s.

(** ** Operations *)

(** The cryptographic crates the code calls: SHA-256 and base64 ([STANDARD]), on
    strings of bytes. *)
Class DeviceCrypto := {
  sha256 : string → string;
  std_b64_decode : string → option string
}.

(** [{byte:02x}]. *)
Definition hex_digit (n : Z) : ascii :=
  ascii_of_nat (Z.to_nat (if n <? 10 then 48 + n else 87 + n)).
Definition hex_byte (b : Z) : string := String (hex_digit (b / 16)) (String (hex_digit (b mod 16)) "").

Section Ops.
Context `{DeviceCrypto}.

(** relay-util. *)
Definition sha256_hex (value : string) : string :=
  foldr (λ b hex, hex_byte b +:+ hex) "" (bytes (sha256 value)).

Definition device_fingerprint (verify_key_b64 : option string) : option string :=
  key ← verify_key_b64;
  let verify_key := trim key in
  if is_empty verify_key then None
  else
    let digest := sha256 (default verify_key (std_b64_decode verify_key)) in
    Some (String.concat ":" (map hex_byte (take 8 (bytes digest)))).

Definition device_to_view (d : PairedDevice) : PairedDeviceView :=
  MkPairedDeviceView (pd_device_id d) (pd_label d) LcApproved (pd_created_at d)
    (pd_last_seen_at d) (pd_last_peer_id d) (pd_broker_join_ticket_expires_at d)
    (device_fingerprint (Some (pd_device_verify_key d))) (pd_path_scope d).

Definition record_to_view (r : DeviceRecord) : DeviceRecordView :=
  MkDeviceRecordView (dr_device_id r) (dr_label r) (dr_lifecycle_state r) (dr_created_at r)
    (dr_state_changed_at r) (dr_last_seen_at r) (dr_last_peer_id r)
    (dr_broker_join_ticket_expires_at r) (device_fingerprint (Some (dr_device_verify_key r))) (dr_path_scope r).

Definition request_to_view (r : PendingPairingRequest) : PendingPairingRequestView :=
  MkRequestView (pr_pairing_id r) (pr_device_id r) (pr_label r) LcPending (pr_requested_at r)
    (pr_expires_at r) (pr_broker_peer_id r) (device_fingerprint (Some (pr_device_verify_key r)))
    (pr_path_scope r).

(** [id_token] and [secret] are the random tokens of lengths 10 and 32. *)
Definition prepare_pairing_ticket (requested_ttl_secs : option Z) (path_scope : list string)
    (id_token secret : string) (now : Z) (s : PairingState) :
    PairingState * PreparedPairingTicket :=
  let s := prune_expired_pairings now s in
  let ttl_secs := u64_clamp (default DEFAULT_PAIRING_TTL_SECS requested_ttl_secs) 30
                    MAX_PAIRING_TTL_SECS in
  let pairing_id := "pair-" +:+ to_ascii_lowercase id_token in
  let expires_at := u64_saturating_add now ttl_secs in
  (s <| ps_pending_pairings ::= <[pairing_id :=
          MkPendingPairing pairing_id secret (sha256_hex secret) now expires_at path_scope]> |>,
   MkPrepared pairing_id secret expires_at path_scope).

(** The device an approval leaves, given the one paired under that id. *)
Definition approved_device (device_id label payload_secret key peer_id : string)
    (ticket_expires_at : option Z) (path_scope : list string) (now : Z)
    (old : option PairedDevice) : PairedDevice :=
  (default (MkPairedDevice device_id label payload_secret key now (Some now) (Some peer_id)
              ticket_expires_at path_scope) old)
    <| pd_label := label |>
    <| pd_payload_secret := payload_secret |>
    <| pd_device_verify_key := key |>
    <| pd_last_seen_at := Some now |>
    <| pd_last_peer_id := Some peer_id |>
    <| pd_broker_join_ticket_expires_at := ticket_expires_at |>
    <| pd_path_scope := path_scope |>.

(** [device_token] (length 8) names a device that asked for no usable id,
    [payload_token] (length 40) is its payload secret. *)
Definition consume_pairing_ticket (pairing_id pairing_secret : string)
    (requested_device_id device_label : option string) (device_verify_key : string)
    (ticket_expires_at : option Z) (peer_id device_token payload_token : string) (now : Z)
    (s : PairingState) : PairingState * result (PairedDeviceView * string) DeviceError :=
  let s := prune_expired_pairings now s in
  match ps_pending_pairings s !! pairing_id with
  | None => (s, Err MissingOrExpired)
  | Some pending =>
      if negb (bool_decide (pp_secret_hash pending = sha256_hex pairing_secret))
      then (s, Err InvalidSecret)
      else
        let s := s <| ps_pending_pairings ::= delete pairing_id |> in
        let device_id := default ("device-" +:+ to_ascii_lowercase device_token)
                           (requested_id requested_device_id) in
        let label := normalize_device_label device_label
                       (label_fallback requested_device_id peer_id) in
        let device := approved_device device_id label payload_token device_verify_key peer_id
                        ticket_expires_at (pp_path_scope pending) now
                        (ps_paired_devices s !! device_id) in
        let s := s <| ps_paired_devices ::= <[device_id := device]> |> in
        let s := bind_surface_peer_to_device (pd_device_id device) peer_id s in
        let s := sync_device_record_from_approved_device device now s in
        (s, Ok (device_to_view device, payload_token))
  end.

Definition register_pairing_request (pairing_id : string)
    (requested_device_id device_label : option string) (peer_id device_verify_key : string)
    (device_token : string) (now : Z) (s : PairingState) :
    PairingState * result PendingPairingRequestView DeviceError :=
  let s := prune_expired_pairings now s in
  match ps_pending_pairings s !! pairing_id with
  | None => (s, Err MissingOrExpired)
  | Some ticket =>
      match ps_pending_pairing_requests s !! pairing_id with
      | Some existing =>
          if negb (bool_decide (pr_device_verify_key existing = device_verify_key))
          then (s, Err AnotherDeviceWaiting)
          else
            let existing := existing
              <| pr_device_id ::= λ d, default d (requested_id requested_device_id) |>
              <| pr_label := normalize_device_label device_label
                               (label_fallback requested_device_id peer_id) |>
              <| pr_broker_peer_id := peer_id |>
              <| pr_path_scope := pp_path_scope ticket |> in
            (s <| ps_pending_pairing_requests ::= <[pairing_id := existing]> |>,
             Ok (request_to_view existing))
      | None =>
          let device_id := default ("device-" +:+ to_ascii_lowercase device_token)
                             (requested_id requested_device_id) in
          let label := normalize_device_label device_label
                         (label_fallback requested_device_id peer_id) in
          let request := MkRequest pairing_id device_id label now (pp_expires_at ticket) peer_id
                           device_verify_key (pp_path_scope ticket) in
          (s <| ps_pending_pairing_requests ::= <[pairing_id := request]> |>,
           Ok (request_to_view request))
      end
  end.

Definition claim_pairing_request (pairing_id : string) (now : Z) (s : PairingState) :
    PairingState * result PendingPairingRequest DeviceError :=
  let s := prune_expired_pairings now s in
  match ps_pending_pairing_requests s !! pairing_id with
  | None => (s, Err NotWaiting)
  | Some request => (s <| ps_pending_pairing_requests ::= delete pairing_id |>, Ok request)
  end.

Definition restore_pairing_request (request : PendingPairingRequest) (s : PairingState) :
    PairingState :=
  s <| ps_pending_pairing_requests ::= <[pr_pairing_id request := request]> |>.

Definition REJECTED : string := "pairing request was rejected on the local relay".

Definition decide_pairing_request (pairing_id : string) (approved : bool)
    (ticket_expires_at : option Z) (device_token payload_token : string) (now : Z)
    (s : PairingState) : PairingState * result PendingPairingResult DeviceError :=
  let s := prune_expired_pairings now s in
  match ps_pending_pairing_requests s !! pairing_id with
  | None => (s, Err NotWaiting)
  | Some request =>
      let s := s <| ps_pending_pairing_requests ::= delete pairing_id |> in
      match ps_pending_pairings s !! pairing_id with
      | None => (s, Err MissingOrExpired)
      | Some pending =>
          if approved then
            match consume_pairing_ticket pairing_id (pp_pairing_secret pending)
                    (Some (pr_device_id request)) (Some (pr_label request))
                    (pr_device_verify_key request) ticket_expires_at (pr_broker_peer_id request)
                    device_token payload_token now s with
            | (s, Err e) => (s, Err e)
            | (s, Ok (device, token)) =>
                (s <| ps_completed_pairings ::= <[pairing_id :=
                        MkCompleted pairing_id (pp_pairing_secret pending) (pp_expires_at pending)
                          (pr_device_verify_key request) (Some device) (Some token) None None
                          None None None None None ticket_expires_at None
                          (pp_path_scope pending)]> |>,
                 Ok (MkPairingResult pairing_id (pr_broker_peer_id request)
                       (pp_pairing_secret pending) (Some device) (Some token) None None
                       None None None None None ticket_expires_at None))
            end
          else
            let s := s <| ps_pending_pairings ::= delete pairing_id |> in
            let s := record_rejected_device (pr_device_id request) (pr_label request)
                       (pr_device_verify_key request) (pr_broker_peer_id request)
                       (pr_requested_at request) now s in
            (s <| ps_completed_pairings ::= <[pairing_id :=
                    MkCompleted pairing_id (pp_pairing_secret pending) (pp_expires_at pending)
                      (pr_device_verify_key request) None None None None
                      None None None None None None (Some REJECTED) (pp_path_scope pending)]> |>,
             Ok (MkPairingResult pairing_id (pr_broker_peer_id request)
                   (pp_pairing_secret pending) None None None None
                   None None None None None None (Some REJECTED)))
      end
  end.

Definition completed_pairing_result (pairing_id device_verify_key peer_id : string) (now : Z)
    (s : PairingState) : PairingState * result (option PendingPairingResult) DeviceError :=
  let s := prune_expired_pairings now s in
  match ps_completed_pairings s !! pairing_id with
  | None => (s, Ok None)
  | Some c =>
      if negb (bool_decide (cp_device_verify_key c = device_verify_key))
      then (s, Err WrongDevice)
      else (s, Ok (Some (MkPairingResult (cp_pairing_id c) peer_id (cp_pairing_secret c)
                           (cp_device c) (cp_payload_secret c) (cp_relay_id c) (cp_relay_label c)
                           (cp_client_claim_id c) (cp_client_claim_nonce c)
                           (cp_client_claim_expires_at c) (cp_device_refresh_token c)
                           (cp_device_join_ticket c) (cp_device_join_ticket_expires_at c)
                           (cp_error c))))
  end.

(** *** Revocation *)
Definition revoke_paired_device (device_id : string) (now : Z) (s : PairingState) :
    PairingState * bool :=
  match ps_paired_devices s !! device_id with
  | None => (s, false)
  | Some device =>
      let s := s <| ps_paired_devices ::= delete device_id |>
                 <| ps_push_subscriptions ::= delete device_id |> in
      let s := clear_watched_threads_for_device device_id s in
      let s := record_revoked_device device now s in
      let s := if bool_decide (ps_active_controller_device_id s = Some device_id)
               then s <| ps_active_controller_device_id := None |>
                      <| ps_active_controller_last_seen_at := None |>
               else s in
      (clear_orchestrator_pin_if_device device_id s, true)
  end.

Definition revoke_all_other_paired_devices (keep_device_id : string) (now : Z)
    (s : PairingState) : PairingState * result (list string) DeviceError :=
  if negb (is_some (ps_paired_devices s !! keep_device_id)) then (s, Err NotPaired)
  else
    let revoked := filter (λ id, id ≠ keep_device_id) (map_to_list (ps_paired_devices s)).*1 in
    (foldl (λ s id, (revoke_paired_device id now s).1) s revoked, Ok revoked).

Definition pending_pairing_secret (pairing_id : string) (now : Z) (s : PairingState) :
    PairingState * result string DeviceError :=
  let s := prune_expired_pairings now s in
  (s, ok_or (option_or (pp_pairing_secret <$> ps_pending_pairings s !! pairing_id)
                       (cp_pairing_secret <$> ps_completed_pairings s !! pairing_id))
            MissingOrExpired).

(** *** Claim challenges; [id_token] and [challenge] are random. *)
Definition issue_claim_challenge (device_id peer_id id_token challenge : string) (now : Z)
    (s : PairingState) : PairingState * result IssuedClaimChallenge DeviceError :=
  let s := prune_expired_claim_challenges now s in
  let s := prune_claim_challenges_for_device device_id "" s in
  let challenge_id := "claim-" +:+ to_ascii_lowercase id_token in
  let expires_at := u64_saturating_add now CLAIM_CHALLENGE_TTL_SECS in
  match ps_paired_devices s !! device_id with
  | None => (s, Err NotPaired)
  | Some _ =>
      (s <| ps_pending_claim_challenges ::= <[challenge_id :=
              MkClaimChallenge challenge_id device_id peer_id challenge expires_at]> |>,
       Ok (MkIssued challenge_id challenge expires_at))
  end.

Definition claim_challenge (device_id challenge_id peer_id : string) (now : Z)
    (s : PairingState) : PairingState * result ClaimChallenge DeviceError :=
  let s := prune_expired_claim_challenges now s in
  (s, match ps_pending_claim_challenges s !! challenge_id with
      | None => Err ChallengeMissing
      | Some challenge =>
          if negb (bool_decide (cc_device_id challenge = device_id)) then Err ChallengeWrongDevice
          else if negb (bool_decide (cc_peer_id challenge = peer_id)) then Err ChallengeWrongPeer
          else match ps_paired_devices s !! device_id with
               | None => Err NotPaired
               | Some _ => Ok challenge
               end
      end).

(** The tail shared by [complete_remote_claim] and [mark_paired_device_seen]. *)
Definition mark_paired_device_seen (device_id peer_id : string) (now : Z) (s : PairingState) :
    PairingState * result () DeviceError :=
  match ps_paired_devices s !! device_id with
  | None => (s, Err NotPaired)
  | Some device =>
      let device := device <| pd_last_seen_at := Some now |>
                           <| pd_last_peer_id := Some peer_id |> in
      let s := s <| ps_paired_devices ::= <[device_id := device]> |> in
      let s := bind_surface_peer_to_device device_id peer_id s in
      (sync_device_record_from_approved_device device now s, Ok ())
  end.

Definition complete_remote_claim (device_id challenge_id peer_id : string) (now : Z)
    (s : PairingState) : PairingState * result () DeviceError :=
  match claim_challenge device_id challenge_id peer_id now s with
  | (s, Err e) => (s, Err e)
  | (s, Ok challenge) =>
      let s := s <| ps_pending_claim_challenges ::= delete challenge_id |> in
      match mark_paired_device_seen device_id peer_id now s with
      | (s, Err e) => (s, Err e)
      | (s, Ok _) =>
          (prune_claim_challenges_for_device device_id (cc_challenge_id challenge) s, Ok ())
      end
  end.

(** *** Lookups *)
Definition paired_device_payload_secret (device_id : string) (s : PairingState) :
    result string DeviceError :=
  ok_or (pd_payload_secret <$> ps_paired_devices s !! device_id) NotPaired.

Definition paired_device_peer_id (device_id : string) (s : PairingState) : option string :=
  ps_paired_devices s !! device_id ≫= pd_last_peer_id.

Definition device_path_scope (device_id : string) (s : PairingState) : list string :=
  default [] (pd_path_scope <$> ps_paired_devices s !! device_id).

Definition paired_device_verify_key (device_id : string) (s : PairingState) :
    result string DeviceError :=
  let? verify_key := ok_or (pd_device_verify_key <$> ps_paired_devices s !! device_id) NotPaired in
  if is_empty (trim verify_key) then Err VerifyKeyMissing else Ok verify_key.

(** *** Broker credentials *)
Definition attach_pairing_broker_credential (pairing_id : string)
    (device_refresh_token : option string) (device_join_ticket : string)
    (ticket_expires_at : option Z) (now : Z) (s : PairingState) :
    PairingState * result () DeviceError :=
  match ps_completed_pairings s !! pairing_id with
  | None => (s, Err CompletedMissing)
  | Some completed =>
      let completed := completed
        <| cp_device_refresh_token := device_refresh_token |>
        <| cp_device_join_ticket := Some device_join_ticket |>
        <| cp_device_join_ticket_expires_at := ticket_expires_at |> in
      let s := s <| ps_completed_pairings ::= <[pairing_id := completed]> |> in
      match pv_device_id <$> cp_device completed with
      | None => (s, Ok ())
      | Some device_id =>
          match ps_paired_devices s !! device_id with
          | None => (s, Err NotPaired)
          | Some device =>
              let device := device <| pd_broker_join_ticket_expires_at := ticket_expires_at |> in
              let s := s <| ps_paired_devices ::= <[device_id := device]> |> in
              (sync_device_record_from_approved_device device now s, Ok ())
          end
      end
  end.

Definition attach_pairing_client_grant (pairing_id : string)
    (relay_id relay_label client_claim_id client_claim_nonce : option string)
    (client_claim_expires_at : option Z) (s : PairingState) :
    PairingState * result () DeviceError :=
  match ps_completed_pairings s !! pairing_id with
  | None => (s, Err CompletedMissing)
  | Some completed =>
      (s <| ps_completed_pairings ::= <[pairing_id := completed
              <| cp_relay_id := relay_id |>
              <| cp_relay_label := relay_label |>
              <| cp_client_claim_id := client_claim_id |>
              <| cp_client_claim_nonce := client_claim_nonce |>
              <| cp_client_claim_expires_at := client_claim_expires_at |>]> |>, Ok ())
  end.
End Ops.
