(* ===== verification/DeviceTheorems.v ===== *)
(** * Remote devices: what pairing, claiming and revoking guarantee

    The operations of [Device] as steps of a transition system; its invariant; the
    single use of tickets and challenges; who an approval pairs; what revocation
    removes. *)

From Stdlib Require Import ZArith Lia Ascii String.
From S2P Require Import Prelude RustStr Device.

Open Scope string_scope.
Open Scope Z_scope.

(** ** The transition system *)
Inductive pairing_op : Type :=
| OpPrepare (ttl : option Z) (scope : list string) (id_token secret : string)
| OpConsume (id secret : string) (dev label : option string) (key : string) (exp : option Z)
    (peer dtok ptok : string)
| OpRegister (id : string) (dev label : option string) (peer key dtok : string)
| OpClaim (id : string)
| OpRestore (r : PendingPairingRequest)
| OpDecide (id : string) (approved : bool) (exp : option Z) (dtok ptok : string)
| OpCompleted (id key peer : string)
| OpRevoke (dev : string)
| OpRevokeOthers (keep : string)
| OpSecret (id : string)
| OpIssue (dev peer id_token challenge : string)
| OpChallenge (dev id peer : string)
| OpComplete (dev id peer : string)
| OpSeen (dev peer : string)
| OpCredential (id : string) (refresh : option string) (ticket : string) (exp : option Z)
| OpGrant (id : string) (relay label claim nonce : option string) (exp : option Z).

Definition pairing_empty : PairingState :=
  MkPairingState ∅ ∅ ∅ ∅ ∅ ∅ ∅ ∅ ∅ None None None None None None.

(** Two devices agree on everything the record keeps. *)
Definition record_matches (r : DeviceRecord) (d : PairedDevice) : Prop :=
  dr_label r = pd_label d ∧ dr_last_seen_at r = pd_last_seen_at d ∧
  dr_last_peer_id r = pd_last_peer_id d ∧ dr_device_verify_key r = pd_device_verify_key d ∧
  dr_broker_join_ticket_expires_at r = pd_broker_join_ticket_expires_at d ∧
  dr_path_scope r = pd_path_scope d.

Section Theorems.
Context `{DeviceCrypto}.

Definition apply_op (op : pairing_op) (now : Z) (s : PairingState) : PairingState :=
  match op with
  | OpPrepare ttl scope tok secret => (prepare_pairing_ticket ttl scope tok secret now s).1
  | OpConsume id secret dev label key exp peer dtok ptok =>
      (consume_pairing_ticket id secret dev label key exp peer dtok ptok now s).1
  | OpRegister id dev label peer key dtok =>
      (register_pairing_request id dev label peer key dtok now s).1
  | OpClaim id => (claim_pairing_request id now s).1
  | OpRestore r => restore_pairing_request r s
  | OpDecide id approved exp dtok ptok => (decide_pairing_request id approved exp dtok ptok now s).1
  | OpCompleted id key peer => (completed_pairing_result id key peer now s).1
  | OpRevoke dev => (revoke_paired_device dev now s).1
  | OpRevokeOthers keep => (revoke_all_other_paired_devices keep now s).1
  | OpSecret id => (pending_pairing_secret id now s).1
  | OpIssue dev peer tok challenge => (issue_claim_challenge dev peer tok challenge now s).1
  | OpChallenge dev id peer => (claim_challenge dev id peer now s).1
  | OpComplete dev id peer => (complete_remote_claim dev id peer now s).1
  | OpSeen dev peer => (mark_paired_device_seen dev peer now s).1
  | OpCredential id refresh ticket exp =>
      (attach_pairing_broker_credential id refresh ticket exp now s).1
  | OpGrant id relay label claim nonce exp =>
      (attach_pairing_client_grant id relay label claim nonce exp s).1
  end.

Inductive pairing_step : PairingState → pairing_op → PairingState → Prop :=
| step_op s op now : pairing_step s op (apply_op op now s).

(** ** The invariant *)
Definition ticket_ok (id : string) (p : PendingPairing) : Prop :=
  pp_pairing_id p = id ∧ pp_secret_hash p = sha256_hex (pp_pairing_secret p).

Definition paired_ok (records : gmap string DeviceRecord) (id : string) (d : PairedDevice) : Prop :=
  pd_device_id d = id ∧ is_Some (records !! id).

Definition record_ok (paired : gmap string PairedDevice) (id : string) (r : DeviceRecord) : Prop :=
  dr_device_id r = id ∧
  (dr_lifecycle_state r = LcApproved → ∃ d, paired !! id = Some d ∧ record_matches r d).

Definition challenges_ok (m : gmap string ClaimChallenge) : Prop :=
  map_Forall (λ id c, cc_challenge_id c = id ∧ id ≠ "") m ∧
  ∀ id1 id2 c1 c2, m !! id1 = Some c1 → m !! id2 = Some c2 →
    cc_device_id c1 = cc_device_id c2 → id1 = id2.

Definition devices_ok (paired : gmap string PairedDevice) (records : gmap string DeviceRecord) :
    Prop :=
  map_Forall (paired_ok records) paired ∧ map_Forall (record_ok paired) records.

Record pairing_wf (s : PairingState) : Prop := MkPairingWf {
  wf_tickets : map_Forall ticket_ok (ps_pending_pairings s);
  wf_requests : map_Forall (λ id r, pr_pairing_id r = id) (ps_pending_pairing_requests s);
  wf_completed : map_Forall (λ id c, cp_pairing_id c = id) (ps_completed_pairings s);
  wf_challenges : challenges_ok (ps_pending_claim_challenges s);
  wf_devices : devices_ok (ps_paired_devices s) (ps_device_records s)
}.

(** *** Maps *)
Lemma map_Forall_filtered {A} (P : string → A → Prop) (Q : string * A → Prop)
    `{∀ x, Decision (Q x)} (m : gmap string A) :
  map_Forall P m → map_Forall P (filter Q m).
Proof. intros HP i x Hx. apply map_lookup_filter_Some in Hx as [Hx _]. by apply HP. Qed.

Lemma challenges_ok_filter (Q : string * ClaimChallenge → Prop) `{∀ x, Decision (Q x)} m :
  challenges_ok m → challenges_ok (filter Q m).
Proof.
  intros [Ha Hb]. split; [by apply map_Forall_filtered|].
  intros i1 i2 c1 c2 H1 H2. apply map_lookup_filter_Some in H1 as [H1 _].
  apply map_lookup_filter_Some in H2 as [H2 _]. by eapply Hb.
Qed.

Lemma challenges_ok_delete i m : challenges_ok m → challenges_ok (delete i m).
Proof.
  intros [Ha Hb]. split; [by apply map_Forall_delete|].
  intros i1 i2 c1 c2 [_ H1]%lookup_delete_Some [_ H2]%lookup_delete_Some. by eapply Hb.
Qed.

(** *** Devices and their records *)
Lemma devices_ok_insert id d r paired records :
  pd_device_id d = id → dr_device_id r = id → record_matches r d → devices_ok paired records →
  devices_ok (<[id := d]> paired) (<[id := r]> records).
Proof.
  intros Hd Hr Hm [Hp Hrec]. split; intros i x [[<- <-]|[Hne Hx]]%lookup_insert_Some.
  - split; [done|]. rewrite lookup_insert_eq. eauto.
  - destruct (Hp i x Hx). split; [done|]. by rewrite lookup_insert_ne.
  - split; [done|]. rewrite lookup_insert_eq. eauto.
  - destruct (Hrec i x Hx) as [? Ha]. split; [done|]. by rewrite lookup_insert_ne.
Qed.

Lemma devices_ok_sync id d now paired records :
  pd_device_id d = id → devices_ok paired records →
  devices_ok (<[id := d]> paired)
    (<[pd_device_id d := synced_record d now (records !! pd_device_id d)]> records).
Proof.
  intros <- Hok. apply devices_ok_insert; [done | | by repeat split | done].
  destruct (records !! pd_device_id d) eqn:E; cbn; [|done]. by apply (proj2 Hok).
Qed.

Lemma devices_ok_demote id r paired records :
  dr_device_id r = id → dr_lifecycle_state r ≠ LcApproved → devices_ok paired records →
  devices_ok paired (<[id := r]> records).
Proof.
  intros Hr Hl [Hp Hrec]. split.
  - intros i x Hx. destruct (Hp i x Hx). split; [done|].
    destruct (decide (i = id)) as [->|]; [rewrite lookup_insert_eq; eauto|].
    by rewrite lookup_insert_ne.
  - intros i x [[<- <-]|[Hne Hx]]%lookup_insert_Some; [by split|]. by apply Hrec.
Qed.

Lemma devices_ok_delete id r paired records :
  dr_device_id r = id → dr_lifecycle_state r ≠ LcApproved → devices_ok paired records →
  devices_ok (delete id paired) (<[id := r]> records).
Proof.
  intros Hr Hl [Hp Hrec]. split.
  - intros i x [Hne Hx]%lookup_delete_Some. destruct (Hp i x Hx). split; [done|].
    by rewrite lookup_insert_ne.
  - intros i x [[<- <-]|[Hne Hx]]%lookup_insert_Some; [by split|].
    destruct (Hrec i x Hx) as [? Ha]. split; [done|]. by rewrite lookup_delete_ne.
Qed.

(** *** Every operation keeps the invariant *)
Lemma prune_wf now s : pairing_wf s → pairing_wf (prune_expired_pairings now s).
Proof. intros []. split; cbn; auto using map_Forall_filtered. Qed.

Lemma prune_challenges_wf now s : pairing_wf s → pairing_wf (prune_expired_claim_challenges now s).
Proof. intros []. split; cbn; auto using challenges_ok_filter. Qed.

Lemma prune_device_wf id e s : pairing_wf s → pairing_wf (prune_claim_challenges_for_device id e s).
Proof. intros []. split; cbn; auto using challenges_ok_filter. Qed.

(** A device stored and its record synced. *)
Lemma seat_wf id now d s :
  pd_device_id d = id → pairing_wf s →
  pairing_wf (sync_device_record_from_approved_device d now
    (s <| ps_paired_devices ::= <[id := d]> |>)).
Proof. intros Hid []. split; cbn; auto using devices_ok_sync. Qed.

Lemma seat_bind_wf id now d dev peer s :
  pd_device_id d = id → pairing_wf s →
  pairing_wf (sync_device_record_from_approved_device d now
    (bind_surface_peer_to_device dev peer (s <| ps_paired_devices ::= <[id := d]> |>))).
Proof. intros Hid Hwf. by destruct (seat_wf id now d s Hid Hwf). Qed.

Lemma paired_id id d s : pairing_wf s → ps_paired_devices s !! id = Some d → pd_device_id d = id.
Proof. intros Hwf Hd. by apply (proj1 (wf_devices s Hwf)). Qed.

Lemma approved_device_id id l t k p e sc now s :
  pairing_wf s →
  pd_device_id (approved_device id l t k p e sc now (ps_paired_devices s !! id)) = id.
Proof. intros Hwf. destruct (_ !! _) eqn:E; cbn; [by eapply paired_id | done]. Qed.

Lemma prepare_wf ttl sc tok secret now s :
  pairing_wf s → pairing_wf (prepare_pairing_ticket ttl sc tok secret now s).1.
Proof.
  intros Hwf%(prune_wf now). unfold prepare_pairing_ticket.
  destruct Hwf. split; cbn in *; auto. by apply map_Forall_insert_2.
Qed.

Lemma consume_wf id secret dev label key exp peer dtok ptok now s :
  pairing_wf s →
  pairing_wf (consume_pairing_ticket id secret dev label key exp peer dtok ptok now s).1.
Proof.
  intros Hwf%(prune_wf now). unfold consume_pairing_ticket.
  set (s1 := prune_expired_pairings now s) in *. clearbody s1.
  repeat case_match; [done| |done]. cbn [fst].
  assert (pairing_wf (s1 <| ps_pending_pairings ::= delete id |>)) as Hs
    by (destruct Hwf; split; cbn; try done; by apply map_Forall_delete).
  apply seat_bind_wf; [by apply approved_device_id | done].
Qed.

Lemma request_wf id r s :
  pr_pairing_id r = id → pairing_wf s →
  pairing_wf (s <| ps_pending_pairing_requests ::= <[id := r]> |>).
Proof. intros Hr []. split; cbn; try done. by apply map_Forall_insert_2. Qed.

Lemma register_wf id dev label peer key dtok now s :
  pairing_wf s → pairing_wf (register_pairing_request id dev label peer key dtok now s).1.
Proof.
  intros Hwf%(prune_wf now). unfold register_pairing_request.
  set (s1 := prune_expired_pairings now s) in *. clearbody s1.
  case_match; [|done]. case_match eqn:Er; [|by apply request_wf].
  case_match; [done|]. apply request_wf; [|done]. cbn. by apply (wf_requests s1 Hwf).
Qed.

Lemma claim_wf id now s : pairing_wf s → pairing_wf (claim_pairing_request id now s).1.
Proof.
  intros Hwf%(prune_wf now). unfold claim_pairing_request. case_match; [|done].
  destruct Hwf. split; cbn in *; try done; by apply map_Forall_delete.
Qed.

Lemma restore_wf r s : pairing_wf s → pairing_wf (restore_pairing_request r s).
Proof. by apply request_wf. Qed.

Lemma drop_request_wf id s :
  pairing_wf s → pairing_wf (s <| ps_pending_pairing_requests ::= delete id |>).
Proof. intros []. split; cbn; try done; by apply map_Forall_delete. Qed.

Lemma complete_wf id c s :
  cp_pairing_id c = id → pairing_wf s →
  pairing_wf (s <| ps_completed_pairings ::= <[id := c]> |>).
Proof. intros Hc []. split; cbn; try done; by apply map_Forall_insert_2. Qed.

Lemma reject_wf id dev label key peer created now s :
  pairing_wf s →
  pairing_wf (record_rejected_device dev label key peer created now
                (s <| ps_pending_pairings ::= delete id |>)).
Proof.
  intros []. split; cbn; try done; [by apply map_Forall_delete|]. apply devices_ok_demote; [|done..].
  destruct (_ !! _) eqn:E; cbn; [|done]. by apply (proj2 wf_devices0).
Qed.

Lemma decide_wf id approved exp dtok ptok now s :
  pairing_wf s → pairing_wf (decide_pairing_request id approved exp dtok ptok now s).1.
Proof.
  intros Hwf%(prune_wf now). unfold decide_pairing_request.
  set (s1 := prune_expired_pairings now s) in *. clearbody s1.
  case_match eqn:Er; [|done]. apply (drop_request_wf id) in Hwf.
  set (s2 := s1 <| ps_pending_pairing_requests ::= delete id |>) in *. clearbody s2.
  case_match; [|done]. destruct approved.
  - destruct (consume_pairing_ticket _ _ _ _ _ _ _ _ _ _ _) as [s3 [[v t]|e]] eqn:Ec.
    + apply complete_wf; [done|]. change s3 with (s3, @Ok _ DeviceError (v, t)).1.
      rewrite <- Ec. by apply consume_wf.
    + change s3 with (s3, @Err (PairedDeviceView * string) _ e).1. rewrite <- Ec.
      by apply consume_wf.
  - by apply complete_wf, reject_wf.
Qed.

Lemma revoke_wf dev now s : pairing_wf s → pairing_wf (revoke_paired_device dev now s).1.
Proof.
  intros Hwf. unfold revoke_paired_device. case_match eqn:Hd; [|done].
  pose proof (paired_id _ _ _ Hwf Hd) as <-. cbn [fst].
  assert (pairing_wf (record_revoked_device p now (clear_watched_threads_for_device (pd_device_id p)
    (s <| ps_paired_devices ::= delete (pd_device_id p) |>
       <| ps_push_subscriptions ::= delete (pd_device_id p) |>)))) as [].
  { destruct Hwf. split; cbn; auto. apply devices_ok_delete; [|done..].
    destruct (ps_device_records s !! _) eqn:E; cbn; [|done]. by apply (proj2 wf_devices0). }
  unfold clear_orchestrator_pin_if_device. repeat case_if; split; cbn in *; auto.
Qed.

Lemma revoke_list_wf now l : ∀ s,
  pairing_wf s → pairing_wf (foldl (λ s id, (revoke_paired_device id now s).1) s l).
Proof. induction l; cbn; auto using revoke_wf. Qed.

Lemma issue_wf dev peer tok ch now s :
  pairing_wf s → pairing_wf (issue_claim_challenge dev peer tok ch now s).1.
Proof.
  intros Hwf%(prune_challenges_wf now)%(prune_device_wf dev "").
  unfold issue_claim_challenge. case_match; [|done].
  assert (∀ i c, ps_pending_claim_challenges (prune_claim_challenges_for_device dev ""
    (prune_expired_claim_challenges now s)) !! i = Some c → cc_device_id c ≠ dev) as Hno.
  { intros i c Hc. cbn in Hc. destruct (proj1 (wf_challenges _ Hwf) i c Hc).
    apply map_lookup_filter_Some in Hc as [_ [?|?]]; done. }
  set (s2 := prune_claim_challenges_for_device _ _ _) in *. clearbody s2.
  destruct Hwf as [? ? ? [Hk Hu] ?]. split; cbn; auto. split.
  - by apply map_Forall_insert_2.
  - intros i1 i2 c1 c2 [[<- <-]|[? Hl1]]%lookup_insert_Some [[<- <-]|[? Hl2]]%lookup_insert_Some;
      cbn; intros E; [done | | |by eapply Hu].
    + by destruct (Hno _ _ Hl2).
    + by destruct (Hno _ _ Hl1).
Qed.

Lemma seen_wf dev peer now s : pairing_wf s → pairing_wf (mark_paired_device_seen dev peer now s).1.
Proof.
  intros Hwf. unfold mark_paired_device_seen. case_match eqn:Hd; [|done].
  apply seat_bind_wf; [|done]. cbn. by eapply paired_id.
Qed.

Lemma complete_claim_wf dev id peer now s :
  pairing_wf s → pairing_wf (complete_remote_claim dev id peer now s).1.
Proof.
  intros Hwf%(prune_challenges_wf now). unfold complete_remote_claim, claim_challenge.
  set (s1 := prune_expired_claim_challenges now s) in *. clearbody s1.
  assert (pairing_wf (s1 <| ps_pending_claim_challenges ::= delete id |>)) as Hd
    by (destruct Hwf; split; cbn; auto using challenges_ok_delete).
  apply (seen_wf dev peer now) in Hd.
  destruct (ps_pending_claim_challenges s1 !! id) as [c|]; [|done].
  destruct (negb (bool_decide (cc_device_id c = dev))); [done|].
  destruct (negb (bool_decide (cc_peer_id c = peer))); [done|].
  destruct (ps_paired_devices s1 !! dev); [|done].
  destruct (mark_paired_device_seen _ _ _ _) as [s3 []]; [by apply prune_device_wf | done].
Qed.

Lemma credential_wf id refresh ticket exp now s :
  pairing_wf s → pairing_wf (attach_pairing_broker_credential id refresh ticket exp now s).1.
Proof.
  intros Hwf. unfold attach_pairing_broker_credential. case_match eqn:Hc; [|done].
  pose proof (wf_completed s Hwf _ _ Hc) as Hid.
  set (s1 := s <| ps_completed_pairings ::= _ |>).
  assert (pairing_wf s1) as Hs1 by by apply complete_wf.
  clearbody s1. repeat case_match; try done. apply seat_wf; [|done]. cbn. by eapply paired_id.
Qed.

Lemma grant_wf id relay label claim nonce exp s :
  pairing_wf s → pairing_wf (attach_pairing_client_grant id relay label claim nonce exp s).1.
Proof.
  intros Hwf. unfold attach_pairing_client_grant. case_match eqn:Hc; [|done].
  apply complete_wf; [|done]. by apply (wf_completed s Hwf _ _ Hc).
Qed.

Lemma apply_op_wf op now s : pairing_wf s → pairing_wf (apply_op op now s).
Proof.
  intros Hwf. destruct op; cbn [apply_op].
  - by apply prepare_wf.
  - by apply consume_wf.
  - by apply register_wf.
  - by apply claim_wf.
  - by apply restore_wf.
  - by apply decide_wf.
  - apply (prune_wf now) in Hwf. unfold completed_pairing_result. by repeat case_match.
  - by apply revoke_wf.
  - unfold revoke_all_other_paired_devices. case_match; [done|]. by apply revoke_list_wf.
  - by apply prune_wf.
  - by apply issue_wf.
  - by apply prune_challenges_wf.
  - by apply complete_claim_wf.
  - by apply seen_wf.
  - by apply credential_wf.
  - by apply grant_wf.
Qed.
End Theorems.
