(* ===== verification/DevicePromises.v ===== *)
(** * Remote devices: the promises of pairing, claiming and revoking

    The theorems of the device component, on the transition system and the invariant
    of [DeviceTheorems].  Witnesses run with a concrete stand-in for SHA-256 and
    base64. *)

From Stdlib Require Import ZArith Lia Ascii String.
From S2P Require Import Prelude RustStr Device DeviceTheorems.

Open Scope string_scope.
Open Scope Z_scope.

Definition toy_crypto : DeviceCrypto :=
  {| sha256 := λ s, s; std_b64_decode := λ _, None |}.

Section Promises.
Context `{DeviceCrypto}.

(** ** What pruning keeps *)
Lemma prune_ticket now s id p :
  ps_pending_pairings s !! id = Some p → now < pp_expires_at p →
  ps_pending_pairings (prune_expired_pairings now s) !! id = Some p.
Proof. intros ? ?. cbn. by apply map_lookup_filter_Some_2. Qed.

Lemma prune_ticket_inv now s id p :
  ps_pending_pairings (prune_expired_pairings now s) !! id = Some p →
  ps_pending_pairings s !! id = Some p ∧ now < pp_expires_at p.
Proof. cbn. by intros [? ?]%map_lookup_filter_Some. Qed.

Lemma prune_request now s id r p :
  ps_pending_pairings s !! id = Some p → now < pp_expires_at p →
  ps_pending_pairing_requests s !! id = Some r →
  ps_pending_pairing_requests (prune_expired_pairings now s) !! id = Some r.
Proof.
  intros Hp Ht Hr. cbn. apply map_lookup_filter_Some_2; [done|].
  exists p. by apply map_lookup_filter_Some_2.
Qed.

Lemma prune_spent now s id :
  ps_pending_pairings s !! id = None →
  ps_pending_pairings (prune_expired_pairings now s) !! id = None ∧
  ps_pending_pairing_requests (prune_expired_pairings now s) !! id = None.
Proof.
  intros Hp. assert (ps_pending_pairings (prune_expired_pairings now s) !! id = None) as Hn.
  { cbn. apply map_lookup_filter_None_2. by left. }
  split; [done|]. cbn in *. apply map_lookup_filter_None_2. right. intros r _. rewrite Hn.
  by intros [? ?].
Qed.

Lemma prune_completed now s id c :
  ps_completed_pairings s !! id = Some c → now < cp_expires_at c →
  ps_completed_pairings (prune_expired_pairings now s) !! id = Some c.
Proof. intros ? ?. cbn. by apply map_lookup_filter_Some_2. Qed.

(** ** The invariant *)

Lemma pairing_empty_wf : pairing_wf pairing_empty.
Proof.
  split; cbn; try apply map_Forall_empty; split; try apply map_Forall_empty.
  intros i1 i2 c1 c2 Hc. by rewrite lookup_empty in Hc.
Qed.

(** C30: in every state the operations reach from an empty relay, tickets carry the
    hash of their secret, every map is keyed by the identity its entries carry, a
    device has at most one outstanding claim challenge, every paired device has a
    record, and an Approved record belongs to a paired device and agrees with it. *)
Theorem pairing_state_well_formed s :
  reachable (λ s, s = pairing_empty) pairing_step s → pairing_wf s.
Proof.
  apply reachable_ind_inv; [intros ? ->; apply pairing_empty_wf|].
  intros s0 op s1 _ Hwf Hs; destruct Hs; by apply apply_op_wf.
Qed.

(** ** Approval *)
Lemma consume_ok id p secret dev label key exp peer dtok ptok now s :
  ps_pending_pairings s !! id = Some p → now < pp_expires_at p →
  pp_secret_hash p = sha256_hex secret →
  let did := default ("device-" +:+ to_ascii_lowercase dtok) (requested_id dev) in
  let d := approved_device did (normalize_device_label label (label_fallback dev peer)) ptok key
             peer exp (pp_path_scope p) now (ps_paired_devices s !! did) in
  consume_pairing_ticket id secret dev label key exp peer dtok ptok now s =
    (sync_device_record_from_approved_device d now
       (bind_surface_peer_to_device (pd_device_id d) peer
          ((prune_expired_pairings now s) <| ps_pending_pairings ::= delete id |>
             <| ps_paired_devices ::= <[did := d]> |>)), Ok (device_to_view d, ptok)).
Proof.
  intros Hp Ht Hh did d. unfold consume_pairing_ticket.
  rewrite (prune_ticket now s id p Hp Ht), Hh. rewrite bool_decide_eq_true_2 by done. cbn [negb]. reflexivity.
Qed.

(** C5: approving a waiting request pairs one device.  Its id is the id of the request
    normalised once more, which can differ from the id the request showed
    ([approval_can_rename_the_device]); its key is the key the request was registered with,
    its scope that of the ticket, its secret the fresh one, sent only to the peer of the
    request.  The device of every other id keeps its record, and ticket and request are gone. *)
Theorem approval_pairs_the_registered_device s id r p exp dtok ptok now :
  pairing_wf s →
  ps_pending_pairing_requests s !! id = Some r → ps_pending_pairings s !! id = Some p →
  now < pp_expires_at p →
  let out := decide_pairing_request id true exp dtok ptok now s in
  let did := default ("device-" +:+ to_ascii_lowercase dtok)
               (requested_id (Some (pr_device_id r))) in
  ∃ d rec, ps_paired_devices out.1 !! did = Some d ∧ ps_device_records out.1 !! did = Some rec ∧
    pd_device_id d = did ∧ pd_device_verify_key d = pr_device_verify_key r ∧
    pd_payload_secret d = ptok ∧ pd_path_scope d = pp_path_scope p ∧
    pd_last_peer_id d = Some (pr_broker_peer_id r) ∧
    dr_lifecycle_state rec = LcApproved ∧ record_matches rec d ∧
    out.2 = Ok (MkPairingResult id (pr_broker_peer_id r) (pp_pairing_secret p)
                  (Some (device_to_view d)) (Some ptok) None None None None None None None exp
                  None) ∧
    ps_pending_pairings out.1 !! id = None ∧ ps_pending_pairing_requests out.1 !! id = None ∧
    (∀ other, other ≠ did →
       ps_paired_devices out.1 !! other = ps_paired_devices s !! other ∧
       ps_device_records out.1 !! other = ps_device_records s !! other).
Proof.
  intros Hwf Hr Hp Ht. cbv zeta. unfold decide_pairing_request.
  rewrite (prune_request now s id r p Hp Ht Hr).
  set (s2 := (prune_expired_pairings now s) <| ps_pending_pairing_requests ::= delete id |>).
  assert (ps_pending_pairings s2 !! id = Some p) as Hp2 by by apply prune_ticket.
  rewrite Hp2.
  rewrite (consume_ok id p _ _ _ _ _ _ _ _ _ _ Hp2 Ht) by apply (wf_tickets s Hwf _ _ Hp).
  set (did := default _ _). set (d := approved_device did _ _ _ _ _ _ _ _).
  assert (pd_device_id d = did) as Hd by exact (approved_device_id _ _ _ _ _ _ _ _ s Hwf).
  assert (pd_device_verify_key d = pr_device_verify_key r ∧ pd_payload_secret d = ptok ∧
    pd_path_scope d = pp_path_scope p ∧ pd_last_peer_id d = Some (pr_broker_peer_id r))
    as (? & ? & ? & ?) by done.
  clearbody d. exists d, (synced_record d now (ps_device_records s !! did)).
  cbn. rewrite Hd, !lookup_insert_eq. split_and!; try done.
  - by rewrite lookup_delete_eq.
  - apply map_lookup_filter_None_2. left. by rewrite lookup_delete_eq.
  - intros other Hne. by rewrite !lookup_insert_ne.
Qed.

(** ** Bystanders *)

(** A registration attempt on the ticket: requested id, label, peer, key, token, time. *)
Record attempt : Type := MkAttempt {
  at_device_id : option string;
  at_label : option string;
  at_peer : string;
  at_key : string;
  at_token : string;
  at_now : Z
}.

Definition try_register (id : string) (s : PairingState) (a : attempt) : PairingState :=
  (register_pairing_request id (at_device_id a) (at_label a) (at_peer a) (at_key a) (at_token a)
     (at_now a) s).1.

Lemma register_refused id r p a s :
  ps_pending_pairing_requests s !! id = Some r → ps_pending_pairings s !! id = Some p →
  at_now a < pp_expires_at p → at_key a ≠ pr_device_verify_key r →
  register_pairing_request id (at_device_id a) (at_label a) (at_peer a) (at_key a) (at_token a)
    (at_now a) s = (prune_expired_pairings (at_now a) s, Err AnotherDeviceWaiting).
Proof.
  intros Hr Hp Ht Hk. unfold register_pairing_request.
  rewrite (prune_ticket _ s id p Hp Ht), (prune_request _ s id r p Hp Ht Hr).
  by rewrite bool_decide_eq_false_2 by done.
Qed.

(** While a device waits for approval, other keys registering on the same ticket
    are refused and leave request, ticket and paired devices as they were; after the
    decision another key is refused the result. *)
Theorem bystanders_cannot_take_over s id r p (attempts : list attempt) :
  ps_pending_pairing_requests s !! id = Some r → ps_pending_pairings s !! id = Some p →
  Forall (λ a, at_now a < pp_expires_at p ∧ at_key a ≠ pr_device_verify_key r) attempts →
  let s' := foldl (try_register id) s attempts in
  ps_pending_pairing_requests s' !! id = Some r ∧ ps_pending_pairings s' !! id = Some p ∧
  ps_paired_devices s' = ps_paired_devices s ∧
  (∀ c key peer now, ps_completed_pairings s !! id = Some c → now < cp_expires_at c →
     key ≠ cp_device_verify_key c →
     (completed_pairing_result id key peer now s).2 = Err WrongDevice).
Proof.
  intros Hr Hp Hall s'. assert (ps_pending_pairing_requests s' !! id = Some r ∧
    ps_pending_pairings s' !! id = Some p ∧ ps_paired_devices s' = ps_paired_devices s)
    as (? & ? & ?).
  { subst s'. revert s Hr Hp. induction Hall as [|a l [Ht Hk] _ IH]; intros s Hr Hp; [done|].
    cbn [foldl]. assert (try_register id s a = prune_expired_pairings (at_now a) s) as ->
      by (unfold try_register; by rewrite (register_refused id r p a s)).
    apply (IH (prune_expired_pairings (at_now a) s)); [by eapply prune_request | by apply prune_ticket]. }
  split_and!; try done. intros c key peer now Hc Ht Hk. unfold completed_pairing_result.
  rewrite (prune_completed now s id c Hc Ht). by rewrite bool_decide_eq_false_2 by done.
Qed.

(** ** Single use *)
Definition prepares (id : string) (op : pairing_op) : Prop :=
  match op with
  | OpPrepare _ _ tok _ => "pair-" +:+ to_ascii_lowercase tok = id
  | _ => False
  end.

Definition run_ops (ops : list (pairing_op * Z)) (s : PairingState) : PairingState :=
  foldl (λ s o, apply_op o.1 o.2 s) s ops.

Lemma consume_tickets id0 id secret dev label key exp peer dtok ptok now s :
  ps_pending_pairings s !! id0 = None →
  ps_pending_pairings
    (consume_pairing_ticket id secret dev label key exp peer dtok ptok now s).1 !! id0 = None.
Proof.
  intros Hs%(prune_spent now). destruct Hs as [Hs _]. unfold consume_pairing_ticket.
  repeat case_match; try done. cbn. apply lookup_delete_None. by right.
Qed.

Lemma decide_tickets id0 id approved exp dtok ptok now s :
  ps_pending_pairings s !! id0 = None →
  ps_pending_pairings (decide_pairing_request id approved exp dtok ptok now s).1 !! id0 = None.
Proof.
  intros Hs. destruct (prune_spent now s id0 Hs) as [Hp _]. unfold decide_pairing_request.
  set (s1 := prune_expired_pairings now s) in *. clearbody s1. case_match; [|done].
  set (s2 := s1 <| ps_pending_pairing_requests ::= delete id |>) in *.
  change (ps_pending_pairings s2 !! id0 = None) in Hp. clearbody s2. case_match; [|done].
  destruct approved; [|cbn; apply lookup_delete_None; by right].
  match goal with |- context [consume_pairing_ticket ?a ?b ?c ?d ?e ?f ?g ?h ?i ?j ?k] =>
    pose proof (consume_tickets id0 a b c d e f g h i j k Hp) as Ht;
    destruct (consume_pairing_ticket a b c d e f g h i j k) as [s3 [[v t]|err]]
  end; exact Ht.
Qed.

Lemma revoke_tickets dev now s :
  ps_pending_pairings (revoke_paired_device dev now s).1 = ps_pending_pairings s.
Proof.
  unfold revoke_paired_device, clear_orchestrator_pin_if_device. repeat case_match; reflexivity.
Qed.

Lemma revoke_list_tickets now l : ∀ s,
  ps_pending_pairings (foldl (λ s id, (revoke_paired_device id now s).1) s l) =
  ps_pending_pairings s.
Proof. induction l as [|x l IH]; intros s; cbn [foldl]; [done|]. by rewrite IH, revoke_tickets. Qed.

Lemma seen_tickets dev peer now s :
  ps_pending_pairings (mark_paired_device_seen dev peer now s).1 = ps_pending_pairings s.
Proof. unfold mark_paired_device_seen. by case_match. Qed.

Lemma complete_claim_tickets dev cid peer now s :
  ps_pending_pairings (complete_remote_claim dev cid peer now s).1 = ps_pending_pairings s.
Proof.
  unfold complete_remote_claim, claim_challenge.
  destruct (match _ !! cid with Some _ => _ | None => _ end); [|done].
  set (s1 := _ <| ps_pending_claim_challenges ::= delete cid |>).
  pose proof (seen_tickets dev peer now s1) as Hs.
  by destruct (mark_paired_device_seen dev peer now s1) as [s2 []]; cbn in *.
Qed.

Lemma spent_stays id op now s :
  ps_pending_pairings s !! id = None → ~ prepares id op →
  ps_pending_pairings (apply_op op now s) !! id = None.
Proof.
  intros Hs Hn. pose proof (prune_spent now s id Hs) as [Hp _].
  destruct op; cbn [apply_op prepares] in *; try done.
  - cbn. apply lookup_insert_None. split; [exact Hp | done].
  - by apply consume_tickets.
  - unfold register_pairing_request. by repeat case_match.
  - unfold claim_pairing_request. by repeat case_match.
  - by apply decide_tickets.
  - unfold completed_pairing_result. by repeat case_match.
  - by rewrite revoke_tickets.
  - unfold revoke_all_other_paired_devices. case_match; [done|]. cbn [fst].
    by rewrite revoke_list_tickets.
  - unfold issue_claim_challenge. by case_match.
  - by rewrite complete_claim_tickets.
  - by rewrite seen_tickets.
  - unfold attach_pairing_broker_credential. by repeat case_match.
  - unfold attach_pairing_client_grant. by repeat case_match.
Qed.

Lemma spent_stays_run id ops : ∀ s,
  ps_pending_pairings s !! id = None → Forall (λ o, ~ prepares id o.1) ops →
  ps_pending_pairings (run_ops ops s) !! id = None.
Proof.
  induction ops as [|[op now] ops IH]; intros s Hs Hf; [done|].
  apply Forall_cons in Hf as [Ho Hf]. apply IH; [by apply spent_stays | done].
Qed.

Lemma consume_spends id secret dev label key exp peer dtok ptok now s res :
  (consume_pairing_ticket id secret dev label key exp peer dtok ptok now s).2 = Ok res →
  ps_pending_pairings
    (consume_pairing_ticket id secret dev label key exp peer dtok ptok now s).1 !! id = None.
Proof.
  unfold consume_pairing_ticket. repeat case_match; try done. intros _. apply lookup_delete_eq.
Qed.

(** Deciding a request, either way, spends its ticket. *)
Lemma decide_spends id approved exp dtok ptok now s res :
  (decide_pairing_request id approved exp dtok ptok now s).2 = Ok res →
  ps_pending_pairings (decide_pairing_request id approved exp dtok ptok now s).1 !! id = None.
Proof.
  unfold decide_pairing_request. set (s1 := prune_expired_pairings now s). clearbody s1.
  case_match; [|done]. set (s2 := s1 <| ps_pending_pairing_requests ::= delete id |>).
  clearbody s2. case_match; [|done].
  destruct approved; [|intros _; cbn; apply lookup_delete_eq].
  match goal with |- context [consume_pairing_ticket ?a ?b ?c ?d ?e ?f ?g ?h ?i ?j ?k] =>
    pose proof (consume_spends a b c d e f g h i j k) as Ht;
    destruct (consume_pairing_ticket a b c d e f g h i j k) as [s3 [[v t]|err]]
  end; [|done]. intros _. exact (Ht _ eq_refl).
Qed.

(** A ticket is good for one decision.  After a request was approved or rejected,
    whatever operations follow (short of minting the same ticket id again), at any
    time, the ticket pairs nothing: consuming it, registering on it and deciding on
    it all fail. *)
Theorem pairing_ticket_single_use id approved exp dtok ptok now s res ops :
  (decide_pairing_request id approved exp dtok ptok now s).2 = Ok res →
  Forall (λ o, ~ prepares id o.1) ops →
  let s' := run_ops ops (decide_pairing_request id approved exp dtok ptok now s).1 in
  (∀ secret dev label key e peer d t later,
     (consume_pairing_ticket id secret dev label key e peer d t later s').2 =
       Err MissingOrExpired) ∧
  (∀ dev label peer key d later,
     (register_pairing_request id dev label peer key d later s').2 = Err MissingOrExpired) ∧
  (∀ yes e d t later, (decide_pairing_request id yes e d t later s').2 = Err NotWaiting).
Proof.
  intros Hd Hf s'.
  assert (ps_pending_pairings s' !! id = None) as Hs
    by (apply spent_stays_run; [by eapply decide_spends | done]).
  clearbody s'. split_and!; intros.
  - unfold consume_pairing_ticket. by rewrite (proj1 (prune_spent later s' id Hs)).
  - unfold register_pairing_request. by rewrite (proj1 (prune_spent later s' id Hs)).
  - unfold decide_pairing_request. by rewrite (proj2 (prune_spent later s' id Hs)).
Qed.

(** A fresh ticket lives between 30 and 600 seconds, 180 unless asked otherwise,
    and a device can register on it exactly until it expires. *)
Theorem ticket_lives_its_ttl ttl scope tok secret now s :
  0 ≤ now → now + MAX_PAIRING_TTL_SECS ≤ u64_max →
  ps_pending_pairings s !! ("pair-" +:+ to_ascii_lowercase tok) = None →
  let out := prepare_pairing_ticket ttl scope tok secret now s in
  now + 30 ≤ pt_expires_at out.2 ≤ now + 600 ∧
  (ttl = None → pt_expires_at out.2 = now + 180) ∧
  (∀ t, 30 ≤ t ≤ 600 → ttl = Some t → pt_expires_at out.2 = now + t) ∧
  (∀ dev label peer key d later,
     is_ok (register_pairing_request (pt_pairing_id out.2) dev label peer key d later out.1).2 =
     (later <? pt_expires_at out.2)).
Proof.
  intros H0 Hmax Hfresh. unfold MAX_PAIRING_TTL_SECS in Hmax.
  destruct (prune_spent now s _ Hfresh) as [_ Hnr]. cbv zeta.
  cbn [fst snd prepare_pairing_ticket pt_expires_at pt_pairing_id].
  unfold u64_saturating_add, u64_clamp, MAX_PAIRING_TTL_SECS, DEFAULT_PAIRING_TTL_SECS.
  split_and!.
  - lia.
  - lia.
  - intros ->. change (default 180 None) with 180. lia.
  - intros t Ht ->. change (default 180 (Some t)) with t. lia.
  - intros dev label peer key d later. unfold register_pairing_request.
    set (id := _ +:+ _) in *. set (e := Z.min _ u64_max). clearbody e.
    set (s1 := _ <| ps_pending_pairings ::= _ |>).
    assert (ps_pending_pairings s1 !! id =
      Some (MkPendingPairing id secret (sha256_hex secret) now e scope)) as Hp
      by apply lookup_insert_eq.
    destruct (Z.ltb_spec later e) as [Hlt|Hge].
    + rewrite (prune_ticket later s1 id _ Hp Hlt).
      assert (ps_pending_pairing_requests (prune_expired_pairings later s1) !! id = None) as ->;
        [|done].
      apply map_lookup_filter_None_2. left. exact Hnr.
    + destruct (ps_pending_pairings (prune_expired_pairings later s1) !! id) eqn:E; [|done].
      apply prune_ticket_inv in E as [E Hlt]. rewrite Hp in E. simplify_eq. cbn in Hlt. lia.
Qed.

(** ** Revocation *)

(** Nothing in the state serves the device any more. *)
Definition cut_off (dev : string) (s : PairingState) : Prop :=
  ps_paired_devices s !! dev = None ∧ ps_push_subscriptions s !! dev = None ∧
  (∀ surface w, ps_watched_threads s !! surface = Some w → ws_device_id w ≠ dev) ∧
  ps_active_controller_device_id s ≠ Some dev ∧ ps_orchestrator_device_id s ≠ Some dev ∧
  dr_lifecycle_state <$> ps_device_records s !! dev = Some LcRevoked.

Lemma revoke_cuts_off dev d now s :
  pairing_wf s → ps_paired_devices s !! dev = Some d →
  cut_off dev (revoke_paired_device dev now s).1.
Proof.
  intros Hwf Hd. unfold revoke_paired_device. rewrite Hd.
  pose proof (paired_id _ _ _ Hwf Hd) as <-. cbn [fst].
  unfold clear_orchestrator_pin_if_device, cut_off.
  repeat case_bool_decide; cbn in *; rewrite !lookup_delete_eq, lookup_insert_eq;
    split_and!; try done; by intros ? ? [? ?]%map_lookup_filter_Some.
Qed.

Lemma revoke_paired dev now s :
  ps_paired_devices (revoke_paired_device dev now s).1 = delete dev (ps_paired_devices s).
Proof.
  unfold revoke_paired_device. case_match eqn:E; [|by rewrite delete_id].
  unfold clear_orchestrator_pin_if_device. by repeat case_match.
Qed.

Lemma unpaired_is_refused dev s :
  ps_paired_devices s !! dev = None →
  (∀ peer tok ch now, (issue_claim_challenge dev peer tok ch now s).2 = Err NotPaired) ∧
  (∀ id peer now, is_ok (complete_remote_claim dev id peer now s).2 = false) ∧
  (∀ peer now, (mark_paired_device_seen dev peer now s).2 = Err NotPaired) ∧
  paired_device_payload_secret dev s = Err NotPaired ∧
  paired_device_verify_key dev s = Err NotPaired.
Proof.
  intros Hd. split_and!; intros.
  - unfold issue_claim_challenge. cbn. by rewrite Hd.
  - unfold complete_remote_claim, claim_challenge.
    change (ps_paired_devices (prune_expired_claim_challenges now s)) with (ps_paired_devices s).
    rewrite Hd. by destruct (_ !! id); [repeat case_match|]; simplify_eq.
  - unfold mark_paired_device_seen. by rewrite Hd.
  - unfold paired_device_payload_secret. by rewrite Hd.
  - unfold paired_device_verify_key. by rewrite Hd.
Qed.

(** Revoking a paired device unpairs it and only it, drops its push
    subscriptions, watched threads, control and orchestrator pin, leaves a Revoked
    record, and from then on the device cannot claim a session, be marked as seen or
    obtain a payload secret. *)
Theorem revoked_device_is_cut_off s dev d now :
  pairing_wf s → ps_paired_devices s !! dev = Some d →
  let out := revoke_paired_device dev now s in
  out.2 = true ∧ cut_off dev out.1 ∧ ps_paired_devices out.1 = delete dev (ps_paired_devices s) ∧
  (∀ peer tok ch later, (issue_claim_challenge dev peer tok ch later out.1).2 = Err NotPaired) ∧
  (∀ id peer later, is_ok (complete_remote_claim dev id peer later out.1).2 = false) ∧
  (∀ peer later, (mark_paired_device_seen dev peer later out.1).2 = Err NotPaired) ∧
  paired_device_payload_secret dev out.1 = Err NotPaired.
Proof.
  intros Hwf Hd. cbv zeta. pose proof (revoke_cuts_off dev d now s Hwf Hd) as Hcut.
  destruct (unpaired_is_refused dev _ (proj1 Hcut)) as (? & ? & ? & ? & _).
  split_and!; try done; [|apply revoke_paired]. unfold revoke_paired_device. by rewrite Hd.
Qed.

Lemma revoke_list_paired now l : ∀ s,
  ps_paired_devices (foldl (λ s id, (revoke_paired_device id now s).1) s l) =
  filter (λ '(k, _), k ∉ l) (ps_paired_devices s).
Proof.
  induction l as [|x l IH]; intros s; cbn [foldl].
  - symmetry. apply map_filter_id. intros k d _. apply not_elem_of_nil.
  - rewrite IH, revoke_paired. apply map_eq. intros k. rewrite !map_lookup_filter.
    destruct (decide (k = x)) as [->|Hne].
    + rewrite lookup_delete_eq. cbn. destruct (_ !! x); cbn; [|done].
      rewrite option_guard_False; [done|]. rewrite elem_of_cons. tauto.
    + rewrite lookup_delete_ne by done. destruct (_ !! k); cbn; [|done].
      by apply option_guard_iff; rewrite elem_of_cons; naive_solver.
Qed.

(** Revoking all other devices refuses when the kept device is not paired, and
    otherwise leaves that device, unchanged, as the only paired one, reporting
    exactly the devices that went. *)
Theorem revoke_all_other_keeps_one s keep now :
  let out := revoke_all_other_paired_devices keep now s in
  match ps_paired_devices s !! keep with
  | None => out = (s, Err NotPaired)
  | Some d =>
      ps_paired_devices out.1 = {[ keep := d ]} ∧
      ∃ gone, out.2 = Ok gone ∧ NoDup gone ∧
        ∀ id, id ∈ gone ↔ id ≠ keep ∧ is_Some (ps_paired_devices s !! id)
  end.
Proof.
  cbv zeta. unfold revoke_all_other_paired_devices. destruct (_ !! keep) as [d|] eqn:Hk; [|done].
  cbn [is_some negb fst snd]. set (gone := filter _ _).
  assert (∀ id, id ∈ gone ↔ id ≠ keep ∧ is_Some (ps_paired_devices s !! id)) as Hgone.
  { intros id. unfold gone. rewrite list_elem_of_filter, list_elem_of_fmap. split.
    - intros [Hne ([k x] & -> & Hx%elem_of_map_to_list)]. eauto.
    - intros [Hne [x Hx]]. split; [done|]. exists (id, x). split; [done|].
      by apply elem_of_map_to_list. }
  split.
  - rewrite revoke_list_paired. apply map_eq. intros k. rewrite map_lookup_filter.
    destruct (decide (k = keep)) as [->|Hne].
    + rewrite Hk, lookup_singleton_eq. cbn. rewrite option_guard_True; [done|].
      by intros [? _]%Hgone.
    + rewrite lookup_singleton_ne by done. destruct (_ !! k) eqn:Ek; cbn; [|done].
      rewrite option_guard_False; [done|]. intros Hn. apply Hn, Hgone. eauto.
  - exists gone. split_and!; try done. apply NoDup_filter, NoDup_fst_map_to_list.
Qed.

(** ** Claim challenges *)

(** What a challenge must be for the claim to go through. *)
Definition claimable (dev id peer : string) (now : Z) (s : PairingState) : Prop :=
  is_Some (ps_paired_devices s !! dev) ∧
  ∃ c, ps_pending_claim_challenges s !! id = Some c ∧ now < cc_expires_at c ∧
    cc_device_id c = dev ∧ cc_peer_id c = peer.

Lemma complete_claim_cases dev id peer now s :
  (claimable dev id peer now s ∧
   ∃ c d, ps_pending_claim_challenges s !! id = Some c ∧ ps_paired_devices s !! dev = Some d ∧
   complete_remote_claim dev id peer now s =
     (prune_claim_challenges_for_device dev (cc_challenge_id c)
        (mark_paired_device_seen dev peer now
           ((prune_expired_claim_challenges now s) <| ps_pending_claim_challenges ::= delete id |>)).1,
      Ok ())) ∨
  (~ claimable dev id peer now s ∧ is_ok (complete_remote_claim dev id peer now s).2 = false).
Proof.
  unfold complete_remote_claim, claim_challenge, claimable.
  change (ps_paired_devices (prune_expired_claim_challenges now s)) with (ps_paired_devices s).
  destruct (ps_pending_claim_challenges (prune_expired_claim_challenges now s) !! id) as [c|] eqn:Ec.
  - cbn in Ec. apply map_lookup_filter_Some in Ec as [Hc Ht].
    destruct (decide (cc_device_id c = dev)) as [Hd|]; cycle 1.
    { right. rewrite bool_decide_eq_false_2 by done. naive_solver. }
    destruct (decide (cc_peer_id c = peer)) as [Hp|]; cycle 1.
    { right. rewrite bool_decide_eq_true_2, bool_decide_eq_false_2 by done. naive_solver. }
    rewrite !bool_decide_eq_true_2 by done. cbn [negb].
    destruct (ps_paired_devices s !! dev) as [d|] eqn:Ed; [|right; naive_solver].
    left. split; [by eauto 10|]. exists c, d. split_and!; try done.
    unfold mark_paired_device_seen. cbn. by rewrite Ed.
  - right. split; [|done]. intros (_ & c & Hc & Ht & _). cbn in Ec.
    apply map_lookup_filter_None in Ec as [Ec|Ec]; [congruence|]. by destruct (Ec c Hc).
Qed.

Lemma seen_challenges dev peer now s :
  ps_pending_claim_challenges (mark_paired_device_seen dev peer now s).1 =
  ps_pending_claim_challenges s.
Proof. unfold mark_paired_device_seen. by case_match. Qed.

(** A claim completes exactly when its challenge was issued to that device and
    that broker peer, has not expired and the device is still paired; completing it
    spends every challenge of the device, so a replay fails. *)
Theorem claim_challenge_single_use s dev id peer now :
  pairing_wf s →
  let out := complete_remote_claim dev id peer now s in
  (is_ok out.2 = true ↔ claimable dev id peer now s) ∧
  (is_ok out.2 = true →
     (∀ cid c, ps_pending_claim_challenges out.1 !! cid = Some c → cc_device_id c ≠ dev) ∧
     ∀ peer' later, is_ok (complete_remote_claim dev id peer' later out.1).2 = false).
Proof.
  intros Hwf. cbv zeta.
  destruct (complete_claim_cases dev id peer now s) as [(Hc & c & d & Hl & Hd & E)|[Hn E]];
    [|rewrite E; by split; [split|]].
  rewrite E. cbn [fst snd is_ok]. split; [done|]. intros _.
  destruct (proj1 (wf_challenges s Hwf) _ _ Hl) as [-> _].
  set (s' := prune_claim_challenges_for_device _ _ _).
  assert (∀ cid c, ps_pending_claim_challenges s' !! cid = Some c → cc_device_id c ≠ dev) as Hno.
  { intros cid c'. unfold s'. cbn. rewrite seen_challenges. cbn.
    intros [[Hne Hc']%lookup_delete_Some [?| ->]]%map_lookup_filter_Some; done. }
  split; [done|]. intros peer' later.
  destruct (complete_claim_cases dev id peer' later s') as [((_ & c' & Hc' & _ & Hd' & _) & _)|[_ ?]];
    [|done].
  by destruct (Hno _ _ Hc').
Qed.

(** ** Two surprises *)

(** Rejecting a pairing request whose requested id is that of a paired device
    marks that device's record Rejected and overwrites the verify key in it, while
    the device stays paired with its own key. *)
Theorem rejection_marks_a_paired_device s id r p d exp dtok ptok now :
  ps_pending_pairing_requests s !! id = Some r → ps_pending_pairings s !! id = Some p →
  now < pp_expires_at p → ps_paired_devices s !! pr_device_id r = Some d →
  let s' := (decide_pairing_request id false exp dtok ptok now s).1 in
  ps_paired_devices s' = ps_paired_devices s ∧
  ∃ rec, ps_device_records s' !! pr_device_id r = Some rec ∧
    dr_lifecycle_state rec = LcRejected ∧ dr_device_verify_key rec = pr_device_verify_key r.
Proof.
  intros Hr Hp Ht Hd. cbv zeta. unfold decide_pairing_request.
  rewrite (prune_request now s id r p Hp Ht Hr).
  change (ps_pending_pairings ((prune_expired_pairings now s)
    <| ps_pending_pairing_requests ::= delete id |>)) with
    (ps_pending_pairings (prune_expired_pairings now s)).
  rewrite (prune_ticket now s id p Hp Ht). cbn. split; [done|].
  rewrite lookup_insert_eq. eauto.
Qed.
End Promises.

(** ** Device ids *)

(** A lower-case ASCII letter or digit; an id also holds dashes. *)
Definition id_alnum (c : Z) : Prop := in_range 48 c 57 = true ∨ in_range 97 c 122 = true.

Definition not_upper (c : Z) : Prop := in_range 65 c 90 = false.

Lemma ascii_lower_not_upper a : not_upper (byte_val (ascii_lower a)).
Proof.
  unfold not_upper, ascii_lower. destruct (in_range 65 (byte_val a) 90) eqn:E; [|done].
  apply in_range_true in E. apply in_range_false.
  unfold byte_val at 1 3. rewrite nat_ascii_embedding; lia.
Qed.

Lemma scalar_not_upper z v : 192 ≤ z → not_upper (scalar z v).
Proof. intros. apply in_range_false. unfold scalar. destruct (Z.ltb_spec v 128); lia. Qed.

Lemma chars_lower_not_upper n : ∀ s,
  (String.length s ≤ n)%nat → Forall not_upper (chars (to_ascii_lowercase s)).
Proof.
  induction n as [|n IH]; intros s Hl; (destruct s as [|a s1]; [constructor|]); cbn in Hl; [lia|].
  pose proof (ascii_lower_not_upper a) as Ha. cbn.
  set (z := byte_val (ascii_lower a)) in *. destruct (Z.ltb_spec z 192).
  { constructor; [done|]. apply IH. lia. }
  destruct s1 as [|b s2]; cbn in Hl |- *; [by repeat constructor|].
  destruct (z <? 224). { constructor; [by apply scalar_not_upper|]. apply IH. lia. }
  destruct s2 as [|c s3]; cbn in Hl |- *; [by repeat constructor|].
  destruct (z <? 240). { constructor; [by apply scalar_not_upper|]. apply IH. lia. }
  destruct s3 as [|d s4]; cbn in Hl |- *; [by repeat constructor|].
  constructor; [by apply scalar_not_upper|]. apply IH. lia.
Qed.

(** A reversed prefix of an id: letters, digits and single dashes, not starting
    (that is, not ending the list) with a dash. *)
Fixpoint id_rev (l : list Z) : Prop :=
  match l with
  | [] => True
  | c :: l' => id_rev l' ∧ (id_alnum c ∨ (c = 45 ∧ ∃ d l'', l' = d :: l'' ∧ id_alnum d))
  end.

Lemma normalize_loop_id_rev cs : ∀ acc prev,
  Forall not_upper cs → id_rev acc → (prev = false → ∀ c l, acc = c :: l → id_alnum c) →
  id_rev (normalize_loop cs acc prev).
Proof.
  induction cs as [|c cs IH]; intros acc prev Hc Ha Hp; [done|].
  apply Forall_cons in Hc as [Hn Hc]. cbn. unfold not_upper in Hn. rewrite Hn, orb_false_r.
  destruct (in_range 48 c 57 || in_range 97 c 122) eqn:E.
  - assert (id_alnum c) by (apply orb_true_iff in E; done).
    apply IH; [done | by split; [|left] | intros _ ? ? [= <- _]; done].
  - destruct (_ && _ && _) eqn:E2; [|by apply IH].
    rewrite !andb_true_iff, !negb_true_iff, bool_decide_eq_false in E2.
    destruct E2 as [[_ ->] Hne]. destruct acc as [|d acc]; [done|].
    apply IH; [done| |done]. split; [done|]. right.
    split; [done|]. exists d, acc. split; [done|]. by apply (Hp eq_refl d acc).
Qed.

Lemma pop_dashes_id_rev l : id_rev l → id_rev (pop_dashes l).
Proof.
  induction l as [|c l IH]; [done|]. intros [Hl Hc]. cbn.
  destruct (decide (c = 45)) as [->|Hne]; [by apply IH|].
  enough (pop_dashes (c :: l) = c :: l) as E by (cbn in E; rewrite E; by split).
  destruct c as [|q|]; try done. cbn. repeat (destruct q as [q|q|]; try done).
Qed.

(** An id: starts with a letter or digit, has only those and dashes. *)
Lemma id_rev_rev l :
  id_rev l → Forall (λ c, id_alnum c ∨ c = 45) (rev l) ∧ ∀ c l', rev l = c :: l' → id_alnum c.
Proof.
  induction l as [|c l IH]; [done|]. intros [Hl Hc]. destruct (IH Hl) as [Hf Hh]. cbn. split.
  - apply Forall_app. split; [done|]. constructor; [|done].
    destruct Hc as [?|[? _]]; [by left | by right].
  - intros x l' E. destruct (rev l) as [|y l2] eqn:Er.
    + injection E as <- _. destruct Hc as [?|(_ & d & l'' & -> & _)]; [done|].
      cbn in Er. by destruct (rev l'').
    + injection E as <- _. by apply (Hh y l2).
Qed.

(** An accepted device id has 1 to 48 characters, all of them lower-case ASCII
    letters, digits or dashes, and never starts with a dash. *)
Lemma device_id_shape v d :
  normalize_remote_device_id v = Some d →
  ∃ c cs, d = of_codes (c :: cs) ∧ (length (c :: cs) ≤ 48)%nat ∧ id_alnum c ∧
    Forall (λ c, id_alnum c ∨ c = 45) (c :: cs).
Proof.
  unfold normalize_remote_device_id. destruct v as [v|]; [|done]. cbn.
  destruct (is_empty _); [done|]. set (l := rev _).
  assert (Forall (λ c, id_alnum c ∨ c = 45) l ∧ ∀ c l', l = c :: l' → id_alnum c) as [Hf Hh].
  { apply id_rev_rev, pop_dashes_id_rev, normalize_loop_id_rev; [|done..].
    by eapply chars_lower_not_upper. }
  clearbody l. destruct l as [|c l]; [done|]. intros [= <-].
  exists c, (take 47 l). split; [done|]. cbn [length]. rewrite length_take. split; [lia|].
  split; [by eapply Hh|]. apply Forall_cons in Hf as [? ?].
  constructor; [done | by apply Forall_take].
Qed.

(** The id an approval pairs need not be the id the pairing request showed:
    [decide_pairing_request] normalises the request's id a second time, and
    [normalize_remote_device_id] is not idempotent, because it cuts to 48 characters
    after stripping trailing dashes. *)
Theorem approval_can_rename_the_device :
  ∃ requested shown paired : string,
    let _ := toy_crypto in
    let s0 := (prepare_pairing_ticket None [] "t" "secret" 1000 pairing_empty).1 in
    let out := register_pairing_request "pair-t" (Some requested) None "peer" "key" "d" 1001 s0 in
    (∃ v, out.2 = Ok v ∧ rv_device_id v = shown) ∧
    ps_paired_devices
      (decide_pairing_request "pair-t" true None "d" "token" 1002 out.1).1 !! shown = None ∧
    (∃ d, ps_paired_devices
      (decide_pairing_request "pair-t" true None "d" "token" 1002 out.1).1 !! paired = Some d ∧
       pd_device_verify_key d = "key").
Proof.
  exists (of_codes (repeat 97 47) +:+ "-b"), (of_codes (repeat 97 47) +:+ "-"),
    (of_codes (repeat 97 47)).
  cbv zeta. split_and!.
  - eexists. split; vm_compute; reflexivity.
  - vm_compute. reflexivity.
  - eexists. split; vm_compute; reflexivity.
Qed.

(** ** Witnesses: one phone's pairing, from ticket to claim *)
Module Phone.
#[local] Existing Instance toy_crypto.

Definition ticket : PendingPairing :=
  MkPendingPairing "pair-abc" "sec" "736563" 1000 1180 ["/work"].
Definition request : PendingPairingRequest :=
  MkRequest "pair-abc" "my-phone" "My Phone" 1010 1180 "peer1" "key1" ["/work"].
Definition op_prepare : pairing_op := OpPrepare None ["/work"] "ABC" "sec".
Definition op_register : pairing_op :=
  OpRegister "pair-abc" (Some "My Phone") None "peer1" "key1" "tok".
Definition op_decide : pairing_op := OpDecide "pair-abc" true None "tok" "PS".
Definition op_issue : pairing_op := OpIssue "my-phone" "peer2" "Q" "nonce".
Definition prepared : PairingState := apply_op op_prepare 1000 pairing_empty.
Definition waiting : PairingState := apply_op op_register 1010 prepared.
Definition approved : PairingState := apply_op op_decide 1020 waiting.
Definition challenged : PairingState := apply_op op_issue 1030 approved.

Lemma waiting_wf : pairing_wf waiting.
Proof. do 2 apply apply_op_wf. apply pairing_empty_wf. Qed.
Lemma challenged_wf : pairing_wf challenged.
Proof. do 2 apply apply_op_wf. apply waiting_wf. Qed.
Lemma request_waits : ps_pending_pairing_requests waiting !! "pair-abc" = Some request.
Proof. vm_compute. reflexivity. Qed.
Lemma ticket_pending : ps_pending_pairings waiting !! "pair-abc" = Some ticket.
Proof. vm_compute. reflexivity. Qed.
End Phone.

Section Witnesses.
Import Phone.
#[local] Existing Instance toy_crypto.

Lemma pairing_state_well_formed_witness : pairing_wf approved.
Proof.
  apply pairing_state_well_formed.
  apply (reach_step _ _ waiting op_decide); [|constructor].
  apply (reach_step _ _ prepared op_register); [|constructor].
  apply (reach_step _ _ pairing_empty op_prepare); [|constructor]. by constructor.
Defined.

Lemma approval_pairs_the_registered_device_witness :
  pd_device_verify_key <$> ps_paired_devices
    (decide_pairing_request "pair-abc" true None "tok" "PS" 1020 waiting).1 !! "my-phone" =
  Some "key1".
Proof.
  destruct (approval_pairs_the_registered_device waiting "pair-abc" request ticket None "tok" "PS"
    1020 waiting_wf request_waits ticket_pending eq_refl) as (d & rec & Hd & _ & _ & Hk & _).
  change (default _ _) with "my-phone" in Hd. rewrite Hd. cbn. by rewrite Hk.
Defined.

Lemma bystanders_cannot_take_over_witness :
  ps_pending_pairing_requests
    (foldl (try_register "pair-abc") waiting
       [MkAttempt (Some "evil") None "peer9" "key9" "t" 1015]) !! "pair-abc" = Some request.
Proof.
  apply (bystanders_cannot_take_over waiting "pair-abc" request ticket
    [MkAttempt (Some "evil") None "peer9" "key9" "t" 1015] request_waits ticket_pending).
  repeat constructor. done.
Defined.

Lemma pairing_ticket_single_use_witness :
  (register_pairing_request "pair-abc" None None "peer1" "key1" "x" 1050
     (run_ops [(OpSeen "my-phone" "peer3", 1040)]
        (decide_pairing_request "pair-abc" true None "tok" "PS" 1020 waiting).1)).2 =
  Err MissingOrExpired.
Proof.
  refine (proj1 (proj2 (pairing_ticket_single_use "pair-abc" true None "tok" "PS" 1020 waiting _
    [(OpSeen "my-phone" "peer3", 1040)] _ _)) _ _ _ _ _ _); [vm_compute; reflexivity|].
  apply Forall_singleton. by intros [].
Defined.

Lemma ticket_lives_its_ttl_witness :
  is_ok (register_pairing_request "pair-abc" None None "p" "k" "d" 1179
    (prepare_pairing_ticket None ["/work"] "ABC" "sec" 1000 pairing_empty).1).2 = true.
Proof.
  destruct (ticket_lives_its_ttl None ["/work"] "ABC" "sec" 1000 pairing_empty) as (_ & _ & _ & Hr);
    [lia | by vm_compute | done |].
  exact (Hr None None "p" "k" "d" 1179).
Defined.

Lemma revoked_device_is_cut_off_witness :
  cut_off "my-phone" (revoke_paired_device "my-phone" 1100 challenged).1.
Proof.
  refine (proj1 (proj2 (revoked_device_is_cut_off challenged "my-phone" _ 1100 challenged_wf _))).
  vm_compute. reflexivity.
Defined.

Lemma claim_challenge_single_use_witness :
  is_ok (complete_remote_claim "my-phone" "claim-q" "peer2" 1050 challenged).2 = true ∧
  is_ok (complete_remote_claim "my-phone" "claim-q" "peer2" 1051
    (complete_remote_claim "my-phone" "claim-q" "peer2" 1050 challenged).1).2 = false.
Proof.
  destruct (claim_challenge_single_use challenged "my-phone" "claim-q" "peer2" 1050 challenged_wf)
    as [_ Hok].
  assert (is_ok (complete_remote_claim "my-phone" "claim-q" "peer2" 1050 challenged).2 = true) as E
    by (vm_compute; reflexivity).
  split; [exact E|]. apply (proj2 (Hok E)).
Defined.

Lemma rejection_marks_a_paired_device_witness :
  dr_lifecycle_state <$> ps_device_records
    (decide_pairing_request "pair-z" false None "d" "t" 1060
      (apply_op (OpRegister "pair-z" (Some "my-phone") None "peer9" "key9" "t") 1050
        (apply_op (OpPrepare None [] "z" "s") 1045 approved))).1 !! "my-phone" = Some LcRejected.
Proof.
  set (s := apply_op (OpRegister _ _ _ _ _ _) _ _).
  destruct (rejection_marks_a_paired_device s "pair-z"
    (MkRequest "pair-z" "my-phone" "my-phone" 1050 1225 "peer9" "key9" [])
    (MkPendingPairing "pair-z" "s" "73" 1045 1225 [])
    (MkPairedDevice "my-phone" "My Phone" "PS" "key1" 1020 (Some 1020) (Some "peer1") None ["/work"])
    None "d" "t" 1060) as [_ (rec & Hr & Hl & _)]; [vm_compute; reflexivity..|].
  cbn [pr_device_id] in Hr. rewrite Hr. cbn. by rewrite Hl.
Defined.

End Witnesses.
