(* ===== verification/Retention.v ===== *)
(** * Retention of finished jobs (crates/relay-server/src/state/relay.rs)

    Review jobs, workflow runs and team runs are each kept in a map that is pruned
    before an insertion, by three copies of the same code: once the map is full, the
    oldest terminal jobs go until there is room.  [Retained] is what the code needs to
    know of a job; the components that have jobs give the instances. *)

From Stdlib Require Import ZArith Lia.
From stdpp Require Import sorting.
From S2P Require Import Prelude.

Open Scope Z_scope.

Class Retained (J : Type) := {
  job_id : J → string;
  job_terminal : J → bool;
  job_updated_at : J → Z
}.

(** [sort_by_key(|(_, t)| *t)]: oldest first. *)
Definition older (a b : string * Z) : Prop := a.2 ≤ b.2.
#[export] Instance older_dec : RelDecision older := λ a b, decide (a.2 ≤ b.2).
#[export] Instance older_trans : Transitive older.
Proof. intros a b c. unfold older. lia. Qed.
#[export] Instance older_total : Total older.
Proof. intros a b. unfold older. lia. Qed.

(** Removing the first [n] keys of a list. *)
Lemma filter_not_in_nil {A} (m : gmap string A) : filter (λ '(k, _), k ∉ (@nil string)) m = m.
Proof. apply map_filter_id. intros ? ? _. apply not_elem_of_nil. Qed.

Lemma filter_not_in_cons {A} (m : gmap string A) k ks :
  k ∉ ks → filter (λ '(i, _), i ∉ ks) (delete k m) = filter (λ '(i, _), i ∉ k :: ks) m.
Proof.
  intros Hk. apply map_eq. intros i. rewrite !map_lookup_filter.
  destruct (decide (i = k)) as [->|Hne].
  - rewrite lookup_delete_eq. destruct (m !! k); cbn; [|done]. rewrite option_guard_False; [done|].
    intros Hn. apply Hn. by left.
  - rewrite lookup_delete_ne by done. destruct (m !! i); [|done]. cbn.
    apply option_guard_iff. rewrite elem_of_cons. naive_solver.
Qed.

Lemma size_filter_not_in {A} (m : gmap string A) ks :
  NoDup ks → (∀ k, k ∈ ks → is_Some (m !! k)) →
  size (filter (λ '(k, _), k ∉ ks) m) = (size m - length ks)%nat.
Proof.
  revert m. induction ks as [|k ks IH]; intros m Hnd Hin.
  - rewrite filter_not_in_nil. cbn. lia.
  - apply NoDup_cons in Hnd as [Hk Hnd]. rewrite <- filter_not_in_cons by done.
    destruct (Hin k) as [x Hx]; [by left|].
    rewrite IH; [|done|].
    + rewrite map_size_delete_Some by eauto. cbn. lia.
    + intros i Hi. rewrite lookup_delete_ne by (intros ->; done). apply Hin. by right.
Qed.

Section Retention.
Context {J : Type} `{Retained J}.

(** The removal loop. *)
Fixpoint prune_loop (max : nat) (entries : list (string * Z)) (m : gmap string J) : gmap string J :=
  match entries with
  | [] => m
  | (id, _) :: entries => if (size m <? max)%nat then m else prune_loop max entries (delete id m)
  end.

Definition terminal_by_age (m : gmap string J) : list (string * Z) :=
  merge_sort older (map (λ '(id, j), (id, job_updated_at j))
    (filter (λ e, job_terminal e.2 = true) (map_to_list m))).

Definition prune_jobs (max : nat) (m : gmap string J) : gmap string J :=
  if (size m <? max)%nat then m else prune_loop max (terminal_by_age m) m.

Definition insert_job (max : nat) (j : J) (m : gmap string J) : gmap string J :=
  <[job_id j := j]> (prune_jobs max m).

(** ** What is removed *)
Lemma terminal_elem m id t :
  (id, t) ∈ terminal_by_age m ↔
  ∃ j, m !! id = Some j ∧ job_terminal j = true ∧ job_updated_at j = t.
Proof.
  unfold terminal_by_age. rewrite merge_sort_Permutation, list_elem_of_fmap. split.
  - intros ([id' j] & [= -> ->] & [Hj He]%list_elem_of_filter). apply elem_of_map_to_list in He. eauto.
  - intros (j & He & Hj & <-). exists (id, j). split; [done|]. apply list_elem_of_filter.
    split; [done|]. by apply elem_of_map_to_list.
Qed.

Lemma terminal_NoDup m : NoDup (terminal_by_age m).*1.
Proof.
  unfold terminal_by_age. rewrite merge_sort_Permutation.
  assert (∀ l : list (string * J), (map (λ '(id, j), (id, job_updated_at j)) l).*1 = l.*1) as ->
    by (intros l; induction l as [|[]]; cbn; [done | by f_equal]).
  apply (sublist_NoDup _ (map_to_list m).*1); [apply NoDup_fst_map_to_list|].
  apply fmap_sublist, sublist_filter.
Qed.

Lemma prune_loop_spec entries : ∀ max m,
  NoDup entries.*1 → (∀ k, k ∈ entries.*1 → is_Some (m !! k)) →
  prune_loop max entries m = filter (λ '(k, _), k ∉ (take (S (size m) - max) entries).*1) m.
Proof.
  induction entries as [|[k t] entries IH]; intros max m Hnd Hin.
  - rewrite take_nil. cbn. by rewrite filter_not_in_nil.
  - apply NoDup_cons in Hnd as [Hk Hnd]. cbn [prune_loop].
    destruct (Nat.ltb_spec (size m) max) as [Hlt|Hge].
    { replace (S (size m) - max)%nat with 0%nat by lia. cbn. by rewrite filter_not_in_nil. }
    destruct (Hin k) as [x Hx]; [by left|].
    assert (size m ≠ 0%nat) as Hs by (intros E%map_size_empty_inv; by rewrite E, lookup_empty in Hx).
    rewrite IH; [|done|].
    + rewrite map_size_delete_Some by eauto.
      replace (S (size m) - max)%nat with (S (S (pred (size m)) - max))%nat by lia.
      cbn [take fmap list_fmap]. rewrite <- filter_not_in_cons; [done|].
      intros Hin'. apply Hk. rewrite fmap_take in Hin'. by apply elem_of_take in Hin' as (? & ?%list_elem_of_lookup_2 & _).
    + intros i Hi. rewrite lookup_delete_ne by (intros ->; done). apply Hin. by right.
Qed.

Lemma prune_jobs_eq max m :
  prune_jobs max m = filter (λ '(k, _), k ∉ (take (S (size m) - max) (terminal_by_age m)).*1) m.
Proof.
  unfold prune_jobs. destruct (Nat.ltb_spec (size m) max) as [Hlt|Hge].
  - replace (S (size m) - max)%nat with 0%nat by lia. cbn. by rewrite filter_not_in_nil.
  - apply prune_loop_spec; [apply terminal_NoDup|].
    intros k ([k' t] & -> & Hk)%list_elem_of_fmap. apply terminal_elem in Hk as (j & Hj & _).
    by exists j.
Qed.

(** A removed job is terminal and among the oldest. *)
Lemma pruned_job max m id j :
  m !! id = Some j → prune_jobs max m !! id = None →
  (id, job_updated_at j) ∈ take (S (size m) - max) (terminal_by_age m).
Proof.
  rewrite prune_jobs_eq. intros Hj [Hn|Hn]%map_lookup_filter_None; [congruence|].
  specialize (Hn j Hj). apply dec_stable, list_elem_of_fmap in Hn as ([id' t] & E & Ht).
  cbn in E. subst id'. assert ((id, t) ∈ terminal_by_age m) as Hin
    by by apply elem_of_take in Ht as (? & ?%list_elem_of_lookup_2 & _).
  apply terminal_elem in Hin as (j' & Hj' & _ & <-). by simplify_eq.
Qed.

Lemma terminal_length m :
  length (terminal_by_age m) = size (filter (λ '(_, j), job_terminal j = true) m).
Proof.
  set (f := filter _ m).
  assert (list_to_set (terminal_by_age m).*1 = dom f) as Hd.
  { apply set_eq. intros id. rewrite elem_of_list_to_set, elem_of_dom. split.
    - intros ([id' t] & -> & (j & Hj & Ht & _)%terminal_elem)%list_elem_of_fmap.
      exists j. by apply map_lookup_filter_Some.
    - intros [j [Hj Ht]%map_lookup_filter_Some]. apply list_elem_of_fmap.
      exists (id, job_updated_at j). split; [done|]. apply terminal_elem. eauto. }
  rewrite <- (size_dom f), <- Hd, size_list_to_set by apply terminal_NoDup. by rewrite length_fmap.
Qed.

Lemma prune_jobs_size max m :
  size (prune_jobs max m) =
  (size m - Nat.min (S (size m) - max) (size (filter (λ '(_, j), job_terminal j = true) m)))%nat.
Proof.
  rewrite prune_jobs_eq, size_filter_not_in.
  - by rewrite length_fmap, length_take, terminal_length.
  - rewrite fmap_take. eapply sublist_NoDup; [apply terminal_NoDup | apply sublist_take].
  - intros k ([k' t] & -> & Hk)%list_elem_of_fmap.
    apply elem_of_take in Hk as (? & Hk%list_elem_of_lookup_2 & _).
    apply terminal_elem in Hk as (j & Hj & _). by exists j.
Qed.

(** ** The contract *)
Lemma retention_contract max m :
  let m' := prune_jobs max m in
  (∀ id j, m' !! id = Some j → m !! id = Some j) ∧
  (∀ id j, m !! id = Some j → job_terminal j = false → m' !! id = Some j) ∧
  (∀ id j id' j', m !! id = Some j → m' !! id = None →
     m' !! id' = Some j' → job_terminal j' = true → job_updated_at j ≤ job_updated_at j') ∧
  (0 < max → size (filter (λ '(_, j), job_terminal j = false) m) < max → size m' < max)%nat.
Proof.
  cbv zeta. split_and!.
  - intros id j. rewrite prune_jobs_eq. by intros [? _]%map_lookup_filter_Some.
  - intros id j Hj Ht. destruct (prune_jobs max m !! id) as [j'|] eqn:E.
    + rewrite prune_jobs_eq in E. apply map_lookup_filter_Some in E as [E _]. congruence.
    + pose proof (pruned_job max m id j Hj E) as Hin.
      apply elem_of_take in Hin as (? & Hin%list_elem_of_lookup_2 & _).
      apply terminal_elem in Hin as (j' & Hj' & ? & _). congruence.
  - intros id j id' j' Hj Hn Hj' Ht. pose proof (pruned_job max m id j Hj Hn) as Hin.
    rewrite prune_jobs_eq in Hj'. apply map_lookup_filter_Some in Hj' as [Hj' Hk].
    set (n := (S (size m) - max)%nat) in *.
    assert ((id', job_updated_at j') ∈ terminal_by_age m) as Hb by (apply terminal_elem; eauto).
    pose proof (StronglySorted_merge_sort older (map (λ '(id, j), (id, job_updated_at j))
      (filter (λ e, job_terminal e.2 = true) (map_to_list m)))) as Hs.
    fold (terminal_by_age m) in Hs. rewrite <- (take_drop n (terminal_by_age m)) in Hs, Hb.
    apply elem_of_app in Hb as [Hb|Hb].
    + destruct Hk. apply list_elem_of_fmap. eexists. by split; [|exact Hb].
    + exact (StronglySorted_app_1_elem_of _ _ _ _ _ Hs Hin Hb).
  - intros Hm Hl. rewrite prune_jobs_size.
    assert (size m = size (filter (λ '(_, j), job_terminal j = true) m) +
                     size (filter (λ '(_, j), job_terminal j = false) m))%nat as E; [|lia].
    rewrite <- map_size_disj_union.
    + f_equal. symmetry. etrans; [|apply (map_filter_union_complement (λ '(_, j), job_terminal j = true))].
      f_equal. apply map_filter_ext. intros i x _. cbn. by destruct (job_terminal x).
    + apply map_disjoint_spec.
      intros i x y [Hx Ex]%map_lookup_filter_Some [Hy Ey]%map_lookup_filter_Some. congruence.
Qed.
End Retention.
