(* ===== verification/RemoteActions.v ===== *)
(** * Remote action replay cache (crates/relay-server/src/state/relay.rs)

    [reserve_remote_action] and [store_remote_action_result] give a remote action at
    most one execution while the cache remembers it: a device that resends an action (a lost
    reply, a reconnect) gets the first execution's result.  The reply itself is carried through unread
    except for its [action_kind]; [R] stands for its other fields. *)

From Stdlib Require Import ZArith Lia Ascii String.
From stdpp Require Import sorting pretty.
From S2P Require Import Prelude RustStr Retention Device DeviceTheorems DevicePromises.

Open Scope string_scope.
Open Scope Z_scope.

Definition REMOTE_ACTION_REPLAY_TTL_SECS : Z := 600.
Definition MAX_REMOTE_ACTION_REPLAY_ENTRIES : nat := 512.

Section Replay.
Context {R : Type}.

Record CachedRemoteActionResult : Type := MkCachedResult {
  car_action_kind : string;
  car_reply : R
}.

Inductive RemoteActionReplayDecision : Type :=
| Execute
| Replay (result : CachedRemoteActionResult)
| InFlight.

Inductive CachedRemoteActionState : Type :=
| CrInFlight (action_kind : string) (seen_at : Z)
| CrCompleted (result : CachedRemoteActionResult) (seen_at : Z).

Inductive ReplayError : Type := InUseForAnother | UsedForAnother.

Definition cr_seen_at (e : CachedRemoteActionState) : Z :=
  match e with CrInFlight _ t | CrCompleted _ t => t end.

Notation ReplayCache := (gmap string CachedRemoteActionState).

Definition remote_action_cache_key (device_id action_id : string) : string :=
  device_id +:+ ":" +:+ action_id.

Definition prune_remote_action_replays (now : Z) (m : ReplayCache) : ReplayCache :=
  filter (λ '(_, e), now < u64_saturating_add (cr_seen_at e) REMOTE_ACTION_REPLAY_TTL_SECS) m.

(** The eviction loop: [overflow] entries are removed from the front of the list. *)
Fixpoint trim_loop (overflow : nat) (entries : list (string * Z)) (m : ReplayCache) : ReplayCache :=
  match entries with
  | [] => m
  | (key, _) :: entries =>
      match overflow with
      | O => m
      | S overflow' =>
          match m !! key with
          | Some _ => trim_loop overflow' entries (delete key m)
          | None => trim_loop overflow entries m
          end
      end
  end.

Definition trim_remote_action_replays (m : ReplayCache) : ReplayCache :=
  if bool_decide (size m ≤ MAX_REMOTE_ACTION_REPLAY_ENTRIES)%nat then m
  else
    let entries := merge_sort older (map (λ '(key, e), (key, cr_seen_at e)) (map_to_list m)) in
    trim_loop (size m - MAX_REMOTE_ACTION_REPLAY_ENTRIES) entries m.

Definition reserve_remote_action (device_id action_id action_kind : string) (now : Z)
    (m : ReplayCache) : ReplayCache * result RemoteActionReplayDecision ReplayError :=
  let m := prune_remote_action_replays now m in
  let key := remote_action_cache_key device_id action_id in
  match m !! key with
  | None => (<[key := CrInFlight action_kind now]> m, Ok Execute)
  | Some (CrInFlight existing_kind _) =>
      (m, if bool_decide (existing_kind = action_kind) then Ok InFlight else Err InUseForAnother)
  | Some (CrCompleted result _) =>
      (m, if bool_decide (car_action_kind result = action_kind) then Ok (Replay result)
          else Err UsedForAnother)
  end.

Definition store_remote_action_result (device_id action_id : string)
    (result : CachedRemoteActionResult) (now : Z) (m : ReplayCache) : ReplayCache :=
  let m := prune_remote_action_replays now m in
  trim_remote_action_replays
    (<[remote_action_cache_key device_id action_id := CrCompleted result now]> m).

(** ** Trimming *)

Lemma trim_loop_spec : ∀ entries overflow m,
  NoDup entries.*1 → (∀ k, k ∈ entries.*1 → is_Some (m !! k)) →
  trim_loop overflow entries m = filter (λ '(k, _), k ∉ (take overflow entries).*1) m.
Proof.
  induction entries as [|[k t] entries IH]; intros overflow m Hnd Hin.
  - rewrite take_nil. cbn. by rewrite filter_not_in_nil.
  - apply NoDup_cons in Hnd as [Hk Hnd]. destruct overflow as [|o]; cbn [trim_loop].
    { cbn. by rewrite filter_not_in_nil. }
    destruct (Hin k) as [e He]; [by left|]. rewrite He, IH; [|done|].
    + cbn [take fmap list_fmap]. apply filter_not_in_cons.
      intros Hin'. apply Hk. rewrite fmap_take in Hin'.
      by apply elem_of_take in Hin' as (? & ?%list_elem_of_lookup_2 & _).
    + intros k' Hk'. rewrite lookup_delete_ne by (intros ->; done). apply Hin. by right.
Qed.

(** The entries, oldest first. *)
Definition by_age (m : ReplayCache) : list (string * Z) :=
  merge_sort older (map (λ '(key, e), (key, cr_seen_at e)) (map_to_list m)).

Lemma by_age_elem m k t : (k, t) ∈ by_age m ↔ ∃ e, m !! k = Some e ∧ cr_seen_at e = t.
Proof.
  unfold by_age. rewrite merge_sort_Permutation, list_elem_of_fmap. split.
  - intros ([k' e] & [= -> ->] & He%elem_of_map_to_list). eauto.
  - intros (e & He & <-). exists (k, e). split; [done|]. by apply elem_of_map_to_list.
Qed.

Lemma by_age_keys m : (by_age m).*1 ≡ₚ (map_to_list m).*1.
Proof.
  unfold by_age. rewrite merge_sort_Permutation. apply reflexive_eq.
  induction (map_to_list m) as [|[k e] l IH]; [done|]. cbn. by f_equal.
Qed.

Lemma by_age_NoDup m : NoDup (by_age m).*1.
Proof. rewrite by_age_keys. apply NoDup_fst_map_to_list. Qed.

Lemma by_age_length m : length (by_age m) = size m.
Proof.
  rewrite <- (length_fmap fst), (Permutation_length (by_age_keys m)), length_fmap.
  apply length_map_to_list.
Qed.

Lemma by_age_sorted m : StronglySorted older (by_age m).
Proof. apply (StronglySorted_merge_sort older). Qed.

Lemma trim_eq m :
  trim_remote_action_replays m =
  filter (λ '(k, _), k ∉ (take (size m - MAX_REMOTE_ACTION_REPLAY_ENTRIES) (by_age m)).*1) m.
Proof.
  unfold trim_remote_action_replays. case_bool_decide as Hs.
  - replace (size m - MAX_REMOTE_ACTION_REPLAY_ENTRIES)%nat with 0%nat by lia.
    cbn. by rewrite filter_not_in_nil.
  - apply trim_loop_spec; [apply by_age_NoDup|].
    intros k ([k' t] & -> & Hk)%list_elem_of_fmap. apply by_age_elem in Hk as (e & He & _).
    by exists e.
Qed.

Lemma trim_small m :
  (size m ≤ MAX_REMOTE_ACTION_REPLAY_ENTRIES)%nat → trim_remote_action_replays m = m.
Proof. intros Hs. unfold trim_remote_action_replays. by rewrite bool_decide_eq_true_2. Qed.

Lemma trim_size m :
  size (trim_remote_action_replays m) = Nat.min (size m) MAX_REMOTE_ACTION_REPLAY_ENTRIES.
Proof.
  rewrite trim_eq, size_filter_not_in.
  - rewrite length_fmap, length_take, by_age_length. lia.
  - rewrite fmap_take. eapply sublist_NoDup; [apply by_age_NoDup | apply sublist_take].
  - intros k ([k' t] & -> & Hk)%list_elem_of_fmap.
    apply elem_of_take in Hk as (? & Hk%list_elem_of_lookup_2 & _).
    apply by_age_elem in Hk as (e & He & _). by exists e.
Qed.

(** What trimming drops is no newer than what it keeps. *)
Lemma trim_drops_oldest m k e k' e' :
  m !! k = Some e → trim_remote_action_replays m !! k = None →
  trim_remote_action_replays m !! k' = Some e' → cr_seen_at e ≤ cr_seen_at e'.
Proof.
  rewrite trim_eq. set (n := (size m - _)%nat). intros Hk Hd Hk'.
  apply map_lookup_filter_Some in Hk' as [Hk' Hn'].
  apply map_lookup_filter_None in Hd as [Hd|Hd]; [congruence|]. specialize (Hd e Hk).
  apply dec_stable, list_elem_of_fmap in Hd as ([k0 t] & E & Ht). cbn in E. subst k0.
  assert (t = cr_seen_at e) as ->.
  { apply elem_of_take in Ht as (i & Hi%list_elem_of_lookup_2 & _).
    apply by_age_elem in Hi as (e0 & He0 & <-). congruence. }
  assert ((k', cr_seen_at e') ∈ drop n (by_age m)) as Hin.
  { assert ((k', cr_seen_at e') ∈ by_age m) as Hb by (apply by_age_elem; eauto).
    rewrite <- (take_drop n (by_age m)) in Hb. apply elem_of_app in Hb as [Hb|Hb]; [|done].
    destruct Hn'. apply list_elem_of_fmap. eexists. by split; [|exact Hb]. }
  pose proof (by_age_sorted m) as Hs. rewrite <- (take_drop n (by_age m)) in Hs.
  exact (StronglySorted_app_1_elem_of _ _ _ _ _ Hs Ht Hin).
Qed.

(** ** Runs *)
Inductive replay_op : Type :=
| RReserve (device_id action_id action_kind : string)
| RStore (device_id action_id : string) (result : CachedRemoteActionResult).

Definition replay_exec (op : replay_op) (now : Z) (m : ReplayCache) : ReplayCache :=
  match op with
  | RReserve dev act kind => (reserve_remote_action dev act kind now m).1
  | RStore dev act res => store_remote_action_result dev act res now m
  end.

Definition replay_run (ops : list (replay_op * Z)) (m : ReplayCache) : ReplayCache :=
  foldl (λ m o, replay_exec o.1 o.2 m) m ops.

(** The result a run leaves under a key: that of the last store to it. *)
Definition stored (key : string) (acc : option CachedRemoteActionResult) (o : replay_op * Z) :
    option CachedRemoteActionResult :=
  match o.1 with
  | RStore dev act res => if decide (remote_action_cache_key dev act = key) then Some res else acc
  | RReserve _ _ _ => acc
  end.

Definition last_stored (key : string) (ops : list (replay_op * Z)) :
    option CachedRemoteActionResult := foldl (stored key) None ops.

(** What an entry says, and how recent it is. *)
Definition entry_is (kind : string) (res : option CachedRemoteActionResult) (t0 : Z)
    (e : CachedRemoteActionState) : Prop :=
  t0 ≤ cr_seen_at e ∧
  match res, e with
  | None, CrInFlight k _ => k = kind
  | Some r, CrCompleted r' _ => r' = r
  | _, _ => False
  end.

(** What the entry makes of a further reservation. *)
Definition answer (kind kind' : string) (res : option CachedRemoteActionResult) :
    result RemoteActionReplayDecision ReplayError :=
  match res with
  | None => if bool_decide (kind = kind') then Ok InFlight else Err InUseForAnother
  | Some r => if bool_decide (car_action_kind r = kind') then Ok (Replay r) else Err UsedForAnother
  end.

Lemma prune_keeps now m k e t0 :
  m !! k = Some e → t0 ≤ cr_seen_at e → now < t0 + 600 → now < u64_max →
  prune_remote_action_replays now m !! k = Some e.
Proof.
  intros He Ht Hn Hm. unfold prune_remote_action_replays. apply map_lookup_filter_Some_2; [done|].
  change (now < Z.min (cr_seen_at e + 600) u64_max). lia.
Qed.

Lemma prune_size now m : (size (prune_remote_action_replays now m) ≤ size m)%nat.
Proof. apply map_size_filter. Qed.

Lemma insert_size (k : string) (e : CachedRemoteActionState) (m : ReplayCache) :
  (size (<[k := e]> m) ≤ S (size m))%nat.
Proof. rewrite map_size_insert. destruct (m !! k); unfold id; lia. Qed.

Lemma exec_size op now m : (size (replay_exec op now m) ≤ S (size m))%nat.
Proof.
  pose proof (prune_size now m). destruct op as [dev act kind|dev act res]; cbn.
  - unfold reserve_remote_action. repeat case_match; cbn; try lia.
    etrans; [apply insert_size|]. lia.
  - unfold store_remote_action_result. rewrite trim_size.
    pose proof (insert_size (remote_action_cache_key dev act) (CrCompleted res now)
      (prune_remote_action_replays now m)). lia.
Qed.

Lemma reserve_entry dev act kind0 kind res t0 now m e :
  m !! remote_action_cache_key dev act = Some e → entry_is kind0 res t0 e →
  now < t0 + 600 → now < u64_max →
  reserve_remote_action dev act kind now m = (prune_remote_action_replays now m, answer kind0 kind res).
Proof.
  intros He [Ht Hk] Hn Hm. unfold reserve_remote_action.
  rewrite (prune_keeps now m _ e t0) by done. destruct e, res; naive_solver.
Qed.

Lemma exec_entry op now m k kind res t0 e :
  (size m < MAX_REMOTE_ACTION_REPLAY_ENTRIES)%nat → t0 ≤ now < t0 + 600 → now < u64_max →
  m !! k = Some e → entry_is kind res t0 e →
  ∃ e', replay_exec op now m !! k = Some e' ∧ entry_is kind (stored k res (op, now)) t0 e'.
Proof.
  intros Hs Hn Hm He Hk. pose proof (prune_keeps now m k e t0 He (proj1 Hk) (proj2 Hn) Hm) as Hp.
  destruct op as [dev act kd|dev act r]; cbn.
  - exists e. split; [|done]. destruct (decide (remote_action_cache_key dev act = k)) as [<-|Hne].
    + by rewrite (reserve_entry dev act kind kd res t0 now m e) by (done || lia).
    + unfold reserve_remote_action. repeat case_match; cbn; try done.
      by rewrite lookup_insert_ne.
  - unfold store_remote_action_result. rewrite trim_small.
    2: { etrans; [apply insert_size|]. pose proof (prune_size now m). lia. }
    case_decide as Hd.
    + subst k. rewrite lookup_insert_eq. eexists. split; [done|]. by split; [cbn; lia|].
    + rewrite lookup_insert_ne by done. eauto.
Qed.

Lemma run_entry k kind t0 ops : ∀ m res e,
  (size m + length ops ≤ MAX_REMOTE_ACTION_REPLAY_ENTRIES)%nat →
  Forall (λ o, t0 ≤ o.2 < t0 + 600 ∧ o.2 < u64_max) ops →
  m !! k = Some e → entry_is kind res t0 e →
  ∃ e', replay_run ops m !! k = Some e' ∧ entry_is kind (foldl (stored k) res ops) t0 e'.
Proof.
  induction ops as [|[op now] ops IH]; intros m res e Hs Hf He Hk; [by eauto|].
  apply Forall_cons in Hf as [[Hn Hm] Hf]. cbn [length] in Hs.
  destruct (exec_entry op now m k kind res t0 e) as (e' & He' & Hk'); [lia|done..|].
  cbn [replay_run foldl]. apply (IH _ _ e'); try done.
  pose proof (exec_size op now m). cbn [fst snd]. lia.
Qed.

(** The cache without the entry of [k], after a trim that kept 512 entries none of which is
    older than [t0]. *)
Definition crowded_out (k : string) (t0 : Z) (m : ReplayCache) : Prop :=
  m !! k = None ∧ size m = MAX_REMOTE_ACTION_REPLAY_ENTRIES ∧
  ∀ k' e', m !! k' = Some e' → t0 ≤ cr_seen_at e'.

Lemma trim_entry k t0 e m : m !! k = Some e → t0 ≤ cr_seen_at e →
  trim_remote_action_replays m !! k = Some e ∨ crowded_out k t0 (trim_remote_action_replays m).
Proof.
  intros He Ht. destruct (trim_remote_action_replays m !! k) as [e'|] eqn:Ek; [left|right; split_and!; [done|..]].
  - rewrite trim_eq in Ek. apply map_lookup_filter_Some in Ek as [Ek _]. congruence.
  - rewrite trim_size. destruct (decide (size m ≤ MAX_REMOTE_ACTION_REPLAY_ENTRIES)%nat) as [Hs|Hs]; [|lia].
    rewrite (trim_small m Hs) in Ek. congruence.
  - intros k' e' He'. pose proof (trim_drops_oldest m k e k' e' He Ek He'). lia.
Qed.

Lemma exec_entry_or op now m k kind res t0 e :
  t0 ≤ now < t0 + 600 → now < u64_max → m !! k = Some e → entry_is kind res t0 e →
  (∃ e', replay_exec op now m !! k = Some e' ∧ entry_is kind (stored k res (op, now)) t0 e') ∨
  crowded_out k t0 (replay_exec op now m).
Proof.
  intros Hn Hm He Hk. destruct op as [dev act kd|dev act r].
  - left. exists e. split; [|done]. cbn. destruct (decide (remote_action_cache_key dev act = k)) as [<-|Hne].
    + rewrite (reserve_entry dev act kind kd res t0 now m e) by (done || lia).
      apply (prune_keeps now m _ e t0); [done|apply Hk|lia|done].
    + unfold reserve_remote_action. pose proof (prune_keeps now m k e t0 He (proj1 Hk) (proj2 Hn) Hm).
      repeat case_match; cbn; try done. by rewrite lookup_insert_ne.
  - set (m2 := <[remote_action_cache_key dev act := CrCompleted r now]> (prune_remote_action_replays now m)).
    assert (∃ e2, m2 !! k = Some e2 ∧ entry_is kind (stored k res (RStore dev act r, now)) t0 e2) as (e2 & He2 & Hk2).
    { unfold m2, stored. cbn. case_decide as Hd.
      - subst k. rewrite lookup_insert_eq. eexists. split; [done|]. by split; [cbn; lia|].
      - rewrite lookup_insert_ne by done. exists e. split; [|done].
        apply (prune_keeps now m k e t0); [done|apply Hk|lia|done]. }
    destruct (trim_entry k t0 e2 m2 He2 (proj1 Hk2)) as [Ht|Ht]; [left; by exists e2|by right].
Qed.

Lemma run_entry_or k kind t0 ops : ∀ m res e,
  Forall (λ o, t0 ≤ o.2 < t0 + 600 ∧ o.2 < u64_max) ops →
  m !! k = Some e → entry_is kind res t0 e →
  (∃ e', replay_run ops m !! k = Some e' ∧ entry_is kind (foldl (stored k) res ops) t0 e') ∨
  (∃ before o after, ops = (before ++ o :: after)%list ∧ crowded_out k t0 (replay_run (before ++ [o]) m)).
Proof.
  induction ops as [|[op now] ops IH]; intros m res e Hf He Hk; [left; by eauto|].
  apply Forall_cons in Hf as [[Hn Hm] Hf].
  destruct (exec_entry_or op now m k kind res t0 e) as [(e' & He' & Hk')|Hc]; [done..| |].
  - destruct (IH _ _ e' Hf He' Hk') as [Hl|(before & o & after & -> & Hc)]; [by left|right].
    by exists ((op, now) :: before), o, after.
  - right. by exists [], (op, now), ops.
Qed.

(** C10: at most one execution, as long as the cache has room.  Once a device was told to
    execute an action, then for the next ten minutes, whatever other reservations and results
    pass through the cache, reserving the action again says that it is in flight, or replays
    exactly the last result stored for it, or refuses when the id is reused for another kind
    of action; unless the store of some result in between found the cache over its 512 entries
    and evicted the action, every entry kept being no older than it. *)
Theorem remote_action_runs_once dev act kind t0 m0 m1 ops kind' later :
  reserve_remote_action dev act kind t0 m0 = (m1, Ok Execute) →
  Forall (λ o, t0 ≤ o.2 < t0 + 600 ∧ o.2 < u64_max) ops →
  t0 ≤ later < t0 + 600 → later < u64_max →
  let key := remote_action_cache_key dev act in
  (reserve_remote_action dev act kind' later (replay_run ops m1)).2 = answer kind kind' (last_stored key ops) ∨
  (∃ before o after, ops = (before ++ o :: after)%list ∧ crowded_out key t0 (replay_run (before ++ [o]) m1)).
Proof.
  intros Hr Hf Hl Hm k.
  assert (m1 !! k = Some (CrInFlight kind t0)) as H1.
  { unfold reserve_remote_action in Hr. repeat case_match; simplify_eq; try done.
    apply lookup_insert_eq. }
  destruct (run_entry_or k kind t0 ops m1 None (CrInFlight kind t0)) as [(e & He & Hk)|Hc]; [done..| |by right].
  left. by rewrite (reserve_entry dev act kind kind' (last_stored k ops) t0 later _ e) by (done || lia).
Qed.

(** The cache is bounded: after a result is stored it has at most 512 entries,
    none of them changed, and an entry dropped to make room is no newer than any entry
    kept. *)
Theorem replay_cache_bounded dev act res now m :
  let m1 := <[remote_action_cache_key dev act := CrCompleted res now]>
              (prune_remote_action_replays now m) in
  let m' := store_remote_action_result dev act res now m in
  (size m' ≤ 512)%nat ∧
  (∀ k e, m' !! k = Some e → m1 !! k = Some e) ∧
  (∀ k e k' e', m1 !! k = Some e → m' !! k = None → m' !! k' = Some e' →
     cr_seen_at e ≤ cr_seen_at e').
Proof.
  cbv zeta. unfold store_remote_action_result. split_and!.
  - rewrite trim_size. unfold MAX_REMOTE_ACTION_REPLAY_ENTRIES. lia.
  - intros k e. rewrite trim_eq. by intros [? _]%map_lookup_filter_Some.
  - apply trim_drops_oldest.
Qed.
End Replay.
Arguments CachedRemoteActionResult : clear implicits.
Arguments CachedRemoteActionState : clear implicits.

(** ** Keys *)
Definition no_colon (s : string) : bool := string_forall (λ a, negb (Ascii.eqb a ":"%char)) s.

Lemma of_codes_no_colon cs : Forall (λ c, id_alnum c ∨ c = 45) cs → no_colon (of_codes cs) = true.
Proof.
  unfold no_colon. induction 1 as [|c cs Hc _ IH]; [done|]. cbn. rewrite IH, andb_true_r.
  apply negb_true_iff, Ascii.eqb_neq. intros E.
  assert (byte_val (ascii_of_nat (Z.to_nat c)) = 58) as Hv by by rewrite E.
  unfold id_alnum in Hc. rewrite !in_range_true in Hc.
  unfold byte_val in Hv. rewrite nat_ascii_embedding in Hv; lia.
Qed.

Lemma colon_app_inj d1 d2 a1 a2 :
  no_colon d1 = true → no_colon d2 = true →
  d1 +:+ String ":" a1 = d2 +:+ String ":" a2 → d1 = d2 ∧ a1 = a2.
Proof.
  intros H1%(split_once_app ":"%char _ a1) H2%(split_once_app ":"%char _ a2) E.
  rewrite E in H1. rewrite H1 in H2. by injection H2 as -> ->.
Qed.

(** Two devices never share a cache entry: for ids that pairing can assign, the
    cache key determines the device and the action, so one device can neither see nor
    block another's action by choosing its action id. *)
Theorem remote_action_keys_distinct v1 v2 d1 d2 a1 a2 :
  normalize_remote_device_id v1 = Some d1 → normalize_remote_device_id v2 = Some d2 →
  (d1, a1) ≠ (d2, a2) → remote_action_cache_key d1 a1 ≠ remote_action_cache_key d2 a2.
Proof.
  intros (c1 & l1 & -> & _ & _ & H1)%device_id_shape (c2 & l2 & -> & _ & _ & H2)%device_id_shape.
  intros Hne E. apply Hne. apply colon_app_inj in E as [-> ->]; [done|..]; by apply of_codes_no_colon.
Qed.

(** ** Witnesses *)
Definition sample_result : CachedRemoteActionResult string := MkCachedResult "send_message" "sent".

Lemma remote_action_runs_once_witness :
  let m := (reserve_remote_action "phone" "a1" "send_message" 100 ∅).1 in
  let ops := [(RStore "phone" "a1" sample_result, 110)] in
  (reserve_remote_action "phone" "a1" "send_message" 130 (replay_run ops m)).2 = Ok (Replay sample_result).
Proof.
  destruct (remote_action_runs_once (R := string) "phone" "a1" "send_message" 100 ∅
    (reserve_remote_action "phone" "a1" "send_message" 100 ∅).1
    [(RStore "phone" "a1" sample_result, 110)] "send_message" 130) as [H|(before & o & after & E & Hc & _)].
  - reflexivity.
  - apply Forall_singleton. cbn. unfold u64_max. lia.
  - lia.
  - unfold u64_max. lia.
  - exact H.
  - destruct before as [|? [|]]; [|done..]. injection E as <- <-. vm_compute in Hc. discriminate Hc.
Defined.

(** The exception happens: 512 other reservations and the result of one of them, all younger
    than the action in flight, evict it, and its resend is executed although the first
    execution has not answered. *)
Definition flood : list (@replay_op string * Z) :=
  map (λ n, (RReserve "phone" (pretty n) "send_message", 101)) (seq 0 512)
  ++ [(RStore "phone" "0" sample_result, 102)].
Lemma flood_makes_an_action_run_again :
  let m := (reserve_remote_action "phone" "a1" "send_message" 100 ∅).1 in
  (reserve_remote_action "phone" "a1" "send_message" 103 m).2 = Ok InFlight ∧
  (reserve_remote_action "phone" "a1" "send_message" 103 (replay_run flood m)).2 = Ok Execute.
Proof. split; vm_compute; reflexivity. Qed.

Lemma remote_action_keys_distinct_witness :
  remote_action_cache_key "my-phone" "a1" ≠ remote_action_cache_key "my" "phone:a1".
Proof.
  apply (remote_action_keys_distinct (Some "My Phone") (Some "my")); [vm_compute; reflexivity..|].
  intros [=].
Defined.
