(* ===== verification/Paths.v ===== *)
(** * Workspace paths and roots (crates/relay-server/src/state.rs)

    Which directories a relay and a device may reach.  A [Path] is the list of its
    components, as [Path::components] yields them on a POSIX system (a Windows prefix
    does not occur; a trailing slash is not seen).  The file system and the environment
    are parameters: [HOME], the current directory, [exists] and [canonicalize]. *)

From Stdlib Require Import ZArith Lia Ascii String.
From S2P Require Import Prelude RustStr.

Open Scope string_scope.

Inductive Component : Type := RootDir | CurDir | ParentDir | Normal (name : string).
#[export] Instance Component_eq_dec : EqDecision Component.
Proof. solve_decision. Defined.

Notation Path := (list Component).

(** ** [std::path] *)

(** [s.split('/')]. *)
Fixpoint split_slash (s : string) : list string :=
  match s with
  | EmptyString => [""]
  | String a s' =>
      let rest := split_slash s' in
      if Ascii.eqb a "/" then "" :: rest
      else match rest with
           | [] => [String a ""]
           | w :: ws => String a w :: ws
           end
  end.

(** A separator-delimited word as a component; empty words and inner dots vanish. *)
Definition word_component (w : string) : option Component :=
  if decide (w = "" ∨ w = ".") then None
  else if decide (w = "..") then Some ParentDir
  else Some (Normal w).

(** [Path::components]. *)
Definition components (s : string) : Path :=
  match split_slash s with
  | "" :: ((_ :: _) as ws) => RootDir :: omap word_component ws
  | "." :: ws => CurDir :: omap word_component ws
  | ws => omap word_component ws
  end.

Definition component_str (c : Component) : string :=
  match c with RootDir => "/" | CurDir => "." | ParentDir => ".." | Normal n => n end.

(** [Path::display]. *)
Definition display (p : Path) : string :=
  match p with
  | RootDir :: p' => "/" +:+ String.concat "/" (map component_str p')
  | _ => String.concat "/" (map component_str p)
  end.

Definition is_absolute (p : Path) : bool :=
  match p with RootDir :: _ => true | _ => false end.

(** [PathBuf::join] and [push]: an absolute argument replaces the path. *)
Definition path_join (p q : Path) : Path :=
  if is_absolute q then q
  else match p, q with
       | [], _ => q
       | _, CurDir :: q' => (p ++ q')%list
       | _, _ => (p ++ q)%list
       end.

(** [Path::file_name]: the last component, when it is a name. *)
Definition file_name (p : Path) : option string :=
  match last p with Some (Normal n) => Some n | _ => None end.

(** [Path::starts_with]. *)
Fixpoint path_starts_with (p root : Path) : bool :=
  match root, p with
  | [], _ => true
  | r :: root', c :: p' => bool_decide (r = c) && path_starts_with p' root'
  | _ :: _, [] => false
  end.

(** ** Normalisation *)

(** The loop of [collapse_lexical_components], on the path built so far. *)
Definition collapse_step (st : Path * bool) (c : Component) : Path * bool :=
  let '(normalized, has_root) := st in
  match c with
  | RootDir => ([RootDir], true)
  | CurDir => st
  | ParentDir =>
      let last_is_parent := bool_decide (last normalized = Some ParentDir) in
      if is_some (file_name normalized) && negb last_is_parent
      then (removelast normalized, has_root)
      else if negb has_root then ((normalized ++ [ParentDir])%list, has_root)
      else st
  | Normal n => ((normalized ++ [Normal n])%list, has_root)
  end.

Definition collapse_lexical_components (p : Path) : Path :=
  (foldl collapse_step ([], false) p).1.

(** What the code asks of the file system and the environment. *)
Class FileSystem := {
  env_home : option string;
  env_current_dir : option string;
  fs_exists : Path → bool;
  fs_canonicalize : Path → option Path
}.

Section WithFs.
Context `{FileSystem}.

(** The loop of [normalize_path_lossy]: climb, from the last component, to an ancestor
    that exists; the names left behind come back in path order. *)
Fixpoint climb (rev_path : Path) (unresolved : Path) : Path * Path :=
  if fs_exists (rev rev_path) then (rev rev_path, unresolved)
  else match rev_path with
       | Normal n :: rest => climb rest (Normal n :: unresolved)
       | _ => (rev rev_path, unresolved)
       end.

Definition normalize_path_lossy (p : Path) : Path :=
  match fs_canonicalize p with
  | Some canonical => canonical
  | None =>
      let '(current, unresolved) := climb (rev p) [] in
      let normalized :=
        if fs_exists current then default current (fs_canonicalize current) else current in
      collapse_lexical_components (normalized ++ unresolved)%list
  end.

Definition expand_home_dir (path : string) : option Path :=
  if decide (path = "~") then components <$> env_home
  else match path with
       | String "~" (String "/" stripped) =>
           (λ home, path_join (components home) (components stripped)) <$> env_home
       | _ => None
       end.

Definition make_absolute (path : string) : option Path :=
  let candidate := components path in
  if is_absolute candidate then Some candidate
  else (λ cwd, path_join (components cwd) candidate) <$> env_current_dir.

Definition normalize_cwd (cwd : string) : string :=
  let trimmed := trim cwd in
  if is_empty trimmed then ""
  else
    let expanded := default (components trimmed)
                      (option_or (expand_home_dir trimmed) (make_absolute trimmed)) in
    display (normalize_path_lossy expanded).

(** ** Roots and scopes *)
Definition path_within_allowed_roots (path : string) (allowed_roots : list string) : bool :=
  match allowed_roots with
  | [] => true
  | _ =>
      let candidate_path := components (normalize_cwd path) in
      existsb (λ root,
        let root_path := components root in
        bool_decide (candidate_path = root_path) || path_starts_with candidate_path root_path)
        allowed_roots
  end.

Inductive ScopeError : Type := OutsideRoots (path : string) | OutsideDevicePaths (path : string).

Definition ensure_path_within_allowed_roots (path : string) (allowed_roots : list string) :
    result () ScopeError :=
  if path_within_allowed_roots path allowed_roots then Ok ()
  else Err (OutsideRoots (normalize_cwd path)).

Definition path_within_device_scope (path : string) (device_scope relay_allowed_roots : list string) :
    bool :=
  path_within_allowed_roots path relay_allowed_roots &&
  (bool_decide (device_scope = []) || path_within_allowed_roots path device_scope).

Definition ensure_path_within_device_scope (path : string)
    (device_scope relay_allowed_roots : list string) : result () ScopeError :=
  ensure_path_within_allowed_roots path relay_allowed_roots ?>
  if negb (bool_decide (device_scope = [])) && negb (path_within_allowed_roots path device_scope)
  then Err (OutsideDevicePaths (normalize_cwd path))
  else Ok ().
End WithFs.

(** [nearest_enumerated_root]: the longest root that lexically contains the path; among
    roots of equal length the last ([max_by_key]). *)
Definition nearest_enumerated_root (path : string) (roots : list string) : option string :=
  if is_empty path || bool_decide (roots = []) then None
  else
    let p := collapse_lexical_components (components path) in
    foldl (λ best root,
      match best with
      | None => Some root
      | Some b => if (String.length b <=? String.length root)%nat then Some root else Some b
      end) None
      (filter (λ root,
         let r := collapse_lexical_components (components root) in
         p = r ∨ path_starts_with p r = true) roots).

(** ** Containment *)

Definition valid_name (n : string) : Prop :=
  n ≠ "" ∧ n ≠ "." ∧ n ≠ ".." ∧ string_forall (λ a, negb (Ascii.eqb a "/")) n = true.

Definition names_valid (p : Path) : Prop := ∀ n, Normal n ∈ p → valid_name n.

(** An absolute path without [.] or [..]. *)
Definition clean (p : Path) : Prop :=
  ∃ names, p = RootDir :: map Normal names ∧ Forall valid_name names.

(** Documented behaviour: [canonicalize] yields an absolute path with every
    intermediate component resolved; the current directory and [HOME] are absolute. *)
Class FileSystemLaws `{FileSystem} : Prop := {
  canonicalize_clean : ∀ p q, fs_canonicalize p = Some q → clean q;
  current_dir_absolute : ∃ c, env_current_dir = Some c ∧ is_absolute (components c) = true;
  home_absolute : ∀ h, env_home = Some h → is_absolute (components h) = true
}.

Definition inside (p root : Path) : Prop := ∃ names, p = (root ++ map Normal names)%list.

Lemma split_slash_words s : Forall (λ w, string_forall (λ a, negb (Ascii.eqb a "/")) w = true) (split_slash s).
Proof.
  induction s as [|a s IH]; cbn; [by repeat constructor|].
  destruct (Ascii.eqb a "/") eqn:E; [by constructor|].
  destruct (split_slash s) as [|w ws]; [repeat constructor; cbn; by rewrite E|].
  apply Forall_cons in IH as [Hw Hws]. constructor; [|done]. cbn. by rewrite E.
Qed.

Lemma omap_words_valid ws :
  Forall (λ w, string_forall (λ a, negb (Ascii.eqb a "/")) w = true) ws →
  names_valid (omap word_component ws).
Proof.
  intros Hws n Hn. apply list_elem_of_omap in Hn as (w & Hw & E). unfold word_component in E.
  repeat case_decide; simplify_eq. rewrite Forall_forall in Hws. split_and!; try tauto. by apply Hws.
Qed.

Lemma names_valid_cons c p : (∀ n, c ≠ Normal n) → names_valid p → names_valid (c :: p).
Proof. intros Hc Hp n [<-|Hn]%elem_of_cons; [by destruct (Hc n) | by apply Hp]. Qed.

Lemma components_valid s : names_valid (components s).
Proof.
  unfold components. pose proof (split_slash_words s) as Hw.
  assert (∀ w ws, split_slash s = w :: ws → names_valid (omap word_component ws)) as Ht.
  { intros w ws E. rewrite E in Hw. apply Forall_cons in Hw as [_ Hw]. by apply omap_words_valid. }
  destruct (split_slash s) as [|w ws] eqn:E; [by intros n ?%not_elem_of_nil|].
  specialize (Ht w ws eq_refl). apply omap_words_valid in Hw.
  repeat case_match; simplify_eq; try done; by apply names_valid_cons.
Qed.

Lemma names_valid_app p q : names_valid (p ++ q)%list ↔ names_valid p ∧ names_valid q.
Proof. unfold names_valid. setoid_rewrite elem_of_app. naive_solver. Qed.

Lemma split_slash_word w :
  string_forall (λ a, negb (Ascii.eqb a "/")) w = true → split_slash w = [w].
Proof.
  induction w as [|a w IH]; [done|]. cbn. rewrite andb_true_iff, negb_true_iff. intros [-> Hw].
  by rewrite IH.
Qed.

Lemma split_slash_app w s :
  string_forall (λ a, negb (Ascii.eqb a "/")) w = true →
  split_slash (w +:+ String "/" s) = w :: split_slash s.
Proof.
  induction w as [|a w IH]; [done|]. cbn. rewrite andb_true_iff, negb_true_iff. intros [-> Hw].
  by rewrite IH.
Qed.

Lemma concat_cons n m ms :
  String.concat "/" (n :: m :: ms) = n +:+ String "/" (String.concat "/" (m :: ms)).
Proof. done. Qed.

Lemma split_slash_concat n names :
  Forall valid_name (n :: names) → split_slash (String.concat "/" (n :: names)) = n :: names.
Proof.
  revert n. induction names as [|m ms IH]; intros n Hf;
    apply Forall_cons in Hf as [(_ & _ & _ & Hn) Hf]; [by apply split_slash_word|].
  by rewrite concat_cons, split_slash_app, IH.
Qed.

Lemma word_component_name n : valid_name n → word_component n = Some (Normal n).
Proof. intros (? & ? & ? & _). unfold word_component. rewrite !decide_False by tauto. done. Qed.

Lemma omap_names names :
  Forall valid_name names → omap word_component names = map Normal names.
Proof. induction 1 as [|n ns Hn _ IH]; [done|]. cbn. by rewrite word_component_name, IH. Qed.

Lemma components_display p : clean p → components (display p) = p.
Proof.
  intros (names & -> & Hf). unfold components. cbn [display].
  replace (map component_str (map Normal names)) with names
    by (rewrite map_map; symmetry; apply map_id).
  change (split_slash ("/" +:+ String.concat "/" names)) with
    ("" :: split_slash (String.concat "/" names)).
  destruct names as [|n names]; [done|]. rewrite split_slash_concat by done. by rewrite omap_names.
Qed.

(** The collapse of an absolute path is clean. *)
Lemma collapse_clean p names :
  names_valid p → Forall valid_name names →
  (∀ c, c ∈ p → c ≠ RootDir) →
  clean (foldl collapse_step (RootDir :: map Normal names, true) p).1.
Proof.
  revert names. induction p as [|c p IH]; intros names Hv Hn Hr; [by exists names|].
  assert (names_valid p) as Hv' by (intros n Hin; apply Hv; by right).
  assert (∀ c, c ∈ p → c ≠ RootDir) as Hr' by (intros c' Hin; apply Hr; by right).
  cbn [foldl]. destruct c as [| | |n]; cbn [collapse_step].
  - by destruct (Hr RootDir); [left|].
  - by apply IH.
  - destruct names as [|m ms _] using rev_ind; [by apply (IH [])|].
    apply Forall_app in Hn as [Hms _]. rewrite map_app. cbn [map].
    unfold file_name. change (RootDir :: (map Normal ms ++ [Normal m]))%list with
      ((RootDir :: map Normal ms) ++ [Normal m])%list.
    rewrite last_snoc, removelast_last. by apply IH.
  - replace ((RootDir :: map Normal names) ++ [Normal n])%list
      with (RootDir :: map Normal (names ++ [n])%list) by by rewrite map_app.
    apply IH; [done| |done]. apply Forall_app. split; [done|].
    constructor; [|done]. apply Hv. by left.
Qed.

(** *** Where a root occurs *)
Definition rooted (p : Path) : Prop := ∃ p', p = RootDir :: p' ∧ ∀ c, c ∈ p' → c ≠ RootDir.

Lemma omap_no_root (ws : list string) c : c ∈ omap word_component ws → c ≠ RootDir.
Proof.
  intros (w & _ & E)%list_elem_of_omap. unfold word_component in E. by repeat case_decide; simplify_eq.
Qed.

Lemma components_shape s : ∃ ws : list string,
  components s = RootDir :: omap word_component ws ∨ components s = CurDir :: omap word_component ws ∨
  components s = omap word_component ws.
Proof. unfold components. repeat case_match; eauto. Qed.

Lemma components_rooted s : is_absolute (components s) = true → rooted (components s).
Proof.
  destruct (components_shape s) as (ws & [-> | [-> |E]]); [|done|].
  - intros _. eexists. split; [done|]. apply omap_no_root.
  - rewrite E. intros Ha. destruct (omap word_component ws) as [|c l] eqn:El; [done|].
    destruct c; try done. exfalso. apply (omap_no_root ws RootDir); [rewrite El; by left | done].
Qed.

Lemma components_relative s c :
  is_absolute (components s) = false → c ∈ components s → c ≠ RootDir.
Proof.
  destruct (components_shape s) as (ws & [-> | [-> | ->]]); [done|..].
  - intros _ [->|Hc]%elem_of_cons; [done | by eapply omap_no_root].
  - intros _. apply omap_no_root.
Qed.

Lemma join_rooted s t :
  is_absolute (components s) = true →
  rooted (path_join (components s) (components t)) ∧
  names_valid (path_join (components s) (components t)).
Proof.
  intros Hs. unfold path_join. pose proof (components_valid s) as Vs.
  pose proof (components_valid t) as Vt. destruct (is_absolute (components t)) eqn:Ht.
  { split; [by apply components_rooted | done]. }
  destruct (components_rooted s Hs) as (p & E & Hp). rewrite E in *.
  assert (∀ q, (∀ c, c ∈ q → c ∈ components t) →
    rooted ((RootDir :: p) ++ q)%list ∧ names_valid ((RootDir :: p) ++ q)%list) as Hq.
  { intros q Hq. split.
    - exists (p ++ q)%list. split; [done|]. intros c [Hc|Hc]%elem_of_app; [by apply Hp|].
      eapply components_relative; eauto.
    - apply names_valid_app. split; [done|]. intros n Hn. apply Vt. by apply Hq. }
  destruct (components t) as [|[] q] eqn:Et; try (by apply Hq).
  apply Hq. intros c Hc. by right.
Qed.

Section Containment.
Context `{FileSystemLaws}.

Lemma climb_app rp u : ((climb rp u).1 ++ (climb rp u).2 = rev rp ++ u)%list.
Proof using Type.
  revert u. induction rp as [|c rp IH]; intros u; cbn [climb].
  - by destruct (fs_exists _).
  - destruct (fs_exists _); [done|]. destruct c; try done. rewrite IH. cbn. by rewrite <- app_assoc.
Qed.

(** Climbing never passes the root, and what it leaves behind are names. *)
Lemma climb_rooted p rp u :
  rp = rev p → rooted p → rooted (climb rp u).1.
Proof using Type.
  revert p u. induction rp as [|c rp IH]; intros p u E (p' & -> & Hp').
  - by apply (f_equal length) in E; rewrite length_rev in E.
  - cbn [climb]. assert (rooted (rev (c :: rp))) as Hr
      by (rewrite E, rev_involutive; by exists p').
    destruct (fs_exists _); [done|]. destruct c; try done.
    apply (IH (rev rp)); [by rewrite rev_involutive|].
    destruct Hr as (q & Eq & Hq). cbn in Eq. destruct (rev rp) as [|c0 r0]; [done|].
    injection Eq as -> Eq. exists r0. split; [done|]. intros c Hc. apply Hq. rewrite <- Eq.
    apply elem_of_app. by left.
Qed.

Lemma climb_unresolved rp u c :
  c ∈ (climb rp u).2 → (∀ c, c ∈ u → ∃ n, c = Normal n) → ∃ n, c = Normal n.
Proof using Type.
  revert u. induction rp as [|c0 rp IH]; intros u; cbn [climb].
  - destruct (fs_exists _); eauto.
  - destruct (fs_exists _); [eauto|]. destruct c0; eauto. intros Hc Hu. apply (IH _ Hc).
    intros c' [->|?]%elem_of_cons; eauto.
Qed.

Lemma normalize_path_clean p : rooted p → names_valid p → clean (normalize_path_lossy p).
Proof using Type*.
  intros Hr Hv. unfold normalize_path_lossy. destruct (fs_canonicalize p) as [q|] eqn:Ec.
  { by eapply canonicalize_clean. }
  pose proof (climb_app (rev p) []) as Ha. rewrite rev_involutive, app_nil_r in Ha.
  pose proof (climb_rooted p (rev p) [] eq_refl Hr) as Hc.
  pose proof (λ c Hin, climb_unresolved (rev p) [] c Hin) as Hu.
  destruct (climb (rev p) []) as [cur un]. cbn in *. subst p.
  apply names_valid_app in Hv as [Hvc Hvu].
  assert (rooted (if fs_exists cur then default cur (fs_canonicalize cur) else cur) ∧
    names_valid (if fs_exists cur then default cur (fs_canonicalize cur) else cur)) as [Hr' Hv'].
  { destruct (fs_exists cur); [|done]. destruct (fs_canonicalize cur) as [q|] eqn:Eq; [|done]. cbn.
    apply canonicalize_clean in Eq as (names & -> & Hn). split.
    - eexists. split; [done|]. by intros c (n & <- & _)%list_elem_of_In%in_map_iff.
    - apply names_valid_cons; [done|]. intros n (n' & [= ->] & Hin)%list_elem_of_In%in_map_iff.
      rewrite Forall_forall in Hn. by apply Hn, list_elem_of_In. }
  set (base := if fs_exists cur then _ else cur) in *. clearbody base.
  destruct Hr' as (p' & -> & Hp'). unfold collapse_lexical_components.
  apply (collapse_clean (p' ++ un)%list []); [|done|].
  - apply names_valid_app. split; [|done]. intros n Hn. apply Hv'. by right.
  - intros c [Hc'|Hc']%elem_of_app; [by apply Hp'|].
    destruct (Hu c Hc') as [n ->]; [|done]. by intros ? ?%not_elem_of_nil.
Qed.

Lemma normalize_cwd_clean path :
  is_blank path = false → clean (components (normalize_cwd path)).
Proof using Type*.
  intros Hb. unfold normalize_cwd. unfold is_blank in Hb. rewrite Hb.
  set (t := trim path). set (e := default _ _).
  enough (rooted e ∧ names_valid e) as [Hr Hv].
  { pose proof (normalize_path_clean e Hr Hv). by rewrite components_display. }
  subst e. unfold expand_home_dir.
  assert (rooted (default (components t) (make_absolute t)) ∧
    names_valid (default (components t) (make_absolute t))) as Hm.
  { unfold make_absolute. destruct current_dir_absolute as (c & -> & Hc).
    destruct (is_absolute (components t)) eqn:Et; cbn.
    - split; [by apply components_rooted | apply components_valid].
    - by apply join_rooted. }
  case_decide.
  - destruct env_home as [h|] eqn:Eh; cbn; [|done].
    split; [apply components_rooted; by apply home_absolute | apply components_valid].
  - repeat (case_match; try exact Hm). destruct env_home as [h|] eqn:Eh; [|exact Hm]. cbn.
    apply join_rooted. by apply home_absolute.
Qed.

Lemma starts_with_inside p root :
  clean p → is_absolute root = true →
  bool_decide (p = root) || path_starts_with p root = true ↔ inside p root.
Proof using Type.
  intros (names & -> & _) Ha. destruct root as [|[] root]; try done. cbn [path_starts_with].
  rewrite (bool_decide_eq_true_2 (RootDir = RootDir)), andb_true_l by done.
  rewrite orb_true_iff, bool_decide_eq_true.
  transitivity (path_starts_with (map Normal names) root = true).
  { split; [|by right]. intros [[= <-]|?]; [|done]. clear Ha. induction names; cbn; [done|].
    by rewrite bool_decide_eq_true_2. }
  transitivity (inside (map Normal names) root).
  2: { unfold inside. cbn. split; intros [ns E]; exists ns; [by f_equal | by injection E]. }
  clear Ha. revert root. induction names as [|n names IH]; intros root.
  - destruct root; cbn; [|split; [done|by intros (ns & [=])]]. split; [by exists [] | done].
  - destruct root as [|r root]; cbn [path_starts_with map].
    + split; [|done]. intros _. by exists (n :: names).
    + rewrite andb_true_iff, bool_decide_eq_true, IH. unfold inside. cbn. split.
      * intros [-> [ns ->]]. by exists ns.
      * intros [ns [= <- ->]]. split; [done|]. by exists ns.
Qed.

Definition inside_roots (path : string) (roots : list string) : Prop :=
  ∃ root, root ∈ roots ∧ inside (components (normalize_cwd path)) (components root).

Lemma within_roots_iff path roots :
  is_blank path = false → Forall (λ r, is_absolute (components r) = true) roots →
  path_within_allowed_roots path roots = true ↔ roots = [] ∨ inside_roots path roots.
Proof using Type*.
  intros Hb Ha. pose proof (normalize_cwd_clean path Hb) as Hc.
  unfold path_within_allowed_roots. destruct roots as [|r roots]; [split; [by left | done]|].
  rewrite existsb_exists. unfold inside_roots. setoid_rewrite list_elem_of_In.
  rewrite List.Forall_forall in Ha. split.
  - intros (root & Hin & Hs). right. exists root. split; [done|].
    apply starts_with_inside in Hs; auto.
  - intros [[=]|(root & Hin & Hs)]. exists root. split; [done|]. apply starts_with_inside; auto.
Qed.

(** C11: the scope check is containment.  For an absolute set of roots, a workspace path
    passes exactly when its normal form, an absolute path without [.] or [..], extends
    one of the relay's roots by zero or more names, and, for a scoped device, one of the
    device's paths too; a sibling that merely shares a prefix of letters, or a path that
    climbs out with [..], does not pass. *)
Theorem device_scope_is_containment path scope roots :
  is_blank path = false →
  Forall (λ r, is_absolute (components r) = true) roots →
  Forall (λ r, is_absolute (components r) = true) scope →
  clean (components (normalize_cwd path)) ∧
  (ensure_path_within_device_scope path scope roots = Ok () ↔
   (roots = [] ∨ inside_roots path roots) ∧ (scope = [] ∨ inside_roots path scope)) ∧
  path_within_device_scope path scope roots =
    is_ok (ensure_path_within_device_scope path scope roots).
Proof using Type*.
  intros Hb Hr Hs. split; [by apply normalize_cwd_clean|].
  rewrite <- (within_roots_iff path roots), <- (within_roots_iff path scope) by done.
  unfold ensure_path_within_device_scope, ensure_path_within_allowed_roots, path_within_device_scope.
  destruct (path_within_allowed_roots path roots); [|split; [naive_solver | done]].
  destruct scope as [|x scope]; [done|]. rewrite bool_decide_eq_false_2 by done.
  destruct (path_within_allowed_roots path (x :: scope)); cbn; split; naive_solver.
Qed.
End Containment.

(** ** A file system *)
Definition known_dirs : list Path :=
  [[RootDir]; [RootDir; Normal "srv"]; [RootDir; Normal "srv"; Normal "app"]].

Definition sample_fs : FileSystem := {|
  env_home := Some "/home/me";
  env_current_dir := Some "/srv";
  fs_exists := λ p, bool_decide (p ∈ known_dirs);
  fs_canonicalize := λ p, if bool_decide (p ∈ known_dirs) then Some p else None
|}.

Lemma sample_fs_laws : @FileSystemLaws sample_fs.
Proof.
  split.
  - intros p q. cbn. case_bool_decide as Hp; [|done]. intros [= <-].
    unfold known_dirs in Hp. rewrite !elem_of_cons, elem_of_nil in Hp.
    destruct Hp as [->|[->|[->|[]]]]; [exists [] | exists ["srv"] | exists ["srv"; "app"]];
      split; try done; by repeat constructor.
  - by exists "/srv".
  - by intros h [= <-].
Qed.

Lemma device_scope_is_containment_witness :
  @ensure_path_within_device_scope sample_fs "/srv/app/new/../lib" ["/srv/app"] ["/srv"] = Ok ().
Proof.
  apply (@device_scope_is_containment sample_fs sample_fs_laws);
    [reflexivity | by repeat constructor | by repeat constructor |].
  split; right.
  - exists "/srv". split; [by left|]. exists ["app"; "lib"]. vm_compute. reflexivity.
  - exists "/srv/app". split; [by left|]. exists ["lib"]. vm_compute. reflexivity.
Defined.
