(* ===== verification/Surfaces.v ===== *)
(** * Surfaces: control, watches and the broker queue
      (crates/relay-server/src/state/relay.rs)

    Which device may drive the active thread (the controller lease), which surface
    receives which thread's transcript (watch sets, connection generations, the current
    scope of the device), and what waits for the broker publisher.  [SurfaceState] is
    the part of [RelayState] this code reads and writes.  Of a thread's runtime only
    its [current_cwd] matters here; what goes to local subscribers is kept in
    [sf_local_deltas]. *)

From Stdlib Require Import ZArith Lia.
From S2P Require Import Prelude RustStr Device Paths.

Open Scope string_scope.
Open Scope Z_scope.

Definition CONTROLLER_LEASE_SECS : Z := 15.
Definition MAX_PENDING_DELTAS : nat := 4096.

Inductive TranscriptDeltaKind : Type := AgentText | CommandOutput.

Record PendingTranscriptDelta : Type := MkDelta {
  td_thread_id : string;
  td_base_revision : Z;
  td_revision : Z;
  td_entry_seq : Z;
  td_server_time : Z;
  td_item_id : string;
  td_turn_id : option string;
  td_delta : string;
  td_kind : TranscriptDeltaKind;
  td_text_offset : option Z
}.

Inductive BrokerPendingMessage : Type :=
| PairingResult (r : PendingPairingResult)
| TranscriptDelta (d : PendingTranscriptDelta).

Record SurfaceState : Type := MkSurfaces {
  sf_active_thread_id : option string;
  sf_active_controller_device_id : option string;
  sf_active_controller_last_seen_at : option Z;
  sf_online_surface_peer_ids : gset string;
  sf_online_surface_peer_devices : gmap string string;
  sf_watched_threads : gmap string WatchedSurface;
  sf_surface_generations : gmap string Z;
  sf_broker_surface_ids : gset string;
  sf_broker_configured : bool;
  sf_broker_connected : bool;
  sf_pending_broker_messages : list BrokerPendingMessage;
  sf_local_deltas : list PendingTranscriptDelta;
  sf_runtime_cwds : gmap string string;
  sf_paired_devices : gmap string PairedDevice;
  sf_allowed_roots : list string
}.
#[export] Instance SurfaceState_expand : Expand SurfaceState := λ s,
  MkSurfaces (sf_active_thread_id s) (sf_active_controller_device_id s)
    (sf_active_controller_last_seen_at s) (sf_online_surface_peer_ids s)
    (sf_online_surface_peer_devices s) (sf_watched_threads s) (sf_surface_generations s)
    (sf_broker_surface_ids s) (sf_broker_configured s) (sf_broker_connected s)
    (sf_pending_broker_messages s) (sf_local_deltas s) (sf_runtime_cwds s)
    (sf_paired_devices s) (sf_allowed_roots s).

(** ** The controller lease *)
Definition assign_active_controller (device_id : string) (now : Z) (s : SurfaceState) :
    SurfaceState * bool :=
  let changed := negb (bool_decide (sf_active_controller_device_id s = Some device_id))
                 || negb (bool_decide (sf_active_controller_last_seen_at s = Some now)) in
  (s <| sf_active_controller_device_id := Some device_id |>
     <| sf_active_controller_last_seen_at := Some now |>, changed).

Definition set_active_controller (device_id : string) (now : Z) : SurfaceState → SurfaceState * bool :=
  assign_active_controller device_id now.

Definition can_device_send_message (device_id : string) (s : SurfaceState) : bool :=
  if is_none (sf_active_thread_id s) then false
  else match sf_active_controller_device_id s with
       | Some active => bool_decide (active = device_id)
       | None => true
       end.

Inductive ControlError : Type := NoActiveThread | AnotherDeviceHasControl | NoActiveSession.

Definition ensure_device_can_send_message (device_id : string) (s : SurfaceState) :
    result () ControlError :=
  if is_none (sf_active_thread_id s) then Err NoActiveThread
  else if can_device_send_message device_id s then Ok ()
  else Err AnotherDeviceHasControl.

Definition can_device_approve (device_id : string) (s : SurfaceState) : bool :=
  is_some (sf_active_thread_id s).

Definition ensure_device_can_approve (device_id : string) (s : SurfaceState) :
    result () ControlError :=
  if can_device_approve device_id s then Ok () else Err NoActiveSession.

Definition refresh_controller_lease (device_id : string) (now : Z) (s : SurfaceState) :
    SurfaceState * bool :=
  if is_none (sf_active_thread_id s) then (s, false)
  else if negb (bool_decide (sf_active_controller_device_id s = Some device_id)) then (s, false)
  else if bool_decide (sf_active_controller_last_seen_at s = Some now) then (s, false)
  else (s <| sf_active_controller_last_seen_at := Some now |>, true).

Definition controller_lease_expires_at (s : SurfaceState) : option Z :=
  (λ last_seen, u64_saturating_add last_seen CONTROLLER_LEASE_SECS)
    <$> sf_active_controller_last_seen_at s.

Definition clear_controller (s : SurfaceState) : SurfaceState :=
  s <| sf_active_controller_device_id := None |> <| sf_active_controller_last_seen_at := None |>.

Definition expire_stale_controller (now : Z) (s : SurfaceState) : SurfaceState * option string :=
  if is_none (sf_active_thread_id s) then (clear_controller s, None)
  else
    match sf_active_controller_device_id s with
    | None => (s, None)
    | Some active =>
        match controller_lease_expires_at s with
        | None => (clear_controller s, Some active)
        | Some expires_at => if now <? expires_at then (s, None) else (clear_controller s, Some active)
        end
    end.

(** ** Presence *)
Definition set_broker_connection (connected : bool) (s : SurfaceState) : SurfaceState :=
  let s := s <| sf_broker_connected := connected |> in
  if connected then s
  else
    let broker_surfaces := sf_broker_surface_ids s in
    s <| sf_online_surface_peer_ids := ∅ |>
      <| sf_online_surface_peer_devices := ∅ |>
      <| sf_broker_surface_ids := ∅ |>
      <| sf_watched_threads ::= filter (λ '(id, _), id ∉ broker_surfaces) |>.

Definition mark_surface_peer_online (peer_id : string) (s : SurfaceState) : SurfaceState * bool :=
  (s <| sf_online_surface_peer_ids ::= λ ids, {[ peer_id ]} ∪ ids |>,
   negb (bool_decide (peer_id ∈ sf_online_surface_peer_ids s))).

Definition prune_offline_broker_surfaces (s : SurfaceState) : SurfaceState :=
  let online := sf_online_surface_peer_ids s in
  let broker_surfaces := sf_broker_surface_ids s in
  s <| sf_watched_threads ::= filter (λ '(id, _), id ∉ broker_surfaces ∨ id ∈ online) |>
    <| sf_broker_surface_ids := broker_surfaces ∩ online |>.

Definition mark_surface_peer_offline (peer_id : string) (s : SurfaceState) : SurfaceState * bool :=
  let removed := bool_decide (peer_id ∈ sf_online_surface_peer_ids s) in
  (prune_offline_broker_surfaces
     (s <| sf_online_surface_peer_devices ::= delete peer_id |>
        <| sf_online_surface_peer_ids ::= λ ids, ids ∖ {[ peer_id ]} |>), removed).

Definition replace_online_surface_peers (peer_ids : list string) (s : SurfaceState) : SurfaceState :=
  let online := list_to_set peer_ids in
  prune_offline_broker_surfaces
    (s <| sf_online_surface_peer_ids := online |>
       <| sf_online_surface_peer_devices ::= filter (λ '(peer, _), peer ∈ online) |>).

Definition bind_surface_peer (device_id peer_id : string) (s : SurfaceState) : SurfaceState :=
  s <| sf_online_surface_peer_devices ::= <[peer_id := device_id]> |>.

(** ** Watch sets *)
Definition surface_generation (surface_id : string) (s : SurfaceState) : Z :=
  default 0 (sf_surface_generations s !! surface_id).

Definition scope_of (device_id : string) (s : SurfaceState) : list string :=
  default [] (pd_path_scope <$> sf_paired_devices s !! device_id).

Section WithFs.
Context `{FileSystem}.

Definition thread_is_readable_by (cwd : option string) (device_scope allowed_roots : list string) :
    bool :=
  let unrestricted := bool_decide (device_scope = []) && bool_decide (allowed_roots = []) in
  match cwd with
  | Some c =>
      let c := trim c in
      if is_empty c then unrestricted
      else is_ok (ensure_path_within_device_scope c device_scope allowed_roots)
  | None => unrestricted
  end.

Definition thread_is_readable_by_device (thread_id device_id : string) (s : SurfaceState) : bool :=
  thread_is_readable_by (sf_runtime_cwds s !! thread_id) (scope_of device_id s) (sf_allowed_roots s).

(** The declaration-time filter: only what is provably out of bounds goes. *)
Definition declarable (device_id : string) (s : SurfaceState) (thread_id : string) : bool :=
  negb (is_empty thread_id) &&
  match sf_runtime_cwds s !! thread_id with
  | Some cwd =>
      if is_empty (trim cwd) then true
      else thread_is_readable_by (Some cwd) (scope_of device_id s) (sf_allowed_roots s)
  | None => true
  end.

Definition set_watched_threads_for_generation (surface_id device_id : string)
    (thread_ids : list string) (generation : option Z) (s : SurfaceState) : SurfaceState * bool :=
  let current := surface_generation surface_id s in
  if match generation with Some g => g <? current | None => false end then (s, false)
  else
    let next : gset string := list_to_set (filter (λ id, declarable device_id s id = true) thread_ids) in
    let entry := MkWatched device_id next current in
    if match sf_watched_threads s !! surface_id with
       | Some w => bool_decide (ws_thread_ids w = next) && bool_decide (ws_device_id w = device_id)
                   && bool_decide (ws_generation w = current)
       | None => false
       end
    then (s, false)
    else (s <| sf_watched_threads ::= <[surface_id := entry]> |>, true).

Definition set_watched_threads (surface_id device_id : string) (thread_ids : list string) :
    SurfaceState → SurfaceState * bool :=
  set_watched_threads_for_generation surface_id device_id thread_ids None.
End WithFs.

Definition register_broker_surface (surface_id : string) (s : SurfaceState) : SurfaceState :=
  s <| sf_broker_surface_ids ::= λ ids, {[ surface_id ]} ∪ ids |>.

Definition open_surface_generation (surface_id : string) (claimed : option Z) (s : SurfaceState) :
    SurfaceState * Z :=
  let current := surface_generation surface_id s in
  let next := match claimed with
              | Some c => if current <? c then c else current
              | None => u64_saturating_add current 1
              end in
  (s <| sf_surface_generations ::= <[surface_id := next]> |>, next).

Definition drop_watched_surface (surface_id : string) (s : SurfaceState) : SurfaceState * bool :=
  (s <| sf_surface_generations ::= delete surface_id |>
     <| sf_broker_surface_ids ::= λ ids, ids ∖ {[ surface_id ]} |>
     <| sf_watched_threads ::= delete surface_id |>,
   is_some (sf_watched_threads s !! surface_id)).

Definition drop_watched_surface_generation (surface_id : string) (generation : Z)
    (s : SurfaceState) : SurfaceState * bool :=
  if negb (bool_decide (sf_surface_generations s !! surface_id = Some generation)) then (s, false)
  else drop_watched_surface surface_id s.

(** ** Delivery *)
Section Delivery.
Context `{FileSystem}.

Definition surface_watches_thread (surface_id thread_id : string) (s : SurfaceState) : bool :=
  match sf_watched_threads s !! surface_id with
  | Some w => bool_decide (thread_id ∈ ws_thread_ids w)
              && thread_is_readable_by_device thread_id (ws_device_id w) s
  | None => bool_decide (sf_active_thread_id s = Some thread_id)
  end.

(** The loop over the watch sets, as the two flags it leaves. *)
Definition device_watches_thread (device_id thread_id : string) (s : SurfaceState) : bool :=
  let of_device := filter (λ e, ws_device_id e.2 = device_id) (map_to_list (sf_watched_threads s)) in
  let wants :=
    if bool_decide (of_device = []) then bool_decide (sf_active_thread_id s = Some thread_id)
    else existsb (λ e, bool_decide (thread_id ∈ ws_thread_ids e.2)) of_device in
  wants && thread_is_readable_by_device thread_id device_id s.

Definition any_device_watches_thread (thread_id : string) (s : SurfaceState) : bool :=
  bool_decide (sf_active_thread_id s = Some thread_id)
  || existsb (λ e, bool_decide (thread_id ∈ ws_thread_ids e.2)) (map_to_list (sf_watched_threads s)).

(** Device, peer, payload secret. *)
Definition broker_targets (s : SurfaceState) : list (string * string * string) :=
  omap (λ peer_id,
    device_id ← sf_online_surface_peer_devices s !! peer_id;
    device ← sf_paired_devices s !! device_id;
    Some (pd_device_id device, peer_id, pd_payload_secret device))
    (elements (sf_online_surface_peer_ids s)).

Definition target_wants (thread_id : string) (s : SurfaceState) (t : string * string * string) : bool :=
  let '(device_id, peer_id, _) := t in
  if is_some (sf_watched_threads s !! peer_id) then surface_watches_thread peer_id thread_id s
  else bool_decide (sf_active_thread_id s = Some thread_id)
       && thread_is_readable_by_device thread_id device_id s.

Definition broker_targets_for_thread (thread_id : string) (s : SurfaceState) :
    list (string * string * string) :=
  filter (λ t, target_wants thread_id s t = true) (broker_targets s).
End Delivery.

(** ** The broker queue *)
Definition is_delta (m : BrokerPendingMessage) : bool :=
  match m with TranscriptDelta _ => true | PairingResult _ => false end.

(** The [retain] that drops the first [to_drop] deltas. *)
Fixpoint drop_deltas (to_drop : nat) (q : list BrokerPendingMessage) : list BrokerPendingMessage :=
  match q with
  | [] => []
  | m :: q' =>
      if is_delta m then
        match to_drop with
        | O => m :: drop_deltas O q'
        | S n => drop_deltas n q'
        end
      else m :: drop_deltas to_drop q'
  end.

Definition bound_pending_transcript_deltas (q : list BrokerPendingMessage) :
    list BrokerPendingMessage :=
  let delta_count := length (filter (λ m, is_delta m = true) q) in
  if (delta_count <=? MAX_PENDING_DELTAS)%nat then q
  else drop_deltas (delta_count - MAX_PENDING_DELTAS) q.

Definition queue_broker_message (message : BrokerPendingMessage) (s : SurfaceState) : SurfaceState :=
  let s := match message with
           | TranscriptDelta d => s <| sf_local_deltas ::= λ l, (l ++ [d])%list |>
           | PairingResult _ => s
           end in
  if is_delta message && negb (sf_broker_configured s) then s
  else s <| sf_pending_broker_messages ::= λ q,
              bound_pending_transcript_deltas (q ++ [message])%list |>.

Definition drain_pending_broker_messages (s : SurfaceState) :
    SurfaceState * list BrokerPendingMessage :=
  (s <| sf_pending_broker_messages := [] |>, sf_pending_broker_messages s).

(** * Surfaces: who controls, who sees, what is queued *)
(** ** The controller lease *)

(** A heartbeat: the relay first expires a stale controller, then the device renews. *)
Definition heartbeat (device_id : string) (s : SurfaceState) (now : Z) : SurfaceState :=
  (refresh_controller_lease device_id now (expire_stale_controller now s).1).1.

(** Each beat comes less than a lease after the one before, and within the clock. *)
Fixpoint beats_ok (last : Z) (times : list Z) : Prop :=
  match times with
  | [] => True
  | t :: times => t < last + CONTROLLER_LEASE_SECS ∧ last + CONTROLLER_LEASE_SECS ≤ u64_max ∧ beats_ok t times
  end.

Definition last_beat (t0 : Z) (times : list Z) : Z := default t0 (last times).

Definition controls (device_id thread_id : string) (t : Z) (s : SurfaceState) : Prop :=
  sf_active_thread_id s = Some thread_id ∧
  sf_active_controller_device_id s = Some device_id ∧
  sf_active_controller_last_seen_at s = Some t.

Lemma heartbeat_controls d th t s now :
  controls d th t s → now < t + CONTROLLER_LEASE_SECS → t + CONTROLLER_LEASE_SECS ≤ u64_max →
  controls d th now (heartbeat d s now).
Proof.
  intros (Ha & Hd & Ht) Hn Hm. unfold heartbeat, expire_stale_controller, controller_lease_expires_at.
  rewrite Ha, Hd, Ht. cbn [is_none is_some negb fmap option_fmap option_map].
  unfold u64_saturating_add. destruct (Z.ltb_spec now (Z.min (t + CONTROLLER_LEASE_SECS) u64_max));
    [|lia].
  cbn [fst]. unfold refresh_controller_lease. rewrite Ha, Hd, Ht.
  rewrite bool_decide_eq_true_2 by done. cbn [is_none is_some negb].
  case_bool_decide as E; [by injection E as <- | by split].
Qed.

Lemma heartbeats_control d th times : ∀ t s,
  controls d th t s → beats_ok t times →
  controls d th (last_beat t times) (foldl (heartbeat d) s times).
Proof.
  induction times as [|x times IH]; intros t s Hc Hb; [done|].
  destruct Hb as (Hx & Hm & Hb). cbn [foldl].
  replace (last_beat t (x :: times)) with (last_beat x times)
    by (unfold last_beat; by destruct times as [|y ys]; [|rewrite last_cons_cons; destruct (last (y :: ys)) eqn:E; [|apply last_None in E]]).
  apply IH; [by eapply heartbeat_controls | done].
Qed.

(** Control is a lease.  A device that holds control and renews it at least every
    15 seconds keeps it, and meanwhile no other device may send; the first expiry check
    15 seconds or more after its last renewal takes control away, names the device, and
    leaves the session open to every device. *)
Theorem controller_lease_is_exclusive d th t0 s times now :
  controls d th t0 s → beats_ok t0 times →
  last_beat t0 times + CONTROLLER_LEASE_SECS ≤ u64_max →
  let s' := foldl (heartbeat d) s times in
  (∀ other, can_device_send_message other s' = bool_decide (d = other)) ∧
  (now < last_beat t0 times + CONTROLLER_LEASE_SECS → expire_stale_controller now s' = (s', None)) ∧
  (last_beat t0 times + CONTROLLER_LEASE_SECS ≤ now →
     (expire_stale_controller now s').2 = Some d ∧
     ∀ other, can_device_send_message other (expire_stale_controller now s').1 = true).
Proof.
  intros Hc Hb Hm s'. destruct (heartbeats_control d th times t0 s Hc Hb) as (Ha & Hd & Ht).
  fold s' in Ha, Hd, Ht. clearbody s'. unfold expire_stale_controller, controller_lease_expires_at.
  rewrite Ha, Hd, Ht. cbn [is_none is_some negb fmap option_fmap option_map].
  unfold u64_saturating_add. rewrite Z.min_l by lia. split_and!.
  - intros other. unfold can_device_send_message. by rewrite Ha, Hd.
  - intros Hn. by destruct (Z.ltb_spec now (last_beat t0 times + CONTROLLER_LEASE_SECS)); [|lia].
  - intros Hn. destruct (Z.ltb_spec now (last_beat t0 times + CONTROLLER_LEASE_SECS)); [lia|].
    split; [done|]. intros other. unfold can_device_send_message. cbn. by rewrite Ha.
Qed.

(** ** The broker queue *)
Definition deltas (q : list BrokerPendingMessage) : list BrokerPendingMessage :=
  filter (λ m, is_delta m = true) q.
Definition results (q : list BrokerPendingMessage) : list BrokerPendingMessage :=
  filter (λ m, is_delta m = false) q.

Lemma drop_deltas_deltas n q : deltas (drop_deltas n q) = drop n (deltas q).
Proof.
  revert n. induction q as [|m q IH]; intros n; [cbn; by rewrite drop_nil|]. unfold deltas in *.
  cbn [drop_deltas]. destruct (is_delta m) eqn:E.
  - rewrite (filter_cons_True _ m q) by done. destruct n as [|n]; [|apply IH].
    rewrite filter_cons_True by done. by rewrite IH.
  - rewrite !filter_cons_False by congruence. apply IH.
Qed.

Lemma drop_deltas_results n q : results (drop_deltas n q) = results q.
Proof.
  revert n. induction q as [|m q IH]; intros n; [done|]. unfold results in *.
  cbn [drop_deltas]. destruct (is_delta m) eqn:E.
  - rewrite (filter_cons_False _ m q) by congruence. destruct n; [|apply IH].
    rewrite filter_cons_False by congruence. apply IH.
  - rewrite !filter_cons_True by done. by rewrite IH.
Qed.

Lemma bound_deltas q :
  deltas (bound_pending_transcript_deltas q) =
  drop (length (deltas q) - MAX_PENDING_DELTAS) (deltas q).
Proof.
  unfold bound_pending_transcript_deltas. fold (deltas q).
  destruct (Nat.leb_spec (length (deltas q)) MAX_PENDING_DELTAS) as [Hle|Hgt].
  - by replace (length (deltas q) - MAX_PENDING_DELTAS)%nat with 0%nat by lia.
  - apply drop_deltas_deltas.
Qed.

Lemma bound_results q : results (bound_pending_transcript_deltas q) = results q.
Proof. unfold bound_pending_transcript_deltas. case_match; [done | apply drop_deltas_results]. Qed.

(** The last [n] elements of a list. *)
Definition lastn {A} (n : nat) (l : list A) : list A := drop (length l - n) l.

Lemma lastn_app_lastn {A} n (l m : list A) : lastn n (lastn n l ++ m)%list = lastn n (l ++ m)%list.
Proof.
  unfold lastn. destruct (Nat.le_gt_cases (length l) n) as [Hl|Hl].
  - by replace (length l - n)%nat with 0%nat by lia.
  - rewrite !length_app, length_drop.
    replace (length l + length m - n)%nat with ((length l - n) + length m)%nat by lia.
    rewrite <- drop_drop. rewrite (drop_app_le l m (length l - n)) by lia.
    f_equal. lia.
Qed.

Lemma queue_configured m s : sf_broker_configured (queue_broker_message m s) = sf_broker_configured s.
Proof. unfold queue_broker_message. by destruct m; cbn; [|destruct (sf_broker_configured s) eqn:E]. Qed.

Lemma queue_results m s :
  results (sf_pending_broker_messages (queue_broker_message m s)) =
  (results (sf_pending_broker_messages s) ++ results [m])%list.
Proof.
  unfold queue_broker_message. destruct m as [r|d]; cbn [is_delta andb].
  - cbn. rewrite bound_results. unfold results. by rewrite filter_app.
  - cbn. destruct (sf_broker_configured s); cbn.
    + rewrite bound_results. unfold results. by rewrite filter_app.
    + by rewrite app_nil_r.
Qed.

Lemma queue_deltas m s :
  deltas (sf_pending_broker_messages (queue_broker_message m s)) =
  if sf_broker_configured s
  then lastn MAX_PENDING_DELTAS (deltas (sf_pending_broker_messages s) ++ deltas [m])%list
  else if is_delta m then deltas (sf_pending_broker_messages s)
  else lastn MAX_PENDING_DELTAS (deltas (sf_pending_broker_messages s)).
Proof.
  unfold queue_broker_message, lastn.
  assert (∀ q, (deltas (q ++ [m]) = deltas q ++ deltas [m])%list) as Ha
    by (intros q; unfold deltas; by rewrite filter_app).
  destruct m as [r|d]; cbn [is_delta andb].
  - cbn. rewrite bound_deltas, Ha. cbn. rewrite app_nil_r. by destruct (sf_broker_configured s).
  - cbn. destruct (sf_broker_configured s); cbn; [|done]. by rewrite bound_deltas, Ha.
Qed.

Lemma queue_local m s :
  map TranscriptDelta (sf_local_deltas (queue_broker_message m s)) =
  (map TranscriptDelta (sf_local_deltas s) ++ deltas [m])%list.
Proof.
  unfold queue_broker_message. destruct m as [r|d]; cbn; [by rewrite app_nil_r|].
  destruct (sf_broker_configured s); cbn; by rewrite map_app.
Qed.

(** What waits for the broker: whatever messages are queued since the last drain,
    every pairing result is kept, in order; of the transcript deltas exactly the last
    4096 are kept, in order, or none at all when no broker is configured; and every
    delta reaches the local subscribers. *)
Theorem broker_queue_keeps_results s ms :
  sf_pending_broker_messages s = [] →
  let s' := foldl (λ s m, queue_broker_message m s) s ms in
  let q := sf_pending_broker_messages s' in
  results q = results ms ∧
  deltas q = (if sf_broker_configured s then lastn MAX_PENDING_DELTAS (deltas ms) else []) ∧
  map TranscriptDelta (sf_local_deltas s') =
    (map TranscriptDelta (sf_local_deltas s) ++ deltas ms)%list.
Proof.
  intros Hq. cbv zeta. set (run := foldl _ s).
  assert (sf_broker_configured (run ms) = sf_broker_configured s ∧
    results (sf_pending_broker_messages (run ms)) = results ms ∧
    deltas (sf_pending_broker_messages (run ms)) =
      (if sf_broker_configured s then lastn MAX_PENDING_DELTAS (deltas ms) else []) ∧
    map TranscriptDelta (sf_local_deltas (run ms)) =
      (map TranscriptDelta (sf_local_deltas s) ++ deltas ms)%list) as (_ & ? & ? & ?); [|done].
  induction ms as [|m ms IH] using rev_ind.
  { cbn. rewrite Hq, app_nil_r. by destruct (sf_broker_configured s). }
  subst run. cbn beta in *. rewrite foldl_snoc. set (s1 := foldl _ s ms) in *. clearbody s1.
  destruct IH as (Hb & Hr & Hd & Hl). split; [|split; [|split]].
  - by rewrite queue_configured.
  - rewrite queue_results, Hr. unfold results. by rewrite filter_app.
  - rewrite queue_deltas, Hb, Hd. destruct (sf_broker_configured s); [|by destruct (is_delta m)].
    unfold deltas. rewrite filter_app. apply lastn_app_lastn.
  - rewrite queue_local, Hl. unfold deltas. by rewrite filter_app, app_assoc.
Qed.

(** ** Connection generations *)
Section Watch.
Context `{FileSystem}.

(** A superseded page is powerless.  Opening a connection never lowers a surface's
    generation and raises it unless the page presents an old one; from then on, the
    declarations and the teardown of any earlier generation change nothing, while the
    new page's declaration is taken up with exactly the threads that are not provably
    out of its device's scope. *)
Theorem stale_surface_is_powerless surface claimed s :
  0 ≤ surface_generation surface s < u64_max →
  let '(s', g) := open_surface_generation surface claimed s in
  surface_generation surface s ≤ g ∧
  (claimed = None ∨ (∃ c, claimed = Some c ∧ surface_generation surface s < c) →
     surface_generation surface s < g) ∧
  (∀ old dev threads, old < g →
     set_watched_threads_for_generation surface dev threads (Some old) s' = (s', false) ∧
     drop_watched_surface_generation surface old s' = (s', false)) ∧
  (∀ dev threads,
     sf_watched_threads (set_watched_threads_for_generation surface dev threads (Some g) s').1
       !! surface =
     Some (MkWatched dev (list_to_set (filter (λ id, declarable dev s id = true) threads)) g)).
Proof.
  intros Hg. unfold open_surface_generation. set (cur := surface_generation surface s) in *.
  set (g := match claimed with Some _ => _ | None => _ end).
  set (s' := s <| sf_surface_generations ::= _ |>).
  assert (surface_generation surface s' = g) as Hcur.
  { unfold surface_generation, s'. cbn. by rewrite lookup_insert_eq. }
  split_and!.
  - unfold g, u64_saturating_add. destruct claimed; [destruct (Z.ltb_spec cur z)|]; lia.
  - unfold g, u64_saturating_add. intros [->|(c & -> & Hc)]; [lia|].
    destruct (Z.ltb_spec cur c); lia.
  - intros old dev threads Hold. split.
    + unfold set_watched_threads_for_generation. rewrite Hcur. by destruct (Z.ltb_spec old g); [|lia].
    + unfold drop_watched_surface_generation. rewrite bool_decide_eq_false_2; [done|].
      unfold s'. cbn. rewrite lookup_insert_eq. intros [= E]. lia.
  - intros dev threads. unfold set_watched_threads_for_generation. rewrite Hcur, Z.ltb_irrefl.
    change (λ id, declarable dev s' id = true) with (λ id, declarable dev s id = true).
    set (next := list_to_set _). destruct (sf_watched_threads s' !! surface) as [w|] eqn:Ew.
    + destruct (_ && _ && _) eqn:E; [|apply lookup_insert_eq].
      rewrite !andb_true_iff, !bool_decide_eq_true in E. destruct E as [[E1 E2] E3].
      cbn [fst]. rewrite Ew. f_equal. destruct w. cbn in *. by subst.
    + apply lookup_insert_eq.
Qed.

(** ** Delivery *)

(** The scope check passed, or there was nothing to enforce. *)
Definition in_scope (thread_id device_id : string) (s : SurfaceState) : Prop :=
  (scope_of device_id s = [] ∧ sf_allowed_roots s = []) ∨
  ∃ cwd, sf_runtime_cwds s !! thread_id = Some cwd ∧ is_blank cwd = false ∧
    ensure_path_within_device_scope (trim cwd) (scope_of device_id s) (sf_allowed_roots s) = Ok ().

Lemma readable_in_scope thread_id device_id s :
  thread_is_readable_by_device thread_id device_id s = true ↔ in_scope thread_id device_id s.
Proof.
  unfold thread_is_readable_by_device, thread_is_readable_by, in_scope.
  set (scope := scope_of device_id s). set (roots := sf_allowed_roots s).
  assert (bool_decide (scope = []) && bool_decide (roots = []) = true ↔ scope = [] ∧ roots = []) as Hu
    by by rewrite andb_true_iff, !bool_decide_eq_true.
  destruct (sf_runtime_cwds s !! thread_id) as [cwd|]; [|rewrite Hu; naive_solver].
  unfold is_blank. destruct (is_empty (trim cwd)) eqn:Eb.
  { rewrite Hu. split; [by left|]. intros [?|(c & [= <-] & Hb & _)]; [done|]. congruence. }
  assert (∀ r : result () ScopeError, is_ok r = true ↔ r = Ok ()) as Hok
    by (intros [[]|]; naive_solver).
  rewrite Hok. split; [by eauto 10|]. intros [[-> ->]|(c & [= <-] & _ & ?)]; done.
Qed.

(** Whether a peer asked for the thread: its own declaration, or, if it never declared
    anything, the active thread; and the device whose scope decides. *)
Definition peer_wants (thread_id peer_id : string) (s : SurfaceState) : Prop :=
  match sf_watched_threads s !! peer_id with
  | Some w => thread_id ∈ ws_thread_ids w
  | None => sf_active_thread_id s = Some thread_id
  end.
Definition scope_owner (peer_id device_id : string) (s : SurfaceState) : string :=
  match sf_watched_threads s !! peer_id with Some w => ws_device_id w | None => device_id end.

Lemma target_wants_iff thread_id s dev peer secret :
  target_wants thread_id s (dev, peer, secret) = true ↔
  peer_wants thread_id peer s ∧ in_scope thread_id (scope_owner peer dev s) s.
Proof.
  unfold target_wants, surface_watches_thread, peer_wants, scope_owner.
  rewrite <- readable_in_scope.
  destruct (sf_watched_threads s !! peer) as [w|]; cbn [is_some];
    by rewrite andb_true_iff, bool_decide_eq_true.
Qed.

(** C28: a live delta goes through the broker to exactly these peers: those that are online
    and bound to a device that is paired right now; that asked for the thread, or never
    declared anything and it is the active thread; and for which the relay's roots and the
    scope of the device that declared the watch (of the paired device itself where nothing was
    declared) contain the thread's current directory.  The delta is sealed for the device the
    peer is bound to, with the secret of that device.  The device that declared the watch is
    the one the request to watch named, which need not be the one the peer is bound to. *)
Theorem deltas_reach_exactly_scoped_watchers thread_id s dev peer secret :
  (dev, peer, secret) ∈ broker_targets_for_thread thread_id s ↔
  ∃ did d, peer ∈ sf_online_surface_peer_ids s ∧
    sf_online_surface_peer_devices s !! peer = Some did ∧ sf_paired_devices s !! did = Some d ∧
    dev = pd_device_id d ∧ secret = pd_payload_secret d ∧
    peer_wants thread_id peer s ∧ in_scope thread_id (scope_owner peer dev s) s.
Proof.
  unfold broker_targets_for_thread, broker_targets.
  rewrite list_elem_of_filter, target_wants_iff, list_elem_of_omap. split.
  - intros [[Hw Hs] (p & Hp & E)]. apply elem_of_elements in Hp.
    destruct (sf_online_surface_peer_devices s !! p) as [did|] eqn:Ed; [|done]. cbn in E.
    destruct (sf_paired_devices s !! did) as [d|] eqn:Ep; [|done]. injection E as <- <- <-.
    exists did, d. by split_and!.
  - intros (did & d & Hp & Ed & Ep & -> & -> & Hw & Hs). split; [done|].
    exists peer. split; [by apply elem_of_elements|]. by rewrite Ed; cbn; rewrite Ep.
Qed.

(** A local surface that never declared a watch set is shown the active thread
    whatever the scope of its device and the roots of the relay. *)
Theorem undeclared_surface_ignores_scope surface thread_id s :
  sf_watched_threads s !! surface = None → sf_active_thread_id s = Some thread_id →
  surface_watches_thread surface thread_id s = true.
Proof.
  intros Hw Ha. unfold surface_watches_thread. rewrite Hw, Ha. by apply bool_decide_eq_true.
Qed.
End Watch.

(** ** Witnesses *)
Definition sample_surfaces : SurfaceState :=
  MkSurfaces (Some "thread-1") (Some "phone") (Some 100) {[ "peer-1" ]} {[ "peer-1" := "phone" ]}
    ∅ ∅ ∅ true true [] [] {[ "thread-1" := "/etc" ]}
    {[ "phone" := MkPairedDevice "phone" "Phone" "PS" "key" 1 None None None ["/srv/app"] ]}
    ["/srv"].

Lemma controller_lease_is_exclusive_witness :
  can_device_send_message "laptop" (foldl (heartbeat "phone") sample_surfaces [110; 124]) = false ∧
  (expire_stale_controller 139 (foldl (heartbeat "phone") sample_surfaces [110; 124])).2
  = Some "phone".
Proof.
  destruct (controller_lease_is_exclusive "phone" "thread-1" 100 sample_surfaces [110; 124] 139)
    as (H1 & _ & H3).
  - by split.
  - unfold beats_ok, CONTROLLER_LEASE_SECS, u64_max. lia.
  - unfold last_beat, CONTROLLER_LEASE_SECS, u64_max. cbn. lia.
  - split; [exact (H1 "laptop")|]. apply H3. unfold last_beat, CONTROLLER_LEASE_SECS. cbn. lia.
Defined.

Lemma broker_queue_keeps_results_witness :
  let d := TranscriptDelta (MkDelta "t" 0 1 1 5 "i" None "hi" AgentText None) in
  deltas (sf_pending_broker_messages (queue_broker_message d sample_surfaces)) = [d].
Proof.
  cbv zeta. apply (broker_queue_keeps_results sample_surfaces
    [TranscriptDelta (MkDelta "t" 0 1 1 5 "i" None "hi" AgentText None)]). reflexivity.
Defined.

Lemma stale_surface_is_powerless_witness :
  @set_watched_threads_for_generation sample_fs "tab" "phone" ["thread-1"] (Some 4)
    (open_surface_generation "tab" (Some 7) sample_surfaces).1 =
  ((open_surface_generation "tab" (Some 7) sample_surfaces).1, false).
Proof.
  pose proof (@stale_surface_is_powerless sample_fs "tab" (Some 7) sample_surfaces
    ltac:(split; vm_compute; congruence)) as Hs.
  destruct (open_surface_generation "tab" (Some 7) sample_surfaces) as [s' g] eqn:E.
  apply (f_equal snd) in E. vm_compute in E. subst g. destruct Hs as (_ & _ & Hold & _).
  apply (Hold 4 "phone" ["thread-1"]). reflexivity.
Defined.

Lemma undeclared_surface_ignores_scope_witness :
  @surface_watches_thread sample_fs "tab" "thread-1" sample_surfaces = true ∧
  @thread_is_readable_by_device sample_fs "thread-1" "phone" sample_surfaces = false.
Proof.
  split; [|vm_compute; reflexivity].
  by apply (@undeclared_surface_ignores_scope sample_fs).
Defined.
