(* ===== verification/WorkflowRun.v ===== *)
(** * Workflow runs (crates/relay-server/src/state/workflow.rs, crates/relay-api/src/lib.rs)

    The record of one workflow execution, its status writes, the identity of review
    findings, and the relay's table of runs.  The clock is an argument. *)

From Stdlib Require Import ZArith Lia Ascii String.
From stdpp Require Import sorting.
From S2P Require Import Prelude RustStr Json TeamTypes Paths Device Retention.

Open Scope string_scope.
Open Scope Z_scope.

(** ** Status *)
Inductive RunStatus : Type :=
| RsQueued | RsRunning | RsDone | RsEscalated | RsFailed | RsBlocked | RsResolving
| RsInterrupted | RsCancelled.
#[export] Instance RunStatus_eq_dec : EqDecision RunStatus.
Proof. solve_decision. Defined.

Definition run_status_as_str (s : RunStatus) : string :=
  match s with
  | RsQueued => "queued" | RsRunning => "running" | RsDone => "done" | RsEscalated => "escalated"
  | RsFailed => "failed" | RsBlocked => "blocked" | RsResolving => "resolving"
  | RsInterrupted => "interrupted" | RsCancelled => "cancelled"
  end.

Definition run_is_terminal (s : RunStatus) : bool :=
  match s with
  | RsDone | RsEscalated | RsFailed | RsInterrupted | RsCancelled => true
  | RsQueued | RsRunning | RsBlocked | RsResolving => false
  end.

(** The derived codec: snake-case names. *)
#[export] Program Instance RunStatus_enum : UnitEnum RunStatus := {|
  enum_name := run_status_as_str;
  enum_all := [RsQueued; RsRunning; RsDone; RsEscalated; RsFailed; RsBlocked; RsResolving;
               RsInterrupted; RsCancelled] |}.
Next Obligation. unit_enum. Qed.
Next Obligation. unit_enum. Qed.

(** [#[default]]. *)
Definition run_status_default : RunStatus := RsFailed.

(** ** Findings *)

(** [str::split_whitespace]; [cur] is the word being read, reversed. *)
Fixpoint split_ws (s cur : string) : list string :=
  let flush ws := if is_empty cur then ws else string_rev cur :: ws in
  match s with
  | EmptyString => flush []
  | String a s1 =>
      if is_ws1 a then flush (split_ws s1 "") else
      match s1 with
      | EmptyString => split_ws s1 (String a cur)
      | String b s2 =>
          if is_ws2 a b then flush (split_ws s2 "") else
          match s2 with
          | EmptyString => split_ws s1 (String a cur)
          | String c s3 =>
              if is_ws3 a b c then flush (split_ws s3 "") else split_ws s1 (String a cur)
          end
      end
  end.
Definition split_whitespace (s : string) : list string := split_ws s "".

Definition normalize_finding (finding : string) : string :=
  to_ascii_lowercase (String.concat " " (split_whitespace finding)).

(** [Vec::dedup]: of consecutive equal elements the first stays. *)
Fixpoint dedup (l : list string) : list string :=
  match l with
  | [] => []
  | x :: l' =>
      match dedup l' with
      | y :: r => if decide (x = y) then y :: r else x :: y :: r
      | [] => [x]
      end
  end.

(** The order of [String]: by bytes. *)
Definition string_le (a b : string) : Prop := String.leb a b = true.
#[export] Instance string_le_dec : RelDecision string_le := λ a b, decide (String.leb a b = true).

Record FindingSet : Type := MkFindings { fs_keys : list string }.

Definition from_findings (findings : list string) : FindingSet :=
  MkFindings (dedup (merge_sort string_le (map normalize_finding findings))).

Definition has_new_relative_to (self prior : FindingSet) : bool :=
  existsb (λ k, negb (bool_decide (k ∈ fs_keys prior))) (fs_keys self).

(** ** The run *)
Record WorkflowRun : Type := MkWorkflowRun {
  wr_id : string;
  wr_workflow_id : string;
  wr_parent_thread_id : string;
  wr_anchor_item_id : string;
  wr_status : RunStatus;
  wr_current_step : string;
  wr_round : Z;
  wr_step_threads : gmap string string;
  wr_last_verdict : option WorkflowVerdict;
  wr_prior_findings : option FindingSet;
  wr_cwd : string;
  wr_requested_by_device_id : string;
  wr_requested_at : Z;
  wr_updated_at : Z;
  wr_error : option string
}.
#[export] Instance WorkflowRun_expand : Expand WorkflowRun := λ r,
  MkWorkflowRun (wr_id r) (wr_workflow_id r) (wr_parent_thread_id r) (wr_anchor_item_id r)
    (wr_status r) (wr_current_step r) (wr_round r) (wr_step_threads r) (wr_last_verdict r)
    (wr_prior_findings r) (wr_cwd r) (wr_requested_by_device_id r) (wr_requested_at r)
    (wr_updated_at r) (wr_error r).

Definition WorkflowRun_new (now : Z) (id workflow_id parent_thread_id anchor_item_id cwd
    requested_by_device_id : string) : WorkflowRun :=
  MkWorkflowRun id workflow_id parent_thread_id anchor_item_id RsQueued "" 0 ∅ None None cwd
    requested_by_device_id now now None.

(** [self.status.is_terminal() || matches!(self.status, Blocked | Resolving)]. *)
Definition wf_locked (s : RunStatus) : bool :=
  run_is_terminal s || bool_decide (s = RsBlocked) || bool_decide (s = RsResolving).

Definition wf_set_status (now : Z) (status : RunStatus) (r : WorkflowRun) : WorkflowRun :=
  if wf_locked (wr_status r) then r
  else r <| wr_status := status |> <| wr_updated_at := now |>.

Definition wf_set_current_step (now : Z) (step_id : string) (r : WorkflowRun) : WorkflowRun :=
  r <| wr_current_step := step_id |> <| wr_updated_at := now |>.

Definition wf_fail (now : Z) (error : string) (r : WorkflowRun) : WorkflowRun :=
  if wf_locked (wr_status r) then r
  else wf_set_status now RsFailed (r <| wr_error := Some error |>).

Definition wf_block (now : Z) (error : string) (r : WorkflowRun) : WorkflowRun :=
  if run_is_terminal (wr_status r) then r
  else r <| wr_error := Some error |> <| wr_status := RsBlocked |> <| wr_updated_at := now |>.

Definition wf_begin_resolving_blocked (now : Z) (r : WorkflowRun) : WorkflowRun * bool :=
  if negb (bool_decide (wr_status r = RsBlocked)) then (r, false)
  else (r <| wr_status := RsResolving |> <| wr_updated_at := now |>, true).

Definition wf_resolve_blocked_as_failed (now : Z) (error : string) (r : WorkflowRun) : WorkflowRun :=
  if negb (bool_decide (wr_status r = RsResolving)) then r
  else r <| wr_error := Some error |> <| wr_status := RsFailed |> <| wr_updated_at := now |>.

Definition wf_restore_resolving_as_blocked (now : Z) (error : string) (r : WorkflowRun) :
    WorkflowRun * bool :=
  if negb (bool_decide (wr_status r = RsResolving)) then (r, false)
  else (wf_block now error r, true).

Definition LOST_ORCHESTRATOR : string :=
  "the workflow run's orchestrator was lost; re-run to continue".

Definition wf_mark_interrupted_if_stranded (now : Z) (r : WorkflowRun) : WorkflowRun * bool :=
  if run_is_terminal (wr_status r) then (r, false)
  else (r <| wr_error ::= λ e, get_or_insert e LOST_ORCHESTRATOR |>
          <| wr_status := RsInterrupted |> <| wr_updated_at := now |>, true).

(** ** The relay's table *)
#[export] Instance WorkflowRun_retained : Retained WorkflowRun := {|
  job_id := wr_id;
  job_terminal := λ r, run_is_terminal (wr_status r);
  job_updated_at := wr_updated_at |}.

Definition MAX_WORKFLOW_RUNS : nat := 64.

Definition prune_workflow_runs : gmap string WorkflowRun → gmap string WorkflowRun :=
  prune_jobs MAX_WORKFLOW_RUNS.
Definition insert_workflow_run : WorkflowRun → gmap string WorkflowRun → gmap string WorkflowRun :=
  insert_job MAX_WORKFLOW_RUNS.

Definition update_workflow_run (id : string) (update : WorkflowRun → WorkflowRun)
    (m : gmap string WorkflowRun) : gmap string WorkflowRun * bool :=
  match m !! id with
  | Some r => (<[id := update r]> m, true)
  | None => (m, false)
  end.

Definition has_active_workflow (m : gmap string WorkflowRun) : bool :=
  existsb (λ e, negb (run_is_terminal (wr_status e.2))) (map_to_list m).

Inductive ResolveError : Type :=
| AlreadyResolving | NotBlocked | NoSuchBlocked | NothingBlocked | AmbiguousBlocked
| BlockedVanished | ResolveScope (e : ScopeError).

Definition blocked_workflow_run_ids (run_id : option string) (m : gmap string WorkflowRun) :
    result string ResolveError :=
  match run_id with
  | Some id =>
      match m !! id with
      | Some r =>
          if bool_decide (wr_status r = RsBlocked) then Ok (wr_id r)
          else if bool_decide (wr_status r = RsResolving) then Err AlreadyResolving
          else Err NotBlocked
      | None => Err NoSuchBlocked
      end
  | None =>
      match filter (λ e, wr_status e.2 = RsBlocked) (map_to_list m) with
      | [] => Err NothingBlocked
      | [e] => Ok (wr_id e.2)
      | _ => Err AmbiguousBlocked
      end
  end.

(** The owned threads of a run: the parent, then each step's thread once. *)
Definition wf_owned_threads (r : WorkflowRun) : list string :=
  foldl (λ owned t, if bool_decide (t ∈ owned) then owned else (owned ++ [t])%list)
    [wr_parent_thread_id r] (map_to_list (wr_step_threads r)).*2.

(** [device_scope] is the scope of the acting device. *)
Definition begin_resolving_workflow_run `{FileSystem} (now : Z) (run_id : option string)
    (device_scope allowed_roots : list string) (m : gmap string WorkflowRun) :
    gmap string WorkflowRun * result (string * string * string * list string) ResolveError :=
  match blocked_workflow_run_ids run_id m with
  | Err e => (m, Err e)
  | Ok blocked =>
      match m !! blocked with
      | None => (m, Err BlockedVanished)
      | Some run =>
          match ensure_path_within_device_scope (wr_cwd run) device_scope allowed_roots with
          | Err e => (m, Err (ResolveScope e))
          | Ok _ =>
              match wf_begin_resolving_blocked now run with
              | (run, false) => (<[blocked := run]> m, Err AlreadyResolving)
              | (run, true) =>
                  (<[blocked := run]> m,
                   Ok (blocked, wr_parent_thread_id run, wr_cwd run, wf_owned_threads run))
              end
          end
      end
  end.

Definition restored_workflow_jobs (now : Z) (persisted : gmap string WorkflowRun) :
    gmap string WorkflowRun :=
  (λ r, (wf_mark_interrupted_if_stranded now r).1) <$> persisted.
