(* ===== verification/ReviewJob.v ===== *)
(** * Review jobs (crates/relay-server/src/state/review.rs)

    The record of a cross-agent review and its status writes, the relay's table of
    jobs and the locks they hold, and the reading of a reviewer's verdict.  Prompts and
    messages for the agents are not modelled. *)

From Stdlib Require Import ZArith Lia Ascii String.
From S2P Require Import Prelude RustStr Retention.

Open Scope string_scope.
Open Scope Z_scope.

Inductive ReviewMode : Type := CleanThread | ExistingThread (thread_id : string).
Inductive ReviewRecapSource : Type := LastMessage | Recap.

Definition recap_source_from_request (value : option string) : ReviewRecapSource :=
  match value with
  | Some v => if decide (v = "recap") then Recap else LastMessage
  | None => LastMessage
  end.

Inductive ReviewJobStatus : Type :=
| RjPendingParentRecap | RjWaitingForParentRecap | RjStartingReviewer | RjWaitingForReviewer
| RjWaitingToPostBack | RjPostingBack | RjInterrupting | RjAddressingFindings | RjBlocked
| RjComplete | RjFailed | RjEscalated | RjCancelled.
#[export] Instance ReviewJobStatus_eq_dec : EqDecision ReviewJobStatus.
Proof. solve_decision. Defined.

Definition review_status_as_str (s : ReviewJobStatus) : string :=
  match s with
  | RjPendingParentRecap => "pending_parent_recap"
  | RjWaitingForParentRecap => "waiting_for_parent_recap"
  | RjStartingReviewer => "starting_reviewer"
  | RjWaitingForReviewer => "waiting_for_reviewer"
  | RjWaitingToPostBack => "waiting_to_post_back"
  | RjPostingBack => "posting_back"
  | RjInterrupting => "interrupting"
  | RjAddressingFindings => "addressing_findings"
  | RjBlocked => "blocked"
  | RjComplete => "complete"
  | RjFailed => "failed"
  | RjEscalated => "escalated"
  | RjCancelled => "cancelled"
  end.

Definition review_is_terminal (s : ReviewJobStatus) : bool :=
  match s with RjComplete | RjFailed | RjEscalated | RjCancelled => true | _ => false end.

Record ReviewJob : Type := MkReviewJob {
  rj_id : string;
  rj_parent_thread_id : string;
  rj_parent_provider : string;
  rj_parent_recap_turn_id : option string;
  rj_reviewer_thread_id : option string;
  rj_reviewer_provider : string;
  rj_reviewer_model : option string;
  rj_reviewer_effort : option string;
  rj_reviewer_mode : ReviewMode;
  rj_recap_source : ReviewRecapSource;
  rj_cwd : string;
  rj_status : ReviewJobStatus;
  rj_max_rounds : Z;
  rj_round : Z;
  rj_verdict : option string;
  rj_requested_at : Z;
  rj_updated_at : Z;
  rj_recap_text : option string;
  rj_workspace_diff_generated_at : option Z;
  rj_workspace_diff_truncated : bool;
  rj_review_text : option string;
  rj_posted_back_turn_id : option string;
  rj_error : option string;
  rj_requested_by_device_id : string;
  rj_instructions : option string
}.
#[export] Instance ReviewJob_expand : Expand ReviewJob := λ j,
  MkReviewJob (rj_id j) (rj_parent_thread_id j) (rj_parent_provider j) (rj_parent_recap_turn_id j)
    (rj_reviewer_thread_id j) (rj_reviewer_provider j) (rj_reviewer_model j) (rj_reviewer_effort j)
    (rj_reviewer_mode j) (rj_recap_source j) (rj_cwd j) (rj_status j) (rj_max_rounds j) (rj_round j)
    (rj_verdict j) (rj_requested_at j) (rj_updated_at j) (rj_recap_text j)
    (rj_workspace_diff_generated_at j) (rj_workspace_diff_truncated j) (rj_review_text j)
    (rj_posted_back_turn_id j) (rj_error j) (rj_requested_by_device_id j) (rj_instructions j).

Definition ReviewJob_new (now : Z) (id parent_thread_id parent_provider reviewer_provider : string)
    (reviewer_model : option string) (reviewer_mode : ReviewMode)
    (cwd requested_by_device_id : string) (instructions : option string) (max_rounds : Z) :
    ReviewJob :=
  MkReviewJob id parent_thread_id parent_provider None None reviewer_provider reviewer_model None
    reviewer_mode LastMessage cwd RjPendingParentRecap (Z.max max_rounds 1) 0 None now now None None
    false None None None requested_by_device_id instructions.

Definition review_set_status (now : Z) (status : ReviewJobStatus) (j : ReviewJob) : ReviewJob :=
  if review_is_terminal (rj_status j) then j
  else j <| rj_status := status |> <| rj_updated_at := now |>.

Definition review_fail (now : Z) (error : string) (j : ReviewJob) : ReviewJob :=
  if review_is_terminal (rj_status j) then j
  else review_set_status now RjFailed (j <| rj_error := Some error |>).

(** ** The relay's table (relay.rs) *)
#[export] Instance ReviewJob_retained : Retained ReviewJob := {|
  job_id := rj_id;
  job_terminal := λ j, review_is_terminal (rj_status j);
  job_updated_at := rj_updated_at |}.

Definition MAX_REVIEW_JOBS : nat := 64.
Definition prune_review_jobs : gmap string ReviewJob → gmap string ReviewJob :=
  prune_jobs MAX_REVIEW_JOBS.
Definition insert_review_job : ReviewJob → gmap string ReviewJob → gmap string ReviewJob :=
  insert_job MAX_REVIEW_JOBS.

Definition update_review_job (id : string) (update : ReviewJob → ReviewJob)
    (m : gmap string ReviewJob) : gmap string ReviewJob * bool :=
  match m !! id with
  | Some j => (<[id := update j]> m, true)
  | None => (m, false)
  end.

Definition drop_review_jobs_for_reviewer (reviewer_id : string) (m : gmap string ReviewJob) :
    gmap string ReviewJob :=
  filter (λ '(_, j), rj_reviewer_thread_id j ≠ Some reviewer_id) m.

Definition drop_terminal_review_jobs_for_reviewer (reviewer_id : string)
    (m : gmap string ReviewJob) : gmap string ReviewJob :=
  filter (λ '(_, j), ¬ (rj_reviewer_thread_id j = Some reviewer_id ∧
                        review_is_terminal (rj_status j) = true)) m.

Definition job_locks (thread_id : string) (j : ReviewJob) : bool :=
  negb (review_is_terminal (rj_status j)) &&
  (bool_decide (rj_parent_thread_id j = thread_id)
   || bool_decide (rj_reviewer_thread_id j = Some thread_id)).

Definition is_thread_review_locked (thread_id : string) (m : gmap string ReviewJob) : bool :=
  existsb (λ e, job_locks thread_id e.2) (map_to_list m).

(** ** Verdicts *)
Inductive Verdict : Type := VApprove | VNeedsChanges | VUnsure | VUnknown.
#[export] Instance Verdict_eq_dec : EqDecision Verdict.
Proof. solve_decision. Defined.

Definition verdict_as_str (v : Verdict) : string :=
  match v with
  | VApprove => "approve" | VNeedsChanges => "needs_changes" | VUnsure => "unsure"
  | VUnknown => "unknown"
  end.

Definition verdict_is_approved (v : Verdict) : bool := bool_decide (v = VApprove).

(** [str::lines]: split at newlines; no line for the empty rest after the last one.
    The carriage return that [lines] strips is white space, which the caller trims. *)
Definition newline : ascii := "010"%char.
Fixpoint split_newlines (s : string) : list string :=
  match s with
  | EmptyString => [""]
  | String a s' =>
      if Ascii.eqb a newline then "" :: split_newlines s'
      else match split_newlines s' with
           | [] => [String a ""]
           | w :: ws => String a w :: ws
           end
  end.
Definition lines (s : string) : list string :=
  let ws := split_newlines s in
  match last ws with Some "" => removelast ws | _ => ws end.

(** [str::strip_prefix]. *)
Fixpoint strip_prefix (p s : string) : option string :=
  match p, s with
  | EmptyString, _ => Some s
  | String a p', String b s' => if Ascii.eqb a b then strip_prefix p' s' else None
  | String _ _, EmptyString => None
  end.

(** What follows [VERDICT:] on a line. *)
Definition verdict_rest (line : string) : option string :=
  trim <$> strip_prefix "verdict:" (to_ascii_lowercase (trim line)).

(** [c.is_ascii_alphabetic() || c == '_']. *)
Definition keyword_char (a : ascii) : bool :=
  let z := byte_val a in in_range 65 z 90 || in_range 97 z 122 || (z =? 95).

(** The leading keyword and the rest. *)
Fixpoint split_keyword (s : string) : string * string :=
  match s with
  | EmptyString => ("", "")
  | String a s' =>
      if keyword_char a then let '(token, rest) := split_keyword s' in (String a token, rest)
      else ("", s)
  end.

(** [lines.rev().find_map(..)]. *)
Definition last_verdict (ls : list string) : option string := head (omap verdict_rest (rev ls)).

Definition classify (rest : string) : Verdict :=
  let '(token, after) := split_keyword rest in
  let hedged := starts_with "?" (trim_start after) in
  if decide (token = "approve" ∨ token = "approved") then if hedged then VUnknown else VApprove
  else if decide (token ∈ ["needs"; "needs_changes"; "needs_change"]) then VNeedsChanges
  else if decide (token ∈ ["unsure"; "uncertain"; "unclear"]) then VUnsure
  else VUnknown.

Definition parse_verdict (review : string) : Verdict :=
  match last_verdict (lines review) with
  | Some rest => classify rest
  | None => VUnknown
  end.

Definition nl_string : string := String newline "".
Definition parse_example : parse_verdict ("Looks fine" +:+ nl_string +:+ "**VERDICT**" +:+ nl_string
  +:+ "VERDICT: approved after round 1" +:+ nl_string +:+ "Verdict: NOT approved" +:+ nl_string) = VUnknown
  := eq_refl.
