(* ===== verification/TeamTable.v ===== *)
(** * The relay's team runs (crates/relay-server/src/state/relay.rs)

    The table of team runs: insertion, retention, the guarded update, restore, the
    resolution of an omitted run id, and the lock a live run puts on its threads and its
    worktree.  [thread_cwd] is the relay's record of a thread's directory. *)

From Stdlib Require Import ZArith Lia.
From S2P Require Import Prelude RustStr Json TeamTypes Tokens Backend TeamRun.
From S2P Require Import TeamThreads Paths Retention.

Open Scope string_scope.
Open Scope Z_scope.

Notation TeamRuns := (gmap string TeamRun).

#[export] Instance TeamRun_retained : Retained TeamRun := {|
  job_id := tr_id;
  job_terminal := λ r, is_terminal (tr_status r);
  job_updated_at := tr_updated_at |}.

(** [MAX_WORKFLOW_RUNS] bounds team runs too. *)
Definition MAX_TEAM_RUNS : nat := 64.
Definition prune_team_runs : TeamRuns → TeamRuns := prune_jobs MAX_TEAM_RUNS.
Definition insert_team_run : TeamRun → TeamRuns → TeamRuns := insert_job MAX_TEAM_RUNS.

(** [update] is the caller's closure, which may do anything to the run. *)
Definition update_team_run (id : string) (update : TeamRun → TeamRun) (m : TeamRuns) :
    TeamRuns * bool :=
  match m !! id with
  | None => (m, false)
  | Some run =>
      let backend_before := tr_orchestration_backend run in
      let started_before := orchestration_execution_started run in
      let run := update run in
      if started_before && negb (bool_decide (tr_orchestration_backend run = backend_before))
      then (<[id := run <| tr_orchestration_backend := backend_before |>]> m, false)
      else (<[id := run]> m, true)
  end.

Definition restored_team_runs (now : Z) (persisted : TeamRuns) : TeamRuns :=
  (λ r, (reconcile_after_restore now r).1) <$> persisted.

(** ** Resolving a run id *)
Inductive RunIdError : Type :=
| NoSuchTask | NoneQualifies | Ambiguous | NotExecutable (reason : string)
| TaskResolving | TaskNotBlocked | TaskNotFinished (status : string).

(** The one run of the table that qualifies. *)
Definition the_only (p : TeamRun → bool) (m : TeamRuns) : result string RunIdError :=
  match filter (λ e, p e.2 = true) (map_to_list m) with
  | [] => Err NoneQualifies
  | [e] => Ok (tr_id e.2)
  | _ => Err Ambiguous
  end.

Definition active_team_run_id (run_id : option string) (m : TeamRuns) : result string RunIdError :=
  match run_id with
  | Some id => match m !! id with Some run => Ok (tr_id run) | None => Err NoSuchTask end
  | None => the_only is_live_in_current_build m
  end.

Definition team_run_id_for_mark (run_id : option string) (m : TeamRuns) : result string RunIdError :=
  match run_id with
  | Some id => match m !! id with Some run => Ok (tr_id run) | None => Err NoSuchTask end
  | None =>
      match filter (λ e, is_live_in_current_build e.2 = true) (map_to_list m) with
      | [e] => Ok (tr_id e.2)
      | [] =>
          match map_to_list m with
          | [] => Err NoneQualifies
          | [(key, _)] => Ok key
          | _ => Err Ambiguous
          end
      | _ => Err Ambiguous
      end
  end.

Definition PINNED : string :=
  "this task is pinned to an orchestration backend this relay build cannot execute".

Definition blocked_team_run_id (run_id : option string) (m : TeamRuns) : result string RunIdError :=
  match run_id with
  | Some id =>
      match m !! id with
      | None => Err NoSuchTask
      | Some run =>
          if negb (is_executable_by_current_build run)
          then Err (NotExecutable (default PINNED (non_executing_backend_reason run)))
          else if bool_decide (tr_status run = Blocked) then Ok (tr_id run)
          else if bool_decide (tr_status run = Resolving) then Err TaskResolving
          else Err TaskNotBlocked
      end
  | None => the_only (λ run, is_live_in_current_build run && bool_decide (tr_status run = Blocked)) m
  end.

Definition reopenable_team_run_id (run_id : option string) (m : TeamRuns) : result string RunIdError :=
  match run_id with
  | Some id =>
      match m !! id with
      | None => Err NoSuchTask
      | Some run =>
          if is_reopenable (tr_status run) then Ok (tr_id run)
          else Err (TaskNotFinished (status_as_str (tr_status run)))
      end
  | None => the_only (λ run, is_executable_by_current_build run && is_reopenable (tr_status run)) m
  end.

(** ** Locks *)
Inductive TeamThreadGate : Type := GateFree | GateTlWhilePaused | GateLocked.

Definition owns (thread_id : string) (run : TeamRun) : bool :=
  bool_decide (thread_id ∈ owned_thread_ids run).

Definition is_thread_team_locked (thread_id : string) (m : TeamRuns) : bool :=
  existsb (λ e, is_live_in_current_build e.2 && owns thread_id e.2) (map_to_list m).

Definition team_run_cwd_for_thread (thread_id : string) (m : TeamRuns) : option string :=
  tr_cwd <$> head (filter (λ r, negb (is_terminal (tr_status r)) && owns thread_id r = true)
                     (map_to_list m).*2).

Section Locks.
Context `{FileSystem} (thread_cwd : string → option string).

Definition is_cwd_team_locked (cwd : string) (m : TeamRuns) : bool :=
  let candidate := normalize_cwd cwd in
  existsb (λ e, is_live_in_current_build e.2 && negb (is_empty (tr_cwd e.2))
                && path_within_allowed_roots candidate [tr_cwd e.2]) (map_to_list m).

Definition cwd_locked (thread_id : string) (m : TeamRuns) : bool :=
  match thread_cwd thread_id with Some cwd => is_cwd_team_locked cwd m | None => false end.

Definition is_thread_or_cwd_team_locked (thread_id : string) (m : TeamRuns) : bool :=
  is_thread_team_locked thread_id m || cwd_locked thread_id m.

(** The loop of [team_thread_gate]: the first live owner decides. *)
Fixpoint gate_loop (thread_id : string) (runs : list TeamRun) : option TeamThreadGate :=
  match runs with
  | [] => None
  | run :: runs =>
      if negb (is_live_in_current_build run) then gate_loop thread_id runs
      else if negb (owns thread_id run) then gate_loop thread_id runs
      else if bool_decide (tr_tl_thread_id run = thread_id) && bool_decide (tr_status run = Paused)
      then Some GateTlWhilePaused
      else Some GateLocked
  end.

Definition team_thread_gate (thread_id : string) (m : TeamRuns) : TeamThreadGate :=
  match gate_loop thread_id (map_to_list m).*2 with
  | Some gate => gate
  | None => if cwd_locked thread_id m then GateLocked else GateFree
  end.
End Locks.
