(* ===== verification/JobTheorems.v ===== *)
(** * Jobs: workflow runs, reviews and the tables of the relay *)

From Stdlib Require Import ZArith Lia Ascii String.
From stdpp Require Import sorting relations.
From S2P Require Import Prelude RustStr Json TeamTypes Tokens Backend TeamRun.
From S2P Require Import TeamThreads Paths Device Retention WorkflowRun ReviewJob TeamTable.

Open Scope string_scope.
Open Scope Z_scope.

(** ** The workflow status machine *)
Inductive wf_op : Type :=
| WSet (status : RunStatus) | WStep (step : string) | WFail (error : string)
| WBlock (error : string) | WBegin | WResolve (error : string) | WRestoreBlocked (error : string)
| WInterrupt.

Definition wf_exec (o : wf_op * Z) (r : WorkflowRun) : WorkflowRun :=
  let now := o.2 in
  match o.1 with
  | WSet s => wf_set_status now s r
  | WStep step => wf_set_current_step now step r
  | WFail e => wf_fail now e r
  | WBlock e => wf_block now e r
  | WBegin => (wf_begin_resolving_blocked now r).1
  | WResolve e => wf_resolve_blocked_as_failed now e r
  | WRestoreBlocked e => (wf_restore_resolving_as_blocked now e r).1
  | WInterrupt => (wf_mark_interrupted_if_stranded now r).1
  end.

Definition wf_run (ops : list (wf_op * Z)) (r : WorkflowRun) : WorkflowRun :=
  foldl (λ r o, wf_exec o r) r ops.

(** The abstract machine: an orchestrator moves an unlocked run anywhere; a live run may
    be blocked or lost; recovery goes from Blocked through Resolving to Failed. *)
Inductive wf_edge : RunStatus → RunStatus → Prop :=
| edge_orchestrator s s' : wf_locked s = false → wf_edge s s'
| edge_block s : run_is_terminal s = false → wf_edge s RsBlocked
| edge_recover : wf_edge RsBlocked RsResolving
| edge_resolved : wf_edge RsResolving RsFailed
| edge_lost s : run_is_terminal s = false → wf_edge s RsInterrupted.

Lemma wf_exec_edge o r :
  wr_status (wf_exec o r) = wr_status r ∨ wf_edge (wr_status r) (wr_status (wf_exec o r)).
Proof.
  destruct o as [op now], r as [? ? ? ? st]. destruct op; cbn.
  all: unfold wf_set_status, wf_fail, wf_block, wf_begin_resolving_blocked,
    wf_resolve_blocked_as_failed, wf_restore_resolving_as_blocked, wf_block,
    wf_mark_interrupted_if_stranded, wf_set_status; cbn.
  all: repeat (case_match || case_bool_decide); cbn in *; simplify_eq; auto using wf_edge.
  all: try (left; done); right; by constructor.
Qed.

Lemma wf_run_edges ops : ∀ r, rtc wf_edge (wr_status r) (wr_status (wf_run ops r)).
Proof.
  induction ops as [|o ops IH]; intros r; [done|]. cbn [wf_run foldl].
  destruct (wf_exec_edge o r) as [<-|He]; [apply IH|]. eapply rtc_l; [exact He | apply IH].
Qed.

Lemma wf_edge_terminal s s' : wf_edge s s' → run_is_terminal s = false.
Proof. by destruct 1 as [[] | | | |]. Qed.

Lemma wf_path_terminal s s' : rtc wf_edge s s' → run_is_terminal s = true → s' = s.
Proof. destruct 1 as [|? ? ? He]; [done|]. apply wf_edge_terminal in He. congruence. Qed.

(** The recovery part of the machine: Blocked, Resolving and the terminal statuses. *)
Lemma wf_path_blocked s s' :
  rtc wf_edge s s' → s ∈ [RsBlocked; RsResolving; RsFailed; RsInterrupted] →
  s' ∈ [RsBlocked; RsResolving; RsFailed; RsInterrupted].
Proof.
  induction 1 as [|s1 s2 s3 He _ IH]; [done|]. intros Hs. apply IH.
  destruct He as [s1 s2 Hl | | | |]; try (by rewrite !elem_of_cons; auto 10).
  exfalso. rewrite !elem_of_cons, elem_of_nil in Hs.
  by destruct Hs as [->|[->|[->|[->|[]]]]].
Qed.

(** A workflow run follows its status machine, whatever its operations and their
    order: a finished run never changes status again; a blocked run is never handed back
    to the orchestrator, it can only be resolved to Failed or lost; and reconciling the
    table after a restart leaves no run unfinished and no finished run changed. *)
Theorem workflow_run_machine ops r now m :
  rtc wf_edge (wr_status r) (wr_status (wf_run ops r)) ∧
  (run_is_terminal (wr_status r) = true → wr_status (wf_run ops r) = wr_status r) ∧
  (wr_status r = RsBlocked →
     wr_status (wf_run ops r) ∈ [RsBlocked; RsResolving; RsFailed; RsInterrupted]) ∧
  (∀ id run, restored_workflow_jobs now m !! id = Some run →
     run_is_terminal (wr_status run) = true ∧
     ∃ old, m !! id = Some old ∧
       if run_is_terminal (wr_status old) then run = old else wr_status run = RsInterrupted).
Proof.
  pose proof (wf_run_edges ops r) as Hp. split_and!; [done|..].
  - intros Ht. by apply wf_path_terminal.
  - intros Hb. apply (wf_path_blocked _ _ Hp). rewrite Hb. by left.
  - intros id run. unfold restored_workflow_jobs. rewrite lookup_fmap.
    intros (old & Ho & ->)%fmap_Some. unfold wf_mark_interrupted_if_stranded.
    destruct (run_is_terminal (wr_status old)) eqn:E; cbn.
    + split; [done|]. exists old. by rewrite E.
    + split; [done|]. exists old. by rewrite E.
Qed.

(** ** Recovery *)
Definition table_keyed (m : gmap string WorkflowRun) : Prop := map_Forall (λ id r, wr_id r = id) m.

Lemma blocked_ids_Ok run_id m id :
  table_keyed m → blocked_workflow_run_ids run_id m = Ok id →
  ∃ r, m !! id = Some r ∧ wr_status r = RsBlocked.
Proof.
  intros Hk. unfold blocked_workflow_run_ids. destruct run_id as [i|].
  - destruct (m !! i) as [r|] eqn:Er; [|done]. case_bool_decide; [|by case_bool_decide].
    intros [= <-]. rewrite (Hk _ _ Er). eauto.
  - destruct (filter _ _) as [|[i r] [|]] eqn:Ef; try done. intros [= <-]. cbn.
    assert ((i, r) ∈ filter (λ e, wr_status e.2 = RsBlocked) (map_to_list m)) as Hin
      by (rewrite Ef; by left).
    apply list_elem_of_filter in Hin as [Hs Hin%elem_of_map_to_list].
    rewrite (Hk _ _ Hin). eauto.
Qed.

Lemma wf_owned_elem r t :
  t ∈ wf_owned_threads r ↔ t = wr_parent_thread_id r ∨ ∃ step, wr_step_threads r !! step = Some t.
Proof.
  unfold wf_owned_threads. set (vs := (map_to_list (wr_step_threads r)).*2).
  assert (∀ l, t ∈ foldl (λ owned t, if bool_decide (t ∈ owned) then owned else (owned ++ [t])%list)
    l vs ↔ t ∈ l ∨ t ∈ vs) as ->.
  { clearbody vs. induction vs as [|v vs IH]; intros l; cbn [foldl].
    - rewrite elem_of_nil. tauto.
    - rewrite IH, elem_of_cons. case_bool_decide; [naive_solver|].
      rewrite elem_of_app, list_elem_of_singleton. tauto. }
  rewrite list_elem_of_singleton. apply or_iff_compat_l. unfold vs.
  rewrite list_elem_of_fmap. split.
  - intros ([step t'] & -> & Hin%elem_of_map_to_list). eauto.
  - intros [step Hs]. exists (step, t). split; [done|]. by apply elem_of_map_to_list.
Qed.

(** Recovery of a blocked workflow is exclusive and scoped: it starts only for a run
    that is Blocked and whose directory the acting device may reach, it takes the run to
    Resolving and touches no other run, and a second recovery of the same run is refused
    while the first is under way. *)
Theorem blocked_recovery_is_exclusive `{FileSystem} now run_id scope roots m id parent cwd threads :
  table_keyed m →
  (begin_resolving_workflow_run now run_id scope roots m).2 = Ok (id, parent, cwd, threads) →
  let m' := (begin_resolving_workflow_run now run_id scope roots m).1 in
  ∃ r r', m !! id = Some r ∧ wr_status r = RsBlocked ∧
    ensure_path_within_device_scope (wr_cwd r) scope roots = Ok () ∧
    m' = <[id := r']> m ∧ wr_status r' = RsResolving ∧ parent ∈ threads ∧
    (∀ step thread, wr_step_threads r !! step = Some thread → thread ∈ threads) ∧
    ∀ later scope' roots',
      (begin_resolving_workflow_run later (Some id) scope' roots' m').2 = Err AlreadyResolving.
Proof.
  intros Hk. unfold begin_resolving_workflow_run.
  destruct (blocked_workflow_run_ids run_id m) as [i|] eqn:Ei; [|done].
  destruct (blocked_ids_Ok _ _ _ Hk Ei) as (r & Hr & Hb). rewrite Hr.
  destruct (ensure_path_within_device_scope _ _ _) as [[]|] eqn:Es; [|done].
  unfold wf_begin_resolving_blocked. rewrite bool_decide_eq_true_2 by done. cbn [negb fst snd].
  intros [= <- <- <- <-].
  set (r' := r <| wr_status := RsResolving |> <| wr_updated_at := now |>).
  exists r, r'. split_and!; try done.
  - apply wf_owned_elem. by left.
  - intros step t Ht. apply wf_owned_elem. right. by exists step.
  - intros later scope' roots'. cbn. rewrite lookup_insert_eq. done.
Qed.

(** ** Retention *)

(** The relay's tables never lose live work: pruning review jobs, workflow runs or
    team runs drops only finished entries, the oldest first and only when the table is
    full, changes none, and makes room for the next insertion unless the live entries
    alone fill the table. *)
Theorem live_jobs_are_never_pruned :
  (∀ m id j, m !! id = Some j → review_is_terminal (rj_status j) = false →
     prune_review_jobs m !! id = Some j) ∧
  (∀ m id r, m !! id = Some r → run_is_terminal (wr_status r) = false →
     prune_workflow_runs m !! id = Some r) ∧
  (∀ m id r, m !! id = Some r → is_terminal (tr_status r) = false →
     prune_team_runs m !! id = Some r) ∧
  (∀ m id r, prune_team_runs m !! id = Some r → m !! id = Some r) ∧
  (∀ m id r id' r', m !! id = Some r → prune_team_runs m !! id = None →
     prune_team_runs m !! id' = Some r' → is_terminal (tr_status r') = true →
     tr_updated_at r ≤ tr_updated_at r') ∧
  (∀ m r, (size (filter (λ '(_, r), is_terminal (tr_status r) = false) m) < 64)%nat →
     (size (insert_team_run r m) ≤ 64)%nat).
Proof.
  pose proof (λ m, retention_contract (J := TeamRun) MAX_TEAM_RUNS m) as Ht. cbv zeta in Ht.
  split_and!.
  - intros m. exact (proj1 (proj2 (retention_contract (J := ReviewJob) MAX_REVIEW_JOBS m))).
  - intros m. exact (proj1 (proj2 (retention_contract (J := WorkflowRun) MAX_WORKFLOW_RUNS m))).
  - intros m. exact (proj1 (proj2 (Ht m))).
  - intros m. exact (proj1 (Ht m)).
  - intros m. exact (proj1 (proj2 (proj2 (Ht m)))).
  - intros m r Hl. unfold insert_team_run, insert_job. rewrite map_size_insert.
    assert (size (prune_jobs MAX_TEAM_RUNS m) < 64)%nat as Hs
      by (apply (Ht m); [unfold MAX_TEAM_RUNS; lia | exact Hl]).
    destruct (_ !! _); unfold id; lia.
Qed.

(** ** The backend pin *)

(** No update of a team run through the relay, whatever the caller's closure does,
    can change the orchestration backend of a run whose execution has started; the
    attempt is reported, the rest of the update stays, and other runs are untouched. *)
Theorem relay_update_keeps_backend id update m r :
  m !! id = Some r → orchestration_execution_started r = true →
  let out := update_team_run id update m in
  ∃ r', out.1 = <[id := r']> m ∧ tr_orchestration_backend r' = tr_orchestration_backend r ∧
    r' = (update r) <| tr_orchestration_backend := tr_orchestration_backend r |> ∧
    (out.2 = true ↔ tr_orchestration_backend (update r) = tr_orchestration_backend r).
Proof.
  intros Hr Hs. cbv zeta. unfold update_team_run. rewrite Hr, Hs. cbn [andb].
  case_bool_decide as E; cbn [negb fst snd].
  - exists (update r). split_and!; try done. rewrite <- E. by destruct (update r).
  - eexists. by split_and!.
Qed.

(** ** The gate *)
Lemma gate_loop_None thread_id runs :
  gate_loop thread_id runs = None ↔
  existsb (λ r, is_live_in_current_build r && owns thread_id r) runs = false.
Proof.
  induction runs as [|r runs IH]; [done|]. cbn.
  destruct (is_live_in_current_build r); cbn; [|done]. destruct (owns thread_id r); cbn; [|done].
  by destruct (_ && _).
Qed.

Lemma gate_loop_paused thread_id runs :
  gate_loop thread_id runs = Some GateTlWhilePaused →
  ∃ r, r ∈ runs ∧ is_live_in_current_build r = true ∧ tr_status r = Paused ∧
    tr_tl_thread_id r = thread_id.
Proof.
  induction runs as [|r runs IH]; [done|]. cbn.
  destruct (is_live_in_current_build r) eqn:El; cbn; [|intros E; destruct (IH E) as (r' & ? & ?); exists r'; by split; [right|]].
  destruct (owns thread_id r); cbn; [|intros E; destruct (IH E) as (r' & ? & ?); exists r'; by split; [right|]].
  destruct (_ && _) eqn:E; [|done]. rewrite andb_true_iff, !bool_decide_eq_true in E. intros _.
  exists r. destruct E. split; [by left | done].
Qed.

Lemma gate_loop_not_free thread_id runs : gate_loop thread_id runs ≠ Some GateFree.
Proof. induction runs as [|r runs IH]; [done|]. cbn. by repeat case_match. Qed.

(** One answer for a thread: the gate is free exactly when the two lock predicates say
    so, that is, when no live run owns the thread and the thread's directory is in no live
    run's worktree; and the only thread of a live run that may be talked to is the team
    lead of a paused run. *)
Theorem team_gate_is_consistent `{FileSystem} thread_cwd thread_id m :
  (team_thread_gate thread_cwd thread_id m = GateFree ↔
   is_thread_or_cwd_team_locked thread_cwd thread_id m = false) ∧
  (team_thread_gate thread_cwd thread_id m = GateTlWhilePaused →
   ∃ id r, m !! id = Some r ∧ is_live_in_current_build r = true ∧ tr_status r = Paused ∧
     tr_tl_thread_id r = thread_id).
Proof.
  unfold team_thread_gate, is_thread_or_cwd_team_locked, is_thread_team_locked.
  assert (existsb (λ e, is_live_in_current_build e.2 && owns thread_id e.2) (map_to_list m) =
    existsb (λ r, is_live_in_current_build r && owns thread_id r) (map_to_list m).*2) as ->
    by (induction (map_to_list m) as [|[]]; cbn; [done | by f_equal]).
  destruct (gate_loop thread_id (map_to_list m).*2) as [g|] eqn:Eg.
  - split.
    + split; [intros ->; by destruct (gate_loop_not_free _ _ Eg)|].
      intros [Hn _]%orb_false_iff. apply gate_loop_None in Hn. congruence.
    + intros ->. apply gate_loop_paused in Eg as (r & Hin & Hr).
      apply list_elem_of_fmap in Hin as ([id r'] & -> & Hin%elem_of_map_to_list). eauto.
  - pose proof Eg as Hn. apply gate_loop_None in Hn. rewrite Hn, orb_false_l.
    by destruct (cwd_locked _ _ _).
Qed.

(** ** Verdicts *)
Lemma last_omap (f : string → option string) l x :
  head (omap f (rev l)) = Some x ↔
  ∃ pre line post, l = (pre ++ line :: post)%list ∧ Forall (λ y, f y = None) post ∧ f line = Some x.
Proof.
  induction l as [|y l IH] using rev_ind.
  - cbn. split; [done|]. intros (pre & line & post & E & _). by destruct pre.
  - rewrite rev_app_distr. cbn. destruct (f y) as [z|] eqn:Ey; cbn.
    + split.
      * intros [= ->]. exists l, y, []. by split_and!.
      * intros (pre & line & post & E & Hf & Hl). destruct post as [|p post _] using rev_ind.
        -- apply app_inj_tail in E as [_ ->]. congruence.
        -- exfalso. rewrite app_comm_cons, app_assoc in E. apply app_inj_tail in E as [_ ->].
           apply Forall_app in Hf as [_ Hf]. apply Forall_cons in Hf as [Hf _]. congruence.
    + rewrite IH. split.
      * intros (pre & line & post & -> & Hf & Hl). exists pre, line, (post ++ [y])%list.
        split_and!; [by rewrite <- app_assoc | | done]. apply Forall_app. split; [done|].
        by apply Forall_singleton.
      * intros (pre & line & post & E & Hf & Hl). destruct post as [|p post _] using rev_ind.
        -- apply app_inj_tail in E as [_ ->]. congruence.
        -- rewrite app_comm_cons, app_assoc in E. apply app_inj_tail in E as [-> ->].
           apply Forall_app in Hf as [Hf _]. by exists pre, line, post.
Qed.

(** No keyword character comes next. *)
Definition keyword_ends (s : string) : Prop :=
  match s with EmptyString => True | String a _ => keyword_char a = false end.

Lemma split_keyword_spec s token rest :
  split_keyword s = (token, rest) ↔
  s = token +:+ rest ∧ string_forall keyword_char token = true ∧ keyword_ends rest.
Proof.
  revert token. induction s as [|a s IH]; intros token; cbn.
  - split; [by intros [= <- <-]|]. intros (E & _ & _). destruct token; [|done]. by cbn in E; subst.
  - destruct (keyword_char a) eqn:Ek.
    + destruct (split_keyword s) as [t r]. split.
      * intros [= <- <-]. destruct (proj1 (IH t) eq_refl) as (-> & Ht & Hr). cbn. by rewrite Ek, Ht.
      * intros (E & Ht & Hr). destruct token as [|b token]; cbn in E, Ht.
        { subst rest. cbn in Hr. congruence. }
        injection E as -> ->. apply andb_true_iff in Ht as [_ Ht].
        by injection (proj2 (IH token) (conj eq_refl (conj Ht Hr))) as -> ->.
    + split; [by intros [= <- <-]|]. intros (E & Ht & _). destruct token as [|b token]; cbn in E, Ht.
      { by subst. }
      injection E as -> _. rewrite Ek in Ht. done.
Qed.

(** A review is taken as an approval only when it says so: exactly when its last line
    that starts with VERDICT: (in any case) goes on with the word approve or approved and
    nothing hedges it with a question mark.  A missing or garbled verdict, a negation, a
    longer word, or an approval followed by another verdict is never an approval. *)
Theorem approval_is_explicit review :
  parse_verdict review = VApprove ↔
  ∃ before line after word tail,
    lines review = (before ++ line :: after)%list ∧
    Forall (λ l, verdict_rest l = None) after ∧
    verdict_rest line = Some (word +:+ tail) ∧ (word = "approve" ∨ word = "approved") ∧
    keyword_ends tail ∧ starts_with "?" (trim_start tail) = false.
Proof.
  unfold parse_verdict, last_verdict. split.
  - destruct (head _) as [rest|] eqn:Eh; [|done].
    apply last_omap in Eh as (pre & line & post & El & Hf & Hl). unfold classify.
    destruct (split_keyword rest) as [word tail] eqn:Es.
    apply split_keyword_spec in Es as (-> & _ & Hk).
    case_decide as Hw; [|by repeat case_decide].
    destruct (starts_with "?" (trim_start tail)) eqn:Eq; [done|]. intros _.
    by exists pre, line, post, word, tail.
  - intros (pre & line & post & word & tail & El & Hf & Hl & Hw & Hk & Hq).
    assert (head (omap verdict_rest (rev (lines review))) = Some (word +:+ tail)) as ->
      by (apply last_omap; by exists pre, line, post).
    unfold classify.
    assert (split_keyword (word +:+ tail) = (word, tail)) as ->.
    { apply split_keyword_spec. split_and!; [done| |done]. by destruct Hw as [-> | ->]. }
    rewrite decide_True by done. by rewrite Hq.
Qed.

(** ** Findings *)
Lemma dedup_elem x l : x ∈ dedup l ↔ x ∈ l.
Proof.
  induction l as [|y l IH]; [done|]. cbn. rewrite elem_of_cons, <- IH.
  destruct (dedup l) as [|z r]; [by rewrite list_elem_of_singleton, elem_of_nil; tauto|].
  case_decide as E; [subst z | by rewrite elem_of_cons].
  rewrite elem_of_cons. tauto.
Qed.

(** A re-review is new exactly when it has a finding whose normalised text no earlier
    finding has. *)
Lemma has_new_findings now before :
  has_new_relative_to (from_findings now) (from_findings before) = true ↔
  ∃ f, f ∈ now ∧ ∀ g, g ∈ before → normalize_finding g ≠ normalize_finding f.
Proof.
  unfold has_new_relative_to, from_findings. cbn [fs_keys]. rewrite existsb_exists.
  assert (∀ x l, x ∈ dedup (merge_sort string_le (map normalize_finding l)) ↔
    ∃ f, f ∈ l ∧ normalize_finding f = x) as Hel.
  { intros x l. rewrite dedup_elem, merge_sort_Permutation, list_elem_of_fmap. naive_solver. }
  setoid_rewrite negb_true_iff. setoid_rewrite bool_decide_eq_false.
  setoid_rewrite <- list_elem_of_In. setoid_rewrite Hel. split.
  - intros (x & (f & Hf & <-) & Hn). exists f. split; [done|]. intros g Hg E. apply Hn. eauto.
  - intros (f & Hf & Hn). exists (normalize_finding f). split; [eauto|]. intros (g & Hg & E).
    by apply (Hn g).
Qed.

(** ** Witnesses *)
Definition sample_blocked : WorkflowRun :=
  wf_block 20 "stuck" (wf_set_status 15 RsRunning (WorkflowRun_new 10 "run-1" "code" "parent" "item"
    "/srv/app" "phone")).

Lemma blocked_recovery_is_exclusive_witness :
  (@begin_resolving_workflow_run sample_fs 31 (Some "run-1") [] []
     (@begin_resolving_workflow_run sample_fs 30 None ["/srv/app"] ["/srv"]
        {[ "run-1" := sample_blocked ]}).1).2 = Err AlreadyResolving.
Proof.
  destruct (@blocked_recovery_is_exclusive sample_fs 30 None ["/srv/app"] ["/srv"]
    {[ "run-1" := sample_blocked ]} "run-1" "parent" "/srv/app" ["parent"])
    as (r & r' & _ & _ & _ & _ & _ & _ & _ & Hagain).
  - intros id r [<- <-]%lookup_singleton_Some. reflexivity.
  - vm_compute. reflexivity.
  - apply Hagain.
Defined.

Definition sample_started : TeamRun :=
  (TeamRun_new 5 "run" TaskSpec_default "/w" "phone") <| tr_phase := Design |>.

Lemma relay_update_keeps_backend_witness :
  (update_team_run "run" (λ r, r <| tr_orchestration_backend := unknown_non_executing |>)
     {[ "run" := sample_started ]}).2 = false.
Proof.
  destruct (relay_update_keeps_backend "run"
    (λ r, r <| tr_orchestration_backend := unknown_non_executing |>)
    {[ "run" := sample_started ]} sample_started) as (r' & _ & _ & _ & Hb).
  - apply lookup_singleton_eq.
  - vm_compute. reflexivity.
  - destruct (update_team_run _ _ _) as [m' []]; [|reflexivity].
    cbn in Hb. discriminate (proj1 Hb eq_refl).
Defined.
