(* ===== verification/Approvals.v ===== *)
(** * Requests to the user (crates/relay-server/src/state/relay/approval.rs,
      ask_user_question.rs)

    What an agent that paused is waiting for: an approval of a command, a file change, a
    permission or a plan, or the answers to structured questions.  A [serde_json::Value]
    is a [json] whose maps have no duplicate keys. *)

From Stdlib Require Import ZArith Lia.
From S2P Require Import Prelude RustStr Json.

Open Scope string_scope.
Open Scope Z_scope.

(** ** Approvals *)
Inductive ApprovalKind : Type := AkCommand | AkFileChange | AkPermissions | AkPlan.
#[export] Instance ApprovalKind_eq_dec : EqDecision ApprovalKind.
Proof. solve_decision. Defined.

Definition approval_kind_as_str (k : ApprovalKind) : string :=
  match k with
  | AkCommand => "command_execution" | AkFileChange => "file_change"
  | AkPermissions => "permissions" | AkPlan => "plan"
  end.

Inductive ApprovalDecision : Type := Approve | Deny | Cancel.
Inductive ApprovalScope : Type := Once | Session.

Record ApprovalDecisionInput : Type := MkDecision {
  ad_decision : ApprovalDecision;
  ad_scope : option ApprovalScope;
  ad_device_id : option string
}.

Record PendingApproval : Type := MkPendingApproval {
  pa_request_id : string;
  pa_raw_request_id : json;
  pa_kind : ApprovalKind;
  pa_thread_id : string;
  pa_summary : string;
  pa_detail : option string;
  pa_command : option string;
  pa_cwd : option string;
  pa_context_preview : option string;
  pa_requested_permissions : option json;
  pa_available_decisions : list string;
  pa_supports_session_scope : bool
}.
#[export] Instance PendingApproval_expand : Expand PendingApproval := λ p,
  MkPendingApproval (pa_request_id p) (pa_raw_request_id p) (pa_kind p) (pa_thread_id p)
    (pa_summary p) (pa_detail p) (pa_command p) (pa_cwd p) (pa_context_preview p)
    (pa_requested_permissions p) (pa_available_decisions p) (pa_supports_session_scope p).

(** The word sent for a command or a file change. *)
Definition decision_word (d : ApprovalDecision) (scope : option ApprovalScope) : string :=
  match d, default Once scope with
  | Approve, Session => "acceptForSession"
  | Approve, Once => "accept"
  | Deny, _ => "decline"
  | Cancel, _ => "cancel"
  end.

Definition decision_payload (p : PendingApproval) (input : ApprovalDecisionInput) : json :=
  match pa_kind p with
  | AkCommand | AkFileChange =>
      JMap [("decision", JStr (decision_word (ad_decision input) (ad_scope input)))]
  | AkPermissions =>
      match ad_decision input with
      | Approve =>
          JMap [("permissions", default (JMap []) (pa_requested_permissions p));
                ("scope", JStr (match default Once (ad_scope input) with
                                | Once => "turn" | Session => "session" end))]
      | _ => JMap [("permissions", JMap []); ("scope", JStr "turn")]
      end
  | AkPlan => JMap []
  end.

(** ** Questions *)
Record AskUserOptionView : Type := MkOption { ao_label : string; ao_description : string }.
Record AskUserQuestionView : Type := MkQuestion {
  aq_question : string;
  aq_header : string;
  aq_multi_select : bool;
  aq_options : list AskUserOptionView
}.
Record PendingAskUserQuestion : Type := MkPendingQuestion {
  pq_request_id : string;
  pq_tool_use_id : string;
  pq_thread_id : string;
  pq_requested_at : Z;
  pq_questions : list AskUserQuestionView
}.
#[export] Instance PendingAskUserQuestion_expand : Expand PendingAskUserQuestion := λ p,
  MkPendingQuestion (pq_request_id p) (pq_tool_use_id p) (pq_thread_id p) (pq_requested_at p)
    (pq_questions p).

(** [Value::get] with a string key, and the casts. *)
Definition jget (key : string) (j : json) : option json :=
  match j with
  | JMap es => snd ∘ snd <$> list_find (λ e, e.1 = key) es
  | _ => None
  end.
Definition jstr (j : json) : option string := match j with JStr s => Some s | _ => None end.
Definition jbool (j : json) : option bool := match j with JBool b => Some b | _ => None end.
Definition jseq (j : json) : option (list json) := match j with JSeq l => Some l | _ => None end.

Definition str_field (key : string) (j : json) : string := default "" (jget key j ≫= jstr).

Definition parse_option (j : json) : option AskUserOptionView :=
  let label := str_field "label" j in
  if is_empty label then None else Some (MkOption label (str_field "description" j)).

Definition parse_question (j : json) : option AskUserQuestionView :=
  let question := str_field "question" j in
  if is_empty question then None
  else Some {|
    aq_question := question;
    aq_header := str_field "header" j;
    aq_multi_select :=
      default false (option_or (jget "multiSelect" j) (jget "multi_select" j) ≫= jbool);
    aq_options := omap parse_option (default [] (jget "options" j ≫= jseq)) |}.

Definition parse_ask_user_questions (value : option json) : list AskUserQuestionView :=
  omap parse_question (default [] (value ≫= jseq)).

(** ** Facts *)

(** Only an approval grants anything, and what it grants is what was asked for. *)
Lemma refusal_grants_nothing p input :
  ad_decision input ≠ Approve →
  jget "permissions" (decision_payload p input) ∈ [None; Some (JMap [])] ∧
  (∀ w, jget "decision" (decision_payload p input) = Some (JStr w) → w = "decline" ∨ w = "cancel").
Proof.
  unfold decision_payload, decision_word.
  destruct (pa_kind p), (ad_decision input); cbn; intros ?; try done;
    (split; [set_solver | intros w [= <-]; auto]) || (split; [set_solver | done]).
Qed.
