(* ===== verification/Transcript.v ===== *)
(** * Transcript entries (crates/relay-server/src/state/relay/transcript.rs, runtime.rs,
      crates/relay-server/src/protocol.rs, file_changes.rs)

    The records a thread's transcript is made of, and the pure functions on them:
    upserts and appends of one entry, the merge of tool-call metadata, the merge of a
    re-read history into the live transcript, and the prepending of older pages. *)

From Stdlib Require Import ZArith Lia Ascii String.
From S2P Require Import Prelude RustStr.

Open Scope string_scope.
Open Scope Z_scope.

(** ** Data *)
Inductive TranscriptEntryKind : Type :=
| EkUserText | EkAgentText | EkToolCall | EkCommand | EkReasoning | EkError.
#[export] Instance TranscriptEntryKind_eq_dec : EqDecision TranscriptEntryKind.
Proof. solve_decision. Defined.

Inductive TranscriptContentState : Type := CsFull | CsPreview | CsOmitted.
#[export] Instance TranscriptContentState_eq_dec : EqDecision TranscriptContentState.
Proof. solve_decision. Defined.

Inductive FileChangeApplyState : Type := FcApplied | FcRolledBack.
#[export] Instance FileChangeApplyState_eq_dec : EqDecision FileChangeApplyState.
Proof. solve_decision. Defined.

Record FileChangeDiffView : Type := MkFileChange {
  fc_path : string;
  fc_change_type : string;
  fc_diff : string
}.
#[export] Instance FileChangeDiffView_expand : Expand FileChangeDiffView := λ c,
  MkFileChange (fc_path c) (fc_change_type c) (fc_diff c).
#[export] Instance FileChangeDiffView_eq_dec : EqDecision FileChangeDiffView.
Proof. solve_decision. Defined.

Record ToolCallView : Type := MkTool {
  tc_item_type : string;
  tc_name : string;
  tc_title : string;
  tc_kind : option string;
  tc_detail : option string;
  tc_query : option string;
  tc_path : option string;
  tc_url : option string;
  tc_command : option string;
  tc_input_preview : option string;
  tc_result_preview : option string;
  tc_diff : option string;
  tc_file_changes : list FileChangeDiffView;
  tc_apply_state : option FileChangeApplyState;
  tc_file_changes_omitted : bool;
  tc_can_apply : option bool
}.
#[export] Instance ToolCallView_expand : Expand ToolCallView := λ t,
  MkTool (tc_item_type t) (tc_name t) (tc_title t) (tc_kind t) (tc_detail t) (tc_query t)
    (tc_path t) (tc_url t) (tc_command t) (tc_input_preview t) (tc_result_preview t) (tc_diff t)
    (tc_file_changes t) (tc_apply_state t) (tc_file_changes_omitted t) (tc_can_apply t).
#[export] Instance ToolCallView_eq_dec : EqDecision ToolCallView.
Proof. solve_decision. Defined.

Record TranscriptRecord : Type := MkRecord {
  tx_item_id : string;
  tx_kind : TranscriptEntryKind;
  tx_text : option string;
  tx_status : string;
  tx_turn_id : option string;
  tx_tool : option ToolCallView;
  tx_seq : option Z
}.
#[export] Instance TranscriptRecord_expand : Expand TranscriptRecord := λ r,
  MkRecord (tx_item_id r) (tx_kind r) (tx_text r) (tx_status r) (tx_turn_id r) (tx_tool r)
    (tx_seq r).

Record TranscriptEntryView : Type := MkView {
  tv_item_id : option string;
  tv_kind : TranscriptEntryKind;
  tv_text : option string;
  tv_status : string;
  tv_turn_id : option string;
  tv_tool : option ToolCallView;
  tv_content_state : TranscriptContentState
}.
#[export] Instance TranscriptEntryView_expand : Expand TranscriptEntryView := λ v,
  MkView (tv_item_id v) (tv_kind v) (tv_text v) (tv_status v) (tv_turn_id v) (tv_tool v)
    (tv_content_state v).

Definition to_view (r : TranscriptRecord) : TranscriptEntryView :=
  MkView (Some (tx_item_id r)) (tx_kind r) (tx_text r) (tx_status r) (tx_turn_id r) (tx_tool r)
    CsFull.

(** A provider's entry as a record; [fallback] names an entry without an id. *)
Definition of_view (fallback : string) (v : TranscriptEntryView) : TranscriptRecord :=
  MkRecord (default fallback (tv_item_id v)) (tv_kind v) (tv_text v) (tv_status v) (tv_turn_id v)
    (tv_tool v) None.

(** [usize::to_string]. *)
Definition show_nat (n : nat) : string := pretty n.

(** ** Positions *)

(** [transcript.iter().position(|entry| entry.item_id == item_id)]. *)
Definition tx_position (item_id : string) (l : list TranscriptRecord) : option nat :=
  fst <$> list_find (λ r, tx_item_id r = item_id) l.

(** ** Tool calls *)
Definition eq_ignore_ascii_case (a b : string) : bool :=
  bool_decide (to_ascii_lowercase a = to_ascii_lowercase b).

Definition is_generic_tool_title (title name : string) : bool :=
  let trimmed_title := trim title in
  eq_ignore_ascii_case trimmed_title name || eq_ignore_ascii_case trimmed_title (name +:+ " call").

Definition select_tool_title (existing incoming name : string) : string :=
  if is_blank incoming then existing
  else if is_blank existing then incoming
  else if is_generic_tool_title incoming name && negb (is_generic_tool_title existing name)
  then existing
  else incoming.

Definition merge_tool_call_view (existing incoming : option ToolCallView) : option ToolCallView :=
  match existing, incoming with
  | None, None => None
  | Some e, None => Some e
  | None, Some i => Some i
  | Some e, Some i =>
      let name := if is_blank (tc_name i) then tc_name e else tc_name i in
      Some {|
        tc_item_type := if is_blank (tc_item_type i) then tc_item_type e else tc_item_type i;
        tc_name := name;
        tc_title := select_tool_title (tc_title e) (tc_title i) name;
        tc_kind := option_or (tc_kind i) (tc_kind e);
        tc_detail := option_or (tc_detail i) (tc_detail e);
        tc_query := option_or (tc_query i) (tc_query e);
        tc_path := option_or (tc_path i) (tc_path e);
        tc_url := option_or (tc_url i) (tc_url e);
        tc_command := option_or (tc_command i) (tc_command e);
        tc_input_preview := option_or (tc_input_preview i) (tc_input_preview e);
        tc_result_preview := option_or (tc_result_preview i) (tc_result_preview e);
        tc_diff := option_or (tc_diff i) (tc_diff e);
        tc_file_changes :=
          if bool_decide (tc_file_changes i = []) then tc_file_changes e else tc_file_changes i;
        tc_apply_state := option_or (tc_apply_state i) (tc_apply_state e);
        tc_file_changes_omitted := tc_file_changes_omitted i || tc_file_changes_omitted e;
        tc_can_apply := None |}
  end.

(** Equal up to the two markers a snapshot recomputes. *)
Definition tool_calls_equal (left right : option ToolCallView) : bool :=
  match left, right with
  | None, None => true
  | Some l, Some r =>
      bool_decide (tc_item_type l = tc_item_type r) && bool_decide (tc_name l = tc_name r)
      && bool_decide (tc_title l = tc_title r) && bool_decide (tc_kind l = tc_kind r)
      && bool_decide (tc_detail l = tc_detail r) && bool_decide (tc_query l = tc_query r)
      && bool_decide (tc_path l = tc_path r) && bool_decide (tc_url l = tc_url r)
      && bool_decide (tc_command l = tc_command r)
      && bool_decide (tc_input_preview l = tc_input_preview r)
      && bool_decide (tc_result_preview l = tc_result_preview r)
      && bool_decide (tc_diff l = tc_diff r) && bool_decide (tc_file_changes l = tc_file_changes r)
      && bool_decide (tc_apply_state l = tc_apply_state r)
  | _, _ => false
  end.

(** ** One entry written *)
Record EntryWrite : Type := MkWrite {
  ew_item_id : string;
  ew_kind : TranscriptEntryKind;
  ew_text : option string;
  ew_status : string;
  ew_turn_id : option string;
  ew_tool : option ToolCallView
}.

(** The branch of [upsert_transcript_item_for_thread] on an existing entry. *)
Definition upsert_entry (w : EntryWrite) (r : TranscriptRecord) : TranscriptRecord :=
  r <| tx_kind := ew_kind w |>
    <| tx_text := option_or (ew_text w) (tx_text r) |>
    <| tx_status := ew_status w |>
    <| tx_turn_id := ew_turn_id w |>
    <| tx_tool := if decide (ew_kind w = EkToolCall)
                  then merge_tool_call_view (tx_tool r) (ew_tool w) else ew_tool w |>.

Definition record_of_write (w : EntryWrite) : TranscriptRecord :=
  MkRecord (ew_item_id w) (ew_kind w) (ew_text w) (ew_status w) (ew_turn_id w) (ew_tool w) None.

(** The transcript after the write, and the 1-based position of the entry. *)
Definition upsert_in (w : EntryWrite) (l : list TranscriptRecord) : list TranscriptRecord * Z :=
  match tx_position (ew_item_id w) l with
  | Some i => (alter (upsert_entry w) i l, Z.of_nat i + 1)
  | None => ((l ++ [record_of_write w])%list, Z.of_nat (length l) + 1)
  end.

(** [text.encode_utf16().count()]: one unit for each lead byte, two for a lead byte of a
    four-byte encoding, none for a continuation byte. *)
Definition byte_utf16 (a : ascii) : Z :=
  let z := byte_val a in if z <? 128 then 1 else if z <? 192 then 0 else if z <? 240 then 1 else 2.
Fixpoint utf16_len (s : string) : Z :=
  match s with EmptyString => 0 | String a s' => byte_utf16 a + utf16_len s' end.

Definition append_agent_entry (delta turn_id : string) (r : TranscriptRecord) : TranscriptRecord :=
  r <| tx_kind := EkAgentText |>
    <| tx_text := Some (default "" (tx_text r) +:+ delta) |>
    <| tx_status := "streaming" |>
    <| tx_turn_id := get_or_insert (tx_turn_id r) turn_id |>
    <| tx_tool := None |>.

(** The transcript, the entry's position and the UTF-16 offset of the appended text. *)
Definition append_agent_in (item_id delta turn_id : string) (l : list TranscriptRecord) :
    list TranscriptRecord * Z * Z :=
  match tx_position item_id l with
  | Some i =>
      (alter (append_agent_entry delta turn_id) i l, Z.of_nat i + 1,
       utf16_len (default "" (l !! i ≫= tx_text)))
  | None =>
      ((l ++ [MkRecord item_id EkAgentText (Some delta) "streaming" (Some turn_id) None None])%list,
       Z.of_nat (length l) + 1, 0)
  end.

Definition newline : string := String "010"%char "".

(** Whether a newline is put between the output so far and [delta]. *)
Definition needs_separator (text delta : string) : bool :=
  negb (is_empty text) && negb (ends_with newline text) && negb (starts_with newline delta).

Definition append_command_entry (delta : string) (r : TranscriptRecord) : TranscriptRecord :=
  let text := default "" (tx_text r) in
  r <| tx_kind := EkCommand |>
    <| tx_text := Some ((if needs_separator text delta then text +:+ newline else text) +:+ delta) |>
    <| tx_status ::= λ st, if is_blank st || bool_decide (st = "completed") then "running" else st |>
    <| tx_tool := None |>.

(** The transcript, the entry's position and whether a separator was inserted. *)
Definition append_command_in (item_id delta : string) (l : list TranscriptRecord) :
    list TranscriptRecord * Z * bool :=
  match tx_position item_id l with
  | Some i =>
      (alter (append_command_entry delta) i l, Z.of_nat i + 1,
       needs_separator (default "" (l !! i ≫= tx_text)) delta)
  | None =>
      ((l ++ [MkRecord item_id EkCommand (Some delta) "running" None None None])%list,
       Z.of_nat (length l) + 1, false)
  end.

Definition set_entry_status (item_id status : string) (l : list TranscriptRecord) :
    option (list TranscriptRecord) :=
  (λ i, alter (λ r, r <| tx_status := status |>) i l) <$> tx_position item_id l.

(** ** What a mutation tells the clients *)
Record TranscriptMutationMeta : Type := MkMeta {
  mm_base_revision : Z;
  mm_revision : Z;
  mm_entry_seq : Z;
  mm_server_time : Z;
  mm_text_offset : option Z;
  mm_separator_inserted : bool
}.

Definition wire_delta (m : TranscriptMutationMeta) (delta : string) : string :=
  if mm_separator_inserted m then newline +:+ delta else delta.

(** ** Merging a re-read history *)
Definition text_is_longer (candidate baseline : option string) : bool :=
  match candidate, baseline with
  | Some _, None => true
  | Some c, Some b => (length (chars b) <? length (chars c))%nat
  | _, _ => false
  end.

Definition is_completed_status (status : string) : bool := eq_ignore_ascii_case status "completed".

Definition merge_runtime_entry (existing incoming : TranscriptRecord) : TranscriptRecord * bool :=
  let same_kind := bool_decide (tx_kind existing = tx_kind incoming) in
  if same_kind && text_is_longer (tx_text existing) (tx_text incoming) then
    let c1 := is_completed_status (tx_status incoming)
              && negb (bool_decide (tx_status existing = tx_status incoming)) in
    let e1 := if c1 then existing <| tx_status := tx_status incoming |> else existing in
    let c2 := is_none (tx_turn_id e1) && is_some (tx_turn_id incoming) in
    let e2 := if c2 then e1 <| tx_turn_id := tx_turn_id incoming |> else e1 in
    let c3 := is_none (tx_tool e2) && is_some (tx_tool incoming) in
    let e3 := if c3 then e2 <| tx_tool := tx_tool incoming |> else e2 in
    (e3, c1 || c2 || c3)
  else if is_completed_status (tx_status existing) && negb (is_completed_status (tx_status incoming))
  then
    if same_kind && text_is_longer (tx_text incoming) (tx_text existing)
    then (existing <| tx_text := tx_text incoming |>, true)
    else if is_none (tx_tool existing) && is_some (tx_tool incoming)
    then (existing <| tx_tool := tx_tool incoming |>, true)
    else (existing, false)
  else
    let changed :=
      negb same_kind || negb (bool_decide (tx_text existing = tx_text incoming))
      || negb (bool_decide (tx_status existing = tx_status incoming))
      || negb (bool_decide (tx_turn_id existing = tx_turn_id incoming))
      || negb (tool_calls_equal (tx_tool existing) (tx_tool incoming)) in
    if changed then (incoming <| tx_seq := option_or (tx_seq incoming) (tx_seq existing) |>, true)
    else (existing, false).

Definition has_equivalent_user_message (l : list TranscriptRecord) (entry : TranscriptRecord) : bool :=
  bool_decide (tx_kind entry = EkUserText) && is_some (tx_text entry)
  && existsb (λ c, bool_decide (tx_kind c = EkUserText) && bool_decide (tx_text c = tx_text entry)) l.

(** One iteration of the loop of [merge_transcript_records]. *)
Definition merge_record (st : list TranscriptRecord * bool) (record : TranscriptRecord) :
    list TranscriptRecord * bool :=
  let '(l, changed) := st in
  match tx_position (tx_item_id record) l with
  | Some i =>
      match l !! i with
      | Some existing =>
          let '(merged, c) := merge_runtime_entry existing record in
          (<[i := merged]> l, changed || c)
      | None => st
      end
  | None =>
      if has_equivalent_user_message l record then st else ((l ++ [record])%list, true)
  end.

Definition merge_transcript_records (records l : list TranscriptRecord) :
    list TranscriptRecord * bool := foldl merge_record (l, false) records.

(** ** Older pages *)

(** The [retain] of [prepend_provider_history]: [seen] are the ids new on this page.  Of
    two entries with the same id the map keeps the index of the later one. *)
Definition last_position (item_id : string) (l : list TranscriptRecord) : option nat :=
  (λ i, (length l - 1 - i)%nat) <$> tx_position item_id (rev l).

Fixpoint retain_new (records : list TranscriptRecord) (seen : list string)
    (l : list TranscriptRecord) : option (list TranscriptRecord * list TranscriptRecord) :=
  match records with
  | [] => Some ([], l)
  | r :: records =>
      if decide (tx_item_id r ∈ seen) then None
      else match last_position (tx_item_id r) l with
      | Some i =>
          retain_new records seen
            (alter (λ e, e <| tx_tool := merge_tool_call_view (tx_tool e) (tx_tool r) |>) i l)
      | None =>
          '(kept, l) ← retain_new records (tx_item_id r :: seen) l;
          Some (r :: kept, l)
      end
  end.

Fixpoint number_from {A B} (f : nat → A → B) (i : nat) (l : list A) : list B :=
  match l with [] => [] | a :: l => f i a :: number_from f (S i) l end.

Definition page_records (requested_cursor : option nat) (entries : list TranscriptEntryView) :
    list TranscriptRecord :=
  let fallback_page := match requested_cursor with Some c => show_nat c | None => "tail" end in
  number_from (λ index v,
    of_view ("provider-history-" +:+ fallback_page +:+ "-" +:+ show_nat index) v) 0 entries.

(** ** File changes of a turn *)
Definition merge_file_change_diff (existing incoming : string) : string :=
  let e := trim existing in
  let i := trim incoming in
  if is_empty e && is_empty i then ""
  else if is_empty e then i
  else if is_empty i then e
  else if bool_decide (e = i) then e
  else if contains i e then e
  else if contains e i then i
  else e +:+ newline +:+ i.

Definition merge_change (incoming existing : FileChangeDiffView) : FileChangeDiffView :=
  let merged_diff := merge_file_change_diff (fc_diff existing) (fc_diff incoming) in
  let e := if negb (is_empty merged_diff) || is_empty (fc_diff existing)
           then existing <| fc_diff := merged_diff |> else existing in
  if bool_decide (fc_change_type e = "update") && negb (bool_decide (fc_change_type incoming = "update"))
  then e <| fc_change_type := fc_change_type incoming |> else e.

Definition merge_file_change_view (file_changes : list FileChangeDiffView)
    (incoming : FileChangeDiffView) : list FileChangeDiffView :=
  match list_find (λ c, fc_path c = fc_path incoming) file_changes with
  | Some (i, _) => alter (merge_change incoming) i file_changes
  | None => (file_changes ++ [incoming])%list
  end.

Definition counts_for_turn (turn_id : string) (settled : bool) (e : TranscriptRecord) :
    option ToolCallView :=
  if negb (bool_decide (tx_turn_id e = Some turn_id)) then None
  else if bool_decide (tx_status e = "failed") || bool_decide (tx_status e = "error") then None
  else if settled && negb (bool_decide (tx_status e = "completed")) then None
  else tool ← tx_tool e;
       if bool_decide (tc_item_type tool = "fileChange") then Some tool else None.

Definition collect_turn_file_changes (turn_id : string) (settled : bool)
    (entries : list TranscriptRecord) : list FileChangeDiffView :=
  foldl (λ acc e,
    match counts_for_turn turn_id settled e with
    | None => acc
    | Some tool =>
        let paths := (map fc_path (tc_file_changes tool) ++ option_list (tc_path tool))%list in
        let acc := foldl (λ acc p, merge_file_change_view acc (MkFileChange p "update" "")) acc paths in
        foldl merge_file_change_view acc (tc_file_changes tool)
    end) [] entries.
