(* ===== verification/Runtime.v ===== *)
(** * Thread runtimes (crates/relay-server/src/state/relay/runtime.rs, state/relay.rs)

    What the relay keeps of one live thread, how it is built (empty, for a started
    thread, from a provider's read), and how a re-read is merged into it without touching
    the turn in flight. *)

From Stdlib Require Import ZArith Lia Ascii String.
From S2P Require Import Prelude RustStr Json Approvals Transcript.

Open Scope string_scope.
Open Scope Z_scope.

Definition STALE_TURN_PROGRESS_TIMEOUT_SECS : Z := 600.

(** ** Status words *)
Definition thread_status_is_working (status : string) : bool :=
  negb (bool_decide (to_ascii_lowercase (trim status) ∈
    [""; "idle"; "viewing"; "completed"; "unknown"; "notloaded"])).

Definition thread_status_is_settled (status : string) : bool :=
  bool_decide (trim status ∈ [""; "idle"; "viewing"]).

(** ** Data *)
Record ThreadSummaryView : Type := MkSummary {
  sm_id : string;
  sm_name : option string;
  sm_preview : string;
  sm_cwd : string;
  sm_updated_at : Z;
  sm_workspace_trusted : bool;
  sm_source : string;
  sm_status : string;
  sm_model_provider : string;
  sm_provider : string;
  sm_forked_from : option string;
  sm_renamed : bool
}.
#[export] Instance ThreadSummaryView_expand : Expand ThreadSummaryView := λ s,
  MkSummary (sm_id s) (sm_name s) (sm_preview s) (sm_cwd s) (sm_updated_at s)
    (sm_workspace_trusted s) (sm_source s) (sm_status s) (sm_model_provider s) (sm_provider s)
    (sm_forked_from s) (sm_renamed s).

Record ThreadSessionSettings : Type := MkSettings {
  ss_approval_policy : string;
  ss_sandbox : string;
  ss_reasoning_effort : string;
  ss_model : string
}.
#[export] Instance ThreadSessionSettings_expand : Expand ThreadSessionSettings := λ s,
  MkSettings (ss_approval_policy s) (ss_sandbox s) (ss_reasoning_effort s) (ss_model s).

Inductive TurnFailureKind : Type := UsageLimit | SessionCapacity.

Definition turn_failure_from_wire (kind : string) : option TurnFailureKind :=
  if decide (kind = "usage_limit") then Some UsageLimit
  else if decide (kind = "session_capacity") then Some SessionCapacity
  else None.

Definition halts_the_run (k : TurnFailureKind) : bool :=
  match k with UsageLimit | SessionCapacity => true end.

Record TurnFailure : Type := MkTurnFailure {
  tf_turn_id : string;
  tf_kind : option TurnFailureKind;
  tf_reason : string
}.

Record TurnSpend : Type := MkTurnSpend {
  tsp_turn_id : string;
  tsp_billed : Z;
  tsp_failed : bool
}.

(** The verdict on a missing workspace is carried, never inspected. *)
Record WorkspaceRepairView : Type := MkRepair {
  wrv_recorded_cwd : string;
  wrv_kind : string;
  wrv_repo_root : option string;
  wrv_branch : option string
}.

Record ThreadRuntime : Type := MkRuntime {
  rt_summary : option ThreadSummaryView;
  rt_active_turn_id : option string;
  rt_turn_revision : Z;
  rt_current_status : string;
  rt_current_phase : option string;
  rt_current_tool : option string;
  rt_last_progress_at : option Z;
  rt_liveness_timed_out : bool;
  rt_liveness_stop_requested : bool;
  rt_active_flags : list string;
  rt_current_cwd : string;
  rt_workspace_missing : option WorkspaceRepairView;
  rt_model : string;
  rt_approval_policy : string;
  rt_sandbox : string;
  rt_reasoning_effort : string;
  rt_transcript_revision : Z;
  rt_transcript : list TranscriptRecord;
  rt_provider_history_cursor : option nat;
  rt_provider_history_paged : bool;
  rt_apply_states : gmap string FileChangeApplyState;
  rt_pending_approvals : gmap string PendingApproval;
  rt_pending_ask_user_questions : gmap string PendingAskUserQuestion;
  rt_last_update_at : Z;
  rt_last_turn_failure : option TurnFailure;
  rt_last_turn_spend : option TurnSpend
}.
#[export] Instance ThreadRuntime_expand : Expand ThreadRuntime := λ r,
  MkRuntime (rt_summary r) (rt_active_turn_id r) (rt_turn_revision r) (rt_current_status r)
    (rt_current_phase r) (rt_current_tool r) (rt_last_progress_at r) (rt_liveness_timed_out r)
    (rt_liveness_stop_requested r) (rt_active_flags r) (rt_current_cwd r) (rt_workspace_missing r)
    (rt_model r) (rt_approval_policy r) (rt_sandbox r) (rt_reasoning_effort r)
    (rt_transcript_revision r) (rt_transcript r) (rt_provider_history_cursor r)
    (rt_provider_history_paged r) (rt_apply_states r) (rt_pending_approvals r)
    (rt_pending_ask_user_questions r) (rt_last_update_at r) (rt_last_turn_failure r)
    (rt_last_turn_spend r).

Record ThreadSyncData : Type := MkSync {
  sd_thread : ThreadSummaryView;
  sd_status : string;
  sd_active_flags : list string;
  sd_transcript : list TranscriptEntryView
}.

(** ** Construction *)
Definition runtime_placeholder (thread_id : string) (now transcript_revision : Z) : ThreadRuntime := {|
  rt_summary := Some (MkSummary thread_id None "" "" now false "" "active" "" "" None false);
  rt_active_turn_id := None;
  rt_turn_revision := 0;
  rt_current_status := "active";
  rt_current_phase := None;
  rt_current_tool := None;
  rt_last_progress_at := None;
  rt_liveness_timed_out := false;
  rt_liveness_stop_requested := false;
  rt_active_flags := [];
  rt_current_cwd := "";
  rt_workspace_missing := None;
  rt_model := "";
  rt_approval_policy := "";
  rt_sandbox := "";
  rt_reasoning_effort := "";
  rt_transcript_revision := transcript_revision;
  rt_transcript := [];
  rt_provider_history_cursor := None;
  rt_provider_history_paged := false;
  rt_apply_states := ∅;
  rt_pending_approvals := ∅;
  rt_pending_ask_user_questions := ∅;
  rt_last_update_at := now;
  rt_last_turn_failure := None;
  rt_last_turn_spend := None |}.

Definition runtime_with_settings (st : ThreadSessionSettings) (r : ThreadRuntime) : ThreadRuntime :=
  r <| rt_approval_policy := ss_approval_policy st |>
    <| rt_sandbox := ss_sandbox st |>
    <| rt_reasoning_effort := ss_reasoning_effort st |>
    <| rt_model := ss_model st |>.

(** [ThreadRuntime::new]; [st] are its four settings arguments. *)
Definition runtime_new (thread : ThreadSummaryView) (cwd : string) (st : ThreadSessionSettings)
    (now transcript_revision : Z) : ThreadRuntime :=
  (runtime_with_settings st (runtime_placeholder (sm_id thread) now transcript_revision))
    <| rt_summary := Some thread |>
    <| rt_current_status := sm_status thread |>
    <| rt_current_cwd := cwd |>.

Definition from_sync_data (data : ThreadSyncData) (st : ThreadSessionSettings)
    (now transcript_revision : Z) : ThreadRuntime :=
  (runtime_new (sd_thread data) (sm_cwd (sd_thread data)) st now transcript_revision)
    <| rt_current_status :=
         if thread_status_is_working (sd_status data) then "idle" else sd_status data |>
    <| rt_active_flags := sd_active_flags data |>
    <| rt_transcript :=
         number_from (λ index v, of_view ("history-" +:+ show_nat index) v) 0 (sd_transcript data) |>.

Definition runtime_settings (r : ThreadRuntime) : ThreadSessionSettings :=
  MkSettings (rt_approval_policy r) (rt_sandbox r) (rt_reasoning_effort r) (rt_model r).

(** ** Liveness *)
Definition has_live_turn (r : ThreadRuntime) : bool := is_some (rt_active_turn_id r).

Definition is_working (r : ThreadRuntime) : bool :=
  is_some (rt_active_turn_id r)
  || negb (rt_liveness_timed_out r) && thread_status_is_working (rt_current_status r).

Definition expire_stale_liveness (now timeout_secs : Z) (r : ThreadRuntime) : ThreadRuntime * bool :=
  if rt_liveness_timed_out r || is_none (rt_active_turn_id r) then (r, false)
  else match rt_last_progress_at r with
       | Some last_progress_at =>
           if last_progress_at <=? 0 then (r, false)
           else if u64_saturating_sub now last_progress_at <? timeout_secs then (r, false)
           else (r <| rt_liveness_timed_out := true |>
                   <| rt_liveness_stop_requested := false |>
                   <| rt_current_phase := None |>
                   <| rt_current_tool := None |>, true)
       | None => (r, false)
       end.

Definition note_turn_event (r : ThreadRuntime) : ThreadRuntime :=
  r <| rt_turn_revision ::= λ n, u64_add n 1 |>.

Definition rt_touch (now : Z) (r : ThreadRuntime) : ThreadRuntime := r <| rt_last_update_at := now |>.

(** ** Views *)
Definition view_with_apply_state (apply_states : gmap string FileChangeApplyState)
    (record : TranscriptRecord) : TranscriptEntryView :=
  let view := to_view record in
  match tv_item_id view, tv_tool view with
  | Some item_id, Some tool =>
      match apply_states !! item_id with
      | Some state => view <| tv_tool := Some (tool <| tc_apply_state := Some state |>) |>
      | None => view
      end
  | _, _ => view
  end.

Definition transcript_views (r : ThreadRuntime) : list TranscriptEntryView :=
  map (view_with_apply_state (rt_apply_states r)) (rt_transcript r).

(** ** History *)

(** [None] is a panic: the page repeats an id that the transcript does not have. *)
Definition prepend_provider_history (entries : list TranscriptEntryView)
    (requested_cursor prev_cursor : option nat) (r : ThreadRuntime) : option ThreadRuntime :=
  '(kept, transcript) ← retain_new (page_records requested_cursor entries) [] (rt_transcript r);
  Some (r <| rt_transcript := (kept ++ transcript)%list |>
          <| rt_provider_history_cursor := prev_cursor |>).

(** The boolean says whether the transcript changed. *)
Definition merge_fresh_history (fresh r : ThreadRuntime) : ThreadRuntime * bool :=
  let r := r <| rt_summary := rt_summary fresh |>
             <| rt_current_cwd := rt_current_cwd fresh |>
             <| rt_approval_policy := rt_approval_policy fresh |>
             <| rt_sandbox := rt_sandbox fresh |>
             <| rt_reasoning_effort := rt_reasoning_effort fresh |>
             <| rt_model ::= λ m, if is_empty (rt_model fresh) then m else rt_model fresh |>
             <| rt_current_status := rt_current_status fresh |>
             <| rt_active_flags := rt_active_flags fresh |> in
  let r := if rt_provider_history_paged fresh then r
           else r <| rt_provider_history_cursor := None |> <| rt_provider_history_paged := false |> in
  let '(transcript, changed) := merge_transcript_records (rt_transcript fresh) (rt_transcript r) in
  (r <| rt_transcript := transcript |>, changed).
