(* ===== verification/Push.v ===== *)
(** * Web push (crates/relay-server/src/state/relay/push.rs, state/relay.rs)

    Which transitions of the threads notify a device, the subscriptions of devices, and
    which endpoints a device may name.  [url::Url::parse] is a parameter; encryption and
    sending are not modelled. *)

From Stdlib Require Import ZArith Lia Ascii String.
From stdpp Require Import sorting.
From S2P Require Import Prelude RustStr WorkflowRun.

Open Scope string_scope.
Open Scope Z_scope.

(** ** Jobs *)
Inductive PushKind : Type := PkNeedsInput | PkCompleted | PkError.
#[export] Instance PushKind_eq_dec : EqDecision PushKind.
Proof. solve_decision. Defined.

Definition tag_slug (k : PushKind) : string :=
  match k with PkNeedsInput => "needs_input" | PkCompleted => "completed" | PkError => "error" end.

Record PushJob : Type := MkJob {
  pj_kind : PushKind;
  pj_thread_id : string;
  pj_thread_name : option string;
  pj_reason : option string
}.
#[export] Instance PushJob_expand : Expand PushJob := λ j,
  MkJob (pj_kind j) (pj_thread_id j) (pj_thread_name j) (pj_reason j).

Definition PushJob_new (k : PushKind) (thread_id : string) : PushJob := MkJob k thread_id None None.

Record PushNotification : Type := MkNotification { pn_title : string; pn_body : string; pn_tag : string }.

Definition format_push_notification (j : PushJob) : PushNotification :=
  let label := default "A thread" (pj_thread_name j) in
  let '(title, body) :=
    match pj_kind j with
    | PkNeedsInput => ("Agent needs your input", label +:+ " is waiting for you.")
    | PkCompleted => ("Agent finished", label +:+ " completed its turn.")
    | PkError => ("Agent stopped", label +:+ " " +:+ default "stopped unexpectedly." (pj_reason j))
    end in
  MkNotification title body ("thread-" +:+ pj_thread_id j +:+ "-" +:+ tag_slug (pj_kind j)).

(** ** The attention tracker *)
Record AttentionState : Type := MkAttention { at_working : bool; at_needs_input : bool }.
#[export] Instance AttentionState_expand : Expand AttentionState := λ a,
  MkAttention (at_working a) (at_needs_input a).
Definition quiet : AttentionState := MkAttention false false.

Record PushAttentionTracker : Type := MkTracker {
  pt_prev : option (gmap string AttentionState);
  pt_suppress_completed : gset string
}.
#[export] Instance PushAttentionTracker_expand : Expand PushAttentionTracker := λ t,
  MkTracker (pt_prev t) (pt_suppress_completed t).

(** The parts of a published snapshot that [compute_thread_states] reads; a request is
    the thread id it carries. *)
Record AttentionSnapshot : Type := MkAttentionSnapshot {
  as_active_thread_id : option string;
  as_active_turn_id : option string;
  as_status_working : bool;
  as_thread_activity : list string;
  as_requests : list string;
  as_active_flags : list string
}.

Definition mark_working (id : string) (m : gmap string AttentionState) : gmap string AttentionState :=
  <[id := (default quiet (m !! id)) <| at_working := true |>]> m.
Definition mark_needs_input (id : string) (m : gmap string AttentionState) :
    gmap string AttentionState :=
  <[id := (default quiet (m !! id)) <| at_needs_input := true |>]> m.

Definition compute_thread_states (s : AttentionSnapshot) : gmap string AttentionState :=
  let active := as_active_thread_id s in
  let m := match active with
           | Some id => if is_some (as_active_turn_id s) || as_status_working s
                        then mark_working id ∅ else ∅
           | None => ∅
           end in
  let m := foldl (λ m id, if is_empty id then m else mark_working id m) m (as_thread_activity s) in
  let m := foldl (λ m id,
             match (if is_empty id then active else Some id) with
             | Some id => mark_needs_input id m
             | None => m
             end) m (as_requests s) in
  match active with
  | Some id =>
      if existsb (λ f, bool_decide (f = "waitingOnApproval") || bool_decide (f = "waitingOnAskUser"))
           (as_active_flags s)
      then mark_needs_input id m else m
  | None => m
  end.

(** One thread's transition: the threads still suppressed, and the job if there is one. *)
Definition attention_step (prev next : gmap string AttentionState)
    (st : gset string * list PushJob) (id : string) : gset string * list PushJob :=
  let '(suppress, jobs) := st in
  let before := default quiet (prev !! id) in
  let after := default quiet (next !! id) in
  let suppress := if negb (at_working before) && at_working after then suppress ∖ {[ id ]} else suppress in
  if at_needs_input after && negb (at_needs_input before)
  then (suppress, (jobs ++ [PushJob_new PkNeedsInput id])%list)
  else if at_working before && negb (at_working after) && negb (at_needs_input after)
  then if decide (id ∈ suppress) then (suppress ∖ {[ id ]}, jobs)
       else (suppress, (jobs ++ [PushJob_new PkCompleted id])%list)
  else (suppress, jobs).

Definition attention_ids (prev next : gmap string AttentionState) : list string :=
  merge_sort string_le (elements (dom prev ∪ dom next)).

Definition ingest_states (next : gmap string AttentionState) (t : PushAttentionTracker) :
    PushAttentionTracker * list PushJob :=
  match pt_prev t with
  | None => (t <| pt_prev := Some next |>, [])
  | Some prev =>
      let '(suppress, jobs) :=
        foldl (attention_step prev next) (pt_suppress_completed t, []) (attention_ids prev next) in
      (MkTracker (Some next) suppress, jobs)
  end.

Definition suppress_completed (thread_id : string) (t : PushAttentionTracker) : PushAttentionTracker :=
  t <| pt_suppress_completed ::= λ s, s ∪ {[ thread_id ]} |>.

(** ** Endpoints *)
Inductive UrlHost : Type :=
| HostDomain (d : string)
| HostIpv4 (a b c d : Z)
| HostIpv6 (segments : list Z).

(** [url::Url::parse], as the scheme and the host. *)
Class UrlParser := url_parse : string → option (string * option UrlHost).

Definition ipv4_internal (a b c d : Z) : bool :=
  (a =? 127)
  || ((a =? 10) || (a =? 172) && in_range 16 b 31 || (a =? 192) && (b =? 168))
  || (a =? 169) && (b =? 254)
  || (a =? 0) && (b =? 0) && (c =? 0) && (d =? 0).

Definition ipv6_internal (segs : list Z) : bool :=
  match segs with
  | [0; 0; 0; 0; 0; 65535; hi; lo] =>
      ipv4_internal (hi / 256) (hi mod 256) (lo / 256) (lo mod 256)
  | [0; 0; 0; 0; 0; 0; 0; 1] => true
  | [0; 0; 0; 0; 0; 0; 0; 0] => true
  | seg0 :: _ => (Z.land seg0 65024 =? 64512) || (Z.land seg0 65472 =? 65152)
  | [] => true
  end.

Definition is_acceptable_push_endpoint `{UrlParser} (endpoint : string) : bool :=
  match url_parse endpoint with
  | None => false
  | Some (scheme, host) =>
      bool_decide (scheme = "https") &&
      match host with
      | Some (HostDomain d) =>
          let host := to_ascii_lowercase d in
          negb (bool_decide (host = "localhost")) && negb (ends_with ".localhost" host)
          && negb (ends_with ".local" host)
      | Some (HostIpv4 a b c d) => negb (ipv4_internal a b c d)
      | Some (HostIpv6 segs) => negb (ipv6_internal segs)
      | None => false
      end
  end.

(** ** Subscriptions *)
Record PushSubscription : Type := MkSubscription {
  sub_endpoint : string;
  sub_p256dh : string;
  sub_auth : string;
  sub_device_id : string;
  sub_created_at : Z
}.
Notation PushSubscriptions := (gmap string (list PushSubscription)).

Record PushSubscriptionInput : Type := MkSubInput {
  psi_endpoint : string;
  psi_p256dh : string;
  psi_auth : string;
  psi_device_id : option string
}.

Inductive PushError : Type := PushNoDevice | PushNotPaired | PushIncomplete | PushBadEndpoint.

Definition register_push_subscription `{UrlParser} (paired : gset string)
    (input : PushSubscriptionInput) (now : Z) (m : PushSubscriptions) :
    PushSubscriptions * result () PushError :=
  match psi_device_id input with
  | None => (m, Err PushNoDevice)
  | Some device_id =>
      if decide (device_id ∈ paired) then
        if is_empty (psi_endpoint input) || is_empty (psi_p256dh input) || is_empty (psi_auth input)
        then (m, Err PushIncomplete)
        else if negb (is_acceptable_push_endpoint (psi_endpoint input)) then (m, Err PushBadEndpoint)
        else
          let subs := default [] (m !! device_id) in
          if existsb (λ s, bool_decide (sub_endpoint s = psi_endpoint input)
                           && bool_decide (sub_p256dh s = psi_p256dh input)
                           && bool_decide (sub_auth s = psi_auth input)) subs
          then (m, Ok ())
          else (<[device_id :=
                   (filter (λ s, sub_endpoint s ≠ psi_endpoint input) subs ++
                    [MkSubscription (psi_endpoint input) (psi_p256dh input) (psi_auth input)
                       device_id now])%list]> m, Ok ())
      else (m, Err PushNotPaired)
  end.

Definition unregister_push_subscription (device_id endpoint : string) (m : PushSubscriptions) :
    PushSubscriptions :=
  match m !! device_id with
  | None => m
  | Some subs =>
      match filter (λ s, sub_endpoint s ≠ endpoint) subs with
      | [] => delete device_id m
      | kept => <[device_id := kept]> m
      end
  end.

Definition prune_push_subscriptions (gone : list string) (m : PushSubscriptions) : PushSubscriptions :=
  match gone with
  | [] => m
  | _ => filter (λ e, e.2 ≠ []) (filter (λ s, sub_endpoint s ∉ gone) <$> m)
  end.

Definition prune_orphaned_push_subscriptions (paired : gset string) (m : PushSubscriptions) :
    PushSubscriptions := filter (λ e, e.1 ∈ paired) m.

Definition push_subscriptions_vec (paired : gset string) (m : PushSubscriptions) :
    list PushSubscription :=
  concat (map snd (filter (λ e, e.1 ∈ paired) (map_to_list m))).

(** ** What the relay holds of push

    [ps_wired]: the dispatcher is installed; [ps_jobs]: the jobs sent to it. *)
Record PushState : Type := MkPush {
  ps_wired : bool;
  ps_jobs : list PushJob;
  ps_tracker : PushAttentionTracker
}.
#[export] Instance PushState_expand : Expand PushState := λ s,
  MkPush (ps_wired s) (ps_jobs s) (ps_tracker s).

Definition enqueue_push (job : PushJob) (s : PushState) : PushState :=
  if ps_wired s then s <| ps_jobs ::= λ l, (l ++ [job])%list |> else s.

(** [name] is [thread_display_name]. *)
Definition enqueue_error_push (thread_id reason : string) (name : option string) (s : PushState) :
    PushState :=
  if ps_wired s then
    enqueue_push ((PushJob_new PkError thread_id) <| pj_thread_name := name |>
                                                  <| pj_reason := Some reason |>)
      (s <| ps_tracker ::= suppress_completed thread_id |>)
  else s.

Definition note_snapshot_for_push (name : string → option string) (snapshot : AttentionSnapshot)
    (s : PushState) : PushState :=
  if ps_wired s then
    let '(tracker, jobs) := ingest_states (compute_thread_states snapshot) (ps_tracker s) in
    foldl (λ s job, enqueue_push (job <| pj_thread_name := name (pj_thread_id job) |>) s)
      (s <| ps_tracker := tracker |>) jobs
  else s.

(** * Push notifications: one for each turn that needs its owner *)
(** ** What one thread's transition says *)
Section Transition.
Context (prev next : gmap string AttentionState).

Definition before (id : string) : AttentionState := default quiet (prev !! id).
Definition after (id : string) : AttentionState := default quiet (next !! id).
Definition starts (id : string) : bool := negb (at_working (before id)) && at_working (after id).
Definition asks (id : string) : bool := at_needs_input (after id) && negb (at_needs_input (before id)).
Definition finishes (id : string) : bool :=
  at_working (before id) && negb (at_working (after id)) && negb (at_needs_input (after id)).

(** The notification for a thread, given the threads whose completion is suppressed. *)
Definition job_for (suppress : gset string) (id : string) : option PushJob :=
  if asks id then Some (PushJob_new PkNeedsInput id)
  else if finishes id then if decide (id ∈ suppress) then None else Some (PushJob_new PkCompleted id)
  else None.

(** A suppression ends when the thread works again or when it was used. *)
Definition released (id : string) : bool := starts id || negb (asks id) && finishes id.

Lemma step_spec suppress jobs id :
  let '(suppress', jobs') := attention_step prev next (suppress, jobs) id in
  jobs' = (jobs ++ option_list (job_for suppress id))%list ∧
  suppress' = (if released id then suppress ∖ {[ id ]} else suppress).
Proof.
  unfold attention_step, job_for, released, asks, finishes, starts. fold (before id) (after id).
  destruct (before id) as [[] []], (after id) as [[] []]; cbn;
    try destruct (decide (id ∈ suppress)); cbn; rewrite ?app_nil_r; split; try done;
    set_solver.
Qed.

Lemma ingest_fold l : ∀ suppress jobs,
  NoDup l →
  let '(suppress', jobs') := foldl (attention_step prev next) (suppress, jobs) l in
  jobs' = (jobs ++ omap (job_for suppress) l)%list ∧
  suppress' = filter (λ id, ¬ (id ∈ l ∧ released id = true)) suppress.
Proof.
  induction l as [|id l IH]; intros suppress jobs Hnd; cbn [foldl].
  { cbn. rewrite app_nil_r. split; [done|]. apply set_eq. intros x. rewrite elem_of_filter. set_solver. }
  apply NoDup_cons in Hnd as [Hid Hnd]. pose proof (step_spec suppress jobs id) as Hs.
  destruct (attention_step prev next (suppress, jobs) id) as [s1 j1]. destruct Hs as [-> ->].
  specialize (IH (if released id then suppress ∖ {[id]} else suppress)
    (jobs ++ option_list (job_for suppress id))%list Hnd).
  destruct (foldl _ _ l) as [s2 j2]. destruct IH as [-> ->]. split.
  - rewrite <- app_assoc. f_equal. cbn. assert (omap (job_for (if released id then suppress ∖ {[id]} else suppress)) l
      = omap (job_for suppress) l) as ->.
    { apply list_omap_ext. apply Forall_Forall2_diag, Forall_forall. intros x Hx. unfold job_for.
      assert (x ≠ id) by congruence.
      destruct (asks x), (finishes x); try done.
      destruct (decide (x ∈ suppress)), (decide (x ∈ (if released id then _ else _))) as [Hx'|Hx']; try done;
        destruct (released id); set_solver. }
    by destruct (job_for suppress id).
  - apply set_eq. intros x. rewrite !elem_of_filter.
    destruct (decide (x = id)) as [->|Hx]; destruct (released id) eqn:Er; set_solver.
Qed.
End Transition.

Lemma attention_ids_spec prev next :
  NoDup (attention_ids prev next) ∧ ∀ id, id ∈ attention_ids prev next ↔ is_Some (prev !! id) ∨ is_Some (next !! id).
Proof.
  unfold attention_ids. split.
  - rewrite (merge_sort_Permutation string_le). apply NoDup_elements.
  - intros id. rewrite (merge_sort_Permutation string_le). rewrite elem_of_elements, elem_of_union.
    by rewrite !elem_of_dom.
Qed.

Lemma ingest_spec prev next suppress :
  let '(t, jobs) := ingest_states next (MkTracker (Some prev) suppress) in
  pt_prev t = Some next ∧ jobs = omap (job_for prev next suppress) (attention_ids prev next) ∧
  ∀ id, id ∈ pt_suppress_completed t ↔ id ∈ suppress ∧ released prev next id = false.
Proof.
  unfold ingest_states. cbn [pt_prev pt_suppress_completed].
  destruct (attention_ids_spec prev next) as [Hnd Hel].
  pose proof (ingest_fold prev next (attention_ids prev next) suppress [] Hnd) as H.
  destruct (foldl _ _ _) as [s jobs]. destruct H as [-> ->]. cbn. split_and!; try done.
  intros id. rewrite elem_of_filter. split.
  - intros [Hn Hs]. split; [done|]. destruct (released prev next id) eqn:E; [|done]. exfalso. apply Hn.
    split; [|done]. apply Hel. unfold released, starts, asks, finishes, before, after in E.
    destruct (prev !! id), (next !! id); cbn in E; eauto; try done.
  - intros [Hs Hr]. split; [|done]. rewrite Hr. by intros [_ ?].
Qed.

(** Notifications.  Between two published snapshots, a thread notifies exactly once when
    it newly asks for input, exactly once when its turn ends without asking (unless the
    error that ended it was already notified), and never otherwise.  A suppression covers
    one ending: it is gone once the thread ends or starts working again. *)
Theorem attention_notifies_exactly_once prev next suppress id :
  let '(t, jobs) := ingest_states next (MkTracker (Some prev) suppress) in
  let mine := filter (λ j, pj_thread_id j = id) jobs in
  (asks prev next id = true → mine = [PushJob_new PkNeedsInput id]) ∧
  (asks prev next id = false → finishes prev next id = true → id ∉ suppress →
     mine = [PushJob_new PkCompleted id]) ∧
  (asks prev next id = false → finishes prev next id = true → id ∈ suppress → mine = []) ∧
  (asks prev next id = false → finishes prev next id = false → mine = []) ∧
  (id ∈ pt_suppress_completed t ↔
     id ∈ suppress ∧ starts prev next id = false ∧
     (asks prev next id = true ∨ finishes prev next id = false)).
Proof.
  pose proof (ingest_spec prev next suppress) as H.
  destruct (ingest_states _ _) as [t jobs]. destruct H as (_ & -> & Hsup). cbv zeta.
  assert (filter (λ j, pj_thread_id j = id) (omap (job_for prev next suppress) (attention_ids prev next))
    = option_list (job_for prev next suppress id)) as ->.
  { destruct (attention_ids_spec prev next) as [Hnd Hel].
    assert (id ∉ attention_ids prev next → job_for prev next suppress id = None) as Hno.
    { rewrite Hel. unfold job_for, asks, finishes, before, after.
      destruct (prev !! id) eqn:E1, (next !! id) eqn:E2; cbn; try done; intros Hn; exfalso; apply Hn; eauto. }
    clear Hel. revert Hno. induction (attention_ids prev next) as [|x l IH]; intros Hno.
    { rewrite Hno by apply not_elem_of_nil. done. }
    apply NoDup_cons in Hnd as [Hx Hnd].
    assert (∀ y j, job_for prev next suppress y = Some j → pj_thread_id j = y) as Hj.
    { intros y j. unfold job_for. repeat case_match; naive_solver. }
    destruct (decide (x = id)) as [->|Hne].
    - assert (filter (λ j, pj_thread_id j = id) (omap (job_for prev next suppress) l) = []) as Hl.
      { apply elem_of_nil_inv. intros j [Hji (y & Hy & Hjy)%list_elem_of_omap]%list_elem_of_filter.
        apply Hj in Hjy. congruence. }
      cbn. destruct (job_for prev next suppress id) as [j|] eqn:Ej; [|done].
      rewrite filter_cons, decide_True, Hl by (by apply Hj). done.
    - cbn. specialize (IH Hnd). assert (id ∉ l → job_for prev next suppress id = None) as Hno'.
      { intros. apply Hno. set_solver. }
      destruct (job_for prev next suppress x) as [j|] eqn:Ej; [|auto].
      rewrite filter_cons, decide_False; [auto|]. apply Hj in Ej. congruence. }
  split_and!.
  - intros Ha. unfold job_for. by rewrite Ha.
  - intros Ha Hf Hs. unfold job_for. rewrite Ha, Hf, decide_False; done.
  - intros Ha Hf Hs. unfold job_for. rewrite Ha, Hf, decide_True; done.
  - intros Ha Hf. unfold job_for. by rewrite Ha, Hf.
  - rewrite Hsup. unfold released. destruct (starts prev next id), (asks prev next id), (finishes prev next id);
      cbn; naive_solver.
Qed.

(** A host name with its root dot passes the check although it names the relay's own
    machine. *)
Example rooted_localhost_is_accepted :
  let parse : UrlParser := λ u, if decide (u = "https://localhost./push")
                                then Some ("https", Some (HostDomain "localhost.")) else None in
  @is_acceptable_push_endpoint parse "https://localhost./push" = true.
Proof. by vm_compute. Qed.
