(* ===== verification/ThreadState.v ===== *)
(** * The threads of the relay: state and transcript writes
      (crates/relay-server/src/state/relay.rs, state/relay/transcript.rs)

    [ThreadState] is the part of [RelayState] that follows threads: the runtimes, the
    clock every transcript revision is drawn from, the fields that mirror the selected
    runtime, the thread list and what is remembered per thread.  [ts_surfaces] is the
    part modelled in [Surfaces]; its [sf_active_thread_id] and [sf_runtime_cwds] stand
    for fields this record owns, and [surface_view] reads them from here.  [ts_notified]
    counts [notify]. *)

From Stdlib Require Import ZArith Lia Ascii String.
From S2P Require Import Prelude RustStr Json Approvals Transcript Runtime Push.
From S2P Require Import TeamTypes Tokens Backend TeamRun TeamThreads Paths Device Retention.
From S2P Require Import WorkflowRun ReviewJob TeamTable Surfaces.

Open Scope string_scope.
Open Scope Z_scope.

(** ** State *)
Record ThreadWorkspace : Type := MkWorkspace {
  tw_pinned : option string;
  tw_proven : option string;
  tw_proven_at : option Z
}.
#[export] Instance ThreadWorkspace_expand : Expand ThreadWorkspace := λ w,
  MkWorkspace (tw_pinned w) (tw_proven w) (tw_proven_at w).
#[export] Instance ThreadWorkspace_eq_dec : EqDecision ThreadWorkspace.
Proof. solve_decision. Defined.

Record ProjectView : Type := MkProject {
  pv_id : string;
  pv_name : string;
  pv_instructions : option string
}.
#[export] Instance ProjectView_expand : Expand ProjectView := λ p,
  MkProject (pv_id p) (pv_name p) (pv_instructions p).

Record ReviewerThread : Type := MkReviewer {
  rv_parent_thread_id : string;
  rv_seq : Z;
  rv_navigation_visible : option bool
}.
#[export] Instance ReviewerThread_expand : Expand ReviewerThread := λ r,
  MkReviewer (rv_parent_thread_id r) (rv_seq r) (rv_navigation_visible r).

Record ModelOptionView : Type := MkModel {
  mo_model : string;
  mo_provider : string;
  mo_default_reasoning_effort : string;
  mo_is_default : bool
}.

Record ThreadState : Type := MkThreads {
  ts_notified : Z;
  ts_transcript_clock : Z;
  ts_transcript_revision : Z;
  ts_active_thread_id : option string;
  ts_active_turn_id : option string;
  ts_current_status : string;
  ts_current_phase : option string;
  ts_current_tool : option string;
  ts_last_progress_at : option Z;
  ts_active_flags : list string;
  ts_current_cwd : string;
  ts_model : string;
  ts_approval_policy : string;
  ts_sandbox : string;
  ts_reasoning_effort : string;
  ts_transcript : list TranscriptRecord;
  ts_apply_states : gmap string FileChangeApplyState;
  ts_runtimes : gmap string ThreadRuntime;
  ts_threads : list ThreadSummaryView;
  ts_thread_settings : gmap string ThreadSessionSettings;
  ts_thread_forked_from : gmap string string;
  ts_thread_promoted_from : gmap string string;
  ts_thread_workspace : gmap string ThreadWorkspace;
  ts_thread_last_activity_at : gmap string Z;
  ts_projects : gmap string ProjectView;
  ts_thread_project_id : gmap string string;
  ts_thread_custom_name : gmap string string;
  ts_threads_revision : Z;
  ts_thread_workspaces_revision : Z;
  ts_projects_revision : Z;
  ts_search_routing_hints : gmap string ThreadSummaryView;
  ts_search_routing_hint_order : list string;
  ts_locally_deleted_thread_ids : gset string;
  ts_pending_approvals : gmap string PendingApproval;
  ts_pending_ask_user_questions : gmap string PendingAskUserQuestion;
  ts_reviewer_threads : gmap string ReviewerThread;
  ts_reviewer_thread_seq : Z;
  ts_review_jobs : gmap string ReviewJob;
  ts_workflow_jobs : gmap string WorkflowRun;
  ts_team_runs : gmap string TeamRun;
  ts_orchestrator_thread_id : option string;
  ts_orchestrator_device_id : option string;
  ts_available_models : list ModelOptionView;
  ts_provider_name : string;
  ts_push : PushState;
  ts_surfaces : SurfaceState
}.
#[export] Instance ThreadState_expand : Expand ThreadState := λ s,
  MkThreads (ts_notified s) (ts_transcript_clock s) (ts_transcript_revision s)
    (ts_active_thread_id s) (ts_active_turn_id s) (ts_current_status s) (ts_current_phase s)
    (ts_current_tool s) (ts_last_progress_at s) (ts_active_flags s) (ts_current_cwd s) (ts_model s)
    (ts_approval_policy s) (ts_sandbox s) (ts_reasoning_effort s) (ts_transcript s)
    (ts_apply_states s) (ts_runtimes s) (ts_threads s) (ts_thread_settings s)
    (ts_thread_forked_from s) (ts_thread_promoted_from s) (ts_thread_workspace s)
    (ts_thread_last_activity_at s) (ts_projects s) (ts_thread_project_id s)
    (ts_thread_custom_name s) (ts_threads_revision s) (ts_thread_workspaces_revision s)
    (ts_projects_revision s) (ts_search_routing_hints s) (ts_search_routing_hint_order s)
    (ts_locally_deleted_thread_ids s) (ts_pending_approvals s) (ts_pending_ask_user_questions s)
    (ts_reviewer_threads s) (ts_reviewer_thread_seq s) (ts_review_jobs s) (ts_workflow_jobs s)
    (ts_team_runs s) (ts_orchestrator_thread_id s) (ts_orchestrator_device_id s)
    (ts_available_models s) (ts_provider_name s) (ts_push s) (ts_surfaces s).

Definition DEFAULT_MODEL : string := "gpt-5.5".
Definition DEFAULT_APPROVAL_POLICY : string := "untrusted".
Definition DEFAULT_SANDBOX : string := "workspace-write".
Definition DEFAULT_EFFORT : string := "medium".

(** [RelayState::new]. *)
Definition relay_state_new (current_cwd : string) : ThreadState :=
  MkThreads 0 0 0 None None "idle" None None None [] current_cwd DEFAULT_MODEL
    DEFAULT_APPROVAL_POLICY DEFAULT_SANDBOX DEFAULT_EFFORT [] ∅ ∅ [] ∅ ∅ ∅ ∅ ∅ ∅ ∅ ∅ 0 0 0 ∅ [] ∅ ∅ ∅
    ∅ 0 ∅ ∅ ∅ None None [] "" (MkPush false [] (MkTracker None ∅))
    (MkSurfaces None None None ∅ ∅ ∅ ∅ ∅ false false [] [] ∅ ∅ []).

(** The surface component's reading of this state. *)
Definition surface_view (s : ThreadState) : SurfaceState :=
  (ts_surfaces s) <| sf_active_thread_id := ts_active_thread_id s |>
                  <| sf_runtime_cwds := rt_current_cwd <$> ts_runtimes s |>.

Definition notify (s : ThreadState) : ThreadState := s <| ts_notified ::= λ n, u64_add n 1 |>.

Definition with_runtime (thread_id : string) (f : ThreadRuntime → ThreadRuntime) (s : ThreadState) :
    ThreadState := s <| ts_runtimes ::= alter f thread_id |>.

Definition is_active (thread_id : string) (s : ThreadState) : bool :=
  bool_decide (ts_active_thread_id s = Some thread_id).

(** ** The clock *)
Definition next_transcript_revision (s : ThreadState) : ThreadState * Z :=
  let clock := u64_saturating_add (ts_transcript_clock s) 1 in
  (s <| ts_transcript_clock := clock |>, clock).

Definition touch_thread_last_activity (now : Z) (thread_id : string) (s : ThreadState) : ThreadState :=
  s <| ts_thread_last_activity_at ::= <[thread_id := now]> |>.

(** ** Runtimes *)
Definition selected_runtime (s : ThreadState) : option ThreadRuntime :=
  ts_active_thread_id s ≫= λ id, ts_runtimes s !! id.

Definition thread_row (thread_id : string) (s : ThreadState) : option ThreadSummaryView :=
  snd <$> list_find (λ t, sm_id t = thread_id) (ts_threads s).

Definition materialize_selected_runtime_from_fields (now : Z) (s : ThreadState) : ThreadState :=
  match ts_active_thread_id s with
  | None => s
  | Some thread_id =>
      if is_some (ts_runtimes s !! thread_id) then s
      else
        let '(s, seed_revision) := next_transcript_revision s in
        let r := runtime_placeholder thread_id now seed_revision in
        let r := match thread_row thread_id s with
                 | Some summary =>
                     r <| rt_summary := Some summary |>
                       <| rt_current_cwd := if is_empty (ts_current_cwd s) then sm_cwd summary
                                            else ts_current_cwd s |>
                 | None => r <| rt_current_cwd := ts_current_cwd s |>
                 end in
        let r := r <| rt_active_turn_id := ts_active_turn_id s |>
                   <| rt_current_status := ts_current_status s |>
                   <| rt_current_phase := ts_current_phase s |>
                   <| rt_current_tool := ts_current_tool s |>
                   <| rt_last_progress_at := ts_last_progress_at s |>
                   <| rt_active_flags := ts_active_flags s |>
                   <| rt_model := ts_model s |>
                   <| rt_approval_policy := ts_approval_policy s |>
                   <| rt_sandbox := ts_sandbox s |>
                   <| rt_reasoning_effort := ts_reasoning_effort s |>
                   <| rt_transcript := ts_transcript s |>
                   <| rt_apply_states := ts_apply_states s |>
                   <| rt_pending_approvals :=
                        filter (λ e, pa_thread_id e.2 = thread_id) (ts_pending_approvals s) |>
                   <| rt_pending_ask_user_questions :=
                        filter (λ e, pq_thread_id e.2 = thread_id) (ts_pending_ask_user_questions s) |> in
        s <| ts_runtimes ::= <[thread_id := r]> |>
  end.

(** A remembered setting, or the session's when there is none. *)
Definition own_setting (remembered : option string) (session : string) : string :=
  match remembered with
  | Some v => if is_empty v then session else v
  | None => session
  end.

(** The runtime [ensure_runtime_for_thread] builds for a thread without one. *)
Definition lazy_runtime (thread_id : string) (now seed_revision : Z) (s : ThreadState) : ThreadRuntime :=
  let r := runtime_placeholder thread_id now seed_revision in
  let r := match thread_row thread_id s with
           | Some summary => r <| rt_current_status := sm_status summary |>
                               <| rt_current_cwd := sm_cwd summary |>
                               <| rt_summary := Some summary |>
           | None => r
           end in
  let r := if thread_status_is_working (rt_current_status r) then r <| rt_current_status := "idle" |>
           else r in
  let remembered := ts_thread_settings s !! thread_id in
  r <| rt_model := own_setting (ss_model <$> remembered) (ts_model s) |>
    <| rt_approval_policy := own_setting (ss_approval_policy <$> remembered) (ts_approval_policy s) |>
    <| rt_sandbox := own_setting (ss_sandbox <$> remembered) (ts_sandbox s) |>
    <| rt_reasoning_effort :=
         own_setting (ss_reasoning_effort <$> remembered) (ts_reasoning_effort s) |>.

Definition ensure_runtime_for_thread (now : Z) (thread_id : string) (s : ThreadState) : ThreadState :=
  let s := if is_active thread_id s && is_none (ts_runtimes s !! thread_id)
           then materialize_selected_runtime_from_fields now s else s in
  if is_some (ts_runtimes s !! thread_id) then s
  else
    let '(s, seed_revision) := next_transcript_revision s in
    s <| ts_runtimes ::= <[thread_id := lazy_runtime thread_id now seed_revision s]> |>.

(** The fields the rest of the relay reads, copied from the selected runtime. *)
Definition sync_selected_runtime_to_fields (s : ThreadState) : ThreadState :=
  match selected_runtime s with
  | None =>
      s <| ts_transcript_revision := ts_transcript_clock s |>
        <| ts_active_turn_id := None |>
        <| ts_current_status := "idle" |>
        <| ts_current_phase := None |>
        <| ts_current_tool := None |>
        <| ts_last_progress_at := None |>
        <| ts_active_flags := [] |>
        <| ts_transcript := [] |>
        <| ts_apply_states := ∅ |>
  | Some r =>
      s <| ts_transcript_revision := rt_transcript_revision r |>
        <| ts_active_turn_id := rt_active_turn_id r |>
        <| ts_current_status := rt_current_status r |>
        <| ts_current_phase := rt_current_phase r |>
        <| ts_current_tool := rt_current_tool r |>
        <| ts_last_progress_at := rt_last_progress_at r |>
        <| ts_active_flags := rt_active_flags r |>
        <| ts_current_cwd := rt_current_cwd r |>
        <| ts_model := rt_model r |>
        <| ts_approval_policy := rt_approval_policy r |>
        <| ts_sandbox := rt_sandbox r |>
        <| ts_reasoning_effort := rt_reasoning_effort r |>
        <| ts_transcript := rt_transcript r |>
        <| ts_apply_states := rt_apply_states r |>
  end.

(** The closing step of every write to a thread. *)
Definition sync_if_active (thread_id : string) (s : ThreadState) : ThreadState :=
  if is_active thread_id s then sync_selected_runtime_to_fields s else s.

Definition bump_thread_transcript_revision (now : Z) (thread_id : string) (s : ThreadState) :
    ThreadState * (Z * Z) :=
  let s := touch_thread_last_activity now thread_id s in
  let s := if is_some (ts_runtimes s !! thread_id) then s
           else ensure_runtime_for_thread now thread_id s in
  let '(s, revision) := next_transcript_revision s in
  let base_revision := default 0 (rt_transcript_revision <$> ts_runtimes s !! thread_id) in
  let s := with_runtime thread_id (λ r, r <| rt_transcript_revision := revision |>) s in
  let s := if is_active thread_id s then s <| ts_transcript_revision := revision |> else s in
  (s, (base_revision, revision)).

(** ** Transcript writes *)
Definition stamp_transcript_item_seq (thread_id item_id : string) (revision : Z) (s : ThreadState) :
    ThreadState :=
  with_runtime thread_id (λ r,
    r <| rt_transcript ::= λ l,
      match tx_position item_id l with
      | Some i => alter (λ e, e <| tx_seq := Some revision |>) i l
      | None => l
      end |>) s.

Definition runtime_transcript (thread_id : string) (s : ThreadState) : list TranscriptRecord :=
  default [] (rt_transcript <$> ts_runtimes s !! thread_id).

Definition set_runtime_transcript (thread_id : string) (l : list TranscriptRecord) (s : ThreadState) :
    ThreadState := with_runtime thread_id (λ r, r <| rt_transcript := l |>) s.

Definition upsert_transcript_item_for_thread (now : Z) (thread_id : string) (w : EntryWrite)
    (s : ThreadState) : ThreadState * TranscriptMutationMeta :=
  let s := ensure_runtime_for_thread now thread_id s in
  let '(l, entry_seq) := upsert_in w (runtime_transcript thread_id s) in
  let s := set_runtime_transcript thread_id l s in
  let '(s, (base_revision, revision)) := bump_thread_transcript_revision now thread_id s in
  let s := stamp_transcript_item_seq thread_id (ew_item_id w) revision s in
  (sync_if_active thread_id s, MkMeta base_revision revision entry_seq now None false).

Definition append_agent_delta_for_thread (now : Z) (thread_id item_id delta turn_id : string)
    (s : ThreadState) : ThreadState * TranscriptMutationMeta :=
  let s := ensure_runtime_for_thread now thread_id s in
  let '(l, entry_seq, text_offset) := append_agent_in item_id delta turn_id (runtime_transcript thread_id s) in
  let s := set_runtime_transcript thread_id l s in
  let '(s, (base_revision, revision)) := bump_thread_transcript_revision now thread_id s in
  (sync_if_active thread_id s, MkMeta base_revision revision entry_seq now (Some text_offset) false).

Definition append_command_delta_for_thread (now : Z) (thread_id item_id delta : string)
    (s : ThreadState) : ThreadState * TranscriptMutationMeta :=
  let s := ensure_runtime_for_thread now thread_id s in
  let '(l, entry_seq, separator) := append_command_in item_id delta (runtime_transcript thread_id s) in
  let s := set_runtime_transcript thread_id l s in
  let '(s, (base_revision, revision)) := bump_thread_transcript_revision now thread_id s in
  (sync_if_active thread_id s, MkMeta base_revision revision entry_seq now None separator).

Definition start_agent_message_for_thread (now : Z) (thread_id item_id turn_id : string)
    (s : ThreadState) : ThreadState :=
  (upsert_transcript_item_for_thread now thread_id
     (MkWrite item_id EkAgentText (Some "") "streaming" (Some turn_id) None) s).1.

Definition complete_agent_message_for_thread (now : Z) (thread_id item_id text turn_id : string)
    (s : ThreadState) : ThreadState :=
  (upsert_transcript_item_for_thread now thread_id
     (MkWrite item_id EkAgentText (Some text) "completed" (Some turn_id) None) s).1.

Definition upsert_user_message_for_thread (now : Z) (thread_id item_id text turn_id : string)
    (s : ThreadState) : ThreadState :=
  (upsert_transcript_item_for_thread now thread_id
     (MkWrite item_id EkUserText (Some text) "completed" (Some turn_id) None) s).1.

Definition start_command_execution_for_thread (now : Z)
    (thread_id item_id command status turn_id : string) (s : ThreadState) : ThreadState :=
  (upsert_transcript_item_for_thread now thread_id
     (MkWrite item_id EkCommand (Some command) status (Some turn_id) None) s).1.

Definition set_file_change_apply_state_for_thread (now : Z) (thread_id item_id : string)
    (state : FileChangeApplyState) (s : ThreadState) : ThreadState * bool :=
  let s := ensure_runtime_for_thread now thread_id s in
  if is_none (tx_position item_id (runtime_transcript thread_id s)) then (s, false)
  else
    let s := with_runtime thread_id (λ r, r <| rt_apply_states ::= <[item_id := state]> |>) s in
    let '(s, _) := bump_thread_transcript_revision now thread_id s in
    (sync_if_active thread_id s, true).

Definition set_transcript_item_status_for_thread (now : Z) (thread_id item_id status : string)
    (s : ThreadState) : ThreadState * bool :=
  let s := ensure_runtime_for_thread now thread_id s in
  match set_entry_status item_id status (runtime_transcript thread_id s) with
  | None => (s, false)
  | Some l =>
      let s := set_runtime_transcript thread_id l s in
      let '(s, _) := bump_thread_transcript_revision now thread_id s in
      (sync_if_active thread_id s, true)
  end.

(** ** Writes without an active thread

    Before a thread is selected the relay keeps one transcript of its own, on the same
    clock. *)
Definition bump_legacy_revision (s : ThreadState) : ThreadState * (Z * Z) :=
  let base_revision := ts_transcript_revision s in
  let '(s, revision) := next_transcript_revision s in
  (s <| ts_transcript_revision := revision |>, (base_revision, revision)).

Definition bump_transcript_revision (now : Z) (s : ThreadState) : ThreadState * (Z * Z) :=
  match ts_active_thread_id s with
  | None => bump_legacy_revision s
  | Some thread_id => bump_thread_transcript_revision now thread_id s
  end.

Definition upsert_transcript_item_legacy (now : Z) (w : EntryWrite) (s : ThreadState) :
    ThreadState * TranscriptMutationMeta :=
  let '(l, entry_seq) := upsert_in w (ts_transcript s) in
  let '(s, (base_revision, revision)) := bump_transcript_revision now s in
  let l := match tx_position (ew_item_id w) l with
           | Some i => alter (λ e, e <| tx_seq := Some revision |>) i l
           | None => l
           end in
  (s <| ts_transcript := l |>, MkMeta base_revision revision entry_seq now None false).

Definition upsert_transcript_item (now : Z) (w : EntryWrite) (s : ThreadState) :
    ThreadState * TranscriptMutationMeta :=
  match ts_active_thread_id s with
  | None => upsert_transcript_item_legacy now w s
  | Some thread_id => upsert_transcript_item_for_thread now thread_id w s
  end.
