(* ===== verification/ThreadTurns.v ===== *)
(** * Turns, requests and background events
      (crates/relay-server/src/state/relay.rs, state/relay/background.rs, transcript.rs)

    Turn liveness (start, progress, stall, the death of a provider), the requests an
    agent waits on, the events of threads that are not selected, and what a turn cost or
    why it failed. *)

From Stdlib Require Import ZArith Lia Ascii String.
From S2P Require Import Prelude RustStr Json Approvals Transcript Runtime Push.
From S2P Require Import Device Surfaces ThreadState.

Open Scope string_scope.
Open Scope Z_scope.

(** ** Requests *)
Definition drop_pending_requests_for_thread (thread_id : string) (s : ThreadState) : ThreadState :=
  with_runtime thread_id (λ r, r <| rt_pending_approvals := ∅ |> <| rt_pending_ask_user_questions := ∅ |>)
    (s <| ts_pending_approvals ::= filter (λ e, pa_thread_id e.2 ≠ thread_id) |>
       <| ts_pending_ask_user_questions ::= filter (λ e, pq_thread_id e.2 ≠ thread_id) |>).

Definition add_pending_approval (now : Z) (p : PendingApproval) (s : ThreadState) : ThreadState :=
  let s := if is_empty (pa_thread_id p) then s
           else with_runtime (pa_thread_id p)
                  (λ r, r <| rt_pending_approvals ::= <[pa_request_id p := p]> |>)
                  (ensure_runtime_for_thread now (pa_thread_id p) s) in
  s <| ts_pending_approvals ::= <[pa_request_id p := p]> |>.

Definition remove_pending_approval (request_id : string) (s : ThreadState) :
    ThreadState * option PendingApproval :=
  match ts_pending_approvals s !! request_id with
  | None => (s, None)
  | Some p =>
      let s := s <| ts_pending_approvals ::= delete request_id |> in
      (if is_empty (pa_thread_id p) then s
       else with_runtime (pa_thread_id p) (λ r, r <| rt_pending_approvals ::= delete request_id |>) s,
       Some p)
  end.

Definition add_pending_ask_user_question (now : Z) (p : PendingAskUserQuestion) (s : ThreadState) :
    ThreadState :=
  let s := if is_empty (pq_thread_id p) then s
           else with_runtime (pq_thread_id p)
                  (λ r, r <| rt_pending_ask_user_questions ::= <[pq_request_id p := p]> |>)
                  (ensure_runtime_for_thread now (pq_thread_id p) s) in
  s <| ts_pending_ask_user_questions ::= <[pq_request_id p := p]> |>.

Definition remove_pending_ask_user_question (request_id : string) (s : ThreadState) :
    ThreadState * option PendingAskUserQuestion :=
  match ts_pending_ask_user_questions s !! request_id with
  | None => (s, None)
  | Some p =>
      let s := s <| ts_pending_ask_user_questions ::= delete request_id |> in
      (if is_empty (pq_thread_id p) then s
       else with_runtime (pq_thread_id p)
              (λ r, r <| rt_pending_ask_user_questions ::= delete request_id |>) s,
       Some p)
  end.

(** ** Status *)

(** [iter_mut().find(..)]: the first row of the thread. *)
Definition alter_row (thread_id : string) (f : ThreadSummaryView → ThreadSummaryView)
    (l : list ThreadSummaryView) : list ThreadSummaryView :=
  match list_find (λ t, sm_id t = thread_id) l with
  | Some (i, _) => alter f i l
  | None => l
  end.

Definition set_thread_status (now : Z) (thread_id status : string) (active_flags : list string)
    (s : ThreadState) : ThreadState :=
  let s := ensure_runtime_for_thread now thread_id s in
  let settled := thread_status_is_settled status in
  let s := with_runtime thread_id (λ r,
             let r := r <| rt_current_status := status |> <| rt_active_flags := active_flags |> in
             let r := if settled then r <| rt_current_phase := None |> <| rt_current_tool := None |>
                      else r in
             rt_touch now r) s in
  let s := if settled then drop_pending_requests_for_thread thread_id s else s in
  let s := s <| ts_threads ::= alter_row thread_id (λ t, t <| sm_status := status |>) |> in
  sync_if_active thread_id s.

(** ** Progress *)
Definition touch_thread_progress (now : Z) (thread_id : string) (phase tool : option string)
    (s : ThreadState) : ThreadState :=
  sync_if_active thread_id
    (with_runtime thread_id (λ r,
       let r := r <| rt_last_progress_at := Some now |>
                  <| rt_liveness_timed_out := false |>
                  <| rt_liveness_stop_requested := false |> in
       let r := rt_touch now r in
       let r := match phase with Some p => r <| rt_current_phase := Some p |> | None => r end in
       match tool with Some t => r <| rt_current_tool := Some t |> | None => r end)
     (ensure_runtime_for_thread now thread_id s)).

Definition touch_progress (now : Z) (phase tool : option string) (s : ThreadState) : ThreadState :=
  match ts_active_thread_id s with
  | Some thread_id => touch_thread_progress now thread_id phase tool s
  | None =>
      let s := s <| ts_last_progress_at := Some now |> in
      let s := match phase with Some p => s <| ts_current_phase := Some p |> | None => s end in
      match tool with Some t => s <| ts_current_tool := Some t |> | None => s end
  end.

Definition clear_thread_progress (now : Z) (thread_id : string) (s : ThreadState) : ThreadState :=
  sync_if_active thread_id
    (with_runtime thread_id (λ r,
       rt_touch now (r <| rt_current_phase := None |>
                       <| rt_current_tool := None |>
                       <| rt_last_progress_at := None |>
                       <| rt_liveness_timed_out := false |>
                       <| rt_liveness_stop_requested := false |>))
     (ensure_runtime_for_thread now thread_id s)).

Definition clear_progress (now : Z) (s : ThreadState) : ThreadState :=
  match ts_active_thread_id s with
  | Some thread_id => clear_thread_progress now thread_id s
  | None => s <| ts_current_phase := None |> <| ts_current_tool := None |>
              <| ts_last_progress_at := None |>
  end.

(** ** Turns *)

(** The title shown in a notification. *)
Definition thread_display_name (thread_id : string) (s : ThreadState) : option string :=
  thread_row thread_id s ≫= λ t, n ← sm_name t; if is_blank n then None else Some (trim n).


(** What both ways of setting a turn write to the runtime. *)
Definition set_turn (now : Z) (turn_id : option string) (r : ThreadRuntime) : ThreadRuntime :=
  note_turn_event
    (r <| rt_active_turn_id := turn_id |>
       <| rt_liveness_timed_out := false |>
       <| rt_liveness_stop_requested := false |>
       <| rt_last_progress_at := (λ _, now) <$> turn_id |>).

Definition set_active_turn (now : Z) (turn_id : option string) (s : ThreadState) : ThreadState :=
  sync_selected_runtime_to_fields
    match ts_active_thread_id s with
    | Some thread_id =>
        with_runtime thread_id (λ r, rt_touch now (set_turn now turn_id r))
          (ensure_runtime_for_thread now thread_id s)
    | None => s
    end.

Definition expire_stale_turn_liveness (now : Z) (s : ThreadState) : ThreadState * list string :=
  let expire := expire_stale_liveness now STALE_TURN_PROGRESS_TIMEOUT_SECS in
  let expired := (map_to_list (filter (λ e, (expire e.2).2 = true) (ts_runtimes s))).*1 in
  let s := s <| ts_runtimes ::= fmap (λ r, (expire r).1) |> in
  match expired with
  | [] => (s, [])
  | _ =>
      let s := sync_selected_runtime_to_fields s in
      (foldl (λ s thread_id,
         s <| ts_push ::= enqueue_error_push thread_id "stalled with no progress; the turn was stopped."
                (thread_display_name thread_id s) |>) s expired, expired)
  end.

Definition stop_candidate (r : ThreadRuntime) : option string :=
  if rt_liveness_timed_out r && negb (rt_liveness_stop_requested r) then rt_active_turn_id r else None.

Definition stale_turn_stop_candidates (s : ThreadState) : list (string * string) :=
  omap (λ e, (λ turn_id, (e.1, turn_id)) <$> stop_candidate e.2) (map_to_list (ts_runtimes s)).

Definition mark_stale_turn_stop_requested (thread_id turn_id : string) (s : ThreadState) : ThreadState :=
  with_runtime thread_id (λ r,
    if rt_liveness_timed_out r && bool_decide (rt_active_turn_id r = Some turn_id)
    then r <| rt_liveness_stop_requested := true |> else r) s.

(** ** Background events *)
Definition drop_bg_event_for_deleted_thread (thread_id : string) (s : ThreadState) : bool :=
  bool_decide (thread_id ∈ ts_locally_deleted_thread_ids s).

Definition touch_bg_progress_at (clock : Z) (thread_id : string) (now : Z) (s : ThreadState) :
    ThreadState :=
  let s := ensure_runtime_for_thread clock thread_id s in
  if is_some (ts_runtimes s !! thread_id ≫= rt_active_turn_id) then
    sync_if_active thread_id
      (with_runtime thread_id (λ r, r <| rt_last_progress_at := Some now |>
                                      <| rt_liveness_timed_out := false |>
                                      <| rt_liveness_stop_requested := false |>) s)
  else s.

Definition queue_background_transcript_delta (thread_id item_id delta : string)
    (turn_id : option string) (kind : TranscriptDeltaKind) (m : TranscriptMutationMeta)
    (s : ThreadState) : ThreadState :=
  if any_device_watches_thread thread_id (surface_view s) then
    s <| ts_surfaces ::= queue_broker_message (TranscriptDelta
           (MkDelta thread_id (mm_base_revision m) (mm_revision m) (mm_entry_seq m)
              (mm_server_time m) item_id turn_id delta kind (mm_text_offset m))) |>
  else s.

(** The shape of every handler: nothing for a deleted thread, else the write and the
    progress stamp.  [clock] is [unix_now()], [now] the event's time. *)
Definition bg_event (clock : Z) (thread_id : string) (now : Z) (f : ThreadState → ThreadState)
    (s : ThreadState) : ThreadState :=
  if drop_bg_event_for_deleted_thread thread_id s then s
  else touch_bg_progress_at clock thread_id now (f s).

Definition bg_append_agent_delta (clock : Z) (thread_id item_id delta turn_id : string) (now : Z) :
    ThreadState → ThreadState :=
  bg_event clock thread_id now (λ s,
    let '(s, m) := append_agent_delta_for_thread clock thread_id item_id delta turn_id s in
    queue_background_transcript_delta thread_id item_id delta (Some turn_id) AgentText m s).

Definition bg_append_command_delta (clock : Z) (thread_id item_id delta : string) (now : Z) :
    ThreadState → ThreadState :=
  bg_event clock thread_id now (λ s,
    let '(s, m) := append_command_delta_for_thread clock thread_id item_id delta s in
    queue_background_transcript_delta thread_id item_id (wire_delta m delta) None CommandOutput m s).

Definition bg_start_agent_message (clock : Z) (thread_id item_id turn_id : string) (now : Z) :
    ThreadState → ThreadState :=
  bg_event clock thread_id now (start_agent_message_for_thread clock thread_id item_id turn_id).

Definition bg_complete_agent_message (clock : Z) (thread_id item_id text turn_id : string) (now : Z) :
    ThreadState → ThreadState :=
  bg_event clock thread_id now (complete_agent_message_for_thread clock thread_id item_id text turn_id).

Definition bg_upsert_user_message (clock : Z) (thread_id item_id text turn_id : string) (now : Z) :
    ThreadState → ThreadState :=
  bg_event clock thread_id now (upsert_user_message_for_thread clock thread_id item_id text turn_id).

Definition bg_start_command_execution (clock : Z) (thread_id item_id command status turn_id : string)
    (now : Z) : ThreadState → ThreadState :=
  bg_event clock thread_id now
    (start_command_execution_for_thread clock thread_id item_id command status turn_id).

(** The command line, then its output when there is some. *)
Definition command_text (command : string) (output : option string) : string :=
  let out := trim (default "" output) in
  if is_empty out then command else command +:+ newline +:+ out.

Definition bg_add_command_result (clock : Z) (thread_id item_id command : string)
    (output : option string) (status turn_id : string) (now : Z) : ThreadState → ThreadState :=
  bg_event clock thread_id now (λ s,
    (upsert_transcript_item_for_thread clock thread_id
       (MkWrite item_id EkCommand (Some (command_text command output)) status (Some turn_id) None) s).1).

Definition bg_upsert_transcript_item (clock : Z) (thread_id : string) (w : EntryWrite) (now : Z) :
    ThreadState → ThreadState :=
  bg_event clock thread_id now (λ s, (upsert_transcript_item_for_thread clock thread_id w s).1).

Definition bg_upsert_turn_diff_item (clock : Z) (thread_id item_id : string) (text : option string)
    (status : string) (turn_id : option string) (tool : option ToolCallView) (now : Z) :
    ThreadState → ThreadState :=
  bg_upsert_transcript_item clock thread_id (MkWrite item_id EkToolCall text status turn_id tool) now.

Definition bg_set_transcript_item_status (clock : Z) (thread_id item_id status : string) (now : Z) :
    ThreadState → ThreadState :=
  bg_event clock thread_id now (λ s,
    (set_transcript_item_status_for_thread clock thread_id item_id status s).1).

Definition bg_set_thread_status (clock : Z) (thread_id status : string) (active_flags : list string)
    (now : Z) : ThreadState → ThreadState :=
  bg_event clock thread_id now (set_thread_status clock thread_id status active_flags).

Definition bg_set_active_turn (clock : Z) (thread_id : string) (turn_id : option string) (now : Z)
    (s : ThreadState) : ThreadState :=
  if drop_bg_event_for_deleted_thread thread_id s then s
  else
    notify (sync_if_active thread_id
      (with_runtime thread_id (λ r,
         let r := set_turn now turn_id r in
         if is_none turn_id then r <| rt_current_phase := None |> <| rt_current_tool := None |> else r)
       (ensure_runtime_for_thread clock thread_id s))).

(** ** The death of a provider *)
Definition stuck_on (provider : string) (r : ThreadRuntime) : bool :=
  is_some (rt_active_turn_id r)
  && match rt_summary r with
     | Some sm => bool_decide (sm_provider sm = provider)
     | None => false
     end.

(** One iteration of the loop. *)
Definition fail_in_flight_turn (now : Z) (s : ThreadState) (thread_id : string) : ThreadState :=
  let s :=
    if is_active thread_id s then
      clear_progress now (set_thread_status now thread_id "idle" [] (set_active_turn now None s))
    else
      bg_set_thread_status now thread_id "idle" [] now (bg_set_active_turn now thread_id None now s) in
  s <| ts_push ::= enqueue_error_push thread_id "stopped unexpectedly — the agent exited."
         (thread_display_name thread_id s) |>.

Definition fail_in_flight_turns_for_provider (now : Z) (provider : string) (s : ThreadState) :
    ThreadState :=
  let stuck_threads := (map_to_list (filter (λ e, stuck_on provider e.2 = true) (ts_runtimes s))).*1 in
  foldl (fail_in_flight_turn now) s stuck_threads.

(** ** What a turn cost, and why it failed *)
Definition set_last_turn_failure (thread_id turn_id : string) (kind : option TurnFailureKind)
    (reason : string) (s : ThreadState) : ThreadState :=
  with_runtime thread_id (λ r, r <| rt_last_turn_failure := Some (MkTurnFailure turn_id kind reason) |>) s.

(** [billed] is [usage.total.max(usage.sum_of_parts())]. *)
Definition note_turn_spend (thread_id : string) (turn_id : option string) (billed : Z) (failed : bool)
    (s : ThreadState) : ThreadState :=
  match turn_id with
  | None => s
  | Some turn_id =>
      with_runtime thread_id (λ r,
        r <| rt_last_turn_spend ::= λ spend,
          match spend with
          | Some sp =>
              if decide (tsp_turn_id sp = turn_id)
              then Some (MkTurnSpend turn_id (u64_saturating_add (tsp_billed sp) billed)
                           (tsp_failed sp || failed))
              else Some (MkTurnSpend turn_id billed failed)
          | None => Some (MkTurnSpend turn_id billed failed)
          end |>) s
  end.

Definition mark_turn_spend_failed (thread_id turn_id : string) (s : ThreadState) : ThreadState :=
  if is_empty turn_id then s
  else with_runtime thread_id (λ r,
    r <| rt_last_turn_spend ::= λ spend,
      match spend with
      | Some sp => if decide (tsp_turn_id sp = turn_id)
                   then Some (MkTurnSpend turn_id (tsp_billed sp) true) else Some sp
      | None => None
      end |>) s.
