(* ===== verification/ThreadRows.v ===== *)
(** * Rows, titles, projects, workspaces and reviewer identities
      (crates/relay-server/src/state/relay.rs)

    What the relay remembers of a thread outside its runtime: the row of the thread list,
    the title the user chose, the project it is filed under, its working tree, how search
    found it, whether it is a reviewer, and which thread is the orchestrator's. *)

From Stdlib Require Import ZArith Lia Ascii String.
From stdpp Require Import sorting.
From S2P Require Import Prelude RustStr Json Approvals Transcript Runtime Push.
From S2P Require Import TeamTypes Tokens Backend TeamRun TeamThreads Device WorkflowRun ReviewJob.
From S2P Require Import TeamTable Surfaces ThreadState ThreadTurns.

Open Scope string_scope.
Open Scope Z_scope.

Definition MAX_SEARCH_ROUTING_HINTS : nat := 2000.
Definition MAX_REVIEWERS_PER_PARENT : nat := 5.

(** ** Activity *)
Definition observe_thread_last_activity (thread_id : string) (activity_at : Z) (s : ThreadState) :
    ThreadState :=
  s <| ts_thread_last_activity_at ::= λ m,
    <[thread_id := Z.max (default activity_at (m !! thread_id)) activity_at]> m |>.

Definition seed_thread_last_activity (thread_id : string) (updated_at : Z) (s : ThreadState) :
    ThreadState :=
  s <| ts_thread_last_activity_at ::= λ m,
    if is_some (m !! thread_id) then m else <[thread_id := updated_at]> m |>.

Definition thread_last_activity_or (thread_id : string) (provider_updated_at : Z) (s : ThreadState) : Z :=
  default provider_updated_at (ts_thread_last_activity_at s !! thread_id).

(** ** Titles *)
Definition apply_custom_thread_name (s : ThreadState) (t : ThreadSummaryView) : ThreadSummaryView :=
  match ts_thread_custom_name s !! sm_id t with
  | Some name => t <| sm_name := Some name |> <| sm_renamed := true |>
  | None => t <| sm_renamed := false |>
  end.

Definition overlay_name (name : option string) (t : ThreadSummaryView) : ThreadSummaryView :=
  t <| sm_renamed := is_some name |> <| sm_name := name |>.

Definition refresh_custom_thread_name (thread_id : string) (s : ThreadState) : ThreadState :=
  let name := ts_thread_custom_name s !! thread_id in
  with_runtime thread_id (λ r, r <| rt_summary ::= fmap (overlay_name name) |>)
    (s <| ts_threads ::= map (λ t, if decide (sm_id t = thread_id) then overlay_name name t else t) |>).

Definition set_thread_custom_name (thread_id : string) (name : option string) (s : ThreadState) :
    ThreadState * bool :=
  let previous := ts_thread_custom_name s !! thread_id in
  let '(s, changed) :=
    match name with
    | Some name => (s <| ts_thread_custom_name ::= <[thread_id := name]> |>,
                    negb (bool_decide (previous = Some name)))
    | None => (s <| ts_thread_custom_name ::= delete thread_id |>, is_some previous)
    end in
  if changed then
    ((refresh_custom_thread_name thread_id s) <| ts_threads_revision ::= λ n, u64_add n 1 |>, true)
  else (s, false).

(** The one entry whose pending id is [thread_id], as the map's iteration meets it. *)
Definition resolve_promoted_thread_id (thread_id : string) (s : ThreadState) : string :=
  if negb (starts_with "claude-pending-" thread_id) then thread_id
  else match list_find (λ e, e.2 = thread_id) (map_to_list (ts_thread_promoted_from s)) with
       | Some (_, (real_id, _)) => real_id
       | None => thread_id
       end.

(** ** Search hints *)
Fixpoint evict_hints (excess : nat) (order : list string) (m : gmap string ThreadSummaryView) :
    list string * gmap string ThreadSummaryView :=
  match excess, order with
  | S n, id :: order => evict_hints n order (delete id m)
  | _, _ => (order, m)
  end.

Definition remember_search_routing_hint (t : ThreadSummaryView) (s : ThreadState) : ThreadState :=
  if is_empty (sm_id t) then s
  else
    let known := is_some (ts_search_routing_hints s !! sm_id t) in
    let hints := <[sm_id t := t]> (ts_search_routing_hints s) in
    let order := if known then ts_search_routing_hint_order s
                 else (ts_search_routing_hint_order s ++ [sm_id t])%list in
    let '(order, hints) := evict_hints (length order - MAX_SEARCH_ROUTING_HINTS) order hints in
    s <| ts_search_routing_hints := hints |> <| ts_search_routing_hint_order := order |>.

Definition forget_search_routing_hint (thread_id : string) (s : ThreadState) : ThreadState :=
  if is_some (ts_search_routing_hints s !! thread_id) then
    s <| ts_search_routing_hints ::= delete thread_id |>
      <| ts_search_routing_hint_order ::= filter (λ id, id ≠ thread_id) |>
  else s.

(** ** Workspaces *)
Definition no_workspace : ThreadWorkspace := MkWorkspace None None None.

Definition workspace_is_empty (w : ThreadWorkspace) : bool := is_none (tw_pinned w) && is_none (tw_proven w).

Definition thread_workspace (thread_id : string) (s : ThreadState) : ThreadWorkspace :=
  default no_workspace (ts_thread_workspace s !! thread_id).

(** An entry is kept only while it says something. *)
Definition store_workspace (thread_id : string) (w : ThreadWorkspace) (s : ThreadState) : ThreadState :=
  s <| ts_thread_workspace ::= if workspace_is_empty w then delete thread_id else <[thread_id := w]> |>.

Definition set_thread_workspace (thread_id : string) (cwd : option string) (s : ThreadState) :
    ThreadState * bool :=
  let entry := thread_workspace thread_id s in
  if decide (tw_pinned entry = cwd) then (store_workspace thread_id entry s, false)
  else ((store_workspace thread_id (entry <| tw_pinned := cwd |>) s)
          <| ts_thread_workspaces_revision ::= λ n, u64_add n 1 |>, true).

Definition record_proven_thread_workspace_at (thread_id tree : string) (at_ : Z) (s : ThreadState) :
    ThreadState :=
  let entry := thread_workspace thread_id s in
  let s := s <| ts_thread_workspace ::= <[thread_id := entry]> |> in
  if match tw_proven_at entry with Some current => at_ <? current | None => false end then s
  else if bool_decide (tw_proven entry = Some tree) && bool_decide (tw_proven_at entry = Some at_)
  then s
  else
    let path_changed := negb (bool_decide (tw_proven entry = Some tree)) in
    let s := s <| ts_thread_workspace ::=
                 <[thread_id := entry <| tw_proven := Some tree |> <| tw_proven_at := Some at_ |>]> |> in
    notify (if path_changed then s <| ts_thread_workspaces_revision ::= λ n, u64_add n 1 |> else s).

Definition observe_thread_cwd (thread_id cwd : string) (s : ThreadState) : ThreadState :=
  if is_empty thread_id || is_empty cwd then s
  else let '(s, at_) := next_transcript_revision s in
       record_proven_thread_workspace_at thread_id cwd at_ s.

Definition record_proven_thread_workspace (thread_id tree : string) (s : ThreadState) : ThreadState :=
  if bool_decide (tw_proven (thread_workspace thread_id s) = Some tree) then s
  else let '(s, at_) := next_transcript_revision s in
       record_proven_thread_workspace_at thread_id tree at_ s.

Definition record_inferred_thread_workspace (thread_id tree : string) (at_ : option Z)
    (s : ThreadState) : ThreadState :=
  record_proven_thread_workspace_at thread_id tree (default 0 at_) s.

(** ** Reviewers *)
Definition step_thread_ids (m : gmap string WorkflowRun) : list string :=
  concat (map (λ e, (map_to_list (wr_step_threads e.2)).*2) (map_to_list m)).

Definition collect_reviewer_thread_ids (s : ThreadState) : gset string :=
  dom (ts_reviewer_threads s)
  ∪ list_to_set (omap (λ e, rj_reviewer_thread_id e.2) (map_to_list (ts_review_jobs s)))
  ∪ list_to_set (step_thread_ids (ts_workflow_jobs s)).

Definition navigation_hidden_reviewer_thread_ids (s : ThreadState) : gset string :=
  collect_reviewer_thread_ids s ∖
  dom (filter (λ e, rv_navigation_visible e.2 = Some true) (ts_reviewer_threads s)).

Definition is_task_reviewer_thread (thread_id : string) (s : ThreadState) : bool :=
  match ts_reviewer_threads s !! thread_id with
  | Some r => bool_decide (rv_navigation_visible r = Some true)
  | None => false
  end.

(** [+= 1] on the counter; the release build wraps. *)
Definition register_reviewer_thread_with_navigation (reviewer_id parent_id : string) (visible : bool)
    (s : ThreadState) : ThreadState :=
  let seq := ts_reviewer_thread_seq s in
  s <| ts_reviewer_thread_seq := u64_add seq 1 |>
    <| ts_reviewer_threads ::= <[reviewer_id := MkReviewer parent_id seq (Some visible)]> |>.

Definition register_reviewer_thread (reviewer_id parent_id : string) : ThreadState → ThreadState :=
  register_reviewer_thread_with_navigation reviewer_id parent_id false.
Definition register_task_reviewer_thread (reviewer_id parent_id : string) : ThreadState → ThreadState :=
  register_reviewer_thread_with_navigation reviewer_id parent_id true.

Definition migrate_task_reviewer_navigation_visibility (s : ThreadState) : ThreadState :=
  if bool_decide (filter (λ e, rv_navigation_visible e.2 = None) (ts_reviewer_threads s) = ∅) then s
  else
    let task_thread_ids := concat (map (λ e, owned_thread_ids e.2) (map_to_list (ts_team_runs s))) in
    s <| ts_reviewer_threads ::= map_imap (λ id r, Some
           match rv_navigation_visible r with
           | None => r <| rv_navigation_visible := Some (bool_decide (id ∈ task_thread_ids)) |>
           | Some _ => r
           end) |>.

Definition forget_reviewer_thread (reviewer_id : string) (s : ThreadState) :
    ThreadState * option string :=
  (s <| ts_reviewer_threads ::= delete reviewer_id |>,
   rv_parent_thread_id <$> ts_reviewer_threads s !! reviewer_id).

Definition recompute_reviewer_thread_seq (s : ThreadState) : ThreadState :=
  s <| ts_reviewer_thread_seq :=
    match map_to_list (ts_reviewer_threads s) with
    | [] => 0
    | l => u64_add (foldr Z.max 0 (map (λ e, rv_seq e.2) l)) 1
    end |>.

(** Hidden reviewers of [parent_id]. *)
Definition owned_by (parent_id : string) (r : ReviewerThread) : Prop :=
  rv_parent_thread_id r = parent_id ∧ rv_navigation_visible r ≠ Some true.
#[export] Instance owned_by_dec parent_id r : Decision (owned_by parent_id r).
Proof. unfold owned_by. apply _. Defined.

Definition reviewer_threads_of_parent (parent_id : string) (s : ThreadState) : list string :=
  (map_to_list (filter (λ e, owned_by parent_id e.2) (ts_reviewer_threads s))).*1.

(** Oldest registration first, the id breaking ties. *)
Definition older_reviewer (a b : string * Z) : Prop := a.2 < b.2 ∨ a.2 = b.2 ∧ string_le a.1 b.1.
#[export] Instance older_reviewer_dec a b : Decision (older_reviewer a b).
Proof. unfold older_reviewer. apply _. Defined.

Definition protected_reviewers (s : ThreadState) : list string :=
  (omap (λ e, if review_is_terminal (rj_status e.2) then None else rj_reviewer_thread_id e.2)
     (map_to_list (ts_review_jobs s))
   ++ step_thread_ids (filter (λ e, run_is_terminal (wr_status e.2) = false) (ts_workflow_jobs s)))%list.

Fixpoint evict_loop (excess : nat) (protected : list string) (owned : list string) : list string :=
  match excess, owned with
  | S n, id :: owned =>
      if decide (id ∈ protected) then evict_loop excess protected owned
      else id :: evict_loop n protected owned
  | _, _ => []
  end.

Definition owned_by_age (parent_id : string) (s : ThreadState) : list string :=
  (merge_sort older_reviewer
     (map (λ e, (e.1, rv_seq e.2))
        (map_to_list (filter (λ e, owned_by parent_id e.2) (ts_reviewer_threads s))))).*1.

Definition reviewers_to_evict (parent_id : string) (keep : nat) (s : ThreadState) : list string :=
  let owned := owned_by_age parent_id s in
  if (length owned <=? keep)%nat then []
  else evict_loop (length owned - keep) (protected_reviewers s) owned.

(** ** Projects *)
Inductive ProjectError : Type := ProjectNotFound | ReviewerNotAssignable.

Definition create_project (id name : string) (s : ThreadState) : ThreadState :=
  s <| ts_projects ::= <[id := MkProject id name None]> |>.

Definition rename_project (project_id name : string) (s : ThreadState) :
    ThreadState * result () ProjectError :=
  match ts_projects s !! project_id with
  | None => (s, Err ProjectNotFound)
  | Some p => (s <| ts_projects ::= <[project_id := p <| pv_name := name |>]> |>, Ok ())
  end.

Definition delete_project (project_id : string) (s : ThreadState) :
    ThreadState * result () ProjectError :=
  if is_some (ts_projects s !! project_id) then
    (s <| ts_projects ::= delete project_id |>
       <| ts_thread_project_id ::= filter (λ e, e.2 ≠ project_id) |>, Ok ())
  else (s, Err ProjectNotFound).

Definition assign_thread_to_project (thread_id project_id : string) (s : ThreadState) :
    ThreadState * result () ProjectError :=
  if is_none (ts_projects s !! project_id) then (s, Err ProjectNotFound)
  else if bool_decide (thread_id ∈ navigation_hidden_reviewer_thread_ids s)
  then (s, Err ReviewerNotAssignable)
  else (s <| ts_thread_project_id ::= <[thread_id := project_id]> |>, Ok ()).

Definition unassign_thread_from_project (thread_id : string) (s : ThreadState) : ThreadState * bool :=
  (s <| ts_thread_project_id ::= delete thread_id |>, is_some (ts_thread_project_id s !! thread_id)).

Definition bump_projects_revision (s : ThreadState) : ThreadState :=
  s <| ts_projects_revision ::= λ n, u64_add n 1 |>.

Definition project_for_thread (thread_id : string) (s : ThreadState) : option ProjectView :=
  ts_thread_project_id s !! thread_id ≫= λ pid, ts_projects s !! pid.

(** ** The orchestrator's thread

    [revoked] says whether the device records mark a device revoked. *)
Definition orchestrator_tools_device (thread_id : string) (s : ThreadState) : option string :=
  if decide (ts_orchestrator_thread_id s = Some thread_id) then ts_orchestrator_device_id s else None.

Definition orchestrator_session_device (revoked : string → bool) (thread_id : string)
    (s : ThreadState) : option string :=
  if decide (ts_orchestrator_thread_id s = Some thread_id) then
    device_id ← ts_orchestrator_device_id s;
    if revoked device_id then None else Some device_id
  else None.

Definition backfill_orchestrator_acting_device (revoked : string → bool) (device_id : string)
    (s : ThreadState) : ThreadState :=
  if is_none (ts_orchestrator_thread_id s) then s
  else if match ts_orchestrator_device_id s with None => true | Some stored => revoked stored end
  then s <| ts_orchestrator_device_id := Some device_id |>
  else s.

Definition clear_orchestrator_pin_if_device (device_id : string) (s : ThreadState) : ThreadState :=
  if decide (ts_orchestrator_device_id s = Some device_id) then
    s <| ts_orchestrator_thread_id := None |> <| ts_orchestrator_device_id := None |>
  else s.
