(* ===== verification/ThreadFlow.v ===== *)
(** * Threads coming and going (crates/relay-server/src/state/relay.rs)

    How a thread enters the relay (started, registered in the background, read from a
    provider, restored), how its row is refreshed, how a provisional id is replaced by
    the provider's, and how a thread is removed or deleted for good. *)

From Stdlib Require Import ZArith Lia Ascii String.
From S2P Require Import Prelude RustStr Json Approvals Transcript Runtime Push.
From S2P Require Import TeamTypes Tokens Backend TeamRun TeamThreads Device WorkflowRun ReviewJob.
From S2P Require Import TeamTable Surfaces ThreadState ThreadTurns ThreadRows.

Open Scope string_scope.
Open Scope Z_scope.

(** ** Rows *)
Definition keep_unless_empty (new old : string) : string := if is_empty new then old else new.

(** What a row without a value takes from the row it replaces. *)
Definition fill_from (existing t : ThreadSummaryView) : ThreadSummaryView :=
  t <| sm_name ::= λ n, option_or n (sm_name existing) |>
    <| sm_preview ::= λ v, keep_unless_empty v (sm_preview existing) |>
    <| sm_cwd ::= λ v, keep_unless_empty v (sm_cwd existing) |>
    <| sm_source ::= λ v, keep_unless_empty v (sm_source existing) |>
    <| sm_model_provider ::= λ v, keep_unless_empty v (sm_model_provider existing) |>.

Definition non_empty_provider (t : option ThreadSummaryView) : option string :=
  t ≫= λ t, if is_empty (sm_provider t) then None else Some (sm_provider t).

(** The runtime's share of [upsert_thread]. *)
Definition adopt_row (t : ThreadSummaryView) (r : ThreadRuntime) : ThreadRuntime :=
  r <| rt_summary := Some t |>
    <| rt_current_status :=
         if is_some (rt_active_turn_id r) || negb (thread_status_is_working (sm_status t))
         then sm_status t else "idle" |>
    <| rt_current_cwd ::= λ c, if is_empty c then sm_cwd t else c |>.

Definition put_row (t : ThreadSummaryView) (l : list ThreadSummaryView) : list ThreadSummaryView :=
  match list_find (λ x, sm_id x = sm_id t) l with
  | Some (i, _) => <[i := t]> l
  | None => t :: l
  end.

Definition upsert_thread (t : ThreadSummaryView) (s : ThreadState) : ThreadState :=
  if decide (sm_id t ∈ ts_locally_deleted_thread_ids s) then s
  else
    let t := apply_custom_thread_name s t in
    let t := match thread_row (sm_id t) s with Some existing => fill_from existing t | None => t end in
    let t :=
      if is_empty (sm_provider t) then
        match option_or (non_empty_provider (ts_runtimes s !! sm_id t ≫= rt_summary))
                        (non_empty_provider (thread_row (sm_id t) s)) with
        | Some known => t <| sm_provider := known |>
        | None => t
        end
      else t in
    (with_runtime (sm_id t) (adopt_row t) s) <| ts_threads ::= put_row t |>.

(** ** Settings *)
Definition remember_thread_settings (thread_id : string) (st : ThreadSessionSettings)
    (s : ThreadState) : ThreadState :=
  with_runtime thread_id (runtime_with_settings st)
    (s <| ts_thread_settings ::= <[thread_id := st]> |>).

Definition remember_active_thread_settings (s : ThreadState) : ThreadState :=
  match ts_active_thread_id s with
  | None => s
  | Some thread_id =>
      remember_thread_settings thread_id
        (MkSettings (ts_approval_policy s) (ts_sandbox s) (ts_reasoning_effort s) (ts_model s)) s
  end.

Definition thread_settings (thread_id : string) (s : ThreadState) : option ThreadSessionSettings :=
  option_or (ts_thread_settings s !! thread_id) (runtime_settings <$> ts_runtimes s !! thread_id).

(** ** Entering *)
Definition assign_controller (device_id : string) (now : Z) (s : ThreadState) : ThreadState :=
  s <| ts_surfaces ::= λ f, (assign_active_controller device_id now f).1 |>.

Definition select (thread_id : string) (s : ThreadState) : ThreadState :=
  s <| ts_active_thread_id := Some thread_id |>.

Definition activate_thread (now : Z) (t : ThreadSummaryView) (cwd : string)
    (st : ThreadSessionSettings) (device_id : string) (s : ThreadState) : ThreadState :=
  let s := materialize_selected_runtime_from_fields now s in
  let s := assign_controller device_id now s in
  let s := select (sm_id t) s in
  let '(s, revision) := next_transcript_revision s in
  let s := s <| ts_runtimes ::= <[sm_id t := runtime_new t cwd st now revision]> |> in
  let s := remember_thread_settings (sm_id t) st s in
  upsert_thread t (sync_selected_runtime_to_fields s).

Definition activate_started_thread (now : Z) (t : ThreadSummaryView) (cwd : string)
    (st : ThreadSessionSettings) (device_id : string) (s : ThreadState) : ThreadState :=
  let s := materialize_selected_runtime_from_fields now s in
  let s := assign_controller device_id now s in
  let s := select (sm_id t) s in
  let '(s, t) :=
    match ts_runtimes s !! sm_id t with
    | Some r =>
        let t := t <| sm_status := rt_current_status r |> in
        (with_runtime (sm_id t) (λ r,
           rt_touch now (runtime_with_settings st (r <| rt_summary := Some t |>
                                                     <| rt_current_cwd := cwd |>))) s, t)
    | None =>
        let '(s, revision) := next_transcript_revision s in
        (s <| ts_runtimes ::= <[sm_id t := runtime_new t cwd st now revision]> |>, t)
    end in
  let s := remember_thread_settings (sm_id t) st s in
  upsert_thread t (sync_selected_runtime_to_fields s).

Definition register_background_thread (now : Z) (t : ThreadSummaryView) (cwd : string)
    (st : ThreadSessionSettings) (s : ThreadState) : ThreadState :=
  let '(s, revision) := next_transcript_revision s in
  let s := s <| ts_runtimes ::= <[sm_id t := runtime_new t cwd st now revision]> |> in
  upsert_thread t (remember_thread_settings (sm_id t) st s).

Definition hydrate_background_runtime_inner (now : Z) (data : ThreadSyncData)
    (st : ThreadSessionSettings) (remember_settings : bool) (s : ThreadState) : ThreadState :=
  let thread_id := sm_id (sd_thread data) in
  if is_some (ts_runtimes s !! thread_id) then s
  else
    let '(s, revision) := next_transcript_revision s in
    let s := s <| ts_runtimes ::= <[thread_id := from_sync_data data st now revision]> |> in
    let s := if remember_settings then remember_thread_settings thread_id st s else s in
    upsert_thread (sd_thread data) s.

Definition load_thread_data (now : Z) (data : ThreadSyncData) (st : ThreadSessionSettings)
    (device_id : string) (s : ThreadState) : ThreadState :=
  let thread_id := sm_id (sd_thread data) in
  let st := st <| ss_model ::= λ m, if is_empty m then ts_model s else m |> in
  let s := materialize_selected_runtime_from_fields now s in
  let s := assign_controller device_id now s in
  let s := select thread_id s in
  let '(s, revision) := next_transcript_revision s in
  let fresh := from_sync_data data st now revision in
  let s := match ts_runtimes s !! thread_id with
           | Some existing =>
               let '(merged, changed) := merge_fresh_history fresh existing in
               let merged := if changed then merged <| rt_transcript_revision := revision |> else merged in
               s <| ts_runtimes ::= <[thread_id := merged]> |>
           | None => s <| ts_runtimes ::= <[thread_id := fresh]> |>
           end in
  let s := remember_thread_settings thread_id st s in
  upsert_thread (sd_thread data) (sync_selected_runtime_to_fields s).

Definition focus_thread_runtime (now : Z) (thread_id device_id : string) (s : ThreadState) :
    ThreadState :=
  let s := materialize_selected_runtime_from_fields now s in
  let s := ensure_runtime_for_thread now thread_id s in
  sync_selected_runtime_to_fields (assign_controller device_id now (select thread_id s)).

(** ** Catalogues *)
Definition set_available_models (models : list ModelOptionView) (s : ThreadState) : ThreadState :=
  let preferred := option_or (snd <$> list_find (λ m, mo_is_default m = true) models) (head models) in
  let s := s <| ts_available_models := models |> in
  let current_model_known := existsb (λ m, bool_decide (mo_model m = ts_model s)) models in
  let s := match preferred with
           | None => s
           | Some d =>
               let s := if bool_decide (ts_model s = DEFAULT_MODEL) || negb current_model_known
                        then s <| ts_model := mo_model d |> else s in
               if bool_decide (ts_reasoning_effort s = DEFAULT_EFFORT)
               then s <| ts_reasoning_effort := mo_default_reasoning_effort d |> else s
           end in
  let catalog_provider := snd <$> list_find (λ p, p ≠ "") (map mo_provider models) in
  match ts_active_thread_id s with
  | None => s
  | Some thread_id =>
      with_runtime thread_id (λ r,
        let crosses := match catalog_provider, non_empty_provider (rt_summary r) with
                       | Some c, Some t => negb (bool_decide (c = t))
                       | _, _ => false
                       end in
        if crosses then r
        else r <| rt_model := ts_model s |> <| rt_reasoning_effort := ts_reasoning_effort s |>) s
  end.

Definition set_provider_name (name : string) (s : ThreadState) : ThreadState :=
  (if negb (is_empty (ts_provider_name s)) && negb (bool_decide (ts_provider_name s = name))
   then s <| ts_available_models := [] |> else s) <| ts_provider_name := name |>.

(** ** Leaving *)
Inductive BusyError : Type := StillRunning.

Definition active_thread_has_live_turn (s : ThreadState) : bool :=
  match selected_runtime s with
  | Some r => has_live_turn r
  | None => is_some (ts_active_turn_id s)
  end.

Definition thread_running (thread_id : string) (s : ThreadState) : bool :=
  match ts_runtimes s !! thread_id with Some r => has_live_turn r | None => false end
  || is_active thread_id s && active_thread_has_live_turn s.

Definition can_archive_thread (thread_id : string) (s : ThreadState) : result bool BusyError :=
  if thread_running thread_id s then Err StillRunning else Ok (is_active thread_id s).
Definition can_delete_thread (thread_id : string) (s : ThreadState) : result bool BusyError :=
  if thread_running thread_id s then Err StillRunning else Ok (is_active thread_id s).

Definition remove_thread (thread_id : string) (s : ThreadState) : ThreadState * bool :=
  let threads := filter (λ t, sm_id t ≠ thread_id) (ts_threads s) in
  let changed := negb (length threads =? length (ts_threads s))%nat in
  let s := s <| ts_threads := threads |>
             <| ts_thread_settings ::= delete thread_id |>
             <| ts_thread_last_activity_at ::= delete thread_id |>
             <| ts_thread_custom_name ::= delete thread_id |>
             <| ts_thread_workspace ::= delete thread_id |> in
  let s := forget_search_routing_hint thread_id s in
  let s := s <| ts_runtimes ::= delete thread_id |> in
  (drop_pending_requests_for_thread thread_id s, changed).

Definition mark_thread_deleted (thread_id : string) (s : ThreadState) : ThreadState :=
  let s := s <| ts_locally_deleted_thread_ids ::= λ ids, ids ∪ {[ thread_id ]} |> in
  let was_member := is_some (ts_thread_project_id s !! thread_id) in
  let s := s <| ts_thread_project_id ::= delete thread_id |> in
  let s := if was_member then bump_projects_revision s else s in
  (remove_thread thread_id s).1.

Definition filter_deleted_threads (s : ThreadState) (l : list ThreadSummaryView) :
    list ThreadSummaryView := filter (λ t, sm_id t ∉ ts_locally_deleted_thread_ids s) l.

Definition clear_active_session (s : ThreadState) : ThreadState :=
  let s := match ts_active_thread_id s with
           | Some thread_id => s <| ts_runtimes ::= delete thread_id |>
           | None => s
           end in
  s <| ts_active_thread_id := None |>
    <| ts_surfaces ::= clear_controller |>
    <| ts_active_turn_id := None |>
    <| ts_current_status := "idle" |>
    <| ts_current_phase := None |>
    <| ts_current_tool := None |>
    <| ts_last_progress_at := None |>
    <| ts_active_flags := [] |>
    <| ts_transcript_revision := ts_transcript_clock s |>
    <| ts_transcript := [] |>
    <| ts_apply_states := ∅ |>
    <| ts_pending_approvals := ∅ |>
    <| ts_pending_ask_user_questions := ∅ |>.

(** ** Promotion of a provisional id *)

(** [if let Some(v) = m.remove(pending) { m.entry(real).or_insert(v) }]. *)
Definition carry {V} (pending_id real_id : string) (m : gmap string V) : gmap string V :=
  match m !! pending_id with
  | None => m
  | Some v =>
      let m := delete pending_id m in
      if is_some (m !! real_id) then m else <[real_id := v]> m
  end.

Definition carry_activity (pending_id real_id : string) (m : gmap string Z) : gmap string Z :=
  match m !! pending_id with
  | None => m
  | Some v => let m := delete pending_id m in <[real_id := Z.max (default v (m !! real_id)) v]> m
  end.

Definition carry_runtime (pending_id real_id : string) (m : gmap string ThreadRuntime) :
    gmap string ThreadRuntime :=
  match m !! pending_id with
  | None => m
  | Some r =>
      let r := r <| rt_summary ::= fmap (λ sm, sm <| sm_id := real_id |>) |> in
      let m := delete pending_id m in
      match m !! real_id with
      | Some existing =>
          let turn := Z.max (rt_turn_revision existing) (rt_turn_revision r) in
          if (length (rt_transcript r) <=? length (rt_transcript existing))%nat then
            <[real_id :=
                existing <| rt_active_turn_id ::= λ t, option_or t (rt_active_turn_id r) |>
                         <| rt_turn_revision := turn |>]> m
          else
            <[real_id :=
                r <| rt_turn_revision := turn |>
                  <| rt_transcript_revision :=
                       Z.max (rt_transcript_revision r) (rt_transcript_revision existing) |>]> m
      | None => <[real_id := r]> m
      end
  end.

Definition promote_background_thread (now : Z) (pending_id real_id : string) (s : ThreadState) :
    ThreadState :=
  if bool_decide (pending_id = real_id) || is_empty pending_id || is_empty real_id then s
  else
    let rename := swap pending_id real_id in
    let had_project := is_some (ts_thread_project_id s !! pending_id) in
    let s := s <| ts_thread_promoted_from ::= <[real_id := pending_id]> |>
               <| ts_orchestrator_thread_id ::= (λ o, rename <$> o) |>
               <| ts_runtimes ::= carry_runtime pending_id real_id |>
               <| ts_thread_settings ::= carry pending_id real_id |>
               <| ts_thread_last_activity_at ::= carry_activity pending_id real_id |>
               <| ts_thread_project_id ::= carry pending_id real_id |> in
    let s := if had_project then bump_projects_revision s else s in
    let s := s <| ts_thread_custom_name ::= carry pending_id real_id |>
               <| ts_thread_forked_from ::= carry pending_id real_id |>
               <| ts_thread_workspace ::= carry pending_id real_id |>
               <| ts_threads ::= filter (λ t, sm_id t ≠ pending_id) |>
               <| ts_pending_approvals ::= fmap (M := gmap string) (λ p, p <| pa_thread_id ::= rename |>) |>
               <| ts_pending_ask_user_questions ::= fmap (M := gmap string) (λ p, p <| pq_thread_id ::= rename |>) |>
               <| ts_review_jobs ::= fmap (M := gmap string) (λ j, j <| rj_reviewer_thread_id ::= (λ o, rename <$> o) |>
                                                  <| rj_parent_thread_id ::= rename |>) |>
               <| ts_workflow_jobs ::= fmap (M := gmap string) (λ r, r <| wr_step_threads ::= fmap (M := gmap string) rename |>
                                                    <| wr_parent_thread_id ::= rename |>) |>
               <| ts_team_runs ::= fmap (M := gmap string) (λ r, (rekey_thread now pending_id real_id r).1) |>
               <| ts_reviewer_threads ::= λ m,
                    match m !! pending_id with
                    | Some record => <[real_id := record]> (delete pending_id m)
                    | None => m
                    end |> in
    set_thread_status now real_id "active" [] s.
