(* ===== verification/ThreadLemmas.v ===== *)
(** * Threads: what the shared steps do

    Equations for materialising a runtime, mirroring the selected one and drawing a
    revision, and what each of them leaves alone.  The theorems about threads are proved
    from these. *)

From Stdlib Require Import ZArith Lia Ascii String.
From S2P Require Import Prelude RustStr Json Approvals Transcript Runtime Push.
From S2P Require Import Device Surfaces ThreadState ThreadTurns.

Open Scope string_scope.
Open Scope Z_scope.

(** ** The clock *)
Definition tick (s : ThreadState) : Z := u64_saturating_add (ts_transcript_clock s) 1.

Lemma tick_ge s : ts_transcript_clock s ≤ u64_max → ts_transcript_clock s ≤ tick s ≤ u64_max.
Proof. unfold tick, u64_saturating_add. lia. Qed.

Lemma tick_lt s : ts_transcript_clock s < u64_max → ts_transcript_clock s < tick s.
Proof. unfold tick, u64_saturating_add. lia. Qed.

(** ** Materialising a runtime *)
Lemma ensure_cases now th s :
  (is_Some (ts_runtimes s !! th) ∧ ensure_runtime_for_thread now th s = s) ∨
  (ts_runtimes s !! th = None ∧ ∃ r,
     ensure_runtime_for_thread now th s =
       s <| ts_transcript_clock := tick s |> <| ts_runtimes ::= <[th := r]> |> ∧
     rt_transcript_revision r = tick s ∧
     rt_transcript r = (if is_active th s then ts_transcript s else []) ∧
     rt_active_turn_id r = (if is_active th s then ts_active_turn_id s else None)).
Proof.
  unfold ensure_runtime_for_thread, tick. destruct (ts_runtimes s !! th) as [r|] eqn:Hr.
  - left. split; [eauto|]. unfold is_none. cbn. rewrite andb_false_r. by rewrite Hr.
  - right. split; [done|]. cbn [is_none is_some negb]. rewrite andb_true_r.
    unfold is_active. case_bool_decide as Ha.
    + unfold materialize_selected_runtime_from_fields. rewrite Ha, Hr. cbn.
      rewrite lookup_insert_eq. cbn. eexists. split; [reflexivity|].
      cbn. by case_match.
    + rewrite Hr. cbn. eexists. split; [reflexivity|]. unfold lazy_runtime.
      cbn. repeat case_match; done.
Qed.

Lemma ensure_lookup now th s : is_Some (ts_runtimes (ensure_runtime_for_thread now th s) !! th).
Proof.
  destruct (ensure_cases now th s) as [[? ->]|(_ & r & -> & _)]; [done|]. cbn.
  rewrite lookup_insert_eq. eauto.
Qed.

Lemma ensure_lookup_ne now th th' s :
  th ≠ th' → ts_runtimes (ensure_runtime_for_thread now th s) !! th' = ts_runtimes s !! th'.
Proof.
  intros Hne. destruct (ensure_cases now th s) as [[? ->]|(_ & r & -> & _)]; [done|]. cbn.
  by rewrite lookup_insert_ne.
Qed.

(** What materialising and mirroring leave alone: everything but the runtimes, the clock
    and the mirrored fields. *)
Record same_frame (s s' : ThreadState) : Prop := MkSameFrame {
  sfr_active : ts_active_thread_id s' = ts_active_thread_id s;
  sfr_threads : ts_threads s' = ts_threads s;
  sfr_deleted : ts_locally_deleted_thread_ids s' = ts_locally_deleted_thread_ids s;
  sfr_approvals : ts_pending_approvals s' = ts_pending_approvals s;
  sfr_questions : ts_pending_ask_user_questions s' = ts_pending_ask_user_questions s;
  sfr_surfaces : ts_surfaces s' = ts_surfaces s;
  sfr_settings : ts_thread_settings s' = ts_thread_settings s;
  sfr_names : ts_thread_custom_name s' = ts_thread_custom_name s
}.
#[export] Instance same_frame_preorder : PreOrder same_frame.
Proof.
  split; [by intros s; constructor|]. intros s1 s2 s3 [] []. constructor; congruence.
Qed.

Lemma ensure_frame now th s : same_frame s (ensure_runtime_for_thread now th s).
Proof. destruct (ensure_cases now th s) as [[? ->]|(_ & r & -> & _)]; by constructor. Qed.

Lemma sync_frame s : same_frame s (sync_selected_runtime_to_fields s).
Proof. unfold sync_selected_runtime_to_fields. case_match; by constructor. Qed.

Lemma sync_runtimes s : ts_runtimes (sync_selected_runtime_to_fields s) = ts_runtimes s.
Proof. unfold sync_selected_runtime_to_fields. by case_match. Qed.

Lemma sync_clock s : ts_transcript_clock (sync_selected_runtime_to_fields s) = ts_transcript_clock s.
Proof. unfold sync_selected_runtime_to_fields. by case_match. Qed.

Lemma sync_if_frame th s : same_frame s (sync_if_active th s).
Proof. unfold sync_if_active. case_match; [apply sync_frame | reflexivity]. Qed.

Lemma sync_if_runtimes th s : ts_runtimes (sync_if_active th s) = ts_runtimes s.
Proof. unfold sync_if_active. case_match; [apply sync_runtimes | done]. Qed.

Lemma sync_if_clock th s : ts_transcript_clock (sync_if_active th s) = ts_transcript_clock s.
Proof. unfold sync_if_active. case_match; [apply sync_clock | done]. Qed.

Lemma with_runtime_frame th f s : same_frame s (with_runtime th f s).
Proof. by constructor. Qed.

Lemma with_runtime_lookup th f s :
  ts_runtimes (with_runtime th f s) !! th = f <$> ts_runtimes s !! th.
Proof. apply lookup_alter_eq. Qed.

Lemma with_runtime_lookup_ne th th' f s :
  th ≠ th' → ts_runtimes (with_runtime th f s) !! th' = ts_runtimes s !! th'.
Proof. apply lookup_alter_ne. Qed.
#[export] Hint Rewrite sync_runtimes sync_clock sync_if_runtimes sync_if_clock with_runtime_lookup : relay_rw.

(** ** Writing a transcript

    The four ways of writing a transcript are one: materialise, replace the transcript,
    draw a revision, touch up the runtime, mirror. *)
Section Write.
Context (now : Z) (th : string).

Lemma bump_present s r :
  ts_runtimes s !! th = Some r →
  bump_thread_transcript_revision now th s =
  ((if is_active th s then set_field ts_transcript_revision (λ _, tick s) else id)
     (with_runtime th (λ r, r <| rt_transcript_revision := tick s |>)
        (touch_thread_last_activity now th s) <| ts_transcript_clock := tick s |>),
   (rt_transcript_revision r, tick s)).
Proof.
  intros Hr. unfold bump_thread_transcript_revision, tick. cbn. rewrite Hr. cbn. rewrite Hr. cbn.
  unfold is_active. cbn. by case_bool_decide.
Qed.

(** The state after a write of [l] that ends in [f], and the revisions it is between. *)
Definition written (l : list TranscriptRecord) (f : Z → ThreadRuntime → ThreadRuntime)
    (s : ThreadState) : ThreadState * (Z * Z) :=
  let '(s, (b, v)) := bump_thread_transcript_revision now th (set_runtime_transcript th l s) in
  (sync_if_active th (with_runtime th (f v) s), (b, v)).

Context (l : list TranscriptRecord) (f : Z → ThreadRuntime → ThreadRuntime).

Lemma written_spec s r :
  ts_runtimes s !! th = Some r →
  let r' := f (tick s) (r <| rt_transcript := l |> <| rt_transcript_revision := tick s |>) in
  ts_runtimes (written l f s).1 = <[th := r']> (ts_runtimes s) ∧
  ts_transcript_clock (written l f s).1 = tick s ∧
  (written l f s).2 = (rt_transcript_revision r, tick s) ∧
  same_frame s (written l f s).1.
Proof.
  intros Hr. unfold written.
  assert (ts_runtimes (set_runtime_transcript th l s) !! th = Some (r <| rt_transcript := l |>)) as H1.
  { unfold set_runtime_transcript. by rewrite with_runtime_lookup, Hr. }
  rewrite (bump_present _ _ H1).
  set (s0 := set_runtime_transcript th l s) in *.
  assert (tick s0 = tick s) as -> by done.
  set (g := if is_active th s0 then _ else _).
  assert (∀ x, ts_runtimes (g x) = ts_runtimes x ∧ ts_transcript_clock (g x) = ts_transcript_clock x ∧
    same_frame x (g x)) as Hg.
  { intros x. unfold g. case_match; repeat split; done. }
  cbn [fst snd]. destruct (Hg (with_runtime th (λ r1, r1 <| rt_transcript_revision := tick s |>)
    (touch_thread_last_activity now th s0) <| ts_transcript_clock := tick s |>)) as (Hg1 & Hg2 & Hg3).
  split_and!.
  - rewrite sync_if_runtimes. apply map_eq. intros i. destruct (decide (th = i)) as [<-|Hne].
    + rewrite with_runtime_lookup, Hg1, lookup_insert_eq. cbn. rewrite lookup_alter_eq.
      cbn in H1. by rewrite H1.
    + rewrite with_runtime_lookup_ne, Hg1, lookup_insert_ne by done. cbn.
      rewrite !lookup_alter_ne by done. done.
  - rewrite sync_if_clock. cbn. rewrite Hg2. done.
  - done.
  - etrans; [|apply sync_if_frame]. etrans; [|apply with_runtime_frame]. etrans; [|exact Hg3].
    by constructor.
Qed.
End Write.

(** Each transcript write as [written] on the materialised state. *)
Lemma upsert_written now th w s :
  let s1 := ensure_runtime_for_thread now th s in
  let '(l, seq) := upsert_in w (runtime_transcript th s1) in
  let out := written now th l (λ v r, r <| rt_transcript ::= λ l,
      match tx_position (ew_item_id w) l with
      | Some i => alter (λ e, e <| tx_seq := Some v |>) i l
      | None => l
      end |>) s1 in
  upsert_transcript_item_for_thread now th w s = (out.1, MkMeta out.2.1 out.2.2 seq now None false).
Proof.
  cbv zeta. unfold upsert_transcript_item_for_thread, written, stamp_transcript_item_seq.
  destruct (upsert_in _ _) as [l seq]. by destruct (bump_thread_transcript_revision _ _ _) as [? [? ?]].
Qed.

Lemma with_runtime_id th s : with_runtime th (λ r, r) s = s.
Proof.
  destruct s. unfold with_runtime, set_field. cbn. f_equal. apply map_eq. intros i.
  destruct (decide (th = i)) as [<-|]; [rewrite lookup_alter_eq | by rewrite lookup_alter_ne].
  by destruct (_ !! th).
Qed.

Lemma agent_written now th item delta turn s :
  let s1 := ensure_runtime_for_thread now th s in
  let '(l, seq, off) := append_agent_in item delta turn (runtime_transcript th s1) in
  let out := written now th l (λ _ r, r) s1 in
  append_agent_delta_for_thread now th item delta turn s =
  (out.1, MkMeta out.2.1 out.2.2 seq now (Some off) false).
Proof.
  cbv zeta. unfold append_agent_delta_for_thread, written.
  destruct (append_agent_in _ _ _ _) as [[l seq] off].
  destruct (bump_thread_transcript_revision _ _ _) as [? [? ?]]. by rewrite with_runtime_id.
Qed.

Lemma command_written now th item delta s :
  let s1 := ensure_runtime_for_thread now th s in
  let '(l, seq, sep) := append_command_in item delta (runtime_transcript th s1) in
  let out := written now th l (λ _ r, r) s1 in
  append_command_delta_for_thread now th item delta s =
  (out.1, MkMeta out.2.1 out.2.2 seq now None sep).
Proof.
  cbv zeta. unfold append_command_delta_for_thread, written.
  destruct (append_command_in _ _ _) as [[l seq] sep].
  destruct (bump_thread_transcript_revision _ _ _) as [? [? ?]]. by rewrite with_runtime_id.
Qed.
