(* ===== verification/ThreadTheorems.v ===== *)
(** * Threads: revisions, live text, deletion and liveness *)

From Stdlib Require Import ZArith Lia Ascii String.
From stdpp Require Import sorting.
From S2P Require Import Prelude RustStr Json Approvals Transcript Runtime Push.
From S2P Require Import Paths Device Surfaces ThreadState ThreadTurns ThreadLemmas.

Open Scope string_scope.
Open Scope Z_scope.

(** ** Transcript writes as steps *)
Inductive write_op : Type :=
| WUpsert (th : string) (w : EntryWrite)
| WAgent (th item delta turn : string)
| WCommand (th item delta : string).

Definition wop_thread (o : write_op) : string :=
  match o with WUpsert th _ | WAgent th _ _ _ | WCommand th _ _ => th end.

Definition exec_write (o : write_op) (now : Z) (s : ThreadState) : ThreadState * TranscriptMutationMeta :=
  match o with
  | WUpsert th w => upsert_transcript_item_for_thread now th w s
  | WAgent th item delta turn => append_agent_delta_for_thread now th item delta turn s
  | WCommand th item delta => append_command_delta_for_thread now th item delta s
  end.

Fixpoint run_writes (ops : list (write_op * Z)) (s : ThreadState) :
    ThreadState * list (string * TranscriptMutationMeta) :=
  match ops with
  | [] => (s, [])
  | (o, now) :: ops =>
      let '(s, m) := exec_write o now s in
      let '(s, ms) := run_writes ops s in
      (s, (wop_thread o, m) :: ms)
  end.

Definition thread_revision (th : string) (s : ThreadState) : option Z :=
  rt_transcript_revision <$> ts_runtimes s !! th.

(** No runtime is ahead of the clock. *)
Definition clock_ok (s : ThreadState) : Prop :=
  0 ≤ ts_transcript_clock s ≤ u64_max ∧
  map_Forall (λ _ r, rt_transcript_revision r ≤ ts_transcript_clock s) (ts_runtimes s).

Lemma ensure_clock now th s :
  clock_ok s →
  let s1 := ensure_runtime_for_thread now th s in
  clock_ok s1 ∧ ts_transcript_clock s ≤ ts_transcript_clock s1 ∧
  (is_Some (ts_runtimes s !! th) → s1 = s).
Proof.
  intros [Hc Hf]. pose proof (tick_ge s ltac:(lia)) as Ht.
  destruct (ensure_cases now th s) as [[? ->]|(Hn & r & -> & Hr & _)]; cbv zeta.
  { by split_and!. }
  split_and!.
  - split; [cbn; lia|]. cbn. apply map_Forall_insert_2; [lia|].
    eapply map_Forall_impl; [exact Hf|]. cbn. intros. lia.
  - cbn. lia.
  - rewrite Hn. by intros [].
Qed.

(** A write is between the thread's revision and the next tick of the clock. *)
Lemma exec_write_spec o now s :
  let th := wop_thread o in
  let s1 := ensure_runtime_for_thread now th s in
  ∃ r r', ts_runtimes s1 !! th = Some r ∧
    ts_runtimes (exec_write o now s).1 = <[th := r']> (ts_runtimes s1) ∧
    rt_transcript_revision r' = tick s1 ∧
    ts_transcript_clock (exec_write o now s).1 = tick s1 ∧
    mm_base_revision (exec_write o now s).2 = rt_transcript_revision r ∧
    mm_revision (exec_write o now s).2 = tick s1 ∧
    same_frame s1 (exec_write o now s).1.
Proof.
  cbv zeta. destruct (ensure_lookup now (wop_thread o) s) as [r Hr]. exists r.
  destruct o as [th w|th item delta turn|th item delta]; cbn [wop_thread exec_write] in *.
  - pose proof (upsert_written now th w s) as E. cbv zeta in E.
    destruct (upsert_in _ _) as [l seq]. rewrite E. clear E.
    match goal with |- context [written now th l ?f _] =>
      destruct (written_spec now th l f _ r Hr) as (H1 & H2 & H3 & H4) end.
    rewrite H3. eexists. by split_and!.
  - pose proof (agent_written now th item delta turn s) as E. cbv zeta in E.
    destruct (append_agent_in _ _ _ _) as [[l seq] off]. rewrite E. clear E.
    destruct (written_spec now th l (λ _ r, r) _ r Hr) as (H1 & H2 & H3 & H4).
    rewrite H3. eexists. by split_and!.
  - pose proof (command_written now th item delta s) as E. cbv zeta in E.
    destruct (append_command_in _ _ _) as [[l seq] sep]. rewrite E. clear E.
    destruct (written_spec now th l (λ _ r, r) _ r Hr) as (H1 & H2 & H3 & H4).
    rewrite H3. eexists. by split_and!.
Qed.

Lemma exec_write_clock o now s :
  clock_ok s → let s' := (exec_write o now s).1 in
  clock_ok s' ∧ ts_transcript_clock s ≤ ts_transcript_clock s' ∧
  mm_revision (exec_write o now s).2 = ts_transcript_clock s' ∧
  (ts_transcript_clock s' < u64_max → ts_transcript_clock s < ts_transcript_clock s').
Proof.
  intros Hok. destruct (ensure_clock now (wop_thread o) s Hok) as ([Hc1 Hf1] & Hle & _).
  destruct (exec_write_spec o now s) as (r & r' & Hr & Hrt & Hrev & Hclk & _ & Hm & _). cbv zeta.
  set (s1 := ensure_runtime_for_thread _ _ _) in *. pose proof (tick_ge s1 ltac:(lia)).
  rewrite Hclk, Hm. split_and!; [|lia|done|].
  - split; [lia|]. rewrite Hrt, Hclk. apply map_Forall_insert_2; [lia|].
    eapply map_Forall_impl; [exact Hf1|]. cbn. intros. lia.
  - intros Hlt. assert (ts_transcript_clock s1 < u64_max) as Hlt' by lia.
    pose proof (tick_lt s1 Hlt'). lia.
Qed.

Lemma run_writes_clock ops : ∀ s,
  clock_ok s → clock_ok (run_writes ops s).1 ∧
  ts_transcript_clock s ≤ ts_transcript_clock (run_writes ops s).1.
Proof.
  induction ops as [|[o now] ops IH]; intros s Hok; [done|]. cbn [run_writes].
  pose proof (exec_write_clock o now s Hok) as (H1 & H2 & _). cbv zeta in *.
  destruct (exec_write o now s) as [s' m]. cbn [fst snd] in *.
  destruct (IH s' H1) as [H3 H4]. destruct (run_writes ops s') as [s'' ms]. cbn in *. split; [done|lia].
Qed.

(** The revisions of a thread's writes: each starts where the one before ended. *)
Fixpoint chain (held : Z) (ms : list TranscriptMutationMeta) : Prop :=
  match ms with
  | [] => True
  | m :: ms => mm_base_revision m = held ∧ held < mm_revision m ∧ chain (mm_revision m) ms
  end.

Definition metas_of (th : string) (ms : list (string * TranscriptMutationMeta)) :
    list TranscriptMutationMeta := (filter (λ e, e.1 = th) ms).*2.

Lemma chain_bases held ms m :
  chain held ms → m ∈ ms → held ≤ mm_base_revision m ∧ held < mm_revision m.
Proof.
  revert held. induction ms as [|m' ms IH]; intros held Hc Hin; [by apply not_elem_of_nil in Hin|].
  destruct Hc as (Hb & Hr & Hc). apply elem_of_cons in Hin as [->|Hin]; [lia|].
  destruct (IH _ Hc Hin). lia.
Qed.

(** A client that holds the revision from before the writes is offered a write that
    starts there only as the first. *)
Lemma chain_first held ms i m :
  chain held ms → ms !! i = Some m → mm_base_revision m = held ↔ i = 0%nat.
Proof.
  destruct ms as [|m0 ms]; [done|]. intros (Hb & Hr & Hc). destruct i as [|i]; cbn.
  { intros [= <-]. done. }
  intros Hin%list_elem_of_lookup_2. destruct (chain_bases _ _ _ Hc Hin). split; [lia|done].
Qed.

Lemma run_writes_step o now s th r :
  clock_ok s → ts_runtimes s !! th = Some r →
  ts_transcript_clock (exec_write o now s).1 < u64_max →
  let s' := (exec_write o now s).1 in
  if decide (wop_thread o = th)
  then mm_base_revision (exec_write o now s).2 = rt_transcript_revision r ∧
       rt_transcript_revision r < mm_revision (exec_write o now s).2 ∧
       thread_revision th s' = Some (mm_revision (exec_write o now s).2)
  else ts_runtimes s' !! th = Some r.
Proof.
  intros Hok Hr Hlt. cbv zeta.
  pose proof (exec_write_clock o now s Hok) as (_ & _ & Hv & Hgt). cbv zeta in *.
  destruct (exec_write_spec o now s) as (r1 & r' & Hr1 & Hrt & Hrev & Hclk & Hb & Hm & _). cbv zeta in *.
  case_decide as Hth.
  - subst th. destruct (ensure_clock now (wop_thread o) s Hok) as (_ & _ & Hsame).
    rewrite Hsame in * by eauto. rewrite Hr in Hr1. injection Hr1 as <-. destruct Hok as [_ Hf].
    specialize (Hf _ _ Hr). cbn in Hf. specialize (Hgt Hlt). split_and!; [done|lia|]. unfold thread_revision.
    rewrite Hrt, lookup_insert_eq. cbn. congruence.
  - rewrite Hrt, lookup_insert_ne, ensure_lookup_ne by done. done.
Qed.

Lemma run_writes_chain ops : ∀ s th r,
  clock_ok s → ts_runtimes s !! th = Some r →
  ts_transcript_clock (run_writes ops s).1 < u64_max →
  let ms := (run_writes ops s).2 in
  chain (rt_transcript_revision r) (metas_of th ms) ∧
  thread_revision th (run_writes ops s).1 =
    Some (default (rt_transcript_revision r) (mm_revision <$> last (metas_of th ms))) ∧
  Forall (λ e, ts_transcript_clock s < mm_revision e.2) ms ∧
  StronglySorted (λ a b, mm_revision a.2 < mm_revision b.2) ms.
Proof.
  induction ops as [|[o now] ops IH]; intros s th r Hok Hr Hlt; cbv zeta.
  { cbn. unfold thread_revision. rewrite Hr. split_and!; by constructor. }
  cbn [run_writes] in *.
  pose proof (exec_write_clock o now s Hok) as (Hok' & Hle & Hv & Hgt). cbv zeta in *.
  pose proof (run_writes_clock ops (exec_write o now s).1 Hok') as [_ Hle2].
  destruct (run_writes ops (exec_write o now s).1) as [s2 ms] eqn:E2.
  assert (ts_transcript_clock s2 < u64_max) as Hlt2.
  { destruct (exec_write o now s) as [s' m]. cbn in *. rewrite E2 in Hlt. done. }
  assert (ts_transcript_clock (exec_write o now s).1 < u64_max) as Hlt1 by (cbn in Hle2; lia).
  pose proof (run_writes_step o now s th r Hok Hr Hlt1) as Hstep. cbv zeta in Hstep.
  assert (∃ r1, ts_runtimes (exec_write o now s).1 !! th = Some r1 ∧
    (if decide (wop_thread o = th) then rt_transcript_revision r1 = mm_revision (exec_write o now s).2
     else r1 = r)) as (r1 & Hr1 & Hrev1).
  { case_decide; [|by exists r]. destruct Hstep as (_ & _ & Hs). unfold thread_revision in Hs.
    apply fmap_Some in Hs as (r1 & ? & ?). by exists r1. }
  specialize (IH _ th r1 Hok' Hr1). rewrite E2 in IH. specialize (IH Hlt2). cbv zeta in IH.
  destruct IH as (IHc & IHl & IHf & IHs).
  destruct (exec_write o now s) as [s' m]. cbn [fst snd] in *. rewrite E2. cbn [fst snd].
  split_and!.
  - unfold metas_of. rewrite filter_cons. cbn [fst].
    destruct (decide (wop_thread o = th)) as [Hd|Hd]; [|by subst r1].
    destruct Hstep as (Hb & Hgt' & _). cbn. rewrite <- Hrev1. rewrite <- Hrev1 in Hgt'. done.
  - rewrite IHl. f_equal. unfold metas_of. rewrite filter_cons. cbn [fst].
    destruct (decide (wop_thread o = th)) as [Hd|Hd]; [|by subst r1].
    cbn [fmap list_fmap snd]. rewrite last_cons, Hrev1. by destruct (last _).
  - constructor; [cbn; lia|]. eapply Forall_impl; [exact IHf|]. cbn. intros. lia.
  - constructor; [done|]. eapply Forall_impl; [exact IHf|]. cbn. intros. lia.
Qed.

(** C12: revisions.  Over any sequence of transcript writes to any threads (until the
    64-bit clock is exhausted), every write gets a revision greater than every revision
    given before, to whichever thread; and the writes of one thread form a chain, each
    starting from the revision the one before ended with.  So a client that holds a
    thread's revision is offered a write that starts there exactly when it has missed
    none. *)
Theorem transcript_revisions_chain ops s th r :
  clock_ok s → ts_runtimes s !! th = Some r →
  ts_transcript_clock (run_writes ops s).1 < u64_max →
  let ms := (run_writes ops s).2 in
  StronglySorted (λ a b, mm_revision a.2 < mm_revision b.2) ms ∧
  Forall (λ e, ts_transcript_clock s < mm_revision e.2) ms ∧
  chain (rt_transcript_revision r) (metas_of th ms) ∧
  (∀ i m, metas_of th ms !! i = Some m → mm_base_revision m = rt_transcript_revision r ↔ i = 0%nat) ∧
  thread_revision th (run_writes ops s).1 =
    Some (default (rt_transcript_revision r) (mm_revision <$> last (metas_of th ms))).
Proof.
  intros Hok Hr Hlt. cbv zeta.
  destruct (run_writes_chain ops s th r Hok Hr Hlt) as (Hc & Hl & Hf & Hs).
  split_and!; try done. intros i m Hi. by eapply chain_first.
Qed.

(** ** Witness *)
Definition sample_settings : ThreadSessionSettings := MkSettings "untrusted" "workspace-write" "medium" "m".

(** A relay that follows the thread [t1], which is selected, and [t2]. *)
Definition sample_threads : ThreadState :=
  let row id := MkSummary id None "" "/srv" 1 true "" "idle" "" "codex" None false in
  (relay_state_new "/srv")
    <| ts_active_thread_id := Some "t1" |>
    <| ts_transcript_clock := 7 |>
    <| ts_threads := [row "t1"; row "t2"] |>
    <| ts_runtimes := <[ "t1" := runtime_new (row "t1") "/srv" sample_settings 1 7 ]>
                      {[ "t2" := runtime_new (row "t2") "/srv" sample_settings 1 3 ]} |>.

Lemma transcript_revisions_chain_witness :
  let ops := [(WAgent "t1" "a" "he" "turn", 10); (WCommand "t2" "c" "out", 11);
              (WAgent "t1" "a" "llo" "turn", 12)] in
  chain 7 (metas_of "t1" (run_writes ops sample_threads).2) ∧
  thread_revision "t1" (run_writes ops sample_threads).1 = Some 10.
Proof.
  cbv zeta.
  destruct (transcript_revisions_chain [(WAgent "t1" "a" "he" "turn", 10); (WCommand "t2" "c" "out", 11);
    (WAgent "t1" "a" "llo" "turn", 12)] sample_threads "t1"
    (runtime_new (MkSummary "t1" None "" "/srv" 1 true "" "idle" "" "codex" None false) "/srv"
       sample_settings 1 7)) as (_ & _ & Hc & _ & Hr).
  - split; [by vm_compute|]. apply map_Forall_insert_2; [done|]. by apply map_Forall_singleton.
  - reflexivity.
  - by vm_compute.
  - split; [exact Hc|]. rewrite Hr. by vm_compute.
Defined.
