(* ===== verification/LiveText.v ===== *)
(** * Live text: what is published is what was appended

    A client that replays the deltas of a thread it watches has the text the relay has,
    and each delta tells it where it belongs. *)

From Stdlib Require Import ZArith Lia Ascii String.
From S2P Require Import Prelude RustStr Json Approvals Transcript Runtime Push.
From S2P Require Import Paths Device Surfaces ThreadState ThreadTurns ThreadLemmas ThreadTheorems.

Open Scope string_scope.
Open Scope Z_scope.

(** ** Streamed output as steps *)
Inductive stream_op : Type :=
| SAgent (th item delta turn : string)
| SCommand (th item delta : string).

Definition sop_thread (o : stream_op) : string := match o with SAgent th _ _ _ | SCommand th _ _ => th end.

Definition exec_stream (clock now : Z) (o : stream_op) : ThreadState → ThreadState :=
  match o with
  | SAgent th item delta turn => bg_append_agent_delta clock th item delta turn now
  | SCommand th item delta => bg_append_command_delta clock th item delta now
  end.

Definition run_stream (ops : list (stream_op * (Z * Z))) (s : ThreadState) : ThreadState :=
  foldl (λ s o, exec_stream o.2.1 o.2.2 o.1 s) s ops.

(** The text of an entry. *)
Definition text_in (item : string) (l : list TranscriptRecord) : string :=
  default "" ((snd <$> list_find (λ r, tx_item_id r = item) l) ≫= tx_text).
Definition item_text (th item : string) (s : ThreadState) : string :=
  text_in item (runtime_transcript th s).

(** ** A client of one thread: the text of each entry *)
Notation Replica := (gmap string string).
Definition replica_text (rep : Replica) (item : string) : string := default "" (rep !! item).
Definition replica_apply (rep : Replica) (d : PendingTranscriptDelta) : Replica :=
  <[td_item_id d := replica_text rep (td_item_id d) +:+ td_delta d]> rep.

Definition deltas_of (th : string) (ds : list PendingTranscriptDelta) : list PendingTranscriptDelta :=
  filter (λ d, td_thread_id d = th) ds.
Definition replay (ds : list PendingTranscriptDelta) (rep : Replica) : Replica :=
  foldl replica_apply rep ds.

(** The offset a delta carries is the length of the text the client has. *)
Fixpoint offsets_agree (rep : Replica) (ds : list PendingTranscriptDelta) : Prop :=
  match ds with
  | [] => True
  | d :: ds =>
      (∀ off, td_text_offset d = Some off → off = utf16_len (replica_text rep (td_item_id d))) ∧
      offsets_agree (replica_apply rep d) ds
  end.

(** ** Appends on the list *)
Lemma text_in_position item l i :
  tx_position item l = Some i → text_in item l = default "" (l !! i ≫= tx_text).
Proof.
  unfold tx_position, text_in. destruct (list_find _ l) as [[j r]|] eqn:E; cbn; [|done].
  intros [= <-]. apply list_find_Some in E as (E & _). by rewrite E.
Qed.

Lemma text_in_none item l : tx_position item l = None → text_in item l = "".
Proof. unfold tx_position, text_in. by destruct (list_find _ l) as [[]|]. Qed.

Lemma list_find_alter item (f : TranscriptRecord → TranscriptRecord) i l :
  (∀ r, tx_item_id (f r) = tx_item_id r) →
  list_find (λ r, tx_item_id r = item) (alter f i l) =
  (λ p, (p.1, if decide (p.1 = i) then f p.2 else p.2)) <$> list_find (λ r, tx_item_id r = item) l.
Proof.
  intros Hf. revert i. induction l as [|r l IH]; intros i; [done|].
  destruct i as [|i]; cbn; rewrite ?Hf.
  - destruct (decide (tx_item_id r = item)); [done|].
    destruct (list_find _ l) as [[]|]; cbn; [|done]. by rewrite decide_False.
  - destruct (decide (tx_item_id r = item)); [done|]. rewrite IH.
    destruct (list_find _ l) as [[j x]|]; cbn; [|done]. repeat case_decide; naive_solver lia.
Qed.

Lemma text_in_alter item item' f i l :
  (∀ r, tx_item_id (f r) = tx_item_id r) → tx_position item l = Some i →
  text_in item' (alter f i l) =
  (if decide (item' = item) then default "" (l !! i ≫= tx_text ∘ f) else text_in item' l).
Proof.
  intros Hf Hp. unfold text_in. rewrite list_find_alter by done. unfold tx_position in Hp.
  destruct (list_find (λ r, tx_item_id r = item) l) as [[j r]|] eqn:E; [|done].
  injection Hp as <-. case_decide as Hd.
  - subst item'. rewrite E. cbn. rewrite decide_True by done. apply list_find_Some in E as (E & _).
    by rewrite E.
  - destruct (list_find (λ r, tx_item_id r = item') l) as [[k r']|] eqn:E'; cbn; [|done].
    case_decide as Hk; [|done]. subst k. apply list_find_Some in E as (E1 & E2 & _).
    apply list_find_Some in E' as (E1' & E2' & _). congruence.
Qed.

Lemma text_in_snoc item item' l r :
  tx_position item l = None → tx_item_id r = item →
  text_in item' (l ++ [r]) = (if decide (item' = item) then default "" (tx_text r) else text_in item' l).
Proof.
  unfold tx_position, text_in. intros Hp Hr.
  destruct (decide (item' = item)) as [->|Hd].
  - destruct (list_find _ l) as [[]|] eqn:E; [done|]. rewrite list_find_app_r by done. cbn.
    by rewrite decide_True.
  - destruct (list_find (λ r, tx_item_id r = item') l) as [[]|] eqn:E.
    + by rewrite (list_find_app_l _ _ _ _ _ E).
    + rewrite list_find_app_r by done. cbn. rewrite decide_False; [done|]. congruence.
Qed.

(** An append: which entry grows, and by what. *)
Definition grows (item wire : string) (l l' : list TranscriptRecord) : Prop :=
  ∀ item', text_in item' l' = (if decide (item' = item) then text_in item l +:+ wire else text_in item' l).

Lemma append_agent_grows item delta turn l :
  let '(l', _, off) := append_agent_in item delta turn l in
  grows item delta l l' ∧ off = utf16_len (text_in item l).
Proof.
  unfold append_agent_in. destruct (tx_position item l) as [i|] eqn:Hp.
  - rewrite (text_in_position _ _ _ Hp). split; [|done]. intros item'.
    rewrite (text_in_alter item item') by done. case_decide; [|done]. subst.
    rewrite (text_in_position _ _ _ Hp). unfold compose, append_agent_entry.
    destruct (l !! i) eqn:E; [done|]. exfalso. unfold tx_position in Hp.
    destruct (list_find _ l) as [[]|] eqn:E'; [|done]. apply list_find_Some in E' as (E' & _).
    naive_solver.
  - rewrite (text_in_none _ _ Hp). split; [|done]. intros item'.
    rewrite (text_in_snoc item item') by done. case_decide; [|done]. subst.
    by rewrite (text_in_none _ _ Hp).
Qed.

Lemma append_command_grows item delta l :
  let '(l', _, sep) := append_command_in item delta l in
  grows item (if sep then newline +:+ delta else delta) l l'.
Proof.
  unfold append_command_in. destruct (tx_position item l) as [i|] eqn:Hp.
  - intros item'. rewrite (text_in_alter item item') by done. case_decide; [|done]. subst.
    rewrite (text_in_position _ _ _ Hp). unfold compose, append_command_entry.
    destruct (l !! i) eqn:E; cbn.
    + case_match; [by rewrite string_app_assoc | done].
    + exfalso. unfold tx_position in Hp. destruct (list_find _ l) as [[]|] eqn:E'; [|done].
      apply list_find_Some in E' as (E' & _). naive_solver.
  - intros item'. rewrite (text_in_snoc item item') by done. case_decide; [|done]. subst.
    by rewrite (text_in_none _ _ Hp).
Qed.

(** ** One streamed event *)
Definition watched (th : string) (s : ThreadState) : Prop :=
  any_device_watches_thread th (surface_view s) = true.

(** What streaming does not change: the selection, the deletions, the watch sets. *)
Record stream_frame (s s' : ThreadState) : Prop := MkStreamFrame {
  stf_active : ts_active_thread_id s' = ts_active_thread_id s;
  stf_deleted : ts_locally_deleted_thread_ids s' = ts_locally_deleted_thread_ids s;
  stf_watched : sf_watched_threads (ts_surfaces s') = sf_watched_threads (ts_surfaces s)
}.
#[export] Instance stream_frame_preorder : PreOrder stream_frame.
Proof. split; [by intros s; constructor|]. intros s1 s2 s3 [] []. constructor; congruence. Qed.

Lemma same_frame_stream s s' : same_frame s s' → stream_frame s s'.
Proof. intros []. constructor; congruence. Qed.

Lemma same_frame_watches th s s' :
  same_frame s s' →
  any_device_watches_thread th (surface_view s') = any_device_watches_thread th (surface_view s).
Proof.
  intros [Ha _ _ _ _ Hs _ _]. unfold any_device_watches_thread, surface_view. cbn. by rewrite Ha, Hs.
Qed.

Lemma stream_frame_watched th s s' : stream_frame s s' → watched th s → watched th s'.
Proof. intros [Ha _ Hw]. unfold watched, any_device_watches_thread, surface_view. cbn. by rewrite Ha, Hw. Qed.

Lemma queue_delta_local m s :
  sf_local_deltas (queue_broker_message m s) =
  (sf_local_deltas s ++ match m with TranscriptDelta d => [d] | _ => [] end)%list ∧
  sf_watched_threads (queue_broker_message m s) = sf_watched_threads s.
Proof. unfold queue_broker_message. destruct m; cbn; [|case_match; done]. by rewrite app_nil_r. Qed.

Lemma touch_bg_stream clock th now s :
  let s' := touch_bg_progress_at clock th now s in
  stream_frame s s' ∧ ts_surfaces s' = ts_surfaces s ∧
  (is_Some (ts_runtimes s !! th) → ∀ th', runtime_transcript th' s' = runtime_transcript th' s) ∧
  (∀ th', is_Some (ts_runtimes s !! th') → is_Some (ts_runtimes s' !! th')) ∧
  (∀ th', th' ≠ th → ts_runtimes s' !! th' = ts_runtimes s !! th').
Proof.
  cbv zeta. unfold touch_bg_progress_at. set (s1 := ensure_runtime_for_thread clock th s).
  pose proof (ensure_frame clock th s) as Hf. fold s1 in Hf.
  assert (∀ th', th' ≠ th → ts_runtimes s1 !! th' = ts_runtimes s !! th') as Hne.
  { intros th' ?. unfold s1. by rewrite ensure_lookup_ne. }
  assert (is_Some (ts_runtimes s !! th) → s1 = s) as Hs.
  { intros [r Hr]. unfold s1. destruct (ensure_cases clock th s) as [[_ ->]|(Hn & _)]; congruence. }
  destruct (is_some _) eqn:Ht.
  - set (f := λ r, _). set (s2 := with_runtime th f s1).
    assert (∀ th', ts_runtimes s2 !! th' = (if decide (th' = th) then f <$> ts_runtimes s1 !! th'
      else ts_runtimes s1 !! th')) as H2.
    { intros th'. case_decide; [subst; apply with_runtime_lookup | by apply with_runtime_lookup_ne]. }
    assert (same_frame s (sync_if_active th s2)) as Hf2.
    { etrans; [exact Hf|]. etrans; [|apply sync_if_frame]. apply with_runtime_frame. }
    split_and!.
    + by apply same_frame_stream.
    + by destruct Hf2.
    + intros Hp th'. unfold runtime_transcript. rewrite sync_if_runtimes, H2, (Hs Hp).
      case_decide; [|done]. by destruct (ts_runtimes s !! th').
    + intros th' Hp. rewrite sync_if_runtimes, H2. case_decide.
      * subst. unfold s1. destruct (ensure_lookup clock th s) as [? ->]. eauto.
      * by rewrite Hne.
    + intros th' ?. rewrite sync_if_runtimes, H2, decide_False by done. auto.
  - split_and!; [by apply same_frame_stream | by destruct Hf | | |done].
    + intros Hp. by rewrite Hs.
    + intros th' Hp. destruct (decide (th' = th)) as [->|]; [apply ensure_lookup | by rewrite Hne].
Qed.

(** A streamed event on a watched thread that was not deleted publishes one delta, which
    is exactly the text by which the entry grew. *)
Lemma exec_stream_spec clock now o s :
  let th := sop_thread o in
  let s' := exec_stream clock now o s in
  th ∉ ts_locally_deleted_thread_ids s → is_Some (ts_runtimes s !! th) →
  stream_frame s s' ∧ (∀ th', is_Some (ts_runtimes s !! th') → is_Some (ts_runtimes s' !! th')) ∧
  (∀ th', th' ≠ th → ts_runtimes s' !! th' = ts_runtimes s !! th') ∧
  ∃ d, sf_local_deltas (ts_surfaces s') =
         (sf_local_deltas (ts_surfaces s) ++
          (if any_device_watches_thread th (surface_view s) then [d] else []))%list ∧
    td_thread_id d = th ∧
    grows (td_item_id d) (td_delta d) (runtime_transcript th s) (runtime_transcript th s') ∧
    (∀ off, td_text_offset d = Some off → off = utf16_len (item_text th (td_item_id d) s)).
Proof.
  cbv zeta. intros Hdel Hp. set (th := sop_thread o) in *.
  assert (ensure_runtime_for_thread clock th s = s) as Hs.
  { destruct Hp as [r Hr]. destruct (ensure_cases clock th s) as [[_ ->]|(Hn & _)]; congruence. }
  destruct Hp as [r Hr].
  (* both kinds: a written transcript, a queued delta, a progress stamp *)
  assert (∃ l wire item turn kind m,
    exec_stream clock now o s =
      touch_bg_progress_at clock th now
        (queue_background_transcript_delta th item wire turn kind m (written clock th l (λ _ r, r) s).1) ∧
    grows item wire (runtime_transcript th s) l ∧
    (∀ off, mm_text_offset m = Some off → off = utf16_len (item_text th item s)))
    as (l & wire & item & turn & kind & m & E & Hg & Hoff).
  { destruct o as [th0 item delta turn|th0 item delta]; cbn [sop_thread exec_stream] in *; subst th;
      unfold bg_append_agent_delta, bg_append_command_delta, bg_event, drop_bg_event_for_deleted_thread;
      rewrite bool_decide_eq_false_2 by done.
    - pose proof (agent_written clock th0 item delta turn s) as E. cbv zeta in E. rewrite Hs in E.
      pose proof (append_agent_grows item delta turn (runtime_transcript th0 s)) as Hg.
      destruct (append_agent_in _ _ _ _) as [[l seq] off]. rewrite E. destruct Hg as [Hg ->].
      do 6 eexists. split; [reflexivity|]. split; [exact Hg|]. cbn. by intros ? [= <-].
    - pose proof (command_written clock th0 item delta s) as E. cbv zeta in E. rewrite Hs in E.
      pose proof (append_command_grows item delta (runtime_transcript th0 s)) as Hg.
      destruct (append_command_in _ _ _) as [[l seq] sep]. rewrite E.
      do 6 eexists. split; [reflexivity|]. split; [exact Hg|]. done. }
  destruct (written_spec clock th l (λ _ r, r) s r Hr) as (Hrt & _ & _ & Hf).
  set (s1 := (written clock th l (λ _ r, r) s).1) in *.
  set (s2 := queue_background_transcript_delta th item wire turn kind m s1) in *.
  assert (any_device_watches_thread th (surface_view s1) = any_device_watches_thread th (surface_view s))
    as Hw by by apply same_frame_watches.
  assert (stream_frame s s2 ∧ ts_runtimes s2 = ts_runtimes s1 ∧ ∃ d,
    sf_local_deltas (ts_surfaces s2) = (sf_local_deltas (ts_surfaces s) ++
      (if any_device_watches_thread th (surface_view s) then [d] else []))%list ∧
    td_thread_id d = th ∧ td_item_id d = item ∧ td_delta d = wire ∧ td_text_offset d = mm_text_offset m)
    as (Hf2 & Hrt2 & d & Hd & <- & <- & <- & Ho).
  { unfold s2, queue_background_transcript_delta. rewrite Hw.
    set (d := MkDelta _ _ _ _ _ _ _ _ _ _). clear Hw.
    destruct (any_device_watches_thread th (surface_view s)) eqn:Ew.
    - split_and!; [|done|].
      + etrans; [by apply same_frame_stream|]. constructor; try done. cbn. apply queue_delta_local.
      + exists d. split_and!; try done.
        trans (sf_local_deltas (queue_broker_message (TranscriptDelta d) (ts_surfaces s1))); [done|].
        by rewrite (proj1 (queue_delta_local _ _)), (sfr_surfaces _ _ Hf).
    - split_and!; [by apply same_frame_stream|done|]. exists d. rewrite app_nil_r.
      split_and!; try done. by rewrite (sfr_surfaces _ _ Hf). }
  destruct (touch_bg_stream clock (td_thread_id d) now s2) as (Hf3 & Hsf & Htr & Hkeep & Hne).
  rewrite E. split_and!.
  - by etrans.
  - intros th' Hp'. apply Hkeep. rewrite Hrt2, Hrt.
    destruct (decide (td_thread_id d = th')) as [<-|]; [rewrite lookup_insert_eq; eauto|].
    by rewrite lookup_insert_ne.
  - intros th' Hth'. rewrite Hne, Hrt2, Hrt, lookup_insert_ne by done. done.
  - exists d. rewrite Hsf. split_and!; [done|done| |].
    + rewrite Htr by (rewrite Hrt2, Hrt, lookup_insert_eq; eauto).
      unfold runtime_transcript at 2. rewrite Hrt2, Hrt, lookup_insert_eq. done.
    + by rewrite Ho.
Qed.

Lemma deltas_of_app th a b : deltas_of th (a ++ b) = (deltas_of th a ++ deltas_of th b)%list.
Proof. apply filter_app. Qed.

(** C13: live text.  However agent text and command output stream into a thread that is
    watched and not deleted, interleaved with other threads, a client that starts from
    the relay's text and appends every delta published for the thread has, entry by
    entry, exactly the relay's text; and every offset it is given is the UTF-16 length of
    the text it has. *)
Theorem published_deltas_reconstruct_text ops : ∀ s th rep,
  (∀ item, replica_text rep item = item_text th item s) →
  watched th s → is_Some (ts_runtimes s !! th) → th ∉ ts_locally_deleted_thread_ids s →
  Forall (λ o, is_Some (ts_runtimes s !! sop_thread o.1) ∧
               sop_thread o.1 ∉ ts_locally_deleted_thread_ids s) ops →
  ∃ ds, sf_local_deltas (ts_surfaces (run_stream ops s)) =
          (sf_local_deltas (ts_surfaces s) ++ ds)%list ∧
    (∀ item, replica_text (replay (deltas_of th ds) rep) item = item_text th item (run_stream ops s)) ∧
    offsets_agree rep (deltas_of th ds).
Proof.
  induction ops as [|[o [clock now]] ops IH]; intros s th rep Hrep Hw Hp Hdel Hops.
  { exists []. rewrite app_nil_r. done. }
  apply Forall_cons in Hops as [[Hpo Hdo] Hops].
  destruct (exec_stream_spec clock now o s Hdo Hpo) as (Hf & Hkeep & Hne & d & Hd & Hth & Hg & Ho).
  set (s' := exec_stream clock now o s) in *. cbn [fst snd] in *.
  set (now_ds := if any_device_watches_thread (sop_thread o) (surface_view s) then [d] else []) in *.
  assert (∀ item, replica_text (replay (deltas_of th now_ds) rep) item = item_text th item s') as Hrep'.
  { intros item. unfold item_text. destruct (decide (sop_thread o = th)) as [E|E].
    - subst th. unfold now_ds. rewrite Hw. unfold deltas_of. rewrite filter_cons, decide_True by done.
      cbn. rewrite (Hg item). unfold replica_text, replica_apply.
      destruct (decide (item = td_item_id d)) as [->|Hi].
      + rewrite lookup_insert_eq. cbn. by rewrite Hrep.
      + rewrite lookup_insert_ne by done. apply Hrep.
    - assert (deltas_of th now_ds = []) as ->.
      { unfold now_ds, deltas_of. case_match; [|done]. rewrite filter_cons, decide_False by congruence. done. }
      cbn. rewrite Hrep. unfold item_text, runtime_transcript. by rewrite Hne. }
  assert (offsets_agree rep (deltas_of th now_ds)) as Hoff.
  { unfold now_ds, deltas_of. case_match; [|done]. rewrite filter_cons. case_decide as E; [|done].
    cbn. split; [|done]. intros off Hoff. rewrite Hrep. rewrite <- E, Hth. by apply Ho. }
  destruct (IH s' th (replay (deltas_of th now_ds) rep)) as (ds & E1 & E2 & E3).
  - done.
  - by eapply stream_frame_watched.
  - by apply Hkeep.
  - destruct Hf as [_ -> _]. done.
  - eapply Forall_impl; [exact Hops|]. intros [o' ?] [? ?]. cbn in *. destruct Hf as [_ -> _]. auto.
  - exists (now_ds ++ ds)%list. rewrite deltas_of_app. unfold replay in *. rewrite foldl_app.
    split_and!; [|done|].
    + cbn [run_stream foldl fst snd]. fold s'. unfold run_stream in E1. rewrite E1, Hd.
      by rewrite app_assoc.
    + unfold now_ds in *. destruct (any_device_watches_thread _ _); [|done].
      destruct (deltas_of th [d]) as [|d' l] eqn:El; [done|].
      assert (l = []) as ->.
      { unfold deltas_of in El. rewrite filter_cons in El. by case_decide; simplify_eq/=. }
      destruct Hoff. by split.
Qed.

Lemma published_deltas_reconstruct_text_witness :
  let ops := [(SAgent "t1" "a" "he" "turn", (10, 10)); (SCommand "t2" "c" "out", (11, 11));
              (SAgent "t1" "a" "llo" "turn", (12, 12)); (SCommand "t1" "c" "x", (13, 13))] in
  ∃ ds, sf_local_deltas (ts_surfaces (run_stream ops sample_threads)) = ds ∧
    replica_text (replay (deltas_of "t1" ds) ∅) "a" = "hello".
Proof.
  cbv zeta.
  destruct (published_deltas_reconstruct_text
    [(SAgent "t1" "a" "he" "turn", (10, 10)); (SCommand "t2" "c" "out", (11, 11));
     (SAgent "t1" "a" "llo" "turn", (12, 12)); (SCommand "t1" "c" "x", (13, 13))]
    sample_threads "t1" ∅) as (ds & E1 & E2 & _).
  - done.
  - by vm_compute.
  - by eexists.
  - set_solver.
  - repeat (apply Forall_cons; split; [split; [by eexists | set_solver]|]). by apply Forall_nil.
  - exists ds. split; [exact E1|]. rewrite (E2 "a"). by vm_compute.
Defined.
