(* ===== verification/ThreadDeletion.v ===== *)
(** * Deleted threads stay deleted

    Events of a thread arrive after its deletion: a turn still streaming, a provider's
    listing that names it, a request for an approval.  None of them gives it back a row or its
    settings, those the relay checks against the mark of the deletion change nothing at all,
    and no event of one thread reaches another.  The writes that carry no such check (a status,
    an approval, a question, and the writers of the thread the user looks at) do recreate a
    runtime and a pending request: the theorem says which, and the last lemma shows it. *)

From Stdlib Require Import ZArith Lia Ascii String.
From S2P Require Import Prelude RustStr Json Approvals Transcript Runtime Push.
From S2P Require Import TeamTypes Tokens Backend TeamRun TeamThreads Device WorkflowRun ReviewJob.
From S2P Require Import TeamTable Surfaces ThreadState ThreadTurns ThreadRows ThreadFlow ThreadLemmas ThreadTheorems.

Open Scope string_scope.
Open Scope Z_scope.

(** ** Events *)
Inductive thread_event : Type :=
| EvAgentDelta (th item delta turn : string)
| EvCommandDelta (th item delta : string)
| EvStartAgent (th item turn : string)
| EvCompleteAgent (th item text turn : string)
| EvUserMessage (th item text turn : string)
| EvStartCommand (th item command status turn : string)
| EvCommandResult (th item command : string) (output : option string) (status turn : string)
| EvUpsert (th : string) (w : EntryWrite)
| EvTurnDiff (th item : string) (text : option string) (status : string) (turn : option string)
    (tool : option ToolCallView)
| EvItemStatus (th item status : string)
| EvStatus (th status : string) (flags : list string)
| EvTurn (th : string) (turn : option string)
| EvRow (t : ThreadSummaryView)
(** Writes that do not ask whether the thread was deleted. *)
| EvSetStatus (th status : string) (flags : list string)
| EvProgress (th : string) (phase tool : option string)
| EvDirectDelta (th item delta turn : string)
| EvDirectUpsert (th : string) (w : EntryWrite)
| EvApproval (p : PendingApproval)
| EvQuestion (p : PendingAskUserQuestion).

Definition ev_thread (e : thread_event) : string :=
  match e with
  | EvAgentDelta th _ _ _ | EvCommandDelta th _ _ | EvStartAgent th _ _ | EvCompleteAgent th _ _ _
  | EvUserMessage th _ _ _ | EvStartCommand th _ _ _ _ | EvCommandResult th _ _ _ _ _
  | EvUpsert th _ | EvTurnDiff th _ _ _ _ _ | EvItemStatus th _ _ | EvStatus th _ _ | EvTurn th _
  | EvSetStatus th _ _ | EvProgress th _ _ | EvDirectDelta th _ _ _ | EvDirectUpsert th _ => th
  | EvRow t => sm_id t
  | EvApproval p => pa_thread_id p
  | EvQuestion p => pq_thread_id p
  end.
(** The events whose handling looks at the marks of deleted threads first. *)
Definition asks_for_the_mark (e : thread_event) : bool :=
  match e with
  | EvSetStatus _ _ _ | EvProgress _ _ _ | EvDirectDelta _ _ _ _ | EvDirectUpsert _ _
  | EvApproval _ | EvQuestion _ => false
  | _ => true
  end.

(** [clock] is the relay's time, [now] the event's. *)
Definition exec_event (clock now : Z) (e : thread_event) : ThreadState → ThreadState :=
  match e with
  | EvAgentDelta th item delta turn => bg_append_agent_delta clock th item delta turn now
  | EvCommandDelta th item delta => bg_append_command_delta clock th item delta now
  | EvStartAgent th item turn => bg_start_agent_message clock th item turn now
  | EvCompleteAgent th item text turn => bg_complete_agent_message clock th item text turn now
  | EvUserMessage th item text turn => bg_upsert_user_message clock th item text turn now
  | EvStartCommand th item command status turn =>
      bg_start_command_execution clock th item command status turn now
  | EvCommandResult th item command output status turn =>
      bg_add_command_result clock th item command output status turn now
  | EvUpsert th w => bg_upsert_transcript_item clock th w now
  | EvTurnDiff th item text status turn tool =>
      bg_upsert_turn_diff_item clock th item text status turn tool now
  | EvItemStatus th item status => bg_set_transcript_item_status clock th item status now
  | EvStatus th status flags => bg_set_thread_status clock th status flags now
  | EvTurn th turn => bg_set_active_turn clock th turn now
  | EvRow t => upsert_thread t
  | EvSetStatus th status flags => set_thread_status clock th status flags
  | EvProgress th phase tool => touch_thread_progress clock th phase tool
  | EvDirectDelta th item delta turn => λ s, (append_agent_delta_for_thread clock th item delta turn s).1
  | EvDirectUpsert th w => λ s, (upsert_transcript_item_for_thread clock th w s).1
  | EvApproval p => add_pending_approval clock p
  | EvQuestion p => add_pending_ask_user_question clock p
  end.

Definition run_events (evs : list (thread_event * (Z * Z))) (s : ThreadState) : ThreadState :=
  foldl (λ s e, exec_event e.2.1 e.2.2 e.1 s) s evs.

(** ** What an event of one thread can reach *)
Definition row_ids (s : ThreadState) : list string := map sm_id (ts_threads s).

Record touches (th : string) (s s' : ThreadState) : Prop := MkTouches {
  tch_deleted : ts_locally_deleted_thread_ids s' = ts_locally_deleted_thread_ids s;
  tch_runtimes : ∀ i, i ≠ th → ts_runtimes s' !! i = ts_runtimes s !! i;
  tch_rows : ∀ i, i ∈ row_ids s' → i ∈ row_ids s;
  tch_settings : ts_thread_settings s' = ts_thread_settings s;
  tch_approvals : ∀ id p,
    ts_pending_approvals s' !! id = Some p → ts_pending_approvals s !! id = Some p;
  tch_questions : ∀ id p,
    ts_pending_ask_user_questions s' !! id = Some p → ts_pending_ask_user_questions s !! id = Some p
}.
#[export] Instance touches_preorder th : PreOrder (touches th).
Proof.
  split; [by intros s; constructor|]. intros s1 s2 s3 H1 H2. constructor.
  - by rewrite (tch_deleted _ _ _ H2), (tch_deleted _ _ _ H1).
  - intros i Hi. by rewrite (tch_runtimes _ _ _ H2 i Hi), (tch_runtimes _ _ _ H1 i Hi).
  - intros i Hr. by apply (tch_rows _ _ _ H1 i), (tch_rows _ _ _ H2 i).
  - by rewrite (tch_settings _ _ _ H2), (tch_settings _ _ _ H1).
  - intros id p Hp. by apply (tch_approvals _ _ _ H1 id p), (tch_approvals _ _ _ H2 id p).
  - intros id p Hp. by apply (tch_questions _ _ _ H1 id p), (tch_questions _ _ _ H2 id p).
Qed.

Lemma frame_touches th s s' :
  same_frame s s' → (∀ i, i ≠ th → ts_runtimes s' !! i = ts_runtimes s !! i) → touches th s s'.
Proof.
  intros [_ Hr Hd Ha Hq _ Hs _] ?. constructor; unfold row_ids; rewrite ?Hr, ?Hd, ?Ha, ?Hq, ?Hs; auto.
Qed.

Create HintDb touches.

Section Touch.
Context (now : Z) (th : string).
Implicit Types s : ThreadState.

Lemma touches_ensure s s0 : touches th s0 s → touches th s0 (ensure_runtime_for_thread now th s).
Proof.
  intros H. etrans; [exact H|]. apply frame_touches; [apply ensure_frame|]. intros i ?.
  by apply ensure_lookup_ne.
Qed.

Lemma touches_with_runtime f s s0 : touches th s0 s → touches th s0 (with_runtime th f s).
Proof.
  intros H. etrans; [exact H|]. apply frame_touches; [apply with_runtime_frame|]. intros i ?.
  by apply with_runtime_lookup_ne.
Qed.

Lemma touches_sync s s0 : touches th s0 s → touches th s0 (sync_if_active th s).
Proof.
  intros H. etrans; [exact H|]. apply frame_touches; [apply sync_if_frame|]. intros i ?.
  by rewrite sync_if_runtimes.
Qed.

Lemma touches_notify s s0 : touches th s0 s → touches th s0 (notify s).
Proof. intros H. etrans; [exact H|]. by constructor. Qed.

Lemma touches_queue item delta turn kind m s s0 :
  touches th s0 s → touches th s0 (queue_background_transcript_delta th item delta turn kind m s).
Proof.
  intros H. etrans; [exact H|]. unfold queue_background_transcript_delta. case_match; by constructor.
Qed.

Lemma touches_drop s s0 : touches th s0 s → touches th s0 (drop_pending_requests_for_thread th s).
Proof.
  intros H. etrans; [exact H|]. apply touches_with_runtime. constructor; try done.
  - intros id p. cbn. rewrite map_lookup_filter_Some. naive_solver.
  - intros id p. cbn. rewrite map_lookup_filter_Some. naive_solver.
Qed.

Lemma touches_bump s s0 :
  touches th s0 s → touches th s0 (bump_thread_transcript_revision now th s).1.
Proof.
  intros H. etrans; [exact H|]. unfold bump_thread_transcript_revision.
  set (s1 := touch_thread_last_activity now th s).
  set (s2 := if is_some _ then s1 else _).
  assert (touches th s s2) as H2.
  { unfold s2. case_match; [by constructor|]. apply touches_ensure. by constructor. }
  cbn [fst]. etrans; [exact H2|]. cbn.
  match goal with |- context [with_runtime th ?f ?x] => assert (touches th s2 (with_runtime th f x)) as H3 end.
  { apply touches_with_runtime. by constructor. }
  case_match; [|exact H3]. etrans; [exact H3|]. by constructor.
Qed.
End Touch.
#[export] Hint Resolve touches_ensure touches_with_runtime touches_sync touches_notify touches_queue
  touches_drop touches_bump : touches.
#[export] Hint Extern 1 (touches _ ?s ?s) => reflexivity : touches.

Lemma alter_row_ids th f l :
  (∀ t, sm_id (f t) = sm_id t) → map sm_id (alter_row th f l) = map sm_id l.
Proof.
  intros Hf. unfold alter_row. destruct (list_find _ l) as [[i t]|]; [|done].
  revert i. induction l as [|x l IH]; intros [|i]; cbn; f_equal; auto.
Qed.

Section Events.
Context (now : Z) (th : string).
Implicit Types s : ThreadState.

Lemma touches_upsert w s : touches th s (upsert_transcript_item_for_thread now th w s).1.
Proof.
  unfold upsert_transcript_item_for_thread. destruct (upsert_in _ _) as [l seq].
  match goal with |- context [bump_thread_transcript_revision now th ?x] =>
    pose proof (touches_bump now th x s ltac:(unfold set_runtime_transcript; eauto with touches)) as H end.
  destruct (bump_thread_transcript_revision _ _ _) as [s' [b v]]. cbn [fst] in *.
  unfold stamp_transcript_item_seq. eauto with touches.
Qed.

Lemma touches_append_agent item delta turn s :
  touches th s (append_agent_delta_for_thread now th item delta turn s).1.
Proof.
  unfold append_agent_delta_for_thread. destruct (append_agent_in _ _ _ _) as [[l seq] off].
  match goal with |- context [bump_thread_transcript_revision now th ?x] =>
    pose proof (touches_bump now th x s ltac:(unfold set_runtime_transcript; eauto with touches)) as H end.
  destruct (bump_thread_transcript_revision _ _ _) as [s' [b v]]. cbn [fst] in *. eauto with touches.
Qed.

Lemma touches_append_command item delta s :
  touches th s (append_command_delta_for_thread now th item delta s).1.
Proof.
  unfold append_command_delta_for_thread. destruct (append_command_in _ _ _) as [[l seq] sep].
  match goal with |- context [bump_thread_transcript_revision now th ?x] =>
    pose proof (touches_bump now th x s ltac:(unfold set_runtime_transcript; eauto with touches)) as H end.
  destruct (bump_thread_transcript_revision _ _ _) as [s' [b v]]. cbn [fst] in *. eauto with touches.
Qed.

Lemma touches_item_status item status s :
  touches th s (set_transcript_item_status_for_thread now th item status s).1.
Proof.
  unfold set_transcript_item_status_for_thread. case_match; [|eauto with touches].
  match goal with |- context [bump_thread_transcript_revision now th ?x] =>
    pose proof (touches_bump now th x s ltac:(unfold set_runtime_transcript; eauto with touches)) as H' end.
  destruct (bump_thread_transcript_revision _ _ _) as [s' [b v]]. cbn [fst] in *. eauto with touches.
Qed.

Lemma touches_status status flags s : touches th s (set_thread_status now th status flags s).
Proof.
  unfold set_thread_status. apply touches_sync.
  assert (∀ x, touches th s x → touches th s (x <| ts_threads ::=
    alter_row th (λ t, t <| sm_status := status |>) |>)) as H.
  { intros x Hx. etrans; [exact Hx|]. constructor; try done. intros i. unfold row_ids. cbn.
    by rewrite alter_row_ids. }
  apply H. case_match; eauto with touches.
Qed.

Lemma touches_bg_progress clock s s0 :
  touches th s0 s → touches th s0 (touch_bg_progress_at clock th now s).
Proof. intros H. unfold touch_bg_progress_at. case_match; eauto with touches. Qed.
End Events.
#[export] Hint Resolve touches_upsert touches_append_agent touches_append_command touches_item_status
  touches_status touches_bg_progress : touches.

Lemma fill_from_id e t : sm_id (fill_from e t) = sm_id t.
Proof. done. Qed.

Lemma put_row_ids t l i : i ∈ map sm_id (put_row t l) → i = sm_id t ∨ i ∈ map sm_id l.
Proof.
  unfold put_row. destruct (list_find _ l) as [[k x]|] eqn:E; cbn; [|set_solver].
  rewrite !list_elem_of_In, !in_map_iff. intros (y & <- & Hy).
  apply list_elem_of_In, list_elem_of_lookup in Hy as [j Hj].
  apply list_lookup_insert_Some in Hj as [(-> & -> & _)|(_ & Hj)]; [by left|]. right. exists y.
  split; [done|]. apply list_elem_of_In. by eapply list_elem_of_lookup_2.
Qed.

(** What the handling of an event does last: a row or a request enters the tables of all
    threads. *)
Definition recorded (e : thread_event) (s s' : ThreadState) : Prop :=
  match e with
  | EvRow t => s' = s ∨ ∃ t', sm_id t' = sm_id t ∧ s' = s <| ts_threads ::= put_row t' |>
  | EvApproval p => s' = s <| ts_pending_approvals ::= <[pa_request_id p := p]> |>
  | EvQuestion p => s' = s <| ts_pending_ask_user_questions ::= <[pq_request_id p := p]> |>
  | _ => s' = s
  end.
Definition reaches (e : thread_event) (s s' : ThreadState) : Prop :=
  ∃ s1, touches (ev_thread e) s s1 ∧ recorded e s1 s'.

Lemma row_reaches t s : reaches (EvRow t) s (upsert_thread t s).
Proof.
  unfold upsert_thread. case_decide; [exists s; by split; [|left]|]. cbv zeta.
  set (t1 := apply_custom_thread_name s t).
  assert (sm_id t1 = sm_id t) as H1 by (unfold t1, apply_custom_thread_name; repeat case_match; done).
  set (t2 := match thread_row _ _ with Some _ => _ | None => t1 end).
  assert (sm_id t2 = sm_id t) as H2 by (unfold t2; case_match; done).
  set (t3 := if is_empty (sm_provider t2) then _ else t2).
  assert (sm_id t3 = sm_id t) as H3 by (unfold t3; repeat case_match; done).
  eexists. split; [|right; by exists t3]. cbn. rewrite <- H3. by apply touches_with_runtime.
Qed.

(** An event of one thread stays there; one whose handling looks at the marks changes nothing
    for a deleted thread. *)
Lemma exec_event_touches clock now e s :
  (asks_for_the_mark e = true → ev_thread e ∈ ts_locally_deleted_thread_ids s → exec_event clock now e s = s) ∧
  reaches e s (exec_event clock now e s).
Proof.
  assert (∀ th f, (∀ x, touches th x (f x)) →
    (th ∈ ts_locally_deleted_thread_ids s → bg_event clock th now f s = s) ∧
    touches th s (bg_event clock th now f s)) as Hbg.
  { intros th f Hf. unfold bg_event, drop_bg_event_for_deleted_thread. split; intros.
    - by rewrite bool_decide_eq_true_2.
    - case_bool_decide; [done|]. auto with touches. }
  assert (∀ s', recorded e s' s' → (ev_thread e ∈ ts_locally_deleted_thread_ids s → s' = s) ∧
    touches (ev_thread e) s s' → (asks_for_the_mark e = true → ev_thread e ∈ ts_locally_deleted_thread_ids s → s' = s) ∧
    reaches e s s') as Hkeep by (intros s' Hr [H1 H2]; split; [by intros _|by exists s']).
  destruct e; cbn [ev_thread exec_event asks_for_the_mark] in *;
    try (apply Hkeep; [done|apply Hbg; intros x]).
  - pose proof (touches_append_agent clock th item delta turn x) as H.
    destruct (append_agent_delta_for_thread _ _ _ _ _ _) as [x' m]. auto with touches.
  - pose proof (touches_append_command clock th item delta x) as H.
    destruct (append_command_delta_for_thread _ _ _ _ _) as [x' m]. auto with touches.
  - apply touches_upsert.
  - apply touches_upsert.
  - apply touches_upsert.
  - apply touches_upsert.
  - apply touches_upsert.
  - apply touches_upsert.
  - apply touches_upsert.
  - apply touches_item_status.
  - apply touches_status.
  - apply Hkeep; [done|]. unfold bg_set_active_turn, drop_bg_event_for_deleted_thread. split; intros.
    + by rewrite bool_decide_eq_true_2.
    + case_bool_decide; [done|]. auto with touches.
  - split; [|apply row_reaches]. intros _ H. unfold upsert_thread. by rewrite decide_True.
  - split; [discriminate|]. eexists. split; [apply touches_status|done].
  - split; [discriminate|]. eexists. split; [|done]. unfold touch_thread_progress. auto with touches.
  - split; [discriminate|]. eexists. split; [apply touches_append_agent|done].
  - split; [discriminate|]. eexists. split; [apply touches_upsert|done].
  - split; [discriminate|]. eexists. split; [|done]. case_match; auto with touches.
  - split; [discriminate|]. eexists. split; [|done]. case_match; auto with touches.
Qed.

(** The event is of the thread, and its handling does not look at the marks. *)
Definition raises (th : string) (e : thread_event) : Prop :=
  asks_for_the_mark e = false ∧ ev_thread e = th.

(** What is left of a deleted thread after [evs]: the mark, no row, no settings; a runtime and
    pending requests only where some event of the thread put them without looking at the mark. *)
Record dead (th : string) (evs : list thread_event) (s : ThreadState) : Prop := MkDead {
  dd_marked : th ∈ ts_locally_deleted_thread_ids s;
  dd_row : th ∉ row_ids s;
  dd_settings : ts_thread_settings s !! th = None;
  dd_runtime : is_Some (ts_runtimes s !! th) → ∃ e, e ∈ evs ∧ raises th e;
  dd_approvals : ∀ id p, ts_pending_approvals s !! id = Some p → pa_thread_id p = th → EvApproval p ∈ evs;
  dd_questions : ∀ id p, ts_pending_ask_user_questions s !! id = Some p → pq_thread_id p = th → EvQuestion p ∈ evs
}.

Lemma deleted_is_dead th s : dead th [] (mark_thread_deleted th s).
Proof.
  unfold mark_thread_deleted.
  set (s1 := s <| ts_locally_deleted_thread_ids ::= λ ids, ids ∪ {[ th ]} |>).
  set (s2 := if is_some (ts_thread_project_id s1 !! th) then _ else _).
  assert (th ∈ ts_locally_deleted_thread_ids s2) as H2.
  { unfold s2. case_match; cbn; set_solver. }
  unfold remove_thread, forget_search_routing_hint. cbn [fst].
  constructor; unfold row_ids; cbn.
  - by repeat case_match.
  - intros (t & Ht & Hin)%list_elem_of_In%in_map_iff. apply list_elem_of_In in Hin.
    repeat case_match; cbn in Hin; apply list_elem_of_filter in Hin as [? _]; done.
  - repeat case_match; cbn; apply lookup_delete_eq.
  - intros []%eq_None_not_Some. rewrite lookup_alter_None. repeat case_match; apply lookup_delete_eq.
  - intros id p. repeat case_match; cbn; rewrite map_lookup_filter_Some; naive_solver.
  - intros id p. repeat case_match; cbn; rewrite map_lookup_filter_Some; naive_solver.
Qed.

Lemma recorded_same e s s' : recorded e s s' →
  ts_locally_deleted_thread_ids s' = ts_locally_deleted_thread_ids s ∧
  ts_thread_settings s' = ts_thread_settings s ∧ ts_runtimes s' = ts_runtimes s ∧
  (∀ i, i ∈ row_ids s' → i ∈ row_ids s ∨ ∃ t, e = EvRow t ∧ i = sm_id t) ∧
  (∀ id p, ts_pending_approvals s' !! id = Some p → ts_pending_approvals s !! id = Some p ∨ e = EvApproval p) ∧
  (∀ id p, ts_pending_ask_user_questions s' !! id = Some p →
     ts_pending_ask_user_questions s !! id = Some p ∨ e = EvQuestion p).
Proof.
  destruct e; cbn; try by (intros ->; split_and!; auto).
  - intros [->|(t' & Ht & ->)]; [by split_and!; auto|]. split_and!; auto. intros i Hi. unfold row_ids in *. cbn in Hi.
    apply put_row_ids in Hi as [->|Hi]; [right; exists t; by rewrite Ht|by left].
  - intros ->. split_and!; auto. intros id q. cbn. intros [(_ & ->)|(_ & ?)]%lookup_insert_Some; auto.
  - intros ->. split_and!; auto. intros id q. cbn. intros [(_ & ->)|(_ & ?)]%lookup_insert_Some; auto.
Qed.

Lemma event_keeps_dead clock now e th evs s : dead th evs s → dead th (evs ++ [e]) (exec_event clock now e s).
Proof.
  intros [Hm Hrow Hset Hrt Ha Hq]. destruct (exec_event_touches clock now e s) as [Hid (s1 & Ht & Hrec)].
  apply recorded_same in Hrec as (E1 & E2 & E3 & Er & Ea & Eq).
  destruct (decide (ev_thread e = th ∧ asks_for_the_mark e = true)) as [[<- Ek]|Hn].
  { rewrite Hid by done. constructor; [done..| | |]; intros; set_solver. }
  constructor.
  - by rewrite E1, (tch_deleted _ _ _ Ht).
  - intros [Hr|(t & -> & ->)]%Er; [by apply (tch_rows _ _ _ Ht) in Hr|]. by apply Hn.
  - by rewrite E2, (tch_settings _ _ _ Ht).
  - rewrite E3. destruct (decide (ev_thread e = th)) as [Eth|Hne].
    + intros _. exists e. split; [set_solver|]. split; [|done]. by destruct (asks_for_the_mark e); [destruct Hn|].
    + rewrite (tch_runtimes _ _ _ Ht) by congruence. set_solver.
  - intros id p [Hp| ->]%Ea Hth; [|set_solver]. apply (tch_approvals _ _ _ Ht) in Hp. set_solver.
  - intros id p [Hp| ->]%Eq Hth; [|set_solver]. apply (tch_questions _ _ _ Ht) in Hp. set_solver.
Qed.

Lemma events_keep_dead th before evs s :
  dead th before s → dead th (before ++ map fst evs) (run_events evs s).
Proof.
  revert before s. induction evs as [|[e [clock now]] evs IH]; intros before s Hd; cbn [map run_events foldl].
  - by rewrite app_nil_r.
  - rewrite cons_middle, (assoc_L app). by apply IH, event_keeps_dead.
Qed.

Lemma events_stay_apart other evs s : (∀ e, e ∈ map fst evs → ev_thread e ≠ other) →
  ts_runtimes (run_events evs s) !! other = ts_runtimes s !! other.
Proof.
  revert s. induction evs as [|[e [clock now]] evs IH]; intros s Ho; [done|]. cbn in Ho.
  unfold run_events in *. cbn. rewrite IH by set_solver.
  destruct (proj2 (exec_event_touches clock now e s)) as (s1 & Ht & (_ & _ & E & _)%recorded_same).
  rewrite E. apply (tch_runtimes _ _ _ Ht). intros ->. apply (Ho e); [set_solver|done].
Qed.

(** C14: deletion is final for the row and the settings of a thread, and for all events that
    are checked against its mark.  Once a thread is deleted locally, any sequence of provider
    events and listing rows, of that thread or of others, in any order, leaves the mark, no row
    and no remembered settings.  It has a runtime only if some event of this very thread whose
    handling does not look at the mark came in since, and a pending approval or question only
    if that very request came in since; none that was pending comes back.  The runtimes of the
    threads none of the events name are the same as if nothing had happened. *)
Theorem deleted_thread_stays_dead th s evs :
  let s' := run_events evs (mark_thread_deleted th s) in
  th ∈ ts_locally_deleted_thread_ids s' ∧ th ∉ row_ids s' ∧ ts_thread_settings s' !! th = None ∧
  (is_Some (ts_runtimes s' !! th) → ∃ e, e ∈ map fst evs ∧ asks_for_the_mark e = false ∧ ev_thread e = th) ∧
  (∀ id p, ts_pending_approvals s' !! id = Some p → pa_thread_id p = th → EvApproval p ∈ map fst evs) ∧
  (∀ id p, ts_pending_ask_user_questions s' !! id = Some p → pq_thread_id p = th → EvQuestion p ∈ map fst evs) ∧
  ∀ other, (∀ e, e ∈ map fst evs → ev_thread e ≠ other) →
    ts_runtimes s' !! other = ts_runtimes (mark_thread_deleted th s) !! other.
Proof.
  cbv zeta. destruct (events_keep_dead th [] evs _ (deleted_is_dead th s)) as [].
  split_and!; [done..|]. intros other. apply events_stay_apart.
Qed.

(** The exception happens: an approval a provider asks for after the deletion gives the thread
    a working runtime and a pending request again. *)
Definition late_request : PendingApproval :=
  MkPendingApproval "req" JNull AkCommand "t1" "run tests" None None None None None [] false.
Lemma late_request_revives_a_deleted_thread :
  let s' := run_events [(EvSetStatus "t1" "active" ["waitingOnApproval"], (50, 50)); (EvApproval late_request, (50, 50))]
              (mark_thread_deleted "t1" (relay_state_new "/srv")) in
  "t1" ∈ ts_locally_deleted_thread_ids s' ∧ (rt_current_status <$> ts_runtimes s' !! "t1") = Some "active" ∧
  ts_pending_approvals s' !! "req" = Some late_request.
Proof. split_and!; [apply (bool_decide_unpack _)|..]; vm_compute; reflexivity. Qed.
