(* ===== verification/Watchdog.v ===== *)
(** * The turn watchdog (crates/relay-server/src/state/app/mod.rs, state/app/sessions.rs)

    Every 15 seconds the relay looks for turns that made no progress for ten minutes and
    asks their provider to stop them; a provider that accepts and never confirms has its
    turn ended locally.  The lock is released while the provider is asked, so the other
    tasks' writes are explicit arguments here. *)

From Stdlib Require Import ZArith Lia Ascii String.
From S2P Require Import Prelude RustStr Json Approvals Transcript Runtime Push.
From S2P Require Import Device Surfaces ThreadState ThreadTurns ThreadLemmas ThreadTheorems.

Open Scope string_scope.
Open Scope Z_scope.

(** ** The tick *)

(** What happens around one stop request: the writes of other tasks before the turn is
    checked again, whether a provider of the thread is found, what that provider answers (it is
    asked only if it was found), the writes while it is looked for and asked. *)
Record StopCall : Type := MkStopCall {
  sc_before : ThreadState → ThreadState;
  sc_found : bool;
  sc_answer : bool;
  sc_during : ThreadState → ThreadState
}.
Definition sc_accepted (c : StopCall) : bool := sc_found c && sc_answer c.

(** What a tick does besides its writes: the stop requests that reach a provider, and the
    tasks it spawns, each an [await_stop_or_mark_idle] for a thread and a turn. *)
Record TickOut : Type := MkTickOut {
  to_asked : list (string * string);
  to_spawned : list (string * string)
}.

Definition active_turn_of (thread_id : string) (s : ThreadState) : option string :=
  ts_runtimes s !! thread_id ≫= rt_active_turn_id.

Definition still_stale (thread_id turn_id : string) (s : ThreadState) : bool :=
  match ts_runtimes s !! thread_id with
  | Some r => rt_liveness_timed_out r && negb (rt_liveness_stop_requested r)
              && bool_decide (rt_active_turn_id r = Some turn_id)
  | None => false
  end.

Definition stop_stale_turn (call : string → string → StopCall) (st : ThreadState * TickOut)
    (candidate : string * string) : ThreadState * TickOut :=
  let '(s, out) := st in
  let '(thread_id, turn_id) := candidate in
  let c := call thread_id turn_id in
  let s := sc_before c s in
  if negb (still_stale thread_id turn_id s) then (s, out)
  else
    let s := sc_during c s in
    let out := if sc_found c then MkTickOut (to_asked out ++ [candidate]) (to_spawned out) else out in
    if sc_accepted c then
      (notify (mark_stale_turn_stop_requested thread_id turn_id s),
       MkTickOut (to_asked out) (to_spawned out ++ [candidate]))
    else (notify s, out).

Definition stop_stale_turns_at (call : string → string → StopCall) (now : Z) (s : ThreadState) :
    ThreadState * TickOut :=
  let '(s, expired) := expire_stale_turn_liveness now s in
  let s := if decide (expired = []) then s else notify s in
  foldl (stop_stale_turn call) (s, MkTickOut [] []) (stale_turn_stop_candidates s).

(** The watchdog's loop.  [tk_gap] are the writes of other tasks since the tick before. *)
Record Tick : Type := MkTick {
  tk_gap : ThreadState → ThreadState;
  tk_call : string → string → StopCall;
  tk_now : Z
}.
Fixpoint watchdog (ticks : list Tick) (s : ThreadState) : ThreadState * list TickOut :=
  match ticks with
  | [] => (s, [])
  | t :: ticks =>
      let '(s, out) := stop_stale_turns_at (tk_call t) (tk_now t) (tk_gap t s) in
      let '(s, outs) := watchdog ticks s in
      (s, out :: outs)
  end.

(** ** The fallback

    [changes] are the writes that wake the wait before the deadline, [late] those between
    the deadline and the lock. *)
Definition mark_idle_locally (clock : Z) (thread_id turn_id : string) (s : ThreadState) : ThreadState :=
  if decide (active_turn_of thread_id s = Some turn_id) then
    notify (set_thread_status clock thread_id "idle" []
              (bg_set_active_turn clock thread_id None clock s))
  else s.

Fixpoint await_stop_or_mark_idle (clock : Z) (thread_id turn_id : string)
    (changes : list (ThreadState → ThreadState)) (late : ThreadState → ThreadState) (s : ThreadState) :
    ThreadState :=
  if decide (active_turn_of thread_id s = Some turn_id) then
    match changes with
    | [] => mark_idle_locally clock thread_id turn_id (late s)
    | f :: changes => await_stop_or_mark_idle clock thread_id turn_id changes late (f s)
    end
  else s.

(** ** Lemmas *)

(** What the watchdog reads of a runtime: its turn, when that last made progress, whether it
    is marked as stalled, whether its stop was requested. *)
Definition liveness (r : ThreadRuntime) : option string * option Z * bool * bool :=
  (rt_active_turn_id r, rt_last_progress_at r, rt_liveness_timed_out r, rt_liveness_stop_requested r).
Definition live (th : string) (s : ThreadState) := liveness <$> ts_runtimes s !! th.
(** A write that does not touch this. *)
Definition leaves_alone (th : string) (f : ThreadState → ThreadState) : Prop := ∀ s, live th (f s) = live th s.
(** One thread is named once, with this turn, among [l]. *)
Definition named_once (th turn : string) (l : list (string * string)) : Prop :=
  ∃ a b, l = (a ++ (th, turn) :: b)%list ∧ th ∉ a.*1 ∧ th ∉ b.*1.
(** A list names the thread once if [b], and not at all otherwise. *)
Definition named_if (b : bool) (th turn : string) (l : list (string * string)) : Prop :=
  if b then named_once th turn l else th ∉ l.*1.

Lemma app_named th turn (b : bool) l more : th ∉ l.*1 → th ∉ more.*1 →
  named_if b th turn ((l ++ if b then [(th, turn)] else []) ++ more)%list.
Proof.
  intros Hl Hm. destruct b; cbn.
  - exists l, more. by rewrite <- app_assoc.
  - rewrite app_nil_r, fmap_app. set_solver.
Qed.

Lemma expire_runtimes now s :
  ts_runtimes (expire_stale_turn_liveness now s).1 =
  (λ r, (expire_stale_liveness now STALE_TURN_PROGRESS_TIMEOUT_SECS r).1) <$> ts_runtimes s.
Proof.
  unfold expire_stale_turn_liveness. cbv zeta. set (expired := (map_to_list _).*1).
  assert (∀ l s0, ts_runtimes (foldl (λ s thread_id,
    s <| ts_push ::= enqueue_error_push thread_id "stalled with no progress; the turn was stopped."
           (thread_display_name thread_id s) |>) s0 l) = ts_runtimes s0) as H.
  { induction l as [|x l IH]; intros s0; [done|]. cbn [foldl]. by rewrite IH. }
  destruct expired; [done|]. cbn [fst]. rewrite H. by rewrite sync_runtimes.
Qed.

(** A turn that is marked stays marked; one that is due is marked. *)
Lemma expire_live th turn now s p timed_out requested :
  live th s = Some (Some turn, Some p, timed_out, requested) →
  (timed_out = true ∨ (requested = false ∧ 0 < p ∧ p + STALE_TURN_PROGRESS_TIMEOUT_SECS ≤ now)) →
  live th (expire_stale_turn_liveness now s).1 = Some (Some turn, Some p, true, requested).
Proof.
  intros (r & Hr & E)%fmap_Some Hdue. unfold liveness in E. injection E as Ha Hp Ht Hs.
  unfold live. rewrite expire_runtimes, lookup_fmap, Hr. cbn. unfold expire_stale_liveness, liveness.
  rewrite <- Ha, <- Hp. destruct Hdue as [->|(-> & H0 & Hn)].
  - rewrite <- Ht. cbn. by rewrite <- Ha, <- Hp, <- Ht, <- Hs.
  - rewrite <- Ht. destruct timed_out; cbn; [by rewrite <- Ha, <- Hp, <- Ht, <- Hs|].
    destruct (Z.leb_spec p 0); [lia|]. unfold u64_saturating_sub, STALE_TURN_PROGRESS_TIMEOUT_SECS in *.
    destruct (Z.ltb_spec (Z.max 0 (now - p)) 600); [lia|]. cbn. by rewrite <- Ha, <- Hp.
Qed.

Section Tick.
Context (call : string → string → StopCall) (th turn : string).
Context (Hbefore : ∀ a b, leaves_alone th (sc_before (call a b))).
Context (Hduring : ∀ a b, leaves_alone th (sc_during (call a b))).

Lemma live_notify s : live th (notify s) = live th s.
Proof using Type. done. Qed.

Lemma candidate_live s i t : (i, t) ∈ stale_turn_stop_candidates s ↔
  ∃ p, live i s = Some (Some t, p, true, false).
Proof using Type.
  unfold stale_turn_stop_candidates. rewrite list_elem_of_omap. split.
  - intros ([i' r] & Hin & Heq). apply elem_of_map_to_list in Hin. cbn in Heq.
    unfold stop_candidate in Heq. destruct (rt_liveness_timed_out r && _) eqn:E; [|done].
    apply andb_true_iff in E as [E1 E2%negb_true_iff]. destruct (rt_active_turn_id r) eqn:Et; [|done].
    cbn in Heq. simplify_eq. exists (rt_last_progress_at r). unfold live, liveness. by rewrite Hin, <- E1, <- E2, <- Et.
  - intros (p & (r & Hr & E)%fmap_Some). unfold liveness in E. injection E as Ha Hp Ht Hs. exists (i, r).
    split; [by apply elem_of_map_to_list|]. cbn. unfold stop_candidate. by rewrite <- Ht, <- Hs, <- Ha.
Qed.

Lemma candidates_nodup s : NoDup (stale_turn_stop_candidates s).*1.
Proof using Type.
  unfold stale_turn_stop_candidates. pose proof (NoDup_fst_map_to_list (ts_runtimes s)) as H.
  induction (map_to_list (ts_runtimes s)) as [|[i r] l IH]; [constructor|].
  cbn in H. apply NoDup_cons in H as [Hi Hl]. cbn.
  destruct (stop_candidate r); cbn; [|auto]. apply NoDup_cons. split; [|auto].
  intros (x & Hx & Hin)%list_elem_of_fmap. apply list_elem_of_omap in Hin as ([j r'] & Hj & E).
  cbn in E. destruct (stop_candidate r'); [|done]. cbn in E. simplify_eq/=. apply Hi.
  apply list_elem_of_fmap. by exists (j, r').
Qed.

Lemma mark_live_other i t s : i ≠ th → live th (mark_stale_turn_stop_requested i t s) = live th s.
Proof using Type. intros. unfold live, mark_stale_turn_stop_requested. by rewrite with_runtime_lookup_ne. Qed.
Lemma mark_live s p : live th s = Some (Some turn, p, true, false) →
  live th (mark_stale_turn_stop_requested th turn s) = Some (Some turn, p, true, true).
Proof using Type.
  intros (r & Hr & E)%fmap_Some. unfold liveness in E. injection E as Ha Hp Ht Hs.
  unfold live, mark_stale_turn_stop_requested. rewrite with_runtime_lookup, Hr. cbn.
  rewrite <- Ht, <- Ha, bool_decide_eq_true_2 by done. cbn. unfold liveness. cbn. by rewrite <- Ha, <- Hp, <- Ht.
Qed.

(** A candidate that is not of the thread adds nothing of the thread. *)
Lemma stop_other i t s out : i ≠ th →
  let st := stop_stale_turn call (s, out) (i, t) in
  live th st.1 = live th s ∧
  (∃ more, to_asked st.2 = (to_asked out ++ more)%list ∧ th ∉ more.*1) ∧
  (∃ more, to_spawned st.2 = (to_spawned out ++ more)%list ∧ th ∉ more.*1).
Proof using Hbefore Hduring.
  intros Hi. cbv zeta. cbn [stop_stale_turn].
  assert (∀ l : list (string * string), ∃ more, l = (l ++ more)%list ∧ th ∉ more.*1) as Hnil.
  { intros l. exists []. rewrite app_nil_r. split; [done|]. apply not_elem_of_nil. }
  assert (∀ l : list (string * string), ∃ more, (l ++ [(i, t)])%list = (l ++ more)%list ∧ th ∉ more.*1) as Hone.
  { intros l. exists [(i, t)]. split; [done|]. cbn. by rewrite list_elem_of_singleton. }
  destruct (negb _); [cbn; split; [by rewrite Hbefore|split; apply Hnil]|]. unfold sc_accepted.
  destruct (sc_found _); cbn [andb fst snd to_asked to_spawned];
    [destruct (sc_answer _); cbn [fst snd to_asked to_spawned]|];
    (split; [|by first [split; [apply Hone|apply Hone] | split; [apply Hone|apply Hnil] | split; apply Hnil]]);
    rewrite live_notify, ?mark_live_other by done; by rewrite Hduring, Hbefore.
Qed.

Lemma stop_others cands : ∀ s out, th ∉ cands.*1 →
  let st := foldl (stop_stale_turn call) (s, out) cands in
  live th st.1 = live th s ∧
  (∃ more, to_asked st.2 = (to_asked out ++ more)%list ∧ th ∉ more.*1) ∧
  (∃ more, to_spawned st.2 = (to_spawned out ++ more)%list ∧ th ∉ more.*1).
Proof using Hbefore Hduring.
  induction cands as [|[i t] cands IH]; intros s out Hn; cbv zeta.
  { split_and!; [done|..]; exists []; rewrite app_nil_r; (split; [done|apply not_elem_of_nil]). }
  cbn in Hn. apply not_elem_of_cons in Hn as [Hi Hn]. cbn [foldl].
  destruct (stop_other i t s out ltac:(done)) as (L1 & (a & A & Ha) & (b & B & Hb)).
  destruct (stop_stale_turn call (s, out) (i, t)) as [s1 out1]. cbn [fst snd] in *.
  destruct (IH s1 out1 Hn) as (L2 & (a' & A' & Ha') & (b' & B' & Hb')). rewrite L2, L1, A', A, B', B.
  split_and!; [done|exists (a ++ a')%list|exists (b ++ b')%list]; rewrite <- app_assoc;
    (split; [done|rewrite fmap_app; set_solver]).
Qed.

(** The candidate of the thread itself. *)
Lemma stop_mine s out p : live th s = Some (Some turn, p, true, false) →
  let c := call th turn in
  let st := stop_stale_turn call (s, out) (th, turn) in
  live th st.1 = Some (Some turn, p, true, sc_accepted c) ∧
  to_asked st.2 = (to_asked out ++ if sc_found c then [(th, turn)] else [])%list ∧
  to_spawned st.2 = (to_spawned out ++ if sc_accepted c then [(th, turn)] else [])%list.
Proof using Hbefore Hduring.
  intros Hl. cbv zeta. cbn [stop_stale_turn].
  assert (still_stale th turn (sc_before (call th turn) s) = true) as ->.
  { rewrite <- (Hbefore th turn s) in Hl. apply fmap_Some in Hl as (r & Hr & E). unfold liveness in E.
    injection E as Ha _ Ht Hs. unfold still_stale. by rewrite Hr, <- Ht, <- Hs, <- Ha, bool_decide_eq_true_2. }
  assert (live th (sc_during (call th turn) (sc_before (call th turn) s)) = Some (Some turn, p, true, false)) as Hd
    by by rewrite Hduring, Hbefore.
  cbn [negb]. unfold sc_accepted. destruct (sc_found _), (sc_answer _); cbn; rewrite ?live_notify, ?app_nil_r;
    (split_and!; [|done..]); by try apply mark_live.
Qed.

(** One tick over a turn that is marked, or due to be. *)
Lemma tick_spec s p timed_out requested now :
  live th s = Some (Some turn, Some p, timed_out, requested) →
  (timed_out = true ∨ (requested = false ∧ 0 < p ∧ p + STALE_TURN_PROGRESS_TIMEOUT_SECS ≤ now)) →
  let c := call th turn in
  let '(s', out) := stop_stale_turns_at call now s in
  live th s' = Some (Some turn, Some p, true, requested || sc_accepted c) ∧
  named_if (negb requested && sc_found c) th turn (to_asked out) ∧
  named_if (negb requested && sc_accepted c) th turn (to_spawned out).
Proof using Hbefore Hduring.
  intros Hl Hdue. cbv zeta. unfold stop_stale_turns_at.
  pose proof (expire_live th turn now s p timed_out requested Hl Hdue) as Hx.
  destruct (expire_stale_turn_liveness now s) as [s1 expired]. cbn [fst] in Hx.
  set (s2 := if decide (expired = []) then s1 else notify s1).
  assert (live th s2 = Some (Some turn, Some p, true, requested)) as H2 by (unfold s2; by case_decide).
  clearbody s2. pose proof (candidates_nodup s2) as Hnd. destruct requested; cbn [negb andb orb].
  - assert (th ∉ (stale_turn_stop_candidates s2).*1) as Hn.
    { intros ([i t] & E & (p' & Hc)%candidate_live)%list_elem_of_fmap. cbn in E. subst i. congruence. }
    destruct (stop_others _ s2 (MkTickOut [] []) Hn) as (L & (a & A & Ha) & (b & B & Hb)).
    destruct (foldl _ _ _) as [s' out]. cbn [fst snd to_asked to_spawned app] in *. by rewrite L, A, B.
  - assert ((th, turn) ∈ stale_turn_stop_candidates s2) as Hin by (apply candidate_live; eauto).
    apply list_elem_of_split in Hin as (l1 & l2 & E). rewrite E in *. rewrite fmap_app in Hnd. cbn in Hnd.
    apply NoDup_app in Hnd as (_ & Hd & Hnd). apply NoDup_cons in Hnd as [Hn2 _].
    assert (th ∉ l1.*1) as Hn1. { intros H1. apply (Hd _ H1). set_solver. }
    rewrite foldl_app. destruct (stop_others l1 s2 (MkTickOut [] []) Hn1) as (L1 & (a & A & Ha) & (b & B & Hb)).
    destruct (foldl (stop_stale_turn call) (s2, _) l1) as [s3 out3]. cbn [fst snd to_asked to_spawned app foldl] in *.
    rewrite H2 in L1. destruct (stop_mine s3 out3 _ L1) as (L3 & A3 & B3).
    destruct (stop_stale_turn call (s3, out3) (th, turn)) as [s4 out4]. cbn [fst snd] in *.
    destruct (stop_others l2 s4 out4 Hn2) as (L5 & (a5 & A5 & Ha5) & (b5 & B5 & Hb5)).
    destruct (foldl _ _ l2) as [s' out]. cbn [fst snd] in *. rewrite L5, L3, A5, A3, B5, B3, A, B.
    split_and!; [done|..]; by apply app_named.
Qed.
End Tick.

Lemma active_turn_notify th s : active_turn_of th (notify s) = active_turn_of th s.
Proof. done. Qed.

Lemma status_keeps_turn now th status flags s r :
  ts_runtimes s !! th = Some r →
  active_turn_of th (set_thread_status now th status flags s) = rt_active_turn_id r.
Proof.
  intros Hr. unfold active_turn_of, set_thread_status. rewrite sync_if_runtimes.
  destruct (ensure_cases now th s) as [[_ ->]|(Hc & _)]; [|congruence].
  unfold drop_pending_requests_for_thread, with_runtime.
  destruct (thread_status_is_settled status); cbn; rewrite !lookup_alter_eq, Hr; done.
Qed.

Lemma mark_idle_ends clock th turn s :
  th ∉ ts_locally_deleted_thread_ids s →
  active_turn_of th (mark_idle_locally clock th turn s) ≠ Some turn.
Proof.
  intros Hd. unfold mark_idle_locally. destruct (decide (active_turn_of th s = Some turn)) as [Ha|]; [|done].
  set (s1 := bg_set_active_turn clock th None clock s).
  assert (∃ r1, ts_runtimes s1 !! th = Some r1 ∧ rt_active_turn_id r1 = None) as (r1 & Hr1 & Hn).
  { unfold s1, bg_set_active_turn, drop_bg_event_for_deleted_thread. rewrite bool_decide_eq_false_2 by done.
    cbn. rewrite sync_if_runtimes, with_runtime_lookup.
    destruct (ensure_lookup clock th s) as [r ->]. by eexists. }
  by rewrite active_turn_notify, (status_keeps_turn _ _ _ _ _ _ Hr1), Hn.
Qed.

Lemma await_ends clock th turn changes late : ∀ s,
  (∀ f x, f ∈ late :: changes → th ∉ ts_locally_deleted_thread_ids x →
     th ∉ ts_locally_deleted_thread_ids (f x)) →
  th ∉ ts_locally_deleted_thread_ids s →
  active_turn_of th (await_stop_or_mark_idle clock th turn changes late s) ≠ Some turn.
Proof.
  induction changes as [|f changes IH]; intros s Hf Hd; cbn [await_stop_or_mark_idle];
    destruct (decide (active_turn_of th s = Some turn)); try done.
  - apply mark_idle_ends, Hf; [set_solver|done].
  - apply IH; [intros g x Hg; apply Hf; set_solver|]. apply Hf; [set_solver|done].
Qed.

(** A tick during which the other tasks leave the turn of the thread alone. *)
Definition undisturbed (th : string) (t : Tick) : Prop :=
  leaves_alone th (tk_gap t) ∧ ∀ a b, leaves_alone th (sc_before (tk_call t a b)) ∧ leaves_alone th (sc_during (tk_call t a b)).

(** What the ticks do about the turn.  Until a provider has accepted, every tick looks for the
    provider and asks it if it is found; the tick in which it accepts spawns the wait; from then
    on no tick asks and none spawns another wait. *)
Fixpoint pursued (th turn : string) (accepted : bool) (ticks : list Tick) (outs : list TickOut) : Prop :=
  match ticks, outs with
  | [], [] => True
  | t :: ticks, out :: outs =>
      let c := tk_call t th turn in
      named_if (negb accepted && sc_found c) th turn (to_asked out) ∧
      named_if (negb accepted && sc_accepted c) th turn (to_spawned out) ∧
      pursued th turn (accepted || sc_accepted c) ticks outs
  | _, _ => False
  end.

Lemma watchdog_pursues th turn p ticks : ∀ s timed_out requested,
  Forall (undisturbed th) ticks → live th s = Some (Some turn, Some p, timed_out, requested) →
  (timed_out = true ∨ (requested = false ∧ 0 < p ∧
     match ticks with t :: _ => p + STALE_TURN_PROGRESS_TIMEOUT_SECS ≤ tk_now t | [] => True end)) →
  pursued th turn requested ticks (watchdog ticks s).2.
Proof.
  induction ticks as [|t ticks IH]; intros s timed_out requested Hf Hl Hdue; [done|]. cbn [watchdog].
  apply Forall_cons in Hf as [[Hg Hc] Hf]. rewrite <- (Hg s) in Hl.
  pose proof (tick_spec (tk_call t) th turn (λ a b, proj1 (Hc a b)) (λ a b, proj2 (Hc a b)) _ p timed_out requested
    (tk_now t) Hl Hdue) as H. cbv zeta in H. destruct (stop_stale_turns_at _ _ _) as [s1 out].
  destruct H as (L & A & B). specialize (IH s1 true _ Hf L (or_introl eq_refl)).
  destruct (watchdog ticks s1) as [s2 outs]. by cbn.
Qed.

(** C15: a stalled turn is stopped.  Take a turn that made no progress for ten minutes when the
    watchdog's first tick comes, and any later ticks, the other tasks leaving the turn alone.
    Every tick asks the thread's provider, if it finds one, to stop the turn, once, until one
    tick's request is accepted; that tick spawns one wait for this turn; no later tick asks again
    or spawns another.  And whatever else happens to the relay while it waits, the wait ends with
    the turn no longer running, unless the thread was deleted. *)
Theorem stalled_turn_is_stopped th turn s r p first later :
  Forall (undisturbed th) (first :: later) → ts_runtimes s !! th = Some r →
  rt_active_turn_id r = Some turn → rt_last_progress_at r = Some p → 0 < p →
  p + STALE_TURN_PROGRESS_TIMEOUT_SECS ≤ tk_now first → rt_liveness_stop_requested r = false →
  pursued th turn false (first :: later) (watchdog (first :: later) s).2 ∧
  (∀ clock changes late s2, th ∉ ts_locally_deleted_thread_ids s2 →
     (∀ f x, f ∈ late :: changes → th ∉ ts_locally_deleted_thread_ids x →
        th ∉ ts_locally_deleted_thread_ids (f x)) →
     active_turn_of th (await_stop_or_mark_idle clock th turn changes late s2) ≠ Some turn).
Proof.
  intros Hf Hr Ha Hp H0 Hn Hs. split; [|intros; by apply await_ends].
  apply (watchdog_pursues th turn p _ s (rt_liveness_timed_out r)); [done| |by right].
  unfold live, liveness. by rewrite Hr, <- Ha, <- Hp, <- Hs.
Qed.

(** No provider is found at the first tick; the second is refused, the third accepted. *)
Definition sample_ticks : list Tick :=
  map (λ '(found, answer, now), MkTick id (λ _ _, MkStopCall id found answer id) now)
    [(false, true, 700); (true, false, 715); (true, true, 730); (true, true, 745)].
Definition stalled_threads : ThreadState :=
  with_runtime "t1" (λ r, r <| rt_active_turn_id := Some "turn" |> <| rt_last_progress_at := Some 100 |>) sample_threads.
Lemma stalled_turn_is_stopped_witness :
  pursued "t1" "turn" false sample_ticks (watchdog sample_ticks stalled_threads).2 ∧
  (watchdog sample_ticks stalled_threads).2 =
    [MkTickOut [] []; MkTickOut [("t1", "turn")] []; MkTickOut [("t1", "turn")] [("t1", "turn")]; MkTickOut [] []].
Proof.
  split; [|vm_compute; reflexivity].
  set (r := (runtime_new (MkSummary "t1" None "" "/srv" 1 true "" "idle" "" "codex" None false) "/srv"
              sample_settings 1 7) <| rt_active_turn_id := Some "turn" |> <| rt_last_progress_at := Some 100 |>).
  refine (proj1 (stalled_turn_is_stopped "t1" "turn" stalled_threads r 100 _ _ _ _ _ _ _ _ _)); try done.
  repeat constructor.
Defined.
