(* ===== verification/Promotion.v ===== *)
(** * Promotion of a provisional thread id

    A session starts under an id of the relay's own and takes the provider's once the
    provider has one.  Everything the relay keeps about the thread has to follow. *)

From Stdlib Require Import ZArith Lia Ascii String.
From S2P Require Import Prelude RustStr Json Approvals Transcript Runtime Push.
From S2P Require Import TeamTypes Tokens Backend TeamRun TeamThreads Device WorkflowRun ReviewJob.
From S2P Require Import TeamTable Surfaces ThreadState ThreadTurns ThreadRows ThreadFlow ThreadLemmas.
From S2P Require Import ThreadTheorems ThreadDeletion.

Open Scope string_scope.
Open Scope Z_scope.

(** ** Moving a value from one key to another *)

(** What is kept per thread moved: the old key is empty, the new key has its own value if
    it had one and the old key's otherwise, every other key is the same. *)
Definition moved {V} (pending_id real_id : string) (m m' : gmap string V) : Prop :=
  m' !! pending_id = None ∧ m' !! real_id = option_or (m !! real_id) (m !! pending_id) ∧
  ∀ i, i ≠ pending_id → i ≠ real_id → m' !! i = m !! i.

Section Carry.
Context (p r : string) (Hne : p ≠ r).

Lemma carry_moved {V} (m : gmap string V) : moved p r m (carry p r m).
Proof using Hne.
  unfold carry. destruct (m !! p) as [v|] eqn:E.
  - rewrite lookup_delete_ne by done. destruct (m !! r) as [w|] eqn:Er; cbn; split_and!.
    + apply lookup_delete_eq.
    + by rewrite lookup_delete_ne, Er.
    + intros. by rewrite lookup_delete_ne.
    + rewrite lookup_insert_ne by done. apply lookup_delete_eq.
    + by rewrite lookup_insert_eq, Er.
    + intros. rewrite lookup_insert_ne, lookup_delete_ne; done.
  - split_and!; [done| |done]. by destruct (m !! r).
Qed.

Lemma carry_activity_spec (m : gmap string Z) :
  let m' := carry_activity p r m in
  m' !! p = None ∧ (∀ i, i ≠ p → i ≠ r → m' !! i = m !! i) ∧
  (∀ k t, k = p ∨ k = r → m !! k = Some t → ∃ t', m' !! r = Some t' ∧ t ≤ t').
Proof using Hne.
  cbv zeta. unfold carry_activity. destruct (m !! p) as [v|] eqn:E.
  - rewrite (lookup_delete_ne m p r) by done. split_and!.
    + rewrite lookup_insert_ne by done. apply lookup_delete_eq.
    + intros. rewrite lookup_insert_ne, lookup_delete_ne; done.
    + intros k t Hk Ht. rewrite lookup_insert_eq. eexists. split; [done|].
      destruct Hk as [->| ->]; [rewrite E in Ht; injection Ht as <-; lia|]. rewrite Ht. cbn. lia.
  - split_and!; [done|done|]. intros k t [->| ->] Ht; [congruence|]. exists t. split; [done|lia].
Qed.

(** The runtime that survives: revisions never go back, and no transcript entry counted
    by the longer of the two is lost. *)
Lemma carry_runtime_spec (m : gmap string ThreadRuntime) :
  let m' := carry_runtime p r m in
  m' !! p = None ∧ (∀ i, i ≠ p → i ≠ r → m' !! i = m !! i) ∧
  (∀ k rt, k = p ∨ k = r → m !! k = Some rt → ∃ rt', m' !! r = Some rt' ∧
     rt_turn_revision rt ≤ rt_turn_revision rt' ∧
     (length (rt_transcript rt) ≤ length (rt_transcript rt'))%nat ∧
     (k = r → rt_transcript_revision rt ≤ rt_transcript_revision rt') ∧
     (k = p → is_Some (rt_active_turn_id rt) → is_Some (rt_active_turn_id rt'))).
Proof using Hne.
  cbv zeta. unfold carry_runtime. destruct (m !! p) as [v|] eqn:E.
  - rewrite (lookup_delete_ne m p r) by done. set (v' := v <| rt_summary ::= _ |>).
    destruct (m !! r) as [w|] eqn:Er; [case_match eqn:El|]; (split_and!;
      [rewrite lookup_insert_ne by done; apply lookup_delete_eq
      |intros; rewrite lookup_insert_ne, lookup_delete_ne; done|]).
    + apply Nat.leb_le in El. intros k rt Hk Ht. rewrite lookup_insert_eq. eexists. split; [done|]. cbn.
      destruct Hk as [->| ->]; simplify_eq; cbn in *; split_and!; try done; try lia.
      intros _ ?. by destruct (rt_active_turn_id w).
    + apply Nat.leb_gt in El. intros k rt Hk Ht. rewrite lookup_insert_eq. eexists. split; [done|]. cbn.
      destruct Hk as [->| ->]; simplify_eq; cbn in *; split_and!; done || lia.
    + intros k rt Hk Ht. rewrite lookup_insert_eq. eexists. split; [done|].
      destruct Hk as [->| ->]; simplify_eq; cbn; split_and!; done || lia.
  - split_and!; [done|done|]. intros k rt [->| ->] Ht; [congruence|]. exists rt. split_and!; done || lia.
Qed.
End Carry.

(** ** The closing status write *)
Record held_frame (s s' : ThreadState) : Prop := MkHeld {
  hf_settings : ts_thread_settings s' = ts_thread_settings s;
  hf_activity : ts_thread_last_activity_at s' = ts_thread_last_activity_at s;
  hf_projects : ts_thread_project_id s' = ts_thread_project_id s;
  hf_names : ts_thread_custom_name s' = ts_thread_custom_name s;
  hf_forks : ts_thread_forked_from s' = ts_thread_forked_from s;
  hf_workspace : ts_thread_workspace s' = ts_thread_workspace s;
  hf_promoted : ts_thread_promoted_from s' = ts_thread_promoted_from s;
  hf_approvals : ts_pending_approvals s' = ts_pending_approvals s;
  hf_questions : ts_pending_ask_user_questions s' = ts_pending_ask_user_questions s;
  hf_reviews : ts_review_jobs s' = ts_review_jobs s;
  hf_workflows : ts_workflow_jobs s' = ts_workflow_jobs s;
  hf_teams : ts_team_runs s' = ts_team_runs s;
  hf_reviewers : ts_reviewer_threads s' = ts_reviewer_threads s;
  hf_orchestrator : ts_orchestrator_thread_id s' = ts_orchestrator_thread_id s
}.

Lemma sync_if_held th s : held_frame s (sync_if_active th s).
Proof.
  unfold sync_if_active, sync_selected_runtime_to_fields. repeat case_match; by constructor.
Qed.

(** A status that is not settled, written to a thread: its runtime keeps everything but
    the status, the flags and the time of the update. *)
Lemma busy_status_spec now th status flags s :
  thread_status_is_settled status = false →
  let s' := set_thread_status now th status flags s in
  held_frame s s' ∧ row_ids s' = row_ids s ∧
  (∀ i, i ≠ th → ts_runtimes s' !! i = ts_runtimes s !! i) ∧
  (∀ r, ts_runtimes s !! th = Some r → ts_runtimes s' !! th =
     Some (r <| rt_current_status := status |> <| rt_active_flags := flags |>
             <| rt_last_update_at := now |>)) ∧
  ∃ r, ts_runtimes s' !! th = Some r ∧ rt_current_status r = status.
Proof.
  intros Hs. cbv zeta. unfold set_thread_status. rewrite Hs.
  set (x := _ <| ts_threads ::= _ |>). destruct (sync_if_held th x).
  assert (∀ i, ts_runtimes (sync_if_active th x) !! i = ts_runtimes x !! i) as Hx
    by (intros i; by rewrite sync_if_runtimes).
  assert (row_ids (sync_if_active th x) = row_ids x) as Hrow.
  { unfold row_ids. by rewrite (sfr_threads _ _ (sync_if_frame th x)). }
  assert (row_ids x = row_ids s) as Hrow2.
  { unfold row_ids, x. cbn. rewrite alter_row_ids by done.
    by rewrite (sfr_threads _ _ (ensure_frame now th s)). }
  split; [|split; [congruence|split_and!]].
  - destruct (ensure_cases now th s) as [[_ E]|(_ & r & E & _)]; unfold x in *; rewrite E in *;
      constructor; assumption.
  - intros i Hi. rewrite Hx. unfold x. cbn. rewrite lookup_alter_ne by done. by apply ensure_lookup_ne.
  - intros r Hr. rewrite Hx. unfold x. cbn. rewrite lookup_alter_eq.
    destruct (ensure_cases now th s) as [[_ ->]|(Hc & _)]; [|congruence]. by rewrite Hr.
  - rewrite Hx. unfold x. cbn. rewrite lookup_alter_eq. destruct (ensure_lookup now th s) as [r ->].
    by eexists.
Qed.

(** ** The promotion *)
Section Promote.
Context (now : Z) (p r : string) (s : ThreadState) (Hp : p ≠ "") (Hr : r ≠ "") (Hne : p ≠ r).

(** The state before the closing status write. *)
Definition rekeyed : ThreadState :=
  let rename := swap p r in
  s <| ts_thread_promoted_from ::= <[r := p]> |>
    <| ts_orchestrator_thread_id ::= (λ o, rename <$> o) |>
    <| ts_runtimes ::= carry_runtime p r |>
    <| ts_thread_settings ::= carry p r |>
    <| ts_thread_last_activity_at ::= carry_activity p r |>
    <| ts_thread_project_id ::= carry p r |>
    <| ts_projects_revision ::= λ n, if is_some (ts_thread_project_id s !! p) then u64_add n 1 else n |>
    <| ts_thread_custom_name ::= carry p r |>
    <| ts_thread_forked_from ::= carry p r |>
    <| ts_thread_workspace ::= carry p r |>
    <| ts_threads ::= filter (λ t, sm_id t ≠ p) |>
    <| ts_pending_approvals ::= fmap (M := gmap string) (λ a, a <| pa_thread_id ::= rename |>) |>
    <| ts_pending_ask_user_questions ::=
         fmap (M := gmap string) (λ q, q <| pq_thread_id ::= rename |>) |>
    <| ts_review_jobs ::= fmap (M := gmap string) (λ j, j <| rj_reviewer_thread_id ::= (λ o, rename <$> o) |>
                                                          <| rj_parent_thread_id ::= rename |>) |>
    <| ts_workflow_jobs ::= fmap (M := gmap string) (λ w, w <| wr_step_threads ::= fmap (M := gmap string) rename |>
                                                            <| wr_parent_thread_id ::= rename |>) |>
    <| ts_team_runs ::= fmap (M := gmap string) (λ t, (rekey_thread now p r t).1) |>
    <| ts_reviewer_threads ::= λ m,
         match m !! p with Some record => <[r := record]> (delete p m) | None => m end |>.

Lemma promote_eq :
  promote_background_thread now p r s = set_thread_status now r "active" [] rekeyed.
Proof using Hp Hr Hne.
  unfold promote_background_thread. rewrite bool_decide_eq_false_2 by done.
  rewrite !(proj2 (is_empty_false _)) by done. cbn [orb]. f_equal. unfold rekeyed.
  destruct s. cbn. unfold bump_projects_revision.
  by destruct (is_some (ts_thread_project_id !! p)).
Qed.

(** Nothing the relay holds names the thread. *)
Record no_trace (th : string) (s : ThreadState) : Prop := MkNoTrace {
  nt_runtime : ts_runtimes s !! th = None;
  nt_settings : ts_thread_settings s !! th = None;
  nt_activity : ts_thread_last_activity_at s !! th = None;
  nt_project : ts_thread_project_id s !! th = None;
  nt_name : ts_thread_custom_name s !! th = None;
  nt_fork : ts_thread_forked_from s !! th = None;
  nt_workspace : ts_thread_workspace s !! th = None;
  nt_row : th ∉ row_ids s;
  nt_approvals : map_Forall (λ _ a, pa_thread_id a ≠ th) (ts_pending_approvals s);
  nt_questions : map_Forall (λ _ q, pq_thread_id q ≠ th) (ts_pending_ask_user_questions s);
  nt_reviews : map_Forall (λ _ j, rj_reviewer_thread_id j ≠ Some th ∧ rj_parent_thread_id j ≠ th)
                 (ts_review_jobs s);
  nt_workflows : map_Forall (λ _ w, wr_parent_thread_id w ≠ th ∧
                   map_Forall (λ _ t, t ≠ th) (wr_step_threads w)) (ts_workflow_jobs s);
  nt_teams : map_Forall (λ _ t, th ∉ owned_thread_ids t) (ts_team_runs s);
  nt_reviewer : ts_reviewer_threads s !! th = None;
  nt_orchestrator : ts_orchestrator_thread_id s ≠ Some th
}.

Lemma rekey_forgets t : p ∉ owned_thread_ids (rekey_thread now p r t).1.
Proof using Hp Hr Hne.
  rewrite owned_thread_ids_elem, rekey_candidates by done. intros [(x & Hx & _)%list_elem_of_fmap _].
  by eapply swap_neq, eq_sym, Hx.
Qed.

Lemma rekeyed_no_trace : no_trace p rekeyed.
Proof using Hp Hr Hne.
  assert (∀ o, swap p r <$> o ≠ Some p) as Hsw.
  { intros [x|]; cbn; [|done]. intros [= E]. by eapply swap_neq. }
  constructor; unfold rekeyed, row_ids; cbn; try (by apply (carry_moved p r Hne)).
  - by apply (carry_runtime_spec p r Hne).
  - by apply (carry_activity_spec p r Hne).
  - intros (t & Ht & Hin)%list_elem_of_In%in_map_iff.
    by apply list_elem_of_In, list_elem_of_filter in Hin as [? _].
  - apply map_Forall_fmap. intros i a _. cbn. by apply swap_neq.
  - apply map_Forall_fmap. intros i a _. cbn. by apply swap_neq.
  - apply map_Forall_fmap. intros i j _. cbn. split; [done|by apply swap_neq].
  - apply map_Forall_fmap. intros i w _. cbn. split; [by apply swap_neq|].
    apply map_Forall_fmap. intros k t _. cbn. by apply swap_neq.
  - apply map_Forall_fmap. intros i t _. apply rekey_forgets.
  - destruct (ts_reviewer_threads s !! p) eqn:E; [|done].
    rewrite lookup_insert_ne by done. apply lookup_delete_eq.
  - done.
Qed.
End Promote.

Lemma busy_status_no_trace now th th' status flags s :
  thread_status_is_settled status = false → th' ≠ th → no_trace th s →
  no_trace th (set_thread_status now th' status flags s).
Proof.
  intros Hs Hne Hn. destruct (busy_status_spec now th' status flags s Hs) as (Hh & Hrow & Hrt & _).
  cbv zeta in *. destruct Hh as [E1 E2 E3 E4 E5 E6 _ E7 E8 E9 E10 E11 E12 E13], Hn.
  constructor; rewrite ?Hrow, ?E1, ?E2, ?E3, ?E4, ?E5, ?E6, ?E7, ?E8, ?E9, ?E10, ?E11, ?E12, ?E13; try done.
  by rewrite Hrt.
Qed.

Lemma rekey_owned now p r t x : p ≠ "" → r ≠ "" → p ≠ r →
  x ∈ owned_thread_ids (rekey_thread now p r t).1 ↔ ∃ y, y ∈ owned_thread_ids t ∧ x = swap p r y.
Proof.
  intros Hp Hr Hne. setoid_rewrite owned_thread_ids_elem. rewrite rekey_candidates by done.
  assert (∀ y, swap p r y = "" ↔ y = "") as Hsw by (intros y; unfold swap; case_decide; naive_solver).
  split.
  - intros [(y & -> & Hy)%list_elem_of_fmap Hx]. exists y. split; [|done]. split; [done|]. by rewrite <- Hsw.
  - intros (y & [Hy Hn] & ->). split; [by apply list_elem_of_fmap_2|]. by rewrite Hsw.
Qed.

(** What the relay held is still there, with the provisional id renamed wherever it was kept.
    The records of the reviewers move with their key and are the same, so [parent_thread_id]
    in them keeps the provisional id ([promotion_orphans_reviewers]). *)
Record carried_over (p r : string) (s s' : ThreadState) : Prop := MkCarriedOver {
  co_settings : moved p r (ts_thread_settings s) (ts_thread_settings s');
  co_project : moved p r (ts_thread_project_id s) (ts_thread_project_id s');
  co_name : moved p r (ts_thread_custom_name s) (ts_thread_custom_name s');
  co_fork : moved p r (ts_thread_forked_from s) (ts_thread_forked_from s');
  co_workspace : moved p r (ts_thread_workspace s) (ts_thread_workspace s');
  co_activity : ∀ k t, k = p ∨ k = r → ts_thread_last_activity_at s !! k = Some t →
    ∃ t', ts_thread_last_activity_at s' !! r = Some t' ∧ t ≤ t';
  co_rows : ∀ i, i ∈ row_ids s' ↔ i ∈ row_ids s ∧ i ≠ p;
  co_approvals : ∀ id, ts_pending_approvals s' !! id =
    (λ a, a <| pa_thread_id := swap p r (pa_thread_id a) |>) <$> ts_pending_approvals s !! id;
  co_questions : ∀ id, ts_pending_ask_user_questions s' !! id =
    (λ q, q <| pq_thread_id := swap p r (pq_thread_id q) |>) <$> ts_pending_ask_user_questions s !! id;
  co_reviews : ∀ id, ts_review_jobs s' !! id =
    (λ j, j <| rj_reviewer_thread_id := swap p r <$> rj_reviewer_thread_id j |>
            <| rj_parent_thread_id := swap p r (rj_parent_thread_id j) |>) <$> ts_review_jobs s !! id;
  co_workflows : ∀ id, ts_workflow_jobs s' !! id =
    (λ w, w <| wr_step_threads := swap p r <$> wr_step_threads w |>
            <| wr_parent_thread_id := swap p r (wr_parent_thread_id w) |>) <$> ts_workflow_jobs s !! id;
  co_team_ids : ∀ id, ts_team_runs s !! id = None → ts_team_runs s' !! id = None;
  co_teams : ∀ id t, ts_team_runs s !! id = Some t → ∃ t', ts_team_runs s' !! id = Some t' ∧
    ∀ x, x ∈ owned_thread_ids t' ↔ ∃ y, y ∈ owned_thread_ids t ∧ x = swap p r y;
  co_reviewer : ts_reviewer_threads s' !! r = option_or (ts_reviewer_threads s !! p) (ts_reviewer_threads s !! r);
  co_reviewers : ∀ i, i ≠ p → i ≠ r → ts_reviewer_threads s' !! i = ts_reviewer_threads s !! i;
  co_orchestrator : ts_orchestrator_thread_id s' = swap p r <$> ts_orchestrator_thread_id s
}.

Lemma rekeyed_carried now p r s : p ≠ "" → r ≠ "" → p ≠ r → carried_over p r s (rekeyed now p r s).
Proof.
  intros Hp Hr Hne. constructor; unfold rekeyed; cbn; try by apply carry_moved.
  - apply (carry_activity_spec p r Hne).
  - intros i. unfold row_ids. cbn. rewrite !list_elem_of_In, !in_map_iff. setoid_rewrite <- list_elem_of_In.
    setoid_rewrite list_elem_of_filter. naive_solver.
  - intros id. by rewrite lookup_fmap.
  - intros id. by rewrite lookup_fmap.
  - intros id. by rewrite lookup_fmap.
  - intros id. by rewrite lookup_fmap.
  - intros id E. by rewrite lookup_fmap, E.
  - intros id t E. rewrite lookup_fmap, E. eexists. split; [done|]. intros x. by apply rekey_owned.
  - destruct (ts_reviewer_threads s !! p) eqn:E; [|done]. cbn. by rewrite lookup_insert_eq.
  - intros i Hi1 Hi2. destruct (ts_reviewer_threads s !! p) eqn:E; [|done].
    by rewrite lookup_insert_ne, lookup_delete_ne.
  - done.
Qed.

Lemma busy_status_carried now th status flags p r s s1 :
  thread_status_is_settled status = false → carried_over p r s s1 →
  carried_over p r s (set_thread_status now th status flags s1).
Proof.
  intros Hs Hc. destruct (busy_status_spec now th status flags s1 Hs) as (Hh & Hrow & _). cbv zeta in *.
  destruct Hh as [E1 E2 E3 E4 E5 E6 _ E7 E8 E9 E10 E11 E12 E13], Hc.
  constructor; rewrite ?Hrow, ?E1, ?E2, ?E3, ?E4, ?E5, ?E6, ?E7, ?E8, ?E9, ?E10, ?E11, ?E12, ?E13; done.
Qed.



(** A reviewer whose reviewed thread is promoted keeps naming the provisional id, so it is
    no longer among the reviewers of that thread. *)
Example promotion_orphans_reviewers :
  let s := register_reviewer_thread "reviewer-1" "claude-pending-1" (relay_state_new "/srv") in
  reviewer_threads_of_parent "claude-pending-1" s = ["reviewer-1"] ∧
  reviewer_threads_of_parent "session-1" (promote_background_thread 5 "claude-pending-1" "session-1" s) = [].
Proof. by vm_compute. Qed.
