(* ===== verification/History.v ===== *)
(** * Re-reading history

    A provider's history is read again while a turn may be running, and older pages of it
    are put in front.  What is on screen keeps its place, and its text unless its kind
    changes. *)

From Stdlib Require Import ZArith Lia Ascii String.
From S2P Require Import Prelude RustStr Json Approvals Transcript Runtime.

Open Scope string_scope.
Open Scope Z_scope.

Notation ids l := (map tx_item_id l).

(** ** Positions *)
Lemma tx_position_Some id l i :
  tx_position id l = Some i → ∃ r, l !! i = Some r ∧ tx_item_id r = id.
Proof.
  unfold tx_position. destruct (list_find _ l) as [[j r]|] eqn:E; [|done]. intros [= <-].
  apply list_find_Some in E as (? & ? & _). eauto.
Qed.

Lemma tx_position_None id l : tx_position id l = None ↔ id ∉ ids l.
Proof.
  unfold tx_position. rewrite fmap_None, list_find_None, Forall_forall.
  rewrite list_elem_of_In, in_map_iff. setoid_rewrite <- list_elem_of_In. naive_solver.
Qed.

Lemma ids_alter f i l : (∀ r, tx_item_id (f r) = tx_item_id r) → ids (alter f i l) = ids l.
Proof. intros Hf. revert i. induction l as [|r l IH]; intros [|i]; cbn; f_equal; auto. Qed.

Lemma ids_insert i r r' (l : list TranscriptRecord) :
  l !! i = Some r → tx_item_id r' = tx_item_id r → ids (<[i := r']> l) = ids l.
Proof.
  intros Hl Hr. revert i Hl. induction l as [|x l IH]; intros [|i] Hl; cbn in *; simplify_eq/=; auto.
  - by rewrite Hr.
  - f_equal. eauto.
Qed.

(** ** One entry *)

(** [e'] shows no less than [e]. *)
Record no_worse (e e' : TranscriptRecord) : Prop := MkNoWorse {
  nw_id : tx_item_id e' = tx_item_id e;
  nw_completed : is_completed_status (tx_status e) = true → is_completed_status (tx_status e') = true;
  nw_text : tx_kind e' = tx_kind e → text_is_longer (tx_text e) (tx_text e') = false
}.

Lemma text_is_longer_irrefl t : text_is_longer t t = false.
Proof. unfold text_is_longer. destruct t; [apply Nat.ltb_irrefl|done]. Qed.

Lemma text_is_longer_antisym a b : text_is_longer a b = true → text_is_longer b a = false.
Proof. unfold text_is_longer. destruct a, b; rewrite ?Nat.ltb_lt, ?Nat.ltb_ge; try done; intros; lia. Qed.

Lemma text_is_longer_trans a b c :
  text_is_longer a b = false → text_is_longer b c = false → text_is_longer a c = false.
Proof. unfold text_is_longer. destruct a, b, c; rewrite ?Nat.ltb_ge; try done; intros; lia. Qed.

Lemma merge_entry_no_worse e i : tx_item_id i = tx_item_id e → no_worse e (merge_runtime_entry e i).1.
Proof.
  intros Hid. unfold merge_runtime_entry.
  destruct (bool_decide (tx_kind e = tx_kind i) && _) eqn:E1; cbn [fst].
  { constructor.
    - repeat case_match; done.
    - intros Hc. repeat case_match; cbn in *; try done;
        repeat match goal with H : _ && _ = true |- _ => apply andb_true_iff in H as [? ?] end; done.
    - intros _. repeat case_match; cbn; apply text_is_longer_irrefl. }
  destruct (is_completed_status (tx_status e) && _) eqn:E2.
  { destruct (bool_decide (tx_kind e = tx_kind i) && text_is_longer (tx_text i) (tx_text e)) eqn:E3.
    - apply andb_true_iff in E3 as [_ E3]. constructor; [done|done|]. cbn. intros _.
      by apply text_is_longer_antisym.
    - case_match; constructor; try done; cbn; intros _; apply text_is_longer_irrefl. }
  case_match; cbn [fst]; [|constructor; try done; intros _; apply text_is_longer_irrefl].
  constructor; cbn; [done| |].
  - intros Hc. rewrite Hc in E2. by apply negb_false_iff in E2.
  - intros Hk. rewrite bool_decide_eq_true_2 in E1 by done. done.
Qed.

Lemma merge_entry_unchanged e i : (merge_runtime_entry e i).2 = false → (merge_runtime_entry e i).1 = e.
Proof.
  unfold merge_runtime_entry. destruct (_ && text_is_longer (tx_text e) _); cbn [fst snd].
  - intros H. apply orb_false_iff in H as [[H1 H2]%orb_false_iff H3]. by rewrite H1 in *; rewrite H2 in *; rewrite H3.
  - repeat case_match; done.
Qed.

Lemma merge_entry_kind e i :
  tx_kind i = tx_kind e → tx_kind (merge_runtime_entry e i).1 = tx_kind e.
Proof. intros H. unfold merge_runtime_entry. repeat case_match; cbn; done. Qed.

(** ** The whole transcript *)

(** Entry by entry, in place; [rs] are the records merged so far. *)
Definition kept_in_place (rs l l' : list TranscriptRecord) : Prop :=
  ∀ i e, l !! i = Some e → ∃ e', l' !! i = Some e' ∧ tx_item_id e' = tx_item_id e ∧
    (is_completed_status (tx_status e) = true → is_completed_status (tx_status e') = true) ∧
    (tx_item_id e ∉ ids rs → e' = e) ∧
    ((∀ r, r ∈ rs → tx_item_id r = tx_item_id e → tx_kind r = tx_kind e) →
       tx_kind e' = tx_kind e ∧ text_is_longer (tx_text e) (tx_text e') = false).

Lemma kept_refl l : kept_in_place [] l l.
Proof. intros i e He. exists e. split_and!; try done. intros _. split; [done|apply text_is_longer_irrefl]. Qed.

Lemma kept_trans rs rs' l1 l2 l3 :
  kept_in_place rs l1 l2 → kept_in_place rs' l2 l3 → kept_in_place (rs ++ rs') l1 l3.
Proof.
  intros H1 H2 i e He. destruct (H1 i e He) as (e1 & He1 & Hid1 & Hc1 & Hn1 & Hk1).
  destruct (H2 i e1 He1) as (e2 & He2 & Hid2 & Hc2 & Hn2 & Hk2). exists e2. split_and!.
  - done.
  - congruence.
  - auto.
  - rewrite map_app. intros Hn. rewrite not_elem_of_app in Hn. destruct Hn as [Ha Hb].
    rewrite Hn2; [auto|]. by rewrite Hid1.
  - intros Hk. destruct Hk1 as [Hk1 Ht1]; [intros; apply Hk; set_solver|].
    destruct Hk2 as [Hk2 Ht2]; [intros; rewrite Hk1; apply Hk; [set_solver|congruence]|].
    split; [congruence|]. by eapply text_is_longer_trans.
Qed.

Lemma merge_record_spec l c rec :
  let '(l', c') := merge_record (l, c) rec in
  kept_in_place [rec] l l' ∧
  (ids l' = ids l ∨ tx_item_id rec ∉ ids l ∧ ids l' = (ids l ++ [tx_item_id rec])%list) ∧
  (c' = false → l' = l ∧ c = false) ∧
  (tx_item_id rec ∈ ids l' ∨ has_equivalent_user_message l rec = true).
Proof.
  unfold merge_record. destruct (tx_position (tx_item_id rec) l) as [i|] eqn:Hp.
  - destruct (tx_position_Some _ _ _ Hp) as (e & He & Hid). rewrite He.
    pose proof (merge_entry_no_worse e rec (eq_sym Hid)) as [Hm1 Hm2 Hm3].
    pose proof (merge_entry_unchanged e rec) as Hu. pose proof (merge_entry_kind e rec) as Hkd.
    destruct (merge_runtime_entry e rec) as [m ch]. cbn [fst snd] in *.
    assert (ids (<[i := m]> l) = ids l) as Hids by (by eapply ids_insert).
    split_and!.
    + intros j x Hx. destruct (decide (j = i)) as [->|Hj].
      * rewrite Hx in He. injection He as ->. exists m.
        rewrite list_lookup_insert_eq by (by eapply lookup_lt_Some). split_and!; try done.
        -- intros Hn. exfalso. apply Hn. cbn. rewrite Hid. set_solver.
        -- intros Hk. assert (tx_kind m = tx_kind e) as Hme by (apply Hkd, Hk; [set_solver|done]). auto.
      * exists x. rewrite list_lookup_insert_ne by done. split_and!; try done.
        intros _. split; [done|apply text_is_longer_irrefl].
    + by left.
    + intros [-> ->]%orb_false_iff. rewrite Hu by done. by rewrite list_insert_id.
    + left. rewrite Hids, <- Hid. apply list_elem_of_In, in_map, list_elem_of_In.
      by eapply list_elem_of_lookup_2.
  - pose proof Hp as Hp'. rewrite tx_position_None in Hp'.
    destruct (has_equivalent_user_message l rec) eqn:Hu.
    + split_and!; [|by left|done|].
      * intros j x Hx. exists x. split_and!; try done. intros _. split; [done|apply text_is_longer_irrefl].
      * by right.
    + split_and!; [| |done|].
      * intros j x Hx. exists x. rewrite lookup_app_l by (by eapply lookup_lt_Some).
        split_and!; try done. intros _. split; [done|apply text_is_longer_irrefl].
      * right. split; [done|]. by rewrite map_app.
      * left. rewrite map_app. set_solver.
Qed.

Lemma merge_flag_irrelevant rs : ∀ l c c', (foldl merge_record (l, c) rs).1 = (foldl merge_record (l, c') rs).1.
Proof.
  induction rs as [|rec rs IH]; intros l c c'; [done|]. cbn [foldl]. unfold merge_record at 2 4.
  repeat case_match; simplify_eq; apply IH.
Qed.

(** The record is not taken in because, when its turn comes, the transcript shows the same
    message of the user already. *)
Definition shown_already (rs l : list TranscriptRecord) (rec : TranscriptRecord) : Prop :=
  ∃ before after c, rs = (before ++ rec :: after)%list ∧
    has_equivalent_user_message (foldl merge_record (l, c) before).1 rec = true.

Lemma merge_records_spec rs : ∀ l c,
  let '(l', c') := foldl merge_record (l, c) rs in
  kept_in_place rs l l' ∧ ids l `prefix_of` ids l' ∧ (NoDup (ids l) → NoDup (ids l')) ∧
  (c' = false → l' = l ∧ c = false) ∧
  (∀ rec, rec ∈ rs → tx_item_id rec ∈ ids l' ∨ shown_already rs l rec).
Proof.
  induction rs as [|rec rs IH]; intros l c; cbn [foldl].
  { split_and!; try done; [apply kept_refl|]. intros rec H. by apply not_elem_of_nil in H. }
  pose proof (merge_record_spec l c rec) as H1. destruct (merge_record (l, c) rec) as [l1 c1] eqn:Em.
  destruct H1 as (Hk1 & Hi1 & Hc1 & Hr1). specialize (IH l1 c1).
  destruct (foldl merge_record (l1, c1) rs) as [l2 c2]. destruct IH as (Hk2 & Hp2 & Hd2 & Hc2 & Hr2).
  assert (ids l `prefix_of` ids l1) as Hp1.
  { destruct Hi1 as [->|[_ ->]]; [done|]. by apply prefix_app_r. }
  split_and!.
  - exact (kept_trans [rec] rs l l1 l2 Hk1 Hk2).
  - by etrans.
  - intros Hnd. apply Hd2. destruct Hi1 as [->|[Hn ->]]; [done|]. apply NoDup_app. split_and!; [done| |].
    + intros x Hx ->%list_elem_of_singleton. done.
    + apply NoDup_singleton.
  - intros Hf. destruct (Hc2 Hf) as [-> Hf1]. by apply Hc1.
  - intros x [->|Hx]%elem_of_cons.
    + destruct Hr1 as [Hr1|]; [left|right; by exists [], rs, c]. destruct Hp2 as [k ->]. set_solver.
    + destruct (Hr2 x Hx) as [|(before & after & c0 & -> & Hs)]; [by left|right].
      exists (rec :: before), after, c. split; [done|]. cbn [foldl]. rewrite Em.
      by rewrite (merge_flag_irrelevant before l1 c1 c0).
Qed.


(** ** Older pages *)

(** The ids of a page that the transcript does not have. *)
Definition fresh_ids (rs l : list TranscriptRecord) : list string :=
  filter (λ x, x ∉ ids l) (ids rs).

Lemma fresh_ids_cons r rs l :
  fresh_ids (r :: rs) l =
  (if decide (tx_item_id r ∈ ids l) then fresh_ids rs l else tx_item_id r :: fresh_ids rs l).
Proof. unfold fresh_ids. cbn [map]. rewrite filter_cons. repeat case_decide; done. Qed.

(** Equal but for the tool call. *)
Definition same_but_tool (e e' : TranscriptRecord) : Prop := e' = e <| tx_tool := tx_tool e' |>.

Lemma last_position_None id l : last_position id l = None ↔ id ∉ ids l.
Proof.
  unfold last_position. rewrite fmap_None, tx_position_None, map_rev.
  rewrite !list_elem_of_In, <- in_rev. done.
Qed.

Lemma retain_new_spec rs : ∀ seen l,
  match retain_new rs seen l with
  | Some (kept, l') =>
      ids kept = fresh_ids rs l ∧ ids l' = ids l ∧ Forall2 same_but_tool l l' ∧
      NoDup (fresh_ids rs l) ∧ Forall (λ x, x ∉ seen) (fresh_ids rs l)
  | None => (∀ x, x ∈ seen → x ∉ ids l) →
      ¬ (NoDup (fresh_ids rs l) ∧ Forall (λ x, x ∉ seen) (fresh_ids rs l))
  end.
Proof.
  assert (∀ l, Forall2 same_but_tool l l) as Hrefl.
  { intros l. apply Forall2_same_length_lookup_2; [done|]. intros i x y Hx Hy. simplify_eq.
    unfold same_but_tool. by destruct x. }
  induction rs as [|r rs IH]; intros seen l; cbn [retain_new].
  { unfold fresh_ids. cbn. split_and!; try done; constructor. }
  destruct (decide (tx_item_id r ∈ seen)) as [Hs|Hs].
  { intros Hd [_ Hf]. rewrite fresh_ids_cons, decide_False in Hf by (by apply Hd).
    by apply Forall_cons in Hf as [? _]. }
  destruct (last_position (tx_item_id r) l) as [i|] eqn:Hp.
  - set (f := λ e, e <| tx_tool := _ |>). specialize (IH seen (alter f i l)).
    assert (ids (alter f i l) = ids l) as Hids by (by apply ids_alter).
    assert (fresh_ids (r :: rs) l = fresh_ids rs l) as Hf.
    { rewrite fresh_ids_cons, decide_True; [done|]. apply dec_stable. intros Hn.
      apply last_position_None in Hn. congruence. }
    assert (fresh_ids rs (alter f i l) = fresh_ids rs l) as Hf' by (unfold fresh_ids; by rewrite Hids).
    rewrite Hf', Hids in IH. rewrite Hf.
    destruct (retain_new rs seen (alter f i l)) as [[kept l']|]; [|done].
    destruct IH as (H1 & H2 & H3 & H4 & H5). split_and!; try done.
    apply Forall2_same_length_lookup in H3 as [Hlen H3]. rewrite length_alter in Hlen.
    apply Forall2_same_length_lookup_2; [done|]. intros j x y Hx Hy.
    assert (∃ x1, alter f i l !! j = Some x1 ∧ same_but_tool x x1) as (x1 & Hx1 & Hxx).
    { destruct (decide (j = i)) as [->|]; [rewrite list_lookup_alter_eq, Hx | rewrite list_lookup_alter_ne, Hx by done];
        eexists; (split; [done|]); unfold same_but_tool; by destruct x. }
    specialize (H3 j x1 y Hx1 Hy). unfold same_but_tool in *. rewrite H3, Hxx. by destruct x, y.
  - rewrite last_position_None in Hp. specialize (IH (tx_item_id r :: seen) l).
    assert (fresh_ids (r :: rs) l = tx_item_id r :: fresh_ids rs l) as Hf.
    { by rewrite fresh_ids_cons, decide_False. }
    rewrite Hf. destruct (retain_new rs (tx_item_id r :: seen) l) as [[kept l']|]; cbn.
    + destruct IH as (H1 & H2 & H3 & H4 & H5). rewrite Forall_forall in H5. split_and!; try done.
      * by rewrite H1.
      * apply NoDup_cons. split; [|done]. intros Hin. specialize (H5 _ Hin). set_solver.
      * apply Forall_cons. split; [done|]. apply Forall_forall. intros x Hx. specialize (H5 x Hx). set_solver.
    + intros Hd [[Hn Hnd]%NoDup_cons [_ Hfa]%Forall_cons]. apply IH; [set_solver|]. split; [done|].
      rewrite Forall_forall in *. intros x Hx. specialize (Hfa x Hx). set_solver.
Qed.

Section Page.
Context (entries : list TranscriptEntryView) (cursor prev : option nat) (r : ThreadRuntime).
Let page := page_records cursor entries.

(** An older page of history.  Prepending a page fails (the process panics) exactly when
    an id the transcript does not have occurs twice on the page.  Otherwise the new entries
    come first, in page order, the entries that were there keep everything but the tool
    call, which the page completes, ids stay unique, and prepending the same page once
    more succeeds and adds nothing. *)
Theorem older_page_is_prepended_once :
  match prepend_provider_history entries cursor prev r with
  | None => ¬ NoDup (fresh_ids page (rt_transcript r))
  | Some r' =>
      NoDup (fresh_ids page (rt_transcript r)) ∧
      ∃ kept rest, rt_transcript r' = (kept ++ rest)%list ∧
        ids kept = fresh_ids page (rt_transcript r) ∧ Forall2 same_but_tool (rt_transcript r) rest ∧
        (NoDup (ids (rt_transcript r)) → NoDup (ids (rt_transcript r'))) ∧
        rt_provider_history_cursor r' = prev ∧
        ∃ r'', prepend_provider_history entries cursor prev r' = Some r'' ∧
          ids (rt_transcript r'') = ids (rt_transcript r')
  end.
Proof.
  unfold prepend_provider_history. fold page.
  pose proof (retain_new_spec page [] (rt_transcript r)) as H.
  destruct (retain_new page [] (rt_transcript r)) as [[kept rest]|] eqn:E; cbn [mbind option_bind].
  2:{ intros Hnd. apply H; [set_solver|]. split; [done|]. apply Forall_forall. set_solver. }
  destruct H as (H1 & H2 & H3 & H4 & _). split; [done|]. exists kept, rest. cbn. split_and!; try done.
  - intros Hnd. rewrite map_app, H1, H2. apply NoDup_app. split_and!; [done| |done].
    intros x Hx Hin. unfold fresh_ids in Hx. by apply list_elem_of_filter in Hx as [? _].
  - pose proof (retain_new_spec page [] (kept ++ rest)) as H.
    assert (fresh_ids page (kept ++ rest) = []) as Hf.
    { apply elem_of_nil_inv. intros x [Hn Hx]%list_elem_of_filter. apply Hn.
      rewrite map_app, H1, H2. apply elem_of_app. unfold fresh_ids.
      destruct (decide (x ∈ ids (rt_transcript r))); [by right|left]. by apply list_elem_of_filter. }
    rewrite Hf in H. destruct (retain_new page [] (kept ++ rest)) as [[kept' rest']|]; cbn.
    + destruct H as (H5 & H6 & _). eexists. split; [done|]. cbn. apply map_eq_nil in H5 as ->. done.
    + exfalso. apply H; [set_solver|]. split; constructor.
Qed.
End Page.

(** A page that shows the request and the result of a tool under one id panics. *)
Example repeated_tool_panics :
  let v := MkView (Some "tool-1") EkToolCall None "completed" None None CsFull in
  prepend_provider_history [v; v] None None (runtime_placeholder "t1" 0 0) = None.
Proof. reflexivity. Qed.
