(* ===== verification/Patch.v ===== *)
(** * Patches on the wire (crates/relay-server/src/protocol.rs)

    Which patch an undo would apply, whether [git apply] would take it, and the removal of
    diff bodies from what is sent to clients. *)

From Stdlib Require Import ZArith Lia Ascii String.
From S2P Require Import Prelude RustStr Json WorkflowRun ReviewJob Transcript.

Open Scope string_scope.
Open Scope Z_scope.

(** ** Text *)
Definition strip_cr (line : string) : string :=
  if ends_with (String "013"%char "") line
  then string_rev (match string_rev line with String _ r => r | r => r end) else line.

(** [str::lines]. *)
Definition str_lines (s : string) : list string := map strip_cr (lines s).

(** [str::split_whitespace]: a byte where [trim_start] would cut ends a word. *)
Fixpoint take_word (s : string) : string * string :=
  match s with
  | EmptyString => ("", "")
  | String a s' =>
      if decide (trim_start s = s) then let '(w, rest) := take_word s' in (String a w, rest)
      else ("", s)
  end.

Fixpoint words (fuel : nat) (s : string) : list string :=
  match fuel with
  | O => []
  | S fuel =>
      let s := trim_start s in
      if is_empty s then [] else let '(w, rest) := take_word s in w :: words fuel rest
  end.
Definition split_whitespace (s : string) : list string := words (String.length s) s.

(** [str::parse::<usize>]. *)
Fixpoint digits_value (acc : Z) (s : string) : option Z :=
  match s with
  | EmptyString => Some acc
  | String a s' =>
      let z := byte_val a in
      if in_range 48 z 57 then
        let acc := acc * 10 + (z - 48) in if acc <=? u64_max then digits_value acc s' else None
      else None
  end.
Definition parse_usize (s : string) : option Z :=
  let s := match s with String "+" s' => s' | _ => s end in
  if is_empty s then None else digits_value 0 s.

(** [Vec<String>::join]. *)
Definition join_lines (parts : list string) : string := String.concat newline parts.

(** ** The patch an undo applies *)
Definition patch_for_apply (tool : ToolCallView) : option string :=
  match tc_diff tool with
  | Some d => if is_blank d then
      let parts := filter (λ d, is_blank d = false) (map fc_diff (tc_file_changes tool)) in
      if decide (parts = []) then None else Some (join_lines parts)
    else Some d
  | None =>
      let parts := filter (λ d, is_blank d = false) (map fc_diff (tc_file_changes tool)) in
      if decide (parts = []) then None else Some (join_lines parts)
  end.

(** ** Whether [git apply] would take it *)
Definition absolute_target (value : string) : bool := starts_with "a//" value || starts_with "b//" value.
Definition bad_side (rest : string) : bool :=
  absolute_target rest || starts_with "/" rest && negb (bool_decide (rest = "/dev/null")).

Definition hunk_side (sign : ascii) (value : string) : option Z :=
  rest ← strip_prefix (String sign "") value;
  match split_once "," rest with
  | Some (_, count) => parse_usize count
  | None => Some 1
  end.
Definition hunk_counts (rest : string) : option (Z * Z) :=
  match split_whitespace rest with
  | old :: new :: _ => o ← hunk_side "-" old; n ← hunk_side "+" new; Some (o, n)
  | _ => None
  end.

Record PatchScan : Type := MkScan {
  px_sections : nat;
  px_has_old : bool;
  px_has_new : bool;
  px_section_open : bool;
  px_owed : option (Z * Z)
}.
#[export] Instance PatchScan_expand : Expand PatchScan := λ s,
  MkScan (px_sections s) (px_has_old s) (px_has_new s) (px_section_open s) (px_owed s).

Definition owing (old new : Z) : option (Z * Z) :=
  if (0 <? old) || (0 <? new) then Some (old, new) else None.

Definition checked_pred (n : Z) : option Z := if n =? 0 then None else Some (n - 1).

(** A line of a hunk's body, while the hunk still owes [old] and [new] lines. *)
Definition count_line (line : string) (old new : Z) : option (Z * Z) :=
  match line with
  | EmptyString => o ← checked_pred old; n ← checked_pred new; Some (o, n)
  | String a _ =>
      if Ascii.eqb a " " then o ← checked_pred old; n ← checked_pred new; Some (o, n)
      else if Ascii.eqb a "-" then o ← checked_pred old; Some (o, new)
      else if Ascii.eqb a "+" then n ← checked_pred new; Some (old, n)
      else if Ascii.eqb a "\" then Some (old, new)
      else None
  end.

(** One iteration; [None] is the early [return false]. *)
Definition scan_line (s : PatchScan) (line : string) : option PatchScan :=
  match strip_prefix "diff --git " line with
  | Some rest =>
      if is_some (px_owed s) then None
      else if px_section_open s && negb (px_has_old s && px_has_new s) then None
      else if existsb absolute_target (split_whitespace rest) then None
      else Some (MkScan (S (px_sections s)) false false true None)
  | None =>
  match strip_prefix "@@ " line with
  | Some rest =>
      if is_some (px_owed s) then None
      else '(old, new) ← hunk_counts rest; Some (s <| px_owed := owing old new |>)
  | None =>
  match px_owed s with
  | Some (old, new) => '(old, new) ← count_line line old new; Some (s <| px_owed := owing old new |>)
  | None =>
  match strip_prefix "--- " line with
  | Some rest => if bad_side rest then None else Some (s <| px_has_old := true |>)
  | None =>
  match strip_prefix "+++ " line with
  | Some rest => if bad_side rest then None else Some (s <| px_has_new := true |>)
  | None => Some s
  end end end end end.

Fixpoint scan_lines (s : PatchScan) (l : list string) : option PatchScan :=
  match l with
  | [] => Some s
  | line :: l => s ← scan_line s line; scan_lines s l
  end.

Definition patch_is_appliable (diff : string) : bool :=
  let diff := trim diff in
  if is_empty diff then false
  else match scan_lines (MkScan 0 false false false None) (str_lines diff) with
       | None => false
       | Some s => is_none (px_owed s) && px_has_old s && px_has_new s
       end.

(** ** Removal of diff bodies *)
Definition has_diff_body (tool : ToolCallView) : bool :=
  is_some (tc_diff tool) || existsb (λ c, negb (is_empty (fc_diff c))) (tc_file_changes tool).

Definition strip_tool (tool : ToolCallView) : ToolCallView :=
  if has_diff_body tool then
    tool <| tc_can_apply :=
              Some (match patch_for_apply tool with Some p => patch_is_appliable p | None => false end) |>
         <| tc_diff := None |>
         <| tc_file_changes ::= map (λ c, c <| fc_diff := "" |>) |>
         <| tc_file_changes_omitted := true |>
  else tool.

Definition strip_entry (v : TranscriptEntryView) : TranscriptEntryView := v <| tv_tool ::= fmap strip_tool |>.
Definition strip_file_change_diffs_for_transport : list TranscriptEntryView → list TranscriptEntryView :=
  map strip_entry.

(** ** What acceptance means *)
Definition first_is (cs : list ascii) (line : string) : bool :=
  match line with EmptyString => false | String a _ => existsb (Ascii.eqb a) cs end.
Definition on_old_side (line : string) : bool := is_empty line || first_is [" "; "-"]%char line.
Definition on_new_side (line : string) : bool := is_empty line || first_is [" "; "+"]%char line.
Definition hunk_line (line : string) : bool :=
  is_empty line || first_is [" "; "-"; "+"; "\"]%char line.
Definition count (p : string → bool) (l : list string) : Z := Z.of_nat (length (filter (λ x, p x = true) l)).

Lemma count_cons p x l : count p (x :: l) = (if p x then 1 else 0) + count p l.
Proof. unfold count. rewrite filter_cons. case_decide as H; [rewrite H; cbn [length]; lia|]. by destruct (p x). Qed.

Lemma count_line_spec line old new o n :
  0 ≤ old → 0 ≤ new → count_line line old new = Some (o, n) →
  hunk_line line = true ∧ 0 ≤ o ∧ 0 ≤ n ∧ old = o + (if on_old_side line then 1 else 0) ∧
  new = n + (if on_new_side line then 1 else 0).
Proof.
  intros Ho Hn. unfold count_line, hunk_line, on_old_side, on_new_side, first_is, checked_pred.
  destruct line as [|a line]; cbn [is_empty orb existsb].
  - destruct (Z.eqb_spec old 0), (Z.eqb_spec new 0); cbn; intros; simplify_eq; split_and!; done || lia.
  - destruct (Ascii.eqb_spec a " ") as [->|?]; [|destruct (Ascii.eqb_spec a "-") as [->|?];
      [|destruct (Ascii.eqb_spec a "+") as [->|?]; [|destruct (Ascii.eqb_spec a "\") as [->|?]; [|done]]]];
      cbn; destruct (Z.eqb_spec old 0), (Z.eqb_spec new 0); cbn; intros; simplify_eq; split_and!; done || lia.
Qed.

Lemma owing_spec old new : 0 ≤ old → 0 ≤ new →
  owing old new = None ∧ old = 0 ∧ new = 0 ∨ owing old new = Some (old, new).
Proof.
  intros. unfold owing. destruct (Z.ltb_spec 0 old), (Z.ltb_spec 0 new); cbn; auto. left; split_and!; done || lia.
Qed.

(** A hunk that is open delivers its lines before the patch ends. *)
Lemma hunk_delivers l : ∀ s s' old new,
  0 ≤ old → 0 ≤ new → px_owed s = Some (old, new) →
  scan_lines s l = Some s' → px_owed s' = None →
  ∃ body post, l = (body ++ post)%list ∧ Forall (λ x, hunk_line x = true) body ∧
    count on_old_side body = old ∧ count on_new_side body = new ∧
    ∀ k s'', (k < length body)%nat → scan_lines s (take k body) = Some s'' → px_owed s'' ≠ None.
Proof.
  induction l as [|line l IH]; intros s s' old new Ho Hn Hs Hl Hend; cbn in Hl; [congruence|].
  destruct (scan_line s line) as [s1|] eqn:E1; [|done]. cbn in Hl.
  assert (∃ o n, count_line line old new = Some (o, n) ∧ s1 = s <| px_owed := owing o n |>) as (o & n & Ec & ->).
  { unfold scan_line in E1. rewrite Hs in E1. cbn [is_some] in E1.
    destruct (strip_prefix "diff --git " line); [done|]. destruct (strip_prefix "@@ " line); [done|].
    destruct (count_line line old new) as [[o n]|]; [|done]. cbn in E1. simplify_eq. eauto. }
  destruct (count_line_spec _ _ _ _ _ Ho Hn Ec) as (Hline & Ho' & Hn' & -> & ->).
  destruct (owing_spec o n Ho' Hn') as [(Hw & -> & ->)|Hw].
  - exists [line], l. rewrite !count_cons. unfold count. cbn. split_and!; try done; try lia.
    + by constructor.
    + intros k s'' Hk. assert (k = 0%nat) as -> by lia. cbn. intros [= <-]. congruence.
  - destruct (IH (s <| px_owed := owing o n |>) s' o n Ho' Hn' ltac:(by cbn; rewrite Hw) Hl Hend) as (body & post & -> & Hb & Hco & Hcn & Hk).
    exists (line :: body), post. rewrite !count_cons. split_and!; try done; try lia; [by constructor|].
    intros [|k] s'' Hlt; cbn; [intros [= <-]; congruence|]. rewrite E1. cbn. apply Hk. cbn in Hlt. lia.
Qed.

Lemma digits_value_nonneg s : ∀ acc v, 0 ≤ acc → digits_value acc s = Some v → 0 ≤ v.
Proof.
  induction s as [|a s IH]; intros acc v Ha; cbn; [by intros [= <-]|].
  destruct (in_range 48 (byte_val a) 57) eqn:E; [|done]. apply in_range_true in E.
  case_match; [|done]. apply IH. lia.
Qed.

Lemma hunk_side_nonneg sign v n : hunk_side sign v = Some n → 0 ≤ n.
Proof.
  unfold hunk_side, parse_usize. destruct (strip_prefix _ v) as [rest|]; [|done]. cbn.
  destruct (split_once _ rest) as [[? c]|]; [|intros; simplify_eq; lia].
  set (c' := match c with String "+" _ => _ | _ => c end). case_match; [done|].
  apply digits_value_nonneg. lia.
Qed.

Lemma scan_lines_app a b : ∀ s, scan_lines s (a ++ b) = (s ← scan_lines s a; scan_lines s b).
Proof. induction a as [|x a IH]; intros s; [done|]. cbn. destruct (scan_line s x); [apply IH|done]. Qed.

(** An accepted patch is complete.  Every hunk of a patch that is offered for undo is
    followed by exactly the old and new lines its header promises, all of them hunk lines;
    and the same patch cut anywhere inside the hunk is not accepted. *)
Theorem appliable_patch_is_complete diff pre rest post :
  patch_is_appliable diff = true →
  str_lines (trim diff) = (pre ++ ("@@ " +:+ rest) :: post)%list →
  ∃ old new body post', hunk_counts rest = Some (old, new) ∧ post = (body ++ post')%list ∧
    Forall (λ x, hunk_line x = true) body ∧
    count on_old_side body = old ∧ count on_new_side body = new ∧
    ∀ k s, (k < length body)%nat →
      scan_lines (MkScan 0 false false false None) (pre ++ ("@@ " +:+ rest) :: take k body) = Some s →
      is_none (px_owed s) = false.
Proof.
  unfold patch_is_appliable. case_match; [done|]. intros Hacc Hl. rewrite Hl, scan_lines_app in Hacc.
  set (s0 := MkScan 0 false false false None) in *.
  destruct (scan_lines s0 pre) as [s1|] eqn:Epre; [|done]. cbn [mbind option_bind scan_lines] in Hacc.
  destruct (scan_line s1 ("@@ " +:+ rest)) as [s2|] eqn:E2; [|done]. cbn [mbind option_bind] in Hacc.
  assert (∃ old new, hunk_counts rest = Some (old, new) ∧ s2 = s1 <| px_owed := owing old new |>)
    as (old & new & Hc & ->).
  { cbn in E2. destruct (is_some (px_owed s1)); [done|]. destruct (hunk_counts rest) as [[o n]|]; [|done].
    cbn in E2. simplify_eq. eauto. }
  assert (0 ≤ old ∧ 0 ≤ new) as [Ho Hn].
  { unfold hunk_counts in Hc. destruct (split_whitespace rest) as [|w1 [|w2 ?]]; try done.
    destruct (hunk_side "-" w1) eqn:F1; [|done]. cbn [mbind option_bind] in Hc.
    destruct (hunk_side "+" w2) eqn:F2; [|done]. cbn [mbind option_bind] in Hc. simplify_eq. eauto using hunk_side_nonneg. }
  destruct (scan_lines _ post) as [s3|] eqn:E3; [|done].
  apply andb_true_iff in Hacc as [[Hend%negb_true_iff _]%andb_true_iff _]. apply is_some_false in Hend.
  exists old, new. destruct (owing_spec old new Ho Hn) as [(Hw & -> & ->)|Hw].
  - exists [], post. split_and!; try done. intros k s Hk. cbn in Hk. lia.
  - destruct (hunk_delivers post (s1 <| px_owed := owing old new |>) s3 old new Ho Hn
      ltac:(by cbn; rewrite Hw) E3 Hend) as (body & post' & -> & Hb & Hco & Hcn & Hcut).
    exists body, post'. split_and!; try done. intros k s Hk. rewrite scan_lines_app, Epre.
    cbn [mbind option_bind scan_lines]. rewrite E2. cbn [mbind option_bind]. intros Hs.
    specialize (Hcut k s Hk Hs). by destruct (px_owed s).
Qed.

Definition sample_patch : string :=
  join_lines ["diff --git a/f b/f"; "--- a/f"; "+++ b/f"; "@@ -1,2 +1 @@"; "-old"; " kept"].

Lemma appliable_patch_is_complete_witness :
  ∃ old new body post', hunk_counts "-1,2 +1 @@" = Some (old, new) ∧
    ["-old"; " kept"] = (body ++ post')%list ∧ count on_old_side body = old.
Proof.
  destruct (appliable_patch_is_complete sample_patch ["diff --git a/f b/f"; "--- a/f"; "+++ b/f"]
    "-1,2 +1 @@" ["-old"; " kept"]) as (old & new & body & post' & H1 & H2 & _ & H3 & _).
  - by vm_compute.
  - by vm_compute.
  - by exists old, new, body, post'.
Defined.

(** A patch cut by its line budget is not offered. *)
Example truncated_patch_is_refused :
  patch_is_appliable sample_patch = true ∧
  patch_is_appliable (join_lines ["diff --git a/f b/f"; "--- a/f"; "+++ b/f"; "@@ -1,2 +1 @@"; "-old"]) = false.
Proof. by vm_compute. Qed.
