(* ===== verification/Pages.v ===== *)
(** * Pages of a transcript (crates/relay-server/src/protocol.rs, state/relay/runtime.rs)

    A transcript is sent backwards in pages of at most 20 000 serialised bytes, and the
    long fields of one entry in chunks of characters.  The sizes [serde_json] gives are a
    class with their documented law: the compact encoding of a page. *)

From Stdlib Require Import ZArith Lia Ascii String.
From stdpp Require Import pretty.
From S2P Require Import Prelude RustStr Json Approvals Transcript Runtime Patch.

Open Scope string_scope.
Open Scope Z_scope.

Definition THREAD_TRANSCRIPT_RESPONSE_TARGET_BYTES : Z := 20000.
Definition THREAD_TRANSCRIPT_ENVELOPE_UPPER_BOUND_BYTES : Z := 320.
Definition THREAD_ENTRY_DETAIL_INLINE_CHARS : nat := Z.to_nat 12000.
Definition THREAD_ENTRY_DETAIL_INITIAL_CHUNK_CHARS : nat := Z.to_nat 4000.
Definition THREAD_ENTRY_DETAIL_CHUNK_CHARS : nat := Z.to_nat 12000.

(** [thread_state] is never set by the functions here. *)
Record ThreadTranscriptResponse : Type := MkPage {
  tp_thread_id : string;
  tp_revision : Z;
  tp_server_time : Z;
  tp_entry_seq_start : option Z;
  tp_entry_seq_end : option Z;
  tp_entries : list TranscriptEntryView;
  tp_next_cursor : option nat;
  tp_prev_cursor : option nat
}.
#[export] Instance ThreadTranscriptResponse_expand : Expand ThreadTranscriptResponse := λ p,
  MkPage (tp_thread_id p) (tp_revision p) (tp_server_time p) (tp_entry_seq_start p)
    (tp_entry_seq_end p) (tp_entries p) (tp_next_cursor p) (tp_prev_cursor p).

(** ** Sizes *)
Definition num_len (n : Z) : Z := str_len (pretty (Z.to_N n)).
Definition opt_len (o : option Z) : Z := match o with Some n => num_len n | None => 4 end.
(** A key with its quotes and colon. *)
Definition key_len (k : string) : Z := str_len k + 3.
Definition sum_Z (l : list Z) : Z := foldr Z.add 0 l.

(** The bytes of a page around its entries: braces, seven commas, eight keys, the id in
    quotes, six numbers, brackets. *)
Definition envelope_len (p : ThreadTranscriptResponse) : Z :=
  2 + 7 + key_len "thread_id" + (str_len (tp_thread_id p) + 2)
  + key_len "revision" + num_len (tp_revision p) + key_len "server_time" + num_len (tp_server_time p)
  + key_len "entry_seq_start" + opt_len (tp_entry_seq_start p)
  + key_len "entry_seq_end" + opt_len (tp_entry_seq_end p) + key_len "entries" + 2
  + key_len "next_cursor" + opt_len (Z.of_nat <$> tp_next_cursor p)
  + key_len "prev_cursor" + opt_len (Z.of_nat <$> tp_prev_cursor p).

(** A character [serde_json] writes as it is. *)
Definition unescaped (a : ascii) : bool :=
  (32 <=? byte_val a) && negb (Ascii.eqb a "034") && negb (Ascii.eqb a "\").

Class SerdeJson := {
  entry_len : TranscriptEntryView → Z;
  page_len : ThreadTranscriptResponse → Z;
  entry_len_nonneg : ∀ v, 0 ≤ entry_len v;
  (** The compact encoding: the envelope, the entries, a comma between two of them. *)
  page_len_compact : ∀ p, string_forall unescaped (tp_thread_id p) = true →
    page_len p = envelope_len p + sum_Z (map entry_len (tp_entries p))
                 + Z.max 0 (Z.of_nat (length (tp_entries p)) - 1)
}.

(** ** Building a page *)
Definition build_thread_transcript_page (server_time : Z) (thread_id : string)
    (entries : list TranscriptEntryView) (next_cursor prev_cursor : option nat) (revision : Z)
    (start_index : nat) : ThreadTranscriptResponse := {|
  tp_thread_id := thread_id;
  tp_revision := revision;
  tp_server_time := server_time;
  tp_entry_seq_start := if decide (entries = []) then None else Some (Z.of_nat start_index + 1);
  tp_entry_seq_end := if decide (entries = []) then None
                      else Some (Z.of_nat start_index + Z.of_nat (length entries));
  tp_entries := entries;
  tp_next_cursor := next_cursor;
  tp_prev_cursor := prev_cursor |}.

Section Pages.
Context `{SerdeJson}.

(** The loop: [index] entries are left before the ones in [selected], whose sizes add up
    to [sum]. *)
Fixpoint pack (envelope : Z) (entry_at : nat → TranscriptEntryView) (index : nat) (sum : Z)
    (selected : list TranscriptEntryView) : list TranscriptEntryView * nat :=
  match index with
  | O => (selected, O)
  | S i =>
      let entry := strip_entry (entry_at i) in
      let len := entry_len entry in
      let estimated := u64_saturating_add (u64_saturating_add (u64_saturating_add envelope sum) len)
                         (Z.of_nat (length selected)) in
      if (THREAD_TRANSCRIPT_RESPONSE_TARGET_BYTES <? estimated) && negb (bool_decide (selected = []))
      then (selected, index)
      else pack envelope entry_at i (u64_saturating_add sum len) (entry :: selected)
  end.

Definition build_reverse_thread_transcript_page_from_source (server_time : Z) (thread_id : string)
    (transcript_len upper_bound : nat) (revision : Z) (entry_at : nat → TranscriptEntryView) :
    ThreadTranscriptResponse :=
  let envelope := THREAD_TRANSCRIPT_ENVELOPE_UPPER_BOUND_BYTES + str_len thread_id in
  let '(selected, index) := pack envelope entry_at upper_bound 0 [] in
  let '(selected, index) :=
    if bool_decide (selected = []) && (0 <? upper_bound)%nat
    then ([strip_entry (entry_at (upper_bound - 1)%nat)], (upper_bound - 1)%nat)
    else (selected, index) in
  build_thread_transcript_page server_time thread_id selected
    (if (upper_bound <? transcript_len)%nat then Some upper_bound else None)
    (if (0 <? index)%nat then Some index else None) revision index.

Definition from_transcript_source (server_time : Z) (thread_id : string) (transcript_len : nat)
    (before : option nat) (revision : Z) (entry_at : nat → TranscriptEntryView) :
    ThreadTranscriptResponse :=
  build_reverse_thread_transcript_page_from_source server_time thread_id transcript_len
    (default transcript_len before `min` transcript_len)%nat revision entry_at.

(** [ThreadRuntime::transcript_page]. *)
Definition runtime_entry_at (r : ThreadRuntime) (i : nat) : TranscriptEntryView :=
  default (MkView None EkUserText None "" None None CsFull)
    (view_with_apply_state (rt_apply_states r) <$> rt_transcript r !! i).

Definition transcript_page (server_time : Z) (thread_id : string) (before : option nat)
    (r : ThreadRuntime) : ThreadTranscriptResponse :=
  let page := from_transcript_source server_time thread_id (length (rt_transcript r)) before
                (rt_transcript_revision r) (runtime_entry_at r) in
  if is_none before && rt_provider_history_paged r
  then page <| tp_prev_cursor := rt_provider_history_cursor r |> else page.

Definition from_provider_page (server_time : Z) (thread_id : string)
    (entries : list TranscriptEntryView) (prev_cursor : option nat) (revision : Z) :
    ThreadTranscriptResponse :=
  MkPage thread_id revision server_time None None (strip_file_change_diffs_for_transport entries)
    None prev_cursor.
End Pages.

(** ** Entries by id *)
Definition from_item_ids (transcript : list TranscriptEntryView) (item_ids : list string) :
    list TranscriptEntryView :=
  let requested := filter (λ id, id ≠ "") item_ids in
  if decide (requested = []) then []
  else filter (λ v, match tv_item_id v with
                    | Some id => bool_decide (id ∈ requested)
                    | None => false
                    end = true) transcript.

(** ** One entry in chunks *)
Inductive DetailError : Type := MissingItemId | FieldUnavailable (field : string) | UnsupportedField.

Record PendingField : Type := MkPending {
  pf_field : string;
  pf_next_cursor : nat;
  pf_total_chars : nat
}.
Record DetailChunk : Type := MkChunk {
  ck_field : string;
  ck_text : string;
  ck_next_cursor : option nat;
  ck_total_chars : nat
}.
Record ThreadEntryDetailResponse : Type := MkDetail {
  de_thread_id : string;
  de_item_id : string;
  de_entry : option TranscriptEntryView;
  de_pending_fields : list PendingField;
  de_chunk : option DetailChunk
}.

Definition detail_field_names (v : TranscriptEntryView) : list string :=
  if decide (tv_kind v = EkToolCall)
  then ["tool.detail"; "tool.input_preview"; "tool.result_preview"; "tool.diff"]
  else ["text"].

(** The non-empty per-file diffs as one. *)
Definition combined_diff (changes : list FileChangeDiffView) : string :=
  join_lines (filter (λ d, d ≠ "") (map fc_diff changes)).

Definition tool_diff_value (tool : ToolCallView) : option string :=
  match tc_diff tool with
  | Some d => Some d
  | None => let c := combined_diff (tc_file_changes tool) in if is_empty c then None else Some c
  end.

Definition detail_field_value (v : TranscriptEntryView) (field : string) : option string :=
  if decide (field = "text") then tv_text v
  else if decide (field = "tool.detail") then tv_tool v ≫= tc_detail
  else if decide (field = "tool.input_preview") then tv_tool v ≫= tc_input_preview
  else if decide (field = "tool.result_preview") then tv_tool v ≫= tc_result_preview
  else if decide (field = "tool.diff") then tv_tool v ≫= tool_diff_value
  else None.

Definition externalize_tool (tool : ToolCallView) : ToolCallView :=
  if existsb (λ c, negb (is_empty (fc_diff c))) (tc_file_changes tool) then
    let tool := match tc_diff tool with
                | None => let c := combined_diff (tc_file_changes tool) in
                          if is_empty c then tool else tool <| tc_diff := Some c |>
                | Some _ => tool
                end in
    tool <| tc_file_changes ::= map (λ c, c <| fc_diff := "" |>) |>
  else tool.
Definition externalize_nested_file_change_diffs (v : TranscriptEntryView) : TranscriptEntryView :=
  v <| tv_tool ::= fmap externalize_tool |>.

Definition set_on_tool (field : string) (f : ToolCallView → ToolCallView) (v : TranscriptEntryView) :
    result TranscriptEntryView DetailError :=
  match tv_tool v with
  | Some t => Ok (v <| tv_tool := Some (f t) |>)
  | None => Err (FieldUnavailable field)
  end.

Definition set_detail_field_value (v : TranscriptEntryView) (field value : string) :
    result TranscriptEntryView DetailError :=
  if decide (field = "text") then Ok (v <| tv_text := Some value |>)
  else if decide (field = "tool.detail") then set_on_tool field (set_field tc_detail (λ _, Some value)) v
  else if decide (field = "tool.input_preview")
  then set_on_tool field (set_field tc_input_preview (λ _, Some value)) v
  else if decide (field = "tool.result_preview")
  then set_on_tool field (set_field tc_result_preview (λ _, Some value)) v
  else if decide (field = "tool.diff") then set_on_tool field (set_field tc_diff (λ _, Some value)) v
  else Err UnsupportedField.

Definition slice_chars (value : string) (start len : nat) : string := take_chars len (drop_chars start value).
Definition chars_count (s : string) : nat := length (chars s).

(** One iteration of the loop over the fields. *)
Definition shorten_field (v : TranscriptEntryView)
    (acc : result (TranscriptEntryView * list PendingField) DetailError) (field : string) :
    result (TranscriptEntryView * list PendingField) DetailError :=
  match acc with
  | Err e => Err e
  | Ok (out, pending) =>
      match detail_field_value v field with
      | None => Ok (out, pending)
      | Some value =>
          let total_chars := chars_count value in
          if (total_chars <=? THREAD_ENTRY_DETAIL_INLINE_CHARS)%nat then Ok (out, pending)
          else
            let chunk := slice_chars value 0 THREAD_ENTRY_DETAIL_INITIAL_CHUNK_CHARS in
            match set_detail_field_value out field chunk with
            | Err e => Err e
            | Ok out => Ok (out, (pending ++ [MkPending field (chars_count chunk) total_chars])%list)
            end
      end
  end.

Definition from_entry (thread_id : string) (v : TranscriptEntryView) :
    result ThreadEntryDetailResponse DetailError :=
  match tv_item_id v with
  | None => Err MissingItemId
  | Some item_id =>
      match foldl (shorten_field v) (Ok (externalize_nested_file_change_diffs v, []))
              (detail_field_names v) with
      | Err e => Err e
      | Ok (out, pending) => Ok (MkDetail thread_id item_id (Some out) pending None)
      end
  end.

Definition from_entry_chunk (thread_id : string) (v : TranscriptEntryView) (field : string)
    (cursor : nat) : result ThreadEntryDetailResponse DetailError :=
  match tv_item_id v with
  | None => Err MissingItemId
  | Some item_id =>
      match detail_field_value v field with
      | None => Err (FieldUnavailable field)
      | Some value =>
          let total_chars := chars_count value in
          let text := slice_chars value cursor THREAD_ENTRY_DETAIL_CHUNK_CHARS in
          let advanced_by := chars_count text in
          let next_cursor := if (cursor + advanced_by <? total_chars)%nat
                             then Some (cursor + advanced_by)%nat else None in
          Ok (MkDetail thread_id item_id None
                (option_list ((λ c, MkPending field c total_chars) <$> next_cursor))
                (Some (MkChunk field text next_cursor total_chars)))
      end
  end.

(** * Pages: within budget, complete, reassembled *)
(** ** Decimal lengths *)
Lemma pretty_N_go_len (k : nat) : ∀ x s,
  (x < 10 ^ N.of_nat k)%N → (String.length (pretty_N_go x s) ≤ k + String.length s)%nat.
Proof.
  induction k as [|k IH]; intros x s Hx.
  { cbn in Hx. assert (x = 0%N) as -> by lia. by rewrite pretty_N_go_0. }
  destruct (decide (x = 0%N)) as [->|Hn]; [rewrite pretty_N_go_0; lia|].
  rewrite pretty_N_go_step by lia. etrans; [apply IH|cbn; lia].
  apply N.Div0.div_lt_upper_bound. rewrite <- N.pow_succ_r'. by rewrite <- Nat2N.inj_succ.
Qed.

Lemma num_len_u64 n : 0 ≤ n ≤ u64_max → num_len n ≤ 20.
Proof.
  intros Hn. unfold num_len, str_len, pretty, pretty_N.
  case_decide as H0; [by cbn|].
  pose proof (pretty_N_go_len 20 (Z.to_N n) "") as H.
  assert (Z.to_N n < 10 ^ N.of_nat 20)%N as Hlt.
  { unfold u64_max in Hn. change (10 ^ N.of_nat 20)%N with 100000000000000000000%N. lia. }
  specialize (H Hlt). cbn [String.length] in H. lia.
Qed.

Lemma opt_len_u64 o : (∀ n, o = Some n → 0 ≤ n ≤ u64_max) → opt_len o ≤ 20.
Proof. destruct o as [n|]; cbn; [intros Ho; by apply num_len_u64, Ho|lia]. Qed.

Lemma envelope_bound p :
  in_u64 (tp_revision p) → in_u64 (tp_server_time p) →
  (∀ n, tp_entry_seq_start p = Some n ∨ tp_entry_seq_end p = Some n → 0 ≤ n ≤ u64_max) →
  (∀ c, tp_next_cursor p = Some c ∨ tp_prev_cursor p = Some c → Z.of_nat c ≤ u64_max) →
  envelope_len p ≤ THREAD_TRANSCRIPT_ENVELOPE_UPPER_BOUND_BYTES + str_len (tp_thread_id p).
Proof.
  intros Hr Ht Hs Hc. unfold envelope_len, THREAD_TRANSCRIPT_ENVELOPE_UPPER_BOUND_BYTES.
  pose proof (num_len_u64 _ Hr). pose proof (num_len_u64 _ Ht).
  pose proof (opt_len_u64 (tp_entry_seq_start p) ltac:(naive_solver)).
  pose proof (opt_len_u64 (tp_entry_seq_end p) ltac:(naive_solver)).
  assert (∀ o, (∀ c, o = Some c → Z.of_nat c ≤ u64_max) → opt_len (Z.of_nat <$> o) ≤ 20) as Ho.
  { intros o Hoc. apply opt_len_u64. intros n Hn. destruct o as [c|]; [|done]. cbn in Hn.
    injection Hn as <-. specialize (Hoc c eq_refl). lia. }
  pose proof (Ho (tp_next_cursor p) ltac:(naive_solver)).
  pose proof (Ho (tp_prev_cursor p) ltac:(naive_solver)).
  change (key_len "thread_id") with 12. change (key_len "revision") with 11.
  change (key_len "server_time") with 14. change (key_len "entry_seq_start") with 18.
  change (key_len "entry_seq_end") with 16. change (key_len "entries") with 10.
  change (key_len "next_cursor") with 14. change (key_len "prev_cursor") with 14. lia.
Qed.

Section Pages.
Context `{SerdeJson}.
Implicit Types (sel : list TranscriptEntryView).

(** ** The packing loop *)
Definition sizes sel : Z := sum_Z (map entry_len sel).

Lemma sizes_nonneg sel : 0 ≤ sizes sel.
Proof.
  induction sel as [|v sel IH]; [done|]. pose proof (entry_len_nonneg v).
  assert (sizes (v :: sel) = entry_len v + sizes sel) as -> by done. lia.
Qed.

(** The entries [i..j) as they are sent. *)
Definition sent (entry_at : nat → TranscriptEntryView) (i j : nat) : list TranscriptEntryView :=
  map (λ k, strip_entry (entry_at k)) (seq i (j - i)).

Lemma sent_snoc entry_at i j :
  (i ≤ j)%nat → sent entry_at i (S j) = (sent entry_at i j ++ [strip_entry (entry_at j)])%list.
Proof.
  intros Hij. unfold sent. replace (S j - i)%nat with (S (j - i)) by lia.
  rewrite seq_S, map_app. cbn. by replace (i + (j - i))%nat with j by lia.
Qed.

Lemma sent_app entry_at i j k :
  (i ≤ j)%nat → (j ≤ k)%nat → sent entry_at i k = (sent entry_at i j ++ sent entry_at j k)%list.
Proof.
  intros Hij Hjk. unfold sent. replace (k - i)%nat with ((j - i) + (k - j))%nat by lia.
  rewrite seq_app, map_app. by replace (i + (j - i))%nat with j by lia.
Qed.

Lemma pack_spec env entry_at index : ∀ sum sel,
  let '(sel', i) := pack env entry_at index sum sel in
  (i ≤ index)%nat ∧ sel' = (sent entry_at i index ++ sel)%list ∧
  (sel = [] → (0 < index)%nat → (i < index)%nat).
Proof.
  induction index as [|index IH]; intros sum sel; cbn [pack].
  { split_and!; [lia|done|lia]. }
  destruct (_ && negb (bool_decide (sel = []))) eqn:E.
  { split_and!; [lia| |].
    - unfold sent. by rewrite Nat.sub_diag.
    - intros ->. rewrite bool_decide_eq_true_2 in E by done. by rewrite andb_false_r in E. }
  specialize (IH (u64_saturating_add sum (entry_len (strip_entry (entry_at index))))
    (strip_entry (entry_at index) :: sel)).
  destruct (pack env entry_at index _ _) as [sel' i]. destruct IH as (Hi & -> & _).
  split_and!; [lia| |lia]. rewrite sent_snoc by lia. by rewrite <- app_assoc.
Qed.

(** Two or more entries fit, commas included. *)
Definition fits (env : Z) sel : Prop :=
  (length sel ≤ 1)%nat ∨
  env + sizes sel + Z.of_nat (length sel) - 1 ≤ THREAD_TRANSCRIPT_RESPONSE_TARGET_BYTES.

Lemma pack_fits env entry_at index : ∀ sum sel,
  0 ≤ env → sum = Z.min (sizes sel) u64_max → fits env sel →
  fits env (pack env entry_at index sum sel).1.
Proof.
  induction index as [|index IH]; intros sum sel Henv Hsum Hfit; cbn [pack]; [done|].
  set (v := strip_entry (entry_at index)).
  destruct (_ && negb (bool_decide (sel = []))) eqn:E; [done|].
  pose proof (sizes_nonneg sel) as Hs. pose proof (entry_len_nonneg v) as Hv.
  assert (sizes (v :: sel) = entry_len v + sizes sel) as Hsz by done.
  apply IH; [done| |].
  { rewrite Hsz. subst sum. unfold u64_saturating_add, u64_max in *. lia. }
  destruct (decide (sel = [])) as [->|Hne]; [left; cbn; lia|]. right.
  rewrite (bool_decide_eq_false_2 _ Hne), andb_true_r in E. apply Z.ltb_ge in E.
  unfold THREAD_TRANSCRIPT_RESPONSE_TARGET_BYTES, u64_saturating_add, u64_max in *.
  rewrite Hsz. cbn [length]. lia.
Qed.

(** ** A page *)
Context (server_time : Z) (thread_id : string) (revision : Z) (len : nat)
  (entry_at : nat → TranscriptEntryView).
Let page (before : option nat) : ThreadTranscriptResponse :=
  from_transcript_source server_time thread_id len before revision entry_at.

Lemma page_shape before :
  let ub := (default len before `min` len)%nat in
  ∃ i, (i ≤ ub)%nat ∧ ((0 < ub)%nat → (i < ub)%nat) ∧
    page before = build_thread_transcript_page server_time thread_id (sent entry_at i ub)
      (if (ub <? len)%nat then Some ub else None) (if (0 <? i)%nat then Some i else None) revision i ∧
    fits (THREAD_TRANSCRIPT_ENVELOPE_UPPER_BOUND_BYTES + str_len thread_id) (sent entry_at i ub).
Proof.
  cbv zeta. unfold page, from_transcript_source. set (ub := (_ `min` _)%nat).
  unfold build_reverse_thread_transcript_page_from_source.
  set (env := THREAD_TRANSCRIPT_ENVELOPE_UPPER_BOUND_BYTES + str_len thread_id).
  pose proof (pack_spec env entry_at ub 0 []) as Hp.
  pose proof (pack_fits env entry_at ub 0 []) as Hf.
  destruct (pack env entry_at ub 0 []) as [sel i]. destruct Hp as (Hi & -> & Hlt).
  rewrite app_nil_r in *. cbn [fst] in Hf.
  assert (bool_decide (sent entry_at i ub = []) && (0 <? ub)%nat = false) as ->.
  { destruct (Nat.ltb_spec 0 ub) as [H0|]; [|apply andb_false_r].
    rewrite andb_true_r. apply bool_decide_eq_false. intros Hn. apply (f_equal length) in Hn.
    unfold sent in Hn. rewrite length_map, length_seq in Hn. cbn in Hn. specialize (Hlt eq_refl H0). lia. }
  exists i. split_and!; [done|auto|done|]. apply Hf.
  - unfold env, THREAD_TRANSCRIPT_ENVELOPE_UPPER_BOUND_BYTES, str_len. lia.
  - unfold sizes, u64_max. cbn. lia.
  - left. cbn. lia.
Qed.
End Pages.

(** ** Reading a transcript back *)
Section Walk.
Context `{SerdeJson} (server_time : Z) (thread_id : string) (revision : Z) (len : nat)
  (entry_at : nat → TranscriptEntryView).
Notation page := (λ before, from_transcript_source server_time thread_id len before revision entry_at).

(** C31: page size.  A page that holds two entries or more is at most 20 000 bytes when it is
    serialised, whatever the entries, the cursors and the revision: the bound of 320 bytes
    that the packing loop assumes for everything around the entries is never exceeded. *)
Theorem transcript_page_within_budget before :
  string_forall unescaped thread_id = true → in_u64 revision → in_u64 server_time →
  Z.of_nat len ≤ u64_max → (1 < length (tp_entries (page before)))%nat →
  page_len (page before) ≤ THREAD_TRANSCRIPT_RESPONSE_TARGET_BYTES.
Proof.
  intros Hid Hr Ht Hlen H1.
  destruct (page_shape server_time thread_id revision len entry_at before) as (i & Hi & _ & E & Hf).
  cbv beta in *. rewrite E in *. set (ub := (_ `min` _)%nat) in *. cbn [tp_entries build_thread_transcript_page] in H1.
  rewrite page_len_compact by done. destruct Hf as [Hf|Hf]; [lia|].
  assert (ub ≤ len)%nat by (unfold ub; lia).
  assert (length (sent entry_at i ub) = ub - i)%nat as Hl by (unfold sent; by rewrite length_map, length_seq).
  pose proof (envelope_bound (build_thread_transcript_page server_time thread_id (sent entry_at i ub)
    (if (ub <? len)%nat then Some ub else None) (if (0 <? i)%nat then Some i else None) revision i)) as Hb.
  cbn [build_thread_transcript_page tp_entries tp_thread_id tp_revision tp_server_time tp_entry_seq_start
    tp_entry_seq_end tp_next_cursor tp_prev_cursor] in *.
  specialize (Hb Hr Ht). unfold sizes in Hf.
  assert (envelope_len (build_thread_transcript_page server_time thread_id (sent entry_at i ub)
    (if (ub <? len)%nat then Some ub else None) (if (0 <? i)%nat then Some i else None) revision i)
    ≤ THREAD_TRANSCRIPT_ENVELOPE_UPPER_BOUND_BYTES + str_len thread_id); [|lia].
  apply Hb.
  - intros n Hn. rewrite Hl in Hn. repeat case_decide; destruct Hn; simplify_eq; lia.
  - intros c Hc. repeat case_match; destruct Hc; simplify_eq; lia.
Qed.

(** A client that follows the cursors to the start. *)
Fixpoint read_back (fuel : nat) (before : option nat) : option (list TranscriptEntryView) :=
  match fuel with
  | O => None
  | S fuel =>
      let p := page before in
      match tp_prev_cursor p with
      | None => Some (tp_entries p)
      | Some c => (λ older, (older ++ tp_entries p)%list) <$> read_back fuel (Some c)
      end
  end.

Lemma read_back_spec fuel : ∀ before,
  (default len before `min` len ≤ fuel)%nat → (0 < fuel)%nat →
  read_back fuel before = Some (sent entry_at 0 (default len before `min` len)).
Proof.
  induction fuel as [|fuel IH]; intros before Hf H1; [lia|]. cbn [read_back].
  destruct (page_shape server_time thread_id revision len entry_at before) as (i & Hi & Hlt & E & _).
  cbv beta in *. rewrite E. set (ub := (_ `min` _)%nat) in *.
  cbn [tp_prev_cursor tp_entries build_thread_transcript_page].
  destruct (Nat.ltb_spec 0 i) as [H0|H0].
  - specialize (Hlt ltac:(lia)).
    assert ((default len (Some i) `min` len)%nat = i) as Hm by (cbn; unfold ub in *; lia).
    rewrite IH; rewrite ?Hm; [|lia..]. cbn. f_equal. symmetry. apply sent_app; lia.
  - by assert (i = 0%nat) as -> by lia.
Qed.

(** C32: paging a transcript that the relay holds itself terminates and loses nothing.  A
    client that starts at the end and follows the cursor of each page reaches the first entry
    after at most as many pages as there are entries (one for an empty transcript), and the
    pages, oldest first, are exactly the transcript: every entry once, in order.  It does not
    speak of a runtime whose history its provider pages ([paged_history_hides_entries]). *)
Theorem pages_cover_the_transcript :
  read_back (Nat.max 1 len) None = Some (map (λ k, strip_entry (entry_at k)) (seq 0 len)).
Proof.
  rewrite read_back_spec by (cbn; lia). cbn [default]. rewrite Nat.min_id. unfold sent.
  by rewrite Nat.sub_0_r.
Qed.
End Walk.

(** A runtime whose history is paged by its provider answers the first request with the
    provider's cursor, so entries of the transcript that did not fit on the page are on no
    page a client reaches. *)
Definition big_entries : SerdeJson.
Proof.
  refine {| entry_len := λ _, 15000;
            page_len := λ p, envelope_len p + sum_Z (map (λ _, 15000) (tp_entries p))
                             + Z.max 0 (Z.of_nat (length (tp_entries p)) - 1) |}; done.
Defined.

Example paged_history_hides_entries :
  let entry id := MkRecord id EkAgentText (Some "text") "completed" None None None in
  let r := (runtime_placeholder "t1" 0 0) <| rt_transcript := [entry "first"; entry "second"] |>
             <| rt_provider_history_paged := true |> in
  let p := @transcript_page big_entries 0 "t1" None r in
  map tv_item_id (tp_entries p) = [Some "second"] ∧ tp_prev_cursor p = None.
Proof. by vm_compute. Qed.

Definition small_entries : SerdeJson.
Proof.
  refine {| entry_len := λ _, 150;
            page_len := λ p, envelope_len p + sum_Z (map (λ _, 150) (tp_entries p))
                             + Z.max 0 (Z.of_nat (length (tp_entries p)) - 1) |}; done.
Defined.

Lemma transcript_page_within_budget_witness :
  let p := @from_transcript_source small_entries 1700000000 "t1" 3 None 12
             (λ _, MkView (Some "a") EkAgentText (Some "hi") "completed" None None CsFull) in
  length (tp_entries p) = 3%nat ∧ @page_len small_entries p ≤ 20000.
Proof.
  cbv zeta. split; [by vm_compute|].
  apply (@transcript_page_within_budget small_entries 1700000000 "t1" 12 3).
  - by vm_compute.
  - unfold in_u64, u64_max. lia.
  - unfold in_u64, u64_max. lia.
  - unfold u64_max. lia.
  - vm_compute. lia.
Defined.

(** ** One entry in chunks *)

Lemma join_nonempty l : Forall (λ x, x ≠ "") l → l ≠ [] → join_lines l ≠ "".
Proof.
  destruct l as [|x l]; [done|]. intros [Hx _]%Forall_cons _. unfold join_lines.
  destruct x as [|a x]; [done|]. by destruct l.
Qed.

Lemma externalize_value v field :
  detail_field_value (externalize_nested_file_change_diffs v) field = detail_field_value v field.
Proof.
  unfold detail_field_value, externalize_nested_file_change_diffs. cbn.
  destruct (tv_tool v) as [t|]; [|done]. cbn.
  assert (tool_diff_value (externalize_tool t) = tool_diff_value t) as ->.
  { unfold externalize_tool. case_match eqn:Ex; [|done]. unfold tool_diff_value.
    destruct (tc_diff t) as [d|] eqn:Ed; cbn; [by rewrite Ed|].
    assert (is_empty (combined_diff (tc_file_changes t)) = false) as ->; [|done].
    apply is_empty_false. unfold combined_diff. apply join_nonempty.
    - apply Forall_forall. intros x Hx. by apply list_elem_of_filter in Hx as [? _].
    - apply existsb_exists in Ex as (c & Hc & Hd%negb_true_iff). rewrite is_empty_false in Hd. intros Hn.
      assert (fc_diff c ∈ filter (λ d, d ≠ "") (map fc_diff (tc_file_changes t))) as Hin.
      { apply list_elem_of_filter. split; [done|]. by apply list_elem_of_In, in_map. }
      rewrite Hn in Hin. by apply not_elem_of_nil in Hin. }
  assert (tc_detail (externalize_tool t) = tc_detail t ∧
    tc_input_preview (externalize_tool t) = tc_input_preview t ∧
    tc_result_preview (externalize_tool t) = tc_result_preview t) as (-> & -> & ->).
  { unfold externalize_tool. by repeat case_match. }
  done.
Qed.

(** Writing a field that has a value succeeds, and changes that field alone. *)
Lemma set_field_value v field old x :
  detail_field_value v field = Some old →
  ∃ v', set_detail_field_value v field x = Ok v' ∧ detail_field_value v' field = Some x ∧
    ∀ g, g ≠ field → detail_field_value v' g = detail_field_value v g.
Proof.
  unfold detail_field_value, set_detail_field_value, set_on_tool. intros Hv.
  destruct (decide (field = "text")); [|destruct (decide (field = "tool.detail"));
    [|destruct (decide (field = "tool.input_preview")); [|destruct (decide (field = "tool.result_preview"));
      [|destruct (decide (field = "tool.diff")); [|done]]]]].
  1: (eexists; split; [reflexivity|]); (split; [done|]); intros g Hg; cbn; repeat case_decide; done || congruence.
  all: destruct (tv_tool v) as [t|]; [|done].
  all: (eexists; split; [reflexivity|]); (split; [done|]); intros g Hg; cbn; repeat case_decide; done || congruence.
Qed.

Lemma chunk_positive : (0 < THREAD_ENTRY_DETAIL_CHUNK_CHARS)%nat.
Proof. unfold THREAD_ENTRY_DETAIL_CHUNK_CHARS. lia. Qed.
#[global] Opaque THREAD_ENTRY_DETAIL_CHUNK_CHARS THREAD_ENTRY_DETAIL_INITIAL_CHUNK_CHARS
  THREAD_ENTRY_DETAIL_INLINE_CHARS.

Section Detail.
Context (thread_id : string) (v : TranscriptEntryView).

(** The chunks of a field from a cursor on, as a client asks for them. *)
Fixpoint gather (fuel : nat) (field : string) (cursor : nat) : option string :=
  match fuel with
  | O => None
  | S fuel =>
      match from_entry_chunk thread_id v field cursor with
      | Ok (MkDetail _ _ _ _ (Some ck)) =>
          match ck_next_cursor ck with
          | None => Some (ck_text ck)
          | Some c => (λ rest, ck_text ck +:+ rest) <$> gather fuel field c
          end
      | _ => None
      end
  end.

Lemma gather_spec field value id fuel : ∀ cursor,
  tv_item_id v = Some id → detail_field_value v field = Some value →
  (chars_count value - cursor < fuel)%nat →
  gather fuel field cursor = Some (drop_chars cursor value).
Proof.
  pose proof chunk_positive as Hn.
  induction fuel as [|fuel IH]; intros cursor Hid Hv Hf; [lia|]. cbn [gather].
  unfold from_entry_chunk. rewrite Hid, Hv. cbn [ck_next_cursor ck_text de_chunk].
  revert IH. generalize dependent THREAD_ENTRY_DETAIL_CHUNK_CHARS. intros n Hn IH.
  set (text := slice_chars value cursor n).
  assert (chars_count text = n `min` (chars_count value - cursor))%nat as Hc.
  { unfold chars_count, text, slice_chars. by rewrite chars_take_chars, chars_drop_chars, length_take, length_drop. }
  destruct (Nat.ltb_spec (cursor + chars_count text) (chars_count value)) as [Hlt|Hge].
  - rewrite IH by (done || lia). cbn. f_equal. rewrite <- drop_chars_add.
    assert (chars_count text = n) as -> by lia. apply take_drop_chars.
  - f_equal. unfold text, slice_chars. apply take_chars_all.
    change (length (chars (drop_chars cursor value))) with (chars_count (drop_chars cursor value)).
    unfold chars_count in *. rewrite chars_drop_chars, length_drop. lia.
Qed.

(** What a client sees of a field: all of it, or a beginning and where to go on. *)
Definition shown_with (out : TranscriptEntryView) (pending : list PendingField) (field : string) : Prop :=
  match detail_field_value v field with
  | None => detail_field_value out field = None
  | Some value =>
      detail_field_value out field = Some value ∧ Forall (λ p, pf_field p ≠ field) pending ∨
      ∃ p shown, p ∈ pending ∧ pf_field p = field ∧ pf_total_chars p = chars_count value ∧
        detail_field_value out field = Some shown ∧
        shown = take_chars THREAD_ENTRY_DETAIL_INITIAL_CHUNK_CHARS value ∧
        pf_next_cursor p = chars_count shown
  end.

Lemma shorten_spec fields : ∀ out pending,
  NoDup fields →
  (∀ f, f ∈ fields → detail_field_value out f = detail_field_value v f ∧
                     Forall (λ p, pf_field p ≠ f) pending) →
  ∃ out' pending', foldl (shorten_field v) (Ok (out, pending)) fields = Ok (out', (pending ++ pending')%list) ∧
    Forall (λ p, pf_field p ∈ fields) pending' ∧
    (∀ f, f ∈ fields → shown_with out' (pending ++ pending') f) ∧
    (∀ f, f ∉ fields → detail_field_value out' f = detail_field_value out f).
Proof.
  induction fields as [|f fields IH]; intros out pending Hnd Hf; cbn [foldl].
  { exists out, []. rewrite app_nil_r. split_and!; [done|constructor| |done]. intros f Hin. by apply not_elem_of_nil in Hin. }
  apply NoDup_cons in Hnd as [Hnf Hnd]. destruct (Hf f) as [Hof Hpf]; [set_solver|].
  assert (∀ out1 pending1, (∀ g, g ≠ f → detail_field_value out1 g = detail_field_value out g) →
    Forall (λ p, pf_field p = f) pending1 →
    (∀ out' more, Forall (λ p, pf_field p ∈ fields) more →
       detail_field_value out' f = detail_field_value out1 f →
       shown_with out' ((pending ++ pending1) ++ more) f) →
    ∃ out' pending', foldl (shorten_field v) (Ok (out1, (pending ++ pending1)%list)) fields
        = Ok (out', (pending ++ pending')%list) ∧
      Forall (λ p, pf_field p ∈ f :: fields) pending' ∧
      (∀ g, g ∈ f :: fields → shown_with out' (pending ++ pending') g) ∧
      (∀ g, g ∉ f :: fields → detail_field_value out' g = detail_field_value out g)) as Hgo.
  { intros out1 pending1 Ho Hp1 Hfs.
    destruct (IH out1 (pending ++ pending1)%list Hnd) as (out' & more & E & Hm & Hs & Hfr).
    { intros g Hg. assert (g ≠ f) by congruence. destruct (Hf g) as [Hog Hpg]; [set_solver|].
      rewrite Ho by done. split; [done|]. apply Forall_app. split; [done|].
      eapply Forall_impl; [exact Hp1|]. intros p ->. done. }
    exists out', (pending1 ++ more)%list. rewrite app_assoc. split_and!; [done| | |].
    - apply Forall_app. split.
      + eapply Forall_impl; [exact Hp1|]. intros p ->. set_solver.
      + eapply Forall_impl; [exact Hm|]. set_solver.
    - intros g [->|Hg]%elem_of_cons; [|by apply Hs]. apply Hfs; [done|]. by apply Hfr.
    - intros g Hg. rewrite Hfr by set_solver. apply Ho. set_solver. }
  unfold shorten_field at 2. destruct (detail_field_value v f) as [value|] eqn:Ev.
  2:{ specialize (Hgo out []). rewrite (app_nil_r pending) in Hgo. apply Hgo; [done|constructor|].
      intros out' more _ E. unfold shown_with. rewrite Ev. congruence. }
  case_match eqn:Elen.
  { specialize (Hgo out []). rewrite (app_nil_r pending) in Hgo. apply Hgo; [done|constructor|].
    intros out' more Hm E. unfold shown_with. rewrite Ev. left. split; [congruence|].
    apply Forall_app. split; [done|]. eapply Forall_impl; [exact Hm|]. set_solver. }
  set (chunk := slice_chars value 0 THREAD_ENTRY_DETAIL_INITIAL_CHUNK_CHARS).
  destruct (set_field_value out f value chunk ltac:(congruence)) as (out1 & -> & Hset & Hoth).
  apply Hgo; [done|by constructor|]. intros out' more Hm E. unfold shown_with. rewrite Ev. right.
  exists (MkPending f (chars_count chunk) (chars_count value)), chunk.
  split_and!; [set_solver|done|done|congruence|done|done].
Qed.

(** A long entry is reassembled.  The detail of an entry that has an id is always
    produced.  Every field a client needs is in it, whole or as its first 4 000 characters
    with a cursor; and asking for the chunks from that cursor on ends, and gives exactly the
    rest of the field. *)
Theorem entry_detail_reassembles id :
  tv_item_id v = Some id →
  ∃ out pending, from_entry thread_id v = Ok (MkDetail thread_id id (Some out) pending None) ∧
    ∀ field value, field ∈ detail_field_names v → detail_field_value v field = Some value →
      detail_field_value out field = Some value ∨
      ∃ p shown rest, p ∈ pending ∧ pf_field p = field ∧ detail_field_value out field = Some shown ∧
        gather (S (chars_count value)) field (pf_next_cursor p) = Some rest ∧ shown +:+ rest = value.
Proof.
  intros Hid. unfold from_entry. rewrite Hid.
  destruct (shorten_spec (detail_field_names v) (externalize_nested_file_change_diffs v) [])
    as (out & pending & E & _ & Hs & _).
  - unfold detail_field_names. case_decide; apply (bool_decide_unpack _); by vm_compute.
  - intros f _. split; [apply externalize_value|constructor].
  - rewrite E. exists out, pending. split; [done|]. intros field value Hf Hv.
    specialize (Hs field Hf). unfold shown_with in Hs. rewrite Hv in Hs.
    destruct Hs as [[Hs _]|(p & shown & Hp & Hpf & _ & Hsh & -> & Hcur)]; [by left|right].
    eexists p, _, (drop_chars (pf_next_cursor p) value). split_and!; [done|done|exact Hsh| |].
    + eapply gather_spec; [done|done|lia].
    + rewrite Hcur. unfold chars_count. rewrite chars_take_chars, length_take.
      destruct (Nat.min_spec THREAD_ENTRY_DETAIL_INITIAL_CHUNK_CHARS (length (chars value))) as [[_ ->]|[Hge ->]].
      * apply take_drop_chars.
      * rewrite (take_chars_all THREAD_ENTRY_DETAIL_INITIAL_CHUNK_CHARS value), drop_chars_all by done.
        apply string_app_nil_r.
Qed.
End Detail.

Lemma entry_detail_reassembles_witness :
  let v := MkView (Some "a") EkAgentText (Some "hello") "completed" None None CsFull in
  ∃ out pending, from_entry "t1" v = Ok (MkDetail "t1" "a" (Some out) pending None).
Proof.
  cbv zeta.
  destruct (entry_detail_reassembles "t1" (MkView (Some "a") EkAgentText (Some "hello") "completed" None None CsFull)
    "a" eq_refl) as (out & pending & H & _). by exists out, pending.
Defined.
