(* ===== verification/Snapshot.v ===== *)
(** * Session snapshots (crates/relay-server/src/protocol.rs)

    The state of a session as it is broadcast, and its reduction to the byte budget of a
    surface.  The serialised sizes and the hash of a question list are parameters.  What the
    reduction only drops or carries is JSON. *)

From Stdlib Require Import ZArith Lia Ascii String.
From stdpp Require Import sorting.
From S2P Require Import Prelude RustStr Json Approvals Transcript Runtime WorkflowRun.

Open Scope string_scope.
Open Scope Z_scope.

(** ** Shortening *)
Definition ELLIPSIS_LEN : nat := 3.
Definition EMERGENCY_TRANSCRIPT_SHELL_CHARS : nat := 24.
Definition EMERGENCY_TRANSCRIPT_CWD_CHARS : nat := 512.
Definition WORKFLOW_ACTIVITY_FIELD_BYTES : nat := 256.
Definition REVIEW_ACTIVITY_FIELD_BYTES : nat := 256.

(** [".".repeat(n)]. *)
Fixpoint dots (n : nat) : string := match n with O => "" | S n => String "." (dots n) end.

Definition truncate_with_ellipsis (max_chars : nat) (value : string) : string * bool :=
  if (length (chars value) <=? max_chars)%nat then (value, false)
  else if (max_chars <=? ELLIPSIS_LEN)%nat then (dots max_chars, true)
  else (take_chars (max_chars - ELLIPSIS_LEN) value +:+ "...", true).

(** The whole characters of [s] that fit in [room] bytes. *)
Fixpoint take_whole (room : nat) (s : string) : string :=
  match room, s with
  | O, _ => ""
  | _, EmptyString => ""
  | S r, String a s1 =>
      let z := byte_val a in
      if z <? 192 then String a (take_whole r s1) else
      match r, s1 with
      | S r, String b s2 =>
          if z <? 224 then String a (String b (take_whole r s2)) else
          match r, s2 with
          | S r, String c s3 =>
              if z <? 240 then String a (String b (String c (take_whole r s3))) else
              match r, s3 with
              | S r, String d s4 => String a (String b (String c (String d (take_whole r s4))))
              | _, _ => ""
              end
          | _, _ => ""
          end
      | _, _ => ""
      end
  end.

Definition truncate_utf8_bytes_with_ellipsis (max_bytes : nat) (value : string) : string :=
  if (String.length value <=? max_bytes)%nat then value
  else if (max_bytes <=? ELLIPSIS_LEN)%nat then dots max_bytes
  else take_whole (max_bytes - ELLIPSIS_LEN) value +:+ "...".

Definition truncate_opt (n : nat) (o : option string) : option string * bool :=
  match o with
  | None => (None, false)
  | Some s => let '(s, b) := truncate_with_ellipsis n s in (Some s, b)
  end.

(** ** Content state *)
Definition content_rank (c : TranscriptContentState) : nat :=
  match c with CsFull => 2 | CsPreview => 1 | CsOmitted => 0 end.
Definition downgrade_to (c state : TranscriptContentState) : TranscriptContentState :=
  if (content_rank state <? content_rank c)%nat then state else c.

(** ** Views *)
Record LogEntryView : Type := MkLog {
  lg_kind : string;
  lg_message : string;
  lg_created_at : Z;
  lg_remote_safe : bool
}.
#[export] Instance LogEntryView_expand : Expand LogEntryView := λ l,
  MkLog (lg_kind l) (lg_message l) (lg_created_at l) (lg_remote_safe l).

Record ProviderStatusView : Type := MkStatus { psv_rest : json; psv_reason : option string }.
#[export] Instance ProviderStatusView_expand : Expand ProviderStatusView := λ s,
  MkStatus (psv_rest s) (psv_reason s).

Record ReviewerThreadView : Type := MkReviewerView { rtv_parent_thread_id : string; rtv_rest : json }.

Record ReviewJobView : Type := MkJobView {
  rjv_id : string; rjv_status : string; rjv_updated_at : Z; rjv_rest : json }.

Record WorkflowVerdictView : Type := MkVerdictView {
  wvv_approved : bool; wvv_summary : option string; wvv_findings : list string }.
#[export] Instance WorkflowVerdictView_expand : Expand WorkflowVerdictView := λ v,
  MkVerdictView (wvv_approved v) (wvv_summary v) (wvv_findings v).

Record WorkflowRunView : Type := MkRunView {
  wrn_id : string;
  wrn_anchor_item_id : string;
  wrn_status : string;
  wrn_current_step : string;
  wrn_locked_thread_ids : list string;
  wrn_last_verdict : option WorkflowVerdictView;
  wrn_updated_at : Z;
  wrn_error : option string;
  wrn_rest : json
}.
#[export] Instance WorkflowRunView_expand : Expand WorkflowRunView := λ r,
  MkRunView (wrn_id r) (wrn_anchor_item_id r) (wrn_status r) (wrn_current_step r)
    (wrn_locked_thread_ids r) (wrn_last_verdict r) (wrn_updated_at r) (wrn_error r) (wrn_rest r).

Record ReviewActivityView : Type := MkReviewActivity {
  rav_id : string; rav_parent_thread_id : string; rav_reviewer_thread_id : option string;
  rav_status : string }.
Record WorkflowActivityView : Type := MkWorkflowActivity {
  wav_id : string; wav_parent_thread_id : string; wav_status : string;
  wav_locked_thread_ids : list string }.

Record ApprovalRequestView : Type := MkApprovalView {
  arv_summary : string; arv_detail : option string; arv_command : option string;
  arv_context_preview : option string; arv_rest : json }.

Record AskUserQuestionRequestView : Type := MkAskView {
  aqv_request_id : string;
  aqv_question_count : nat;
  aqv_questions_inline_complete : bool;
  aqv_detail_available : bool;
  aqv_content_hash : option string;
  aqv_questions : list AskUserQuestionView;
  aqv_rest : json
}.
#[export] Instance AskUserQuestionRequestView_expand : Expand AskUserQuestionRequestView := λ r,
  MkAskView (aqv_request_id r) (aqv_question_count r) (aqv_questions_inline_complete r)
    (aqv_detail_available r) (aqv_content_hash r) (aqv_questions r) (aqv_rest r).

Record SessionSnapshot : Type := MkSnapshot {
  sn_active_thread_id : option string;
  sn_current_cwd : string;
  sn_thread_workspace_cwd : option string;
  sn_provider_status : list ProviderStatusView;
  sn_device_records : list json;
  sn_paired_devices : list json;
  sn_pending_pairing_requests : list json;
  sn_pending_approvals : list ApprovalRequestView;
  sn_pending_ask_user_questions : list AskUserQuestionRequestView;
  sn_transcript_truncated : bool;
  sn_transcript : list TranscriptEntryView;
  sn_logs : list LogEntryView;
  sn_active_review_jobs : list ReviewJobView;
  sn_reviewer_threads : list ReviewerThreadView;
  sn_review_activity : list ReviewActivityView;
  sn_active_workflow_runs : list WorkflowRunView;
  sn_workflow_activity : list WorkflowActivityView;
  sn_rest : json
}.
#[export] Instance SessionSnapshot_expand : Expand SessionSnapshot := λ s,
  MkSnapshot (sn_active_thread_id s) (sn_current_cwd s) (sn_thread_workspace_cwd s)
    (sn_provider_status s) (sn_device_records s) (sn_paired_devices s)
    (sn_pending_pairing_requests s) (sn_pending_approvals s) (sn_pending_ask_user_questions s)
    (sn_transcript_truncated s) (sn_transcript s) (sn_logs s) (sn_active_review_jobs s)
    (sn_reviewer_threads s) (sn_review_activity s) (sn_active_workflow_runs s)
    (sn_workflow_activity s) (sn_rest s).

(** ** Budgets *)
Record SessionSnapshotCompactBudget : Type := MkBudget {
  bg_max_logs : nat;
  bg_max_log_chars : nat;
  bg_max_transcript_entries : nat;
  bg_max_transcript_chars : nat;
  bg_max_approval_summary_chars : nat;
  bg_max_approval_detail_chars : nat;
  bg_max_approval_command_chars : nat;
  bg_max_approval_context_chars : nat;
  bg_target_bytes : Z;
  bg_min_transcript_entries_before_text_shrink : nat;
  bg_min_logs_before_text_shrink : nat;
  bg_fallback_transcript_chars : nat;
  bg_fallback_log_chars : nat;
  bg_max_file_changes : nat;
  bg_fallback_file_changes : nat;
  bg_max_pending_ask_user_question_inline_bytes : option Z;
  bg_reviewer_threads_active_parent_only : bool;
  bg_drop_operator_only_logs : bool;
  bg_emergency_shell_transcript : bool;
  bg_max_active_review_jobs : nat;
  bg_max_review_activity_jobs : nat;
  bg_max_active_workflow_runs : nat;
  bg_max_workflow_activity_runs : nat;
  bg_max_workflow_activity_locked_thread_ids : nat;
  bg_max_workflow_field_bytes : nat;
  bg_max_workflow_verdict_bytes : nat;
  bg_max_workflow_verdict_findings : nat;
  bg_max_reviewer_threads : nat;
  bg_max_device_records : nat
}.

Definition MAX_REVIEW_ACTIVITY_JOBS : nat := 8.
Definition MAX_REVIEW_ACTIVITY_REMOTE_JOBS : nat := 4.
Definition MAX_WORKFLOW_ACTIVITY_RUNS : nat := 1.
Definition MAX_WORKFLOW_ACTIVITY_LOCKED_THREAD_IDS : nat := 24.
Definition MAX_WORKFLOW_ACTIVITY_REMOTE_LOCKED_THREAD_IDS : nat := 8.

Definition SESSION_SNAPSHOT_REMOTE_SURFACE_BUDGET : SessionSnapshotCompactBudget := {|
  bg_max_logs := 8;
  bg_max_log_chars := 180;
  bg_max_transcript_entries := 6;
  bg_max_transcript_chars := 1200;
  bg_max_approval_summary_chars := 140;
  bg_max_approval_detail_chars := 320;
  bg_max_approval_command_chars := 320;
  bg_max_approval_context_chars := 800;
  bg_target_bytes := 8000;
  bg_min_transcript_entries_before_text_shrink := 3;
  bg_min_logs_before_text_shrink := 4;
  bg_fallback_transcript_chars := 400;
  bg_fallback_log_chars := 96;
  bg_max_file_changes := 12;
  bg_fallback_file_changes := 4;
  bg_max_pending_ask_user_question_inline_bytes := Some 4000;
  bg_reviewer_threads_active_parent_only := true;
  bg_drop_operator_only_logs := true;
  bg_emergency_shell_transcript := true;
  bg_max_active_review_jobs := 8;
  bg_max_review_activity_jobs := MAX_REVIEW_ACTIVITY_REMOTE_JOBS;
  bg_max_active_workflow_runs := 8;
  bg_max_workflow_activity_runs := MAX_WORKFLOW_ACTIVITY_RUNS;
  bg_max_workflow_activity_locked_thread_ids := MAX_WORKFLOW_ACTIVITY_REMOTE_LOCKED_THREAD_IDS;
  bg_max_workflow_field_bytes := 256;
  bg_max_workflow_verdict_bytes := 768;
  bg_max_workflow_verdict_findings := 4;
  bg_max_reviewer_threads := 8;
  bg_max_device_records := 12 |}.

Definition SESSION_SNAPSHOT_LOCAL_WEB_BUDGET : SessionSnapshotCompactBudget := {|
  bg_max_logs := 16;
  bg_max_log_chars := 280;
  bg_max_transcript_entries := 8;
  bg_max_transcript_chars := 1600;
  bg_max_approval_summary_chars := 180;
  bg_max_approval_detail_chars := 640;
  bg_max_approval_command_chars := 640;
  bg_max_approval_context_chars := 1600;
  bg_target_bytes := 16000;
  bg_min_transcript_entries_before_text_shrink := 4;
  bg_min_logs_before_text_shrink := 8;
  bg_fallback_transcript_chars := 640;
  bg_fallback_log_chars := 160;
  bg_max_file_changes := 16;
  bg_fallback_file_changes := 6;
  bg_max_pending_ask_user_question_inline_bytes := None;
  bg_reviewer_threads_active_parent_only := false;
  bg_drop_operator_only_logs := false;
  bg_emergency_shell_transcript := true;
  bg_max_active_review_jobs := 24;
  bg_max_review_activity_jobs := MAX_REVIEW_ACTIVITY_JOBS;
  bg_max_active_workflow_runs := 24;
  bg_max_workflow_activity_runs := MAX_WORKFLOW_ACTIVITY_RUNS;
  bg_max_workflow_activity_locked_thread_ids := MAX_WORKFLOW_ACTIVITY_LOCKED_THREAD_IDS;
  bg_max_workflow_field_bytes := 512;
  bg_max_workflow_verdict_bytes := 1536;
  bg_max_workflow_verdict_findings := 6;
  bg_max_reviewer_threads := 48;
  bg_max_device_records := 48 |}.

Inductive SessionSnapshotCompactProfile : Type := LocalWeb | RemoteSurface | IosSurface.

Definition snapshot_budget (p : SessionSnapshotCompactProfile) : SessionSnapshotCompactBudget :=
  match p with
  | LocalWeb => SESSION_SNAPSHOT_LOCAL_WEB_BUDGET
  | RemoteSurface => SESSION_SNAPSHOT_REMOTE_SURFACE_BUDGET
  | IosSurface => SESSION_SNAPSHOT_REMOTE_SURFACE_BUDGET
  end.

(** ** The parts of a snapshot *)
Definition review_job_status_is_terminal (status : string) : bool :=
  bool_decide (status ∈ ["complete"; "failed"; "escalated"; "cancelled"]).
Definition workflow_run_status_is_terminal (status : string) : bool :=
  bool_decide (status ∈ ["done"; "escalated"; "failed"; "interrupted"; "cancelled"]).

Definition compact_workflow_run (max_field max_verdict max_findings : nat) (r : WorkflowRunView) :
    WorkflowRunView :=
  r <| wrn_anchor_item_id ::= truncate_utf8_bytes_with_ellipsis max_field |>
    <| wrn_current_step ::= truncate_utf8_bytes_with_ellipsis max_field |>
    <| wrn_error ::= fmap (truncate_utf8_bytes_with_ellipsis max_field) |>
    <| wrn_locked_thread_ids ::= λ l,
         map (truncate_utf8_bytes_with_ellipsis max_field) (take (max_findings * 8) l) |>
    <| wrn_last_verdict ::= fmap (λ v,
         v <| wvv_summary ::= fmap (truncate_utf8_bytes_with_ellipsis max_verdict) |>
           <| wvv_findings ::= λ l,
                map (truncate_utf8_bytes_with_ellipsis max_verdict) (take max_findings l) |>) |>.
Definition compact_workflow_runs (max_field max_verdict max_findings : nat) :
    list WorkflowRunView → list WorkflowRunView :=
  map (compact_workflow_run max_field max_verdict max_findings).

Definition compact_review_activity (max_jobs max_field : nat) (l : list ReviewActivityView) :
    list ReviewActivityView :=
  let cut := truncate_utf8_bytes_with_ellipsis max_field in
  map (λ a, MkReviewActivity (cut (rav_id a)) (cut (rav_parent_thread_id a))
              (cut <$> rav_reviewer_thread_id a) (cut (rav_status a))) (take max_jobs l).

Definition compact_workflow_activity (max_runs max_locked max_field : nat)
    (l : list WorkflowActivityView) : list WorkflowActivityView :=
  let cut := truncate_utf8_bytes_with_ellipsis max_field in
  map (λ a, MkWorkflowActivity (cut (wav_id a)) (cut (wav_parent_thread_id a)) (cut (wav_status a))
              (map cut (take max_locked (wav_locked_thread_ids a)))) (take max_runs l).

(** Newest first, then by id, both descending. *)
Definition newer_first {A} (updated : A → Z) (id : A → string) (a b : A) : Prop :=
  updated b < updated a ∨ updated a = updated b ∧ string_le (id b) (id a).
#[export] Instance newer_first_dec {A} (updated : A → Z) (id : A → string) :
  RelDecision (newer_first updated id).
Proof. unfold newer_first. intros a b. apply _. Defined.

(** The cap on a list of jobs: the unfinished ones all stay. *)
Definition cap_jobs {A} (terminal : A → bool) (updated : A → Z) (id : A → string) (max : nat)
    (l : list A) : list A :=
  if (max <? length l)%nat then
    let live := filter (λ j, terminal j = false) l in
    let done := filter (λ j, terminal j = true) l in
    merge_sort (newer_first updated id) (live ++ take (max - length live) done)
  else l.

(** [sort_by_key] on a two-valued key, then [truncate]. *)
Definition cap_reviewers (active : option string) (max : nat) (l : list ReviewerThreadView) :
    list ReviewerThreadView :=
  if (max <? length l)%nat then
    take max (filter (λ v, Some (rtv_parent_thread_id v) = active) l ++
              filter (λ v, Some (rtv_parent_thread_id v) ≠ active) l)
  else l.

(** A field shortened, with whether it was. *)
Definition shorten (n : nat) (st : bool) (o : option string) : option string * bool :=
  let '(o, b) := truncate_opt n o in (o, st || b).

Definition preview_tool (max_chars max_changes : nat) (t : ToolCallView) : ToolCallView * bool :=
  let '(detail, p) := shorten max_chars false (tc_detail t) in
  let '(input_preview, p) := shorten max_chars p (tc_input_preview t) in
  let '(result_preview, p) := shorten max_chars p (tc_result_preview t) in
  let '(diff, p) := shorten max_chars p (tc_diff t) in
  let p := p || (max_changes <? length (tc_file_changes t))%nat in
  let changes := take max_changes (tc_file_changes t) in
  let p := p || existsb (λ c, (truncate_with_ellipsis max_chars (fc_diff c)).2) changes in
  (t <| tc_detail := detail |> <| tc_input_preview := input_preview |>
     <| tc_result_preview := result_preview |> <| tc_diff := diff |>
     <| tc_file_changes :=
          map (λ c, c <| fc_diff ::= λ d, (truncate_with_ellipsis max_chars d).1 |>) changes |>, p).

(** Both passes over the transcript; the first leaves the user's own text alone. *)
Definition preview_entry (keep_user_text : bool) (max_chars max_changes : nat)
    (e : TranscriptEntryView) : TranscriptEntryView * bool :=
  let '(text, p) :=
    if keep_user_text && bool_decide (tv_kind e = EkUserText) then (tv_text e, false)
    else truncate_opt max_chars (tv_text e) in
  let '(tool, q) := match tv_tool e with
                    | None => (None, false)
                    | Some t => let '(t, q) := preview_tool max_chars max_changes t in (Some t, q)
                    end in
  let e := e <| tv_text := text |> <| tv_tool := tool |> in
  if p || q then (e <| tv_content_state ::= λ c, downgrade_to c CsPreview |>, true) else (e, false).

Definition preview_all (keep_user_text : bool) (max_chars max_changes : nat)
    (l : list TranscriptEntryView) : list TranscriptEntryView * bool :=
  (map (λ e, (preview_entry keep_user_text max_chars max_changes e).1) l,
   existsb (λ e, (preview_entry keep_user_text max_chars max_changes e).2) l).

Definition compact_approval (b : SessionSnapshotCompactBudget) (a : ApprovalRequestView) :
    ApprovalRequestView :=
  let cut n s := (truncate_with_ellipsis n s).1 in
  MkApprovalView (cut (bg_max_approval_summary_chars b) (arv_summary a))
    (cut (bg_max_approval_detail_chars b) <$> arv_detail a)
    (cut (bg_max_approval_command_chars b) <$> arv_command a)
    (cut (bg_max_approval_context_chars b) <$> arv_context_preview a) (arv_rest a).

(** ** Reduction to a byte budget *)

(** The sizes [serde_json] gives, and the hash of a question list. *)
Class SnapshotSizes := {
  snapshot_len : SessionSnapshot → Z;
  request_len : AskUserQuestionRequestView → Z;
  questions_hash : list AskUserQuestionView → string;
  threads_len : list ThreadSummaryView → list string → Z
}.

Section Compaction.
Context `{SnapshotSizes}.

Definition has_inline_questions (r : AskUserQuestionRequestView) : bool :=
  aqv_questions_inline_complete r && negb (bool_decide (aqv_questions r = [])).

Definition externalize_questions (r : AskUserQuestionRequestView) : AskUserQuestionRequestView :=
  r <| aqv_question_count := length (aqv_questions r) |>
    <| aqv_content_hash := Some (questions_hash (aqv_questions r)) |>
    <| aqv_questions := [] |>
    <| aqv_questions_inline_complete := false |>
    <| aqv_detail_available := true |>.

Definition externalize_questions_if_over (max_inline_bytes : Z) (r : AskUserQuestionRequestView) :
    AskUserQuestionRequestView :=
  if negb (has_inline_questions r) then r
  else if request_len r <=? max_inline_bytes then r else externalize_questions r.

(** [max_by_key]: the last of the largest. *)
Definition largest_inline (l : list AskUserQuestionRequestView) : option nat :=
  fst <$> foldl (λ best ir,
    if has_inline_questions ir.2 then
      match best with
      | Some (_, n) => if n <=? request_len ir.2 then Some (ir.1, request_len ir.2) else best
      | None => Some (ir.1, request_len ir.2)
      end
    else best) None (zip (seq 0 (length l)) l).

Definition externalize_largest_pending_ask_user_question (l : list AskUserQuestionRequestView) :
    option (list AskUserQuestionRequestView) :=
  i ← largest_inline l; Some (alter externalize_questions i l).

(** What is done before the loop, and whether the transcript was cut. *)
Definition compact_caps (b : SessionSnapshotCompactBudget) (s : SessionSnapshot) :
    SessionSnapshot * bool :=
  let s := match sn_active_thread_id s with
           | Some active => if bg_reviewer_threads_active_parent_only b
               then s <| sn_reviewer_threads ::= filter (λ v, rtv_parent_thread_id v = active) |> else s
           | None => s
           end in
  let s := s <| sn_active_review_jobs ::= cap_jobs (λ j, review_job_status_is_terminal (rjv_status j))
                  rjv_updated_at rjv_id (bg_max_active_review_jobs b) |> in
  let s := s <| sn_review_activity ::=
                  compact_review_activity (bg_max_review_activity_jobs b) REVIEW_ACTIVITY_FIELD_BYTES |> in
  let s := s <| sn_active_workflow_runs ::= cap_jobs (λ r, workflow_run_status_is_terminal (wrn_status r))
                  wrn_updated_at wrn_id (bg_max_active_workflow_runs b) |> in
  let s := s <| sn_active_workflow_runs ::= compact_workflow_runs (bg_max_workflow_field_bytes b)
                  (bg_max_workflow_verdict_bytes b) (bg_max_workflow_verdict_findings b) |> in
  let s := s <| sn_workflow_activity ::= compact_workflow_activity (bg_max_workflow_activity_runs b)
                  (bg_max_workflow_activity_locked_thread_ids b) WORKFLOW_ACTIVITY_FIELD_BYTES |> in
  let s := s <| sn_reviewer_threads ::=
                  cap_reviewers (sn_active_thread_id s) (bg_max_reviewer_threads b) |> in
  let s := s <| sn_device_records ::= take (bg_max_device_records b) |> in
  let s := match bg_max_pending_ask_user_question_inline_bytes b with
           | Some m => s <| sn_pending_ask_user_questions ::= map (externalize_questions_if_over m) |>
           | None => s
           end in
  let s := if bg_drop_operator_only_logs b
           then s <| sn_logs ::= filter (λ l, lg_remote_safe l = true) |> else s in
  let s := s <| sn_provider_status ::= map (λ p,
                  if bg_drop_operator_only_logs b then p <| psv_reason := None |>
                  else p <| psv_reason ::= fmap (λ r, (truncate_with_ellipsis (bg_max_log_chars b) r).1) |>) |> in
  let s := s <| sn_logs ::= take (bg_max_logs b) |> in
  let cut := (bg_max_transcript_entries b <? length (sn_transcript s))%nat in
  let s := s <| sn_transcript ::= λ l, drop (length l - bg_max_transcript_entries b) l |> in
  let s := s <| sn_logs ::= map (λ l,
                  l <| lg_message ::= λ m, (truncate_with_ellipsis (bg_max_log_chars b) m).1 |>) |> in
  let '(transcript, previewed) :=
    preview_all true (bg_max_transcript_chars b) (bg_max_file_changes b) (sn_transcript s) in
  (s <| sn_transcript := transcript |>
     <| sn_pending_approvals ::= map (compact_approval b) |>,
   sn_transcript_truncated s || cut || previewed).

(** Whether the second pass over the transcript would find something to shorten. *)
Definition over (n : nat) (o : option string) : bool :=
  match o with Some s => (n <? length (chars s))%nat | None => false end.
Definition tool_is_long (b : SessionSnapshotCompactBudget) (t : ToolCallView) : bool :=
  let n := bg_fallback_transcript_chars b in
  over n (tc_detail t) || over n (tc_input_preview t) || over n (tc_result_preview t)
  || over n (tc_diff t) || (bg_fallback_file_changes b <? length (tc_file_changes t))%nat
  || existsb (λ c, over n (Some (fc_diff c))) (tc_file_changes t).
Definition entry_is_long (b : SessionSnapshotCompactBudget) (e : TranscriptEntryView) : bool :=
  over (bg_fallback_transcript_chars b) (tv_text e)
  || match tv_tool e with Some t => tool_is_long b t | None => false end.

(** The last resort: an entry is reduced to its identity. *)
Definition is_settled_empty_reasoning (e : TranscriptEntryView) : bool :=
  bool_decide (tv_kind e = EkReasoning) && bool_decide (tv_status e = "completed")
  && is_none (tv_tool e) && match tv_text e with Some t => is_blank t | None => true end.
Definition shell_tool (t : ToolCallView) : ToolCallView :=
  let cut := fmap (λ s, (truncate_with_ellipsis EMERGENCY_TRANSCRIPT_SHELL_CHARS s).1) in
  let t := if negb (bool_decide (tc_file_changes t = [])) || is_some (tc_diff t)
           then t <| tc_file_changes_omitted := true |> else t in
  t <| tc_detail := None |> <| tc_input_preview := None |> <| tc_result_preview := None |>
    <| tc_diff := None |> <| tc_file_changes := [] |>
    <| tc_command ::= cut |> <| tc_query ::= cut |> <| tc_url ::= cut |>.
Definition shell_entry (e : TranscriptEntryView) : TranscriptEntryView :=
  let e' := if is_settled_empty_reasoning e then e <| tv_text := None |>
            else e <| tv_content_state ::= λ c, downgrade_to c CsOmitted |>
                   <| tv_text ::= fmap (λ s, (truncate_with_ellipsis EMERGENCY_TRANSCRIPT_SHELL_CHARS s).1) |> in
  e' <| tv_tool ::= fmap shell_tool |>.

Definition emergency (b : SessionSnapshotCompactBudget) (s : SessionSnapshot) (truncated : bool) :
    SessionSnapshot * bool :=
  let cut s := (truncate_with_ellipsis EMERGENCY_TRANSCRIPT_CWD_CHARS s).1 in
  let s := s <| sn_logs := [] |> in
  let s := if bg_emergency_shell_transcript b
           then s <| sn_current_cwd ::= cut |> <| sn_thread_workspace_cwd ::= fmap cut |> else s in
  if bg_emergency_shell_transcript b && negb (bool_decide (sn_transcript s = []))
  then (s <| sn_transcript ::= map shell_entry |>, true) else (s, truncated).

(** [Vec::pop]. *)
Definition pop {A} (l : list A) : list A := take (length l - 1) l.

(** One iteration: [Continue] with the next state, or [Break]. *)
Inductive Step : Type := Continue (s : SessionSnapshot) (truncated : bool) | Break (s : SessionSnapshot) (truncated : bool).

Definition shrink_step (b : SessionSnapshotCompactBudget) (s : SessionSnapshot) (truncated : bool) : Step :=
  let n := bg_fallback_transcript_chars b in
  if negb (bool_decide (sn_reviewer_threads s = []))
  then Continue (s <| sn_reviewer_threads ::= pop |>) truncated
  else if negb (bool_decide (sn_active_workflow_runs s = []))
  then Continue (s <| sn_active_workflow_runs ::= pop |>) truncated
  else if negb (bool_decide (sn_active_review_jobs s = []))
  then Continue (s <| sn_active_review_jobs ::= pop |>) truncated
  else if negb (bool_decide (sn_device_records s = []))
  then Continue (s <| sn_device_records ::= pop |>) truncated
  else if negb (bool_decide (sn_paired_devices s = []))
  then Continue (s <| sn_paired_devices ::= pop |>) truncated
  else if negb (bool_decide (sn_pending_pairing_requests s = []))
  then Continue (s <| sn_pending_pairing_requests ::= pop |>) truncated
  else if (bg_min_transcript_entries_before_text_shrink b <? length (sn_transcript s))%nat
  then Continue (s <| sn_transcript ::= drop 1 |>) true
  else if (bg_min_logs_before_text_shrink b <? length (sn_logs s))%nat
  then Continue (s <| sn_logs ::= pop |>) truncated
  else if existsb (entry_is_long b) (sn_transcript s) then
    let '(transcript, previewed) := preview_all false n (bg_fallback_file_changes b) (sn_transcript s) in
    Continue (s <| sn_transcript := transcript |>) (truncated || previewed)
  else if existsb (λ l, over (bg_fallback_log_chars b) (Some (lg_message l))) (sn_logs s) then
    Continue (s <| sn_logs ::= map (λ l,
      l <| lg_message ::= λ m, (truncate_with_ellipsis (bg_fallback_log_chars b) m).1 |>) |>) truncated
  else match (_ ← bg_max_pending_ask_user_question_inline_bytes b;
              externalize_largest_pending_ask_user_question (sn_pending_ask_user_questions s)) with
  | Some l => Continue (s <| sn_pending_ask_user_questions := l |>) truncated
  | None => let '(s, truncated) := emergency b s truncated in Break s truncated
  end.

(** The loop; [None] when the fuel is spent. *)
Fixpoint shrink (fuel : nat) (b : SessionSnapshotCompactBudget) (s : SessionSnapshot) (truncated : bool) :
    option (SessionSnapshot * bool) :=
  match fuel with
  | O => None
  | S fuel =>
      if bg_target_bytes b <? snapshot_len s then
        match shrink_step b s truncated with
        | Continue s truncated => shrink fuel b s truncated
        | Break s truncated => Some (s, truncated)
        end
      else Some (s, truncated)
  end.

(** What an iteration takes from: each list it shortens, and the two shortening passes. *)
Definition shrink_measure (b : SessionSnapshotCompactBudget) (s : SessionSnapshot) : nat :=
  length (sn_reviewer_threads s) + length (sn_active_workflow_runs s)
  + length (sn_active_review_jobs s) + length (sn_device_records s) + length (sn_paired_devices s)
  + length (sn_pending_pairing_requests s) + length (sn_transcript s) + length (sn_logs s)
  + Nat.b2n (existsb (entry_is_long b) (sn_transcript s))
  + Nat.b2n (existsb (λ l, over (bg_fallback_log_chars b) (Some (lg_message l))) (sn_logs s))
  + length (filter (λ r, has_inline_questions r = true) (sn_pending_ask_user_questions s)).

Definition compact_for_budget (b : SessionSnapshotCompactBudget) (s : SessionSnapshot) :
    option SessionSnapshot :=
  let '(s, truncated) := compact_caps b s in
  '(s, truncated) ← shrink (S (shrink_measure b s)) b s truncated;
  Some (s <| sn_transcript_truncated := truncated |>).

Definition compact_for (p : SessionSnapshotCompactProfile) : SessionSnapshot → option SessionSnapshot :=
  compact_for_budget (snapshot_budget p).
End Compaction.

(** ** The list of threads *)
Record ThreadSummaryCompactBudget : Type := MkSummaryBudget {
  sb_max_name_chars : nat;
  sb_max_preview_chars : nat
}.
Record ThreadsResponseReductionStage : Type := MkStage {
  rs_max_threads : option nat;
  rs_max_preview_chars : option nat
}.
Record ThreadsResponseCompactBudget : Type := MkThreadsBudget {
  tb_summary_budget : ThreadSummaryCompactBudget;
  tb_max_threads : nat;
  tb_target_bytes : Z;
  tb_reduction_stages : list ThreadsResponseReductionStage
}.

Definition THREAD_SUMMARY_BROKER_BUDGET : ThreadSummaryCompactBudget := MkSummaryBudget 96 160.
Definition THREADS_RESPONSE_REMOTE_SURFACE_BUDGET : ThreadsResponseCompactBudget :=
  MkThreadsBudget THREAD_SUMMARY_BROKER_BUDGET 80 20000
    [MkStage (Some 40) None; MkStage None (Some 96); MkStage (Some 20) None; MkStage None (Some 48);
     MkStage (Some 10) None]%nat.
Definition THREADS_RESPONSE_LOCAL_WEB_BUDGET : ThreadsResponseCompactBudget :=
  MkThreadsBudget (MkSummaryBudget 120 220) 120 36000
    [MkStage (Some 80) None; MkStage None (Some 160); MkStage (Some 50) None]%nat.

Inductive ThreadsResponseCompactProfile : Type := ThreadsLocalWeb | ThreadsRemoteSurface | ThreadsIosSurface.
Definition threads_budget (p : ThreadsResponseCompactProfile) : ThreadsResponseCompactBudget :=
  match p with
  | ThreadsLocalWeb => THREADS_RESPONSE_LOCAL_WEB_BUDGET
  | ThreadsRemoteSurface => THREADS_RESPONSE_REMOTE_SURFACE_BUDGET
  | ThreadsIosSurface => THREADS_RESPONSE_REMOTE_SURFACE_BUDGET
  end.

Record ThreadsResponse : Type := MkThreadsResponse {
  tr_threads : list ThreadSummaryView;
  tr_unavailable_providers : list string
}.
#[export] Instance ThreadsResponse_expand : Expand ThreadsResponse := λ r,
  MkThreadsResponse (tr_threads r) (tr_unavailable_providers r).

Definition compact_summary (b : ThreadSummaryCompactBudget) (v : ThreadSummaryView) : ThreadSummaryView :=
  v <| sm_name ::= fmap (λ s, (truncate_with_ellipsis (sb_max_name_chars b) s).1) |>
    <| sm_preview ::= λ s, (truncate_with_ellipsis (sb_max_preview_chars b) s).1 |>.

(** A stage that changes something; the code's [break] takes the first. *)
Definition apply_stage (st : ThreadsResponseReductionStage) (l : list ThreadSummaryView) :
    option (list ThreadSummaryView) :=
  let by_threads :=
    m ← rs_max_threads st; if (m <? length l)%nat then Some (take m l) else None in
  let by_preview :=
    n ← rs_max_preview_chars st;
    if existsb (λ t, over n (Some (sm_preview t))) l
    then Some (map (λ t, t <| sm_preview ::= λ s, (truncate_with_ellipsis n s).1 |>) l) else None in
  option_or by_threads by_preview.
Fixpoint apply_stages (sts : list ThreadsResponseReductionStage) (l : list ThreadSummaryView) :
    option (list ThreadSummaryView) :=
  match sts with
  | [] => None
  | st :: sts => option_or (apply_stage st l) (apply_stages sts l)
  end.

Section Threads.
Context `{SnapshotSizes}.

Fixpoint shrink_threads (fuel : nat) (b : ThreadsResponseCompactBudget) (r : ThreadsResponse) :
    option ThreadsResponse :=
  match fuel with
  | O => None
  | S fuel =>
      if tb_target_bytes b <? threads_len (tr_threads r) (tr_unavailable_providers r) then
        match apply_stages (tb_reduction_stages b) (tr_threads r) with
        | Some l => shrink_threads fuel b (r <| tr_threads := l |>)
        | None => Some (r <| tr_threads ::= map (λ t, t <| sm_preview := "" |>) |>)
        end
      else Some r
  end.

(** A stage changes the list at most once. *)
Definition compact_threads (p : ThreadsResponseCompactProfile) (r : ThreadsResponse) :
    option ThreadsResponse :=
  let b := threads_budget p in
  let r := r <| tr_threads ::= λ l, map (compact_summary (tb_summary_budget b)) (take (tb_max_threads b) l) |> in
  shrink_threads (S (length (tb_reduction_stages b))) b r.
End Threads.
