(* ===== verification/SnapshotTheorems.v ===== *)
(** * What the reduction of a snapshot promises

    It ends, below the budget or with nothing left to remove; it says what it left out; and
    the snapshot of a remote surface carries nothing meant for the operator alone. *)

From Stdlib Require Import ZArith Lia Ascii String.
From stdpp Require Import sorting.
From S2P Require Import Prelude RustStr Json Approvals Transcript Runtime WorkflowRun Snapshot.

Open Scope string_scope.
Open Scope Z_scope.

(** ** Shortened strings *)
(** The bytes after the first [k]; the number of continuation bytes a lead byte asks for. *)
Fixpoint str_drop (k : nat) (s : string) : string :=
  match k, s with S k, String _ s => str_drop k s | _, _ => s end.
Definition tail_bytes (a : ascii) : nat :=
  if byte_val a <? 192 then 0 else if byte_val a <? 224 then 1 else if byte_val a <? 240 then 2 else 3.

Lemma chars_len a s : length (chars (String a s)) = S (length (chars (str_drop (tail_bytes a) s))).
Proof.
  unfold tail_bytes. cbn [chars]. destruct (byte_val a <? 192); [done|].
  destruct s as [|b s]; [by repeat case_match|]. destruct (byte_val a <? 224); [done|].
  destruct s as [|c s]; [by repeat case_match|]. destruct (byte_val a <? 240); [done|].
  by destruct s.
Qed.

Lemma str_drop_dots k s j : ∃ i, str_drop k (s +:+ dots j) = str_drop k s +:+ dots i ∧ (i ≤ j)%nat.
Proof.
  revert s j. induction k as [|k IH]; intros s j; [by exists j|].
  destruct s as [|a s]; [|apply IH]. destruct j as [|j]; [by exists 0%nat|].
  destruct (IH "" j) as (i & E & Hi). exists i. split; [|lia]. cbn in *. by destruct k.
Qed.

Lemma str_drop_len k s : (String.length (str_drop k s) ≤ String.length s)%nat.
Proof. revert s. induction k as [|k IH]; intros [|a s]; cbn; [done..|]. specialize (IH s). lia. Qed.

Lemma dots_chars n : length (chars (dots n)) = n.
Proof.
  induction n as [|n IH]; [done|]. cbn [dots]. rewrite chars_len.
  change (tail_bytes ".") with 0%nat. cbn [str_drop]. by rewrite IH.
Qed.

Lemma chars_ellipsis s : (length (chars (s +:+ "...")) ≤ length (chars s) + 3)%nat.
Proof.
  assert (∀ n s j, (String.length s ≤ n)%nat → (j ≤ 3)%nat →
    (length (chars (s +:+ dots j)) ≤ length (chars s) + 3)%nat) as H.
  2:{ apply (H (String.length s) s 3%nat); lia. }
  clear s. induction n as [|n IH]; intros [|a s] j Hs Hj; cbn [String.length] in Hs;
    [change ("" +:+ dots j) with (dots j); rewrite dots_chars; cbn; lia|lia
    |change ("" +:+ dots j) with (dots j); rewrite dots_chars; cbn; lia|].
  change (String a s +:+ dots j) with (String a (s +:+ dots j)). rewrite !chars_len.
  destruct (str_drop_dots (tail_bytes a) s j) as (i & -> & Hi).
  pose proof (str_drop_len (tail_bytes a) s).
  specialize (IH (str_drop (tail_bytes a) s) i ltac:(lia) ltac:(lia)). lia.
Qed.

Lemma truncate_len n s : (length (chars (truncate_with_ellipsis n s).1) ≤ n)%nat.
Proof.
  unfold truncate_with_ellipsis, ELLIPSIS_LEN.
  destruct (Nat.leb_spec (length (chars s)) n); [done|].
  destruct (Nat.leb_spec n 3); cbn [fst]; [by rewrite dots_chars|].
  etrans; [apply chars_ellipsis|]. rewrite chars_take_chars, length_take. lia.
Qed.

Lemma truncate_kept n s : (truncate_with_ellipsis n s).2 = false → (truncate_with_ellipsis n s).1 = s.
Proof. unfold truncate_with_ellipsis. by repeat case_match. Qed.

Lemma truncate_opt_kept n o : (truncate_opt n o).2 = false → (truncate_opt n o).1 = o.
Proof.
  destruct o as [s|]; [|done]. cbn. pose proof (truncate_kept n s) as H.
  destruct (truncate_with_ellipsis n s); cbn in *. intros. by rewrite H.
Qed.

Lemma truncate_opt_over n o : over n (truncate_opt n o).1 = false.
Proof.
  destruct o as [s|]; [|done]. cbn. pose proof (truncate_len n s) as H.
  destruct (truncate_with_ellipsis n s); cbn in *. by apply Nat.ltb_ge.
Qed.

Lemma shortened_spec n p o :
  over n (shorten n p o).1 = false ∧
  ((shorten n p o).2 = false → p = false ∧ (shorten n p o).1 = o).
Proof.
  unfold shorten. pose proof (truncate_opt_over n o). pose proof (truncate_opt_kept n o).
  destruct (truncate_opt n o) as [o' b]; cbn in *. split; [done|]. intros [-> ->]%orb_false_iff. auto.
Qed.

(** ** Entries after a pass *)
Lemma preview_tool_spec n m t :
  let '(t', p) := preview_tool n m t in
  (p = false → t' = t) ∧
  ∀ b, bg_fallback_transcript_chars b = n → bg_fallback_file_changes b = m → tool_is_long b t' = false.
Proof.
  unfold preview_tool.
  pose proof (shortened_spec n false (tc_detail t)) as [H1 K1].
  destruct (shorten n false (tc_detail t)) as [detail p1].
  pose proof (shortened_spec n p1 (tc_input_preview t)) as [H2 K2].
  destruct (shorten n p1 (tc_input_preview t)) as [ip p2].
  pose proof (shortened_spec n p2 (tc_result_preview t)) as [H3 K3].
  destruct (shorten n p2 (tc_result_preview t)) as [rp p3].
  pose proof (shortened_spec n p3 (tc_diff t)) as [H4 K4].
  destruct (shorten n p3 (tc_diff t)) as [df p4]. cbn [fst snd] in *. split.
  - intros [[Hp4 Hm]%orb_false_iff Hc]%orb_false_iff.
    destruct (K4 Hp4) as [Hp3 ->]. destruct (K3 Hp3) as [Hp2 ->].
    destruct (K2 Hp2) as [Hp1 ->]. destruct (K1 Hp1) as [_ ->].
    apply Nat.ltb_ge in Hm. rewrite (take_ge (tc_file_changes t)) in * by done.
    assert (map (λ c, c <| fc_diff ::= λ d, (truncate_with_ellipsis n d).1 |>) (tc_file_changes t)
            = tc_file_changes t) as ->; [|by destruct t].
    clear -Hc. induction (tc_file_changes t) as [|c l IH]; [done|]. cbn [existsb map] in *.
    apply orb_false_iff in Hc as [Hc Hl]. rewrite IH by done. f_equal.
    pose proof (truncate_kept n (fc_diff c) Hc) as E. destruct c; unfold set_field; cbn in *. by rewrite E.
  - intros b <- <-. unfold tool_is_long. cbn. rewrite H1, H2, H3, H4. cbn.
    rewrite length_map, length_take. apply orb_false_iff. split; [apply Nat.ltb_ge; lia|].
    apply not_true_iff_false. rewrite existsb_exists. intros (c & Hin & Hc).
    apply in_map_iff in Hin as (c0 & <- & _). cbn in Hc.
    pose proof (truncate_len (bg_fallback_transcript_chars b) (fc_diff c0)). apply Nat.ltb_lt in Hc. lia.
Qed.

(** What an entry still says once it was reduced: who it is, and [Full] only when its
    content is all there (a blank, settled reasoning marker loses its blanks). *)
Definition shown (e e' : TranscriptEntryView) : Prop :=
  tv_item_id e' = tv_item_id e ∧ tv_kind e' = tv_kind e ∧ tv_status e' = tv_status e ∧
  tv_turn_id e' = tv_turn_id e ∧
  (content_rank (tv_content_state e') ≤ content_rank (tv_content_state e))%nat ∧
  (tv_content_state e' = CsFull →
     e' = e ∨ is_settled_empty_reasoning e = true ∧ e' = e <| tv_text := None |>).

Lemma shown_refl e : shown e e.
Proof. by split_and!; auto. Qed.

Lemma full_rank c d : (content_rank c ≤ content_rank d)%nat → c = CsFull → d = CsFull.
Proof. intros H ->. destruct d; cbn in H; [done|lia..]. Qed.

Lemma settled_blank_text e :
  is_settled_empty_reasoning e = true → is_settled_empty_reasoning (e <| tv_text := None |>) = true.
Proof.
  unfold is_settled_empty_reasoning. cbn. rewrite !andb_true_iff. naive_solver.
Qed.

Lemma shown_trans e e' e'' : shown e e' → shown e' e'' → shown e e''.
Proof.
  intros (A1 & A2 & A3 & A4 & A5 & A6) (B1 & B2 & B3 & B4 & B5 & B6).
  split_and!; [congruence..|lia|]. intros Hf.
  destruct (B6 Hf) as [->|[Hs ->]]; [auto|].
  destruct (A6 (full_rank _ _ B5 Hf)) as [->|[Hs' ->]]; [auto|]. right. split; [done|].
  by destruct e.
Qed.

Lemma downgrade_rank c d : (content_rank (downgrade_to c d) ≤ content_rank c)%nat.
Proof. by destruct c, d; cbn; lia. Qed.
Lemma downgrade_not_full c d : d ≠ CsFull → downgrade_to c d ≠ CsFull.
Proof. by destruct c, d. Qed.

Lemma preview_entry_spec k n m e :
  let '(e', p) := preview_entry k n m e in
  shown e e' ∧ (p = false → e' = e) ∧
  ∀ b, bg_fallback_transcript_chars b = n → bg_fallback_file_changes b = m → k = false →
    entry_is_long b e' = false.
Proof.
  unfold preview_entry.
  set (tp := if k && _ then _ else _).
  assert ((tp.2 = false → tp.1 = tv_text e) ∧ (k = false → over n tp.1 = false)) as [Ht Ht'].
  { subst tp. destruct k; cbn [andb].
    - split; [|done]. destruct (bool_decide _); [done|]. apply truncate_opt_kept.
    - split; [apply truncate_opt_kept|]. intros _. apply truncate_opt_over. }
  destruct tp as [text p]. cbn [fst snd] in *.
  set (tq := match tv_tool e with None => _ | Some _ => _ end).
  assert ((tq.2 = false → tq.1 = tv_tool e) ∧
    ∀ b, bg_fallback_transcript_chars b = n → bg_fallback_file_changes b = m →
      match tq.1 with Some t => tool_is_long b t | None => false end = false) as [Hq Hq'].
  { subst tq. destruct (tv_tool e) as [t|]; [|done].
    pose proof (preview_tool_spec n m t) as Hs. destruct (preview_tool n m t) as [t' q].
    destruct Hs as [Hs Hs']. cbn. split; [intros; by rewrite Hs|done]. }
  destruct tq as [tool q]. cbn [fst snd] in *.
  assert (∀ b, bg_fallback_transcript_chars b = n → bg_fallback_file_changes b = m → k = false →
    ∀ e', tv_text e' = text → tv_tool e' = tool → entry_is_long b e' = false) as Hlong.
  { intros b Hn Hm Hk e' E1 E2. unfold entry_is_long. rewrite Hn, E1, E2, Ht', Hq' by done. done. }
  destruct (p || q) eqn:Epq.
  - split_and!; [|done|intros b Hn Hm Hk; by apply (Hlong b)]. unfold shown. cbn.
    split_and!; [done..|apply downgrade_rank|]. intros Hf. by apply downgrade_not_full in Hf.
  - apply orb_false_iff in Epq as [-> ->].
    assert (e <| tv_text := text |> <| tv_tool := tool |> = e) as E.
    { rewrite Ht, Hq by done. by destruct e. }
    split_and!; [rewrite E; apply shown_refl|done|]. intros b Hn Hm Hk. by apply (Hlong b).
Qed.

Lemma preview_all_spec k n m l :
  let '(l', p) := preview_all k n m l in
  Forall2 shown l l' ∧ (p = false → l' = l) ∧
  ∀ b, bg_fallback_transcript_chars b = n → bg_fallback_file_changes b = m → k = false →
    existsb (entry_is_long b) l' = false.
Proof.
  unfold preview_all. induction l as [|e l (IH1 & IH2 & IH3)]; [by split_and!|].
  pose proof (preview_entry_spec k n m e) as He. cbn [map existsb].
  destruct (preview_entry k n m e) as [e' p]; destruct He as (H1 & H2 & H3). cbn [fst snd].
  split_and!; [by constructor| |].
  - intros [-> Hl]%orb_false_iff. by rewrite H2, IH2.
  - intros b Hn Hm Hk. cbn [existsb]. by rewrite (H3 b), (IH3 b).
Qed.

Lemma shell_entry_shown e : shown e (shell_entry e).
Proof.
  unfold shell_entry. destruct (is_settled_empty_reasoning e) eqn:E; unfold shown; cbn.
  - split_and!; [done..|]. intros _. right. split; [done|].
    unfold is_settled_empty_reasoning in E. destruct e as [? ? ? ? ? [t|] ?]; [|done]. cbn in E.
    by rewrite andb_false_r in E.
  - split_and!; [done..|apply downgrade_rank|]. intros Hf. by apply downgrade_not_full in Hf.
Qed.

(** ** The loop *)
Section Loop.
Context `{SnapshotSizes}.
Context (b : SessionSnapshotCompactBudget).

Lemma existsb_sub {A} (f : A → bool) l k :
  (∀ x, x ∈ k → x ∈ l) → (Nat.b2n (existsb f k) ≤ Nat.b2n (existsb f l))%nat.
Proof using Type.
  intros Hk. destruct (existsb f k) eqn:E; [|cbn; lia].
  apply existsb_exists in E as (x & Hx & Hf). apply list_elem_of_In in Hx.
  assert (existsb f l = true) as ->; [|done]. apply existsb_exists. exists x. split; [|done].
  apply list_elem_of_In. auto.
Qed.

Lemma existsb_map_false {A B} (f : B → bool) (g : A → B) l :
  (∀ x, f (g x) = false) → existsb f (map g l) = false.
Proof using Type. intros Hf. induction l as [|x l IH]; [done|]. cbn. by rewrite Hf, IH. Qed.

Lemma pop_length {A} (l : list A) : l ≠ [] → (length (pop l) < length l)%nat.
Proof using Type. unfold pop. destruct l; [done|]. intros _. rewrite length_take. cbn. lia. Qed.
Lemma pop_elem {A} (l : list A) x : x ∈ pop l → x ∈ l.
Proof using Type. unfold pop. intros (i & ? & _)%elem_of_take. by eapply list_elem_of_lookup_2. Qed.

Lemma largest_inline_spec l :
  match largest_inline l with
  | Some i => ∃ r, l !! i = Some r ∧ has_inline_questions r = true
  | None => Forall (λ r, has_inline_questions r = false) l
  end.
Proof using Type.
  unfold largest_inline. set (f := λ best ir, _).
  assert (∀ (k : list AskUserQuestionRequestView) j best,
    (∀ i n, best = Some (i, n) → ∃ r, l !! i = Some r ∧ has_inline_questions r = true) →
    (∀ i r, k !! i = Some r → l !! (j + i)%nat = Some r) →
    match foldl f best (zip (seq j (length k)) k) with
    | Some (i, _) => ∃ r, l !! i = Some r ∧ has_inline_questions r = true
    | None => best = None ∧ Forall (λ r, has_inline_questions r = false) k
    end) as Hgo.
  { induction k as [|r k IH]; intros j best Hb Hk; cbn [length seq zip zip_with foldl].
    - destruct best as [[i n]|]; [eauto|by split].
    - assert (∀ i n, f best (j, r) = Some (i, n) → ∃ r, l !! i = Some r ∧ has_inline_questions r = true) as Hb'.
      { intros i n. subst f. cbn. destruct (has_inline_questions r) eqn:Er; [|apply Hb].
        pose proof (Hk 0%nat r eq_refl) as Hj. rewrite Nat.add_0_r in Hj.
        destruct best as [[i0 n0]|]; [|intros [= <- <-]; eauto].
        case_match; [intros [= <- <-]; eauto|apply Hb]. }
      specialize (IH (S j) (f best (j, r)) Hb').
      assert (∀ i r0, k !! i = Some r0 → l !! (S j + i)%nat = Some r0) as Hk'.
      { intros i r0 Hi. rewrite <- (Hk (S i) r0 Hi). f_equal. lia. }
      specialize (IH Hk'). cbn [zip] in IH. destruct (foldl _ _ _) as [[i n]|]; [done|].
      destruct IH as [Hn Hf]. subst f. cbn in Hn. destruct (has_inline_questions r) eqn:Er.
      + repeat case_match; done.
      + split; [done|]. by constructor. }
  specialize (Hgo l 0%nat None ltac:(done) ltac:(done)).
  destruct (foldl _ _ _) as [[i n]|]; cbn; [done|by destruct Hgo].
Qed.

Lemma externalize_largest_spec l :
  match externalize_largest_pending_ask_user_question l with
  | Some l' =>
      (length (filter (λ r, has_inline_questions r = true) l') <
       length (filter (λ r, has_inline_questions r = true) l))%nat ∧
      map aqv_request_id l' = map aqv_request_id l
  | None => Forall (λ r, has_inline_questions r = false) l
  end.
Proof using Type.
  unfold externalize_largest_pending_ask_user_question.
  pose proof (largest_inline_spec l) as Hl. destruct (largest_inline l) as [i|]; [|done]. cbn.
  destruct Hl as (r & Hi & Hr). clear -Hi Hr. revert i Hi. induction l as [|x l IH]; intros i Hi; [done|].
  destruct i as [|i]; cbn in Hi.
  - injection Hi as ->. cbn [alter list_alter map]. split; [|done].
    rewrite !filter_cons. rewrite decide_False by done. rewrite decide_True by done. cbn. lia.
  - destruct (IH i Hi) as [IH1 IH2]. cbn [alter list_alter map]. split.
    + rewrite !filter_cons. destruct (decide (has_inline_questions x = true)); cbn [length]; [|exact IH1].
      by apply -> Nat.succ_lt_mono.
    + f_equal. exact IH2.
Qed.

(** One log line is another, perhaps shortened. *)
Definition shortens (m m' : string) : Prop := ∃ n, m' = (truncate_with_ellipsis n m).1.
Definition same_log (l l' : LogEntryView) : Prop :=
  lg_kind l' = lg_kind l ∧ lg_created_at l' = lg_created_at l ∧ lg_remote_safe l' = lg_remote_safe l ∧
  rtc shortens (lg_message l) (lg_message l').

Lemma same_log_cut n l : same_log l (l <| lg_message ::= λ m, (truncate_with_ellipsis n m).1 |>).
Proof using Type. unfold same_log. split_and!; [done..|]. apply rtc_once. by exists n. Qed.

Record keeps (s : SessionSnapshot) (t : bool) (s' : SessionSnapshot) (t' : bool) : Prop := {
  kp_suffix : ∃ k, Forall2 shown (drop k (sn_transcript s)) (sn_transcript s');
  kp_nonempty : sn_transcript s ≠ [] → sn_transcript s' ≠ [];
  kp_flag : t' = false → t = false ∧ sn_transcript s' = sn_transcript s;
  kp_logs : ∀ l', l' ∈ sn_logs s' → ∃ l, l ∈ sn_logs s ∧ same_log l l';
  kp_status : Forall (λ p, psv_reason p = None) (sn_provider_status s) →
              Forall (λ p, psv_reason p = None) (sn_provider_status s');
  kp_approvals : map arv_rest (sn_pending_approvals s') = map arv_rest (sn_pending_approvals s);
  kp_questions : map aqv_request_id (sn_pending_ask_user_questions s') =
                 map aqv_request_id (sn_pending_ask_user_questions s);
  kp_reviewers : ∀ v, v ∈ sn_reviewer_threads s' → v ∈ sn_reviewer_threads s;
  kp_active : sn_active_thread_id s' = sn_active_thread_id s;
  kp_stored_flag : sn_transcript_truncated s' = sn_transcript_truncated s
}.

Lemma shown_all_refl l : Forall2 shown l l.
Proof using Type. induction l; constructor; auto using shown_refl. Qed.
Lemma same_log_refl l : same_log l l.
Proof using Type. by split_and!. Qed.
Hint Resolve shown_all_refl same_log_refl : core.

Lemma keeps_refl s t : keeps s t s t.
Proof using Type. constructor; eauto. by exists 0%nat. Qed.

Lemma keeps_trans s t s' t' s'' t'' : keeps s t s' t' → keeps s' t' s'' t'' → keeps s t s'' t''.
Proof using Type.
  intros A B. constructor.
  - destruct (kp_suffix _ _ _ _ A) as [k Hk], (kp_suffix _ _ _ _ B) as [j Hj]. exists (k + j)%nat.
    apply (Forall2_drop _ _ _ j) in Hk. rewrite drop_drop in Hk.
    eapply Forall2_trans; [exact shown_trans|done|done].
  - intros. by apply B, A.
  - intros H2. apply B in H2 as [H1 ->]. by apply A in H1.
  - intros l' (l1 & H1 & E1)%(kp_logs _ _ _ _ B). apply (kp_logs _ _ _ _ A) in H1 as (l & Hl & E).
    exists l. split; [done|]. destruct E as (?&?&?&?), E1 as (?&?&?&?).
    unfold same_log. split_and!; [congruence..|by etrans].
  - intros. by apply B, A.
  - by rewrite (kp_approvals _ _ _ _ B), (kp_approvals _ _ _ _ A).
  - by rewrite (kp_questions _ _ _ _ B), (kp_questions _ _ _ _ A).
  - intros v Hv. by apply A, B.
  - by rewrite (kp_active _ _ _ _ B), (kp_active _ _ _ _ A).
  - by rewrite (kp_stored_flag _ _ _ _ B), (kp_stored_flag _ _ _ _ A).
Qed.

(** A list that is only shortened at its end, by one. *)
Ltac popped := split; [constructor; cbn; eauto using pop_elem; by exists 0%nat|
  unfold shrink_measure; cbn; match goal with H : ?l ≠ [] |- _ => pose proof (pop_length l H) end; lia].

Lemma step_continues s t s' t' :
  (0 < bg_min_transcript_entries_before_text_shrink b)%nat →
  shrink_step b s t = Continue s' t' →
  keeps s t s' t' ∧ (shrink_measure b s' < shrink_measure b s)%nat.
Proof using Type.
  intros Hmin. unfold shrink_step.
  destruct (bool_decide_reflect (sn_reviewer_threads s = [])) as [_|Hne]; cbn [negb]; [|intros [= <- <-]; popped].
  destruct (bool_decide_reflect (sn_active_workflow_runs s = [])) as [_|Hne]; cbn [negb]; [|intros [= <- <-]; popped].
  destruct (bool_decide_reflect (sn_active_review_jobs s = [])) as [_|Hne]; cbn [negb]; [|intros [= <- <-]; popped].
  destruct (bool_decide_reflect (sn_device_records s = [])) as [_|Hne]; cbn [negb]; [|intros [= <- <-]; popped].
  destruct (bool_decide_reflect (sn_paired_devices s = [])) as [_|Hne]; cbn [negb]; [|intros [= <- <-]; popped].
  destruct (bool_decide_reflect (sn_pending_pairing_requests s = [])) as [_|Hne]; cbn [negb]; [|intros [= <- <-]; popped].
  destruct (Nat.ltb_spec (bg_min_transcript_entries_before_text_shrink b) (length (sn_transcript s))) as [Hlt|_].
  { intros [= <- <-]. assert (sn_transcript s ≠ []) as Hne by (intros E; rewrite E in Hlt; cbn in Hlt; lia).
    split.
    - constructor; cbn; eauto; [|done]. intros _ E%(f_equal length). rewrite length_drop in E. cbn in E. lia.
    - unfold shrink_measure; cbn.
      pose proof (existsb_sub (entry_is_long b) (sn_transcript s) (drop 1 (sn_transcript s))) as Hs.
      specialize (Hs ltac:(intros x Hx; rewrite <- (take_drop 1 (sn_transcript s)); set_solver)).
      rewrite length_drop. lia. }
  destruct (bg_min_logs_before_text_shrink b <? length (sn_logs s))%nat eqn:Elogs.
  { intros [= <- <-]. assert (sn_logs s ≠ []) as Hne.
    { intros E. rewrite E in Elogs. apply Nat.ltb_lt in Elogs. cbn in Elogs. lia. }
    split; [constructor; cbn; eauto using pop_elem; by exists 0%nat|].
    unfold shrink_measure; cbn. pose proof (pop_length _ Hne).
    pose proof (existsb_sub (λ l, over (bg_fallback_log_chars b) (Some (lg_message l))) _ _ (pop_elem (sn_logs s))).
    cbn in *. lia. }
  destruct (existsb (entry_is_long b) (sn_transcript s)) eqn:Elong.
  { pose proof (preview_all_spec false (bg_fallback_transcript_chars b) (bg_fallback_file_changes b) (sn_transcript s)) as Hp.
    destruct (preview_all _ _ _ _) as [l' p]. destruct Hp as (H1 & H2 & H3).
    intros [= <- <-]. split.
    - constructor; cbn; eauto; [by exists 0%nat|intros Hne ->; by apply Forall2_nil_inv_r in H1|].
      intros [-> Hp]%orb_false_iff. auto.
    - unfold shrink_measure; cbn. rewrite (H3 b) by done. rewrite Elong, (Forall2_length _ _ _ H1). cbn. lia. }
  destruct (existsb (λ l, over _ _) (sn_logs s)) eqn:Elog.
  { intros [= <- <-]. split.
    - constructor; cbn; eauto; [by exists 0%nat|]. intros l' (l & -> & Hl)%list_elem_of_fmap.
      exists l. split; [done|apply same_log_cut].
    - unfold shrink_measure. rewrite Elog. cbn -[over]. rewrite length_map.
      rewrite existsb_map_false; [cbn; lia|]. intros l. apply Nat.ltb_ge, truncate_len. }
  destruct (bg_max_pending_ask_user_question_inline_bytes b) as [mx|]; cbn.
  2:{ destruct (emergency b s t). done. }
  pose proof (externalize_largest_spec (sn_pending_ask_user_questions s)) as Hx.
  destruct (externalize_largest_pending_ask_user_question _) as [l'|]; [|by destruct (emergency b s t)].
  destruct Hx as [Hlen Hids]. intros [= <- <-]. split; [constructor; cbn; eauto; by exists 0%nat|].
  unfold shrink_measure; cbn. lia.
Qed.

(** Nothing is left that the reduction could take away. *)
Definition shelled (e : TranscriptEntryView) : Prop :=
  (tv_content_state e = CsOmitted ∨ tv_text e = None) ∧
  over EMERGENCY_TRANSCRIPT_SHELL_CHARS (tv_text e) = false ∧
  match tv_tool e with
  | None => True
  | Some t => tc_detail t = None ∧ tc_input_preview t = None ∧ tc_result_preview t = None ∧
              tc_diff t = None ∧ tc_file_changes t = [] ∧
              over EMERGENCY_TRANSCRIPT_SHELL_CHARS (tc_command t) = false ∧
              over EMERGENCY_TRANSCRIPT_SHELL_CHARS (tc_query t) = false ∧
              over EMERGENCY_TRANSCRIPT_SHELL_CHARS (tc_url t) = false
  end.

Record exhausted (s : SessionSnapshot) : Prop := {
  ex_control : sn_reviewer_threads s = [] ∧ sn_active_workflow_runs s = [] ∧
    sn_active_review_jobs s = [] ∧ sn_device_records s = [] ∧ sn_paired_devices s = [] ∧
    sn_pending_pairing_requests s = [];
  ex_logs : sn_logs s = [];
  ex_transcript : (length (sn_transcript s) ≤ bg_min_transcript_entries_before_text_shrink b)%nat;
  ex_shells : bg_emergency_shell_transcript b = true → Forall shelled (sn_transcript s);
  ex_questions : is_Some (bg_max_pending_ask_user_question_inline_bytes b) →
    Forall (λ r, has_inline_questions r = false) (sn_pending_ask_user_questions s)
}.

Lemma over_fmap n o : over n ((λ s, (truncate_with_ellipsis n s).1) <$> o) = false.
Proof using Type. destruct o as [s|]; [|done]. cbn. apply Nat.ltb_ge, truncate_len. Qed.

Lemma downgrade_omitted c : downgrade_to c CsOmitted = CsOmitted.
Proof using Type. by destruct c. Qed.

Lemma shell_entry_shelled e : shelled (shell_entry e).
Proof using Type.
  unfold shelled, shell_entry. split_and!.
  - case_match; cbn; [by right|left; apply downgrade_omitted].
  - case_match; cbn -[over]; [done|apply over_fmap].
  - assert (tv_tool ((if is_settled_empty_reasoning e then e <| tv_text := None |>
            else e <| tv_content_state ::= λ c, downgrade_to c CsOmitted |>
                   <| tv_text ::= fmap (λ s, (truncate_with_ellipsis EMERGENCY_TRANSCRIPT_SHELL_CHARS s).1) |>)
             <| tv_tool ::= fmap shell_tool |>) = shell_tool <$> tv_tool e) as -> by by case_match.
    destruct (tv_tool e) as [t|]; [|done]. cbn -[over]. unfold shell_tool.
    case_match; cbn -[over]; by rewrite !over_fmap.
Qed.

Lemma emergency_spec s t s' t' :
  emergency b s t = (s', t') →
  keeps s t s' t' ∧ sn_logs s' = [] ∧
  (bg_emergency_shell_transcript b = true → Forall shelled (sn_transcript s')) ∧
  length (sn_transcript s') = length (sn_transcript s) ∧
  sn_pending_ask_user_questions s' = sn_pending_ask_user_questions s ∧
  sn_reviewer_threads s' = sn_reviewer_threads s ∧
  sn_active_workflow_runs s' = sn_active_workflow_runs s ∧
  sn_active_review_jobs s' = sn_active_review_jobs s ∧
  sn_device_records s' = sn_device_records s ∧ sn_paired_devices s' = sn_paired_devices s ∧
  sn_pending_pairing_requests s' = sn_pending_pairing_requests s.
Proof using Type.
  unfold emergency. destruct (bg_emergency_shell_transcript b); cbn [andb sn_transcript].
  2:{ intros [= <- <-]. split_and!; try done. constructor; cbn; eauto; [by exists 0%nat|set_solver]. }
  cbn. destruct (bool_decide_reflect (sn_transcript s = [])) as [E|Hne]; cbn [negb].
  - intros [= <- <-]. cbn. split_and!; try done; [|by rewrite E].
    constructor; cbn; eauto; [by exists 0%nat|set_solver].
  - intros [= <- <-]. cbn. split_and!; try done; [| |by rewrite length_map].
    + constructor; cbn; eauto; [|by destruct (sn_transcript s)|done|set_solver].
      exists 0%nat. rewrite drop_0. clear Hne. induction (sn_transcript s); constructor; auto using shell_entry_shown.
    + intros _. apply Forall_map, Forall_true. intros. apply shell_entry_shelled.
Qed.

Lemma step_breaks s t s' t' : shrink_step b s t = Break s' t' → keeps s t s' t' ∧ exhausted s'.
Proof using Type.
  unfold shrink_step.
  destruct (bool_decide_reflect (sn_reviewer_threads s = [])) as [E1|_]; cbn [negb]; [|done].
  destruct (bool_decide_reflect (sn_active_workflow_runs s = [])) as [E2|_]; cbn [negb]; [|done].
  destruct (bool_decide_reflect (sn_active_review_jobs s = [])) as [E3|_]; cbn [negb]; [|done].
  destruct (bool_decide_reflect (sn_device_records s = [])) as [E4|_]; cbn [negb]; [|done].
  destruct (bool_decide_reflect (sn_paired_devices s = [])) as [E5|_]; cbn [negb]; [|done].
  destruct (bool_decide_reflect (sn_pending_pairing_requests s = [])) as [E6|_]; cbn [negb]; [|done].
  destruct (Nat.ltb_spec (bg_min_transcript_entries_before_text_shrink b) (length (sn_transcript s)))
    as [_|Hlen]; [done|].
  destruct (_ <? length (sn_logs s))%nat; [done|].
  destruct (existsb (entry_is_long b) _); [by destruct (preview_all _ _ _ _)|].
  destruct (existsb _ (sn_logs s)); [done|].
  set (q := _ ≫= _). destruct q as [l|] eqn:Eq; [done|].
  pose proof (emergency_spec s t) as He. destruct (emergency b s t) as [s1 t1]. intros [= <- <-].
  destruct (He s1 t1 eq_refl) as (Hk & Hl & Hsh & Hn & Hq & F1 & F2 & F3 & F4 & F5 & F6).
  split; [done|]. constructor; [|done|lia|done|].
  - by rewrite F1, F2, F3, F4, F5, F6.
  - intros [mx Hmx]. subst q. rewrite Hmx in Eq. cbn in Eq. rewrite Hq.
    pose proof (externalize_largest_spec (sn_pending_ask_user_questions s)) as Hx. by rewrite Eq in Hx.
Qed.

Lemma shrink_spec fuel : ∀ s t,
  (0 < bg_min_transcript_entries_before_text_shrink b)%nat →
  (shrink_measure b s < fuel)%nat →
  ∃ s' t', shrink fuel b s t = Some (s', t') ∧ keeps s t s' t' ∧
    (snapshot_len s' ≤ bg_target_bytes b ∨ exhausted s').
Proof using Type.
  induction fuel as [|fuel IH]; intros s t Hmin Hm; [lia|]. cbn [shrink].
  destruct (Z.ltb_spec (bg_target_bytes b) (snapshot_len s)) as [_|Hle].
  2:{ exists s, t. split_and!; auto using keeps_refl. }
  destruct (shrink_step b s t) as [s1 t1|s1 t1] eqn:E.
  - apply step_continues in E as [Hk Hlt]; [|done].
    destruct (IH s1 t1 Hmin ltac:(lia)) as (s' & t' & -> & Hk' & Hend).
    exists s', t'. split_and!; [done|by eapply keeps_trans|done].
  - apply step_breaks in E as [Hk Hx]. exists s1, t1. auto.
Qed.
End Loop.

(** ** The whole reduction *)
Section Whole.
Context `{SnapshotSizes}.

(** What the caps leave out for a surface that is not the operator's. *)
Record scoped (b : SessionSnapshotCompactBudget) (s : SessionSnapshot) : Prop := {
  sc_logs : bg_drop_operator_only_logs b = true → Forall (λ l, lg_remote_safe l = true) (sn_logs s);
  sc_status : bg_drop_operator_only_logs b = true →
    Forall (λ p, psv_reason p = None) (sn_provider_status s);
  sc_reviewers : bg_reviewer_threads_active_parent_only b = true → ∀ active,
    sn_active_thread_id s = Some active →
    Forall (λ v, rtv_parent_thread_id v = active) (sn_reviewer_threads s)
}.

Lemma cap_reviewers_elem active m l v : v ∈ cap_reviewers active m l → v ∈ l.
Proof using Type.
  unfold cap_reviewers. case_match; [|done]. intros (i & Hi%list_elem_of_lookup_2 & _)%elem_of_take.
  rewrite elem_of_app, !list_elem_of_filter in Hi. naive_solver.
Qed.

Lemma questions_if_over_id m r : aqv_request_id (externalize_questions_if_over m r) = aqv_request_id r.
Proof using Type. unfold externalize_questions_if_over. by repeat case_match. Qed.

Lemma logs_kept n m (l : list LogEntryView) l' :
  l' ∈ map (λ e, e <| lg_message ::= λ x, (truncate_with_ellipsis m x).1 |>) (take n l) →
  ∃ e, e ∈ l ∧ same_log e l'.
Proof using Type.
  intros (e & -> & (i & Hi%list_elem_of_lookup_2 & _)%elem_of_take)%list_elem_of_fmap.
  exists e. split; [done|apply same_log_cut].
Qed.

Lemma caps_reviewers b s v :
  v ∈ sn_reviewer_threads (compact_caps b s).1 →
  v ∈ sn_reviewer_threads s ∧
  (bg_reviewer_threads_active_parent_only b = true → ∀ active, sn_active_thread_id s = Some active →
   rtv_parent_thread_id v = active).
Proof using Type.
  unfold compact_caps. destruct (preview_all _ _ _ _). cbn -[cap_reviewers].
  destruct (bg_max_pending_ask_user_question_inline_bytes b), (bg_drop_operator_only_logs b);
    cbn -[cap_reviewers]; intros Hv%cap_reviewers_elem; revert Hv;
    destruct (sn_active_thread_id s) as [a|]; try done;
    destruct (bg_reviewer_threads_active_parent_only b); cbn; try done;
    intros [E Hv]%list_elem_of_filter; (split; [done|intros _ ? [= <-]; done]).
Qed.

(** The other fields, as functions of the snapshot. *)
Lemma caps_fields b s :
  let s' := (compact_caps b s).1 in
  let cut := drop (length (sn_transcript s) - bg_max_transcript_entries b) (sn_transcript s) in
  let '(l', p) := preview_all true (bg_max_transcript_chars b) (bg_max_file_changes b) cut in
  sn_transcript s' = l' ∧
  (compact_caps b s).2 = sn_transcript_truncated s
    || (bg_max_transcript_entries b <? length (sn_transcript s))%nat || p ∧
  (∃ n k logs, sn_logs s' = map (λ e, e <| lg_message ::= λ x, (truncate_with_ellipsis n x).1 |>) (take k logs) ∧
     logs = if bg_drop_operator_only_logs b then filter (λ l, lg_remote_safe l = true) (sn_logs s)
            else sn_logs s) ∧
  (∃ n, sn_provider_status s' = map (λ p, if bg_drop_operator_only_logs b then p <| psv_reason := None |>
     else p <| psv_reason ::= fmap (λ r, (truncate_with_ellipsis n r).1) |>) (sn_provider_status s)) ∧
  sn_pending_approvals s' = map (compact_approval b) (sn_pending_approvals s) ∧
  (∃ f, sn_pending_ask_user_questions s' = map f (sn_pending_ask_user_questions s) ∧
        ∀ r, aqv_request_id (f r) = aqv_request_id r) ∧
  sn_active_thread_id s' = sn_active_thread_id s ∧
  sn_transcript_truncated s' = sn_transcript_truncated s.
Proof using Type.
  unfold compact_caps. set (s1 := match sn_active_thread_id s with Some _ => _ | None => _ end).
  assert (∃ rs, s1 = s <| sn_reviewer_threads := rs |>) as (rs & ->).
  { subst s1. destruct (sn_active_thread_id s), (bg_reviewer_threads_active_parent_only b);
      first [by exists (sn_reviewer_threads s); destruct s|by eexists]. }
  destruct (bg_max_pending_ask_user_question_inline_bytes b) as [mx|], (bg_drop_operator_only_logs b);
    cbn -[preview_all Nat.ltb drop]; destruct (preview_all _ _ _ _) as [l' p]; cbn -[Nat.ltb];
    (split_and!; [done|done|by eauto|by eexists (bg_max_log_chars b)|done| |done|done]);
    first [by eexists; split; [reflexivity|apply questions_if_over_id]
          |by exists id; split; [by rewrite map_id|]].
Qed.

Lemma caps_spec b s :
  (0 < bg_max_transcript_entries b)%nat →
  keeps s (sn_transcript_truncated s) (compact_caps b s).1 (compact_caps b s).2 ∧
  scoped b (compact_caps b s).1.
Proof using Type.
  intros Hmax. pose proof (caps_fields b s) as Hf. pose proof (caps_reviewers b s) as Hr. cbv zeta in Hf.
  set (cut := drop _ _) in Hf.
  pose proof (preview_all_spec true (bg_max_transcript_chars b) (bg_max_file_changes b) cut) as Hp.
  destruct (preview_all _ _ _ cut) as [l' p]. destruct (compact_caps b s) as [s' t']. cbn [fst snd] in *.
  destruct Hf as (Ht & -> & (n & k & logs & Hlogs & El) & (n2 & Hst) & Hap & (f & Hq & Hid) & Ha & Hfl).
  destruct Hp as (Hp & Hsame & _). split; constructor.
  - rewrite Ht. by eexists.
  - rewrite Ht. intros Hs ->. apply Forall2_nil_inv_r, (f_equal length) in Hp. subst cut.
    rewrite length_drop in Hp. destruct (sn_transcript s); [done|]. cbn in Hp. lia.
  - intros [[Hs Hc]%orb_false_iff ->]%orb_false_iff. split; [done|]. rewrite Ht, Hsame by done.
    apply Nat.ltb_ge in Hc. subst cut. by replace (_ - _)%nat with 0%nat by lia.
  - rewrite Hlogs. intros l Hl%logs_kept. destruct Hl as (e & He & E). exists e. split; [|done]. subst logs.
    destruct (bg_drop_operator_only_logs b); [|done]. by apply list_elem_of_filter in He as [_ He].
  - rewrite Hst. intros HF. apply Forall_map. eapply Forall_impl; [exact HF|]. cbn. intros x Hx.
    by destruct (bg_drop_operator_only_logs b); cbn; rewrite ?Hx.
  - by rewrite Hap, map_map.
  - rewrite Hq, map_map. by apply map_ext.
  - intros v Hv. by apply Hr.
  - done.
  - done.
  - intros Hd. rewrite Hd in El. rewrite Hlogs. apply Forall_forall. intros l Hl%logs_kept.
    destruct Hl as (e & He & (_ & _ & -> & _)). subst logs. by apply list_elem_of_filter in He as [He _].
  - intros Hd. rewrite Hst, Hd. apply Forall_map, Forall_true. done.
  - intros Hd active E. rewrite Ha in E. apply Forall_forall. intros v Hv. by apply Hr.
Qed.

Lemma compact_for_spec p s : ∃ s' t', compact_for p s = Some (s' <| sn_transcript_truncated := t' |>) ∧
  keeps s (sn_transcript_truncated s) s' t' ∧ scoped (snapshot_budget p) s' ∧
  (snapshot_len s' ≤ bg_target_bytes (snapshot_budget p) ∨ exhausted (snapshot_budget p) s').
Proof using Type.
  unfold compact_for, compact_for_budget. set (b := snapshot_budget p).
  assert (0 < bg_max_transcript_entries b)%nat as Hmax by (destruct p; cbn; lia).
  assert (0 < bg_min_transcript_entries_before_text_shrink b)%nat as Hmin by (destruct p; cbn; lia).
  destruct (caps_spec b s Hmax) as [Hk Hs]. destruct (compact_caps b s) as [s1 t1]. cbn [fst snd] in *.
  destruct (shrink_spec b (S (shrink_measure b s1)) s1 t1 Hmin ltac:(lia)) as (s' & t' & -> & Hk' & Hend).
  exists s', t'. cbn. split_and!; [done|by eapply keeps_trans| |done].
  constructor.
  - intros Hd. apply Forall_forall. intros l Hl. apply (kp_logs _ _ _ _ Hk') in Hl as (l0 & Hl0 & (_ & _ & -> & _)).
    pose proof (sc_logs _ _ Hs Hd) as HF. rewrite Forall_forall in HF. auto.
  - intros Hd. apply (kp_status _ _ _ _ Hk'), Hs, Hd.
  - intros Hd active Ha. rewrite (kp_active _ _ _ _ Hk') in Ha. apply Forall_forall.
    intros v Hv%(kp_reviewers _ _ _ _ Hk'). pose proof (sc_reviewers _ _ Hs Hd active Ha) as HF.
    rewrite Forall_forall in HF. auto.
Qed.

(** The reduction of a snapshot ends.  Every snapshot is reduced for every surface by
    finitely many iterations; the result is below the byte budget of the surface (measured,
    as the loop measures it, with the truncation flag the snapshot came with), or nothing is
    left to take away: no review, workflow, device or pairing entries, no logs, the last
    few transcript entries as shells of at most 24 characters per text. *)
Theorem compaction_terminates p s : ∃ s', compact_for p s = Some s' ∧
  (snapshot_len (s' <| sn_transcript_truncated := sn_transcript_truncated s |>)
     ≤ bg_target_bytes (snapshot_budget p) ∨
   exhausted (snapshot_budget p) s').
Proof using Type.
  destruct (compact_for_spec p s) as (s' & t' & -> & Hk & _ & Hend).
  eexists. split; [done|]. destruct Hend as [Hle|[? ? ? ? ?]]; [left|right; by constructor].
  rewrite <- (kp_stored_flag _ _ _ _ Hk). by destruct s'.
Qed.

(** A reduced snapshot is honest.  Its transcript shows the last entries of the thread,
    in order, each with its identity; an entry marked [Full] has all its content (a blank
    reasoning marker aside); a thread with entries is never shown empty; unless the snapshot
    says it is truncated, the transcript is exactly the one it was made from; and no pending
    approval or question is left out. *)
Theorem compaction_is_honest p s s' : compact_for p s = Some s' →
  (∃ k, Forall2 shown (drop k (sn_transcript s)) (sn_transcript s')) ∧
  (sn_transcript s ≠ [] → sn_transcript s' ≠ []) ∧
  (sn_transcript_truncated s' = false → sn_transcript s' = sn_transcript s) ∧
  map arv_rest (sn_pending_approvals s') = map arv_rest (sn_pending_approvals s) ∧
  map aqv_request_id (sn_pending_ask_user_questions s') =
    map aqv_request_id (sn_pending_ask_user_questions s).
Proof using Type.
  destruct (compact_for_spec p s) as (s1 & t' & -> & Hk & _ & _). intros [= <-].
  split_and!; [apply Hk|apply Hk| |apply Hk|apply Hk]. cbn. intros ->. by apply Hk.
Qed.

(** A remote surface sees nothing of the operator's.  The snapshot sent to paired
    devices has no provider diagnostics, and only log lines of the relay that were marked
    safe to send; with a thread active, the reviewers in it are that thread's. *)
Theorem remote_snapshot_is_scoped p s s' :
  p ≠ LocalWeb → compact_for p s = Some s' →
  Forall (λ x, psv_reason x = None) (sn_provider_status s') ∧
  (∀ l', l' ∈ sn_logs s' → ∃ l, l ∈ sn_logs s ∧ same_log l l' ∧ lg_remote_safe l = true) ∧
  (∀ active v, sn_active_thread_id s = Some active → v ∈ sn_reviewer_threads s' →
     rtv_parent_thread_id v = active ∧ v ∈ sn_reviewer_threads s).
Proof using Type.
  intros Hp. destruct (compact_for_spec p s) as (s1 & t' & -> & Hk & Hs & _). intros [= <-]. cbn.
  assert (bg_drop_operator_only_logs (snapshot_budget p) = true ∧
          bg_reviewer_threads_active_parent_only (snapshot_budget p) = true) as [Hd Ha] by by destruct p.
  split_and!; [by apply Hs| |].
  - intros l' Hl'. pose proof (sc_logs _ _ Hs Hd) as HF. rewrite Forall_forall in HF.
    specialize (HF l' Hl'). apply (kp_logs _ _ _ _ Hk) in Hl' as (l & Hl & E).
    exists l. split_and!; [done|done|]. destruct E as (_ & _ & <- & _). done.
  - intros active v E Hv. split; [|by apply Hk]. pose proof (sc_reviewers _ _ Hs Ha active) as HF.
    rewrite Forall_forall in HF. apply HF; [|done]. by rewrite (kp_active _ _ _ _ Hk).
Qed.
End Whole.

(** ** The list of threads *)
Lemma truncate_shorter n s : (length (chars (truncate_with_ellipsis n s).1) ≤ length (chars s))%nat.
Proof.
  unfold truncate_with_ellipsis, ELLIPSIS_LEN.
  destruct (Nat.leb_spec (length (chars s)) n); [done|].
  destruct (Nat.leb_spec n 3); cbn [fst]; [rewrite dots_chars; lia|].
  etrans; [apply chars_ellipsis|]. rewrite chars_take_chars, length_take. lia.
Qed.

(** One list of summaries is a shortened beginning of another. *)
Definition fits_in (l' l : list ThreadSummaryView) : Prop :=
  ∃ k, Forall2 (λ a b, sm_id b = sm_id a ∧ (length (chars (sm_preview b)) ≤ length (chars (sm_preview a)))%nat)
         (take k l) l'.

Lemma fits_refl l : fits_in l l.
Proof. exists (length l). rewrite take_ge by lia. apply Forall_Forall2_diag, Forall_true. auto. Qed.

Lemma fits_trans l l' l'' : fits_in l' l → fits_in l'' l' → fits_in l'' l.
Proof.
  intros [k Hk] [j Hj]. exists (j `min` k)%nat. rewrite <- take_take. apply (Forall2_take _ _ _ j) in Hk.
  eapply Forall2_trans; [|exact Hk|exact Hj]. cbn. intros x y z [-> ?] [-> ?]. split; [done|lia].
Qed.

Lemma fits_map f l :
  (∀ t, sm_id (f t) = sm_id t ∧ (length (chars (sm_preview (f t))) ≤ length (chars (sm_preview t)))%nat) →
  fits_in (map f l) l.
Proof. intros Hf. exists (length l). rewrite take_ge by lia. induction l; constructor; auto. Qed.

Lemma fits_take k l : fits_in (take k l) l.
Proof. exists k. apply Forall_Forall2_diag, Forall_true. auto. Qed.

Lemma fits_length l' l : fits_in l' l → (length l' ≤ length l)%nat.
Proof. intros [k Hk%Forall2_length]. rewrite <- Hk, length_take. lia. Qed.

Lemma fits_previews n l' l : fits_in l' l →
  existsb (λ t, over n (Some (sm_preview t))) l = false →
  existsb (λ t, over n (Some (sm_preview t))) l' = false.
Proof.
  intros [k Hk] Hl. apply not_true_iff_false. rewrite existsb_exists. intros (b & Hb & Hover).
  apply list_elem_of_In, list_elem_of_lookup in Hb as [i Hi].
  destruct (Forall2_lookup_r _ _ _ _ _ Hk Hi) as (a & Ha & _ & Hle).
  apply lookup_take_Some in Ha as [Ha _]. apply not_true_iff_false in Hl. apply Hl, existsb_exists.
  exists a. split; [by apply list_elem_of_In, (list_elem_of_lookup_2 _ i)|].
  cbn in *. apply Nat.ltb_lt in Hover. apply Nat.ltb_lt. lia.
Qed.

Lemma stage_fits st l l' : apply_stage st l = Some l' → fits_in l' l.
Proof.
  unfold apply_stage. destruct (m ← rs_max_threads st; _) as [l1|] eqn:E1; cbn.
  - intros [= ->]. destruct (rs_max_threads st) as [m|]; [|done]. cbn in E1. case_match; [|done].
    injection E1 as <-. apply fits_take.
  - intros E2. destruct (rs_max_preview_chars st) as [n|]; [|done]. cbn in E2. case_match; [|done].
    injection E2 as <-. apply fits_map. intros t. split; [done|]. apply truncate_shorter.
Qed.

(** A stage that did nothing does nothing later. *)
Lemma stage_stays st l l' : apply_stage st l = None → fits_in l' l → apply_stage st l' = None.
Proof.
  intros HN Hf. unfold apply_stage in *. pose proof (fits_length _ _ Hf) as Hlen.
  destruct (rs_max_threads st) as [m|]; cbn -[Nat.ltb over] in *.
  - destruct (Nat.ltb_spec m (length l)); [done|]. cbn in HN.
    destruct (Nat.ltb_spec m (length l')); [lia|]. cbn -[over].
    destruct (rs_max_preview_chars st) as [n|]; cbn -[Nat.ltb over] in *; [|done].
    destruct (existsb _ l) eqn:E; [done|]. by rewrite (fits_previews n l' l).
  - destruct (rs_max_preview_chars st) as [n|]; cbn -[Nat.ltb over] in *; [|done].
    destruct (existsb _ l) eqn:E; [done|]. by rewrite (fits_previews n l' l).
Qed.

Definition single (st : ThreadsResponseReductionStage) : Prop :=
  rs_max_threads st = None ∨ rs_max_preview_chars st = None.

Lemma stage_once st l l' : single st → apply_stage st l = Some l' → apply_stage st l' = None.
Proof.
  intros Hs. unfold apply_stage. destruct Hs as [E|E]; rewrite E; cbn -[Nat.ltb over].
  - destruct (rs_max_preview_chars st) as [n|]; cbn -[Nat.ltb over]; [|done]. case_match; [|done]. intros [= <-].
    rewrite existsb_map_false; [done|]. intros t. apply Nat.ltb_ge, truncate_len.
  - destruct (rs_max_threads st) as [m|]; cbn -[Nat.ltb over]; [|done]. case_match; [|done]. intros [= <-].
    rewrite length_take. destruct (Nat.ltb_spec m (m `min` length l)); [lia|done].
Qed.

Section ThreadsLoop.
Context `{SnapshotSizes}.

(** The stages that would still change the list. *)
Definition open_stages (sts : list ThreadsResponseReductionStage) (l : list ThreadSummaryView) : nat :=
  length (filter (λ st, apply_stage st l ≠ None) sts).

Lemma apply_stages_fits sts l l' : apply_stages sts l = Some l' → fits_in l' l.
Proof using Type.
  induction sts as [|st sts IH]; [done|]. cbn. destruct (apply_stage st l) eqn:E; cbn; [|apply IH].
  intros [= <-]. by eapply stage_fits.
Qed.

Lemma open_stages_le sts l l' : fits_in l' l → (open_stages sts l' ≤ open_stages sts l)%nat.
Proof using Type.
  intros Hf. unfold open_stages. induction sts as [|st sts IH]; [done|]. rewrite !filter_cons.
  destruct (decide (apply_stage st l' ≠ None)) as [Hs'|], (decide (apply_stage st l ≠ None)) as [|Hs]; cbn; try lia.
  exfalso. apply Hs'. eapply stage_stays; [|done]. destruct (apply_stage st l); [|done]. by destruct Hs.
Qed.

Lemma apply_stages_open sts l l' :
  Forall single sts → apply_stages sts l = Some l' → (open_stages sts l' < open_stages sts l)%nat.
Proof using Type.
  intros Hs E. pose proof (apply_stages_fits _ _ _ E) as Hf. revert E.
  induction Hs as [|st sts Hst Hs IH]; [done|]. cbn [apply_stages].
  pose proof (open_stages_le sts l l' Hf) as Hle. unfold open_stages in *. rewrite !filter_cons.
  destruct (apply_stage st l) as [l1|] eqn:E; cbn [option_or].
  - intros [= ->]. rewrite (decide_False (P := apply_stage st l' ≠ None)) by (rewrite (stage_once st l l'); auto).
    rewrite decide_True by done. cbn. lia.
  - intros E2. specialize (IH E2). rewrite (decide_False (P := apply_stage st l' ≠ None)).
    2:{ rewrite (stage_stays st l l'); auto. }
    rewrite decide_False by auto. done.
Qed.

Lemma shrink_threads_spec fuel b : ∀ r, Forall single (tb_reduction_stages b) →
  (open_stages (tb_reduction_stages b) (tr_threads r) < fuel)%nat →
  ∃ r', shrink_threads fuel b r = Some r' ∧ fits_in (tr_threads r') (tr_threads r) ∧
    tr_unavailable_providers r' = tr_unavailable_providers r ∧
    (threads_len (tr_threads r') (tr_unavailable_providers r') ≤ tb_target_bytes b ∨
     Forall (λ t, sm_preview t = "") (tr_threads r') ∧
     ∀ st m, st ∈ tb_reduction_stages b → rs_max_threads st = Some m → (length (tr_threads r') ≤ m)%nat).
Proof using Type.
  induction fuel as [|fuel IH]; intros r Hs Hm; [lia|]. cbn [shrink_threads].
  destruct (Z.ltb_spec (tb_target_bytes b) (threads_len (tr_threads r) (tr_unavailable_providers r))) as [_|Hle].
  2:{ exists r. split_and!; auto using fits_refl. }
  destruct (apply_stages (tb_reduction_stages b) (tr_threads r)) as [l|] eqn:E.
  - pose proof (apply_stages_open _ _ _ Hs E) as Hlt. apply apply_stages_fits in E.
    destruct (IH (r <| tr_threads := l |>) Hs ltac:(by eapply Nat.lt_le_trans, Nat.lt_succ_r)) as (r' & -> & Hf & Hu & Hend).
    exists r'. split_and!; [done| |done|done]. by eapply fits_trans.
  - eexists. split; [done|]. cbn. split_and!; [|done|right; split].
    + apply fits_map. intros t. split; [done|apply Nat.le_0_l].
    + apply Forall_map, Forall_true. done.
    + intros st m Hst Em. rewrite length_map. clear -Hst Em E.
      induction (tb_reduction_stages b) as [|st' sts IHs]; [by apply not_elem_of_nil in Hst|].
      cbn in E. destruct (apply_stage st' (tr_threads r)) eqn:E'; [done|]. cbn in E.
      apply elem_of_cons in Hst as [<-|Hst]; [|by apply IHs].
      unfold apply_stage in E'. rewrite Em in E'. cbn -[Nat.ltb] in E'.
      by destruct (Nat.ltb_spec m (length (tr_threads r))).
Qed.

(** The list of threads is reduced to its budget.  Reducing it ends for every surface,
    keeps a beginning of the list in order with every id intact, and what exceeds the byte
    budget after it is ids only: at most ten threads on a remote surface, fifty on the local
    one, without previews. *)
Theorem thread_list_compaction_terminates p r :
  ∃ r', compact_threads p r = Some r' ∧
    map sm_id (tr_threads r') `prefix_of` map sm_id (tr_threads r) ∧
    tr_unavailable_providers r' = tr_unavailable_providers r ∧
    (threads_len (tr_threads r') (tr_unavailable_providers r') ≤ tb_target_bytes (threads_budget p) ∨
     Forall (λ t, sm_preview t = "") (tr_threads r') ∧
     (length (tr_threads r') ≤ match p with ThreadsLocalWeb => 50 | _ => 10 end)%nat).
Proof using Type.
  unfold compact_threads. set (b := threads_budget p).
  set (r1 := r <| tr_threads ::= _ |>).
  assert (Forall single (tb_reduction_stages b)) as Hs.
  { subst b. destruct p; cbn; repeat (apply Forall_cons; split; [first [by left|by right]|]); apply Forall_nil_2. }
  destruct (shrink_threads_spec (S (length (tb_reduction_stages b))) b r1 Hs) as (r' & -> & Hf & Hu & Hend).
  { apply Nat.lt_succ_r. apply length_filter. }
  exists r'. split_and!; [done| |done|].
  - assert (fits_in (tr_threads r') (tr_threads r)) as [k Hk].
    { eapply fits_trans; [apply (fits_take (tb_max_threads b))|]. eapply fits_trans; [|exact Hf].
      subst r1. cbn. apply fits_map. intros t. split; [done|]. apply truncate_shorter. }
    exists (map sm_id (drop k (tr_threads r))). rewrite <- (take_drop k (tr_threads r)) at 1.
    rewrite map_app. f_equal. clear -Hk. induction Hk as [|? ? ? ? [E _] _ IH]; [done|]. cbn. by rewrite E, IH.
  - destruct Hend as [|[Hp Hm]]; [by left|right]. split; [done|].
    subst b. destruct p; cbn in Hm; [eapply (Hm (MkStage (Some 50) None)%nat)|eapply (Hm (MkStage (Some 10) None)%nat)..];
      cbn; set_solver.
Qed.
End ThreadsLoop.

(** ** A concrete instance *)
Module Sample.
#[export] Instance sizes : SnapshotSizes := {|
  snapshot_len s := 3000 * Z.of_nat (length (sn_transcript s)) + 3000 * Z.of_nat (length (sn_logs s));
  request_len r := Z.of_nat (length (aqv_questions r));
  questions_hash _ := "hash";
  threads_len l _ := Z.of_nat (length l)
|}.

Definition entry (id text : string) : TranscriptEntryView :=
  MkView (Some id) EkAgentText (Some text) "completed" None None CsFull.

Definition snapshot : SessionSnapshot :=
  MkSnapshot (Some "t1") "/work" None [MkStatus JNull (Some "spawn failed in /home/op")] [] [] [] [] [] false
    [entry "a" "one"; entry "b" "two"; entry "c" "three"; entry "d" "a text of more than twenty-four characters"]
    [MkLog "info" "safe" 1 true; MkLog "info" "cwd /home/op" 2 false] [] [MkReviewerView "t2" JNull] [] [] [] JNull.
End Sample.

Lemma compaction_is_honest_witness :
  ∃ s', @compact_for Sample.sizes RemoteSurface Sample.snapshot = Some s' ∧
    (sn_transcript Sample.snapshot ≠ [] → sn_transcript s' ≠ []).
Proof.
  eexists. split; [vm_compute; reflexivity|].
  by eapply (@compaction_is_honest Sample.sizes RemoteSurface Sample.snapshot); vm_compute.
Defined.

Lemma remote_snapshot_is_scoped_witness :
  ∃ s', @compact_for Sample.sizes RemoteSurface Sample.snapshot = Some s' ∧
    Forall (λ x, psv_reason x = None) (sn_provider_status s').
Proof.
  eexists. split; [vm_compute; reflexivity|].
  by eapply (@remote_snapshot_is_scoped Sample.sizes RemoteSurface Sample.snapshot); [|vm_compute].
Defined.
