(* ===== verification/ControlStore.v ===== *)
(** * The store of the broker's control plane (crates/relay-broker/src/public_control.rs)

    Registered relays, client identities, device grants and the relays a client may reach.
    A refresh token is kept as its hash; a token that was rotated away keeps working for a
    grace period, as a superseded token of the row that replaced it. *)

From Stdlib Require Import ZArith Lia Ascii String.
From stdpp Require Import sorting.
From S2P Require Import Prelude RustStr Device WorkflowRun.

Open Scope string_scope.
Open Scope Z_scope.

Definition MAX_SUPERSEDED_TOKENS : nat := 16.
Definition LAST_SEEN_THROTTLE_SECS : Z := 3600.
Definition PUBLIC_CONTROL_STATE_VERSION : Z := 2.

(** relay-util. *)
Definition trimmed_string (value : string) : option string :=
  let t := trim value in if is_empty t then None else Some t.
Definition trimmed_option_string (value : option string) : option string := value ≫= trimmed_string.

(** ** Rows *)
Record PersistedRelayRegistration : Type := MkRelay {
  rr_relay_id : string;
  rr_broker_room_id : string;
  rr_refresh_token_hash : string;
  rr_created_at : Z;
  rr_relay_label : option string;
  rr_relay_verify_key : option string
}.
#[export] Instance PersistedRelayRegistration_eq_dec : EqDecision PersistedRelayRegistration.
Proof. solve_decision. Defined.

Record SupersededToken : Type := MkSuperseded {
  su_refresh_token_hash : string;
  su_expires_at : Z
}.
#[export] Instance SupersededToken_expand : Expand SupersededToken := λ t,
  MkSuperseded (su_refresh_token_hash t) (su_expires_at t).
#[export] Instance SupersededToken_eq_dec : EqDecision SupersededToken.
Proof. solve_decision. Defined.

Record PersistedDeviceGrant : Type := MkGrant {
  dg_relay_id : string;
  dg_broker_room_id : string;
  dg_device_id : string;
  dg_refresh_token_hash : string;
  dg_created_at : Z;
  dg_last_seen : option Z;
  dg_superseded : list SupersededToken
}.
#[export] Instance PersistedDeviceGrant_expand : Expand PersistedDeviceGrant := λ g,
  MkGrant (dg_relay_id g) (dg_broker_room_id g) (dg_device_id g) (dg_refresh_token_hash g)
    (dg_created_at g) (dg_last_seen g) (dg_superseded g).
#[export] Instance PersistedDeviceGrant_eq_dec : EqDecision PersistedDeviceGrant.
Proof. solve_decision. Defined.

Record PersistedClientIdentity : Type := MkClient {
  ci_client_id : string;
  ci_client_verify_key : string;
  ci_refresh_token_hash : string;
  ci_created_at : Z;
  ci_client_label : option string;
  ci_superseded : list SupersededToken
}.
#[export] Instance PersistedClientIdentity_expand : Expand PersistedClientIdentity := λ c,
  MkClient (ci_client_id c) (ci_client_verify_key c) (ci_refresh_token_hash c) (ci_created_at c)
    (ci_client_label c) (ci_superseded c).
#[export] Instance PersistedClientIdentity_eq_dec : EqDecision PersistedClientIdentity.
Proof. solve_decision. Defined.

Record PersistedClientRelayGrant : Type := MkClientGrant {
  cg_client_id : string;
  cg_relay_id : string;
  cg_broker_room_id : string;
  cg_device_id : string;
  cg_granted_at : Z;
  cg_relay_label : option string;
  cg_device_label : option string
}.
#[export] Instance PersistedClientRelayGrant_eq_dec : EqDecision PersistedClientRelayGrant.
Proof. solve_decision. Defined.

Record PublicControlStateStore : Type := MkStore {
  cs_relays : gmap string PersistedRelayRegistration;
  cs_clients : gmap string PersistedClientIdentity;
  cs_grants : gmap string PersistedDeviceGrant;
  cs_client_grants : gmap string PersistedClientRelayGrant
}.
#[export] Instance PublicControlStateStore_expand : Expand PublicControlStateStore := λ s,
  MkStore (cs_relays s) (cs_clients s) (cs_grants s) (cs_client_grants s).
#[export] Instance PublicControlStateStore_eq_dec : EqDecision PublicControlStateStore.
Proof. solve_decision. Defined.
Definition store_empty : PublicControlStateStore := MkStore ∅ ∅ ∅ ∅.

Record PersistedPublicControlState : Type := MkPersisted {
  pc_schema_version : Z;
  pc_relay_registrations : list PersistedRelayRegistration;
  pc_client_registrations : list PersistedClientIdentity;
  pc_device_grants : list PersistedDeviceGrant;
  pc_client_relay_grants : list PersistedClientRelayGrant
}.

Definition client_relay_grant_key (client_id relay_id : string) : string := client_id +:+ ":" +:+ relay_id.

(** [into_iter().map(|x| (key(x), x)).collect()]: a later row replaces an earlier one. *)
Definition keyed {A} (key : A → string) (l : list A) : gmap string A :=
  foldl (λ m x, <[key x := x]> m) ∅ l.

Definition from_persisted (p : PersistedPublicControlState) : result PublicControlStateStore Z :=
  if pc_schema_version p =? PUBLIC_CONTROL_STATE_VERSION then
    Ok {| cs_relays := keyed rr_refresh_token_hash (pc_relay_registrations p);
          cs_clients := keyed ci_refresh_token_hash (pc_client_registrations p);
          cs_grants := keyed dg_refresh_token_hash (pc_device_grants p);
          cs_client_grants := keyed (λ g, client_relay_grant_key (cg_client_id g) (cg_relay_id g))
                                (pc_client_relay_grants p) |}
  else Err (pc_schema_version p).

(** [values().cloned().collect()]. *)
Definition values {A} (m : gmap string A) : list A := (map_to_list m).*2.

Definition to_persisted (s : PublicControlStateStore) : PersistedPublicControlState := {|
  pc_schema_version := PUBLIC_CONTROL_STATE_VERSION;
  pc_relay_registrations := values (cs_relays s);
  pc_client_registrations := values (cs_clients s);
  pc_device_grants := values (cs_grants s);
  pc_client_relay_grants := values (cs_client_grants s) |}.

(** ** Superseded tokens *)
Definition carry_superseded (previous : list SupersededToken) (rotated_hash : string) (now grace_secs : Z) :
    list SupersededToken :=
  let kept := (filter (λ t, now < su_expires_at t ∧ su_refresh_token_hash t ≠ rotated_hash) previous
               ++ [MkSuperseded rotated_hash (u64_saturating_add now grace_secs)])%list in
  drop (length kept - MAX_SUPERSEDED_TOKENS) kept.

(** The updated list, and whether it changed. *)
Fixpoint bump_superseded_expiry (superseded : list SupersededToken) (token_hash : string)
    (now grace_secs : Z) : list SupersededToken * bool :=
  match superseded with
  | [] => ([], false)
  | t :: rest =>
      if bool_decide (su_refresh_token_hash t = token_hash) && (now <? su_expires_at t) then
        let renewed := u64_saturating_add now grace_secs in
        if (su_expires_at t <? u64_saturating_add now (grace_secs / 2)) && (su_expires_at t <? renewed)
        then (t <| su_expires_at := renewed |> :: rest, true)
        else (superseded, false)
      else let '(rest, changed) := bump_superseded_expiry rest token_hash now grace_secs in
           (t :: rest, changed)
  end.

Definition honours (token_hash : string) (now : Z) (superseded : list SupersededToken) : bool :=
  existsb (λ t, bool_decide (su_refresh_token_hash t = token_hash) && (now <? su_expires_at t)) superseded.

(** The current token of a row, or a superseded one in its grace period; with the key of
    the row. *)
Definition find_for_token {A} (superseded : A → list SupersededToken) (rows : gmap string A)
    (token_hash : string) (now : Z) : option (string * A) :=
  match rows !! token_hash with
  | Some row => Some (token_hash, row)
  | None => snd <$> list_find (λ kr, honours token_hash now (superseded kr.2) = true) (map_to_list rows)
  end.
Definition find_client_identity_for_token (s : PublicControlStateStore) (token_hash : string) (now : Z) :
    option (string * PersistedClientIdentity) :=
  find_for_token ci_superseded (cs_clients s) token_hash now.
Definition find_device_grant_for_token (s : PublicControlStateStore) (token_hash : string) (now : Z) :
    option (string * PersistedDeviceGrant) :=
  find_for_token dg_superseded (cs_grants s) token_hash now.

Definition should_touch_last_seen (last_seen : option Z) (now : Z) : bool :=
  match last_seen with
  | None => true
  | Some previous => LAST_SEEN_THROTTLE_SECS <=? u64_saturating_sub now previous
  end.

(** ** Removing rows *)
Definition remove_matching_entries {A} (matches : A → bool) (m : gmap string A) : gmap string A * nat :=
  let kept := filter (λ kr, matches kr.2 = false) m in (kept, (size m - size kept)%nat).

(** The device ids of the removed rows, as the ordered set the code collects. *)
Definition collect_removed_device_ids {A} (device_id : A → string) (matches : A → bool) (m : gmap string A) :
    gmap string A * list string :=
  (filter (λ kr, matches kr.2 = false) m,
   merge_sort string_le (elements (list_to_set (C := gset string)
     (map device_id (filter (λ r, matches r = true) (values m)))))).

Definition matches_optional_relay_target (actual_relay_id actual_broker_room_id actual_device_id
    relay_id : string) (broker_room_id device_id : option string) : bool :=
  bool_decide (actual_relay_id = relay_id)
  && match broker_room_id with Some v => bool_decide (v = actual_broker_room_id) | None => true end
  && match device_id with Some v => bool_decide (v = actual_device_id) | None => true end.

Definition count_device_grants_for_relay (relay_id : string) (s : PublicControlStateStore) : nat :=
  length (filter (λ g, dg_relay_id g = relay_id) (values (cs_grants s))).

Definition is_grant_of (relay_id device_id : string) (g : PersistedDeviceGrant) : bool :=
  bool_decide (dg_relay_id g = relay_id) && bool_decide (dg_device_id g = device_id).
Definition has_device_grant (relay_id device_id : string) (s : PublicControlStateStore) : bool :=
  existsb (is_grant_of relay_id device_id) (values (cs_grants s)).

Definition remove_device_grants (relay_id : string) (broker_room_id device_id : option string)
    (s : PublicControlStateStore) : PublicControlStateStore * nat :=
  let '(m, n) := remove_matching_entries (λ g, matches_optional_relay_target (dg_relay_id g)
    (dg_broker_room_id g) (dg_device_id g) relay_id broker_room_id device_id) (cs_grants s) in
  (s <| cs_grants := m |>, n).

Definition remove_client_relay_grants (relay_id : string) (broker_room_id device_id : option string)
    (s : PublicControlStateStore) : PublicControlStateStore * nat :=
  let '(m, n) := remove_matching_entries (λ g, matches_optional_relay_target (cg_relay_id g)
    (cg_broker_room_id g) (cg_device_id g) relay_id broker_room_id device_id) (cs_client_grants s) in
  (s <| cs_client_grants := m |>, n).

Definition remove_client_relay_grants_by_client_id (client_id : string) (s : PublicControlStateStore) :
    PublicControlStateStore * nat :=
  let '(m, n) := remove_matching_entries (λ g, bool_decide (cg_client_id g = client_id)) (cs_client_grants s) in
  (s <| cs_client_grants := m |>, n).

Definition remove_all_other_device_grants (relay_id broker_room_id keep_device_id : string)
    (s : PublicControlStateStore) : PublicControlStateStore * list string :=
  let '(m, ids) := collect_removed_device_ids dg_device_id (λ g,
    bool_decide (dg_relay_id g = relay_id) && bool_decide (dg_broker_room_id g = broker_room_id)
    && negb (bool_decide (dg_device_id g = keep_device_id))) (cs_grants s) in
  (s <| cs_grants := m |>, ids).

Definition remove_all_other_client_relay_grants (relay_id broker_room_id keep_device_id : string)
    (s : PublicControlStateStore) : PublicControlStateStore * list string :=
  let '(m, ids) := collect_removed_device_ids cg_device_id (λ g,
    bool_decide (cg_relay_id g = relay_id) && bool_decide (cg_broker_room_id g = broker_room_id)
    && negb (bool_decide (cg_device_id g = keep_device_id))) (cs_client_grants s) in
  (s <| cs_client_grants := m |>, ids).

Definition remove_client_identity_by_client_id (client_id : string) (s : PublicControlStateStore) :
    PublicControlStateStore * nat :=
  let '(m, n) := remove_matching_entries (λ c, bool_decide (ci_client_id c = client_id)) (cs_clients s) in
  (s <| cs_clients := m |>, n).

Definition has_verify_key (key : string) (r : PersistedRelayRegistration) : bool :=
  bool_decide (rr_relay_verify_key r = Some key).
Definition registration_for_verify_key (key : string) (s : PublicControlStateStore) :
    option PersistedRelayRegistration :=
  snd <$> list_find (λ r, has_verify_key key r = true) (values (cs_relays s)).
Definition remove_relay_registration_by_verify_key (key : string) (s : PublicControlStateStore) :
    PublicControlStateStore * nat :=
  let '(m, n) := remove_matching_entries (has_verify_key key) (cs_relays s) in
  (s <| cs_relays := m |>, n).
Definition client_identity_for_verify_key (key : string) (s : PublicControlStateStore) :
    option PersistedClientIdentity :=
  snd <$> list_find (λ c, ci_client_verify_key c = key) (values (cs_clients s)).

Definition upsert_client_relay_grant (g : PersistedClientRelayGrant) (s : PublicControlStateStore) :
    PublicControlStateStore :=
  s <| cs_client_grants ::= <[client_relay_grant_key (cg_client_id g) (cg_relay_id g) := g]> |>.

Record ClientRelayEntry : Type := MkRelayEntry {
  re_relay_id : string;
  re_broker_room_id : string;
  re_device_id : string;
  re_granted_at : Z;
  re_relay_label : option string;
  re_device_label : option string
}.
Definition client_relays (client_id : string) (s : PublicControlStateStore) : list ClientRelayEntry :=
  map (λ g, MkRelayEntry (cg_relay_id g) (cg_broker_room_id g) (cg_device_id g) (cg_granted_at g)
              (cg_relay_label g) (cg_device_label g))
    (filter (λ g, cg_client_id g = client_id) (values (cs_client_grants s))).

(** ** Issuing *)
Section Issue.
Context `{DeviceCrypto}.

(** [format!("{prefix}{}", random_token(n).to_ascii_lowercase())] for the random [rnd]. *)
Definition issued_token (prefix rnd : string) : string := prefix +:+ to_ascii_lowercase rnd.

Definition issue_client_id (client_verify_key : string) : string :=
  "client-" +:+ substring 0 16 (sha256_hex client_verify_key).

Definition issue_or_rotate_client_identity (rnd client_verify_key : string) (client_label : option string)
    (created_at grace_secs : Z) (s : PublicControlStateStore) :
    PublicControlStateStore * (string * string) :=
  let '(s, client_id, carried_label, superseded) :=
    match client_identity_for_verify_key client_verify_key s with
    | Some existing =>
        ((remove_client_identity_by_client_id (ci_client_id existing) s).1, ci_client_id existing,
         ci_client_label existing,
         carry_superseded (ci_superseded existing) (ci_refresh_token_hash existing) created_at grace_secs)
    | None => (s, issue_client_id client_verify_key, None, [])
    end in
  let client_refresh_token := issued_token "cref-" rnd in
  let hash := sha256_hex client_refresh_token in
  (s <| cs_clients ::= <[hash := MkClient client_id client_verify_key hash created_at
                                   (option_or client_label carried_label) superseded]> |>,
   (client_id, client_refresh_token)).

Definition rotate_client_identity (rnd : string) (client : PersistedClientIdentity) (now grace_secs : Z)
    (s : PublicControlStateStore) : PublicControlStateStore * string :=
  let superseded := foldl (λ acc r,
      carry_superseded (ci_superseded r ++ acc)%list (ci_refresh_token_hash r) now grace_secs) []
    (filter (λ r, ci_client_id r = ci_client_id client) (values (cs_clients s))) in
  let s := (remove_client_identity_by_client_id (ci_client_id client) s).1 in
  let client_refresh_token := issued_token "cref-" rnd in
  let hash := sha256_hex client_refresh_token in
  (s <| cs_clients ::= <[hash := MkClient (ci_client_id client) (ci_client_verify_key client) hash
                                   (ci_created_at client) (ci_client_label client) superseded]> |>,
   client_refresh_token).

Record RelayRegistrationConfig : Type := MkRelayConfig {
  rc_relay_id : string;
  rc_broker_room_id : string;
  rc_refresh_token : string
}.
Definition seed_relay_registrations (l : list RelayRegistrationConfig) (s : PublicControlStateStore) :
    PublicControlStateStore * bool :=
  foldl (λ '(s, seeded) r,
    let hash := sha256_hex (rc_refresh_token r) in
    match cs_relays s !! hash with
    | Some _ => (s, seeded)
    | None => (s <| cs_relays ::= <[hash := MkRelay (rc_relay_id r) (rc_broker_room_id r) hash 0 None None]> |>, true)
    end) (s, false) l.

(** The loop draws pairs of ids until one is free; [None] when none of [draws] is. *)
Definition relay_ids_taken (relay_id broker_room_id : string) (s : PublicControlStateStore) : bool :=
  existsb (λ r, bool_decide (rr_relay_id r = relay_id) || bool_decide (rr_broker_room_id r = broker_room_id))
    (values (cs_relays s)).
Fixpoint issue_new_relay_ids (draws : list (string * string)) (s : PublicControlStateStore) :
    option (string * string) :=
  match draws with
  | [] => None
  | (a, b) :: draws =>
      let relay_id := issued_token "relay-" a in
      let broker_room_id := issued_token "room-" b in
      if relay_ids_taken relay_id broker_room_id s then issue_new_relay_ids draws s
      else Some (relay_id, broker_room_id)
  end.
End Issue.
