(* ===== verification/ControlPlane.v ===== *)
(** * The broker's control plane (crates/relay-broker/src/public_control.rs)

    Enrolment of relays, credentials of devices and clients, and the backends that keep
    them.  A request that locks the state twice is written as its two locked parts, so that
    others can come in between.  The outcome of every access to a backend is an argument
    ([Io]); a database holds what was committed to it. *)

From Stdlib Require Import ZArith Lia Ascii String.
From stdpp Require Import sorting.
From S2P Require Import Prelude RustStr Json BrokerState JoinTicket Device WorkflowRun ControlStore.

Open Scope string_scope.
Open Scope Z_scope.

Definition DEFAULT_RELAY_ENROLLMENT_CHALLENGE_TTL_SECS : Z := 300.
Definition DEFAULT_CLIENT_CLAIM_TTL_SECS : Z := 300.
Definition MAX_PENDING_CLIENT_CLAIMS : nat := 512.

(** The ed25519 crate: which 32 bytes are a key, and whether a signature verifies. *)
Class Ed25519 := {
  ed_key_ok : string → bool;
  ed_verify : string → string → string → bool
}.

Inductive PlaneError : Type :=
| RelayVerifyKeyRequired | VerifyKeyInvalid
| ChallengeIdRequired | ChallengeSignatureRequired | ChallengeInvalid | ChallengeExpired
| ChallengeKeyMismatch | ChallengeSignatureInvalid
| RelayTokenInvalid | RelayIdMismatch | BrokerRoomIdMismatch
| DeviceLimitReached (limit : Z) | DeviceTokenInvalid
| ClientVerifyKeyRequired | TooManyClientClaims | ClaimIdRequired | ClaimSignatureRequired
| ClaimInvalid | ClaimExpired | ClaimSignatureInvalid | ClientTokenInvalid
| LoadFailed | SaveFailed | TicketFailed (e : TicketError)
(** No pair of ids drawn so far is free. *)
| StillDrawing.

(** ** State *)
Inductive PublicControlPersistence : Type :=
| InMemory
| JsonFile (file : PublicControlStateStore)
| Postgres (reload_before_use needs_reload : bool) (last_saved db : PublicControlStateStore).

Record PendingRelayEnrollmentChallenge : Type := MkEnrollment {
  en_relay_verify_key : string;
  en_challenge : string;
  en_relay_label : option string;
  en_expires_at : Z
}.

Record PendingClientClaim : Type := MkClaim {
  cl_relay_id : string;
  cl_broker_room_id : string;
  cl_device_id : string;
  cl_client_verify_key : string;
  cl_client_label : option string;
  cl_device_label : option string;
  cl_relay_label : option string;
  cl_nonce : string;
  cl_expires_at : Z
}.

Record PublicControlPlaneInner : Type := MkPlane {
  cp_issuer_key : JoinTicketKey;
  cp_relay_ws_ttl_secs : Z;
  cp_device_ws_ttl_secs : Z;
  cp_rotation_grace_secs : Z;
  cp_persistence : PublicControlPersistence;
  cp_state : PublicControlStateStore;
  cp_relay_enrollment_challenges : gmap string PendingRelayEnrollmentChallenge;
  cp_pending_client_claims : gmap string PendingClientClaim
}.
#[export] Instance PublicControlPlaneInner_expand : Expand PublicControlPlaneInner := λ p,
  MkPlane (cp_issuer_key p) (cp_relay_ws_ttl_secs p) (cp_device_ws_ttl_secs p)
    (cp_rotation_grace_secs p) (cp_persistence p) (cp_state p) (cp_relay_enrollment_challenges p)
    (cp_pending_client_claims p).

(** ** Requests as state and error *)
Definition M (A : Type) : Type := PublicControlPlaneInner → result A PlaneError * PublicControlPlaneInner.
Definition ret {A} (a : A) : M A := λ p, (Ok a, p).
Definition throw {A} (e : PlaneError) : M A := λ p, (Err e, p).
Definition bind {A B} (m : M A) (k : A → M B) : M B := λ p,
  match m p with (Ok a, p) => k a p | (Err e, p) => (Err e, p) end.
Definition gets {A} (f : PublicControlPlaneInner → A) : M A := λ p, (Ok (f p), p).
Definition modify (f : PublicControlPlaneInner → PublicControlPlaneInner) : M () := λ p, (Ok (), f p).
Definition lift {A} (r : result A PlaneError) : M A := λ p, (r, p).
(** A failure that is only logged. *)
Definition ignore_error (m : M ()) : M () := λ p, (Ok (), (m p).2).
Notation "'let*' x ':=' c 'in' k" := (bind c (λ x, k))
  (at level 10, x pattern, c at level 100, k at level 200, format "'let*'  x  ':='  c  'in' '//' k") : rust_scope.
Definition with_store (f : PublicControlStateStore → PublicControlStateStore) : M () :=
  modify (λ p, p <| cp_state ::= f |>).

(** ** Backends *)
Inductive SaveOutcome : Type :=
| Saved
| NotSaved     (** nothing was written *)
| AckLost.     (** written, but reported as an error *)

Record Io : Type := MkIo {
  io_lock : bool;       (** the reload of [lock_state] succeeds *)
  io_miss : bool;       (** the reload after a missed token succeeds *)
  io_save : SaveOutcome;
  io_reconcile : bool;  (** the reload after a failed save succeeds *)
  io_touch : bool       (** the update of [last_seen] succeeds *)
}.

(** A table after the statements of a save: rows that are gone are deleted, rows that are
    new or changed are upserted. *)
Definition diff_table {A} `{EqDecision A} (prev next db : gmap string A) : gmap string A :=
  filter (λ kr, prev !! kr.1 ≠ Some kr.2) next ∪
  filter (λ kr, ¬ (is_Some (prev !! kr.1) ∧ next !! kr.1 = None)) db.
Definition save_public_control_postgres (prev next db : PublicControlStateStore) : PublicControlStateStore := {|
  cs_relays := diff_table (cs_relays prev) (cs_relays next) (cs_relays db);
  cs_clients := diff_table (cs_clients prev) (cs_clients next) (cs_clients db);
  cs_grants := diff_table (cs_grants prev) (cs_grants next) (cs_grants db);
  cs_client_grants := diff_table (cs_client_grants prev) (cs_client_grants next) (cs_client_grants db) |}.

Inductive SaveReconciliation : Type := Committed | RolledBack | Indeterminate.
Definition classify_save_reconciliation (reconciled prev next : PublicControlStateStore) : SaveReconciliation :=
  if decide (reconciled = next) then Committed
  else if decide (reconciled = prev) then RolledBack else Indeterminate.

Definition persistence_load (ok : bool) (b : PublicControlPersistence) :
    result PublicControlStateStore PlaneError * PublicControlPersistence :=
  match b with
  | InMemory => (Ok store_empty, b)
  | JsonFile file => (if ok then Ok file else Err LoadFailed, b)
  | Postgres reload needs last db =>
      if ok then (Ok db, Postgres reload false db db) else (Err LoadFailed, b)
  end.

Definition persistence_save (io : Io) (b : PublicControlPersistence) (s : PublicControlStateStore) :
    result () PlaneError * PublicControlPersistence * PublicControlStateStore :=
  match b with
  | InMemory => (Ok (), b, s)
  | JsonFile file =>
      match io_save io with
      | Saved => (Ok (), JsonFile s, s)
      | NotSaved => (Err SaveFailed, JsonFile file, s)
      | AckLost => (Err SaveFailed, JsonFile s, s)
      end
  | Postgres reload needs last db =>
      let written := save_public_control_postgres last s db in
      match io_save io with
      | Saved => (Ok (), Postgres reload needs s written, s)
      | o =>
          let db := match o with AckLost => written | _ => db end in
          if io_reconcile io then
            match classify_save_reconciliation db last s with
            | Committed => (Ok (), Postgres reload needs db db, s)
            | RolledBack => (Err SaveFailed, Postgres reload needs last db, db)
            | Indeterminate => (Err SaveFailed, Postgres reload needs db db, db)
            end
          else (Err SaveFailed, Postgres reload true last db, s)
      end
  end.

Definition reload_before_use (b : PublicControlPersistence) : bool :=
  match b with Postgres reload needs _ _ => reload || needs | _ => false end.
Definition shared_backend (b : PublicControlPersistence) : bool :=
  match b with Postgres _ _ _ _ => true | _ => false end.

(** The update goes to the database only; the caller has changed the memory. *)
Definition touch_device_last_seen (io : Io) (hash : string) (last_seen : Z) (b : PublicControlPersistence) :
    result () PlaneError * PublicControlPersistence :=
  match b with
  | Postgres reload needs last db =>
      if io_touch io
      then (Ok (), Postgres reload needs last
              (db <| cs_grants ::= alter (λ g, g <| dg_last_seen := Some last_seen |>) hash |>))
      else (Err SaveFailed, b)
  | _ => (Ok (), b)
  end.

Definition reload (ok : bool) : M () := λ p,
  let '(r, b) := persistence_load ok (cp_persistence p) in
  match r with
  | Ok s => (Ok (), p <| cp_persistence := b |> <| cp_state := s |>)
  | Err e => (Err e, p <| cp_persistence := b |>)
  end.
Definition save (io : Io) : M () := λ p,
  let '(r, b, s) := persistence_save io (cp_persistence p) (cp_state p) in
  (r, p <| cp_persistence := b |> <| cp_state := s |>).

Definition lock_state (io : Io) : M () :=
  let* b := gets cp_persistence in
  if reload_before_use b then reload (io_lock io) else ret ().
Definition reload_state_on_miss (io : Io) : M bool :=
  let* b := gets cp_persistence in
  if shared_backend b then let* _ := reload (io_miss io) in ret true else ret false.

(** A lookup that is repeated once after a reload. *)
Definition find_or_reload {A} (io : Io) (find : PublicControlStateStore → option A) : M (option A) :=
  let* found := gets (λ p, find (cp_state p)) in
  match found with
  | Some a => ret (Some a)
  | None =>
      let* reloaded := reload_state_on_miss io in
      if reloaded then gets (λ p, find (cp_state p)) else ret None
  end.
Definition ok_or_throw {A} (e : PlaneError) (o : option A) : M A :=
  match o with Some a => ret a | None => throw e end.

(** ** Requests and responses *)
Record RelayEnrollmentChallengeResponse : Type := MkChallengeResponse {
  ec_relay_verify_key : string; ec_challenge_id : string; ec_challenge : string; ec_expires_at : Z }.
Record RelayEnrollmentResponse : Type := MkEnrollmentResponse {
  er_relay_id : string; er_broker_room_id : string; er_relay_refresh_token : string;
  er_created_at : Z; er_relay_label : option string }.
Record RelayWsTokenResponse : Type := MkRelayWsToken {
  rw_relay_id : string; rw_broker_room_id : string; rw_relay_ws_token : string;
  rw_relay_ws_token_expires_at : Z }.
Record PairingWsTokenResponse : Type := MkPairingWsToken {
  pw_relay_id : string; pw_broker_room_id : string; pw_pairing_join_ticket : string;
  pw_pairing_join_ticket_expires_at : Z }.
Record DeviceWsTokenResponse : Type := MkDeviceWsToken {
  dw_broker_room_id : string; dw_device_id : string; dw_device_ws_token : string;
  dw_device_ws_token_expires_at : Z }.
Record DeviceGrantResponse : Type := MkDeviceGrantResponse {
  gr_relay_id : string; gr_broker_room_id : string; gr_device_id : string;
  gr_device_refresh_token : string; gr_device_ws_token : string; gr_device_ws_token_expires_at : Z }.
Record DeviceSessionResponse : Type := MkDeviceSession {
  se_broker_room_id : string; se_device_id : string; se_cookie_session : bool }.
Record ClientGrantResponse : Type := MkClientGrantResponse {
  cr_claim_id : string; cr_claim_nonce : string; cr_claim_expires_at : Z; cr_relay_id : string;
  cr_broker_room_id : string; cr_device_id : string; cr_relay_label : option string }.
Record ClientClaimResponse : Type := MkClaimResponse {
  cc_client_id : string; cc_client_refresh_token : string; cc_relay_id : string;
  cc_broker_room_id : string; cc_device_id : string; cc_relay_label : option string }.
Record ClientIdentityRevokeResponse : Type := MkClientRevoke {
  iv_client_id : string; iv_revoked : bool; iv_revoked_identity_count : nat; iv_revoked_grant_count : nat }.
Record DeviceGrantRevokeResponse : Type := MkGrantRevoke {
  dv_relay_id : string; dv_broker_room_id : string; dv_device_id : string; dv_revoked : bool;
  dv_revoked_grant_count : nat }.
Record DeviceGrantBulkRevokeResponse : Type := MkBulkRevoke {
  bv_relay_id : string; bv_broker_room_id : string; bv_kept_device_id : string;
  bv_revoked_device_ids : list string; bv_revoked_count : nat }.

Section Plane.
Context {DC : DeviceCrypto} {TC : TicketCrypto} {ED : Ed25519}.

(** ** Keys and signatures *)
Definition decode_base64_array (n : nat) (value : string) : option string :=
  bytes ← std_b64_decode value; if decide (String.length bytes = n) then Some bytes else None.
Definition parse_relay_verifying_key (verify_key_b64 : string) : option string :=
  bytes ← decode_base64_array 32 verify_key_b64; if ed_key_ok bytes then Some bytes else None.
Definition validate_relay_verify_key (verify_key_b64 : string) : result () PlaneError :=
  match parse_relay_verifying_key verify_key_b64 with Some _ => Ok () | None => Err VerifyKeyInvalid end.

Definition relay_enrollment_challenge_message (challenge_id challenge : string) : string :=
  "agent-relay:relay-enroll:" +:+ challenge_id +:+ ":" +:+ challenge.
Definition client_claim_message (claim_id nonce relay_id : string) : string :=
  "agent-relay:client-claim:" +:+ claim_id +:+ ":" +:+ nonce +:+ ":" +:+ relay_id.

Definition verify_relay_enrollment_challenge_signature
    (verify_key_b64 challenge_id challenge signature_b64 : string) : result () PlaneError :=
  match decode_base64_array 64 signature_b64 with
  | None => Err ChallengeSignatureInvalid
  | Some signature =>
      match parse_relay_verifying_key verify_key_b64 with
      | None => Err VerifyKeyInvalid
      | Some key =>
          if ed_verify key (relay_enrollment_challenge_message challenge_id challenge) signature
          then Ok () else Err ChallengeSignatureInvalid
      end
  end.
Definition verify_client_claim_signature
    (client_verify_key_b64 claim_id nonce relay_id signature_b64 : string) : result () PlaneError :=
  match decode_base64_array 64 signature_b64, parse_relay_verifying_key client_verify_key_b64 with
  | Some signature, Some key =>
      if ed_verify key (client_claim_message claim_id nonce relay_id) signature
      then Ok () else Err ClaimSignatureInvalid
  | _, _ => Err ClaimSignatureInvalid
  end.

Definition required_field (e : PlaneError) (value : string) : M string := ok_or_throw e (trimmed_string value).

(** ** Authentication *)
Definition authenticate_relay (io : Io) (bearer_token relay_id broker_room_id : string) :
    M PersistedRelayRegistration :=
  let* _ := lock_state io in
  let token_hash := sha256_hex (trim bearer_token) in
  let* found := find_or_reload io (λ s, cs_relays s !! token_hash) in
  let* registration := ok_or_throw RelayTokenInvalid found in
  if negb (bool_decide (rr_relay_id registration = relay_id)) then throw RelayIdMismatch
  else if negb (bool_decide (rr_broker_room_id registration = broker_room_id)) then throw BrokerRoomIdMismatch
  else ret registration.

(** A superseded token that was used: its grace period slides. *)
Definition slide_client (io : Io) (primary_hash token_hash : string) (now : Z) : M () :=
  let* p := gets id in
  match cs_clients (cp_state p) !! primary_hash with
  | Some live =>
      let '(l, changed) := bump_superseded_expiry (ci_superseded live) token_hash now (cp_rotation_grace_secs p) in
      let* _ := with_store (λ s, s <| cs_clients ::= <[primary_hash := live <| ci_superseded := l |>]> |>) in
      if changed then ignore_error (save io) else ret ()
  | None => ret ()
  end.
Definition slide_grant (io : Io) (primary_hash token_hash : string) (now : Z) : M () :=
  let* p := gets id in
  match cs_grants (cp_state p) !! primary_hash with
  | Some live =>
      let '(l, changed) := bump_superseded_expiry (dg_superseded live) token_hash now (cp_rotation_grace_secs p) in
      let* _ := with_store (λ s, s <| cs_grants ::= <[primary_hash := live <| dg_superseded := l |>]> |>) in
      if changed then ignore_error (save io) else ret ()
  | None => ret ()
  end.

Definition authenticate_client (io : Io) (bearer_token : string) (now : Z) : M PersistedClientIdentity :=
  let* _ := lock_state io in
  let token_hash := sha256_hex (trim bearer_token) in
  let* found := find_or_reload io (λ s, find_client_identity_for_token s token_hash now) in
  let* (primary_hash, identity) := ok_or_throw ClientTokenInvalid found in
  let* _ := if decide (primary_hash = token_hash) then ret () else slide_client io primary_hash token_hash now in
  ret identity.

Definition wrong_room (expected_room : option string) (g : PersistedDeviceGrant) : bool :=
  match expected_room with Some r => negb (bool_decide (dg_broker_room_id g = r)) | None => false end.

Definition device_grant_from_refresh_token_scoped (io : Io) (bearer_token : string)
    (expected_room : option string) (now : Z) : M PersistedDeviceGrant :=
  let* _ := lock_state io in
  let token_hash := sha256_hex (trim bearer_token) in
  let* found := find_or_reload io (λ s, find_device_grant_for_token s token_hash now) in
  let* (primary_hash, grant) := ok_or_throw DeviceTokenInvalid found in
  if wrong_room expected_room grant then throw DeviceTokenInvalid else
  let* _ := if decide (primary_hash = token_hash) then ret () else slide_grant io primary_hash token_hash now in
  ret grant.

Definition device_refresh_token_matches_room (io : Io) (bearer_token expected_room : string) (now : Z) : M bool :=
  let* _ := lock_state io in
  let token_hash := sha256_hex (trim bearer_token) in
  let* found := find_or_reload io (λ s, find_device_grant_for_token s token_hash now) in
  ret match found with Some (_, g) => bool_decide (dg_broker_room_id g = expected_room) | None => false end.

(** ** Enrolment of relays *)
Definition prune_expired_relay_enrollment_challenges (now : Z) : M () :=
  modify (λ p, p <| cp_relay_enrollment_challenges ::= filter (λ kc, now < en_expires_at kc.2) |>).

(** A label that is not blank. *)
Definition label (l : option string) : option string := trimmed_option_string l.

Definition create_relay_enrollment_challenge (id_rnd rnd relay_verify_key : string)
    (relay_label : option string) (now : Z) : M RelayEnrollmentChallengeResponse :=
  let* _ := prune_expired_relay_enrollment_challenges now in
  let* relay_verify_key := required_field RelayVerifyKeyRequired relay_verify_key in
  let* _ := lift (validate_relay_verify_key relay_verify_key) in
  let challenge_id := issued_token "rch-" id_rnd in
  let challenge := issued_token "rc-" rnd in
  let expires_at := u64_saturating_add now DEFAULT_RELAY_ENROLLMENT_CHALLENGE_TTL_SECS in
  let* _ := modify (λ p, p <| cp_relay_enrollment_challenges ::=
    <[challenge_id := MkEnrollment relay_verify_key challenge (label relay_label) expires_at]> |>) in
  ret (MkChallengeResponse relay_verify_key challenge_id challenge expires_at).

Definition issue_relay_registration_for_verify_key (io : Io) (draws : list (string * string)) (rnd : string)
    (relay_verify_key : string) (relay_label : option string) (now : Z) : M RelayEnrollmentResponse :=
  let* _ := lock_state io in
  let* existing := gets (λ p, registration_for_verify_key relay_verify_key (cp_state p)) in
  let* (relay_id, broker_room_id) :=
    match existing with
    | Some r =>
        let* _ := with_store (λ s, (remove_relay_registration_by_verify_key relay_verify_key s).1) in
        ret (rr_relay_id r, rr_broker_room_id r)
    | None => let* ids := gets (λ p, issue_new_relay_ids draws (cp_state p)) in ok_or_throw StillDrawing ids
    end in
  let relay_refresh_token := issued_token "rref-" rnd in
  let hash := sha256_hex relay_refresh_token in
  let* _ := with_store (λ s, s <| cs_relays ::= <[hash := MkRelay relay_id broker_room_id hash now
                                                           relay_label (Some relay_verify_key)]> |>) in
  let* _ := save io in
  ret (MkEnrollmentResponse relay_id broker_room_id relay_refresh_token now relay_label).

(** The challenge is taken out of the table before it is looked at. *)
Definition take_challenge (challenge_id : string) : M PendingRelayEnrollmentChallenge :=
  let* c := gets (λ p, cp_relay_enrollment_challenges p !! challenge_id) in
  let* _ := modify (λ p, p <| cp_relay_enrollment_challenges ::= delete challenge_id |>) in
  ok_or_throw ChallengeInvalid c.

Definition complete_relay_enrollment (io : Io) (draws : list (string * string)) (rnd : string)
    (relay_verify_key challenge_id challenge_signature : string) (relay_label : option string) (now : Z) :
    M RelayEnrollmentResponse :=
  let* _ := prune_expired_relay_enrollment_challenges now in
  let* relay_verify_key := required_field RelayVerifyKeyRequired relay_verify_key in
  let* _ := lift (validate_relay_verify_key relay_verify_key) in
  let* challenge_id := required_field ChallengeIdRequired challenge_id in
  let* challenge_signature := required_field ChallengeSignatureRequired challenge_signature in
  let* pending := take_challenge challenge_id in
  if en_expires_at pending <=? now then throw ChallengeExpired
  else if negb (bool_decide (en_relay_verify_key pending = relay_verify_key)) then throw ChallengeKeyMismatch
  else
    let* _ := lift (verify_relay_enrollment_challenge_signature relay_verify_key challenge_id
                      (en_challenge pending) challenge_signature) in
    issue_relay_registration_for_verify_key io draws rnd relay_verify_key
      (option_or (label relay_label) (en_relay_label pending)) now.

Definition rollback_relay_enrollment_by_token (io : Io) (relay_refresh_token : string) : M () :=
  let token_hash := sha256_hex relay_refresh_token in
  ignore_error (
    let* _ := lock_state io in
    let* found := gets (λ p, cs_relays (cp_state p) !! token_hash) in
    match found with
    | Some _ =>
        let* _ := with_store (λ s, s <| cs_relays ::= delete token_hash |>) in
        save io
    | None => ret ()
    end).

(** [None] when the state cannot be read. *)
Definition snapshot_relay_registration (io : Io) (verify_key : string) : M (option PersistedRelayRegistration) := λ p,
  match lock_state io p with
  | (Ok _, p) => (Ok (registration_for_verify_key verify_key (cp_state p)), p)
  | (Err _, p) => (Ok None, p)
  end.

Definition restore_relay_registration (io : Io) (r : PersistedRelayRegistration) : M () :=
  ignore_error (
    let* _ := lock_state io in
    let* _ := with_store (λ s,
      let s := match rr_relay_verify_key r with
               | Some vk => (remove_relay_registration_by_verify_key vk s).1
               | None => s
               end in
      s <| cs_relays ::= <[rr_refresh_token_hash r := r]> |>) in
    save io).

(** ** Tokens of relays *)
Definition mint_ticket (claims : JoinTicketClaims) : M string :=
  let* key := gets cp_issuer_key in
  lift (match mint key claims with Ok t => Ok t | Err e => Err (TicketFailed e) end).

Definition issue_relay_ws_token (io : Io) (nonce bearer_token relay_id broker_room_id relay_peer_id : string)
    (now : Z) : M RelayWsTokenResponse :=
  let* registration := authenticate_relay io bearer_token relay_id broker_room_id in
  let* ttl := gets cp_relay_ws_ttl_secs in
  let expires_at := u64_saturating_add now ttl in
  let* t := mint_ticket (relay_join_with_expiry nonce (rr_broker_room_id registration) relay_peer_id (Some expires_at)) in
  ret (MkRelayWsToken (rr_relay_id registration) (rr_broker_room_id registration) t expires_at).

Definition issue_pairing_ws_token (io : Io) (nonce bearer_token relay_id broker_room_id pairing_id : string)
    (expires_at : Z) : M PairingWsTokenResponse :=
  let* registration := authenticate_relay io bearer_token relay_id broker_room_id in
  let* t := mint_ticket (pairing_surface_join nonce (rr_broker_room_id registration) pairing_id expires_at) in
  ret (MkPairingWsToken (rr_relay_id registration) (rr_broker_room_id registration) t expires_at).

Definition authenticate_relay_bearer (io : Io) (bearer_token relay_id broker_room_id : string) : M () :=
  let* _ := authenticate_relay io bearer_token relay_id broker_room_id in ret ().

(** ** Devices *)
Definition issue_device_ws_token_for_registration (nonce : string) (broker_room_id device_id : string) (now : Z) :
    M DeviceWsTokenResponse :=
  let* ttl := gets cp_device_ws_ttl_secs in
  let expires_at := u64_saturating_add now ttl in
  let* t := mint_ticket (device_surface_join nonce broker_room_id device_id (Some expires_at)) in
  ret (MkDeviceWsToken broker_room_id device_id t expires_at).

(** The superseded tokens of a device that registers again. *)
Definition superseded_by (relay_id device_id : string) (now grace : Z) (s : PublicControlStateStore) :
    list SupersededToken :=
  match list_find (λ g, is_grant_of relay_id device_id g = true) (values (cs_grants s)) with
  | Some (_, previous) => carry_superseded (dg_superseded previous) (dg_refresh_token_hash previous) now grace
  | None => []
  end.

(** The locked part, for an authenticated relay. *)
Definition grant_device (io : Io) (registration : PersistedRelayRegistration) (refresh_token device_id : string)
    (device_limit : option Z) (now : Z) : M () :=
  let relay_id := rr_relay_id registration in
  let* _ := lock_state io in
  let* s := gets cp_state in
  let* grace := gets cp_rotation_grace_secs in
  let over_limit :=
    match device_limit with
    | Some limit => negb (has_device_grant relay_id device_id s)
                    && (limit <=? Z.of_nat (count_device_grants_for_relay relay_id s))
    | None => false
    end in
  if over_limit then throw (DeviceLimitReached (default 0 device_limit)) else
  let superseded := superseded_by relay_id device_id now grace s in
  let hash := sha256_hex refresh_token in
  let* _ := with_store (λ s, (remove_device_grants relay_id None (Some device_id) s).1) in
  let* _ := with_store (λ s, s <| cs_grants ::=
    <[hash := MkGrant relay_id (rr_broker_room_id registration) device_id hash now (Some now) superseded]> |>) in
  save io.

Definition issue_device_grant (io io' : Io) (rnd nonce bearer_token relay_id broker_room_id device_id : string)
    (device_limit : option Z) (now : Z) : M DeviceGrantResponse :=
  let* registration := authenticate_relay io bearer_token relay_id broker_room_id in
  let refresh_token := issued_token "dref-" rnd in
  let* _ := grant_device io' registration refresh_token device_id device_limit now in
  let* issued := issue_device_ws_token_for_registration nonce (rr_broker_room_id registration) device_id now in
  ret (MkDeviceGrantResponse (rr_relay_id registration) (rr_broker_room_id registration) device_id
         refresh_token (dw_device_ws_token issued) (dw_device_ws_token_expires_at issued)).

Definition issue_device_session_inner (io : Io) (bearer_token : string) (expected_room : option string)
    (now : Z) : M DeviceSessionResponse :=
  let* grant := device_grant_from_refresh_token_scoped io bearer_token expected_room now in
  ret (MkDeviceSession (dg_broker_room_id grant) (dg_device_id grant) true).

(** The activity marker, at most once an hour; a failed write is only logged. *)
Definition mark_last_seen (io : Io) (primary_hash : string) (grant : PersistedDeviceGrant) (now : Z) : M () :=
  if should_touch_last_seen (dg_last_seen grant) now then
    let* _ := with_store (λ s, s <| cs_grants ::= alter (λ g, g <| dg_last_seen := Some now |>) primary_hash |>) in
    modify (λ p, p <| cp_persistence ::= λ b, (touch_device_last_seen io primary_hash now b).2 |>)
  else ret ().

Definition use_device_token (io : Io) (bearer_token : string) (expected_room : option string) (now : Z) :
    M PersistedDeviceGrant :=
  let* _ := lock_state io in
  let token_hash := sha256_hex (trim bearer_token) in
  let* found := find_or_reload io (λ s, find_device_grant_for_token s token_hash now) in
  let* (primary_hash, grant) := ok_or_throw DeviceTokenInvalid found in
  if wrong_room expected_room grant then throw DeviceTokenInvalid else
  let* _ := if decide (primary_hash = token_hash) then ret () else slide_grant io primary_hash token_hash now in
  let* _ := mark_last_seen io primary_hash grant now in
  ret grant.

Definition issue_device_ws_token_inner (io : Io) (nonce bearer_token : string) (expected_room : option string)
    (now : Z) : M DeviceWsTokenResponse :=
  let* grant := use_device_token io bearer_token expected_room now in
  issue_device_ws_token_for_registration nonce (dg_broker_room_id grant) (dg_device_id grant) now.

(** The locked part of a revocation. *)
Definition revoke_grant (io : Io) (registration : PersistedRelayRegistration) (device_id : string) : M nat :=
  let relay_id := rr_relay_id registration in
  let room := rr_broker_room_id registration in
  let* _ := lock_state io in
  let* s := gets cp_state in
  let '(s, revoked) := remove_device_grants relay_id (Some room) (Some device_id) s in
  let '(s, revoked_clients) := remove_client_relay_grants relay_id (Some room) (Some device_id) s in
  let* _ := with_store (λ _, s) in
  let* _ := if (0 <? revoked)%nat || (0 <? revoked_clients)%nat then save io else ret () in
  ret revoked.

Definition revoke_device_grant (io io' : Io) (bearer_token device_id relay_id broker_room_id : string) :
    M DeviceGrantRevokeResponse :=
  let* registration := authenticate_relay io bearer_token relay_id broker_room_id in
  let* revoked := revoke_grant io' registration device_id in
  ret (MkGrantRevoke (rr_relay_id registration) (rr_broker_room_id registration) device_id
         (0 <? revoked)%nat revoked).

Definition revoke_other_grants (io : Io) (registration : PersistedRelayRegistration) (keep_device_id : string) :
    M (list string) :=
  let relay_id := rr_relay_id registration in
  let room := rr_broker_room_id registration in
  let* _ := lock_state io in
  let* s := gets cp_state in
  let '(s, revoked) := remove_all_other_device_grants relay_id room keep_device_id s in
  let '(s, _) := remove_all_other_client_relay_grants relay_id room keep_device_id s in
  let* _ := with_store (λ _, s) in
  let* _ := if bool_decide (revoked = []) then ret () else save io in
  ret revoked.

Definition revoke_other_device_grants (io io' : Io)
    (bearer_token relay_id broker_room_id keep_device_id : string) : M DeviceGrantBulkRevokeResponse :=
  let* registration := authenticate_relay io bearer_token relay_id broker_room_id in
  let* revoked := revoke_other_grants io' registration keep_device_id in
  ret (MkBulkRevoke (rr_relay_id registration) (rr_broker_room_id registration) keep_device_id revoked
         (length revoked)).

(** ** Clients *)
Definition attest_client (registration : PersistedRelayRegistration) (id_rnd rnd device_id client_verify_key : string)
    (client_label device_label : option string) (now : Z) : M ClientGrantResponse :=
  let claim_id := issued_token "ccl-" id_rnd in
  let nonce := issued_token "cn-" rnd in
  let expires_at := u64_saturating_add now DEFAULT_CLIENT_CLAIM_TTL_SECS in
  let* _ := modify (λ p, p <| cp_pending_client_claims ::= filter (λ kc, now < cl_expires_at kc.2) |>) in
  let* n := gets (λ p, size (cp_pending_client_claims p)) in
  if (MAX_PENDING_CLIENT_CLAIMS <=? n)%nat then throw TooManyClientClaims else
  let* _ := modify (λ p, p <| cp_pending_client_claims ::= <[claim_id :=
    MkClaim (rr_relay_id registration) (rr_broker_room_id registration) device_id client_verify_key
      client_label device_label (rr_relay_label registration) nonce expires_at]> |>) in
  ret (MkClientGrantResponse claim_id nonce expires_at (rr_relay_id registration)
         (rr_broker_room_id registration) device_id (rr_relay_label registration)).

Definition issue_client_grant (io : Io) (id_rnd rnd bearer_token relay_id broker_room_id device_id
    client_verify_key : string) (client_label device_label : option string) (now : Z) : M ClientGrantResponse :=
  let* registration := authenticate_relay io bearer_token relay_id broker_room_id in
  let* client_verify_key := required_field ClientVerifyKeyRequired client_verify_key in
  let* _ := lift (validate_relay_verify_key client_verify_key) in
  attest_client registration id_rnd rnd device_id client_verify_key (label client_label) (label device_label) now.

Definition take_claim (claim_id : string) (now : Z) : M PendingClientClaim :=
  let* _ := modify (λ p, p <| cp_pending_client_claims ::= filter (λ kc, now < cl_expires_at kc.2) |>) in
  let* c := gets (λ p, cp_pending_client_claims p !! claim_id) in
  let* _ := modify (λ p, p <| cp_pending_client_claims ::= delete claim_id |>) in
  ok_or_throw ClaimInvalid c.

(** The locked part: the identity of a proven key, and its grant. *)
Definition install_client (io : Io) (rnd : string) (pending : PendingClientClaim) (now : Z) :
    M (string * string) :=
  let* _ := lock_state io in
  let* s := gets cp_state in
  let* grace := gets cp_rotation_grace_secs in
  let '(s, (client_id, client_refresh_token)) :=
    issue_or_rotate_client_identity rnd (cl_client_verify_key pending) (cl_client_label pending) now grace s in
  let s := upsert_client_relay_grant (MkClientGrant client_id (cl_relay_id pending) (cl_broker_room_id pending)
             (cl_device_id pending) now (cl_relay_label pending) (cl_device_label pending)) s in
  let* _ := with_store (λ _, s) in
  let* _ := save io in
  ret (client_id, client_refresh_token).

Definition claim_client_identity (io : Io) (rnd claim_id claim_signature : string) (now : Z) :
    M ClientClaimResponse :=
  let* claim_id := required_field ClaimIdRequired claim_id in
  let* claim_signature := required_field ClaimSignatureRequired claim_signature in
  let* pending := take_claim claim_id now in
  if cl_expires_at pending <=? now then throw ClaimExpired else
  let* _ := lift (verify_client_claim_signature (cl_client_verify_key pending) claim_id (cl_nonce pending)
                    (cl_relay_id pending) claim_signature) in
  let* (client_id, client_refresh_token) := install_client io rnd pending now in
  ret (MkClaimResponse client_id client_refresh_token (cl_relay_id pending) (cl_broker_room_id pending)
         (cl_device_id pending) (cl_relay_label pending)).

(** Newest first, then by relay. *)
Definition entry_order (a b : ClientRelayEntry) : Prop :=
  re_granted_at b < re_granted_at a ∨ re_granted_at a = re_granted_at b ∧ string_le (re_relay_id a) (re_relay_id b).
#[export] Instance entry_order_dec : RelDecision entry_order.
Proof. unfold entry_order. intros a b. apply _. Defined.

Definition list_client_relays (io io' : Io) (bearer_token : string) (now : Z) :
    M (string * list ClientRelayEntry) :=
  let* client := authenticate_client io bearer_token now in
  let* _ := lock_state io' in
  let* s := gets cp_state in
  ret (ci_client_id client, merge_sort entry_order (client_relays (ci_client_id client) s)).

Definition rotate_locked (io : Io) (rnd : string) (client : PersistedClientIdentity) (now : Z) : M string :=
  let* _ := lock_state io in
  let* s := gets cp_state in
  let* grace := gets cp_rotation_grace_secs in
  let '(s, refreshed) := rotate_client_identity rnd client now grace s in
  let* _ := with_store (λ _, s) in
  let* _ := save io in
  ret refreshed.
Definition rotate_client (io io' : Io) (rnd bearer_token : string) (now : Z) : M (string * string) :=
  let* client := authenticate_client io bearer_token now in
  let* refreshed := rotate_locked io' rnd client now in
  ret (ci_client_id client, refreshed).

Definition revoke_locked (io : Io) (client : PersistedClientIdentity) : M ClientIdentityRevokeResponse :=
  let* _ := lock_state io in
  let* s := gets cp_state in
  let '(s, identities) := remove_client_identity_by_client_id (ci_client_id client) s in
  let '(s, grants) := remove_client_relay_grants_by_client_id (ci_client_id client) s in
  let* _ := with_store (λ _, s) in
  let* _ := if (0 <? identities)%nat || (0 <? grants)%nat then save io else ret () in
  ret (MkClientRevoke (ci_client_id client) (0 <? identities)%nat identities grants).
Definition revoke_client_identity (io io' : Io) (bearer_token : string) (now : Z) :
    M ClientIdentityRevokeResponse :=
  let* client := authenticate_client io bearer_token now in
  revoke_locked io' client.

Definition issue_client_session (io : Io) (bearer_token : string) (now : Z) : M string :=
  let* client := authenticate_client io bearer_token now in ret (ci_client_id client).
End Plane.
