(* ===== verification/ControlLemmas.v ===== *)
(** * Steps of the control plane

    The locked parts of its requests as a transition system, and the one argument that
    every invariant of the store goes through: what a step does to the memory, it does to
    the backend, or the next step reloads. *)

From Stdlib Require Import ZArith Lia Ascii String.
From S2P Require Import Prelude RustStr Json BrokerState JoinTicket Device WorkflowRun ControlStore ControlPlane.

Open Scope string_scope.
Open Scope Z_scope.

(** ** Stores up to the activity marker *)
Definition unseen (g : PersistedDeviceGrant) : PersistedDeviceGrant := g <| dg_last_seen := None |>.
Definition same_store (s s' : PublicControlStateStore) : Prop :=
  cs_relays s = cs_relays s' ∧ cs_clients s = cs_clients s' ∧ cs_client_grants s = cs_client_grants s' ∧
  ∀ h, unseen <$> cs_grants s !! h = unseen <$> cs_grants s' !! h.

Lemma same_store_refl s : same_store s s.
Proof. by split_and!. Qed.
#[export] Instance same_store_equiv : Equivalence same_store.
Proof.
  split.
  - intros s. apply same_store_refl.
  - intros s s' (A & B & C & D). split_and!; auto.
  - intros s1 s2 s3 (A & B & C & D) (A' & B' & C' & D'). split_and!; try congruence.
Qed.

(** ** The statements of a save *)
Lemma diff_table_lookup {A} `{EqDecision A} (prev next db : gmap string A) k :
  diff_table prev next db !! k =
    match next !! k with
    | Some r => if decide (prev !! k = Some r) then db !! k else Some r
    | None => match prev !! k with Some _ => None | None => db !! k end
    end.
Proof.
  unfold diff_table. rewrite lookup_union, !map_lookup_filter.
  destruct (next !! k) as [r|] eqn:En, (db !! k) as [x|] eqn:Ed, (prev !! k) as [y|] eqn:Ep;
    cbn; rewrite ?En, ?Ed, ?Ep; repeat case_guard; repeat case_decide; cbn in *; naive_solver.
Qed.

Lemma diff_table_same {A} `{EqDecision A} (prev next : gmap string A) : diff_table prev next prev = next.
Proof.
  apply map_eq. intros k. rewrite diff_table_lookup. destruct (next !! k) as [r|]; [by case_decide|].
  by destruct (prev !! k).
Qed.

(** Saving against a backend that agrees with the last save leaves it in agreement. *)
Lemma save_agrees last next db :
  same_store last db → same_store next (save_public_control_postgres last next db).
Proof.
  intros (A & B & C & D). unfold save_public_control_postgres.
  split_and!; cbn; rewrite <- ?A, <- ?B, <- ?C, ?diff_table_same; try done.
  intros h. rewrite diff_table_lookup. specialize (D h).
  destruct (cs_grants next !! h) as [g|]; cbn.
  - case_decide as E; [|done]. by rewrite <- D, E.
  - by destruct (cs_grants last !! h), (cs_grants db !! h).
Qed.

(** ** Backends that hold an invariant of the store *)
Section Invariant.
Context (I : PublicControlStateStore → Prop).

Definition backend_holds (b : PublicControlPersistence) : Prop :=
  match b with
  | InMemory => True
  | JsonFile file => I file
  | Postgres _ needs last db => I last ∧ I db ∧ (needs = false → same_store last db)
  end.
Definition holds (p : PublicControlPlaneInner) : Prop := I (cp_state p) ∧ backend_holds (cp_persistence p).

(** After [lock_state]: nothing is pending from a failed save. *)
Definition settled (b : PublicControlPersistence) : Prop :=
  match b with Postgres _ needs last db => needs = false | _ => True end.
Definition locked (p : PublicControlPlaneInner) : Prop := holds p ∧ settled (cp_persistence p).

Context (I_seen : ∀ s s', I s → same_store s s' → I s').

Lemma save_holds io b s :
  backend_holds b → settled b → I s →
  let '(r, b', s') := persistence_save io b s in backend_holds b' ∧ I s'.
Proof using I_seen.
  intros Hb Hs Hi. destruct b as [|file|reload needs last db]; cbn; [done|by destruct (io_save io)|].
  destruct Hb as (Hl & Hd & Hsame). cbn in Hs. subst needs. specialize (Hsame eq_refl).
  pose proof (save_agrees last s db Hsame) as Hw.
  assert (I (save_public_control_postgres last s db)) as Hiw by by eapply I_seen.
  destruct (io_save io); cbn; [by split_and!|..];
    (destruct (io_reconcile io); [|cbn; split_and!; auto; done]); unfold classify_save_reconciliation;
    repeat case_decide; cbn; split_and!; auto using same_store_refl;
    match goal with E : save_public_control_postgres _ _ _ = _ |- _ => rewrite E end;
    auto using same_store_refl.
Qed.

(** ** Accesses to the backend

    What they leave alone: everything but the store and the backend. *)
Definition same_frame (p p' : PublicControlPlaneInner) : Prop :=
  cp_issuer_key p' = cp_issuer_key p ∧ cp_relay_ws_ttl_secs p' = cp_relay_ws_ttl_secs p ∧
  cp_device_ws_ttl_secs p' = cp_device_ws_ttl_secs p ∧
  cp_rotation_grace_secs p' = cp_rotation_grace_secs p ∧
  cp_relay_enrollment_challenges p' = cp_relay_enrollment_challenges p ∧
  cp_pending_client_claims p' = cp_pending_client_claims p.
Lemma same_frame_refl p : same_frame p p.
Proof using Type. by split_and!. Qed.
Lemma same_frame_trans p p' p'' : same_frame p p' → same_frame p' p'' → same_frame p p''.
Proof using Type. unfold same_frame. intros (?&?&?&?&?&?) (?&?&?&?&?&?). split_and!; congruence. Qed.

Lemma reload_spec ok p :
  holds p → shared_backend (cp_persistence p) = true →
  holds (reload ok p).2 ∧ same_frame p (reload ok p).2 ∧
  (settled (cp_persistence p) → settled (cp_persistence (reload ok p).2)) ∧
  ((reload ok p).1 = Ok () → locked (reload ok p).2).
Proof using Type.
  intros [Hi Hb] Hs. unfold reload, persistence_load, locked, holds in *.
  destruct (cp_persistence p) as [|file|rb needs last db] eqn:E; [done..|].
  destruct Hb as (Hl & Hd & Hsame).
  destruct ok; cbn; rewrite ?E; cbn; split_and!; auto using same_frame_refl, same_store_refl; done.
Qed.

Lemma lock_spec io p :
  holds p → holds (lock_state io p).2 ∧ same_frame p (lock_state io p).2 ∧
  ((lock_state io p).1 = Ok () → locked (lock_state io p).2).
Proof using Type.
  intros Hp. unfold lock_state, bind, gets. destruct (reload_before_use (cp_persistence p)) eqn:E.
  - destruct (reload_spec (io_lock io) p Hp) as (?&?&_&?); [by destruct (cp_persistence p)|]. auto.
  - split_and!; [done|apply same_frame_refl|]. intros _. split; [done|]. cbn.
    destruct (cp_persistence p); cbn in *; [done..|]. by destruct reload_before_use, needs_reload.
Qed.

Lemma find_or_reload_spec {A} io (find : PublicControlStateStore → option A) p :
  locked p →
  let '(r, p') := find_or_reload io find p in
  locked p' ∧ same_frame p p' ∧ ∀ a, r = Ok (Some a) → find (cp_state p') = Some a.
Proof using Type.
  intros Hp. unfold find_or_reload, reload_state_on_miss, bind, gets, ret.
  destruct (find (cp_state p)) as [a|] eqn:E.
  { split_and!; [done|apply same_frame_refl|]. by intros ? [= <-]. }
  destruct (shared_backend (cp_persistence p)) eqn:Es; [|split_and!; [done|apply same_frame_refl|done]].
  destruct Hp as [Hp Hset]. destruct (reload_spec (io_miss io) p Hp Es) as (H1 & H2 & H3 & H4).
  destruct (reload (io_miss io) p) as [[u|e] p']; cbn in *; (split_and!; [by split; auto|done|]); [|done].
  by intros a [= ->].
Qed.

Lemma save_spec io p :
  locked p → holds (save io p).2 ∧ same_frame p (save io p).2.
Proof using I_seen.
  intros [[Hi Hb] Hs]. unfold save. pose proof (save_holds io _ _ Hb Hs Hi) as H.
  destruct (persistence_save io (cp_persistence p) (cp_state p)) as [[r b] s]. cbn.
  split; [by split; cbn; apply H|by split_and!].
Qed.

(** A change of the store under the lock. *)
Lemma change_locked f p : locked p → I (f (cp_state p)) → locked (p <| cp_state ::= f |>).
Proof using Type. intros [[Hi Hb] Hs] Hf. by split. Qed.

(** The frame of a locked request: only its body is left to look at. *)
Lemma with_lock {A} io (m : M A) p :
  holds p →
  (∀ p', same_frame p p' → locked p' → holds (m p').2) →
  holds ((let* _ := lock_state io in m) p).2.
Proof using Type.
  intros Hp Hm. destruct (lock_spec io p Hp) as (H1 & H2 & H3). unfold bind.
  destruct (lock_state io p) as [[[]|e] p'] eqn:E; cbn in *; [|done]. by apply Hm; auto.
Qed.

Lemma changed_and_saved io f p :
  locked p → I (f (cp_state p)) → holds (save io (p <| cp_state ::= f |>)).2.
Proof using I_seen. intros. by apply save_spec, change_locked. Qed.

(** Looking a token up under the lock. *)
Lemma with_found {A B} io (find : PublicControlStateStore → option A) (k : option A → M B) p :
  locked p →
  (∀ a p', same_frame p p' → locked p' → find (cp_state p') = Some a → holds (k (Some a) p').2) →
  (∀ p', locked p' → holds (k None p').2) →
  holds ((let* found := find_or_reload io find in k found) p).2.
Proof using Type.
  intros Hp Hs Hn. pose proof (find_or_reload_spec io find p Hp) as H. unfold bind.
  destruct (find_or_reload io find p) as [[[a|]|e] p']; destruct H as (H1 & H2 & H3); cbn; auto.
  by destruct H1.
Qed.
End Invariant.

(** ** Steps *)
Section Steps.
Context {DC : DeviceCrypto} {TC : TicketCrypto} {ED : Ed25519}.

Inductive CtlOp : Type :=
| OAuthRelay (io : Io) (bearer relay room : string)
| OAuthClient (io : Io) (bearer : string) (now : Z)
| OSession (io : Io) (bearer : string) (room : option string) (now : Z)
| OMatchesRoom (io : Io) (bearer room : string) (now : Z)
| OUseToken (io : Io) (bearer : string) (room : option string) (now : Z)
| OChallenge (id_rnd rnd key : string) (lbl : option string) (now : Z)
| OEnroll (io : Io) (draws : list (string * string)) (rnd key challenge_id signature : string)
    (lbl : option string) (now : Z)
| ORollback (io : Io) (tok : string)
| OSnapshot (io : Io) (key : string)
| ORestore (io : Io) (r : PersistedRelayRegistration)
| OGrant (io : Io) (r : PersistedRelayRegistration) (tok device : string) (limit : option Z) (now : Z)
| ORevoke (io : Io) (r : PersistedRelayRegistration) (device : string)
| ORevokeOther (io : Io) (r : PersistedRelayRegistration) (keep : string)
| OAttest (r : PersistedRelayRegistration) (id_rnd rnd device key : string) (clbl dlbl : option string) (now : Z)
| OClaim (io : Io) (rnd claim_id signature : string) (now : Z)
| ORelays (io : Io)
| ORotate (io : Io) (rnd : string) (client : PersistedClientIdentity) (now : Z)
| ORevokeClient (io : Io) (client : PersistedClientIdentity).

Definition exec (op : CtlOp) (p : PublicControlPlaneInner) : PublicControlPlaneInner :=
  match op with
  | OAuthRelay io bearer relay room => (authenticate_relay io bearer relay room p).2
  | OAuthClient io bearer now => (authenticate_client io bearer now p).2
  | OSession io bearer room now => (device_grant_from_refresh_token_scoped io bearer room now p).2
  | OMatchesRoom io bearer room now => (device_refresh_token_matches_room io bearer room now p).2
  | OUseToken io bearer room now => (use_device_token io bearer room now p).2
  | OChallenge id_rnd rnd key lbl now => (create_relay_enrollment_challenge id_rnd rnd key lbl now p).2
  | OEnroll io draws rnd key cid sig lbl now => (complete_relay_enrollment io draws rnd key cid sig lbl now p).2
  | ORollback io tok => (rollback_relay_enrollment_by_token io tok p).2
  | OSnapshot io key => (snapshot_relay_registration io key p).2
  | ORestore io r => (restore_relay_registration io r p).2
  | OGrant io r tok device limit now => (grant_device io r tok device limit now p).2
  | ORevoke io r device => (revoke_grant io r device p).2
  | ORevokeOther io r keep => (revoke_other_grants io r keep p).2
  | OAttest r id_rnd rnd device key clbl dlbl now => (attest_client r id_rnd rnd device key clbl dlbl now p).2
  | OClaim io rnd cid sig now => (claim_client_identity io rnd cid sig now p).2
  | ORelays io => (lock_state io p).2
  | ORotate io rnd client now => (rotate_locked io rnd client now p).2
  | ORevokeClient io client => (revoke_locked io client p).2
  end.

Definition slid_client (h th : string) (now grace : Z) (s : PublicControlStateStore) : PublicControlStateStore :=
  s <| cs_clients ::= alter (λ c, c <| ci_superseded ::= λ l, (bump_superseded_expiry l th now grace).1 |>) h |>.
Definition slid_grant (h th : string) (now grace : Z) (s : PublicControlStateStore) : PublicControlStateStore :=
  s <| cs_grants ::= alter (λ g, g <| dg_superseded ::= λ l, (bump_superseded_expiry l th now grace).1 |>) h |>.

(** What a step may do to the store it has locked, in state [p]. *)
Inductive effect (p : PublicControlPlaneInner) : CtlOp → PublicControlStateStore → PublicControlStateStore → Prop :=
| eff_auth_client io bearer now h s :
    effect p (OAuthClient io bearer now) s
      (slid_client h (sha256_hex (trim bearer)) now (cp_rotation_grace_secs p) s)
| eff_session io bearer room now h s :
    effect p (OSession io bearer room now) s
      (slid_grant h (sha256_hex (trim bearer)) now (cp_rotation_grace_secs p) s)
| eff_use io bearer room now h s :
    effect p (OUseToken io bearer room now) s
      (slid_grant h (sha256_hex (trim bearer)) now (cp_rotation_grace_secs p) s)
| eff_enroll io draws rnd key cid sig lbl now s key' c relay room lbl' :
    trimmed_string key = Some key' →
    verify_relay_enrollment_challenge_signature key' (default "" (trimmed_string cid)) (en_challenge c)
      (default "" (trimmed_string sig)) = Ok () →
    cp_relay_enrollment_challenges p !! default "" (trimmed_string cid) = Some c →
    en_relay_verify_key c = key' → now < en_expires_at c →
    match registration_for_verify_key key' s with
    | Some r => relay = rr_relay_id r ∧ room = rr_broker_room_id r
    | None => relay_ids_taken relay room s = false
    end →
    effect p (OEnroll io draws rnd key cid sig lbl now) s
      ((remove_relay_registration_by_verify_key key' s).1 <| cs_relays ::=
        <[sha256_hex (issued_token "rref-" rnd) :=
          MkRelay relay room (sha256_hex (issued_token "rref-" rnd)) now lbl' (Some key')]> |>)
| eff_rollback io tok s :
    effect p (ORollback io tok) s (s <| cs_relays ::= delete (sha256_hex tok) |>)
| eff_restore io r s :
    effect p (ORestore io r) s
      (match rr_relay_verify_key r with
       | Some vk => (remove_relay_registration_by_verify_key vk s).1
       | None => s
       end <| cs_relays ::= <[rr_refresh_token_hash r := r]> |>)
| eff_grant io r tok device limit now s :
    match limit with
    | Some n => has_device_grant (rr_relay_id r) device s = true ∨
                Z.of_nat (count_device_grants_for_relay (rr_relay_id r) s) < n
    | None => True
    end →
    effect p (OGrant io r tok device limit now) s
      ((remove_device_grants (rr_relay_id r) None (Some device) s).1 <| cs_grants ::=
        <[sha256_hex tok := MkGrant (rr_relay_id r) (rr_broker_room_id r) device (sha256_hex tok) now (Some now)
            (superseded_by (rr_relay_id r) device now (cp_rotation_grace_secs p) s)]> |>)
| eff_revoke io r device s :
    effect p (ORevoke io r device) s
      (remove_client_relay_grants (rr_relay_id r) (Some (rr_broker_room_id r)) (Some device)
        (remove_device_grants (rr_relay_id r) (Some (rr_broker_room_id r)) (Some device) s).1).1
| eff_revoke_other io r keep s :
    effect p (ORevokeOther io r keep) s
      (remove_all_other_client_relay_grants (rr_relay_id r) (rr_broker_room_id r) keep
        (remove_all_other_device_grants (rr_relay_id r) (rr_broker_room_id r) keep s).1).1
| eff_claim io rnd cid sig now s c :
    cp_pending_client_claims p !! default "" (trimmed_string cid) = Some c → now < cl_expires_at c →
    verify_client_claim_signature (cl_client_verify_key c) (default "" (trimmed_string cid)) (cl_nonce c)
      (cl_relay_id c) (default "" (trimmed_string sig)) = Ok () →
    effect p (OClaim io rnd cid sig now) s
      (let '(s1, (client_id, _)) := issue_or_rotate_client_identity rnd (cl_client_verify_key c)
                                      (cl_client_label c) now (cp_rotation_grace_secs p) s in
       upsert_client_relay_grant (MkClientGrant client_id (cl_relay_id c) (cl_broker_room_id c)
         (cl_device_id c) now (cl_relay_label c) (cl_device_label c)) s1)
| eff_rotate io rnd client now s :
    effect p (ORotate io rnd client now) s
      (rotate_client_identity rnd client now (cp_rotation_grace_secs p) s).1
| eff_revoke_client io client s :
    effect p (ORevokeClient io client) s
      (remove_client_relay_grants_by_client_id (ci_client_id client)
        (remove_client_identity_by_client_id (ci_client_id client) s).1).1.

(** ** A step keeps what its effect on the store keeps *)
Context (I : PublicControlStateStore → Prop).
Context (I_seen : ∀ s s', I s → same_store s s' → I s').

Lemma seen_same h now s :
  same_store s (s <| cs_grants ::= alter (λ g, g <| dg_last_seen := Some now |>) h |>).
Proof using Type.
  split_and!; [done..|]. intros k. cbn. destruct (decide (h = k)) as [<-|].
  - rewrite lookup_alter_eq. by destruct (cs_grants s !! h).
  - by rewrite lookup_alter_ne.
Qed.

Lemma slide_client_spec io h th now p :
  locked I p → I (slid_client h th now (cp_rotation_grace_secs p) (cp_state p)) →
  holds I (slide_client io h th now p).2.
Proof using I_seen.
  intros Hp Hs. unfold slide_client, bind, gets, ret, ignore_error, id.
  destruct (cs_clients (cp_state p) !! h) as [live|] eqn:E; cbn; [|apply Hp].
  destruct (bump_superseded_expiry _ _ _ _) as [l changed] eqn:Eb. cbn.
  assert (locked I (p <| cp_state ::= λ s, s <| cs_clients ::= <[h := live <| ci_superseded := l |>]> |> |>)) as Hl.
  { apply change_locked; [done|].
    assert ((cp_state p) <| cs_clients ::= <[h := live <| ci_superseded := l |>]> |>
            = slid_client h th now (cp_rotation_grace_secs p) (cp_state p)) as ->; [|done].
    unfold slid_client, set_field; cbn. f_equal. apply map_eq. intros k.
    destruct (decide (h = k)) as [<-|]; [|by rewrite lookup_insert_ne, lookup_alter_ne].
    rewrite lookup_insert_eq, lookup_alter_eq, E. cbn. unfold set_field; cbn. by rewrite Eb. }
  destruct changed; cbn; [by apply (save_spec I I_seen)|apply Hl].
Qed.

Lemma slide_grant_spec io h th now p :
  locked I p → I (slid_grant h th now (cp_rotation_grace_secs p) (cp_state p)) →
  holds I (slide_grant io h th now p).2.
Proof using I_seen.
  intros Hp Hs. unfold slide_grant, bind, gets, ret, ignore_error, id.
  destruct (cs_grants (cp_state p) !! h) as [live|] eqn:E; cbn; [|apply Hp].
  destruct (bump_superseded_expiry _ _ _ _) as [l changed] eqn:Eb. cbn.
  assert (locked I (p <| cp_state ::= λ s, s <| cs_grants ::= <[h := live <| dg_superseded := l |>]> |> |>)) as Hl.
  { apply change_locked; [done|].
    assert ((cp_state p) <| cs_grants ::= <[h := live <| dg_superseded := l |>]> |>
            = slid_grant h th now (cp_rotation_grace_secs p) (cp_state p)) as ->; [|done].
    unfold slid_grant, set_field; cbn. f_equal. apply map_eq. intros k.
    destruct (decide (h = k)) as [<-|]; [|by rewrite lookup_insert_ne, lookup_alter_ne].
    rewrite lookup_insert_eq, lookup_alter_eq, E. cbn. unfold set_field; cbn. by rewrite Eb. }
  destruct changed; cbn; [by apply (save_spec I I_seen)|apply Hl].
Qed.

Lemma mark_last_seen_spec io h g now p : holds I p → holds I (mark_last_seen io h g now p).2.
Proof using I_seen.
  intros [Hi Hb]. unfold mark_last_seen. destruct (should_touch_last_seen _ _); [|done].
  unfold with_store, modify, bind. split; cbn; [eapply I_seen; [done|apply seen_same]|].
  destruct (cp_persistence p) as [|file|rb needs last db]; cbn; [done..|].
  destruct (io_touch io); cbn; [|done]. destruct Hb as (Hl & Hd & Hs).
  split_and!; [done|by eapply I_seen, seen_same|]. intros E. etrans; [by apply Hs|apply seen_same].
Qed.

(** Requests that end by returning a value. *)
Lemma bind_ret {A B} (m : M A) (f : A → B) p : ((let* a := m in ret (f a)) p).2 = (m p).2.
Proof using Type. unfold bind, ret. by destruct (m p) as [[a|e] p']. Qed.

Lemma auth_relay_holds io bearer relay room p :
  holds I p → holds I (authenticate_relay io bearer relay room p).2.
Proof using Type.
  intros Hp. unfold authenticate_relay. apply with_lock; [done|]. intros p1 _ H1.
  apply with_found; [done| |]; [intros r p2 _ [H2 _] _|intros p2 [H2 _]].
  - cbn. unfold bind, ok_or_throw, ret, throw. by repeat case_match; simplify_eq/=.
  - done.
Qed.

Lemma auth_client_holds io bearer now p :
  holds I p → (∀ s s', I s → effect p (OAuthClient io bearer now) s s' → I s') →
  holds I (authenticate_client io bearer now p).2.
Proof using I_seen.
  intros Hp He. unfold authenticate_client. apply with_lock; [done|]. intros p1 F1 H1.
  apply with_found; [done| |]; [intros [h c] p2 F2 H2 _|by intros p2 [H2 _]].
  change (holds I ((let* _ := if decide (h = sha256_hex (trim bearer)) then ret ()
    else slide_client io h (sha256_hex (trim bearer)) now in ret c) p2).2). rewrite bind_ret.
  destruct (decide (h = _)) as [_|_]; [apply H2|]. apply slide_client_spec; [done|].
  destruct (same_frame_trans _ _ _ F1 F2) as (_&_&_&->&_). eapply He; [apply H2|]. constructor.
Qed.

Lemma session_holds io bearer room now p :
  holds I p → (∀ s s', I s → effect p (OSession io bearer room now) s s' → I s') →
  holds I (device_grant_from_refresh_token_scoped io bearer room now p).2.
Proof using I_seen.
  intros Hp He. unfold device_grant_from_refresh_token_scoped. apply with_lock; [done|]. intros p1 F1 H1.
  apply with_found; [done| |]; [intros [h c] p2 F2 H2 _|by intros p2 [H2 _]].
  change (holds I ((if wrong_room room c then throw DeviceTokenInvalid else
    let* _ := if decide (h = sha256_hex (trim bearer)) then ret ()
    else slide_grant io h (sha256_hex (trim bearer)) now in ret c) p2).2).
  destruct (wrong_room room c); [apply H2|]. rewrite bind_ret.
  destruct (decide (h = _)) as [_|_]; [apply H2|]. apply slide_grant_spec; [done|].
  destruct (same_frame_trans _ _ _ F1 F2) as (_&_&_&->&_). eapply He; [apply H2|]. constructor.
Qed.

Lemma matches_room_holds io bearer room now p :
  holds I p → holds I (device_refresh_token_matches_room io bearer room now p).2.
Proof using Type.
  intros Hp. unfold device_refresh_token_matches_room. apply with_lock; [done|]. intros p1 _ H1.
  apply with_found; [done| |]; [by intros r p2 _ [H2 _] _|by intros p2 [H2 _]].
Qed.

Lemma use_token_holds io bearer room now p :
  holds I p → (∀ s s', I s → effect p (OUseToken io bearer room now) s s' → I s') →
  holds I (use_device_token io bearer room now p).2.
Proof using I_seen.
  intros Hp He. unfold use_device_token. apply with_lock; [done|]. intros p1 F1 H1.
  apply with_found; [done| |]; [intros [h c] p2 F2 H2 _|by intros p2 [H2 _]].
  set (m := if decide (h = sha256_hex (trim bearer)) then ret ()
    else slide_grant io h (sha256_hex (trim bearer)) now).
  change (holds I ((if wrong_room room c then throw DeviceTokenInvalid else
    let* _ := m in let* _ := mark_last_seen io h c now in ret c) p2).2).
  destruct (wrong_room room c); [apply H2|].
  assert (holds I (m p2).2) as Hm.
  { subst m. destruct (decide (h = _)) as [_|_]; [apply H2|]. apply slide_grant_spec; [done|].
    destruct (same_frame_trans _ _ _ F1 F2) as (_&_&_&->&_). eapply He; [apply H2|]. constructor. }
  unfold bind at 1. destruct (m p2) as [[[]|e] p3]; cbn in *; [|done]. rewrite bind_ret.
  by apply mark_last_seen_spec.
Qed.

Lemma challenge_holds id_rnd rnd key lbl now p :
  holds I p → holds I (create_relay_enrollment_challenge id_rnd rnd key lbl now p).2.
Proof using Type.
  intros [Hi Hb]. unfold create_relay_enrollment_challenge, prune_expired_relay_enrollment_challenges, required_field, lift,
    ok_or_throw, throw, ret, bind, modify.
  repeat case_match; simplify_eq/=; done.
Qed.

Lemma rollback_holds io tok p :
  holds I p → (∀ s s', I s → effect p (ORollback io tok) s s' → I s') →
  holds I (rollback_relay_enrollment_by_token io tok p).2.
Proof using I_seen.
  intros Hp He. unfold rollback_relay_enrollment_by_token, ignore_error. cbn.
  apply with_lock; [done|]. intros p1 _ H1. unfold bind, gets. destruct (_ !! _); [|apply H1].
  cbn. apply changed_and_saved; [done..|]. eapply He; [apply H1|]. constructor.
Qed.

Lemma snapshot_holds io key p : holds I p → holds I (snapshot_relay_registration io key p).2.
Proof using Type.
  intros Hp. unfold snapshot_relay_registration. destruct (lock_spec I io p Hp) as (Hl & _).
  by destruct (lock_state io p) as [[[]|e] p'].
Qed.

Lemma restore_holds io r p :
  holds I p → (∀ s s', I s → effect p (ORestore io r) s s' → I s') →
  holds I (restore_relay_registration io r p).2.
Proof using I_seen.
  intros Hp He. unfold restore_relay_registration, ignore_error. cbn.
  apply with_lock; [done|]. intros p1 _ H1. unfold bind. cbn.
  apply changed_and_saved; [done..|]. eapply He; [apply H1|]. apply eff_restore.
Qed.

(** A locked change of the store that is saved, whatever it returns. *)
Lemma saved_holds {A} io f (a : A) p :
  locked I p → I (f (cp_state p)) →
  holds I ((let* _ := with_store f in let* _ := save io in ret a) p).2.
Proof using I_seen.
  intros Hp Hf. change (holds I ((let* _ := save io in ret a) (p <| cp_state ::= f |>)).2).
  rewrite bind_ret. by apply changed_and_saved.
Qed.
Lemma saved_if_holds {A} io f (c : bool) (a : A) p :
  locked I p → I (f (cp_state p)) →
  holds I ((let* _ := with_store f in let* _ := (if c then save io else ret ()) in ret a) p).2.
Proof using I_seen.
  intros Hp Hf.
  change (holds I ((let* _ := (if c then save io else ret ()) in ret a) (p <| cp_state ::= f |>)).2).
  rewrite bind_ret. destruct c; [by apply changed_and_saved|]. by apply change_locked.
Qed.

Lemma grant_holds io r tok device limit now p :
  holds I p → (∀ s s', I s → effect p (OGrant io r tok device limit now) s s' → I s') →
  holds I (grant_device io r tok device limit now p).2.
Proof using I_seen.
  intros Hp He. unfold grant_device. apply with_lock; [done|]. intros p1 F1 H1.
  set (over := match limit with Some n => negb (has_device_grant (rr_relay_id r) device (cp_state p1))
    && (n <=? Z.of_nat (count_device_grants_for_relay (rr_relay_id r) (cp_state p1))) | None => false end).
  set (sup := superseded_by (rr_relay_id r) device now (cp_rotation_grace_secs p1) (cp_state p1)).
  change (holds I ((if over then throw (DeviceLimitReached (default 0 limit)) else
    let* _ := with_store (λ s, (remove_device_grants (rr_relay_id r) None (Some device) s).1) in
    let* _ := with_store (λ s, s <| cs_grants ::= <[sha256_hex tok :=
      MkGrant (rr_relay_id r) (rr_broker_room_id r) device (sha256_hex tok) now (Some now) sup]> |>) in
    save io) p1).2).
  destruct over eqn:Eo; [apply H1|].
  apply (save_spec I I_seen). apply (change_locked I (λ s, (remove_device_grants (rr_relay_id r) None (Some device) s).1
    <| cs_grants ::= <[sha256_hex tok := MkGrant (rr_relay_id r) (rr_broker_room_id r) device (sha256_hex tok) now (Some now) sup]> |>)
    p1 H1).
  subst sup. destruct F1 as (_&_&_&->&_). eapply He; [apply H1|]. constructor.
  subst over. destruct limit as [n|]; [|done]. apply andb_false_iff in Eo as [Eo|Eo].
  - left. by apply negb_false_iff in Eo.
  - right. by apply Z.leb_gt in Eo.
Qed.

Lemma revoke_holds io r device p :
  holds I p → (∀ s s', I s → effect p (ORevoke io r device) s s' → I s') →
  holds I (revoke_grant io r device p).2.
Proof using I_seen.
  intros Hp He. unfold revoke_grant. apply with_lock; [done|]. intros p1 F1 H1.
  pose proof (He (cp_state p1) _ ltac:(apply H1) (eff_revoke _ _ _ _ _)) as Hi.
  change (holds I ((let '(s, revoked) := remove_device_grants (rr_relay_id r) (Some (rr_broker_room_id r)) (Some device) (cp_state p1) in
    let '(s, rc) := remove_client_relay_grants (rr_relay_id r) (Some (rr_broker_room_id r)) (Some device) s in
    let* _ := with_store (λ _, s) in
    let* _ := if (0 <? revoked)%nat || (0 <? rc)%nat then save io else ret () in ret revoked) p1).2).
  destruct (remove_device_grants _ _ _ (cp_state p1)) as [s1 n1]. cbn [fst] in Hi.
  destruct (remove_client_relay_grants _ _ _ s1) as [s2 n2]. cbn [fst] in Hi.
  by apply (saved_if_holds io (λ _, s2)).
Qed.

Lemma revoke_other_holds io r keep p :
  holds I p → (∀ s s', I s → effect p (ORevokeOther io r keep) s s' → I s') →
  holds I (revoke_other_grants io r keep p).2.
Proof using I_seen.
  intros Hp He. unfold revoke_other_grants. apply with_lock; [done|]. intros p1 F1 H1.
  pose proof (He (cp_state p1) _ ltac:(apply H1) (eff_revoke_other _ _ _ _ _)) as Hi.
  change (holds I ((let '(s, revoked) := remove_all_other_device_grants (rr_relay_id r) (rr_broker_room_id r) keep (cp_state p1) in
    let '(s, _) := remove_all_other_client_relay_grants (rr_relay_id r) (rr_broker_room_id r) keep s in
    let* _ := with_store (λ _, s) in
    let* _ := if bool_decide (revoked = []) then ret () else save io in ret revoked) p1).2).
  destruct (remove_all_other_device_grants _ _ _ (cp_state p1)) as [s1 n1]. cbn [fst] in Hi.
  destruct (remove_all_other_client_relay_grants _ _ _ s1) as [s2 n2]. cbn [fst] in Hi.
  pose proof (saved_if_holds io (λ _, s2) (negb (bool_decide (n1 = []))) n1 p1 H1 Hi) as Hs.
  by destruct (bool_decide (n1 = [])).
Qed.

Lemma attest_holds r id_rnd rnd device key clbl dlbl now p :
  holds I p → holds I (attest_client r id_rnd rnd device key clbl dlbl now p).2.
Proof using Type.
  intros [Hi Hb]. unfold attest_client, bind, modify, gets, ret, throw. by case_match.
Qed.

Lemma rotate_holds io rnd client now p :
  holds I p → (∀ s s', I s → effect p (ORotate io rnd client now) s s' → I s') →
  holds I (rotate_locked io rnd client now p).2.
Proof using I_seen.
  intros Hp He. unfold rotate_locked. apply with_lock; [done|]. intros p1 F1 H1.
  pose proof (He (cp_state p1) _ ltac:(apply H1) (eff_rotate _ _ _ _ _ _)) as Hi.
  destruct F1 as (_&_&_&F&_). rewrite <- F in Hi.
  change (holds I ((let '(s, t) := rotate_client_identity rnd client now (cp_rotation_grace_secs p1) (cp_state p1) in
    let* _ := with_store (λ _, s) in let* _ := save io in ret t) p1).2).
  destruct (rotate_client_identity _ _ _ _ _) as [s1 t]. cbn [fst] in Hi. by apply (saved_holds io (λ _, s1)).
Qed.

Lemma revoke_client_holds io client p :
  holds I p → (∀ s s', I s → effect p (ORevokeClient io client) s s' → I s') →
  holds I (revoke_locked io client p).2.
Proof using I_seen.
  intros Hp He. unfold revoke_locked. apply with_lock; [done|]. intros p1 F1 H1.
  pose proof (He (cp_state p1) _ ltac:(apply H1) (eff_revoke_client _ _ _ _)) as Hi.
  change (holds I ((let '(s, n1) := remove_client_identity_by_client_id (ci_client_id client) (cp_state p1) in
    let '(s, n2) := remove_client_relay_grants_by_client_id (ci_client_id client) s in
    let* _ := with_store (λ _, s) in
    let* _ := if (0 <? n1)%nat || (0 <? n2)%nat then save io else ret () in
    ret (MkClientRevoke (ci_client_id client) (0 <? n1)%nat n1 n2)) p1).2).
  destruct (remove_client_identity_by_client_id _ (cp_state p1)) as [s1 n1]. cbn [fst] in Hi.
  destruct (remove_client_relay_grants_by_client_id _ s1) as [s2 n2]. cbn [fst] in Hi.
  by apply (saved_if_holds io (λ _, s2)).
Qed.

(** A claim is gone after the first attempt, and only a current one is returned. *)
Lemma take_claim_spec cid now p :
  (take_claim cid now p).2 =
    p <| cp_pending_client_claims ::= λ m, delete cid (filter (λ kc, now < cl_expires_at kc.2) m) |> ∧
  ∀ c, (take_claim cid now p).1 = Ok c → cp_pending_client_claims p !! cid = Some c ∧ now < cl_expires_at c.
Proof using Type.
  unfold take_claim, bind, modify, gets, ok_or_throw, ret, throw. cbn.
  destruct (filter _ _ !! cid) as [c|] eqn:E; cbn; (split; [done|]); intros c' [= <-].
  by apply map_lookup_filter_Some in E.
Qed.

Lemma install_holds io rnd c now p :
  holds I p →
  (∀ s, I s → I (let '(s1, (client_id, _)) := issue_or_rotate_client_identity rnd (cl_client_verify_key c)
                                      (cl_client_label c) now (cp_rotation_grace_secs p) s in
       upsert_client_relay_grant (MkClientGrant client_id (cl_relay_id c) (cl_broker_room_id c)
         (cl_device_id c) now (cl_relay_label c) (cl_device_label c)) s1)) →
  holds I (install_client io rnd c now p).2.
Proof using I_seen.
  intros Hp He. unfold install_client. apply with_lock; [done|]. intros p1 (_&_&_&F&_) H1.
  specialize (He (cp_state p1) ltac:(apply H1)). rewrite <- F in He.
  unfold bind at 1, gets at 1. unfold bind at 1, gets at 1.
  destruct (issue_or_rotate_client_identity _ _ _ _ _ _) as [s1 [cid tok]].
  by apply (saved_holds io (λ _, upsert_client_relay_grant _ s1)).
Qed.

Lemma claim_holds io rnd cid sig now p :
  holds I p → (∀ s s', I s → effect p (OClaim io rnd cid sig now) s s' → I s') →
  holds I (claim_client_identity io rnd cid sig now p).2.
Proof using I_seen.
  intros Hp He. unfold claim_client_identity, required_field.
  destruct (trimmed_string cid) as [cid'|] eqn:Ec; [|done].
  destruct (trimmed_string sig) as [sig'|] eqn:Es; [|done].
  unfold bind at 1, ok_or_throw at 1, ret at 1. unfold bind at 1, ok_or_throw at 1, ret at 1.
  unfold bind at 1. destruct (take_claim_spec cid' now p) as [E2 E1].
  destruct (take_claim cid' now p) as [[c|e] p1]; cbn [fst snd] in *; subst p1; [|done].
  destruct (E1 c eq_refl) as [Hc Hx]. destruct (_ <=? now); [done|].
  unfold bind at 1, lift. destruct (verify_client_claim_signature _ _ _ _ _) as [[]|e] eqn:Ev; [|done].
  set (p1 := p <| cp_pending_client_claims ::= _ |>).
  assert (holds I (install_client io rnd c now p1).2) as Hi.
  { apply install_holds; [done|]. intros s Hs. eapply He; [exact Hs|].
    change (cp_rotation_grace_secs p1) with (cp_rotation_grace_secs p).
    apply eff_claim; rewrite ?Ec, ?Es; done. }
  unfold bind. by destruct (install_client io rnd c now p1) as [[[a b]|e] p2].
Qed.

Lemma take_challenge_spec cid p :
  (take_challenge cid p).2 = p <| cp_relay_enrollment_challenges ::= delete cid |> ∧
  ∀ c, (take_challenge cid p).1 = Ok c → cp_relay_enrollment_challenges p !! cid = Some c.
Proof using Type.
  unfold take_challenge, bind, modify, gets, ok_or_throw, ret, throw. cbn.
  destruct (cp_relay_enrollment_challenges p !! cid) as [c|]; cbn; (split; [done|]); intros c' E; congruence.
Qed.

Lemma fresh_ids draws s relay room :
  issue_new_relay_ids draws s = Some (relay, room) → relay_ids_taken relay room s = false.
Proof using Type.
  induction draws as [|[a b] draws IH]; [done|]. cbn [issue_new_relay_ids].
  destruct (relay_ids_taken (issued_token "relay-" a) (issued_token "room-" b) s) eqn:E; [exact IH|].
  by intros [= <- <-].
Qed.

Lemma no_key_no_row key s :
  registration_for_verify_key key s = None → (remove_relay_registration_by_verify_key key s).1 = s.
Proof using Type.
  unfold registration_for_verify_key, remove_relay_registration_by_verify_key. intros E.
  apply fmap_None, list_find_None in E. rewrite Forall_forall in E. destruct s as [rs ? ? ?].
  unfold remove_matching_entries, set_field; cbn. f_equal. apply map_filter_id. intros k r Hk. cbn.
  apply not_true_iff_false, E. apply list_elem_of_fmap. exists (k, r). split; [done|]. by apply elem_of_map_to_list.
Qed.

Lemma register_holds io draws rnd key lbl now p :
  holds I p →
  (∀ s relay room, I s →
     match registration_for_verify_key key s with
     | Some r => relay = rr_relay_id r ∧ room = rr_broker_room_id r
     | None => relay_ids_taken relay room s = false
     end →
     I ((remove_relay_registration_by_verify_key key s).1 <| cs_relays ::=
        <[sha256_hex (issued_token "rref-" rnd) :=
          MkRelay relay room (sha256_hex (issued_token "rref-" rnd)) now lbl (Some key)]> |>)) →
  holds I (issue_relay_registration_for_verify_key io draws rnd key lbl now p).2.
Proof using I_seen.
  intros Hp He. unfold issue_relay_registration_for_verify_key. apply with_lock; [done|]. intros p1 _ H1.
  unfold bind at 1, gets at 1. specialize (He (cp_state p1)).
  destruct (registration_for_verify_key key (cp_state p1)) as [r|] eqn:Er.
  - specialize (He (rr_relay_id r) (rr_broker_room_id r) ltac:(apply H1) ltac:(done)).
    by apply (saved_holds io (λ s, (remove_relay_registration_by_verify_key key s).1 <| cs_relays ::= _ |>)).
  - unfold bind at 1, gets at 1. unfold bind at 1.
    destruct (issue_new_relay_ids draws (cp_state p1)) as [[relay room]|] eqn:Ed; cbn [ok_or_throw ret throw]; [|apply H1].
    apply fresh_ids in Ed. specialize (He relay room ltac:(apply H1) Ed). rewrite no_key_no_row in He by done.
    by apply (saved_holds io (λ s, s <| cs_relays ::= _ |>)).
Qed.

Lemma enroll_holds io draws rnd key cid sig lbl now p :
  holds I p → (∀ s s', I s → effect p (OEnroll io draws rnd key cid sig lbl now) s s' → I s') →
  holds I (complete_relay_enrollment io draws rnd key cid sig lbl now p).2.
Proof using I_seen.
  intros Hp He. unfold complete_relay_enrollment, prune_expired_relay_enrollment_challenges, required_field.
  unfold bind at 1, modify at 1. set (p0 := p <| cp_relay_enrollment_challenges ::= _ |>).
  assert (holds I p0) as H0 by done.
  destruct (trimmed_string key) as [key'|] eqn:Ek; [|done]. unfold bind at 1, ok_or_throw at 1, ret at 1.
  unfold bind at 1, lift at 1. destruct (validate_relay_verify_key key'); [|done].
  destruct (trimmed_string cid) as [cid'|] eqn:Ec; [|done]. unfold bind at 1, ok_or_throw at 1, ret at 1.
  destruct (trimmed_string sig) as [sig'|] eqn:Es; [|done]. unfold bind at 1, ok_or_throw at 1, ret at 1.
  unfold bind at 1. destruct (take_challenge_spec cid' p0) as [E2 E1].
  destruct (take_challenge cid' p0) as [[c|e] p1]; cbn [fst snd] in *; subst p1; [|done].
  specialize (E1 c eq_refl). subst p0. cbn in E1. apply map_lookup_filter_Some in E1 as [Hc Hx].
  destruct (_ <=? now); [done|].
  destruct (bool_decide_reflect (en_relay_verify_key c = key')) as [Hk|]; [|done]. cbn [negb].
  unfold bind at 1, lift at 1. destruct (verify_relay_enrollment_challenge_signature _ _ _ _) as [[]|e] eqn:Ev; [|done].
  apply register_holds; [done|]. intros s relay room Hs Hids. eapply He; [exact Hs|].
  eapply eff_enroll; rewrite ?Ec, ?Es; done.
Qed.

(** Every step keeps an invariant that its effects keep, in memory and in the backend. *)
Lemma step_holds op p :
  holds I p → (∀ s s', I s → effect p op s s' → I s') → holds I (exec op p).
Proof using I_seen.
  destruct op; cbn [exec]; eauto using auth_relay_holds, auth_client_holds, session_holds, matches_room_holds,
    use_token_holds, challenge_holds, enroll_holds, rollback_holds, snapshot_holds, restore_holds, grant_holds,
    revoke_holds, revoke_other_holds, attest_holds, claim_holds, rotate_holds, revoke_client_holds.
  intros Hp _. by destruct (lock_spec I io p Hp) as (?&_).
Qed.
End Steps.
