(* ===== verification/ControlTheorems.v ===== *)
(** * What the control plane promises

    The invariant of its store; that a client credential needs the client's key and an
    enrolment the relay's; that revocation is final, rotation has its grace period, and a
    save reports what happened. *)

From Stdlib Require Import ZArith Lia Ascii String.
From S2P Require Import Prelude RustStr Json BrokerState JoinTicket Device WorkflowRun ControlStore ControlPlane.
From S2P Require Import ControlLemmas.

Open Scope string_scope.
Open Scope Z_scope.

(** ** Removal *)
Lemma kept_lookup {A} (f : A → bool) (m : gmap string A) k x :
  (remove_matching_entries f m).1 !! k = Some x ↔ m !! k = Some x ∧ f x = false.
Proof. unfold remove_matching_entries. cbn. by rewrite map_lookup_filter_Some. Qed.

Lemma collect_lookup {A} id (f : A → bool) (m : gmap string A) k x :
  (collect_removed_device_ids id f m).1 !! k = Some x ↔ m !! k = Some x ∧ f x = false.
Proof. unfold collect_removed_device_ids. cbn. by rewrite map_lookup_filter_Some. Qed.

Lemma values_elem {A} (m : gmap string A) x : x ∈ values m ↔ ∃ k, m !! k = Some x.
Proof.
  unfold values. rewrite list_elem_of_fmap. split.
  - intros ([k y] & -> & Hk). apply elem_of_map_to_list in Hk. eauto.
  - intros [k Hk]. exists (k, x). split; [done|]. by apply elem_of_map_to_list.
Qed.

(** ** Superseded tokens *)
Definition hashes (l : list SupersededToken) : list string := map su_refresh_token_hash l.

Lemma bump_hashes l th now grace : hashes (bump_superseded_expiry l th now grace).1 = hashes l.
Proof.
  unfold hashes. induction l as [|t l IH]; [done|]. cbn. destruct (_ && _); [by destruct (_ && _)|].
  destruct (bump_superseded_expiry l th now grace). cbn in *. by rewrite IH.
Qed.

Lemma carry_length l h now grace : (length (carry_superseded l h now grace) ≤ MAX_SUPERSEDED_TOKENS)%nat.
Proof. unfold carry_superseded. rewrite length_drop. lia. Qed.

Lemma drop_elem {A} n (l : list A) x : x ∈ drop n l → x ∈ l.
Proof. intros Hx. rewrite <- (take_drop n l). apply elem_of_app. by right. Qed.

Lemma carry_hashes l h now grace x : x ∈ hashes (carry_superseded l h now grace) → x = h ∨ x ∈ hashes l.
Proof.
  unfold hashes. rewrite !list_elem_of_fmap. intros (t & -> & Ht%drop_elem).
  apply elem_of_app in Ht as [[_ Ht]%list_elem_of_filter|Ht%list_elem_of_singleton]; [|subst t; by left].
  right. eauto.
Qed.

(** ** The invariant *)
Definition grant_tokens (g : PersistedDeviceGrant) : list string := dg_refresh_token_hash g :: hashes (dg_superseded g).

Section Control.
Context {DC : DeviceCrypto} {TC : TicketCrypto} {ED : Ed25519}.

Record store_wf (s : PublicControlStateStore) : Prop := {
  wf_relay h r : cs_relays s !! h = Some r → rr_refresh_token_hash r = h;
  wf_relay_key h h' r r' k : cs_relays s !! h = Some r → cs_relays s !! h' = Some r' →
    rr_relay_verify_key r = Some k → rr_relay_verify_key r' = Some k → h = h';
  wf_client h c : cs_clients s !! h = Some c → ci_refresh_token_hash c = h ∧
    ci_client_id c = issue_client_id (ci_client_verify_key c) ∧
    (length (ci_superseded c) ≤ MAX_SUPERSEDED_TOKENS)%nat;
  wf_client_key h h' c c' : cs_clients s !! h = Some c → cs_clients s !! h' = Some c' →
    ci_client_verify_key c = ci_client_verify_key c' → h = h';
  wf_grant h g : cs_grants s !! h = Some g → dg_refresh_token_hash g = h ∧
    (length (dg_superseded g) ≤ MAX_SUPERSEDED_TOKENS)%nat;
  wf_grant_device h h' g g' : cs_grants s !! h = Some g → cs_grants s !! h' = Some g' →
    dg_relay_id g = dg_relay_id g' → dg_device_id g = dg_device_id g' → h = h';
  wf_grant_tokens h h' g g' t : cs_grants s !! h = Some g → cs_grants s !! h' = Some g' →
    t ∈ grant_tokens g → t ∈ grant_tokens g' → h = h';
  wf_client_grant k g : cs_client_grants s !! k = Some g →
    k = client_relay_grant_key (cg_client_id g) (cg_relay_id g)
}.

Lemma same_grant s s' h g :
  same_store s s' → cs_grants s' !! h = Some g →
  ∃ g0, cs_grants s !! h = Some g0 ∧ unseen g0 = unseen g.
Proof using Type.
  intros (_ & _ & _ & D) Hg. specialize (D h). rewrite Hg in D. cbn in D.
  apply fmap_Some in D as (g0 & H0 & E). by exists g0.
Qed.

Lemma unseen_fields g g' : unseen g = unseen g' →
  dg_relay_id g = dg_relay_id g' ∧ dg_broker_room_id g = dg_broker_room_id g' ∧
  dg_device_id g = dg_device_id g' ∧ dg_refresh_token_hash g = dg_refresh_token_hash g' ∧
  dg_superseded g = dg_superseded g'.
Proof using Type. unfold unseen, set_field. cbn. intros [=]. done. Qed.

Lemma wf_seen s s' : store_wf s → same_store s s' → store_wf s'.
Proof using Type.
  intros [W1 W2 W3 W4 W5 W6 W7 W8] Hs. pose proof Hs as (A & B & C & _).
  rewrite A in W1, W2. rewrite B in W3, W4. rewrite C in W8. constructor; eauto.
  - intros h g Hg. destruct (same_grant _ _ _ _ Hs Hg) as (g0 & H0 & (_&_&_&<-&<-)%unseen_fields). eauto.
  - intros h h' g g' Hg Hg'. destruct (same_grant _ _ _ _ Hs Hg) as (g0 & H0 & (<-&_&<-&_&_)%unseen_fields).
    destruct (same_grant _ _ _ _ Hs Hg') as (g1 & H1 & (<-&_&<-&_&_)%unseen_fields). eauto.
  - intros h h' g g' t Hg Hg'. unfold grant_tokens.
    destruct (same_grant _ _ _ _ Hs Hg) as (g0 & H0 & (_&_&_&<-&<-)%unseen_fields).
    destruct (same_grant _ _ _ _ Hs Hg') as (g1 & H1 & (_&_&_&<-&<-)%unseen_fields). eauto.
Qed.

(** ** The effects on each table *)
Lemma wf_relays s m :
  store_wf s →
  (∀ h r, m !! h = Some r → rr_refresh_token_hash r = h) →
  (∀ h h' r r' k, m !! h = Some r → m !! h' = Some r' →
     rr_relay_verify_key r = Some k → rr_relay_verify_key r' = Some k → h = h') →
  store_wf (s <| cs_relays := m |>).
Proof using Type. intros [] ? ?. by constructor. Qed.

Lemma wf_relays_removed s f : store_wf s → store_wf (s <| cs_relays := (remove_matching_entries f (cs_relays s)).1 |>).
Proof using Type.
  intros W. apply wf_relays; [done|..].
  - intros h r [Hr _]%kept_lookup. by eapply wf_relay.
  - intros h h' r r' k [Hr _]%kept_lookup [Hr' _]%kept_lookup. by eapply wf_relay_key.
Qed.

Lemma wf_relays_insert s r :
  store_wf s →
  (∀ h r' k, cs_relays s !! h = Some r' → rr_relay_verify_key r = Some k → rr_relay_verify_key r' ≠ Some k) →
  store_wf (s <| cs_relays ::= <[rr_refresh_token_hash r := r]> |>).
Proof using Type.
  intros W Hk. apply wf_relays; [done|..].
  - intros h r'. rewrite lookup_insert_Some. intros [[<- <-]|[_ Hr]]; [done|]. by eapply wf_relay.
  - intros h h' r1 r2 k. rewrite !lookup_insert_Some.
    intros [[<- <-]|[_ H1]] [[<- <-]|[_ H2]] E1 E2; [done|by destruct (Hk _ _ _ H2 E1)|by destruct (Hk _ _ _ H1 E2)|].
    by eapply wf_relay_key.
Qed.

Lemma wf_register s r :
  store_wf s →
  store_wf (match rr_relay_verify_key r with
            | Some vk => (remove_relay_registration_by_verify_key vk s).1
            | None => s
            end <| cs_relays ::= <[rr_refresh_token_hash r := r]> |>).
Proof using Type.
  intros W. destruct (rr_relay_verify_key r) as [vk|] eqn:E.
  - apply wf_relays_insert.
    + unfold remove_relay_registration_by_verify_key.
      pose proof (wf_relays_removed s (has_verify_key vk) W) as Hw. by destruct (remove_matching_entries _ _).
    + intros h r' k. rewrite E. unfold remove_relay_registration_by_verify_key. intros Hr [= <-] Ek.
      destruct (remove_matching_entries (has_verify_key vk) (cs_relays s)) as [m n] eqn:Em. cbn in Hr.
      assert (m = (remove_matching_entries (has_verify_key vk) (cs_relays s)).1) as -> by by rewrite Em.
      apply kept_lookup in Hr as [_ Hr]. unfold has_verify_key in Hr. by rewrite bool_decide_eq_true_2 in Hr.
  - apply wf_relays_insert; [done|]. intros. congruence.
Qed.

Lemma wf_clients s m :
  store_wf s →
  (∀ h c, m !! h = Some c → ci_refresh_token_hash c = h ∧
     ci_client_id c = issue_client_id (ci_client_verify_key c) ∧
     (length (ci_superseded c) ≤ MAX_SUPERSEDED_TOKENS)%nat) →
  (∀ h h' c c', m !! h = Some c → m !! h' = Some c' →
     ci_client_verify_key c = ci_client_verify_key c' → h = h') →
  store_wf (s <| cs_clients := m |>).
Proof using Type. intros [] ? ?. by constructor. Qed.

Lemma wf_clients_removed s f : store_wf s → store_wf (s <| cs_clients := (remove_matching_entries f (cs_clients s)).1 |>).
Proof using Type.
  intros W. apply wf_clients; [done|..].
  - intros h c [Hc _]%kept_lookup. by eapply wf_client.
  - intros h h' c c' [Hc _]%kept_lookup [Hc' _]%kept_lookup. by eapply wf_client_key.
Qed.

(** The new row of an identity whose other rows are gone. *)
Lemma wf_clients_insert s c :
  store_wf s → ci_client_id c = issue_client_id (ci_client_verify_key c) →
  (length (ci_superseded c) ≤ MAX_SUPERSEDED_TOKENS)%nat →
  (∀ h c', cs_clients s !! h = Some c' → ci_client_verify_key c' ≠ ci_client_verify_key c) →
  store_wf (s <| cs_clients ::= <[ci_refresh_token_hash c := c]> |>).
Proof using Type.
  intros W Hid Hlen Hk. apply wf_clients; [done|..].
  - intros h c'. rewrite lookup_insert_Some. intros [[<- <-]|[_ Hc]]; [done|]. by eapply wf_client.
  - intros h h' c1 c2. rewrite !lookup_insert_Some.
    intros [[<- <-]|[_ H1]] [[<- <-]|[_ H2]] E; [done|by destruct (Hk _ _ H2)|by destruct (Hk _ _ H1)|].
    by eapply wf_client_key.
Qed.

Lemma removed_client_keys s cid h c k :
  store_wf s → cid = issue_client_id k →
  cs_clients (remove_client_identity_by_client_id cid s).1 !! h = Some c → ci_client_verify_key c ≠ k.
Proof using Type.
  intros W -> Hc <-. unfold remove_client_identity_by_client_id in Hc.
  destruct (remove_matching_entries _ (cs_clients s)) as [m n] eqn:Em. cbn in Hc.
  assert (m = (remove_matching_entries (λ c0, bool_decide (ci_client_id c0 = issue_client_id (ci_client_verify_key c))) (cs_clients s)).1)
    as -> by by rewrite Em.
  apply kept_lookup in Hc as [Hc Hf]. destruct (wf_client _ W _ _ Hc) as (_ & E & _).
  by rewrite bool_decide_eq_true_2 in Hf.
Qed.

Lemma wf_remove_client s cid : store_wf s → store_wf (remove_client_identity_by_client_id cid s).1.
Proof using Type.
  intros W. unfold remove_client_identity_by_client_id.
  pose proof (wf_clients_removed s (λ c, bool_decide (ci_client_id c = cid)) W) as Hw.
  by destruct (remove_matching_entries _ _).
Qed.

Lemma existing_client key s c :
  client_identity_for_verify_key key s = Some c → ci_client_verify_key c = key ∧ ∃ h, cs_clients s !! h = Some c.
Proof using Type.
  unfold client_identity_for_verify_key. intros ([i c'] & Hf & ->)%fmap_Some.
  apply list_find_Some in Hf as (Hi & Hk & _). split; [done|]. by apply values_elem, (list_elem_of_lookup_2 _ i).
Qed.

Lemma no_client key s : client_identity_for_verify_key key s = None →
  ∀ h c, cs_clients s !! h = Some c → ci_client_verify_key c ≠ key.
Proof using Type.
  unfold client_identity_for_verify_key. rewrite fmap_None, list_find_None, Forall_forall.
  intros Hf h c Hc. apply Hf, values_elem. eauto.
Qed.

Lemma wf_issue_client rnd key lbl now grace s :
  store_wf s → store_wf (issue_or_rotate_client_identity rnd key lbl now grace s).1.
Proof using Type.
  intros W. unfold issue_or_rotate_client_identity.
  destruct (client_identity_for_verify_key key s) as [c|] eqn:E; cbn.
  - apply existing_client in E as (Hk & h & Hc). destruct (wf_client _ W _ _ Hc) as (_ & Hid & _). rewrite Hk in Hid.
    apply (wf_clients_insert _ (MkClient _ _ _ _ _ _)); [by apply wf_remove_client|done|apply carry_length|].
    intros h' c'. by apply removed_client_keys.
  - apply (wf_clients_insert _ (MkClient _ _ _ _ _ _)); [done|done|cbn; lia|]. intros h' c'. by apply no_client.
Qed.

Lemma rotation_length l now grace acc :
  (length acc ≤ MAX_SUPERSEDED_TOKENS)%nat →
  (length (foldl (λ acc (r : PersistedClientIdentity),
     carry_superseded (ci_superseded r ++ acc)%list (ci_refresh_token_hash r) now grace) acc l)
   ≤ MAX_SUPERSEDED_TOKENS)%nat.
Proof using Type. revert acc. induction l as [|r l IH]; intros acc Hacc; [done|]. cbn. apply IH, carry_length. Qed.

Lemma wf_rotate rnd client now grace s :
  store_wf s → ci_client_id client = issue_client_id (ci_client_verify_key client) →
  store_wf (rotate_client_identity rnd client now grace s).1.
Proof using Type.
  intros W Hid. unfold rotate_client_identity. cbn.
  apply (wf_clients_insert _ (MkClient _ _ _ _ _ _)); [by apply wf_remove_client|done| |].
  - apply rotation_length. cbn. lia.
  - intros h' c'. by apply removed_client_keys.
Qed.

Lemma wf_slid_client h th now grace s : store_wf s → store_wf (slid_client h th now grace s).
Proof using Type.
  intros W. unfold slid_client. set (f := λ c : PersistedClientIdentity, _).
  assert (∀ k c, alter f h (cs_clients s) !! k = Some c → ∃ c0, cs_clients s !! k = Some c0 ∧
    ci_refresh_token_hash c = ci_refresh_token_hash c0 ∧ ci_client_id c = ci_client_id c0 ∧
    ci_client_verify_key c = ci_client_verify_key c0 ∧ length (ci_superseded c) = length (ci_superseded c0)) as Hf.
  { intros k c. destruct (decide (h = k)) as [<-|]; [|rewrite lookup_alter_ne by done; eauto 10].
    rewrite lookup_alter_eq, fmap_Some. intros (c0 & H0 & ->). exists c0. split_and!; try done. cbn.
    rewrite <- (length_map su_refresh_token_hash), <- (length_map su_refresh_token_hash (ci_superseded c0)).
    f_equal. apply bump_hashes. }
  apply wf_clients; [done|..].
  - intros k c (c0 & H0 & -> & -> & -> & ->)%Hf. by eapply wf_client.
  - intros k k' c c' (c0 & H0 & _ & _ & -> & _)%Hf (c1 & H1 & _ & _ & -> & _)%Hf. by eapply wf_client_key.
Qed.

Lemma wf_grants s m :
  store_wf s →
  (∀ h g, m !! h = Some g → dg_refresh_token_hash g = h ∧ (length (dg_superseded g) ≤ MAX_SUPERSEDED_TOKENS)%nat) →
  (∀ h h' g g', m !! h = Some g → m !! h' = Some g' →
     dg_relay_id g = dg_relay_id g' → dg_device_id g = dg_device_id g' → h = h') →
  (∀ h h' g g' t, m !! h = Some g → m !! h' = Some g' → t ∈ grant_tokens g → t ∈ grant_tokens g' → h = h') →
  store_wf (s <| cs_grants := m |>).
Proof using Type. intros [] ? ? ?. by constructor. Qed.

Lemma wf_grants_kept s m :
  store_wf s → (∀ h g, m !! h = Some g → cs_grants s !! h = Some g) → store_wf (s <| cs_grants := m |>).
Proof using Type.
  intros W Hm. apply wf_grants; [done|..].
  - intros h g Hg%Hm. by eapply wf_grant.
  - intros h h' g g' Hg%Hm Hg'%Hm. by eapply wf_grant_device.
  - intros h h' g g' t Hg%Hm Hg'%Hm. by eapply wf_grant_tokens.
Qed.

Lemma wf_client_grants_kept s m :
  store_wf s → (∀ k g, m !! k = Some g → cs_client_grants s !! k = Some g) → store_wf (s <| cs_client_grants := m |>).
Proof using Type. intros [] Hm. constructor; eauto. Qed.

Lemma removed_grant relay room device s h g :
  cs_grants (remove_device_grants relay room device s).1 !! h = Some g ↔
  cs_grants s !! h = Some g ∧ matches_optional_relay_target (dg_relay_id g) (dg_broker_room_id g)
    (dg_device_id g) relay room device = false.
Proof using Type.
  unfold remove_device_grants. set (f := λ g : PersistedDeviceGrant, _).
  pose proof (kept_lookup f (cs_grants s) h g) as Hk. by destruct (remove_matching_entries f _).
Qed.

Lemma remove_device_grants_eq relay room device s :
  (remove_device_grants relay room device s).1 = s <| cs_grants := cs_grants (remove_device_grants relay room device s).1 |>.
Proof using Type. unfold remove_device_grants. by destruct (remove_matching_entries _ _). Qed.

Lemma wf_remove_grants relay room device s :
  store_wf s → store_wf (remove_device_grants relay room device s).1.
Proof using Type.
  intros W. rewrite remove_device_grants_eq. apply wf_grants_kept; [done|]. by intros h g [Hg _]%removed_grant.
Qed.

Lemma wf_remove_client_grants relay room device s :
  store_wf s → store_wf (remove_client_relay_grants relay room device s).1.
Proof using Type.
  intros W. unfold remove_client_relay_grants. set (f := λ g : PersistedClientRelayGrant, _).
  pose proof (wf_client_grants_kept s (remove_matching_entries f (cs_client_grants s)).1 W) as Hw.
  specialize (Hw ltac:(by intros k g [Hg _]%kept_lookup)). by destruct (remove_matching_entries f _).
Qed.

Lemma wf_remove_client_grants_by_id cid s :
  store_wf s → store_wf (remove_client_relay_grants_by_client_id cid s).1.
Proof using Type.
  intros W. unfold remove_client_relay_grants_by_client_id. set (f := λ g : PersistedClientRelayGrant, _).
  pose proof (wf_client_grants_kept s (remove_matching_entries f (cs_client_grants s)).1 W) as Hw.
  specialize (Hw ltac:(by intros k g [Hg _]%kept_lookup)). by destruct (remove_matching_entries f _).
Qed.

Lemma wf_remove_others relay room keep s :
  store_wf s →
  store_wf (remove_all_other_client_relay_grants relay room keep (remove_all_other_device_grants relay room keep s).1).1.
Proof using Type.
  intros W. unfold remove_all_other_device_grants. set (f := λ g : PersistedDeviceGrant, _).
  pose proof (wf_grants_kept s (collect_removed_device_ids dg_device_id f (cs_grants s)).1 W) as W1.
  specialize (W1 ltac:(by intros h g [Hg _]%collect_lookup)).
  destruct (collect_removed_device_ids dg_device_id f _) as [m ids]. cbn [fst] in *.
  unfold remove_all_other_client_relay_grants. set (f' := λ g : PersistedClientRelayGrant, _).
  pose proof (wf_client_grants_kept _ (collect_removed_device_ids cg_device_id f' (cs_client_grants s)).1 W1) as W2.
  specialize (W2 ltac:(by intros k g [Hg _]%collect_lookup)).
  cbn -[collect_removed_device_ids]. by destruct (collect_removed_device_ids cg_device_id f' _).
Qed.

Lemma wf_slid_grant h th now grace s : store_wf s → store_wf (slid_grant h th now grace s).
Proof using Type.
  intros W. unfold slid_grant. set (f := λ g : PersistedDeviceGrant, _).
  assert (∀ k g, alter f h (cs_grants s) !! k = Some g → ∃ g0, cs_grants s !! k = Some g0 ∧
    dg_refresh_token_hash g = dg_refresh_token_hash g0 ∧ dg_relay_id g = dg_relay_id g0 ∧
    dg_device_id g = dg_device_id g0 ∧ length (dg_superseded g) = length (dg_superseded g0) ∧
    grant_tokens g = grant_tokens g0) as Hf.
  { intros k g. destruct (decide (h = k)) as [<-|]; [|rewrite lookup_alter_ne by done; eauto 10].
    rewrite lookup_alter_eq, fmap_Some. intros (g0 & H0 & ->). exists g0.
    pose proof (bump_hashes (dg_superseded g0) th now grace) as Hb. split_and!; try done; cbn.
    - rewrite <- (length_map su_refresh_token_hash), <- (length_map su_refresh_token_hash (dg_superseded g0)).
      f_equal. exact Hb.
    - unfold grant_tokens. f_equal. exact Hb. }
  apply wf_grants; [done|..].
  - intros k g (g0 & H0 & -> & _ & _ & -> & _)%Hf. by eapply wf_grant.
  - intros k k' g g' (g0 & H0 & _ & -> & -> & _)%Hf (g1 & H1 & _ & -> & -> & _)%Hf. by eapply wf_grant_device.
  - intros k k' g g' t (g0 & H0 & _ & _ & _ & _ & ->)%Hf (g1 & H1 & _ & _ & _ & _ & ->)%Hf. by eapply wf_grant_tokens.
Qed.

(** The hash of a new token belongs to no other row. *)
Definition fresh_for (hash : string) (s : PublicControlStateStore) : Prop :=
  ∀ h g, cs_grants s !! h = Some g → hash ∈ grant_tokens g → h = hash.

Lemma superseded_by_tokens relay device now grace s t :
  t ∈ hashes (superseded_by relay device now grace s) →
  ∃ h g, cs_grants s !! h = Some g ∧ dg_relay_id g = relay ∧ dg_device_id g = device ∧ t ∈ grant_tokens g.
Proof using Type.
  unfold superseded_by. destruct (list_find _ _) as [[i g]|] eqn:E; [|intros Ht; by apply not_elem_of_nil in Ht].
  apply list_find_Some in E as (Hi & Hg & _). intros Ht%carry_hashes.
  unfold is_grant_of in Hg. apply andb_true_iff in Hg as [Hr%bool_decide_eq_true Hd%bool_decide_eq_true].
  assert (g ∈ values (cs_grants s)) as [h Hh]%values_elem by by eapply list_elem_of_lookup_2.
  exists h, g. split_and!; try done. unfold grant_tokens. apply elem_of_cons. naive_solver.
Qed.

Lemma matches_device relay device r g : matches_optional_relay_target (dg_relay_id g) r (dg_device_id g) relay None (Some device) = false →
  ¬ (dg_relay_id g = relay ∧ dg_device_id g = device).
Proof using Type.
  unfold matches_optional_relay_target. intros Hm [<- <-]. rewrite !bool_decide_eq_true_2 in Hm by done. done.
Qed.

Lemma wf_grant_effect r hash device now grace s :
  store_wf s → fresh_for hash s →
  store_wf ((remove_device_grants (rr_relay_id r) None (Some device) s).1 <| cs_grants ::=
    <[hash := MkGrant (rr_relay_id r) (rr_broker_room_id r) device hash now (Some now)
        (superseded_by (rr_relay_id r) device now grace s)]> |>).
Proof using Type.
  intros W Hf. set (g := MkGrant _ _ _ _ _ _ _).
  pose proof (wf_remove_grants (rr_relay_id r) None (Some device) s W) as W1.
  assert (∀ h g', cs_grants (remove_device_grants (rr_relay_id r) None (Some device) s).1 !! h = Some g' →
    cs_grants s !! h = Some g' ∧ ¬ (dg_relay_id g' = rr_relay_id r ∧ dg_device_id g' = device)) as Hkept.
  { intros h g' [Hg Hm%matches_device]%removed_grant. done. }
  assert (∀ h g' t, h ≠ hash → cs_grants (remove_device_grants (rr_relay_id r) None (Some device) s).1 !! h = Some g' →
    t ∈ grant_tokens g → t ∈ grant_tokens g' → False) as Hdis.
  { intros h g' t Hne [Hg Hn]%Hkept [->|Ht]%elem_of_cons Ht'.
    - by apply Hne, (Hf _ _ Hg).
    - apply superseded_by_tokens in Ht as (h0 & g0 & H0 & E1 & E2 & Ht0).
      pose proof (wf_grant_tokens _ W _ _ _ _ _ H0 Hg Ht0 Ht'). subst h0. naive_solver. }
  apply (wf_grants _ (<[hash := g]> _) W1).
  - intros h g'. rewrite lookup_insert_Some. intros [[<- <-]|[_ Hg]]; [|by eapply wf_grant].
    split; [done|]. cbn. unfold superseded_by. case_match; [|cbn; lia]. case_match. apply carry_length.
  - intros h h' g1 g2. rewrite !lookup_insert_Some.
    intros [[<- <-]|[_ H1]] [[<- <-]|[_ H2]] E1 E2; [done|exfalso..|by eapply wf_grant_device].
    + destruct (Hkept _ _ H2) as [_ Hn]. apply Hn. cbn in *. auto.
    + destruct (Hkept _ _ H1) as [_ Hn]. apply Hn. cbn in *. auto.
  - intros h h' g1 g2 t. rewrite !lookup_insert_Some.
    intros [[<- <-]|[N1 H1]] [[<- <-]|[N2 H2]] E1 E2; [done|exfalso..|by eapply wf_grant_tokens].
    + by eapply (Hdis h' g2 t).
    + by eapply (Hdis h g1 t).
Qed.

(** ** Runs *)
Definition stores (p : PublicControlPlaneInner) : list PublicControlStateStore :=
  cp_state p :: match cp_persistence p with
                | InMemory => []
                | JsonFile file => [file]
                | Postgres _ _ last db => [last; db]
                end.

Lemma holds_weaken (I J : PublicControlStateStore → Prop) p :
  holds I p → (∀ s, s ∈ stores p → J s) → holds J p.
Proof using Type.
  intros [_ Hb] HJ. unfold stores in HJ. split; [apply HJ; set_solver|].
  destruct (cp_persistence p); cbn in *; [done|apply HJ; set_solver|].
  split_and!; [apply HJ; set_solver..|]. by destruct Hb as (_&_&?).
Qed.

Lemma holds_stores I p s : holds I p → s ∈ stores p → I s.
Proof using Type.
  intros [Hi Hb] Hs. unfold stores in Hs. destruct (cp_persistence p); cbn in *; set_solver.
Qed.

(** What a step assumes of the values another step handed it: a client that was
    authenticated, and a random token whose hash is new. *)
Definition op_ok (p : PublicControlPlaneInner) (op : CtlOp) : Prop :=
  match op with
  | OGrant _ _ tok _ _ _ => ∀ s, s ∈ stores p → fresh_for (sha256_hex tok) s
  | ORotate _ _ client _ => ci_client_id client = issue_client_id (ci_client_verify_key client)
  | _ => True
  end.
Fixpoint run_ok (ops : list CtlOp) (p : PublicControlPlaneInner) : Prop :=
  match ops with [] => True | op :: ops => op_ok p op ∧ run_ok ops (exec op p) end.
Definition run (ops : list CtlOp) (p : PublicControlPlaneInner) : PublicControlPlaneInner :=
  foldl (λ p op, exec op p) p ops.

Lemma fresh_seen hash s s' : fresh_for hash s → same_store s s' → fresh_for hash s'.
Proof using Type.
  intros Hf Hs h g Hg. destruct (same_grant _ _ _ _ Hs Hg) as (g0 & H0 & (_&_&_&E1&E2)%unseen_fields).
  unfold grant_tokens. rewrite <- E1, <- E2. by apply (Hf h g0).
Qed.

Definition is_grant (op : CtlOp) : bool := match op with OGrant _ _ _ _ _ _ => true | _ => false end.

Lemma effect_wf p op s s' : effect p op s s' → is_grant op = false →
  op_ok p op → store_wf s → store_wf s'.
Proof using Type.
  destruct 1; intros Hop Hok W; try done; eauto using wf_slid_client, wf_slid_grant, wf_rotate.
  - by apply (wf_register s (MkRelay _ _ _ _ _ (Some key'))).
  - apply wf_relays; [done|..].
    + intros h r Hr%lookup_delete_Some. by eapply wf_relay; [done|apply Hr].
    + intros h h' r r' k Hr%lookup_delete_Some Hr'%lookup_delete_Some. eapply wf_relay_key; [done|apply Hr|apply Hr'].
  - by apply wf_register.
  - by apply wf_remove_client_grants, wf_remove_grants.
  - by apply wf_remove_others.
  - pose proof (wf_issue_client rnd (cl_client_verify_key c) (cl_client_label c) now (cp_rotation_grace_secs p) s W) as W1.
    destruct (issue_or_rotate_client_identity _ _ _ _ _ _) as [s1 [cid' tok]]. cbn in *.
    unfold upsert_client_relay_grant. destruct W1. constructor; eauto. cbn. intros k g.
    rewrite lookup_insert_Some. intros [[<- <-]|[_ Hg]]; [done|eauto].
  - by apply wf_remove_client_grants_by_id, wf_remove_client.
Qed.

Lemma step_wf op p : holds store_wf p → op_ok p op → holds store_wf (exec op p).
Proof using Type.
  intros Hp Hok. destruct (is_grant op) eqn:Hop.
  2:{ apply (step_holds _ wf_seen); [done|]. intros s s' W He. by eapply effect_wf. }
  destruct op as [| | | | | | | | | |io r tok device limit now| | | | | | |]; try done.
  assert (holds (λ s, store_wf s ∧ fresh_for (sha256_hex tok) s) (exec (OGrant io r tok device limit now) p)) as Hh.
  { apply step_holds.
    - intros s s' [W F] Hs. split; [by eapply wf_seen|by eapply fresh_seen].
    - eapply holds_weaken; [done|]. intros s Hs. split; [by eapply holds_stores|by apply Hok].
    - intros s s' [W F] He. inversion He; subst. split; [by apply wf_grant_effect|].
      intros h g. cbn. rewrite lookup_insert_Some. intros [[<- _]|[_ [Hg _]%removed_grant]]; [done|by apply F]. }
  eapply holds_weaken; [done|]. intros s Hs. by apply (holds_stores _ _ _ Hh Hs).
Qed.

(** C21: the store of the control plane.  Whatever the requests and their interleaving, and
    whatever saves and reloads fail, every row stays under the hash of its token, a relay
    key and a client key have one row each, a relay has one grant per device, no token is
    accepted for two devices, and at most 16 superseded tokens are kept per row; in memory
    as in the backend. *)
Theorem control_store_well_formed ops : ∀ p,
  holds store_wf p → run_ok ops p → holds store_wf (run ops p).
Proof using Type.
  induction ops as [|op ops IH]; intros p Hp; [done|]. intros [Hok Hr]. by apply IH; [apply step_wf|].
Qed.

(** ** Clients *)
Definition grant_row (p : PublicControlPlaneInner) (g : PersistedClientRelayGrant) : Prop :=
  ∃ s k, s ∈ stores p ∧ cs_client_grants s !! k = Some g.
Definition identity_row (p : PublicControlPlaneInner) (c : PersistedClientIdentity) : Prop :=
  ∃ s h, s ∈ stores p ∧ cs_clients s !! h = Some c.

(** The step claims [c], which was pending, with a signature of its key over the claim, its
    nonce and its relay. *)
Definition claims (p : PublicControlPlaneInner) (op : CtlOp) (c : PendingClientClaim) : Prop :=
  ∃ io rnd cid sig now key bytes, op = OClaim io rnd cid sig now ∧
    cp_pending_client_claims p !! default "" (trimmed_string cid) = Some c ∧ now < cl_expires_at c ∧
    parse_relay_verifying_key (cl_client_verify_key c) = Some key ∧
    decode_base64_array 64 (default "" (trimmed_string sig)) = Some bytes ∧
    ed_verify key (client_claim_message (default "" (trimmed_string cid)) (cl_nonce c) (cl_relay_id c)) bytes = true.

Lemma claims_intro p io rnd cid sig now c :
  cp_pending_client_claims p !! default "" (trimmed_string cid) = Some c → now < cl_expires_at c →
  verify_client_claim_signature (cl_client_verify_key c) (default "" (trimmed_string cid)) (cl_nonce c)
    (cl_relay_id c) (default "" (trimmed_string sig)) = Ok () →
  claims p (OClaim io rnd cid sig now) c.
Proof using Type.
  unfold verify_client_claim_signature. intros Hc Hx Hv.
  destruct (decode_base64_array 64 _) as [bytes|] eqn:Eb; [|done].
  destruct (parse_relay_verifying_key _) as [key|] eqn:Ek; [|done].
  destruct (ed_verify _ _ _) eqn:Ee; [|done]. by exists io, rnd, cid, sig, now, key, bytes.
Qed.

(** The rows of clients a store may have after the step. *)
Definition clients_from (p : PublicControlPlaneInner) (op : CtlOp) (s : PublicControlStateStore) : Prop :=
  (∀ h c, cs_clients s !! h = Some c → ci_client_id c = issue_client_id (ci_client_verify_key c) ∧
     ((∃ c0, identity_row p c0 ∧ ci_client_verify_key c0 = ci_client_verify_key c) ∨
      (∃ cl, claims p op cl ∧ cl_client_verify_key cl = ci_client_verify_key c) ∨
      ∃ io rnd client now, op = ORotate io rnd client now ∧
        ci_client_verify_key client = ci_client_verify_key c)) ∧
  (∀ k g, cs_client_grants s !! k = Some g → grant_row p g ∨
     ∃ cl, claims p op cl ∧ cg_relay_id g = cl_relay_id cl ∧ cg_broker_room_id g = cl_broker_room_id cl ∧
       cg_device_id g = cl_device_id cl ∧ cg_client_id g = issue_client_id (cl_client_verify_key cl)).

Lemma clients_from_claim p rnd now grace s c op :
  claims p op c → clients_from p op s →
  clients_from p op
    (let '(s1, (client_id, _)) := issue_or_rotate_client_identity rnd (cl_client_verify_key c) (cl_client_label c) now grace s in
     upsert_client_relay_grant (MkClientGrant client_id (cl_relay_id c) (cl_broker_room_id c)
       (cl_device_id c) now (cl_relay_label c) (cl_device_label c)) s1).
Proof using Type.
  intros Hc [H1 H2]. unfold issue_or_rotate_client_identity.
  destruct (client_identity_for_verify_key _ s) as [c0|] eqn:E; cbn.
  - apply existing_client in E as (Hk & h0 & Hc0). destruct (H1 _ _ Hc0) as [Hid _]. rewrite Hk in Hid.
    split.
    + intros h c'. cbn. rewrite lookup_insert_Some. intros [[<- <-]|[_ Hc']].
      * cbn. split; [done|]. right. left. by exists c.
      * apply H1 with h. by apply map_lookup_filter_Some in Hc' as [Hc' _].
    + intros k g. cbn. rewrite lookup_insert_Some. intros [[_ <-]|[_ Hg]]; [right; exists c; by split_and!|].
      by apply H2 with k.
  - split.
    + intros h c'. cbn. rewrite lookup_insert_Some. intros [[<- <-]|[_ Hc']]; [|by eapply H1].
      cbn. split; [done|]. right. left. by exists c.
    + intros k g. cbn. rewrite lookup_insert_Some. intros [[_ <-]|[_ Hg]]; [right; exists c; by split_and!|by eapply H2].
Qed.

(** Fewer rows, or the same rows with other superseded tokens. *)
Lemma clients_from_fewer p op s s' :
  clients_from p op s →
  (∀ h c, cs_clients s' !! h = Some c → ∃ c0, cs_clients s !! h = Some c0 ∧
     ci_client_id c = ci_client_id c0 ∧ ci_client_verify_key c = ci_client_verify_key c0) →
  (∀ k g, cs_client_grants s' !! k = Some g → cs_client_grants s !! k = Some g) →
  clients_from p op s'.
Proof using Type.
  intros [H1 H2] Hc Hg. split; [|by eauto].
  intros h c (c0 & H0 & -> & ->)%Hc. by eapply H1.
Qed.

Lemma effect_clients_from p op s s' :
  op_ok p op → effect p op s s' → clients_from p op s → clients_from p op s'.
Proof using Type.
  intros Hok He Hs. destruct He; try (apply (clients_from_fewer _ _ s); [done|by eauto|done]).
  - apply (clients_from_fewer _ _ s); [done| |done]. intros k c. cbn.
    destruct (decide (h = k)) as [<-|]; [|rewrite lookup_alter_ne by done; eauto].
    rewrite lookup_alter_eq, fmap_Some. intros (c0 & H0 & ->). eauto.
  - apply (clients_from_fewer _ _ s); [done|..]; destruct (rr_relay_verify_key r); cbn; by eauto.
  - apply (clients_from_fewer _ _ s); [done|by eauto|]. intros k g. cbn. by intros [? _]%map_lookup_filter_Some.
  - apply (clients_from_fewer _ _ s); [done|by eauto|]. intros k g. cbn. by intros [? _]%map_lookup_filter_Some.
  - by apply clients_from_claim; [apply claims_intro|].
  - destruct Hs as [H1 H2]. split; [|done]. intros h c. cbn. rewrite lookup_insert_Some.
    intros [[_ <-]|[_ [Hc _]%map_lookup_filter_Some]]; [|by eapply H1]. cbn. split; [done|]. eauto 10.
  - apply (clients_from_fewer _ _ s); [done|..]; intros k x; cbn; intros [? _]%map_lookup_filter_Some; eauto.
Qed.

(** One step: a row of a directory, and the key of an identity, were there before, or the step
    claims them; or it rotates the token of a client it was handed. *)
Lemma step_client_credentials op p :
  holds store_wf p → op_ok p op →
  (∀ g, grant_row (exec op p) g → grant_row p g ∨
     ∃ cl, claims p op cl ∧ cg_relay_id g = cl_relay_id cl ∧ cg_broker_room_id g = cl_broker_room_id cl ∧
       cg_device_id g = cl_device_id cl ∧ cg_client_id g = issue_client_id (cl_client_verify_key cl)) ∧
  (∀ c, identity_row (exec op p) c → ci_client_id c = issue_client_id (ci_client_verify_key c) ∧
     ((∃ c0, identity_row p c0 ∧ ci_client_verify_key c0 = ci_client_verify_key c) ∨
      (∃ cl, claims p op cl ∧ cl_client_verify_key cl = ci_client_verify_key c) ∨
      ∃ io rnd client now, op = ORotate io rnd client now ∧
        ci_client_verify_key client = ci_client_verify_key c)).
Proof using Type.
  intros Hp Hok. assert (holds (clients_from p op) (exec op p)) as Hh.
  { apply step_holds.
    - intros s s' [H1 H2] (_ & E1 & E2 & _). rewrite E1 in H1. rewrite E2 in H2. done.
    - eapply holds_weaken; [done|]. intros s Hs. split.
      + intros h c Hc. split; [by eapply wf_client; [eapply holds_stores|]|]. left. exists c. split; [|done].
        by exists s, h.
      + intros k g Hg. left. by exists s, k.
    - intros s s' Hs He. by eapply effect_clients_from. }
  split; [intros g (s & k & Hs & Hg)|intros c (s & k & Hs & Hg)];
    apply (holds_stores _ _ _ Hh) in Hs; by eapply Hs.
Qed.

(** A client that is handed out by its token has a row with that key. *)
Lemma authenticated_row io bearer now p c :
  holds store_wf p → (authenticate_client io bearer now p).1 = Ok c →
  ∃ c0, identity_row p c0 ∧ ci_client_verify_key c0 = ci_client_verify_key c.
Proof using Type.
  intros Hp. set (J := λ s, ∀ h c', cs_clients s !! h = Some c' →
    ∃ c0, identity_row p c0 ∧ ci_client_verify_key c0 = ci_client_verify_key c').
  assert (holds J p) as HJ.
  { eapply holds_weaken; [done|]. intros s Hs h c' Hc. exists c'. split; [|done]. by exists s, h. }
  unfold authenticate_client, bind at 1. destruct (lock_spec J io p HJ) as (_ & _ & Hl).
  destruct (lock_state io p) as [[[]|e] p1]; [|done]. specialize (Hl eq_refl). cbn in Hl.
  unfold bind at 1. pose proof (find_or_reload_spec J io
    (λ s, find_client_identity_for_token s (sha256_hex (trim bearer)) now) p1 Hl) as Hf.
  destruct (find_or_reload _ _ p1) as [[[[h c1]|]|e] p2]; [|done..]. destruct Hf as ([[Hi _] _] & _ & Hf).
  specialize (Hf _ eq_refl). unfold bind at 1, ok_or_throw, ret at 1. unfold bind.
  destruct (decide _); [|destruct (slide_client _ _ _ _ p2) as [[u|e] p3]; [|done]]; intros [= <-];
    (apply (Hi h); unfold find_client_identity_for_token, find_for_token in Hf;
     destruct (cs_clients (cp_state p2) !! sha256_hex (trim bearer)) as [g1|] eqn:E; [by simplify_eq|];
     apply fmap_Some in Hf as ([i kr] & Hf & [= <-]); apply list_find_Some in Hf as (Hi' & _ & _);
     by apply elem_of_map_to_list, (list_elem_of_lookup_2 _ i)).
Qed.

(** The clients handed out so far, after one more step. *)
Definition handed_out (op : CtlOp) (p : PublicControlPlaneInner) (seen : list PersistedClientIdentity) :
    list PersistedClientIdentity :=
  match op with
  | OAuthClient io bearer now =>
      match (authenticate_client io bearer now p).1 with Ok c => c :: seen | Err _ => seen end
  | _ => seen
  end.
(** Tokens are rotated only for clients that an earlier step of the run let in by their token. *)
Fixpoint rotations_authenticated (seen : list PersistedClientIdentity) (ops : list CtlOp)
    (p : PublicControlPlaneInner) : Prop :=
  match ops with
  | [] => True
  | op :: ops =>
      match op with ORotate _ _ client _ => client ∈ seen | _ => True end ∧
      rotations_authenticated (handed_out op p seen) ops (exec op p)
  end.
(** Some step of the run claims [cl]. *)
Definition claimed (ops : list CtlOp) (p : PublicControlPlaneInner) (cl : PendingClientClaim) : Prop :=
  ∃ before op after, ops = (before ++ op :: after)%list ∧ claims (run before p) op cl.
Lemma claimed_first op ops p cl : claims p op cl → claimed (op :: ops) p cl.
Proof using Type. intros Hc. by exists [], op, ops. Qed.
Lemma claimed_later op ops p cl : claimed ops (exec op p) cl → claimed (op :: ops) p cl.
Proof using Type. intros (before & o & after & -> & Hc). by exists (op :: before), o, after. Qed.

(** [known] are keys that had a row at some time before. *)
Lemma run_client_credentials ops : ∀ p seen (known : string → Prop),
  holds store_wf p → run_ok ops p → rotations_authenticated seen ops p →
  (∀ c, c ∈ seen → known (ci_client_verify_key c)) →
  (∀ g, grant_row (run ops p) g → grant_row p g ∨
     ∃ cl, claimed ops p cl ∧ cg_relay_id g = cl_relay_id cl ∧ cg_broker_room_id g = cl_broker_room_id cl ∧
       cg_device_id g = cl_device_id cl ∧ cg_client_id g = issue_client_id (cl_client_verify_key cl)) ∧
  (∀ c, identity_row (run ops p) c → ci_client_id c = issue_client_id (ci_client_verify_key c) ∧
     ((∃ c0, identity_row p c0 ∧ ci_client_verify_key c0 = ci_client_verify_key c) ∨
      known (ci_client_verify_key c) ∨
      (∃ cl, claimed ops p cl ∧ cl_client_verify_key cl = ci_client_verify_key c))).
Proof using Type.
  induction ops as [|op ops IH]; intros p seen known Hp Hok Hrot Hseen.
  { split; [by left|]. intros c Hc. split; [|left; by exists c]. destruct Hc as (s & h & Hs & Hc).
    eapply wf_client; [by eapply holds_stores|done]. }
  destruct Hok as [Hop Hok], Hrot as [Hr Hrot].
  destruct (step_client_credentials op p Hp Hop) as [Sg Sc].
  set (known' := λ k, known k ∨ ∃ c0, identity_row p c0 ∧ ci_client_verify_key c0 = k).
  destruct (IH (exec op p) (handed_out op p seen) known') as [Rg Rc]; [by apply step_wf|done..| |].
  { intros c Hc. unfold handed_out in Hc.
    destruct op; try (left; by apply Hseen); [].
    destruct (authenticate_client _ _ _ p) as [[c1|e] p1] eqn:E; cbn in Hc; [|left; by apply Hseen].
    apply elem_of_cons in Hc as [->|Hc]; [right|left; by apply Hseen].
    eapply authenticated_row; [done|]. by rewrite E. }
  split.
  - intros g [Hg|(cl & Hc & Hf)]%Rg; [|right; exists cl; split; [by apply claimed_later|done]].
    destruct (Sg g Hg) as [|(cl & Hc & Hf)]; [by left|right; exists cl; split; [by apply claimed_first|done]].
  - intros c (Hid & Hc)%Rc. split; [done|]. destruct Hc as [(c0 & Hc0 & E)|[[Hk|Hk]|(cl & Hc & E)]]; [|by auto..|].
    + rewrite <- E. destruct (Sc c0 Hc0) as [_ [Hb|[(cl & Hc & E')|(io & rnd & client & now & -> & E')]]]; [by left|..].
      * right; right. exists cl. split; [by apply claimed_first|done].
      * right; left. rewrite <- E'. by apply Hseen.
    + right; right. exists cl. split; [by apply claimed_later|done].
Qed.

(** C19: a client credential needs the client's key.  Take any run of requests, interleaved at
    their locks, with any failures of the backend, in which a token is rotated only for a
    client that an earlier step let in by its token, as the code does.  Every relay that a
    client's directory names at the end, and the key of every client identity, was there at
    the start, or some step of the run claimed a pending attestation, for that relay, room,
    device and key, with a signature of that very key over the claim, its nonce and its relay.
    No request of a relay creates either, and rotating a token keeps the key it belongs to. *)
Theorem client_credentials_need_the_key ops p :
  holds store_wf p → run_ok ops p → rotations_authenticated [] ops p →
  (∀ g, grant_row (run ops p) g → grant_row p g ∨
     ∃ cl, claimed ops p cl ∧ cg_relay_id g = cl_relay_id cl ∧ cg_broker_room_id g = cl_broker_room_id cl ∧
       cg_device_id g = cl_device_id cl ∧ cg_client_id g = issue_client_id (cl_client_verify_key cl)) ∧
  (∀ c, identity_row (run ops p) c → ci_client_id c = issue_client_id (ci_client_verify_key c) ∧
     ((∃ c0, identity_row p c0 ∧ ci_client_verify_key c0 = ci_client_verify_key c) ∨
      (∃ cl, claimed ops p cl ∧ cl_client_verify_key cl = ci_client_verify_key c))).
Proof using Type.
  intros Hp Hok Hrot. destruct (run_client_credentials ops p [] (λ _, False) Hp Hok Hrot) as [Hg Hc].
  { by intros c ?%elem_of_nil. }
  split; [done|]. intros c (Hid & [?|[[]|?]])%Hc; auto.
Qed.

(** ** Revocation *)
Definition no_grant (relay room device : string) (s : PublicControlStateStore) : Prop :=
  ∀ h g, cs_grants s !! h = Some g → ¬ (dg_relay_id g = relay ∧ dg_broker_room_id g = room ∧ dg_device_id g = device).

Definition grants_to (relay device : string) (op : CtlOp) : Prop :=
  match op with OGrant _ r _ d _ _ => rr_relay_id r = relay ∧ d = device | _ => False end.

Lemma no_grant_seen relay room device s s' : no_grant relay room device s → same_store s s' → no_grant relay room device s'.
Proof using Type.
  intros Hn Hs h g Hg. destruct (same_grant _ _ _ _ Hs Hg) as (g0 & H0 & (<-&<-&<-&_)%unseen_fields). by eapply Hn.
Qed.

Lemma no_grant_fewer relay room device s s' :
  no_grant relay room device s →
  (∀ h g, cs_grants s' !! h = Some g → ∃ g0, cs_grants s !! h = Some g0 ∧ dg_relay_id g = dg_relay_id g0 ∧
     dg_broker_room_id g = dg_broker_room_id g0 ∧ dg_device_id g = dg_device_id g0) →
  no_grant relay room device s'.
Proof using Type. intros Hn Hf h g (g0 & H0 & -> & -> & ->)%Hf. by eapply Hn. Qed.

Lemma slid_grant_fewer h th now grace s k g :
  cs_grants (slid_grant h th now grace s) !! k = Some g → ∃ g0, cs_grants s !! k = Some g0 ∧
    dg_relay_id g = dg_relay_id g0 ∧ dg_broker_room_id g = dg_broker_room_id g0 ∧ dg_device_id g = dg_device_id g0.
Proof using Type.
  unfold slid_grant. cbn. destruct (decide (h = k)) as [<-|]; [|rewrite lookup_alter_ne by done; eauto].
  rewrite lookup_alter_eq, fmap_Some. intros (g0 & H0 & ->). eauto.
Qed.

Lemma effect_no_grant relay room device p op s s' :
  ¬ grants_to relay device op → effect p op s s' → no_grant relay room device s → no_grant relay room device s'.
Proof using Type.
  intros Hop He Hn. destruct He; try done;
    try (apply (no_grant_fewer _ _ _ s); [done|]; intros h' g'; cbn; intros Hg;
         first [by eauto|by apply map_lookup_filter_Some in Hg as [Hg _]; eauto]).
  - apply (no_grant_fewer _ _ _ s); [done|apply slid_grant_fewer].
  - apply (no_grant_fewer _ _ _ s); [done|apply slid_grant_fewer].
  - apply (no_grant_fewer _ _ _ s); [done|]. destruct (rr_relay_verify_key r); cbn; by eauto.
  - intros h g. cbn. rewrite lookup_insert_Some. intros [[_ <-]|[_ [Hg _]%map_lookup_filter_Some]]; [|by eapply Hn].
    cbn. intros (E1 & _ & E2). by apply Hop.
  - unfold issue_or_rotate_client_identity. destruct (client_identity_for_verify_key _ _); cbn;
      (apply (no_grant_fewer _ _ _ s); [done|]; cbn; by eauto).
Qed.

Lemma run_no_grant relay room device ops : ∀ p,
  holds (no_grant relay room device) p → Forall (λ op, ¬ grants_to relay device op) ops →
  holds (no_grant relay room device) (run ops p).
Proof using Type.
  induction ops as [|op ops IH]; intros p Hp Hops; [done|]. apply Forall_cons in Hops as [Hop Hops].
  apply IH; [|done]. apply (step_holds _ (no_grant_seen _ _ _)); [done|].
  intros s s' Hs He. by eapply effect_no_grant.
Qed.

Lemma classify_committed a b c : classify_save_reconciliation a b c = Committed → a = c.
Proof using Type. unfold classify_save_reconciliation. by repeat case_decide. Qed.

(** A save that is reported as done was done. *)
Lemma save_ok I io p :
  (∀ s s', I s → same_store s s' → I s') → settled (cp_persistence p) → backend_holds (λ _, True) (cp_persistence p) →
  (save io p).1 = Ok () → I (cp_state p) →
  cp_state (save io p).2 = cp_state p ∧ holds I (save io p).2.
Proof using Type.
  intros I_seen Hs Hb. unfold save, holds. destruct (cp_persistence p) as [|file|rb needs last db]; cbn; [done|..].
  - by destruct (io_save io).
  - cbn in *. subst needs. destruct Hb as (_ & _ & Hsame). specialize (Hsame eq_refl).
    pose proof (save_agrees last (cp_state p) db Hsame) as Hw.
    destruct (io_save io); [cbn; intros _ Hi; split_and!; eauto|..];
      (destruct (io_reconcile io); [|done]); destruct (classify_save_reconciliation _ _ _) eqn:Ec; try done;
      apply classify_committed in Ec; rewrite ?Ec; cbn; intros _ Hi;
      split_and!; auto using same_store_refl; by rewrite Ec.
Qed.

(** A device token is accepted only for a row of the store. *)
Lemma used_token_row I io bearer room now p g :
  holds I p → (use_device_token io bearer room now p).1 = Ok g →
  ∃ s h, I s ∧ cs_grants s !! h = Some g.
Proof using Type.
  intros Hp. unfold use_device_token, bind at 1. destruct (lock_spec I io p Hp) as (_ & _ & Hl).
  destruct (lock_state io p) as [[[]|e] p1]; [|done]. specialize (Hl eq_refl). cbn in Hl.
  unfold bind at 1. pose proof (find_or_reload_spec I io
    (λ s, find_device_grant_for_token s (sha256_hex (trim bearer)) now) p1 Hl) as Hf.
  destruct (find_or_reload _ _ p1) as [[[[h g0]|]|e] p2]; [|done..]. destruct Hf as ([[Hi _] _] & _ & Hf).
  specialize (Hf _ eq_refl). unfold bind at 1, ok_or_throw, ret at 1. destruct (wrong_room room g0); [done|].
  unfold bind at 1. set (m := if decide (h = _) then _ else _). destruct (m p2) as [[[]|e] p3]; [|done].
  unfold bind. destruct (mark_last_seen io h g0 now p3) as [[[]|e] p4]; [|done]. intros [= <-].
  exists (cp_state p2), h. split; [done|]. unfold find_device_grant_for_token, find_for_token in Hf.
  destruct (cs_grants (cp_state p2) !! sha256_hex (trim bearer)) as [g1|] eqn:E; [by simplify_eq|].
  apply fmap_Some in Hf as ([i kr] & Hf & [= <-]). apply list_find_Some in Hf as (Hi' & _ & _).
  by apply elem_of_map_to_list, (list_elem_of_lookup_2 _ i).
Qed.

Lemma backend_true I p : holds I p → backend_holds (λ _, True) (cp_persistence p).
Proof using Type. intros [_ Hb]. destruct (cp_persistence p); cbn in *; [done..|]. naive_solver. Qed.

Lemma revoke_spec io r device p n p1 :
  holds store_wf p → revoke_grant io r device p = (Ok n, p1) → (0 < n)%nat →
  holds (no_grant (rr_relay_id r) (rr_broker_room_id r) device) p1.
Proof using Type.
  intros Hp. unfold revoke_grant, bind at 1. destruct (lock_spec store_wf io p Hp) as (_ & _ & Hl).
  destruct (lock_state io p) as [[[]|e] p2]; [|done]. specialize (Hl eq_refl). cbn in Hl. destruct Hl as [Hh Hset].
  unfold bind at 1, gets.
  destruct (remove_device_grants _ _ _ (cp_state p2)) as [s1 n1] eqn:E1.
  destruct (remove_client_relay_grants _ _ _ s1) as [s2 n2] eqn:E2.
  unfold bind at 1, with_store, modify. set (p3 := p2 <| cp_state ::= _ |>).
  assert (no_grant (rr_relay_id r) (rr_broker_room_id r) device (cp_state p3)) as Hn.
  { subst p3. cbn. assert (cs_grants s2 = cs_grants (remove_device_grants (rr_relay_id r) (Some (rr_broker_room_id r)) (Some device) (cp_state p2)).1) as E.
    { rewrite E1. cbn. unfold remove_client_relay_grants in E2. cbn in E2. by injection E2 as <- _. }
    intros h g. rewrite E. intros [_ Hm]%removed_grant (Er & Eo & Ed). unfold matches_optional_relay_target in Hm.
    rewrite !bool_decide_eq_true_2 in Hm by congruence. done. }
  unfold bind. set (m := if _ || _ then save io else ret ()). destruct (m p3) as [[u|e] p4] eqn:Em; [|done].
  intros [= <- <-] Hpos. subst m. apply Nat.ltb_lt in Hpos. rewrite Hpos in Em. cbn [orb] in Em.
  destruct u. destruct (save_ok (no_grant (rr_relay_id r) (rr_broker_room_id r) device) io p3) as [_ Hk].
  - intros s s'. apply no_grant_seen.
  - done.
  - exact (backend_true store_wf p2 Hh).
  - by rewrite Em.
  - done.
  - by rewrite Em in Hk.
Qed.

(** C20: revocation is final.  Once a relay has revoked the grant of a device, no token of
    that device for the relay's room, current or superseded, is accepted again, whatever
    requests follow and whatever saves and reloads fail, until the relay grants the device
    access anew. *)
Theorem revoked_grant_is_dead io r device p n p1 ops :
  holds store_wf p → revoke_grant io r device p = (Ok n, p1) → (0 < n)%nat →
  Forall (λ op, ¬ grants_to (rr_relay_id r) device op) ops →
  ∀ io' bearer room now g, (use_device_token io' bearer room now (run ops p1)).1 = Ok g →
    ¬ (dg_relay_id g = rr_relay_id r ∧ dg_broker_room_id g = rr_broker_room_id r ∧ dg_device_id g = device).
Proof using Type.
  intros Hp Hr Hn Hops io' bearer room now g Hg.
  pose proof (run_no_grant _ _ _ ops _ (revoke_spec _ _ _ _ _ _ Hp Hr Hn) Hops) as Hh.
  destruct (used_token_row _ _ _ _ _ _ _ Hh Hg) as (s & h & Hs & Hrow). by eapply Hs.
Qed.
End Control.
