(* ===== verification/ControlGrants.v ===== *)
(** * Tokens, seats and saves of the control plane

    Rotation and its grace period, the device limit, the round trip of the persisted state,
    what a save reports, and enrolment. *)

From Stdlib Require Import ZArith Lia Ascii String.
From S2P Require Import JoinTicket Prelude RustStr Json BrokerState Device WorkflowRun ControlStore ControlPlane.
From S2P Require Import ControlLemmas ControlTheorems.

Open Scope string_scope.
Open Scope Z_scope.

(** ** The persisted state *)
Lemma keyed_lookup {A} (key : A → string) l (m : gmap string A) k x :
  NoDup (map key l) →
  foldl (λ m x, <[key x := x]> m) m l !! k = Some x ↔
  (x ∈ l ∧ key x = k) ∨ (m !! k = Some x ∧ k ∉ map key l).
Proof.
  revert m. induction l as [|y l IH]; intros m; cbn [map foldl].
  - intros _. rewrite !elem_of_nil. naive_solver.
  - intros [Hy Hl]%NoDup_cons. rewrite IH by done. rewrite lookup_insert_Some, !elem_of_cons.
    assert (x ∈ l → key x ∈ map key l) as Hx by (intros; apply list_elem_of_fmap; eauto).
    destruct (decide (key y = k)) as [<-|]; [|naive_solver].
    split; [naive_solver|]. intros [[[->|Hin] E]|[_ Hn]]; [right; auto|by rewrite <- E in Hy; destruct Hy; auto|].
    by destruct Hn; left.
Qed.

Lemma keyed_values {A} (key : A → string) (m : gmap string A) :
  (∀ k x, m !! k = Some x → key x = k) → keyed key (values m) = m.
Proof.
  intros Hm. apply map_eq. intros k. apply option_eq. intros x. unfold keyed.
  assert (map key (values m) = (map_to_list m).*1) as E.
  { unfold values. rewrite map_map.
    apply list_fmap_ext. intros i [k' y] Hi. cbn. apply Hm, elem_of_map_to_list. by eapply list_elem_of_lookup_2. }
  rewrite keyed_lookup by (rewrite E; apply NoDup_fst_map_to_list). rewrite lookup_empty, values_elem.
  split; [intros [[[k' Hk'] Hx]|[? _]]; [|done]|intros Hx; left; eauto].
  by rewrite <- Hx, (Hm _ _ Hk').
Qed.

Section Grants.
Context {DC : DeviceCrypto} {TC : TicketCrypto} {ED : Ed25519}.

(** The persisted state is read back.  A well-formed store written as the lists of its
    rows, in whatever order, and read again is the same store; a file of another schema
    version is refused. *)
Theorem persisted_state_round_trips s v rs cs gs cgs :
  store_wf s →
  from_persisted (to_persisted s) = Ok s ∧
  (v ≠ PUBLIC_CONTROL_STATE_VERSION → from_persisted (MkPersisted v rs cs gs cgs) = Err v).
Proof using Type.
  intros W. split.
  - unfold from_persisted, to_persisted. cbn -[keyed values]. rewrite !keyed_values; [by destruct s|..].
    + intros k x Hx. symmetry. by eapply wf_client_grant.
    + intros k x Hx. by eapply wf_grant.
    + intros k x Hx. by eapply wf_client.
    + intros k x Hx. by eapply wf_relay.
  - intros Hv. unfold from_persisted. cbn. by destruct (Z.eqb_spec v PUBLIC_CONTROL_STATE_VERSION).
Qed.

(** What a restarted broker would load. *)
Definition durable (b : PublicControlPersistence) : PublicControlStateStore :=
  match b with InMemory => store_empty | JsonFile file => file | Postgres _ _ _ db => db end.

(** A save reports what happened.  With a backend in step with the last save: when it
    succeeds, the memory is as it was and the backend holds it (up to the time a device was
    last seen); so does an error of the database whose transaction was committed all the
    same.  When it fails on the database, the memory is what the database holds, or the next
    request reloads before anything else.  A failed write of a JSON file leaves the memory
    changed, ahead of a file that has the old state or the new one. *)
Theorem save_is_truthful io p :
  settled (cp_persistence p) → backend_holds (λ _, True) (cp_persistence p) →
  let '(r, p1) := save io p in
  match r with
  | Ok _ => cp_state p1 = cp_state p ∧
      (cp_persistence p ≠ InMemory → same_store (cp_state p1) (durable (cp_persistence p1)))
  | Err _ =>
      match cp_persistence p with
      | InMemory => False
      | JsonFile file => cp_state p1 = cp_state p ∧
          (durable (cp_persistence p1) = file ∨ durable (cp_persistence p1) = cp_state p)
      | Postgres _ _ _ _ => cp_state p1 = durable (cp_persistence p1) ∨ reload_before_use (cp_persistence p1) = true
      end
  end.
Proof using Type.
  intros Hs Hb. unfold save. destruct (cp_persistence p) as [|file|rb needs last db]; cbn; [done|..].
  - destruct (io_save io); cbn; auto. split; [done|]. intros _. apply same_store_refl.
  - cbn in *. subst needs. destruct Hb as (_ & _ & Hsame). specialize (Hsame eq_refl).
    pose proof (save_agrees last (cp_state p) db Hsame) as Hw.
    destruct (io_save io); [by cbn|..]; (destruct (io_reconcile io); [|cbn; right; by rewrite orb_true_r]);
      destruct (classify_save_reconciliation _ _ _) eqn:Ec; cbn; auto;
      apply classify_committed in Ec; rewrite Ec; (split; [done|]); intros _; apply same_store_refl.
Qed.

(** ** Rotation *)
Lemma last_kept {A} (l : list A) x n : ∃ l', drop (length (l ++ [x]) - S n) (l ++ [x]) = (l' ++ [x])%list ∧ l' ⊆ l.
Proof using Type.
  exists (drop (length l - n) l). split.
  - rewrite length_app. cbn. replace (length l + 1 - S n)%nat with (length l - n)%nat by lia.
    rewrite drop_app_le by lia. done.
  - intros y Hy. by eapply drop_elem.
Qed.

Lemma carry_honours l h now grace now' :
  honours h now' (carry_superseded l h now grace) = bool_decide (now' < u64_saturating_add now grace).
Proof using Type.
  unfold carry_superseded. set (kept := filter _ l).
  destruct (last_kept kept (MkSuperseded h (u64_saturating_add now grace)) 15) as (l' & E & Hl').
  change MAX_SUPERSEDED_TOKENS with 16%nat. rewrite E. unfold honours. rewrite existsb_app. cbn.
  rewrite bool_decide_eq_true_2 by done. cbn. rewrite orb_false_r.
  assert (existsb (λ t, bool_decide (su_refresh_token_hash t = h) && (now' <? su_expires_at t)) l' = false) as ->.
  { apply not_true_iff_false. rewrite existsb_exists. intros (t & Ht & Hb).
    apply list_elem_of_In, Hl', list_elem_of_filter in Ht as [[_ Hne] _].
    by rewrite bool_decide_eq_false_2 in Hb. }
  cbn. apply Bool.eq_iff_eq_true. rewrite Z.ltb_lt, bool_decide_eq_true. done.
Qed.

(** What a granted device leaves in memory, when nothing had to be reloaded. *)
Lemma grant_ok io r tok device limit now p p1 :
  holds store_wf p → reload_before_use (cp_persistence p) = false →
  grant_device io r tok device limit now p = (Ok (), p1) →
  match limit with
  | Some n => has_device_grant (rr_relay_id r) device (cp_state p) = true ∨
              Z.of_nat (count_device_grants_for_relay (rr_relay_id r) (cp_state p)) < n
  | None => True
  end ∧
  cp_state p1 = (remove_device_grants (rr_relay_id r) None (Some device) (cp_state p)).1 <| cs_grants ::=
    <[sha256_hex tok := MkGrant (rr_relay_id r) (rr_broker_room_id r) device (sha256_hex tok) now (Some now)
        (superseded_by (rr_relay_id r) device now (cp_rotation_grace_secs p) (cp_state p))]> |>.
Proof using Type.
  intros Hp Hrel. unfold grant_device, lock_state, bind, gets, with_store, modify, throw, ret. rewrite Hrel.
  set (over := match limit with Some _ => _ | None => false end). destruct over eqn:Eo; [done|].
  set (p2 := (p <| cp_state ::= _ |>) <| cp_state ::= _ |>). intros Hs. split.
  - subst over. destruct limit as [n|]; [|done]. apply andb_false_iff in Eo as [Eo|Eo].
    + left. by apply negb_false_iff in Eo.
    + right. by apply Z.leb_gt in Eo.
  - assert (settled (cp_persistence p2)) as Hset.
    { change (cp_persistence p2) with (cp_persistence p). destruct (cp_persistence p); cbn in *; [done..|].
      by destruct (proj1 (orb_false_iff _ _) Hrel). }
    destruct (save_ok (λ _, True) io p2) as [E _]; [done|done|exact (backend_true _ p Hp)|by rewrite Hs|done|].
    rewrite Hs in E. exact E.
Qed.

Lemma superseded_by_row relay device now grace s h g :
  store_wf s → cs_grants s !! h = Some g → dg_relay_id g = relay → dg_device_id g = device →
  superseded_by relay device now grace s = carry_superseded (dg_superseded g) h now grace.
Proof using Type.
  intros W Hg Hr Hd. unfold superseded_by. destruct (list_find _ _) as [[i g']|] eqn:E.
  - apply list_find_Some in E as (Hi & Hg' & _). apply andb_true_iff in Hg' as [Hr'%bool_decide_eq_true Hd'%bool_decide_eq_true].
    assert (g' ∈ values (cs_grants s)) as [h' Hh']%values_elem by by eapply list_elem_of_lookup_2.
    assert (h = h') as <- by (eapply wf_grant_device; [done|exact Hg|exact Hh'|congruence..]).
    rewrite Hg in Hh'. injection Hh' as <-. by destruct (wf_grant _ W _ _ Hg) as [-> _].
  - exfalso. apply list_find_None in E. rewrite Forall_forall in E. apply (E g); [apply values_elem; eauto|].
    unfold is_grant_of. by rewrite !bool_decide_eq_true_2.
Qed.

(** Rotation has its grace period.  When a device that has a grant registers again, its
    new token is accepted at once and for ever, and the token it had before is accepted, for
    the same device, exactly until the grace period after the rotation is over. *)
Theorem rotation_has_its_grace io r tok device limit now p p1 old g0 :
  holds store_wf p → reload_before_use (cp_persistence p) = false →
  (∀ h g, cs_grants (cp_state p) !! h = Some g → sha256_hex tok ∉ grant_tokens g) →
  cs_grants (cp_state p) !! old = Some g0 → dg_relay_id g0 = rr_relay_id r → dg_device_id g0 = device →
  grant_device io r tok device limit now p = (Ok (), p1) →
  ∃ g, dg_relay_id g = rr_relay_id r ∧ dg_broker_room_id g = rr_broker_room_id r ∧ dg_device_id g = device ∧
    ∀ now',
      find_device_grant_for_token (cp_state p1) (sha256_hex tok) now' = Some (sha256_hex tok, g) ∧
      find_device_grant_for_token (cp_state p1) old now' =
        if decide (now' < u64_saturating_add now (cp_rotation_grace_secs p)) then Some (sha256_hex tok, g) else None.
Proof using Type.
  intros Hp Hrel Hfresh Hold Hr Hd Hok. pose proof (holds_stores _ _ (cp_state p) Hp ltac:(set_solver)) as W.
  destruct (grant_ok _ _ _ _ _ _ _ _ Hp Hrel Hok) as [_ ->].
  rewrite (superseded_by_row _ _ _ _ _ old g0 W Hold Hr Hd). set (sup := carry_superseded _ _ _ _).
  set (g := MkGrant _ _ _ _ _ _ sup). set (m := (remove_device_grants _ _ _ _).1).
  exists g. split_and!; [done..|]. intros now'. unfold find_device_grant_for_token, find_for_token.
  change (cs_grants (m <| cs_grants ::= <[sha256_hex tok := g]> |>)) with (<[sha256_hex tok := g]> (cs_grants m)).
  rewrite lookup_insert_eq. split; [done|].
  assert (sha256_hex tok ≠ old) as Hne.
  { intros <-. apply (Hfresh _ _ Hold). unfold grant_tokens. destruct (wf_grant _ W _ _ Hold) as [-> _]. by left. }
  assert (∀ h g', cs_grants m !! h = Some g' → cs_grants (cp_state p) !! h = Some g' ∧ h ≠ old) as Hm.
  { intros h g' [Hg Hx%matches_device]%removed_grant. split; [done|]. intros ->. simplify_eq. by apply Hx. }
  rewrite lookup_insert_ne by done. destruct (cs_grants m !! old) as [g'|] eqn:Eg; [by destruct (Hm _ _ Eg)|].
  assert (∀ kr, kr ∈ map_to_list (<[sha256_hex tok := g]> (cs_grants m)) →
    honours old now' (dg_superseded kr.2) = true → kr = (sha256_hex tok, g)) as Honly.
  { intros [h g'] [[<- <-]|[_ Hg']]%elem_of_map_to_list%lookup_insert_Some; [done|]. intros Hh. exfalso.
    apply Hm in Hg' as [Hg' Hnold]. apply Hnold. eapply (wf_grant_tokens _ W _ _ _ _ old Hg' Hold).
    - apply existsb_exists in Hh as (t & Ht%list_elem_of_In & [Ht'%bool_decide_eq_true _]%andb_true_iff).
      right. apply list_elem_of_fmap. by exists t.
    - destruct (wf_grant _ W _ _ Hold) as [<- _]. by left. }
  pose proof (carry_honours (dg_superseded g0) old now (cp_rotation_grace_secs p) now') as Hh. fold sup in Hh.
  destruct (list_find _ _) as [[i kr]|] eqn:E; cbn.
  - apply list_find_Some in E as (Hi & Hk & _). specialize (Honly kr (list_elem_of_lookup_2 _ _ _ Hi) Hk). subst kr.
    assert (honours old now' sup = true) as Hk' by exact Hk. rewrite Hh in Hk'. apply bool_decide_eq_true in Hk'.
    by rewrite decide_True.
  - apply list_find_None in E. rewrite Forall_forall in E.
    assert (¬ now' < u64_saturating_add now (cp_rotation_grace_secs p)) as Hlt; [|by rewrite decide_False].
    intros Hlt. apply (E (sha256_hex tok, g)).
    + apply elem_of_map_to_list, lookup_insert_eq.
    + change (honours old now' sup = true). rewrite Hh. by apply bool_decide_eq_true.
Qed.

(** ** The device limit *)
Lemma values_insert {A} (m : gmap string A) h x : m !! h = None → values (<[h := x]> m) ≡ₚ x :: values m.
Proof using Type. intros Hm. unfold values. by rewrite map_to_list_insert. Qed.

Lemma count_insert relay s h g :
  cs_grants s !! h = None → dg_relay_id g = relay →
  count_device_grants_for_relay relay (s <| cs_grants ::= <[h := g]> |>) = S (count_device_grants_for_relay relay s).
Proof using Type.
  intros Hm Hg. unfold count_device_grants_for_relay.
  change (cs_grants (s <| cs_grants ::= <[h := g]> |>)) with (<[h := g]> (cs_grants s)).
  rewrite (values_insert _ _ g Hm). rewrite filter_cons_True; done.
Qed.

Lemma has_grant_row relay device s :
  has_device_grant relay device s = true ↔
  ∃ h g, cs_grants s !! h = Some g ∧ dg_relay_id g = relay ∧ dg_device_id g = device.
Proof using Type.
  unfold has_device_grant. rewrite existsb_exists. unfold is_grant_of. split.
  - intros (g & [h Hg]%list_elem_of_In%values_elem & [Hr%bool_decide_eq_true Hd%bool_decide_eq_true]%andb_true_iff). eauto.
  - intros (h & g & Hg & Hr & Hd). exists g. split; [apply list_elem_of_In, values_elem; eauto|].
    by rewrite !bool_decide_eq_true_2.
Qed.

(** The one row of the device goes, and nothing else of the relay does. *)
Lemma count_removed relay device s :
  store_wf s →
  count_device_grants_for_relay relay s =
    (count_device_grants_for_relay relay (remove_device_grants relay None (Some device) s).1
     + if has_device_grant relay device s then 1 else 0)%nat.
Proof using Type.
  intros W. rewrite remove_device_grants_eq. set (m := cs_grants (remove_device_grants _ _ _ _).1).
  assert (∀ h g, m !! h = Some g ↔ cs_grants s !! h = Some g ∧ ¬ (dg_relay_id g = relay ∧ dg_device_id g = device)) as Hm.
  { intros h g. unfold m. rewrite removed_grant. unfold matches_optional_relay_target. cbn. rewrite andb_true_r.
    rewrite andb_false_iff, !bool_decide_eq_false.
    destruct (decide (dg_relay_id g = relay)), (decide (dg_device_id g = device)); naive_solver. }
  destruct (has_device_grant relay device s) eqn:Eh.
  - apply has_grant_row in Eh as (h & g & Hg & Hr & Hd).
    assert (m !! h = None) as Hn by (apply eq_None_not_Some; intros [g' Hg']; apply Hm in Hg' as [? []]; simplify_eq; done).
    rewrite Nat.add_1_r, <- (count_insert relay (s <| cs_grants := m |>) h g) by done. f_equal.
    assert (<[h := g]> m = cs_grants s) as E.
    2: { change (_ <| cs_grants ::= _ |>) with (s <| cs_grants := <[h := g]> m |>). rewrite E. by destruct s. }
    apply map_eq. intros k. apply option_eq. intros g'. rewrite lookup_insert_Some, Hm. split.
    + intros [[<- <-]|[_ [? _]]]; done.
    + intros Hg'. destruct (decide (h = k)) as [<-|]; [left; split; congruence|].
      right. split_and!; [done..|]. intros [Hr' Hd']. apply n. eapply wf_grant_device; [done|exact Hg|exact Hg'|congruence..].
  - rewrite Nat.add_0_r. assert (m = cs_grants s) as ->; [|by destruct s].
    apply map_eq. intros k. apply option_eq. intros g'. rewrite Hm. split; [by intros [? _]|].
    intros Hg'. split; [done|]. intros [Hr Hd]. apply not_true_iff_false in Eh. apply Eh, has_grant_row. eauto.
Qed.

(** The device limit of a relay.  With a limit of [n] and the state of this process up to
    date, a device that is registered already is never refused, and registers without using
    up a seat; a new device is refused exactly when [n] seats are taken, and nothing changes
    then; a device that is let in takes one seat, which was free. *)
Theorem device_limit_is_kept io r tok device n now p :
  holds store_wf p → reload_before_use (cp_persistence p) = false → cs_grants (cp_state p) !! sha256_hex tok = None →
  let seats s := Z.of_nat (count_device_grants_for_relay (rr_relay_id r) s) in
  let known := has_device_grant (rr_relay_id r) device (cp_state p) in
  let '(res, p1) := grant_device io r tok device (Some n) now p in
  (res = Err (DeviceLimitReached n) ↔ known = false ∧ n ≤ seats (cp_state p)) ∧
  (res = Err (DeviceLimitReached n) → p1 = p) ∧
  (res = Ok () → seats (cp_state p1) = seats (cp_state p) + (if known then 0 else 1) ∧
                 (known = false → seats (cp_state p1) ≤ n)).
Proof using Type.
  intros Hp Hrel Hfresh seats known. pose proof (holds_stores _ _ (cp_state p) Hp ltac:(set_solver)) as W.
  pose proof (grant_ok io r tok device (Some n) now p) as Hok.
  assert (∀ q e, (save io q).1 = Err e → e = SaveFailed) as Hsave.
  { intros q e. unfold save. destruct (cp_persistence q); cbn; [done|..]; destruct (io_save io); cbn; try congruence;
      (destruct (io_reconcile io); [|by intros [= <-]]); destruct (classify_save_reconciliation _ _ _); cbn; congruence. }
  destruct (grant_device _ _ _ _ _ _ p) as [res p1] eqn:E. split_and!.
  - revert E. unfold grant_device, lock_state, bind, gets, with_store, modify, throw, ret. rewrite Hrel.
    fold known. fold (seats (cp_state p)). destruct known; cbn [negb andb].
    + intros Hs. split; [|by intros []]. intros ->. by apply (f_equal fst), Hsave in Hs.
    + destruct (Z.leb_spec n (seats (cp_state p))) as [Hle|Hlt].
      * by intros [= <- <-].
      * intros Hs. split; [|lia]. intros ->. by apply (f_equal fst), Hsave in Hs.
  - intros ->. revert E. unfold grant_device, lock_state, bind, gets, with_store, modify, throw, ret. rewrite Hrel.
    destruct (_ && _); [congruence|]. intros Hs. by apply (f_equal fst), Hsave in Hs.
  - intros ->. destruct (Hok p1 Hp Hrel eq_refl) as [Hl ->]. fold known in Hl. fold (seats (cp_state p)) in Hl.
    unfold seats in *. rewrite count_insert; [|apply eq_None_not_Some; intros [g [Hg _]%removed_grant]; congruence|done].
    rewrite (count_removed (rr_relay_id r) device (cp_state p) W) in *. fold known in Hl |- *. destruct known; split; try lia.
Qed.

(** ** Enrolment *)
Lemma register_ok io draws rnd key lbl now p resp p1 :
  holds store_wf p →
  issue_relay_registration_for_verify_key io draws rnd key lbl now p = (Ok resp, p1) →
  let s0 := cp_state (lock_state io p).2 in
  store_wf s0 ∧ cp_relay_enrollment_challenges p1 = cp_relay_enrollment_challenges p ∧
  er_relay_refresh_token resp = issued_token "rref-" rnd ∧
  match registration_for_verify_key key s0 with
  | Some r => er_relay_id resp = rr_relay_id r ∧ er_broker_room_id resp = rr_broker_room_id r
  | None => relay_ids_taken (er_relay_id resp) (er_broker_room_id resp) s0 = false
  end ∧
  cp_state p1 = (remove_relay_registration_by_verify_key key s0).1 <| cs_relays ::=
    <[sha256_hex (issued_token "rref-" rnd) := MkRelay (er_relay_id resp) (er_broker_room_id resp)
        (sha256_hex (issued_token "rref-" rnd)) now lbl (Some key)]> |>.
Proof using Type.
  intros Hp. unfold issue_relay_registration_for_verify_key, bind at 1. destruct (lock_spec store_wf io p Hp) as (_ & Hf & Hl).
  destruct (lock_state io p) as [[[]|e] p0]; [|done]. specialize (Hl eq_refl). cbn [fst snd] in *. destruct Hl as [Hh Hset].
  assert (∀ q u, settled (cp_persistence q) → backend_holds (λ _, True) (cp_persistence q) → save io q = (Ok u, p1) →
    cp_state p1 = cp_state q ∧ cp_relay_enrollment_challenges p1 = cp_relay_enrollment_challenges q) as Hsave.
  { intros q [] Hq Hb Hs. destruct (save_ok (λ _, True) io q) as [E _]; [done|done|done|by rewrite Hs|done|].
    rewrite Hs in E. split; [done|]. revert Hs. unfold save. destruct (persistence_save _ _ _) as [[a b] c]. by intros [= _ <-]. }
  pose proof (backend_true _ p0 Hh) as Hb.
  destruct Hf as (_ & _ & _ & _ & Hc & _). rewrite <- Hc.
  unfold bind at 1, gets at 1. destruct (registration_for_verify_key key (cp_state p0)) as [r|] eqn:Er.
  - unfold bind, with_store, modify, ret. cbn [fst snd].
    destruct (save io _) as [[u|e] p2] eqn:Es; [|done]. intros [= <- ->]. apply Hsave in Es as [-> ->]; [|done..].
    split_and!; try done. by apply (holds_stores _ _ _ Hh); set_solver.
  - unfold bind at 1, gets at 1. unfold bind at 1. destruct (issue_new_relay_ids draws (cp_state p0)) as [[relay room]|] eqn:Ed; [|done].
    apply fresh_ids in Ed. unfold bind, with_store, modify, ret. cbn [fst snd ok_or_throw ret].
    destruct (save io _) as [[u|e] p2] eqn:Es; [|done]. intros [= <- ->]. apply Hsave in Es as [-> ->]; [|done..].
    rewrite no_key_no_row by done. split_and!; try done. by apply (holds_stores _ _ _ Hh); set_solver.
Qed.

Lemma registered_key key s r :
  registration_for_verify_key key s = Some r → ∃ h, cs_relays s !! h = Some r ∧ rr_relay_verify_key r = Some key.
Proof using Type.
  unfold registration_for_verify_key. intros ([i r'] & E & [= ->])%fmap_Some.
  apply list_find_Some in E as (Hi & Hk%bool_decide_eq_true & _). apply list_elem_of_lookup_2, values_elem in Hi as [h Hh]. eauto.
Qed.

(** C22: a relay is enrolled by its key.  An enrolment that succeeds used a challenge that was
    pending, unexpired and issued for this key, with a signature of it under the key, and the
    challenge cannot be used again.  The relay's new token is the only token of the key: the
    tokens of earlier enrolments are gone.  A key that is known keeps its relay and room; a
    new key gets a relay id and a room that no other relay has. *)
Theorem relay_enrollment_is_proved io draws rnd key cid sig lbl now p resp p1 :
  holds store_wf p → complete_relay_enrollment io draws rnd key cid sig lbl now p = (Ok resp, p1) →
  let hash := sha256_hex (er_relay_refresh_token resp) in
  let before := cs_relays (cp_state (lock_state io p).2) in
  ∃ key' cid' sig' c r,
    trimmed_string key = Some key' ∧ trimmed_string cid = Some cid' ∧ trimmed_string sig = Some sig' ∧
    cp_relay_enrollment_challenges p !! cid' = Some c ∧ now < en_expires_at c ∧ en_relay_verify_key c = key' ∧
    verify_relay_enrollment_challenge_signature key' cid' (en_challenge c) sig' = Ok () ∧
    cp_relay_enrollment_challenges p1 !! cid' = None ∧
    cs_relays (cp_state p1) !! hash = Some r ∧ rr_relay_verify_key r = Some key' ∧
    rr_relay_id r = er_relay_id resp ∧ rr_broker_room_id r = er_broker_room_id resp ∧
    (∀ h r', cs_relays (cp_state p1) !! h = Some r' → rr_relay_verify_key r' = Some key' → h = hash) ∧
    ((∃ h r0, before !! h = Some r0 ∧ rr_relay_verify_key r0 = Some key' ∧
        rr_relay_id r0 = rr_relay_id r ∧ rr_broker_room_id r0 = rr_broker_room_id r) ∨
     (∀ h r0, before !! h = Some r0 → rr_relay_verify_key r0 ≠ Some key' ∧
        rr_relay_id r0 ≠ rr_relay_id r ∧ rr_broker_room_id r0 ≠ rr_broker_room_id r)).
Proof using Type.
  intros Hp. unfold complete_relay_enrollment, prune_expired_relay_enrollment_challenges, required_field.
  unfold bind at 1, modify at 1. set (p0 := p <| cp_relay_enrollment_challenges ::= _ |>).
  destruct (trimmed_string key) as [key'|]; [|done]. unfold bind at 1, ok_or_throw at 1, ret at 1.
  unfold bind at 1, lift at 1. destruct (validate_relay_verify_key key'); [|done].
  destruct (trimmed_string cid) as [cid'|]; [|done]. unfold bind at 1, ok_or_throw at 1, ret at 1.
  destruct (trimmed_string sig) as [sig'|]; [|done]. unfold bind at 1, ok_or_throw at 1, ret at 1.
  unfold bind at 1. destruct (take_challenge_spec cid' p0) as [E2 E1].
  destruct (take_challenge cid' p0) as [[c|e] p2]; cbn [fst snd] in *; subst p2; [|done].
  specialize (E1 c eq_refl). set (p2 := p0 <| cp_relay_enrollment_challenges ::= _ |>).
  cbn in E1. apply map_lookup_filter_Some in E1 as [Hc Hx]. destruct (_ <=? now); [done|].
  destruct (bool_decide_reflect (en_relay_verify_key c = key')) as [Hk|]; [|done]. cbn [negb].
  unfold bind at 1, lift at 1. destruct (verify_relay_enrollment_challenge_signature _ _ _ _) as [[]|e] eqn:Ev; [|done].
  intros Hreg. apply register_ok in Hreg as (W & Hch & Htok & Hids & Hst); [|done].
  assert (cp_state (lock_state io p2).2 = cp_state (lock_state io p).2) as Es0.
  { unfold lock_state, bind, gets, reload, ret. change (cp_persistence p2) with (cp_persistence p).
    destruct (reload_before_use _); [|done]. by destruct (persistence_load _ _) as [[?|?] ?]. }
  rewrite Es0 in *. rewrite Htok, Hst. set (hash := sha256_hex (issued_token _ rnd)).
  exists key', cid', sig', c, (MkRelay (er_relay_id resp) (er_broker_room_id resp) hash now
    (option_or (label lbl) (en_relay_label c)) (Some key')).
  assert (∀ h r, cs_relays (remove_relay_registration_by_verify_key key' (cp_state (lock_state io p).2)).1 !! h = Some r →
    rr_relay_verify_key r ≠ Some key') as Hgone.
  { intros h r. unfold remove_relay_registration_by_verify_key. pose proof (kept_lookup (has_verify_key key') (cs_relays (cp_state (lock_state io p).2)) h r) as Hr.
    destruct (remove_matching_entries _ _) as [m n]. cbn in *. rewrite Hr. by intros [_ ?%bool_decide_eq_false]. }
  split_and!; try done.
  - rewrite Hch. apply lookup_delete_eq.
  - by apply lookup_insert_Some; left.
  - intros h r' Hr' Hk'. apply (lookup_insert_Some (cs_relays (remove_relay_registration_by_verify_key _ _).1)) in Hr'
      as [[<- _]|[_ Hr']]; [done|]. by destruct (Hgone _ _ Hr').
  - destruct (registration_for_verify_key key' _) as [r0|] eqn:Er.
    + left. apply registered_key in Er as (h & Hh & Hkey). destruct Hids. eauto 6.
    + right. intros h r0 Hr0. cbn. split.
      * intros Hkey. unfold registration_for_verify_key in Er. apply fmap_None, list_find_None in Er.
        rewrite Forall_forall in Er. apply (Er r0); [apply values_elem; eauto|]. by apply bool_decide_eq_true.
      * unfold relay_ids_taken in Hids. apply not_true_iff_false in Hids. rewrite existsb_exists in Hids.
        split; intros E; apply Hids; exists r0; (split; [apply list_elem_of_In, values_elem; eauto|]);
          rewrite orb_true_iff, !bool_decide_eq_true; auto.
Qed.
End Grants.

(** * The control plane on concrete requests

    The theorems of the control plane applied to runs of it, with stand-ins for SHA-256,
    base64 and Ed25519. *)
(** A signature is the beginning of the key and the message. *)
Definition toy_ed : Ed25519 := {|
  ed_key_ok := λ _, true;
  ed_verify := λ key message signature, bool_decide (signature = substring 0 64 (key +:+ message)) |}.
Definition plain_crypto : DeviceCrypto := {| sha256 := λ s, s; std_b64_decode := λ s, Some s |}.

Module ControlExamples.
#[local] Existing Instances plain_crypto model_crypto toy_ed.

Definition io : Io := MkIo true true Saved true true.
Definition io_lost : Io := MkIo true true AckLost true true.
Definition fresh_plane (b : PublicControlPersistence) : PublicControlPlaneInner :=
  MkPlane sample_key 600 600 3600 b store_empty ∅ ∅.
Definition database : PublicControlPersistence := Postgres false false store_empty store_empty.
Definition plane0 : PublicControlPlaneInner := fresh_plane database.

Definition key : string := "0123456789abcdef0123456789abcdef".
Definition relay : PersistedRelayRegistration := MkRelay "relay-a" "room-a" "t" 0 None (Some key).

Lemma empty_wf : store_wf store_empty.
Proof. constructor; cbn; intros *; rewrite ?lookup_empty; congruence. Qed.
Lemma plane0_wf : holds store_wf plane0.
Proof. split; [apply empty_wf|]. split_and!; [apply empty_wf..|intros _; apply same_store_refl]. Qed.

Lemma fresh_dec hash s : map_Forall (λ _ g, hash ∉ grant_tokens g) (cs_grants s) → fresh_for hash s.
Proof. intros H h g Hg Hin. by destruct (H h g Hg). Qed.

Ltac solve_fresh := intros s Hs; cbn in Hs; repeat (apply elem_of_cons in Hs as [->|Hs]); try (by apply elem_of_nil in Hs);
  apply fresh_dec; refine (bool_decide_unpack _ _); vm_compute; exact I.

(** A phone that was let in, and let in again. *)
Definition granted : PublicControlPlaneInner := exec (OGrant io relay "dref-1" "phone" (Some 2) 100) plane0.
Lemma granted_wf : holds store_wf granted.
Proof. apply step_wf; [apply plane0_wf|]. unfold op_ok. solve_fresh. Qed.

(** An attested client that claims its identity. *)
Definition attested : PublicControlPlaneInner := exec (OAttest relay "1" "2" "phone" key None None 100) granted.
Definition claim_signature : string := substring 0 64 (key +:+ client_claim_message "ccl-1" "cn-2" "relay-a").
Definition claim : CtlOp := OClaim io_lost "3" "ccl-1" claim_signature 110.

Lemma control_store_well_formed_witness : holds store_wf (run [claim; ORevoke io relay "phone"] attested).
Proof.
  apply control_store_well_formed; [|by split_and!].
  apply step_wf; [apply granted_wf|done].
Defined.

(** The client claims its identity, is let in by its token, and rotates it. *)
Definition client_token : string := "cref-3".
Definition let_in : PublicControlPlaneInner := exec claim attested.
Definition the_client : PersistedClientIdentity :=
  match (authenticate_client io client_token 120 let_in).1 with
  | Ok c => c
  | Err _ => MkClient "" "" "" 0 None []
  end.
Definition claimed_and_rotated : list CtlOp := [claim; OAuthClient io client_token 120; ORotate io "4" the_client 130].
Definition rotated_client : PersistedClientIdentity :=
  default the_client (cs_clients (cp_state (run claimed_and_rotated attested)) !! sha256_hex "cref-4").
Definition phone_grant : PersistedClientRelayGrant :=
  MkClientGrant (issue_client_id key) "relay-a" "room-a" "phone" 110 None None.
Lemma rotated_rows : grant_row (run claimed_and_rotated attested) phone_grant ∧
  identity_row (run claimed_and_rotated attested) rotated_client.
Proof.
  split; exists (cp_state (run claimed_and_rotated attested)).
  - exists (issue_client_id key +:+ ":relay-a"). split; [by left|]. vm_compute. reflexivity.
  - exists (sha256_hex "cref-4"). split; [by left|]. vm_compute. reflexivity.
Qed.
Lemma client_credentials_need_the_key_witness :
  ci_refresh_token_hash rotated_client = sha256_hex "cref-4" ∧
  (grant_row attested phone_grant ∨ ∃ cl, claimed claimed_and_rotated attested cl ∧
     cg_relay_id phone_grant = cl_relay_id cl ∧ cg_broker_room_id phone_grant = cl_broker_room_id cl ∧
     cg_device_id phone_grant = cl_device_id cl ∧ cg_client_id phone_grant = issue_client_id (cl_client_verify_key cl)) ∧
  ((∃ c0, identity_row attested c0 ∧ ci_client_verify_key c0 = ci_client_verify_key rotated_client) ∨
   ∃ cl, claimed claimed_and_rotated attested cl ∧ cl_client_verify_key cl = ci_client_verify_key rotated_client).
Proof.
  destruct rotated_rows as [Hg Hc].
  destruct (client_credentials_need_the_key claimed_and_rotated attested) as [Rg Rc].
  - apply step_wf; [apply granted_wf|done].
  - split; [exact I|split; [exact I|split; [|exact I]]]. vm_compute. reflexivity.
  - split; [exact I|split; [exact I|split; [|exact I]]]. apply list_elem_of_In. vm_compute. by left.
  - split; [vm_compute; reflexivity|]. split; [exact (Rg _ Hg)|exact (proj2 (Rc _ Hc))].
Defined.

(** A client that revokes its identity between the two steps of a rotation has it back: the
    rotation does not look whether the row it was handed is still there. *)
Lemma rotation_revives_a_revoked_identity :
  let seen := [claim; OAuthClient io client_token 120; ORevokeClient io the_client] in
  cs_clients (cp_state (run seen attested)) = ∅ ∧
  (ci_client_verify_key <$> cs_clients (cp_state (run (seen ++ [ORotate io "4" the_client 130]) attested)) !! sha256_hex "cref-4")
    = Some key.
Proof. split; vm_compute; reflexivity. Qed.

(** The database loses the acknowledgement of a later save; the phone stays out. *)
Definition revoked : result nat PlaneError * PublicControlPlaneInner := revoke_grant io relay "phone" granted.
Lemma revoked_grant_is_dead_witness :
  revoked.1 = Ok 1%nat ∧
  ∀ io' bearer room now g, (use_device_token io' bearer room now (run [claim; ORelays io_lost] revoked.2)).1 = Ok g →
    ¬ (dg_relay_id g = "relay-a" ∧ dg_broker_room_id g = "room-a" ∧ dg_device_id g = "phone").
Proof.
  split; [by vm_compute|]. apply (revoked_grant_is_dead io relay "phone" granted 1 revoked.2).
  - apply granted_wf.
  - by vm_compute.
  - lia.
  - repeat constructor; by intros [].
Defined.

Lemma persisted_state_round_trips_witness : from_persisted (to_persisted (cp_state granted)) = Ok (cp_state granted).
Proof.
  refine (proj1 (persisted_state_round_trips (cp_state granted) 1 [] [] [] [] _)).
  apply (holds_stores _ _ _ granted_wf). by left.
Defined.

(** A save whose acknowledgement is lost is found to be committed. *)
Lemma save_is_truthful_witness :
  let p := granted <| cp_state ::= λ s, (remove_device_grants "relay-a" None None s).1 |> in
  (save io_lost p).1 = Ok () ∧ cp_state (save io_lost p).2 = cp_state p ∧
  same_store (cp_state (save io_lost p).2) (durable (cp_persistence (save io_lost p).2)).
Proof.
  set (p := granted <| cp_state ::= _ |>). assert ((save io_lost p).1 = Ok ()) as E by by vm_compute.
  pose proof (save_is_truthful io_lost p ltac:(done)) as H. split; [exact E|].
  assert (backend_holds (λ _, True) (cp_persistence p)) as Hb by exact (backend_true _ granted granted_wf).
  specialize (H Hb). destruct (save io_lost p) as [r p1]. cbn [fst snd] in *. rewrite E in H.
  destruct H as [H1 H2]. split; [exact H1|]. apply H2. by vm_compute.
Defined.

(** The phone registers again; its old token works until an hour later. *)
Definition regranted : result () PlaneError * PublicControlPlaneInner :=
  grant_device io relay "dref-2" "phone" (Some 2) 200 granted.
Lemma rotation_has_its_grace_witness :
  ∃ g, dg_device_id g = "phone" ∧
    ∀ now', find_device_grant_for_token (cp_state regranted.2) (sha256_hex "dref-1") now' =
      if decide (now' < 3800) then Some (sha256_hex "dref-2", g) else None.
Proof.
  destruct (rotation_has_its_grace io relay "dref-2" "phone" (Some 2) 200 granted regranted.2 (sha256_hex "dref-1")
    (MkGrant "relay-a" "room-a" "phone" (sha256_hex "dref-1") 100 (Some 100) [])) as (g & _ & _ & Hd & Hg).
  - apply granted_wf.
  - reflexivity.
  - apply (bool_decide_unpack (map_Forall (λ _ g, sha256_hex "dref-2" ∉ grant_tokens g) (cs_grants (cp_state granted)))).
    vm_compute. exact I.
  - vm_compute. reflexivity.
  - reflexivity.
  - reflexivity.
  - vm_compute. reflexivity.
  - exists g. split; [exact Hd|]. intros now'. exact (proj2 (Hg now')).
Defined.

(** With one seat, taken by the phone, a tablet is refused. *)
Lemma device_limit_is_kept_witness :
  (grant_device io relay "dref-3" "tablet" (Some 1) 300 granted).1 = Err (DeviceLimitReached 1) ∧
  (grant_device io relay "dref-3" "tablet" (Some 1) 300 granted).2 = granted.
Proof.
  pose proof (device_limit_is_kept io relay "dref-3" "tablet" 1 300 granted granted_wf ltac:(reflexivity)
    ltac:(vm_compute; reflexivity)) as H. cbv zeta in H.
  destruct (grant_device io relay "dref-3" "tablet" (Some 1) 300 granted) as [res p1]. destruct H as (H1 & H2 & _).
  assert (res = Err (DeviceLimitReached 1)) as E; [|split; [exact E|apply H2, E]].
  apply H1. split; [vm_compute; reflexivity|]. vm_compute. discriminate.
Defined.

(** A relay proves its key and is given its ids; it had none before. *)
Definition challenged : PublicControlPlaneInner := exec (OChallenge "4" "5" key (Some "desk") 100) granted.
Definition relay_signature : string := substring 0 64 (key +:+ relay_enrollment_challenge_message "rch-4" "rc-5").
Definition enrolled : result RelayEnrollmentResponse PlaneError * PublicControlPlaneInner :=
  complete_relay_enrollment io [("6", "7")] "8" key "rch-4" relay_signature None 120 challenged.
Lemma relay_enrollment_is_proved_witness :
  let resp := MkEnrollmentResponse "relay-6" "room-7" "rref-8" 120 (Some "desk") in
  enrolled.1 = Ok resp ∧
  ∃ key' c, trimmed_string key = Some key' ∧ cp_relay_enrollment_challenges challenged !! "rch-4" = Some c ∧
    en_relay_verify_key c = key' ∧ cp_relay_enrollment_challenges enrolled.2 !! "rch-4" = None.
Proof.
  intros resp. assert (enrolled = (Ok resp, enrolled.2)) as E by (vm_compute; reflexivity).
  split; [by rewrite E|].
  destruct (relay_enrollment_is_proved io [("6", "7")] "8" key "rch-4" relay_signature None 120 challenged resp enrolled.2)
    as (key' & cid' & sig' & c & r & Hk & Hc & _ & Hch & _ & Hkey & _ & Hgone & _).
  - apply step_wf; [apply granted_wf|done].
  - exact E.
  - assert (cid' = "rch-4") as -> by (vm_compute in Hc; congruence). exists key', c. by split_and!.
Defined.
End ControlExamples.
