(* ===== verification/Licenses.v ===== *)
(** * Licences (crates/relay-broker/src/licenses.rs)

    The table of licence codes and the primitives of the licence gate: validating a code,
    binding it to a relay, releasing stale bindings, the access check and the device cap.
    A query that fails is the argument [ok].  The in-memory backend exists for tests only
    and is not modelled. *)

From Stdlib Require Import ZArith Lia Ascii String.
From S2P Require Import ControlTheorems Prelude RustStr Patch ControlStore.

Open Scope string_scope.
Open Scope Z_scope.

Inductive LicenseError : Type :=
| CodeInvalid | CodeRevoked | CodeUsed | CodeExpired | CodeNotRedeemable
| NoLicense | LicenseRevoked | LicenseExpired | LicenseQueryFailed.

Inductive LicenseEnrollmentAction : Type := Fresh | Renewal.
#[export] Instance LicenseEnrollmentAction_eq_dec : EqDecision LicenseEnrollmentAction.
Proof. solve_decision. Defined.

(** A row of [licenses]; the code is its key. *)
Record License : Type := MkLicense {
  li_relay_id : option string;
  li_tier : option string;
  li_grant_days : option Z;
  li_redeem_by : option Z;
  li_expires_at : option Z;
  li_revoked_at : option Z;
  li_redeemed_at : option Z;
  li_device_limit : option Z
}.
#[export] Instance License_expand : Expand License := λ l,
  MkLicense (li_relay_id l) (li_tier l) (li_grant_days l) (li_redeem_by l) (li_expires_at l)
    (li_revoked_at l) (li_redeemed_at l) (li_device_limit l).

Notation LicenseTable := (gmap string License).

Record LicenseSummary : Type := MkLicenseSummary {
  ls_code : string;
  ls_tier : option string;
  ls_revoked : bool;
  ls_expires_at : option Z;
  ls_device_limit : option Z
}.

Record LicenseStore : Type := MkLicenseStore {
  lc_rows : LicenseTable;
  lc_required : bool;
  lc_tier_device_limits : gmap string Z
}.
#[export] Instance LicenseStore_expand : Expand LicenseStore := λ s,
  MkLicenseStore (lc_rows s) (lc_required s) (lc_tier_device_limits s).

(** ** Tier defaults *)
Definition parse_u32 (s : string) : option Z :=
  v ← parse_usize s; if v <=? u32_max then Some v else None.

Fixpoint split_on (c : ascii) (s : string) : list string :=
  match s with
  | "" => [""]
  | String a s =>
      if Ascii.eqb a c then "" :: split_on c s
      else match split_on c s with
           | part :: parts => String a part :: parts
           | [] => [String a ""]
           end
  end.

Definition tier_entry (entry : string) : option (string * Z) :=
  let entry := trim entry in
  if is_empty entry then None else
  '(tier, limit) ← split_once ":" entry;
  let tier := to_ascii_lowercase (trim tier) in
  if is_empty tier then None else
  limit ← parse_u32 (trim limit);
  if 0 <? limit then Some (tier, limit) else None.

Definition parse_tier_device_limits (raw : string) : gmap string Z :=
  foldl (λ m entry, match tier_entry entry with Some (tier, limit) => <[tier := limit]> m | None => m end)
    ∅ (split_on "," raw).

Definition tier_device_limits_from_env (value : option string) : gmap string Z :=
  default ∅ (parse_tier_device_limits <$> trimmed_option_string value).

Definition flag_set (value : option string) : bool :=
  match trim <$> value with
  | Some v => bool_decide (v = "1") || bool_decide (to_ascii_lowercase v = "true")
  | None => false
  end.
Definition license_required_from_env (value : option string) : bool := flag_set value.

(** ** Codes *)
Definition before (deadline : option Z) (now : Z) : bool :=
  match deadline with Some t => t <? now | None => false end.

Definition validate_code_or_reenroll (ok : bool) (code : string) (existing_relay_id : option string) (now : Z)
    (t : LicenseTable) : result LicenseEnrollmentAction LicenseError :=
  if negb ok then Err LicenseQueryFailed else
  match t !! code with
  | None => Err CodeInvalid
  | Some l =>
      if is_some (li_revoked_at l) then Err CodeRevoked
      else if match li_relay_id l, existing_relay_id with
              | Some bound, Some e => bool_decide (e = bound)
              | _, _ => false
              end then Ok Renewal
      else if is_some (li_redeemed_at l) then Err CodeUsed
      else match li_relay_id l with
           | None => if before (li_redeem_by l) now then Err CodeExpired else Ok Fresh
           | Some _ => Err CodeUsed
           end
  end.

Definition validate_code (ok : bool) (code : string) (now : Z) (t : LicenseTable) : result () LicenseError :=
  if negb ok then Err LicenseQueryFailed else
  match t !! code with
  | None => Err CodeInvalid
  | Some l =>
      if is_some (li_revoked_at l) then Err CodeRevoked
      else if is_some (li_redeemed_at l) then Err CodeUsed
      else if before (li_redeem_by l) now then Err CodeExpired
      else Ok ()
  end.

(** [relay_id = NULL] in the rows of the relay, other than [except_code], that are revoked
    or expired. *)
Definition releasable (relay_id except_code : string) (now : Z) (code : string) (l : License) : bool :=
  bool_decide (li_relay_id l = Some relay_id) && negb (bool_decide (code = except_code))
  && (is_some (li_revoked_at l) || before (li_expires_at l) now).
Definition clear_expired_or_revoked_binding (ok : bool) (relay_id except_code : string) (now : Z)
    (t : LicenseTable) : LicenseTable :=
  if ok then map_imap (λ code l, Some (if releasable relay_id except_code now code l
                                       then l <| li_relay_id := None |> else l)) t
  else t.

Definition bound_to (relay_id : string) (l : License) : bool := bool_decide (li_relay_id l = Some relay_id).

Definition redeemable (now : Z) (l : License) : bool :=
  negb (is_some (li_relay_id l)) && negb (is_some (li_revoked_at l)) && negb (is_some (li_redeemed_at l))
  && negb (before (li_redeem_by l) now).
Definition redeemed (relay_id : string) (now : Z) (l : License) : License :=
  l <| li_relay_id := Some relay_id |> <| li_redeemed_at := Some now |>
    <| li_expires_at := (λ days, now + days * 86400) <$> li_grant_days l |>.

(** One [UPDATE]; the unique index on [relay_id] refuses a second licence of a relay. *)
Definition redeem (ok : bool) (code relay_id : string) (now : Z) (t : LicenseTable) :
    LicenseTable * result () LicenseError :=
  if negb ok then (t, Err LicenseQueryFailed) else
  match t !! code with
  | Some l =>
      if redeemable now l then
        if existsb (bound_to relay_id) (values t) then (t, Err LicenseQueryFailed)
        else (<[code := redeemed relay_id now l]> t, Ok ())
      else (t, Err CodeNotRedeemable)
  | None => (t, Err CodeNotRedeemable)
  end.

(** ** Relays *)
(** [relay_id] is unique: the rows of a relay are one at most. *)
Definition license_of (relay_id : string) (t : LicenseTable) : option (string * License) :=
  snd <$> list_find (λ kl, bound_to relay_id kl.2 = true) (map_to_list t).

Definition positive_limit (l : option Z) : option Z :=
  limit ← l; if 0 <? limit then Some limit else None.

Definition license_cap_row (ok : bool) (relay_id : string) (t : LicenseTable) :
    result (option (option Z * option string)) LicenseError :=
  if negb ok then Err LicenseQueryFailed else
  Ok ((λ '(_, l), (positive_limit (li_device_limit l), li_tier l)) <$> license_of relay_id t).

Definition tier_default_limit (s : LicenseStore) (tier : string) : option Z :=
  lc_tier_device_limits s !! to_ascii_lowercase tier.

Definition device_limit_for_relay (ok : bool) (relay_id : string) (s : LicenseStore) :
    result (option Z) LicenseError :=
  let? row := license_cap_row ok relay_id (lc_rows s) in
  Ok (match row with
      | None => None
      | Some (per_code, tier) => option_or per_code (tier ≫= tier_default_limit s)
      end).

Definition check_relay_access (ok : bool) (relay_id : string) (now : Z) (t : LicenseTable) : result () LicenseError :=
  if negb ok then Err LicenseQueryFailed else
  match license_of relay_id t with
  | None => Err NoLicense
  | Some (_, l) =>
      if is_some (li_revoked_at l) then Err LicenseRevoked
      else if before (li_expires_at l) now then Err LicenseExpired
      else Ok ()
  end.

Definition license_summaries_for_relays (ok : bool) (relay_ids : list string) (t : LicenseTable) :
    result (gmap string LicenseSummary) LicenseError :=
  if bool_decide (relay_ids = []) then Ok ∅
  else if negb ok then Err LicenseQueryFailed
  else Ok (foldl (λ m '(code, l),
    match li_relay_id l with
    | Some relay_id =>
        if bool_decide (relay_id ∈ relay_ids) then
          <[relay_id := MkLicenseSummary code (li_tier l) (is_some (li_revoked_at l))
              (e ← li_expires_at l; if 0 <=? e then Some e else None)
              (positive_limit (li_device_limit l))]> m
        else m
    | None => m
    end) ∅ (map_to_list t)).

(** * Licences: theorems

    The gate's operations and the operator's as a transition system: a code is redeemed once,
    a relay holds one licence. *)
(** What happens to the table: the operator issues and revokes codes, the broker releases
    bindings and redeems. *)
Inductive LicenseOp : Type :=
| LIssue (code : string) (tier : option string) (grant_days redeem_by device_limit : option Z)
| LRevoke (code : string) (now : Z)
| LClear (ok : bool) (relay_id except_code : string) (now : Z)
| LRedeem (ok : bool) (code relay_id : string) (now : Z).

Definition license_step (op : LicenseOp) (t : LicenseTable) : LicenseTable :=
  match op with
  | LIssue code tier grant_days redeem_by device_limit =>
      match t !! code with
      | None => <[code := MkLicense None tier grant_days redeem_by None None None device_limit]> t
      | Some _ => t
      end
  | LRevoke code now => alter (λ l, l <| li_revoked_at := Some now |>) code t
  | LClear ok relay_id except_code now => clear_expired_or_revoked_binding ok relay_id except_code now t
  | LRedeem ok code relay_id now => (redeem ok code relay_id now t).1
  end.
Definition license_run (ops : list LicenseOp) (t : LicenseTable) : LicenseTable :=
  foldl (λ t op, license_step op t) t ops.

Definition consumed (code : string) (t : LicenseTable) : bool :=
  match t !! code with Some l => is_some (li_redeemed_at l) | None => false end.

(** The redemptions of a code that were reported as done. *)
Definition redemption (code : string) (op : LicenseOp) (t : LicenseTable) : nat :=
  match op with
  | LRedeem ok code' relay_id now =>
      if bool_decide (code' = code) && is_ok (redeem ok code' relay_id now t).2 then 1%nat else 0%nat
  | _ => 0%nat
  end.
Fixpoint redemptions (code : string) (ops : list LicenseOp) (t : LicenseTable) : nat :=
  match ops with
  | [] => 0%nat
  | op :: ops => (redemption code op t + redemptions code ops (license_step op t))%nat
  end.

Record licenses_wf (t : LicenseTable) : Prop := {
  lw_bound code l r : t !! code = Some l → li_relay_id l = Some r → is_Some (li_redeemed_at l);
  lw_unique code code' l l' r : t !! code = Some l → t !! code' = Some l' →
    li_relay_id l = Some r → li_relay_id l' = Some r → code = code'
}.

Lemma clear_lookup ok relay except now t code :
  clear_expired_or_revoked_binding ok relay except now t !! code =
    (λ l, if ok && releasable relay except now code l then l <| li_relay_id := None |> else l) <$> t !! code.
Proof.
  unfold clear_expired_or_revoked_binding. destruct ok; [|by destruct (t !! code)].
  rewrite map_lookup_imap. by destruct (t !! code).
Qed.

Lemma nobody_bound relay t code l :
  existsb (bound_to relay) (values t) = false → t !! code = Some l → li_relay_id l ≠ Some relay.
Proof.
  intros E Hl Hb. apply not_true_iff_false in E. apply E, existsb_exists. exists l.
  split; [apply list_elem_of_In, values_elem; eauto|by apply bool_decide_eq_true].
Qed.

Lemma redeem_cases ok code relay now t :
  redeem ok code relay now t = (t, (redeem ok code relay now t).2) ∧ is_ok (redeem ok code relay now t).2 = false ∨
  ∃ l, t !! code = Some l ∧ redeemable now l = true ∧ existsb (bound_to relay) (values t) = false ∧
    redeem ok code relay now t = (<[code := redeemed relay now l]> t, Ok ()).
Proof.
  unfold redeem. destruct ok; [|by left]. cbn [negb]. destruct (t !! code) as [l|]; [|by left].
  destruct (redeemable now l) eqn:Er; [|by left]. destruct (existsb _ _) eqn:Ee; [by left|]. right. eauto 6.
Qed.

Lemma redeemable_fresh now l : redeemable now l = true → li_relay_id l = None ∧ li_redeemed_at l = None.
Proof. unfold redeemable. by destruct (li_relay_id l), (li_revoked_at l), (li_redeemed_at l). Qed.

Lemma license_step_wf op t : licenses_wf t → licenses_wf (license_step op t).
Proof.
  intros W. destruct op as [code tier days by_ limit|code now|ok relay except now|ok code relay now]; cbn [license_step].
  - destruct (t !! code) eqn:E; [done|]. split.
    + intros c l r [[_ <-]|[_ Hl]]%lookup_insert_Some; [done|by eapply lw_bound].
    + intros c c' l l' r [[_ <-]|[_ Hl]]%lookup_insert_Some [[_ <-]|[_ Hl']]%lookup_insert_Some; try done.
      by eapply lw_unique.
  - assert (∀ c l, alter (λ l, l <| li_revoked_at := Some now |>) code t !! c = Some l → ∃ l0, t !! c = Some l0 ∧
      li_relay_id l = li_relay_id l0 ∧ li_redeemed_at l = li_redeemed_at l0) as Ha.
    { intros c l. destruct (decide (code = c)) as [<-|]; [|rewrite lookup_alter_ne by done; eauto].
      rewrite lookup_alter_eq. intros (l0 & H0 & ->)%fmap_Some. eauto. }
    split.
    + intros c l r (l0 & H0 & -> & ->)%Ha. by eapply lw_bound.
    + intros c c' l l' r (l0 & H0 & -> & _)%Ha (l1 & H1 & -> & _)%Ha. by eapply lw_unique.
  - assert (∀ c l r, clear_expired_or_revoked_binding ok relay except now t !! c = Some l → li_relay_id l = Some r →
      ∃ l0, t !! c = Some l0 ∧ li_relay_id l0 = Some r ∧ li_redeemed_at l = li_redeemed_at l0) as Hc.
    { intros c l r. rewrite clear_lookup. intros (l0 & H0 & ->)%fmap_Some. exists l0. by destruct (ok && _). }
    split.
    + intros c l r Hl Hr. destruct (Hc _ _ _ Hl Hr) as (l0 & H0 & Hr0 & ->). by eapply lw_bound.
    + intros c c' l l' r Hl Hl' Hr Hr'. destruct (Hc _ _ _ Hl Hr) as (l0 & H0 & E0 & _).
      destruct (Hc _ _ _ Hl' Hr') as (l1 & H1 & E1 & _). by eapply lw_unique.
  - destruct (redeem_cases ok code relay now t) as [[-> _]|(l & Hl & Hf & Hb & ->)]; [done|]. cbn [fst]. split.
    + intros c l' r [[_ <-]|[_ Hl']]%lookup_insert_Some; [done|by eapply lw_bound].
    + intros c c' l1 l2 r [[<- <-]|[_ H1]]%lookup_insert_Some [[<- <-]|[_ H2]]%lookup_insert_Some; try done.
      * intros [= <-] Hr. by destruct (nobody_bound _ _ _ _ Hb H2).
      * intros Hr [= <-]. by destruct (nobody_bound _ _ _ _ Hb H1).
      * by eapply lw_unique.
Qed.

Lemma redemption_consumes code op t :
  (if consumed code (license_step op t) then 1 else 0)%nat = (redemption code op t + if consumed code t then 1 else 0)%nat.
Proof.
  destruct op as [c tier days by_ limit|c now|ok relay except now|ok c relay now]; cbn [license_step redemption Nat.add].
  - unfold consumed. destruct (t !! c) eqn:E; [done|]. destruct (decide (c = code)) as [<-|Hne].
    + by rewrite lookup_insert_eq, E.
    + by rewrite lookup_insert_ne.
  - unfold consumed. destruct (decide (c = code)) as [<-|Hne].
    + rewrite lookup_alter_eq. by destruct (t !! c).
    + by rewrite lookup_alter_ne.
  - unfold consumed. rewrite clear_lookup. destruct (t !! code) as [l|]; [|done]. cbn. by destruct (ok && _).
  - destruct (redeem_cases ok c relay now t) as [[-> ->]|(l & Hl & [_ Hf]%redeemable_fresh & _ & ->)].
    + by rewrite andb_false_r.
    + cbn [fst snd is_ok]. rewrite andb_true_r. unfold consumed. destruct (bool_decide_reflect (c = code)) as [<-|Hne].
      * rewrite lookup_insert_eq, Hl, Hf. done.
      * by rewrite lookup_insert_ne.
Qed.

(** A licence code is redeemed once, and a relay holds one licence.  Whatever codes are
    issued, revoked, released and redeemed, in whatever order and whatever queries fail: a
    code that was never used is redeemed at most once, a used one never again, even after its
    binding was released; a bound code was redeemed; and no two codes are bound to one
    relay. *)
Theorem license_code_is_single_use ops t :
  licenses_wf t →
  licenses_wf (license_run ops t) ∧
  ∀ code, (redemptions code ops t + if consumed code t then 1 else 0)%nat =
          (if consumed code (license_run ops t) then 1 else 0)%nat.
Proof.
  revert t. induction ops as [|op ops IH]; intros t W; [by split|].
  destruct (IH (license_step op t) (license_step_wf op t W)) as [W' Hr]. split; [exact W'|].
  intros code. specialize (Hr code). cbn [redemptions]. pose proof (redemption_consumes code op t).
  change (license_run (op :: ops) t) with (license_run ops (license_step op t)). lia.
Qed.

(** A second redemption fails, also after the first relay's licence was revoked and its
    binding released. *)
Lemma license_code_is_single_use_witness :
  let t := {[ "AAAA" := MkLicense None (Some "free") (Some 30) None None None None None ]} in
  let ops := [LRedeem true "AAAA" "relay-a" 100; LRevoke "AAAA" 200; LClear true "relay-a" "BBBB" 300;
              LRedeem true "AAAA" "relay-b" 400] in
  licenses_wf (license_run ops t) ∧ redemptions "AAAA" ops t = 1%nat.
Proof.
  intros t ops. assert (licenses_wf t) as W.
  { split; unfold t.
    - by intros code l r [_ <-]%lookup_singleton_Some.
    - by intros code code' l l' r [_ <-]%lookup_singleton_Some. }
  destruct (license_code_is_single_use ops t W) as [H1 H2]. split; [exact H1|].
  specialize (H2 "AAAA"). vm_compute in H2 |- *. lia.
Defined.
