(* ===== verification/Blocklist.v ===== *)
(** * Banned addresses (crates/relay-broker/src/blocklist.rs, lib.rs)

    IP addresses and their text, the ban entries of the database, and the address a request
    is judged by.  Networks are those of the ipnet crate, given as a class; the text of an
    address is parsed as the standard library does. *)

From Stdlib Require Import ZArith Lia Ascii String.
From S2P Require Import Prelude RustStr Licenses.

Open Scope string_scope.
Open Scope Z_scope.

(** ** Addresses *)
Inductive IpAddr : Type := V4 (bits : Z) | V6 (bits : Z).
#[export] Instance IpAddr_eq_dec : EqDecision IpAddr.
Proof. solve_decision. Defined.
#[export] Program Instance IpAddr_countable : Countable IpAddr :=
  inj_countable' (λ a, match a with V4 z => inl z | V6 z => inr z end)
    (λ s, match s with inl z => V4 z | inr z => V6 z end) _.
Next Obligation. by intros []. Qed.

Definition MAPPED : Z := 65535.  (** [::ffff:0:0/96] *)
Definition to_ipv4_mapped (v6 : Z) : option Z :=
  if Z.shiftr v6 32 =? MAPPED then Some (Z.land v6 (Z.ones 32)) else None.

(** ** Reading the text of an address *)
Definition Reader (A : Type) : Type := string → option (A * string).

Definition digit_of (radix : Z) (a : ascii) : option Z :=
  let z := byte_val a in
  let d := if in_range 48 z 57 then Some (z - 48)
           else if in_range 97 z 122 then Some (z - 87)
           else if in_range 65 z 90 then Some (z - 55) else None in
  v ← d; if v <? radix then Some v else None.

(** The digits at the front: how many, their value, and the rest. *)
Fixpoint read_digits (radix acc : Z) (count : nat) (s : string) : nat * Z * string :=
  match s with
  | "" => (count, acc, s)
  | String a s' =>
      match digit_of radix a with
      | Some d => read_digits radix (acc * radix + d) (S count) s'
      | None => (count, acc, s)
      end
  end.
Definition read_number (radix bound : Z) (max_digits : nat) (allow_zero_prefix : bool) : Reader Z := λ s,
  let zero := match s with String "0" _ => true | _ => false end in
  let '(count, v, rest) := read_digits radix 0 0 s in
  if (count =? 0)%nat || (max_digits <? count)%nat || (bound <=? v)
     || (negb allow_zero_prefix && zero && (1 <? count)%nat)
  then None else Some (v, rest).

Definition read_char (c : ascii) : Reader () := λ s,
  match s with String a s' => if Ascii.eqb a c then Some ((), s') else None | "" => None end.
(** The separator is read before every item but the first. *)
Definition read_separator {A} (c : ascii) (index : nat) (r : Reader A) : Reader A := λ s,
  match index with
  | O => r s
  | S _ => '(_, s) ← read_char c s; r s
  end.

Definition read_ipv4_addr : Reader Z := λ s,
  let part i := read_separator "." i (read_number 10 256 3 false) in
  '(a, s) ← part 0%nat s; '(b, s) ← part 1%nat s; '(c, s) ← part 2%nat s; '(d, s) ← part 3%nat s;
  Some (((a * 256 + b) * 256 + c) * 256 + d, s).

(** [read_groups] with [limit] groups to fill, from group [i]: the groups, whether they end
    with an IPv4 address, and the rest. *)
Fixpoint read_groups (limit i : nat) (s : string) : list Z * bool * string :=
  match limit with
  | O => ([], false, s)
  | S limit' =>
      match (if (0 <? limit')%nat then read_separator ":" i read_ipv4_addr s else None) with
      | Some (v4, s) => ([Z.shiftr v4 16; Z.land v4 (Z.ones 16)], true, s)
      | None =>
          match read_separator ":" i (read_number 16 65536 4 true) s with
          | Some (g, s) => let '(gs, v4, s) := read_groups limit' (S i) s in (g :: gs, v4, s)
          | None => ([], false, s)
          end
      end
  end.
Definition groups_value (gs : list Z) : Z := foldl (λ acc g, acc * 65536 + g) 0 gs.
Definition read_ipv6_addr : Reader Z := λ s,
  let '(head, head_ipv4, s) := read_groups 8 0 s in
  if (length head =? 8)%nat then Some (groups_value head, s)
  else if head_ipv4 then None
  else
    '(_, s) ← read_char ":" s; '(_, s) ← read_char ":" s;
    let '(tail, _, s) := read_groups (8 - (length head + 1)) 0 s in
    Some (groups_value (head ++ repeat 0 (8 - length head - length tail) ++ tail)%list, s).

Definition parse_ip (s : string) : option IpAddr :=
  let at_end {A} (r : A * string) := if is_empty r.2 then Some r.1 else None in
  match read_ipv4_addr s with
  | Some r => V4 <$> at_end r
  | None => r ← read_ipv6_addr s; V6 <$> at_end r
  end.

(** ** Networks of the ipnet crate *)
Inductive IpNet : Type := NetV4 (addr prefix : Z) | NetV6 (addr prefix : Z).

Class IpNets := {
  ipnet_parse : string → option IpNet;
  v4_contains : Z → Z → Z → bool;   (** address and prefix length of the network, address *)
  v6_contains : Z → Z → Z → bool;
  v6_network : Z → Z → Z            (** the address with its host bits cleared *)
}.

(** Documented behaviour: a network contains the addresses that agree with it on its
    prefix. *)
Class IpNetLaws `{IpNets} := {
  v4_contains_prefix a p ip : 0 ≤ p ≤ 32 → v4_contains a p ip = (Z.shiftr a (32 - p) =? Z.shiftr ip (32 - p));
  v6_contains_prefix a p ip : 0 ≤ p ≤ 128 → v6_contains a p ip = (Z.shiftr a (128 - p) =? Z.shiftr ip (128 - p));
  v6_network_prefix a p : 0 ≤ p ≤ 128 → v6_network a p = Z.shiftl (Z.shiftr a (128 - p)) (128 - p)
}.

Section Blocklist.
Context `{IpNets}.

Definition net_contains (net : IpNet) (ip : IpAddr) : bool :=
  match net, ip with
  | NetV4 a p, V4 x => v4_contains a p x
  | NetV6 a p, V6 x => v6_contains a p x
  | _, _ => false
  end.

(** ** The blocklist *)
Definition normalize_ip (ip : IpAddr) : IpAddr :=
  match ip with
  | V6 v6 => match to_ipv4_mapped v6 with Some v4 => V4 v4 | None => V6 v6 end
  | v4 => v4
  end.

(** [prefix_len.checked_sub(96)], and [Ipv4Net::new] refuses a prefix beyond 32. *)
Definition normalize_net (net : IpNet) : IpNet :=
  match net with
  | NetV6 a p =>
      match to_ipv4_mapped (v6_network a p) with
      | Some v4 => if (96 <=? p) && (p - 96 <=? 32) then NetV4 v4 (p - 96) else net
      | None => net
      end
  | _ => net
  end.

Definition parse_ban_entry (entry : string) : option IpNet :=
  let entry := trim entry in
  if is_empty entry then None else
  net ← (if contains "/" entry then ipnet_parse entry
         else ip ← parse_ip entry; Some match ip with V4 x => NetV4 x 32 | V6 x => NetV6 x 128 end);
  Some (normalize_net net).

(** The networks, and how many entries could not be parsed. *)
Definition load_banned_nets (rows : list string) : list IpNet * nat :=
  let nets := omap parse_ban_entry rows in (nets, (length rows - length nets)%nat).

Definition is_banned (nets : list IpNet) (ip : IpAddr) : bool :=
  existsb (λ net, net_contains net (normalize_ip ip)) nets.

(** A refresh: a failed load keeps the list. *)
Definition refresh_banned (ok : bool) (rows : list string) (nets : list IpNet) : list IpNet :=
  if ok then (load_banned_nets rows).1 else nets.

(** ** The address of a request *)
(** The values of a header in order; [None] for one that is not visible ASCII. *)
Definition Headers : Type := string → list (option string).
Record BanGuard : Type := MkBanGuard { bg_nets : list IpNet; bg_trusted_ip_header : option string }.

Definition client_ip (g : BanGuard) (headers : Headers) (socket_ip : IpAddr) : IpAddr :=
  match bg_trusted_ip_header g with
  | Some name =>
      default socket_ip (last (omap (λ entry, parse_ip (trim entry))
        (flat_map (split_on ",") (omap id (headers name)))))
  | None => socket_ip
  end.

(** The address the handlers see, or a 403. *)
Definition reject_banned_ips (g : BanGuard) (headers : Headers) (remote : IpAddr) : option IpAddr :=
  let ip := client_ip g headers remote in
  if is_banned (bg_nets g) ip then None else Some ip.
End Blocklist.

(** * Banned addresses: theorems

    A ban matches a client however its address is spelled, and a client cannot choose the
    address it is judged by. *)
Definition ip_wf (ip : IpAddr) : Prop := match ip with V4 x => 0 ≤ x < 2 ^ 32 | V6 x => 0 ≤ x < 2 ^ 128 end.
Definition net_wf (net : IpNet) : Prop :=
  match net with
  | NetV4 a p => 0 ≤ a < 2 ^ 32 ∧ 0 ≤ p ≤ 32
  | NetV6 a p => 0 ≤ a < 2 ^ 128 ∧ 0 ≤ p ≤ 128
  end.

(** The reference: every address as an IPv6 address, [::ffff:a.b.c.d] for [a.b.c.d]. *)
Definition mapped (v4 : Z) : Z := MAPPED * 2 ^ 32 + v4.
Definition as_v6 (ip : IpAddr) : Z := match ip with V4 x => mapped x | V6 x => x end.
Definition net_as_v6 (net : IpNet) : Z * Z :=
  match net with NetV4 a p => (mapped a, 32 - p) | NetV6 a p => (a, 128 - p) end.
Definition covers (net : IpNet) (ip : IpAddr) : bool :=
  let '(a, host_bits) := net_as_v6 net in Z.shiftr a host_bits =? Z.shiftr (as_v6 ip) host_bits.

Lemma mapped_shift x k : 0 ≤ x < 2 ^ 32 → 0 ≤ k ≤ 32 → Z.shiftr (mapped x) k = MAPPED * 2 ^ (32 - k) + Z.shiftr x k.
Proof.
  intros Hx Hk. unfold mapped. rewrite !Z.shiftr_div_pow2 by lia.
  replace (2 ^ 32) with (2 ^ (32 - k) * 2 ^ k) by (rewrite <- Z.pow_add_r by lia; f_equal; lia).
  rewrite Z.mul_assoc, Z.div_add_l; [done|]. apply Z.pow_nonzero; lia.
Qed.

Lemma mapped_top x : 0 ≤ x < 2 ^ 32 → Z.shiftr (mapped x) 32 = MAPPED.
Proof.
  intros Hx. rewrite mapped_shift by lia. rewrite Z.shiftr_div_pow2 by lia. rewrite Z.div_small by lia.
  by rewrite Z.sub_diag, Z.pow_0_r.
Qed.

Lemma shift_to_top z k : 0 ≤ k ≤ 32 → Z.shiftr (Z.shiftr z k) (32 - k) = Z.shiftr z 32.
Proof. intros Hk. rewrite Z.shiftr_shiftr by lia. f_equal. lia. Qed.

Lemma mapped_of z v4 : 0 ≤ z → to_ipv4_mapped z = Some v4 → z = mapped v4 ∧ 0 ≤ v4 < 2 ^ 32.
Proof.
  intros Hz. unfold to_ipv4_mapped. destruct (Z.eqb_spec (Z.shiftr z 32) MAPPED) as [E|]; [|done]. intros [= <-].
  rewrite Z.land_ones by lia. rewrite Z.shiftr_div_pow2 in E by lia.
  pose proof (Z.mod_pos_bound z (2 ^ 32)). split; [|lia]. unfold mapped. rewrite <- E.
  rewrite (Z.div_mod z (2 ^ 32)) at 1 by lia. lia.
Qed.
Lemma not_mapped z : to_ipv4_mapped z = None → Z.shiftr z 32 ≠ MAPPED.
Proof. unfold to_ipv4_mapped. by destruct (Z.eqb_spec (Z.shiftr z 32) MAPPED). Qed.

(** A client after normalisation. *)
Lemma normal_ip ip : ip_wf ip →
  as_v6 (normalize_ip ip) = as_v6 ip ∧
  match normalize_ip ip with V4 x => 0 ≤ x < 2 ^ 32 | V6 y => 0 ≤ y ∧ Z.shiftr y 32 ≠ MAPPED end.
Proof.
  destruct ip as [x|y]; cbn; [done|]. intros Hy. destruct (to_ipv4_mapped y) as [v4|] eqn:E; cbn.
  - apply mapped_of in E as [-> ?]; [done|lia].
  - apply not_mapped in E. split; [done|]. split; [lia|done].
Qed.

Lemma eqb_shift_mapped a x k : 0 ≤ a < 2 ^ 32 → 0 ≤ x < 2 ^ 32 → 0 ≤ k ≤ 32 →
  (Z.shiftr (mapped a) k =? Z.shiftr (mapped x) k) = (Z.shiftr a k =? Z.shiftr x k).
Proof. intros. rewrite !mapped_shift by lia. apply Bool.eq_iff_eq_true. rewrite !Z.eqb_eq. lia. Qed.

Lemma eqb_shift_other a y k : 0 ≤ k ≤ 32 → Z.shiftr a 32 ≠ Z.shiftr y 32 → (Z.shiftr a k =? Z.shiftr y k) = false.
Proof.
  intros Hk Hne. apply Z.eqb_neq. intros E. apply Hne. rewrite <- (shift_to_top a k), <- (shift_to_top y k) by lia.
  by rewrite E.
Qed.

Section Bans.
Context `{IpNetLaws}.

(** Bans and clients are matched by address, not by spelling.  A network of the blocklist
    bans a client exactly when it covers the client's address, where [a.b.c.d] and
    [::ffff:a.b.c.d] are one address, for networks and clients alike.  Excepted are IPv6
    networks broader than /96 that would cover the IPv4 range: they ban no IPv4 client. *)
Theorem bans_match_by_address net ip :
  net_wf net → ip_wf ip →
  match net with NetV6 _ p => 96 ≤ p ∨ covers net (V4 0) = false | _ => True end →
  is_banned [normalize_net net] ip = covers net ip.
Proof using Type*.
  intros Hn Hip Hbroad. destruct (normal_ip ip Hip) as [Eip Hnorm]. unfold covers. rewrite <- Eip.
  unfold is_banned. cbn [existsb]. rewrite orb_false_r. destruct net as [a p|a p]; cbn [net_as_v6 normalize_net].
  - destruct Hn as [Ha Hp]. destruct (normalize_ip ip) as [x|y]; cbn [net_contains as_v6].
    + rewrite v4_contains_prefix by lia. by rewrite eqb_shift_mapped by lia.
    + symmetry. apply eqb_shift_other; [lia|]. rewrite mapped_top by lia. naive_solver.
  - destruct Hn as [Ha Hp]. set (k := 128 - p) in *.
    assert (Z.shiftr (v6_network a p) k = Z.shiftr a k) as Enet.
    { rewrite v6_network_prefix by lia. fold k. rewrite Z.shiftr_shiftl_l by lia. by rewrite Z.sub_diag, Z.shiftl_0_r. }
    assert (0 ≤ v6_network a p) as Hpos.
    { rewrite v6_network_prefix by lia. apply Z.shiftl_nonneg, Z.shiftr_nonneg. lia. }
    destruct (Z.leb_spec 96 p) as [Hle|Hgt].
    + assert (0 ≤ k ≤ 32) as Hk by lia.
      destruct (to_ipv4_mapped (v6_network a p)) as [v4|] eqn:Em.
      * apply mapped_of in Em as [Em Hv4]; [|done]. rewrite Em in Enet.
        destruct (Z.leb_spec (p - 96) 32); [|lia]. cbn [andb]. rewrite <- Enet.
        destruct (normalize_ip ip) as [x|y]; cbn [net_contains as_v6].
        -- rewrite v4_contains_prefix by lia. replace (32 - (p - 96)) with k by lia. by rewrite eqb_shift_mapped by lia.
        -- symmetry. apply eqb_shift_other; [lia|]. rewrite mapped_top by lia. naive_solver.
      * apply not_mapped in Em. destruct (normalize_ip ip) as [x|y]; cbn [net_contains as_v6].
        -- symmetry. rewrite <- Enet. apply eqb_shift_other; [lia|]. by rewrite mapped_top by lia.
        -- by rewrite v6_contains_prefix by lia.
    + assert (match to_ipv4_mapped (v6_network a p) with
              | Some v4 => if false && (p - 96 <=? 32) then NetV4 v4 (p - 96) else NetV6 a p
              | None => NetV6 a p end = NetV6 a p) as -> by by destruct (to_ipv4_mapped _).
      destruct Hbroad as [|Hbroad]; [lia|]. destruct (normalize_ip ip) as [x|y]; cbn [net_contains as_v6].
      * symmetry. unfold covers in Hbroad. cbn [net_as_v6 as_v6] in Hbroad. fold k in Hbroad.
        rewrite <- Hbroad. f_equal. assert (32 ≤ k) as Hk by lia.
        replace k with (32 + (k - 32)) by lia. rewrite <- !Z.shiftr_shiftr by lia. by rewrite !mapped_top by lia.
      * by rewrite v6_contains_prefix by lia.
Qed.

(** The client does not choose the address it is judged by.  When the trusted proxy
    appended the client's address, as a last entry or a last line, whatever the client wrote
    before it has no effect; without a trusted header it is the socket's address. *)
Theorem proxy_address_decides g name headers earlier line front ip_text ip socket_ip :
  bg_trusted_ip_header g = Some name → headers name = (earlier ++ [Some line])%list →
  split_on "," line = (front ++ [ip_text])%list → parse_ip (trim ip_text) = Some ip →
  reject_banned_ips g headers socket_ip = (if is_banned (bg_nets g) ip then None else Some ip) ∧
  reject_banned_ips (MkBanGuard (bg_nets g) None) headers socket_ip =
    (if is_banned (bg_nets g) socket_ip then None else Some socket_ip).
Proof using Type.
  intros Hg Hh Hs Hp. split; [|done]. unfold reject_banned_ips, client_ip. rewrite Hg, Hh.
  rewrite omap_app, flat_map_app. cbn [omap list_omap id flat_map]. rewrite app_nil_r, Hs, !omap_app.
  cbn [omap list_omap]. rewrite Hp. by rewrite app_assoc, last_snoc.
Qed.
End Bans.

(** ** Networks as documented *)
Definition prefix_nets : IpNets := {|
  ipnet_parse := λ _, None;
  v4_contains := λ a p ip, Z.shiftr a (32 - p) =? Z.shiftr ip (32 - p);
  v6_contains := λ a p ip, Z.shiftr a (128 - p) =? Z.shiftr ip (128 - p);
  v6_network := λ a p, Z.shiftl (Z.shiftr a (128 - p)) (128 - p) |}.
Lemma prefix_nets_laws : @IpNetLaws prefix_nets.
Proof. by constructor. Qed.

(** [::ffff:1.2.3.0/120] bans 1.2.3.5, and bans it as [::ffff:1.2.3.5] too. *)
Lemma bans_match_by_address_witness :
  is_banned (H := prefix_nets) [normalize_net (H := prefix_nets) (NetV6 (mapped 16909056) 120)] (V4 16909061) = true ∧
  is_banned (H := prefix_nets) [normalize_net (H := prefix_nets) (NetV6 (mapped 16909056) 120)] (V6 (mapped 16909061)) = true.
Proof.
  split; rewrite (@bans_match_by_address prefix_nets prefix_nets_laws);
    try (by vm_compute); try (by left); split; vm_compute; intuition congruence.
Defined.

Lemma proxy_address_decides_witness :
  let g := MkBanGuard [NetV4 16909060 32] (Some "x-forwarded-for") in
  let headers : Headers := λ _, [Some "9.9.9.9"; Some "8.8.8.8, 1.2.3.4"] in
  reject_banned_ips (H := prefix_nets) g headers (V4 1) = None.
Proof.
  intros g headers.
  destruct (@proxy_address_decides prefix_nets g "x-forwarded-for" headers [Some "9.9.9.9"]
    "8.8.8.8, 1.2.3.4" ["8.8.8.8"] " 1.2.3.4" (V4 16909060) (V4 1)) as [H _]; [reflexivity..|].
  rewrite H. by vm_compute.
Defined.
