(* ===== verification/Limits.v ===== *)
(** * Allowances of the broker (crates/relay-broker/src/lib.rs)

    The hardening configuration, the sliding-window limiter of requests and frames, the
    token bucket over published bytes, the count of connections per address, the publish
    metrics and the refresh monitoring.

    An [Instant] is a number of nanoseconds; how far back the platform's clock can name an
    instant is an argument.  [f64] arithmetic is IEEE 754 binary64 ([SpecFloat]). *)

From Stdlib Require Import ZArith Lia Ascii String Floats.SpecFloat.
From stdpp Require Import sorting.
From S2P Require Import Prelude RustStr BrokerState Device Patch Blocklist.

Open Scope string_scope.
Open Scope Z_scope.

Definition NANOS : Z := 1000000000.
Definition RATE_LIMIT_WINDOW_SECS : Z := 60.
Definition DEFAULT_PUBLIC_API_RATE_LIMIT_PER_MINUTE : Z := 120.
Definition DEFAULT_JOIN_RATE_LIMIT_PER_MINUTE : Z := 40.
Definition DEFAULT_PUBLISH_RATE_LIMIT_PER_MINUTE : Z := 240.
Definition DEFAULT_RELAY_PUBLISH_RATE_LIMIT_PER_MINUTE : Z := 36000.
Definition DEFAULT_PUBLISH_BYTES_PER_MINUTE : Z := 8 * 1024 * 1024.
Definition DEFAULT_PUBLISH_BURST_BYTES : Z := 2 * 1024 * 1024.
Definition DEFAULT_RELAY_PUBLISH_BYTES_PER_MINUTE : Z := 512 * 1024 * 1024.
Definition DEFAULT_RELAY_PUBLISH_BURST_BYTES : Z := 16 * 1024 * 1024.
Definition GLOBAL_EGRESS_WARN_BYTES_PER_MINUTE : Z := 2 * 1024 * 1024 * 1024.
Definition BYTE_BUCKET_PRUNE_THRESHOLD : nat := Z.to_nat 1024.
Definition DEFAULT_MAX_CONNECTIONS_PER_IP : Z := 24.
Definition DEFAULT_MAX_TEXT_FRAME_BYTES : Z := 64 * 1024.
Definition MIN_MAX_TEXT_FRAME_BYTES : Z := 64 * 1024.
Definition DEFAULT_IDLE_TIMEOUT_SECS : Z := 120.

(** ** Configuration *)
Record BrokerHardeningConfig : Type := MkHardening {
  hc_public_api_rate_limit_per_minute : Z;
  hc_join_rate_limit_per_minute : Z;
  hc_publish_rate_limit_per_minute : Z;
  hc_relay_publish_rate_limit_per_minute : Z;
  hc_publish_bytes_per_minute : Z;
  hc_relay_publish_bytes_per_minute : Z;
  hc_publish_burst_bytes : Z;
  hc_relay_publish_burst_bytes : Z;
  hc_max_connections_per_ip : Z;
  hc_max_text_frame_bytes : Z;
  hc_idle_timeout : Z
}.
Definition hardening_default : BrokerHardeningConfig := {|
  hc_public_api_rate_limit_per_minute := DEFAULT_PUBLIC_API_RATE_LIMIT_PER_MINUTE;
  hc_join_rate_limit_per_minute := DEFAULT_JOIN_RATE_LIMIT_PER_MINUTE;
  hc_publish_rate_limit_per_minute := DEFAULT_PUBLISH_RATE_LIMIT_PER_MINUTE;
  hc_relay_publish_rate_limit_per_minute := DEFAULT_RELAY_PUBLISH_RATE_LIMIT_PER_MINUTE;
  hc_publish_bytes_per_minute := DEFAULT_PUBLISH_BYTES_PER_MINUTE;
  hc_relay_publish_bytes_per_minute := DEFAULT_RELAY_PUBLISH_BYTES_PER_MINUTE;
  hc_publish_burst_bytes := DEFAULT_PUBLISH_BURST_BYTES;
  hc_relay_publish_burst_bytes := DEFAULT_RELAY_PUBLISH_BURST_BYTES;
  hc_max_connections_per_ip := DEFAULT_MAX_CONNECTIONS_PER_IP;
  hc_max_text_frame_bytes := DEFAULT_MAX_TEXT_FRAME_BYTES;
  hc_idle_timeout := DEFAULT_IDLE_TIMEOUT_SECS |}.

(** [std::env::var]. *)
Inductive EnvVar : Type := NotPresent | NotUnicode | Present (value : string).
Definition env_ok (v : EnvVar) : option string := match v with Present s => Some s | _ => None end.
Inductive EnvError : Type := EnvNotInteger (name : string) | EnvNotUnicode (name : string) | EnvNotFlag (name : string).

(** [parse_usize_env] and [parse_u64_env]. *)
Definition parse_usize_env (env : string → EnvVar) (name : string) (dflt : Z) : result Z EnvError :=
  match env name with
  | Present v => ok_or (parse_usize (trim v)) (EnvNotInteger name)
  | NotPresent => Ok dflt
  | NotUnicode => Err (EnvNotUnicode name)
  end.

Definition parse_bool_env (env : string → EnvVar) (name : string) (dflt : bool) : result bool EnvError :=
  match env name with
  | Present v =>
      let v := to_ascii_lowercase (trim v) in
      if is_empty v then Ok dflt
      else if bool_decide (v ∈ ["1"; "true"; "yes"; "on"]) then Ok true
      else if bool_decide (v ∈ ["0"; "false"; "no"; "off"]) then Ok false
      else Err (EnvNotFlag name)
  | NotPresent => Ok dflt
  | NotUnicode => Err (EnvNotUnicode name)
  end.

(** A relay setting falls back to the explicitly configured generic one. *)
Definition resolve_relay_byte_setting (relay_setting generic_setting : option string)
    (relay_name generic_name : string) (dflt : Z) : result Z EnvError :=
  match relay_setting, generic_setting with
  | Some relay, _ => ok_or (parse_usize (trim relay)) (EnvNotInteger relay_name)
  | None, Some generic => ok_or (parse_usize (trim generic)) (EnvNotInteger generic_name)
  | None, None => Ok dflt
  end.
Definition resolve_relay_publish_rate_limit (relay_setting generic_setting : option string) : result Z EnvError :=
  resolve_relay_byte_setting relay_setting generic_setting "RELAY_BROKER_RELAY_PUBLISH_RATE_LIMIT_PER_MINUTE"
    "RELAY_BROKER_PUBLISH_RATE_LIMIT_PER_MINUTE" DEFAULT_RELAY_PUBLISH_RATE_LIMIT_PER_MINUTE.

Definition hardening_from_env (env : string → EnvVar) : result BrokerHardeningConfig EnvError :=
  let resolve relay generic := resolve_relay_byte_setting (env_ok (env relay)) (env_ok (env generic)) relay generic in
  let? public_api := parse_usize_env env "RELAY_BROKER_PUBLIC_API_RATE_LIMIT_PER_MINUTE" DEFAULT_PUBLIC_API_RATE_LIMIT_PER_MINUTE in
  let? join := parse_usize_env env "RELAY_BROKER_JOIN_RATE_LIMIT_PER_MINUTE" DEFAULT_JOIN_RATE_LIMIT_PER_MINUTE in
  let? publish := parse_usize_env env "RELAY_BROKER_PUBLISH_RATE_LIMIT_PER_MINUTE" DEFAULT_PUBLISH_RATE_LIMIT_PER_MINUTE in
  let? relay_publish := resolve_relay_publish_rate_limit
    (env_ok (env "RELAY_BROKER_RELAY_PUBLISH_RATE_LIMIT_PER_MINUTE")) (env_ok (env "RELAY_BROKER_PUBLISH_RATE_LIMIT_PER_MINUTE")) in
  let? bytes := parse_usize_env env "RELAY_BROKER_PUBLISH_BYTES_PER_MINUTE" DEFAULT_PUBLISH_BYTES_PER_MINUTE in
  let? relay_bytes := resolve "RELAY_BROKER_RELAY_PUBLISH_BYTES_PER_MINUTE" "RELAY_BROKER_PUBLISH_BYTES_PER_MINUTE"
    DEFAULT_RELAY_PUBLISH_BYTES_PER_MINUTE in
  let? burst := parse_usize_env env "RELAY_BROKER_PUBLISH_BURST_BYTES" DEFAULT_PUBLISH_BURST_BYTES in
  let? relay_burst := resolve "RELAY_BROKER_RELAY_PUBLISH_BURST_BYTES" "RELAY_BROKER_PUBLISH_BURST_BYTES"
    DEFAULT_RELAY_PUBLISH_BURST_BYTES in
  let? connections := parse_usize_env env "RELAY_BROKER_MAX_CONNECTIONS_PER_IP" DEFAULT_MAX_CONNECTIONS_PER_IP in
  let? frame := parse_usize_env env "RELAY_BROKER_MAX_TEXT_FRAME_BYTES" DEFAULT_MAX_TEXT_FRAME_BYTES in
  let? idle := parse_usize_env env "RELAY_BROKER_IDLE_TIMEOUT_SECS" DEFAULT_IDLE_TIMEOUT_SECS in
  Ok (MkHardening public_api join publish relay_publish bytes relay_bytes burst relay_burst connections frame idle).

Definition frame_limit (c : BrokerHardeningConfig) (role : PeerRole) : Z :=
  match role with PeerRelay => hc_relay_publish_rate_limit_per_minute c | PeerSurface => hc_publish_rate_limit_per_minute c end.
Definition max_text_frame_bytes (c : BrokerHardeningConfig) : Z := Z.max (hc_max_text_frame_bytes c) MIN_MAX_TEXT_FRAME_BYTES.

Record ByteBudget : Type := MkBudget { bb_bytes_per_minute : Z; bb_burst_bytes : Z }.
Definition byte_budget (c : BrokerHardeningConfig) (role : PeerRole) : ByteBudget :=
  let '(bytes, burst) := match role with
    | PeerRelay => (hc_relay_publish_bytes_per_minute c, hc_relay_publish_burst_bytes c)
    | PeerSurface => (hc_publish_bytes_per_minute c, hc_publish_burst_bytes c)
    end in
  MkBudget bytes (Z.max burst (max_text_frame_bytes c)).

(** ** The sliding window *)
Definition WINDOW : Z := RATE_LIMIT_WINDOW_SECS * NANOS.

(** [now.checked_sub(window)]: [None] before the platform's first instant. *)
Definition checked_sub (floor now window : Z) : option Z :=
  if floor <=? now - window then Some (now - window) else None.

Fixpoint pop_expired (cutoff : Z) (bucket : list Z) : list Z :=
  match bucket with
  | t :: rest => if t <=? cutoff then pop_expired cutoff rest else bucket
  | [] => []
  end.

Notation RateBuckets := (gmap string (list Z)).
Definition allow (floor now : Z) (key : string) (limit : Z) (m : RateBuckets) : RateBuckets * bool :=
  let cutoff := default now (checked_sub floor now WINDOW) in
  let bucket := pop_expired cutoff (default [] (m !! key)) in
  if limit <=? Z.of_nat (length bucket) then (<[key := bucket]> m, false)
  else (<[key := (bucket ++ [now])%list]> m, true).

(** ** The byte bucket *)
Notation f64 := spec_float.
Definition f64_of (z : Z) : f64 := binary_normalize 53 1024 z 0 false.
Definition f64_add : f64 → f64 → f64 := SFadd 53 1024.
Definition f64_sub : f64 → f64 → f64 := SFsub 53 1024.
Definition f64_mul : f64 → f64 → f64 := SFmul 53 1024.
Definition f64_div : f64 → f64 → f64 := SFdiv 53 1024.
Definition is_nan (a : f64) : bool := match a with S754_nan => true | _ => false end.
Definition f64_min (a b : f64) : f64 := if is_nan a then b else if is_nan b then a else if SFltb b a then b else a.
Definition f64_max (a b : f64) : f64 := if is_nan a then b else if is_nan b then a else if SFltb a b then b else a.

(** [Duration::as_secs_f64] and, for a finite non-negative number, [from_secs_f64], which
    rounds to the nearest nanosecond, ties to even. *)
Definition as_secs_f64 (nanos : Z) : f64 :=
  f64_add (f64_of (nanos / NANOS)) (f64_div (f64_of (nanos mod NANOS)) (f64_of NANOS)).
Definition from_secs_f64 (s : f64) : Z :=
  match s with
  | S754_finite false m e =>
      if 0 <=? e then Z.pos m * 2 ^ e * NANOS
      else let num := Z.pos m * NANOS in
           let den := 2 ^ (- e) in
           let q := num / den in
           let twice := 2 * (num mod den) in
           if (den <? twice) || ((den =? twice) && Z.odd q) then q + 1 else q
  | _ => 0
  end.

Record ByteBucket : Type := MkBucket { bk_tokens : f64; bk_last_refill : Z; bk_full_at : Z }.
Notation ByteBuckets := (gmap string ByteBucket).

Definition is_disabled (b : ByteBudget) : bool := bb_bytes_per_minute b =? 0.
Definition bytes_per_second (b : ByteBudget) : f64 := f64_div (f64_of (bb_bytes_per_minute b)) (f64_of RATE_LIMIT_WINDOW_SECS).

Definition refilled (now : Z) (budget : ByteBudget) (b : ByteBucket) : f64 :=
  f64_min (f64_add (bk_tokens b) (f64_mul (as_secs_f64 (Z.max 0 (now - bk_last_refill b))) (bytes_per_second budget)))
    (f64_of (bb_burst_bytes budget)).

Definition charge (now : Z) (key : string) (cost : Z) (budget : ByteBudget) (m : ByteBuckets) : ByteBuckets * bool :=
  if is_disabled budget then (m, true) else
  let burst := f64_of (bb_burst_bytes budget) in
  let per_second := bytes_per_second budget in
  let m := if (BYTE_BUCKET_PRUNE_THRESHOLD <? size m)%nat then filter (λ kb, now < bk_full_at kb.2) m else m in
  let bucket := default (MkBucket burst now now) (m !! key) in
  let tokens := refilled now budget bucket in
  let affordable := SFleb (f64_of cost) tokens in
  let tokens := if affordable then f64_sub tokens (f64_of cost) else tokens in
  let deficit := f64_max (f64_sub burst tokens) (S754_zero false) in
  let seconds_to_full := if SFltb (S754_zero false) per_second then f64_div deficit per_second else S754_zero false in
  let full_at := now + from_secs_f64 (f64_min seconds_to_full (f64_of u32_max)) in
  (<[key := MkBucket tokens now full_at]> m, affordable).

(** ** Connections per address *)
Notation ConnectionCounts := (gmap IpAddr nat).
Definition try_acquire (ip : IpAddr) (limit : Z) (m : ConnectionCounts) : ConnectionCounts * bool :=
  let n := default 0%nat (m !! ip) in
  if limit <=? Z.of_nat n then (<[ip := n]> m, false) else (<[ip := S n]> m, true).
(** The drop of a permit. *)
Definition release (ip : IpAddr) (m : ConnectionCounts) : ConnectionCounts :=
  match m !! ip with
  | None => m
  | Some n => if (n <=? 1)%nat then delete ip m else <[ip := (n - 1)%nat]> m
  end.

(** ** Metrics *)
Record PublishMetrics : Type := MkMetrics {
  pm_frame_limit_exceeded : Z;
  pm_byte_limit_exceeded : Z;
  pm_published_bytes : Z;
  pm_egress_bytes : Z;
  pm_peak_egress_bytes_per_minute : Z;
  pm_global_egress_warnings : Z;
  pm_egress_window_bytes : Z;
  pm_egress_window_started : option Z
}.
#[export] Instance PublishMetrics_expand : Expand PublishMetrics := λ m,
  MkMetrics (pm_frame_limit_exceeded m) (pm_byte_limit_exceeded m) (pm_published_bytes m) (pm_egress_bytes m)
    (pm_peak_egress_bytes_per_minute m) (pm_global_egress_warnings m) (pm_egress_window_bytes m)
    (pm_egress_window_started m).
Definition metrics_init : PublishMetrics := MkMetrics 0 0 0 0 0 0 0 None.

Definition record_frame_limited (m : PublishMetrics) : PublishMetrics := m <| pm_frame_limit_exceeded ::= λ n, u64_add n 1 |>.
Definition record_byte_limited (m : PublishMetrics) : PublishMetrics := m <| pm_byte_limit_exceeded ::= λ n, u64_add n 1 |>.
Definition record_published (bytes : Z) (m : PublishMetrics) : PublishMetrics := m <| pm_published_bytes ::= λ n, u64_add n bytes |>.

Definition close_elapsed_window (now : Z) (m : PublishMetrics) : PublishMetrics :=
  let started := default now (pm_egress_window_started m) in
  let m := m <| pm_egress_window_started := Some started |> in
  if Z.max 0 (now - started) / NANOS <? RATE_LIMIT_WINDOW_SECS then m
  else
    let completed := pm_egress_window_bytes m in
    let m := m <| pm_peak_egress_bytes_per_minute ::= Z.max completed |> in
    let m := if GLOBAL_EGRESS_WARN_BYTES_PER_MINUTE <? completed
             then m <| pm_global_egress_warnings ::= λ n, u64_add n 1 |> else m in
    m <| pm_egress_window_bytes := 0 |> <| pm_egress_window_started := Some now |>.
Definition record_egress (now bytes : Z) (m : PublishMetrics) : PublishMetrics :=
  let m := m <| pm_egress_bytes ::= λ n, u64_add n bytes |> in
  close_elapsed_window now m <| pm_egress_window_bytes ::= λ n, u64_add n bytes |>.
Definition metrics_snapshot (now : Z) (m : PublishMetrics) : PublishMetrics := close_elapsed_window now m.

(** ** Monitoring of refreshes *)
Inductive RefreshChainKind : Type := ChainRelayWsToken | ChainDeviceWsToken | ChainClientIdentity.
Record RequestEnvironment : Type := MkEnvironment { re_origin : option string; re_user_agent_hash : option string }.
#[export] Instance RequestEnvironment_eq_dec : EqDecision RequestEnvironment.
Proof. solve_decision. Defined.

Record PublicMonitoring : Type := MkMonitoring {
  mo_relay_ws_token_refresh_successes : Z;
  mo_relay_ws_token_refresh_failures : Z;
  mo_device_ws_token_refresh_successes : Z;
  mo_device_ws_token_refresh_failures : Z;
  mo_invalid_refresh_token_uses : Z;
  mo_repeated_invalid_refresh_token_uses : Z;
  mo_environment_mutation_events : Z;
  mo_invalid_refresh_token_counts : gmap string Z;
  mo_observed_chain_environments : gmap string RequestEnvironment
}.
#[export] Instance PublicMonitoring_expand : Expand PublicMonitoring := λ m,
  MkMonitoring (mo_relay_ws_token_refresh_successes m) (mo_relay_ws_token_refresh_failures m)
    (mo_device_ws_token_refresh_successes m) (mo_device_ws_token_refresh_failures m)
    (mo_invalid_refresh_token_uses m) (mo_repeated_invalid_refresh_token_uses m)
    (mo_environment_mutation_events m) (mo_invalid_refresh_token_counts m) (mo_observed_chain_environments m).
Definition monitoring_init : PublicMonitoring := MkMonitoring 0 0 0 0 0 0 0 ∅ ∅.
Definition incr (n : Z) : Z := u64_add n 1.

Definition record_refresh_success (kind : RefreshChainKind) (m : PublicMonitoring) : PublicMonitoring :=
  match kind with
  | ChainRelayWsToken => m <| mo_relay_ws_token_refresh_successes ::= incr |>
  | ChainDeviceWsToken => m <| mo_device_ws_token_refresh_successes ::= incr |>
  | ChainClientIdentity => m
  end.

Section Monitoring.
Context `{DeviceCrypto}.

(** [invalid]: the message says that a refresh token is invalid. *)
Definition record_refresh_failure (kind : RefreshChainKind) (bearer : string) (invalid : bool) (m : PublicMonitoring) :
    PublicMonitoring :=
  let m := match kind with
           | ChainRelayWsToken => m <| mo_relay_ws_token_refresh_failures ::= incr |>
           | ChainDeviceWsToken => m <| mo_device_ws_token_refresh_failures ::= incr |>
           | ChainClientIdentity => m
           end in
  if negb invalid then m else
  let m := m <| mo_invalid_refresh_token_uses ::= incr |> in
  let token_hash := sha256_hex (trim bearer) in
  let attempts := incr (default 0 (mo_invalid_refresh_token_counts m !! token_hash)) in
  let m := m <| mo_invalid_refresh_token_counts ::= <[token_hash := attempts]> |> in
  if 1 <? attempts then m <| mo_repeated_invalid_refresh_token_uses ::= incr |> else m.

Definition observe_chain_environment (chain_key : string) (environment : option RequestEnvironment)
    (m : PublicMonitoring) : PublicMonitoring :=
  match environment with
  | None => m
  | Some e =>
      let previous := mo_observed_chain_environments m !! chain_key in
      let m := m <| mo_observed_chain_environments ::= <[chain_key := e]> |> in
      match previous with
      | Some p => if bool_decide (p = e) then m else m <| mo_environment_mutation_events ::= incr |>
      | None => m
      end
  end.
End Monitoring.

(** * Allowances: theorems

    The sliding window admits exactly what its definition by counting admits, the count of
    connections is that of the live permits, and a frame within the cap is never beyond an
    untouched byte budget. *)
(** ** The sliding window *)
Record Call : Type := MkCall { ca_at : Z; ca_key : string; ca_limit : Z }.

(** The answers of the limiter to a sequence of calls. *)
Fixpoint answers (floor : Z) (calls : list Call) (m : RateBuckets) : list bool :=
  match calls with
  | [] => []
  | c :: calls => let '(m, b) := allow floor (ca_at c) (ca_key c) (ca_limit c) m in b :: answers floor calls m
  end.

(** The reference keeps every accepted call and counts those of the last minute. *)
Definition recent (key : string) (after : Z) (history : list Call) : list Call :=
  filter (λ c, ca_key c = key ∧ after < ca_at c) history.
Definition within_limit (c : Call) (history : list Call) : bool :=
  Z.of_nat (length (recent (ca_key c) (ca_at c - WINDOW) history)) <? ca_limit c.
Fixpoint counted_answers (calls history : list Call) : list bool :=
  match calls with
  | [] => []
  | c :: calls =>
      let b := within_limit c history in
      b :: counted_answers calls (if b then history ++ [c] else history)%list
  end.
(** The accepted calls, in order. *)
Definition accepted (calls : list Call) (bs : list bool) : list Call :=
  omap (λ '(c, b), if b : bool then Some c else None) (zip calls bs).

Definition by_time (a b : Call) : Prop := ca_at a ≤ ca_at b.
#[export] Instance by_time_trans : Transitive by_time.
Proof. unfold by_time. intros ???. lia. Qed.

Lemma pop_expired_filter cutoff l : StronglySorted Z.le l → pop_expired cutoff l = filter (λ t, cutoff < t) l.
Proof.
  induction 1 as [|t l Hs IH Hall]; [done|]. cbn [pop_expired]. destruct (Z.leb_spec t cutoff).
  - rewrite filter_cons_False by lia. exact IH.
  - rewrite filter_cons_True by lia. f_equal. clear Hs IH. induction Hall as [|x l Hx _ IH]; [done|].
    rewrite filter_cons_True by lia. by f_equal.
Qed.

Lemma recent_sorted key after history :
  StronglySorted by_time history → StronglySorted Z.le (map ca_at (recent key after history)).
Proof.
  unfold recent. induction 1 as [|c l Hs IH Hall]; [constructor|]. destruct (decide (ca_key c = key ∧ after < ca_at c)).
  - rewrite filter_cons_True by done. cbn. constructor; [exact IH|].
    apply Forall_forall. intros x (c' & -> & [_ Hc']%list_elem_of_filter)%list_elem_of_fmap.
    rewrite Forall_forall in Hall. by apply Hall.
  - rewrite filter_cons_False by done. exact IH.
Qed.

Lemma recent_narrow key a b history : a ≤ b →
  filter (λ t, b < t) (map ca_at (recent key a history)) = map ca_at (recent key b history).
Proof.
  intros Hab. unfold recent. induction history as [|c l IH]; [done|].
  destruct (decide (ca_key c = key ∧ a < ca_at c)) as [[Hk Ha]|Hn].
  - rewrite (filter_cons_True (λ c, ca_key c = key ∧ a < ca_at c)) by done. cbn [map]. destruct (decide (b < ca_at c)).
    + rewrite (filter_cons_True (λ t, b < t)) by done. rewrite filter_cons_True by done. cbn [map]. by f_equal.
    + rewrite (filter_cons_False (λ t, b < t)) by done. rewrite filter_cons_False by tauto. exact IH.
  - rewrite (filter_cons_False (λ c, ca_key c = key ∧ a < ca_at c)) by done. assert (¬ (ca_key c = key ∧ b < ca_at c)) as Hn' by (intros [? ?]; apply Hn; split; [done|lia]).
    rewrite filter_cons_False by done. exact IH.
Qed.

(** What a bucket holds after calls up to [now]. *)
Definition buckets_hold (now : Z) (m : RateBuckets) (history : list Call) : Prop :=
  ∀ key, ∃ c, c ≤ now - WINDOW ∧ default [] (m !! key) = map ca_at (recent key c history).

Lemma recent_snoc key after history c :
  recent key after (history ++ [c]) =
    (recent key after history ++ if decide (ca_key c = key ∧ after < ca_at c) then [c] else [])%list.
Proof. unfold recent. by rewrite filter_app. Qed.

Lemma allow_counts floor c m history :
  floor ≤ ca_at c - WINDOW → StronglySorted by_time history → buckets_hold (ca_at c) m history →
  let '(m', b) := allow floor (ca_at c) (ca_key c) (ca_limit c) m in
  b = within_limit c history ∧ buckets_hold (ca_at c) m' (if b then history ++ [c] else history)%list.
Proof.
  intros Hfloor Hs Hm. unfold allow, checked_sub. destruct (Z.leb_spec floor (ca_at c - WINDOW)); [|lia]. cbn [default id].
  destruct (Hm (ca_key c)) as (old & Hold & E). rewrite E.
  rewrite pop_expired_filter, recent_narrow by first [done|by apply recent_sorted].
  rewrite length_map. unfold within_limit. set (n := length _).
  assert (WINDOW = 60 * 1000000000) as HW by reflexivity.
  destruct (Z.leb_spec (ca_limit c) (Z.of_nat n)) as [Hle|Hgt].
  - split; [symmetry; by apply Z.ltb_ge|]. intros key. destruct (decide (ca_key c = key)) as [Hk|Hne].
    + exists (ca_at c - WINDOW). split; [lia|]. rewrite <- Hk. by rewrite lookup_insert_eq.
    + rewrite lookup_insert_ne by done. apply Hm.
  - split; [symmetry; by apply Z.ltb_lt|]. intros key. destruct (decide (ca_key c = key)) as [Hk|Hne].
    + exists (ca_at c - WINDOW). split; [lia|]. rewrite <- Hk. rewrite lookup_insert_eq. cbn. rewrite recent_snoc, map_app.
      rewrite decide_True by (split; [done|lia]). done.
    + rewrite lookup_insert_ne by done. destruct (Hm key) as (k & Hk & Ek). exists k. split; [done|].
      rewrite recent_snoc, decide_False by tauto. by rewrite app_nil_r.
Qed.

Lemma answers_counted floor calls : ∀ now m history,
  StronglySorted by_time (history ++ calls)%list →
  Forall (λ c, now ≤ ca_at c ∧ floor ≤ ca_at c - WINDOW) calls → buckets_hold now m history →
  answers floor calls m = counted_answers calls history.
Proof.
  induction calls as [|c calls IH]; intros now m history Hs Hc Hm; [done|]. cbn [answers counted_answers].
  apply Forall_cons in Hc as [[Hnow Hfloor] Hc].
  assert (buckets_hold (ca_at c) m history) as Hm' by (intros key; destruct (Hm key) as (k & ? & E); exists k; split; [lia|done]).
  pose proof (allow_counts floor c m history Hfloor (StronglySorted_app_1_l _ _ _ Hs) Hm') as Ha.
  destruct (allow _ _ _ _ _) as [m' b]. destruct Ha as [-> Hm2]. f_equal.
  assert (StronglySorted by_time (history ++ [c] ++ calls)) as Hs' by done.
  apply (IH (ca_at c)); [|..|done].
  - destruct (within_limit c history); [by rewrite <- app_assoc|].
    rewrite !StronglySorted_app in Hs'. rewrite StronglySorted_app. destruct Hs' as (H1 & H2 & _ & _ & H3).
    split_and!; [|done..]. intros x y Hx Hy. apply H1; [done|]. apply elem_of_app. by right.
  - apply StronglySorted_app_1_r, StronglySorted_inv in Hs' as [_ H3]. rewrite Forall_forall in *. intros x Hx. split; [by apply H3|by apply Hc].
Qed.

(** What the reference accepts is bounded in every window. *)
Lemma recent_le key a b history : a ≤ b → (length (recent key b history) ≤ length (recent key a history))%nat.
Proof.
  intros Hab. unfold recent. induction history as [|c l IH]; [done|].
  destruct (decide (ca_key c = key ∧ b < ca_at c)) as [[Hk Hb]|Hn].
  - rewrite (filter_cons_True (λ c, ca_key c = key ∧ b < ca_at c)) by done. rewrite filter_cons_True by (split; [done|lia]). cbn. lia.
  - rewrite filter_cons_False by done. destruct (decide (ca_key c = key ∧ a < ca_at c)).
    + rewrite filter_cons_True by done. cbn. lia.
    + by rewrite filter_cons_False.
Qed.

Definition in_window (key : string) (t : Z) (history : list Call) : list Call :=
  filter (λ c, ca_key c = key ∧ t - WINDOW < ca_at c ∧ ca_at c ≤ t) history.

Lemma in_window_recent key t history : (length (in_window key t history) ≤ length (recent key (t - WINDOW) history))%nat.
Proof.
  unfold in_window, recent. induction history as [|c l IH]; [done|].
  destruct (decide (ca_key c = key ∧ t - WINDOW < ca_at c ∧ ca_at c ≤ t)) as [(Hk & Hb & Ht)|Hn].
  - rewrite filter_cons_True by done. rewrite filter_cons_True by done. cbn. lia.
  - rewrite filter_cons_False by done. destruct (decide (ca_key c = key ∧ t - WINDOW < ca_at c)).
    + rewrite filter_cons_True by done. cbn. lia.
    + by rewrite filter_cons_False.
Qed.

Lemma counted_bounded key t limit calls : ∀ history,
  Forall (λ c, ca_key c = key → ca_limit c ≤ limit) calls →
  Z.of_nat (length (in_window key t history)) ≤ limit →
  Z.of_nat (length (in_window key t (history ++ accepted calls (counted_answers calls history)))) ≤ limit.
Proof.
  induction calls as [|c calls IH]; intros history Hl Hh; [by rewrite app_nil_r|].
  apply Forall_cons in Hl as [Hc Hl]. cbn [counted_answers]. unfold accepted. cbn [zip zip_with omap list_omap].
  destruct (within_limit c history) eqn:Ew; [|by apply IH].
  change (?h ++ c :: ?l)%list with (h ++ [c] ++ l)%list. rewrite app_assoc. apply IH; [done|].
  unfold in_window. rewrite filter_app, length_app. fold (in_window key t history).
  destruct (decide (ca_key c = key ∧ t - WINDOW < ca_at c ∧ ca_at c ≤ t)) as [(Hk & Hb & Ht)|Hn].
  - rewrite filter_cons_True by done. cbn. unfold within_limit in Ew. apply Z.ltb_lt in Ew. rewrite Hk in Ew. specialize (Hc Hk).
    pose proof (recent_le key (ca_at c - WINDOW) (t - WINDOW) history ltac:(lia)). pose proof (in_window_recent key t history). lia.
  - rewrite filter_cons_False by done. cbn. lia.
Qed.

(** C26: the sliding window is exact.  For calls in the order of their times, on a clock that
    can name the instant a minute earlier, the limiter answers as counting does: a call is
    admitted exactly when fewer than its limit of calls for its key were admitted in the
    minute before it.  So no minute ever holds more admitted calls of a key than its
    limit. *)
Theorem rate_limit_is_exact floor calls :
  StronglySorted by_time calls → Forall (λ c, floor ≤ ca_at c - WINDOW) calls →
  answers floor calls ∅ = counted_answers calls [] ∧
  ∀ key limit t, 0 ≤ limit → Forall (λ c, ca_key c = key → ca_limit c ≤ limit) calls →
    Z.of_nat (length (in_window key t (accepted calls (answers floor calls ∅)))) ≤ limit.
Proof.
  intros Hs Hf. assert (answers floor calls ∅ = counted_answers calls []) as E.
  { destruct calls as [|c0 calls]; [done|]. apply (answers_counted floor _ (ca_at c0)); [done|..].
    - apply Forall_and. split; [|done]. apply StronglySorted_inv in Hs as [_ Hs]. constructor; [lia|exact Hs].
    - intros key. exists (ca_at c0 - WINDOW). split; [lia|]. by rewrite lookup_empty. }
  split; [done|]. intros key limit t Hl Hc. rewrite E. by apply (counted_bounded key t limit calls []).
Qed.

Lemma rate_limit_is_exact_witness :
  let call t := MkCall (t * NANOS) "join:1.2.3.4:room" 2 in
  answers (-100 * NANOS) (map call [0; 10; 20; 61; 69; 71]) ∅ = [true; true; false; true; false; true].
Proof.
  intros call. destruct (rate_limit_is_exact (-100 * NANOS) (map call [0; 10; 20; 61; 69; 71])) as [-> _].
  - repeat constructor; vm_compute; discriminate.
  - repeat constructor; vm_compute; discriminate.
  - vm_compute. reflexivity.
Defined.

(** On a clock whose first instant is less than a minute ago the cutoff is the present, which
    forgets every call: nothing is ever refused. *)
Lemma young_clock_refuses_nothing floor now key limit m :
  now - WINDOW < floor → 0 < limit → Forall (λ t, t ≤ now) (default [] (m !! key)) →
  (allow floor now key limit m).2 = true.
Proof.
  intros Hf Hl Hall. unfold allow, checked_sub. destruct (Z.leb_spec floor (now - WINDOW)); [lia|]. cbn [default].
  assert (pop_expired now (default [] (m !! key)) = []) as ->.
  { induction Hall as [|t l Ht Hall IH]; [done|]. cbn. by rewrite (proj2 (Z.leb_le _ _) Ht). }
  destruct (Z.leb_spec limit (Z.of_nat (length ([] : list Z)))); [cbn in *; lia|done].
Qed.

(** ** Connections *)
Inductive ConnEvent : Type := Connect (ip : IpAddr) | Disconnect (ip : IpAddr).
Definition live (ip : IpAddr) (permits : list IpAddr) : nat := length (filter (λ i, i = ip) permits).

(** The permits held after a sequence of events; only a held permit is dropped. *)
Fixpoint connections (limit : Z) (events : list ConnEvent) (m : ConnectionCounts) (permits : list IpAddr) :
    ConnectionCounts * list IpAddr :=
  match events with
  | [] => (m, permits)
  | Connect ip :: events =>
      let '(m, ok) := try_acquire ip limit m in
      connections limit events m (if ok then ip :: permits else permits)
  | Disconnect ip :: events =>
      match list_find (λ i, i = ip) permits with
      | Some (i, _) => connections limit events (release ip m) (delete i permits)
      | None => connections limit events m permits
      end
  end.

Definition counted (limit : Z) (m : ConnectionCounts) (permits : list IpAddr) : Prop :=
  ∀ ip, default 0%nat (m !! ip) = live ip permits ∧ Z.of_nat (live ip permits) ≤ limit.

Lemma live_cons ip i l : live ip (i :: l) = ((if decide (i = ip) then 1 else 0) + live ip l)%nat.
Proof. unfold live, filter. cbn. by destruct (decide (i = ip)). Qed.
Lemma live_delete ip l k i : l !! k = Some i →
  live ip l = ((if decide (i = ip) then 1 else 0) + live ip (delete k l))%nat.
Proof.
  intros Hk. unfold live. rewrite (delete_take_drop l k), filter_app, length_app.
  rewrite <- (take_drop_middle l k i Hk) at 1. rewrite filter_app, length_app.
  change (filter (λ i, i = ip) (i :: drop (S k) l)) with (filter (λ i, i = ip) ([i] ++ drop (S k) l)%list).
  rewrite filter_app, length_app. unfold filter at 2, list_filter at 2. destruct (decide (i = ip)); cbn; lia.
Qed.

Lemma acquire_counted limit ip m permits : 0 ≤ limit → counted limit m permits →
  let '(m', ok) := try_acquire ip limit m in
  counted limit m' (if ok then ip :: permits else permits) ∧ ok = (Z.of_nat (live ip permits) <? limit).
Proof.
  intros Hl Hm. unfold try_acquire. destruct (Hm ip) as [E _]. rewrite E.
  destruct (Z.leb_spec limit (Z.of_nat (live ip permits))) as [Hle|Hgt]; (split; [|symmetry; first [by apply Z.ltb_ge|by apply Z.ltb_lt]]).
  - intros i. destruct (Hm i) as [Ei Hi]. split; [|done]. destruct (decide (ip = i)) as [<-|].
    + by rewrite lookup_insert_eq.
    + by rewrite lookup_insert_ne.
  - intros i. destruct (Hm i) as [Ei Hi]. rewrite live_cons. destruct (decide (ip = i)) as [<-|].
    + rewrite lookup_insert_eq. cbn. split; lia.
    + rewrite lookup_insert_ne by done. done.
Qed.

Lemma release_counted limit ip m permits k : counted limit m permits → permits !! k = Some ip →
  counted limit (release ip m) (delete k permits).
Proof.
  intros Hm Hk i. destruct (Hm i) as [Ei Hi]. rewrite (live_delete i permits k ip Hk) in Ei, Hi.
  destruct (Hm ip) as [Ep _]. rewrite (live_delete ip permits k ip Hk), decide_True in Ep by done.
  unfold release. destruct (m !! ip) as [n|] eqn:En; cbn in Ep; [|lia]. destruct (decide (ip = i)) as [<-|Hne].
  - rewrite En in Ei. cbn in Ei. destruct (Nat.leb_spec n 1).
    + rewrite lookup_delete_eq. cbn. lia.
    + rewrite lookup_insert_eq. cbn. lia.
  - destruct (n <=? 1)%nat; [rewrite lookup_delete_ne by done|rewrite lookup_insert_ne by done]; by split.
Qed.

(** Connections are counted.  Whatever connects and disconnects, the count of an address
    is the number of permits it holds, which never exceeds the limit, and a connection is
    refused exactly when the address holds that many. *)
Theorem connections_are_counted limit events : 0 ≤ limit →
  let '(m, permits) := connections limit events ∅ [] in
  counted limit m permits ∧ ∀ ip, (try_acquire ip limit m).2 = (Z.of_nat (live ip permits) <? limit).
Proof.
  intros Hl. assert (∀ m permits, counted limit m permits →
    counted limit (connections limit events m permits).1 (connections limit events m permits).2) as Hc.
  { induction events as [|[ip|ip] events IH]; intros m permits Hm; [done|..]; cbn [connections].
    - pose proof (acquire_counted limit ip m permits Hl Hm) as Ha. destruct (try_acquire ip limit m) as [m' ok].
      destruct Ha as [Ha _]. by apply IH.
    - destruct (list_find _ permits) as [[k i]|] eqn:E; [|by apply IH].
      apply list_find_Some in E as (Hk & -> & _). apply IH. by apply release_counted. }
  specialize (Hc ∅ []). destruct (connections limit events ∅ []) as [m permits].
  assert (counted limit m permits) as Hm. { apply Hc. intros ip. by rewrite lookup_empty. }
  split; [done|]. intros ip. pose proof (acquire_counted limit ip m permits Hl Hm) as Ha.
  destruct (try_acquire ip limit m). by destruct Ha.
Qed.

Lemma connections_are_counted_witness :
  let ip := V4 16909060 in
  (connections 1 [Connect ip; Connect ip; Disconnect ip] ∅ []).2 = [] ∧
  counted 1 (connections 1 [Connect ip; Connect ip; Disconnect ip] ∅ []).1 [].
Proof.
  intros ip. pose proof (connections_are_counted 1 [Connect ip; Connect ip; Disconnect ip] ltac:(lia)) as H.
  split; [by vm_compute|]. exact (proj1 H).
Defined.

(** ** The byte bucket *)
Lemma digits_iter_xO p d : Z.pos (digits2_pos (Pos.iter xO p d)) = Z.pos (digits2_pos p) + Z.pos d.
Proof.
  induction d as [|d IH] using Pos.peano_ind; [cbn; lia|].
  rewrite Pos.iter_succ. cbn [digits2_pos]. lia.
Qed.
Lemma iter_xO_value p d : Z.pos (Pos.iter xO p d) = Z.pos p * 2 ^ Z.pos d.
Proof.
  induction d as [|d IH] using Pos.peano_ind; [cbn; lia|].
  rewrite Pos.iter_succ. rewrite Pos2Z.inj_succ, Z.pow_succ_r by lia. lia.
Qed.
Lemma digits_bounds p : 2 ^ (Z.pos (digits2_pos p) - 1) ≤ Z.pos p < 2 ^ Z.pos (digits2_pos p).
Proof.
  induction p as [p IH|p IH|]; cbn [digits2_pos]; rewrite ?Pos2Z.inj_succ; [..|cbn; lia];
    replace (Z.succ (Z.pos (digits2_pos p)) - 1) with (Z.succ (Z.pos (digits2_pos p) - 1)) by lia;
    rewrite !Z.pow_succ_r by lia; lia.
Qed.
Lemma digits_mono p q : Z.pos p ≤ Z.pos q → Z.pos (digits2_pos p) ≤ Z.pos (digits2_pos q).
Proof.
  intros Hpq. pose proof (digits_bounds p). pose proof (digits_bounds q).
  destruct (Z.le_gt_cases (Z.pos (digits2_pos p)) (Z.pos (digits2_pos q))); [done|].
  pose proof (Z.pow_le_mono_r 2 (Z.pos (digits2_pos q)) (Z.pos (digits2_pos p) - 1)). lia.
Qed.
Lemma digits_small p : Z.pos p < 2 ^ 53 → Z.pos (digits2_pos p) ≤ 53.
Proof.
  intros Hp. pose proof (digits_bounds p). destruct (Z.le_gt_cases (Z.pos (digits2_pos p)) 53); [done|].
  pose proof (Z.pow_le_mono_r 2 53 (Z.pos (digits2_pos p) - 1)). lia.
Qed.

(** An integer below 2^53 as a float: exact, its mantissa shifted to 53 bits. *)
Definition aligned (p : positive) : positive := (shl_align p 0 (Z.pos (digits2_pos p) - 53)).1.
Lemma aligned_spec p : Z.pos p < 2 ^ 53 →
  shl_align p 0 (Z.pos (digits2_pos p) - 53) = (aligned p, Z.pos (digits2_pos p) - 53) ∧
  Z.pos (digits2_pos (aligned p)) = 53 ∧ Z.pos (aligned p) = Z.pos p * 2 ^ (53 - Z.pos (digits2_pos p)).
Proof.
  intros Hp. pose proof (digits_small p Hp). unfold aligned, shl_align. rewrite Z.sub_0_r.
  destruct (Z.pos (digits2_pos p) - 53) as [|d|d] eqn:E; cbn [fst]; [|lia|].
  - split; [done|]. replace (53 - Z.pos (digits2_pos p)) with 0 by lia. rewrite Z.pow_0_r. lia.
  - rewrite digits_iter_xO, iter_xO_value. split; [done|]. split; [lia|]. do 2 f_equal. lia.
Qed.
Lemma shr_fexp_exact m e : Z.pos (digits2_pos m) = 53 → -1074 ≤ e →
  shr_fexp 53 1024 (Z.pos m) e loc_Exact = (Build_shr_record (Z.pos m) false false, e).
Proof.
  intros Hd He. unfold shr_fexp, fexp. cbn [Zdigits2]. rewrite Hd. unfold emin.
  replace (Z.max (53 + e - 53) (3 - 1024 - 53) - e) with 0 by lia. done.
Qed.
Lemma f64_of_pos p : Z.pos p < 2 ^ 53 → f64_of (Z.pos p) = S754_finite false (aligned p) (Z.pos (digits2_pos p) - 53).
Proof.
  intros Hp. destruct (aligned_spec p Hp) as (Es & Hd & _). pose proof (digits_small p Hp).
  unfold f64_of, binary_normalize, binary_round. unfold fexp, emin. rewrite Z.add_0_r.
  replace (Z.max (Z.pos (digits2_pos p) - 53) (3 - 1024 - 53)) with (Z.pos (digits2_pos p) - 53) by lia.
  rewrite Es. unfold binary_round_aux. rewrite shr_fexp_exact by lia. cbn [shr_m loc_of_shr_record round_nearest_even].
  rewrite shr_fexp_exact by lia. cbn [shr_m]. destruct (Z.leb_spec (Z.pos (digits2_pos p) - 53) (1024 - 53)); [done|lia].
Qed.

(** The conversion keeps the order. *)
Lemma f64_of_mono a b : 0 ≤ a ≤ b → b < 2 ^ 53 → SFleb (f64_of a) (f64_of b) = true.
Proof.
  intros Hab Hb. destruct a as [|p|]; [|destruct b as [|q|]; try lia|lia].
  - destruct b as [|q|]; [done| |lia]. by rewrite f64_of_pos.
  - rewrite !f64_of_pos by lia. unfold SFleb, SFcompare. pose proof (digits_mono p q ltac:(lia)).
    destruct (Z.compare_spec (Z.pos (digits2_pos p) - 53) (Z.pos (digits2_pos q) - 53)) as [E|?|?]; [|done|lia].
    destruct (aligned_spec p) as (_ & _ & Ep); [lia|]. destruct (aligned_spec q) as (_ & _ & Eql); [lia|].
    change (Pos.compare_cont Eq (aligned p) (aligned q)) with (aligned p ?= aligned q)%positive.
    assert (Z.pos (aligned p) ≤ Z.pos (aligned q)) as Hle.
    { rewrite Ep, Eql. replace (Z.pos (digits2_pos p)) with (Z.pos (digits2_pos q)) by lia.
      apply Z.mul_le_mono_nonneg_r; [|lia]. apply Z.pow_nonneg. lia. }
    destruct (Pos.compare_spec (aligned p) (aligned q)); [done..|lia].
Qed.

Lemma f64_of_finite z : 0 < z < 2 ^ 53 → ∃ m e, f64_of z = S754_finite false m e.
Proof. intros Hz. destruct z as [|p|]; [lia| |lia]. rewrite f64_of_pos by lia. eauto. Qed.

(** A bucket that was never charged is full. *)
Lemma fresh_bucket_full now budget : 0 < bb_burst_bytes budget < 2 ^ 53 →
  refilled now budget (MkBucket (f64_of (bb_burst_bytes budget)) now now) = f64_of (bb_burst_bytes budget).
Proof.
  intros Hb. unfold refilled. cbn [bk_tokens bk_last_refill]. rewrite Z.sub_diag, Z.max_id.
  assert (SFleb (f64_of (bb_burst_bytes budget)) (f64_of (bb_burst_bytes budget)) = true) as Hrefl by (apply f64_of_mono; lia).
  destruct (f64_of_finite (bb_burst_bytes budget) Hb) as (m & e & E). rewrite E in *.
  change (as_secs_f64 0) with (S754_zero false).
  destruct (bytes_per_second budget); cbn [f64_mul SFmul f64_add SFadd]; unfold f64_min; cbn [is_nan]; try done;
    unfold SFltb, SFleb in *; destruct (SFcompare (S754_finite false m e) (S754_finite false m e)) as [[]|]; done.
Qed.

(** No frame is beyond the byte budget for ever.  Whatever the burst is configured to, a
    role's burst holds the largest frame the broker accepts, which is at least what a relay
    is compiled to send; a peer that has not been charged, or whose bucket was pruned, can
    pay for any frame within the cap; a refused charge takes nothing from the bucket. *)
Theorem frame_is_affordable c role now key cost m :
  0 ≤ cost ≤ max_text_frame_bytes c → bb_burst_bytes (byte_budget c role) < 2 ^ 53 →
  MIN_MAX_TEXT_FRAME_BYTES ≤ max_text_frame_bytes c ≤ bb_burst_bytes (byte_budget c role) ∧
  (m !! key = None → (charge now key cost (byte_budget c role) m).2 = true) ∧
  ∀ budget cost' b, (charge now key cost' budget m).2 = false →
    (charge now key cost' budget m).1 !! key = Some b →
    bk_tokens b = refilled now budget (default (MkBucket (f64_of (bb_burst_bytes budget)) now now)
      ((if (BYTE_BUCKET_PRUNE_THRESHOLD <? size m)%nat then filter (λ kb, now < bk_full_at kb.2) m else m) !! key)).
Proof.
  intros Hcost Hb. split; [|split].
  - unfold byte_budget, max_text_frame_bytes. destruct role; cbn; lia.
  - intros Hm. unfold charge. destruct (is_disabled _); [done|]. cbn [snd].
    set (m' := if (_ <? _)%nat then _ else _). assert (m' !! key = None) as ->.
    { unfold m'. destruct (_ <? _)%nat; [|done]. apply map_lookup_filter_None. by left. }
    cbn [default]. assert (MIN_MAX_TEXT_FRAME_BYTES ≤ max_text_frame_bytes c ≤ bb_burst_bytes (byte_budget c role)) as [H1 H2].
    { unfold byte_budget, max_text_frame_bytes. destruct role; cbn; lia. }
    assert (0 < MIN_MAX_TEXT_FRAME_BYTES) as H0 by done.
    rewrite fresh_bucket_full by lia. apply f64_of_mono; lia.
  - intros budget cost' b. unfold charge. destruct (is_disabled _); [done|]. cbn [fst snd]. intros ->.
    rewrite lookup_insert_eq. by intros [= <-].
Qed.

(** A burst of one byte is raised to the frame cap, which one frame then empties. *)
Lemma frame_is_affordable_witness :
  let c := MkHardening 120 40 240 36000 60 60 1 1 24 1 120 in
  (charge 5 "publish-bytes:room:device:a" 65536 (byte_budget c PeerSurface) ∅).2 = true ∧
  (charge 5 "publish-bytes:room:device:a" 1 (byte_budget c PeerSurface)
    (charge 5 "publish-bytes:room:device:a" 65536 (byte_budget c PeerSurface) ∅).1).2 = false.
Proof.
  intros c. split; [|by vm_compute].
  refine (proj1 (proj2 (frame_is_affordable c PeerSurface 5 "publish-bytes:room:device:a" 65536 ∅ _ _)) _);
    [vm_compute; split; discriminate|by vm_compute|apply lookup_empty].
Defined.
