(* ===== verification/Admission.v ===== *)
(** * Sockets of the broker (crates/relay-broker/src/lib.rs)

    From the handshake of a WebSocket to its end: what a join must show, the peer id it is
    given, the frames a session accepts and what ends it.  Whether a message could be
    written to a socket, and its length, is an argument: [wrote]. *)

From Stdlib Require Import ZArith Lia Ascii String.
From S2P Require Import BrokerTheorems JoinTicket Prelude RustStr Json BrokerState Device.
From S2P Require Import ControlStore ControlPlane Licenses Blocklist Limits.

Open Scope string_scope.
Open Scope Z_scope.

Definition BROKER_PROTOCOL_VERSION : Z := 1.

(** ** State of the broker process *)
Inductive BrokerJoinVerifier : Type :=
| VerifySelfHosted (key : JoinTicketKey)
| VerifyPublic (plane : PublicControlPlaneInner)
| VerifyMisconfigured (error : string).

Record BrokerAppState : Type := MkApp {
  ba_broker : BrokerState;
  ba_join_verifier : BrokerJoinVerifier;
  ba_config : BrokerHardeningConfig;
  ba_rate_limiter : RateBuckets;
  ba_byte_limiter : ByteBuckets;
  ba_publish_metrics : PublishMetrics;
  ba_connection_tracker : ConnectionCounts;
  ba_public_monitoring : PublicMonitoring;
  ba_license_store : option LicenseStore;
  ba_license_required : bool;
  ba_admin_token : option string
}.
#[export] Instance BrokerAppState_expand : Expand BrokerAppState := λ a,
  MkApp (ba_broker a) (ba_join_verifier a) (ba_config a) (ba_rate_limiter a) (ba_byte_limiter a)
    (ba_publish_metrics a) (ba_connection_tracker a) (ba_public_monitoring a) (ba_license_store a)
    (ba_license_required a) (ba_admin_token a).

Definition app_allow (floor now : Z) (key : string) (limit : Z) (a : BrokerAppState) : BrokerAppState * bool :=
  let '(m, ok) := allow floor now key limit (ba_rate_limiter a) in (a <| ba_rate_limiter := m |>, ok).

(** A message to a socket, counted as egress when it was written. *)
Definition send_message (now : Z) (wrote : option Z) (a : BrokerAppState) : BrokerAppState :=
  match wrote with
  | Some bytes => a <| ba_publish_metrics ::= record_egress now bytes |>
  | None => a
  end.

(** ** Tickets *)
Inductive JoinError : Type :=
| TicketRequired | TicketRefused (e : TicketError) | TicketChannelMismatch | TicketRoleMismatch
| TicketKindInvalid | VerifierMisconfigured (e : string).

Record VerifiedBrokerJoin : Type := MkVerified {
  vj_peer_id : option string;
  vj_device_id : option string;
  vj_pairing_id : option string
}.

Record ConnectQuery : Type := MkQuery {
  cq_peer_id : option string;
  cq_role : PeerRole;
  cq_join_ticket : option string
}.

Section Join.
Context `{TicketCrypto}.

Definition verify_join_ticket_for_connection (now : Z) (key : JoinTicketKey) (join_ticket : option string)
    (broker_room_id : string) (role : PeerRole) : result JoinTicketClaims JoinError :=
  let? join_ticket := ok_or (join_ticket ≫= trimmed_string) TicketRequired in
  let? claims := match verify now key join_ticket with Ok c => Ok c | Err e => Err (TicketRefused e) end in
  if negb (bool_decide (jc_channel_id claims = broker_room_id)) then Err TicketChannelMismatch
  else if negb (bool_decide (jc_role claims = role)) then Err TicketRoleMismatch
  else match role, jc_kind claims with
       | PeerRelay, RelayJoin => Ok claims
       | PeerSurface, (PairingSurfaceJoin | DeviceSurfaceJoin) => Ok claims
       | _, _ => Err TicketKindInvalid
       end.

Definition verify_connection (now : Z) (v : BrokerJoinVerifier) (join_ticket : option string)
    (broker_room_id : string) (role : PeerRole) : result VerifiedBrokerJoin JoinError :=
  let verified key :=
    let? claims := verify_join_ticket_for_connection now key join_ticket broker_room_id role in
    Ok (MkVerified (jc_peer_id claims) (jc_device_id claims) (jc_pairing_id claims)) in
  match v with
  | VerifySelfHosted key => verified key
  | VerifyPublic plane => verified (cp_issuer_key plane)
  | VerifyMisconfigured error => Err (VerifierMisconfigured error)
  end.

(** ** Joining *)
Inductive JoinRejection : Type :=
| ChannelRequired | TooManyConnections | JoinRateLimited
| JoinRejected (reason : option JoinError).  (** [None]: the peer id, or the room refused *)

Record Session : Type := MkSession {
  ss_ip : IpAddr;
  ss_channel_id : string;
  ss_peer_id : string;
  ss_role : PeerRole;
  ss_connection_id : Z;
  ss_receiver : nat;
  ss_publish_identity : string
}.

Definition generated_peer_id (role : PeerRole) (rnd : string) : string :=
  match role with PeerRelay => "relay" | PeerSurface => "surface" end +:+ "-" +:+ to_ascii_lowercase rnd.

Definition publish_limit_identity (v : VerifiedBrokerJoin) (peer_id : string) : string :=
  match vj_device_id v, vj_pairing_id v with
  | Some device_id, _ => "device:" +:+ device_id
  | None, Some pairing_id => "pairing:" +:+ pairing_id
  | None, None => "peer:" +:+ peer_id
  end.

(** The loop of [handle_socket]: a requested id is tried once, generated ids until one is
    free; [draws] are the random suffixes. *)
Definition pinned_mismatch (v : VerifiedBrokerJoin) (candidate : string) : bool :=
  match vj_peer_id v with Some expected => negb (bool_decide (candidate = expected)) | None => false end.
Definition join_as (channel_id candidate : string) (role : PeerRole) (v : VerifiedBrokerJoin) (b : BrokerState) :
    BrokerState * option (string * JoinResult) :=
  if pinned_mismatch v candidate then (b, None) else
  match join channel_id candidate role (vj_device_id v) (vj_pairing_id v) b with
  | (b, Ok r) => (b, Some (candidate, r))
  | (b, Err _) => (b, None)
  end.
Fixpoint join_generated (channel_id : string) (role : PeerRole) (v : VerifiedBrokerJoin) (draws : list string)
    (b : BrokerState) : BrokerState * option (string * JoinResult) :=
  match draws with
  | [] => (b, None)
  | rnd :: draws =>
      let candidate := generated_peer_id role rnd in
      if pinned_mismatch v candidate then (b, None) else
      match join channel_id candidate role (vj_device_id v) (vj_pairing_id v) b with
      | (b, Ok r) => (b, Some (candidate, r))
      | (b, Err (AlreadyConnected _ _)) => join_generated channel_id role v draws b
      | (b, Err _) => (b, None)
      end
  end.

Definition requested_peer_id (v : VerifiedBrokerJoin) (q : ConnectQuery) : option string :=
  if is_some (vj_peer_id v) then option_or (trimmed_option_string (cq_peer_id q)) (vj_peer_id v) else None.

(** A text of the address, distinct for distinct addresses, as its display is. *)
Definition ip_text (ip : IpAddr) : string := match ip with V4 z => "4." +:+ pretty z | V6 z => "6." +:+ pretty z end.

(** A refused socket is told why; its permit, if it had one, is dropped. *)
Definition reject_socket (now : Z) (wrote : option Z) (permit : option IpAddr) (why : JoinRejection)
    (a : BrokerAppState) : BrokerAppState * result Session JoinRejection :=
  let a := send_message now wrote a in
  (match permit with Some ip => a <| ba_connection_tracker ::= release ip |> | None => a end, Err why).

Definition admit_socket (floor now unix_now : Z) (wrote : option Z) (ip : IpAddr) (channel_id : string) (q : ConnectQuery)
    (draws : list string) (a : BrokerAppState) : BrokerAppState * result Session JoinRejection :=
  if is_blank channel_id then reject_socket now wrote None ChannelRequired a else
  let '(counts, permitted) := try_acquire ip (hc_max_connections_per_ip (ba_config a)) (ba_connection_tracker a) in
  let a := a <| ba_connection_tracker := counts |> in
  if negb permitted then reject_socket now wrote None TooManyConnections a else
  let '(a, allowed) := app_allow floor now ("join:" +:+ ip_text ip +:+ ":" +:+ channel_id)
                         (hc_join_rate_limit_per_minute (ba_config a)) a in
  if negb allowed then reject_socket now wrote (Some ip) JoinRateLimited a else
  match verify_connection unix_now (ba_join_verifier a) (cq_join_ticket q) channel_id (cq_role q) with
  | Err e => reject_socket now wrote (Some ip) (JoinRejected (Some e)) a
  | Ok v =>
      let '(b, joined) :=
        match requested_peer_id v q with
        | Some candidate => join_as channel_id candidate (cq_role q) v (ba_broker a)
        | None => join_generated channel_id (cq_role q) v draws (ba_broker a)
        end in
      let a := a <| ba_broker := b |> in
      match joined with
      | None => reject_socket now wrote (Some ip) (JoinRejected None) a
      | Some (peer_id, r) =>
          (a, Ok (MkSession ip channel_id peer_id (cq_role q) (jr_connection_id r) (jr_receiver r)
                    (publish_limit_identity v peer_id)))
      end
  end.

(** The end of a socket, however it comes: its receiver and its permit are dropped last. *)
Definition close_socket (s : Session) (a : BrokerAppState) : BrokerAppState :=
  a <| ba_broker ::= leave_connection (ss_channel_id s) (ss_peer_id s) (ss_connection_id s) |>
    <| ba_broker ::= drop_receiver (ss_receiver s) |>
    <| ba_connection_tracker ::= release (ss_ip s) |>.

(** The socket drops when the welcome cannot be written. *)
Definition welcome (now : Z) (wrote : option Z) (s : Session) (a : BrokerAppState) : BrokerAppState * bool :=
  match wrote with Some _ => (send_message now wrote a, true) | None => (close_socket s a, false) end.

(** ** Frames *)
Record Publish : Type := MkPublish { pu_protocol_version : Z; pu_payload : json }.

(** [ClientMessage] is tagged by [type]; other fields are ignored. *)
Definition publish_fields : decoder Publish := λ j,
  let? es := derived_struct false [("protocol_version", checks de_u32); ("payload", checks de_value)] j in
  let? protocol_version := required "protocol_version" de_u32 es in
  let? payload := required "payload" de_value es in
  Ok (MkPublish protocol_version payload).
Definition client_message_deserialize : decoder Publish := λ j,
  match j with
  | JMap es =>
      match filter (λ e : string * json, e.1 = "type") es with
      | [] => Err (MissingField "type")
      | [(_, JStr tag)] =>
          if bool_decide (tag = "publish") then publish_fields (JMap (filter (λ e : string * json, e.1 ≠ "type") es))
          else Err InvalidValue
      | [_] => Err InvalidType
      | _ => Err (DuplicateField "type")
      end
  | JSeq (JStr tag :: l) => if bool_decide (tag = "publish") then publish_fields (JSeq l) else Err InvalidValue
  | _ => Err InvalidType
  end.

Inductive SocketEvent : Type :=
| SeOutbound (message : ServerMessage)   (** a message from the room *)
| SeOutboundClosed
| SeIdle
| SeText (text : string)
| SeBinary (len : Z)
| SePing (pong_written : bool)
| SePong
| SeClose
| SeError
| SeEnd.

Inductive Reply : Type :=
| ReplyIdleTimeout | ReplyFrameTooLarge | ReplyUnsupportedVersion | ReplyRateLimited | ReplyInvalidFrame.

(** The outcome of an event: the state, what the client is told, and whether the socket
    stays. *)
Definition Outcome : Type := BrokerAppState * option Reply * bool.
Definition tell (now : Z) (wrote : option Z) (r : Reply) (stays : bool) (a : BrokerAppState) : Outcome :=
  (send_message now wrote a, Some r, stays).

Definition publish_frame (floor now : Z) (wrote : option Z) (s : Session) (frame_bytes : Z) (payload : json)
    (a : BrokerAppState) : Outcome :=
  let identity := ss_channel_id s +:+ ":" +:+ ss_publish_identity s in
  let '(a, allowed) := app_allow floor now ("publish:" +:+ identity) (frame_limit (ba_config a) (ss_role s)) a in
  if negb allowed then tell now wrote ReplyRateLimited true (a <| ba_publish_metrics ::= record_frame_limited |>) else
  let '(bytes, affordable) := charge now ("publish-bytes:" +:+ identity) frame_bytes
                                (byte_budget (ba_config a) (ss_role s)) (ba_byte_limiter a) in
  let a := a <| ba_byte_limiter := bytes |> in
  if negb affordable then tell now wrote ReplyRateLimited true (a <| ba_publish_metrics ::= record_byte_limited |>) else
  let '(b, r) := publish_connection (ss_channel_id s) (ss_peer_id s) (ss_connection_id s) payload (ba_broker a) in
  let a := a <| ba_broker := b |> in
  match r with
  | Ok _ => (a <| ba_publish_metrics ::= record_published frame_bytes |>, None, true)
  | Err (ConnectionReplaced _ _) => (a, None, false)
  | Err _ => (a, None, true)
  end.

Definition on_event (floor now : Z) (wrote : option Z) (s : Session) (e : SocketEvent) (a : BrokerAppState) : Outcome :=
  match e with
  | SeOutbound _ => (send_message now wrote a, None, is_some wrote)
  | SeOutboundClosed | SeClose | SeError | SeEnd => (a, None, false)
  | SeIdle => tell now wrote ReplyIdleTimeout false a
  | SePing pong_written => (a, None, pong_written)
  | SePong => (a, None, true)
  | SeBinary len =>
      if max_text_frame_bytes (ba_config a) <? len then tell now wrote ReplyFrameTooLarge false a else (a, None, true)
  | SeText text =>
      if max_text_frame_bytes (ba_config a) <? str_len text then tell now wrote ReplyFrameTooLarge false a else
      match json_from_slice text ≫= (λ j, result_ok (client_message_deserialize j)) with
      | None => tell now wrote ReplyInvalidFrame false a
      | Some m =>
          if negb (pu_protocol_version m =? BROKER_PROTOCOL_VERSION) then tell now wrote ReplyUnsupportedVersion false a
          else publish_frame floor now wrote s (str_len text) (pu_payload m) a
      end
  end.

(** The loop of [handle_socket]; the events of a socket that is gone end it. *)
Fixpoint socket_loop (floor : Z) (s : Session) (events : list (Z * option Z * SocketEvent)) (a : BrokerAppState) :
    BrokerAppState :=
  match events with
  | [] => a
  | (now, wrote, e) :: events =>
      let '(a, _, stays) := on_event floor now wrote s e a in
      if stays then socket_loop floor s events a else a
  end.

Definition handle_socket (floor now unix_now : Z) (wrote : option Z) (ip : IpAddr) (channel_id : string)
    (q : ConnectQuery) (draws : list string) (events : list (Z * option Z * SocketEvent)) (a : BrokerAppState) :
    BrokerAppState :=
  match admit_socket floor now unix_now wrote ip channel_id q draws a with
  | (a, Err _) => a
  | (a, Ok s) =>
      let '(a, stays) := welcome now wrote s a in
      if stays then close_socket s (socket_loop floor s events a) else a
  end.

(** ** Sockets interleaved
    The broker between two awaits: its state and the sockets that were admitted and not
    yet closed.  A socket is named by its place in the list, the newest first. *)
Record Net : Type := MkNet { net_app : BrokerAppState; net_live : list Session }.

Inductive NetEvent : Type :=
| NetConnect (floor now unix_now : Z) (wrote : option Z) (ip : IpAddr) (channel_id : string) (q : ConnectQuery)
    (draws : list string)
| NetWelcome (k : nat) (now : Z) (wrote : option Z)
| NetFrame (k : nat) (floor now : Z) (wrote : option Z) (e : SocketEvent).

Definition net_exec (n : Net) (ev : NetEvent) : Net :=
  match ev with
  | NetConnect floor now unix_now wrote ip channel_id q draws =>
      match admit_socket floor now unix_now wrote ip channel_id q draws (net_app n) with
      | (a, Ok s) => MkNet a (s :: net_live n)
      | (a, Err _) => MkNet a (net_live n)
      end
  | NetWelcome k now wrote =>
      match net_live n !! k with
      | None => n
      | Some s =>
          let '(a, stays) := welcome now wrote s (net_app n) in
          MkNet a (if stays then net_live n else delete k (net_live n))
      end
  | NetFrame k floor now wrote e =>
      match net_live n !! k with
      | None => n
      | Some s =>
          let '(a, _, stays) := on_event floor now wrote s e (net_app n) in
          if stays then MkNet a (net_live n) else MkNet (close_socket s a) (delete k (net_live n))
      end
  end.
End Join.

(** * Sockets of the broker: theorems

    A socket is admitted on a ticket of its own room and role and under the name the ticket
    gives it; what it publishes has passed every limit; and however sockets interleave,
    every seat and every counted connection belongs to a socket that is still open. *)
(** ** Rooms through joins *)

(** Rooms and mailboxes are the same; connection ids were drawn, at most [n]. *)
Definition drew (n : Z) (b b' : BrokerState) : Prop :=
  br_rooms b' = br_rooms b ∧ br_mailboxes b' = br_mailboxes b ∧ br_next_mailbox b' = br_next_mailbox b ∧
  br_next_connection_id b ≤ br_next_connection_id b' ≤ br_next_connection_id b + n.

Lemma drew_refl n b : 0 ≤ n → drew n b b.
Proof. intros. split_and!; [done..|lia|lia]. Qed.
Lemma drew_trans m n b b1 b2 : drew m b b1 → drew n b1 b2 → drew (m + n) b b2.
Proof. intros (? & ? & ? & ? & ?) (? & ? & ? & ? & ?). split_and!; [congruence..|lia|lia]. Qed.
Lemma drew_seat n b b' ch pid h : drew n b b' → seat b' ch pid h ↔ seat b ch pid h.
Proof. intros (E & _). unfold seat. by rewrite E. Qed.

Lemma join_Err_drew ch pid role dev pair b b' e :
  broker_wf b → br_next_connection_id b < u64_max → join ch pid role dev pair b = (b', Err e) → drew 1 b b'.
Proof.
  intros Hw Hn ->%join_Err. rewrite bump_small by (destruct Hw; lia). destruct b. unfold drew, set_field. cbn.
  split_and!; [done..|lia|lia].
Qed.

Lemma join_mailboxes ch pid role dev pair b b' r : join ch pid role dev pair b = (b', Ok r) →
  ∃ ob, br_mailboxes b' = <[br_next_mailbox b := MkMailbox true []]> (send_list ob (br_mailboxes b)).
Proof.
  destruct b as [rooms next boxes nm evs]. unfold join, set_field. cbn zeta.
  cbn [br_rooms br_next_connection_id br_mailboxes br_next_mailbox br_events].
  case_if; [|done]. destruct (foldl _ _ _) as [[room' ob] evs']. intros [= <- _].
  eexists. by rewrite (proj1 (proj2 (proj2 (record_events_frame _ _)))).
Qed.

(** A seat is taken only when it is free, or a relay's by a relay. *)
Lemma join_seat_free ch pid role dev pair b b' r h :
  join ch pid role dev pair b = (b', Ok r) → seat b ch pid h → ph_role h = PeerRelay ∧ role = PeerRelay.
Proof.
  intros Hj (room & Hr & Hp). unfold join in Hj. cbn zeta in Hj.
  replace (br_rooms (b <| br_next_connection_id := _ |>)) with (br_rooms b) in Hj by by destruct b.
  rewrite Hr in Hj. cbn [default id] in Hj. rewrite Hp in Hj. case_bool_decide; done.
Qed.

(** The two ways into a room: one attempt, or attempts until a generated name is free. *)
Lemma join_as_cases ch candidate role v b b' o :
  broker_wf b → br_next_connection_id b < u64_max → join_as ch candidate role v b = (b', o) →
  match o with
  | None => drew 1 b b'
  | Some (pid, r) => pid = candidate ∧ pinned_mismatch v candidate = false ∧
      join ch pid role (vj_device_id v) (vj_pairing_id v) b = (b', Ok r)
  end.
Proof.
  intros Hw Hn. unfold join_as. destruct (pinned_mismatch v candidate).
  - intros [= <- <-]. by apply drew_refl.
  - destruct (join _ _ _ _ _ b) as [b1 [r|e]] eqn:Ej; intros [= <- <-]; [done|]. by eapply join_Err_drew.
Qed.

Lemma join_generated_cases ch role v draws : ∀ b b' o,
  broker_wf b → br_next_connection_id b + Z.of_nat (length draws) < u64_max →
  join_generated ch role v draws b = (b', o) →
  match o with
  | None => drew (Z.of_nat (length draws)) b b'
  | Some (pid, r) => ∃ b1, drew (Z.of_nat (length draws)) b b1 ∧ broker_wf b1 ∧
      pid ∈ generated_peer_id role <$> draws ∧ pinned_mismatch v pid = false ∧
      br_next_connection_id b1 < u64_max ∧
      join ch pid role (vj_device_id v) (vj_pairing_id v) b1 = (b', Ok r)
  end.
Proof.
  induction draws as [|rnd draws IH]; intros b b' o Hw Hn; cbn [join_generated].
  { intros [= <- <-]. by apply drew_refl. }
  cbn [length] in *. rewrite Nat2Z.inj_succ in *. destruct (pinned_mismatch v _) eqn:Ep.
  { intros [= <- <-]. apply drew_refl. lia. }
  pose proof (join_wf ch (generated_peer_id role rnd) role (vj_device_id v) (vj_pairing_id v) b Hw ltac:(lia)) as Hw1.
  destruct (join _ _ _ _ _ b) as [b1 [r|e]] eqn:Ej; cbn [fst] in Hw1.
  { intros [= <- <-]. exists b. split_and!; try done; [apply drew_refl; lia|by left|lia]. }
  apply join_Err_drew in Ej; [|done|lia]. pose proof Ej as (_ & _ & _ & Hle).
  assert (drew (Z.succ (Z.of_nat (length draws))) b b1) as Hd.
  { destruct Ej as (? & ? & ? & ?). split_and!; [done..|lia|lia]. }
  destruct e; [|by intros [= <- <-]..].
  intros Hg. apply IH in Hg; [|done|lia]. replace (Z.succ (Z.of_nat (length draws))) with (1 + Z.of_nat (length draws)) by lia.
  destruct o as [[pid r]|]; [|by eapply drew_trans].
  destruct Hg as (b2 & Hd2 & Hw2 & Hin & Hrest). exists b2. split; [by eapply drew_trans|]. split; [done|].
  split; [|done]. cbn. by right.
Qed.

(** ** Admission *)
Definition verifier_key (v : BrokerJoinVerifier) : option JoinTicketKey :=
  match v with
  | VerifySelfHosted key => Some key
  | VerifyPublic plane => Some (cp_issuer_key plane)
  | VerifyMisconfigured _ => None
  end.

Section Admission.
Context `{TicketCrypto}.

Lemma verify_validates now key token claims : verify now key token = Ok claims → claims_validate claims = Ok ().
Proof.
  unfold verify. destruct (split_once _ token) as [[payload sig]|]; [|done]. cbn [ok_or].
  destruct (verify_signature _ _ _); [|done]. destruct (b64_decode _); [|done]. cbn [ok_or].
  destruct (json_from_slice _); [|done]. cbn [ok_or]. destruct (claims_deserialize _) as [c|]; [|done].
  destruct (claims_validate c) as [[]|] eqn:Ec; [|done]. destruct (jc_expires_at c); [case_if; [done|]|]; by intros [= <-].
Qed.

Lemma verify_connection_Ok now v ticket room role vj : verify_connection now v ticket room role = Ok vj →
  ∃ key token claims, verifier_key v = Some key ∧ ticket ≫= trimmed_string = Some token ∧
    verify now key token = Ok claims ∧ jc_channel_id claims = room ∧ jc_role claims = role ∧
    (jc_kind claims = RelayJoin ↔ role = PeerRelay) ∧
    vj = MkVerified (jc_peer_id claims) (jc_device_id claims) (jc_pairing_id claims).
Proof.
  intros Hv. assert (∃ key, verifier_key v = Some key ∧
    (let? claims := verify_join_ticket_for_connection now key ticket room role in
     Ok (MkVerified (jc_peer_id claims) (jc_device_id claims) (jc_pairing_id claims))) = Ok vj)
    as (key & Hk & Hv') by (destruct v; try discriminate; (eexists; split; [reflexivity|exact Hv])).
  clear Hv. unfold verify_join_ticket_for_connection in Hv'.
  destruct (ticket ≫= trimmed_string) as [token|] eqn:Et; [|done]. cbn [ok_or] in Hv'.
  destruct (verify now key token) as [claims|] eqn:Ec; [|done]. exists key, token, claims.
  case_bool_decide as Hch; cbn [negb] in Hv'; [|done]. case_bool_decide as Hrole; cbn [negb] in Hv'; [|done].
  split_and!; try done; destruct role, (jc_kind claims); naive_solver.
Qed.

(** What an admission did: the room it joined, after the names it tried. *)
Lemma admit_Ok floor now unix_now wrote ip ch q draws a a' s :
  broker_wf (ba_broker a) → br_next_connection_id (ba_broker a) + Z.of_nat (S (length draws)) < u64_max →
  admit_socket floor now unix_now wrote ip ch q draws a = (a', Ok s) →
  ∃ v b1 r, verify_connection unix_now (ba_join_verifier a) (cq_join_ticket q) ch (cq_role q) = Ok v ∧
    try_acquire ip (hc_max_connections_per_ip (ba_config a)) (ba_connection_tracker a)
      = (ba_connection_tracker a', true) ∧
    ba_config a' = ba_config a ∧
    drew (Z.of_nat (length draws)) (ba_broker a) b1 ∧ broker_wf b1 ∧ br_next_connection_id b1 < u64_max ∧
    join ch (ss_peer_id s) (cq_role q) (vj_device_id v) (vj_pairing_id v) b1 = (ba_broker a', Ok r) ∧
    pinned_mismatch v (ss_peer_id s) = false ∧
    (vj_peer_id v = None → ss_peer_id s ∈ generated_peer_id (cq_role q) <$> draws) ∧
    s = MkSession ip ch (ss_peer_id s) (cq_role q) (jr_connection_id r) (jr_receiver r)
          (publish_limit_identity v (ss_peer_id s)).
Proof.
  intros Hw Hn. unfold admit_socket. destruct (is_blank ch); [done|].
  destruct (try_acquire _ _ _) as [counts []] eqn:Ea; cbn [negb]; [|done].
  unfold app_allow. destruct (allow _ _ _ _ _) as [m []]; cbn [negb]; [|done].
  replace (ba_join_verifier _) with (ba_join_verifier a) by by destruct a.
  destruct (verify_connection _ _ _ _ _) as [v|] eqn:Ev; [|done].
  replace (ba_broker _) with (ba_broker a) by by destruct a.
  destruct (match requested_peer_id v q with Some _ => _ | None => _ end) as [b [[pid r]|]] eqn:Ej; [|done].
  intros [= <- <-]. cbn [ss_peer_id]. exists v.
  assert (∃ b1, drew (Z.of_nat (length draws)) (ba_broker a) b1 ∧ broker_wf b1 ∧ br_next_connection_id b1 < u64_max ∧
    pinned_mismatch v pid = false ∧ (vj_peer_id v = None → pid ∈ generated_peer_id (cq_role q) <$> draws) ∧
    join ch pid (cq_role q) (vj_device_id v) (vj_pairing_id v) b1 = (b, Ok r)) as (b1 & ? & ? & ? & ? & ? & ?).
  { unfold requested_peer_id in Ej. destruct (vj_peer_id v) as [pinned|] eqn:Ep; cbn [is_some] in Ej.
    - destruct (option_or _ _) as [candidate|] eqn:Eo.
      + apply join_as_cases in Ej as (-> & Hp & Hj); [|done|lia]. exists (ba_broker a).
        split_and!; try done; [apply drew_refl; lia|lia].
      + destruct (trimmed_option_string _); discriminate Eo.
    - apply join_generated_cases in Ej as (b1 & ? & ? & ? & ? & ? & ?); [|done|lia]. eauto 10. }
  exists b1, r. destruct a. unfold set_field. cbn in *. split_and!; done.
Qed.

(** C18: a socket is admitted only with a current ticket of the broker's key for the room and
    the role it asks for, a relay's for a relay; its name is the one the ticket pins, else one
    the broker drew and nobody had; it is seated under the ticket's device and pairing, which
    also carry its publish allowance, in a seat that was free or was that relay's own; and its
    address was below its limit of connections. *)
Theorem admission_needs_a_ticket floor now unix_now wrote ip ch q draws a a' s :
  broker_wf (ba_broker a) → br_next_connection_id (ba_broker a) + Z.of_nat (S (length draws)) < u64_max →
  admit_socket floor now unix_now wrote ip ch q draws a = (a', Ok s) →
  ss_channel_id s = ch ∧ ss_role s = cq_role q ∧ ss_ip s = ip ∧
  (∃ key token claims, verifier_key (ba_join_verifier a) = Some key ∧
    cq_join_ticket q ≫= trimmed_string = Some token ∧ verify unix_now key token = Ok claims ∧
    jc_channel_id claims = ch ∧ jc_role claims = ss_role s ∧ (jc_kind claims = RelayJoin ↔ ss_role s = PeerRelay) ∧
    match jc_peer_id claims with
    | Some pinned => ss_peer_id s = pinned
    | None => ss_role s = PeerSurface ∧ ss_peer_id s ∈ generated_peer_id PeerSurface <$> draws
    end ∧
    seat (ba_broker a') ch (ss_peer_id s)
      (MkPeerHandle (ss_connection_id s) (ss_role s) (jc_device_id claims) (jc_pairing_id claims) (ss_receiver s)) ∧
    ss_publish_identity s =
      match jc_kind claims with
      | RelayJoin => "peer:" +:+ ss_peer_id s
      | PairingSurfaceJoin => "pairing:" +:+ default "" (jc_pairing_id claims)
      | DeviceSurfaceJoin => "device:" +:+ default "" (jc_device_id claims)
      end) ∧
  (∀ h, seat (ba_broker a) ch (ss_peer_id s) h → ph_role h = PeerRelay ∧ ss_role s = PeerRelay) ∧
  Z.of_nat (default 0%nat (ba_connection_tracker a !! ip)) < hc_max_connections_per_ip (ba_config a).
Proof.
  intros Hw Hn Ha. apply admit_Ok in Ha as (v & b1 & r & Hv & Hq & _ & Hd & _ & _ & Hj & Hp & Hg & ->); [|done..].
  apply verify_connection_Ok in Hv as (key & token & claims & Hk & Ht & Hc & Hch & Hr & Hkind & ->).
  cbn [ss_channel_id ss_role ss_ip ss_peer_id ss_connection_id ss_receiver ss_publish_identity
    vj_peer_id vj_device_id vj_pairing_id] in *. split_and!; try done.
  - exists key, token, claims.
    pose proof (claims_validate_shape _ (verify_validates _ _ _ _ Hc)) as (_ & _ & Hshape).
    split_and!; try done; try tauto.
    + destruct (jc_peer_id claims) as [pinned|] eqn:Ep.
      * unfold pinned_mismatch in Hp. cbn in Hp. by case_bool_decide.
      * destruct (jc_kind claims); [by destruct Hshape as (_ & Hb & _)|..];
          destruct Hshape as (Er & _); rewrite Hr in Er; rewrite Er in Hg |- *; auto.
    + eapply join_seat; [exact Hj|]. left. apply join_Ok in Hj as (_ & _ & _ & -> & ->). done.
    + unfold publish_limit_identity. cbn [vj_device_id vj_pairing_id].
      destruct (jc_kind claims); [destruct Hshape as (_ & _ & -> & ->); done|..].
      * destruct Hshape as (_ & Hb & -> & _). by destruct (jc_pairing_id claims).
      * destruct Hshape as (_ & Hb & _). by destruct (jc_device_id claims).
  - intros h Hs. eapply join_seat_free; [exact Hj|]. by eapply drew_seat.
  - unfold try_acquire in Hq. destruct (Z.leb_spec (hc_max_connections_per_ip (ba_config a))
      (Z.of_nat (default 0%nat (ba_connection_tracker a !! ip)))); [discriminate Hq|lia].
Qed.

(** ** Frames *)

(** What the text of a frame decodes to. *)
Definition decoded_frame (text : string) : option Publish :=
  json_from_slice text ≫= λ j, result_ok (client_message_deserialize j).

(** The limits a frame of [text] is held to, in the order they are taken. *)
Definition frame_allowed (floor now : Z) (s : Session) (a : BrokerAppState) : bool :=
  (allow floor now ("publish:" +:+ ss_channel_id s +:+ ":" +:+ ss_publish_identity s)
     (frame_limit (ba_config a) (ss_role s)) (ba_rate_limiter a)).2.
Definition frame_charged (now : Z) (s : Session) (text : string) (a : BrokerAppState) : bool :=
  (charge now ("publish-bytes:" +:+ ss_channel_id s +:+ ":" +:+ ss_publish_identity s) (str_len text)
     (byte_budget (ba_config a) (ss_role s)) (ba_byte_limiter a)).2.

(** The broker's part of a frame. *)
Lemma on_event_broker floor now wrote s e a :
  let o := on_event floor now wrote s e a in
  ba_config o.1.1 = ba_config a ∧ ba_connection_tracker o.1.1 = ba_connection_tracker a ∧
  (ba_broker o.1.1 = ba_broker a ∨
   ∃ text m, e = SeText text ∧ str_len text ≤ max_text_frame_bytes (ba_config a) ∧
     decoded_frame text = Some m ∧ pu_protocol_version m = BROKER_PROTOCOL_VERSION ∧
     frame_allowed floor now s a = true ∧ frame_charged now s text a = true ∧
     (ba_broker o.1.1, Ok ()) = publish_connection (ss_channel_id s) (ss_peer_id s) (ss_connection_id s)
                                  (pu_payload m) (ba_broker a)).
Proof.
  cbn zeta. unfold on_event, tell, send_message, frame_allowed, frame_charged, decoded_frame, app_allow.
  destruct e as [| | |text|len|pong| | | |]; try (destruct wrote; destruct a; cbn; auto; done).
  2: { case_if; [|destruct a; cbn; auto]. destruct wrote; destruct a; cbn; auto. }
  destruct (Z.ltb_spec (max_text_frame_bytes (ba_config a)) (str_len text)) as [Hl|Hl].
  { destruct wrote; destruct a; cbn; auto. }
  destruct (json_from_slice text ≫= _) as [m|] eqn:Em; [|destruct wrote; destruct a; cbn; auto].
  destruct (Z.eqb_spec (pu_protocol_version m) BROKER_PROTOCOL_VERSION) as [Hv|]; cbn [negb];
    [|destruct wrote; destruct a; cbn; auto].
  unfold publish_frame, app_allow.
  destruct (allow _ _ _ _ _) as [rates []] eqn:Ea; cbn [negb]; [|destruct wrote; destruct a; cbn; auto].
  destruct a as [b jv cf rl bl pm ct mo ls lr at_]. unfold set_field in *. cbn in Ea, Hl |- *.
  destruct (charge _ _ _ _ _) as [bytes []] eqn:Ec; cbn [negb]; [|destruct wrote; cbn; auto].
  destruct (publish_connection _ _ _ _ _) as [b' r] eqn:Ep.
  destruct (publish_cases (ss_channel_id s) (ss_peer_id s) (Some (ss_connection_id s)) (pu_payload m) b)
    as [[Hne Eb]|(room & sender & ob & ev & _ & _ & _ & Eb & _)];
    unfold publish_connection in Ep.
  - rewrite Ep in Eb. cbn in Eb. subst b'. destruct r as [[]|[]]; cbn; auto.
  - rewrite Ep in Eb. injection Eb as -> ->. cbn. split; [done|]. split; [done|]. right. exists text, m.
    pose proof (f_equal snd Ea : _ = true). pose proof (f_equal snd Ec : _ = true). by split_and!.
Qed.

(** What changes the rooms from an open socket is one text frame, no larger than the cap,
    that decodes to a publish of the broker's protocol version, within the frame allowance and
    the byte budget of the socket's own ticket, published as that connection and no other;
    every other frame, message or silence leaves the rooms alone. *)
Theorem published_frames_are_vetted floor now wrote s e a a' reply stays :
  on_event floor now wrote s e a = (a', reply, stays) → ba_broker a' ≠ ba_broker a →
  reply = None ∧ stays = true ∧ ∃ text m, e = SeText text ∧
    str_len text ≤ max_text_frame_bytes (ba_config a) ∧
    decoded_frame text = Some m ∧ pu_protocol_version m = BROKER_PROTOCOL_VERSION ∧
    frame_allowed floor now s a = true ∧ frame_charged now s text a = true ∧
    publish_connection (ss_channel_id s) (ss_peer_id s) (ss_connection_id s) (pu_payload m) (ba_broker a)
      = (ba_broker a', Ok ()).
Proof.
  intros Eo Hne. pose proof (on_event_broker floor now wrote s e a) as (_ & _ & [Eb|Hpub]);
    rewrite Eo in *; [done|]. cbn [fst] in *. destruct Hpub as (text & m & -> & Hl & Hm & Hv & Hf & Hc & Hp).
  assert (reply = None ∧ stays = true) as [-> ->]; [|by eauto 12].
  unfold frame_allowed, frame_charged, decoded_frame in *. unfold on_event in Eo.
  destruct (Z.ltb_spec (max_text_frame_bytes (ba_config a)) (str_len text)); [lia|].
  rewrite Hm, Hv, Z.eqb_refl in Eo. cbn [negb] in Eo. unfold publish_frame, app_allow in Eo.
  destruct (allow _ _ _ _ _) as [rates ok]. cbn [snd] in Hf. subst ok. cbn [negb] in Eo.
  destruct a as [b jv cf rl bl pm ct mo ls lr at_]. unfold set_field in *. cbn in Eo, Hc, Hp.
  destruct (charge _ _ _ _ _) as [bytes ok]. cbn [snd] in Hc. subst ok. cbn [negb] in Eo.
  rewrite <- Hp in Eo. cbn in Eo. by injection Eo as _ <- <-.
Qed.

(** ** Interleaved sockets *)
Definition holds_seat (s : Session) (ch pid : string) (h : PeerHandle) : Prop :=
  ss_channel_id s = ch ∧ ss_peer_id s = pid ∧ ss_connection_id s = ph_connection_id h ∧
  ss_role s = ph_role h ∧ ss_receiver s = ph_tx h.

(** Every seat has its socket, every open mailbox has its socket. *)
Record rooms_live (b : BrokerState) (live : list Session) : Prop := {
  rl_wf : broker_wf b;
  rl_ids : NoDup (ss_connection_id <$> live);
  rl_next : ∀ s, s ∈ live → ss_connection_id s ≤ br_next_connection_id b;
  rl_seats : ∀ ch pid h, seat b ch pid h → ∃ s, s ∈ live ∧ holds_seat s ch pid h;
  rl_boxes : ∀ c m, br_mailboxes b !! c = Some m → mb_open m = true → ∃ s, s ∈ live ∧ ss_receiver s = c
}.

Record net_ok (limit : Z) (n : Net) : Prop := {
  no_limit : hc_max_connections_per_ip (ba_config (net_app n)) = limit;
  no_counted : counted limit (ba_connection_tracker (net_app n)) (ss_ip <$> net_live n);
  no_rooms : rooms_live (ba_broker (net_app n)) (net_live n)
}.

Lemma mb_push_open ms m : mb_open (mb_push ms m) = mb_open m.
Proof. by destruct m as [[]]. Qed.

Lemma drew_wf m b b' : drew m b b' → broker_wf b → broker_wf b'.
Proof.
  intros Hd [W1 W2 W3 W4 W5 W6 W7]. pose proof Hd as (Er & Em & Enm & Hn).
  assert (∀ ch pid h, seat b' ch pid h → seat b ch pid h) as Hs by (intros ch pid h; apply (drew_seat _ _ _ ch pid h Hd)).
  split; try lia; rewrite ?Er, ?Enm; eauto.
  intros ch pid h Hs'%Hs%W5. lia.
Qed.

Lemma rooms_live_drew m b b' live : drew m b b' → rooms_live b live → rooms_live b' live.
Proof.
  intros Hd [R1 R2 R3 R4 R5]. pose proof Hd as (Er & Em & _ & Hn). split; [by eapply drew_wf|done|..].
  - intros s Hs. specialize (R3 s Hs). lia.
  - intros ch pid h Hs. apply R4. by apply (drew_seat m b b' ch pid h Hd).
  - by rewrite Em.
Qed.

Lemma rooms_live_join ch pid role dev pair b b' r live s :
  rooms_live b live → br_next_connection_id b < u64_max → join ch pid role dev pair b = (b', Ok r) →
  s = MkSession (ss_ip s) ch pid role (jr_connection_id r) (jr_receiver r) (ss_publish_identity s) →
  rooms_live b' (s :: live).
Proof.
  intros [R1 R2 R3 R4 R5] Hn Hj Es. pose proof (bump_small _ (wf_next _ R1) Hn) as Hb.
  pose proof (join_wf ch pid role dev pair b R1 Hn) as Hw. rewrite Hj in Hw. cbn [fst] in Hw.
  pose proof (λ c p h, join_seat _ _ _ _ _ _ _ _ c p h Hj) as Hs.
  destruct (join_mailboxes _ _ _ _ _ _ _ _ Hj) as [ob Hm].
  apply join_Ok in Hj as (_ & Hnext & Hmb & Hc & Hrx). rewrite Hc, Hrx in Es. rewrite Hb in Es, Hs, Hnext.
  split; [done|..].
  - rewrite fmap_cons. constructor; [|done]. rewrite Es. cbn. intros (s' & E & Hs')%list_elem_of_fmap.
    specialize (R3 s' Hs'). lia.
  - intros s' [->|Hs']%elem_of_cons; [rewrite Es; cbn; lia|]. specialize (R3 s' Hs'). lia.
  - intros c p h [(-> & -> & ->)|(_ & Hseat & _)]%Hs.
    + exists s. split; [by left|]. rewrite Es. by split_and!.
    + destruct (R4 _ _ _ Hseat) as (s' & ? & ?). exists s'. split; [by right|done].
  - intros c m. rewrite Hm. destruct (decide (c = br_next_mailbox b)) as [->|Hne].
    + intros _ _. exists s. split; [by left|]. by rewrite Es.
    + rewrite lookup_insert_ne, send_list_lookup by done. intros (m' & Hl & ->)%fmap_Some. rewrite mb_push_open.
      intros Ho. destruct (R5 _ _ Hl Ho) as (s' & ? & ?). exists s'. split; [by right|done].
Qed.

Lemma rooms_live_publish ch pid id payload b live :
  rooms_live b live → rooms_live (publish_connection ch pid id payload b).1 live.
Proof.
  intros HR. unfold publish_connection. destruct (publish_cases ch pid (Some id) payload b)
    as [[_ ->]|(room & sender & ob & e & _ & _ & _ & E & _)]; [done|]. rewrite E. cbn [fst]. clear E.
  destruct HR as [R1 R2 R3 R4 R5]. destruct (send_record_frame ob e b 0) as (Hr & Hn & Hm & _).
  split; [|done|by rewrite Hn|unfold seat; by rewrite Hr|].
  - apply (wf_sub b); try done. rewrite Hr. by apply wf_nonempty.
  - intros c m Hl Ho. destruct (send_record_frame ob e b c) as (_ & _ & _ & Hrec). rewrite Hrec in Hl.
    apply fmap_Some in Hl as (m' & Hl & ->). rewrite mb_push_open in Ho. by eapply R5.
Qed.

(** After a connection left, its seat is gone. *)
Lemma left_seat ch pid id b h : ¬ (seat (leave_connection ch pid id b) ch pid h ∧ ph_connection_id h = id).
Proof.
  intros [Hs <-]. pose proof (leave_seat _ _ _ _ _ _ _ Hs) as (room & Hr & Hp).
  destruct Hs as (room' & Hr' & Hp'). unfold leave_connection, leave_inner in Hr'. rewrite Hr, Hp in Hr'.
  rewrite bool_decide_eq_true_2 in Hr' by done.
  destruct b as [rooms next boxes nm evs]. unfold send, record_event, set_field in Hr'. cbn in Hr, Hr'.
  case_bool_decide; cbn in Hr'; [by rewrite lookup_delete_eq in Hr'|].
  rewrite lookup_insert_eq in Hr'. injection Hr' as <-. by rewrite lookup_delete_eq in Hp'.
Qed.

Lemma in_delete {A} (l : list A) k x y : l !! k = Some y → x ∈ l → x ≠ y → x ∈ delete k l.
Proof.
  intros Hk Hx Hne. rewrite delete_take_drop. rewrite <- (take_drop_middle l k y Hk) in Hx. set_solver.
Qed.

Lemma rooms_live_close b live k s : rooms_live b live → live !! k = Some s →
  rooms_live (drop_receiver (ss_receiver s)
    (leave_connection (ss_channel_id s) (ss_peer_id s) (ss_connection_id s) b)) (delete k live).
Proof.
  intros [R1 R2 R3 R4 R5] Hk. set (b1 := leave_connection _ _ _ b).
  assert (broker_wf b1) as Hw1 by by apply leave_wf.
  assert (∀ s', s' ∈ delete k live → s' ∈ live) as Hsub
    by (intros s' Hs; eapply elem_of_sublist; [exact Hs|apply sublist_delete]).
  assert (br_rooms (drop_receiver (ss_receiver s) b1) = br_rooms b1 ∧
    br_next_connection_id (drop_receiver (ss_receiver s) b1) = br_next_connection_id b1 ∧
    br_next_mailbox (drop_receiver (ss_receiver s) b1) = br_next_mailbox b1) as (Er & En & Em) by by destruct b1.
  assert (br_next_connection_id b1 = br_next_connection_id b ∧ ∃ ob, br_mailboxes b1 = send_list ob (br_mailboxes b))
    as (En1 & ob & Em1).
  { destruct (leave_cases (ss_channel_id s) (ss_peer_id s) (Some (ss_connection_id s)) b)
      as [E|(room & h & _ & _ & _ & _ & Hn & _ & Hm)]; unfold b1, leave_connection; [rewrite E|by eauto].
    split; [done|]. by exists []. }
  split.
  - apply (wf_sub b1); try done. rewrite Er. by apply wf_nonempty.
  - rewrite list_fmap_delete. by eapply sublist_NoDup, sublist_delete.
  - rewrite En, En1. auto.
  - unfold seat. rewrite Er. intros ch pid h Hs. pose proof (leave_seat _ _ _ _ _ _ _ Hs) as Hs0.
    destruct (R4 _ _ _ Hs0) as (s' & Hin & Hh). exists s'. split; [|done]. apply (in_delete _ _ _ s); [done..|].
    intros ->. destruct Hh as (<- & <- & Hid & _). by eapply left_seat.
  - intros c m Hl Ho. unfold drop_receiver in Hl.
    replace (br_mailboxes (b1 <| br_mailboxes ::= _ |>)) with
      (alter (λ m, MkMailbox false (mb_messages m)) (ss_receiver s) (br_mailboxes b1)) in Hl by by destruct b1.
    destruct (decide (ss_receiver s = c)) as [<-|Hne].
    + rewrite lookup_alter_eq in Hl. apply fmap_Some in Hl as (m' & _ & ->). discriminate.
    + rewrite lookup_alter_ne, Em1, send_list_lookup in Hl by done. apply fmap_Some in Hl as (m' & Hl & ->).
      rewrite mb_push_open in Ho. destruct (R5 _ _ Hl Ho) as (s' & Hin & <-). exists s'. split; [|done].
      apply (in_delete _ _ _ s); [done..|]. by intros ->.
Qed.

(** A refused socket leaves the rooms, and the count of its address, as they were. *)
Lemma reject_socket_spec now wrote permit why a :
  let o := reject_socket now wrote permit why a in
  o.2 = Err why ∧ ba_broker o.1 = ba_broker a ∧ ba_config o.1 = ba_config a ∧
  ba_connection_tracker o.1 = match permit with Some ip => release ip | None => id end (ba_connection_tracker a).
Proof. destruct a, wrote, permit; by split_and!. Qed.

Lemma admit_Err floor now unix_now wrote ip ch q draws a a' e permits :
  let limit := hc_max_connections_per_ip (ba_config a) in
  0 ≤ limit → broker_wf (ba_broker a) → br_next_connection_id (ba_broker a) + Z.of_nat (S (length draws)) < u64_max →
  counted limit (ba_connection_tracker a) permits →
  admit_socket floor now unix_now wrote ip ch q draws a = (a', Err e) →
  ba_config a' = ba_config a ∧ counted limit (ba_connection_tracker a') permits ∧
  drew (Z.of_nat (S (length draws))) (ba_broker a) (ba_broker a').
Proof.
  cbn zeta. intros Hl Hw Hn Hc. unfold admit_socket.
  assert (∀ permit why a1 m, reject_socket now wrote permit why a1 = (a', Err e) → ba_config a1 = ba_config a →
    drew (Z.of_nat (S (length draws))) (ba_broker a) (ba_broker a1) → ba_connection_tracker a1 = m →
    counted (hc_max_connections_per_ip (ba_config a)) (match permit with Some ip => release ip | None => id end m) permits →
    ba_config a' = ba_config a ∧ counted (hc_max_connections_per_ip (ba_config a)) (ba_connection_tracker a') permits ∧
    drew (Z.of_nat (S (length draws))) (ba_broker a) (ba_broker a')) as Hrej.
  { intros permit why a1 m Hr Hcf Hd Hm Hcount. pose proof (reject_socket_spec now wrote permit why a1) as (_ & Hb & Hc1 & Ht).
    rewrite Hr in Hb, Hc1, Ht. cbn [fst] in *. rewrite Hc1, Hb, Ht, Hm. by split_and!. }
  pose proof (drew_refl (Z.of_nat (S (length draws))) (ba_broker a) ltac:(lia)) as Hd0.
  destruct (is_blank ch); [intros Hr; by eapply Hrej|].
  pose proof (acquire_counted _ ip _ permits Hl Hc) as Hacq.
  destruct (try_acquire _ _ _) as [counts []]; destruct Hacq as [Hc1 _]; cbn [negb].
  2: { intros Hr. eapply Hrej; [exact Hr|by destruct a..|done]. }
  pose proof (release_counted _ ip counts (ip :: permits) 0 Hc1 eq_refl) as Hc2. cbn [delete list_delete] in Hc2.
  unfold app_allow. destruct (allow _ _ _ _ _) as [m []]; cbn [negb].
  2: { intros Hr. eapply Hrej; [exact Hr|by destruct a..|done]. }
  destruct (verify_connection _ _ _ _ _) as [v|].
  2: { intros Hr. eapply Hrej; [exact Hr|by destruct a..|done]. }
  replace (ba_broker _) with (ba_broker a) by by destruct a.
  destruct (match requested_peer_id v q with Some _ => _ | None => _ end) as [b [[pid r]|]] eqn:Ej; [done|].
  intros Hr. eapply Hrej; [exact Hr|by destruct a| |by destruct a|done].
  replace (ba_broker (_ <| ba_broker := b |>)) with b by by destruct a.
  destruct (requested_peer_id v q).
  - apply join_as_cases in Ej; [|done|lia]. destruct Ej as (? & ? & ? & ?). split_and!; [done..|lia|lia].
  - apply join_generated_cases in Ej; [|done|lia]. destruct Ej as (? & ? & ? & ?). split_and!; [done..|lia|lia].
Qed.

(** The rooms still have connection ids for every attempt of a join. *)
Definition ids_left (n : Net) (ev : NetEvent) : Prop :=
  match ev with
  | NetConnect _ _ _ _ _ _ _ draws =>
      br_next_connection_id (ba_broker (net_app n)) + Z.of_nat (S (length draws)) < u64_max
  | _ => True
  end.
Definition net_step (n : Net) (ev : NetEvent) (n' : Net) : Prop := ids_left n ev ∧ n' = net_exec n ev.

(** A broker that has just started, with a limit of connections per address. *)
Definition net_start (limit : Z) (n : Net) : Prop :=
  (∃ sink, ba_broker (net_app n) = broker_init sink) ∧ ba_connection_tracker (net_app n) = ∅ ∧ net_live n = [] ∧
  hc_max_connections_per_ip (ba_config (net_app n)) = limit.

Lemma net_start_ok limit n : 0 ≤ limit → net_start limit n → net_ok limit n.
Proof.
  intros Hl ([sink Hb] & Ht & Hv & Hm). split; [done|..].
  - rewrite Ht, Hv. intros ip. rewrite lookup_empty. cbn. lia.
  - rewrite Hb, Hv. split; [apply init_wf|constructor|set_solver|..].
    + intros ch pid h (room & Hr & _). cbn in Hr. by rewrite lookup_empty in Hr.
    + intros c m Hm'. cbn in Hm'. by rewrite lookup_empty in Hm'.
Qed.

Lemma close_socket_ok limit k s a live : net_ok limit (MkNet a live) → live !! k = Some s →
  net_ok limit (MkNet (close_socket s a) (delete k live)).
Proof.
  intros [N1 N2 N3] Hk. split; cbn [net_app net_live] in *; [by destruct a|..].
  - replace (ba_connection_tracker (close_socket s a)) with (release (ss_ip s) (ba_connection_tracker a)) by by destruct a.
    rewrite list_fmap_delete. apply release_counted; [done|]. by rewrite list_lookup_fmap, Hk.
  - pose proof (rooms_live_close _ _ _ _ N3 Hk) as HR. by destruct a.
Qed.

Lemma net_exec_ok limit n ev : 0 ≤ limit → ids_left n ev → net_ok limit n → net_ok limit (net_exec n ev).
Proof.
  intros Hl Hids HN. destruct n as [a live]. pose proof HN as [N1 N2 N3]. cbn [net_app net_live] in *.
  destruct ev as [floor now unix_now wrote ip ch q draws|k now wrote|k floor now wrote e]; cbn [net_exec net_app net_live].
  - cbn in Hids. pose proof (rl_wf _ _ N3) as Hw. destruct (admit_socket _ _ _ _ _ _ _ _ a) as [a' [s|err]] eqn:Ea.
    + apply admit_Ok in Ea as (v & b1 & r & _ & Hq & Hcf & Hd & _ & Hn & Hj & _ & _ & Es); [|done|lia].
      pose proof (acquire_counted limit ip _ _ Hl N2) as Hacq. rewrite N1 in Hq. rewrite Hq in Hacq.
      split; cbn [net_app net_live]; [by rewrite Hcf| |].
      * rewrite fmap_cons, Es. apply Hacq.
      * eapply rooms_live_join; [eapply rooms_live_drew; [exact Hd|done]|exact Hn|exact Hj|]. by rewrite Es at 1; rewrite Es.
    + rewrite <- N1 in *. eapply admit_Err in Ea as (Hcf & Ht & Hd); [|done..|lia|done].
      split; cbn [net_app net_live]; [by rewrite Hcf|done|]. by eapply rooms_live_drew.
  - destruct (live !! k) as [s|] eqn:Hk; [|done]. unfold welcome, send_message. destruct wrote.
    + destruct a. by split.
    + by apply close_socket_ok.
  - destruct (live !! k) as [s|] eqn:Hk; [|done].
    pose proof (on_event_broker floor now wrote s e a) as (Hcf & Ht & Hb).
    destruct (on_event floor now wrote s e a) as [[a' reply] stays]. cbn [fst] in *.
    assert (net_ok limit (MkNet a' live)) as HN'.
    { split; cbn [net_app net_live]; [by rewrite Hcf|by rewrite Ht|]. destruct Hb as [->|(text & m & _ & _ & _ & _ & _ & _ & Hp)]; [done|].
      pose proof (rooms_live_publish (ss_channel_id s) (ss_peer_id s) (ss_connection_id s) (pu_payload m) _ _ N3) as HR.
      by rewrite <- Hp in HR. }
    destruct stays; [done|]. by apply close_socket_ok.
Qed.

(** C17: however sockets open, talk and close side by side, every seat of every room belongs to
    a socket that is still open, under its room, name, connection and mailbox; every mailbox
    still written to is an open socket's; an address is charged for exactly its open sockets,
    at most its limit of them; and a broker without sockets has no room at all. *)
Theorem sockets_account_for_everything limit n :
  0 ≤ limit → reachable (net_start limit) net_step n →
  (∀ ch pid h, seat (ba_broker (net_app n)) ch pid h → ∃ s, s ∈ net_live n ∧ holds_seat s ch pid h) ∧
  (∀ c m, br_mailboxes (ba_broker (net_app n)) !! c = Some m → mb_open m = true →
     ∃ s, s ∈ net_live n ∧ ss_receiver s = c) ∧
  (∀ ip, default 0%nat (ba_connection_tracker (net_app n) !! ip) = length (filter (λ s, ss_ip s = ip) (net_live n)) ∧
     Z.of_nat (length (filter (λ s, ss_ip s = ip) (net_live n))) ≤ limit) ∧
  (net_live n = [] → br_rooms (ba_broker (net_app n)) = ∅).
Proof.
  intros Hl Hr. assert (net_ok limit n) as [N1 N2 N3].
  { revert n Hr. apply reachable_ind_inv; [by intros n; apply net_start_ok|].
    intros n ev n' _ HN [Hids ->]. by apply net_exec_ok. }
  destruct N3 as [R1 R2 R3 R4 R5]. split_and!; [done|done|..].
  - intros ip. specialize (N2 ip). unfold live in N2.
    replace (length (filter (λ s, ss_ip s = ip) (net_live n)))
      with (length (filter (λ i, i = ip) (ss_ip <$> net_live n))); [done|].
    clear. induction (net_live n) as [|s l IH]; [done|]. rewrite fmap_cons, !filter_cons.
    destruct (decide (ss_ip s = ip)); cbn; by rewrite IH.
  - intros Hlive. apply map_eq. intros ch. rewrite lookup_empty.
    destruct (br_rooms (ba_broker (net_app n)) !! ch) as [room|] eqn:Er; [|done].
    destruct (map_choose room) as (pid & h & Hp); [by eapply wf_nonempty|].
    destruct (R4 ch pid h) as (s & Hs & _); [by exists room|]. rewrite Hlive in Hs. set_solver.
Qed.

(** [handle_socket] is such a run, of its own socket only. *)
Definition of_newest (ev : NetEvent) : Prop :=
  match ev with NetConnect _ _ _ _ _ _ _ _ => False | NetWelcome k _ _ | NetFrame k _ _ _ _ => k = 0%nat end.

Lemma socket_loop_run floor s live events : ∀ a, ∃ evs, Forall of_newest evs ∧
  foldl net_exec (MkNet a (s :: live)) evs = MkNet (close_socket s (socket_loop floor s events a)) live.
Proof.
  induction events as [|[[now wrote] e] events IH]; intros a.
  - exists [NetFrame 0 floor 0 None SeEnd]. split; [by repeat constructor|]. done.
  - destruct (on_event floor now wrote s e a) as [[a1 reply] stays] eqn:Eo. destruct stays.
    + destruct (IH a1) as (evs & Hf & Hrun). exists (NetFrame 0 floor now wrote e :: evs).
      split; [by constructor|]. cbn -[on_event close_socket]. rewrite Eo. exact Hrun.
    + exists [NetFrame 0 floor now wrote e]. split; [by repeat constructor|]. cbn -[on_event close_socket]. by rewrite Eo.
Qed.

Lemma handle_socket_run floor now unix_now wrote ip ch q draws events a live : ∃ evs, Forall of_newest evs ∧
  foldl net_exec (MkNet a live) (NetConnect floor now unix_now wrote ip ch q draws :: evs)
  = MkNet (handle_socket floor now unix_now wrote ip ch q draws events a) live.
Proof.
  unfold handle_socket. destruct (admit_socket floor now unix_now wrote ip ch q draws a) as [a1 [s|e]] eqn:Ea.
  - destruct (welcome now wrote s a1) as [a2 []] eqn:Ew.
    + destruct (socket_loop_run floor s live events a2) as (evs & Hf & Hrun).
      exists (NetWelcome 0 now wrote :: evs). split; [by constructor|].
      cbn -[admit_socket welcome close_socket]. rewrite Ea. cbn -[admit_socket welcome close_socket]. rewrite Ew. exact Hrun.
    + exists [NetWelcome 0 now wrote]. split; [by repeat constructor|].
      cbn -[admit_socket welcome close_socket]. rewrite Ea. cbn -[admit_socket welcome close_socket]. by rewrite Ew.
  - exists []. split; [done|]. cbn -[admit_socket]. by rewrite Ea.
Qed.
End Admission.

(** ** The theorems on a relay and a surface *)
Definition example_app : BrokerAppState :=
  MkApp (broker_init true) (VerifySelfHosted sample_key) hardening_default ∅ ∅ metrics_init ∅ monitoring_init None
    false None.
Definition example_ticket (c : JoinTicketClaims) : option string :=
  match mint (H:=model_crypto) sample_key c with Ok t => Some t | Err _ => None end.
Definition example_ip : IpAddr := V4 16909060.
Definition relay_query : ConnectQuery := MkQuery None PeerRelay (example_ticket (relay_join "n" "room" "relay-1")).
Definition surface_query : ConnectQuery :=
  MkQuery (Some "relay-1") PeerSurface (example_ticket (device_surface_join "n" "room" "phone" None)).
Definition admit_relay : BrokerAppState * result Session JoinRejection :=
  admit_socket (H:=model_crypto) (-100 * NANOS) 0 500 (Some 10) example_ip "room" relay_query [] example_app.
Definition admit_surface (a : BrokerAppState) : BrokerAppState * result Session JoinRejection :=
  admit_socket (H:=model_crypto) (-100 * NANOS) 0 500 (Some 10) example_ip "room" surface_query ["AbC"; "dEf"] a.
Definition example_session : Session := MkSession example_ip "room" "relay-1" PeerRelay 1 0 "peer:relay-1".

Lemma admission_needs_a_ticket_witness :
  admit_relay.2 = Ok example_session ∧
  seat (ba_broker admit_relay.1) "room" "relay-1" (MkPeerHandle 1 PeerRelay None None 0) ∧
  result_ok (admit_surface admit_relay.1).2 =
    Some (MkSession example_ip "room" "surface-abc" PeerSurface 2 1 "device:phone").
Proof.
  assert (admit_relay.2 = Ok example_session) as E by (vm_compute; reflexivity). split; [exact E|]. split.
  - pose proof (@admission_needs_a_ticket model_crypto (-100 * NANOS) 0 500 (Some 10) example_ip "room" relay_query []
      example_app admit_relay.1 example_session (init_wf true) ltac:(vm_compute; reflexivity)
      ltac:(rewrite <- E; apply surjective_pairing)) as (_ & _ & _ & (key & token & claims & _ & _ & Hv & _ & _ & _ & _ & Hs & _) & _).
    vm_compute. eexists. split; reflexivity.
  - vm_compute. reflexivity.
Defined.

Definition hello : json :=
  JMap [("type", JStr "publish"); ("protocol_version", JU64 1); ("payload", JMap [("kind", JStr "hello")])].
Definition hello_text : string := json_to_vec (TicketCrypto:=model_crypto) hello.

Lemma published_frames_are_vetted_witness :
  let o := on_event (H:=model_crypto) (-100 * NANOS) 1 None example_session (SeText hello_text) admit_relay.1 in
  br_events (ba_broker o.1.1) ≠ br_events (ba_broker admit_relay.1) ∧ o.1.2 = None ∧ o.2 = true.
Proof.
  intros o. assert (br_events (ba_broker o.1.1) ≠ br_events (ba_broker admit_relay.1)) as Hne
    by (vm_compute; discriminate).
  split; [exact Hne|]. destruct o as [[a' reply] stays] eqn:Eo.
  destruct (@published_frames_are_vetted model_crypto (-100 * NANOS) 1 None example_session (SeText hello_text)
    admit_relay.1 a' reply stays Eo) as (-> & -> & _); [|split; reflexivity].
  intros E. apply Hne. change (br_events (ba_broker a') = br_events (ba_broker admit_relay.1)). rewrite E. reflexivity.
Defined.

Definition example_connect (q : ConnectQuery) (draws : list string) : NetEvent :=
  NetConnect (-100 * NANOS) 0 500 (Some 10) example_ip "room" q draws.
Definition net1 : Net := net_exec (H:=model_crypto) (MkNet example_app []) (example_connect relay_query []).
Definition net2 : Net := net_exec (H:=model_crypto) net1 (example_connect surface_query ["AbC"]).
Definition net3 : Net := net_exec (H:=model_crypto) net2 (NetFrame 0 0 1 None SeClose).

Lemma sockets_account_for_everything_witness :
  length (net_live net2) = 2%nat ∧ net_live net3 = [example_session] ∧
  default 0%nat (ba_connection_tracker (net_app net3) !! example_ip) = 1%nat.
Proof.
  assert (net_live net3 = [example_session]) as E by (vm_compute; reflexivity).
  split; [vm_compute; reflexivity|]. split; [exact E|].
  assert (reachable (net_start (hc_max_connections_per_ip hardening_default)) (net_step (H:=model_crypto)) net3) as Hr.
  { apply (reach_step _ _ net2 (NetFrame 0 0 1 None SeClose)); [|split; [exact I|exact eq_refl]].
    apply (reach_step _ _ net1 (example_connect surface_query ["AbC"])); [|split; [vm_compute; reflexivity|exact eq_refl]].
    apply (reach_step _ _ (MkNet example_app []) (example_connect relay_query [])); [|split; [vm_compute; reflexivity|exact eq_refl]].
    apply reach_init. split; [exists true; reflexivity|]. split_and!; reflexivity. }
  destruct (@sockets_account_for_everything model_crypto (hc_max_connections_per_ip hardening_default) net3
    ltac:(vm_compute; discriminate) Hr) as (_ & _ & Hc & _).
  rewrite (proj1 (Hc example_ip)). rewrite E. vm_compute. reflexivity.
Defined.
