(* ===== verification/HttpRequests.v ===== *)
(** * Requests of the broker's HTTP interface (crates/relay-broker/src/lib.rs, crates/relay-http/src/lib.rs)

    What the handlers read out of a request and put into a response: credentials, cookies,
    origins, security and cache headers, and the errors a client is told.  Which bytes make a
    header value, and the grammar of a URI, are the http crate's: a class. *)

From Stdlib Require Import ZArith Lia Ascii String.
From S2P Require Import Prelude RustStr Json JoinTicket Transcript Device.
From S2P Require Import ControlStore ControlPlane Licenses Blocklist Limits.

Open Scope string_scope.
Open Scope Z_scope.

Definition DEVICE_SESSION_COOKIE_NAME : string := "agent_relay_device_session".
Definition DEVICE_SCOPED_SESSION_COOKIE_PATH : string := "/api/public/device".
Definition DEVICE_SESSION_ROOM_MAX_BYTES : Z := 512.
Definition CLIENT_SESSION_COOKIE_NAME : string := "agent_relay_client_session".
Definition DEVICE_SESSION_COOKIE_MAX_AGE_SECS : Z := 60 * 60 * 24 * 400.

Class HttpLib := {
  header_value_ok : string → bool;   (** [HeaderValue::from_str] accepts *)
  uri_parts : string → option (option string * option string)  (** scheme and authority *)
}.

(** ** Reading headers *)
(** [headers.get(name)] and [to_str]: the first value, when it is visible ASCII. *)
Definition header_str (headers : Headers) (name : string) : option string := head (headers name) ≫= id.

Definition strip_prefix (p s : string) : option string :=
  if starts_with p s then Some (String.substring (String.length p) (String.length s - String.length p) s) else None.

Definition forwarded_proto_is_https (headers : Headers) : bool :=
  match header_str headers "x-forwarded-proto" with
  | Some value => existsb (λ entry, eq_ignore_ascii_case (trim entry) "https") (split_on "," value)
  | None =>
      match header_str headers "forwarded" with
      | Some value => contains "proto=https" (to_ascii_lowercase value)
      | None => false
      end
  end.
Definition header_equals_ignore_ascii_case (headers : Headers) (name expected : string) : bool :=
  match header_str headers name with Some value => eq_ignore_ascii_case value expected | None => false end.

(** The broker passes no URI. *)
Definition request_uses_https (headers : Headers) : bool :=
  forwarded_proto_is_https headers || header_equals_ignore_ascii_case headers "x-forwarded-ssl" "on".

Definition request_origin (headers : Headers) : option string :=
  authority ← header_str headers "host";
  Some ((if request_uses_https headers then "https" else "http") +:+ "://" +:+ authority).

Section Http.
Context `{HttpLib} `{DeviceCrypto}.

Definition header_origin (headers : Headers) (name : string) : option string :=
  raw ← trim <$> header_str headers name;
  if is_empty raw || eq_ignore_ascii_case raw "null" then None else
  '(scheme, authority) ← uri_parts raw;
  scheme ← scheme; authority ← authority;
  Some (scheme +:+ "://" +:+ authority).

(** [true]: the upgrade goes on; otherwise a 403. *)
Definition authorize_websocket_origin (headers : Headers) : bool :=
  match header_origin headers "origin" with
  | None => true
  | Some origin => bool_decide (request_origin headers = Some origin)
  end.

Definition request_environment (headers : Headers) : option RequestEnvironment :=
  let origin := header_origin headers "origin" in
  let user_agent_hash :=
    value ← trim <$> header_str headers "user-agent";
    if is_empty value then None else Some ("ua:" +:+ String.substring 0 12 (sha256_hex value)) in
  if is_none origin && is_none user_agent_hash then None else Some (MkEnvironment origin user_agent_hash).

(** ** Errors *)
Record ApiError : Type := MkApiError { ae_status : Z; ae_error : string; ae_message : string }.
#[global] Instance ApiError_eq_dec : EqDecision ApiError.
Proof using Type. solve_decision. Defined.

Definition public_api_auth_failure (message : string) : bool :=
  let lower := to_ascii_lowercase message in
  contains "invalid" lower || contains "does not match" lower || contains "missing bearer token" lower.

Definition SENSITIVE : list string :=
  ["pairing_secret"; "refresh_token"; "join_ticket"; "ws_token"; "authorization"; "bearer "].
Definition scrub_sensitive_message (message : string) : string :=
  let lower := to_ascii_lowercase message in
  if existsb (λ needle, contains needle lower) SENSITIVE then "request failed" else message.

Definition public_api_error (message : string) : ApiError :=
  if public_api_auth_failure message then MkApiError 401 "unauthorized" "request failed"
  else MkApiError 400 "bad_request" (scrub_sensitive_message message).

Definition MISSING_BEARER : ApiError := MkApiError 401 "unauthorized" "missing bearer token".
Definition NOT_PUBLIC : ApiError :=
  MkApiError 404 "not_found" "public control-plane endpoints are unavailable in this auth mode".
Definition RATE_LIMITED : ApiError := MkApiError 429 "rate_limited" "public broker control-plane rate limit exceeded".
Definition INVALID_ROOM : ApiError := MkApiError 400 "bad_request" "invalid room".

Definition is_control (c : Z) : bool := (c <? 32) || in_range 127 c 159.
Definition validate_room_id (room : string) : result () ApiError :=
  if negb (is_empty room) && (str_len room <=? DEVICE_SESSION_ROOM_MAX_BYTES) && negb (existsb is_control (chars room))
  then Ok () else Err INVALID_ROOM.

(** ** Credentials *)
Definition bearer_token (headers : Headers) : result string ApiError :=
  ok_or (value ← header_str headers "authorization"; token ← strip_prefix "Bearer " value; trimmed_string token)
    MISSING_BEARER.

Definition cookie_value (cookie_name part : string) : option string :=
  '(name, value) ← split_once "=" (trim part);
  if bool_decide (trim name = cookie_name) then trimmed_string value else None.
Definition named_cookie (headers : Headers) (cookie_name : string) : option string :=
  raw ← header_str headers "cookie"; head (omap (cookie_value cookie_name) (split_on ";" raw)).

Definition device_session_cookie (headers : Headers) : option string := named_cookie headers DEVICE_SESSION_COOKIE_NAME.
Definition client_session_cookie (headers : Headers) : option string := named_cookie headers CLIENT_SESSION_COOKIE_NAME.
Definition device_session_cookie_name (room : string) : string :=
  DEVICE_SESSION_COOKIE_NAME +:+ "_" +:+ sha256_hex room.
Definition device_session_cookie_for_room (headers : Headers) (room : string) : option string :=
  named_cookie headers (device_session_cookie_name room).

Definition device_refresh_token (headers : Headers) : result string ApiError :=
  match device_session_cookie headers with Some cookie => Ok cookie | None => bearer_token headers end.

Inductive DeviceTokenSource : Type := PerRoom | Bearer | Legacy.
Definition device_refresh_token_scoped (headers : Headers) (room : string) :
    result (DeviceTokenSource * string) ApiError :=
  match bearer_token headers with
  | Ok bearer => Ok (Bearer, bearer)
  | Err _ =>
      match device_session_cookie_for_room headers room, device_session_cookie headers with
      | Some cookie, _ => Ok (PerRoom, cookie)
      | None, Some cookie => Ok (Legacy, cookie)
      | None, None => Err MISSING_BEARER
      end
  end.

Inductive ClientRefreshAuth : Type := AuthCookie (token : string) | AuthBearer (token : string).
Definition auth_token (a : ClientRefreshAuth) : string := match a with AuthCookie t | AuthBearer t => t end.
Definition used_cookie (a : ClientRefreshAuth) : bool := match a with AuthCookie _ => true | AuthBearer _ => false end.
Definition client_refresh_auth (headers : Headers) : result ClientRefreshAuth ApiError :=
  match client_session_cookie headers with
  | Some cookie => Ok (AuthCookie cookie)
  | None => let? t := bearer_token headers in Ok (AuthBearer t)
  end.
Definition client_refresh_token (headers : Headers) : result string ApiError :=
  let? a := client_refresh_auth headers in Ok (auth_token a).

(** ** Cookies *)
Definition secure_suffix (secure : bool) : string := if secure then "; Secure" else "".
Definition build_session_cookie (cookie_name refresh_token path : string) (secure : bool) (error_message : string) :
    result string ApiError :=
  let value := cookie_name +:+ "=" +:+ trim refresh_token +:+ "; HttpOnly; Path=" +:+ path
                 +:+ "; SameSite=Strict; Max-Age=" +:+ pretty DEVICE_SESSION_COOKIE_MAX_AGE_SECS +:+ secure_suffix secure in
  if header_value_ok value then Ok value else Err (MkApiError 400 "bad_request" error_message).
Definition clear_session_cookie (cookie_name path : string) (secure : bool) : string :=
  cookie_name +:+ "=; HttpOnly; Path=" +:+ path +:+ "; SameSite=Strict; Max-Age=0" +:+ secure_suffix secure.

Definition build_device_session_cookie (refresh_token : string) (secure : bool) : result string ApiError :=
  build_session_cookie DEVICE_SESSION_COOKIE_NAME refresh_token "/api/public/device" secure
    "device session cookie could not be created".
Definition clear_device_session_cookie (secure : bool) : string :=
  clear_session_cookie DEVICE_SESSION_COOKIE_NAME "/api/public/device" secure.
Definition build_device_session_cookie_for_room (room refresh_token : string) (secure : bool) : result string ApiError :=
  build_session_cookie (device_session_cookie_name room) refresh_token DEVICE_SCOPED_SESSION_COOKIE_PATH secure
    "device session cookie could not be created".
Definition clear_device_session_cookie_for_room (room : string) (secure : bool) : string :=
  clear_session_cookie (device_session_cookie_name room) DEVICE_SCOPED_SESSION_COOKIE_PATH secure.
Definition build_client_session_cookie (refresh_token : string) (secure : bool) : result string ApiError :=
  build_session_cookie CLIENT_SESSION_COOKIE_NAME refresh_token "/api/public" secure
    "client session cookie could not be created".
Definition clear_client_session_cookie (secure : bool) : string :=
  clear_session_cookie CLIENT_SESSION_COOKIE_NAME "/api/public" secure.

(** ** The operator's token *)
Inductive AdminAuthOutcome : Type := AdminDisabled | AdminUnauthorized | AdminAuthorized.
#[global] Instance AdminAuthOutcome_eq_dec : EqDecision AdminAuthOutcome.
Proof using Type. solve_decision. Defined.

(** [diff] gathers the xor of the bytes. *)
Fixpoint xor_diff (diff : Z) (a b : string) : Z :=
  match a, b with
  | String x a, String y b => xor_diff (Z.lor diff (Z.lxor (byte_val x) (byte_val y))) a b
  | _, _ => diff
  end.
Definition constant_time_eq (a b : string) : bool := (str_len a =? str_len b) && (xor_diff 0 a b =? 0).

Definition admin_auth_outcome (configured presented : option string) : AdminAuthOutcome :=
  match configured, presented with
  | None, _ => AdminDisabled
  | Some configured, Some token => if constant_time_eq token configured then AdminAuthorized else AdminUnauthorized
  | Some _, None => AdminUnauthorized
  end.

(** ** Caching *)
Definition is_success (status : Z) : bool := in_range 200 status 299.
Definition cache_control_for (path : string) (status : Z) : string :=
  if starts_with "/api/" path then "no-store"
  else if negb (is_success status || (status =? 304)) then "no-store"
  else if starts_with "/static/assets/" path then "public, max-age=31536000, immutable"
  else "no-cache".
(** The [Cache-Control] of a response, given the handler's own. *)
Definition with_cache_headers (path : string) (status : Z) (own : option string) : string :=
  let value := cache_control_for path status in
  if starts_with "/api/" path then value else default value own.

(** ** Security headers *)
Definition DEFAULT_CONNECT_SRC : string := "'self' http: https: ws: wss:".
Definition DEFAULT_HSTS_VALUE : string := "max-age=31536000; includeSubDomains".
Definition PERMISSIONS_POLICY : string := "accelerometer=(), ambient-light-sensor=(), autoplay=(), bluetooth=(), camera=(), display-capture=(), geolocation=(), gyroscope=(), magnetometer=(), microphone=(), midi=(), payment=(), publickey-credentials-get=(), usb=(), web-share=(), xr-spatial-tracking=()".
Definition REFERRER_POLICY : string := "no-referrer".
Definition X_CONTENT_TYPE_OPTIONS : string := "nosniff".

Record SecurityHeadersConfig : Type := MkSecurity {
  sh_enable_hsts : bool;
  sh_content_security_policy : string;
  sh_strict_transport_security : string
}.
Inductive SecurityError : Type := InvalidCsp (env : string) | InvalidHsts (env : string).

Definition build_content_security_policy (connect_src : string) : string :=
  "default-src 'self'; base-uri 'none'; frame-ancestors 'none'; form-action 'self'; object-src 'none'; script-src 'self'; style-src 'self'; img-src 'self' data: blob:; connect-src "
    +:+ connect_src +:+ "; manifest-src 'self'; worker-src 'self' blob:".
Definition validated_security_header_values (connect_src hsts_value : option string) (csp_env_name hsts_env_name : string) :
    result SecurityHeadersConfig SecurityError :=
  let csp := build_content_security_policy (default DEFAULT_CONNECT_SRC connect_src) in
  if negb (header_value_ok csp) then Err (InvalidCsp csp_env_name) else
  let hsts := default DEFAULT_HSTS_VALUE hsts_value in
  if negb (header_value_ok hsts) then Err (InvalidHsts hsts_env_name) else
  Ok (MkSecurity false csp hsts).
Definition from_parts (enable_hsts : bool) (connect_src hsts_value : option string) (csp_env_name hsts_env_name : string) :
    result SecurityHeadersConfig SecurityError :=
  let? values := validated_security_header_values connect_src hsts_value csp_env_name hsts_env_name in
  Ok (MkSecurity enable_hsts (sh_content_security_policy values) (sh_strict_transport_security values)).

(** The response's headers: a name has one value. *)
Definition apply_standard_security_headers (c : SecurityHeadersConfig) (is_https : bool) (h : gmap string string) :
    gmap string string :=
  let h := <["x-content-type-options" := X_CONTENT_TYPE_OPTIONS]> (<["referrer-policy" := REFERRER_POLICY]>
    (<["permissions-policy" := PERMISSIONS_POLICY]> (<["content-security-policy" := sh_content_security_policy c]> h))) in
  if sh_enable_hsts c && is_https then <["strict-transport-security" := sh_strict_transport_security c]> h else h.
Definition with_security_headers (c : SecurityHeadersConfig) (headers : Headers) (h : gmap string string) :
    gmap string string :=
  apply_standard_security_headers c (request_uses_https headers) h.
End Http.

(** * Requests of the broker's HTTP interface: theorems

    What a client is told never carries a secret, the operator's token is compared whole and
    by value, the session cookie a response sets is the one the next request is read by, and
    no answer of the API is cached. *)
(** ** Errors *)

(** Whatever went wrong, what the client reads of it holds no credential's name in any
    spelling of its letters, and a refused credential is answered with one fixed text. *)
Theorem errors_leak_no_secret message :
  Forall (λ needle, contains needle (to_ascii_lowercase (ae_message (public_api_error message))) = false) SENSITIVE ∧
  (ae_status (public_api_error message) = 401 ↔ public_api_auth_failure message = true) ∧
  (ae_status (public_api_error message) = 401 → public_api_error message = MkApiError 401 "unauthorized" "request failed").
Proof.
  assert (Forall (λ needle, contains needle (to_ascii_lowercase "request failed") = false) SENSITIVE) as Hfixed
    by (repeat constructor).
  unfold public_api_error. destruct (public_api_auth_failure message); cbn [ae_message ae_status].
  { by split_and!. }
  split_and!; [|split; discriminate|discriminate]. unfold scrub_sensitive_message.
  destruct (existsb _ SENSITIVE) eqn:E; [exact Hfixed|].
  apply Forall_forall. intros needle Hin. apply not_true_iff_false. intros Hc.
  apply not_true_iff_false in E. apply E, existsb_exists. exists needle. split; [by apply list_elem_of_In|done].
Qed.

Lemma errors_leak_no_secret_witness :
  public_api_error "relay refresh token is invalid" = MkApiError 401 "unauthorized" "request failed" ∧
  ae_message (public_api_error "column Refresh_Token is missing") = "request failed".
Proof.
  split; [|vm_compute; reflexivity].
  apply (proj2 (proj2 (errors_leak_no_secret "relay refresh token is invalid"))). vm_compute. reflexivity.
Defined.

(** ** The operator's token *)
Lemma xor_diff_zero a : ∀ b diff, 0 ≤ diff → String.length a = String.length b →
  xor_diff diff a b = 0 ↔ diff = 0 ∧ a = b.
Proof.
  induction a as [|x a IH]; intros [|y b] diff Hd Hl; try done; cbn [xor_diff]; [naive_solver|].
  injection Hl as Hl. assert (0 ≤ Z.lxor (byte_val x) (byte_val y)) as Hx
    by (apply Z.lxor_nonneg; unfold byte_val; lia).
  rewrite IH by (done || by apply Z.lor_nonneg).
  rewrite Z.lor_eq_0_iff, Z.lxor_eq_0_iff. split.
  - intros [[-> E%byte_val_inj] ->]. by subst.
  - by intros [-> [= -> ->]].
Qed.

Lemma constant_time_eq_spec a b : constant_time_eq a b = bool_decide (a = b).
Proof.
  unfold constant_time_eq, str_len. destruct (Z.eqb_spec (Z.of_nat (String.length a)) (Z.of_nat (String.length b))) as [E|E].
  - cbn [andb]. apply Nat2Z.inj in E. pose proof (xor_diff_zero a b 0 ltac:(lia) E) as Hz.
    case_bool_decide as Hab; [apply Z.eqb_eq|apply Z.eqb_neq]; tauto.
  - cbn [andb]. rewrite bool_decide_eq_false_2; [done|]. by intros ->.
Qed.

(** The comparison without early exit is equality, so a request is the operator's exactly
    when a token is configured and the request presents that token; without a configured token
    the interface does not exist, whatever is presented. *)
Theorem operator_token_is_exact configured presented :
  (∀ a b, constant_time_eq a b = true ↔ a = b) ∧
  (admin_auth_outcome configured presented = AdminAuthorized ↔ ∃ t, configured = Some t ∧ presented = Some t) ∧
  (admin_auth_outcome configured presented = AdminDisabled ↔ configured = None).
Proof.
  split; [intros a b; rewrite constant_time_eq_spec; apply bool_decide_eq_true|].
  unfold admin_auth_outcome. destruct configured as [c|], presented as [t|]; rewrite ?constant_time_eq_spec;
    try case_bool_decide; naive_solver.
Qed.

(** ** Cookies *)

(** A byte of a cookie's name or value: visible, and no separator. *)
Definition cookie_byte (a : ascii) : bool := in_range 33 (byte_val a) 126 && negb (Ascii.eqb a ";") && negb (Ascii.eqb a "=").
Definition cookie_text (s : string) : bool := negb (is_empty s) && string_forall cookie_byte s.

Definition graph_byte (a : ascii) : bool := in_range 33 (byte_val a) 126.
Lemma trim_graph s : string_forall graph_byte s = true → trim s = s.
Proof.
  intros Hs. assert (∀ a, graph_byte a = true → byte_val a < 128 ∧ is_ws1 a = false) as Hg.
  { intros a. unfold graph_byte, is_ws1, in_range. rewrite andb_true_iff, !Z.leb_le. intros [? ?]. split; [lia|].
    apply orb_false_iff. rewrite andb_false_iff, Z.leb_gt, Z.leb_gt, Z.eqb_neq. lia. }
  assert (trim_start s = s) as E.
  { destruct s as [|a s]; [done|]. cbn in Hs. apply andb_true_iff in Hs as [[Ha Hw]%Hg _]. by apply trim_start_id. }
  unfold trim, trim_end. rewrite E. rewrite <- string_forall_rev in Hs.
  assert (trim_start_rev (string_rev s) = string_rev s) as E'.
  { destruct (string_rev s) as [|a r]; [done|]. cbn in Hs. apply andb_true_iff in Hs as [[Ha Hw]%Hg _]. by apply trim_start_rev_id. }
  rewrite E'. apply string_rev_involutive.
Qed.

Lemma cookie_text_spec s : cookie_text s = true →
  trim s = s ∧ is_empty s = false ∧ string_forall (λ a, negb (Ascii.eqb a ";")) s = true ∧
  string_forall (λ a, negb (Ascii.eqb a "=")) s = true ∧ string_forall graph_byte s = true.
Proof.
  unfold cookie_text, cookie_byte. intros [He Hs]%andb_true_iff. rewrite negb_true_iff in He.
  assert (string_forall graph_byte s = true) as Hg
    by (eapply string_forall_impl; [|exact Hs]; intros a; rewrite !andb_true_iff; tauto).
  split_and!; [by apply trim_graph|done|..|done]; (eapply string_forall_impl; [|exact Hs]); intros a;
    rewrite !andb_true_iff; tauto.
Qed.

(** The cookies a browser sends: [name=value] joined by [; ]. *)
Definition cookie_pair (c : string * string) : string := c.1 +:+ "=" +:+ c.2.
Fixpoint cookie_header (cookies : list (string * string)) : string :=
  match cookies with
  | [] => ""
  | [c] => cookie_pair c
  | c :: cookies => cookie_pair c +:+ "; " +:+ cookie_header cookies
  end.

Lemma split_on_app c l r : string_forall (λ a, negb (Ascii.eqb a c)) l = true →
  split_on c (l +:+ String c r) = l :: split_on c r.
Proof.
  induction l as [|a l IH]; cbn [string_forall]; intros Hl.
  - cbn. by rewrite Ascii.eqb_refl.
  - apply andb_true_iff in Hl as [Ha Hl]. rewrite negb_true_iff in Ha. cbn [String.append split_on].
    rewrite Ha, IH by done. done.
Qed.
Lemma split_on_none c l : string_forall (λ a, negb (Ascii.eqb a c)) l = true → split_on c l = [l].
Proof.
  induction l as [|a l IH]; [done|]. cbn [string_forall split_on]. intros [Ha Hl]%andb_true_iff.
  rewrite negb_true_iff in Ha. by rewrite Ha, IH.
Qed.

Lemma trim_space s : trim (String " " s) = trim s.
Proof. reflexivity. Qed.

Definition read_cookie (name : string) (c : string * string) : option string := if decide (c.1 = name) then Some c.2 else None.
Definition cookie_ok (c : string * string) : Prop := cookie_text c.1 = true ∧ cookie_text c.2 = true.

Lemma cookie_pair_plain c : cookie_ok c →
  string_forall (λ a, negb (Ascii.eqb a ";")) (cookie_pair c) = true ∧ trim (cookie_pair c) = cookie_pair c.
Proof.
  destruct c as [n v]. intros [(_ & _ & Hn & _ & Gn)%cookie_text_spec (_ & _ & Hv & _ & Gv)%cookie_text_spec].
  cbn in *. unfold cookie_pair. cbn [fst snd]. split; [|apply trim_graph];
    rewrite !string_forall_app; by rewrite ?Hn, ?Hv, ?Gn, ?Gv.
Qed.

Lemma cookie_value_pair name c s : cookie_ok c → trim s = cookie_pair c → cookie_value name s = read_cookie name c.
Proof.
  destruct c as [n v]. intros [(Tn & En & _ & Hn & _)%cookie_text_spec (Tv & Ev & _)%cookie_text_spec] Hs.
  cbn in *. unfold cookie_value, read_cookie. rewrite Hs. unfold cookie_pair. cbn [fst snd].
  rewrite (split_once_app "="%char n v Hn). cbn. rewrite Tn. unfold trimmed_string. rewrite Tv, Ev.
  case_bool_decide; [by rewrite decide_True|by rewrite decide_False].
Qed.

(** Reading a browser's cookies with a reader of single cookies finds those of the name. *)
Lemma cookies_read_by (f : string → option string) name cookies :
  f "" = None → f " " = None → (∀ c s, cookie_ok c → trim s = cookie_pair c → f s = read_cookie name c) →
  Forall cookie_ok cookies → ∀ lead, lead = "" ∨ lead = " " →
  omap f (split_on ";" (lead +:+ cookie_header cookies)) = omap (read_cookie name) cookies.
Proof.
  intros E0 E1 Hf. induction 1 as [|c cookies Hc Hcs IH]; intros lead Hlead.
  { destruct Hlead as [-> | ->]; cbn; by rewrite ?E0, ?E1. }
  destruct (cookie_pair_plain c Hc) as [Hp Ht].
  assert (trim (lead +:+ cookie_pair c) = cookie_pair c) as Htl by (destruct Hlead as [-> | ->]; cbn; by rewrite ?trim_space).
  assert (string_forall (λ a, negb (Ascii.eqb a ";")) (lead +:+ cookie_pair c) = true) as Hpl
    by (destruct Hlead as [-> | ->]; by cbn).
  assert (omap (read_cookie name) (c :: cookies) =
    match read_cookie name c with Some v => v :: omap (read_cookie name) cookies | None => omap (read_cookie name) cookies end) as -> by done.
  destruct cookies as [|c' cookies].
  - cbn [cookie_header]. rewrite split_on_none by done. cbn [omap list_omap]. by rewrite (Hf c) by done.
  - change (cookie_header (c :: c' :: cookies)) with (cookie_pair c +:+ String ";" (" " +:+ cookie_header (c' :: cookies))).
    rewrite <- string_app_assoc, split_on_app by done.
    cbn [omap list_omap]. rewrite (Hf c) by done.
    specialize (IH " " ltac:(by right)). by destruct (read_cookie name c); [f_equal|].
Qed.

(** Among cookies of a browser, the first of the name is found. *)
Lemma cookie_found_by (f : string → option string) name v earlier later :
  f "" = None → f " " = None → (∀ c s, cookie_ok c → trim s = cookie_pair c → f s = read_cookie name c) →
  Forall cookie_ok (earlier ++ (name, v) :: later)%list → Forall (λ c, c.1 ≠ name) earlier →
  head (omap f (split_on ";" (cookie_header (earlier ++ (name, v) :: later)%list))) = Some v.
Proof.
  intros E0 E1 Hf Hok Hne.
  pose proof (cookies_read_by f name _ E0 E1 Hf Hok "" ltac:(by left)) as Hr. cbn [String.append] in Hr.
  rewrite Hr, omap_app. assert (omap (read_cookie name) earlier = []) as ->.
  { clear -Hne. induction Hne as [|c l Hc Hl IH]; [done|]. cbn. unfold read_cookie at 1. by rewrite decide_False. }
  cbn. unfold read_cookie at 1. by rewrite decide_True.
Qed.

Section HttpTheorems.
Context `{HttpLib} `{DeviceCrypto}.

(** The cookie a response sets, kept by a browser up to its first attribute and sent back
    among others, none of them of its name before it, is the credential the next request is
    read by. *)
Theorem session_cookie_round_trip cookie_name refresh_token path is_secure error_message value :
  cookie_text cookie_name = true → cookie_text (trim refresh_token) = true →
  build_session_cookie cookie_name refresh_token path is_secure error_message = Ok value →
  head (split_on ";" value) = Some (cookie_pair (cookie_name, trim refresh_token)) ∧
  ∀ headers earlier later,
    Forall cookie_ok (earlier ++ later) → Forall (λ c, c.1 ≠ cookie_name) earlier →
    header_str headers "cookie" = Some (cookie_header (earlier ++ (cookie_name, trim refresh_token) :: later)%list) →
    named_cookie headers cookie_name = Some (trim refresh_token).
Proof.
  intros Hn Ht Hb. unfold build_session_cookie in Hb. destruct (header_value_ok _); [|done]. injection Hb as <-.
  split_and!.
  - destruct (cookie_pair_plain (cookie_name, trim refresh_token)) as [Hp _]; [done|].
    unfold cookie_pair in Hp. cbn [fst snd] in Hp. match goal with |- head (split_on _ ?v) = _ =>
      assert (∃ rest, v = (cookie_name +:+ "=" +:+ trim refresh_token) +:+ String ";" rest) as [rest ->] end.
    { eexists. rewrite !string_app_assoc. reflexivity. }
    by rewrite split_on_app.
  - intros headers earlier later Hok Hne Hh. unfold named_cookie. rewrite Hh. cbn [mbind option_bind].
    apply cookie_found_by; [done|done| | |done].
    + intros c s. apply cookie_value_pair.
    + apply Forall_app in Hok as [? ?]. apply Forall_app. split; [done|by constructor].
Qed.
End HttpTheorems.

(** A model of the http crate: a header value is visible ASCII. *)
Definition model_http : HttpLib := {|
  header_value_ok := string_forall (λ a, in_range 32 (byte_val a) 126);
  uri_parts := λ s, match split_once ":"%char s with
                    | Some (scheme, rest) => (λ a, (Some scheme, Some a)) <$> strip_prefix "//" rest
                    | None => None
                    end |}.
Definition one_header (name value : string) : Headers := λ n, if decide (n = name) then [Some value] else [].

Lemma session_cookie_round_trip_witness :
  ∃ value, build_session_cookie (H:=model_http) CLIENT_SESSION_COOKIE_NAME "cref-abc " "/api/public" true "no" = Ok value ∧
    ends_with "; Secure" value = true ∧
    named_cookie (one_header "cookie" "theme=dark; agent_relay_client_session=cref-abc") CLIENT_SESSION_COOKIE_NAME = Some "cref-abc".
Proof.
  eexists. split; [vm_compute; reflexivity|]. split; [vm_compute; reflexivity|].
  refine (proj2 (@session_cookie_round_trip model_http CLIENT_SESSION_COOKIE_NAME "cref-abc " "/api/public" true "no" _ _ _ _)
    (one_header "cookie" "theme=dark; agent_relay_client_session=cref-abc") [("theme", "dark")] [] _ _ _);
    [vm_compute; reflexivity..| | |vm_compute; reflexivity].
  - repeat constructor.
  - repeat constructor; discriminate.
Defined.

(** ** Caching *)

(** Whatever a handler wrote, an answer of the API is never stored; and an answer is
    cached for good only when it succeeded, for a hashed asset, and its handler said nothing
    else. *)
Theorem api_answers_are_never_stored path status own :
  (starts_with "/api/" path = true → with_cache_headers path status own = "no-store") ∧
  (own = None → contains "immutable" (with_cache_headers path status own) = true →
     starts_with "/static/assets/" path = true ∧ (is_success status = true ∨ status = 304)).
Proof.
  unfold with_cache_headers, cache_control_for. destruct (starts_with "/api/" path); [by split|].
  split; [done|]. intros ->. cbn [default]. destruct (is_success status) eqn:Es; cbn [negb orb].
  - destruct (starts_with "/static/assets/" path); [by split; [|left]|by intros].
  - destruct (Z.eqb_spec status 304) as [->|]; cbn [negb]; [|by intros].
    destruct (starts_with "/static/assets/" path); [by split; [|right]|by intros].
Qed.

Lemma api_answers_are_never_stored_witness :
  with_cache_headers "/api/public/relays" 200 (Some "public, max-age=60") = "no-store".
Proof. apply (proj1 (api_answers_are_never_stored "/api/public/relays" 200 (Some "public, max-age=60"))). reflexivity. Defined.
