(* ===== verification/PublicApi.v ===== *)
(** * Handlers of the broker's HTTP interface (crates/relay-broker/src/lib.rs)

    One definition per route of the public control plane, and the operator's statistics.  A
    handler is a function of the broker's state; the clock readings of one request coincide.
    Enrolment awaits between its steps: [others] is what the other requests did meanwhile. *)

From Stdlib Require Import ZArith Lia Ascii String.
From stdpp Require Import sorting.
From S2P Require Import Prelude RustStr Json JoinTicket Device WorkflowRun.
From S2P Require Import ControlStore ControlPlane Licenses Blocklist Limits Admission HttpRequests.

Open Scope string_scope.
Open Scope Z_scope.

(** ** Messages of errors *)
Definition role_kind (k : JoinTicketKind) : string :=
  match k with RelayJoin => "relay" | PairingSurfaceJoin => "pairing surface" | DeviceSurfaceJoin => "device surface" end.
Definition ticket_message (e : TicketError) : string :=
  match e with
  | TeVersion v => "unsupported join_ticket version: " +:+ pretty v
  | TeChannelRequired => "join_ticket channel_id is required"
  | TeNonceRequired => "join_ticket nonce is required"
  | TeWrongRole k => role_kind k +:+ " join_ticket must use "
                       +:+ match k with RelayJoin => "relay" | _ => "surface" end +:+ " role"
  | TeIdRequired k => role_kind k +:+ " join_ticket "
                        +:+ match k with RelayJoin => "peer_id" | PairingSurfaceJoin => "pairing_id" | DeviceSurfaceJoin => "device_id" end
                        +:+ " is required"
  | TeForeignId k => role_kind k +:+ " join_ticket cannot include "
                       +:+ match k with RelayJoin => "pairing_id or device_id" | PairingSurfaceJoin => "device_id" | DeviceSurfaceJoin => "pairing_id" end
  | TeExpiryRequired => "pairing surface join_ticket expires_at is required"
  | TeMalformed => "join_ticket is malformed"
  | TeSignature => "join_ticket signature is invalid"
  | TePayload => "join_ticket payload is invalid"
  | TeExpired => "join_ticket has expired"
  | TeEmptySecret => "join_ticket secret cannot be empty"
  end.

Definition DEVICE_LIMIT_REACHED_ERROR_PREFIX : string := "device limit reached".
(** [detail]: the text of a failed backend. *)
Definition plane_message (detail : string) (e : PlaneError) : string :=
  match e with
  | RelayVerifyKeyRequired => "relay verify key is required"
  | VerifyKeyInvalid => "relay verify key is invalid"
  | ChallengeIdRequired => "relay enrollment challenge id is required"
  | ChallengeSignatureRequired => "relay enrollment challenge signature is required"
  | ChallengeInvalid => "relay enrollment challenge is invalid"
  | ChallengeExpired => "relay enrollment challenge has expired"
  | ChallengeKeyMismatch => "relay enrollment verify key does not match challenge"
  | ChallengeSignatureInvalid => "relay enrollment signature is invalid"
  | RelayTokenInvalid => "relay refresh token is invalid"
  | RelayIdMismatch => "relay refresh token does not match relay_id"
  | BrokerRoomIdMismatch => "relay refresh token does not match broker_room_id"
  | DeviceLimitReached limit => DEVICE_LIMIT_REACHED_ERROR_PREFIX +:+ ": this license allows " +:+ pretty limit
                                  +:+ " device(s); remove a device to add a new one"
  | DeviceTokenInvalid => "device refresh token is invalid"
  | ClientVerifyKeyRequired => "client verify key is required"
  | TooManyClientClaims => "too many pending client claims; retry shortly"
  | ClaimIdRequired => "client claim id is required"
  | ClaimSignatureRequired => "client claim signature is required"
  | ClaimInvalid => "client claim is invalid"
  | ClaimExpired => "client claim has expired"
  | ClaimSignatureInvalid => "client claim signature is invalid"
  | ClientTokenInvalid => "client refresh token is invalid"
  | LoadFailed | SaveFailed | StillDrawing => detail
  | TicketFailed e => ticket_message e
  end.
Definition license_message (detail : string) (e : LicenseError) : string :=
  match e with
  | CodeInvalid => "license code is invalid"
  | CodeRevoked => "license code has been revoked"
  | CodeUsed => "license code has already been used"
  | CodeExpired => "license code has expired"
  | CodeNotRedeemable => "license code is invalid or has already been used"
  | NoLicense => "no license found for this relay"
  | LicenseRevoked => "license has been revoked"
  | LicenseExpired => "license has expired"
  | LicenseQueryFailed => detail
  end.

(** The cap of a licence has a status of its own. *)
Definition device_grant_error (error : string) : ApiError :=
  if starts_with DEVICE_LIMIT_REACHED_ERROR_PREFIX error then MkApiError 403 "device_limit_reached" error
  else public_api_error error.

(** ** Handlers as state and error *)
Definition Handler (A : Type) : Type := BrokerAppState → result A ApiError * BrokerAppState.
Definition hret {A} (x : A) : Handler A := λ a, (Ok x, a).
Definition hthrow {A} (e : ApiError) : Handler A := λ a, (Err e, a).
Definition hbind {A B} (m : Handler A) (k : A → Handler B) : Handler B := λ a,
  match m a with (Ok x, a) => k x a | (Err e, a) => (Err e, a) end.
Definition hlift {A} (r : result A ApiError) : Handler A := λ a, (r, a).
Definition hgets {A} (f : BrokerAppState → A) : Handler A := λ a, (Ok (f a), a).
Definition hmodify (f : BrokerAppState → BrokerAppState) : Handler () := λ a, (Ok (), f a).
Notation "'let+' x ':=' c 'in' k" := (hbind c (λ x, k))
  (at level 10, x pattern, c at level 100, k at level 200, format "'let+'  x  ':='  c  'in' '//' k") : rust_scope.

Record Clock : Type := MkClock {
  ck_floor : Z;   (** the first instant of the monotonic clock *)
  ck_now : Z;     (** its present *)
  ck_unix : Z
}.

(** A request: when, from where, its headers, and the text of the backend's failure if it fails. *)
Record Req : Type := MkReq { rq_clock : Clock; rq_ip : IpAddr; rq_headers : Headers; rq_detail : string }.
Definition rq_unix (rq : Req) : Z := ck_unix (rq_clock rq).

Section Api.
Context `{HttpLib} {DC : DeviceCrypto} {TC : TicketCrypto} {ED : Ed25519}.

Definition enforce_public_api_rate_limit (rq : Req) (route_name : string) : Handler () := λ a,
  let '(a, allowed) := app_allow (ck_floor (rq_clock rq)) (ck_now (rq_clock rq))
                         ("public-api:" +:+ ip_text (rq_ip rq) +:+ ":" +:+ route_name)
                         (hc_public_api_rate_limit_per_minute (ba_config a)) a in
  (if allowed then Ok () else Err RATE_LIMITED, a).

Definition public_control_plane (v : BrokerJoinVerifier) : option PublicControlPlaneInner :=
  match v with VerifyPublic plane => Some plane | _ => None end.
Definition require_public_control_plane : Handler () := λ a,
  (match public_control_plane (ba_join_verifier a) with Some _ => Ok () | None => Err NOT_PUBLIC end, a).

(** A request to the control plane, with its own errors.  Without one there is none to make. *)
Definition on_plane {A} (m : M A) : Handler (result A PlaneError) := λ a,
  match ba_join_verifier a with
  | VerifyPublic plane => let '(r, plane) := m plane in (Ok r, a <| ba_join_verifier := VerifyPublic plane |>)
  | _ => (Err NOT_PUBLIC, a)
  end.
Definition or_error {A} (error : string → ApiError) (detail : string) (r : result A PlaneError) : Handler A :=
  hlift (match r with Ok x => Ok x | Err e => Err (error (plane_message detail e)) end).
Definition control {A} (rq : Req) (m : M A) : Handler A :=
  let+ r := on_plane m in or_error public_api_error (rq_detail rq) r.

(** The routes whose requests are only limited and passed on. *)
Definition begin_request (rq : Req) (route_name : string) : Handler () :=
  let+ _ := enforce_public_api_rate_limit rq route_name in require_public_control_plane.
Definition bearer (rq : Req) : Handler string := hlift (bearer_token (rq_headers rq)).

Definition or_license {A} (rq : Req) (r : result A LicenseError) : Handler A :=
  hlift (match r with Ok x => Ok x | Err e => Err (public_api_error (license_message (rq_detail rq) e)) end).
Definition LICENSE_UNAVAILABLE : ApiError := public_api_error "license service unavailable; try again later".

(** ** Monitoring *)
Definition monitor (f : PublicMonitoring → PublicMonitoring) : Handler () := hmodify (λ a, a <| ba_public_monitoring ::= f |>).
Definition invalid_refresh_token (message : string) : bool := contains "refresh token is invalid" message.
(** A failed refresh is recorded before it is reported. *)
Definition refreshed {A} (rq : Req) (kind : RefreshChainKind) (token : string) (r : result A PlaneError) : Handler A :=
  match r with
  | Ok x => hret x
  | Err e =>
      let message := plane_message (rq_detail rq) e in
      let+ _ := monitor (record_refresh_failure kind token (invalid_refresh_token message)) in
      hthrow (public_api_error message)
  end.
Definition observe (rq : Req) (chain_key : string) : Handler () :=
  monitor (observe_chain_environment chain_key (request_environment (rq_headers rq))).

(** ** Relays *)
Definition public_create_relay_enrollment_challenge (rq : Req) (id_rnd rnd relay_verify_key : string)
    (relay_label : option string) : Handler RelayEnrollmentChallengeResponse :=
  let+ _ := begin_request rq "relay_enrollment_challenge" in
  control rq (create_relay_enrollment_challenge id_rnd rnd relay_verify_key relay_label (rq_unix rq)).

Record RelayEnrollmentCompleteRequest : Type := MkComplete {
  rc_relay_verify_key : string;
  rc_challenge_id : string;
  rc_challenge_signature : string;
  rc_relay_label : option string;
  rc_license_code : option string
}.

(** The outcomes of an enrolment's accesses to its backends, and its random draws. *)
Record EnrollEnv : Type := MkEnrollEnv {
  ev_snapshot : Io; ev_enroll : Io; ev_undo : Io;
  ev_validate : bool; ev_clear : bool; ev_redeem : bool;
  ev_draws : list (string * string);
  ev_rnd : string
}.

(** A license query on the rows of the store. *)
Definition with_licenses {A} (f : LicenseTable → LicenseTable * A) (none : A) : Handler A := λ a,
  match ba_license_store a with
  | Some store => let '(t, x) := f (lc_rows store) in (Ok x, a <| ba_license_store := Some (store <| lc_rows := t |>) |>)
  | None => (Ok none, a)
  end.

(** Before enrolment: what the code is for. *)
Definition enrollment_action (rq : Req) (ok : bool) (license_code existing_relay_id : option string) :
    Handler (option LicenseEnrollmentAction) :=
  let+ a := hgets id in
  match ba_license_store a, license_code with
  | Some store, Some code =>
      let+ action := or_license rq (validate_code_or_reenroll ok code existing_relay_id (rq_unix rq) (lc_rows store)) in
      hret (Some action)
  | Some _, None =>
      if ba_license_required a then hthrow (public_api_error "license_code is required") else hret None
  | None, _ => hret None
  end.

(** The undoing of an enrolment whose code could not be redeemed. *)
Definition undo_enrollment (io : Io) (previous : option PersistedRelayRegistration) (relay_refresh_token : string) : M () :=
  match previous with
  | Some r => restore_relay_registration io r
  | None => rollback_relay_enrollment_by_token io relay_refresh_token
  end.

(** After enrolment: a fresh code is bound to the relay, or the enrolment undone. *)
Definition bind_license (rq : Req) (env : EnrollEnv) (others : BrokerAppState → BrokerAppState) (code : string)
    (previous : option PersistedRelayRegistration) (response : RelayEnrollmentResponse) : Handler () :=
  let+ _ := match previous with
            | Some r => with_licenses (λ t, (clear_expired_or_revoked_binding (ev_clear env) (rr_relay_id r) code
                                               (rq_unix rq) t, ())) ()
            | None => hret ()
            end in
  let+ r := with_licenses (redeem (ev_redeem env) code (er_relay_id response) (rq_unix rq)) (Ok ()) in
  match r with
  | Ok _ => hret ()
  | Err e =>
      let+ _ := hmodify others in
      let+ _ := on_plane (undo_enrollment (ev_undo env) previous (er_relay_refresh_token response)) in
      hthrow (public_api_error (license_message (rq_detail rq) e))
  end.

(** From the preflight on, under the lock of the key. *)
Definition enroll_locked (rq : Req) (env : EnrollEnv) (others1 others2 others3 : BrokerAppState → BrokerAppState)
    (input : RelayEnrollmentCompleteRequest) : Handler RelayEnrollmentResponse :=
  let license_code := trimmed_option_string (rc_license_code input) in
  let+ _ := require_public_control_plane in
  let+ previous := match trimmed_string (rc_relay_verify_key input) with
                   | Some vk => control rq (snapshot_relay_registration (ev_snapshot env) vk)
                   | None => hret None
                   end in
  let+ _ := hmodify others1 in
  let+ action := enrollment_action rq (ev_validate env) license_code (rr_relay_id <$> previous) in
  let+ _ := hmodify others2 in
  let+ response := control rq (complete_relay_enrollment (ev_enroll env) (ev_draws env) (ev_rnd env)
                     (rc_relay_verify_key input) (rc_challenge_id input) (rc_challenge_signature input)
                     (rc_relay_label input) (rq_unix rq)) in
  let+ _ := match license_code, action with
            | Some code, Some Fresh => bind_license rq env others3 code previous response
            | _, _ => hret ()
            end in
  hret response.

Definition public_complete_relay_enrollment (rq : Req) (env : EnrollEnv)
    (others1 others2 others3 : BrokerAppState → BrokerAppState) (input : RelayEnrollmentCompleteRequest) :
    Handler RelayEnrollmentResponse :=
  let+ _ := enforce_public_api_rate_limit rq "relay_enrollment_complete" in
  let+ a := hgets id in
  if ba_license_required a && is_none (ba_license_store a) then hthrow LICENSE_UNAVAILABLE
  else enroll_locked rq env others1 others2 others3 input.

(** [ok]: the license query succeeds. *)
Definition require_active_license (rq : Req) (ok : bool) (relay_id : string) : Handler () :=
  let+ a := hgets id in
  if negb (ba_license_required a) then hret () else
  match ba_license_store a with
  | None => hthrow LICENSE_UNAVAILABLE
  | Some store => or_license rq (check_relay_access ok relay_id (rq_unix rq) (lc_rows store))
  end.

Definition public_issue_relay_ws_token (rq : Req) (io : Io) (ok : bool)
    (nonce relay_id broker_room_id relay_peer_id : string) : Handler RelayWsTokenResponse :=
  let+ _ := begin_request rq "relay_ws_token" in
  let+ token := bearer rq in
  let+ r := on_plane (issue_relay_ws_token io nonce token relay_id broker_room_id relay_peer_id (rq_unix rq)) in
  match r with
  | Ok response =>
      let+ _ := require_active_license rq ok (rw_relay_id response) in
      let+ _ := monitor (record_refresh_success ChainRelayWsToken) in
      hret response
  | Err _ => refreshed rq ChainRelayWsToken token r
  end.

Definition public_issue_pairing_ws_token (rq : Req) (io : Io) (nonce relay_id broker_room_id pairing_id : string)
    (expires_at : Z) : Handler PairingWsTokenResponse :=
  let+ _ := begin_request rq "pairing_ws_token" in
  let+ token := bearer rq in
  control rq (issue_pairing_ws_token io nonce token relay_id broker_room_id pairing_id expires_at).

Definition resolve_device_limit (rq : Req) (ok : bool) (relay_id : string) : Handler (option Z) :=
  let+ a := hgets id in
  if negb (ba_license_required a) then hret None else
  match ba_license_store a with
  | None => hthrow LICENSE_UNAVAILABLE
  | Some store =>
      let+ _ := or_license rq (check_relay_access ok relay_id (rq_unix rq) (lc_rows store)) in
      or_license rq (device_limit_for_relay ok relay_id store)
  end.

(** [others]: the other requests between the two authentications. *)
Definition public_issue_device_grant (rq : Req) (io io1 io2 : Io) (ok : bool) (others : BrokerAppState → BrokerAppState)
    (rnd nonce relay_id broker_room_id device_id : string) : Handler DeviceGrantResponse :=
  let+ _ := begin_request rq "device_grant" in
  let+ token := bearer rq in
  let+ _ := control rq (authenticate_relay_bearer io token relay_id broker_room_id) in
  let+ device_limit := resolve_device_limit rq ok relay_id in
  let+ _ := hmodify others in
  let+ r := on_plane (issue_device_grant io1 io2 rnd nonce token relay_id broker_room_id device_id device_limit (rq_unix rq)) in
  or_error device_grant_error (rq_detail rq) r.

Definition public_revoke_device_grant (rq : Req) (io io' : Io) (device_id relay_id broker_room_id : string) :
    Handler DeviceGrantRevokeResponse :=
  let+ _ := begin_request rq "revoke_device_grant" in
  let+ token := bearer rq in
  control rq (revoke_device_grant io io' token device_id relay_id broker_room_id).
Definition public_revoke_other_device_grants (rq : Req) (io io' : Io) (relay_id broker_room_id keep_device_id : string) :
    Handler DeviceGrantBulkRevokeResponse :=
  let+ _ := begin_request rq "revoke_other_device_grants" in
  let+ token := bearer rq in
  control rq (revoke_other_device_grants io io' token relay_id broker_room_id keep_device_id).

(** ** Clients *)
Definition public_issue_client_grant (rq : Req) (io : Io) (id_rnd rnd relay_id broker_room_id device_id
    client_verify_key : string) (client_label device_label : option string) : Handler ClientGrantResponse :=
  let+ _ := begin_request rq "client_grant" in
  let+ token := bearer rq in
  control rq (issue_client_grant io id_rnd rnd token relay_id broker_room_id device_id client_verify_key client_label
                device_label (rq_unix rq)).
Definition public_claim_client_identity (rq : Req) (io : Io) (rnd claim_id claim_signature : string) :
    Handler ClientClaimResponse :=
  let+ _ := begin_request rq "client_claim" in
  control rq (claim_client_identity io rnd claim_id claim_signature (rq_unix rq)).

Definition public_list_client_relays (rq : Req) (io io' : Io) : Handler (string * list ClientRelayEntry) :=
  let+ _ := begin_request rq "client_relays" in
  let+ token := hlift (client_refresh_token (rq_headers rq)) in
  let+ r := on_plane (list_client_relays io io' token (rq_unix rq)) in
  let+ response := refreshed rq ChainClientIdentity token r in
  let+ _ := observe rq ("client:" +:+ response.1) in
  hret response.

(** A response and its [Set-Cookie] headers, in order. *)
Definition WithCookies (A : Type) : Type := list string * A.

Definition secure (rq : Req) : bool := request_uses_https (rq_headers rq).
Definition public_issue_client_session (rq : Req) (io : Io) : Handler (WithCookies string) :=
  let+ _ := begin_request rq "client_session" in
  let+ token := bearer rq in
  let+ cookie := hlift (build_client_session_cookie token (secure rq)) in
  let+ client_id := control rq (issue_client_session io token (rq_unix rq)) in
  hret ([cookie], client_id).
Definition public_clear_client_session (rq : Req) : Handler (WithCookies ()) :=
  let+ _ := begin_request rq "clear_client_session" in
  hret ([clear_client_session_cookie (secure rq)], ()).

Record ClientIdentityRotateResponse : Type := MkRotate {
  ro_client_id : string;
  ro_client_refresh_token : option string   (** to a client without the cookie *)
}.
Definition public_rotate_client_identity (rq : Req) (io io' : Io) (rnd : string) :
    Handler (WithCookies ClientIdentityRotateResponse) :=
  let+ _ := begin_request rq "rotate_client_identity" in
  let+ auth := hlift (client_refresh_auth (rq_headers rq)) in
  let+ r := on_plane (rotate_client io io' rnd (auth_token auth) (rq_unix rq)) in
  let+ (client_id, refreshed_token) := refreshed rq ChainClientIdentity (auth_token auth) r in
  let+ _ := observe rq ("client:" +:+ client_id) in
  let+ cookie := hlift (build_client_session_cookie refreshed_token (secure rq)) in
  hret ([cookie], MkRotate client_id (if used_cookie auth then None else Some refreshed_token)).
Definition public_revoke_client_identity (rq : Req) (io io' : Io) : Handler (WithCookies ClientIdentityRevokeResponse) :=
  let+ _ := begin_request rq "revoke_client_identity" in
  let+ auth := hlift (client_refresh_auth (rq_headers rq)) in
  let+ r := on_plane (revoke_client_identity io io' (auth_token auth) (rq_unix rq)) in
  let+ response := refreshed rq ChainClientIdentity (auth_token auth) r in
  let+ _ := observe rq ("client:" +:+ iv_client_id response) in
  hret ([clear_client_session_cookie (secure rq)], response).

(** ** Devices *)
Definition public_issue_device_session (rq : Req) (io : Io) : Handler (WithCookies DeviceSessionResponse) :=
  let+ _ := begin_request rq "device_session" in
  let+ token := bearer rq in
  let+ cookie := hlift (build_device_session_cookie token (secure rq)) in
  let+ response := control rq (issue_device_session_inner io token None (rq_unix rq)) in
  hret ([cookie], response).
Definition public_clear_device_session (rq : Req) : Handler (WithCookies ()) :=
  let+ _ := begin_request rq "clear_device_session" in
  hret ([clear_device_session_cookie (secure rq)], ()).

Definition device_chain (r : DeviceWsTokenResponse) : string :=
  "device:" +:+ dw_broker_room_id r +:+ ":" +:+ dw_device_id r.
Definition device_token_used (rq : Req) (token : string) (r : result DeviceWsTokenResponse PlaneError) :
    Handler DeviceWsTokenResponse :=
  let+ response := refreshed rq ChainDeviceWsToken token r in
  let+ _ := monitor (record_refresh_success ChainDeviceWsToken) in
  let+ _ := observe rq (device_chain response) in
  hret response.

Definition public_issue_device_ws_token (rq : Req) (io : Io) (nonce : string) : Handler (WithCookies DeviceWsTokenResponse) :=
  let+ _ := begin_request rq "device_ws_token" in
  let+ token := hlift (device_refresh_token (rq_headers rq)) in
  let+ cookies := match device_session_cookie (rq_headers rq) with
                  | Some cookie => let+ c := hlift (build_device_session_cookie cookie (secure rq)) in hret [c]
                  | None => hret []
                  end in
  let+ r := on_plane (issue_device_ws_token_inner io nonce token None (rq_unix rq)) in
  let+ response := device_token_used rq token r in
  hret (cookies, response).

Definition public_issue_device_session_scoped (rq : Req) (io : Io) (room : string) : Handler (WithCookies DeviceSessionResponse) :=
  let+ _ := begin_request rq "device_session" in
  let+ _ := hlift (validate_room_id room) in
  let+ token := bearer rq in
  let+ cookie := hlift (build_device_session_cookie_for_room room token (secure rq)) in
  let+ response := control rq (issue_device_session_inner io token (Some room) (rq_unix rq)) in
  hret ([cookie], response).

(** The legacy cookie goes only when it is known to be of the room. *)
Definition public_clear_device_session_scoped (rq : Req) (io : Io) (room : string) : Handler (WithCookies ()) :=
  let+ _ := begin_request rq "clear_device_session" in
  let+ _ := hlift (validate_room_id room) in
  let+ legacy := match device_session_cookie (rq_headers rq) with
                 | Some cookie =>
                     let+ r := on_plane (device_refresh_token_matches_room io cookie room (rq_unix rq)) in
                     hret (match r with Ok true => [clear_device_session_cookie (secure rq)] | _ => [] end)
                 | None => hret []
                 end in
  hret (clear_device_session_cookie_for_room room (secure rq) :: legacy, ()).

Definition public_issue_device_ws_token_scoped (rq : Req) (io : Io) (nonce room : string) :
    Handler (WithCookies DeviceWsTokenResponse) :=
  let+ _ := begin_request rq "device_ws_token" in
  let+ _ := hlift (validate_room_id room) in
  let+ (source, token) := hlift (device_refresh_token_scoped (rq_headers rq) room) in
  let+ r := on_plane (issue_device_ws_token_inner io nonce token (Some room) (rq_unix rq)) in
  let+ response := device_token_used rq token r in
  let+ cookie := hlift (build_device_session_cookie_for_room room token (secure rq)) in
  hret (cookie :: match source with Legacy => [clear_device_session_cookie (secure rq)] | _ => [] end, response).

(** ** The operator's statistics *)
Record AdminRelayRow : Type := MkAdminRow {
  ar_relay_id : string;
  ar_broker_room_id : string;
  ar_relay_label : option string;
  ar_device_count : nat;
  ar_client_count : nat;
  ar_last_seen : option Z
}.
Record AdminTotals : Type := MkTotals { at_relays : nat; at_devices : nat; at_clients : nat }.

(** The relays of the store: registered, with devices, or with clients. *)
Definition relay_ids (s : PublicControlStateStore) : gset string :=
  list_to_set (map rr_relay_id (values (cs_relays s))) ∪ list_to_set (map dg_relay_id (values (cs_grants s)))
  ∪ list_to_set (map cg_relay_id (values (cs_client_grants s))).
Definition grants_of (relay_id : string) (s : PublicControlStateStore) : list PersistedDeviceGrant :=
  filter (λ g, dg_relay_id g = relay_id) (values (cs_grants s)).
Definition clients_of (relay_id : string) (s : PublicControlStateStore) : gset string :=
  list_to_set (map cg_client_id (filter (λ g, cg_relay_id g = relay_id) (values (cs_client_grants s)))).
(** A relay has one registration. *)
Definition registration_of (relay_id : string) (s : PublicControlStateStore) : option PersistedRelayRegistration :=
  last (filter (λ r, rr_relay_id r = relay_id) (values (cs_relays s))).
Definition admin_row (s : PublicControlStateStore) (relay_id : string) : AdminRelayRow := {|
  ar_relay_id := relay_id;
  ar_broker_room_id := default "" (rr_broker_room_id <$> registration_of relay_id s);
  ar_relay_label := registration_of relay_id s ≫= rr_relay_label;
  ar_device_count := length (grants_of relay_id s);
  ar_client_count := size (clients_of relay_id s);
  ar_last_seen := match omap dg_last_seen (grants_of relay_id s) with
                  | [] => None
                  | seen => Some (foldr Z.max 0 seen)
                  end |}.
(** Busiest first, then by relay. *)
Definition busier (a b : AdminRelayRow) : Prop :=
  (ar_device_count b < ar_device_count a)%nat ∨
  ar_device_count a = ar_device_count b ∧
    ((ar_client_count b < ar_client_count a)%nat ∨
     ar_client_count a = ar_client_count b ∧ string_le (ar_relay_id a) (ar_relay_id b)).
#[export] Instance busier_dec : RelDecision busier.
Proof using Type. unfold busier. intros a b. apply _. Defined.

Definition admin_stats_of (top_n : nat) (s : PublicControlStateStore) : AdminTotals * list AdminRelayRow :=
  let rows := merge_sort busier (map (admin_row s) (elements (relay_ids s))) in
  (MkTotals (length rows) (size (cs_grants s)) (size (cs_clients s)), if (0 <? top_n)%nat then take top_n rows else rows).
Definition plane_admin_stats (io : Io) (top_n : nat) : M (AdminTotals * list AdminRelayRow) :=
  let* _ := lock_state io in gets (λ p, admin_stats_of top_n (cp_state p)).

Definition ADMIN_STATS_DEFAULT_TOP : nat := 100.
Definition ADMIN_DISABLED : ApiError := MkApiError 404 "not_found" "admin endpoint is disabled".
Definition ADMIN_UNAUTHORIZED : ApiError := MkApiError 401 "unauthorized" "invalid or missing admin token".

Record AdminStatsResponse : Type := MkAdminStats {
  as_generated_at : Z;
  as_totals : AdminTotals;
  as_relays : list (AdminRelayRow * option LicenseSummary);
  as_publish_limits : PublishMetrics
}.
Definition authorize_admin (rq : Req) : Handler () :=
  let+ a := hgets id in
  match admin_auth_outcome (ba_admin_token a) (result_ok (bearer_token (rq_headers rq))) with
  | AdminAuthorized => hret ()
  | AdminDisabled => hthrow ADMIN_DISABLED
  | AdminUnauthorized => hthrow ADMIN_UNAUTHORIZED
  end.
Definition admin_stats (rq : Req) (io : Io) (ok : bool) (top : option nat) : Handler AdminStatsResponse :=
  let+ _ := authorize_admin rq in
  let+ _ := require_public_control_plane in
  let+ (totals, rows) := control rq (plane_admin_stats io (default ADMIN_STATS_DEFAULT_TOP top)) in
  let+ a := hgets id in
  let+ licenses := match ba_license_store a with
                   | Some store => or_license rq (license_summaries_for_relays ok (map ar_relay_id rows) (lc_rows store))
                   | None => hret ∅
                   end in
  let+ _ := hmodify (λ a, a <| ba_publish_metrics ::= metrics_snapshot (ck_now (rq_clock rq)) |>) in
  let+ metrics := hgets ba_publish_metrics in
  hret (MkAdminStats (rq_unix rq) totals (map (λ r, (r, licenses !! ar_relay_id r)) rows) metrics).
End Api.

(** ** Health *)
Record HealthResponse : Type := MkHealth {
  hr_status : string;
  hr_broker_auth_mode : string;
  hr_join_auth_ready : bool;
  hr_message : option string;
  hr_public_monitoring : option PublicMonitoring
}.
Definition has_persistent_state (b : PublicControlPersistence) : bool := match b with InMemory => false | _ => true end.
Definition health_message (b : PublicControlPersistence) : option string :=
  if has_persistent_state b then None else
  Some "public broker device grants are in-memory only; set RELAY_BROKER_PUBLIC_STATE_PATH or RELAY_BROKER_PUBLIC_POSTGRES_URL before exposing this broker outside localhost".
Definition health_response (v : BrokerJoinVerifier) (monitoring : option PublicMonitoring) : Z * HealthResponse :=
  match v with
  | VerifySelfHosted _ => (200, MkHealth "ok" (auth_mode_as_str SelfHostedSharedSecret) true None None)
  | VerifyPublic plane =>
      (200, MkHealth "ok" (auth_mode_as_str PublicControlPlane) true (health_message (cp_persistence plane)) monitoring)
  | VerifyMisconfigured error => (503, MkHealth "misconfigured" "unknown" false (Some error) None)
  end.
Definition health (a : BrokerAppState) : Z * HealthResponse :=
  health_response (ba_join_verifier a)
    (match ba_join_verifier a with VerifyPublic _ => Some (ba_public_monitoring a) | _ => None end).
