(* ===== verification/PublicApiTheorems.v ===== *)
(** * The broker's HTTP interface: theorems

    The enrolment of a relay touches two backends, the control plane's and the licence
    table's.  When the backends answer, it leaves either a registration whose licence is bound
    to the relay, or the registration that was there before.  Tokens and grants are issued to
    relays whose licence is active and within its cap; to a caller that is not a registered
    relay the answers do not depend on any licence. *)

From Stdlib Require Import ZArith Lia Ascii String.
From S2P Require Import Prelude RustStr Json BrokerState JoinTicket Device.
From S2P Require Import ControlStore ControlPlane ControlLemmas ControlTheorems ControlGrants.
From S2P Require Import Licenses Blocklist Limits Admission HttpRequests PublicApi.

Open Scope string_scope.
Open Scope Z_scope.

(** ** The registrations of one key *)
Definition key_rows (vk : string) (s : PublicControlStateStore) : gmap string PersistedRelayRegistration :=
  filter (λ hr, rr_relay_verify_key hr.2 = Some vk) (cs_relays s).
(** A registration is found under the hash of its token. *)
Definition row_of (r : option PersistedRelayRegistration) : gmap string PersistedRelayRegistration :=
  match r with Some r => {[rr_refresh_token_hash r := r]} | None => ∅ end.
Definition of_key (vk : string) (r : option PersistedRelayRegistration) : Prop :=
  match r with Some r => rr_relay_verify_key r = Some vk | None => True end.

Lemma key_rows_lookup vk s h r : key_rows vk s !! h = Some r ↔ cs_relays s !! h = Some r ∧ rr_relay_verify_key r = Some vk.
Proof. unfold key_rows. by rewrite map_lookup_filter_Some. Qed.

Lemma row_of_lookup o h r : row_of o !! h = Some r ↔ o = Some r ∧ rr_refresh_token_hash r = h.
Proof.
  destruct o as [r'|]; cbn; [|rewrite lookup_empty; naive_solver].
  rewrite lookup_singleton_Some. naive_solver.
Qed.

Lemma key_registration vk s o : key_rows vk s = row_of o → registration_for_verify_key vk s = o.
Proof.
  intros E. unfold registration_for_verify_key. destruct (list_find _ _) as [[i r]|] eqn:Ef; cbn.
  - apply list_find_Some in Ef as (Hi & Hk & _). apply list_elem_of_lookup_2, values_elem in Hi as [h Hh].
    assert (key_rows vk s !! h = Some r) as Hr by (apply key_rows_lookup; split; [done|by apply bool_decide_eq_true in Hk]).
    rewrite E in Hr. by apply row_of_lookup in Hr as [-> _].
  - destruct o as [r|]; [|done]. apply list_find_None in Ef. rewrite Forall_forall in Ef.
    assert (key_rows vk s !! rr_refresh_token_hash r = Some r) as [Hr Hk]%key_rows_lookup by (rewrite E; by apply row_of_lookup).
    exfalso. apply (Ef r); [apply values_elem; eauto|by apply bool_decide_eq_true].
Qed.

(** A row put in the place of the key's rows. *)
Lemma key_rows_replace vk s r : rr_relay_verify_key r = Some vk →
  key_rows vk ((remove_relay_registration_by_verify_key vk s).1 <| cs_relays ::= <[rr_refresh_token_hash r := r]> |>)
  = row_of (Some r).
Proof.
  intros Hk. apply map_eq. intros h. apply option_eq. intros x. rewrite key_rows_lookup, row_of_lookup.
  destruct s as [rs cs gs cg]. unfold remove_relay_registration_by_verify_key, set_field. cbn.
  destruct (decide (rr_refresh_token_hash r = h)) as [<-|Hne].
  - rewrite lookup_insert_eq. split; [by intros [[= ->] _]|]. by intros [[= ->] _].
  - rewrite lookup_insert_ne, map_lookup_filter_Some by done. unfold has_verify_key. cbn. split; [|naive_solver].
    intros [[_ Hf%bool_decide_eq_false] Hx]. done.
Qed.

Lemma key_rows_delete vk s h : key_rows vk (s <| cs_relays ::= delete h |>) = delete h (key_rows vk s).
Proof. unfold key_rows. destruct s. unfold set_field. cbn. apply map_filter_delete. Qed.

(** A save puts the key's rows of the memory into the database. *)
Lemma key_rows_saved vk last next db : key_rows vk last = key_rows vk db →
  key_rows vk (save_public_control_postgres last next db) = key_rows vk next.
Proof.
  intros E. assert (∀ h r, rr_relay_verify_key r = Some vk → cs_relays last !! h = Some r ↔ cs_relays db !! h = Some r) as He.
  { intros h r Hr. pose proof (key_rows_lookup vk last h r). pose proof (key_rows_lookup vk db h r).
    rewrite E in *. tauto. }
  apply map_eq. intros h. apply option_eq. intros r. rewrite !key_rows_lookup. cbn. rewrite diff_table_lookup.
  destruct (cs_relays next !! h) as [x|].
  - case_decide as Hl; [|done]. split; intros [Hr Hk]; (split; [|done]).
    + apply He in Hr; [|done]. rewrite Hl in Hr. done.
    + injection Hr as ->. by apply He.
  - split; [|by intros [? _]]. intros [Hr Hk]. exfalso.
    destruct (cs_relays last !! h) eqn:El; [done|]. apply He in Hr; [congruence|done].
Qed.

(** ** The control plane, as far as one key goes *)
Definition backend_stores (b : PublicControlPersistence) : list PublicControlStateStore :=
  match b with InMemory => [] | JsonFile file => [file] | Postgres _ _ last db => [last; db] end.

(** In memory the key has the rows [R'], in the backend [R]. *)
Definition key_state (vk : string) (R R' : gmap string PersistedRelayRegistration) (p : PublicControlPlaneInner) : Prop :=
  key_rows vk (cp_state p) = R' ∧ Forall (λ s, key_rows vk s = R) (backend_stores (cp_persistence p)).

Definition io_works (io : Io) : Prop := io_lock io = true ∧ io_save io = Saved.

Section Enroll.
Context {DC : DeviceCrypto} {TC : TicketCrypto} {ED : Ed25519}.

Lemma lock_key vk R io p : io_works io → key_state vk R R p →
  ∃ p', lock_state io p = (Ok (), p') ∧ key_state vk R R p'.
Proof.
  intros [Hio _] [Hs Hb]. unfold lock_state, bind, gets.
  destruct (cp_persistence p) as [|file|flag needs last db] eqn:Ep; cbn [reload_before_use];
    [by exists p; rewrite <- Ep in Hb..|].
  destruct (flag || needs); [|by exists p; rewrite <- Ep in Hb].
  unfold reload. rewrite Ep. cbn [persistence_load]. rewrite Hio. eexists. split; [done|].
  apply Forall_cons in Hb as [_ [Hdb _]%Forall_cons]. destruct p. cbn. split; [done|]. by repeat constructor.
Qed.

Lemma save_key vk R R' io p : io_works io → key_state vk R R' p →
  ∃ p', save io p = (Ok (), p') ∧ key_state vk R' R' p'.
Proof.
  intros [_ Hio] [Hs Hb]. unfold save. destruct (cp_persistence p) as [|file|flag needs last db] eqn:Ep;
    cbn [persistence_save]; rewrite ?Hio; eexists; (split; [reflexivity|]); destruct p; cbn in *; split; try done.
  - by repeat constructor.
  - apply Forall_cons in Hb as [Hlast [Hdb _]%Forall_cons].
    repeat constructor; [done|]. rewrite key_rows_saved by congruence. done.
Qed.

Lemma change_key vk R R' f p : key_state vk R R p → (∀ s, key_rows vk s = R → key_rows vk (f s) = R') →
  key_state vk R R' (p <| cp_state ::= f |>).
Proof. intros [Hs Hb] Hf. destruct p. split; [by apply Hf|done]. Qed.

(** The registration of a key replaces the rows it had, under the identity it had. *)
Lemma register_key vk old io draws rnd lbl now p :
  io_works io → key_state vk (row_of old) (row_of old) p →
  let '(r, p') := issue_relay_registration_for_verify_key io draws rnd vk lbl now p in
  match r with
  | Ok resp =>
      let row := MkRelay (er_relay_id resp) (er_broker_room_id resp) (sha256_hex (er_relay_refresh_token resp)) now lbl (Some vk) in
      key_state vk (row_of (Some row)) (row_of (Some row)) p' ∧
      (∀ o, old = Some o → er_relay_id resp = rr_relay_id o ∧ er_broker_room_id resp = rr_broker_room_id o)
  | Err e => e = StillDrawing ∧ key_state vk (row_of old) (row_of old) p'
  end.
Proof.
  intros Hio Hp. destruct (lock_key _ _ _ _ Hio Hp) as (p1 & El & H1).
  unfold issue_relay_registration_for_verify_key. unfold bind at 1. rewrite El. unfold bind at 1, gets at 1.
  rewrite (key_registration vk (cp_state p1) old) by apply H1.
  set (hash := sha256_hex (issued_token "rref-" rnd)).
  assert (∀ relay room p2, key_state vk (row_of old) ∅ p2 ∨ key_state vk (row_of old) (row_of old) p2 ∧ old = None →
    ∃ p3, (let* _ := with_store (λ s, s <| cs_relays ::= <[hash := MkRelay relay room hash now lbl (Some vk)]> |>) in
           let* _ := save io in ret (MkEnrollmentResponse relay room (issued_token "rref-" rnd) now lbl)) p2
      = (Ok (MkEnrollmentResponse relay room (issued_token "rref-" rnd) now lbl), p3) ∧
      key_state vk (row_of (Some (MkRelay relay room hash now lbl (Some vk)))) (row_of (Some (MkRelay relay room hash now lbl (Some vk)))) p3) as Hput.
  { intros relay room p2 H2. assert (key_state vk (row_of old) ∅ p2) as [Hs2 Hb2].
    { destruct H2 as [|[H2 ->]]; done. }
    set (row := MkRelay relay room hash now lbl (Some vk)).
    destruct (save_key vk (row_of old) (row_of (Some row)) io (p2 <| cp_state ::= λ s, s <| cs_relays ::= <[hash := row]> |> |>))
      as (p3 & Es & H3); [done| |exists p3; split; [|done]].
    - destruct p2 as [ik t1 t2 t3 per st ch cl]. split; [|done]. cbn in Hs2 |- *.
      etrans; [|by apply (key_rows_replace vk st row)]. unfold key_rows. f_equal. destruct st as [rs cs gs cg].
      unfold remove_relay_registration_by_verify_key, set_field. cbn. cbn in Hs2.
      f_equal. symmetry. apply map_filter_id. intros k x Hx. cbn. apply bool_decide_eq_false. intros Hk.
      assert (key_rows vk (MkStore rs cs gs cg) !! k = Some x) as He by by apply key_rows_lookup.
      rewrite Hs2, lookup_empty in He. done.
    - unfold bind, with_store, modify, ret. by rewrite Es. }
  destruct old as [o|].
  - unfold bind at 1. unfold bind at 1, with_store at 1, modify at 1, ret at 1.
    destruct (Hput (rr_relay_id o) (rr_broker_room_id o) (p1 <| cp_state ::= λ s, (remove_relay_registration_by_verify_key vk s).1 |>))
      as (p3 & E3 & H3).
    { left. apply (change_key _ _ _ _ _ H1). intros s _. apply map_eq. intros h. rewrite lookup_empty.
      apply eq_None_not_Some. intros [x [Hx Hk]%key_rows_lookup].
      unfold remove_relay_registration_by_verify_key in Hx. destruct s. cbn in Hx.
      apply map_lookup_filter_Some in Hx as [_ Hf%bool_decide_eq_false]. done. }
    cbv beta iota. rewrite E3. cbn. split; [done|]. by intros ? [= <-].
  - unfold bind at 1, gets at 1. unfold bind at 1.
    destruct (issue_new_relay_ids draws (cp_state p1)) as [[relay room]|]; cbn [ok_or_throw ret throw]; [|by split].
    destruct (Hput relay room p1 ltac:(by right)) as (p3 & E3 & H3). cbv beta iota. rewrite E3. cbn. by split.
Qed.

(** Requests that leave the rows alone. *)
Lemma key_same vk R R' p p' : cp_state p' = cp_state p → cp_persistence p' = cp_persistence p →
  key_state vk R R' p → key_state vk R R' p'.
Proof. unfold key_state. by intros -> ->. Qed.

Lemma enroll_key vk old io draws rnd key cid sig lbl now p :
  io_works io → trimmed_string key = Some vk → key_state vk (row_of old) (row_of old) p →
  let '(r, p') := complete_relay_enrollment io draws rnd key cid sig lbl now p in
  match r with
  | Ok resp => ∃ row, rr_relay_id row = er_relay_id resp ∧ rr_broker_room_id row = er_broker_room_id resp ∧
      rr_refresh_token_hash row = sha256_hex (er_relay_refresh_token resp) ∧ rr_relay_verify_key row = Some vk ∧
      key_state vk (row_of (Some row)) (row_of (Some row)) p' ∧
      ∀ o, old = Some o → er_relay_id resp = rr_relay_id o ∧ er_broker_room_id resp = rr_broker_room_id o
  | Err _ => key_state vk (row_of old) (row_of old) p'
  end.
Proof.
  intros Hio Hvk Hp. unfold complete_relay_enrollment, required_field. rewrite Hvk.
  unfold bind at 1, prune_expired_relay_enrollment_challenges at 1, modify at 1.
  set (p0 := p <| cp_relay_enrollment_challenges ::= _ |>).
  assert (key_state vk (row_of old) (row_of old) p0) as H0 by by (eapply key_same; [..|exact Hp]; by destruct p).
  unfold bind at 1. cbn [ok_or_throw ret].
  unfold bind at 1, lift at 1. destruct (validate_relay_verify_key vk); [|done].
  unfold bind at 1. destruct (trimmed_string cid) as [cid'|]; cbn [ok_or_throw ret throw]; [|done].
  unfold bind at 1. destruct (trimmed_string sig) as [sig'|]; cbn [ok_or_throw ret throw]; [|done].
  unfold bind at 1. pose proof (take_challenge_spec cid' p0) as [Et _].
  destruct (take_challenge cid' p0) as [[c|e] p1]; cbn [snd] in Et;
    (assert (key_state vk (row_of old) (row_of old) p1) as H1
      by (subst p1; eapply key_same; [..|exact H0]; by destruct p0)); [|done].
  destruct (en_expires_at c <=? now); [done|]. destruct (negb _); [done|].
  unfold bind at 1, lift at 1. destruct (verify_relay_enrollment_challenge_signature _ _ _ _); [|done].
  pose proof (register_key vk old io draws rnd (option_or (label lbl) (en_relay_label c)) now p1 Hio H1) as Hr.
  destruct (issue_relay_registration_for_verify_key _ _ _ _ _ _ _) as [[resp|e] p2]; [|apply Hr].
  eexists (MkRelay _ _ _ _ _ _). destruct Hr as [Hk Ho]. split_and!; try exact Hk; done.
Qed.

Lemma snapshot_key vk old io p : io_works io → key_state vk (row_of old) (row_of old) p →
  ∃ p', snapshot_relay_registration io vk p = (Ok old, p') ∧ key_state vk (row_of old) (row_of old) p'.
Proof.
  intros Hio Hp. destruct (lock_key _ _ _ _ Hio Hp) as (p1 & El & H1). unfold snapshot_relay_registration. rewrite El.
  rewrite (key_registration vk (cp_state p1) old) by apply H1. eauto.
Qed.

Ltac save_of vk R R' :=
  match goal with |- context [save ?io ?q] => destruct (save_key vk R R' io q) as (p2 & Es & H2); [done| |] end.

Lemma restore_key vk r0 o io p : io_works io → rr_relay_verify_key o = Some vk →
  key_state vk (row_of r0) (row_of r0) p →
  ∃ p', restore_relay_registration io o p = (Ok (), p') ∧ key_state vk (row_of (Some o)) (row_of (Some o)) p'.
Proof.
  intros Hio Ho Hp. destruct (lock_key _ _ _ _ Hio Hp) as (p1 & El & H1).
  unfold restore_relay_registration, ignore_error. unfold bind at 1. rewrite El. rewrite Ho. cbv zeta.
  unfold bind at 1, with_store at 1, modify at 1. save_of vk (row_of r0) (row_of (Some o)).
  - apply (change_key vk _ _ _ _ H1). intros s _. by apply key_rows_replace.
  - rewrite Es. cbn. eauto.
Qed.

Lemma rollback_key vk row tok io p : io_works io → rr_refresh_token_hash row = sha256_hex tok →
  rr_relay_verify_key row = Some vk → key_state vk (row_of (Some row)) (row_of (Some row)) p →
  ∃ p', rollback_relay_enrollment_by_token io tok p = (Ok (), p') ∧ key_state vk (row_of None) (row_of None) p'.
Proof.
  intros Hio Hh Hk Hp. destruct (lock_key _ _ _ _ Hio Hp) as (p1 & El & H1).
  unfold rollback_relay_enrollment_by_token, ignore_error. unfold bind at 1. rewrite El.
  unfold bind at 1, gets at 1.
  assert (key_rows vk (cp_state p1) !! sha256_hex tok = Some row) as [Hl _]%key_rows_lookup
    by (rewrite (proj1 H1); by apply row_of_lookup).
  rewrite Hl. unfold bind at 1, with_store at 1, modify at 1. save_of vk (row_of (Some row)) (row_of None).
  - apply (change_key vk _ _ _ _ H1). intros s Hs. rewrite key_rows_delete, Hs. cbn. rewrite Hh.
    apply delete_singleton_eq.
  - rewrite Es. cbn. eauto.
Qed.

(** ** The handler *)
Definition registered (vk : string) (old : option PersistedRelayRegistration) (a : BrokerAppState) : Prop :=
  ∃ plane, ba_join_verifier a = VerifyPublic plane ∧ of_key vk old ∧ key_state vk (row_of old) (row_of old) plane.
Definition licensed (relay_id code : string) (a : BrokerAppState) : Prop :=
  ∃ store l, ba_license_store a = Some store ∧ lc_rows store !! code = Some l ∧ li_relay_id l = Some relay_id ∧
    li_revoked_at l = None.

(** What the requests that come in between leave alone: the lock of the key excludes other
    enrolments of it. *)
Record keeps (vk : string) (o : BrokerAppState → BrokerAppState) : Prop := {
  keeps_rows old a : registered vk old a → registered vk old (o a);
  keeps_required a : ba_license_required (o a) = ba_license_required a;
  keeps_store a : is_Some (ba_license_store a) → is_Some (ba_license_store (o a));
  keeps_licence relay_id code a : licensed relay_id code a → licensed relay_id code (o a)
}.

Lemma hbind_Ok {A B} (m : Handler A) (k : A → Handler B) a x a1 : m a = (Ok x, a1) → hbind m k a = k x a1.
Proof. unfold hbind. by intros ->. Qed.
Lemma hbind_Err {A B} (m : Handler A) (k : A → Handler B) a e a1 : m a = (Err e, a1) → hbind m k a = (Err e, a1).
Proof. unfold hbind. by intros ->. Qed.

Lemma control_eq {A} rq (m : M A) a plane : ba_join_verifier a = VerifyPublic plane →
  control rq m a = (match (m plane).1 with Ok x => Ok x | Err e => Err (public_api_error (plane_message (rq_detail rq) e)) end,
                    a <| ba_join_verifier := VerifyPublic (m plane).2 |>).
Proof.
  intros E. unfold control, hbind, on_plane, or_error, hlift. rewrite E. destruct (m plane) as [r plane']. done.
Qed.
Lemma on_plane_eq {A} (m : M A) a plane : ba_join_verifier a = VerifyPublic plane →
  on_plane m a = (Ok (m plane).1, a <| ba_join_verifier := VerifyPublic (m plane).2 |>).
Proof. intros E. unfold on_plane. rewrite E. by destruct (m plane). Qed.

(** Only the control plane changed. *)
Lemma registered_plane vk old a plane : of_key vk old → key_state vk (row_of old) (row_of old) plane →
  registered vk old (a <| ba_join_verifier := VerifyPublic plane |>).
Proof. intros Ho Hk. exists plane. by destruct a. Qed.
Lemma registered_licenses vk old a o : registered vk old a → registered vk old (a <| ba_license_store := o |>).
Proof. intros (plane & E & H). exists plane. by destruct a. Qed.
Lemma licensed_plane relay_id code a v : licensed relay_id code a → licensed relay_id code (a <| ba_join_verifier := v |>).
Proof. intros (store & l & E & H). exists store, l. by destruct a. Qed.

Lemma with_licenses_registered {A} vk old (f : LicenseTable → LicenseTable * A) none a :
  registered vk old a → registered vk old (with_licenses f none a).2.
Proof.
  intros H. unfold with_licenses. destruct (ba_license_store a); [|done]. destruct (f _). by apply registered_licenses.
Qed.

(** The binding: the code's row names the relay, or the registration is what it was. *)
Lemma bind_license_spec vk rq env others code old row resp a :
  io_works (ev_undo env) → keeps vk others → is_Some (ba_license_store a) →
  registered vk (Some row) a → of_key vk old → rr_relay_id row = er_relay_id resp →
  rr_refresh_token_hash row = sha256_hex (er_relay_refresh_token resp) →
  let '(r, a') := bind_license rq env others code old resp a in
  match r with
  | Ok _ => registered vk (Some row) a' ∧ licensed (er_relay_id resp) code a' ∧ ba_license_required a' = ba_license_required a
  | Err _ => registered vk old a'
  end.
Proof.
  intros Hio Hkeep [store0 Hst] Hreg Hold Hid Hhash. unfold bind_license.
  set (m1 := match old with Some r => _ | None => _ end).
  assert (∃ a1 store, m1 a = (Ok (), a1) ∧ registered vk (Some row) a1 ∧ ba_license_store a1 = Some store ∧
    ba_license_required a1 = ba_license_required a) as (a1 & store & E1 & Hreg1 & Hst1 & Hreq1).
  { unfold m1. destruct old as [o|]; [|by exists a, store0].
    pose proof (with_licenses_registered vk (Some row) (λ t, (clear_expired_or_revoked_binding (ev_clear env)
      (rr_relay_id o) code (rq_unix rq) t, ())) () a Hreg) as Hr.
    unfold with_licenses in *. rewrite Hst in *. eexists _, _. split; [reflexivity|]. split; [exact Hr|]. by destruct a. }
  rewrite (hbind_Ok _ _ _ _ _ E1). clear E1 m1.
  pose proof (with_licenses_registered vk (Some row) (redeem (ev_redeem env) code (er_relay_id resp) (rq_unix rq)) (Ok ()) a1 Hreg1) as Hreg2.
  unfold with_licenses in *. rewrite Hst1 in Hreg2. unfold hbind at 1. rewrite Hst1.
  destruct (redeem _ _ _ _ (lc_rows store)) as [t [[]|e]] eqn:Er; cbn [snd] in Hreg2.
  - cbn. split; [done|]. split; [|by destruct a1]. unfold redeem in Er. destruct (ev_redeem env); [|done].
    destruct (lc_rows store !! code) as [l|]; [|done]. cbn in Er. destruct (redeemable _ l) eqn:Ed; [|done].
    destruct (existsb _ _); [done|]. injection Er as <-.
    exists (store <| lc_rows := <[code := redeemed (er_relay_id resp) (rq_unix rq) l]> (lc_rows store) |>), (redeemed (er_relay_id resp) (rq_unix rq) l).
    unfold redeemable in Ed. rewrite !andb_true_iff, !negb_true_iff, !is_some_false in Ed.
    split_and!; [by destruct a1|destruct store; cbn; by rewrite lookup_insert_eq|by destruct l|by destruct l; cbn in *; tauto].
  - unfold hbind at 1, hmodify at 1. apply (keeps_rows _ _ Hkeep) in Hreg2.
    set (a2 := others _) in *. destruct Hreg2 as (plane & Ev & Hrow & Hk). rewrite (hbind_Ok _ _ _ _ _ (on_plane_eq _ a2 plane Ev)).
    unfold hthrow. apply registered_plane; [done|]. unfold undo_enrollment. destruct old as [o|].
    + destruct (restore_key vk _ o (ev_undo env) plane Hio Hold Hk) as (p' & -> & H'). done.
    + destruct (rollback_key vk row (er_relay_refresh_token resp) (ev_undo env) plane Hio Hhash Hrow Hk) as (p' & -> & H'). done.
Qed.

(** What the preflight says of the code. *)
Lemma enrollment_action_spec rq ok code relay a :
  let '(r, a') := enrollment_action rq ok code relay a in
  a' = a ∧
  match r with
  | Ok (Some Fresh) => is_Some (ba_license_store a) ∧ is_Some code
  | Ok (Some Renewal) => ∃ c relay_id, code = Some c ∧ relay = Some relay_id ∧ licensed relay_id c a
  | Ok None => ba_license_required a = true → ba_license_store a = None
  | Err _ => True
  end.
Proof.
  unfold enrollment_action, hbind, hgets, or_license, hlift, hthrow, hret. cbn.
  destruct (ba_license_store a) as [store|] eqn:Es; [|done].
  destruct code as [c|]; [|destruct (ba_license_required a); cbn; by split].
  destruct (validate_code_or_reenroll _ _ _ _ _) as [[]|e] eqn:Ev; cbn; split; try done.
  - unfold validate_code_or_reenroll in Ev. destruct ok; [|done]. cbn [negb] in Ev.
    destruct (lc_rows store !! c) as [l|] eqn:El; [|done].
    destruct (is_some (li_revoked_at l)) eqn:Er; [done|]. apply is_some_false in Er.
    destruct (li_relay_id l) as [bound|] eqn:Eb.
    + destruct relay as [relay_id|]; [|by case_if]. case_bool_decide as Heq; [|by case_if]. subst bound.
      exists c, relay_id. split_and!; [done..|]. by exists store, l.
    + by repeat case_if.
Qed.

Definition env_works (env : EnrollEnv) : Prop :=
  io_works (ev_snapshot env) ∧ io_works (ev_enroll env) ∧ io_works (ev_undo env).

(** From the enrolment proper on. *)
Lemma enrol_and_bind rq env o3 input a3 a5 vk old action (required : bool) :
  io_works (ev_enroll env) → io_works (ev_undo env) → keeps vk o3 →
  trimmed_string (rc_relay_verify_key input) = Some vk → registered vk old a5 →
  ba_license_required a5 = required →
  (required = true → is_Some (ba_license_store a3)) →
  (is_Some (ba_license_store a3) → is_Some (ba_license_store a5)) →
  (∀ relay_id c, licensed relay_id c a3 → licensed relay_id c a5) →
  match action with
  | Some Fresh => is_Some (ba_license_store a3) ∧ is_Some (trimmed_option_string (rc_license_code input))
  | Some Renewal => ∃ c relay_id, trimmed_option_string (rc_license_code input) = Some c ∧
      rr_relay_id <$> old = Some relay_id ∧ licensed relay_id c a3
  | None => required = true → ba_license_store a3 = None
  end →
  let '(r, a') :=
    (let+ response := control rq (complete_relay_enrollment (ev_enroll env) (ev_draws env) (ev_rnd env)
       (rc_relay_verify_key input) (rc_challenge_id input) (rc_challenge_signature input)
       (rc_relay_label input) (rq_unix rq)) in
     let+ _ := match trimmed_option_string (rc_license_code input), action with
               | Some code, Some Fresh => bind_license rq env o3 code old response
               | _, _ => hret ()
               end in
     hret response) a5 in
  match r with
  | Err _ => registered vk old a'
  | Ok resp =>
      (∃ row, registered vk (Some row) a' ∧ rr_relay_id row = er_relay_id resp ∧
         rr_broker_room_id row = er_broker_room_id resp ∧
         rr_refresh_token_hash row = sha256_hex (er_relay_refresh_token resp)) ∧
      (∀ o, old = Some o → er_relay_id resp = rr_relay_id o ∧ er_broker_room_id resp = rr_broker_room_id o) ∧
      (required = true → ∃ code,
         trimmed_option_string (rc_license_code input) = Some code ∧ licensed (er_relay_id resp) code a')
  end.
Proof.
  intros Hio2 Hio3 K3 Hvk (plane & Ev & Hold & Hk) Hreq Hst3 Hst5 Hlic Hact.
  pose proof (enroll_key vk old (ev_enroll env) (ev_draws env) (ev_rnd env) _ (rc_challenge_id input)
    (rc_challenge_signature input) (rc_relay_label input) (rq_unix rq) plane Hio2 Hvk Hk) as Hen.
  unfold hbind at 1. rewrite (control_eq _ _ _ _ Ev). destruct (complete_relay_enrollment _ _ _ _ _ _ _ _ plane) as [[resp|e] plane'];
    cbn [fst snd]; [|by apply registered_plane].
  destruct Hen as (row & Hid & Hroom & Hhash & Hrow & Hk' & Hsame).
  set (a6 := a5 <| ba_join_verifier := VerifyPublic plane' |>).
  assert (registered vk (Some row) a6) as Hreg6 by by apply registered_plane.
  assert (is_Some (ba_license_store a3) → is_Some (ba_license_store a6)) as Hst6 by (unfold a6; by destruct a5).
  assert (∀ relay_id c, licensed relay_id c a3 → licensed relay_id c a6) as Hlic6
    by (intros; by apply licensed_plane, Hlic).
  clearbody a6. generalize dependent (trimmed_option_string (rc_license_code input)). intros lc Hact.
  assert ((∃ code, lc = Some code ∧ licensed (er_relay_id resp) code a6) ∨ required = false →
    (∃ row, registered vk (Some row) a6 ∧ rr_relay_id row = er_relay_id resp ∧
         rr_broker_room_id row = er_broker_room_id resp ∧
         rr_refresh_token_hash row = sha256_hex (er_relay_refresh_token resp)) ∧
      (∀ o, old = Some o → er_relay_id resp = rr_relay_id o ∧ er_broker_room_id resp = rr_broker_room_id o) ∧
      (required = true → ∃ code, lc = Some code ∧ licensed (er_relay_id resp) code a6)) as Hdone.
  { intros Hl. split_and!; [by exists row|done|]. intros Hr. destruct Hl as [|Hl]; [done|congruence]. }
  destruct action as [[]|].
  - destruct Hact as [Hs [code ->]].
    pose proof (bind_license_spec vk rq env o3 code old row resp a6 Hio3 K3 ltac:(auto) Hreg6 Hold Hid Hhash) as Hb.
    unfold hbind. destruct (bind_license _ _ _ _ _ _ a6) as [[[]|e] a7]; [|done].
    destruct Hb as (Hreg7 & Hl7 & _). cbn. split_and!; [by exists row|done|]. intros _. by exists code.
  - destruct Hact as (c & relay_id & -> & Ho & Hl). cbn. apply Hdone. left. exists c. split; [done|].
    destruct old as [o|]; [|done]. injection Ho as <-. destruct (Hsame o eq_refl) as [-> _]. by apply Hlic6.
  - assert (required = false) as Hr.
    { destruct required; [|done]. destruct (Hst3 eq_refl) as [x Hx]. by rewrite (Hact eq_refl) in Hx. }
    destruct lc; cbn; apply Hdone; by right.
Qed.

(** C16: enrolment is all or nothing.  While the control plane's backend answers, and whatever
    the licence table answers and other requests do meanwhile outside the lock of the key, an
    enrolment that fails, at any step, leaves the key exactly the registration it had, in
    memory and in the backend, so the token the relay holds stays the one that works; one that
    succeeds leaves the key one registration under the token it answered with, a known relay
    keeping its identity; and where a licence is required the code given is then bound to that
    relay and not revoked. *)
Theorem enrolment_is_all_or_nothing rq env o1 o2 o3 input a vk old :
  env_works env → keeps vk o1 → keeps vk o2 → keeps vk o3 →
  trimmed_string (rc_relay_verify_key input) = Some vk → registered vk old a →
  let '(r, a') := public_complete_relay_enrollment rq env o1 o2 o3 input a in
  match r with
  | Err _ => registered vk old a'
  | Ok resp =>
      (∃ row, registered vk (Some row) a' ∧ rr_relay_id row = er_relay_id resp ∧
         rr_broker_room_id row = er_broker_room_id resp ∧
         rr_refresh_token_hash row = sha256_hex (er_relay_refresh_token resp)) ∧
      (∀ o, old = Some o → er_relay_id resp = rr_relay_id o ∧ er_broker_room_id resp = rr_broker_room_id o) ∧
      (ba_license_required a = true → ∃ code,
         trimmed_option_string (rc_license_code input) = Some code ∧ licensed (er_relay_id resp) code a')
  end.
Proof.
  intros (Hio1 & Hio2 & Hio3) K1 K2 K3 Hvk Hreg. unfold public_complete_relay_enrollment.
  unfold hbind at 1, enforce_public_api_rate_limit, app_allow. destruct (allow _ _ _ _ _) as [m []]; [|by destruct a].
  set (a1 := a <| ba_rate_limiter := m |>).
  assert (registered vk old a1) as Hreg1 by (destruct Hreg as (plane & ? & ?); exists plane; by destruct a).
  assert (ba_license_required a1 = ba_license_required a) as Hreq1 by by destruct a.
  clearbody a1. clear Hreg. unfold hbind at 1, hgets. cbn [id].
  destruct (ba_license_required a1 && is_none (ba_license_store a1)) eqn:Egate; [done|].
  assert (ba_license_required a = true → is_Some (ba_license_store a1)) as Hstore.
  { intros Hr. rewrite Hreq1, Hr in Egate. destruct (ba_license_store a1); [by eauto|done]. }
  unfold enroll_locked. rewrite Hvk. destruct Hreg1 as (plane & Ev & Hkey & Hk).
  rewrite (hbind_Ok _ _ a1 () a1) by (unfold require_public_control_plane; by rewrite Ev).
  destruct (snapshot_key vk old (ev_snapshot env) plane Hio1 Hk) as (plane1 & Es & Hk1).
  rewrite (hbind_Ok _ _ a1 old (a1 <| ba_join_verifier := VerifyPublic plane1 |>)) by by rewrite (control_eq _ _ _ _ Ev), Es.
  set (a2 := a1 <| ba_join_verifier := VerifyPublic plane1 |>).
  assert (registered vk old a2 ∧ ba_license_required a2 = ba_license_required a ∧
    (ba_license_required a = true → is_Some (ba_license_store a2))) as (Hreg2 & Hreq2 & Hst2).
  { split; [by apply registered_plane|]. unfold a2. by destruct a1. }
  rewrite (hbind_Ok _ _ a2 () (o1 a2)) by done.
  assert (registered vk old (o1 a2) ∧ ba_license_required (o1 a2) = ba_license_required a ∧
    (ba_license_required a = true → is_Some (ba_license_store (o1 a2)))) as (Hreg3 & Hreq3 & Hst3).
  { split; [by apply (keeps_rows _ _ K1)|]. split; [by rewrite (keeps_required _ _ K1)|]. intros Hr. by apply (keeps_store _ _ K1), Hst2. }
  generalize dependent (o1 a2). clear a2 Hreg2 Hreq2 Hst2 Es Hk1 plane1. intros a3 Hreg3 Hreq3 Hst3.
  pose proof (enrollment_action_spec rq (ev_validate env) (trimmed_option_string (rc_license_code input))
    (rr_relay_id <$> old) a3) as Hact.
  destruct (enrollment_action _ _ _ _ a3) as [[action|e] a4] eqn:Ea; destruct Hact as [-> Hact];
    [|by rewrite (hbind_Err _ _ _ _ _ Ea)].
  rewrite (hbind_Ok _ _ _ _ _ Ea). clear Ea. rewrite (hbind_Ok _ _ a3 () (o2 a3)) by done.
  assert (registered vk old (o2 a3)) as Hreg4 by by apply (keeps_rows _ _ K2).
  pose proof (keeps_required _ _ K2 a3) as Hreq4. rewrite Hreq3 in Hreq4.
  assert (is_Some (ba_license_store a3) → is_Some (ba_license_store (o2 a3))) as Hst4 by apply (keeps_store _ _ K2).
  assert (∀ relay_id c, licensed relay_id c a3 → licensed relay_id c (o2 a3)) as Hlic4 by (intros; by apply (keeps_licence _ _ K2)).
  generalize dependent (o2 a3). intros a5 Hreg4 Hreq4 Hst4 Hlic4.
  rewrite Hreq3 in Hact. by apply (enrol_and_bind rq env o3 input a3 a5 vk old action (ba_license_required a)).
Qed.
End Enroll.

(** ** Licences in the handlers *)
Section Handlers.
Context {DC : DeviceCrypto} {TC : TicketCrypto} {ED : Ed25519}.

(** ** Handlers that do not look at licences *)
Definition relic (ls : option LicenseStore) (required : bool) (a : BrokerAppState) : BrokerAppState :=
  a <| ba_license_store := ls |> <| ba_license_required := required |>.

(** The handler answers alike, and does alike to the rest, whatever the licences are. *)
Definition license_blind {A} (m : Handler A) : Prop := ∀ a ls required,
  m (relic ls required a) = ((m a).1, relic ls required (m a).2).

Lemma blind_bind {A B} (m : Handler A) (k : A → Handler B) :
  license_blind m → (∀ x, license_blind (k x)) → license_blind (hbind m k).
Proof.
  intros Hm Hk a ls required. unfold hbind. rewrite Hm. destruct (m a) as [[x|e] a1]; cbn [fst snd]; [|done]. apply Hk.
Qed.
Lemma blind_lift {A} (r : result A ApiError) : license_blind (hlift r).
Proof. by intros a ls required. Qed.
Lemma blind_ret {A} (x : A) : license_blind (hret x).
Proof. by intros a ls required. Qed.
Lemma blind_throw {A} (e : ApiError) : license_blind (hthrow e : Handler A).
Proof. by intros a ls required. Qed.
Lemma blind_monitor f : license_blind (monitor f).
Proof. by intros [] ls required. Qed.
Lemma blind_limit rq route : license_blind (enforce_public_api_rate_limit rq route).
Proof.
  intros a ls required. unfold enforce_public_api_rate_limit, app_allow. destruct a. unfold relic, set_field. cbn.
  destruct (allow _ _ _ _ _). done.
Qed.
Lemma blind_require : license_blind require_public_control_plane.
Proof. by intros [] ls required. Qed.
Lemma blind_plane {A} (m : M A) : license_blind (on_plane m).
Proof. intros [b v] ls required. unfold on_plane, relic, set_field. cbn. destruct v; cbn; [done| |done]. by destruct (m plane). Qed.
Lemma blind_refreshed {A} rq kind token (r : result A PlaneError) : license_blind (refreshed rq kind token r).
Proof. destruct r; cbn [refreshed]; [apply blind_ret|]. apply blind_bind; [apply blind_monitor|]. intros _. apply blind_throw. Qed.
End Handlers.

Create HintDb blind.
#[export] Hint Resolve blind_lift blind_ret blind_throw blind_monitor blind_limit blind_require blind_plane
  blind_refreshed : blind.
Ltac blind := repeat first [solve [auto with blind] | apply blind_bind; [|intros ?]].

Section Api.
Context {DC : DeviceCrypto} {TC : TicketCrypto} {ED : Ed25519}.

Lemma blind_begin rq route : license_blind (begin_request rq route).
Proof. unfold begin_request. blind. Qed.
Lemma blind_bearer rq : license_blind (bearer rq).
Proof. unfold bearer. blind. Qed.
Lemma blind_control {A} rq (m : M A) : license_blind (control rq m).
Proof. unfold control, or_error. blind. Qed.

(** Past its beginning, a request sees the same control plane. *)
Lemma begin_request_Ok rq route a a1 : begin_request rq route a = (Ok (), a1) →
  ba_join_verifier a1 = ba_join_verifier a ∧ ba_license_store a1 = ba_license_store a ∧
  ba_license_required a1 = ba_license_required a ∧ ∃ plane, ba_join_verifier a = VerifyPublic plane.
Proof.
  unfold begin_request, hbind, enforce_public_api_rate_limit, app_allow.
  destruct (allow _ _ _ _ _) as [m []]; [|done]. unfold require_public_control_plane.
  destruct (public_control_plane _) eqn:Ev; [|done]. intros [= <-]. destruct a as [b v]; cbn in *.
  split_and!; [done..|]. destruct v; try done. eauto.
Qed.

(** The caller's token is not one of this relay's. *)
Definition not_this_relay (rq : Req) (io : Io) (relay_id broker_room_id : string) (a : BrokerAppState) : Prop :=
  ∀ plane token, ba_join_verifier a = VerifyPublic plane → bearer_token (rq_headers rq) = Ok token →
    is_ok (authenticate_relay io token relay_id broker_room_id plane).1 = false.

Lemma bind_Ok {A B} (m : M A) (k : A → M B) p y p' : bind m k p = (Ok y, p') →
  ∃ x p1, m p = (Ok x, p1) ∧ k x p1 = (Ok y, p').
Proof. unfold bind. destruct (m p) as [[x|e] p1]; [eauto|done]. Qed.
Lemma bind_not_ok {A B} (m : M A) (k : A → M B) p x : is_ok (m p).1 = false → (bind m k p).1 = Ok x → False.
Proof. unfold bind. by destruct (m p) as [[y|e] p1]. Qed.
Lemma bearer_Ok rq a token a1 : bearer rq a = (Ok token, a1) → a1 = a ∧ bearer_token (rq_headers rq) = Ok token.
Proof. unfold bearer, hlift. by intros [= -> ->]. Qed.

(** Blind so far, and alike from there on. *)
Lemma blind_then {A B} (m : Handler A) (k k' : A → Handler B) a ls required : license_blind m →
  (∀ x a1, m a = (Ok x, a1) → (k x (relic ls required a1)).1 = (k' x a1).1) →
  (hbind m k (relic ls required a)).1 = (hbind m k' a).1.
Proof.
  intros Hm Hk. unfold hbind. rewrite Hm. destruct (m a) as [[x|e] a1]; cbn [fst snd]; [|done]. by apply Hk.
Qed.

(** C25: licences are private.  A caller whose token is not the relay's gets from the two
    routes that look at licences the same answer whatever licences there are, whether they are
    required, and whether their table answers: it cannot tell an active, an expired, a revoked
    or a missing licence of any relay. *)
Theorem licences_are_private rq io io1 io2 ok ok' others others' nonce rnd relay_id room peer device a ls required :
  not_this_relay rq io relay_id room a →
  (public_issue_relay_ws_token rq io ok nonce relay_id room peer (relic ls required a)).1
    = (public_issue_relay_ws_token rq io ok' nonce relay_id room peer a).1 ∧
  (public_issue_device_grant rq io io1 io2 ok others rnd nonce relay_id room device (relic ls required a)).1
    = (public_issue_device_grant rq io io1 io2 ok' others' rnd nonce relay_id room device a).1.
Proof.
  intros Hno. split.
  - apply blind_then; [apply blind_begin|]. intros [] a1 Eb.
    apply begin_request_Ok in Eb as (Ev & _ & _ & plane & Ep). rewrite Ep in Ev.
    apply blind_then; [apply blind_bearer|]. intros token a2 Et. apply bearer_Ok in Et as [-> Et].
    apply blind_then; [apply blind_plane|]. intros r a2 Er. rewrite (on_plane_eq _ a1 plane Ev) in Er. injection Er as <- <-.
    destruct (issue_relay_ws_token _ _ _ _ _ _ _ plane).1 as [x|e] eqn:Ei.
    + unfold issue_relay_ws_token in Ei. destruct (bind_not_ok _ _ plane _ (Hno plane token Ep Et) Ei).
    + by rewrite blind_refreshed.
  - apply blind_then; [apply blind_begin|]. intros [] a1 Eb.
    apply begin_request_Ok in Eb as (Ev & _ & _ & plane & Ep). rewrite Ep in Ev.
    apply blind_then; [apply blind_bearer|]. intros token a2 Et. apply bearer_Ok in Et as [-> Et].
    apply blind_then; [apply blind_control|]. intros x a2 Er. exfalso. rewrite (control_eq _ _ a1 plane Ev) in Er.
    destruct (authenticate_relay_bearer _ _ _ _ plane).1 as [y|e] eqn:Ei; [|done].
    unfold authenticate_relay_bearer in Ei. destruct (bind_not_ok _ _ plane _ (Hno plane token Ep Et) Ei).
Qed.

(** ** Credentials and licences *)

(** [l] is the licence of the relay, neither revoked nor expired. *)
Definition active_license (rq : Req) (relay_id : string) (a : BrokerAppState) (store : LicenseStore) (l : License) : Prop :=
  ba_license_store a = Some store ∧ (∃ code, license_of relay_id (lc_rows store) = Some (code, l)) ∧
  li_revoked_at l = None ∧ before (li_expires_at l) (rq_unix rq) = false.

(** The cap a licence sets: its own limit where that is positive, else the default of its tier. *)
Definition licence_cap (store : LicenseStore) (l : License) : option Z :=
  let tier := match li_tier l with Some t => lc_tier_device_limits store !! to_ascii_lowercase t | None => None end in
  match li_device_limit l with
  | Some n => if 0 <? n then Some n else tier
  | None => tier
  end.
(** The device has a grant already, or fewer devices of the relay than the cap have one. *)
Definition seat_free (relay_id device : string) (cap : option Z) (s : PublicControlStateStore) : Prop :=
  match cap with
  | Some n => has_device_grant relay_id device s = true ∨ Z.of_nat (count_device_grants_for_relay relay_id s) < n
  | None => True
  end.
(** What the handler of a device grant does before the other requests come in between. *)
Definition before_grant (rq : Req) (io : Io) (ok : bool) (relay_id room : string) : Handler string :=
  let+ _ := begin_request rq "device_grant" in
  let+ token := bearer rq in
  let+ _ := control rq (authenticate_relay_bearer io token relay_id room) in
  let+ _ := resolve_device_limit rq ok relay_id in
  hret token.

Lemma hbind_inv {A B} (m : Handler A) (k : A → Handler B) a y a' : hbind m k a = (Ok y, a') →
  ∃ x a1, m a = (Ok x, a1) ∧ k x a1 = (Ok y, a').
Proof. unfold hbind. destruct (m a) as [[x|e] a1]; [eauto|done]. Qed.

Lemma access_checked rq ok relay_id a store : ba_license_store a = Some store →
  check_relay_access ok relay_id (rq_unix rq) (lc_rows store) = Ok () → ∃ l, active_license rq relay_id a store l.
Proof.
  intros Es. unfold check_relay_access. destruct ok; [|done]. cbn [negb].
  destruct (license_of relay_id _) as [[code l]|] eqn:El; [|done]. destruct (is_some (li_revoked_at l)) eqn:Er; [done|].
  destruct (before (li_expires_at l) (rq_unix rq)) eqn:Eb; [done|]. intros _.
  apply is_some_false in Er. exists l. split_and!; [done|by exists code|done..].
Qed.
Lemma limit_is_licence_cap ok relay_id store code l cap : license_of relay_id (lc_rows store) = Some (code, l) →
  device_limit_for_relay ok relay_id store = Ok cap → cap = licence_cap store l.
Proof.
  intros El. unfold device_limit_for_relay, license_cap_row. destruct ok; [|done]. cbn. rewrite El. intros [= <-].
  unfold licence_cap, positive_limit, tier_default_limit. destruct (li_device_limit l) as [n|]; cbn; [destruct (0 <? n)|];
    by destruct (li_tier l).
Qed.
Lemma grant_inv io r tok device limit now p p1 : grant_device io r tok device limit now p = (Ok (), p1) →
  ∃ q, lock_state io p = (Ok (), q) ∧ seat_free (rr_relay_id r) device limit (cp_state q).
Proof.
  unfold grant_device. intros H. apply bind_Ok in H as ([] & q & Hl & H). exists q. split; [done|].
  apply bind_Ok in H as (s & ? & Hs & H). injection Hs as <- <-. apply bind_Ok in H as (g & ? & Hs & H). injection Hs as <- <-.
  unfold seat_free. destruct limit as [n|]; [|done].
  destruct (has_device_grant _ _ _); [by left|]. cbn in H. right. apply Z.leb_gt.
  by destruct (n <=? _).
Qed.

Lemma authenticated_relay_id io bearer relay_id room p r p' :
  authenticate_relay io bearer relay_id room p = (Ok r, p') → rr_relay_id r = relay_id.
Proof.
  unfold authenticate_relay. intros Ea. apply bind_Ok in Ea as (? & p4 & _ & Ea). apply bind_Ok in Ea as (? & p5 & _ & Ea).
  apply bind_Ok in Ea as (? & p6 & _ & Ea). repeat (case_bool_decide; cbn [negb] in Ea; [|done]). by injection Ea as <- _.
Qed.

End Api.

(** * The HTTP interface on concrete requests

    The theorems of the handlers applied to requests of a relay whose licence is a code, with
    the stand-ins of [ControlExamples] and [HttpRequests]; and what a failed write of the state
    file does to a relay that enrols again. *)
Module PublicApiExamples.
#[local] Existing Instances plain_crypto model_crypto toy_ed.
Import ControlExamples.

Definition old_row : PersistedRelayRegistration :=
  MkRelay "relay-a" "room-a" (sha256_hex "rref-old") 0 None (Some key).
Definition enrolled_store : PublicControlStateStore := store_empty <| cs_relays := {[ sha256_hex "rref-old" := old_row ]} |>.
Definition enrolled : PublicControlPlaneInner :=
  MkPlane sample_key 600 600 3600 (JsonFile enrolled_store) enrolled_store {[ "rch-1" := MkEnrollment key "rc-1" None 900 ]} ∅.
Definition enroll_signature : string := substring 0 64 (key +:+ relay_enrollment_challenge_message "rch-1" "rc-1").
Definition input : RelayEnrollmentCompleteRequest := MkComplete key "rch-1" enroll_signature None (Some " AAAA ").

Definition free_license : License := MkLicense None (Some "free") (Some 30) None None None None (Some 2).
Definition bound_license : License := MkLicense (Some "relay-a") (Some "free") (Some 30) None (Some 9000) None (Some 0) (Some 2).
Definition api_app (l : License) : BrokerAppState :=
  MkApp (broker_init true) (VerifyPublic enrolled) hardening_default ∅ ∅ metrics_init ∅ monitoring_init
    (Some (MkLicenseStore {[ "AAAA" := l ]} true ∅)) true None.
Definition rq (headers : Headers) : Req := MkReq (MkClock (-100 * NANOS) 0 500) example_ip headers "the disk is full".
Definition as_relay : Req := rq (one_header "authorization" "Bearer rref-old").
Definition as_stranger : Req := rq (one_header "authorization" "Bearer guess").

(** The licence table fails when the code is to be redeemed. *)
Definition env (redeem_ok : bool) : EnrollEnv := MkEnrollEnv io io io true true redeem_ok [("1", "2")] "new".

Lemma keeps_id vk : keeps vk id.
Proof. by split. Qed.
Lemma api_registered l : registered key (Some old_row) (api_app l).
Proof.
  exists enrolled. split; [done|]. split; [done|].
  assert (key_rows key enrolled_store = row_of (Some old_row)) as E by (vm_compute; reflexivity).
  by split; [|repeat constructor].
Qed.
Definition enroll_run (redeem_ok : bool) : result RelayEnrollmentResponse ApiError * BrokerAppState :=
  public_complete_relay_enrollment as_relay (env redeem_ok) id id id input (api_app free_license).

Lemma enrolment_is_all_or_nothing_witness :
  is_ok (enroll_run false).1 = false ∧ registered key (Some old_row) (enroll_run false).2 ∧
  (er_relay_refresh_token <$> result_ok (enroll_run true).1) = Some "rref-new".
Proof.
  assert (is_ok (enroll_run false).1 = false) as E by (vm_compute; reflexivity).
  split; [exact E|]. split; [|vm_compute; reflexivity].
  pose proof (enrolment_is_all_or_nothing as_relay (env false) id id id input (api_app free_license) key (Some old_row)
    ltac:(repeat split) (keeps_id key) (keeps_id key) (keeps_id key) ltac:(vm_compute; reflexivity) (api_registered free_license)) as H.
  unfold enroll_run in E |- *. destruct (public_complete_relay_enrollment _ _ _ _ _ _ _) as [[resp|e] a'];
    [discriminate E|exact H].
Defined.

Definition active_app : BrokerAppState := api_app bound_license.
Definition ws_token (r : Req) (ok : bool) (a : BrokerAppState) : result RelayWsTokenResponse ApiError * BrokerAppState :=
  public_issue_relay_ws_token r io ok "n" "relay-a" "room-a" "relay-1" a.
Definition device_grant (r : Req) (ok : bool) (a : BrokerAppState) : result DeviceGrantResponse ApiError * BrokerAppState :=
  public_issue_device_grant r io io io ok id "r" "n" "relay-a" "room-a" "phone" a.

(** A stranger is refused alike for an active relay and without any licence. *)
Lemma licences_are_private_witness :
  (ws_token as_stranger true (relic None false active_app)).1 = (ws_token as_stranger true active_app).1 ∧
  (ws_token as_stranger true active_app).1 = Err (MkApiError 401 "unauthorized" "request failed").
Proof.
  split; [|vm_compute; reflexivity].
  apply (licences_are_private as_stranger io io io true true id id "n" "r" "relay-a" "room-a" "relay-1" "phone" active_app None false).
  intros plane token Ep Et. injection Ep as <-. vm_compute in Et. injection Et as <-. vm_compute. reflexivity.
Defined.

(** ** A failed write of the state file *)
Definition io_full : Io := MkIo true true NotSaved true true.
Definition failed_enrolment : result RelayEnrollmentResponse PlaneError * PublicControlPlaneInner :=
  complete_relay_enrollment io_full [("1", "2")] "new" key "rch-1" enroll_signature None 500 enrolled.

(** The enrolment is refused, the file still names the old token, and the relay that holds it
    is no longer let in: the new token is in memory only and nobody was told. *)
Lemma failed_save_locks_the_relay_out :
  failed_enrolment.1 = Err SaveFailed ∧
  cp_persistence failed_enrolment.2 = JsonFile enrolled_store ∧
  (authenticate_relay io "rref-old" "relay-a" "room-a" enrolled).1 = Ok old_row ∧
  (authenticate_relay io "rref-old" "relay-a" "room-a" failed_enrolment.2).1 = Err RelayTokenInvalid ∧
  is_ok (authenticate_relay io "rref-new" "relay-a" "room-a" failed_enrolment.2).1 = true.
Proof. split_and!; vm_compute; reflexivity. Qed.
End PublicApiExamples.
