(* ===== verification/Writer.v ===== *)
(** * The writer of a relay's broker socket (crates/relay-server/src/broker/writer.rs)

    Three bounded lanes feed one socket: heartbeat pings, ordinary frames, and chunk trains
    paced by an interval.  [loop_top] is one turn of the loop of [drive_writer] up to its
    waits, [loop_wait] the select it waits in; a write says when it was finished, or that it
    failed.  The clock readings of one turn, and those after its write, coincide. *)

From Stdlib Require Import ZArith Lia.
From S2P Require Import Prelude.

Open Scope Z_scope.

(** A frame, as the text or the payload it carries. *)
Notation Message := string (only parsing).

Definition NOW_QUEUE_CAPACITY : nat := 512.
Definition TRAIN_QUEUE_CAPACITY : nat := 1.
Definition PING_QUEUE_CAPACITY : nat := 4.

Inductive TrainHandoff : Type := TrainQueued | TrainBusy.
#[export] Instance TrainHandoff_eq_dec : EqDecision TrainHandoff.
Proof. solve_decision. Defined.

Record TrainFrame : Type := MkTrain {
  tf_chunks : list Message;
  tf_interval : Z;
  tf_watch_target : option string
}.

(** The lanes, and the variables of the loop.  [wr_handle]: a handle of the lanes is left;
    [wr_running]: the task is. *)
Record BrokerWriter : Type := MkWriter {
  wr_ping : list Message;
  wr_now : list Message;
  wr_trains : list TrainFrame;
  wr_handle : bool;
  wr_running : bool;
  wr_waiting : bool;
  wr_train : list Message;
  wr_interval : Z;
  wr_watch_target : option string;
  wr_next_chunk_at : option Z;
  wr_last_chunk_at : option Z;
  wr_now_closed : bool;
  wr_train_closed : bool
}.
#[export] Instance BrokerWriter_expand : Expand BrokerWriter := λ w,
  MkWriter (wr_ping w) (wr_now w) (wr_trains w) (wr_handle w) (wr_running w) (wr_waiting w) (wr_train w)
    (wr_interval w) (wr_watch_target w) (wr_next_chunk_at w) (wr_last_chunk_at w) (wr_now_closed w) (wr_train_closed w).

Definition spawn_broker_writer : BrokerWriter := {|
  wr_ping := []; wr_now := []; wr_trains := []; wr_handle := true; wr_running := true; wr_waiting := false;
  wr_train := []; wr_interval := 0; wr_watch_target := None; wr_next_chunk_at := None; wr_last_chunk_at := None;
  wr_now_closed := false; wr_train_closed := false |}.

(** ** The handle *)
Inductive WriterError : Type := WriterStopped.

(** A full lane of pings loses the ping. *)
Definition send_ping (message : Message) (w : BrokerWriter) : BrokerWriter * result () WriterError :=
  if negb (wr_running w) then (w, Err WriterStopped)
  else if (length (wr_ping w) <? PING_QUEUE_CAPACITY)%nat then (w <| wr_ping ::= (λ q, q ++ [message])%list |>, Ok ())
  else (w, Ok ()).

(** [None]: the sender waits for room. *)
Definition send_now (message : Message) (w : BrokerWriter) : option (BrokerWriter * result () WriterError) :=
  if negb (wr_running w) then Some (w, Err WriterStopped)
  else if (length (wr_now w) <? NOW_QUEUE_CAPACITY)%nat then Some (w <| wr_now ::= (λ q, q ++ [message])%list |>, Ok ())
  else None.

Definition send_train (chunks : list Message) (interval : Z) (watch_target : option string) (w : BrokerWriter) :
    BrokerWriter * result TrainHandoff WriterError :=
  match chunks with
  | [] => (w, Ok TrainQueued)
  | _ =>
      if negb (wr_running w) then (w, Err WriterStopped)
      else if (length (wr_trains w) <? TRAIN_QUEUE_CAPACITY)%nat
      then (w <| wr_trains ::= (λ q, q ++ [MkTrain chunks interval watch_target])%list |>, Ok TrainQueued)
      else (w, Ok TrainBusy)
  end.

(** ** The loop *)
Inductive Lane : Type := LanePing | LaneNow | LaneChunk (interval : Z).
Record Wrote : Type := MkWrote { wo_lane : Lane; wo_message : Message; wo_started : Z; wo_finished : Z }.

(** How a turn ends: in the next turn, waiting, or with the task over. *)
Inductive Next : Type := Again | Wait | Finished.
Definition Turn : Type := BrokerWriter * list Wrote * Next.

(** [sink.send_frame(..).await?]: a failure ends the task. *)
Definition write (lane : Lane) (message : Message) (now : Z) (wrote : option Z) (w : BrokerWriter) : Turn :=
  match wrote with
  | Some finished => (w, [MkWrote lane message now finished], Again)
  | None => (w, [], Finished)
  end.

Definition advance_train (now : Z) (train : list Message) (interval : Z) : option Z :=
  match train with [] => None | _ => Some (now + interval) end.

Definition accept_train (now : Z) (frame : TrainFrame) (w : BrokerWriter) : BrokerWriter :=
  w <| wr_train ::= (λ t, t ++ tf_chunks frame)%list |> <| wr_interval := tf_interval frame |>
    <| wr_watch_target := tf_watch_target frame |>
    <| wr_next_chunk_at := Some (match wr_last_chunk_at w with
                                 | Some last => Z.max (last + tf_interval frame) now
                                 | None => now
                                 end) |>.

(** A chunk that is due. *)
Definition write_chunk (now : Z) (wrote : option Z) (w : BrokerWriter) : Turn :=
  match wr_train w with
  | [] => (w <| wr_next_chunk_at := None |>, [], Again)
  | chunk :: rest =>
      let w := w <| wr_train := rest |> in
      let '(w, out, next) := write (LaneChunk (wr_interval w)) chunk now wrote w in
      match wrote with
      | Some finished =>
          (w <| wr_last_chunk_at := Some finished |> <| wr_next_chunk_at := advance_train finished rest (wr_interval w) |>,
           out, next)
      | None => (w, out, next)
      end
  end.
Definition due_chunk (now : Z) (online : string → bool) (wrote : option Z) (w : BrokerWriter) : Turn :=
  match wr_watch_target w with
  | Some peer_id =>
      if online peer_id then write_chunk now wrote w
      else (w <| wr_train := [] |> <| wr_watch_target := None |> <| wr_next_chunk_at := None |>, [], Again)
  | None => write_chunk now wrote w
  end.

Definition is_due (now : Z) (w : BrokerWriter) : bool :=
  match wr_next_chunk_at w with Some deadline => deadline <=? now | None => false end.

(** A lane is closed when no handle is left and it is empty. *)
Definition closed {A} (queue : list A) (w : BrokerWriter) : bool :=
  negb (wr_handle w) && match queue with [] => true | _ => false end.

Definition ordinary (now : Z) (wrote : option Z) (w : BrokerWriter) : Turn :=
  match wr_now w with
  | message :: rest => write LaneNow message now wrote (w <| wr_now := rest |>)
  | [] =>
      let w := if closed (wr_now w) w then w <| wr_now_closed := true |> else w in
      if is_none (wr_next_chunk_at w) && wr_now_closed w && wr_train_closed w then (w, [], Finished) else (w, [], Wait)
  end.

Definition loop_top (now : Z) (online : string → bool) (wrote : option Z) (w : BrokerWriter) : Turn :=
  match wr_ping w with
  | ping :: rest => write LanePing ping now wrote (w <| wr_ping := rest |>)
  | [] =>
      if is_due now w then due_chunk now online wrote w else
      match wr_train w, wr_trains w with
      | [], frame :: rest => (accept_train now frame (w <| wr_trains := rest |>), [], Again)
      | [], [] => ordinary now wrote (if closed (wr_trains w) w then w <| wr_train_closed := true |> else w)
      | _ :: _, _ => ordinary now wrote w
      end
  end.

(** The arms of a select, the first that is ready; [None]: none is. *)
Definition recv_now (now : Z) (wrote : option Z) (w : BrokerWriter) : option Turn :=
  if wr_now_closed w then None else
  match wr_now w with
  | message :: rest => Some (write LaneNow message now wrote (w <| wr_now := rest |>))
  | [] => if wr_handle w then None else Some (w <| wr_now_closed := true |>, [], Again)
  end.
Definition recv_ping (now : Z) (wrote : option Z) (w : BrokerWriter) : option Turn :=
  match wr_ping w with
  | ping :: rest => Some (write LanePing ping now wrote (w <| wr_ping := rest |>))
  | [] => if wr_handle w then None else Some (w, [], Again)
  end.
Definition recv_train (now : Z) (w : BrokerWriter) : option Turn :=
  if wr_train_closed w then None else
  match wr_trains w with
  | frame :: rest => Some (accept_train now frame (w <| wr_trains := rest |>), [], Again)
  | [] => if wr_handle w then None else Some (w <| wr_train_closed := true |>, [], Again)
  end.

Definition loop_wait (now : Z) (wrote : option Z) (w : BrokerWriter) : option Turn :=
  match wr_next_chunk_at w with
  | Some deadline =>
      let timer := if deadline <=? now then Some (w, [], Again) else None in
      if wr_now_closed w then timer
      else option_or (recv_ping now wrote w) (option_or (recv_now now wrote w) timer)
  | None => option_or (recv_ping now wrote w) (option_or (recv_now now wrote w) (recv_train now w))
  end.

(** How a turn leaves the task. *)
Definition land (t : Turn) : BrokerWriter * list Wrote :=
  match t with
  | (w, out, Again) => (w <| wr_waiting := false |>, out)
  | (w, out, Wait) => (w <| wr_waiting := true |>, out)
  | (w, out, Finished) => (w <| wr_running := false |>, out)
  end.

(** One turn of the task: in the loop, or in its wait. *)
Definition drive_writer (now : Z) (online : string → bool) (wrote : option Z) (w : BrokerWriter) :
    BrokerWriter * list Wrote :=
  if negb (wr_running w) then (w, []) else
  match (if wr_waiting w then loop_wait now wrote w else Some (loop_top now online wrote w)) with
  | Some t => land t
  | None => (w, [])
  end.

(** ** Everything that happens to a writer *)
Inductive WriterEvent : Type :=
| EvPing (message : Message)
| EvNow (message : Message)
| EvTrain (chunks : list Message) (interval : Z) (watch_target : option string)
| EvDropHandle
| EvAbort                        (** the guard of the session is dropped *)
| EvDrive (now : Z) (online : string → bool) (wrote : option Z).

Definition writer_exec (w : BrokerWriter) (e : WriterEvent) : BrokerWriter * list Wrote :=
  match e with
  | EvPing m => if wr_handle w then ((send_ping m w).1, []) else (w, [])
  | EvNow m => if wr_handle w then (default w (fst <$> send_now m w), []) else (w, [])
  | EvTrain chunks interval target =>
      if wr_handle w then ((send_train chunks interval target w).1, []) else (w, [])
  | EvDropHandle => (w <| wr_handle := false |>, [])
  | EvAbort => (w <| wr_running := false |>, [])
  | EvDrive now online wrote => drive_writer now online wrote w
  end.

Fixpoint writer_run (events : list WriterEvent) (w : BrokerWriter) : BrokerWriter * list Wrote :=
  match events with
  | [] => (w, [])
  | e :: events =>
      let '(w, out) := writer_exec w e in
      let '(w, outs) := writer_run events w in
      (w, out ++ outs)%list
  end.

(** * The writer keeps its guarantees

    Chunks are paced across replies, frames leave in the order they were handed over,
    replies whole unless their surface was seen to leave, lanes stay bounded, and a writer
    whose handle is dropped sends what it accepted and ends. *)
(** ** What was handed over, and what was written *)
Section Handed.
Context {A : Type} (taken : WriterEvent → BrokerWriter → list A).
Fixpoint handed (events : list WriterEvent) (w : BrokerWriter) : list A :=
  match events with
  | [] => []
  | e :: events => (taken e w ++ handed events (writer_exec w e).1)%list
  end.
End Handed.

Definition taken_ping (e : WriterEvent) (w : BrokerWriter) : list string :=
  match e with
  | EvPing m => if wr_handle w && wr_running w && (length (wr_ping w) <? PING_QUEUE_CAPACITY)%nat then [m] else []
  | _ => []
  end.
Definition taken_now (e : WriterEvent) (w : BrokerWriter) : list string :=
  match e with
  | EvNow m => if wr_handle w && wr_running w && (length (wr_now w) <? NOW_QUEUE_CAPACITY)%nat then [m] else []
  | _ => []
  end.
(** The trains the writer took on: those it answered [TrainQueued]. *)
Definition taken_train (e : WriterEvent) (w : BrokerWriter) : list TrainFrame :=
  match e with
  | EvTrain (c :: cs) interval target =>
      if wr_handle w && wr_running w && (length (wr_trains w) <? TRAIN_QUEUE_CAPACITY)%nat
      then [MkTrain (c :: cs) interval target] else []
  | _ => []
  end.

Definition is_ping (e : Wrote) : bool := match wo_lane e with LanePing => true | _ => false end.
Definition is_now (e : Wrote) : bool := match wo_lane e with LaneNow => true | _ => false end.
Definition is_chunk (e : Wrote) : bool := match wo_lane e with LaneChunk _ => true | _ => false end.
Definition written (p : Wrote → bool) (log : list Wrote) : list string :=
  wo_message <$> filter (λ e, p e = true) log.

Lemma written_app p l1 l2 : written p (l1 ++ l2) = (written p l1 ++ written p l2)%list.
Proof. unfold written. by rewrite filter_app, fmap_app. Qed.

(** The surface was seen to be away when a chunk of its reply was due. *)
Definition seen_away (events : list WriterEvent) (peer_id : string) : Prop :=
  ∃ now online wrote, EvDrive now online wrote ∈ events ∧ online peer_id = false.
(** A reply and how much of it was written. *)
Definition settled (events : list WriterEvent) (r : TrainFrame * nat) : Prop :=
  r.2 = length (tf_chunks r.1) ∨ ∃ p, tf_watch_target r.1 = Some p ∧ seen_away events p.
Definition sent_part (r : TrainFrame * nat) : list string := take r.2 (tf_chunks r.1).

(** ** The kinds of turns *)
Definition core (w : BrokerWriter) :=
  (wr_ping w, wr_now w, wr_trains w, (wr_train w, wr_interval w, wr_watch_target w, wr_next_chunk_at w, wr_last_chunk_at w)).

Inductive TurnKind (now : Z) (online : string → bool) (wrote : option Z) (w w' : BrokerWriter) : list Wrote → Prop :=
| TkPing m rest finished : wrote = Some finished → wr_ping w = m :: rest → core w' = core (w <| wr_ping := rest |>) →
    TurnKind now online wrote w w' [MkWrote LanePing m now finished]
| TkNow m rest finished : wrote = Some finished → wr_now w = m :: rest → core w' = core (w <| wr_now := rest |>) →
    TurnKind now online wrote w w' [MkWrote LaneNow m now finished]
| TkChunk m rest finished : wrote = Some finished → wr_train w = m :: rest → is_due now w = true →
    core w' = core (w <| wr_train := rest |> <| wr_last_chunk_at := Some finished |>
                      <| wr_next_chunk_at := advance_train finished rest (wr_interval w) |>) →
    TurnKind now online wrote w w' [MkWrote (LaneChunk (wr_interval w)) m now finished]
| TkAbandon p : wr_watch_target w = Some p → online p = false → is_due now w = true →
    core w' = core (w <| wr_train := [] |> <| wr_watch_target := None |> <| wr_next_chunk_at := None |>) →
    TurnKind now online wrote w w' []
| TkAccept frame rest : wr_train w = [] → wr_trains w = frame :: rest →
    core w' = core (accept_train now frame (w <| wr_trains := rest |>)) → TurnKind now online wrote w w' []
| TkIdle : core w' = core w → TurnKind now online wrote w w' []
| TkLost : wr_running w' = false → wrote = None → TurnKind now online wrote w w' [].

(** A chunk is scheduled exactly while a reply is under way. *)
Definition scheduled (w : BrokerWriter) : Prop := wr_next_chunk_at w = None ↔ wr_train w = [].

Lemma is_due_train now w : scheduled w → is_due now w = true → ∃ m rest, wr_train w = m :: rest.
Proof.
  unfold scheduled, is_due. intros Hs Hd. destruct (wr_train w) as [|m rest]; [|eauto].
  destruct (wr_next_chunk_at w) eqn:E; [|done]. by discriminate (proj2 Hs eq_refl).
Qed.

Lemma land_idle now online wrote w w1 n w' out :
  core w1 = core w → land (w1, [], n) = (w', out) → TurnKind now online wrote w w' out.
Proof. intros Hc E. destruct n; injection E as <- <-; by apply TkIdle. Qed.

Lemma land_write lane m now wrote w1 w' out :
  land (write lane m now wrote w1) = (w', out) →
  (∃ finished, wrote = Some finished ∧ out = [MkWrote lane m now finished] ∧ core w' = core w1) ∨
  (wrote = None ∧ out = [] ∧ wr_running w' = false).
Proof. unfold write. destruct wrote; cbn; intros [= <- <-]; eauto 10. Qed.

Lemma land_ping now online wrote w m rest w' out :
  wr_ping w = m :: rest → land (write LanePing m now wrote (w <| wr_ping := rest |>)) = (w', out) →
  TurnKind now online wrote w w' out.
Proof. intros Hp [(f & -> & -> & Hc)|(-> & -> & Hr)]%land_write; [by eapply TkPing|by apply TkLost]. Qed.
Lemma land_now now online wrote w m rest w' out :
  wr_now w = m :: rest → land (write LaneNow m now wrote (w <| wr_now := rest |>)) = (w', out) →
  TurnKind now online wrote w w' out.
Proof. intros Hp [(f & -> & -> & Hc)|(-> & -> & Hr)]%land_write; [by eapply TkNow|by apply TkLost]. Qed.
Lemma land_accept now online wrote w frame rest w' out :
  wr_train w = [] → wr_trains w = frame :: rest →
  land (accept_train now frame (w <| wr_trains := rest |>), [], Again) = (w', out) → TurnKind now online wrote w w' out.
Proof. intros Ht Hq [= <- <-]. by eapply TkAccept. Qed.

Lemma land_chunk now online wrote w w' out :
  scheduled w → is_due now w = true → land (write_chunk now wrote w) = (w', out) → TurnKind now online wrote w w' out.
Proof.
  intros Hs Hd. destruct (is_due_train _ _ Hs Hd) as (m & rest & Ht). unfold write_chunk. rewrite Ht.
  unfold write. destruct wrote as [f|]; cbn; intros [= <- <-]; [by eapply TkChunk|by apply TkLost].
Qed.

Lemma land_ordinary now online wrote w w1 w' out :
  core w1 = core w → land (ordinary now wrote w1) = (w', out) → TurnKind now online wrote w w' out.
Proof.
  intros Hc. assert (Hn : wr_now w1 = wr_now w) by by injection Hc. unfold ordinary. rewrite Hn.
  destruct (wr_now w) as [|m rest] eqn:En.
  - repeat case_if; apply land_idle; exact Hc.
  - intros [(f & -> & -> & Hc')|(-> & -> & Hr)]%land_write; [|by apply TkLost].
    eapply TkNow; [done..|]. rewrite Hc'. destruct w, w1. unfold core in *. cbn in *. by simplify_eq.
Qed.

Lemma drive_kind now online wrote w w' out :
  scheduled w → wr_running w = true → drive_writer now online wrote w = (w', out) → TurnKind now online wrote w w' out.
Proof.
  intros Hs Hr. unfold drive_writer. rewrite Hr. cbn [negb]. destruct (wr_waiting w).
  - unfold loop_wait, recv_ping, recv_now, recv_train.
    destruct (wr_next_chunk_at w) eqn:En, (wr_ping w) eqn:Ep, (wr_now w) eqn:Eo, (wr_trains w) eqn:Et, (wr_now_closed w),
      (wr_train_closed w), (wr_handle w); cbn [option_or]; try case_if;
      try (by intros [= <- <-]; apply TkIdle);
      first [eapply land_ping; exact Ep | eapply land_now; exact Eo | eapply land_accept; [by apply Hs|exact Et]
            |eapply land_idle; reflexivity].
  - unfold loop_top. destruct (wr_ping w) as [|m rest] eqn:Ep; [|by apply land_ping].
    destruct (is_due now w) eqn:Ed.
    { unfold due_chunk. destruct (wr_watch_target w) as [p|] eqn:Ew; [|by apply land_chunk].
      destruct (online p) eqn:Eo; [by apply land_chunk|]. intros [= <- <-]. by eapply TkAbandon. }
    destruct (wr_train w) eqn:Et; [destruct (wr_trains w) eqn:Eq|].
    + apply land_ordinary. by case_if.
    + eapply land_accept; done.
    + by apply land_ordinary.
Qed.

(** ** Everything that happens *)
Lemma not_running_still now online wrote w : wr_running w = false → drive_writer now online wrote w = (w, []).
Proof. unfold drive_writer. by intros ->. Qed.

(** What holds of a running task between events: lanes within their capacity, replies that
    are not empty, a chunk scheduled while a reply is under way, and never before its interval
    is over. *)
Record writer_wf (w : BrokerWriter) : Prop := {
  wf_ping : (length (wr_ping w) ≤ PING_QUEUE_CAPACITY)%nat;
  wf_now : (length (wr_now w) ≤ NOW_QUEUE_CAPACITY)%nat;
  wf_trains : (length (wr_trains w) ≤ TRAIN_QUEUE_CAPACITY)%nat;
  wf_chunks : Forall (λ t, tf_chunks t ≠ []) (wr_trains w);
  wf_scheduled : scheduled w;
  wf_paced : ∀ d l, wr_next_chunk_at w = Some d → wr_last_chunk_at w = Some l → l + wr_interval w ≤ d
}.

Lemma writer_wf_start : writer_wf spawn_broker_writer.
Proof. split; try done; cbn; lia. Qed.

Lemma writer_wf_core w w' : core w' = core w → writer_wf w → writer_wf w'.
Proof. destruct w, w'. unfold core. cbn. intros E []. simplify_eq. by split. Qed.

Lemma turn_wf now online wrote w w' out :
  TurnKind now online wrote w w' out → writer_wf w → wr_running w' = true → writer_wf w'.
Proof.
  intros [m rest f _ Hq Hc|m rest f _ Hq Hc|m rest f _ Ht Hd Hc|p _ _ Hd Hc|frame rest Ht Hq Hc|Hc|Hr _] [] Hrun;
    try apply (writer_wf_core _ _ Hc); try congruence; try (by split; cbn; try rewrite Hq in *; cbn in *; try done; lia).
  - split; cbn; try done.
    + unfold scheduled. cbn. by destruct rest.
    + intros d l. destruct rest; cbn; [done|]. intros [= <-] [= <-]. lia.
  - rewrite Hq in *. inversion wf_chunks0 as [|? ? Hf Hfs]; subst. split; cbn; try done; try (cbn in *; lia).
    + unfold scheduled. cbn. rewrite Ht. cbn. split; [done|by intros E].
    + intros d l. intros [= <-]. intros ->. lia.
Qed.

Lemma writer_exec_wf e w : (wr_running w = true → writer_wf w) →
  wr_running (writer_exec w e).1 = true → wr_running w = true ∧ writer_wf (writer_exec w e).1.
Proof.
  intros Hw. destruct (wr_running w) eqn:Hr; [specialize (Hw eq_refl)|].
  - intros Hr'. split; [done|]. destruct e as [m|m|cs i t| | |now online wrote]; cbn in *.
    + destruct (wr_handle w); [|done]. unfold send_ping. rewrite Hr. cbn [negb].
      destruct (_ <? _)%nat eqn:E; [apply Nat.ltb_lt in E|done].
      destruct Hw. split; cbn; try done. rewrite length_app. cbn. lia.
    + destruct (wr_handle w); [|done]. unfold send_now. rewrite Hr. cbn [negb].
      destruct (_ <? _)%nat eqn:E; [apply Nat.ltb_lt in E|done].
      destruct Hw. split; cbn; try done. rewrite length_app. cbn. lia.
    + destruct (wr_handle w); [|done]. unfold send_train. rewrite Hr. destruct cs; [done|]. cbn [negb].
      destruct (_ <? _)%nat eqn:E; [apply Nat.ltb_lt in E|done].
      destruct Hw. split; cbn; try done.
      * rewrite length_app. cbn. lia.
      * by apply Forall_app_2; [|constructor].
    + by destruct Hw; split.
    + done.
    + destruct (drive_writer now online wrote w) as [w' out] eqn:Ed. cbn in *.
      eapply turn_wf; [eapply drive_kind; [by apply Hw|done|exact Ed]|done|done].
  - intros Hr'. exfalso. destruct e as [m|m|cs i t| | |now online wrote]; cbn in Hr'.
    + destruct (wr_handle w); [unfold send_ping in Hr'; rewrite Hr in Hr'|]; cbn in *; congruence.
    + destruct (wr_handle w); [unfold send_now in Hr'; rewrite Hr in Hr'|]; cbn in *; congruence.
    + destruct (wr_handle w); [unfold send_train in Hr'; rewrite Hr in Hr'; destruct cs|]; cbn in *; congruence.
    + congruence.
    + done.
    + rewrite not_running_still in Hr' by done. cbn in Hr'. congruence.
Qed.

Lemma exec_stopped e w : wr_running w = false →
  (writer_exec w e).2 = [] ∧ wr_running (writer_exec w e).1 = false ∧
  taken_ping e w = [] ∧ taken_now e w = [] ∧ taken_train e w = [].
Proof.
  intros Hr. destruct e as [m|m|cs i t| | |now online wrote]; cbn; rewrite ?Hr, ?andb_false_r; cbn; try done.
  - split_and!; try done; destruct (wr_handle w); [unfold send_ping; rewrite Hr| |unfold send_ping; rewrite Hr|]; done.
  - split_and!; try done; destruct (wr_handle w); [unfold send_now; rewrite Hr| |unfold send_now; rewrite Hr|]; done.
  - split_and!; try done; try (destruct (wr_handle w); [unfold send_train; rewrite Hr; destruct cs|]; done).
    by destruct cs.
  - by rewrite not_running_still.
Qed.

(** Running a list of events: what holds at first and is kept by every event holds at the
    end, of the events, the log and the writer. *)
Section Runs.
Context (I : list WriterEvent → list string → list string → list TrainFrame → list Wrote → BrokerWriter → Prop).
Context (H0 : I [] [] [] [] [] spawn_broker_writer).
Context (Hstep : ∀ es ps ns ts log w e, (wr_running w = true → writer_wf w) → I es ps ns ts log w →
  I (es ++ [e]) (ps ++ taken_ping e w) (ns ++ taken_now e w) (ts ++ taken_train e w)
    (log ++ (writer_exec w e).2) (writer_exec w e).1).

Lemma run_holds_from events : ∀ es ps ns ts log w, (wr_running w = true → writer_wf w) → I es ps ns ts log w →
  I (es ++ events) (ps ++ handed taken_ping events w) (ns ++ handed taken_now events w)
    (ts ++ handed taken_train events w) (log ++ (writer_run events w).2) (writer_run events w).1.
Proof using Hstep.
  induction events as [|e events IH]; intros es ps ns ts log w Hw Hi; cbn.
  - by rewrite !(right_id_L [] (++)).
  - destruct (writer_exec w e) as [w1 out] eqn:Ee. cbn. destruct (writer_run events w1) as [w2 outs] eqn:Er. cbn.
    pose proof (Hstep es ps ns ts log w e Hw Hi) as H1. rewrite Ee in H1. cbn in H1.
    assert (wr_running w1 = true → writer_wf w1) as Hw1.
    { intros Hr. pose proof (writer_exec_wf e w Hw) as Hx. rewrite Ee in Hx. by apply Hx. }
    specialize (IH _ _ _ _ _ _ Hw1 H1). rewrite Er in IH. by rewrite <- !(assoc_L (++)) in IH.
Qed.

Lemma run_holds events :
  I events (handed taken_ping events spawn_broker_writer) (handed taken_now events spawn_broker_writer)
    (handed taken_train events spawn_broker_writer) (writer_run events spawn_broker_writer).2
    (writer_run events spawn_broker_writer).1.
Proof using Hstep H0.
  apply (run_holds_from events [] [] [] [] [] spawn_broker_writer); [|exact H0]. intros _. apply writer_wf_start.
Qed.
End Runs.

(** ** Pacing *)
Definition chunks (log : list Wrote) : list Wrote := filter (λ e, is_chunk e = true) log.
Definition chunk_interval (e : Wrote) : Z := match wo_lane e with LaneChunk i => i | _ => 0 end.
Definition paced (cs : list Wrote) : Prop :=
  ∀ i a b, cs !! i = Some a → cs !! S i = Some b → wo_finished a + chunk_interval b ≤ wo_started b.

Lemma paced_snoc cs c :
  paced cs → (∀ a, last cs = Some a → wo_finished a + chunk_interval c ≤ wo_started c) → paced (cs ++ [c]).
Proof.
  intros Hp Hl i a b Ha Hb. destruct (decide (S i < length cs)%nat) as [Hi|Hi].
  - rewrite lookup_app_l in Ha, Hb by lia. by eapply Hp.
  - pose proof (lookup_lt_Some _ _ _ Hb) as Hlt. rewrite length_app in Hlt. cbn in Hlt.
    assert (S i = length cs) as Hi' by lia. rewrite Hi', lookup_app_r, Nat.sub_diag in Hb by lia. injection Hb as <-.
    apply Hl. rewrite last_lookup, <- Hi'. cbn. by rewrite lookup_app_l in Ha by lia.
Qed.

(** The log is paced, and a running writer remembers its last chunk. *)
Definition pacing_inv (log : list Wrote) (w : BrokerWriter) : Prop :=
  paced (chunks log) ∧
  (wr_running w = true → wr_last_chunk_at w = wo_finished <$> last (chunks log)).

Lemma chunks_app l1 l2 : chunks (l1 ++ l2) = (chunks l1 ++ chunks l2)%list.
Proof. apply filter_app. Qed.

Lemma chunks_ping m t f : chunks [MkWrote LanePing m t f] = [].
Proof. done. Qed.
Lemma chunks_now m t f : chunks [MkWrote LaneNow m t f] = [].
Proof. done. Qed.
Lemma chunks_nil : chunks [] = [].
Proof. done. Qed.
Lemma chunks_chunk i m t f : chunks [MkWrote (LaneChunk i) m t f] = [MkWrote (LaneChunk i) m t f].
Proof. done. Qed.

Lemma core_fields w w' : core w' = core w →
  wr_ping w' = wr_ping w ∧ wr_now w' = wr_now w ∧ wr_trains w' = wr_trains w ∧ wr_train w' = wr_train w ∧
  wr_interval w' = wr_interval w ∧ wr_watch_target w' = wr_watch_target w ∧
  wr_next_chunk_at w' = wr_next_chunk_at w ∧ wr_last_chunk_at w' = wr_last_chunk_at w.
Proof. destruct w, w'. unfold core. cbn. intros E. by simplify_eq. Qed.
Lemma core_last w w' : core w' = core w → wr_last_chunk_at w' = wr_last_chunk_at w.
Proof. by intros (_ & _ & _ & _ & _ & _ & _ & E)%core_fields. Qed.

Lemma is_due_deadline now w : is_due now w = true → ∃ d, wr_next_chunk_at w = Some d ∧ d ≤ now.
Proof. unfold is_due. destruct (wr_next_chunk_at w); [|done]. intros ?%Z.leb_le. eauto. Qed.

Lemma pacing_quiet log out w w' :
  pacing_inv log w → chunks out = [] →
  (wr_running w' = true → wr_running w = true ∧ wr_last_chunk_at w' = wr_last_chunk_at w) → pacing_inv (log ++ out) w'.
Proof.
  intros [Hp Hl] Ho Hw. unfold pacing_inv. rewrite chunks_app, Ho, (right_id_L [] (++)). split; [done|].
  intros Hr. destruct (Hw Hr) as [Hr' ->]. by apply Hl.
Qed.

Lemma pacing_turn now online wrote log w w' out :
  writer_wf w → wr_running w = true → pacing_inv log w → TurnKind now online wrote w w' out → pacing_inv (log ++ out) w'.
Proof.
  intros Hw Hr Hi Hk.
  destruct Hk as [m rest f _ Hq Hc|m rest f _ Hq Hc|m rest f _ Ht Hd Hc|p _ _ Hd Hc|frame rest Ht Hq Hc|Hc|Hr' _];
    try (eapply pacing_quiet; [exact Hi|done|]; intros ?; split; [done|]; by rewrite (core_last _ _ Hc));
    [|by eapply pacing_quiet; [exact Hi|done|congruence]].
  destruct Hi as [Hp Hl]. unfold pacing_inv.
  rewrite chunks_app, chunks_chunk, last_snoc. split; [|by rewrite (core_last _ _ Hc)].
  apply paced_snoc; [done|]. intros a Ha. cbn. destruct (is_due_deadline _ _ Hd) as (d & Hn & Hdn).
  specialize (Hl Hr). rewrite Ha in Hl. pose proof (wf_paced _ Hw d _ Hn Hl). lia.
Qed.

(** An event is a turn of a running task, or writes nothing and leaves the reply under way
    as it was. *)
Lemma exec_cases w e : (wr_running w = true → writer_wf w) →
  (∃ now online wrote, e = EvDrive now online wrote ∧ wr_running w = true ∧
     TurnKind now online wrote w (writer_exec w e).1 (writer_exec w e).2) ∨
  ((writer_exec w e).2 = [] ∧
   (wr_running (writer_exec w e).1 = true → wr_running w = true ∧ wr_last_chunk_at (writer_exec w e).1 = wr_last_chunk_at w ∧
     wr_train (writer_exec w e).1 = wr_train w ∧ wr_watch_target (writer_exec w e).1 = wr_watch_target w ∧
     wr_interval (writer_exec w e).1 = wr_interval w ∧
     wr_ping (writer_exec w e).1 = wr_ping w ++ taken_ping e w ∧ wr_now (writer_exec w e).1 = wr_now w ++ taken_now e w ∧
     wr_trains (writer_exec w e).1 = wr_trains w ++ taken_train e w))%list.
Proof.
  intros Hw. destruct (wr_running w) eqn:Hr.
  - destruct e as [m|m|cs i t| | |now online wrote];
      [right|right|right|right|right|left; exists now, online, wrote; split_and!; try done;
       apply drive_kind; [by apply Hw|done|apply surjective_pairing]].
    + unfold writer_exec, taken_ping, send_ping. rewrite Hr.
      destruct (wr_handle w), (_ <? _)%nat; cbn; rewrite ?(right_id_L [] (++)); done.
    + unfold writer_exec, taken_now, send_now. rewrite Hr.
      destruct (wr_handle w), (_ <? _)%nat; cbn; rewrite ?(right_id_L [] (++)); done.
    + unfold writer_exec, taken_train, send_train. rewrite Hr.
      destruct (wr_handle w), cs; try destruct (_ <? _)%nat; cbn; rewrite ?(right_id_L [] (++)); done.
    + cbn. by rewrite !(right_id_L [] (++)).
    + done.
  - right. destruct (exec_stopped e w Hr) as (-> & -> & _). done.
Qed.

Lemma pacing_holds events :
  pacing_inv (writer_run events spawn_broker_writer).2 (writer_run events spawn_broker_writer).1.
Proof.
  apply (run_holds (λ _ _ _ _ log w, pacing_inv log w)); [by split|].
  intros _ _ _ _ log w e Hw Hi.
  destruct (exec_cases w e Hw) as [(now & online & wrote & -> & Hr & Hk)|(-> & Hq)].
  - eapply pacing_turn; [by apply Hw|done|done|exact Hk].
  - eapply pacing_quiet; [done|done|]. naive_solver.
Qed.

(** Clocks that do not go back during a write, and replies paced by [rate] at least. *)
Definition event_ok (rate : Z) (e : WriterEvent) : Prop :=
  match e with
  | EvDrive now _ (Some finished) => now ≤ finished
  | EvTrain _ interval _ => rate ≤ interval
  | _ => True
  end.
Definition chunk_ok (rate : Z) (c : Wrote) : Prop := wo_started c ≤ wo_finished c ∧ rate ≤ chunk_interval c.

Definition rate_inv (rate : Z) (es : list WriterEvent) (log : list Wrote) (w : BrokerWriter) : Prop :=
  Forall (event_ok rate) es →
  Forall (chunk_ok rate) (chunks log) ∧
  (wr_running w = true → (wr_train w ≠ [] → rate ≤ wr_interval w) ∧ Forall (λ t, rate ≤ tf_interval t) (wr_trains w)).

Lemma taken_train_rate rate e w : event_ok rate e → Forall (λ t, rate ≤ tf_interval t) (taken_train e w).
Proof. destruct e as [| |[|c cs] i t| | |]; cbn; try constructor. intros. case_if; repeat constructor. done. Qed.

Lemma rate_holds rate events :
  rate_inv rate events (writer_run events spawn_broker_writer).2 (writer_run events spawn_broker_writer).1.
Proof.
  apply (run_holds (λ es _ _ _ log w, rate_inv rate es log w)); [by split; [constructor|split; [done|constructor]]|].
  intros es _ _ _ log w e Hw Hi [Hes He]%Forall_app. specialize (Hi Hes). destruct Hi as [Hc Hq].
  rewrite chunks_app. pose proof (Forall_inv He) as Hok.
  destruct (exec_cases w e Hw) as [(now & online & wrote & -> & Hr & Hk)|(-> & Hx)].
  - destruct (Hq Hr) as [Ht Hts].
    destruct Hk as [m rest f Hf Hp Hk|m rest f Hf Hp Hk|m rest f Hf Htr Hd Hk|p _ _ Hd Hk|frame rest Htr Hqs Hk|Hk|Hr' _];
      rewrite ?chunks_ping, ?chunks_now, ?chunks_nil, ?chunks_chunk, ?(right_id_L [] (++)); (split; [|intros Hrun; try congruence]);
      try (destruct (core_fields _ _ Hk) as (_ & _ & -> & -> & -> & _ & _ & _)); cbn; try done.
    + apply Forall_app_2; [done|]. rewrite Hf in Hok. apply Forall_cons; split; [split|by constructor].
      * exact Hok.
      * apply Ht. by rewrite Htr.
    + split; [|done]. intros _. apply Ht. by rewrite Htr.
    + rewrite Hqs in Hts. apply Forall_cons in Hts as [Hf Hts]. done.
  - rewrite chunks_nil, (right_id_L [] (++)). split; [done|]. intros Hr'.
    destruct (Hx Hr') as (Hr & _ & -> & _ & -> & _ & _ & ->). destruct (Hq Hr) as [Ht Hts].
    split; [done|]. apply Forall_app_2; [done|]. by apply taken_train_rate.
Qed.

Lemma paced_rate rate cs : 0 ≤ rate → Forall (chunk_ok rate) cs → paced cs →
  ∀ k i a b, cs !! i = Some a → cs !! (i + S k)%nat = Some b → wo_finished a + (Z.of_nat k + 1) * rate ≤ wo_started b.
Proof.
  intros Hr Hok Hp. induction k as [|k IH]; intros i a b Ha Hb.
  - rewrite Nat.add_1_r in Hb. pose proof (Hp i a b Ha Hb).
    destruct (proj1 (Forall_lookup _ _) Hok _ _ Hb). lia.
  - destruct (lookup_lt_is_Some_2 cs (i + S k)%nat) as [c Hc]; [apply lookup_lt_Some in Hb; lia|].
    specialize (IH i a c Ha Hc). pose proof (Hp _ _ b Hc) as Hpc. rewrite <- plus_n_Sm, <- plus_n_Sm in Hb.
    rewrite <- plus_n_Sm in Hpc. specialize (Hpc Hb).
    destruct (proj1 (Forall_lookup _ _) Hok _ _ Hb), (proj1 (Forall_lookup _ _) Hok _ _ Hc). lia.
Qed.

(** Replies are paced, across replies and not only within one.  Whatever is handed over,
    refused, abandoned or interleaved, when every reply asks for [rate] between its chunks,
    the chunk written [k + 1] chunks after another starts at least [k + 1] times [rate] after
    that one was finished, whether the two belong to one reply or to different ones. *)
Theorem chunks_are_paced rate events : 0 ≤ rate → Forall (event_ok rate) events →
  let cs := chunks (writer_run events spawn_broker_writer).2 in
  ∀ i k a b, cs !! i = Some a → cs !! (i + S k)%nat = Some b →
  wo_finished a + (Z.of_nat k + 1) * rate ≤ wo_started b.
Proof.
  intros Hr Hok cs i k. apply paced_rate; [done|by apply (rate_holds rate events)|apply (pacing_holds events)].
Qed.

(** ** Order *)
(** What a lane took on is what it wrote and what it still holds. *)
Definition lane_inv (p : Wrote → bool) (queue : BrokerWriter → list string) (taken : list string) (log : list Wrote)
    (w : BrokerWriter) : Prop :=
  ∃ rest, taken = (written p log ++ rest)%list ∧ (wr_running w = true → rest = queue w).

Lemma lane_quiet p queue taken log out w w' :
  lane_inv p queue taken log w → written p out = [] →
  (wr_running w' = true → wr_running w = true ∧ queue w' = queue w) → lane_inv p queue taken (log ++ out) w'.
Proof.
  intros (rest & -> & Hq) Ho Hw. exists rest. rewrite written_app, Ho, (right_id_L [] (++)). split; [done|].
  intros Hr. destruct (Hw Hr) as [Hr' ->]. auto.
Qed.
Lemma lane_wrote p queue taken log m rest w w' t f l :
  lane_inv p queue taken log w → wr_running w = true → queue w = m :: rest → queue w' = rest →
  p (MkWrote l m t f) = true → lane_inv p queue taken (log ++ [MkWrote l m t f]) w'.
Proof.
  intros (rest' & -> & Hq) Hr Hm Hm' Hp. exists rest. rewrite written_app. rewrite (Hq Hr), Hm. split; [|done].
  unfold written at 3. rewrite filter_cons_True by done. by rewrite <- (assoc_L (++)).
Qed.
Lemma lane_took p queue taken more log w w' :
  lane_inv p queue taken log w → (wr_running w' = true → wr_running w = true ∧ queue w' = (queue w ++ more)%list) →
  lane_inv p queue (taken ++ more) log w'.
Proof.
  intros (rest & -> & Hq) Hw. exists (rest ++ more)%list. rewrite (assoc_L (++)). split; [done|].
  intros Hr. destruct (Hw Hr) as [Hr' ->]. by rewrite Hq.
Qed.

Lemma lanes_hold events :
  lane_inv is_ping wr_ping (handed taken_ping events spawn_broker_writer)
    (writer_run events spawn_broker_writer).2 (writer_run events spawn_broker_writer).1 ∧
  lane_inv is_now wr_now (handed taken_now events spawn_broker_writer)
    (writer_run events spawn_broker_writer).2 (writer_run events spawn_broker_writer).1.
Proof.
  apply (run_holds (λ _ ps ns _ log w, lane_inv is_ping wr_ping ps log w ∧ lane_inv is_now wr_now ns log w));
    [by split; exists []|].
  intros _ ps ns _ log w e Hw [Hp Hn]. destruct (exec_cases w e Hw) as [(now & online & wrote & -> & Hr & Hk)|(-> & Hx)].
  - cbn [taken_ping taken_now]. rewrite !(right_id_L [] (++)).
    destruct Hk as [m rest f Hf Hq Hk|m rest f Hf Hq Hk|m rest f Hf Ht Hd Hk|p _ _ Hd Hk|frame rest Ht Hq Hk|Hk|Hr' _];
      try (destruct (core_fields _ _ Hk) as (Ep & En & _));
      (split; [try (eapply lane_quiet; [exact Hp|done|]; first [congruence | intros _; split; [done|]; by rewrite Ep])
              |try (eapply lane_quiet; [exact Hn|done|]; first [congruence | intros _; split; [done|]; by rewrite En])]).
    + eapply lane_wrote; [exact Hp|done|exact Hq|by rewrite Ep|done].
    + eapply lane_wrote; [exact Hn|done|exact Hq|by rewrite En|done].
  - rewrite !(right_id_L [] (++)). split; (eapply lane_took; [done|]); naive_solver.
Qed.

(** ** Replies *)
Definition under_way (w : BrokerWriter) (cur : option (TrainFrame * nat)) : Prop :=
  match cur with
  | None => wr_train w = []
  | Some (f, k) => wr_train w = drop k (tf_chunks f) ∧ wr_train w ≠ [] ∧ wr_watch_target w = tf_watch_target f
  end.
Definition reply_inv (es : list WriterEvent) (taken : list TrainFrame) (log : list Wrote) (w : BrokerWriter) : Prop :=
  ∃ replies cur later,
    taken = (map fst replies ++ (fst <$> option_list cur) ++ later)%list ∧
    written is_chunk log = concat (map sent_part (replies ++ option_list cur)) ∧
    Forall (settled es) replies ∧
    (wr_running w = true → later = wr_trains w ∧ under_way w cur).

Lemma settled_more es e r : settled es r → settled (es ++ [e]) r.
Proof.
  intros [H|(p & Hp & now & online & wrote & He & Ho)]; [by left|right]. exists p. split; [done|].
  exists now, online, wrote. split; [|done]. set_solver.
Qed.
Lemma settled_more_all es e rs : Forall (settled es) rs → Forall (settled (es ++ [e])) rs.
Proof. intros H. eapply Forall_impl; [exact H|]. intros r. apply settled_more. Qed.

Lemma reply_quiet es e taken log out w w' :
  reply_inv es taken log w → written is_chunk out = [] →
  (wr_running w' = true → wr_running w = true ∧ wr_trains w' = wr_trains w ∧ wr_train w' = wr_train w ∧
     wr_watch_target w' = wr_watch_target w) →
  reply_inv (es ++ [e]) taken (log ++ out) w'.
Proof.
  intros (rs & cur & later & -> & Hs & Hd & Hq) Ho Hw. exists rs, cur, later.
  rewrite written_app, Ho, (right_id_L [] (++)). split_and!; [done|done|by apply settled_more_all|].
  intros Hr. destruct (Hw Hr) as (Hr' & -> & Ht & Hwt). destruct (Hq Hr') as [-> Hu]. split; [done|].
  unfold under_way in *. destruct cur as [[f k]|]; by rewrite ?Ht, ?Hwt.
Qed.

Lemma sent_part_S f k m rest : drop k (tf_chunks f) = m :: rest → sent_part (f, S k) = (sent_part (f, k) ++ [m])%list.
Proof.
  intros Hd. unfold sent_part. cbn [fst snd]. apply take_S_r. rewrite <- (Nat.add_0_r k), <- lookup_drop. by rewrite Hd.
Qed.

Lemma reply_chunk es e taken log w w' m rest t f i :
  reply_inv es taken log w → wr_running w = true → wr_train w = m :: rest →
  wr_train w' = rest → wr_trains w' = wr_trains w → wr_watch_target w' = wr_watch_target w →
  reply_inv (es ++ [e]) taken (log ++ [MkWrote (LaneChunk i) m t f]) w'.
Proof.
  intros (rs & cur & later & -> & Hs & Hd & Hq) Hr Ht Ht' Hts Hwt. destruct (Hq Hr) as [-> Hu].
  destruct cur as [[fr k]|]; cbn in Hu; [|congruence]. destruct Hu as (Hdr & _ & Hw). rewrite Ht in Hdr.
  symmetry in Hdr. pose proof (sent_part_S _ _ _ _ Hdr) as HS.
  assert (drop (S k) (tf_chunks fr) = rest) as HdS.
  { rewrite <- Nat.add_1_r, <- drop_drop. by rewrite Hdr. }
  assert (written is_chunk (log ++ [MkWrote (LaneChunk i) m t f]) = concat (map sent_part (rs ++ [(fr, S k)]))) as Hs'.
  { rewrite written_app, Hs. cbn [option_list option_rect]. rewrite !map_app, !concat_app. cbn [map concat].
    rewrite HS, !(right_id_L [] (++)). by rewrite <- (assoc_L (++)). }
  destruct rest as [|m' rest'].
  - exists (rs ++ [(fr, S k)])%list, None, (wr_trains w). cbn [option_list option_rect].
    split_and!; [by rewrite map_app, <- (assoc_L (++))|by rewrite (right_id_L [] (++) (rs ++ _)%list)| |].
    + apply Forall_app_2; [by apply settled_more_all|]. constructor; [|constructor]. left. cbn.
      apply (f_equal length) in HdS, Hdr. rewrite length_drop in HdS, Hdr. cbn in HdS, Hdr. lia.
    + intros _. split; [done|exact Ht'].
  - exists rs, (Some (fr, S k)), (wr_trains w). split_and!; [done|done|by apply settled_more_all|].
    intros _. split; [done|]. cbn. rewrite Ht', HdS, Hwt. done.
Qed.

Lemma reply_abandon es taken log w w' now online wrote p :
  reply_inv es taken log w → wr_running w = true → wr_train w ≠ [] → wr_watch_target w = Some p → online p = false →
  wr_train w' = [] → wr_trains w' = wr_trains w → reply_inv (es ++ [EvDrive now online wrote]) taken log w'.
Proof.
  intros (rs & cur & later & -> & Hs & Hd & Hq) Hr Ht Hp Ho Ht' Hts. destruct (Hq Hr) as [-> Hu].
  destruct cur as [[fr k]|]; cbn in Hu; [|done]. destruct Hu as (_ & _ & Hw).
  exists (rs ++ [(fr, k)])%list, None, (wr_trains w). cbn [option_list option_rect].
  split_and!; [by rewrite map_app, <- (assoc_L (++))|by rewrite (right_id_L [] (++) (rs ++ _)%list)| |done].
  apply Forall_app_2; [by apply settled_more_all|]. constructor; [|constructor]. right. exists p. cbn.
  split; [congruence|]. exists now, online, wrote. split; [set_solver|done].
Qed.

Lemma reply_accept es e taken log w w' frame rest :
  reply_inv es taken log w → wr_running w = true → wr_train w = [] → wr_trains w = frame :: rest → tf_chunks frame ≠ [] →
  wr_train w' = tf_chunks frame → wr_trains w' = rest → wr_watch_target w' = tf_watch_target frame →
  reply_inv (es ++ [e]) taken log w'.
Proof.
  intros (rs & cur & later & -> & Hs & Hd & Hq) Hr Ht Hts Hne Ht' Hts' Hw. destruct (Hq Hr) as [-> Hu].
  destruct cur as [[fr k]|]; cbn in Hu; [naive_solver|]. exists rs, (Some (frame, 0%nat)), rest. rewrite Hts.
  split_and!; [done| |by apply settled_more_all|].
  - rewrite Hs. cbn [option_list option_rect]. rewrite !map_app, !concat_app. cbn. by rewrite take_0.
  - intros _. split; [done|]. cbn. by rewrite Ht', Hw.
Qed.

Lemma replies_hold events :
  reply_inv events (handed taken_train events spawn_broker_writer)
    (writer_run events spawn_broker_writer).2 (writer_run events spawn_broker_writer).1.
Proof.
  apply (run_holds (λ es _ _ ts log w, reply_inv es ts log w)); [by exists [], None, []|].
  intros es _ _ ts log w e Hw Hi. destruct (exec_cases w e Hw) as [(now & online & wrote & -> & Hr & Hk)|(-> & Hx)].
  - cbn [taken_train]. rewrite !(right_id_L [] (++)). specialize (Hw Hr).
    destruct Hk as [m rest f Hf Hq Hk|m rest f Hf Hq Hk|m rest f Hf Ht Hd Hk|p Hp Ho Hd Hk|frame rest Ht Hq Hk|Hk|Hr' _];
      try (destruct (core_fields _ _ Hk) as (_ & _ & Ets & Et & _ & Ew & _));
      try (eapply reply_quiet; [exact Hi|done|]; first [congruence | by intros _]).
    + by eapply reply_chunk.
    + rewrite (right_id_L [] (++)). eapply reply_abandon; try done.
      destruct (is_due_train _ _ (wf_scheduled _ Hw) Hd) as (m & rest & ->). done.
    + rewrite (right_id_L [] (++)). pose proof (wf_chunks _ Hw) as Hc. rewrite Hq in Hc. apply Forall_inv in Hc.
      eapply reply_accept; try done. rewrite Et. cbn. by rewrite Ht.
  - rewrite (right_id_L [] (++)). destruct Hi as (rs & cur & later & -> & Hs & Hd & Hq).
    exists rs, cur, (later ++ taken_train e w)%list. rewrite <- !(assoc_L (++)).
    split_and!; [done|done|by apply settled_more_all|]. intros Hr'.
    destruct (Hx Hr') as (Hr & _ & Ht & Hwt & _ & _ & _ & Hts). destruct (Hq Hr) as [-> Hu]. split; [done|].
    unfold under_way in *. destruct cur as [[f k]|]; by rewrite ?Ht, ?Hwt.
Qed.

Lemma wf_holds events :
  wr_running (writer_run events spawn_broker_writer).1 = true → writer_wf (writer_run events spawn_broker_writer).1.
Proof.
  apply (run_holds (λ _ _ _ _ _ w, wr_running w = true → writer_wf w)); [intros _; apply writer_wf_start|].
  intros _ _ _ _ _ w e Hw _ Hr. by apply writer_exec_wf.
Qed.

(** C33: frames leave in the order they were handed over, and replies whole.  Of the pings,
    and of the ordinary frames, the writer took on, it has written the first ones in order
    and holds the rest.  Of the replies it took on, in order, each was written in full before
    the next began, unless its surface, which was present when it was queued, was seen to be
    away; one at most is under way and one at most is waiting, so a reply is never cut for a
    surface that is there, and the backlog is bounded. *)
Theorem frames_leave_in_order events :
  let w := (writer_run events spawn_broker_writer).1 in let log := (writer_run events spawn_broker_writer).2 in
  lane_inv is_ping wr_ping (handed taken_ping events spawn_broker_writer) log w ∧
  lane_inv is_now wr_now (handed taken_now events spawn_broker_writer) log w ∧
  reply_inv events (handed taken_train events spawn_broker_writer) log w ∧
  (wr_running w = true → (length (wr_ping w) ≤ PING_QUEUE_CAPACITY)%nat ∧ (length (wr_now w) ≤ NOW_QUEUE_CAPACITY)%nat ∧
     (length (wr_trains w) ≤ TRAIN_QUEUE_CAPACITY)%nat).
Proof.
  cbn zeta. destruct (lanes_hold events) as [Hp Hn]. split_and!; [done|done|apply replies_hold|].
  intros Hr. by destruct (wf_holds events Hr).
Qed.

(** ** The end *)
(** The task on its own: no more is handed over, every surface is there, writes succeed at
    once, and it sleeps until the next chunk is due. *)
Fixpoint drain (fuel : nat) (now : Z) (w : BrokerWriter) : BrokerWriter * list Wrote :=
  match fuel with
  | O => (w, [])
  | S fuel =>
      let now := match wr_next_chunk_at w with Some d => Z.max now d | None => now end in
      let '(w, out) := drive_writer now (λ _, true) (Some now) w in
      let '(w, outs) := drain fuel now w in (w, out ++ outs)%list
  end.
Definition work (w : BrokerWriter) : nat :=
  (length (wr_ping w) + length (wr_now w) + length (wr_train w) +
   sum_list_with (λ t, S (length (tf_chunks t))) (wr_trains w))%nat.
Definition turns (w : BrokerWriter) : nat := (2 * work w + (if wr_waiting w then 1 else 0) + 1)%nat.

(** The chunks the writer holds. *)
Definition held_chunks (w : BrokerWriter) : list string := (wr_train w ++ concat (map tf_chunks (wr_trains w)))%list.
Definition gives (w : BrokerWriter) (out : list Wrote) (w' : BrokerWriter) : Prop :=
  wr_ping w = (written is_ping out ++ wr_ping w')%list ∧ wr_now w = (written is_now out ++ wr_now w')%list ∧
  held_chunks w = (written is_chunk out ++ held_chunks w')%list.

(** With every surface there and writes succeeding, a turn writes or takes on something, or
    changes no lane. *)
Lemma alone_kind now f w w' out :
  TurnKind now (λ _, true) (Some f) w w' out → gives w out w' ∧ ((work w' < work w)%nat ∨ core w' = core w ∧ out = []).
Proof.
  intros [m rest f' _ Hq Hk|m rest f' _ Hq Hk|m rest f' _ Ht Hd Hk|p _ Ho _ _|frame rest Ht Hq Hk|Hk|_ Hl]; try done;
    destruct (core_fields _ _ Hk) as (Ep & En & Ets & Et & _); unfold gives, work, held_chunks;
    rewrite Ep, En, Ets, Et; cbn; rewrite ?Hq, ?Ht; cbn; (split; [done|]); first [by right | left; rewrite ?length_app; lia].
Qed.

Lemma work_core w w' : (work w' < work w)%nat → core w' ≠ core w.
Proof. intros Hl (Ep & En & Ets & Et & _)%core_fields. unfold work in Hl. rewrite Ep, En, Ets, Et in Hl. lia. Qed.

Lemma alone_flags now w : scheduled w → wr_running w = true → wr_handle w = false →
  match wr_next_chunk_at w with Some d => d ≤ now | None => True end →
  let w' := (drive_writer now (λ _, true) (Some now) w).1 in
  wr_handle w' = false ∧
  (wr_running w' = true ∧ wr_waiting w' = false ∧ (wr_waiting w = false → (work w' < work w)%nat) ∨
   wr_running w' = false ∧ work w = 0%nat ∧ core w' = core w).
Proof.
  intros Hs Hr Hh Hd. unfold drive_writer. rewrite Hr. cbn [negb]. destruct (wr_waiting w) eqn:Hwt.
  - unfold loop_wait, recv_ping, recv_now, recv_train. rewrite Hh.
    destruct (wr_next_chunk_at w) as [d|]; [rewrite (proj2 (Z.leb_le _ _) Hd)|];
      destruct (wr_ping w), (wr_now w), (wr_trains w), (wr_now_closed w), (wr_train_closed w);
      cbn; split; try done; left; split_and!; done.
  - unfold loop_top. destruct (wr_ping w) as [|m rest] eqn:Ep.
    2: { cbn. split; [done|]. left. split_and!; try done. intros _. unfold work. cbn. rewrite Ep. cbn. lia. }
    destruct (is_due now w) eqn:Edue.
    { destruct (is_due_train _ _ Hs Edue) as (m & rest & Ht). unfold due_chunk, write_chunk. rewrite Ht.
      destruct (wr_watch_target w); cbn; (split; [done|]); left; split_and!; try done; intros _;
        unfold work; rewrite Ht; cbn; lia. }
    assert (wr_train w = [] ∧ wr_next_chunk_at w = None) as [Et En].
    { unfold is_due in Edue. destruct (wr_next_chunk_at w) as [d|] eqn:En; [apply Z.leb_gt in Edue; lia|]. split; [by apply Hs|done]. }
    rewrite Et. destruct (wr_trains w) as [|frame rest] eqn:Ets.
    2: { cbn. split; [done|]. left. split_and!; try done. intros _. unfold work. cbn. rewrite Et, Ets. cbn. lia. }
    unfold closed. rewrite Hh. cbn [negb andb]. unfold ordinary, closed. cbn. destruct (wr_now w) as [|m rest] eqn:Eo.
    + rewrite Hh. cbn. rewrite En. cbn. split; [done|]. right. unfold work. by rewrite Ep, Eo, Et, Ets.
    + cbn. split; [done|]. left. split_and!; try done. intros _. unfold work. cbn. rewrite Eo. cbn. lia.
Qed.

Lemma drain_done fuel : ∀ now w, (turns w ≤ fuel)%nat → writer_wf w → wr_running w = true → wr_handle w = false →
  let '(w', log) := drain fuel now w in
  wr_running w' = false ∧ written is_ping log = wr_ping w ∧ written is_now log = wr_now w ∧ written is_chunk log = held_chunks w.
Proof.
  induction fuel as [|fuel IH]; intros now w Hf Hw Hr Hh; [unfold turns in Hf; lia|]. cbn.
  set (now' := match wr_next_chunk_at w with Some d => Z.max now d | None => now end).
  assert (match wr_next_chunk_at w with Some d => d ≤ now' | None => True end) as Hd
    by (unfold now'; destruct (wr_next_chunk_at w); lia).
  destruct (alone_flags now' w (wf_scheduled _ Hw) Hr Hh Hd) as [Hh' Hflags].
  destruct (drive_writer now' (λ _, true) (Some now') w) as [w1 out] eqn:Ed. cbn in Hh', Hflags.
  pose proof (drive_kind _ _ _ _ _ _ (wf_scheduled _ Hw) Hr Ed) as Hk.
  destruct (alone_kind _ _ _ _ _ Hk) as [(Gp & Gn & Gc) Hwork].
  destruct Hflags as [(Hr1 & Hwt & Hlt)|(Hr1 & H0 & Hc)].
  - assert (turns w1 ≤ fuel)%nat as Hf1.
    { unfold turns in *. rewrite Hwt. destruct Hwork as [Hl|[(Ep & En & Ets & Et & _)%core_fields _]]; [lia|].
      assert (work w1 = work w) as E by (unfold work; by rewrite Ep, En, Ets, Et).
      destruct (wr_waiting w); [lia|]. specialize (Hlt eq_refl). lia. }
    specialize (IH now' w1 Hf1 (turn_wf _ _ _ _ _ _ Hk Hw Hr1) Hr1 Hh').
    destruct (drain fuel now' w1) as [w2 outs]. destruct IH as (Hr2 & Hp & Hn & Hcs).
    rewrite !written_app, Hp, Hn, Hcs. done.
  - assert (drain fuel now' w1 = (w1, [])) as ->.
    { clear -Hr1. generalize now'. induction fuel as [|fuel IH]; intros t; [done|]. cbn.
      rewrite not_running_still by done. cbn. by rewrite IH. }
    destruct (core_fields _ _ Hc) as (Ep & En & Ets & Et & _). rewrite Ep in Gp. rewrite En in Gn.
    unfold held_chunks in *. rewrite Ets, Et in Gc.
    rewrite (right_id_L [] (++)). unfold work in H0.
    destruct (wr_ping w), (wr_now w), (wr_train w), (wr_trains w); try (cbn in H0; lia).
    cbn in Gp, Gn, Gc. rewrite (right_id_L [] (++)) in Gp, Gn, Gc. rewrite <- Gp, <- Gn, <- Gc. done.
Qed.

(** A writer that is let go of finishes.  When the handle of a running writer is dropped,
    whatever happened before, and from then on the socket takes what it is given and the
    surfaces stay, the task ends after at most two turns for each frame and reply it holds,
    and has written every frame it took on: the pings, the ordinary frames, the rest of the
    reply under way and the reply that waited, each lane in order. *)
Theorem accepted_frames_leave events now :
  let w := (writer_run events spawn_broker_writer).1 in
  wr_running w = true → wr_handle w = false →
  let '(w', log) := drain (2 * work w + 2) now w in
  wr_running w' = false ∧ written is_ping log = wr_ping w ∧ written is_now log = wr_now w ∧
  written is_chunk log = held_chunks w.
Proof.
  intros w Hr Hh. apply drain_done; try done.
  - unfold turns. destruct (wr_waiting w); lia.
  - by apply wf_holds.
Qed.

(** Two replies of two chunks; an ordinary frame and a ping go out between their chunks. *)
Definition example_events : list WriterEvent :=
  [EvTrain ["a1"; "a2"] 50 (Some "peer"); EvDrive 0 (λ _, true) (Some 0); EvTrain ["b1"; "b2"] 50 None;
   EvDrive 0 (λ _, true) (Some 3); EvNow "n"; EvDrive 4 (λ _, true) (Some 5); EvPing "p"; EvDrive 6 (λ _, true) (Some 6);
   EvDrive 7 (λ _, true) (Some 7); EvDrive 53 (λ _, true) (Some 53); EvDrive 53 (λ _, true) (Some 60);
   EvDrive 61 (λ _, true) (Some 61); EvDrive 61 (λ _, true) (Some 61); EvDrive 110 (λ _, true) (Some 110);
   EvDrive 110 (λ _, true) (Some 111); EvDropHandle].

Lemma chunks_are_paced_witness :
  wo_message <$> (writer_run example_events spawn_broker_writer).2 = ["a1"; "n"; "p"; "a2"; "b1"] ∧
  ∀ a b, chunks (writer_run example_events spawn_broker_writer).2 !! 0%nat = Some a →
    chunks (writer_run example_events spawn_broker_writer).2 !! 2%nat = Some b → wo_finished a + 100 ≤ wo_started b.
Proof.
  split; [vm_compute; reflexivity|]. intros a b Ha Hb.
  refine (chunks_are_paced 50 example_events _ _ 0%nat 1%nat a b Ha Hb); [lia|].
  repeat constructor; cbn; lia.
Defined.

Lemma accepted_frames_leave_witness :
  let '(w', log) := drain (2 * work (writer_run example_events spawn_broker_writer).1 + 2) 200
                      (writer_run example_events spawn_broker_writer).1 in
  wr_running w' = false ∧ written is_chunk log = ["b2"].
Proof.
  pose proof (accepted_frames_leave example_events 200 eq_refl eq_refl) as H. cbn zeta in H.
  destruct (drain _ _ _) as [w' log]. destruct H as (Hr & _ & _ & Hc). split; [exact Hr|]. rewrite Hc. vm_compute. reflexivity.
Defined.
