(* ===== verification/RemoteRequest.v ===== *)
(** * What a remote surface may ask (crates/relay-server/src/broker/remote_actions.rs)

    The forty remote actions, their requests, the device a request is bound to before it is
    executed, and the tables that say how each action is treated.  An input is the device id
    it names and the rest of it, which the channel passes on unread. *)

From Stdlib Require Import ZArith Lia.
From S2P Require Import Prelude RustStr Json.

Open Scope string_scope.
Open Scope Z_scope.

Inductive RemoteActionKind : Type :=
  | KClaimChallenge | KClaimDevice | KStartSession | KForkSession | KResumeSession | KUpdateSessionSettings
  | KSendMessage | KStopTurn | KTakeOver | KHeartbeat | KWatchThreads | KListProviders | KListThreads
  | KListProviderModels | KFetchThreadEntries | KFetchThreadEntryDetail | KFetchThreadTranscript
  | KDecideApproval | KApplyFileChange | KProjectAction | KRenameThread | KRepairWorkspace
  | KFetchWorkspaceDiff | KFetchWorkspaceGitContext | KFetchThreadWorkspace | KSetThreadWorkspace
  | KFetchThreadSettings | KFetchReviews | KFetchWorkflows | KFetchDevices | KFetchProjects
  | KFetchAskUserQuestionDetail | KSubmitAskUserAnswer | KRequestReview | KStartWorkflow | KResolveReview
  | KResolveWorkflow | KDeleteReview | KRegisterPushSubscription | KUnregisterPushSubscription.
#[export] Instance RemoteActionKind_eq_dec : EqDecision RemoteActionKind.
Proof. solve_decision. Defined.

Definition action_kind_as_str (k : RemoteActionKind) : string :=
  match k with
  | KClaimChallenge => "claim_challenge" | KClaimDevice => "claim_device" | KStartSession => "start_session"
  | KForkSession => "fork_session" | KResumeSession => "resume_session" | KUpdateSessionSettings => "update_session_settings"
  | KSendMessage => "send_message" | KStopTurn => "stop_turn" | KTakeOver => "take_over"
  | KHeartbeat => "heartbeat" | KWatchThreads => "watch_threads" | KListProviders => "list_providers"
  | KListThreads => "list_threads" | KListProviderModels => "list_provider_models" | KFetchThreadEntries => "fetch_thread_entries"
  | KFetchThreadEntryDetail => "fetch_thread_entry_detail" | KFetchThreadTranscript => "fetch_thread_transcript" | KDecideApproval => "decide_approval"
  | KApplyFileChange => "apply_file_change" | KProjectAction => "project_action" | KRenameThread => "rename_thread"
  | KRepairWorkspace => "repair_workspace" | KFetchWorkspaceDiff => "fetch_workspace_diff" | KFetchWorkspaceGitContext => "fetch_workspace_git_context"
  | KFetchThreadWorkspace => "fetch_thread_workspace" | KSetThreadWorkspace => "set_thread_workspace" | KFetchThreadSettings => "fetch_thread_settings"
  | KFetchReviews => "fetch_reviews" | KFetchWorkflows => "fetch_workflows" | KFetchDevices => "fetch_devices"
  | KFetchProjects => "fetch_projects" | KFetchAskUserQuestionDetail => "fetch_ask_user_question_detail" | KSubmitAskUserAnswer => "submit_ask_user_answer"
  | KRequestReview => "request_review" | KStartWorkflow => "start_workflow" | KResolveReview => "resolve_review"
  | KResolveWorkflow => "resolve_workflow" | KDeleteReview => "delete_review" | KRegisterPushSubscription => "register_push_subscription"
  | KUnregisterPushSubscription => "unregister_push_subscription"
  end.

(** ** Requests *)
Record ActionInput : Type := MkInput { in_device_id : option string; in_rest : json }.
#[export] Instance ActionInput_expand : Expand ActionInput := λ i, MkInput (in_device_id i) (in_rest i).

Record ThreadsQuery : Type := MkQuery {
  tq_limit : option Z; tq_device_id : option string; tq_q : option string; tq_ids : option string
}.
#[export] Instance ThreadsQuery_expand : Expand ThreadsQuery := λ q,
  MkQuery (tq_limit q) (tq_device_id q) (tq_q q) (tq_ids q).

Inductive RemoteActionRequest : Type :=
| ClaimChallenge (proof : string)
| ClaimDevice (challenge_id proof : string)
| StartSession (input : ActionInput)
| ForkSession (input : ActionInput)
| ResumeSession (input : ActionInput)
| UpdateSessionSettings (input : ActionInput)
| SendMessage (input : ActionInput)
| StopTurn (input : ActionInput)
| TakeOver (input : ActionInput)
| Heartbeat (input : ActionInput)
| WatchThreads (input : ActionInput)
| ListProviders
| ListThreads (query : ThreadsQuery)
| ListProviderModels (provider : string)
| FetchThreadEntries (input : ActionInput)
| FetchThreadEntryDetail (input : ActionInput)
| FetchThreadTranscript (input : ActionInput)
| DecideApproval (request_id : string) (input : ActionInput)
| ApplyFileChange (item_id : string) (input : ActionInput)
| ProjectAction (input : ActionInput)
| RenameThread (thread_id : string) (input : ActionInput)
| RepairWorkspace (thread_id : string) (input : ActionInput)
| FetchWorkspaceDiff (device_id : option string) (thread_id : option string) (view_root : option string)
| FetchWorkspaceGitContext (device_id : option string) (cwd : option string)
| FetchThreadWorkspace (device_id : option string) (thread_id : string) (roots_status : bool)
| SetThreadWorkspace (device_id : option string) (input : ActionInput)
| FetchThreadSettings (device_id : option string) (thread_id : string)
| FetchReviews (device_id : option string)
| FetchWorkflows (device_id : option string)
| FetchDevices (device_id : option string)
| FetchProjects (device_id : option string)
| FetchAskUserQuestionDetail (device_id : option string) (request_id : string)
| SubmitAskUserAnswer (request_id : string) (input : ActionInput)
| RequestReview (input : ActionInput)
| StartWorkflow (input : ActionInput)
| ResolveReview (device_id : option string) (review_job_id : option string)
| ResolveWorkflow (device_id : option string) (workflow_run_id : option string)
| DeleteReview (device_id : option string) (review_id : string)
| RegisterPushSubscription (input : ActionInput)
| UnregisterPushSubscription (device_id : option string) (endpoint : string).

Definition request_kind (r : RemoteActionRequest) : RemoteActionKind :=
  match r with
  | ClaimChallenge _ => KClaimChallenge | ClaimDevice _ _ => KClaimDevice | StartSession _ => KStartSession
  | ForkSession _ => KForkSession | ResumeSession _ => KResumeSession
  | UpdateSessionSettings _ => KUpdateSessionSettings | SendMessage _ => KSendMessage
  | StopTurn _ => KStopTurn | TakeOver _ => KTakeOver | Heartbeat _ => KHeartbeat
  | WatchThreads _ => KWatchThreads | ListProviders => KListProviders | ListThreads _ => KListThreads
  | ListProviderModels _ => KListProviderModels | FetchThreadEntries _ => KFetchThreadEntries
  | FetchThreadEntryDetail _ => KFetchThreadEntryDetail | FetchThreadTranscript _ => KFetchThreadTranscript
  | DecideApproval _ _ => KDecideApproval | ApplyFileChange _ _ => KApplyFileChange
  | ProjectAction _ => KProjectAction | RenameThread _ _ => KRenameThread
  | RepairWorkspace _ _ => KRepairWorkspace | FetchWorkspaceDiff _ _ _ => KFetchWorkspaceDiff
  | FetchWorkspaceGitContext _ _ => KFetchWorkspaceGitContext
  | FetchThreadWorkspace _ _ _ => KFetchThreadWorkspace | SetThreadWorkspace _ _ => KSetThreadWorkspace
  | FetchThreadSettings _ _ => KFetchThreadSettings | FetchReviews _ => KFetchReviews
  | FetchWorkflows _ => KFetchWorkflows | FetchDevices _ => KFetchDevices | FetchProjects _ => KFetchProjects
  | FetchAskUserQuestionDetail _ _ => KFetchAskUserQuestionDetail
  | SubmitAskUserAnswer _ _ => KSubmitAskUserAnswer | RequestReview _ => KRequestReview
  | StartWorkflow _ => KStartWorkflow | ResolveReview _ _ => KResolveReview
  | ResolveWorkflow _ _ => KResolveWorkflow | DeleteReview _ _ => KDeleteReview
  | RegisterPushSubscription _ => KRegisterPushSubscription
  | UnregisterPushSubscription _ _ => KUnregisterPushSubscription
  end.

Definition bind_device (device_id : string) (r : RemoteActionRequest) : RemoteActionRequest :=
  let stamp (i : ActionInput) := i <| in_device_id := Some device_id |> in
  match r with
  | StartSession input => StartSession (stamp input)
  | ForkSession input => ForkSession (stamp input)
  | ResumeSession input => ResumeSession (stamp input)
  | UpdateSessionSettings input => UpdateSessionSettings (stamp input)
  | SendMessage input => SendMessage (stamp input)
  | StopTurn input => StopTurn (stamp input)
  | TakeOver input => TakeOver (stamp input)
  | Heartbeat input => Heartbeat (stamp input)
  | WatchThreads input => WatchThreads (stamp input)
  | ListThreads query => ListThreads (query <| tq_device_id := Some device_id |>)
  | FetchThreadEntries input => FetchThreadEntries (stamp input)
  | FetchThreadEntryDetail input => FetchThreadEntryDetail (stamp input)
  | FetchThreadTranscript input => FetchThreadTranscript (stamp input)
  | DecideApproval request_id input => DecideApproval request_id (stamp input)
  | ApplyFileChange item_id input => ApplyFileChange item_id (stamp input)
  | ProjectAction input => ProjectAction (stamp input)
  | RenameThread thread_id input => RenameThread thread_id (stamp input)
  | RepairWorkspace thread_id input => RepairWorkspace thread_id (stamp input)
  | FetchWorkspaceDiff _ thread_id view_root => FetchWorkspaceDiff (Some device_id) thread_id view_root
  | FetchWorkspaceGitContext _ cwd => FetchWorkspaceGitContext (Some device_id) cwd
  | FetchThreadWorkspace _ thread_id roots_status => FetchThreadWorkspace (Some device_id) thread_id roots_status
  | SetThreadWorkspace _ input => SetThreadWorkspace (Some device_id) (stamp input)
  | FetchThreadSettings _ thread_id => FetchThreadSettings (Some device_id) thread_id
  | FetchReviews _ => FetchReviews (Some device_id)
  | FetchWorkflows _ => FetchWorkflows (Some device_id)
  | FetchDevices _ => FetchDevices (Some device_id)
  | FetchProjects _ => FetchProjects (Some device_id)
  | FetchAskUserQuestionDetail _ request_id => FetchAskUserQuestionDetail (Some device_id) request_id
  | SubmitAskUserAnswer request_id input => SubmitAskUserAnswer request_id (stamp input)
  | RequestReview input => RequestReview (stamp input)
  | StartWorkflow input => StartWorkflow (stamp input)
  | ResolveReview _ review_job_id => ResolveReview (Some device_id) review_job_id
  | ResolveWorkflow _ workflow_run_id => ResolveWorkflow (Some device_id) workflow_run_id
  | DeleteReview _ review_id => DeleteReview (Some device_id) review_id
  | RegisterPushSubscription input => RegisterPushSubscription (stamp input)
  | UnregisterPushSubscription _ endpoint => UnregisterPushSubscription (Some device_id) endpoint
  | ClaimChallenge _ | ClaimDevice _ _ | ListProviders | ListProviderModels _ => r
  end.
(** ** How an action is treated *)
Definition requires_session_claim (k : RemoteActionKind) : bool :=
  match k with
  | KSendMessage | KApplyFileChange | KRequestReview | KStartWorkflow | KResolveReview | KResolveWorkflow
  | KDeleteReview => true
  | _ => false
  end.

Definition remote_action_emits_info_log (k : RemoteActionKind) : bool :=
  match k with
  | KHeartbeat | KWatchThreads | KListThreads | KFetchThreadEntries | KFetchThreadEntryDetail
  | KFetchThreadTranscript | KFetchWorkspaceDiff | KFetchWorkspaceGitContext | KFetchThreadWorkspace
  | KFetchThreadSettings | KFetchReviews | KFetchWorkflows | KFetchDevices | KFetchProjects
  | KFetchAskUserQuestionDetail => false
  | _ => true
  end.

Definition is_fire_and_forget_action (k : RemoteActionKind) : bool :=
  match k with KHeartbeat | KWatchThreads => true | _ => false end.

Definition issues_session_claim (k : RemoteActionKind) : bool :=
  match k with KStartSession | KForkSession | KResumeSession | KTakeOver => true | _ => false end.

Inductive RemoteActionResultKind : Type :=
| RkAck | RkApproval | RkControl | RkSession | RkThreads | RkTranscript.
#[export] Instance RemoteActionResultKind_eq_dec : EqDecision RemoteActionResultKind.
Proof. solve_decision. Defined.

(** The names serde gives them. *)
Definition result_kind_name (k : RemoteActionResultKind) : string :=
  match k with
  | RkAck => "remote_action_ack" | RkApproval => "remote_approval_result" | RkControl => "remote_control_result"
  | RkSession => "remote_session_result" | RkThreads => "remote_threads_result"
  | RkTranscript => "remote_transcript_result"
  end.

Definition remote_action_result_kind (k : RemoteActionKind) : RemoteActionResultKind :=
  match k with
  | KStartSession | KForkSession | KResumeSession | KUpdateSessionSettings => RkSession
  | KClaimChallenge | KClaimDevice | KHeartbeat | KWatchThreads | KStopTurn | KTakeOver => RkControl
  | KListProviders | KListThreads | KListProviderModels => RkThreads
  | KFetchThreadEntries | KFetchThreadEntryDetail | KFetchThreadTranscript | KFetchWorkspaceDiff
  | KFetchWorkspaceGitContext | KFetchThreadWorkspace | KSetThreadWorkspace | KFetchThreadSettings
  | KFetchReviews | KFetchWorkflows | KFetchDevices | KFetchProjects | KFetchAskUserQuestionDetail => RkTranscript
  | KDecideApproval | KSubmitAskUserAnswer => RkApproval
  | KSendMessage | KApplyFileChange | KProjectAction | KRenameThread | KRepairWorkspace | KRequestReview
  | KStartWorkflow | KResolveReview | KResolveWorkflow | KDeleteReview | KRegisterPushSubscription
  | KUnregisterPushSubscription => RkAck
  end.

Definition remote_action_result_allows_snapshot (k : RemoteActionKind) : bool :=
  match k with KStartSession | KForkSession | KResumeSession | KUpdateSessionSettings => true | _ => false end.
