(* ===== verification/RemoteReply.v ===== *)
(** * Replies to remote actions and the frames that carry them
      (crates/relay-server/src/broker/protocol.rs, remote_actions.rs)

    The outcome of an action, the reply made of it, the payloads the relay publishes and
    their JSON, up to the text of a frame.  The views a reply only carries are JSON; how a
    snapshot and a thread list are encoded is the class [ViewSerde].  An object's entries are
    in the order they are added; serde_json sorts those of a [Value], which changes no size
    and nothing stated here. *)

From Stdlib Require Import ZArith Lia.
From S2P Require Import Prelude RustStr Json JoinTicket Device Surfaces Snapshot RemoteRequest.

Open Scope string_scope.
Open Scope Z_scope.

Definition RELAY_PROTOCOL_VERSION : Z := 2.
Definition MAX_BROKER_TEXT_FRAME_BYTES : Z := 65536.

Record RemoteActionOutcome : Type := MkOutcome {
  oc_receipt : option json;
  oc_ask_user_answer_receipt : option json;
  oc_providers : option (list string);
  oc_models : option (list json);
  oc_threads : option ThreadsResponse;
  oc_thread_entries : option json;
  oc_thread_entry_detail : option json;
  oc_thread_transcript : option json;
  oc_workspace_diff : option json;
  oc_workspace_git_context : option json;
  oc_thread_workspace : option json;
  oc_thread_settings : option json;
  oc_reviews : option json;
  oc_workflows : option json;
  oc_devices : option json;
  oc_projects : option json;
  oc_ask_user_question_detail : option json;
  oc_session_claim : option string;
  oc_session_claim_expires_at : option Z;
  oc_claim_challenge_id : option string;
  oc_claim_challenge : option string;
  oc_claim_challenge_expires_at : option Z
}.
#[export] Instance RemoteActionOutcome_expand : Expand RemoteActionOutcome := λ o,
  MkOutcome (oc_receipt o) (oc_ask_user_answer_receipt o) (oc_providers o) (oc_models o)
    (oc_threads o) (oc_thread_entries o) (oc_thread_entry_detail o) (oc_thread_transcript o)
    (oc_workspace_diff o) (oc_workspace_git_context o) (oc_thread_workspace o) (oc_thread_settings o)
    (oc_reviews o) (oc_workflows o) (oc_devices o) (oc_projects o)
    (oc_ask_user_question_detail o) (oc_session_claim o) (oc_session_claim_expires_at o) (oc_claim_challenge_id o)
    (oc_claim_challenge o) (oc_claim_challenge_expires_at o).
Definition no_outcome : RemoteActionOutcome :=
  MkOutcome None None None None None None None None None None None None None None None None None None None None None None.

(** A reply: the fields of [RemoteActionResultPlaintext] other than its own are those of an
    outcome, and so are the fields of [CachedRemoteActionResult]. *)
Record RemoteActionResultPlaintext : Type := MkResult {
  rp_kind : RemoteActionResultKind;
  rp_action : RemoteActionKind;
  rp_ok : bool;
  rp_snapshot : option SessionSnapshot;
  rp_outcome : RemoteActionOutcome;
  rp_error : option string
}.

Record CachedReply : Type := MkCachedReply {
  cy_ok : bool;
  cy_snapshot : option SessionSnapshot;
  cy_outcome : RemoteActionOutcome;
  cy_response_secret : option string;
  cy_error : option string
}.

Definition REMOTE_ACTION_BUSY_ERROR : string :=
  "the relay already has too many large replies in flight; retry this request".

Definition busy_remote_action_result (kind : RemoteActionResultKind) (action : RemoteActionKind) :
    RemoteActionResultPlaintext :=
  MkResult kind action false None no_outcome (Some REMOTE_ACTION_BUSY_ERROR).

Definition remote_action_result_snapshot (action : RemoteActionKind) (snapshot : SessionSnapshot) :
    option SessionSnapshot :=
  if remote_action_result_allows_snapshot action then Some snapshot else None.

Definition cached_remote_action_result (action : RemoteActionKind) (snapshot : SessionSnapshot)
    (outcome : RemoteActionOutcome) (error : option string) (ok : bool) (response_secret : option string) : CachedReply :=
  MkCachedReply ok (remote_action_result_snapshot action snapshot) outcome response_secret error.

(** ** Payloads *)
Record EncryptedEnvelope : Type := MkEnvelope { ev_nonce : string; ev_ciphertext : string }.
#[export] Instance EncryptedEnvelope_eq_dec : EqDecision EncryptedEnvelope.
Proof. solve_decision. Defined.

Inductive OutboundBrokerPayload : Type :=
| OSessionSnapshot (snapshot : SessionSnapshot)
| OTranscriptDelta (thread_id : string) (base_revision revision entry_seq server_time : Z) (item_id : string)
    (turn_id : option string) (delta delta_kind : string) (text_offset : option Z)
| OEncryptedTranscriptDelta (target_peer_id device_id : string) (envelope : EncryptedEnvelope)
| ORemoteActionAck (action_id target_peer_id : string) (action : RemoteActionKind) (ok : bool) (error : option string)
| ORemoteApprovalResult (action_id target_peer_id : string) (action : RemoteActionKind) (ok : bool)
    (receipt : option json) (error : option string)
| ORemoteControlResult (action_id target_peer_id : string) (action : RemoteActionKind) (ok : bool)
    (session_claim : option string) (session_claim_expires_at : option Z)
    (claim_challenge_id claim_challenge : option string) (claim_challenge_expires_at : option Z) (error : option string)
| ORemoteSessionResult (action_id target_peer_id : string) (action : RemoteActionKind) (ok : bool)
    (snapshot : SessionSnapshot) (session_claim : option string) (session_claim_expires_at : option Z)
    (error : option string)
| ORemoteThreadsResult (action_id target_peer_id : string) (action : RemoteActionKind) (ok : bool)
    (providers : option (list string)) (models : option (list json)) (threads : option ThreadsResponse)
    (error : option string)
| ORemoteTranscriptResult (action_id target_peer_id : string) (action : RemoteActionKind) (ok : bool)
    (thread_entries thread_entry_detail thread_transcript workspace_diff workspace_git_context thread_workspace
     thread_settings reviews workflows devices projects ask_user_question_detail : option json) (error : option string)
| ORemoteActionResultChunk (action_id target_peer_id : string) (action : RemoteActionKind)
    (chunk_index chunk_count : Z) (data : string)
| OEncryptedSessionSnapshot (target_peer_id device_id : string) (envelope : EncryptedEnvelope)
| OEncryptedRemoteActionResult (action_id target_peer_id device_id : string) (envelope : EncryptedEnvelope)
| OEncryptedRemoteActionResultChunk (action_id target_peer_id device_id : string) (action : RemoteActionKind)
    (chunk_index chunk_count : Z) (envelope : EncryptedEnvelope)
| OEncryptedPairingResult (pairing_id target_peer_id : string) (envelope : EncryptedEnvelope)
| OTargetedMessages (messages : list (string * OutboundBrokerPayload)).

(** A targeted message: the peer, and the payload for it. *)
Notation TargetedBrokerMessage := (string * OutboundBrokerPayload)%type.

(** The reply as one payload, by the kind of result; a session result needs a snapshot. *)
Definition build_plain_remote_action_result_payload (action_id target_peer_id : string)
    (r : RemoteActionResultPlaintext) : option OutboundBrokerPayload :=
  let o := rp_outcome r in
  match rp_kind r with
  | RkAck => Some (ORemoteActionAck action_id target_peer_id (rp_action r) (rp_ok r) (rp_error r))
  | RkApproval =>
      Some (ORemoteApprovalResult action_id target_peer_id (rp_action r) (rp_ok r) (oc_receipt o) (rp_error r))
  | RkControl =>
      Some (ORemoteControlResult action_id target_peer_id (rp_action r) (rp_ok r) (oc_session_claim o)
              (oc_session_claim_expires_at o) (oc_claim_challenge_id o) (oc_claim_challenge o)
              (oc_claim_challenge_expires_at o) (rp_error r))
  | RkSession =>
      snapshot ← rp_snapshot r;
      Some (ORemoteSessionResult action_id target_peer_id (rp_action r) (rp_ok r) snapshot (oc_session_claim o)
              (oc_session_claim_expires_at o) (rp_error r))
  | RkThreads =>
      Some (ORemoteThreadsResult action_id target_peer_id (rp_action r) (rp_ok r) (oc_providers o) (oc_models o)
              (oc_threads o) (rp_error r))
  | RkTranscript =>
      Some (ORemoteTranscriptResult action_id target_peer_id (rp_action r) (rp_ok r) (oc_thread_entries o)
              (oc_thread_entry_detail o) (oc_thread_transcript o) (oc_workspace_diff o) (oc_workspace_git_context o)
              (oc_thread_workspace o) (oc_thread_settings o) (oc_reviews o) (oc_workflows o) (oc_devices o)
              (oc_projects o) (oc_ask_user_question_detail o) (rp_error r))
  end.

(** ** JSON *)
Class ViewSerde := {
  snapshot_value : SessionSnapshot → json;
  threads_value : ThreadsResponse → json
}.

Section Values.
Context `{ViewSerde}.

Definition envelope_value (e : EncryptedEnvelope) : json :=
  JMap [("nonce", JStr (ev_nonce e)); ("ciphertext", JStr (ev_ciphertext e))].

Definition result_value (r : RemoteActionResultPlaintext) : json :=
  let o := rp_outcome r in
  JMap ([("kind", JStr (result_kind_name (rp_kind r))); ("action", JStr (action_kind_as_str (rp_action r)));
         ("ok", JBool (rp_ok r))]
    ++ opt_entry "snapshot" snapshot_value (rp_snapshot r)
    ++ [("receipt", ser_option id (oc_receipt o))]
    ++ opt_entry "ask_user_answer_receipt" id (oc_ask_user_answer_receipt o)
    ++ [("providers", ser_option (λ l, JSeq (map JStr l)) (oc_providers o))]
    ++ [("models", ser_option JSeq (oc_models o))]
    ++ [("threads", ser_option threads_value (oc_threads o))]
    ++ [("thread_entries", ser_option id (oc_thread_entries o))]
    ++ [("thread_entry_detail", ser_option id (oc_thread_entry_detail o))]
    ++ [("thread_transcript", ser_option id (oc_thread_transcript o))]
    ++ [("workspace_diff", ser_option id (oc_workspace_diff o))]
    ++ opt_entry "workspace_git_context" id (oc_workspace_git_context o)
    ++ opt_entry "thread_workspace" id (oc_thread_workspace o)
    ++ opt_entry "thread_settings" id (oc_thread_settings o)
    ++ opt_entry "reviews" id (oc_reviews o)
    ++ opt_entry "workflows" id (oc_workflows o)
    ++ opt_entry "devices" id (oc_devices o)
    ++ opt_entry "projects" id (oc_projects o)
    ++ opt_entry "ask_user_question_detail" id (oc_ask_user_question_detail o)
    ++ [("session_claim", ser_option JStr (oc_session_claim o))]
    ++ [("session_claim_expires_at", ser_option JU64 (oc_session_claim_expires_at o))]
    ++ [("claim_challenge_id", ser_option JStr (oc_claim_challenge_id o))]
    ++ [("claim_challenge", ser_option JStr (oc_claim_challenge o))]
    ++ [("claim_challenge_expires_at", ser_option JU64 (oc_claim_challenge_expires_at o))]
    ++ [("error", ser_option JStr (rp_error r))])%list.

(** The fields every reply payload starts with. *)
Definition reply_head (kind action_id target_peer_id : string) (action : RemoteActionKind) (ok : bool) :
    list (string * json) :=
  [("kind", JStr kind); ("action_id", JStr action_id); ("target_peer_id", JStr target_peer_id);
   ("action", JStr (action_kind_as_str action)); ("ok", JBool ok)].

Fixpoint payload_value (p : OutboundBrokerPayload) : json :=
  match p with
  | OSessionSnapshot snapshot => JMap [("kind", JStr "session_snapshot"); ("snapshot", snapshot_value snapshot)]
  | OTranscriptDelta thread_id base_revision revision entry_seq server_time item_id turn_id delta delta_kind text_offset =>
      JMap [("kind", JStr "transcript_delta"); ("thread_id", JStr thread_id); ("base_revision", JU64 base_revision);
            ("revision", JU64 revision); ("entry_seq", JU64 entry_seq); ("server_time", JU64 server_time);
            ("item_id", JStr item_id); ("turn_id", ser_option JStr turn_id); ("delta", JStr delta);
            ("delta_kind", JStr delta_kind); ("text_offset", ser_option JU64 text_offset)]
  | OEncryptedTranscriptDelta target_peer_id device_id envelope =>
      JMap [("kind", JStr "encrypted_transcript_delta"); ("target_peer_id", JStr target_peer_id);
            ("device_id", JStr device_id); ("envelope", envelope_value envelope)]
  | ORemoteActionAck action_id target_peer_id action ok error =>
      JMap (reply_head "remote_action_ack" action_id target_peer_id action ok ++ [("error", ser_option JStr error)])
  | ORemoteApprovalResult action_id target_peer_id action ok receipt error =>
      JMap (reply_head "remote_approval_result" action_id target_peer_id action ok
            ++ [("receipt", ser_option id receipt); ("error", ser_option JStr error)])
  | ORemoteControlResult action_id target_peer_id action ok session_claim session_claim_expires_at
      claim_challenge_id claim_challenge claim_challenge_expires_at error =>
      JMap (reply_head "remote_control_result" action_id target_peer_id action ok
            ++ [("session_claim", ser_option JStr session_claim);
                ("session_claim_expires_at", ser_option JU64 session_claim_expires_at);
                ("claim_challenge_id", ser_option JStr claim_challenge_id);
                ("claim_challenge", ser_option JStr claim_challenge);
                ("claim_challenge_expires_at", ser_option JU64 claim_challenge_expires_at);
                ("error", ser_option JStr error)])
  | ORemoteSessionResult action_id target_peer_id action ok snapshot session_claim session_claim_expires_at error =>
      JMap (reply_head "remote_session_result" action_id target_peer_id action ok
            ++ [("snapshot", snapshot_value snapshot); ("session_claim", ser_option JStr session_claim);
                ("session_claim_expires_at", ser_option JU64 session_claim_expires_at);
                ("error", ser_option JStr error)])
  | ORemoteThreadsResult action_id target_peer_id action ok providers models threads error =>
      JMap (reply_head "remote_threads_result" action_id target_peer_id action ok
            ++ [("providers", ser_option (λ l, JSeq (map JStr l)) providers); ("models", ser_option JSeq models);
                ("threads", ser_option threads_value threads); ("error", ser_option JStr error)])
  | ORemoteTranscriptResult action_id target_peer_id action ok thread_entries thread_entry_detail thread_transcript
      workspace_diff workspace_git_context thread_workspace thread_settings reviews workflows devices projects
      ask_user_question_detail error =>
      JMap (reply_head "remote_transcript_result" action_id target_peer_id action ok
            ++ [("thread_entries", ser_option id thread_entries); ("thread_entry_detail", ser_option id thread_entry_detail);
                ("thread_transcript", ser_option id thread_transcript); ("workspace_diff", ser_option id workspace_diff);
                ("workspace_git_context", ser_option id workspace_git_context);
                ("thread_workspace", ser_option id thread_workspace); ("thread_settings", ser_option id thread_settings);
                ("reviews", ser_option id reviews); ("workflows", ser_option id workflows);
                ("devices", ser_option id devices); ("projects", ser_option id projects);
                ("ask_user_question_detail", ser_option id ask_user_question_detail); ("error", ser_option JStr error)])
  | ORemoteActionResultChunk action_id target_peer_id action chunk_index chunk_count data =>
      JMap [("kind", JStr "remote_action_result_chunk"); ("action_id", JStr action_id);
            ("target_peer_id", JStr target_peer_id); ("action", JStr (action_kind_as_str action));
            ("chunk_index", JU64 chunk_index); ("chunk_count", JU64 chunk_count); ("data", JStr data)]
  | OEncryptedSessionSnapshot target_peer_id device_id envelope =>
      JMap [("kind", JStr "encrypted_session_snapshot"); ("target_peer_id", JStr target_peer_id);
            ("device_id", JStr device_id); ("envelope", envelope_value envelope)]
  | OEncryptedRemoteActionResult action_id target_peer_id device_id envelope =>
      JMap [("kind", JStr "encrypted_remote_action_result"); ("action_id", JStr action_id);
            ("target_peer_id", JStr target_peer_id); ("device_id", JStr device_id); ("envelope", envelope_value envelope)]
  | OEncryptedRemoteActionResultChunk action_id target_peer_id device_id action chunk_index chunk_count envelope =>
      JMap [("kind", JStr "encrypted_remote_action_result_chunk"); ("action_id", JStr action_id);
            ("target_peer_id", JStr target_peer_id); ("device_id", JStr device_id);
            ("action", JStr (action_kind_as_str action)); ("chunk_index", JU64 chunk_index);
            ("chunk_count", JU64 chunk_count); ("envelope", envelope_value envelope)]
  | OEncryptedPairingResult pairing_id target_peer_id envelope =>
      JMap [("kind", JStr "encrypted_pairing_result"); ("pairing_id", JStr pairing_id);
            ("target_peer_id", JStr target_peer_id); ("envelope", envelope_value envelope)]
  | OTargetedMessages messages =>
      JMap [("kind", JStr "targeted_messages");
            ("messages", JSeq (map (λ m : TargetedBrokerMessage,
               JMap [("target_peer_id", JStr m.1); ("payload", payload_value m.2)]) messages))]
  end.
End Values.

(** Every payload object gets the protocol version, those inside a targeted frame too. *)
Fixpoint add_relay_payload_protocol_version (j : json) : json :=
  match j with
  | JMap es =>
      let targeted := existsb (λ e : string * json, String.eqb e.1 "kind" &&
        match e.2 with JStr kind => String.eqb kind "targeted_messages" | _ => false end) es in
      let tag_message (m : json) := match m with
        | JMap fields => JMap (map (λ f : string * json,
            if String.eqb f.1 "payload" then (f.1, add_relay_payload_protocol_version f.2) else f) fields)
        | _ => m
        end in
      JMap (map (λ e : string * json,
                   if targeted && String.eqb e.1 "messages" then
                     match e.2 with JSeq messages => (e.1, JSeq (map tag_message messages)) | _ => e end
                   else e) es ++ [("protocol_version", JU64 RELAY_PROTOCOL_VERSION)])
  | _ => j
  end.
