(* ===== verification/RemoteChunks.v ===== *)
(** * Sealing, sizing and publishing (crates/relay-server/src/broker/crypto.rs,
      remote_actions.rs, broker.rs)

    How a value is sealed for a device, how the text of a frame is made, and how a reply too
    large for one frame is cut into a train of chunks.  XSalsa20-Poly1305 is the class
    [SecretBox]; a nonce the code draws is an argument.  What the writer answers to a
    hand-over is an argument too ([Handle]). *)

From Stdlib Require Import ZArith Lia.
From S2P Require Import Prelude RustStr Json JoinTicket Device Snapshot Admission Writer RemoteRequest RemoteReply.

Open Scope string_scope.
Open Scope Z_scope.

Definition REMOTE_ACTION_RESULT_CHUNK_TARGET_CHARS : Z := 32768.
Definition REMOTE_ACTION_RESULT_CHUNK_MIN_CHARS : Z := 1024.
Definition REMOTE_ACTION_RESULT_CHUNK_PUBLISH_INTERVAL_MILLIS : Z := 50.

(** ** Sealing (crypto.rs) *)
Class SecretBox := {
  std_b64_encode : string → string;
  xsalsa_encrypt : string → string → string → option string;
  xsalsa_decrypt : string → string → string → option string
}.

Inductive CryptoError : Type :=
| EncryptionFailed | InvalidNonce | InvalidNonceLength | InvalidCiphertext | DecryptionFailed | UndecodablePayload.

Section Crypto.
Context {TC : TicketCrypto} {DC : DeviceCrypto} {SB : SecretBox}.

Definition cipher (secret : string) : string := sha256 secret.

Definition encrypt_bytes (secret nonce plaintext : string) : result EncryptedEnvelope CryptoError :=
  match xsalsa_encrypt (cipher secret) nonce plaintext with
  | Some ciphertext => Ok (MkEnvelope (std_b64_encode nonce) (std_b64_encode ciphertext))
  | None => Err EncryptionFailed
  end.
Definition encrypt_json (secret nonce : string) (value : json) : result EncryptedEnvelope CryptoError :=
  encrypt_bytes secret nonce (json_to_vec value).

Definition decrypt_bytes (secret : string) (envelope : EncryptedEnvelope) : result string CryptoError :=
  let? nonce := ok_or (std_b64_decode (ev_nonce envelope)) InvalidNonce in
  if negb (str_len nonce =? 24) then Err InvalidNonceLength else
  let? ciphertext := ok_or (std_b64_decode (ev_ciphertext envelope)) InvalidCiphertext in
  ok_or (xsalsa_decrypt (cipher secret) nonce ciphertext) DecryptionFailed.
Definition decrypt_json {A} (of_json : json → option A) (secret : string) (envelope : EncryptedEnvelope) :
    result A CryptoError :=
  let? plaintext := decrypt_bytes secret envelope in
  ok_or (json_from_slice plaintext ≫= of_json) UndecodablePayload.
End Crypto.

(** ** Frames (protocol.rs) *)
Section Frames.
Context {TC : TicketCrypto} {VS : ViewSerde}.

Definition frame_text_for_payload (payload : OutboundBrokerPayload) : string :=
  json_to_vec (JMap [("type", JStr "publish"); ("protocol_version", JU64 BROKER_PROTOCOL_VERSION);
                     ("payload", add_relay_payload_protocol_version (payload_value payload))]).
Definition frame_bytes_for_payload (payload : OutboundBrokerPayload) : Z :=
  str_len (frame_text_for_payload payload).
End Frames.

(** ** Cutting a reply *)

(** The characters of a UTF-8 string, each with its whole encoding. *)
Fixpoint char_strings (s : string) : list string :=
  match s with
  | EmptyString => []
  | String a s1 =>
      let z := byte_val a in
      if z <? 192 then String a "" :: char_strings s1 else
      match s1 with
      | EmptyString => [s]
      | String b s2 =>
          if z <? 224 then String a (String b "") :: char_strings s2 else
          match s2 with
          | EmptyString => [s]
          | String c s3 =>
              if z <? 240 then String a (String b (String c "")) :: char_strings s3 else
              match s3 with
              | EmptyString => [s]
              | String d s4 => String a (String b (String c (String d ""))) :: char_strings s4
              end
          end
      end
  end.

Fixpoint split_loop (max_chars : Z) (cs : list string) (piece : string) (chars_in_piece : Z) : list string :=
  match cs with
  | [] => [piece]
  | c :: cs =>
      if chars_in_piece =? max_chars then piece :: split_loop max_chars cs c 1
      else split_loop max_chars cs (piece +:+ c) (chars_in_piece + 1)
  end.
Definition split_on_char_boundaries (value : string) (max_chars : Z) : list string :=
  split_loop (Z.max max_chars 1) (char_strings value) "" 0.

(** The measuring closure is [FnMut]: it carries a state [S] from call to call. *)
Section Fit.
Context {S : Type} (frame_bytes : string → Z → Z → S → S * Z).

Fixpoint largest_frame (pieces : list string) (last_index chunk_count : Z) (largest : Z) (s : S) : S * Z :=
  match pieces with
  | [] => (s, largest)
  | piece :: pieces =>
      let '(s, n) := frame_bytes piece last_index chunk_count s in
      largest_frame pieces last_index chunk_count (Z.max largest n) s
  end.

Fixpoint fit_loop (fuel : nat) (serialized : string) (chunk_chars : Z) (s : S) : S * option (list string) :=
  match fuel with
  | O => (s, None)
  | Datatypes.S fuel =>
      let pieces := split_on_char_boundaries serialized chunk_chars in
      let chunk_count := Z.of_nat (length pieces) in
      let '(s, largest) := largest_frame pieces (Z.max 0 (chunk_count - 1)) chunk_count 0 s in
      if largest <=? MAX_BROKER_TEXT_FRAME_BYTES then (s, Some pieces)
      else if chunk_chars <=? REMOTE_ACTION_RESULT_CHUNK_MIN_CHARS then (s, None)
      else fit_loop fuel serialized (Z.max (chunk_chars / 2) REMOTE_ACTION_RESULT_CHUNK_MIN_CHARS) s
  end.

(** Halving a size of [chunk_chars] ends before [chunk_chars] turns. *)
Definition fit_chunks (serialized : string) (target_chars : Z) (s : S) : S * option (list string) :=
  let total_chars := Z.of_nat (length (chars serialized)) in
  let chunk_chars := Z.max (Z.min total_chars target_chars) 1 in
  fit_loop (Datatypes.S (Z.to_nat chunk_chars)) serialized chunk_chars s.
End Fit.

Inductive ChunkError : Type := StillTooLarge | SealFailed (e : CryptoError).

Section Chunks.
Context {TC : TicketCrypto} {DC : DeviceCrypto} {SB : SecretBox} {VS : ViewSerde}.

(** [serialized_json_string]. *)
Definition serialized (r : RemoteActionResultPlaintext) : string := json_to_vec (result_value r).

Definition plain_chunk (action_id target_peer_id : string) (action : RemoteActionKind) (chunk_index chunk_count : Z)
    (piece : string) : OutboundBrokerPayload :=
  ORemoteActionResultChunk action_id target_peer_id action chunk_index chunk_count piece.

Definition build_plain_remote_action_result_chunk_payloads (action_id target_peer_id : string)
    (r : RemoteActionResultPlaintext) : result (list OutboundBrokerPayload) ChunkError :=
  let measure piece chunk_index chunk_count (_ : ()) :=
    ((), frame_bytes_for_payload (plain_chunk action_id target_peer_id (rp_action r) chunk_index chunk_count piece)) in
  match (fit_chunks measure (serialized r) REMOTE_ACTION_RESULT_CHUNK_TARGET_CHARS ()).2 with
  | None => Err StillTooLarge
  | Some pieces =>
      let chunk_count := Z.of_nat (length pieces) in
      Ok (imap (λ chunk_index piece,
            plain_chunk action_id target_peer_id (rp_action r) (Z.of_nat chunk_index) chunk_count piece) pieces)
  end.

(** [RemoteActionResultChunkPlaintext]. *)
Definition chunk_plaintext (action_id : string) (action : RemoteActionKind) (chunk_index chunk_count : Z) (data : string) :
    json :=
  JMap [("action_id", JStr action_id); ("action", JStr (action_kind_as_str action));
        ("chunk_index", JU64 chunk_index); ("chunk_count", JU64 chunk_count); ("data", JStr data)].

Definition seal_chunk (secret nonce action_id target_peer_id device_id : string) (action : RemoteActionKind)
    (chunk_index chunk_count : Z) (piece : string) : result OutboundBrokerPayload CryptoError :=
  let? envelope := encrypt_json secret nonce (chunk_plaintext action_id action chunk_index chunk_count piece) in
  Ok (OEncryptedRemoteActionResultChunk action_id target_peer_id device_id action chunk_index chunk_count envelope).

(** [usize::MAX]. *)
Definition usize_max : Z := u64_max.

(** The nonces drawn: while fitting, by piece and count; for what is sent, by index. *)
Definition measure_sealed (fit_nonce : string → Z → string) (secret action_id target_peer_id device_id : string)
    (action : RemoteActionKind) (piece : string) (chunk_index chunk_count : Z) (fit_error : option CryptoError) :
    option CryptoError * Z :=
  match seal_chunk secret (fit_nonce piece chunk_count) action_id target_peer_id device_id action chunk_index chunk_count piece with
  | Ok payload => (fit_error, frame_bytes_for_payload payload)
  | Err e => (option_or fit_error (Some e), usize_max)
  end.

Fixpoint collect_results {A E} (l : list (result A E)) : result (list A) E :=
  match l with
  | [] => Ok []
  | r :: l => let? a := r in let? l := collect_results l in Ok (a :: l)
  end.

Definition build_encrypted_remote_action_result_chunk_payloads (fit_nonce : string → Z → string) (nonce : nat → string)
    (action_id target_peer_id device_id secret : string) (r : RemoteActionResultPlaintext) :
    result (list OutboundBrokerPayload) ChunkError :=
  match fit_chunks (measure_sealed fit_nonce secret action_id target_peer_id device_id (rp_action r))
          (serialized r) REMOTE_ACTION_RESULT_CHUNK_TARGET_CHARS None with
  | (Some e, _) => Err (SealFailed e)
  | (None, None) => Err StillTooLarge
  | (None, Some pieces) =>
      let chunk_count := Z.of_nat (length pieces) in
      match collect_results (imap (λ chunk_index piece,
              seal_chunk secret (nonce chunk_index) action_id target_peer_id device_id (rp_action r)
                (Z.of_nat chunk_index) chunk_count piece) pieces) with
      | Ok payloads => Ok payloads
      | Err e => Err (SealFailed e)
      end
  end.
End Chunks.
