(* ===== verification/RemotePublish.v ===== *)
(** * Handing frames to the writer (crates/relay-server/src/broker.rs, broker/remote_actions.rs)

    Publishing is a hand-over to the writer of the socket: an ordinary frame, or a train of
    chunks.  A [Handle] is the writer as its clients see it: what it took on, and what it will
    answer to the next hand-overs ([Writer] is the writer itself).  A full ordinary lane makes
    the caller wait, so only a train can find its lane full.  The second part are the session
    claims and the proofs of a device (session_claim.rs, broker.rs). *)

From Stdlib Require Import ZArith Lia Ascii.
From S2P Require Import Prelude RustStr Json ControlPlane JoinTicket Device Surfaces Snapshot Admission Writer RemoteRequest RemoteReply RemoteChunks.

Open Scope string_scope.
Open Scope Z_scope.

Inductive Sent : Type :=
| SentNow (payload : OutboundBrokerPayload)
| SentTrain (payloads : list OutboundBrokerPayload) (interval : Z) (watch_target : option string).

(** The answers to come; [Taken] once the list is used up. *)
Inductive Answer : Type := Taken | Full | Gone.
Record Handle : Type := MkHandle { hd_sent : list Sent; hd_answers : list Answer }.
#[export] Instance Handle_expand : Expand Handle := λ h, MkHandle (hd_sent h) (hd_answers h).

Definition hand (s : Sent) (h : Handle) : Handle * Answer :=
  let answer := default Taken (head (hd_answers h)) in
  let h := h <| hd_answers ::= tail |> in
  match answer, s with
  | Gone, _ | Full, SentTrain _ _ _ => (h, answer)
  | _, _ => (h <| hd_sent ::= (λ l, l ++ [s])%list |>, Taken)
  end.

(** What a handler fails with, as far as its callers look at it. *)
Inductive HandlerError : Type :=
| WriterGone
| SealError (e : CryptoError)
| ChunkFailure (e : ChunkError)
| MissingSnapshot
| DeviceFailure (e : DeviceError)
| Refused (message : string).
Definition is_not_paired (e : HandlerError) : bool :=
  match e with DeviceFailure NotPaired => true | _ => false end.

Definition publish_payload (payload : OutboundBrokerPayload) (h : Handle) : Handle * result () HandlerError :=
  match hand (SentNow payload) h with
  | (h, Gone) => (h, Err WriterGone)
  | (h, _) => (h, Ok ())
  end.

(** ** Targeted messages *)
Section Targeted.
Context {TC : TicketCrypto} {VS : ViewSerde}.

(** The batches: a message that would make the frame too large starts the next one. *)
Fixpoint targeted_loop (messages batch : list TargetedBrokerMessage) (h : Handle) : Handle * result () HandlerError :=
  match messages with
  | [] => match batch with [] => (h, Ok ()) | _ => publish_payload (OTargetedMessages batch) h end
  | message :: messages =>
      let candidate := (batch ++ [message])%list in
      if negb (bool_decide (batch = [])) &&
         (MAX_BROKER_TEXT_FRAME_BYTES <? frame_bytes_for_payload (OTargetedMessages candidate))
      then match publish_payload (OTargetedMessages batch) h with
           | (h, Err e) => (h, Err e)
           | (h, Ok _) => targeted_loop messages [message] h
           end
      else targeted_loop messages candidate h
  end.
Definition publish_targeted_messages (messages : list TargetedBrokerMessage) (h : Handle) : Handle * result () HandlerError :=
  targeted_loop messages [] h.
End Targeted.

(** ** Results of actions *)
Section Results.
Context {TC : TicketCrypto} {DC : DeviceCrypto} {SB : SecretBox} {VS : ViewSerde} {SS : SnapshotSizes}.

(** [online]: whether the surface was seen in the room when the train was made. *)
Definition publish_remote_action_result_chunks (online : string → bool) (chunk_payloads : list OutboundBrokerPayload)
    (target_peer_id : string) (h : Handle) : Handle * result TrainHandoff HandlerError :=
  match chunk_payloads with
  | [] => (h, Ok TrainQueued)
  | _ =>
      let watch_target := if online target_peer_id then Some target_peer_id else None in
      match hand (SentTrain chunk_payloads REMOTE_ACTION_RESULT_CHUNK_PUBLISH_INTERVAL_MILLIS watch_target) h with
      | (h, Taken) => (h, Ok TrainQueued)
      | (h, Full) => (h, Ok TrainBusy)
      | (h, Gone) => (h, Err WriterGone)
      end
  end.

(** The reductions end ([compaction_terminates], [thread_list_compaction_terminates]). *)
Definition compacted_snapshot (snapshot : SessionSnapshot) : SessionSnapshot :=
  default snapshot (compact_for RemoteSurface snapshot).
Definition compacted_threads (threads : ThreadsResponse) : ThreadsResponse :=
  default threads (compact_threads ThreadsRemoteSurface threads).

Definition plaintext_result (action : RemoteActionKind) (snapshot : option SessionSnapshot)
    (outcome : RemoteActionOutcome) (error : option string) (ok : bool) : RemoteActionResultPlaintext :=
  MkResult (remote_action_result_kind action) action ok (compacted_snapshot <$> snapshot)
    (outcome <| oc_threads ::= fmap compacted_threads |>) error.

Definition publish_plain_remote_action_result (online : string → bool) (target_peer_id action_id : string)
    (action : RemoteActionKind) (snapshot : option SessionSnapshot) (outcome : RemoteActionOutcome)
    (error : option string) (ok : bool) (h : Handle) : Handle * result () HandlerError :=
  let plaintext := plaintext_result action snapshot outcome error ok in
  match build_plain_remote_action_result_payload action_id target_peer_id plaintext with
  | None => (h, Err MissingSnapshot)
  | Some payload =>
      if frame_bytes_for_payload payload <=? MAX_BROKER_TEXT_FRAME_BYTES then publish_payload payload h else
      match build_plain_remote_action_result_chunk_payloads action_id target_peer_id plaintext with
      | Err e => (h, Err (ChunkFailure e))
      | Ok chunk_payloads =>
          match publish_remote_action_result_chunks online chunk_payloads target_peer_id h with
          | (h, Err e) => (h, Err e)
          | (h, Ok TrainQueued) => (h, Ok ())
          | (h, Ok TrainBusy) =>
              match build_plain_remote_action_result_payload action_id target_peer_id
                      (busy_remote_action_result (rp_kind plaintext) action) with
              | None => (h, Err MissingSnapshot)
              | Some payload => publish_payload payload h
              end
          end
      end
  end.

(** The nonces of one reply: for the reply, for the busy answer, while fitting, for the chunks. *)
Record Nonces : Type := MkNonces {
  nn_reply : string; nn_busy : string; nn_fit : string → Z → string; nn_chunk : nat → string
}.

Definition publish_remote_action_result_private (online : string → bool) (nonces : Nonces) (s : PairingState)
    (target_peer_id device_id action_id : string) (action : RemoteActionKind) (snapshot : option SessionSnapshot)
    (outcome : RemoteActionOutcome) (error : option string) (ok : bool) (response_secret : option string) (h : Handle) :
    Handle * result () HandlerError :=
  match match response_secret with Some secret => Ok secret | None => paired_device_payload_secret device_id s end with
  | Err e => (h, Err (DeviceFailure e))
  | Ok secret =>
      let plaintext := plaintext_result action snapshot outcome error ok in
      match encrypt_json secret (nn_reply nonces) (result_value plaintext) with
      | Err e => (h, Err (SealError e))
      | Ok envelope =>
          let payload := OEncryptedRemoteActionResult action_id target_peer_id device_id envelope in
          if frame_bytes_for_payload payload <=? MAX_BROKER_TEXT_FRAME_BYTES then publish_payload payload h else
          match build_encrypted_remote_action_result_chunk_payloads (nn_fit nonces) (nn_chunk nonces)
                  action_id target_peer_id device_id secret plaintext with
          | Err e => (h, Err (ChunkFailure e))
          | Ok chunk_payloads =>
              match publish_remote_action_result_chunks online chunk_payloads target_peer_id h with
              | (h, Err e) => (h, Err e)
              | (h, Ok TrainQueued) => (h, Ok ())
              | (h, Ok TrainBusy) =>
                  match encrypt_json secret (nn_busy nonces)
                          (result_value (busy_remote_action_result (rp_kind plaintext) action)) with
                  | Err e => (h, Err (SealError e))
                  | Ok envelope => publish_payload (OEncryptedRemoteActionResult action_id target_peer_id device_id envelope) h
                  end
              end
          end
      end
  end.

(** Replaying what the cache holds. *)
Definition replay_plain_remote_action_result (online : string → bool) (target_peer_id action_id : string)
    (action : RemoteActionKind) (cached : CachedReply) : Handle → Handle * result () HandlerError :=
  publish_plain_remote_action_result online target_peer_id action_id action (cy_snapshot cached) (cy_outcome cached)
    (cy_error cached) (cy_ok cached).
Definition replay_encrypted_remote_action_result (online : string → bool) (nonces : Nonces) (s : PairingState)
    (target_peer_id device_id action_id : string) (action : RemoteActionKind) (cached : CachedReply) :
    Handle → Handle * result () HandlerError :=
  publish_remote_action_result_private online nonces s target_peer_id device_id action_id action (cy_snapshot cached)
    (cy_outcome cached) (cy_error cached) (cy_ok cached) (cy_response_secret cached).
End Results.

(** ** Session claims and proofs

    A session claim is a signed statement of the relay that a device, through one broker peer,
    proved its key a while ago; the proofs are the signatures a device gives for a pairing, for
    a claim challenge, and to be given one.  The signing key of the claims is drawn once per
    process. *)
Definition SESSION_CLAIM_TTL_SECS : Z := 3600.

Record SessionClaimPayload : Type := MkClaimPayload {
  sc_version : Z; sc_device_id : string; sc_peer_id : string; sc_expires_at : Z
}.
Record IssuedSessionClaim : Type := MkIssuedClaim { si_token : string; si_expires_at : Z }.

Inductive ClaimError : Type := ClaimIsInvalid | ClaimVersion | ClaimOtherPeer | ClaimIsExpired | ClaimDeviceGone (e : DeviceError).

Definition claim_serialize (c : SessionClaimPayload) : json :=
  JMap [("version", JU64 (sc_version c)); ("device_id", JStr (sc_device_id c)); ("peer_id", JStr (sc_peer_id c));
        ("expires_at", JU64 (sc_expires_at c))].

Definition claim_fields : field_table :=
  [("version", checks (de_uint 255)); ("device_id", checks de_string); ("peer_id", checks de_string);
   ("expires_at", checks de_u64)].
Definition claim_deserialize : decoder SessionClaimPayload := λ j,
  let? es := derived_struct false claim_fields j in
  let? version := required "version" (de_uint 255) es in
  let? device_id := required "device_id" de_string es in
  let? peer_id := required "peer_id" de_string es in
  let? expires_at := required "expires_at" de_u64 es in
  Ok (MkClaimPayload version device_id peer_id expires_at).

Section Claims.
Context {TC : TicketCrypto}.

Definition sign_bytes (key payload : string) : string := hmac_sha256 key payload.

Definition issue_session_claim (key device_id peer_id : string) (now : Z) : IssuedSessionClaim :=
  let payload := MkClaimPayload 1 device_id peer_id (u64_saturating_add now SESSION_CLAIM_TTL_SECS) in
  let payload_part := b64_encode (json_to_vec (claim_serialize payload)) in
  MkIssuedClaim (payload_part +:+ "." +:+ b64_encode (sign_bytes key payload_part)) (sc_expires_at payload).

Definition decode_and_verify_session_claim (key token peer_id : string) (now : Z) : result SessionClaimPayload ClaimError :=
  let? parts := ok_or (split_once "."%char token) ClaimIsInvalid in
  let expected_signature := sign_bytes key parts.1 in
  let? actual_signature := ok_or (b64_decode parts.2) ClaimIsInvalid in
  if negb (bool_decide (actual_signature = expected_signature)) then Err ClaimIsInvalid else
  let? payload_bytes := ok_or (b64_decode parts.1) ClaimIsInvalid in
  let? j := ok_or (json_from_slice payload_bytes) ClaimIsInvalid in
  let? payload := match claim_deserialize j with Ok p => Ok p | Err _ => Err ClaimIsInvalid end in
  if negb (sc_version payload =? 1) then Err ClaimVersion
  else if negb (bool_decide (sc_peer_id payload = peer_id)) then Err ClaimOtherPeer
  else if sc_expires_at payload <=? now then Err ClaimIsExpired
  else Ok payload.

Definition verify_session_claim (key token peer_id : string) (now : Z) (s : PairingState) : result string ClaimError :=
  let? payload := decode_and_verify_session_claim key token peer_id now in
  match paired_device_payload_secret (sc_device_id payload) s with
  | Ok _ => Ok (sc_device_id payload)
  | Err e => Err (ClaimDeviceGone e)
  end.
End Claims.

(** ** Proofs *)
Definition pairing_proof_message (pairing_id : string) (device_id : option string) : string :=
  "agent-relay:pairing:" +:+ pairing_id +:+ ":" +:+ default "" device_id.
Definition device_claim_proof_message (challenge_id challenge device_id peer_id : string) : string :=
  "agent-relay:claim-challenge:" +:+ challenge_id +:+ ":" +:+ challenge +:+ ":" +:+ device_id +:+ ":" +:+ peer_id.
Definition device_claim_init_proof_message (action_id device_id peer_id : string) : string :=
  "agent-relay:claim-init:" +:+ action_id +:+ ":" +:+ device_id +:+ ":" +:+ peer_id.

Inductive ProofError : Type := ProofKeyInvalid | ProofInvalid.

Section Proofs.
Context {DC : DeviceCrypto} {ED : Ed25519}.

(** What the three checks share. *)
Definition verify_proof (message verify_key_b64 signature_b64 : string) : result () ProofError :=
  let? verify_key := ok_or (decode_base64_array 32 verify_key_b64) ProofKeyInvalid in
  let? signature := ok_or (decode_base64_array 64 signature_b64) ProofInvalid in
  if negb (ed_key_ok verify_key) then Err ProofKeyInvalid
  else if ed_verify verify_key message signature then Ok () else Err ProofInvalid.

Definition verify_pairing_request_proof (pairing_id : string) (device_id : option string)
    (verify_key_b64 signature_b64 : string) : result () ProofError :=
  verify_proof (pairing_proof_message pairing_id device_id) verify_key_b64 signature_b64.
Definition verify_device_claim_challenge_proof (challenge_id challenge device_id peer_id verify_key_b64 signature_b64 : string) :
    result () ProofError :=
  verify_proof (device_claim_proof_message challenge_id challenge device_id peer_id) verify_key_b64 signature_b64.
Definition verify_device_claim_init_proof (action_id device_id peer_id verify_key_b64 signature_b64 : string) :
    result () ProofError :=
  verify_proof (device_claim_init_proof_message action_id device_id peer_id) verify_key_b64 signature_b64.
End Proofs.
