(* ===== verification/RemoteDispatch.v ===== *)
(** * Handling remote actions (crates/relay-server/src/broker/remote_actions.rs)

    Which device a request is executed for and with what authority, its execution, and the
    reply.  The operations of the application that actions call are the interface [RelayApp],
    over a state [A] beside the pairing state; the replay cache is only touched here.  What the
    code draws or reads along the way is a [Env]. *)

From Stdlib Require Import ZArith Lia.
From S2P Require Import Prelude RustStr Json ControlPlane JoinTicket Device RemoteActions Surfaces Snapshot Writer RemoteRequest RemoteReply RemoteChunks RemotePublish.

Open Scope string_scope.
Open Scope Z_scope.

Definition SESSION_CONTROL_REQUIRED_ERROR : string :=
  "broker transport auth only grants room access; session claim is missing or expired".

(** ** The application *)
Definition Call (A X : Type) : Type := PairingState * A → (PairingState * A) * result X string.

Inductive ApprovalError : Type := ApprovalNoPendingRequest | ApprovalBridge (message : string).
Inductive AskUserAnswerError : Type := AnswerNoPendingRequest | AnswerNoAnswers | AnswerBridge (message : string).

Class RelayApp (A : Type) := {
  app_snapshot : PairingState * A → SessionSnapshot;
  app_can_read_content : A → bool;
  app_surface_online : A → string → bool;
  start_session : ActionInput → Call A ();
  fork_session : ActionInput → Call A ();
  resume_session : ActionInput → Call A ();
  update_session_settings : ActionInput → Call A ();
  send_message : ActionInput → Call A ();
  request_review : ActionInput → Call A ();
  start_code_workflow : ActionInput → Call A ();
  cancel_review : option string → option string → Call A ();
  resolve_blocked_workflow : option string → option string → Call A ();
  delete_review : string → option string → Call A ();
  stop_active_turn : ActionInput → Call A ();
  take_over_control : ActionInput → Call A ();
  heartbeat_session : ActionInput → Call A ();
  watch_threads : ActionInput → Call A ();
  available_providers : A → list string;
  list_threads_matching : Z → option string → option string → option string → Call A ThreadsResponse;
  provider_models : string → Call A (list json);
  read_thread_entries : ActionInput → Call A json;
  read_thread_entry_detail : ActionInput → Call A json;
  read_thread_transcript : ActionInput → Call A json;
  decide_approval : string → ActionInput → PairingState * A → (PairingState * A) * result json ApprovalError;
  apply_file_change : string → ActionInput → Call A ();
  project_action : ActionInput → Call A ();
  rename_thread : string → ActionInput → Call A ();
  repair_thread_workspace : string → ActionInput → Call A ();
  workspace_diff : option string → option string → option string → Call A json;
  resolve_thread_workspace : string → option string → Call A json;
  measure_root_changes : json → PairingState * A → json;
  pin_thread_workspace : ActionInput → Call A json;
  thread_settings_view : option string → string → Call A json;
  workspace_git_context : option string → string → Call A json;
  reviews_payload : option string → PairingState * A → json;
  workflows_payload : option string → PairingState * A → json;
  devices_payload : PairingState * A → json;
  projects_payload : PairingState * A → json;
  read_ask_user_question_detail : string → option string → Call A json;
  submit_ask_user_answer : string → ActionInput → PairingState * A → (PairingState * A) * result json AskUserAnswerError;
  push_subscribe : ActionInput → Call A ();
  push_unsubscribe : string → string → Call A ()
}.

Definition approval_error_message (e : ApprovalError) : string :=
  match e with
  | ApprovalNoPendingRequest => "there is no approval request waiting for a remote decision"
  | ApprovalBridge message => message
  end.
Definition ask_user_answer_error_message (e : AskUserAnswerError) : string :=
  match e with
  | AnswerNoPendingRequest => "there is no AskUserQuestion waiting for a remote answer"
  | AnswerNoAnswers => "answers must include at least one entry"
  | AnswerBridge message => message
  end.

Section Execute.
Context {A : Type} `{RelayApp A}.

Definition outcome_of {X} (f : X → RemoteActionOutcome) (c : Call A X) : Call A RemoteActionOutcome := λ w,
  let '(w, r) := c w in (w, match r with Ok x => Ok (f x) | Err e => Err e end).
Definition done (c : Call A ()) : Call A RemoteActionOutcome := outcome_of (λ _, no_outcome) c.
Definition map_err {X E} (f : E → string) (c : PairingState * A → (PairingState * A) * result X E) : Call A X := λ w,
  let '(w, r) := c w in (w, match r with Ok x => Ok x | Err e => Err (f e) end).
Definition answer (f : PairingState * A → RemoteActionOutcome) : Call A RemoteActionOutcome := λ w, (w, Ok (f w)).

Definition execute_remote_action (r : RemoteActionRequest) : Call A RemoteActionOutcome :=
  match r with
  | ClaimChallenge _ | ClaimDevice _ _ =>
      λ w, (w, Err "claim actions must be handled before generic action execution")
  | StartSession input => done (start_session input)
  | ForkSession input => done (fork_session input)
  | ResumeSession input => done (resume_session input)
  | UpdateSessionSettings input => done (update_session_settings input)
  | SendMessage input => done (send_message input)
  | RequestReview input => done (request_review input)
  | StartWorkflow input => done (start_code_workflow input)
  | ResolveReview device_id review_job_id => done (cancel_review review_job_id device_id)
  | ResolveWorkflow device_id workflow_run_id => done (resolve_blocked_workflow workflow_run_id device_id)
  | DeleteReview device_id review_id => done (delete_review review_id device_id)
  | StopTurn input => done (stop_active_turn input)
  | TakeOver input => done (take_over_control input)
  | Heartbeat input => done (heartbeat_session input)
  | WatchThreads input => done (watch_threads input)
  | ListProviders => answer (λ w, no_outcome <| oc_providers := Some (available_providers w.2) |>)
  | ListThreads query =>
      outcome_of (λ threads, no_outcome <| oc_threads := Some threads |>)
        (list_threads_matching (Z.max 1 (Z.min (default 80 (tq_limit query)) 200)) (tq_device_id query)
           (tq_q query) (tq_ids query))
  | ListProviderModels provider =>
      outcome_of (λ models, no_outcome <| oc_models := Some models |>) (provider_models provider)
  | FetchThreadEntries input => outcome_of (λ x, no_outcome <| oc_thread_entries := Some x |>) (read_thread_entries input)
  | FetchThreadEntryDetail input =>
      outcome_of (λ x, no_outcome <| oc_thread_entry_detail := Some x |>) (read_thread_entry_detail input)
  | FetchThreadTranscript input =>
      outcome_of (λ x, no_outcome <| oc_thread_transcript := Some x |>) (read_thread_transcript input)
  | DecideApproval request_id input =>
      outcome_of (λ x, no_outcome <| oc_receipt := Some x |>) (map_err approval_error_message (decide_approval request_id input))
  | ApplyFileChange item_id input => done (apply_file_change item_id input)
  | ProjectAction input => done (project_action input)
  | RenameThread thread_id input => done (rename_thread thread_id input)
  | RepairWorkspace thread_id input => done (repair_thread_workspace thread_id input)
  | FetchWorkspaceDiff device_id thread_id view_root =>
      outcome_of (λ x, no_outcome <| oc_workspace_diff := Some x |>) (workspace_diff device_id thread_id view_root)
  | FetchThreadWorkspace device_id thread_id roots_status => λ w,
      match resolve_thread_workspace thread_id device_id w with
      | (w, Err e) => (w, Err e)
      | (w, Ok workspace) =>
          (w, Ok (no_outcome <| oc_thread_workspace :=
                    Some (if roots_status then measure_root_changes workspace w else workspace) |>))
      end
  | SetThreadWorkspace _ input =>
      outcome_of (λ x, no_outcome <| oc_thread_workspace := Some x |>) (pin_thread_workspace input)
  | FetchThreadSettings device_id thread_id =>
      outcome_of (λ x, no_outcome <| oc_thread_settings := Some x |>) (thread_settings_view device_id thread_id)
  | FetchWorkspaceGitContext device_id cwd =>
      outcome_of (λ x, no_outcome <| oc_workspace_git_context := Some x |>) (workspace_git_context device_id (default "" cwd))
  | FetchReviews device_id => answer (λ w, no_outcome <| oc_reviews := Some (reviews_payload device_id w) |>)
  | FetchWorkflows device_id => answer (λ w, no_outcome <| oc_workflows := Some (workflows_payload device_id w) |>)
  | FetchDevices _ => answer (λ w, no_outcome <| oc_devices := Some (devices_payload w) |>)
  | FetchProjects _ => answer (λ w, no_outcome <| oc_projects := Some (projects_payload w) |>)
  | FetchAskUserQuestionDetail device_id request_id =>
      outcome_of (λ x, no_outcome <| oc_ask_user_question_detail := Some x |>)
        (read_ask_user_question_detail request_id device_id)
  | SubmitAskUserAnswer request_id input =>
      outcome_of (λ x, no_outcome <| oc_ask_user_answer_receipt := Some x |>)
        (map_err ask_user_answer_error_message (submit_ask_user_answer request_id input))
  | RegisterPushSubscription input => done (push_subscribe input)
  | UnregisterPushSubscription device_id endpoint => λ w,
      match device_id with
      | None => (w, Err "missing device id")
      | Some device_id => done (push_unsubscribe device_id endpoint) w
      end
  end.
End Execute.

(** ** The relay as the handlers see it *)
Record World (A : Type) : Type := MkWorld {
  wo_pairing : PairingState; wo_replays : gmap string (@CachedRemoteActionState CachedReply); wo_app : A
}.
Arguments MkWorld {A}. Arguments wo_pairing {A}. Arguments wo_replays {A}. Arguments wo_app {A}.

Record Env : Type := MkEnv {
  en_now : Z; en_claim_key : string; en_challenge_token : string; en_challenge : string; en_nonces : Nonces
}.

(** The messages the errors are shown as. *)
Definition device_message (e : DeviceError) : string :=
  match e with
  | MissingOrExpired => "pairing request is missing or expired"
  | InvalidSecret => "pairing secret is invalid"
  | AnotherDeviceWaiting => "another device is already waiting for approval on this pairing ticket; generate a fresh pairing ticket for this device"
  | NotWaiting => "pairing request is not waiting for approval"
  | WrongDevice => "pairing request does not match the approved device"
  | NotPaired => "device is not paired"
  | ChallengeMissing => "claim challenge is missing or expired"
  | ChallengeWrongDevice => "claim challenge does not belong to this device"
  | ChallengeWrongPeer => "claim challenge does not belong to this broker peer"
  | VerifyKeyMissing => "device verify key is missing; re-pair this device"
  | CompletedMissing => "completed pairing result is missing"
  end.
Definition claim_message (e : ClaimError) : string :=
  match e with
  | ClaimIsInvalid => "session claim is invalid"
  | ClaimVersion => "session claim version is unsupported"
  | ClaimOtherPeer => "session claim is bound to a different broker peer"
  | ClaimIsExpired => "session claim has expired"
  | ClaimDeviceGone e => device_message e
  end.
Definition proof_message (e : ProofError) : string :=
  match e with ProofKeyInvalid => "device verify key is invalid" | ProofInvalid => "device claim proof is invalid" end.

(** The detail a library adds to its message is left out. *)
Definition crypto_message (e : CryptoError) : string :=
  match e with
  | EncryptionFailed => "encryption failed" | InvalidNonce => "invalid envelope nonce"
  | InvalidNonceLength => "invalid envelope nonce length" | InvalidCiphertext => "invalid envelope ciphertext"
  | DecryptionFailed => "decryption failed" | UndecodablePayload => "failed to decode decrypted payload"
  end.
Definition error_message (e : HandlerError) : string :=
  match e with
  | WriterGone => "broker writer task has stopped"
  | SealError e | ChunkFailure (SealFailed e) => crypto_message e
  | ChunkFailure StillTooLarge => "remote action result chunk payload still exceeds broker frame limit"
  | MissingSnapshot => "remote session result is missing snapshot"
  | DeviceFailure e => device_message e
  | Refused message => message
  end.

(** [RemoteActionRequest] as serde reads it. *)
Class RequestSerde := request_of_json : json → option RemoteActionRequest.

Section Dispatch.
Context {A : Type} {RA : RelayApp A} {TC : TicketCrypto} {DC : DeviceCrypto} {SB : SecretBox} {ED : Ed25519}.
Context {VS : ViewSerde} {SS : SnapshotSizes} {RS : RequestSerde}.

Definition on_pairing {X} (f : PairingState → PairingState * X) (w : World A) : World A * X :=
  let '(s, x) := f (wo_pairing w) in (MkWorld s (wo_replays w) (wo_app w), x).
Definition on_app {X} (f : PairingState * A → (PairingState * A) * X) (w : World A) : World A * X :=
  let '((s, a), x) := f (wo_pairing w, wo_app w) in (MkWorld s (wo_replays w) a, x).
Definition world_snapshot (w : World A) : SessionSnapshot := app_snapshot (wo_pairing w, wo_app w).

(** *** Whose request it is *)
Definition verify_remote_device_claim (s : PairingState) (device_id challenge_id challenge peer_id proof : string) :
    result () string :=
  match paired_device_verify_key device_id s with
  | Err e => Err (device_message e)
  | Ok verify_key =>
      match verify_device_claim_challenge_proof challenge_id challenge device_id peer_id verify_key proof with
      | Ok _ => Ok () | Err e => Err (proof_message e)
      end
  end.
Definition verify_remote_device_claim_init (s : PairingState) (device_id action_id peer_id proof : string) : result () string :=
  match paired_device_verify_key device_id s with
  | Err e => Err (device_message e)
  | Ok verify_key =>
      match verify_device_claim_init_proof action_id device_id peer_id verify_key proof with
      | Ok _ => Ok () | Err e => Err (proof_message e)
      end
  end.

Definition resolve_plain_remote_device (env : Env) (s : PairingState) (from_peer_id action_id : string)
    (session_claim device_id : option string) (request : RemoteActionRequest) : result string string :=
  match session_claim with
  | Some claim =>
      match verify_session_claim (en_claim_key env) claim from_peer_id (en_now env) s with
      | Ok device_id => Ok device_id | Err e => Err (claim_message e)
      end
  | None =>
      let kind := request_kind request in
      match device_id with
      | None => Err (if requires_session_claim kind then SESSION_CONTROL_REQUIRED_ERROR
                     else action_kind_as_str kind +:+ " requires device_id")
      | Some device_id =>
          if requires_session_claim kind then Err SESSION_CONTROL_REQUIRED_ERROR else
          match request with
          | ClaimChallenge proof =>
              let? _ := verify_remote_device_claim_init s device_id action_id from_peer_id proof in Ok device_id
          | _ => Ok device_id
          end
      end
  end.

Record ResolvedEncryptedAction : Type := MkResolved {
  ra_device_id : string; ra_request : RemoteActionRequest; ra_response_secret : string
}.

Definition decrypt_remote_action_with_secret (secret : string) (envelope : EncryptedEnvelope) :
    result RemoteActionRequest HandlerError :=
  match decrypt_json request_of_json secret envelope with Ok r => Ok r | Err e => Err (SealError e) end.
Definition decrypt_remote_action (s : PairingState) (device_id : string) (envelope : EncryptedEnvelope) :
    result RemoteActionRequest HandlerError :=
  match paired_device_payload_secret device_id s with
  | Err e => Err (DeviceFailure e)
  | Ok secret => decrypt_remote_action_with_secret secret envelope
  end.
Definition decrypt_remote_action_kind (s : PairingState) (device_id : string) (envelope : EncryptedEnvelope) :
    result RemoteActionKind HandlerError :=
  let? request := decrypt_remote_action s device_id envelope in Ok (request_kind request).

Definition resolve_encrypted_action_context (env : Env) (s : PairingState) (from_peer_id : string)
    (session_claim device_id : option string) (envelope : EncryptedEnvelope) :
    result ResolvedEncryptedAction HandlerError :=
  let opened (device_id : string) :=
    match paired_device_payload_secret device_id s with
    | Err e => Err (DeviceFailure e)
    | Ok secret =>
        let? request := decrypt_remote_action_with_secret secret envelope in Ok (MkResolved device_id request secret)
    end in
  match session_claim with
  | Some claim =>
      match verify_session_claim (en_claim_key env) claim from_peer_id (en_now env) s with
      | Err e => Err (Refused (claim_message e))
      | Ok device_id => opened device_id
      end
  | None =>
      match device_id with
      | None => Err (Refused "encrypted remote action is missing device_id")
      | Some device_id =>
          let? resolved := opened device_id in
          if requires_session_claim (request_kind (ra_request resolved)) then Err (Refused SESSION_CONTROL_REQUIRED_ERROR)
          else Ok resolved
      end
  end.

(** *** Claims *)
Definition mark_remote_device_seen (env : Env) (device_id peer_id : string) (w : World A) : World A * result () string :=
  on_pairing (λ s, let '(s, r) := mark_paired_device_seen device_id peer_id (en_now env) s in
                   (s, match r with Ok _ => Ok () | Err e => Err (device_message e) end)) w.

Definition issue_claim_challenge_outcome (env : Env) (device_id peer_id : string) (w : World A) :
    World A * result RemoteActionOutcome string :=
  match mark_remote_device_seen env device_id peer_id w with
  | (w, Err e) => (w, Err e)
  | (w, Ok _) =>
      on_pairing (λ s,
        let '(s, r) := issue_claim_challenge device_id peer_id (en_challenge_token env) (en_challenge env) (en_now env) s in
        (s, match r with
            | Err e => Err (device_message e)
            | Ok c => Ok (no_outcome <| oc_claim_challenge_id := Some (ic_challenge_id c) |>
                                     <| oc_claim_challenge := Some (ic_challenge c) |>
                                     <| oc_claim_challenge_expires_at := Some (ic_expires_at c) |>)
            end)) w
  end.

Definition with_claim (claim : IssuedSessionClaim) (o : RemoteActionOutcome) : RemoteActionOutcome :=
  o <| oc_session_claim := Some (si_token claim) |> <| oc_session_claim_expires_at := Some (si_expires_at claim) |>.

Definition issue_claim_outcome (env : Env) (device_id peer_id challenge_id proof : string) (w : World A) :
    World A * result RemoteActionOutcome string :=
  match on_pairing (claim_challenge device_id challenge_id peer_id (en_now env)) w with
  | (w, Err e) => (w, Err (device_message e))
  | (w, Ok challenge) =>
      match verify_remote_device_claim (wo_pairing w) device_id (cc_challenge_id challenge) (cc_challenge challenge)
              peer_id proof with
      | Err e => (w, Err e)
      | Ok _ =>
          match on_pairing (complete_remote_claim device_id (cc_challenge_id challenge) peer_id (en_now env)) w with
          | (w, Err e) => (w, Err (device_message e))
          | (w, Ok _) => (w, Ok (with_claim (issue_session_claim (en_claim_key env) device_id peer_id (en_now env)) no_outcome))
          end
      end
  end.

Definition attach_session_claim_if_needed (env : Env) (action : RemoteActionKind) (device_id peer_id : string)
    (outcome : RemoteActionOutcome) : RemoteActionOutcome :=
  if issues_session_claim action
  then with_claim (issue_session_claim (en_claim_key env) device_id peer_id (en_now env)) outcome
  else outcome.

(** *** Execution *)
Definition execute_fire_and_forget_remote_action (env : Env) (device_id peer_id : string) (request : RemoteActionRequest)
    (w : World A) : World A * result () HandlerError :=
  match mark_remote_device_seen env device_id peer_id w with
  | (w, Err e) => (w, Err (Refused e))
  | (w, Ok _) => ((on_app (execute_remote_action request) w).1, Ok ())
  end.

(** The match both handlers run a reserved action with. *)
Definition run_action (env : Env) (device_id peer_id : string) (request : RemoteActionRequest) (w : World A) :
    World A * result RemoteActionOutcome string :=
  match request with
  | ClaimChallenge _ => issue_claim_challenge_outcome env device_id peer_id w
  | ClaimDevice challenge_id proof => issue_claim_outcome env device_id peer_id challenge_id proof w
  | _ =>
      match mark_remote_device_seen env device_id peer_id w with
      | (w, Err e) => (w, Err e)
      | (w, Ok _) =>
          match on_app (execute_remote_action (bind_device device_id request)) w with
          | (w, Err e) => (w, Err e)
          | (w, Ok outcome) => (w, Ok (attach_session_claim_if_needed env (request_kind request) device_id peer_id outcome))
          end
      end
  end.

Definition reserve (env : Env) (device_id action_id : string) (action : RemoteActionKind) (w : World A) :
    World A * result (@RemoteActionReplayDecision CachedReply) string :=
  let '(m, r) := reserve_remote_action device_id action_id (action_kind_as_str action) (en_now env) (wo_replays w) in
  (MkWorld (wo_pairing w) m (wo_app w),
   match r with
   | Ok d => Ok d
   | Err InUseForAnother => Err "action_id is already in use for a different remote action"
   | Err UsedForAnother => Err "action_id has already been used for a different remote action"
   end).
Definition store (env : Env) (device_id action_id : string) (action : RemoteActionKind) (reply : CachedReply) (w : World A) :
    World A :=
  MkWorld (wo_pairing w)
    (store_remote_action_result device_id action_id (MkCachedResult (action_kind_as_str action) reply) (en_now env) (wo_replays w))
    (wo_app w).

(** What is kept of a result. *)
Definition cached_result (action : RemoteActionKind) (result : result RemoteActionOutcome string)
    (response_secret : option string) (w : World A) : CachedReply :=
  let '(ok, outcome, error) := match result with
                               | Ok outcome => (true, outcome, None)
                               | Err e => (false, no_outcome, Some e)
                               end in
  cached_remote_action_result action (world_snapshot w) outcome error ok response_secret.

(** From the reservation on: the reply, and whether the action was executed for it; a request
    still being executed gets none. *)
Definition reserved_action (env : Env) (device_id peer_id action_id : string) (request : RemoteActionRequest)
    (response_secret : option string) (w : World A) : World A * option (CachedReply * bool) :=
  let action := request_kind request in
  match reserve env device_id action_id action w with
  | (w, Ok Execute) =>
      let '(w, result) := run_action env device_id peer_id request w in
      let reply := cached_result action result response_secret w in
      (store env device_id action_id action reply w, Some (reply, true))
  | (w, Ok (Replay cached)) => (w, Some (car_reply cached, false))
  | (w, Ok InFlight) => (w, None)
  | (w, Err e) =>
      let reply := cached_result action (Err e) None w in
      (store env device_id action_id action reply w, Some (reply, false))
  end.

Definition handle_remote_action (env : Env) (from_peer_id action_id : string) (session_claim device_id : option string)
    (request : RemoteActionRequest) (w : World A) (h : Handle) : World A * Handle * result () HandlerError :=
  if negb (app_can_read_content (wo_app w))
  then (w, h, Err (Refused "plaintext remote actions are disabled in private mode")) else
  let action := request_kind request in
  let online := app_surface_online (wo_app w) in
  match resolve_plain_remote_device env (wo_pairing w) from_peer_id action_id session_claim device_id request with
  | Err e =>
      let '(h, r) := publish_plain_remote_action_result online from_peer_id action_id action
                       (remote_action_result_snapshot action (world_snapshot w)) no_outcome (Some e) false h in
      (w, h, r)
  | Ok device_id =>
      if is_fire_and_forget_action action then
        let '(w, r) := execute_fire_and_forget_remote_action env device_id from_peer_id (bind_device device_id request) w in
        (w, h, r)
      else
        match reserved_action env device_id from_peer_id action_id request None w with
        | (w, None) => (w, h, Ok ())
        | (w, Some (reply, _)) =>
            let '(h, r) := replay_plain_remote_action_result (app_surface_online (wo_app w)) from_peer_id action_id action reply h in
            (w, h, r)
        end
  end.

Definition forgive_unpaired (r : result () HandlerError) : result () HandlerError :=
  match r with Err e => if is_not_paired e then Ok () else r | Ok _ => r end.

Definition handle_encrypted_remote_action (env : Env) (from_peer_id action_id : string)
    (session_claim hinted_device_id : option string) (envelope : EncryptedEnvelope) (w : World A) (h : Handle) :
    World A * Handle * result () HandlerError :=
  match resolve_encrypted_action_context env (wo_pairing w) from_peer_id session_claim hinted_device_id envelope with
  | Err e =>
      match hinted_device_id with
      | None => (w, h, Err e)
      | Some device_id =>
          let action := match decrypt_remote_action_kind (wo_pairing w) device_id envelope with Ok k => k | Err _ => KClaimDevice end in
          let '(h, r) := publish_remote_action_result_private (app_surface_online (wo_app w)) (en_nonces env) (wo_pairing w)
                           from_peer_id device_id action_id action
                           (remote_action_result_snapshot action (world_snapshot w)) no_outcome
                           (Some (error_message e)) false None h in
          (w, h, forgive_unpaired r)
      end
  | Ok resolved =>
      let device_id := ra_device_id resolved in
      let request := ra_request resolved in
      let action := request_kind request in
      if is_fire_and_forget_action action then
        let '(w, r) := execute_fire_and_forget_remote_action env device_id from_peer_id (bind_device device_id request) w in
        (w, h, r)
      else
        match reserved_action env device_id from_peer_id action_id request (Some (ra_response_secret resolved)) w with
        | (w, None) => (w, h, Ok ())
        | (w, Some (reply, executed)) =>
            let '(h, r) := replay_encrypted_remote_action_result (app_surface_online (wo_app w)) (en_nonces env) (wo_pairing w)
                             from_peer_id device_id action_id action reply h in
            (w, h, if executed : bool then forgive_unpaired r else r)
        end
  end.

(** The two kinds of action a surface sends. *)
Inductive SurfaceAction : Type :=
| PlainAction (action_id : string) (session_claim device_id : option string) (request : RemoteActionRequest)
| SealedAction (action_id : string) (session_claim device_id : option string) (envelope : EncryptedEnvelope).
Definition handle_action (env : Env) (from_peer_id : string) (m : SurfaceAction) (w : World A) (h : Handle) :
    World A * Handle * result () HandlerError :=
  match m with
  | PlainAction action_id session_claim device_id request =>
      handle_remote_action env from_peer_id action_id session_claim device_id request w h
  | SealedAction action_id session_claim device_id envelope =>
      handle_encrypted_remote_action env from_peer_id action_id session_claim device_id envelope w h
  end.
End Dispatch.
