(* ===== verification/ChunkTheorems.v ===== *)
(** * Large replies arrive

    The compact encoding of JSON has the size [json_size]; with it, the frames of a reply cut
    by [fit_chunks] are within the limit of the broker, cutting always succeeds, and what the
    surface puts together is the reply. *)

From Stdlib Require Import ZArith Lia Ascii.
From S2P Require Import Prelude RustStr Json JoinTicket Device Snapshot Admission RemoteRequest RemoteReply RemoteChunks.

Open Scope string_scope.
Open Scope Z_scope.

(** ** The size of JSON *)

(** How many bytes serde_json writes for a byte of a string. *)
Definition esc_len (a : ascii) : Z :=
  let b := byte_val a in
  if (b =? 34) || (b =? 92) then 2
  else if b <? 32 then (if (b =? 8) || (b =? 9) || (b =? 10) || (b =? 12) || (b =? 13) then 2 else 6)
  else 1.
Fixpoint str_size (s : string) : Z := match s with "" => 0 | String a s => esc_len a + str_size s end.

(** A number of at most twenty digits. *)
Fixpoint digits (fuel : nat) (z : Z) : Z :=
  match fuel with O => 1 | S fuel => if z <? 10 then 1 else 1 + digits fuel (z / 10) end.
Definition dec_len (z : Z) : Z := if z <? 0 then 1 + digits 19 (- z) else digits 19 z.

Definition commas {A} (l : list A) : Z := Z.max 0 (Z.of_nat (length l) - 1).
Fixpoint json_size (j : json) : Z :=
  match j with
  | JNull => 4
  | JBool b => if b then 4 else 5
  | JU64 z | JI64 z => dec_len z
  | JF64 repr => str_len repr
  | JStr s => 2 + str_size s
  | JSeq l => 2 + commas l + (fix sum l := match l with [] => 0 | j :: l => json_size j + sum l end) l
  | JMap es => 2 + commas es + (fix sum es := match es with
                                | [] => 0
                                | (k, j) :: es => 3 + str_size k + json_size j + sum es
                                end) es
  end.

(** Documented behaviour of serde_json, base64 and XSalsa20-Poly1305. *)
Class JsonSizes `{TicketCrypto} : Prop := json_text_size : ∀ j, str_len (json_to_vec j) = json_size j.
Class SecretBoxLaws `{DeviceCrypto, SecretBox} : Prop := {
  std_b64_round_trip : ∀ s, std_b64_decode (std_b64_encode s) = Some s;
  std_b64_len : ∀ s, str_len (std_b64_encode s) = 4 * ((str_len s + 2) / 3);
  std_b64_plain : ∀ s, str_size (std_b64_encode s) = str_len (std_b64_encode s);
  xsalsa_len : ∀ k n p c, xsalsa_encrypt k n p = Some c → str_len c = str_len p + 16;
  xsalsa_opens : ∀ k n p c, xsalsa_encrypt k n p = Some c → xsalsa_decrypt k n c = Some p
}.

Lemma str_len_nonneg s : 0 ≤ str_len s. Proof. unfold str_len. lia. Qed.
Lemma str_len_app s t : str_len (s +:+ t) = str_len s + str_len t.
Proof. unfold str_len. induction s as [|a s IH]; cbn [String.append String.length] in *; lia. Qed.
Lemma esc_len_bound a : 1 ≤ esc_len a ≤ 6.
Proof. unfold esc_len. repeat case_match; lia. Qed.
Lemma str_size_nonneg s : 0 ≤ str_size s.
Proof. induction s as [|a s IH]; cbn; [lia|]. pose proof (esc_len_bound a). lia. Qed.
Lemma str_size_app s t : str_size (s +:+ t) = str_size s + str_size t.
Proof. induction s as [|a s IH]; cbn [String.append str_size]; lia. Qed.

Lemma digits_le f : ∀ a b, a ≤ b → digits f a ≤ digits f b.
Proof.
  induction f as [|f IH]; intros a b Hab; cbn; [lia|].
  assert (∀ z, 1 ≤ digits f z) as Hpos. { intros z. clear. revert z. induction f; intros z; cbn; [lia|]. case_match; [lia|]. specialize (IHf (z / 10)). lia. }
  destruct (Z.ltb_spec a 10), (Z.ltb_spec b 10); try lia; [specialize (Hpos (b / 10)); lia|].
  pose proof (IH (a / 10) (b / 10)). assert (a / 10 ≤ b / 10) by (apply Z.div_le_mono; lia). lia.
Qed.
Lemma digits_bound f : ∀ a, 1 ≤ digits f a ≤ 1 + Z.of_nat f.
Proof.
  induction f as [|f IH]; intros a; cbn [digits]; [lia|]. case_match; [lia|]. specialize (IH (a / 10)). lia.
Qed.
Lemma dec_len_mono a b : 0 ≤ a ≤ b → dec_len a ≤ dec_len b.
Proof.
  intros H. unfold dec_len. destruct (Z.ltb_spec a 0), (Z.ltb_spec b 0); try lia. apply digits_le. lia.
Qed.
Lemma dec_len_bound a : 0 ≤ a → 1 ≤ dec_len a ≤ 20.
Proof. intros. unfold dec_len. destruct (Z.ltb_spec a 0); [lia|]. pose proof (digits_bound 19 a). lia. Qed.

(** ** Cutting *)
Definition joined (pieces : list string) : string := foldr String.append "" pieces.

(** The cases of [char_strings]: the first character, and the rest. *)
Lemma char_strings_cons a s : ∃ c s', char_strings (String a s) = c :: char_strings s' ∧ String a s = c +:+ s' ∧
  str_size c ≤ 24 ∧ (String.length s' <= String.length s)%nat.
Proof.
  cbn [char_strings]. pose proof (esc_len_bound a).
  destruct (byte_val a <? 192); [exists (String a ""), s; cbn; split_and!; try done; lia|].
  destruct s as [|b s]; [exists (String a ""), ""; cbn; split_and!; try done; lia|]. pose proof (esc_len_bound b).
  destruct (byte_val a <? 224); [exists (String a (String b "")), s; cbn; split_and!; try done; lia|].
  destruct s as [|c s]; [exists (String a (String b "")), ""; cbn; split_and!; try done; lia|]. pose proof (esc_len_bound c).
  destruct (byte_val a <? 240); [exists (String a (String b (String c ""))), s; cbn; split_and!; try done; lia|].
  destruct s as [|d s]; [exists (String a (String b (String c ""))), ""; cbn; split_and!; try done; lia|].
  pose proof (esc_len_bound d). exists (String a (String b (String c (String d "")))), s. cbn. split_and!; try done; lia.
Qed.

Lemma char_strings_spec s : joined (char_strings s) = s ∧ Forall (λ c, str_size c ≤ 24) (char_strings s).
Proof.
  enough (∀ n s, (String.length s <= n)%nat → joined (char_strings s) = s ∧ Forall (λ c, str_size c ≤ 24) (char_strings s))
    as H by (apply (H (String.length s)); lia).
  clear s. intros n. induction n as [|n IH]; intros [|a s] Hn; try (cbn in Hn; lia); try by split.
  destruct (char_strings_cons a s) as (c & s' & E & E' & Hc & Hl). cbn in Hn.
  destruct (IH s') as [J F]; [lia|]. rewrite E, E'. split; [|by apply Forall_cons_2].
  change (c +:+ joined (char_strings s') = c +:+ s'). by rewrite J.
Qed.

Lemma joined_cons c l : joined (c :: l) = c +:+ joined l. Proof. done. Qed.

Lemma split_loop_spec max cs : 1 ≤ max → Forall (λ c, str_size c ≤ 24) cs →
  ∀ piece n, 0 ≤ n ≤ max → str_size piece ≤ 24 * n →
  let ps := split_loop max cs piece n in
  joined ps = piece +:+ joined cs ∧ Forall (λ p, str_size p ≤ 24 * max) ps ∧ ps ≠ [].
Proof.
  intros Hm. induction cs as [|c cs IH]; intros Hcs piece n Hn Hp; cbn [split_loop].
  { split_and!; [done| |done]. apply Forall_cons_2; [lia|constructor]. }
  apply Forall_cons in Hcs as [Hc Hcs]. destruct (Z.eqb_spec n max) as [->|Hne].
  - destruct (IH Hcs c 1) as (E & F & _); [lia|lia|]. rewrite !joined_cons, E. split_and!; [done| |done]. by apply Forall_cons_2; [lia|].
  - destruct (IH Hcs (piece +:+ c) (n + 1)) as (E & F & N); [lia|rewrite str_size_app; lia|].
    rewrite joined_cons, E. split_and!; [|done|done]. apply string_app_assoc.
Qed.

Lemma split_spec s c : 1 ≤ c →
  let ps := split_on_char_boundaries s c in
  joined ps = s ∧ Forall (λ p, str_size p ≤ 24 * c) ps ∧ ps ≠ [].
Proof.
  intros Hc ps. destruct (split_loop_spec (Z.max c 1) (char_strings s) ltac:(lia) (proj2 (char_strings_spec s)) "" 0) as (E & F & N);
    [lia|done|]. unfold ps, split_on_char_boundaries. split_and!; [|by replace (Z.max c 1) with c in * by lia|done].
  rewrite E. apply char_strings_spec.
Qed.

Section Fit.
Context {S : Type} (frame_bytes : string → Z → Z → S → S * Z).

(** A closure whose answer does not depend on its state. *)
Lemma largest_frame_spec (f : string → Z → Z → Z) (g : string → Z → Z → S → S) last count :
  (∀ p i n s, frame_bytes p i n s = (g p i n s, f p i n)) → ∀ pieces m s,
  let '(s', b) := largest_frame frame_bytes pieces last count m s in
  s' = foldl (λ s p, g p last count s) s pieces ∧ m ≤ b ∧ Forall (λ p, f p last count ≤ b) pieces ∧
  (∀ B, m ≤ B → Forall (λ p, f p last count ≤ B) pieces → b ≤ B).
Proof.
  intros Hf pieces. induction pieces as [|p ps IH]; intros m s; cbn; [split_and!; [done|lia|constructor|done]|].
  rewrite Hf. specialize (IH (Z.max m (f p last count)) (g p last count s)).
  destruct (largest_frame _ _ _ _ _ _) as [s' b]. destruct IH as (-> & Hm & HF & HB).
  split_and!; [done|lia|apply Forall_cons_2; [lia|done]|].
  intros B HmB [Hp HF']%Forall_cons. apply HB; [lia|done].
Qed.

(** What the loop returns: pieces of some size whose largest measured frame fits, or nothing,
    after pieces of at most the minimal size did not fit. *)
Lemma fit_loop_spec fuel ser : ∀ c s, 1 ≤ c → (Z.to_nat c < fuel)%nat →
  let '(s', r) := fit_loop frame_bytes fuel ser c s in
  ∃ c0 s0 b, 1 ≤ c0 ∧ let ps := split_on_char_boundaries ser c0 in let n := Z.of_nat (length ps) in
    largest_frame frame_bytes ps (Z.max 0 (n - 1)) n 0 s0 = (s', b) ∧
    match r with
    | Some ps' => ps' = ps ∧ b ≤ MAX_BROKER_TEXT_FRAME_BYTES
    | None => c0 ≤ REMOTE_ACTION_RESULT_CHUNK_MIN_CHARS ∧ MAX_BROKER_TEXT_FRAME_BYTES < b
    end.
Proof.
  induction fuel as [|fuel IH]; intros c s Hc Hf; [lia|]. cbn [fit_loop].
  destruct (largest_frame _ _ _ _ _ _) as [s1 b] eqn:E.
  destruct (Z.leb_spec b MAX_BROKER_TEXT_FRAME_BYTES) as [Hb|Hb].
  { exists c, s, b. split; [done|]. rewrite E. done. }
  destruct (Z.leb_spec c REMOTE_ACTION_RESULT_CHUNK_MIN_CHARS) as [Hm|Hm].
  { exists c, s, b. split; [done|]. rewrite E. done. }
  unfold REMOTE_ACTION_RESULT_CHUNK_MIN_CHARS in *.
  assert (c / 2 < c) by (apply Z.div_lt; lia). apply IH; lia.
Qed.

Lemma fit_chunks_spec ser target s : 1 ≤ target →
  let '(s', r) := fit_chunks frame_bytes ser target s in
  ∃ c0 s0 b, 1 ≤ c0 ∧ let ps := split_on_char_boundaries ser c0 in let n := Z.of_nat (length ps) in
    largest_frame frame_bytes ps (Z.max 0 (n - 1)) n 0 s0 = (s', b) ∧
    match r with
    | Some ps' => ps' = ps ∧ b ≤ MAX_BROKER_TEXT_FRAME_BYTES
    | None => c0 ≤ REMOTE_ACTION_RESULT_CHUNK_MIN_CHARS ∧ MAX_BROKER_TEXT_FRAME_BYTES < b
    end.
Proof. intros Ht. apply fit_loop_spec; lia. Qed.

(** What every call of the closure keeps. *)
Lemma fit_chunks_inv (Q : S → Prop) ser target : (∀ p i n s, Q s → Q (frame_bytes p i n s).1) →
  ∀ s, Q s → Q (fit_chunks frame_bytes ser target s).1.
Proof.
  intros HQ. assert (∀ ps i n m s, Q s → Q (largest_frame frame_bytes ps i n m s).1) as HL.
  { intros ps i n. induction ps as [|p ps IH]; intros m s Hs; cbn; [done|].
    specialize (HQ p i n s Hs). destruct (frame_bytes p i n s) as [s' b]. by apply IH. }
  unfold fit_chunks. generalize (Datatypes.S (Z.to_nat (Z.max (Z.min (Z.of_nat (length (chars ser))) target) 1))).
  intros fuel. generalize (Z.max (Z.min (Z.of_nat (length (chars ser))) target) 1).
  induction fuel as [|fuel IH]; intros c s Hs; cbn [fit_loop]; [done|].
  set (ps := split_on_char_boundaries ser c).
  specialize (HL ps (Z.max 0 (Z.of_nat (length ps) - 1)) (Z.of_nat (length ps)) 0 s Hs).
  destruct (largest_frame _ _ _ _ _ _) as [s' b]. repeat case_match; try done. by apply IH.
Qed.
End Fit.

(** ** The size of a chunk's frame *)

(** The sizes of literals. *)
Ltac literal_sizes :=
  repeat match goal with
  | |- context [str_size (String ?a ?s)] =>
      let v := eval vm_compute in (str_size (String a s)) in change (str_size (String a s)) with v
  | |- context [commas (?x :: ?l)] =>
      let v := eval cbv in (commas (x :: l)) in change (commas (x :: l)) with v
  | |- context [dec_len BROKER_PROTOCOL_VERSION] => change (dec_len BROKER_PROTOCOL_VERSION) with 1
  | |- context [dec_len RELAY_PROTOCOL_VERSION] => change (dec_len RELAY_PROTOCOL_VERSION) with 1
  end.
Section Sizes.
Context {TC : TicketCrypto} {VS : ViewSerde} {JS : JsonSizes}.

Lemma action_name_size k : 0 ≤ str_size (action_kind_as_str k) ≤ 40.
Proof. destruct k; vm_compute; split; discriminate. Qed.

Lemma plain_chunk_bytes action_id peer action i n piece :
  frame_bytes_for_payload (plain_chunk action_id peer action i n piece) =
  195 + str_size action_id + str_size peer + str_size (action_kind_as_str action) + dec_len i + dec_len n + str_size piece.
Proof using JS.
  unfold frame_bytes_for_payload, frame_text_for_payload. rewrite json_text_size. cbn -[str_size dec_len action_kind_as_str Z.add].
  literal_sizes. lia.
Qed.

Lemma plain_chunk_mono action_id peer action i j n piece : 0 ≤ i ≤ j →
  frame_bytes_for_payload (plain_chunk action_id peer action i n piece) ≤
  frame_bytes_for_payload (plain_chunk action_id peer action j n piece).
Proof using JS. intros H. rewrite !plain_chunk_bytes. pose proof (dec_len_mono i j H). lia. Qed.

Context {DC : DeviceCrypto} {SB : SecretBox} {SL : SecretBoxLaws}.

Definition sealed_chunk_len (action_id : string) (action : RemoteActionKind) (i n : Z) (piece : string) : Z :=
  68 + str_size action_id + str_size (action_kind_as_str action) + dec_len i + dec_len n + str_size piece.
Lemma chunk_plaintext_len action_id action i n piece :
  str_len (json_to_vec (chunk_plaintext action_id action i n piece)) = sealed_chunk_len action_id action i n piece.
Proof using JS.
  unfold sealed_chunk_len. rewrite json_text_size. cbn -[str_size dec_len action_kind_as_str Z.add]. literal_sizes. lia.
Qed.

Lemma seal_chunk_spec secret nonce action_id peer device action i n piece payload : str_len nonce = 24 →
  seal_chunk secret nonce action_id peer device action i n piece = Ok payload →
  ∃ envelope, payload = OEncryptedRemoteActionResultChunk action_id peer device action i n envelope ∧
    decrypt_bytes secret envelope = Ok (json_to_vec (chunk_plaintext action_id action i n piece)) ∧
    frame_bytes_for_payload payload =
      282 + str_size action_id + str_size peer + str_size device + str_size (action_kind_as_str action)
      + dec_len i + dec_len n + 4 * ((sealed_chunk_len action_id action i n piece + 18) / 3).
Proof using JS SL.
  intros Hn. unfold seal_chunk, encrypt_json, encrypt_bytes.
  destruct (xsalsa_encrypt _ _ _) as [c|] eqn:E; [|done]. intros [= <-]. eexists. split; [done|]. split.
  - unfold decrypt_bytes. cbn. rewrite !std_b64_round_trip. cbn. rewrite Hn. cbn. by rewrite (xsalsa_opens _ _ _ _ E).
  - unfold frame_bytes_for_payload, frame_text_for_payload. rewrite json_text_size.
    cbn -[str_size dec_len action_kind_as_str Z.add Z.mul Z.div]. rewrite !std_b64_plain, !std_b64_len, Hn.
    rewrite (xsalsa_len _ _ _ _ E), chunk_plaintext_len. literal_sizes. change ((24 + 2) / 3) with 8.
    replace (sealed_chunk_len action_id action i n piece + 16 + 2) with (sealed_chunk_len action_id action i n piece + 18) by lia.
    lia.
Qed.

(** ** Both transports *)
Lemma plain_chunks_spec action_id peer r :
  match build_plain_remote_action_result_chunk_payloads action_id peer r with
  | Ok payloads => ∃ pieces, joined pieces = serialized r ∧
      payloads = imap (λ i piece, plain_chunk action_id peer (rp_action r) (Z.of_nat i) (Z.of_nat (length pieces)) piece) pieces ∧
      Forall (λ p, frame_bytes_for_payload p ≤ MAX_BROKER_TEXT_FRAME_BYTES) payloads
  | Err _ => 40000 < str_size action_id + str_size peer
  end.
Proof using JS.
  unfold build_plain_remote_action_result_chunk_payloads.
  set (measure := λ piece i n (_ : ()), _). set (f := λ piece i n, frame_bytes_for_payload (plain_chunk action_id peer (rp_action r) i n piece)).
  pose proof (fit_chunks_spec measure (serialized r) REMOTE_ACTION_RESULT_CHUNK_TARGET_CHARS () ltac:(done)) as H.
  destruct (fit_chunks _ _ _ _) as [s' out]. destruct H as (c & s0 & b & Hc & Hl & H). cbn [snd].
  destruct (split_spec (serialized r) c Hc) as (Hj & Hs & Hne). set (ps := split_on_char_boundaries (serialized r) c) in *.
  pose proof (largest_frame_spec measure f (λ _ _ _ s, s) (Z.max 0 (Z.of_nat (length ps) - 1)) (Z.of_nat (length ps))
    (λ _ _ _ '(), eq_refl) ps 0 s0) as HL. cbn in Hl. rewrite Hl in HL. destruct HL as (_ & _ & HF & HB).
  destruct out as [ps'|].
  - destruct H as [-> Hb]. exists ps. split_and!; [done|done|]. apply Forall_forall. intros p (i & Hi)%list_elem_of_lookup.
    rewrite list_lookup_imap in Hi. destruct (ps !! i) as [piece|] eqn:E; [|done]. injection Hi as <-.
    pose proof (proj1 (Forall_lookup _ _) HF _ _ E) as Hp. cbn in Hp. apply lookup_lt_Some in E.
    etrans; [apply (plain_chunk_mono _ _ _ _ (Z.max 0 (Z.of_nat (length ps) - 1))); lia|]. unfold f in Hp. lia.
  - destruct H as [Hmin Hb]. apply Znot_ge_lt. intros Hsmall. apply (Z.lt_irrefl MAX_BROKER_TEXT_FRAME_BYTES).
    eapply Z.lt_le_trans; [exact Hb|]. apply HB; [done|]. eapply Forall_impl; [exact Hs|]. intros p Hp. cbn in Hp. unfold f.
    rewrite plain_chunk_bytes. pose proof (action_name_size (rp_action r)).
    pose proof (dec_len_bound (Z.max 0 (Z.of_nat (length ps) - 1)) ltac:(lia)). pose proof (dec_len_bound (Z.of_nat (length ps)) ltac:(lia)).
    unfold MAX_BROKER_TEXT_FRAME_BYTES, REMOTE_ACTION_RESULT_CHUNK_MIN_CHARS in *. lia.
Qed.

Lemma collect_results_spec {A E} (l : list (result A E)) :
  match collect_results l with
  | Ok xs => length xs = length l ∧ ∀ i x, xs !! i = Some x → l !! i = Some (Ok x)
  | Err e => Err e ∈ l
  end.
Proof.
  induction l as [|[x|e] l IH]; cbn; [by split|..|by left].
  destruct (collect_results l) as [xs|e]; [|by right]. destruct IH as [Hl Hx]. split; [by f_equal/=; lia|].
  intros [|i] y Hy; cbn in *; [by injection Hy as ->|by apply Hx].
Qed.

(** The first error is kept, so without one every call succeeded. *)
Lemma no_error_kept {A B E} (h : A → result B E) ps : ∀ s0,
  None = foldl (λ s p, match h p with Ok _ => s | Err e => option_or s (Some e) end) s0 ps →
  Forall (λ p, ∃ q, h p = Ok q) ps.
Proof.
  assert (∀ ps e, foldl (λ s p, match h p with Ok _ => s | Err e => option_or s (Some e) end) (Some e) ps = Some e) as Hstuck.
  { clear. induction ps as [|p ps IH]; intros e; cbn; [done|]. destruct (h p); apply IH. }
  induction ps as [|p ps IH]; intros s0 Hg; [constructor|]. cbn in Hg.
  destruct (h p) as [q|e] eqn:E0; [apply Forall_cons_2; [by eexists|by eapply IH]|].
  destruct s0; cbn in Hg; by rewrite Hstuck in Hg.
Qed.

Lemma seal_chunk_fails secret nonce action_id peer device action i n piece e :
  seal_chunk secret nonce action_id peer device action i n piece = Err e →
  e = EncryptionFailed ∧ ∃ nonce plaintext, xsalsa_encrypt (cipher secret) nonce plaintext = None.
Proof.
  unfold seal_chunk, encrypt_json, encrypt_bytes. destruct (xsalsa_encrypt _ _ _) eqn:E; [done|]. intros [= <-]. eauto.
Qed.

Lemma sealed_bytes_mono secret nonce nonce' action_id peer device action i j n piece p q :
  str_len nonce = 24 → str_len nonce' = 24 → 0 ≤ i ≤ j →
  seal_chunk secret nonce action_id peer device action i n piece = Ok p →
  seal_chunk secret nonce' action_id peer device action j n piece = Ok q →
  frame_bytes_for_payload p ≤ frame_bytes_for_payload q.
Proof using JS SL.
  intros Hn Hn' Hij (? & _ & _ & ->)%seal_chunk_spec (? & _ & _ & ->)%seal_chunk_spec; [|done..].
  pose proof (dec_len_mono i j Hij). unfold sealed_chunk_len.
  set (u := _ + 18). set (v := _ + 18). assert (u / 3 ≤ v / 3) by (apply Z.div_le_mono; lia). lia.
Qed.

(** A piece of the smallest size fits when the ids are not too long. *)
Lemma sealed_small_fits secret nonce action_id peer device action i n piece p :
  str_len nonce = 24 → 0 ≤ i → 0 ≤ n → str_size piece ≤ 24 * REMOTE_ACTION_RESULT_CHUNK_MIN_CHARS →
  str_size action_id + str_size peer + str_size device ≤ 10000 →
  seal_chunk secret nonce action_id peer device action i n piece = Ok p →
  frame_bytes_for_payload p ≤ MAX_BROKER_TEXT_FRAME_BYTES.
Proof using JS SL.
  intros Hn Hi Hc Hp Hids (? & _ & _ & ->)%seal_chunk_spec; [|done].
  pose proof (action_name_size action). pose proof (dec_len_bound i Hi). pose proof (dec_len_bound n Hc).
  pose proof (str_size_nonneg action_id). pose proof (str_size_nonneg peer). pose proof (str_size_nonneg device).
  unfold sealed_chunk_len, MAX_BROKER_TEXT_FRAME_BYTES, REMOTE_ACTION_RESULT_CHUNK_MIN_CHARS in *.
  set (u := _ + 18). assert (u / 3 ≤ (24870 + str_size action_id) / 3) by (apply Z.div_le_mono; lia).
  pose proof (Z.mul_div_le (24870 + str_size action_id) 3 ltac:(lia)). lia.
Qed.

(** The pieces as they are sent, when each fitted as the last of them. *)
Lemma sealed_sent fit_nonce nonce action_id peer device secret action ps payloads :
  let last := Z.max 0 (Z.of_nat (length ps) - 1) in let n := Z.of_nat (length ps) in
  (∀ p n, str_len (fit_nonce p n) = 24) → (∀ i, str_len (nonce i) = 24) →
  Forall (λ p, ∃ q, seal_chunk secret (fit_nonce p n) action_id peer device action last n p = Ok q ∧
                    frame_bytes_for_payload q ≤ MAX_BROKER_TEXT_FRAME_BYTES) ps →
  collect_results (imap (λ i piece, seal_chunk secret (nonce i) action_id peer device action (Z.of_nat i) n piece) ps) = Ok payloads →
  length payloads = length ps ∧
  ∀ i payload, payloads !! i = Some payload → frame_bytes_for_payload payload ≤ MAX_BROKER_TEXT_FRAME_BYTES ∧
    ∃ piece envelope, ps !! i = Some piece ∧
      payload = OEncryptedRemoteActionResultChunk action_id peer device action (Z.of_nat i) n envelope ∧
      decrypt_bytes secret envelope = Ok (json_to_vec (chunk_plaintext action_id action (Z.of_nat i) n piece)).
Proof using JS SL.
  intros last n Hfn Hn HF E. set (sent := imap _ ps) in E. pose proof (collect_results_spec sent) as Hcol. rewrite E in Hcol.
  destruct Hcol as [Hlen Hp]. unfold sent in Hlen. rewrite length_imap in Hlen. split; [done|].
  intros i payload Hi. apply Hp in Hi. unfold sent in Hi. rewrite list_lookup_imap in Hi.
  destruct (ps !! i) as [piece|] eqn:Ei; [|done]. injection Hi as Hi.
  destruct (proj1 (Forall_lookup _ _) HF _ _ Ei) as (q & Hq & Hf). split.
  - etrans; [|exact Hf]. apply lookup_lt_Some in Ei.
    eapply sealed_bytes_mono; [apply Hn|apply Hfn| |exact Hi|exact Hq]. unfold last. lia.
  - destruct (seal_chunk_spec _ _ _ _ _ _ _ _ _ _ (Hn i) Hi) as (envelope & Hpay & Hdec & _). eauto 6.
Qed.

Lemma sealed_chunks_spec fit_nonce nonce action_id peer device secret r :
  (∀ p n, str_len (fit_nonce p n) = 24) → (∀ i, str_len (nonce i) = 24) →
  match build_encrypted_remote_action_result_chunk_payloads fit_nonce nonce action_id peer device secret r with
  | Ok payloads => ∃ pieces, joined pieces = serialized r ∧ length payloads = length pieces ∧
      ∀ i payload, payloads !! i = Some payload → frame_bytes_for_payload payload ≤ MAX_BROKER_TEXT_FRAME_BYTES ∧
        ∃ piece envelope, pieces !! i = Some piece ∧
          payload = OEncryptedRemoteActionResultChunk action_id peer device (rp_action r) (Z.of_nat i)
                      (Z.of_nat (length pieces)) envelope ∧
          decrypt_bytes secret envelope =
            Ok (json_to_vec (chunk_plaintext action_id (rp_action r) (Z.of_nat i) (Z.of_nat (length pieces)) piece))
  | Err StillTooLarge => 10000 < str_size action_id + str_size peer + str_size device
  | Err (SealFailed e) => e = EncryptionFailed ∧ ∃ nonce plaintext, xsalsa_encrypt (cipher secret) nonce plaintext = None
  end.
Proof using JS SL.
  intros Hfn Hn. unfold build_encrypted_remote_action_result_chunk_payloads.
  set (measure := measure_sealed _ _ _ _ _ _).
  set (sealed p i n := seal_chunk secret (fit_nonce p n) action_id peer device (rp_action r) i n p).
  set (f p i n := match sealed p i n with Ok q => frame_bytes_for_payload q | Err _ => usize_max end).
  set (g p i n (s : option CryptoError) := match sealed p i n with Ok _ => s | Err e => option_or s (Some e) end).
  assert (∀ p i n s, measure p i n s = (g p i n s, f p i n)) as Hm.
  { intros p i n s. unfold measure, measure_sealed, g, f, sealed. by destruct (seal_chunk _ _ _ _ _ _ _ _ _). }
  set (Q (s : option CryptoError) := ∀ e, s = Some e → e = EncryptionFailed ∧ ∃ nonce plaintext, xsalsa_encrypt (cipher secret) nonce plaintext = None).
  pose proof (fit_chunks_inv measure Q (serialized r) REMOTE_ACTION_RESULT_CHUNK_TARGET_CHARS) as HQ.
  specialize (HQ ltac:(intros p i n s Hs; rewrite Hm; cbn; unfold g; destruct (sealed p i n) eqn:E; [done|];
    intros e' He'; destruct s; cbn in He'; [by apply Hs|injection He' as <-; by eapply seal_chunk_fails]) None ltac:(done)).
  pose proof (fit_chunks_spec measure (serialized r) REMOTE_ACTION_RESULT_CHUNK_TARGET_CHARS None ltac:(done)) as H.
  destruct (fit_chunks _ _ _ _) as [s' out]. destruct H as (c & s0 & b & Hc & Hl & H).
  destruct s' as [e|]; [by apply HQ|]. clear HQ Q.
  destruct (split_spec (serialized r) c Hc) as (Hj & Hs & Hne). set (ps := split_on_char_boundaries (serialized r) c) in *.
  pose proof (largest_frame_spec measure f g (Z.max 0 (Z.of_nat (length ps) - 1)) (Z.of_nat (length ps)) Hm ps 0 s0) as HL.
  cbn in Hl. rewrite Hl in HL. destruct HL as (Hg & _ & HF & HB).
  assert (Forall (λ p, ∃ q, sealed p (Z.max 0 (Z.of_nat (length ps) - 1)) (Z.of_nat (length ps)) = Ok q) ps) as Hall.
  { by eapply (no_error_kept (λ p, sealed p _ _) ps s0). }
  destruct out as [ps'|].
  - destruct H as [-> Hb]. destruct (collect_results _) as [payloads|e] eqn:E.
    + exists ps. split; [done|]. eapply sealed_sent; [done|done| |exact E].
      apply Forall_forall. intros p Hp. rewrite Forall_forall in Hall, HF. destruct (Hall p Hp) as [q Hq].
      exists q. split; [done|]. specialize (HF p Hp). cbn in HF. unfold f in HF. rewrite Hq in HF. lia.
    + pose proof (collect_results_spec (imap (λ i piece, seal_chunk secret (nonce i) action_id peer device (rp_action r)
        (Z.of_nat i) (Z.of_nat (length ps)) piece) ps)) as Hcol. rewrite E in Hcol.
      apply list_elem_of_lookup in Hcol as (i & Hi). rewrite list_lookup_imap in Hi.
      destruct (ps !! i); [|done]. injection Hi as Hi. by eapply seal_chunk_fails.
  - destruct H as [Hmin Hb]. apply Znot_ge_lt. intros Hsmall. apply (Z.lt_irrefl MAX_BROKER_TEXT_FRAME_BYTES).
    eapply Z.lt_le_trans; [exact Hb|]. apply HB; [done|]. apply Forall_forall. intros p Hp.
    rewrite Forall_forall in Hall, Hs. destruct (Hall p Hp) as [q Hq]. specialize (Hs p Hp). cbn in Hs.
    unfold f. rewrite Hq. eapply sealed_small_fits; [apply Hfn| | | | |exact Hq]; unfold REMOTE_ACTION_RESULT_CHUNK_MIN_CHARS in *; lia.
Qed.

(** C35: a reply too large for one frame still arrives.  However large the reply, cutting it
    ends; each chunk, plain or sealed, is in a frame the broker takes, carries its place and
    the number of chunks, and is addressed to the surface that asked; in their order the
    chunks are, character for character, the JSON of the reply, and a sealed chunk opens under
    the secret of the device.  Cutting fails only when the ids of the request alone are
    several thousand bytes long, or when the cipher does. *)
Theorem large_replies_arrive fit_nonce nonce action_id peer device secret r :
  (∀ p n, str_len (fit_nonce p n) = 24) → (∀ i, str_len (nonce i) = 24) →
  match build_plain_remote_action_result_chunk_payloads action_id peer r with
  | Ok payloads => ∃ pieces, joined pieces = serialized r ∧
      payloads = imap (λ i piece, ORemoteActionResultChunk action_id peer (rp_action r) (Z.of_nat i)
                                    (Z.of_nat (length pieces)) piece) pieces ∧
      Forall (λ p, frame_bytes_for_payload p ≤ MAX_BROKER_TEXT_FRAME_BYTES) payloads
  | Err _ => 40000 < str_size action_id + str_size peer
  end ∧
  match build_encrypted_remote_action_result_chunk_payloads fit_nonce nonce action_id peer device secret r with
  | Ok payloads => ∃ pieces, joined pieces = serialized r ∧ length payloads = length pieces ∧
      ∀ i payload, payloads !! i = Some payload → frame_bytes_for_payload payload ≤ MAX_BROKER_TEXT_FRAME_BYTES ∧
        ∃ piece envelope, pieces !! i = Some piece ∧
          payload = OEncryptedRemoteActionResultChunk action_id peer device (rp_action r) (Z.of_nat i)
                      (Z.of_nat (length pieces)) envelope ∧
          decrypt_bytes secret envelope =
            Ok (json_to_vec (chunk_plaintext action_id (rp_action r) (Z.of_nat i) (Z.of_nat (length pieces)) piece))
  | Err StillTooLarge => 10000 < str_size action_id + str_size peer + str_size device
  | Err (SealFailed e) => ∃ nonce plaintext, xsalsa_encrypt (cipher secret) nonce plaintext = None
  end.
Proof using JS SL.
  intros Hfn Hn. split; [apply plain_chunks_spec|].
  pose proof (sealed_chunks_spec fit_nonce nonce action_id peer device secret r Hfn Hn) as H.
  destruct (build_encrypted_remote_action_result_chunk_payloads _ _ _ _ _ _ _) as [|[|e]]; try done. by destruct H.
Qed.
End Sizes.

(** * A model of the libraries under sealed replies

    Base64 as the standard defines it, a cipher that adds sixteen bytes, and a JSON text of
    the right size: the laws [SecretBoxLaws] and [JsonSizes] can hold, and the theorem on large
    replies is tried on a reply. *)
(** ** Base64 *)
Definition chr (z : Z) : ascii := ascii_of_nat (Z.to_nat z).
Definition sextet (k : Z) : ascii :=
  chr (if k <? 26 then 65 + k else if k <? 52 then 71 + k else if k <? 62 then k - 4 else if k =? 62 then 43 else 47).
Definition unsextet (a : ascii) : Z :=
  let z := byte_val a in
  if (65 <=? z) && (z <=? 90) then z - 65 else if (97 <=? z) && (z <=? 122) then z - 71
  else if (48 <=? z) && (z <=? 57) then z + 4 else if z =? 43 then 62 else 63.

Fixpoint base64 (s : string) : string :=
  match s with
  | EmptyString => ""
  | String a EmptyString =>
      let a := byte_val a in String (sextet (a / 4)) (String (sextet (a mod 4 * 16)) "==")
  | String a (String b EmptyString) =>
      let a := byte_val a in let b := byte_val b in
      String (sextet (a / 4)) (String (sextet (a mod 4 * 16 + b / 16)) (String (sextet (b mod 16 * 4)) "="))
  | String a (String b (String c s)) =>
      let a := byte_val a in let b := byte_val b in let c := byte_val c in
      String (sextet (a / 4)) (String (sextet (a mod 4 * 16 + b / 16))
        (String (sextet (b mod 16 * 4 + c / 64)) (String (sextet (c mod 64)) (base64 s))))
  end.

Fixpoint unbase64 (s : string) : option string :=
  match s with
  | EmptyString => Some ""
  | String w (String x (String y (String z s))) =>
      let a := chr (unsextet w * 4 + unsextet x / 16) in
      if Ascii.eqb y "=" then Some (String a "") else
      let b := chr (unsextet x mod 16 * 16 + unsextet y / 4) in
      if Ascii.eqb z "=" then Some (String a (String b "")) else
      let c := chr (unsextet y mod 4 * 64 + unsextet z) in
      rest ← unbase64 s; Some (String a (String b (String c rest)))
  | _ => None
  end.

Lemma sextet_spec k : 0 ≤ k < 64 →
  unsextet (sextet k) = k ∧ Ascii.eqb (sextet k) "=" = false ∧ esc_len (sextet k) = 1.
Proof.
  intros Hk. set (ok := λ k, (unsextet (sextet k) =? k) && negb (Ascii.eqb (sextet k) "=") && (esc_len (sextet k) =? 1)).
  assert (forallb ok (seqZ 0 64) = true) as H by by vm_compute.
  rewrite forallb_forall in H. specialize (H k ltac:(apply list_elem_of_In, elem_of_seqZ; lia)). unfold ok in H.
  rewrite !andb_true_iff, negb_true_iff, !Z.eqb_eq in H. naive_solver.
Qed.

Lemma chr_byte a z : z = byte_val a → chr z = a.
Proof. intros ->. unfold chr, byte_val. by rewrite Nat2Z.id, ascii_nat_embedding. Qed.

(** The sextets of a group are in range. *)
Lemma group_range a b c : 0 ≤ a < 256 → 0 ≤ b < 256 → 0 ≤ c < 256 →
  0 ≤ a / 4 < 64 ∧ 0 ≤ a mod 4 * 16 < 64 ∧ 0 ≤ a mod 4 * 16 + b / 16 < 64 ∧ 0 ≤ b mod 16 * 4 < 64 ∧
  0 ≤ b mod 16 * 4 + c / 64 < 64 ∧ 0 ≤ c mod 64 < 64.
Proof. intros. Z.to_euclidean_division_equations. lia. Qed.

Lemma three_ind (P : string → Prop) : P "" → (∀ a, P (String a "")) → (∀ a b, P (String a (String b ""))) →
  (∀ a b c s, P s → P (String a (String b (String c s)))) → ∀ s, P s.
Proof.
  intros H0 H1 H2 H3 s. enough (∀ n s, (String.length s <= n)%nat → P s) as H by (apply (H (String.length s)); lia).
  clear s. intros n. induction n as [|n IH]; intros s Hs; [destruct s; [done|cbn in Hs; lia]|].
  destruct s as [|a [|b [|c s]]]; [done..|]. apply H3, IH. cbn in Hs. lia.
Qed.

Lemma unbase64_base64 s : unbase64 (base64 s) = Some s.
Proof.
  induction s as [|a|a b|a b c s IH] using three_ind; [done|..];
    pose proof (byte_val_range a); try pose proof (byte_val_range b); try pose proof (byte_val_range c).
  - destruct (group_range (byte_val a) 0 0) as (R1 & R2 & _); [lia..|]. cbn [base64 unbase64].
    rewrite (proj1 (sextet_spec _ R1)), (proj1 (sextet_spec _ R2)). cbn. do 2 f_equal. apply chr_byte.
    clear. Z.to_euclidean_division_equations. lia.
  - destruct (group_range (byte_val a) (byte_val b) 0) as (R1 & _ & R2 & R3 & _); [lia..|]. cbn [base64 unbase64].
    destruct (sextet_spec _ R1) as (-> & _ & _), (sextet_spec _ R2) as (-> & _ & _), (sextet_spec _ R3) as (-> & -> & _).
    cbn. repeat f_equal; apply chr_byte; Z.to_euclidean_division_equations; lia.
  - destruct (group_range (byte_val a) (byte_val b) (byte_val c)) as (R1 & _ & R2 & _ & R3 & R4); [lia..|].
    cbn [base64 unbase64].
    destruct (sextet_spec _ R1) as (-> & _ & _), (sextet_spec _ R2) as (-> & _ & _), (sextet_spec _ R3) as (-> & -> & _),
      (sextet_spec _ R4) as (-> & -> & _).
    rewrite IH. cbn. repeat f_equal; apply chr_byte; Z.to_euclidean_division_equations; lia.
Qed.

Lemma base64_sizes s : str_len (base64 s) = 4 * ((str_len s + 2) / 3) ∧ str_size (base64 s) = str_len (base64 s).
Proof.
  induction s as [|a|a b|a b c s [IH1 IH2]] using three_ind; [done|..];
    pose proof (byte_val_range a); try pose proof (byte_val_range b); try pose proof (byte_val_range c).
  - destruct (group_range (byte_val a) 0 0) as (R1 & R2 & _); [lia..|]. split; [done|]. cbn [base64 str_size].
    by rewrite (proj2 (proj2 (sextet_spec _ R1))), (proj2 (proj2 (sextet_spec _ R2))).
  - destruct (group_range (byte_val a) (byte_val b) 0) as (R1 & _ & R2 & R3 & _); [lia..|]. split; [done|]. cbn [base64 str_size].
    by rewrite (proj2 (proj2 (sextet_spec _ R1))), (proj2 (proj2 (sextet_spec _ R2))), (proj2 (proj2 (sextet_spec _ R3))).
  - destruct (group_range (byte_val a) (byte_val b) (byte_val c)) as (R1 & _ & R2 & _ & R3 & R4); [lia..|].
    assert (∀ x s, str_len (String x s) = 1 + str_len s) as Hl by (intros; unfold str_len; cbn [String.length]; lia).
    cbn [base64 str_size]. rewrite !Hl, IH2, IH1.
    rewrite (proj2 (proj2 (sextet_spec _ R1))), (proj2 (proj2 (sextet_spec _ R2))), (proj2 (proj2 (sextet_spec _ R3))),
      (proj2 (proj2 (sextet_spec _ R4))).
    split; [|lia]. replace (1 + (1 + (1 + str_len s)) + 2) with (str_len s + 2 + 1 * 3) by lia. rewrite Z.div_add; lia.
Qed.

(** ** The instances *)
Fixpoint text_of_size (n : nat) : string := match n with O => "" | S n => String "x" (text_of_size n) end.
Lemma text_of_size_len n : str_len (text_of_size n) = Z.of_nat n.
Proof. unfold str_len. induction n as [|n IH]; cbn [text_of_size String.length]; lia. Qed.

Definition TAG : string := "0123456789abcdef".
Definition untag (s : string) : option string :=
  if starts_with TAG s then Some (Nat.iter 16 (λ s, match s with String _ s => s | "" => "" end) s) else None.

Module Model.
#[export] Instance sized_json : TicketCrypto := {|
  b64_encode := base64; b64_decode := unbase64; hmac_sha256 k s := k +:+ s;
  json_to_vec j := text_of_size (Z.to_nat (json_size j)); json_from_slice _ := None |}.
#[export] Instance plain_hash : DeviceCrypto := {| sha256 s := s; std_b64_decode := unbase64 |}.
#[export] Instance tag_box : SecretBox := {|
  std_b64_encode := base64; xsalsa_encrypt _ _ p := Some (TAG +:+ p); xsalsa_decrypt _ _ c := untag c |}.
#[export] Instance empty_views : ViewSerde := {| snapshot_value _ := JNull; threads_value _ := JNull |}.

Lemma json_size_nonneg : ∀ j, 0 ≤ json_size j.
Proof.
  assert (∀ z, 0 ≤ dec_len z) as Hd.
  { intros z. unfold dec_len. pose proof (digits_bound 19 z). pose proof (digits_bound 19 (- z)). case_match; lia. }
  fix IH 1. intros [|[]|z|z|repr|s|l|es]; cbn; try (pose proof (Hd z)); try lia.
  - apply str_len_nonneg.
  - pose proof (str_size_nonneg s). lia.
  - enough (0 ≤ (fix sum l := match l with [] => 0 | j :: l => json_size j + sum l end) l) by (unfold commas; lia).
    induction l as [|j l IHl]; [done|]. specialize (IH j). lia.
  - enough (0 ≤ (fix sum es := match es with [] => 0 | (k, j) :: es => 3 + str_size k + json_size j + sum es end) es)
      by (unfold commas; lia).
    induction es as [|[k j] es IHes]; [done|]. specialize (IH j). pose proof (str_size_nonneg k). lia.
Qed.

#[export] Instance sized_json_laws : JsonSizes.
Proof. intros j. cbn. rewrite text_of_size_len. pose proof (json_size_nonneg j). lia. Qed.
#[export] Instance tag_box_laws : SecretBoxLaws.
Proof.
  split; cbn.
  - apply unbase64_base64.
  - intros s. apply base64_sizes.
  - intros s. apply base64_sizes.
  - intros _ _ p c [= <-]. unfold TAG. unfold str_len. cbn [String.length String.append]. lia.
  - intros _ _ p c [= <-]. by destruct p.
Qed.

Definition sample_reply : RemoteActionResultPlaintext := busy_remote_action_result RkAck KSendMessage.
Definition sample_nonce : string := text_of_size 24.

Lemma large_replies_arrive_witness :
  is_ok (build_encrypted_remote_action_result_chunk_payloads (λ _ _, sample_nonce) (λ _, sample_nonce) "a1" "peer" "device" "secret" sample_reply) = true ∧
  ∃ pieces, joined pieces = serialized sample_reply.
Proof.
  destruct (large_replies_arrive (λ _ _, sample_nonce) (λ _, sample_nonce) "a1" "peer" "device" "secret" sample_reply) as [H _];
    [done|done|].
  split; [by vm_compute|].
  destruct (build_plain_remote_action_result_chunk_payloads "a1" "peer" sample_reply) eqn:E.
  - destruct H as (pieces & Hj & _). by exists pieces.
  - vm_compute in H. done.
Defined.
End Model.
