(* ===== verification/RemoteDispatchTheorems.v ===== *)
(** * What a remote surface can make the relay do

    Session claims are bound to the device and the connection they were issued to; an action
    reaches the application only for the device whose secret sealed it (or, where the broker
    may read content, that a claim or the request names) and at most once. *)

From Stdlib Require Import ZArith Lia Ascii.
From S2P Require Import JoinTicket DeviceTheorems SnapshotTheorems ChunkTheorems Prelude RustStr Json ControlPlane Device RemoteActions Surfaces Snapshot Writer RemoteRequest RemoteReply RemoteChunks RemotePublish RemoteDispatch.

Open Scope string_scope.
Open Scope Z_scope.

(** ** Session claims *)
Section Claims.
Context {TC : TicketCrypto} {TL : TicketLaws}.

Lemma u8_de_ser z : 0 ≤ z ≤ 255 → de_uint 255 (JU64 z) = Ok z.
Proof. intros Hz. unfold de_uint. by rewrite (proj2 (in_range_true 0 z 255)). Qed.
#[local] Hint Resolve u8_de_ser : relay.

Lemma claim_decode_encode c : 0 ≤ sc_version c ≤ 255 → in_u64 (sc_expires_at c) → claim_deserialize (claim_serialize c) = Ok c.
Proof.
  destruct c as [v d p e]. cbn [sc_version sc_expires_at]. intros Hv He. unfold claim_deserialize, claim_serialize.
  rewrite derived_struct_ok.
  - repeat read_field. by rewrite u8_de_ser, u64_de_ser.
  - struct_checks.
  - struct_nodup.
Qed.

Lemma claim_plain c : 0 ≤ sc_version c ≤ 255 → in_u64 (sc_expires_at c) → plain_json (claim_serialize c) = true.
Proof.
  destruct c as [v d p e]. cbn [sc_version sc_expires_at]. intros Hv He.
  assert (wf_u64 v = true ∧ wf_u64 e = true) as [Hv' He'].
  { unfold wf_u64. rewrite !in_range_true. unfold in_u64 in He. unfold u64_max in *. lia. }
  cbn -[wf_u64]. by rewrite Hv', He'.
Qed.

Lemma saturating_range a b : 0 ≤ a → 0 ≤ b → in_u64 (u64_saturating_add a b).
Proof. unfold in_u64, u64_saturating_add, u64_max. lia. Qed.

(** C36: a session claim holds what it was issued for, and nothing else.  A claim issued to a
    device on a connection is accepted from that connection for an hour, for that device,
    as long as the device is paired, and never from another connection, later, or once the
    device is not paired; and whatever token is accepted, its tag is the one the relay's key
    gives its contents, which name the connection it came from, a paired device and a time to
    come. *)
Theorem session_claims_are_bound key device_id peer_id now later from s token device :
  0 ≤ now → 
  (let c := issue_session_claim key device_id peer_id now in
   verify_session_claim key (si_token c) from later s =
     if negb (bool_decide (peer_id = from)) then Err ClaimOtherPeer
     else if u64_saturating_add now 3600 <=? later then Err ClaimIsExpired
     else match paired_device_payload_secret device_id s with
          | Ok _ => Ok device_id | Err e => Err (ClaimDeviceGone e)
          end) ∧
  (verify_session_claim key token from later s = Ok device →
   ∃ payload_part tag bytes j payload, split_once "."%char token = Some (payload_part, tag) ∧
     b64_decode tag = Some (hmac_sha256 key payload_part) ∧
     b64_decode payload_part = Some bytes ∧ json_from_slice bytes = Some j ∧ claim_deserialize j = Ok payload ∧
     sc_version payload = 1 ∧ sc_device_id payload = device ∧ sc_peer_id payload = from ∧ later < sc_expires_at payload ∧
     is_Some (ps_paired_devices s !! device)).
Proof using TL.
  intros Hnow. split.
  - cbn zeta. unfold verify_session_claim, decode_and_verify_session_claim, issue_session_claim.
    set (p := MkClaimPayload _ _ _ _). cbn [si_token].
    assert (in_u64 (sc_expires_at p)) as He by (apply saturating_range; [done|by compute]).
    set (part := b64_encode _). set (tag := b64_encode (sign_bytes _ _)). change ("." +:+ tag) with (String "." tag).
    rewrite (split_once_app "."%char) by apply b64_no_dot. cbn [ok_or fst snd]. unfold tag, part.
    rewrite !b64_decode_encode. cbn [ok_or]. rewrite bool_decide_eq_true_2 by done. cbn [negb].
    rewrite json_text_round_trip by (by apply claim_plain). cbn [ok_or]. rewrite claim_decode_encode by done.
    cbn [negb p sc_version sc_peer_id sc_expires_at sc_device_id Z.eqb Pos.eqb].
    unfold SESSION_CLAIM_TTL_SECS. case_bool_decide; [|done]. cbn [negb]. by destruct (_ <=? _).
  - unfold verify_session_claim, decode_and_verify_session_claim.
    destruct (split_once _ token) as [[payload_part tag]|]; [|done]. cbn [ok_or fst snd].
    destruct (b64_decode tag) as [sig|] eqn:Et; [|done]. cbn [ok_or]. case_bool_decide as Hs; [|done]. cbn [negb].
    destruct (b64_decode payload_part) as [bytes|] eqn:Ep; [|done]. cbn [ok_or].
    destruct (json_from_slice bytes) as [j|] eqn:Ej; [|done]. cbn [ok_or].
    destruct (claim_deserialize j) as [p|] eqn:Ec; [|done].
    destruct (Z.eqb_spec (sc_version p) 1) as [Hv|]; [|done]. cbn [negb]. case_bool_decide as Hp; [|done]. cbn [negb].
    destruct (Z.leb_spec (sc_expires_at p) later) as [|Hx]; [done|].
    unfold paired_device_payload_secret. destruct (ps_paired_devices s !! sc_device_id p) eqn:Ed; [|done].
    cbn. intros [= <-]. exists payload_part, tag, bytes, j, p. subst sig. rewrite Ed. split_and!; eauto.
Qed.
End Claims.

(** ** Authority *)

(** The devices a request names. *)
Definition named_devices (r : RemoteActionRequest) : list (option string) :=
  match r with
  | ClaimChallenge _ | ClaimDevice _ _ | ListProviders | ListProviderModels _ => []
  | StartSession i | ForkSession i | ResumeSession i | UpdateSessionSettings i | SendMessage i | StopTurn i | TakeOver i
  | Heartbeat i | WatchThreads i | FetchThreadEntries i | FetchThreadEntryDetail i | FetchThreadTranscript i
  | DecideApproval _ i | ApplyFileChange _ i | ProjectAction i | RenameThread _ i | RepairWorkspace _ i
  | SubmitAskUserAnswer _ i | RequestReview i | StartWorkflow i | RegisterPushSubscription i => [in_device_id i]
  | SetThreadWorkspace d i => [d; in_device_id i]
  | ListThreads q => [tq_device_id q]
  | FetchWorkspaceGitContext d _ | FetchThreadSettings d _ | FetchWorkspaceDiff d _ _ | FetchThreadWorkspace d _ _
  | FetchReviews d | FetchWorkflows d | FetchDevices d | FetchProjects d | FetchAskUserQuestionDetail d _
  | ResolveReview d _ | ResolveWorkflow d _ | DeleteReview d _ | UnregisterPushSubscription d _ => [d]
  end.
Lemma bound_names device r : Forall (eq (Some device)) (named_devices (bind_device device r)).
Proof. destruct r; repeat constructor. Qed.

Section Authority.
Context {A : Type} {RA : RelayApp A} {TC : TicketCrypto} {DC : DeviceCrypto} {SB : SecretBox} {ED : Ed25519}.
Context {VS : ViewSerde} {SS : SnapshotSizes} {RS : RequestSerde}.
Implicit Types w : World A.

(** The application state is what executing the request, bound to the device, makes of it;
    the device is paired. *)
Definition executed (device : string) (request : RemoteActionRequest) w w' : Prop :=
  is_Some (ps_paired_devices (wo_pairing w) !! device) ∧
  ∃ s, wo_app w' = (execute_remote_action (bind_device device request) (s, wo_app w)).1.2.

Lemma on_pairing_app {X} (f : PairingState → PairingState * X) w :
  wo_app (on_pairing f w).1 = wo_app w ∧ wo_replays (on_pairing f w).1 = wo_replays w.
Proof. unfold on_pairing. by destruct (f _). Qed.

Lemma mark_seen_spec env device peer w :
  let '(w', r) := mark_remote_device_seen env device peer w in
  wo_app w' = wo_app w ∧ wo_replays w' = wo_replays w ∧
  (is_ok r = true → is_Some (ps_paired_devices (wo_pairing w) !! device)) ∧
  (is_ok r = false → w' = w).
Proof.
  unfold mark_remote_device_seen, on_pairing, mark_paired_device_seen.
  destruct (ps_paired_devices _ !! device) eqn:E; cbn; [by eauto|]. by destruct w.
Qed.

Lemma fire_and_forget_spec env device peer request w :
  let '(w', r) := execute_fire_and_forget_remote_action env device peer (bind_device device request) w in
  wo_replays w' = wo_replays w ∧ (wo_app w' = wo_app w ∨ executed device request w w').
Proof.
  unfold execute_fire_and_forget_remote_action. pose proof (mark_seen_spec env device peer w) as H.
  destruct (mark_remote_device_seen _ _ _ _) as [w1 [[]|e]]; destruct H as (Ha & Hr & Hp & _); [|by auto].
  unfold on_app. rewrite Ha. unfold executed.
  destruct (execute_remote_action _ _) as [[s a] x] eqn:E. cbn. split; [done|]. right. split; [by apply Hp|].
  exists (wo_pairing w1). by rewrite E.
Qed.

Lemma run_action_spec env device peer request w :
  let '(w', r) := run_action env device peer request w in
  wo_replays w' = wo_replays w ∧ (wo_app w' = wo_app w ∨ executed device request w w').
Proof.
  assert (let '(w', r) := match mark_remote_device_seen env device peer w with
      | (w, Err e) => (w, Err e)
      | (w, Ok _) =>
          match on_app (execute_remote_action (bind_device device request)) w with
          | (w, Err e) => (w, Err e)
          | (w, Ok outcome) => (w, Ok (attach_session_claim_if_needed env (request_kind request) device peer outcome))
          end
      end in wo_replays w' = wo_replays w ∧ (wo_app w' = wo_app w ∨ executed device request w w')) as Hrun.
  { pose proof (mark_seen_spec env device peer w) as H.
    destruct (mark_remote_device_seen _ _ _ _) as [w1 [[]|e]]; destruct H as (Ha & Hr & Hp & _); [|by auto].
    unfold on_app. rewrite Ha. unfold executed.
    destruct (execute_remote_action _ _) as [[s a] x] eqn:E. destruct x; cbn; (split; [done|]; right; split; [by apply Hp|]);
      exists (wo_pairing w1); by rewrite E. }
  destruct request; try exact Hrun; cbn [run_action]; clear Hrun.
  - unfold issue_claim_challenge_outcome. pose proof (mark_seen_spec env device peer w) as H.
    destruct (mark_remote_device_seen _ _ _ _) as [w1 [[]|e]]; destruct H as (Ha & Hr & _ & _); [|by auto].
    match goal with |- context [on_pairing ?f w1] => destruct (on_pairing_app f w1) as [Ha' Hr']; destruct (on_pairing f w1) end.
    cbn in *. rewrite Ha', Hr'. auto.
  - unfold issue_claim_outcome.
    match goal with |- context [on_pairing ?f w] => destruct (on_pairing_app f w) as [Ha Hr]; destruct (on_pairing f w) as [w1 r] end.
    cbn in *. destruct r as [c|e]; [|by auto]. destruct (verify_remote_device_claim _ _ _ _ _ _); [|by auto].
    match goal with |- context [on_pairing ?f w1] => destruct (on_pairing_app f w1) as [Ha' Hr']; destruct (on_pairing f w1) as [w2 r] end.
    cbn in *. destruct r; cbn; rewrite Ha', Hr'; auto.
Qed.

Lemma reserved_action_spec env device peer action_id request secret w :
  let '(w', r) := reserved_action env device peer action_id request secret w in
  wo_app w' = wo_app w ∨ executed device request w w'.
Proof.
  unfold reserved_action, reserve. destruct (reserve_remote_action _ _ _ _ _) as [m [[| |]|[]]]; cbn; auto.
  pose proof (run_action_spec env device peer request (MkWorld (wo_pairing w) m (wo_app w))) as H.
  destruct (run_action _ _ _ _ _) as [w1 r]. cbn. destruct H as [_ [H|H]]; [by left|by right].
Qed.

(** Where a request comes from: what entitles [device] to it. *)
Definition entitled (env : Env) (from : string) (m : SurfaceAction) w (device : string) (request : RemoteActionRequest) : Prop :=
  let claimed (claim hint : option string) :=
    match claim with
    | Some claim => verify_session_claim (en_claim_key env) claim from (en_now env) (wo_pairing w) = Ok device
    | None => hint = Some device ∧ requires_session_claim (request_kind request) = false
    end in
  match m with
  | PlainAction action_id claim hint r => app_can_read_content (wo_app w) = true ∧ r = request ∧ claimed claim hint
  | SealedAction action_id claim hint envelope =>
      ∃ secret, paired_device_payload_secret device (wo_pairing w) = Ok secret ∧
        decrypt_json request_of_json secret envelope = Ok request ∧ claimed claim hint
  end.

Lemma resolve_plain_spec env w from action_id claim hint request device :
  resolve_plain_remote_device env (wo_pairing w) from action_id claim hint request = Ok device →
  app_can_read_content (wo_app w) = true → entitled env from (PlainAction action_id claim hint request) w device request.
Proof.
  unfold resolve_plain_remote_device, entitled. intros Hr Hc. split_and!; [done..|].
  destruct claim as [claim|].
  - destruct (verify_session_claim _ _ _ _ _); [by simplify_eq|done].
  - destruct hint as [d|]; [|done]. destruct (requires_session_claim _); [done|]. split; [|done].
    destruct request; simplify_eq; try done. destruct (verify_remote_device_claim_init _ _ _ _ _); by simplify_eq/=.
Qed.

Lemma resolve_sealed_spec env w from action_id claim hint envelope r :
  resolve_encrypted_action_context env (wo_pairing w) from claim hint envelope = Ok r →
  entitled env from (SealedAction action_id claim hint envelope) w (ra_device_id r) (ra_request r) ∧
  paired_device_payload_secret (ra_device_id r) (wo_pairing w) = Ok (ra_response_secret r).
Proof.
  unfold resolve_encrypted_action_context, entitled, decrypt_remote_action_with_secret.
  destruct claim as [claim|].
  - destruct (verify_session_claim _ _ _ _ _) as [d|]; [|done]. destruct (paired_device_payload_secret d _) eqn:E; [|done].
    destruct (decrypt_json _ _ _) eqn:Ed; [|done]. intros [= <-]. cbn. eauto.
  - destruct hint as [d|]; [|done]. destruct (paired_device_payload_secret d _) eqn:E; [|done].
    destruct (decrypt_json _ _ _) eqn:Ed; [|done]. cbn. destruct (requires_session_claim _) eqn:Er; [done|].
    intros [= <-]. cbn. eauto 6.
Qed.

(** C34: an action is executed only for a device entitled to it.  Whatever a surface sends, the
    application changes only by one execution of the request the message carries, with every
    device id in it replaced by the one device it is executed for.  That device is paired; a
    sealed request opened under that device's own secret; a plain one came while the broker
    may read content; and the sender showed a claim of the relay for that device and its own
    connection, or named the device and asked for something no claim is needed for. *)
Theorem actions_need_authority env from m w h :
  let '(w', h', r) := handle_action env from m w h in
  wo_app w' ≠ wo_app w →
  ∃ device request, entitled env from m w device request ∧
    Forall (eq (Some device)) (named_devices (bind_device device request)) ∧ executed device request w w'.
Proof.
  assert (∀ w' device request, entitled env from m w device request →
    wo_app w' = wo_app w ∨ executed device request w w' → wo_app w' ≠ wo_app w →
    ∃ device request, entitled env from m w device request ∧
      Forall (eq (Some device)) (named_devices (bind_device device request)) ∧ executed device request w w') as Hgo.
  { intros w' d r He [|Hx]; [done|]. intros _. exists d, r. split_and!; [done|apply bound_names|done]. }
  destruct m as [action_id claim hint request|action_id claim hint envelope]; cbn [handle_action].
  - unfold handle_remote_action. destruct (app_can_read_content (wo_app w)) eqn:Hc; [|by intros []]. cbn [negb].
    destruct (resolve_plain_remote_device _ _ _ _ _ _ _) as [d|e] eqn:Er; [|destruct (publish_plain_remote_action_result _ _ _ _ _ _ _ _ _); by intros []].
    pose proof (resolve_plain_spec _ _ _ _ _ _ _ _ Er Hc) as He. destruct (is_fire_and_forget_action _).
    + pose proof (fire_and_forget_spec env d from request w) as H.
      destruct (execute_fire_and_forget_remote_action _ _ _ _ _) as [w' r]. by apply (Hgo _ _ _ He), H.
    + pose proof (reserved_action_spec env d from action_id request None w) as H.
      destruct (reserved_action _ _ _ _ _ _ _) as [w' [[reply x]|]]; [|by apply (Hgo _ _ _ He)].
      destruct (replay_plain_remote_action_result _ _ _ _ _ _). by apply (Hgo _ _ _ He).
  - unfold handle_encrypted_remote_action.
    destruct (resolve_encrypted_action_context _ _ _ _ _ _) as [rs|e] eqn:Er.
    2:{ destruct hint; [|by intros []]. destruct (publish_remote_action_result_private _ _ _ _ _ _ _ _ _ _ _ _ _); by intros []. }
    destruct (resolve_sealed_spec _ _ _ action_id _ _ _ _ Er) as [He _]. destruct (is_fire_and_forget_action _).
    + pose proof (fire_and_forget_spec env (ra_device_id rs) from (ra_request rs) w) as H.
      destruct (execute_fire_and_forget_remote_action _ _ _ _ _) as [w' r]. by apply (Hgo _ _ _ He), H.
    + pose proof (reserved_action_spec env (ra_device_id rs) from action_id (ra_request rs) (Some (ra_response_secret rs)) w) as H.
      destruct (reserved_action _ _ _ _ _ _ _) as [w' [[reply x]|]]; [|by apply (Hgo _ _ _ He)].
      destruct (replay_encrypted_remote_action_result _ _ _ _ _ _ _ _ _). by apply (Hgo _ _ _ He).
Qed.

(** ** Once *)

(** What a message asks to be done, once it is resolved. *)
Definition resolved (env : Env) (from : string) (m : SurfaceAction) w : option (string * string * RemoteActionRequest) :=
  match m with
  | PlainAction action_id claim hint request =>
      if app_can_read_content (wo_app w) then
        match resolve_plain_remote_device env (wo_pairing w) from action_id claim hint request with
        | Ok device => Some (device, action_id, request) | Err _ => None
        end
      else None
  | SealedAction action_id claim hint envelope =>
      match resolve_encrypted_action_context env (wo_pairing w) from claim hint envelope with
      | Ok r => Some (ra_device_id r, action_id, ra_request r) | Err _ => None
      end
  end.

Lemma reserved_action_replays env device peer action_id request secret w :
  let '(w', r) := reserved_action env device peer action_id request secret w in
  ∃ ops, wo_replays w' = replay_run ops (wo_replays w) ∧ (length ops <= 2)%nat ∧ Forall (λ o, o.2 = en_now env) ops ∧
    head ops = Some (RReserve device action_id (action_kind_as_str (request_kind request)), en_now env).
Proof.
  set (op := (RReserve device action_id (action_kind_as_str (request_kind request)), en_now env)).
  assert (∀ reply, Forall (λ o, o.2 = en_now env) [op; (@RStore CachedReply device action_id reply, en_now env)]) as Hf2
    by (repeat constructor).
  unfold reserved_action, reserve. destruct (reserve_remote_action _ _ _ _ _) as [m d] eqn:E.
  assert (m = replay_exec op.1 op.2 (wo_replays w)) as -> by (cbn; by rewrite E).
  assert (∃ ops, replay_exec op.1 op.2 (wo_replays w) = replay_run ops (wo_replays w) ∧ (length ops <= 2)%nat ∧
    Forall (λ o, o.2 = en_now env) ops ∧ head ops = Some op) as Hone.
  { exists [op]. split_and!; [done|cbn; lia|by repeat constructor|done]. }
  destruct d as [[| |]|[]]; try exact Hone.
  - pose proof (run_action_spec env device peer request (MkWorld (wo_pairing w) (replay_exec op.1 op.2 (wo_replays w)) (wo_app w))) as H.
    destruct (run_action _ _ _ _ _) as [w1 r]. destruct H as [Hr _]. cbn in Hr. cbn. rewrite Hr. eexists [op; (RStore _ _ _, _)].
    split_and!; [done|cbn; lia|apply Hf2|done].
  - eexists [op; (RStore _ _ _, _)]. split_and!; [done|cbn; lia|apply Hf2|done].
  - eexists [op; (RStore _ _ _, _)]. split_and!; [done|cbn; lia|apply Hf2|done].
Qed.

Lemma handle_resolved env from m w h device action_id request :
  resolved env from m w = Some (device, action_id, request) → is_fire_and_forget_action (request_kind request) = false →
  ∃ secret, (handle_action env from m w h).1.1 = (reserved_action env device from action_id request secret w).1.
Proof.
  destruct m as [a claim hint r|a claim hint envelope]; cbn [resolved handle_action].
  - unfold handle_remote_action. destruct (app_can_read_content (wo_app w)); [|done]. cbn [negb].
    destruct (resolve_plain_remote_device _ _ _ _ _ _ _); [|done]. intros [= -> -> ->] ->. exists None.
    destruct (reserved_action _ _ _ _ _ _ _) as [w' [[reply x]|]]; [|done].
    by destruct (replay_plain_remote_action_result _ _ _ _ _ _).
  - unfold handle_encrypted_remote_action. destruct (resolve_encrypted_action_context _ _ _ _ _ _) as [rs|]; [|done].
    intros [= <- -> <-] ->. exists (Some (ra_response_secret rs)).
    destruct (reserved_action _ _ _ _ _ _ _) as [w' [[reply x]|]]; [|done].
    by destruct (replay_encrypted_remote_action_result _ _ _ _ _ _ _ _ _).
Qed.

Lemma handle_unresolved env from m w h :
  match resolved env from m w with Some (_, _, request) => is_fire_and_forget_action (request_kind request) | None => true end = true →
  wo_replays (handle_action env from m w h).1.1 = wo_replays w.
Proof.
  assert (∀ device request, wo_replays (execute_fire_and_forget_remote_action env device from (bind_device device request) w).1
    = wo_replays w) as Hf.
  { intros device request. pose proof (fire_and_forget_spec env device from request w) as H.
    destruct (execute_fire_and_forget_remote_action _ _ _ _ _). by destruct H. }
  destruct m as [a claim hint r|a claim hint envelope]; cbn [resolved handle_action].
  - unfold handle_remote_action. destruct (app_can_read_content (wo_app w)); [|done]. cbn [negb].
    destruct (resolve_plain_remote_device _ _ _ _ _ _ _) as [d|].
    + intros ->. specialize (Hf d r). by destruct (execute_fire_and_forget_remote_action _ _ _ _ _).
    + by destruct (publish_plain_remote_action_result _ _ _ _ _ _ _ _ _).
  - unfold handle_encrypted_remote_action. destruct (resolve_encrypted_action_context _ _ _ _ _ _) as [rs|].
    + intros ->. specialize (Hf (ra_device_id rs) (ra_request rs)). by destruct (execute_fire_and_forget_remote_action _ _ _ _ _).
    + destruct hint; [|done]. by destruct (publish_remote_action_result_private _ _ _ _ _ _ _ _ _ _ _ _ _).
Qed.

Lemma handle_replays env from m w h :
  ∃ ops, wo_replays (handle_action env from m w h).1.1 = replay_run ops (wo_replays w) ∧ (length ops <= 2)%nat ∧
    Forall (λ o, o.2 = en_now env) ops.
Proof.
  destruct (resolved env from m w) as [[[device action_id] request]|] eqn:Er.
  - destruct (is_fire_and_forget_action (request_kind request)) eqn:Ef.
    + exists []. split_and!; [|cbn; lia|constructor]. apply handle_unresolved. by rewrite Er.
    + destruct (handle_resolved env from m w h _ _ _ Er Ef) as [secret ->].
      pose proof (reserved_action_replays env device from action_id request secret w) as H.
      destruct (reserved_action _ _ _ _ _ _ _) as [w' r]. destruct H as (ops & ? & ? & ? & _). eauto.
  - exists []. split_and!; [|cbn; lia|constructor]. apply handle_unresolved. by rewrite Er.
Qed.

(** A session's messages, each with its environment and sender. *)
Definition handle_all (ms : list (Env * string * SurfaceAction)) (wh : World A * Handle) : World A * Handle :=
  foldl (λ wh m, (handle_action m.1.1 m.1.2 m.2 wh.1 wh.2).1) wh ms.

Lemma handle_all_replays t0 ms : ∀ wh,
  Forall (λ m, t0 ≤ en_now m.1.1 < t0 + 600 ∧ en_now m.1.1 < u64_max) ms →
  ∃ ops, wo_replays (handle_all ms wh).1 = replay_run ops (wo_replays wh.1) ∧ (length ops <= 2 * length ms)%nat ∧
    Forall (λ o, t0 ≤ o.2 < t0 + 600 ∧ o.2 < u64_max) ops.
Proof.
  induction ms as [|[[env from] m] ms IH]; intros wh Ht; [by exists []|]. apply Forall_cons in Ht as [Ht Hts]. cbn in Ht.
  cbn [handle_all foldl fst snd]. destruct (handle_replays env from m wh.1 wh.2) as (ops & E & Hl & Hn).
  destruct (IH (handle_action env from m wh.1 wh.2).1 Hts) as (ops' & E' & Hl' & Hn').
  exists (ops ++ ops')%list. unfold handle_all in E'. rewrite E', E. unfold replay_run. rewrite foldl_app. split_and!; [done|rewrite length_app; cbn; lia|].
  apply Forall_app. split; [|done]. eapply Forall_impl; [exact Hn|]. by intros o ->.
Qed.

(** A resent action is not executed again.  Once an action was executed for a device,
    whatever else the surfaces send in the next ten minutes (and while the replay cache is
    not full), a message that carries the same action id for the device leaves the
    application and the pairing state as they are: it finds the first result again, or is
    refused when it asks for something else, or is ignored. *)
Theorem resent_action_is_not_repeated env from m w h device action_id request ms env' from' m' request' :
  let t0 := en_now env in
  resolved env from m w = Some (device, action_id, request) → is_fire_and_forget_action (request_kind request) = false →
  (reserve_remote_action device action_id (action_kind_as_str (request_kind request)) t0 (wo_replays w)).2 = Ok Execute →
  Forall (λ m, t0 ≤ en_now m.1.1 < t0 + 600 ∧ en_now m.1.1 < u64_max) ms → t0 ≤ en_now env' < t0 + 600 → en_now env' < u64_max →
  (size (wo_replays w) + 2 * length ms + 2 ≤ MAX_REMOTE_ACTION_REPLAY_ENTRIES)%nat →
  let '(w1, h1) := handle_all ((env, from, m) :: ms) (w, h) in
  resolved env' from' m' w1 = Some (device, action_id, request') → is_fire_and_forget_action (request_kind request') = false →
  let w2 := (handle_action env' from' m' w1 h1).1.1 in wo_app w2 = wo_app w1 ∧ wo_pairing w2 = wo_pairing w1.
Proof.
  intros t0 Hr Hf Hx Hms Ht Hm Hs. destruct (handle_all _ _) as [w1 h1] eqn:E1. intros Hr' Hf' w2. unfold w2. clear w2.
  cbn [handle_all foldl fst snd] in E1.
  destruct (handle_resolved env from m w h _ _ _ Hr Hf) as [secret Ew].
  pose proof (reserved_action_replays env device from action_id request secret w) as Hops.
  destruct (reserved_action env device from action_id request secret w) as [wa ra].
  destruct Hops as ([|op ops] & Eops & Hl & Hn & Hh); [done|]. injection Hh as ->. cbn [fst] in Ew.
  destruct (handle_all_replays t0 ms (handle_action env from m w h).1 Hms) as (ops' & E' & Hl' & Hn').
  unfold handle_all in E'. rewrite E1, Ew, Eops in E'. cbn [fst replay_run foldl snd] in E'.
  set (kind := action_kind_as_str (request_kind request)) in *. set (key := remote_action_cache_key device action_id).
  set (m1 := replay_exec _ _ (wo_replays w)) in E'.
  assert (m1 !! key = Some (CrInFlight kind t0)) as H1.
  { unfold m1. cbn. unfold reserve_remote_action in *. fold t0. fold key. fold key in Hx.
    repeat case_match; simplify_eq/=; apply lookup_insert_eq. }
  destruct (run_entry key kind t0 (ops ++ ops') m1 None (CrInFlight kind t0)) as (e & He & Hk); [..|done|by split; [cbn; lia|]|].
  { assert (size m1 <= S (size (wo_replays w)))%nat as Hsz by apply exec_size. rewrite length_app. cbn [length] in Hl. lia. }
  { apply Forall_app. split; [|done]. apply Forall_cons in Hn as [_ Hn]. cbn in Hm. eapply Forall_impl; [exact Hn|].
    intros o ->. fold t0. lia. }
  destruct (handle_resolved env' from' m' w1 h1 _ _ _ Hr' Hf') as [secret' ->].
  unfold reserved_action, reserve. unfold replay_run in He, E'. rewrite foldl_app, <- E' in He.
  rewrite (reserve_entry device action_id kind _ _ t0 _ _ e He Hk) by (done || lia).
  unfold RemoteActions.answer. repeat case_match; by simplify_eq/=.
Qed.
End Authority.

(** * Remote actions at work

    A small application that logs what it is asked, the model of the libraries, and runs of
    the handlers on them. *)
Module RemoteExamples.
(** JSON as text, read back for the values the examples send. *)
Fixpoint dump (j : json) : string :=
  match j with
  | JNull => "null" | JBool b => if b then "true" else "false" | JU64 z | JI64 z => pretty z | JF64 repr => repr
  | JStr s => "'" +:+ s +:+ "'"
  | JSeq l => "[" +:+ (fix go l := match l with [] => "]" | j :: l => dump j +:+ "," +:+ go l end) l
  | JMap es => "{" +:+ (fix go es := match es with [] => "}" | (k, j) :: es => k +:+ ":" +:+ dump j +:+ "," +:+ go es end) es
  end.
Definition samples : list json := [JStr "laptop"; claim_serialize (MkClaimPayload 1 "phone" "peer" 3700);
  claim_serialize (MkClaimPayload 1 "phone" "stranger" 3800)].
#[export] Instance dumping : TicketCrypto := {|
  b64_encode := letters_encode; b64_decode := letters_decode; hmac_sha256 := λ secret msg, secret +:+ "|" +:+ msg;
  json_to_vec := dump; json_from_slice := λ s, find (λ j, String.eqb (dump j) s) samples |}.
#[export] Existing Instances Model.plain_hash Model.tag_box Model.empty_views SnapshotTheorems.Sample.sizes.

(** ** The application: whether the broker may read, and a log *)
Definition App : Type := bool * list string.
Definition note {X} (name : string) (device : option string) (x : X) : PairingState * App → (PairingState * App) * X := λ w,
  ((w.1, (w.2.1, (w.2.2 ++ [name +:+ ":" +:+ default "-" device])%list)), x).
Definition unit_call (name : string) (i : ActionInput) : Call App () := note name (in_device_id i) (Ok ()).
Definition view_call (name : string) (i : ActionInput) : Call App json := note name (in_device_id i) (Ok JNull).

#[export] Instance logging_app : RelayApp App := {|
  app_snapshot _ := SnapshotTheorems.Sample.snapshot; app_can_read_content a := a.1; app_surface_online _ _ := true;
  start_session := unit_call "start"; fork_session := unit_call "fork"; resume_session := unit_call "resume";
  update_session_settings := unit_call "settings"; send_message := unit_call "send"; request_review := unit_call "review";
  start_code_workflow := unit_call "workflow"; cancel_review _ d := note "cancel review" d (Ok ());
  resolve_blocked_workflow _ d := note "resolve workflow" d (Ok ()); delete_review _ d := note "delete review" d (Ok ());
  stop_active_turn := unit_call "stop"; take_over_control := unit_call "take over"; heartbeat_session := unit_call "beat";
  watch_threads := unit_call "watch"; available_providers _ := ["codex"];
  list_threads_matching _ d _ _ := note "list" d (Ok (MkThreadsResponse [] []));
  provider_models _ := note "models" None (Ok []); read_thread_entries := view_call "entries";
  read_thread_entry_detail := view_call "detail"; read_thread_transcript := view_call "transcript";
  decide_approval _ i := note "approve" (in_device_id i) (Ok JNull); apply_file_change _ := unit_call "apply";
  project_action := unit_call "project"; rename_thread _ := unit_call "rename"; repair_thread_workspace _ := unit_call "repair";
  workspace_diff d _ _ := note "diff" d (Ok JNull); resolve_thread_workspace _ d := note "workspace" d (Ok JNull);
  measure_root_changes j _ := j; pin_thread_workspace := view_call "pin"; thread_settings_view d _ := note "view" d (Ok JNull);
  workspace_git_context d _ := note "git" d (Ok JNull); reviews_payload _ _ := JNull; workflows_payload _ _ := JNull;
  devices_payload _ := JNull; projects_payload _ := JNull; read_ask_user_question_detail _ d := note "question" d (Ok JNull);
  submit_ask_user_answer _ i := note "answer" (in_device_id i) (Ok JNull);
  push_subscribe := unit_call "push"; push_unsubscribe d _ := note "unpush" (Some d) (Ok ()) |}.

#[export] Instance any_key : Ed25519 := {| ed_key_ok _ := true; ed_verify _ _ _ := false |}.
#[export] Instance send_only : RequestSerde := λ j,
  match j with JStr device => Some (SendMessage (MkInput (Some device) JNull)) | _ => None end.

(** ** A paired phone *)
Definition phone : PairedDevice := MkPairedDevice "phone" "Phone" "secret" "key" 1 None None None [].
Definition paired : PairingState := pairing_empty <| ps_paired_devices := {[ "phone" := phone ]} |>.
Definition world (readable : bool) : World App := MkWorld paired ∅ (readable, []).
Definition nonces : Nonces := MkNonces Model.sample_nonce Model.sample_nonce (λ _ _, Model.sample_nonce) (λ _, Model.sample_nonce).
Definition env (now : Z) : Env := MkEnv now "claim key" "T" "challenge" nonces.
Definition handle : Handle := MkHandle [] [].

Definition claim : string := si_token (issue_session_claim "claim key" "phone" "peer" 100).
(** The request names another device. *)
Definition envelope : EncryptedEnvelope :=
  match encrypt_json "secret" Model.sample_nonce (JStr "laptop") with Ok e => e | Err _ => MkEnvelope "" "" end.
Definition sealed (action_id : string) : SurfaceAction := SealedAction action_id (Some claim) None envelope.

Definition after (m : SurfaceAction) : World App := (handle_action (env 200) "peer" m (world false) handle).1.1.

Lemma executed_for_the_phone : wo_app (after (sealed "a1")) = (false, ["send:phone"]).
Proof. by vm_compute. Qed.

Lemma actions_need_authority_witness :
  wo_app (after (sealed "a1")) ≠ wo_app (world false) ∧
  ∃ device request, Forall (eq (Some device)) (named_devices (bind_device device request)) ∧
    executed device request (world false) (after (sealed "a1")).
Proof.
  assert (wo_app (after (sealed "a1")) ≠ wo_app (world false)) as Hne by (rewrite executed_for_the_phone; discriminate).
  split; [exact Hne|]. pose proof (actions_need_authority (env 200) "peer" (sealed "a1") (world false) handle) as H.
  unfold after in *. destruct (handle_action _ _ _ _ _) as [[w' h'] r]. cbn [fst] in *.
  destruct (H Hne) as (device & request & _ & Hb & Hx). exists device, request. by split.
Defined.

Lemma session_claims_are_bound_witness :
  let token := si_token (@issue_session_claim model_crypto "claim key" "phone" "peer" 100) in
  @verify_session_claim model_crypto "claim key" token "peer" 3699 paired = Ok "phone" ∧
  @verify_session_claim model_crypto "claim key" token "peer" 3700 paired = Err ClaimIsExpired.
Proof.
  intros token.
  destruct (@session_claims_are_bound model_crypto model_laws "claim key" "phone" "peer" 100 3699 "peer" paired token "phone" ltac:(lia)) as [H1 _].
  destruct (@session_claims_are_bound model_crypto model_laws "claim key" "phone" "peer" 100 3700 "peer" paired token "phone" ltac:(lia)) as [H2 _].
  split; [etransitivity; [exact H1|by vm_compute]|etransitivity; [exact H2|by vm_compute]].
Defined.

(** Two messages, and what they leave. *)
Definition sent_twice : World App * Handle :=
  handle_all [(env 200, "peer", sealed "a1"); (env 201, "peer", sealed "a2")] (world false, handle).
Lemma sent_twice_app : wo_app sent_twice.1 = (false, ["send:phone"; "send:phone"]).
Proof. by vm_compute. Qed.
Lemma sent_twice_resolved : resolved (env 300) "peer" (sealed "a1") sent_twice.1 =
  Some ("phone", "a1", SendMessage (MkInput (Some "laptop") JNull)).
Proof. by vm_compute. Qed.

Lemma resent_action_is_not_repeated_witness :
  wo_app (handle_action (env 300) "peer" (sealed "a1") sent_twice.1 sent_twice.2).1.1 = (false, ["send:phone"; "send:phone"]).
Proof.
  pose proof (resent_action_is_not_repeated (env 200) "peer" (sealed "a1") (world false) handle "phone" "a1"
    (SendMessage (MkInput (Some "laptop") JNull)) [(env 201, "peer", sealed "a2")] (env 300) "peer" (sealed "a1")
    (SendMessage (MkInput (Some "laptop") JNull))) as H.
  cbv zeta in H. specialize (H ltac:(by vm_compute) ltac:(done) ltac:(by vm_compute)).
  assert (Forall (λ m : Env * string * SurfaceAction, 200 ≤ en_now m.1.1 < 200 + 600 ∧ en_now m.1.1 < u64_max)
    [(env 201, "peer", sealed "a2")]) as Hf by (repeat constructor; cbn; unfold u64_max; lia).
  specialize (H Hf ltac:(cbn; lia) ltac:(by compute) ltac:(vm_compute; lia)).
  change (handle_all _ _) with sent_twice in H. pose proof sent_twice_app as Ha. pose proof sent_twice_resolved as Hr.
  destruct sent_twice as [wa ha]. cbn [fst snd] in *. destruct (H Hr eq_refl) as [E _].
  etransitivity; [exact E|exact Ha].
Defined.

(** ** Weaknesses of the plain transport *)

(** Taking over in a managed room: naming a device is enough, and is answered with a claim for
    it, although a claim is otherwise given for a signature under the key of the device. *)
Lemma plain_takeover_needs_no_proof :
  let token := si_token (issue_session_claim "claim key" "phone" "stranger" 200) in
  let '(w, h, r) := handle_action (env 200) "stranger" (PlainAction "x" None (Some "phone") (TakeOver (MkInput None JNull)))
                      (world true) handle in
  r = Ok () ∧ wo_app w = (true, ["take over:phone"]) ∧
  hd_sent h = [SentNow (ORemoteControlResult "x" "stranger" KTakeOver true (Some token) (Some 3800) None None None None)] ∧
  verify_session_claim "claim key" token "stranger" 200 (wo_pairing w) = Ok "phone".
Proof. vm_compute. by split_and!. Qed.

(** The receipt of an answer to a question is in no plain reply. *)
Lemma plain_reply_drops_the_answer_receipt action_id peer snapshot outcome receipt error ok :
  build_plain_remote_action_result_payload action_id peer
    (plaintext_result KSubmitAskUserAnswer snapshot (outcome <| oc_ask_user_answer_receipt := receipt |>) error ok) =
  build_plain_remote_action_result_payload action_id peer (plaintext_result KSubmitAskUserAnswer snapshot outcome error ok).
Proof. by destruct outcome. Qed.

(** The busy answer to a session result, which has no snapshot, cannot be built. *)
Lemma busy_session_reply_cannot_be_built action_id peer action :
  build_plain_remote_action_result_payload action_id peer (busy_remote_action_result RkSession action) = None.
Proof. done. Qed.
End RemoteExamples.
