(* ===== verification/Publisher.v ===== *)
(** * What the relay publishes and when (crates/relay-server/src/broker.rs)

    The gate that spaces the snapshots of a session, the backoff between sessions, the
    merging of queued transcript deltas, and the publishing of deltas, pairing results and
    snapshots to the surfaces of the room.  Publishing reads the relay's state anew at every
    step; what the rest of the relay does to it between two steps is [meanwhile]. *)

From Stdlib Require Import ZArith Lia Ascii.
From S2P Require Import BrokerState BrokerTheorems Admission LiveText ChunkTheorems Prelude RustStr Json ControlPlane JoinTicket Paths Device RemoteActions Surfaces Snapshot Writer RemoteRequest RemoteReply RemoteChunks RemotePublish RemoteDispatch.

Open Scope string_scope.
Open Scope Z_scope.

Definition SNAPSHOT_PUBLISH_MIN_INTERVAL_MILLIS : Z := 500.
Definition TRANSCRIPT_DELTA_PUBLISH_WINDOW_MILLIS : Z := 100.
Definition BROKER_RECONNECT_BASE_DELAY_SECS : Z := 2.
Definition BROKER_RECONNECT_MAX_DELAY_SECS : Z := 60.
Definition BROKER_RECONNECT_STABLE_SESSION_SECS : Z := 60.

(** ** The gate of the snapshots; instants and durations are in milliseconds *)
Record SnapshotPublishGate : Type := MkGate {
  sg_min_interval : Z;
  sg_last_published_at : option Z;
  sg_cooldown_until : option Z;
  sg_scheduled : bool
}.
#[export] Instance SnapshotPublishGate_expand : Expand SnapshotPublishGate := λ g,
  MkGate (sg_min_interval g) (sg_last_published_at g) (sg_cooldown_until g) (sg_scheduled g).

Inductive SnapshotPublishDecision : Type :=
| PublishSnapshot
| FlushTranscriptDeltasThenPublishSnapshot
| DelayUntil (deadline : Z).

Definition new_gate (min_interval : Z) : SnapshotPublishGate := MkGate min_interval None None false.
Definition has_pending_publish (g : SnapshotPublishGate) : bool := sg_scheduled g.
Definition mark_published (now : Z) (g : SnapshotPublishGate) : SnapshotPublishGate :=
  g <| sg_last_published_at := Some now |> <| sg_scheduled := false |>.
Definition defer_until (deadline : Z) (g : SnapshotPublishGate) : SnapshotPublishGate :=
  g <| sg_cooldown_until := Some (match sg_cooldown_until g with
                                  | Some current => if deadline <? current then current else deadline
                                  | None => deadline
                                  end) |>
    <| sg_scheduled := true |>.

(** [None] when a snapshot may be published now, and it is then taken as published. *)
Definition ready_or_deadline (now : Z) (g : SnapshotPublishGate) : SnapshotPublishGate * option Z :=
  match sg_cooldown_until g with
  | Some cooldown_until =>
      if now <? cooldown_until then (g <| sg_scheduled := true |>, Some cooldown_until) else
      let g := g <| sg_cooldown_until := None |> in
      match sg_last_published_at g with
      | None => (mark_published now g, None)
      | Some last_published_at =>
          if sg_min_interval g <=? now - last_published_at then (mark_published now g, None)
          else (g <| sg_scheduled := true |>, Some (last_published_at + sg_min_interval g))
      end
  | None =>
      match sg_last_published_at g with
      | None => (mark_published now g, None)
      | Some last_published_at =>
          if sg_min_interval g <=? now - last_published_at then (mark_published now g, None)
          else (g <| sg_scheduled := true |>, Some (last_published_at + sg_min_interval g))
      end
  end.

Definition snapshot_publish_decision (now : Z) (has_pending_transcript_deltas : bool) (g : SnapshotPublishGate) :
    SnapshotPublishGate * SnapshotPublishDecision :=
  match ready_or_deadline now g with
  | (g, None) => (g, if has_pending_transcript_deltas then FlushTranscriptDeltasThenPublishSnapshot else PublishSnapshot)
  | (g, Some deadline) => (g, DelayUntil deadline)
  end.

(** ** The backoff between sessions *)
Record RetryBackoff : Type := MkBackoff { rb_base_delay : Z; rb_max_delay : Z; rb_consecutive_failures : Z }.
#[export] Instance RetryBackoff_expand : Expand RetryBackoff := λ b,
  MkBackoff (rb_base_delay b) (rb_max_delay b) (rb_consecutive_failures b).
Record RetryDelay : Type := MkDelay { rd_delay : Z; rd_cap : Z; rd_consecutive_failures : Z }.

(** The greatest [Duration]: a [u64] of seconds. *)
Definition duration_max : Z := u64_max * 1000 + 999.
Definition new_backoff (base_delay max_delay : Z) : option RetryBackoff :=
  if negb (base_delay =? 0) && (base_delay <=? max_delay) then Some (MkBackoff base_delay max_delay 0) else None.
Definition reset_backoff (b : RetryBackoff) : RetryBackoff := b <| rb_consecutive_failures := 0 |>.
Definition reset_after_stable_session (session_duration : Z) (b : RetryBackoff) : RetryBackoff :=
  if BROKER_RECONNECT_STABLE_SESSION_SECS * 1000 <=? session_duration then reset_backoff b else b.

(** [draw floor cap] is [rng.gen_range(floor..=cap)]. *)
Definition next_delay (draw : Z → Z → Z) (b : RetryBackoff) : RetryBackoff * RetryDelay :=
  let exponent := Z.min (rb_consecutive_failures b) 31 in
  let cap := Z.min (Z.min (rb_base_delay b * Z.shiftl 1 exponent) duration_max) (rb_max_delay b) in
  let cap_millis := Z.min cap u64_max in
  let floor_millis := Z.max (cap_millis / 2) 1 in
  let b := b <| rb_consecutive_failures ::= λ n, Z.min (n + 1) u32_max |> in
  (b, MkDelay (draw floor_millis cap_millis) cap (rb_consecutive_failures b)).

(** ** Merging deltas *)
Definition can_merge_transcript_delta (current next : PendingTranscriptDelta) : bool :=
  bool_decide (td_thread_id current = td_thread_id next) && bool_decide (td_item_id current = td_item_id next)
  && bool_decide (td_turn_id current = td_turn_id next)
  && match td_kind current, td_kind next with
     | AgentText, AgentText | CommandOutput, CommandOutput => true
     | _, _ => false
     end
  && (td_revision current =? td_base_revision next).

Definition merge_delta (last delta : PendingTranscriptDelta) : PendingTranscriptDelta :=
  MkDelta (td_thread_id last) (td_base_revision last) (td_revision delta) (td_entry_seq delta) (td_server_time delta)
    (td_item_id last) (td_turn_id last) (td_delta last +:+ td_delta delta) (td_kind last) (td_text_offset last).

(** [last] is the delta others may still be merged into. *)
Fixpoint coalesce_from (last : PendingTranscriptDelta) (deltas : list PendingTranscriptDelta) : list PendingTranscriptDelta :=
  match deltas with
  | [] => [last]
  | delta :: deltas =>
      if can_merge_transcript_delta last delta then coalesce_from (merge_delta last delta) deltas
      else last :: coalesce_from delta deltas
  end.
Definition coalesce_transcript_deltas (deltas : list PendingTranscriptDelta) : list PendingTranscriptDelta :=
  match deltas with [] => [] | delta :: deltas => coalesce_from delta deltas end.

(** ** The relay as the publisher sees it *)
Class SessionApp (A : Type) := {
  app_surfaces : A → SurfaceState;
  set_app_surfaces : SurfaceState → A → A;
  meanwhile : World A → World A;
  drawn_nonce : World A → string → string
}.

(** Device, peer, payload secret. *)
Notation BrokerTarget := (string * string * string)%type.

Section Publishing.
Context {A : Type} {RA : RelayApp A} {SA : SessionApp A} {TC : TicketCrypto} {DC : DeviceCrypto} {SB : SecretBox}.
Context {FS : FileSystem} {VS : ViewSerde} {SS : SnapshotSizes}.

(** The fields the device operations share with the surfaces are read from the pairing state. *)
Definition surfaces_of (w : World A) : SurfaceState :=
  (app_surfaces (wo_app w))
    <| sf_active_controller_device_id := ps_active_controller_device_id (wo_pairing w) |>
    <| sf_active_controller_last_seen_at := ps_active_controller_last_seen_at (wo_pairing w) |>
    <| sf_online_surface_peer_devices := ps_online_surface_peer_devices (wo_pairing w) |>
    <| sf_watched_threads := ps_watched_threads (wo_pairing w) |>
    <| sf_paired_devices := ps_paired_devices (wo_pairing w) |>.
Definition on_surfaces {X} (f : SurfaceState → SurfaceState * X) (w : World A) : World A * X :=
  let '(s, x) := f (surfaces_of w) in
  (MkWorld ((wo_pairing w) <| ps_online_surface_peer_devices := sf_online_surface_peer_devices s |>
                         <| ps_watched_threads := sf_watched_threads s |>)
     (wo_replays w) (set_app_surfaces s (wo_app w)), x).
Definition surfaces_op (f : SurfaceState → SurfaceState) (w : World A) : World A :=
  (on_surfaces (λ s, (f s, ())) w).1.

(** A computation that awaits: the state and the writer, and a failure that ends it. *)
Definition Task (X : Type) : Type := World A → Handle → World A * Handle * result X HandlerError.
Definition ret {X} (x : X) : Task X := λ w h, (w, h, Ok x).
Definition bind {X Y} (c : Task X) (f : X → Task Y) : Task Y := λ w h,
  match c w h with
  | (w, h, Ok x) => f x w h
  | (w, h, Err e) => (w, h, Err e)
  end.
Definition reading {X} (f : World A → X) : Task X := λ w h, (w, h, Ok (f w)).
Definition await : Task () := λ w h, (meanwhile w, h, Ok ()).
Definition sealing {X} (r : result X CryptoError) : Task X := λ w h,
  (w, h, match r with Ok x => Ok x | Err e => Err (SealError e) end).
Definition handing (ms : list TargetedBrokerMessage) : Task () := λ w h,
  let '(h, r) := publish_targeted_messages ms h in (w, h, r).
#[local] Notation "'do' x ':=' c 'in' k" := (bind c (λ x, k)) (at level 200, x binder, c at level 100, k at level 200).
#[local] Notation "c ';;' k" := (bind c (λ _, k)) (at level 100, right associativity).

(** *** Transcript deltas *)
Definition delta_kind_name (k : TranscriptDeltaKind) : string :=
  match k with AgentText => "agent_text" | CommandOutput => "command_output" end.

Definition delta_value (d : PendingTranscriptDelta) : json :=
  JMap [("thread_id", JStr (td_thread_id d)); ("base_revision", JU64 (td_base_revision d));
        ("revision", JU64 (td_revision d)); ("entry_seq", JU64 (td_entry_seq d));
        ("server_time", JU64 (td_server_time d)); ("item_id", JStr (td_item_id d));
        ("turn_id", ser_option JStr (td_turn_id d)); ("delta", JStr (td_delta d));
        ("delta_kind", JStr (delta_kind_name (td_kind d))); ("text_offset", ser_option JU64 (td_text_offset d))].
Definition delta_payload (d : PendingTranscriptDelta) : OutboundBrokerPayload :=
  OTranscriptDelta (td_thread_id d) (td_base_revision d) (td_revision d) (td_entry_seq d) (td_server_time d)
    (td_item_id d) (td_turn_id d) (td_delta d) (delta_kind_name (td_kind d)) (td_text_offset d).

(** One sealed message per target; the first failure ends it. *)
Fixpoint seal_for (nonce : string → string) (value : json)
    (payload : string → string → EncryptedEnvelope → OutboundBrokerPayload) (targets : list BrokerTarget) :
    result (list TargetedBrokerMessage) CryptoError :=
  match targets with
  | [] => Ok []
  | (device_id, peer_id, payload_secret) :: targets =>
      let? envelope := encrypt_json payload_secret (nonce peer_id) value in
      let? messages := seal_for nonce value payload targets in
      Ok ((peer_id, payload peer_id device_id envelope) :: messages)
  end.

Definition build_transcript_delta_messages (nonce : string → string) (targets : list BrokerTarget)
    (broker_can_read_content : bool) (delta : PendingTranscriptDelta) :
    result (list TargetedBrokerMessage) CryptoError :=
  if broker_can_read_content
  then Ok (map (λ t : BrokerTarget, (t.1.2, delta_payload delta)) targets)
  else seal_for nonce (delta_value delta) OEncryptedTranscriptDelta targets.

Definition publish_transcript_delta (delta : PendingTranscriptDelta) : Task () :=
  do targets := reading (λ w, broker_targets_for_thread (td_thread_id delta) (surfaces_of w)) in
  if bool_decide (targets = []) then ret () else
  await ;;
  do can_read := reading (λ w, app_can_read_content (wo_app w)) in
  do nonce := reading drawn_nonce in
  do messages := sealing (build_transcript_delta_messages nonce targets can_read delta) in
  handing messages ;; await.

Fixpoint publish_each (deltas : list PendingTranscriptDelta) : Task () :=
  match deltas with
  | [] => ret ()
  | delta :: deltas => publish_transcript_delta delta ;; publish_each deltas
  end.

Definition MAX_DELTAS_PER_DRAIN : nat := 50.
(** Publishes up to fifty merged deltas and gives back the others. *)
Definition publish_transcript_delta_batch (deltas : list PendingTranscriptDelta) : Task (list PendingTranscriptDelta) :=
  let deltas := coalesce_transcript_deltas deltas in
  publish_each (take MAX_DELTAS_PER_DRAIN deltas) ;; ret (drop MAX_DELTAS_PER_DRAIN deltas).

(** The [while]; each round publishes at least one delta, so as many rounds as deltas do. *)
Fixpoint flush_rounds (fuel : nat) (deltas : list PendingTranscriptDelta) : Task () :=
  match deltas, fuel with
  | [], _ => ret ()
  | _, O => ret ()
  | _, S fuel => do rest := publish_transcript_delta_batch deltas in flush_rounds fuel rest
  end.
Definition flush_pending_transcript_deltas (deltas : list PendingTranscriptDelta) : Task () :=
  flush_rounds (length deltas) deltas.

(** *** Pairing results *)
Definition lifecycle_name (s : DeviceLifecycleState) : string :=
  match s with LcPending => "pending" | LcApproved => "approved" | LcRejected => "rejected" | LcRevoked => "revoked" end.
Definition device_view_value (v : PairedDeviceView) : json :=
  JMap [("device_id", JStr (pv_device_id v)); ("label", JStr (pv_label v));
        ("lifecycle_state", JStr (lifecycle_name (pv_lifecycle_state v))); ("created_at", JU64 (pv_created_at v));
        ("last_seen_at", ser_option JU64 (pv_last_seen_at v)); ("last_peer_id", ser_option JStr (pv_last_peer_id v));
        ("broker_join_ticket_expires_at", ser_option JU64 (pv_broker_join_ticket_expires_at v));
        ("fingerprint", ser_option JStr (pv_fingerprint v)); ("path_scope", JSeq (map JStr (pv_path_scope v)))].
Definition pairing_result_value (r : PendingPairingResult) : json :=
  JMap [("ok", JBool (negb (is_some (res_error r)))); ("device", ser_option device_view_value (res_device r));
        ("payload_secret", ser_option JStr (res_payload_secret r)); ("relay_id", ser_option JStr (res_relay_id r));
        ("relay_label", ser_option JStr (res_relay_label r)); ("client_claim_id", ser_option JStr (res_client_claim_id r));
        ("client_claim_nonce", ser_option JStr (res_client_claim_nonce r));
        ("client_claim_expires_at", ser_option JU64 (res_client_claim_expires_at r));
        ("device_refresh_token", ser_option JStr (res_device_refresh_token r));
        ("device_join_ticket", ser_option JStr (res_device_join_ticket r));
        ("device_join_ticket_expires_at", ser_option JU64 (res_device_join_ticket_expires_at r));
        ("error", ser_option JStr (res_error r))].

Definition pairing_result_targeted_message (nonce : string → string) (r : PendingPairingResult) :
    result TargetedBrokerMessage CryptoError :=
  let? envelope := encrypt_json (res_pairing_secret r) (nonce (res_target_peer_id r)) (pairing_result_value r) in
  Ok (res_target_peer_id r, OEncryptedPairingResult (res_pairing_id r) (res_target_peer_id r) envelope).
Definition publish_pairing_result (r : PendingPairingResult) : Task () :=
  do nonce := reading drawn_nonce in
  do message := sealing (pairing_result_targeted_message nonce r) in
  handing [message] ;; await.

(** *** Draining the queue *)
Fixpoint publish_results (messages : list BrokerPendingMessage) : Task (list PendingTranscriptDelta) :=
  match messages with
  | [] => ret []
  | PairingResult r :: messages => publish_pairing_result r ;; publish_results messages
  | TranscriptDelta d :: messages => do ds := publish_results messages in ret (d :: ds)
  end.
Definition drain_pending_broker_messages_for_publish : Task (list PendingTranscriptDelta) := λ w h,
  let '(w, messages) := on_surfaces drain_pending_broker_messages w in publish_results messages (meanwhile w) h.
Definition publish_pending_broker_messages : Task () :=
  do deltas := drain_pending_broker_messages_for_publish in publish_each (coalesce_transcript_deltas deltas).

(** *** Snapshots *)
Definition publish_snapshot : Task () :=
  do snapshot := reading world_snapshot in
  await ;;
  do can_read := reading (λ w, app_can_read_content (wo_app w)) in
  let compacted := compacted_snapshot snapshot in
  if can_read : bool
  then (λ w h, let '(h, r) := publish_payload (OSessionSnapshot compacted) h in (w, h, r)) ;; await
  else
    await ;;
    do targets := reading (λ w, broker_targets (surfaces_of w)) in
    do nonce := reading drawn_nonce in
    do messages := sealing (seal_for nonce (snapshot_value compacted) OEncryptedSessionSnapshot targets) in
    handing messages ;; await.
End Publishing.

(** * What is published

    Merging deltas changes nothing for a client; a targeted frame reaches exactly the peers it
    names; the backoff stays in its bounds. *)
(** ** Merging *)

(** The revisions of the deltas of one thread follow each other. *)
Fixpoint chained (rev : Z) (ds : list PendingTranscriptDelta) : Prop :=
  match ds with
  | [] => True
  | d :: ds => td_base_revision d = rev ∧ chained (td_revision d) ds
  end.
Definition revision_after (rev : Z) (ds : list PendingTranscriptDelta) : Z := default rev (td_revision <$> last ds).

(** What one list tells a client of thread [th], another tells it too: the same text, at
    offsets and revisions that agree where the other's do. *)
Record tells (th : string) (new old : list PendingTranscriptDelta) : Prop := MkTells {
  tells_text : ∀ rep, replay (deltas_of th new) rep = replay (deltas_of th old) rep;
  tells_offsets : ∀ rep, offsets_agree rep (deltas_of th old) → offsets_agree rep (deltas_of th new);
  tells_chain : ∀ rev, chained rev (deltas_of th old) → chained rev (deltas_of th new);
  tells_revision : ∀ rev, revision_after rev (deltas_of th new) = revision_after rev (deltas_of th old)
}.
#[export] Instance tells_preorder th : PreOrder (tells th).
Proof.
  split.
  - by intros l; constructor.
  - intros a b c [] []. constructor; intros; [etrans; eauto|auto|auto|etrans; eauto].
Qed.

Lemma replay_app a b rep : replay (a ++ b) rep = replay b (replay a rep).
Proof. apply foldl_app. Qed.
Lemma offsets_agree_app rep a b : offsets_agree rep (a ++ b) ↔ offsets_agree rep a ∧ offsets_agree (replay a rep) b.
Proof. revert rep. induction a as [|d a IH]; intros rep; cbn; [naive_solver|]. rewrite IH. naive_solver. Qed.
Lemma revision_after_cons rev d ds : revision_after rev (d :: ds) = revision_after (td_revision d) ds.
Proof. unfold revision_after. rewrite last_cons. by destruct (last ds). Qed.
Lemma revision_after_app rev a b : revision_after rev (a ++ b) = revision_after (revision_after rev a) b.
Proof. unfold revision_after. rewrite last_app. by destruct (last b). Qed.
Lemma chained_app rev a b : chained rev (a ++ b) ↔ chained rev a ∧ chained (revision_after rev a) b.
Proof.
  revert rev. induction a as [|d a IH]; intros rev; cbn [chained app]; [by unfold revision_after; cbn; naive_solver|].
  rewrite IH, revision_after_cons. naive_solver.
Qed.

#[export] Instance tells_app th : Proper (tells th ==> tells th ==> tells th) app.
Proof.
  intros a a' [Ta Oa Ca Ra] b b' [Tb Ob Cb Rb].
  constructor; intros x; rewrite ?deltas_of_app, ?replay_app, ?offsets_agree_app, ?chained_app, ?revision_after_app.
  - by rewrite Ta, Tb.
  - rewrite Ta. naive_solver.
  - rewrite Ra. naive_solver.
  - by rewrite Ra, Rb.
Qed.

Lemma can_merge_spec a b :
  can_merge_transcript_delta a b = true →
  td_thread_id a = td_thread_id b ∧ td_item_id a = td_item_id b ∧ td_turn_id a = td_turn_id b ∧ td_kind a = td_kind b ∧
  td_revision a = td_base_revision b.
Proof.
  unfold can_merge_transcript_delta. rewrite !andb_true_iff, !bool_decide_eq_true, Z.eqb_eq.
  intros ((((? & ?) & ?) & Hk) & ?). split_and!; try done. by destruct (td_kind a), (td_kind b).
Qed.

Lemma deltas_of_cons th d ds : deltas_of th (d :: ds) = if decide (td_thread_id d = th) then d :: deltas_of th ds else deltas_of th ds.
Proof. unfold deltas_of. rewrite filter_cons. done. Qed.

Lemma merge_tells th a b : can_merge_transcript_delta a b = true → tells th [merge_delta a b] [a; b].
Proof.
  intros (Ht & Hi & _ & _ & Hr)%can_merge_spec.
  constructor; intros x; rewrite !deltas_of_cons; cbn [merge_delta td_thread_id]; rewrite <- Ht; case_decide; cbn; try done.
  - unfold replica_apply. cbn [merge_delta td_item_id td_delta]. rewrite <- Hi.
    rewrite insert_insert_eq. f_equal. unfold replica_text at 2. rewrite lookup_insert_eq. cbn. by rewrite string_app_assoc.
  - naive_solver.
  - naive_solver.
Qed.

Lemma coalesce_from_tells th ds : ∀ last, tells th (coalesce_from last ds) (last :: ds).
Proof.
  induction ds as [|d ds IH]; intros last; cbn; [done|]. destruct (can_merge_transcript_delta last d) eqn:E.
  - rewrite IH. change (merge_delta last d :: ds) with ([merge_delta last d] ++ ds)%list.
    change (last :: d :: ds) with ([last; d] ++ ds)%list. by rewrite (merge_tells th _ _ E).
  - change (last :: coalesce_from d ds) with ([last] ++ coalesce_from d ds)%list.
    change (last :: d :: ds) with ([last] ++ (d :: ds))%list. by rewrite IH.
Qed.
Lemma coalesce_tells th ds : tells th (coalesce_transcript_deltas ds) ds.
Proof. destruct ds; [done|]. apply coalesce_from_tells. Qed.

(** No two neighbours of a merged list merge. *)
Definition unmergeable (ds : list PendingTranscriptDelta) : Prop :=
  ∀ i a b, ds !! i = Some a → ds !! S i = Some b → can_merge_transcript_delta a b = false.

Lemma coalesce_head ds : ∀ last, ∃ h r, coalesce_from last ds = h :: r ∧
  ∀ a, can_merge_transcript_delta a h = can_merge_transcript_delta a last.
Proof.
  induction ds as [|d ds IH]; intros last; cbn; [by do 2 eexists|]. destruct (can_merge_transcript_delta last d); [|by do 2 eexists].
  destruct (IH (merge_delta last d)) as (h & r & -> & Hh). by do 2 eexists.
Qed.

Lemma coalesce_from_unmergeable ds : ∀ last, unmergeable (coalesce_from last ds).
Proof.
  induction ds as [|d ds IH]; intros last; cbn; [by intros [] a b|].
  destruct (can_merge_transcript_delta last d) eqn:E; [apply IH|].
  intros [|i] a b Ha Hb; [|by eapply (IH d i)]. destruct (coalesce_head ds d) as (h & r & Hc & Hh).
  cbn in Ha, Hb. rewrite Hc in Hb. cbn in Hb. simplify_eq. by rewrite Hh.
Qed.

Lemma coalesce_from_length ds : ∀ last, (length (coalesce_from last ds) ≤ S (length ds))%nat.
Proof.
  induction ds as [|d ds IH]; intros last; cbn; [lia|]. case_match; [rewrite IH; lia|]. cbn. specialize (IH d). lia.
Qed.
Lemma coalesce_length ds : (length (coalesce_transcript_deltas ds) ≤ length ds)%nat.
Proof. destruct ds; [done|]. apply coalesce_from_length. Qed.


(** ** The backoff *)
Definition draws_in_range (draw : Z → Z → Z) : Prop := ∀ a b, a ≤ b → a ≤ draw a b ≤ b.

(** The delay before each of the next sessions; [o]: how long the one before was connected. *)
Fixpoint retry_delays (draw : Z → Z → Z) (sessions : list (option Z)) (b : RetryBackoff) : list RetryDelay :=
  match sessions with
  | [] => []
  | o :: sessions =>
      let b := match o with Some d => reset_after_stable_session d b | None => b end in
      let '(b, delay) := next_delay draw b in
      delay :: retry_delays draw sessions b
  end.

Lemma next_delay_spec draw b :
  draws_in_range draw → 1 ≤ rb_base_delay b ≤ rb_max_delay b → rb_max_delay b ≤ u64_max → 0 ≤ rb_consecutive_failures b →
  let d := (next_delay draw b).2 in
  rd_cap d = Z.min (rb_base_delay b * 2 ^ Z.min (rb_consecutive_failures b) 31) (rb_max_delay b) ∧
  Z.max (rd_cap d / 2) 1 ≤ rd_delay d ≤ rd_cap d ∧ rb_base_delay b ≤ rd_cap d ≤ rb_max_delay b.
Proof.
  intros Hd Hb Hm Hn. cbv zeta. unfold next_delay. cbn [snd rd_cap rd_delay].
  rewrite Z.shiftl_mul_pow2, Z.mul_1_l by lia.
  set (e := 2 ^ Z.min _ _). assert (1 ≤ e) as He.
  { unfold e. pose proof (Z.pow_le_mono_r 2 0 (Z.min (rb_consecutive_failures b) 31)). lia. }
  assert (u64_max ≤ duration_max) as Hu by by vm_compute.
  replace (Z.min (Z.min (rb_base_delay b * e) duration_max) (rb_max_delay b))
    with (Z.min (rb_base_delay b * e) (rb_max_delay b)) by lia.
  assert (rb_base_delay b ≤ rb_base_delay b * e) as Hle by nia.
  set (cap := Z.min (rb_base_delay b * e) (rb_max_delay b)). assert (rb_base_delay b ≤ cap ≤ rb_max_delay b) as Hc by lia.
  rewrite (Z.min_l cap) by lia. split_and!; try lia; apply Hd; Z.to_euclidean_division_equations; lia.
Qed.

(** The cap after [n] sessions in a row. *)
Definition cap_of (n : Z) : Z := Z.min (2000 * 2 ^ Z.min n 31) 60000.
Definition stable (o : option Z) : bool := match o with Some d => 60000 <=? d | None => false end.

Lemma cap_of_next n : 0 ≤ n → cap_of (Z.min (n + 1) u32_max) = Z.min (2 * cap_of n) 60000.
Proof.
  intros Hn. unfold cap_of. assert (u32_max = 4294967295) as -> by done.
  destruct (decide (n < 5)) as [H5|H5].
  - rewrite (Z.min_l (n + 1) 4294967295), !Z.min_l with (m := 31) by lia. rewrite Z.pow_add_r by lia. lia.
  - assert (2 ^ 5 ≤ 2 ^ Z.min n 31) by (apply Z.pow_le_mono_r; lia).
    assert (2 ^ 5 ≤ 2 ^ Z.min (Z.min (n + 1) 4294967295) 31) by (apply Z.pow_le_mono_r; lia). lia.
Qed.

Lemma retry_delays_caps draw sessions :
  draws_in_range draw → ∀ n, 0 ≤ n →
  let delays := retry_delays draw sessions (MkBackoff 2000 60000 n) in
  length delays = length sessions ∧
  ∀ i d o, delays !! i = Some d → sessions !! i = Some o →
    Z.max (rd_cap d / 2) 1 ≤ rd_delay d ≤ rd_cap d ∧ 2000 ≤ rd_cap d ≤ 60000 ∧
    rd_cap d = if stable o then 2000 else
               match i with
               | O => cap_of n
               | S j => Z.min (2 * default 0 (rd_cap <$> delays !! j)) 60000
               end.
Proof.
  intros Hd. induction sessions as [|o sessions IH]; intros n Hn; cbv zeta; cbn [retry_delays]; [done|].
  set (b := match o with Some d => _ | None => _ end).
  assert (b = MkBackoff 2000 60000 (if stable o then 0 else n)) as ->.
  { unfold b, stable, reset_after_stable_session. destruct o as [d|]; [|done].
    change (BROKER_RECONNECT_STABLE_SESSION_SECS * 1000) with 60000. by destruct (60000 <=? d). }
  set (m := if stable o then 0 else n). assert (0 ≤ m) as Hm by (unfold m; case_match; lia).
  destruct (next_delay_spec draw (MkBackoff 2000 60000 m) Hd) as (Hc & Hb & Hr); [cbn; lia|by vm_compute|done|].
  change (next_delay draw (MkBackoff 2000 60000 m)) with
    (MkBackoff 2000 60000 (Z.min (m + 1) u32_max), (next_delay draw (MkBackoff 2000 60000 m)).2).
  set (d0 := (next_delay _ _).2) in *. cbn [rb_base_delay rb_max_delay rb_consecutive_failures] in Hc, Hr.
  fold (cap_of m) in Hc. destruct (IH (Z.min (m + 1) u32_max)) as [Hl Hi]; [unfold u32_max; lia|].
  split; [cbn [length]; by rewrite Hl|]. intros [|i] d o' Hd' Ho'; cbn [lookup list_lookup] in Hd', Ho'; simplify_eq.
  - split_and!; try lia. rewrite Hc. unfold m. by destruct (stable o').
  - destruct (Hi i d o' Hd' Ho') as (Hb' & Hr' & Hc'). split_and!; try lia. rewrite Hc'. destruct (stable o'); [done|].
    destruct i as [|i]; [|done]. rewrite cap_of_next, <- Hc by done. done.
Qed.

(** The backoff between sessions.  From the relay's start, however its sessions end: each is
    followed by one wait, of at least half its cap, and never more than a minute; the first cap,
    and that after a session that was connected for a minute, is two seconds, and each other
    session doubles the cap up to the minute. *)
Theorem backoff_is_bounded draw sessions :
  draws_in_range draw →
  let start := MkBackoff (BROKER_RECONNECT_BASE_DELAY_SECS * 1000) (BROKER_RECONNECT_MAX_DELAY_SECS * 1000) 0 in
  let delays := retry_delays draw sessions start in
  length delays = length sessions ∧
  ∀ i d o, delays !! i = Some d → sessions !! i = Some o →
    Z.max (rd_cap d / 2) 1 ≤ rd_delay d ≤ rd_cap d ∧ 2000 ≤ rd_cap d ≤ 60000 ∧
    rd_cap d = if stable o then 2000 else
               match i with
               | O => 2000
               | S j => Z.min (2 * default 0 (rd_cap <$> delays !! j)) 60000
               end.
Proof. intros Hd. exact (retry_delays_caps draw sessions Hd 0 (Z.le_refl 0)). Qed.

Lemma backoff_is_bounded_witness :
  let start := MkBackoff 2000 60000 0 in
  rd_cap <$> retry_delays (λ a b, (a + b) / 2) [None; Some 100; None; None; None; Some 5; Some 60000; None] start =
    [2000; 4000; 8000; 16000; 32000; 60000; 2000; 4000] ∧
  length (retry_delays (λ a b, (a + b) / 2) [None; Some 100; None] start) = 3%nat.
Proof.
  split; [by vm_compute|]. apply (backoff_is_bounded (λ a b, (a + b) / 2) [None; Some 100; None]).
  intros a b ?. Z.to_euclidean_division_equations. lia.
Defined.

(** ** From the relay to the surfaces of its room *)
Section Targeted.
Context {TC : TicketCrypto} {VS : ViewSerde}.

(** The payload of a frame as the broker and the surfaces see it. *)
Definition on_wire (p : OutboundBrokerPayload) : json := add_relay_payload_protocol_version (payload_value p).
Definition addressed {X} (peer_id : string) (ms : list (string * X)) : list X :=
  omap (λ m, if decide (m.1 = peer_id) then Some m.2 else None) ms.

Lemma targeted_on_wire ms :
  on_wire (OTargetedMessages ms) =
    JMap [("kind", JStr "targeted_messages");
          ("messages", JSeq (map (λ m : TargetedBrokerMessage,
             JMap [("target_peer_id", JStr m.1); ("payload", on_wire m.2)]) ms));
          ("protocol_version", JU64 RELAY_PROTOCOL_VERSION)].
Proof. unfold on_wire. cbn. rewrite map_map. done. Qed.

Lemma targeted_fields (chk : json → result () de_error) a b c :
  derived_struct false [("messages", chk)] (JMap [("kind", a); ("messages", b); ("protocol_version", c)]) =
  (chk b ?> Ok [("kind", a); ("messages", b); ("protocol_version", c)]).
Proof. unfold derived_struct. cbn [struct_entries]. vm_compute. by destruct (chk b) as [[]|]. Qed.

Lemma parse_targeted ms :
  Forall (λ m : TargetedBrokerMessage, m.1 ≠ "") ms →
  parse_targeted_messages_payload (on_wire (OTargetedMessages ms)) = Ok (map (λ m, MkTargeted m.1 (on_wire m.2)) ms).
Proof.
  intros Hne. rewrite targeted_on_wire. set (L := map _ ms).
  assert (de_list targeted_message_deserialize L = Ok (map (λ m, MkTargeted m.1 (on_wire m.2)) ms)) as Hl.
  { unfold L. clear. induction ms as [|m ms IH]; [done|]. cbn [map de_list]. rewrite IH. done. }
  clearbody L. unfold parse_targeted_messages_payload, targeted_messages_deserialize, de_vec.
  set (d := targeted_message_deserialize) in *. clearbody d.
  assert (existsb (λ m, is_empty (tm_target_peer_id m)) (map (λ m, MkTargeted m.1 (on_wire m.2)) ms) = false) as He.
  { clear Hl. induction Hne as [|m ms Hm _ IH]; [done|]. cbn. rewrite IH. by destruct m.1. }
  set (R := map (λ m, MkTargeted _ _) ms) in *. clearbody R.
  rewrite targeted_fields. unfold checks. rewrite Hl. cbn beta iota. unfold required. cbn [entry decide].
  destruct (decide ("messages" = "kind")) as [E|_]; [discriminate E|]. destruct (decide ("messages" = "messages")); [|done].
  by rewrite Hl, He.
Qed.

(** From the relay to its surfaces.  In a reachable broker, the frame of targeted messages
    that a relay's live connection publishes is accepted, and every peer of its room receives
    the payloads addressed to it, in their order and as the relay made them, and nothing else;
    the relay itself and the peers of other rooms receive nothing. *)
Theorem targeted_frames_arrive sink ch from id sender ms b ch' pid h :
  broker_reachable sink b → seat b ch from sender → ph_connection_id sender = id →
  Forall (λ m : TargetedBrokerMessage, m.1 ≠ "") ms → seat b ch' pid h →
  let '(b', r) := publish_connection ch from id (on_wire (OTargetedMessages ms)) b in
  r = Ok () ∧
  received b b' (ph_tx h)
    (if decide (ch' = ch ∧ pid ≠ from) then map (λ p, SmMessage ch from (ph_role sender) (on_wire p)) (addressed pid ms) else []).
Proof.
  intros Hw%reachable_wf (room & Hr & Hs) Hid Hne Hseat. unfold publish_connection, publish_inner. rewrite Hr, Hs.
  rewrite bool_decide_eq_true_2 by done. cbn [negb].
  replace (is_targeted_messages_payload _) with true by by rewrite targeted_on_wire. rewrite parse_targeted by done.
  split; [done|]. set (ob := targeted_outbox _ _ _ _ _).
  match goal with |- received _ (send _ (record_event ?e _)) _ _ => destruct (send_record_frame ob e b (ph_tx h)) as (_ & _ & _ & H0) end.
  unfold received in *. rewrite H0. f_equal. clear H0. f_equal. unfold ob, targeted_outbox, sent_to, addressed. clear Hne ob.
  assert (∀ q h', room !! q = Some h' → ph_tx h' = ph_tx h → ch' = ch ∧ pid = q) as Huniq.
  { intros q h' Hq Et. eapply (wf_tx_inj b Hw); [done | by exists room | done]. }
  destruct Hseat as (room' & Hr' & Hl).
  induction ms as [|[q p] ms IH]; [by case_decide|]. cbn [map omap list_omap fst snd tm_target_peer_id tm_payload].
  destruct (decide (q = from)) as [->|Hq]; [rewrite IH; case_decide as E; [|done]; by rewrite (decide_False (P := from = pid)) by naive_solver|].
  destruct (room !! q) as [h'|] eqn:Eq; cbn [mbind option_bind].
  - cbn [omap list_omap fst snd]. destruct (decide (ph_tx h' = ph_tx h)) as [Et|Et].
    + destruct (Huniq q h' Eq Et) as [-> ->]. rewrite IH, !decide_True by done. done.
    + rewrite IH. case_decide as E; [|done]. rewrite (decide_False (P := q = pid)); [done|]. intros ->.
      apply Et. destruct E as [-> _]. congruence.
  - rewrite IH. case_decide as E; [|done]. rewrite (decide_False (P := q = pid)); [done|]. intros ->.
    destruct E as [-> _]. congruence.
Qed.
End Targeted.

Lemma targeted_frames_arrive_witness :
  let result name := OEncryptedPairingResult name "phone" (MkEnvelope "n" "c") in
  let ms := [("phone", result "one"); ("nobody", result "two"); ("phone", result "three")] in
  received sample_broker (publish_connection "room" "relay" 1 (on_wire (VS:=Model.empty_views) (OTargetedMessages ms)) sample_broker).1 1
    [SmMessage "room" "relay" PeerRelay (on_wire (VS:=Model.empty_views) (result "one"));
     SmMessage "room" "relay" PeerRelay (on_wire (VS:=Model.empty_views) (result "three"))].
Proof.
  cbn zeta. set (ms := [_; _; _]).
  pose proof (targeted_frames_arrive (VS:=Model.empty_views) true "room" "relay" 1
    (MkPeerHandle 1 PeerRelay None None 0) ms sample_broker "room" "phone" (MkPeerHandle 2 PeerSurface None (Some "pair") 1)
    sample_broker_reachable) as H.
  destruct (publish_connection _ _ _ _ _) as [b' r]. destruct H as [_ H]; [| | | |exact H].
  - eexists. split; vm_compute; reflexivity.
  - reflexivity.
  - by repeat constructor.
  - eexists. split; vm_compute; reflexivity.
Defined.
