(* ===== verification/BrokerSession.v ===== *)
(** * A session with the broker (crates/relay-server/src/broker.rs, broker/protocol.rs)

    What the relay does with the frames the broker sends it, the events of a session (a change
    of the relay's state, the timers, a frame) and how sessions follow each other.  Each step
    begins with whatever the rest of the relay did in the meantime.  [tokio::select!] takes any
    arm that is ready: a run is a list of events, and the event of a timer that is not due or
    is switched off is not one of the session.  The clock is read once per arm. *)

From Stdlib Require Import ZArith Lia Ascii.
From S2P Require Import Prelude RustStr Json ControlPlane JoinTicket BrokerState Admission Paths Device RemoteActions Surfaces Snapshot Writer RemoteRequest RemoteReply RemoteChunks RemotePublish RemoteDispatch Publisher.

Open Scope string_scope.
Open Scope Z_scope.

Definition BROKER_PING_INTERVAL_SECS : Z := 20.
Definition BROKER_PONG_TIMEOUT_SECS : Z := 10.

(** ** Frames of the broker *)

(** A derived enum with its tag inside the object. *)
Definition tagged_enum {A} (tag : string) (variant : string → option (decoder A)) : decoder A := λ j,
  match j with
  | JMap es =>
      match filter (λ e : string * json, e.1 = tag) es with
      | [] => Err (MissingField tag)
      | [(_, JStr name)] =>
          match variant name with
          | Some d => d (JMap (filter (λ e : string * json, e.1 ≠ tag) es))
          | None => Err (UnknownVariant name)
          end
      | [_] => Err InvalidType
      | _ => Err (DuplicateField tag)
      end
  | JSeq (JStr name :: l) => match variant name with Some d => d (JSeq l) | None => Err (UnknownVariant name) end
  | _ => Err InvalidType
  end.

#[export] Instance PresenceKind_eq_dec : EqDecision PresenceKind.
Proof. solve_decision. Defined.
#[export] Program Instance PresenceKind_enum : UnitEnum PresenceKind := {|
  enum_name k := match k with PresenceJoined => "joined" | PresenceLeft => "left" end;
  enum_all := [PresenceJoined; PresenceLeft] |}.
Next Obligation. unit_enum. Qed.
Next Obligation. unit_enum. Qed.

Definition peer_summary_deserialize : decoder PeerSummary := λ j,
  let? es := derived_struct false
    [("peer_id", checks de_string); ("role", checks (enum_deserialize (A:=PeerRole)));
     ("device_id", checks (de_option de_string))] j in
  let? peer_id := required "peer_id" de_string es in
  let? role := required "role" enum_deserialize es in
  let? device_id := defaulted "device_id" (de_option de_string) None es in
  Ok (MkPeerSummary peer_id role device_id).

Definition welcome_deserialize : decoder ServerMessage := λ j,
  let? es := derived_struct false
    [("protocol_version", checks de_u32); ("channel_id", checks de_string); ("peer_id", checks de_string);
     ("peers", checks (de_vec peer_summary_deserialize))] j in
  let? protocol_version := required "protocol_version" de_u32 es in
  let? channel_id := required "channel_id" de_string es in
  let? peer_id := required "peer_id" de_string es in
  let? peers := required "peers" (de_vec peer_summary_deserialize) es in
  Ok (SmWelcome protocol_version channel_id peer_id peers).
Definition presence_deserialize : decoder ServerMessage := λ j,
  let? es := derived_struct false
    [("channel_id", checks de_string); ("kind", checks (enum_deserialize (A:=PresenceKind)));
     ("peer", checks peer_summary_deserialize)] j in
  let? channel_id := required "channel_id" de_string es in
  let? kind := required "kind" enum_deserialize es in
  let? peer := required "peer" peer_summary_deserialize es in
  Ok (SmPresence channel_id kind peer).
Definition message_deserialize : decoder ServerMessage := λ j,
  let? es := derived_struct false
    [("channel_id", checks de_string); ("from_peer_id", checks de_string);
     ("from_role", checks (enum_deserialize (A:=PeerRole))); ("payload", checks de_value)] j in
  let? channel_id := required "channel_id" de_string es in
  let? from_peer_id := required "from_peer_id" de_string es in
  let? from_role := required "from_role" enum_deserialize es in
  let? payload := required "payload" de_value es in
  Ok (SmMessage channel_id from_peer_id from_role payload).
Definition error_deserialize : decoder ServerMessage := λ j,
  let? es := derived_struct false [("code", checks de_string); ("message", checks de_string)] j in
  let? code := required "code" de_string es in
  let? message := required "message" de_string es in
  Ok (SmError code message).
Definition server_message_deserialize : decoder ServerMessage :=
  tagged_enum "type" (λ name,
    if bool_decide (name = "welcome") then Some welcome_deserialize
    else if bool_decide (name = "presence") then Some presence_deserialize
    else if bool_decide (name = "message") then Some message_deserialize
    else if bool_decide (name = "error") then Some error_deserialize
    else None).

Inductive Frame : Type :=
| FrText (text : string) | FrPing | FrPong (payload : string) | FrBinary | FrClose.

(** Why a session ends. *)
Inductive SessionEnd : Type :=
| EndWriter                          (** the writer failed or stopped *)
| EndChangeClosed                    (** the relay is gone *)
| EndPublish (e : HandlerError)      (** a payload could not be sealed or handed over *)
| EndPingOverdue | EndPingFailed | EndPongTimeout
| EndSocketClosed | EndReceive       (** the socket *)
| EndInvalidFrame | EndBrokerClosed  (** a frame of the broker *)
| EndVersion (version : Z)
| EndBroker (message : string)       (** an error of the broker *)
| EndNoWelcome.

(** ** What surfaces send *)
Inductive InboundBrokerPayload : Type :=
| InPairingRequest (pairing_id : string) (envelope : EncryptedEnvelope)
| InAction (m : SurfaceAction).

Inductive PayloadError : Type := VersionMissing | VersionNotNumber | VersionUnsupported (version : Z) | InvalidPayload (e : de_error).

Definition validate_relay_payload_protocol_version (payload : json) : result () PayloadError :=
  match match payload with JMap es => entry "protocol_version" es | _ => None end with
  | None => Err VersionMissing
  | Some (JU64 version) =>
      if version =? RELAY_PROTOCOL_VERSION then Ok () else Err (VersionUnsupported version)
  | Some _ => Err VersionNotNumber
  end.
Definition validate_broker_protocol_version (protocol_version : Z) : result () SessionEnd :=
  if protocol_version =? BROKER_PROTOCOL_VERSION then Ok () else Err (EndVersion protocol_version).

Definition envelope_deserialize : decoder EncryptedEnvelope := λ j,
  let? es := derived_struct false [("nonce", checks de_string); ("ciphertext", checks de_string)] j in
  let? nonce := required "nonce" de_string es in
  let? ciphertext := required "ciphertext" de_string es in
  Ok (MkEnvelope nonce ciphertext).

Section Inbound.
Context {RS : RequestSerde}.

Definition request_deserialize : decoder RemoteActionRequest := λ j, ok_or (request_of_json j) InvalidValue.

Definition pairing_request_deserialize : decoder InboundBrokerPayload := λ j,
  let? es := derived_struct false [("pairing_id", checks de_string); ("envelope", checks envelope_deserialize)] j in
  let? pairing_id := required "pairing_id" de_string es in
  let? envelope := required "envelope" envelope_deserialize es in
  Ok (InPairingRequest pairing_id envelope).
Definition remote_action_deserialize : decoder InboundBrokerPayload := λ j,
  let? es := derived_struct false
    [("action_id", checks de_string); ("session_claim", checks (de_option de_string));
     ("device_id", checks (de_option de_string)); ("request", checks request_deserialize)] j in
  let? action_id := required "action_id" de_string es in
  let? session_claim := defaulted "session_claim" (de_option de_string) None es in
  let? device_id := defaulted "device_id" (de_option de_string) None es in
  let? request := required "request" request_deserialize es in
  Ok (InAction (PlainAction action_id session_claim device_id request)).
Definition encrypted_remote_action_deserialize : decoder InboundBrokerPayload := λ j,
  let? es := derived_struct false
    [("action_id", checks de_string); ("session_claim", checks (de_option de_string));
     ("device_id", checks (de_option de_string)); ("envelope", checks envelope_deserialize)] j in
  let? action_id := required "action_id" de_string es in
  let? session_claim := defaulted "session_claim" (de_option de_string) None es in
  let? device_id := defaulted "device_id" (de_option de_string) None es in
  let? envelope := required "envelope" envelope_deserialize es in
  Ok (InAction (SealedAction action_id session_claim device_id envelope)).

Definition inbound_variant (kind : string) : option (decoder InboundBrokerPayload) :=
  if bool_decide (kind = "remote_action") then Some remote_action_deserialize
  else if bool_decide (kind = "pairing_request") then Some pairing_request_deserialize
  else if bool_decide (kind = "encrypted_remote_action") then Some encrypted_remote_action_deserialize
  else None.

(** Payloads of other kinds are passed over. *)
Definition parse_inbound_payload (payload : json) : result (option InboundBrokerPayload) PayloadError :=
  match kind_str payload ≫= inbound_variant with
  | None => Ok None
  | Some _ =>
      let? _ := validate_relay_payload_protocol_version payload in
      match tagged_enum "kind" inbound_variant payload with
      | Ok p => Ok (Some p)
      | Err e => Err (InvalidPayload e)
      end
  end.
End Inbound.

(** What a device seals with the pairing secret. *)
Record PairingRequestPlaintext : Type := MkPairingPlaintext {
  px_device_id : option string; px_device_label : option string; px_device_verify_key : string; px_pairing_proof : string
}.
Definition pairing_plaintext_deserialize : decoder PairingRequestPlaintext := λ j,
  let? es := derived_struct false
    [("device_id", checks (de_option de_string)); ("device_label", checks (de_option de_string));
     ("device_verify_key", checks de_string); ("pairing_proof", checks de_string)] j in
  let? device_id := defaulted "device_id" (de_option de_string) None es in
  let? device_label := defaulted "device_label" (de_option de_string) None es in
  let? device_verify_key := required "device_verify_key" de_string es in
  let? pairing_proof := required "pairing_proof" de_string es in
  Ok (MkPairingPlaintext device_id device_label device_verify_key pairing_proof).

(** ** Heartbeats *)
Fixpoint be_bytes (n : nat) (z : Z) : string :=
  match n with
  | O => ""
  | S n => String (ascii_of_nat (Z.to_nat (z / 256 ^ Z.of_nat n mod 256))) (be_bytes n z)
  end.
(** [u64::to_be_bytes]. *)
Definition to_be_bytes (z : Z) : string := be_bytes 8 z.

Record BrokerLivenessConfig : Type := MkLiveness { lv_ping_interval : Z; lv_pong_timeout : Z }.
Definition default_liveness : BrokerLivenessConfig :=
  MkLiveness (BROKER_PING_INTERVAL_SECS * 1000) (BROKER_PONG_TIMEOUT_SECS * 1000).

(** The variables of the loop. *)
Record Session : Type := MkSessionState {
  se_gate : SnapshotPublishGate;
  se_snapshot_at : Z;                             (** [pending_snapshot_timer] *)
  se_deltas : list PendingTranscriptDelta;        (** [pending_transcript_deltas] *)
  se_delta_at : Z;
  se_heartbeat_seq : Z;
  se_awaiting_pong : option string;
  se_ping_at : Z;
  se_pong_at : Z
}.
#[export] Instance Session_expand : Expand Session := λ s,
  MkSessionState (se_gate s) (se_snapshot_at s) (se_deltas s) (se_delta_at s) (se_heartbeat_seq s)
    (se_awaiting_pong s) (se_ping_at s) (se_pong_at s).
Definition A_DAY : Z := 24 * 60 * 60 * 1000.
Definition new_session (live : BrokerLivenessConfig) (now : Z) : Session :=
  MkSessionState (mark_published now (new_gate SNAPSHOT_PUBLISH_MIN_INTERVAL_MILLIS)) (now + A_DAY) [] (now + A_DAY)
    0 None (now + lv_ping_interval live) (now + A_DAY).

Section Session.
Context {A : Type} {RA : RelayApp A} {SA : SessionApp A} {TC : TicketCrypto} {DC : DeviceCrypto} {SB : SecretBox}.
Context {FS : FileSystem} {ED : Ed25519} {VS : ViewSerde} {SS : SnapshotSizes} {RS : RequestSerde}.

Definition decode_server_frame (frame : Frame) : result (option ServerMessage) SessionEnd :=
  match frame with
  | FrText text =>
      match json_from_slice text with
      | None => Err EndInvalidFrame
      | Some j => match server_message_deserialize j with Ok m => Ok (Some m) | Err _ => Err EndInvalidFrame end
      end
  | FrClose => Err EndBrokerClosed
  | FrPing | FrPong _ | FrBinary => Ok None
  end.

(** *** Messages of the broker *)
Definition pairing_op {X} (f : PairingState → PairingState * result X DeviceError) (w : World A) : World A * result X DeviceError :=
  on_pairing f (meanwhile w).

(** The token of a device id made up here is drawn as the one of a challenge. *)
Definition handle_pairing_request (env : Env) (from_peer_id pairing_id : string) (envelope : EncryptedEnvelope) : Task () := λ w h,
  let now := en_now env in
  match pairing_op (pending_pairing_secret pairing_id now) w with
  | (w, Err _) => (w, h, Ok ())
  | (w, Ok pairing_secret) =>
      match decrypt_json (λ j, result_ok (pairing_plaintext_deserialize j)) pairing_secret envelope with
      | Err e => (w, h, Err (SealError e))
      | Ok request =>
          match verify_pairing_request_proof pairing_id (px_device_id request) (px_device_verify_key request)
                  (px_pairing_proof request) with
          | Err _ => (w, h, Ok ())
          | Ok _ =>
              match pairing_op (completed_pairing_result pairing_id (px_device_verify_key request) from_peer_id now) w with
              | (w, Err _) => (w, h, Ok ())
              | (w, Ok (Some result)) => publish_pairing_result result w h
              | (w, Ok None) =>
                  let '(w, _) := pairing_op (register_pairing_request pairing_id (px_device_id request)
                                   (px_device_label request) from_peer_id (px_device_verify_key request)
                                   (en_challenge_token env) now) w in
                  (w, h, Ok ())
              end
          end
      end
  end.

(** A surface that joins is bound to its device; a device that is not paired is left alone. *)
Definition bind_peer (env : Env) (peer : PeerSummary) (w : World A) : World A :=
  match ps_device_id peer with
  | Some device_id => (mark_remote_device_seen env device_id (ps_peer_id peer) (meanwhile w)).1
  | None => w
  end.

(** What a surface's payload does; its failures cost the surface its request. *)
Definition handle_surface_payload (env : Env) (from_peer_id : string) (payload : json) (w : World A) (h : Handle) : World A * Handle :=
  match parse_inbound_payload payload with
  | Err _ | Ok None => (w, h)
  | Ok (Some (InPairingRequest pairing_id envelope)) =>
      (handle_pairing_request env from_peer_id pairing_id envelope w h).1
  | Ok (Some (InAction m)) => (handle_action env from_peer_id m w h).1
  end.

Definition handle_server_message (env : Env) (message : ServerMessage) (w : World A) (h : Handle) :
    World A * Handle * result () SessionEnd :=
  match message with
  | SmWelcome protocol_version _ _ _ => (w, h, validate_broker_protocol_version protocol_version)
  | SmPresence _ kind peer =>
      match ps_role peer with
      | PeerSurface =>
          let joined := match kind with PresenceJoined => true | PresenceLeft => false end in
          let '(w, _) := on_surfaces (if joined then mark_surface_peer_online (ps_peer_id peer)
                                      else mark_surface_peer_offline (ps_peer_id peer)) w in
          (if joined then bind_peer env peer w else w, h, Ok ())
      | _ => (w, h, Ok ())
      end
  | SmMessage _ from_peer_id from_role payload =>
      match from_role with
      | PeerSurface => let '(w, h) := handle_surface_payload env from_peer_id payload w h in (w, h, Ok ())
      | _ => (w, h, Ok ())
      end
  | SmError _ message => (w, h, Err (EndBroker message))
  end.

(** *** The start of a session *)
Definition publishing {X} (r : result X HandlerError) : result X SessionEnd :=
  match r with Ok x => Ok x | Err e => Err (EndPublish e) end.

Definition session_start (env : Env) (live : BrokerLivenessConfig) (now : Z) (welcome : option (option Frame)) (w : World A) (h : Handle) :
    World A * Handle * result Session SessionEnd :=
  match welcome with
  | None => (w, h, Err EndSocketClosed)
  | Some None => (w, h, Err EndReceive)
  | Some (Some frame) =>
      match decode_server_frame frame with
      | Err e => (w, h, Err e)
      | Ok (Some (SmWelcome protocol_version _ _ peers)) =>
          match validate_broker_protocol_version protocol_version with
          | Err e => (w, h, Err e)
          | Ok _ =>
              let surface_peers := filter (λ p, ps_role p = PeerSurface) peers in
              let w := surfaces_op (replace_online_surface_peers (map ps_peer_id surface_peers)) w in
              let w := foldl (λ w p, bind_peer env p w) w surface_peers in
              let w := surfaces_op (λ s, if Bool.eqb (sf_broker_connected s) true then s else set_broker_connection true s)
                         (meanwhile w) in
              match publish_pending_broker_messages (meanwhile w) h with
              | (w, h, Err e) => (w, h, Err (EndPublish e))
              | (w, h, Ok _) =>
                  let '(w, h, r) := publish_snapshot w h in
                  (w, h, match r with Ok _ => Ok (new_session live now) | Err e => Err (EndPublish e) end)
              end
          end
      | Ok (Some (SmError _ message)) => (w, h, Err (EndBroker message))
      | Ok _ => (w, h, Err EndNoWelcome)
      end
  end.

(** *** The arms of the loop *)
Definition Arm : Type := Session * World A * Handle * result () SessionEnd.

(** A snapshot if the gate lets one through, after every delta that waits. *)
Definition decide_snapshot (now : Z) (s : Session) (w : World A) (h : Handle) : Arm :=
  let '(gate, decision) := snapshot_publish_decision now (negb (bool_decide (se_deltas s = []))) (se_gate s) in
  let s := s <| se_gate := gate |> in
  match decision with
  | PublishSnapshot => let '(w, h, r) := publish_snapshot w h in (s, w, h, publishing r)
  | FlushTranscriptDeltasThenPublishSnapshot =>
      let deltas := se_deltas s in
      let s := s <| se_deltas := [] |> in
      match flush_pending_transcript_deltas deltas w h with
      | (w, h, Err e) => (s, w, h, Err (EndPublish e))
      | (w, h, Ok _) => let '(w, h, r) := publish_snapshot w h in (s, w, h, publishing r)
      end
  | DelayUntil deadline => (s <| se_snapshot_at := deadline |>, w, h, Ok ())
  end.

Definition on_changed (now : Z) (s : Session) (w : World A) (h : Handle) : Arm :=
  match drain_pending_broker_messages_for_publish w h with
  | (w, h, Err e) => (s, w, h, Err (EndPublish e))
  | (w, h, Ok deltas) =>
      let s := match deltas with
               | [] => s
               | _ =>
                   let schedule_flush := bool_decide (se_deltas s = []) in
                   let s := s <| se_deltas ::= λ l, (l ++ deltas)%list |> in
                   if schedule_flush then s <| se_delta_at := now + TRANSCRIPT_DELTA_PUBLISH_WINDOW_MILLIS |> else s
               end in
      decide_snapshot now s w h
  end.

Definition on_delta_timer (now : Z) (s : Session) (w : World A) (h : Handle) : Arm :=
  let deltas := se_deltas s in
  let s := s <| se_deltas := [] |> in
  match publish_transcript_delta_batch deltas w h with
  | (w, h, Err e) => (s, w, h, Err (EndPublish e))
  | (w, h, Ok rest) =>
      let s := s <| se_deltas := rest |> in
      (match rest with [] => s | _ => s <| se_delta_at := now + TRANSCRIPT_DELTA_PUBLISH_WINDOW_MILLIS |> end, w, h, Ok ())
  end.

(** [taken]: the ping lane took the frame. *)
Definition on_ping_timer (live : BrokerLivenessConfig) (now : Z) (taken : bool) (s : Session) : Session * result () SessionEnd :=
  match se_awaiting_pong s with
  | Some _ => (s, Err EndPingOverdue)
  | None =>
      let s := s <| se_heartbeat_seq ::= λ n, (n + 1) mod 2 ^ 64 |> in
      if negb taken then (s, Err EndPingFailed) else
      (s <| se_awaiting_pong := Some (to_be_bytes (se_heartbeat_seq s)) |>
         <| se_pong_at := now + lv_pong_timeout live |>
         <| se_ping_at := now + lv_ping_interval live |>, Ok ())
  end.

Definition on_frame (env : Env) (frame : option (option Frame)) (s : Session) (w : World A) (h : Handle) : Arm :=
  match frame with
  | None => (s, w, h, Err EndSocketClosed)
  | Some None => (s, w, h, Err EndReceive)
  | Some (Some (FrPong payload)) =>
      (if bool_decide (se_awaiting_pong s = Some payload) then s <| se_awaiting_pong := None |> else s, w, h, Ok ())
  | Some (Some frame) =>
      match decode_server_frame frame with
      | Err e => (s, w, h, Err e)
      | Ok None => (s, w, h, Ok ())
      | Ok (Some message) => let '(w, h, r) := handle_server_message env message w h in (s, w, h, r)
      end
  end.

Inductive SessionEvent : Type :=
| EvWriterFailed
| EvChanged (now : Z)
| EvChangeClosed
| EvDeltaTimer (now : Z)
| EvSnapshotTimer (now : Z)
| EvPingTimer (now : Z) (taken : bool)
| EvPongTimer (now : Z)
| EvFrame (now : Z) (env : Env) (frame : option (option Frame)).

(** [None]: not an event of this session now. *)
Definition session_step (live : BrokerLivenessConfig) (e : SessionEvent) (s : Session) (w : World A) (h : Handle) : option Arm :=
  let w := meanwhile w in
  match e with
  | EvWriterFailed => Some (s, w, h, Err EndWriter)
  | EvChangeClosed => Some (s, w, h, Err EndChangeClosed)
  | EvChanged now => Some (on_changed now s w h)
  | EvDeltaTimer now =>
      if negb (bool_decide (se_deltas s = [])) && (se_delta_at s <=? now) then Some (on_delta_timer now s w h) else None
  | EvSnapshotTimer now =>
      if has_pending_publish (se_gate s) && (se_snapshot_at s <=? now) then Some (decide_snapshot now s w h) else None
  | EvPingTimer now taken =>
      if se_ping_at s <=? now then let '(s, r) := on_ping_timer live now taken s in Some (s, w, h, r) else None
  | EvPongTimer now =>
      if is_some (se_awaiting_pong s) && (se_pong_at s <=? now) then Some (s, w, h, Err EndPongTimeout) else None
  | EvFrame _ env frame => Some (on_frame env frame s w h)
  end.

(** ** Sessions one after another *)
Record SessionOutcome : Type := MkSessionOutcome { so_end : SessionEnd; so_connected_duration : option Z }.

(** The end of one session: how long to wait before the next. *)
Definition after_session (draw : Z → Z → Z) (o : SessionOutcome) (b : RetryBackoff) (w : World A) :
    RetryBackoff * World A * RetryDelay :=
  let b := match so_connected_duration o with Some d => reset_after_stable_session d b | None => b end in
  let w := surfaces_op (λ s, if Bool.eqb (sf_broker_connected s) false then s else set_broker_connection false s) (meanwhile w) in
  let '(b, delay) := next_delay draw b in
  (b, w, delay).
End Session.
