(* ===== verification/Guards.v ===== *)
(** * The relay's local HTTP front (crates/relay-server/src/auth.rs, host_guard.rs, main.rs)

    Who may reach the relay's own HTTP interface: the hostnames it answers to, the API token
    and the session cookie that stands for it, the check that keeps a foreign page from using
    a browser's standing, and the layers of the router around the handlers.  base64, HMAC and
    JSON text are the class [TicketCrypto], the grammar of a URI is [HttpLib]. *)

From Stdlib Require Import ZArith Lia Ascii String.
From S2P Require Import Prelude RustStr Json BrokerState JoinTicket.
From S2P Require Import Transcript Device TeamTypes ControlStore ControlPlane Licenses Blocklist Limits HttpRequests.

Open Scope string_scope.
Open Scope Z_scope.

(** ** Addresses *)
Definition ip_is_loopback (ip : IpAddr) : bool :=
  match ip with V4 z => Z.shiftr z 24 =? 127 | V6 z => z =? 1 end.
Definition ip_is_unspecified (ip : IpAddr) : bool := match ip with V4 z | V6 z => z =? 0 end.

Definition octet (z : Z) (i : Z) : Z := Z.land (Z.shiftr z (8 * i)) 255.
Definition show_v4 (z : Z) : string :=
  pretty (octet z 3) +:+ "." +:+ pretty (octet z 2) +:+ "." +:+ pretty (octet z 1) +:+ "." +:+ pretty (octet z 0).
Definition segments (z : Z) : list Z := map (λ i, Z.land (Z.shiftr z (16 * i)) 65535) [7; 6; 5; 4; 3; 2; 1; 0].
(** The first longest run of zero segments: where it starts and its length. *)
Fixpoint zero_span (i : nat) (current longest : nat * nat) (l : list Z) : nat * nat :=
  match l with
  | [] => longest
  | segment :: l =>
      if segment =? 0 then
        let current := ((if (current.2 =? 0)%nat then i else current.1), S current.2) in
        zero_span (S i) current (if (longest.2 <? current.2)%nat then current else longest) l
      else zero_span (S i) (0, 0)%nat longest l
  end.
Definition show_segments (l : list Z) : string := String.concat ":" (map TeamTypes.hex_u64 l).
Definition show_v6 (z : Z) : string :=
  match to_ipv4_mapped z with
  | Some v4 => "::ffff:" +:+ show_v4 v4
  | None =>
      let l := segments z in
      let '(start, len) := zero_span 0 (0, 0)%nat (0, 0)%nat l in
      if (1 <? len)%nat then show_segments (take start l) +:+ "::" +:+ show_segments (drop (start + len) l)
      else show_segments l
  end.
(** [IpAddr::to_string]. *)
Definition show_ip (ip : IpAddr) : string := match ip with V4 z => show_v4 z | V6 z => show_v6 z end.

(** ** Hostnames (host_guard.rs) *)
Definition normalize_host (raw : string) : option string :=
  let lowered := to_ascii_lowercase (trim raw) in
  if is_empty lowered then None else
  match strip_prefix "[" lowered with
  | Some rest =>
      '(inside, _) ← split_once "]" rest;
      if is_empty inside then None else Some inside
  | None =>
      let host := match split_once ":" lowered with
                  | Some (host, port) =>
                      if negb (is_empty port) && string_forall (λ b, in_range 48 (byte_val b) 57) port then host else lowered
                  | None => lowered
                  end in
      if is_empty host then None else Some host
  end.

Definition host_is_loopback (host : string) : bool :=
  bool_decide (host = "localhost") || match parse_ip host with Some ip => ip_is_loopback ip | None => false end.
Definition authority_is_loopback (raw : string) : bool :=
  match normalize_host raw with Some host => host_is_loopback host | None => false end.

Record HostPolicy : Type := MkPolicy { hp_enforced : bool; hp_allowed : gset string }.

Definition policy_from_parts (bind_host : IpAddr) (allowed_hosts : option string) : HostPolicy :=
  let allowed : gset string := list_to_set (omap normalize_host (flat_map (split_on ",") (option_list allowed_hosts))) in
  let opted_in := negb (bool_decide (allowed = ∅)) in
  MkPolicy (ip_is_loopback bind_host || opted_in)
    (if negb (ip_is_unspecified bind_host) && negb (ip_is_loopback bind_host)
     then {[ to_ascii_lowercase (show_ip bind_host) ]} ∪ allowed else allowed).

Definition loopback_only : HostPolicy := policy_from_parts (V4 2130706433) None.

Definition allows_host (p : HostPolicy) (raw : option string) : bool :=
  if negb (hp_enforced p) then true else
  match raw with
  | None => false
  | Some raw =>
      match normalize_host raw with
      | None => false
      | Some host => host_is_loopback host || bool_decide (host ∈ hp_allowed p)
      end
  end.

(** ** Requests *)
Inductive Method : Type := GET | HEAD | OPTIONS | TRACE | POST | PUT | DELETE | PATCH | CONNECT | OtherMethod (name : string).
Record Uri : Type := MkUri { uri_scheme : option string; uri_authority : option string; uri_path : string }.
Record LocalRequest : Type := MkLocalRequest { lr_method : Method; lr_uri : Uri; lr_headers : Headers }.

Definition method_is_safe (m : Method) : bool := match m with GET | HEAD | OPTIONS | TRACE => true | _ => false end.

(** relay-http, with the URI of the request at hand. *)
Definition uri_uses_https (headers : Headers) (uri : Uri) : bool :=
  bool_decide (uri_scheme uri = Some "https") || forwarded_proto_is_https headers
  || header_equals_ignore_ascii_case headers "x-forwarded-ssl" "on".
(** The [Host] header, or the authority of the URI. *)
Definition request_host (headers : Headers) (uri : Uri) : option string :=
  option_or (header_str headers "host") (uri_authority uri).
Definition uri_origin (headers : Headers) (uri : Uri) : option string :=
  let scheme := if uri_uses_https headers uri then "https" else default "http" (uri_scheme uri) in
  authority ← request_host headers uri; Some (scheme +:+ "://" +:+ authority).

(** ** The API token (auth.rs) *)
Record AuthConfig : Type := MkAuthConfig { ac_token : option string; ac_insecure_no_auth_override : bool }.
Inductive AuthConfigError : Type := NotABool (name : string) | TokenRequired.

Definition parse_bool_env (name : string) (value : option string) : result bool AuthConfigError :=
  match value ≫= trimmed_string with
  | None => Ok false
  | Some value =>
      let value := to_ascii_lowercase value in
      if bool_decide (value ∈ ["1"; "true"; "yes"; "on"]) then Ok true
      else if bool_decide (value ∈ ["0"; "false"; "no"; "off"]) then Ok false
      else Err (NotABool name)
  end.

Definition auth_from_parts (token allow_insecure_no_auth : option string) (bind_host : IpAddr) :
    result AuthConfig AuthConfigError :=
  let? override := parse_bool_env "RELAY_ALLOW_INSECURE_NO_AUTH" allow_insecure_no_auth in
  if negb (ip_is_loopback bind_host) && is_none token && negb override then Err TokenRequired
  else Ok (MkAuthConfig token override).
Definition auth_from_env (api_token allow_insecure_no_auth : option string) (bind_host : IpAddr) :
    result AuthConfig AuthConfigError :=
  auth_from_parts (api_token ≫= trimmed_string) allow_insecure_no_auth bind_host.

Definition auth_enabled (a : AuthConfig) : bool := is_some (ac_token a).

Definition unauthorized : ApiError := MkApiError 401 "unauthorized" "Missing or invalid API token.".

(** Unlike the broker's, the token is the rest of the header as it is. *)
Definition api_bearer (headers : Headers) : option string :=
  value ← header_str headers "authorization"; strip_prefix "Bearer " value.

(** *** The session cookie *)
Definition SESSION_COOKIE_NAME : string := "agent_relay_session".
Definition SESSION_COOKIE_CONTEXT : string := "agent-relay-session".
Definition SESSION_COOKIE_TTL_SECS : Z := 60 * 60 * 24 * 30.

Record SessionCookieClaims : Type := MkCookieClaims { sc_version : Z; sc_expires_at : Z }.
Definition cookie_claims_serialize (c : SessionCookieClaims) : json :=
  JMap [("version", JU64 (sc_version c)); ("expires_at", JU64 (sc_expires_at c))].
Definition cookie_claims_fields : field_table := [("version", checks (de_uint 255)); ("expires_at", checks de_u64)].
Definition cookie_claims_deserialize : decoder SessionCookieClaims := λ j,
  let? es := derived_struct false cookie_claims_fields j in
  let? version := required "version" (de_uint 255) es in
  let? expires_at := required "expires_at" de_u64 es in
  Ok (MkCookieClaims version expires_at).

(** The value of the first cookie of the name, empty or not. *)
Definition session_cookie_part (part : string) : option string :=
  '(name, value) ← split_once "=" (trim part);
  if bool_decide (trim name = SESSION_COOKIE_NAME) then Some (trim value) else None.
Definition session_cookie (headers : Headers) : option string :=
  raw ← header_str headers "cookie"; head (omap session_cookie_part (split_on ";" raw)).

Definition build_set_cookie_value (cookie_value : string) (secure : bool) (max_age : Z) : string :=
  SESSION_COOKIE_NAME +:+ "=" +:+ cookie_value +:+ "; HttpOnly; Path=/; SameSite=Strict; Max-Age=" +:+ pretty max_age
    +:+ secure_suffix secure.
Definition build_clear_cookie_value (secure : bool) : string := build_set_cookie_value "" secure 0.

Section Auth.
Context `{TicketCrypto} `{HttpLib}.

(** The MAC is fed the context and then the payload. *)
Definition session_mac (expected_token payload : string) : string :=
  hmac_sha256 expected_token (SESSION_COOKIE_CONTEXT +:+ payload).
Definition mint_session_cookie_value (expected_token : string) (expires_at : Z) : string :=
  let payload_b64 := b64_encode (json_to_vec (cookie_claims_serialize (MkCookieClaims 1 expires_at))) in
  payload_b64 +:+ "." +:+ b64_encode (session_mac expected_token payload_b64).

Definition verify_session_cookie_value (now : Z) (expected_token raw_cookie : string) : option SessionCookieClaims :=
  '(payload_b64, signature_b64) ← split_once "." raw_cookie;
  signature ← b64_decode signature_b64;
  if negb (bool_decide (signature = session_mac expected_token payload_b64)) then None else
  payload ← b64_decode payload_b64;
  j ← json_from_slice payload;
  claims ← result_ok (cookie_claims_deserialize j);
  if negb (sc_version claims =? 1) then None
  else if sc_expires_at claims <=? now then None else Some claims.

Definition has_valid_session_cookie (now : Z) (headers : Headers) (expected_token : string) : bool :=
  is_some (session_cookie headers ≫= verify_session_cookie_value now expected_token).

Definition authenticates_with_bearer (a : AuthConfig) (headers : Headers) : bool :=
  match ac_token a with Some expected => bool_decide (api_bearer headers = Some expected) | None => false end.
Definition authenticates_with_cookie (now : Z) (a : AuthConfig) (headers : Headers) : bool :=
  match ac_token a with Some expected => has_valid_session_cookie now headers expected | None => false end.

Definition authorize (now : Z) (a : AuthConfig) (headers : Headers) : result () ApiError :=
  match ac_token a with
  | None => Ok ()
  | Some expected =>
      if bool_decide (api_bearer headers = Some expected) || has_valid_session_cookie now headers expected
      then Ok () else Err unauthorized
  end.

(** What [HeaderValue::from_str] refuses ends as an unauthorized login. *)
Definition issue_session_cookie (now : Z) (a : AuthConfig) (provided_token : string) (secure : bool) :
    result (option string) ApiError :=
  match ac_token a with
  | None => Ok None
  | Some expected =>
      if negb (bool_decide (trim provided_token = expected)) then Err unauthorized else
      let expires_at := u64_saturating_add now SESSION_COOKIE_TTL_SECS in
      let value := build_set_cookie_value (mint_session_cookie_value expected expires_at) secure SESSION_COOKIE_TTL_SECS in
      if header_value_ok value then Ok (Some value) else Err unauthorized
  end.

Record AuthSessionView : Type := MkSessionView { as_auth_required : bool; as_authenticated : bool; as_cookie_session : bool }.
Definition session_view (now : Z) (a : AuthConfig) (headers : Headers) : AuthSessionView :=
  let cookie_session := authenticates_with_cookie now a headers in
  MkSessionView (auth_enabled a) (negb (auth_enabled a) || cookie_session || authenticates_with_bearer a headers)
    cookie_session.

(** *** The session routes of main.rs: the cookie to set, if any, and the view *)
Definition auth_session_login (now : Z) (a : AuthConfig) (headers : Headers) (uri : Uri) (token : string) :
    result (option string * AuthSessionView) ApiError :=
  let? cookie := issue_session_cookie now a token (uri_uses_https headers uri) in
  Ok (cookie, MkSessionView (auth_enabled a) true (auth_enabled a)).
Definition auth_session_logout (a : AuthConfig) (headers : Headers) (uri : Uri) : string * AuthSessionView :=
  (build_clear_cookie_value (uri_uses_https headers uri), MkSessionView (auth_enabled a) (negb (auth_enabled a)) false).

(** ** The origin a request declares (main.rs) *)
Inductive RequestOrigin : Type := Undeclared | Trusted | Untrusted.

Definition has_valid_csrf_header (headers : Headers) : bool :=
  bool_decide (header_str headers "x-agent-relay-csrf" = Some "1").

Definition declared_parts (value : option string) : option (string * string) :=
  raw ← trim <$> value;
  if is_empty raw || eq_ignore_ascii_case raw "null" then None else
  '(scheme, authority) ← uri_parts raw;
  scheme ← scheme; authority ← authority; Some (scheme, authority).
Definition declared_origin_value (value : option string) : option string :=
  '(scheme, authority) ← declared_parts value; Some (scheme +:+ "://" +:+ authority).

(** The raw value of [Origin], or of [Referer] when there is no [Origin] at all. *)
Definition declared_header (headers : Headers) : option (option string) :=
  option_or (head (headers "origin")) (head (headers "referer")).

Definition classify_request_origin (headers : Headers) (uri : Uri) : RequestOrigin :=
  match declared_header headers with
  | None => Undeclared
  | Some raw =>
      match declared_origin_value raw with
      | None => Untrusted
      | Some declared =>
          if bool_decide (uri_origin headers uri = Some declared) then Trusted else
          let loopback := match uri_parts declared with
                          | Some (_, Some authority) => authority_is_loopback authority
                          | _ => false
                          end in
          if loopback && has_valid_csrf_header headers then Trusted else Untrusted
      end
  end.

Definition forbidden_csrf (message : string) : ApiError := MkApiError 403 "csrf_rejected" message.

Definition authorize_csrf_protection (now : Z) (a : AuthConfig) (rq : LocalRequest) : result () ApiError :=
  let headers := lr_headers rq in
  let origin := classify_request_origin headers (lr_uri rq) in
  if negb (starts_with "/api/" (uri_path (lr_uri rq))) || method_is_safe (lr_method rq) then Ok ()
  else if authenticates_with_bearer a headers then Ok ()
  else if auth_enabled a && authenticates_with_cookie now a headers then
    if negb (has_valid_csrf_header headers)
    then Err (forbidden_csrf "Cookie-authenticated requests must include X-Agent-Relay-CSRF.")
    else match origin with
         | Trusted => Ok ()
         | _ => Err (forbidden_csrf "Cookie-authenticated requests must come from the same Origin or Referer.")
         end
  else if auth_enabled a then Ok ()
  else match origin with
       | Untrusted => Err (forbidden_csrf "Cross-origin requests are refused on the local API.")
       | _ => Ok ()
       end.

(** ** The layers of the router *)
Record Response : Type := MkResponse { rs_status : Z; rs_headers : gmap string string; rs_error : option ApiError }.
#[global] Instance Response_expand : Expand Response :=
  λ r, MkResponse (rs_status r) (rs_headers r) (rs_error r).
Definition error_response (e : ApiError) : Response := MkResponse (ae_status e) ∅ (Some e).

Definition host_not_allowed : ApiError :=
  MkApiError 421 "host_not_allowed" "This relay only answers to its own local hostnames.".

Record FrontContext : Type := MkFront {
  fc_auth : AuthConfig;
  fc_security_headers : SecurityHeadersConfig;
  fc_host_policy : HostPolicy
}.

Section Layers.
Context {App : Type}.
(** A service reads the request and may change the application. *)
Definition Service : Type := LocalRequest → App → Response * App.

Definition relay_cache_control (path : string) (status : Z) : option string :=
  if starts_with "/api/" path || negb (is_success status) then None
  else if starts_with "/static/assets/" path then Some "public, max-age=31536000, immutable"
  else Some "no-cache".
Definition cache_layer (next : Service) : Service := λ rq app,
  let '(r, app) := next rq app in
  match relay_cache_control (uri_path (lr_uri rq)) (rs_status r) with
  | Some value => (r <| rs_headers ::= <["cache-control" := value]> |>, app)
  | None => (r, app)
  end.
Definition security_layer (c : FrontContext) (next : Service) : Service := λ rq app,
  let is_https := uri_uses_https (lr_headers rq) (lr_uri rq) in
  let '(r, app) := next rq app in
  (r <| rs_headers ::= apply_standard_security_headers (fc_security_headers c) is_https |>, app).
Definition csrf_layer (now : Z) (c : FrontContext) (next : Service) : Service := λ rq app,
  match authorize_csrf_protection now (fc_auth c) rq with
  | Err e => (error_response e, app)
  | Ok _ => next rq app
  end.
Definition host_layer (c : FrontContext) (next : Service) : Service := λ rq app,
  if allows_host (fc_host_policy c) (request_host (lr_headers rq) (lr_uri rq)) then next rq app
  else (error_response host_not_allowed, app).

Definition build_router (now : Z) (c : FrontContext) (routes : Service) : Service :=
  host_layer c (cache_layer (security_layer c (csrf_layer now c routes))).

(** The first line of every handler of the API but the health and session routes. *)
Definition guarded (now : Z) (c : FrontContext) (handler : Service) : Service := λ rq app,
  match authorize now (fc_auth c) (lr_headers rq) with
  | Err e => (error_response e, app)
  | Ok _ => handler rq app
  end.
End Layers.
End Auth.

(** ** Inputs of the local routes (main.rs) *)
Class Base64Standard := { std_encode : string → string; std_decode : string → option string }.

Definition MAX_LOCAL_MESSAGE_IMAGES : nat := 4.
Definition MAX_LOCAL_MESSAGE_IMAGE_BYTES : Z := 8 * 1024 * 1024.
Definition MAX_LOCAL_MESSAGE_IMAGE_TOTAL_BYTES : Z := 16 * 1024 * 1024.

Inductive ImageError : Type :=
| TooManyImages | NotADataUrl | MalformedDataUrl | NotBase64Encoding | UnsupportedImageType (media_type : string)
| InvalidBase64 | ImageTooLarge | ImageSizeOverflow | ImagesTooLarge | BytesDoNotMatch (media_type : string).
Record ProviderImage : Type := MkImage { pi_media_type : string; pi_data : string }.

Definition bytes_of (l : list nat) : string := fold_right (λ n, String (ascii_of_nat n)) "" l.
Definition image_bytes_match_media_type (media_type bytes : string) : bool :=
  if decide (media_type = "image/png") then starts_with (bytes_of [137; 80; 78; 71; 13; 10; 26; 10]%nat) bytes
  else if decide (media_type = "image/jpeg") then starts_with (bytes_of [255; 216; 255]%nat) bytes
  else if decide (media_type = "image/gif") then starts_with "GIF87a" bytes || starts_with "GIF89a" bytes
  else if decide (media_type = "image/webp") then
    (12 <=? str_len bytes) && starts_with "RIFF" bytes && bool_decide (String.substring 8 4 bytes = "WEBP")
  else false.

Section Images.
Context `{Base64Standard}.

Definition parse_image (data_url : string) : result (string * string) ImageError :=
  let? payload := ok_or (strip_prefix "data:" data_url) NotADataUrl in
  let? parts := ok_or (split_once "," payload) MalformedDataUrl in
  let? meta := ok_or (split_once ";" parts.1) MalformedDataUrl in
  if negb (bool_decide (meta.2 = "base64")) then Err NotBase64Encoding
  else if negb (bool_decide (meta.1 ∈ ["image/gif"; "image/jpeg"; "image/png"; "image/webp"]))
  then Err (UnsupportedImageType meta.1)
  else
    let? bytes := ok_or (std_decode parts.2) InvalidBase64 in
    if MAX_LOCAL_MESSAGE_IMAGE_BYTES <? str_len bytes then Err ImageTooLarge else Ok (meta.1, bytes).

(** The loop, from the bytes counted so far. *)
Fixpoint parse_images (total_bytes : Z) (inputs : list string) : result (list ProviderImage) ImageError :=
  match inputs with
  | [] => Ok []
  | data_url :: inputs =>
      let? image := parse_image data_url in
      let total_bytes := total_bytes + str_len image.2 in
      if u64_max <? total_bytes then Err ImageSizeOverflow
      else if MAX_LOCAL_MESSAGE_IMAGE_TOTAL_BYTES <? total_bytes then Err ImagesTooLarge
      else if negb (image_bytes_match_media_type image.1 image.2) then Err (BytesDoNotMatch image.1)
      else let? images := parse_images total_bytes inputs in Ok (MkImage image.1 (std_encode image.2) :: images)
  end.
Definition parse_local_message_images (inputs : list string) : result (list ProviderImage) ImageError :=
  if (MAX_LOCAL_MESSAGE_IMAGES <? length inputs)%nat then Err TooManyImages else parse_images 0 inputs.

(** An image as it was sent: its bytes are those of the data URL, of the declared type. *)
Definition image_of (data_url : string) (image : ProviderImage) (bytes : string) : Prop :=
  parse_image data_url = Ok (pi_media_type image, bytes) ∧ pi_data image = std_encode bytes ∧
  image_bytes_match_media_type (pi_media_type image) bytes = true.

Lemma parse_image_small data_url image : parse_image data_url = Ok image → str_len image.2 ≤ MAX_LOCAL_MESSAGE_IMAGE_BYTES.
Proof using Type.
  unfold parse_image. destruct (strip_prefix "data:" data_url); [|done]. cbn [ok_or].
  destruct (split_once "," s) as [parts|]; [|done]. cbn [ok_or]. destruct (split_once ";" parts.1) as [meta|]; [|done].
  cbn [ok_or]. do 2 (case_bool_decide; cbn [negb]; [|done]). destruct (std_decode parts.2) as [b|]; [|done]. cbn [ok_or].
  destruct (Z.ltb_spec MAX_LOCAL_MESSAGE_IMAGE_BYTES (str_len b)); [done|]. intros [= <-]. done.
Qed.

Lemma parse_images_spec inputs : ∀ total images, parse_images total inputs = Ok images →
  ∃ bodies, length bodies = length inputs ∧ Forall2 (λ url ib, image_of url ib.1 ib.2) inputs (zip images bodies) ∧
    length images = length inputs ∧
    (bodies ≠ [] → total + foldr (λ b n, str_len b + n) 0 bodies ≤ MAX_LOCAL_MESSAGE_IMAGE_TOTAL_BYTES) ∧
    Forall (λ b, str_len b ≤ MAX_LOCAL_MESSAGE_IMAGE_BYTES) bodies.
Proof using Type.
  induction inputs as [|url inputs IH]; intros total images; cbn [parse_images].
  { intros [= <-]. exists []. by split_and!. }
  destruct (parse_image url) as [image|] eqn:Ei; [|done].
  destruct (u64_max <? _); [done|]. destruct (Z.ltb_spec MAX_LOCAL_MESSAGE_IMAGE_TOTAL_BYTES (total + str_len image.2)); [done|].
  destruct (image_bytes_match_media_type _ _) eqn:Em; [|done]. cbn [negb].
  destruct (parse_images (total + str_len image.2) inputs) as [rest|] eqn:Er; [|done]. intros [= <-].
  destruct (IH _ _ Er) as (bodies & Hl & Hf & Hlen & Ht & Hs).
  exists (image.2 :: bodies). split_and!; cbn [length foldr].
  - by f_equal.
  - constructor; [|done]. unfold image_of. cbn. by destruct image.
  - by f_equal.
  - intros _. destruct bodies as [|b bodies]; [cbn; lia|]. specialize (Ht ltac:(done)). cbn [foldr] in *. lia.
  - constructor; [by eapply parse_image_small|done].
Qed.

(** What reaches a provider is what was attached: at most four images, each of a supported
    type that its bytes bear out and of at most 8 MB, 16 MB together, with the bytes sent. *)
Theorem images_are_bounded inputs images :
  parse_local_message_images inputs = Ok images →
  (length images <= MAX_LOCAL_MESSAGE_IMAGES)%nat ∧
  ∃ bodies, length bodies = length inputs ∧ length images = length inputs ∧
    Forall2 (λ url ib, image_of url ib.1 ib.2) inputs (zip images bodies) ∧
    Forall (λ b, str_len b ≤ MAX_LOCAL_MESSAGE_IMAGE_BYTES) bodies ∧
    foldr (λ b n, str_len b + n) 0 bodies ≤ MAX_LOCAL_MESSAGE_IMAGE_TOTAL_BYTES.
Proof using Type.
  unfold parse_local_message_images. destruct (Nat.ltb_spec MAX_LOCAL_MESSAGE_IMAGES (length inputs)); [done|].
  intros (bodies & Hl & Hf & Hlen & Ht & Hs)%parse_images_spec. split; [lia|]. exists bodies. split_and!; try done.
  destruct bodies as [|b bodies]; [vm_compute; congruence|]. specialize (Ht ltac:(done)). lia.
Qed.
End Images.

(** A model of base64: the identity, on text that does not start with a bang. *)
Definition model_base64 : Base64Standard := {|
  std_encode := λ s, s; std_decode := λ s, if starts_with "!" s then None else Some s |}.
Lemma images_are_bounded_witness :
  ∃ images, parse_local_message_images (H := model_base64) ["data:image/gif;base64,GIF89a1"; "data:image/gif;base64,GIF87a"] = Ok images ∧
    (length images <= 4)%nat.
Proof.
  destruct (parse_local_message_images (H := model_base64) ["data:image/gif;base64,GIF89a1"; "data:image/gif;base64,GIF87a"])
    as [images|] eqn:E; [|by vm_compute in E].
  exists images. split; [reflexivity|]. exact (proj1 (@images_are_bounded model_base64 _ _ E)).
Defined.

(** *** Embedded assets *)
Fixpoint trim_start_matches (c : ascii) (s : string) : string :=
  match s with String a s' => if Ascii.eqb a c then trim_start_matches c s' else s | "" => "" end.
Definition normalize_embedded_asset_path (path : string) : option string :=
  let path := trim_start_matches "/" path in
  if is_empty path || contains "\" path
     || existsb (λ segment, is_empty segment || bool_decide (segment = ".") || bool_decide (segment = ".."))
          (split_on "/" path)
  then None else Some path.
Definition embedded_asset_content_type (path : string) : string :=
  let extension := default "" (last (split_on "." path)) in
  if decide (extension = "css") then "text/css; charset=utf-8"
  else if decide (extension = "html") then "text/html; charset=utf-8"
  else if decide (extension = "js") then "text/javascript; charset=utf-8"
  else if decide (extension = "json") then "application/json; charset=utf-8"
  else if decide (extension = "svg") then "image/svg+xml"
  else if decide (extension = "png") then "image/png"
  else if decide (extension = "webmanifest") then "application/manifest+json; charset=utf-8"
  else "application/octet-stream".
(** The table of assets is generated by the build. *)
Definition embedded_asset_response (assets : list (string * string)) (path : string) : option (string * string) :=
  path ← normalize_embedded_asset_path path;
  asset ← list_find (λ a, a.1 = path) assets;
  Some (embedded_asset_content_type asset.2.1, asset.2.2).

(** *** Errors of the session layer *)
Definition CALLER_ERROR_MARKERS : list string :=
  ["is not part of the source thread transcript"; "was not found on any provider"; "device_id is required";
   "thread_id is required"; "review_job_id is required"; "reviewer_provider is required"].
Definition REVIEW_LOCKED_THREAD_MSG : string :=
  "this thread is being reviewed; switch to another thread or wait for the review to finish".
Definition CONFLICT_MARKERS : list string :=
  ["turn is in progress"; "a review is in progress"; REVIEW_LOCKED_THREAD_MSG].

Definition is_unknown_provider_error (message : string) : bool :=
  contains "agent provider" message && contains "is not available" message.
Definition is_path_policy_error (message : string) : bool := contains "outside this relay's allowed roots" message.
Definition bad_request (message : string) : ApiError := MkApiError 400 "bad_request" message.
Definition bad_gateway (message : string) : ApiError := MkApiError 502 "provider_bridge_error" message.
Definition classify_session_error (message : string) : ApiError :=
  if is_path_policy_error message then bad_request message
  else if existsb (λ marker, contains marker message) CONFLICT_MARKERS then MkApiError 409 "session_conflict" message
  else if is_unknown_provider_error message || existsb (λ marker, contains marker message) CALLER_ERROR_MARKERS
  then bad_request message
  else bad_gateway message.

(** * The relay's local HTTP front: theorems *)

(** ** Hosts *)

(** The hostnames the relay answers to: its own loopback names, and the names of the policy. *)
Definition own_host (p : HostPolicy) (authority : string) : Prop :=
  ∃ host, normalize_host authority = Some host ∧ (host_is_loopback host = true ∨ host ∈ hp_allowed p).

Lemma allows_host_spec p raw : hp_enforced p = true →
  allows_host p raw = true ↔ ∃ authority, raw = Some authority ∧ own_host p authority.
Proof.
  intros He. unfold allows_host, own_host. rewrite He. cbn [negb]. destruct raw as [raw|]; [|naive_solver].
  destruct (normalize_host raw) as [host|] eqn:E; [|naive_solver].
  rewrite orb_true_iff, bool_decide_eq_true. naive_solver.
Qed.

(** ** The API token *)
Section AuthTheorems.
Context `{TicketCrypto} `{HttpLib}.

Lemma authorize_spec now a headers :
  authorize now a headers = Ok () ↔
  auth_enabled a = false ∨ authenticates_with_bearer a headers = true ∨ authenticates_with_cookie now a headers = true.
Proof.
  unfold authorize, auth_enabled, authenticates_with_bearer, authenticates_with_cookie.
  destruct (ac_token a) as [t|]; cbn [is_some]; [|naive_solver].
  case_bool_decide; cbn [orb]; [naive_solver|]. destruct (has_valid_session_cookie _ _ _); naive_solver.
Qed.

(** A cookie that is accepted carries the MAC of its payload under the current token, and its
    claims have not expired. *)
Lemma accepted_cookie_is_signed now token raw claims :
  verify_session_cookie_value now token raw = Some claims →
  ∃ payload signature, raw = payload +:+ String "." signature ∧
    b64_decode signature = Some (session_mac token payload) ∧ sc_version claims = 1 ∧ now < sc_expires_at claims.
Proof.
  unfold verify_session_cookie_value. destruct (split_once "." raw) as [[payload signature]|] eqn:Es; [|done].
  cbn [mbind option_bind]. destruct (b64_decode signature) as [s|] eqn:Ed; [|done]. cbn [mbind option_bind].
  case_bool_decide as Hs; [|done]. cbn [negb]. subst s.
  destruct (b64_decode payload) as [p|]; [|done]. cbn [mbind option_bind].
  destruct (json_from_slice p) as [j|]; [|done]. cbn [mbind option_bind].
  destruct (result_ok (cookie_claims_deserialize j)) as [c|]; [|done]. cbn [mbind option_bind].
  destruct (Z.eqb_spec (sc_version c) 1); [|done]. destruct (Z.leb_spec (sc_expires_at c) now); [done|].
  intros [= ->]. exists payload, signature. apply split_once_spec in Es as [-> _]. done.
Qed.
End AuthTheorems.

(** ** The start of a relay *)

(** A relay that listens beyond the machine has a token or was told, in so many words, to
    run without one; and one that listens on the machine only answers to its loopback names
    and the operator's, whatever the operator lists. *)
Theorem open_relay_is_explicit api_token allow_insecure allowed_hosts bind_host a :
  auth_from_env api_token allow_insecure bind_host = Ok a →
  let p := policy_from_parts bind_host allowed_hosts in
  (auth_enabled a = false → ip_is_loopback bind_host = true ∨
     ∃ v, allow_insecure ≫= trimmed_string = Some v ∧ to_ascii_lowercase v ∈ ["1"; "true"; "yes"; "on"]) ∧
  (hp_enforced p = false → ip_is_loopback bind_host = false ∧
     ∀ raw entry, allowed_hosts = Some raw → entry ∈ split_on "," raw → normalize_host entry = None) ∧
  (ip_is_loopback bind_host = true → hp_enforced p = true ∧
     ∀ host, host ∈ hp_allowed p ↔ ∃ raw entry, allowed_hosts = Some raw ∧ entry ∈ split_on "," raw ∧ normalize_host entry = Some host).
Proof.
  intros Ha p.
  assert (∀ host, host ∈ (list_to_set (omap normalize_host (flat_map (split_on ",") (option_list allowed_hosts))) : gset string) ↔
    ∃ raw entry, allowed_hosts = Some raw ∧ entry ∈ split_on "," raw ∧ normalize_host entry = Some host) as Hin.
  { intros host. rewrite elem_of_list_to_set, list_elem_of_omap. destruct allowed_hosts as [raw|]; cbn [option_list flat_map].
    - change (flat_map (split_on ",") (option_list (Some raw))) with (split_on "," raw ++ [])%list.
      rewrite app_nil_r.
      split; [intros (x & Hx & Hn); eauto|intros (raw' & x & [= <-] & Hx & Hn); eauto].
    - split; [intros (x & Hx & _); by apply elem_of_nil in Hx|by intros (raw' & x & [=] & _)]. }
  split_and!.
  - unfold auth_from_env, auth_from_parts in Ha.
    destruct (parse_bool_env _ _) as [override|] eqn:Ep; [|done].
    destruct (ip_is_loopback bind_host); [by left|]. right. cbn [negb andb] in Ha.
    destruct (api_token ≫= trimmed_string) as [t|]; cbn [is_none is_some negb andb] in Ha; [injection Ha as <-; done|].
    destruct override; [|done]. unfold parse_bool_env in Ep.
    destruct (allow_insecure ≫= trimmed_string) as [v|]; [|done]. exists v. split; [done|].
    case_bool_decide; [done|]. by case_bool_decide.
  - unfold p, policy_from_parts. cbn [hp_enforced]. intros [Hl He]%orb_false_iff. split; [done|].
    rewrite negb_false_iff, bool_decide_eq_true in He. intros raw entry Hr Hentry.
    destruct (normalize_host entry) as [host|] eqn:En; [|done]. exfalso.
    assert (host ∈ (∅ : gset string)) as Habs by (rewrite <- He; apply Hin; eauto). by apply not_elem_of_empty in Habs.
  - intros Hl. unfold p, policy_from_parts. cbn [hp_enforced hp_allowed]. rewrite Hl. cbn [negb]. rewrite andb_false_r.
    split; [done|exact Hin].
Qed.

(** ** Mutating requests *)
Definition no_colon (s : string) : bool := string_forall (λ a, negb (Ascii.eqb a ":")) s.

(** Documented behaviour of the http crate: a scheme holds no colon, and the scheme and
    authority of a URI are a URI with that scheme and authority. *)
Class HttpLaws `{HttpLib} := {
  scheme_no_colon raw s a : uri_parts raw = Some (Some s, a) → no_colon s = true;
  origin_reparses raw s a : uri_parts raw = Some (Some s, Some a) → uri_parts (s +:+ "://" +:+ a) = Some (Some s, Some a)
}.

Section FrontTheorems.
Context `{TicketCrypto} `{HttpLaws}.
Context {App : Type}.

(** The request declares an origin that the relay takes for one of its own pages: exactly the
    origin it is addressed to; or a page of this machine, whatever its port, that set the custom
    header, which a page of another origin cannot do without a preflight the relay never
    grants.  Being of this machine is not enough. *)
Definition from_own_page (rq : LocalRequest) : Prop :=
  ∃ raw scheme authority, declared_header (lr_headers rq) = Some raw ∧
    declared_parts raw = Some (scheme, authority) ∧
    (request_host (lr_headers rq) (lr_uri rq) = Some authority ∧
       uri_origin (lr_headers rq) (lr_uri rq) = Some (scheme +:+ "://" +:+ authority) ∨
     authority_is_loopback authority = true ∧ has_valid_csrf_header (lr_headers rq) = true).

Lemma declared_parts_parse raw s a : declared_parts raw = Some (s, a) → ∃ text, uri_parts text = Some (Some s, Some a).
Proof using Type.
  unfold declared_parts. destruct (trim <$> raw) as [t|]; [|done]. cbn [mbind option_bind].
  destruct (is_empty t || eq_ignore_ascii_case t "null"); [done|].
  destruct (uri_parts t) as [[[s'|] [a'|]]|] eqn:E; try done. cbn. intros [= -> ->]. eauto.
Qed.

Lemma origin_authority s a s' a' : no_colon s = true → no_colon s' = true →
  s +:+ "://" +:+ a = s' +:+ "://" +:+ a' → a = a'.
Proof using Type.
  intros Hs Hs' E. pose proof (split_once_app ":" s ("//" +:+ a) Hs) as E1.
  pose proof (split_once_app ":" s' ("//" +:+ a') Hs') as E2. cbn in E1, E2, E. rewrite E in E1. rewrite E1 in E2.
  by injection E2 as _ ->.
Qed.

Lemma trusted_is_own rq :
  (∀ s, uri_scheme (lr_uri rq) = Some s → no_colon s = true) →
  classify_request_origin (lr_headers rq) (lr_uri rq) = Trusted → from_own_page rq.
Proof using Type*.
  intros Hs. unfold classify_request_origin, from_own_page. destruct (declared_header (lr_headers rq)) as [raw|]; [|done].
  unfold declared_origin_value. destruct (declared_parts raw) as [[scheme authority]|] eqn:Ep; [|done]. cbn [mbind option_bind].
  destruct (declared_parts_parse _ _ _ Ep) as [text Ht]. intros Hc.
  exists raw, scheme, authority. split_and!; [done..|]. case_bool_decide as Eo.
  - left. split; [|done]. unfold uri_origin in Eo. destruct (request_host (lr_headers rq) (lr_uri rq)) as [host|] eqn:Eh; [|done].
    cbn [mbind option_bind] in Eo. injection Eo as Eo. f_equal. eapply origin_authority; [|by eapply scheme_no_colon|exact Eo].
    destruct (uri_uses_https _ _); [done|]. destruct (uri_scheme (lr_uri rq)); [by apply Hs|done].
  - right. rewrite (origin_reparses _ _ _ Ht) in Hc. destruct (authority_is_loopback authority); [|done].
    by destruct (has_valid_csrf_header _).
Qed.

(** What the layers between the host check and the handlers make of a response. *)
Definition decorated (c : FrontContext) (rq : LocalRequest) (r : Response) : Response :=
  let r := r <| rs_headers ::= apply_standard_security_headers (fc_security_headers c)
                                 (uri_uses_https (lr_headers rq) (lr_uri rq)) |> in
  match relay_cache_control (uri_path (lr_uri rq)) (rs_status r) with
  | Some value => r <| rs_headers ::= <["cache-control" := value]> |>
  | None => r
  end.
Lemma build_router_eq now c (routes : Service) rq (app : App) :
  build_router now c routes rq app =
  if allows_host (fc_host_policy c) (request_host (lr_headers rq) (lr_uri rq)) then
    match authorize_csrf_protection now (fc_auth c) rq with
    | Ok _ => (decorated c rq (routes rq app).1, (routes rq app).2)
    | Err e => (decorated c rq (error_response e), app)
    end
  else (error_response host_not_allowed, app).
Proof using Type.
  unfold build_router, host_layer, cache_layer, security_layer, csrf_layer, decorated.
  destruct (allows_host _ _); [|done]. destruct (authorize_csrf_protection _ _ _); [destruct (routes rq app)|];
    cbn [fst snd]; by destruct (relay_cache_control _ _).
Qed.

(** C40: Nobody changes anything through a browser of the operator but the operator's own pages.
    A mutating request to a guarded route of the API either is refused before its handler,
    whatever the handler, or is addressed to a hostname of the relay where the policy is
    enforced and, unless it carries the API token itself: with a token configured it has a
    valid session cookie, the custom header and the origin of an own page; without one it
    declares no origin at all, as no page does, or that of an own page.  An own page is one of
    the very origin the request is addressed to, or a page of this machine that set the custom
    header; a page of this machine without that header is refused. *)
Theorem foreign_pages_are_refused now c rq :
  (∀ s, uri_scheme (lr_uri rq) = Some s → no_colon s = true) →
  starts_with "/api/" (uri_path (lr_uri rq)) = true → method_is_safe (lr_method rq) = false →
  (∃ refusal, ∀ (handler : Service) (app : App), build_router now c (guarded now c handler) rq app = (refusal, app)) ∨
  (hp_enforced (fc_host_policy c) = true →
     ∃ authority, request_host (lr_headers rq) (lr_uri rq) = Some authority ∧ own_host (fc_host_policy c) authority) ∧
  (authenticates_with_bearer (fc_auth c) (lr_headers rq) = true ∨
   auth_enabled (fc_auth c) = true ∧ authenticates_with_cookie now (fc_auth c) (lr_headers rq) = true ∧
     has_valid_csrf_header (lr_headers rq) = true ∧ from_own_page rq ∨
   auth_enabled (fc_auth c) = false ∧ (declared_header (lr_headers rq) = None ∨ from_own_page rq)).
Proof using Type*.
  intros Hs Hp Hm.
  destruct (allows_host (fc_host_policy c) (request_host (lr_headers rq) (lr_uri rq))) eqn:Ha; cycle 1.
  { left. eexists. intros. rewrite build_router_eq, Ha. reflexivity. }
  destruct (authorize_csrf_protection now (fc_auth c) rq) as [[]|e] eqn:Ec; cycle 1.
  { left. eexists. intros. rewrite build_router_eq, Ha, Ec. reflexivity. }
  destruct (authorize now (fc_auth c) (lr_headers rq)) as [[]|e] eqn:Eu; cycle 1.
  { left. exists (decorated c rq (error_response e)). intros. rewrite build_router_eq, Ha, Ec. unfold guarded. by rewrite Eu. }
  right. split; [intros He; by apply allows_host_spec|].
  apply authorize_spec in Eu. unfold authorize_csrf_protection in Ec. rewrite Hp, Hm in Ec. cbn [negb orb] in Ec.
  destruct (authenticates_with_bearer _ _); [by left|right].
  pose proof (trusted_is_own rq Hs) as Ht.
  destruct (auth_enabled (fc_auth c)) eqn:Ee; cbn [andb] in Ec.
  - left. destruct (authenticates_with_cookie _ _ _); [|naive_solver].
    destruct (has_valid_csrf_header _); [|done]. cbn [negb] in Ec.
    destruct (classify_request_origin _ _); naive_solver.
  - right. split; [done|]. destruct (classify_request_origin (lr_headers rq) (lr_uri rq)) eqn:Eo; [left|right; by apply Ht|done].
    revert Eo. unfold classify_request_origin. destruct (declared_header _); [|done].
    destruct (declared_origin_value _); [|done]. repeat case_match; done.
Qed.

(** Every answer that passed the host check, the refusals of the layers below included,
    carries the security headers. *)
Lemma answers_carry_security_headers now c (routes : Service) rq (app : App) :
  allows_host (fc_host_policy c) (request_host (lr_headers rq) (lr_uri rq)) = true →
  rs_headers (build_router now c routes rq app).1 !! "content-security-policy" =
    Some (sh_content_security_policy (fc_security_headers c)) ∧
  rs_headers (build_router now c routes rq app).1 !! "x-content-type-options" = Some X_CONTENT_TYPE_OPTIONS.
Proof using Type.
  intros Ha. rewrite build_router_eq, Ha.
  assert (∀ r, rs_headers (decorated c rq r) !! "content-security-policy" = Some (sh_content_security_policy (fc_security_headers c)) ∧
    rs_headers (decorated c rq r) !! "x-content-type-options" = Some X_CONTENT_TYPE_OPTIONS) as Hd.
  { intros r. unfold decorated. destruct (relay_cache_control _ _); cbn [rs_headers set_field];
      unfold apply_standard_security_headers; case_match; by simplify_map_eq. }
  destruct (authorize_csrf_protection _ _ _); apply Hd.
Qed.
End FrontTheorems.

(** ** The session cookie *)

(** Documented behaviour of URL-safe base64 without padding: letters, digits, [-] and [_]. *)
Class Base64Alphabet `{TicketCrypto} :=
  b64_alphabet s : string_forall (λ a, is_ascii_alphanumeric a || Ascii.eqb a "-" || Ascii.eqb a "_") (b64_encode s) = true.

Lemma alphabet_is_cookie_text a : is_ascii_alphanumeric a || Ascii.eqb a "-" || Ascii.eqb a "_" = true → cookie_byte a = true.
Proof. destruct a as [[] [] [] [] [] [] [] []]; vm_compute; congruence. Qed.

Lemma session_cookie_part_pair c s : cookie_ok c → trim s = cookie_pair c → session_cookie_part s = read_cookie SESSION_COOKIE_NAME c.
Proof.
  destruct c as [n v]. intros [(Tn & En & _ & Hn & _)%cookie_text_spec (Tv & Ev & _)%cookie_text_spec] Hs.
  cbn in Tn, Hn, Tv, Hs. unfold session_cookie_part, read_cookie. rewrite Hs. unfold cookie_pair. cbn [fst snd].
  rewrite (split_once_app "="%char n v Hn). cbn [mbind option_bind]. rewrite Tn, Tv.
  case_bool_decide; [by rewrite decide_True|by rewrite decide_False].
Qed.

Section LoginTheorems.
Context `{TicketLaws} `{!Base64Alphabet} `{HttpLib}.

Lemma minted_cookie_text token expires_at : cookie_text (mint_session_cookie_value token expires_at) = true.
Proof using Type*.
  unfold cookie_text, mint_session_cookie_value. apply andb_true_iff. split.
  - apply negb_true_iff, is_empty_false. destruct (b64_encode (json_to_vec _)); discriminate.
  - assert (∀ s, string_forall cookie_byte (b64_encode s) = true) as Hb
      by (intros s; exact (string_forall_impl _ _ _ alphabet_is_cookie_text (b64_alphabet s))).
    by rewrite !string_forall_app, !Hb.
Qed.

Lemma cookie_claims_decode e : in_u64 e → cookie_claims_deserialize (cookie_claims_serialize (MkCookieClaims 1 e)) = Ok (MkCookieClaims 1 e).
Proof using Type.
  intros He. unfold cookie_claims_deserialize, cookie_claims_serialize. cbn [sc_version sc_expires_at].
  rewrite derived_struct_ok; [|struct_checks|struct_nodup].
  repeat read_field. rewrite ?u64_de_ser by done. done.
Qed.

Lemma minted_cookie_verifies now token expires_at : in_u64 expires_at →
  verify_session_cookie_value now token (mint_session_cookie_value token expires_at) =
    (if expires_at <=? now then None else Some (MkCookieClaims 1 expires_at)).
Proof using Type*.
  intros He. unfold verify_session_cookie_value, mint_session_cookie_value.
  set (payload := b64_encode _).
  assert (∀ s, split_once "." (payload +:+ "." +:+ s) = Some (payload, s)) as ->
    by (intros s; apply (split_once_app "."%char), b64_no_dot).
  cbn [mbind option_bind].
  rewrite b64_decode_encode. cbn [mbind option_bind]. rewrite bool_decide_eq_true_2 by done. cbn [negb].
  unfold payload. rewrite b64_decode_encode. cbn [mbind option_bind]. rewrite json_text_round_trip.
  2:{ cbn. unfold wf_u64, in_range. unfold in_u64 in He. by rewrite !andb_true_iff, !Z.leb_le. }
  cbn [mbind option_bind]. rewrite cookie_claims_decode by done. reflexivity.
Qed.

(** Logging in with the token is having it for thirty days.  The cookie a login sets, sent
    back among others by a browser, lets a request in until the second it expires and not
    after; what a logout leaves behind lets nothing in; and a wrong token gets no cookie. *)
Theorem login_lasts_its_time now a token provided secure :
  ac_token a = Some token → 0 ≤ now → now + SESSION_COOKIE_TTL_SECS ≤ u64_max →
  (trim provided ≠ token → issue_session_cookie now a provided secure = Err unauthorized) ∧
  (∀ set_cookie, issue_session_cookie now a provided secure = Ok (Some set_cookie) →
     ∃ value, head (split_on ";" set_cookie) = Some (cookie_pair (SESSION_COOKIE_NAME, value)) ∧
     ∀ headers earlier later, Forall cookie_ok (earlier ++ later) → Forall (λ c, c.1 ≠ SESSION_COOKIE_NAME) earlier →
       header_str headers "cookie" = Some (cookie_header (earlier ++ (SESSION_COOKIE_NAME, value) :: later)%list) →
       ∀ t, authorize t a headers = Ok () ↔
         t < now + SESSION_COOKIE_TTL_SECS ∨ authenticates_with_bearer a headers = true) ∧
  (head (split_on ";" (build_clear_cookie_value secure)) = Some (cookie_pair (SESSION_COOKIE_NAME, "")) ∧
   ∀ t, verify_session_cookie_value t token "" = None).
Proof using Type*.
  intros Ht Hn Hmax. unfold issue_session_cookie. rewrite Ht. split_and!.
  - intros Hne. by rewrite bool_decide_eq_false_2.
  - intros set_cookie. case_bool_decide; [|done]. cbn [negb].
    assert (u64_saturating_add now SESSION_COOKIE_TTL_SECS = now + SESSION_COOKIE_TTL_SECS) as ->
      by (unfold u64_saturating_add; lia).
    set (value := mint_session_cookie_value _ _). destruct (header_value_ok _); [|done]. intros [= <-].
    pose proof (minted_cookie_text token (now + SESSION_COOKIE_TTL_SECS)) as Hv. fold value in Hv.
    assert (cookie_ok (SESSION_COOKIE_NAME, value)) as Hok by (by split).
    exists value. split.
    + destruct (cookie_pair_plain _ Hok) as [Hp _]. unfold build_set_cookie_value.
      match goal with |- head (split_on _ ?v) = _ =>
        assert (∃ rest, v = cookie_pair (SESSION_COOKIE_NAME, value) +:+ String ";" rest) as [rest ->] end.
      { eexists. unfold cookie_pair. cbn [fst snd]. rewrite !string_app_assoc. reflexivity. }
      by rewrite split_on_app.
    + intros headers earlier later Hoks Hne Hh t. rewrite authorize_spec.
      assert (session_cookie headers = Some value) as Hs.
      { unfold session_cookie. rewrite Hh. cbn [mbind option_bind].
        apply cookie_found_by; [done..|apply session_cookie_part_pair| |done].
        apply Forall_app in Hoks as [? ?]. apply Forall_app. split; [done|by constructor]. }
      assert (authenticates_with_cookie t a headers = bool_decide (t < now + SESSION_COOKIE_TTL_SECS)) as ->.
      { unfold authenticates_with_cookie, has_valid_session_cookie. rewrite Ht, Hs. cbn [mbind option_bind].
        unfold value. rewrite minted_cookie_verifies by (unfold in_u64, SESSION_COOKIE_TTL_SECS in *; lia).
        case_bool_decide; [rewrite (proj2 (Z.leb_gt _ _)) by lia|rewrite (proj2 (Z.leb_le _ _)) by lia]; done. }
      unfold auth_enabled. rewrite Ht. cbn [is_some]. rewrite bool_decide_eq_true. naive_solver.
  - unfold build_clear_cookie_value, build_set_cookie_value. by destruct secure.
  - done.
Qed.
End LoginTheorems.

(** ** The theorems on requests *)
Lemma substring_all s : String.substring 0 (String.length s) s = s.
Proof. induction s as [|a s IH]; cbn; [done|by rewrite IH]. Qed.
Lemma strip_slashes a : strip_prefix "//" ("//" +:+ a) = Some a.
Proof. unfold strip_prefix. cbn. rewrite Nat.sub_0_r. by rewrite substring_all. Qed.

Lemma model_http_laws : @HttpLaws model_http.
Proof.
  assert (∀ raw s a, uri_parts (HttpLib := model_http) raw = Some (Some s, a) → no_colon s = true ∧ is_Some a) as Hp.
  { intros raw s a. cbn. destruct (split_once ":" raw) as [[scheme rest]|] eqn:E; [|done].
    destruct (strip_prefix "//" rest); [|done]. intros [= <- <-]. apply split_once_spec in E as [_ Hc]. split; [exact Hc|eauto]. }
  split; [intros raw s a H; exact (proj1 (Hp _ _ _ H))|]. intros raw s a H. cbn [uri_parts model_http].
  apply Hp in H as [Hs _]. assert (split_once ":" (s +:+ "://" +:+ a) = Some (s, "//" +:+ a)) as ->
    by (by apply (split_once_app ":"%char)). by rewrite strip_slashes.
Qed.

Module GuardExamples.
#[local] Existing Instance model_crypto.
#[local] Existing Instance model_http.
#[local] Existing Instance model_http_laws.

Definition security : SecurityHeadersConfig := MkSecurity false "default-src 'self'" "max-age=1".
Definition laptop : FrontContext := MkFront (MkAuthConfig None false) security loopback_only.
Definition header_list (l : list (string * string)) : Headers := λ n, omap (λ h, if decide (h.1 = n) then Some (Some h.2) else None) l.
Definition post (path : string) (l : list (string * string)) : LocalRequest :=
  MkLocalRequest POST (MkUri None None path) (header_list l).
Definition revoke_from (host origin : string) : LocalRequest :=
  post "/api/devices/d1/revoke" [("host", host); ("origin", origin)].

(** A page elsewhere posts to the relay of the laptop; so does one whose name was rebound. *)
Lemma foreign_pages_are_refused_witness :
  (∃ refusal, ∀ (handler : Service) (app : nat),
     build_router 0 laptop (guarded 0 laptop handler) (revoke_from "127.0.0.1:8787" "http://evil.example") app = (refusal, app)) ∧
  (∃ refusal, ∀ (handler : Service) (app : nat),
     build_router 0 laptop (guarded 0 laptop handler) (revoke_from "evil.example" "http://evil.example") app = (refusal, app)) ∧
  (∃ refusal, ∀ (handler : Service) (app : nat),
     build_router 0 laptop (guarded 0 laptop handler) (revoke_from "127.0.0.1:8787" "http://localhost:5173") app = (refusal, app)).
Proof.
  assert (∀ origin, (default "" (snd <$> declared_parts (Some origin)) ≠ "127.0.0.1:8787") →
    (∃ refusal, ∀ (handler : Service) (app : nat),
       build_router 0 laptop (guarded 0 laptop handler) (revoke_from "127.0.0.1:8787" origin) app = (refusal, app))) as Hforeign.
  { intros origin Hne. destruct (foreign_pages_are_refused (App := nat) 0 laptop (revoke_from "127.0.0.1:8787" origin))
      as [Hr|(_ & [Hb|[(He & _)|(_ & [Hn|Hp])]])]; [done..|exact Hr| | | |];
      [by vm_compute in Hb|by vm_compute in He|by vm_compute in Hn|].
    exfalso. destruct Hp as (raw & s & a & Hd & Hp & [[Ho _]|[_ Ho]]); [|by vm_compute in Ho].
    vm_compute in Hd. injection Hd as <-. rewrite Hp in Hne. apply Hne. vm_compute in Ho. injection Ho as <-. done. }
  split; [|split].
  - apply Hforeign. vm_compute. discriminate.
  - destruct (foreign_pages_are_refused (App := nat) 0 laptop (revoke_from "evil.example" "http://evil.example"))
      as [Hr|(Hh & _)]; [done..|exact Hr|].
    exfalso. destruct Hh as (a & Ha & Ho); [vm_compute; reflexivity|]. vm_compute in Ha. injection Ha as <-.
    destruct Ho as (host & Hn & Ho). vm_compute in Hn. injection Hn as <-. destruct Ho as [Ho|Ho]; [by vm_compute in Ho|].
    revert Ho. apply (bool_decide_unpack _). vm_compute. exact I.
  - apply Hforeign. vm_compute. discriminate.
Defined.

(** The page of the relay itself, and the development server beside it. *)
Example own_page_is_served :
  let handler : Service := λ _ n, (MkResponse 200 ∅ None, S n) in
  (build_router 0 laptop (guarded 0 laptop handler) (revoke_from "127.0.0.1:8787" "http://127.0.0.1:8787") 4%nat).2 = 5%nat ∧
  (build_router 0 laptop (guarded 0 laptop handler)
     (post "/api/x" [("host", "127.0.0.1:8787"); ("origin", "http://localhost:5173"); ("x-agent-relay-csrf", "1")]) 4%nat).2 = 5%nat ∧
  (build_router 0 laptop (guarded 0 laptop handler) (revoke_from "127.0.0.1:8787" "http://localhost:5173") 4%nat).2 = 4%nat.
Proof. vm_compute. done. Qed.

Lemma open_relay_is_explicit_witness :
  let p := policy_from_parts (V4 2130706433) (Some "Relay.Local:8787, ") in
  hp_enforced p = true ∧ "relay.local" ∈ hp_allowed p.
Proof.
  destruct (open_relay_is_explicit None None (Some "Relay.Local:8787, ") (V4 2130706433) (MkAuthConfig None false))
    as (_ & _ & Hl); [vm_compute; reflexivity|].
  destruct Hl as [He Hin]; [vm_compute; reflexivity|]. split; [exact He|]. apply Hin.
  exists "Relay.Local:8787, ", "Relay.Local:8787". split_and!; [reflexivity| |vm_compute; reflexivity].
  vm_compute. apply list_elem_of_here.
Defined.

Lemma letters_alphabet : @Base64Alphabet model_crypto.
Proof.
  intros s. cbn. induction s as [|a s IH]; [done|]. cbn [letters_encode string_forall]. rewrite IH, andb_true_r.
  clear. by destruct a as [[] [] [] [] [] [] [] []].
Qed.

Definition token_config : AuthConfig := MkAuthConfig (Some "t0") false.
Definition session_value : string := Eval vm_compute in mint_session_cookie_value "t0" (1000 + SESSION_COOKIE_TTL_SECS).
Lemma login_lasts_its_time_witness :
  let headers := header_list [("cookie", "theme=dark; agent_relay_session=" +:+ session_value)] in
  authorize 2000 token_config headers = Ok () ∧
  authorize (1000 + SESSION_COOKIE_TTL_SECS) token_config headers = Err unauthorized.
Proof.
  intros headers.
  destruct (@login_lasts_its_time model_crypto model_laws letters_alphabet model_http 1000 token_config "t0" " t0 " true)
    as (_ & Hl & _); [reflexivity|lia|vm_compute; congruence|].
  destruct (issue_session_cookie 1000 token_config " t0 " true) as [[set_cookie|]|] eqn:E; [|by vm_compute in E..].
  destruct (Hl _ eq_refl) as (value & Hv & Ha). assert (value = session_value) as ->.
  { revert E Hv. vm_compute. intros [= <-]. congruence. }
  specialize (Ha headers [("theme", "dark")] []). assert (∀ t, authorize t token_config headers = Ok () ↔
    t < 1000 + SESSION_COOKIE_TTL_SECS ∨ authenticates_with_bearer token_config headers = true) as Ht.
  { apply Ha; [by repeat constructor|by repeat constructor|]. vm_compute. reflexivity. }
  split; [apply Ht; left; vm_compute; reflexivity|].
  destruct (authorize (1000 + SESSION_COOKIE_TTL_SECS) token_config headers) as [[]|e] eqn:Eu.
  - apply Ht in Eu as [Hlt|Hb]; [lia|by vm_compute in Hb].
  - revert Eu. unfold authorize. cbn [ac_token token_config]. destruct (_ || _); congruence.
Defined.
End GuardExamples.
