(* ===== verification/SessionTheorems.v ===== *)
(** * What a session with the broker promises

    A surface that watches a thread is told everything that was queued for it, before each
    snapshot; in private mode nothing leaves but what is sealed; snapshots are spaced and every
    change is followed by one; silence of the broker is noticed; and no surface ends a session. *)

From Stdlib Require Import ZArith Lia Ascii.
From S2P Require Import Prelude RustStr Json ControlPlane JoinTicket BrokerState Admission Paths Device RemoteActions Surfaces LiveText Snapshot Writer.
From S2P Require Import JoinTicket RemoteRequest RemoteReply RemoteChunks RemotePublish RemoteDispatch ChunkTheorems RemoteDispatchTheorems Publisher BrokerSession.

Open Scope string_scope.
Open Scope Z_scope.

(** ** What is handed to the writer *)

(** Payloads whose contents only the holder of a secret can read. *)
Fixpoint sealed (p : OutboundBrokerPayload) : bool :=
  match p with
  | OEncryptedTranscriptDelta _ _ _ | OEncryptedSessionSnapshot _ _ _ | OEncryptedRemoteActionResult _ _ _ _
  | OEncryptedRemoteActionResultChunk _ _ _ _ _ _ _ | OEncryptedPairingResult _ _ _ => true
  | OTargetedMessages ms => forallb (λ m : TargetedBrokerMessage, sealed m.2) ms
  | _ => false
  end.
Definition sealed_sent (s : Sent) : bool :=
  match s with SentNow p => sealed p | SentTrain ps _ _ => forallb sealed ps end.
(** Replies to actions; they are not wrapped: the broker gives them to the whole room. *)
Definition reply (p : OutboundBrokerPayload) : bool :=
  match p with
  | OSessionSnapshot _ | OEncryptedSessionSnapshot _ _ _ | OTranscriptDelta _ _ _ _ _ _ _ _ _ _
  | OEncryptedTranscriptDelta _ _ _ | OEncryptedPairingResult _ _ _ | OTargetedMessages _ => false
  | _ => true
  end.
Definition unwrapped (s : Sent) : bool :=
  match s with SentNow p => reply p | SentTrain ps _ _ => forallb reply ps end.
(** Frames with a snapshot of the session. *)
Fixpoint shows_session (p : OutboundBrokerPayload) : bool :=
  match p with
  | OSessionSnapshot _ | OEncryptedSessionSnapshot _ _ _ => true
  | OTargetedMessages ms => existsb (λ m : TargetedBrokerMessage, shows_session m.2) ms
  | _ => false
  end.
Definition carries_snapshot (s : Sent) : bool :=
  match s with SentNow p => shows_session p | SentTrain ps _ _ => existsb shows_session ps end.
Definition snapshotless (s : Sent) : Prop := carries_snapshot s = false.

(** The hand-overs between two states of the handle. *)
Definition handed_over (P : Sent → Prop) (h h' : Handle) : Prop :=
  ∃ new, hd_sent h' = (hd_sent h ++ new)%list ∧ Forall P new.
#[export] Instance handed_over_preorder P : PreOrder (handed_over P).
Proof.
  split.
  - intros h. exists []. by rewrite app_nil_r.
  - intros h1 h2 h3 (n1 & E1 & F1) (n2 & E2 & F2). exists (n1 ++ n2)%list. rewrite E2, E1, app_assoc.
    split; [done|by apply Forall_app].
Qed.

Lemma hand_spec s h h' a :
  hand s h = (h', a) → hd_sent h' = hd_sent h ∧ a ≠ Taken ∨ hd_sent h' = (hd_sent h ++ [s])%list ∧ a = Taken.
Proof.
  unfold hand. destruct (default Taken _), s; intros [= <- <-]; cbn; auto.
Qed.
Lemma hand_over (P : Sent → Prop) s h : P s → handed_over P h (hand s h).1.
Proof.
  intros HP. destruct (hand s h) as [h' a] eqn:E. unfold handed_over. cbn [fst].
  destruct (hand_spec _ _ _ _ E) as [[-> _]|[-> _]]; [exists [] | exists [s]]; rewrite ?app_nil_r; auto.
Qed.
Lemma publish_payload_spec p h h' r :
  publish_payload p h = (h', r) →
  (r = Ok () ∧ hd_sent h' = (hd_sent h ++ [SentNow p])%list) ∨ (r = Err WriterGone ∧ hd_sent h' = hd_sent h).
Proof.
  unfold publish_payload, hand. destruct (default Taken _); intros [= <- <-]; cbn; auto.
Qed.

(** *** Replies to actions *)
Section Replies.
Context {A : Type} {RA : RelayApp A} {TC : TicketCrypto} {DC : DeviceCrypto} {SB : SecretBox} {ED : Ed25519}.
Context {VS : ViewSerde} {SS : SnapshotSizes} {RS : RequestSerde}.

Lemma publish_payload_handed (P : Sent → Prop) p h : P (SentNow p) → handed_over P h (publish_payload p h).1.
Proof.
  intros HP. unfold publish_payload. pose proof (hand_over P (SentNow p) h HP) as H. by destruct (hand _ _) as [h' []].
Qed.

Lemma chunks_handed (P : Sent → Prop) online ps target h :
  (∀ i w, P (SentTrain ps i w)) → handed_over P h (publish_remote_action_result_chunks online ps target h).1.
Proof.
  intros HP. unfold publish_remote_action_result_chunks. destruct ps; [done|].
  set (w := if online target then _ else _). pose proof (hand_over P _ h (HP REMOTE_ACTION_RESULT_CHUNK_PUBLISH_INTERVAL_MILLIS w)) as H.
  by destruct (hand _ _) as [h' []].
Qed.

Lemma plain_reply_unwrapped action_id target r p : build_plain_remote_action_result_payload action_id target r = Some p → unwrapped (SentNow p) = true.
Proof. unfold build_plain_remote_action_result_payload. destruct (rp_kind r), (rp_snapshot r); by intros [= <-]. Qed.

Lemma plain_chunks_reply action_id target r ps :
  build_plain_remote_action_result_chunk_payloads action_id target r = Ok ps → forallb reply ps = true.
Proof.
  unfold build_plain_remote_action_result_chunk_payloads. destruct (fit_chunks _ _ _ _).2 as [pieces|]; [|done]. intros [= <-].
  apply forallb_forall. intros x Hx%list_elem_of_In. by apply elem_of_lookup_imap in Hx as (i & piece & -> & _).
Qed.

Lemma plain_result_handed online target action_id action snapshot outcome error ok h :
  handed_over (λ s, unwrapped s = true) h
    (publish_plain_remote_action_result online target action_id action snapshot outcome error ok h).1.
Proof.
  unfold publish_plain_remote_action_result.
  destruct (build_plain_remote_action_result_payload _ _ _) as [p|] eqn:Ep; [|done].
  case_match; [by eapply publish_payload_handed, plain_reply_unwrapped|].
  destruct (build_plain_remote_action_result_chunk_payloads _ _ _) as [ps|] eqn:Eps; [|done]. apply plain_chunks_reply in Eps.
  pose proof (chunks_handed (λ s, unwrapped s = true) online ps target h (λ _ _, Eps)) as Hc.
  destruct (publish_remote_action_result_chunks _ _ _ _) as [h' [[]|]]; [done| |done].
  destruct (build_plain_remote_action_result_payload _ _ (busy_remote_action_result _ _)) as [p'|] eqn:Ep'; [|done].
  etrans; [exact Hc|]. by eapply publish_payload_handed, plain_reply_unwrapped.
Qed.

Lemma chunk_payloads_sealed fit nonce action_id target device secret r ps :
  build_encrypted_remote_action_result_chunk_payloads fit nonce action_id target device secret r = Ok ps →
  forallb reply ps = true ∧ forallb sealed ps = true.
Proof.
  unfold build_encrypted_remote_action_result_chunk_payloads. destruct (fit_chunks _ _ _ _) as [[] [pieces|]]; [done..| |done].
  set (l := imap _ pieces). assert (∀ x, Ok x ∈ l → reply x = true ∧ sealed x = true) as Hl.
  { intros x Hx. unfold l in Hx. apply elem_of_lookup_imap in Hx as (i & piece & Hx & _). revert Hx.
    unfold seal_chunk. destruct (encrypt_json _ _ _); [|done]. by intros [= ->]. }
  clearbody l. destruct (collect_results l) as [ps'|] eqn:E; [|done]. intros [= ->]. revert ps E.
  induction l as [|[x|e] l IH]; cbn; intros ps E; [by simplify_eq| |done].
  destruct (collect_results l) as [xs|]; [|done]. injection E as <-. cbn. destruct (Hl x) as [-> ->]; [left|].
  apply IH; [|done]. intros y Hy. apply Hl. by right.
Qed.

Definition private_reply (s : Sent) : Prop := unwrapped s = true ∧ sealed_sent s = true.
Lemma private_result_handed online nonces s target device action_id action snapshot outcome error ok secret h :
  handed_over private_reply h
    (publish_remote_action_result_private online nonces s target device action_id action snapshot outcome error ok secret h).1.
Proof.
  unfold publish_remote_action_result_private. destruct (match secret with Some _ => _ | None => _ end) as [sec|]; [|done].
  destruct (encrypt_json _ _ _) as [envelope|]; [|done]. case_match; [by apply publish_payload_handed|].
  destruct (build_encrypted_remote_action_result_chunk_payloads _ _ _ _ _ _ _) as [ps|] eqn:Ep; [|done].
  apply chunk_payloads_sealed in Ep.
  pose proof (chunks_handed private_reply online ps target h (λ _ _, Ep)) as Hc.
  destruct (publish_remote_action_result_chunks _ _ _ _) as [h' [[]|]]; [done| |done].
  destruct (encrypt_json _ _ _) as [e'|]; [|done]. etrans; [exact Hc|]. by apply publish_payload_handed.
Qed.

(** What an action hands over: replies, and sealed ones where the broker may not read. *)
Lemma action_handed env from m (w : World A) h :
  handed_over (λ s, unwrapped s = true ∧ (app_can_read_content (wo_app w) = false → sealed_sent s = true)) h
    (handle_action env from m w h).1.2.
Proof.
  set (P := λ s, _).
  assert (∀ h', handed_over private_reply h h' → handed_over P h h') as Hpriv.
  { intros h' (new & E & F). exists new. split; [done|]. eapply Forall_impl; [exact F|]. by intros s []. }
  destruct m as [action_id claim device request|action_id claim device envelope]; cbn [handle_action].
  - unfold handle_remote_action. destruct (app_can_read_content (wo_app w)) eqn:Er; cbn [negb]; [|done].
    assert (∀ h', handed_over (λ s, unwrapped s = true) h h' → handed_over P h h') as Hplain.
    { intros h' (new & E & F). exists new. split; [done|]. eapply Forall_impl; [exact F|]. intros s Hs. by split. }
    destruct (resolve_plain_remote_device _ _ _ _ _ _ _) as [d|e].
    + case_match; [by destruct (execute_fire_and_forget_remote_action _ _ _ _ _)|].
      destruct (reserved_action _ _ _ _ _ _ _) as [w' [[reply ex]|]]; [|done]. unfold replay_plain_remote_action_result.
      match goal with |- context [publish_plain_remote_action_result ?a ?b ?c ?d ?e ?f ?g ?i h] =>
        pose proof (plain_result_handed a b c d e f g i h) as Hh; destruct (publish_plain_remote_action_result a b c d e f g i h) end.
      by apply Hplain.
    + match goal with |- context [publish_plain_remote_action_result ?a ?b ?c ?d ?e ?f ?g ?i h] =>
        pose proof (plain_result_handed a b c d e f g i h) as Hh; destruct (publish_plain_remote_action_result a b c d e f g i h) end.
      by apply Hplain.
  - unfold handle_encrypted_remote_action. destruct (resolve_encrypted_action_context _ _ _ _ _ _) as [resolved|e].
    + case_match; [by destruct (execute_fire_and_forget_remote_action _ _ _ _ _)|].
      destruct (reserved_action _ _ _ _ _ _ _) as [w' [[reply ex]|]]; [|done]. unfold replay_encrypted_remote_action_result.
      match goal with |- context [publish_remote_action_result_private ?a ?b ?c ?d ?e ?f ?g ?i ?j ?k ?l ?n h] =>
        pose proof (private_result_handed a b c d e f g i j k l n h) as Hh;
        destruct (publish_remote_action_result_private a b c d e f g i j k l n h) end.
      by apply Hpriv.
    + destruct device as [d|]; [|done].
      match goal with |- context [publish_remote_action_result_private ?a ?b ?c ?d ?e ?f ?g ?i ?j ?k ?l ?n h] =>
        pose proof (private_result_handed a b c d e f g i j k l n h) as Hh;
        destruct (publish_remote_action_result_private a b c d e f g i j k l n h) end.
      by apply Hpriv.
Qed.
End Replies.

(** ** What a surface reads *)
Definition delta_fields : field_table :=
  [("thread_id", checks de_string); ("base_revision", checks de_u64); ("revision", checks de_u64);
   ("entry_seq", checks de_u64); ("server_time", checks de_u64); ("item_id", checks de_string);
   ("turn_id", checks (de_option de_string)); ("delta", checks de_string); ("delta_kind", checks de_string);
   ("text_offset", checks (de_option de_u64))].
Definition kind_of_name (name : string) : option TranscriptDeltaKind :=
  if bool_decide (name = "agent_text") then Some AgentText
  else if bool_decide (name = "command_output") then Some CommandOutput else None.
Definition read_delta : decoder PendingTranscriptDelta := λ j,
  let? es := derived_struct false delta_fields j in
  let? th := required "thread_id" de_string es in
  let? base := required "base_revision" de_u64 es in
  let? rev := required "revision" de_u64 es in
  let? seq := required "entry_seq" de_u64 es in
  let? time := required "server_time" de_u64 es in
  let? item := required "item_id" de_string es in
  let? turn := required "turn_id" (de_option de_string) es in
  let? text := required "delta" de_string es in
  let? name := required "delta_kind" de_string es in
  let? kind := ok_or (kind_of_name name) InvalidValue in
  let? off := required "text_offset" (de_option de_u64) es in
  Ok (MkDelta th base rev seq time item turn text kind off).

Definition delta_ok (d : PendingTranscriptDelta) : Prop :=
  in_u64 (td_base_revision d) ∧ in_u64 (td_revision d) ∧ in_u64 (td_entry_seq d) ∧ in_u64 (td_server_time d) ∧
  (∀ off, td_text_offset d = Some off → in_u64 off).

Lemma kind_of_delta_name k : kind_of_name (delta_kind_name k) = Some k.
Proof. by destruct k. Qed.

Lemma option_string_de_ser o : de_option de_string (ser_option JStr o) = Ok o.
Proof. by destruct o. Qed.
Lemma option_u64_de_ser o : (∀ z, o = Some z → in_u64 z) → de_option de_u64 (ser_option JU64 o) = Ok o.
Proof. destruct o as [z|]; [|done]. intros Hz. cbn [ser_option de_option]. by rewrite u64_de_ser by auto. Qed.
#[local] Hint Resolve option_string_de_ser option_u64_de_ser : relay.

Lemma delta_read_value d : delta_ok d → read_delta (delta_value d) = Ok d.
Proof.
  destruct d as [th base rev seq time item turn text kind off]. intros (Hb & Hr & Hs & Ht & Ho).
  cbn [td_base_revision td_revision td_entry_seq td_server_time td_text_offset] in *.
  unfold read_delta, delta_value. rewrite derived_struct_ok.
  - repeat read_field. cbn [de_string td_thread_id td_base_revision td_revision td_entry_seq td_server_time td_item_id
      td_turn_id td_delta td_kind td_text_offset].
    by rewrite !u64_de_ser, option_string_de_ser, kind_of_delta_name, option_u64_de_ser.
  - struct_checks.
  - struct_nodup.
Qed.

Lemma wf_u64_in z : in_u64 z → wf_u64 z = true.
Proof. unfold wf_u64, in_u64. rewrite in_range_true. unfold u64_max. lia. Qed.

Lemma delta_plain d : delta_ok d → plain_json (delta_value d) = true.
Proof.
  intros (Hb & Hr & Hs & Ht & Ho). cbn -[wf_u64]. rewrite !wf_u64_in by done. cbn -[wf_u64].
  destruct (td_turn_id d), (td_text_offset d); cbn -[wf_u64]; rewrite ?wf_u64_in; eauto.
Qed.

Lemma merge_ok a b : delta_ok a → delta_ok b → delta_ok (merge_delta a b).
Proof. by intros (? & ? & ? & ? & ?) (? & ? & ? & ? & ?). Qed.
Lemma coalesce_from_ok ds : ∀ last, delta_ok last → Forall delta_ok ds → Forall delta_ok (coalesce_from last ds).
Proof.
  induction ds as [|d ds IH]; intros last Hl HF; cbn; [by constructor|]. apply Forall_cons in HF as [Hd HF].
  case_match; [by apply IH, HF; apply merge_ok|]. constructor; auto.
Qed.
Lemma coalesce_ok ds : Forall delta_ok ds → Forall delta_ok (coalesce_transcript_deltas ds).
Proof. intros HF. destruct HF; [done|]. by apply coalesce_from_ok. Qed.

Section Reading.
Context {A : Type} {RA : RelayApp A} {SA : SessionApp A} {TC : TicketCrypto} {TL : TicketLaws} {DC : DeviceCrypto} {SB : SecretBox}.
Context {SL : SecretBoxLaws} {FS : FileSystem} {ED : Ed25519} {VS : ViewSerde} {SS : SnapshotSizes} {RS : RequestSerde}.
Implicit Types w : World A.

(** The payloads addressed to a peer, and the deltas it reads among them. *)
Definition for_peer (peer_id : string) (s : Sent) : list OutboundBrokerPayload :=
  match s with SentNow (OTargetedMessages ms) => addressed peer_id ms | _ => [] end.
Definition open_delta (secret : string) (p : OutboundBrokerPayload) : option PendingTranscriptDelta :=
  match p with
  | OTranscriptDelta th base rev seq time item turn text name off =>
      (λ kind, MkDelta th base rev seq time item turn text kind off) <$> kind_of_name name
  | OEncryptedTranscriptDelta _ _ envelope =>
      result_ok (decrypt_json (λ j, result_ok (read_delta j)) secret envelope)
  | _ => None
  end.
Definition opened (peer_id secret : string) (sent : list Sent) : list PendingTranscriptDelta :=
  omap (open_delta secret) (concat (map (for_peer peer_id) sent)).

Lemma opened_app peer secret a b : opened peer secret (a ++ b) = (opened peer secret a ++ opened peer secret b)%list.
Proof. unfold opened. by rewrite map_app, concat_app, omap_app. Qed.
Lemma addressed_app {X} peer (a b : list (string * X)) : addressed peer (a ++ b) = (addressed peer a ++ addressed peer b)%list.
Proof. apply omap_app. Qed.

(** What is sealed with the secret is read back. *)
Lemma decrypt_encrypt {X} (of_json : json → option X) secret nonce j envelope x :
  encrypt_json secret nonce j = Ok envelope → str_len nonce = 24 → plain_json j = true → of_json j = Some x →
  decrypt_json of_json secret envelope = Ok x.
Proof using TL SL.
  unfold encrypt_json, encrypt_bytes, decrypt_json, decrypt_bytes. intros E Hn Hp Hx.
  destruct (xsalsa_encrypt _ _ _) as [c|] eqn:Ec; [|done]. injection E as <-. cbn [ev_nonce ev_ciphertext].
  rewrite !std_b64_round_trip. cbn [ok_or]. rewrite Hn. cbn [negb Z.eqb Pos.eqb].
  rewrite (xsalsa_opens _ _ _ _ Ec). cbn [ok_or]. rewrite json_text_round_trip by done. cbn. by rewrite Hx.
Qed.

Lemma open_plain secret d : open_delta secret (delta_payload d) = Some d.
Proof. unfold delta_payload, open_delta. rewrite kind_of_delta_name. by destruct d. Qed.
Lemma open_sealed secret nonce d peer device envelope :
  delta_ok d → str_len nonce = 24 → encrypt_json secret nonce (delta_value d) = Ok envelope →
  open_delta secret (OEncryptedTranscriptDelta peer device envelope) = Some d.
Proof using TL SL.
  intros Hd Hn E. unfold open_delta. rewrite (decrypt_encrypt _ _ _ _ _ d E Hn); [done|by apply delta_plain|].
  by rewrite delta_read_value.
Qed.

(** ** Batches *)
Definition batch (ms : list TargetedBrokerMessage) : Sent := SentNow (OTargetedMessages ms).

Definition fits_frame (ms : list TargetedBrokerMessage) : Prop :=
  (length ms ≤ 1)%nat ∨ frame_bytes_for_payload (OTargetedMessages ms) ≤ MAX_BROKER_TEXT_FRAME_BYTES.

(** Messages go out in their order, each batch one frame the broker takes if it has more than
    one message. *)
Lemma targeted_loop_spec ms : ∀ cur h h' r,
  fits_frame cur → targeted_loop ms cur h = (h', r) →
  ∃ bs rest, hd_sent h' = (hd_sent h ++ map batch bs)%list ∧ (concat bs ++ rest = cur ++ ms)%list ∧
    (r = Ok () → rest = []) ∧ Forall (λ b, b ≠ [] ∧ fits_frame b) bs.
Proof.
  assert (∀ cur h h' r (rest : list TargetedBrokerMessage), fits_frame cur → cur ≠ [] →
    publish_payload (OTargetedMessages cur) h = (h', r) →
    r = Ok () ∧ hd_sent h' = (hd_sent h ++ map batch [cur])%list ∨ is_ok r = false ∧ hd_sent h' = (hd_sent h ++ [])%list) as Hpub.
  { intros cur h h' r _ _ _ E. rewrite app_nil_r. destruct (publish_payload_spec _ _ _ _ E) as [[-> ->]|[-> ->]]; auto. }
  induction ms as [|m ms IH]; intros cur h h' r Hcur E; cbn [targeted_loop] in E.
  - destruct cur as [|m cur]; [injection E as <- <-; exists [], []; by rewrite app_nil_r|].
    destruct (Hpub _ _ _ _ [] Hcur (λ H, ltac:(discriminate)) E) as [[-> Hs]|[Hr Hs]].
    + exists [m :: cur], []. cbn [concat]. rewrite !app_nil_r. split_and!; auto.
    + exists [], (m :: cur). split_and!; [done|by rewrite app_nil_r|by intros ->|done].
  - destruct (negb (bool_decide (cur = [])) && _) eqn:Ec.
    + apply andb_true_iff in Ec as [Hne _]. apply negb_true_iff, bool_decide_eq_false in Hne.
      destruct (publish_payload (OTargetedMessages cur) h) as [h1 r1] eqn:Ep.
      destruct (Hpub _ _ _ _ [] Hcur Hne Ep) as [[-> Hs]|[Hr Hs]].
      * destruct (IH [m] h1 h' r) as (bs & rest & Hs' & Hc & Hok & HF); [left; cbn; lia|done|].
        exists (cur :: bs), rest. rewrite Hs', Hs. cbn [map concat]. rewrite <- !app_assoc, Hc. split_and!; auto.
      * destruct r1; [done|]. injection E as <- <-. exists [], (cur ++ m :: ms)%list. split_and!; done.
    + destruct (IH (cur ++ [m])%list h h' r) as (bs & rest & Hs' & Hc & Hok & HF).
      * apply andb_false_iff in Ec as [Hn|Hf].
        -- apply negb_false_iff, bool_decide_eq_true in Hn as ->. left. cbn. lia.
        -- right. apply Z.ltb_ge in Hf. lia.
      * done.
      * exists bs, rest. rewrite Hc, <- app_assoc. by split_and!.
Qed.

(** ** Tasks of the publisher *)

(** [I] holds of the relay's state throughout. *)
Context (I : World A → Prop) (I_meanwhile : ∀ w, I w → I (meanwhile w)).

(** What may be handed over: only what is sealed, if the broker may never read. *)
Definition allowed (s : Sent) : Prop := (∀ w, I w → app_can_read_content (wo_app w) = false) → sealed_sent s = true.

(** Of every outcome, what was handed over; of success, [Q]. *)
Definition task_ok {X} (Q : X → list Sent → Prop) (c : Task X) : Prop := ∀ w h, I w →
  let '(w', h', r) := c w h in
  I w' ∧ ∃ new, hd_sent h' = (hd_sent h ++ new)%list ∧ Forall allowed new ∧ ∀ x, r = Ok x → Q x new.

Lemma task_ret {X} (Q : X → list Sent → Prop) x : Q x [] → task_ok Q (ret x).
Proof. intros HQ w h Hw. split; [done|]. exists []. rewrite app_nil_r. split_and!; [done..|]. by intros ? [= <-]. Qed.
Lemma task_bind {X Y} (Q1 : X → list Sent → Prop) (Q : Y → list Sent → Prop) c f :
  task_ok Q1 c → (∀ x n1, Q1 x n1 → task_ok (λ y n2, Q y (n1 ++ n2)%list) (f x)) → task_ok Q (bind c f).
Proof.
  intros Hc Hf w h Hw. unfold bind. specialize (Hc w h Hw). destruct (c w h) as [[w1 h1] [x|e]].
  - destruct Hc as (Hw1 & n1 & E1 & F1 & HQ). specialize (Hf x n1 (HQ x eq_refl) w1 h1 Hw1).
    destruct (f x w1 h1) as [[w2 h2] r]. destruct Hf as (Hw2 & n2 & E2 & F2 & HQ2). split; [done|].
    exists (n1 ++ n2)%list. rewrite E2, E1, app_assoc. split_and!; [done|by apply Forall_app|done].
  - destruct Hc as (Hw1 & n1 & E1 & F1 & _). split; [done|]. exists n1. by split_and!.
Qed.
Lemma task_mono {X} (Q Q' : X → list Sent → Prop) c : (∀ x n, Q x n → Q' x n) → task_ok Q c → task_ok Q' c.
Proof.
  intros HQ Hc w h Hw. specialize (Hc w h Hw). destruct (c w h) as [[w' h'] r]. destruct Hc as (Hw' & n & E & F & H).
  split; [done|]. exists n. split_and!; auto.
Qed.
Lemma task_reading {X} (f : World A → X) : task_ok (λ x new, new = [] ∧ ∃ w, I w ∧ x = f w) (reading f).
Proof. intros w h Hw. split; [done|]. exists []. rewrite app_nil_r. split_and!; [done..|]. intros ? [= <-]. eauto. Qed.
Lemma task_await : task_ok (λ _ new, new = []) await.
Proof using I_meanwhile. intros w h Hw. split; [auto|]. exists []. rewrite app_nil_r. by split_and!. Qed.
(** The wait after a hand-over. *)
Lemma task_then_await (Q : list Sent → Prop) c : task_ok (λ _ : (), Q) c → task_ok (λ _ : (), Q) (bind c (λ _, await)).
Proof using I_meanwhile.
  intros Hc. eapply task_bind; [exact Hc|]. cbn. intros _ n Hn. eapply task_mono; [|apply task_await].
  intros _ n' ->. by rewrite app_nil_r.
Qed.
Lemma task_sealing {X} (r : result X CryptoError) : task_ok (λ x new, new = [] ∧ r = Ok x) (sealing r).
Proof.
  intros w h Hw. split; [done|]. exists []. rewrite app_nil_r. split_and!; [done..|]. destruct r; [|done]. by intros ? [= <-].
Qed.
Lemma task_handing ms :
  (∀ m, m ∈ ms → (∀ w, I w → app_can_read_content (wo_app w) = false) → sealed m.2 = true) →
  task_ok (λ _ new, ∀ peer secret, opened peer secret new = omap (open_delta secret) (addressed peer ms)) (handing ms).
Proof.
  intros Hms w h Hw. unfold handing, publish_targeted_messages. destruct (targeted_loop ms [] h) as [h' r] eqn:E.
  apply targeted_loop_spec in E as (bs & rest & Hs & Hc & Hr & HF); [|left; cbn; lia].
  split; [done|]. exists (map batch bs). split_and!; [done| |].
  - apply Forall_map, Forall_forall. intros b Hb Hpriv. cbn. apply forallb_forall. intros m Hm.
    apply Hms; [|done]. change ms with ([] ++ ms)%list. rewrite <- Hc. apply elem_of_app. left.
    apply list_elem_of_In, in_concat. exists b. split; [by apply list_elem_of_In|done].
  - intros [] ->. rewrite (Hr eq_refl), app_nil_r in Hc. cbn in Hc. rewrite <- Hc. intros peer secret.
    unfold opened. f_equal. clear. induction bs as [|b bs IH]; [done|].
    cbn [map concat for_peer batch]. by rewrite IH, addressed_app.
Qed.

(** A surface that watches a thread: it is online, bound to a paired device with that secret,
    and the thread is one it wants. *)
Record watching (th peer secret : string) (w : World A) : Prop := {
  wa_online : peer ∈ sf_online_surface_peer_ids (surfaces_of w);
  wa_device : ∃ dev d, sf_online_surface_peer_devices (surfaces_of w) !! peer = Some dev ∧
    sf_paired_devices (surfaces_of w) !! dev = Some d ∧ pd_payload_secret d = secret ∧
    target_wants th (surfaces_of w) (pd_device_id d, peer, secret) = true
}.

Definition of_peer (peer : string) (t : BrokerTarget) : bool := bool_decide (t.1.2 = peer).

Lemma targets_of_peer th peer secret w :
  watching th peer secret w →
  ∃ t, filter (λ t, of_peer peer t = true) (broker_targets (surfaces_of w)) = [t] ∧ t.2 = secret ∧
    target_wants th (surfaces_of w) t = true.
Proof.
  intros [Ho (dev & d & Hdev & Hd & Hs & Ht)]. exists (pd_device_id d, peer, secret). split_and!; [|done..].
  unfold broker_targets.
  match goal with |- context [omap ?g ?e] => set (f := g); set (l := e) end.
  assert (NoDup l) as Hnd by apply NoDup_elements. assert (peer ∈ l) as Hp by by apply elem_of_elements.
  assert (f peer = Some (pd_device_id d, peer, secret)) as Hf.
  { unfold f. rewrite Hdev. cbn [mbind option_bind]. rewrite Hd. cbn [mbind option_bind]. by rewrite Hs. }
  assert (∀ q t, f q = Some t → t.1.2 = q) as Hq.
  { intros q t. unfold f. destruct (_ !! q) as [dv|]; [|done]. cbn [mbind option_bind]. destruct (_ !! dv); [|done]. by intros [= <-]. }
  clearbody l f. clear -Hnd Hp Hf Hq. induction l as [|q l IH]; [by apply not_elem_of_nil in Hp|].
  apply NoDup_cons in Hnd as [Hn Hnd]. cbn [omap list_omap].
  assert (q ≠ peer → ∀ t, f q = Some t → of_peer peer t = false) as Hnot.
  { intros Hne t Ht. unfold of_peer. rewrite (Hq _ _ Ht). by apply bool_decide_eq_false. }
  destruct (decide (q = peer)) as [->|Hne].
  - rewrite Hf. rewrite filter_cons_True by (unfold of_peer; by rewrite bool_decide_eq_true). f_equal.
    clear -Hn Hq. induction l as [|q l IH]; [done|]. apply not_elem_of_cons in Hn as [Hne Hn]. cbn [omap list_omap].
    destruct (f q) as [t|] eqn:E; [|by apply IH]. rewrite filter_cons_False; [by apply IH|].
    unfold of_peer. rewrite bool_decide_eq_true, (Hq _ _ E). congruence.
  - apply elem_of_cons in Hp as [->|Hp]; [done|]. destruct (f q) as [t|] eqn:E; [|by apply IH].
    rewrite filter_cons_False; [by apply IH|]. by rewrite (Hnot Hne t eq_refl).
Qed.

(** Every target of the peer has its secret; exactly one of those that watch is the peer's. *)
Lemma targets_watching th peer secret w :
  watching th peer secret w →
  (∀ th' t, t ∈ broker_targets_for_thread th' (surfaces_of w) → t.1.2 = peer → t.2 = secret) ∧
  length (filter (λ t, of_peer peer t = true) (broker_targets_for_thread th (surfaces_of w))) = 1%nat.
Proof.
  intros Hw. destruct (targets_of_peer _ _ _ _ Hw) as (t & Hf & Hs & Ht). unfold broker_targets_for_thread. split.
  - intros th' t' [_ Hin]%list_elem_of_filter Hp.
    assert (t' ∈ filter (λ t, of_peer peer t = true) (broker_targets (surfaces_of w))) as H.
    { apply list_elem_of_filter. split; [|done]. by apply bool_decide_eq_true. }
    rewrite Hf in H. apply list_elem_of_singleton in H as ->. done.
  - set (P1 := λ t, of_peer peer t = true) in *. set (P2 := λ t, target_wants th _ t = true).
    rewrite (list_filter_filter P1 P2), (list_filter_iff _ (λ t, P2 t ∧ P1 t)) by (intros; tauto).
    rewrite <- (list_filter_filter P2 P1), Hf. by rewrite filter_cons_True.
Qed.

(** ** Deltas reach those who watch *)

(** What was handed over tells a surface that watches a thread throughout what [ds] does. *)
Definition told (ds : list PendingTranscriptDelta) (new : list Sent) : Prop := ∀ th peer secret,
  (∀ w, I w → watching th peer secret w ∧ ∀ p, str_len (drawn_nonce w p) = 24) → Forall delta_ok ds →
  tells th (opened peer secret new) ds.

Lemma told_nil : told [] [].
Proof. by intros th peer secret _ _. Qed.
Lemma told_app a b n1 n2 : told a n1 → told b n2 → told (a ++ b) (n1 ++ n2).
Proof.
  intros Ha Hb th peer secret Hw [Fa Fb]%Forall_app. rewrite opened_app.
  by rewrite (Ha th peer secret Hw Fa), (Hb th peer secret Hw Fb).
Qed.
Lemma told_nothing new : (∀ peer secret, opened peer secret new = []) → told [] new.
Proof. intros H th peer secret _ _. by rewrite H. Qed.

(** One delta, read once per target of the peer. *)
Lemma told_one d new w0 :
  I w0 →
  (∀ peer secret, (∀ w p, I w → str_len (drawn_nonce w p) = 24) → delta_ok d →
    let targets := broker_targets_for_thread (td_thread_id d) (surfaces_of w0) in
    (∀ t, t ∈ targets → t.1.2 = peer → t.2 = secret) →
    opened peer secret new = replicate (length (filter (λ t, of_peer peer t = true) targets)) d) →
  told [d] new.
Proof.
  intros Hw0 Hop th peer secret Hw [Hd _]%Forall_cons. destruct (Hw w0 Hw0) as [Hwatch Hn].
  destruct (targets_watching _ _ _ _ Hwatch) as [Hsec Hlen].
  rewrite Hop; [|intros w p Hi; by apply Hw|done|by apply Hsec].
  destruct (decide (td_thread_id d = th)) as [->|Hth]; [by rewrite Hlen|].
  assert (∀ n, deltas_of th (replicate n d) = []) as Hnil.
  { intros n. induction n as [|n IH]; [done|]. cbn [replicate]. by rewrite deltas_of_cons, decide_False. }
  assert (deltas_of th [d] = []) as Hnil' by apply (Hnil 1%nat).
  constructor; intros x; rewrite Hnil, ?Hnil'; done.
Qed.

Lemma open_plain_targets peer secret d (targets : list BrokerTarget) :
  omap (open_delta secret) (addressed peer (map (λ t : BrokerTarget, (t.1.2, delta_payload d)) targets)) =
  replicate (length (filter (λ t, of_peer peer t = true) targets)) d.
Proof.
  induction targets as [|t targets IH]; [done|]. cbn [map]. change (?m :: ?l) with ([m] ++ l)%list at 1.
  rewrite addressed_app, omap_app, IH, filter_cons. unfold addressed. cbn [omap list_omap fst snd].
  destruct (decide (t.1.2 = peer)) as [E|E].
  - rewrite decide_True by (by apply bool_decide_eq_true). cbn [omap list_omap]. by rewrite open_plain.
  - rewrite decide_False; [done|]. intros ?%bool_decide_eq_true. done.
Qed.

Lemma seal_for_opened peer secret d nonce targets ms :
  delta_ok d → (∀ p, str_len (nonce p) = 24) → (∀ t, t ∈ targets → t.1.2 = peer → t.2 = secret) →
  seal_for nonce (delta_value d) OEncryptedTranscriptDelta targets = Ok ms →
  omap (open_delta secret) (addressed peer ms) = replicate (length (filter (λ t, of_peer peer t = true) targets)) d.
Proof using TL SL.
  intros Hd Hn. revert ms. induction targets as [|[[dev p] sec] targets IH]; intros ms Hsec E; cbn [seal_for] in E; [by simplify_eq|].
  destruct (encrypt_json sec (nonce p) (delta_value d)) as [env|] eqn:Ee; [|done].
  destruct (seal_for _ _ _ targets) as [ms'|]; [|done]. injection E as <-.
  change (?m :: ms') with ([m] ++ ms')%list. rewrite addressed_app, omap_app, (IH ms'); [|intros t Ht; apply Hsec; by right|done].
  rewrite filter_cons. unfold addressed. cbn [omap list_omap fst snd]. destruct (decide (p = peer)) as [->|E].
  - rewrite decide_True by (by apply bool_decide_eq_true). cbn [omap list_omap].
    assert (sec = secret) as -> by (by apply (Hsec (dev, peer, sec)); [left|]).
    by rewrite (open_sealed _ _ _ _ _ _ Hd (Hn peer) Ee).
  - rewrite decide_False; [done|]. intros ?%bool_decide_eq_true. done.
Qed.

Lemma seal_for_sealed nonce v pl targets ms m :
  (∀ p d e, sealed (pl p d e) = true) → seal_for nonce v pl targets = Ok ms → m ∈ ms → sealed m.2 = true.
Proof.
  intros Hpl. revert ms. induction targets as [|[[dev p] sec] targets IH]; intros ms E Hm; cbn [seal_for] in E.
  - injection E as <-. by apply not_elem_of_nil in Hm.
  - destruct (encrypt_json _ _ _) as [env|]; [|done]. destruct (seal_for _ _ _ targets) as [ms'|]; [|done]. injection E as <-.
    apply elem_of_cons in Hm as [->|Hm]; [apply Hpl|by eapply IH].
Qed.

Lemma publish_delta_task d : task_ok (λ _ new, told [d] new) (publish_transcript_delta d).
Proof using TL SL I_meanwhile.
  unfold publish_transcript_delta. eapply task_bind; [apply task_reading|]. intros targets n0 [-> (w0 & Hw0 & ->)].
  case_bool_decide as Hnil.
  { apply task_ret. apply (told_one _ _ w0 Hw0). intros peer secret _ _ targets _. unfold targets. by rewrite Hnil. }
  eapply task_bind; [apply task_await|]. intros _ n1 ->. eapply task_bind; [apply task_reading|]. intros can n2 [-> (w1 & Hw1 & ->)].
  eapply task_bind; [apply task_reading|]. intros nonce n3 [-> (w2 & Hw2 & ->)].
  eapply task_bind; [apply task_sealing|]. intros ms n4 [-> Hms]. unfold build_transcript_delta_messages in Hms.
  apply task_then_await. eapply task_mono; [|apply task_handing].
  - cbn [app]. intros _ n5 Hn5. apply (told_one _ _ w0 Hw0). intros peer secret Hlen Hd targets Hsec.
    rewrite Hn5. destruct (app_can_read_content _).
    + injection Hms as <-. apply open_plain_targets.
    + eapply seal_for_opened; [done|intros p; apply (Hlen w2 p Hw2)|exact Hsec|exact Hms].
  - intros m Hm Hpriv. rewrite (Hpriv w1 Hw1) in Hms.
    eapply seal_for_sealed; [|exact Hms|exact Hm]. done.
Qed.

Lemma publish_each_task ds : task_ok (λ _ new, told ds new) (publish_each ds).
Proof using TL SL I_meanwhile.
  induction ds as [|d ds IH]; cbn [publish_each]; [apply task_ret, told_nil|].
  eapply task_bind; [apply publish_delta_task|]. intros [] n1 H1. eapply task_mono; [|apply IH].
  intros [] n2 H2. by apply (told_app [d]).
Qed.

(** A batch tells what the deltas tell, together with those it gives back. *)
Definition told_but (rest ds : list PendingTranscriptDelta) (new : list Sent) : Prop := ∀ th peer secret,
  (∀ w, I w → watching th peer secret w ∧ ∀ p, str_len (drawn_nonce w p) = 24) → Forall delta_ok ds →
  tells th (opened peer secret new ++ rest) ds ∧ Forall delta_ok rest.

Lemma told_but_all ds new : told_but [] ds new → told ds new.
Proof. intros H th peer secret Hw F. destruct (H th peer secret Hw F) as [H' _]. by rewrite app_nil_r in H'. Qed.
Lemma told_but_trans rest1 rest2 ds n1 n2 :
  told_but rest1 ds n1 → told_but rest2 rest1 n2 → told_but rest2 ds (n1 ++ n2).
Proof.
  intros H1 H2 th peer secret Hw F. destruct (H1 th peer secret Hw F) as [T1 F1].
  destruct (H2 th peer secret Hw F1) as [T2 F2]. split; [|done]. rewrite opened_app, <- app_assoc.
  etrans; [|exact T1]. by rewrite T2.
Qed.

Lemma batch_task ds :
  task_ok (λ rest new, told_but rest ds new ∧ length rest ≤ pred (length ds))%nat (publish_transcript_delta_batch ds).
Proof using TL SL I_meanwhile.
  unfold publish_transcript_delta_batch. set (ds' := coalesce_transcript_deltas ds).
  eapply task_bind; [apply publish_each_task|]. intros [] n1 H1. apply task_ret. rewrite app_nil_r. split.
  - intros th peer secret Hw F. apply coalesce_ok in F. fold ds' in F.
    rewrite <- (take_drop MAX_DELTAS_PER_DRAIN ds') in F. apply Forall_app in F as [F1 F2]. split; [|done].
    rewrite (H1 th peer secret Hw F1), take_drop. apply coalesce_tells.
  - rewrite length_drop. pose proof (coalesce_length ds). unfold MAX_DELTAS_PER_DRAIN. fold ds' in H. lia.
Qed.

(** The rounds suffice: a flush that succeeds leaves nothing. *)
Lemma flush_rounds_task fuel : ∀ ds, (length ds ≤ fuel)%nat → task_ok (λ _ new, told ds new) (flush_rounds fuel ds).
Proof using TL SL I_meanwhile.
  induction fuel as [|fuel IH]; intros [|d ds] Hlen; cbn [flush_rounds]; try (cbn in Hlen; lia); try apply task_ret, told_nil.
  eapply task_bind; [apply batch_task|]. intros rest n1 [H1 Hl]. eapply task_mono; [|apply (IH rest); cbn in *; lia].
  intros [] n2 H2. apply told_but_all. eapply told_but_trans; [exact H1|]. intros th peer secret Hw F.
  rewrite app_nil_r. split; [by apply H2|done].
Qed.
Lemma flush_task ds : task_ok (λ _ new, told ds new) (flush_pending_transcript_deltas ds).
Proof using TL SL I_meanwhile. by apply flush_rounds_task. Qed.

(** ** Everything else tells no delta *)
Definition quiet (new : list Sent) : Prop := ∀ peer secret, opened peer secret new = [].
Lemma quiet_nil : quiet []. Proof. done. Qed.
Lemma quiet_app a b : quiet a → quiet b → quiet (a ++ b).
Proof. intros Ha Hb peer secret. by rewrite opened_app, Ha, Hb. Qed.
Lemma quiet_each new : Forall (λ s, quiet [s]) new → quiet new.
Proof. induction 1 as [|s new Hs _ IH]; [done|]. by apply (quiet_app [s]). Qed.
Lemma reply_shows_nothing p : reply p = true → shows_session p = false.
Proof. by destruct p. Qed.
Lemma unwrapped_snapshotless s : unwrapped s = true → snapshotless s.
Proof.
  unfold snapshotless. destruct s as [p|ps i w]; cbn; [apply reply_shows_nothing|]. induction ps as [|p ps IH]; [done|]. cbn.
  intros [Hp Hps]%andb_true_iff. by rewrite (reply_shows_nothing p Hp), (IH Hps).
Qed.
Lemma unwrapped_quiet s : unwrapped s = true → quiet [s].
Proof. intros Hs peer secret. by destruct s as [[]|]. Qed.
Lemma quiet_told_but rest new : quiet new → told_but rest rest new.
Proof. intros Hq th peer secret _ F. by rewrite Hq. Qed.

(** A pairing result: one frame, for one peer, sealed with the secret of the pairing. *)
Definition result_frame (r : PendingPairingResult) (s : Sent) : Prop := ∃ nonce envelope,
  encrypt_json (res_pairing_secret r) nonce (pairing_result_value r) = Ok envelope ∧
  s = batch [(res_target_peer_id r, OEncryptedPairingResult (res_pairing_id r) (res_target_peer_id r) envelope)].

Lemma publish_pairing_result_spec r w h :
  let '(w', h', x) := publish_pairing_result r w h in
  handed_over (result_frame r) h h' ∧
  (x = Ok () → w' = meanwhile w ∧ ∃ s, result_frame r s ∧ hd_sent h' = (hd_sent h ++ [s])%list) ∧ (is_ok x = false → w' = w).
Proof.
  unfold publish_pairing_result, bind, reading, sealing, handing, await, pairing_result_targeted_message.
  destruct (encrypt_json _ _ _) as [envelope|e] eqn:E; cbn beta iota; [|done].
  unfold publish_targeted_messages. cbn [targeted_loop app bool_decide decide_rel]. rewrite bool_decide_eq_true_2 by done. cbn [negb andb].
  set (ms := [_]). assert (result_frame r (batch ms)) as Hf by (eexists _, _; split; [exact E|done]).
  destruct (publish_payload (OTargetedMessages ms) h) as [h' x] eqn:Ep.
  destruct (publish_payload_spec _ _ _ _ Ep) as [[-> Hs]|[-> Hs]]; cbn beta iota.
  - split_and!; [|intros _; split; [done|eauto]|done]. exists [batch ms]. by split; [|constructor].
  - split_and!; [|done..]. exists []. by rewrite app_nil_r.
Qed.

Lemma result_frame_allowed r s : result_frame r s → allowed s ∧ quiet [s] ∧ snapshotless s.
Proof.
  intros (nonce & e & _ & ->). split_and!; [done| |done]. intros peer secret. unfold opened, addressed. cbn. by destruct (decide _).
Qed.

Lemma pairing_result_task r : task_ok (λ _ new, quiet new) (publish_pairing_result r).
Proof using I_meanwhile.
  intros w h Hw. pose proof (publish_pairing_result_spec r w h) as H.
  destruct (publish_pairing_result r w h) as [[w' h'] x]. destruct H as (Hh & Hok & Herr). split.
  - destruct x as [[]|]; [destruct (Hok eq_refl) as [-> _]; auto|by rewrite Herr].
  - destruct Hh as (new & E & F). exists new. split_and!; [done| |].
    + eapply Forall_impl; [exact F|]. intros s Hs. by apply (result_frame_allowed r).
    + intros _ _. apply quiet_each. eapply Forall_impl; [exact F|]. intros s Hs. by apply (result_frame_allowed r).
Qed.

(** The deltas of a queue. *)
Definition queued_deltas (q : list BrokerPendingMessage) : list PendingTranscriptDelta :=
  omap (λ m, match m with TranscriptDelta d => Some d | PairingResult _ => None end) q.

Lemma publish_results_task q : task_ok (λ ds new, ds = queued_deltas q ∧ quiet new) (publish_results q).
Proof using I_meanwhile.
  induction q as [|[r|d] q IH]; cbn [publish_results]; [by apply task_ret| |].
  - eapply task_bind; [apply pairing_result_task|]. cbn. intros _ n1 H1. eapply task_mono; [|apply IH].
    cbn. intros ds n2 [-> H2]. split; [done|by apply quiet_app].
  - eapply task_bind; [apply IH|]. cbn. intros ds n1 [-> H1]. apply task_ret. by rewrite app_nil_r.
Qed.

Lemma seal_for_quiet nonce v pl targets ms peer secret :
  (∀ p d e, open_delta secret (pl p d e) = None) → seal_for nonce v pl targets = Ok ms →
  omap (open_delta secret) (addressed peer ms) = [].
Proof.
  intros Hpl. revert ms. induction targets as [|[[dev p] sec] targets IH]; intros ms E; cbn [seal_for] in E; [by injection E as <-|].
  destruct (encrypt_json _ _ _) as [env|]; [|done]. destruct (seal_for _ _ _ targets) as [ms'|]; [|done]. injection E as <-.
  change (?m :: ms') with ([m] ++ ms')%list. rewrite addressed_app, omap_app, (IH ms' eq_refl).
  unfold addressed. cbn [omap list_omap fst snd]. destruct (decide _); [|done]. cbn [omap list_omap]. by rewrite Hpl.
Qed.

Lemma publish_snapshot_task : task_ok (λ _ new, quiet new) publish_snapshot.
Proof using I_meanwhile.
  unfold publish_snapshot. eapply task_bind; [apply task_reading|]. intros snapshot n0 [-> _].
  eapply task_bind; [apply task_await|]. intros _ n1 ->. eapply task_bind; [apply task_reading|]. intros can n2 [-> (w1 & Hw1 & ->)].
  destruct (app_can_read_content (wo_app w1)) eqn:Er.
  - apply task_then_await. intros w h Hw. destruct (publish_payload _ h) as [h' r] eqn:Ep.
    split; [done|]. destruct (publish_payload_spec _ _ _ _ Ep) as [[-> Hs]|[-> Hs]].
    + exists [SentNow (OSessionSnapshot (compacted_snapshot snapshot))]. split_and!; [done| |done].
      constructor; [|done]. intros Hpriv. by rewrite (Hpriv w1 Hw1) in Er.
    + exists []. by rewrite app_nil_r.
  - eapply task_bind; [apply task_await|]. intros _ n3 ->. eapply task_bind; [apply task_reading|]. intros targets n4 [-> _].
    eapply task_bind; [apply task_reading|]. intros nonce n5 [-> _].
    eapply task_bind; [apply task_sealing|]. intros ms n6 [-> Hms].
    apply task_then_await. eapply task_mono; [|apply task_handing].
    + cbn. intros _ n7 Hn7 peer secret. rewrite Hn7. eapply seal_for_quiet; [|exact Hms]. done.
    + intros m Hm _. eapply seal_for_sealed; [|exact Hms|exact Hm]. done.
Qed.

(** ** The arms *)
Context (I_drain : ∀ w, I w → I (on_surfaces drain_pending_broker_messages w).1).

(** A frame whose message leaves [I] as it is. *)
Definition keeps_frame (env : Env) (frame : option (option Frame)) : Prop := ∀ f m, frame = Some (Some f) →
  decode_server_frame f = Ok (Some m) → ∀ w h, I w → I (handle_server_message env m w h).1.1.
Definition keeps (e : SessionEvent) : Prop := match e with EvFrame _ env frame => keeps_frame env frame | _ => True end.

(** What every outcome of an arm hands over; of success, [Q]. *)
Definition arm_ok (Q : Session → list Sent → Prop) (h : Handle) (a : Arm) : Prop :=
  let '(s', w', h', r) := a in
  I w' ∧ ∃ new, hd_sent h' = (hd_sent h ++ new)%list ∧ Forall allowed new ∧ (r = Ok () → Q s' new).

Lemma arm_intro (Q : Session → list Sent → Prop) h s' w' h' r new :
  I w' → hd_sent h' = (hd_sent h ++ new)%list → Forall allowed new → (r = Ok () → Q s' new) → arm_ok Q h (s', w', h', r).
Proof. intros. split; [done|]. by exists new. Qed.
Lemma arm_still (Q : Session → list Sent → Prop) s w h r : I w → (r = Ok () → Q s []) → arm_ok Q h (s, w, h, r).
Proof. intros Hw HQ. split; [done|]. exists []. rewrite app_nil_r. by split_and!. Qed.

Lemma task_run {X} (Q : X → list Sent → Prop) c w h w' h' r :
  task_ok Q c → I w → c w h = (w', h', r) →
  I w' ∧ ∃ new, hd_sent h' = (hd_sent h ++ new)%list ∧ Forall allowed new ∧ ∀ x, r = Ok x → Q x new.
Proof. intros Hc Hw E. specialize (Hc w h Hw). by rewrite E in Hc. Qed.

(** A snapshot, after what waits if the gate lets it through. *)
Lemma decide_snapshot_arm now s w h :
  I w → arm_ok (λ s' new, told_but (se_deltas s') (se_deltas s) new) h (decide_snapshot now s w h).
Proof using TL SL I_meanwhile.
  intros Hw. unfold decide_snapshot. destruct (snapshot_publish_decision _ _ _) as [gate decision]. cbv zeta.
  change (se_deltas (s <| se_gate := gate |>)) with (se_deltas s). destruct decision as [| |deadline].
  - destruct (publish_snapshot w h) as [[w' h'] r] eqn:E.
    destruct (task_run _ _ _ _ _ _ _ publish_snapshot_task Hw E) as (Hw' & new & Es & F & HQ).
    eapply arm_intro; [done..|]. destruct r as [[]|]; [|done]. intros _. by apply quiet_told_but, (HQ ()).
  - destruct (flush_pending_transcript_deltas (se_deltas s) w h) as [[w1 h1] r1] eqn:E1.
    destruct (task_run _ _ _ _ _ _ _ (flush_task _) Hw E1) as (Hw1 & n1 & Es1 & F1 & HQ1).
    destruct r1 as [[]|]; [|by eapply arm_intro].
    destruct (publish_snapshot w1 h1) as [[w' h'] r] eqn:E.
    destruct (task_run _ _ _ _ _ _ _ publish_snapshot_task Hw1 E) as (Hw' & n2 & Es & F & HQ).
    apply (arm_intro _ _ _ _ _ _ (n1 ++ n2)); [done|by rewrite Es, Es1, app_assoc|by apply Forall_app|].
    destruct r as [[]|]; [|done]. intros _ th peer secret Hi F'. cbn [se_deltas]. rewrite app_nil_r, opened_app, (HQ () eq_refl).
    rewrite app_nil_r. split; [by apply (HQ1 () eq_refl)|done].
  - apply arm_still; [done|]. intros _. by apply quiet_told_but.
Qed.

Lemma drain_arm w h w' h' r :
  I w → drain_pending_broker_messages_for_publish w h = (w', h', r) →
  I w' ∧ ∃ new, hd_sent h' = (hd_sent h ++ new)%list ∧ Forall allowed new ∧
    ∀ ds, r = Ok ds → ds = queued_deltas (sf_pending_broker_messages (surfaces_of w)) ∧ quiet new.
Proof using I_meanwhile I_drain.
  intros Hw. unfold drain_pending_broker_messages_for_publish. specialize (I_drain w Hw).
  unfold on_surfaces, drain_pending_broker_messages in *. cbn [fst snd] in I_drain. intros E.
  by destruct (task_run _ _ _ _ _ _ _ (publish_results_task _) (I_meanwhile _ I_drain) E) as (Hw' & new & Es & F & HQ); eauto.
Qed.

Lemma on_changed_arm now s w h :
  I w → arm_ok (λ s' new, told_but (se_deltas s')
           (se_deltas s ++ queued_deltas (sf_pending_broker_messages (surfaces_of w))) new) h (on_changed now s w h).
Proof using TL SL I_meanwhile I_drain.
  intros Hw. unfold on_changed. destruct (drain_pending_broker_messages_for_publish w h) as [[w1 h1] r1] eqn:E1.
  destruct (drain_arm _ _ _ _ _ Hw E1) as (Hw1 & n1 & Es1 & F1 & HQ1).
  destruct r1 as [deltas|]; [|by eapply arm_intro]. destruct (HQ1 _ eq_refl) as [-> Hq].
  set (ds := queued_deltas _). set (s1 := match ds with [] => s | _ => _ end).
  assert (se_deltas s1 = se_deltas s ++ ds)%list as Hs1.
  { unfold s1. destruct ds as [|d ds]; [by rewrite app_nil_r|]. by case_bool_decide. }
  pose proof (decide_snapshot_arm now s1 w1 h1 Hw1) as Hd. unfold arm_ok in Hd.
  destruct (decide_snapshot now s1 w1 h1) as [[[s2 w2] h2] r2]. destruct Hd as (Hw2 & n2 & Es2 & F2 & HQ2).
  apply (arm_intro _ _ _ _ _ _ (n1 ++ n2)); [done|by rewrite Es2, Es1, app_assoc|by apply Forall_app|].
  intros ->. rewrite <- Hs1. eapply told_but_trans; [by apply quiet_told_but|]. by apply HQ2.
Qed.

Lemma on_delta_timer_arm now s w h :
  I w → arm_ok (λ s' new, told_but (se_deltas s') (se_deltas s) new) h (on_delta_timer now s w h).
Proof using TL SL I_meanwhile.
  intros Hw. unfold on_delta_timer. destruct (publish_transcript_delta_batch (se_deltas s) w h) as [[w1 h1] r1] eqn:E1.
  destruct (task_run _ _ _ _ _ _ _ (batch_task _) Hw E1) as (Hw1 & n1 & Es1 & F1 & HQ1).
  destruct r1 as [rest|]; [|by eapply arm_intro]. eapply arm_intro; [done..|]. intros _.
  destruct (HQ1 rest eq_refl) as [H _]. by destruct rest.
Qed.

(** A message of the broker: replies, or one pairing result. *)
Lemma message_handed env m w h :
  I w → ∃ new, hd_sent (handle_server_message env m w h).1.2 = (hd_sent h ++ new)%list ∧
    Forall allowed new ∧ quiet new ∧ Forall snapshotless new.
Proof.
  intros Hw. assert (∀ P h', (∀ s, P s → allowed s ∧ quiet [s] ∧ snapshotless s) → handed_over P h h' →
    ∃ new, hd_sent h' = (hd_sent h ++ new)%list ∧ Forall allowed new ∧ quiet new ∧ Forall snapshotless new) as Hover.
  { intros P h' HP (new & E & F). exists new. split_and!; [done| |apply quiet_each|];
      (eapply Forall_impl; [exact F|]); intros s Hs; by apply HP. }
  assert (∃ new, hd_sent h = (hd_sent h ++ new)%list ∧ Forall allowed new ∧ quiet new ∧ Forall snapshotless new) as Hsame
    by (exists []; by rewrite app_nil_r).
  destruct m as [v ? ? ?|? kind peer|? from role payload|? ?]; cbn [handle_server_message fst snd]; try done.
  - destruct (ps_role peer); [done|]. by destruct (on_surfaces _ w).
  - destruct role; [done|]. unfold handle_surface_payload.
    destruct (parse_inbound_payload payload) as [[[pairing_id envelope|m]|]|]; [| |done..].
    + unfold handle_pairing_request. destruct (pairing_op _ w) as [w1 [secret|]]; [|done].
      destruct (decrypt_json _ _ _) as [request|]; [|done]. destruct (verify_pairing_request_proof _ _ _ _); [|done].
      destruct (pairing_op _ w1) as [w2 [[result|]|]]; [|by destruct (pairing_op _ w2)|done].
      pose proof (publish_pairing_result_spec result w2 h) as Hp.
      destruct (publish_pairing_result result w2 h) as [[w3 h3] x]. destruct Hp as [Hp _].
      eapply Hover; [|exact Hp]. apply result_frame_allowed.
    + pose proof (action_handed env from m w h) as Ha. destruct (handle_action env from m w h) as [[w1 h1] x].
      eapply Hover; [|exact Ha]. intros s [Hu Hs]. split_and!; [intros Hpriv; auto|by apply unwrapped_quiet|by apply unwrapped_snapshotless].
Qed.

Lemma on_frame_arm env frame s w h :
  keeps_frame env frame → I w → arm_ok (λ s' new, told_but (se_deltas s') (se_deltas s) new) h (on_frame env frame s w h).
Proof.
  intros Hk Hw. assert (∀ s' r, se_deltas s' = se_deltas s → arm_ok (λ s' new, told_but (se_deltas s') (se_deltas s) new) h (s', w, h, r)) as Hstill.
  { intros s' r ->%eq_sym. apply arm_still; [done|]. intros _. by apply quiet_told_but. }
  assert (∀ f m, frame = Some (Some f) → decode_server_frame f = Ok (Some m) →
    arm_ok (λ s' new, told_but (se_deltas s') (se_deltas s) new) h
            (let '(w', h', r) := handle_server_message env m w h in (s, w', h', r))) as Hmsg.
  { intros f m Hf Hm. destruct (message_handed env m w h Hw) as (new & E & F & Hq & _). pose proof (Hk f m Hf Hm w h Hw) as Hw'.
    destruct (handle_server_message env m w h) as [[w' h'] r]. eapply arm_intro; [done..|]. intros _. by apply quiet_told_but. }
  unfold on_frame. destruct frame as [[frame|]|]; [|by apply Hstill..].
  destruct frame as [text| |pong| |]; [|by apply Hstill| |by apply Hstill..].
  - specialize (Hmsg (FrText text)). destruct (decode_server_frame (FrText text)) as [[m|]|e]; [by apply Hmsg|by apply Hstill..].
  - case_bool_decide; by apply Hstill.
Qed.

(** *** Runs *)
Fixpoint session_run (live : BrokerLivenessConfig) (es : list SessionEvent) (s : Session) (w : World A) (h : Handle) : option Arm :=
  match es with
  | [] => Some (s, w, h, Ok ())
  | e :: es =>
      match session_step live e s w h with
      | Some (s, w, h, Ok _) => session_run live es s w h
      | Some (s, w, h, Err end_) => match es with [] => Some (s, w, h, Err end_) | _ => None end
      | None => None
      end
  end.

(** The deltas that an event, and a run, take from the queue. *)
Definition drains (e : SessionEvent) (w : World A) : list PendingTranscriptDelta :=
  match e with EvChanged _ => queued_deltas (sf_pending_broker_messages (surfaces_of (meanwhile w))) | _ => [] end.
Fixpoint drained (live : BrokerLivenessConfig) (es : list SessionEvent) (s : Session) (w : World A) (h : Handle) :
    list PendingTranscriptDelta :=
  match es with
  | [] => []
  | e :: es =>
      match session_step live e s w h with
      | Some (s', w', h', Ok _) => drains e w ++ drained live es s' w' h'
      | _ => drains e w
      end
  end.

Lemma session_step_arm live e s w h a :
  keeps e → I w → session_step live e s w h = Some a →
  arm_ok (λ s' new, told_but (se_deltas s') (se_deltas s ++ drains e w) new) h a.
Proof using TL SL I_meanwhile I_drain.
  intros Hk Hw%I_meanwhile. unfold session_step.
  assert (∀ s' r, se_deltas s' = se_deltas s → drains e w = [] →
    arm_ok (λ s' new, told_but (se_deltas s') (se_deltas s ++ drains e w) new) h (s', meanwhile w, h, r)) as Hstill.
  { intros s' r Hs ->. rewrite app_nil_r. apply arm_still; [done|]. intros _. rewrite Hs. by apply quiet_told_but. }
  destruct e as [|now| |now|now|now taken|now|now env frame]; cbn [drains] in *; cbv zeta; rewrite ?app_nil_r in *;
    try (destruct (on_ping_timer live now taken s) as [s1 r1] eqn:Ep); try case_match; intros [= <-]; try by apply Hstill.
  - by apply on_changed_arm.
  - by apply on_delta_timer_arm.
  - by apply decide_snapshot_arm.
  - apply Hstill; [|done]. revert Ep. unfold on_ping_timer.
    destruct (se_awaiting_pong s); [by intros [= <- <-]|]. cbv zeta. destruct (negb taken); by intros [= <- <-].
  - by apply on_frame_arm.
Qed.

Lemma told_but_more rest1 rest2 a b n1 n2 :
  told_but rest1 a n1 → told_but rest2 (rest1 ++ b) n2 → told_but rest2 (a ++ b) (n1 ++ n2).
Proof.
  intros H1 H2 th peer secret Hw [Fa Fb]%Forall_app. destruct (H1 th peer secret Hw Fa) as [T1 F1].
  destruct (H2 th peer secret Hw) as [T2 F2]; [by apply Forall_app|]. split; [|done].
  rewrite opened_app, <- app_assoc, T2, app_assoc. by rewrite T1.
Qed.

Lemma session_run_arm live es : ∀ s w h a,
  Forall keeps es → I w → session_run live es s w h = Some a →
  arm_ok (λ s' new, told_but (se_deltas s') (se_deltas s ++ drained live es s w h) new) h a.
Proof using TL SL I_meanwhile I_drain.
  induction es as [|e es IH]; intros s w h a Hk Hw E; cbn [session_run drained] in *.
  { injection E as <-. rewrite app_nil_r. apply arm_still; [done|]. intros _. by apply quiet_told_but. }
  destruct (session_step live e s w h) as [[[[s1 w1] h1] r1]|] eqn:Es; [|done].
  apply Forall_cons in Hk as [Hke Hk]. pose proof (session_step_arm _ _ _ _ _ _ Hke Hw Es) as (Hw1 & n1 & E1 & F1 & HQ1).
  destruct r1 as [[]|e1]; [|destruct es; [injection E as <-|done]; by eapply arm_intro].
  specialize (IH s1 w1 h1 a Hk Hw1 E). destruct a as [[[s2 w2] h2] r2]. destruct IH as (Hw2 & n2 & E2 & F2 & HQ2).
  apply (arm_intro _ _ _ _ _ _ (n1 ++ n2)); [done|by rewrite E2, E1, app_assoc|by apply Forall_app|].
  intros Hr. rewrite app_assoc. eapply told_but_more; [by apply HQ1|by apply HQ2].
Qed.
End Reading.

(** ** The promises *)
Section Promises.
Context {A : Type} {RA : RelayApp A} {SA : SessionApp A} {TC : TicketCrypto} {TL : TicketLaws} {DC : DeviceCrypto} {SB : SecretBox}.
Context {SL : SecretBoxLaws} {FS : FileSystem} {ED : Ed25519} {VS : ViewSerde} {SS : SnapshotSizes} {RS : RequestSerde}.
Implicit Types w : World A.

(** What the rest of the relay, the draining of the queue and the frames of a run keep. *)
Record kept (I : World A → Prop) (es : list SessionEvent) : Prop := {
  kept_meanwhile : ∀ w, I w → I (meanwhile w);
  kept_drain : ∀ w, I w → I (on_surfaces drain_pending_broker_messages w).1;
  kept_frames : Forall (keeps I) es
}.

(** C37: who watches is told.  Take a surface that throughout a stretch of a session is online,
    bound to a paired device, and watches a thread, while other surfaces come, go and act, the
    relay's state changes between any two steps, and both merging and batching happen.  The
    deltas of that thread that it reads (sealed or not) in the frames handed to the writer,
    followed by those that wait for the next batch, tell it exactly what the deltas taken from
    the relay's queue do: the same text in the same order, nothing lost, nothing twice. *)
Theorem watchers_are_told (I : World A → Prop) th peer secret live es s w h s' w' h' :
  kept I es → (∀ w, I w → watching th peer secret w ∧ ∀ p, str_len (drawn_nonce w p) = 24) → I w →
  session_run live es s w h = Some (s', w', h', Ok ()) →
  Forall delta_ok (se_deltas s ++ drained live es s w h) →
  ∃ new, hd_sent h' = (hd_sent h ++ new)%list ∧
    tells th (opened peer secret new ++ se_deltas s') (se_deltas s ++ drained live es s w h).
Proof using TL SL.
  intros [Hm Hd Hf] Hwatch Hw E F. destruct (session_run_arm I Hm Hd live es s w h _ Hf Hw E) as (_ & new & Es & _ & HQ).
  exists new. split; [done|]. by apply (HQ eq_refl th peer secret Hwatch F).
Qed.

(** *** Privacy *)
Lemma all_kept es : kept (λ _, True) es.
Proof. split; [done..|]. apply Forall_forall. by intros [] _. Qed.

Lemma session_start_handed env live now welcome w h :
  handed_over (allowed (λ _, True)) h (session_start env live now welcome w h).1.2.
Proof using TL SL.
  unfold session_start. destruct welcome as [[frame|]|]; [|done..].
  destruct (decode_server_frame frame) as [[[v ? ? peers|? ? ?|? ? ? ?|? ?]|]|]; try done.
  destruct (validate_broker_protocol_version v); [|done]. cbv zeta.
  set (w0 := meanwhile (surfaces_op _ _)). clearbody w0.
  assert (task_ok (λ _, True) (λ _ _, True) publish_pending_broker_messages) as Hp.
  { unfold publish_pending_broker_messages. eapply (task_bind _ (λ _ _, True)).
    - intros w1 h1 Hw1. destruct (drain_pending_broker_messages_for_publish w1 h1) as [[w2 h2] r] eqn:E.
      destruct (drain_arm (λ _, True) (λ _ _, Logic.I) (λ _ _, Logic.I) _ _ _ _ _ Hw1 E) as (Hw2 & new & Es & F & _).
      split; [done|]. exists new. by split_and!.
    - intros ds n1 _. eapply task_mono; [|apply publish_each_task; done]. done. }
  specialize (Hp w0 h Logic.I). destruct (publish_pending_broker_messages w0 h) as [[w1 h1] [[]|e]].
  - destruct Hp as (_ & n1 & E1 & F1 & _).
    pose proof (publish_snapshot_task (λ _, True) (λ _ _, Logic.I) w1 h1 Logic.I) as Hs.
    destruct (publish_snapshot w1 h1) as [[w2 h2] r]. destruct Hs as (_ & n2 & E2 & F2 & _). cbn [fst snd].
    exists (n1 ++ n2)%list. rewrite E2, E1, app_assoc. split; [done|by apply Forall_app].
  - destruct Hp as (_ & n1 & E1 & F1 & _). by exists n1.
Qed.

(** C38: private sessions hand over only what is sealed.  In a relay whose broker may not read
    content, everything a session hands to the writer, from the welcome on and whatever frames
    the surfaces send, however it ends, is sealed: snapshots, deltas, pairing results, replies,
    chunks and refusals. *)
Theorem private_sessions_are_sealed env live now welcome es s w h :
  (∀ a : A, app_can_read_content a = false) →
  handed_over (λ s, sealed_sent s = true) h (session_start env live now welcome w h).1.2 ∧
  match session_run live es s w h with
  | Some (_, _, h', _) => handed_over (λ s, sealed_sent s = true) h h'
  | None => True
  end.
Proof using TL SL.
  intros Hpriv. assert (∀ h', handed_over (allowed (λ _, True)) h h' → handed_over (λ s, sealed_sent s = true) h h') as Hall.
  { intros h' (new & E & F). exists new. split; [done|]. eapply Forall_impl; [exact F|]. intros x Hx. apply Hx. auto. }
  split; [apply Hall, session_start_handed|]. destruct (session_run live es s w h) as [a|] eqn:E; [|done].
  destruct (all_kept es) as [Hm Hd Hf]. pose proof (session_run_arm _ Hm Hd live es s w h a Hf Logic.I E) as Ha.
  destruct a as [[[s' w'] h'] r]. destruct Ha as (_ & new & Es & F & _). apply Hall. by exists new.
Qed.

(** *** Surfaces and the session *)

(** No surface ends a session.  Whatever a peer of the room sends or does there (a payload
    of another version, junk, an action that is refused or cannot be answered, a pairing that
    fails, joining, leaving), the session goes on, and its gate, its waiting deltas and its
    heartbeat are untouched; what is not a well-formed payload of a surface changes nothing at
    all.  *)
Theorem surfaces_do_not_end_sessions live now env frame message s w h :
  decode_server_frame frame = Ok (Some message) →
  match message with
  | SmMessage _ from role payload =>
      ∃ w' h', session_step live (EvFrame now env (Some (Some frame))) s w h = Some (s, w', h', Ok ()) ∧
        (role ≠ PeerSurface ∨ (∀ p, parse_inbound_payload payload ≠ Ok (Some p)) → w' = meanwhile w ∧ h' = h)
  | SmPresence _ _ peer =>
      ∃ w', session_step live (EvFrame now env (Some (Some frame))) s w h = Some (s, w', h, Ok ()) ∧
        (ps_role peer ≠ PeerSurface → w' = meanwhile w)
  | _ => True
  end.
Proof.
  intros Hd. assert (∀ a, session_step live (EvFrame now env (Some (Some frame))) s w h = a →
    a = Some (let '(w', h', r) := handle_server_message env message (meanwhile w) h in (s, w', h', r))) as Hstep.
  { intros a <-. unfold session_step, on_frame. destruct frame; by rewrite ?Hd. }
  destruct message as [| ? kind peer | ? from role payload |]; try done; rewrite (Hstep _ eq_refl); cbn [handle_server_message].
  - destruct (ps_role peer); [by eexists|]. destruct (on_surfaces _ _) as [w' b]. eexists. split; [done|]. by intros [].
  - destruct role; [by eexists _, _|]. unfold handle_surface_payload.
    destruct (parse_inbound_payload payload) as [[[pid env'|m]|]|e] eqn:Ep.
    + destruct (handle_pairing_request _ _ _ _ _ _) as [[w' h'] r]. eexists _, _. split; [done|].
      intros [Hr|Hp]; [by destruct Hr|by destruct (Hp _ eq_refl)].
    + destruct (handle_action _ _ _ _ _) as [[w' h'] r]. eexists _, _. split; [done|].
      intros [Hr|Hp]; [by destruct Hr|by destruct (Hp _ eq_refl)].
    + by eexists _, _.
    + by eexists _, _.
Qed.

(** *** Snapshots *)

(** The state as the rest of the relay makes it, some waits later. *)
Definition later w w' : Prop := ∃ n, w' = Nat.iter n meanwhile w.
#[export] Instance later_preorder : PreOrder later.
Proof. split; [by exists 0%nat|]. intros w1 w2 w3 (n & ->) (m & ->). exists (m + n)%nat. by rewrite Nat.iter_add. Qed.
Lemma later_meanwhile w : later w (meanwhile w).
Proof. by exists 1%nat. Qed.

(** The payloads a peer reads in some frames. *)
Definition read_by (peer : string) (sent : list Sent) : list OutboundBrokerPayload := concat (map (for_peer peer) sent).

(** The frames that show the surfaces the session as it was at [w0].  If the broker may read
    content it is one frame for the room.  Otherwise every surface of the room that is bound to
    a paired device reads it once, sealed with the secret of its device, and no one else does. *)
Definition snapshot_handed (w0 : World A) (new : list Sent) : Prop :=
  let snapshot := compacted_snapshot (world_snapshot w0) in
  if app_can_read_content (wo_app (meanwhile w0)) then new = [SentNow (OSessionSnapshot snapshot)]
  else
    let w2 := meanwhile (meanwhile w0) in
    let targets := broker_targets (surfaces_of w2) in
    Forall (λ s, ∃ ms, s = batch ms) new ∧
    (∀ dev peer secret, (dev, peer, secret) ∈ targets → ∃ envelope,
       encrypt_json secret (drawn_nonce w2 peer) (snapshot_value snapshot) = Ok envelope ∧
       read_by peer new = [OEncryptedSessionSnapshot peer dev envelope]) ∧
    (∀ peer, peer ∉ map (λ t : BrokerTarget, t.1.2) targets → read_by peer new = []).

Lemma omap_keys_NoDup {X Y} (f : X → option Y) (key : Y → X) l :
  NoDup l → (∀ x y, f x = Some y → key y = x) → NoDup (map key (omap f l)).
Proof.
  intros Hnd Hf. induction l as [|x l IH]; cbn [omap list_omap]; [constructor|]. apply NoDup_cons in Hnd as [Hn Hnd].
  destruct (f x) as [y|] eqn:E; [|by apply IH]. cbn [map]. constructor; [|by apply IH]. rewrite (Hf _ _ E).
  intros (y' & Ey & (x' & Hx & E')%list_elem_of_omap)%list_elem_of_fmap. apply Hf in E'. congruence.
Qed.
(** A peer is a target once. *)
Lemma targets_NoDup s : NoDup (map (λ t : BrokerTarget, t.1.2) (broker_targets s)).
Proof.
  apply omap_keys_NoDup; [apply NoDup_elements|]. intros q t. destruct (_ !! q) as [dv|]; [|done]. cbn [mbind option_bind].
  destruct (_ !! dv); [|done]. by intros [= <-].
Qed.

Lemma seal_for_addressed nonce v pl targets ms :
  NoDup (map (λ t : BrokerTarget, t.1.2) targets) → seal_for nonce v pl targets = Ok ms →
  (∀ dev peer secret, (dev, peer, secret) ∈ targets → ∃ envelope,
     encrypt_json secret (nonce peer) v = Ok envelope ∧ addressed peer ms = [pl peer dev envelope]) ∧
  (∀ peer, peer ∉ map (λ t : BrokerTarget, t.1.2) targets → addressed peer ms = []).
Proof.
  revert ms. induction targets as [|[[d q] sec] targets IH]; intros ms Hnd E; cbn [seal_for map fst snd] in *.
  - injection E as <-. split; [by intros ??? ?%not_elem_of_nil|done].
  - destruct (encrypt_json sec (nonce q) v) as [env|] eqn:Ee; [|done]. destruct (seal_for _ _ _ targets) as [ms'|]; [|done].
    injection E as <-. apply NoDup_cons in Hnd as [Hn Hnd]. destruct (IH ms' Hnd eq_refl) as [Hin Hout].
    unfold addressed in *. cbn [omap list_omap fst snd]. split.
    + intros dev peer secret [[= -> -> ->]|Ht]%elem_of_cons.
      * exists env. split; [done|]. rewrite decide_True by done. by rewrite Hout.
      * assert (q ≠ peer) as Hne. { intros ->. apply Hn. by apply (list_elem_of_fmap_2 (λ t : BrokerTarget, t.1.2) _ _ Ht). }
        rewrite decide_False by done. by apply Hin.
    + intros peer [Hne Hp]%not_elem_of_cons. rewrite decide_False by done. by apply Hout.
Qed.

Lemma read_by_batches peer bs : read_by peer (map batch bs) = addressed peer (concat bs).
Proof. unfold read_by. induction bs as [|b bs IH]; [done|]. cbn [map concat for_peer batch]. by rewrite IH, addressed_app. Qed.

Lemma publish_snapshot_handed w h w' h' :
  publish_snapshot w h = (w', h', Ok ()) →
  later w w' ∧ ∃ new, hd_sent h' = (hd_sent h ++ new)%list ∧ snapshot_handed w new.
Proof.
  unfold publish_snapshot, snapshot_handed, bind, reading, await, sealing, handing. cbv zeta.
  destruct (app_can_read_content _).
  - destruct (publish_payload _ h) as [h1 r] eqn:E. destruct (publish_payload_spec _ _ _ _ E) as [[-> Hs]|[-> _]]; [|done].
    intros [= <- <-]. split; [by exists 2%nat|]. eauto.
  - cbn beta iota. destruct (seal_for _ _ _ _) as [ms|] eqn:E; [|done]. unfold publish_targeted_messages.
    destruct (targeted_loop ms [] h) as [h1 r] eqn:El. destruct r as [[]|]; [|done]. intros [= <- <-].
    apply targeted_loop_spec in El as (bs & rest & Hs & Hc & Hr & _); [|left; cbn; lia].
    rewrite (Hr eq_refl), app_nil_r in Hc. cbn [app] in Hc. split; [by exists 3%nat|].
    destruct (seal_for_addressed _ _ _ _ _ (targets_NoDup _) E) as [Hin Hout].
    exists (map batch bs). split_and!; [done| | |].
    + apply Forall_map, Forall_true. eauto.
    + intros dev peer secret Ht. rewrite read_by_batches, Hc. by apply Hin.
    + intros peer Hp. rewrite read_by_batches, Hc. by apply Hout.
Qed.

(** Tasks that hand over no snapshot; of success, [Q]. *)
Definition hides_task {X} (Q : X → Prop) (c : Task X) : Prop := ∀ w h,
  let '(w', h', r) := c w h in later w w' ∧ handed_over snapshotless h h' ∧ ∀ x, r = Ok x → Q x.

Lemma hides_ret {X} (Q : X → Prop) x : Q x → hides_task Q (ret x).
Proof. intros HQ w h. split_and!; [done..|]. by intros ? [= <-]. Qed.
Lemma hides_bind {X Y} (Q1 : X → Prop) (Q : Y → Prop) c f :
  hides_task Q1 c → (∀ x, Q1 x → hides_task Q (f x)) → hides_task Q (bind c f).
Proof.
  intros Hc Hf w h. unfold bind. specialize (Hc w h). destruct (c w h) as [[w1 h1] [x|e]]; destruct Hc as (Hw & Hh & HQ).
  - specialize (Hf x (HQ x eq_refl) w1 h1). destruct (f x w1 h1) as [[w2 h2] r]. destruct Hf as (Hw2 & Hh2 & HQ2).
    split_and!; [by etrans..|done].
  - by split_and!.
Qed.
Lemma hides_reading {X} (f : World A → X) : hides_task (λ _, True) (reading f).
Proof. intros w h. by split_and!. Qed.
Lemma hides_await : hides_task (λ _, True) await.
Proof. intros w h. split_and!; [apply later_meanwhile|done..]. Qed.
Lemma hides_sealing {X} (r : result X CryptoError) : hides_task (λ x, r = Ok x) (sealing r).
Proof. intros w h. split_and!; [done..|]. destruct r; [|done]. by intros ? [= <-]. Qed.
Lemma hides_handing ms : Forall (λ m : TargetedBrokerMessage, shows_session m.2 = false) ms → hides_task (λ _, True) (handing ms).
Proof.
  intros Hms w h. unfold handing, publish_targeted_messages. destruct (targeted_loop ms [] h) as [h' r] eqn:E.
  apply targeted_loop_spec in E as (bs & rest & Hs & Hc & _ & _); [|left; cbn; lia]. cbn [app] in Hc.
  split_and!; [done| |done]. exists (map batch bs). split; [done|]. rewrite <- Hc in Hms.
  apply Forall_app in Hms as [Hms _]. apply Forall_map. clear -Hms. induction bs as [|b bs IH]; [done|].
  cbn [concat] in Hms. apply Forall_app in Hms as [Hb Hbs]. constructor; [|by apply IH]. clear -Hb. unfold snapshotless. cbn.
  induction Hb as [|m b Hm _ IH]; [done|]. cbn. by rewrite Hm.
Qed.

Lemma seal_for_forall (P : OutboundBrokerPayload → Prop) nonce v pl targets ms :
  (∀ p d e, P (pl p d e)) → seal_for nonce v pl targets = Ok ms → Forall (λ m : TargetedBrokerMessage, P m.2) ms.
Proof.
  intros Hpl. revert ms. induction targets as [|[[dev p] sec] targets IH]; intros ms E; cbn [seal_for] in E; [by injection E as <-|].
  destruct (encrypt_json _ _ _) as [env|]; [|done]. destruct (seal_for _ _ _ targets) as [ms'|]; [|done]. injection E as <-.
  constructor; [apply Hpl|by apply IH].
Qed.

Lemma hides_delta d : hides_task (λ _, True) (publish_transcript_delta d).
Proof.
  unfold publish_transcript_delta. eapply hides_bind; [apply hides_reading|]. intros targets _.
  case_bool_decide; [by apply hides_ret|]. eapply hides_bind; [apply hides_await|]. intros _ _.
  eapply hides_bind; [apply hides_reading|]. intros can _. eapply hides_bind; [apply hides_reading|]. intros nonce _.
  eapply hides_bind; [apply hides_sealing|]. intros ms Hms. eapply hides_bind; [|intros _ _; apply hides_await].
  apply hides_handing. unfold build_transcript_delta_messages in Hms. destruct can; [|by eapply (seal_for_forall (λ p, shows_session p = false)); [|exact Hms]].
  injection Hms as <-. by apply Forall_map, Forall_true.
Qed.
Lemma hides_each ds : hides_task (λ _, True) (publish_each ds).
Proof.
  induction ds as [|d ds IH]; cbn [publish_each]; [by apply hides_ret|]. eapply hides_bind; [apply hides_delta|]. by intros _ _.
Qed.
Lemma hides_batch ds : hides_task (λ _, True) (publish_transcript_delta_batch ds).
Proof. unfold publish_transcript_delta_batch. eapply hides_bind; [apply hides_each|]. intros _ _. by apply hides_ret. Qed.
Lemma hides_rounds fuel : ∀ ds, hides_task (λ _, True) (flush_rounds fuel ds).
Proof.
  induction fuel as [|fuel IH]; intros [|d ds]; cbn [flush_rounds]; try by apply hides_ret.
  eapply hides_bind; [apply hides_batch|]. by intros rest _.
Qed.
Lemma hides_results q : hides_task (λ _, True) (publish_results q).
Proof.
  induction q as [|[r|d] q IH]; cbn [publish_results]; [by apply hides_ret| |].
  - eapply hides_bind; [|intros _ _; apply IH]. unfold publish_pairing_result.
    eapply hides_bind; [apply hides_reading|]. intros nonce _. eapply hides_bind; [apply hides_sealing|]. intros m Hm.
    eapply hides_bind; [|intros _ _; apply hides_await]. apply hides_handing. unfold pairing_result_targeted_message in Hm.
    destruct (encrypt_json _ _ _); [|done]. injection Hm as <-. by repeat constructor.
  - eapply hides_bind; [apply IH|]. intros ds _. by apply hides_ret.
Qed.

(** The instant at which an event lets a snapshot through. *)
Definition publishes (e : SessionEvent) (s : Session) : option Z :=
  match e with
  | EvChanged now | EvSnapshotTimer now =>
      match (ready_or_deadline now (se_gate s)).2 with None => Some now | Some _ => None end
  | _ => None
  end.
(** The instants of a run, and whether a change came after the last of them. *)
Fixpoint snapshot_log (live : BrokerLivenessConfig) (es : list SessionEvent) (s : Session) (w : World A) (h : Handle)
    (owed : bool) : list Z * bool :=
  match es with
  | [] => ([], owed)
  | e :: es =>
      match session_step live e s w h with
      | Some (s', w', h', Ok _) =>
          let owed := match publishes e s, e with Some _, _ => false | None, EvChanged _ => true | None, _ => owed end in
          let '(log, owed) := snapshot_log live es s' w' h' owed in
          (match publishes e s with Some t => t :: log | None => log end, owed)
      | _ => ([], owed)
      end
  end.
Fixpoint spaced (gap previous : Z) (log : list Z) : Prop :=
  match log with [] => True | t :: log => previous + gap ≤ t ∧ spaced gap t log end.

Record gate_ok (previous : Z) (owed : bool) (s : Session) : Prop := {
  go_interval : sg_min_interval (se_gate s) = SNAPSHOT_PUBLISH_MIN_INTERVAL_MILLIS;
  go_cooldown : sg_cooldown_until (se_gate s) = None;
  go_previous : sg_last_published_at (se_gate s) = Some previous;
  go_owed : owed = true → sg_scheduled (se_gate s) = true;
  go_timer : sg_scheduled (se_gate s) = true → se_snapshot_at s = previous + SNAPSHOT_PUBLISH_MIN_INTERVAL_MILLIS
}.

Lemma ready_spec previous owed s now :
  gate_ok previous owed s →
  ready_or_deadline now (se_gate s) =
    if 500 <=? now - previous then (mark_published now (se_gate s), None)
    else ((se_gate s) <| sg_scheduled := true |>, Some (previous + 500)).
Proof. intros [Hi Hc Hp _ _]. unfold ready_or_deadline. rewrite Hc, Hp, Hi. done. Qed.

(** What deciding makes of the gate; a snapshot goes with every delta that waited. *)
Lemma decide_snapshot_gate previous owed now s w h s' w' h' :
  gate_ok previous owed s → decide_snapshot now s w h = (s', w', h', Ok ()) →
  if 500 <=? now - previous then gate_ok now false s' ∧ se_deltas s' = []
  else gate_ok previous true s'.
Proof.
  intros Hg. pose proof (ready_spec _ _ _ now Hg) as Hr. destruct Hg as [Hi Hc Hp Ho Ht].
  unfold decide_snapshot, snapshot_publish_decision. rewrite Hr. destruct (500 <=? now - previous).
  - destruct (bool_decide (se_deltas s = [])) eqn:Ed; cbn [negb].
    + apply bool_decide_eq_true in Ed. destruct (publish_snapshot w h) as [[w1 h1] r]. intros [= <- <- <- _].
      split; [|done]. by constructor.
    + cbv zeta. destruct (flush_pending_transcript_deltas _ w h) as [[w1 h1] [[]|]]; [|done].
      destruct (publish_snapshot w1 h1) as [[w2 h2] r]. intros [= <- <- <- _]. split; [|done]. by constructor.
  - intros [= <- <- <-]. by constructor.
Qed.

Lemma gate_ok_frame previous owed s s' :
  se_gate s' = se_gate s → se_snapshot_at s' = se_snapshot_at s → gate_ok previous owed s → gate_ok previous owed s'.
Proof. intros Hg Hs [Hi Hc Hp Ho Ht]. constructor; rewrite Hg; try done. rewrite Hs. done. Qed.

(** An event that is not about snapshots leaves their gate alone. *)
Lemma other_step_gate live e s w h s' w' h' :
  session_step live e s w h = Some (s', w', h', Ok ()) →
  match e with EvChanged _ | EvSnapshotTimer _ => True | _ => se_gate s' = se_gate s ∧ se_snapshot_at s' = se_snapshot_at s end.
Proof.
  unfold session_step. cbv zeta. destruct e as [|now| |now|now|now taken|now|now env frame]; try done.
  - case_match; [|done]. unfold on_delta_timer. cbv zeta.
    destruct (publish_transcript_delta_batch _ _ _) as [[w1 h1] [rest|]]; [|done]. destruct rest; by intros [= <- <- <-].
  - case_match; [|done]. unfold on_ping_timer. destruct (se_awaiting_pong s); [done|]. cbv zeta.
    destruct (negb taken); [done|]. by intros [= <- <- <-].
  - case_match; done.
  - unfold on_frame. destruct frame as [[frame|]|]; [|done..].
    destruct frame as [text| |pong| |]; try (by intros [= <- <- <-]); [|by case_bool_decide; intros [= <- <- <-]].
    destruct (decode_server_frame _) as [[m|]|]; [|by intros [= <- <- <-]|done].
    destruct (handle_server_message _ _ _ _) as [[w1 h1] r]. by intros [= <- <- <- _].
Qed.

Lemma step_gate live e previous owed s w h s' w' h' :
  gate_ok previous owed s → session_step live e s w h = Some (s', w', h', Ok ()) →
  match publishes e s with
  | Some t => previous + 500 ≤ t ∧ gate_ok t false s' ∧ se_deltas s' = []
  | None => gate_ok previous (match e with EvChanged _ => true | _ => owed end) s'
  end.
Proof.
  intros Hg E. pose proof (other_step_gate _ _ _ _ _ _ _ _ E) as Hother.
  assert (∀ now s1 w1 h1, gate_ok previous owed s1 → se_gate s1 = se_gate s → decide_snapshot now s1 w1 h1 = (s', w', h', Ok ()) →
    match (match (ready_or_deadline now (se_gate s)).2 with None => Some now | Some _ => None end) with
    | Some t => previous + 500 ≤ t ∧ gate_ok t false s' ∧ se_deltas s' = []
    | None => gate_ok previous true s'
    end) as Hdecide.
  { intros now s1 w1 h1 Hg1 Hgate Hd. rewrite (ready_spec _ _ _ now Hg). pose proof (decide_snapshot_gate _ _ _ _ _ _ _ _ _ Hg1 Hd) as H.
    destruct (Z.leb_spec 500 (now - previous)); cbn [snd]; [|done]. split; [lia|done]. }
  destruct e as [|now| |now|now|now taken|now|now env frame]; cbn [publishes]; try (by destruct Hother; eapply gate_ok_frame).
  - unfold session_step, on_changed in E. destruct (drain_pending_broker_messages_for_publish _ _) as [[w1 h1] [ds|]]; [|done].
    injection E as E. eapply Hdecide; [| |exact E].
    + destruct ds; [done|]. eapply gate_ok_frame; [| |exact Hg]; by case_bool_decide.
    + destruct ds; [done|]. by case_bool_decide.
  - unfold session_step in E. destruct (has_pending_publish _ && _) eqn:Ep; [|done]. injection E as E.
    specialize (Hdecide now s _ _ Hg eq_refl E). destruct (ready_or_deadline _ _).2; [|done].
    destruct Hdecide as [Hi Hc Hp Ho Ht]. constructor; auto.
Qed.

(** What deciding and a step hand over: a snapshot of a state of theirs, last, if the gate lets
    one through, and none if it does not. *)
Definition snapshot_sent w h w' h' : Prop := ∃ before new w0,
  hd_sent h' = (hd_sent h ++ before ++ new)%list ∧ Forall snapshotless before ∧ snapshot_handed w0 new ∧
  later w w0 ∧ later w0 w'.

Lemma decide_snapshot_sends previous owed now s w h s' w' h' :
  gate_ok previous owed s → decide_snapshot now s w h = (s', w', h', Ok ()) →
  if 500 <=? now - previous then snapshot_sent w h w' h' else h' = h.
Proof.
  intros Hg. unfold decide_snapshot, snapshot_publish_decision. rewrite (ready_spec _ _ _ now Hg).
  destruct (500 <=? now - previous); [|by intros [= _ _ <-]]. destruct (negb (bool_decide (se_deltas s = []))); cbv zeta.
  - pose proof (hides_rounds (length (se_deltas s)) (se_deltas s) w h) as Hf. unfold flush_pending_transcript_deltas in *.
    cbn [se_deltas]. destruct (flush_rounds _ _ w h) as [[w1 h1] [[]|]]; [|done]. destruct Hf as (Hw1 & (before & Eb & Fb) & _).
    destruct (publish_snapshot w1 h1) as [[w2 h2] [[]|]] eqn:E; [|done]. intros [= <- <- <-].
    destruct (publish_snapshot_handed _ _ _ _ E) as (Hw2 & new & En & Hn).
    exists before, new, w1. rewrite En, Eb, app_assoc. by split_and!.
  - destruct (publish_snapshot w h) as [[w2 h2] [[]|]] eqn:E; [|done]. intros [= <- <- <-].
    destruct (publish_snapshot_handed _ _ _ _ E) as (Hw2 & new & En & Hn). exists [], new, w. by split_and!.
Qed.

(** The state a step publishes from: a change first takes what is queued. *)
Definition step_start (e : SessionEvent) w : World A :=
  match e with EvChanged _ => (on_surfaces drain_pending_broker_messages (meanwhile w)).1 | _ => meanwhile w end.

Lemma step_sends live e previous owed s w h s' w' h' :
  gate_ok previous owed s → session_step live e s w h = Some (s', w', h', Ok ()) →
  match publishes e s with
  | Some _ => snapshot_sent (step_start e w) h w' h'
  | None => handed_over snapshotless h h'
  end.
Proof.
  intros Hg. unfold session_step. cbv zeta.
  assert (∀ now s1 w0 w1 h1, gate_ok previous owed s1 → later w0 w1 → handed_over snapshotless h h1 →
    decide_snapshot now s1 w1 h1 = (s', w', h', Ok ()) →
    match (match (ready_or_deadline now (se_gate s)).2 with None => Some now | Some _ => None end) with
    | Some _ => snapshot_sent w0 h w' h'
    | None => handed_over snapshotless h h'
    end) as Hdecide.
  { intros now s1 w0 w1 h1 Hg1 Hw (n0 & E0 & F0) Hd. rewrite (ready_spec _ _ _ now Hg).
    pose proof (decide_snapshot_sends _ _ _ _ _ _ _ _ _ Hg1 Hd) as H. destruct (500 <=? now - previous); cbn [snd].
    - destruct H as (before & new & w2 & E & F & Hn & H1 & H2). exists (n0 ++ before)%list, new, w2.
      rewrite E, E0, <- !app_assoc. split_and!; [done|by apply Forall_app|done|by etrans|done].
    - subst h'. by exists n0. }
  destruct e as [|now| |now|now|now taken|now|now env frame]; cbn [publishes step_start]; try done.
  - unfold on_changed, drain_pending_broker_messages_for_publish. destruct (on_surfaces _ _) as [w1 q]. cbn [fst].
    pose proof (hides_results q (meanwhile w1) h) as Hq. destruct (publish_results q _ h) as [[w2 h2] [ds|]]; [|done].
    destruct Hq as (Hw2 & Hh2 & _). intros [= E]. eapply Hdecide; [| |exact Hh2|exact E]; [|etrans; [apply later_meanwhile|exact Hw2]].
    destruct ds; [done|]. eapply gate_ok_frame; [| |exact Hg]; by case_bool_decide.
  - case_match; [|done]. unfold on_delta_timer. cbv zeta. pose proof (hides_batch (se_deltas s) (meanwhile w) h) as Hb.
    destruct (publish_transcript_delta_batch _ _ _) as [[w1 h1] [rest|]]; [|done]. destruct Hb as (_ & Hh & _).
    by intros [= _ _ <-].
  - case_match; [|done]. intros [= E]. by eapply Hdecide; [exact Hg| | |exact E].
  - case_match; [|done]. destruct (on_ping_timer _ _ _ _). by intros [= _ _ <-].
  - case_match; done.
  - unfold on_frame. destruct frame as [[frame|]|]; [|done..].
    destruct frame as [text| |pong| |]; try (by intros [= _ _ <-]).
    destruct (decode_server_frame _) as [[m|]|]; [|by intros [= _ _ <-]|done].
    pose proof (message_handed (λ _, True) env m (meanwhile w) h Logic.I) as (new & E & _ & _ & F).
    destruct (handle_server_message _ _ _ _) as [[w1 h1] r]. intros [= _ _ <- _]. by exists new.
Qed.

Lemma snapshot_log_spec live es : ∀ previous owed s w h s' w' h',
  gate_ok previous owed s → session_run live es s w h = Some (s', w', h', Ok ()) →
  spaced 500 previous (snapshot_log live es s w h owed).1 ∧
  gate_ok (default previous (last (snapshot_log live es s w h owed).1)) (snapshot_log live es s w h owed).2 s'.
Proof.
  induction es as [|e es IH]; intros previous owed s w h s' w' h' Hg E; cbn [session_run snapshot_log] in *; [by injection E as <- <- <-|].
  destruct (session_step live e s w h) as [[[[s1 w1] h1] [[]|]]|] eqn:Es; [|by destruct es|done].
  pose proof (step_gate _ _ _ _ _ _ _ _ _ _ Hg Es) as H. destruct (publishes e s) as [t|].
  - destruct H as (Ht & Hg1 & _). destruct (IH _ _ _ _ _ _ _ _ Hg1 E) as [Hs Hl].
    destruct (snapshot_log live es s1 w1 h1 false) as [log o]. cbn [fst snd] in *. split; [by split|].
    rewrite last_cons. by destruct (last log).
  - specialize (IH _ _ _ _ _ _ _ _ H E). destruct e; by destruct (snapshot_log live es s1 w1 h1 _).
Qed.


(** *** Heartbeats *)
Lemma be_bytes_mod n z1 z2 : be_bytes n z1 = be_bytes n z2 → z1 mod 256 ^ Z.of_nat n = z2 mod 256 ^ Z.of_nat n.
Proof.
  induction n as [|n IH]; cbn [be_bytes]; [by rewrite !Z.mod_1_r|]. intros [= Ha Hr]. specialize (IH Hr).
  rewrite Nat2Z.inj_succ, Z.pow_succ_r, (Z.mul_comm 256) by lia. rewrite !Z.rem_mul_r by lia. rewrite IH. do 2 f_equal.
  apply (f_equal nat_of_ascii) in Ha. rewrite !nat_ascii_embedding in Ha by (apply Nat2Z.inj_lt; Z.to_euclidean_division_equations; lia).
  apply Z2Nat.inj in Ha; [done|apply Z.mod_pos_bound; lia..].
Qed.
Lemma to_be_bytes_inj a b : 0 ≤ a < 2 ^ 64 → 0 ≤ b < 2 ^ 64 → to_be_bytes a = to_be_bytes b → a = b.
Proof.
  intros Ha Hb H%be_bytes_mod. change (256 ^ Z.of_nat 8) with (2 ^ 64) in H. by rewrite !Z.mod_small in H.
Qed.

Definition event_time (e : SessionEvent) : option Z :=
  match e with
  | EvWriterFailed | EvChangeClosed => None
  | EvChanged now | EvDeltaTimer now | EvSnapshotTimer now | EvPingTimer now _ | EvPongTimer now | EvFrame now _ _ => Some now
  end.
Definition is_pong (e : SessionEvent) : bool :=
  match e with EvFrame _ _ (Some (Some (FrPong _))) => true | _ => false end.

(** The instant by which a session that hears no pong is over. *)
Definition silence_deadline (live : BrokerLivenessConfig) (s : Session) : Z :=
  match se_awaiting_pong s with Some _ => se_pong_at s | None => se_ping_at s + lv_pong_timeout live end.
(** An event that comes before any heartbeat timer is overdue. *)
Definition prompt (s : Session) (t : Z) : Prop := t ≤ se_ping_at s ∧ (is_Some (se_awaiting_pong s) → t ≤ se_pong_at s).
(** Runs whose events are in the order of their instants, from [t0], each prompt. *)
Fixpoint timely (live : BrokerLivenessConfig) (t0 : Z) (es : list SessionEvent) (s : Session) (w : World A) (h : Handle) : Prop :=
  match es with
  | [] => True
  | e :: es =>
      (∀ t, event_time e = Some t → t0 ≤ t ∧ prompt s t) ∧
      match session_step live e s w h with
      | Some (s', w', h', Ok _) => timely live (default t0 (event_time e)) es s' w' h'
      | _ => True
      end
  end.

(** The heartbeat's variables at an instant. *)
Record heartbeat_ok (live : BrokerLivenessConfig) (t : Z) (s : Session) : Prop := {
  hb_ping : se_ping_at s ≤ t + lv_ping_interval live;
  hb_pong : is_Some (se_awaiting_pong s) → se_pong_at s ≤ t + lv_pong_timeout live;
  hb_payload : ∀ p, se_awaiting_pong s = Some p → p = to_be_bytes (se_heartbeat_seq s);
  hb_seq : 0 ≤ se_heartbeat_seq s < 2 ^ 64
}.

(** What a step does to the heartbeat. *)
Lemma step_heartbeat live e s w h s' w' h' :
  session_step live e s w h = Some (s', w', h', Ok ()) →
  match e with
  | EvPingTimer now _ => se_awaiting_pong s = None ∧ se_heartbeat_seq s' = (se_heartbeat_seq s + 1) mod 2 ^ 64 ∧
      se_awaiting_pong s' = Some (to_be_bytes (se_heartbeat_seq s')) ∧ se_pong_at s' = now + lv_pong_timeout live ∧
      se_ping_at s' = now + lv_ping_interval live
  | _ => se_ping_at s' = se_ping_at s ∧ se_pong_at s' = se_pong_at s ∧ se_heartbeat_seq s' = se_heartbeat_seq s ∧
      (se_awaiting_pong s' = se_awaiting_pong s ∨
       se_awaiting_pong s' = None ∧ ∃ now env p, e = EvFrame now env (Some (Some (FrPong p))) ∧ se_awaiting_pong s = Some p)
  end.
Proof.
  unfold session_step. cbv zeta.
  assert (∀ now s1 w1 h1, decide_snapshot now s1 w1 h1 = (s', w', h', Ok ()) →
    se_ping_at s' = se_ping_at s1 ∧ se_pong_at s' = se_pong_at s1 ∧ se_heartbeat_seq s' = se_heartbeat_seq s1 ∧
    se_awaiting_pong s' = se_awaiting_pong s1) as Hd.
  { intros now s1 w1 h1. unfold decide_snapshot. destruct (snapshot_publish_decision _ _ _) as [g []]; cbv zeta.
    - destruct (publish_snapshot _ _) as [[w2 h2] r]. by intros [= <- <- <- _].
    - destruct (flush_pending_transcript_deltas _ _ _) as [[w2 h2] [[]|]]; [|done].
      destruct (publish_snapshot _ _) as [[w3 h3] r]. by intros [= <- <- <- _].
    - by intros [= <- <- <-]. }
  destruct e as [|now| |now|now|now taken|now|now env frame]; try done.
  - unfold on_changed. destruct (drain_pending_broker_messages_for_publish _ _) as [[w1 h1] [ds|]]; [|done].
    intros [= E]. destruct (Hd _ _ _ _ E) as (-> & -> & -> & ->). destruct ds; [by auto|]. case_bool_decide; by auto.
  - case_match; [|done]. unfold on_delta_timer. cbv zeta.
    destruct (publish_transcript_delta_batch _ _ _) as [[w1 h1] [rest|]]; [|done]. destruct rest; intros [= <- <- <-]; by auto.
  - case_match; [|done]. intros [= E]. destruct (Hd _ _ _ _ E) as (-> & -> & -> & ->). by auto.
  - case_match; [|done]. unfold on_ping_timer. destruct (se_awaiting_pong s); [done|]. cbv zeta.
    destruct (negb taken); [done|]. by intros [= <- <- <-].
  - case_match; done.
  - unfold on_frame. destruct frame as [[frame|]|]; [|done..].
    destruct frame as [text| |pong| |]; try (intros [= <- <- <-]; by auto).
    + destruct (decode_server_frame _) as [[m|]|]; [|intros [= <- <- <-]; by auto|done].
      destruct (handle_server_message _ _ _ _) as [[w1 h1] r]. intros [= <- <- <- _]. by auto.
    + case_bool_decide as Hp; intros [= <- <- <-]; [|by auto]. split_and!; try done. right. split; [done|]. by eexists _, _, _.
Qed.

Lemma heartbeat_step live e t s w h s' w' h' :
  0 ≤ lv_ping_interval live → 0 ≤ lv_pong_timeout live → heartbeat_ok live t s →
  (∀ t', event_time e = Some t' → t ≤ t') →
  session_step live e s w h = Some (s', w', h', Ok ()) → heartbeat_ok live (default t (event_time e)) s'.
Proof.
  intros Hi Ho [Hp Hq Hy Hs] Ht E. pose proof (step_heartbeat _ _ _ _ _ _ _ _ E) as H.
  assert (t ≤ default t (event_time e)) as Hle by (destruct (event_time e) eqn:Ee; cbn; [by apply Ht|lia]).
  assert (∀ b, (se_ping_at s' = se_ping_at s ∧ se_pong_at s' = se_pong_at s ∧ se_heartbeat_seq s' = se_heartbeat_seq s ∧
      (se_awaiting_pong s' = se_awaiting_pong s ∨ se_awaiting_pong s' = None ∧ b)) →
    heartbeat_ok live (default t (event_time e)) s') as Hsame.
  { intros b (E1 & E2 & E3 & E4). constructor; rewrite ?E1, ?E2, ?E3; [lia| | |done].
    - destruct E4 as [->|[-> _]]; [intros Hx; specialize (Hq Hx); lia|by intros []].
    - destruct E4 as [->|[-> _]]; [done|by intros]. }
  destruct e; try by eapply Hsame. destruct H as (_ & E1 & E2 & E3 & E4). change (heartbeat_ok live now s').
  constructor; rewrite ?E2, ?E3, ?E4; [lia|lia|by intros p [= <-]|rewrite E1; apply Z.mod_pos_bound; lia].
Qed.

Lemma silence_bound live es : ∀ t s w h s' w' h',
  0 ≤ lv_pong_timeout live → timely live t es s w h → Forall (λ e, is_pong e = false) es →
  session_run live es s w h = Some (s', w', h', Ok ()) →
  ∀ e t', e ∈ es → event_time e = Some t' → t' ≤ silence_deadline live s.
Proof.
  induction es as [|e es IH]; intros t s w h s' w' h' Ho Ht HF E e' t' Hin He'; [by apply not_elem_of_nil in Hin|].
  cbn [timely session_run] in *. destruct Ht as [Hp Ht]. apply Forall_cons in HF as [Hn HF].
  destruct (session_step live e s w h) as [[[[s1 w1] h1] [[]|]]|] eqn:Es; [|by destruct es|done].
  assert (∀ t1, event_time e = Some t1 → t1 ≤ silence_deadline live s) as Hnow.
  { intros t1 H1. destruct (Hp t1 H1) as [_ [H2 H3]]. unfold silence_deadline. destruct (se_awaiting_pong s); [apply H3; eauto|lia]. }
  apply elem_of_cons in Hin as [->|Hin]; [by apply Hnow|]. etrans; [by eapply (IH _ s1 w1 h1)|].
  pose proof (step_heartbeat _ _ _ _ _ _ _ _ Es) as H. unfold silence_deadline in *.
  assert ((se_ping_at s1 = se_ping_at s ∧ se_pong_at s1 = se_pong_at s ∧ se_heartbeat_seq s1 = se_heartbeat_seq s ∧
      (se_awaiting_pong s1 = se_awaiting_pong s ∨ se_awaiting_pong s1 = None ∧
       ∃ now env p, e = EvFrame now env (Some (Some (FrPong p))) ∧ se_awaiting_pong s = Some p)) →
    match se_awaiting_pong s1 with Some _ => se_pong_at s1 | None => se_ping_at s1 + lv_pong_timeout live end
    ≤ match se_awaiting_pong s with Some _ => se_pong_at s | None => se_ping_at s + lv_pong_timeout live end) as Hsame.
  { intros (-> & -> & _ & [->|[_ (n & v & p & -> & _)]]); [by destruct (se_awaiting_pong s)|done]. }
  destruct e; try by apply Hsame. destruct H as (Ea & _ & -> & -> & _). rewrite Ea.
  destruct (Hp now eq_refl) as [_ [Hle _]]. lia.
Qed.

Lemma timely_heartbeat live es : ∀ t s w h s' w' h',
  0 ≤ lv_ping_interval live → 0 ≤ lv_pong_timeout live → heartbeat_ok live t s → timely live t es s w h →
  session_run live es s w h = Some (s', w', h', Ok ()) → heartbeat_ok live (default t (last (omap event_time es))) s'.
Proof.
  induction es as [|e es IH]; intros t s w h s' w' h' Hi Ho Hb Ht E; [by injection E as <- _ _|].
  cbn [timely session_run] in *. destruct Ht as [Hp Ht].
  destruct (session_step live e s w h) as [[[[s1 w1] h1] [[]|]]|] eqn:Es; [|by destruct es|done].
  assert (heartbeat_ok live (default t (event_time e)) s1) as Hb1
    by (eapply heartbeat_step; [done..| |exact Es]; intros t' Ht'; by apply Hp).
  specialize (IH _ _ _ _ _ _ _ Hi Ho Hb1 Ht E). cbn [omap list_omap]. destruct (event_time e) as [t1|]; [|done].
  rewrite last_cons. by destruct (last (omap event_time es)).
Qed.

Lemma session_run_app live es1 es2 : ∀ s w h a,
  session_run live (es1 ++ es2) s w h = Some a → (es2 ≠ [] ∨ ∃ s' w' h', a = (s', w', h', Ok ())) →
  ∃ s1 w1 h1, session_run live es1 s w h = Some (s1, w1, h1, Ok ()) ∧ session_run live es2 s1 w1 h1 = Some a ∧
    ∀ t, timely live t (es1 ++ es2) s w h →
      timely live t es1 s w h ∧ timely live (default t (last (omap event_time es1))) es2 s1 w1 h1.
Proof.
  induction es1 as [|e es1 IH]; intros s w h a E Ha; cbn [app session_run timely] in *; [by eexists _, _, _|].
  destruct (session_step live e s w h) as [[[[s1 w1] h1] [[]|e1]]|]; [| |done].
  - destruct (IH s1 w1 h1 a E Ha) as (s2 & w2 & h2 & E1 & E2 & Ht). eexists _, _, _. split_and!; [done..|].
    intros t [H1 H2]. destruct (Ht _ H2) as [H3 H4]. split; [by split|]. cbn [omap list_omap].
    destruct (event_time e) as [t1|]; [|done]. rewrite last_cons. by destruct (last (omap event_time es1)).
  - destruct (es1 ++ es2)%list eqn:Ee; [|done]. injection E as <-. apply app_nil in Ee as [-> ->]. naive_solver.
Qed.

(** Silence is noticed.  In a session whose timers are served on time: once no more pongs
    come, nothing happens in it later than a ping interval and a pong timeout after the last
    event before the silence (so a session that is still alive then has ended); and a pong that
    echoes another ping than the last leaves the session as it is, still waiting. *)
Theorem silence_is_noticed live t0 es1 es2 w h s' w' h' :
  0 ≤ lv_ping_interval live → 0 ≤ lv_pong_timeout live →
  timely live t0 (es1 ++ es2) (new_session live t0) w h → Forall (λ e, is_pong e = false) es2 →
  session_run live (es1 ++ es2) (new_session live t0) w h = Some (s', w', h', Ok ()) →
  (∀ e t, e ∈ es2 → event_time e = Some t →
     t ≤ default t0 (last (omap event_time es1)) + lv_ping_interval live + lv_pong_timeout live) ∧
  (is_Some (se_awaiting_pong s') → ∀ n now env, 0 ≤ n < 2 ^ 64 → n ≠ se_heartbeat_seq s' →
     session_step live (EvFrame now env (Some (Some (FrPong (to_be_bytes n))))) s' w' h' = Some (s', meanwhile w', h', Ok ())).
Proof.
  intros Hi Ho Ht HF E. assert (heartbeat_ok live t0 (new_session live t0)) as Hb.
  { constructor; cbn; [lia|by intros []|done|done]. }
  destruct (session_run_app _ _ _ _ _ _ _ E) as (s1 & w1 & h1 & E1 & E2 & Hsplit); [right; eauto|].
  destruct (Hsplit _ Ht) as [Ht1 Ht2]. split.
  - intros e t Hin He. pose proof (timely_heartbeat _ _ _ _ _ _ _ _ _ Hi Ho Hb Ht1 E1) as [Hp Hq _ _].
    etrans; [by eapply (silence_bound live es2)|]. unfold silence_deadline. destruct (se_awaiting_pong s1); [|lia].
    specialize (Hq ltac:(eauto)). lia.
  - intros [p Hp] n now env Hn Hne. pose proof (timely_heartbeat _ _ _ _ _ _ _ _ _ Hi Ho Hb Ht E) as [_ _ Hy Hs].
    unfold session_step, on_frame. rewrite Hp, (Hy p Hp). rewrite bool_decide_eq_false_2; [done|].
    intros Heq%(inj Some). apply Hne. symmetry. by apply to_be_bytes_inj.
Qed.
End Promises.

(** * Sessions run

    The small application of [RemoteExamples] with a queue of two deltas and a phone that
    watches their thread; in the first session the broker may read, in the second it may not. *)
Module SessionExamples.
Import RemoteExamples.
#[export] Existing Instances sample_fs Model.plain_hash Model.tag_box Model.tag_box_laws Model.empty_views SnapshotTheorems.Sample.sizes.

Definition first_half : PendingTranscriptDelta := MkDelta "t" 6 7 1 5 "i" None "Hel" AgentText (Some 0).
Definition second_half : PendingTranscriptDelta := MkDelta "t" 7 8 1 6 "i" None "lo" AgentText (Some 3).
Definition queue : list BrokerPendingMessage := [TranscriptDelta first_half; TranscriptDelta second_half].
Definition drained_mark : string := "drained".

#[export] Instance queueing_app : SessionApp App := {|
  app_surfaces a :=
    MkSurfaces (Some "t") None None {[ "peer" ]} ∅ ∅ ∅ ∅ true true
      (if bool_decide (drained_mark ∈ a.2) then [] else queue) [] ∅ ∅ [];
  set_app_surfaces s a := match sf_pending_broker_messages s with [] => (a.1, (a.2 ++ [drained_mark])%list) | _ => a end;
  meanwhile w := w;
  drawn_nonce _ _ := Model.sample_nonce
|}.

Definition watching_phone : PairingState :=
  paired <| ps_online_surface_peer_devices := {[ "peer" := "phone" ]} |>
         <| ps_watched_threads := {[ "peer" := MkWatched "phone" {[ "t" ]} 1 ]} |>.
Definition before (readable : bool) : World App := MkWorld watching_phone ∅ (readable, []).
Definition beginning : Session := new_session default_liveness 0.
Definition events : list SessionEvent := [EvChanged 100; EvDeltaTimer 200].

Definition phone_surfaces (q : list BrokerPendingMessage) : SurfaceState :=
  MkSurfaces (Some "t") None None {[ "peer" ]} {[ "peer" := "phone" ]} {[ "peer" := MkWatched "phone" {[ "t" ]} 1 ]} ∅ ∅
    true true q [] ∅ {[ "phone" := phone ]} [].

(** What the phone does not change, and nor does draining. *)
Definition phone_watches (w : World App) : Prop := wo_pairing w = watching_phone.
Lemma phone_watches_throughout w : phone_watches w → watching "t" "peer" "secret" w.
Proof.
  intros Hw. assert (∃ q, surfaces_of w = phone_surfaces q) as [q Hq].
  { destruct w as [s m [r l]]. unfold phone_watches in Hw. cbn [wo_pairing] in Hw. subst s. eexists. reflexivity. }
  assert (phone_surfaces q = (phone_surfaces []) <| sf_pending_broker_messages := q |>) as Hs by done.
  split; rewrite Hq.
  - change ("peer" ∈ ({[ "peer" ]} : gset string)). set_solver.
  - exists "phone", phone. split_and!; [reflexivity..|]. rewrite Hs.
    change (target_wants "t" (phone_surfaces []) ("phone", "peer", "secret") = true). vm_compute. reflexivity.
Qed.
Lemma phone_keeps_watching (TC : TicketCrypto) : kept phone_watches events.
Proof. split; [done|intros w Hw; by unfold phone_watches in *; cbn; rewrite Hw|by repeat constructor]. Qed.

Definition told_delta : PendingTranscriptDelta := merge_delta first_half second_half.
Definition told_frame : Sent := batch [("peer", delta_payload told_delta)].
Definition at_rest : Session := beginning <| se_gate := MkGate 500 (Some 0) None true |> <| se_snapshot_at := 500 |> <| se_delta_at := 200 |>.
Definition after_world (readable : bool) : World App := MkWorld watching_phone ∅ (readable, [drained_mark]).
Lemma after_delta_is :
  session_run (TC:=model_crypto) default_liveness events beginning (before true) handle = Some (at_rest, after_world true, MkHandle [told_frame] [], Ok ()).
Proof. vm_compute. reflexivity. Qed.

Lemma drained_is : drained (TC:=model_crypto) default_liveness events beginning (before true) handle = [first_half; second_half].
Proof. vm_compute. reflexivity. Qed.

Lemma watchers_are_told_witness :
  tells "t" (opened (TC:=model_crypto) "peer" "secret" [told_frame]) [first_half; second_half] ∧
  replay [told_delta] ∅ !! "i" = Some "Hello".
Proof.
  split; [|by vm_compute].
  destruct (watchers_are_told (TC:=model_crypto) (TL:=model_laws) phone_watches "t" "peer" "secret" default_liveness events
    beginning (before true) handle at_rest (after_world true) (MkHandle [told_frame] []))
    as (new & Hn & H).
  - apply phone_keeps_watching.
  - intros w Hw. split; [by apply phone_watches_throughout|done].
  - done.
  - exact after_delta_is.
  - rewrite drained_is. change (Forall delta_ok [first_half; second_half]). apply Forall_cons; split; [|apply Forall_singleton];
      (split_and!; [cbn; unfold in_u64, u64_max; lia..|intros off [= <-]; unfold in_u64, u64_max; lia]).
  - rewrite drained_is in H. change ([told_frame] = new) in Hn. subst new. change (se_deltas at_rest) with (@nil PendingTranscriptDelta) in H.
    rewrite app_nil_r in H. exact H.
Defined.

(** ** A broker that may not read *)
Definition with_privacy {A} (R : RelayApp A) : RelayApp A :=
  match R with
  | Build_RelayApp _ a1 _ a3 a4 a5 a6 a7 a8 a9 a10 a11 a12 a13 a14 a15 a16 a17 a18 a19 a20 a21 a22 a23 a24 a25 a26 a27 a28
      a29 a30 a31 a32 a33 a34 a35 a36 a37 a38 a39 a40 a41 a42 =>
      Build_RelayApp A a1 (λ _, false) a3 a4 a5 a6 a7 a8 a9 a10 a11 a12 a13 a14 a15 a16 a17 a18 a19 a20 a21 a22 a23 a24 a25 a26
        a27 a28 a29 a30 a31 a32 a33 a34 a35 a36 a37 a38 a39 a40 a41 a42
  end.
Definition private_app : RelayApp App := with_privacy logging_app.

Lemma private_sessions_are_sealed_witness :
  match session_run (RA:=private_app) (TC:=model_crypto) default_liveness events beginning (before false) handle with
  | Some (_, _, h, r) => r = Ok () ∧ length (hd_sent h) = 1%nat ∧ handed_over (λ s, sealed_sent s = true) handle h
  | None => False
  end.
Proof.
  pose proof (private_sessions_are_sealed (RA:=private_app) (TC:=model_crypto) (TL:=model_laws) (env 0) default_liveness 0 None events
    beginning (before false) handle (λ _, eq_refl)) as [_ H].
  assert (match session_run (RA:=private_app) (TC:=model_crypto) default_liveness events beginning (before false) handle with
          | Some (_, _, h, r) => r = Ok () ∧ length (hd_sent h) = 1%nat | None => False end) as Hr by (vm_compute; by split).
  destruct (session_run _ _ _ _ _) as [[[[s w] h] r]|]; [|exact Hr]. destruct Hr as [Hr1 Hr2]. split_and!; assumption.
Defined.

(** ** A surface that sends junk *)
Definition junk : json := JMap [("kind", JStr "remote_action"); ("protocol_version", JU64 7)].
Definition junk_frame : json :=
  JMap [("type", JStr "message"); ("channel_id", JStr "room"); ("from_peer_id", JStr "peer"); ("from_role", JStr "surface");
        ("payload", junk)].
Definition one_frame : TicketCrypto := {|
  b64_encode := id; b64_decode := Some; hmac_sha256 := λ secret msg, secret +:+ "|" +:+ msg; json_to_vec := dump;
  json_from_slice := λ s, if String.eqb s "frame" then Some junk_frame else None |}.

Lemma surfaces_do_not_end_sessions_witness :
  parse_inbound_payload junk = Err (VersionUnsupported 7) ∧
  ∃ w h, session_step (TC:=one_frame) default_liveness (EvFrame 50 (env 0) (Some (Some (FrText "frame")))) beginning (before false) handle
    = Some (beginning, w, h, Ok ()) ∧ w = before false ∧ h = handle.
Proof.
  split; [by vm_compute|].
  destruct (surfaces_do_not_end_sessions (TC:=one_frame) default_liveness 50 (env 0) (FrText "frame")
    (SmMessage "room" "peer" PeerSurface junk) beginning (before false) handle) as (w & h & E & Hno); [by vm_compute|].
  exists w, h. split; [exact E|]. apply Hno. right. intros p. by vm_compute.
Defined.

(** ** Half a second, and thirty *)
Definition owing_change : Session :=
  beginning <| se_gate := MkGate 500 (Some 0) None true |> <| se_snapshot_at := 500 |>
            <| se_deltas := [first_half; second_half] |> <| se_delta_at := 200 |>.
Definition at_half_a_second : option Arm :=
  session_step (TC:=model_crypto) default_liveness (EvSnapshotTimer 500) owing_change (after_world false) handle.


Definition pinged : Session :=
  beginning <| se_heartbeat_seq := 1 |> <| se_awaiting_pong := Some (to_be_bytes 1) |>
            <| se_pong_at := 30000 |> <| se_ping_at := 40000 |>.
Lemma pinged_is :
  session_run (TC:=model_crypto) default_liveness ([] ++ [EvPingTimer 20000 true]) beginning (before false) handle =
    Some (pinged, before false, handle, Ok ()).
Proof. vm_compute. reflexivity. Qed.

Lemma silence_is_noticed_witness :
  session_run (TC:=model_crypto) default_liveness ([] ++ [EvPingTimer 20000 true]) beginning (before false) handle =
    Some (pinged, before false, handle, Ok ()) ∧
  20000 ≤ 0 + 20000 + 10000 ∧
  session_step (TC:=model_crypto) default_liveness (EvFrame 25000 (env 0) (Some (Some (FrPong (to_be_bytes 7))))) pinged (before false) handle
    = Some (pinged, before false, handle, Ok ()).
Proof.
  split; [exact pinged_is|].
  pose proof (silence_is_noticed (TC:=model_crypto) default_liveness 0 [] [EvPingTimer 20000 true] (before false) handle
    pinged (before false) handle ltac:(by vm_compute) ltac:(by vm_compute)) as H.
  destruct H as [H1 H2].
  - split; [|done]. intros t [= <-]. split; [lia|]. split; [by vm_compute|by intros []].
  - by repeat constructor.
  - exact pinged_is.
  - split; [exact (H1 (EvPingTimer 20000 true) 20000 ltac:(left) eq_refl)|].
    apply (H2 ltac:(by eexists)); [lia|by vm_compute].
Defined.
End SessionExamples.
