(* ===== verification/Process.v ===== *)
(** * Concurrent tasks

    The application layer of the relay is a set of asynchronous tasks over one state behind a
    lock.  A task is a [Proc]: what it does in one hold of the lock ([Atom]), what it asks of
    something outside the relay ([Ask]), and the drive gate it may wait for ([Lock]).  Between
    any two of these other tasks run.  A task owns guards, values whose [Drop] does something;
    they are dropped when it ends, or when its future is dropped, which happens at an await
    only: an [Atom] says whether an await comes before it.  [step] is the
    interleaving of any number of tasks; below it are the rules by which a property of each
    task becomes one of every execution. *)

From Stdlib Require Import ZArith Lia.
From S2P Require Import Prelude.

Open Scope Z_scope.

(** ** Tasks *)
Section Syntax.
Context {St Guard Task Query : Type} {answer : Query → Type}.

(** What one hold of the lock does: the state, the guards the task owns (the one declared
    last comes first), the tasks it spawns, and its value. *)
Definition Effect (B : Type) : Type := (St * list Guard * list Task * B)%type.

Inductive Proc (R : Type) : Type :=
| Ret (r : R)
| Atom {B : Type} (aw : bool) (f : St → list Guard → Effect B) (k : B → Proc R)
| Ask (q : Query) (k : answer q → Proc R)
| Lock (k : Proc R).
End Syntax.
Arguments Proc {St Guard Task Query} answer R.
Arguments Ret {St Guard Task Query answer R} r.
Arguments Atom {St Guard Task Query answer R B} aw f k.
Arguments Ask {St Guard Task Query answer R} q k.
Arguments Lock {St Guard Task Query answer R} k.

Section Combinators.
Context {St Guard Task Query : Type} {answer : Query → Type}.
#[local] Abbreviation proc := (@Proc St Guard Task Query answer).

Fixpoint bind {A B} (p : proc A) (h : A → proc B) : proc B :=
  match p with
  | Ret a => h a
  | Atom aw f k => Atom aw f (λ b, bind (k b) h)
  | Ask q k => Ask q (λ a, bind (k a) h)
  | Lock k => Lock (bind k h)
  end.

Definition ret {A} (a : A) : proc A := Ret a.
Definition atom {B} (f : St → list Guard → Effect B) : proc B := Atom true f Ret.
(** A hold reached without an await, such as that of a [std] mutex. *)
Definition at_once {B} (f : St → list Guard → Effect B) : proc B := Atom false f Ret.
Definition ask (q : Query) : proc (answer q) := Ask q Ret.
Definition lock : proc () := Lock (Ret ()).
(** A hold that neither spawns nor touches guards. *)
Definition write {B} (f : St → St * B) : proc B :=
  atom (λ s own, let '(s, b) := f s in (s, own, [], b)).
Definition read {B} (f : St → B) : proc B := atom (λ s own, (s, own, [], f s)).
Definition spawn (t : Task) : proc () := at_once (λ s own, (s, own, [t], ())).
(** A guard is declared; a guard is made to do nothing when it is dropped. *)
Definition arm (g : Guard) : proc () := at_once (λ s own, (s, g :: own, [], ())).
Fixpoint without `{!EqDecision Guard} (g : Guard) (own : list Guard) : list Guard :=
  match own with
  | [] => []
  | g' :: own => if decide (g' = g) then own else g' :: without g own
  end.
Definition disarm `{!EqDecision Guard} (g : Guard) : proc () := at_once (λ s own, (s, without g own, [], ())).
(** What a task may be dropped at. *)
Definition awaits {A} (p : proc A) : bool := match p with Atom aw _ _ => aw | _ => true end.
End Combinators.

Declare Scope proc_scope.
Delimit Scope proc_scope with proc.
Notation "x <- p ;; k" := (bind p (λ x, k%proc)) (at level 100, p at next level, right associativity) : proc_scope.
Notation "p ;; k" := (bind p (λ _, k%proc)) (at level 100, right associativity) : proc_scope.

(** ** Executions *)
Class Runtime (St Guard Task Query : Type) (answer : Query → Type) := {
  gate_guard : Guard;                              (** what [Lock] leaves in the task's hands *)
  gate_free : St → bool;
  take_gate : St → St;
  release : Guard → St → St * list Task;           (** [Drop] *)
  task_proc : Task → @Proc St Guard Task Query answer ();
  task_own : Task → list Guard;                    (** the guards it is spawned with *)
  task_may_die : Task → bool;                      (** whether the task may be dropped or panic *)
  outside : St → St → Prop;                        (** what the rest of the program does *)
  arrives : @Proc St Guard Task Query answer () → Prop  (** the requests that may arrive *)
}.

Section Executions.
Context {St Guard Task Query : Type} {answer : Query → Type} `{!Runtime St Guard Task Query answer} `{!EqDecision Guard}.
#[local] Abbreviation proc := (@Proc St Guard Task Query answer).

Record Thread : Type := MkThread { th_proc : proc (); th_own : list Guard; th_may_die : bool }.
Record System : Type := MkSystem { sy_state : St; sy_threads : list Thread }.

Definition start_task (t : Task) : Thread := MkThread (task_proc t) (task_own t) (task_may_die t).

(** Guards are dropped in the reverse order of their declaration. *)
Fixpoint drop_guards (own : list Guard) (s : St) : St * list Task :=
  match own with
  | [] => (s, [])
  | g :: own =>
      let '(s, ts) := release g s in
      let '(s, ts') := drop_guards own s in (s, (ts ++ ts')%list)
  end.

(** What an observer outside sees of a step. *)
Inductive Label : Type := Inside | Asked (q : Query) (a : answer q) | Outside | Arrived.

Inductive step : System → Label → System → Prop :=
| step_atom l1 l2 s B aw f (k : B → proc ()) own d s' own' ts b :
    f s own = (s', own', ts, b) →
    step (MkSystem s (l1 ++ MkThread (Atom aw f k) own d :: l2)) Inside
         (MkSystem s' (l1 ++ MkThread (k b) own' d :: l2 ++ map start_task ts))
| step_ask l1 l2 s q k own d a :
    step (MkSystem s (l1 ++ MkThread (Ask q k) own d :: l2)) (Asked q a)
         (MkSystem s (l1 ++ MkThread (k a) own d :: l2))
| step_lock l1 l2 s k own d :
    gate_free s = true →
    step (MkSystem s (l1 ++ MkThread (Lock k) own d :: l2)) Inside
         (MkSystem (take_gate s) (l1 ++ MkThread k (gate_guard :: own) d :: l2))
| step_end l1 l2 s p own d s' ts :
    (p = Ret () ∨ d = true ∧ awaits p = true) → drop_guards own s = (s', ts) →
    step (MkSystem s (l1 ++ MkThread p own d :: l2)) Inside
         (MkSystem s' (l1 ++ l2 ++ map start_task ts))
| step_outside s s' l : outside s s' → step (MkSystem s l) Outside (MkSystem s' l)
| step_arrive s l p : arrives p → step (MkSystem s l) Arrived (MkSystem s (l ++ [MkThread p [] true])).

(** Executions whose states satisfy [C]. *)
Inductive execution_while (C : St → Prop) : System → list Label → System → Prop :=
| execution_nil σ : C (sy_state σ) → execution_while C σ [] σ
| execution_cons σ1 l σ2 ls σ3 :
    C (sy_state σ1) → step σ1 l σ2 → execution_while C σ2 ls σ3 → execution_while C σ1 (l :: ls) σ3.
Definition execution : System → list Label → System → Prop := execution_while (λ _, True).

(** What a step preserves, an execution preserves. *)
Lemma execution_ind_inv (I : System → Prop) :
  (∀ σ l σ', I σ → step σ l σ' → I σ') → ∀ C σ ls σ', execution_while C σ ls σ' → I σ → I σ'.
Proof. intros Hstep C. induction 1; eauto. Qed.

(** ** Schedules

    An execution chosen step by step; [oracle] answers what is asked. *)
Inductive Move : Type := Go (i : nat) (oracle : ∀ q, answer q) | Finish (i : nat) | Arrive (p : proc ()).

Definition replace_thread (i : nat) (t : Thread) (ts : list Task) (l : list Thread) : list Thread :=
  take i l ++ t :: drop (S i) l ++ map start_task ts.
Definition play1 (m : Move) (σ : System) : option (Label * System) :=
  let s := sy_state σ in
  let l := sy_threads σ in
  match m with
  | Go i oracle =>
      t ← l !! i;
      match th_proc t with
      | Ret _ => None
      | Atom _ f k =>
          let '(s, own, ts, b) := f s (th_own t) in
          Some (Inside, MkSystem s (replace_thread i (MkThread (k b) own (th_may_die t)) ts l))
      | Ask q k => Some (Asked q (oracle q), MkSystem s (take i l ++ MkThread (k (oracle q)) (th_own t) (th_may_die t) :: drop (S i) l))
      | Lock k =>
          if gate_free s then
            Some (Inside, MkSystem (take_gate s) (take i l ++ MkThread k (gate_guard :: th_own t) (th_may_die t) :: drop (S i) l))
          else None
      end
  | Finish i =>
      t ← l !! i;
      if match th_proc t with Ret _ => true | p => th_may_die t && awaits p end then
        let '(s, ts) := drop_guards (th_own t) s in
        Some (Inside, MkSystem s (take i l ++ drop (S i) l ++ map start_task ts))
      else None
  | Arrive p => Some (Arrived, MkSystem s (l ++ [MkThread p [] true]))
  end.
Fixpoint play (c : St → bool) (ms : list Move) (σ : System) : option (list Label * System) :=
  if c (sy_state σ) then
    match ms with
    | [] => Some ([], σ)
    | m :: ms =>
        '(l, σ) ← play1 m σ;
        '(ls, σ) ← play c ms σ;
        Some (l :: ls, σ)
    end
  else None.
Definition admissible (m : Move) : Prop := match m with Arrive p => arrives p | _ => True end.

Lemma play1_sound m σ l σ' : admissible m → play1 m σ = Some (l, σ') → step σ l σ'.
Proof.
  destruct σ as [s ts]. unfold play1, replace_thread. cbn [sy_state sy_threads].
  destruct m as [i oracle|i|p]; cbn [admissible]; intros Hm E.
  - destruct (ts !! i) as [[p own d]|] eqn:Et; [cbn in E|done].
    rewrite <- (take_drop_middle _ _ _ Et) at 1. destruct p as [|B aw f k|q k|k]; [done|..].
    + destruct (f s own) as [[[s' own'] ts'] b] eqn:Ef. simplify_eq. by constructor.
    + simplify_eq. constructor.
    + case_match; [|done]. simplify_eq. by constructor.
  - destruct (ts !! i) as [[p own d]|] eqn:Et; [cbn in E|done].
    rewrite <- (take_drop_middle _ _ _ Et) at 1. case_match eqn:Eb; [|done].
    destruct (drop_guards own s) as [s' ts'] eqn:Ed. simplify_eq. constructor; [|done].
    destruct p as [[]|B aw f k|q k|k]; [by left|right..]; by apply andb_true_iff in Eb.
  - simplify_eq. by constructor.
Qed.
Lemma play_sound c ms : ∀ σ ls σ', Forall admissible ms → play c ms σ = Some (ls, σ') →
  execution_while (λ s, c s = true) σ ls σ'.
Proof.
  induction ms as [|m ms IH]; cbn; intros σ ls σ' Hms E; (case_match eqn:Ec; [|done]).
  - simplify_eq. by constructor.
  - apply Forall_cons in Hms as [Hm Hms]. destruct (play1 m σ) as [[l σ1]|] eqn:E1; [cbn in E|done].
    destruct (play c ms σ1) as [[ls1 σ2]|] eqn:E2; [cbn in E|done]. simplify_eq.
    econstructor; [done|by eapply play1_sound|by apply IH].
Qed.
Lemma execution_weaken (C C' : St → Prop) σ ls σ' :
  (∀ s, C s → C' s) → execution_while C σ ls σ' → execution_while C' σ ls σ'.
Proof. intros HC. induction 1; econstructor; eauto. Qed.

(** An execution on which a test holds at the end. *)
Lemma played c ms σ (check : list Label → System → bool) : Forall admissible ms →
  match play c ms σ with Some (ls, σ') => check ls σ' | None => false end = true →
  ∃ ls σ', execution_while (λ s, c s = true) σ ls σ' ∧ check ls σ' = true.
Proof.
  intros Hms. destruct (play c ms σ) as [[ls σ']|] eqn:E; [|done]. intros Hc. exists ls, σ'.
  split; [by apply play_sound with (ms := ms)|done].
Qed.

(** ** A property of every hold of the lock

    [P] relates what a hold finds to what it leaves, [A] is said of the questions and the
    guards they are asked with, [Q] of the guards at every point of the task, [K] of what it
    ends with. *)
Section Tracked.
Context (P : St → list Guard → St → list Guard → list Task → Prop) (A : Query → list Guard → Prop) (Q : list Guard → Prop).

Fixpoint tracked {R} (p : proc R) (own : list Guard) (K : R → list Guard → Prop) : Prop :=
  match p with
  | Ret r => K r own
  | Atom _ f k => Q own ∧ ∀ s s' own' ts b, f s own = (s', own', ts, b) →
                    P s own s' own' ts ∧ tracked (k b) own' K
  | Ask q k => (Q own ∧ A q own) ∧ ∀ a, tracked (k a) own K
  | Lock k => Q own ∧ tracked k (gate_guard :: own) K
  end.

Lemma tracked_mono {R} (p : proc R) : ∀ own (K K' : R → list Guard → Prop),
  (∀ r own, K r own → K' r own) → tracked p own K → tracked p own K'.
Proof using Type.
  induction p as [a|B aw f k IH|q k IH|k IH]; cbn; intros own K K' HK; [auto|..].
  - intros [HQ Hc]. split; [done|]. intros s s' own' ts b Hf. destruct (Hc s s' own' ts b Hf); eauto.
  - intros [HQ Hc]. split; eauto.
  - intros [HQ Hc]. split; eauto.
Qed.
Lemma tracked_bind {X Y} (p : proc X) (h : X → proc Y) : ∀ own K,
  tracked p own (λ a own, tracked (h a) own K) → tracked (bind p h) own K.
Proof using Type.
  induction p as [a|B' aw f k IH|q k IH|k IH]; cbn; intros own K; [done|..].
  - intros [HQ Hc]. split; [done|]. intros s s' own' ts b Hf. destruct (Hc s s' own' ts b Hf); eauto.
  - intros [HQ Hc]. split; eauto.
  - intros [HQ Hc]. split; eauto.
Qed.
End Tracked.

Lemma tracked_weaken (P P' : St → list Guard → St → list Guard → list Task → Prop) (A A' : Query → list Guard → Prop)
    (Q Q' : list Guard → Prop) {R} (p : proc R) :
  (∀ s own s' own' ts, P s own s' own' ts → P' s own s' own' ts) → (∀ q own, A q own → A' q own) →
  (∀ own, Q own → Q' own) → ∀ own K, tracked P A Q p own K → tracked P' A' Q' p own K.
Proof.
  intros HP HA HQ. induction p as [a|B aw f k IH|q k IH|k IH]; cbn; intros own K; [done|..].
  - intros [H1 Hc]. split; [auto|]. intros s s' own' ts b Hf. destruct (Hc s s' own' ts b Hf); eauto.
  - intros [[H1 H2] Hc]. split; eauto.
  - intros [H1 Hc]. split; eauto.
Qed.

Definition whatever {R} : R → list Guard → Prop := λ _ _, True.
Definition any_guards : list Guard → Prop := λ _, True.
Definition any_hold : St → list Guard → St → list Guard → list Task → Prop := λ _ _ _ _ _, True.
Definition any_question : Query → list Guard → Prop := λ _ _, True.

(** Every task of a system, and every one that comes to be, is tracked. *)
Definition every_hold (P : St → list Guard → St → list Guard → list Task → Prop) (A : Query → list Guard → Prop)
    (t : Thread) : Prop :=
  tracked P A any_guards (th_proc t) (th_own t) whatever.

Section EveryHold.
Context (P : St → list Guard → St → list Guard → list Task → Prop) (A : Query → list Guard → Prop)
  (Htask : ∀ t, every_hold P A (start_task t)) (Harr : ∀ p, arrives p → every_hold P A (MkThread p [] true)).

Lemma every_hold_step σ l σ' : step σ l σ' → Forall (every_hold P A) (sy_threads σ) → Forall (every_hold P A) (sy_threads σ').
Proof using Htask Harr.
  intros Hstep Hb. assert (∀ ts, Forall (every_hold P A) (map start_task ts)) as Hsp.
  { intros ts. induction ts; constructor; auto. }
  destruct Hstep as [l1 l2 s B aw f k own d s' own' ts b Hf|l1 l2 s q k own d a|l1 l2 s k own d Hfree|l1 l2 s p own d s' ts Hp Hd|s s' l Ho|s l p Hp];
    cbn [sy_state sy_threads] in *; [apply Forall_app in Hb as [Hb1 [Hh Hb2]%Forall_cons]..|done|].
  - apply Forall_app. split; [done|]. apply Forall_cons. split; [|apply Forall_app; split; [done|apply Hsp]].
    destruct Hh as [_ Hh]. by eapply Hh.
  - apply Forall_app. split; [done|]. apply Forall_cons. split; [apply Hh|done].
  - apply Forall_app. split; [done|]. apply Forall_cons. split; [apply Hh|done].
  - apply Forall_app. split; [done|]. apply Forall_app. by split.
  - apply Forall_app. split; [done|]. apply Forall_cons. split; [by apply Harr|done].
Qed.

(** A question is asked as [A] says. *)
Lemma step_asks σ q a σ' : step σ (Asked q a) σ' → Forall (every_hold P A) (sy_threads σ) →
  ∃ t, t ∈ sy_threads σ ∧ A q (th_own t) ∧ ∃ k, th_proc t = Ask q k.
Proof using Type.
  intros Hstep Hb. inversion Hstep; simplify_eq. cbn [sy_threads] in *.
  apply Forall_app in Hb as [_ [[[_ HA] _] _]%Forall_cons]. eexists. split; [apply elem_of_app; right; by left|]. cbn. eauto.
Qed.

(** What a step does to the state: the hold of some task, the gate, the end of a task, or the
    rest of the program. *)
Lemma step_state σ l σ' : step σ l σ' → Forall (every_hold P A) (sy_threads σ) →
  sy_state σ' = sy_state σ ∨
  (∃ t own' ts, t ∈ sy_threads σ ∧ P (sy_state σ) (th_own t) (sy_state σ') own' ts) ∨
  (gate_free (sy_state σ) = true ∧ sy_state σ' = take_gate (sy_state σ)) ∨
  (∃ t, t ∈ sy_threads σ ∧ sy_state σ' = (drop_guards (th_own t) (sy_state σ)).1) ∨
  outside (sy_state σ) (sy_state σ').
Proof using Type.
  clear Htask Harr.
  intros Hstep Hb.
  destruct Hstep as [l1 l2 s B aw f k own d s' own' ts b Hf|l1 l2 s q k own d a|l1 l2 s k own d Hfree|l1 l2 s p own d s' ts Hp Hd|s s' l Ho|s l p Hp];
    cbn [sy_state sy_threads] in *; auto 10.
  - right. left. apply Forall_app in Hb as [_ [[_ Hh] _]%Forall_cons].
    destruct (Hh s s' own' ts b Hf) as [HP _]. exists (MkThread (Atom aw f k) own d), own', ts. split; [set_solver|done].
  - do 3 right. left. exists (MkThread p own d). split; [set_solver|]. cbn. by rewrite Hd.
Qed.
End EveryHold.

(** ** Exclusive guards

    A guard of which there is one, such as that of a mutex or a ticket: the state knows
    whether it is out. *)
Section Exclusive.
Context (excl : Guard → bool) (out : Guard → St → bool).

Definition bit (b : bool) : nat := if b then 1 else 0.
Definition count (g : Guard) (own : list Guard) : nat := length (filter (λ g', g' = g) own).

Lemma count_nil g : count g [] = 0%nat.
Proof using Type. done. Qed.
Lemma count_guard_cons g g' own : count g (g' :: own) = (bit (bool_decide (g' = g)) + count g own)%nat.
Proof using Type. unfold count. rewrite filter_cons. case_decide; case_bool_decide; done. Qed.
Lemma count_app g l1 l2 : count g (l1 ++ l2) = (count g l1 + count g l2)%nat.
Proof using Type. unfold count. by rewrite filter_app, length_app. Qed.

Lemma count_elem g own : g ∈ own → (1 ≤ count g own)%nat.
Proof using Type.
  intros Hin. unfold count. assert (g ∈ filter (λ g', g' = g) own) as Hf by (by apply list_elem_of_filter).
  destruct (filter _ own); [by apply elem_of_nil in Hf|cbn; lia].
Qed.

(** What is taken from the state comes into the task's hands, and conversely; guards that
    are dropped were held. *)
Definition balanced (s : St) (own : list Guard) (s' : St) (own' : list Guard) (ts : list Task) : Prop :=
  ∀ g, excl g = true → (count g own ≤ bit (out g s))%nat →
    (count g own' + count g (flat_map task_own ts) + bit (out g s) = count g own + bit (out g s'))%nat.

Class ExclusiveLaws := {
  release_out g g' s : excl g = true → out g (release g' s).1 = out g s && negb (bool_decide (g' = g));
  release_spawns g g' s : excl g = true → count g (flat_map task_own (release g' s).2) = 0%nat;
  gate_excl : excl gate_guard = true;
  gate_free_out s : gate_free s = negb (out gate_guard s);
  take_gate_out g s : excl g = true → out g (take_gate s) = out g s || bool_decide (g = gate_guard);
  outside_out g s s' : excl g = true → outside s s' → out g s' = out g s
}.
Context {EL : ExclusiveLaws}.

Definition accounted (σ : System) : Prop :=
  ∀ g, excl g = true → count g (flat_map th_own (sy_threads σ)) = bit (out g (sy_state σ)).

Lemma drop_guards_count own : ∀ g s n, excl g = true → (n + count g own)%nat = bit (out g s) →
  n = bit (out g (drop_guards own s).1).
Proof using EL.
  induction own as [|g' own IH]; intros g s n Hg Hc; cbn [drop_guards].
  { rewrite count_nil in Hc. cbn. lia. }
  pose proof (release_out g g' s Hg) as Hr. destruct (release g' s) as [s1 ts]. cbn [fst] in Hr.
  destruct (drop_guards own s1) as [s2 ts'] eqn:E. cbn [fst]. change s2 with (s2, ts').1. rewrite <- E.
  apply IH; [done|]. rewrite Hr. rewrite count_guard_cons in Hc. case_bool_decide; cbn [bit negb] in *; rewrite ?andb_true_r, ?andb_false_r.
  - destruct (out g s); cbn [bit] in *; lia.
  - done.
Qed.

Lemma spawned_own ts : flat_map th_own (map start_task ts) = flat_map task_own ts.
Proof using Type. induction ts; cbn; congruence. Qed.
Lemma drop_guards_spawns own : ∀ g s, excl g = true → count g (flat_map task_own (drop_guards own s).2) = 0%nat.
Proof using EL.
  induction own as [|g' own IH]; intros g s Hg; cbn [drop_guards]; [done|].
  pose proof (release_spawns g g' s Hg) as Hr. destruct (release g' s) as [s1 ts].
  specialize (IH g s1 Hg). destruct (drop_guards own s1) as [s2 ts']. cbn [snd] in *.
  rewrite flat_map_app, count_app. lia.
Qed.

Lemma accounted_step σ l σ' :
  Forall (every_hold balanced any_question) (sy_threads σ) → step σ l σ' → accounted σ → accounted σ'.
Proof using EL.
  intros Hb Hstep Ha. unfold accounted in *. intros g Hg. specialize (Ha g Hg).
  destruct Hstep as [l1 l2 s B aw f k own d s' own' ts b Hf|l1 l2 s q k own d a|l1 l2 s k own d Hfree|l1 l2 s p own d s' ts Hp Hd|s s' l Ho|s l p Hp];
    cbn [sy_state sy_threads] in *.
  - apply Forall_app in Hb as [_ [[_ Hh] _]%Forall_cons].
    rewrite !flat_map_app in *. cbn [flat_map th_own app] in *. rewrite !flat_map_app, spawned_own in *.
    rewrite !count_app in *. destruct (Hh s s' own' ts b Hf) as [HP _]. specialize (HP g Hg ltac:(cbn; lia)). cbn in HP. lia.
  - rewrite !flat_map_app in *. exact Ha.
  - rewrite !flat_map_app in *. cbn [flat_map th_own app] in *.
    rewrite !count_app in *. rewrite take_gate_out by done. rewrite gate_free_out in Hfree.
    rewrite count_guard_cons, ?count_app. destruct (decide (g = gate_guard)) as [->|Hgg].
    + rewrite !bool_decide_eq_true_2 by done. rewrite orb_true_r. destruct (out gate_guard s); [done|].
      cbn [bit] in *. lia.
    + rewrite !bool_decide_eq_false_2 by congruence. rewrite orb_false_r. cbn [bit]. lia.
  - rewrite !flat_map_app in *. cbn [flat_map th_own app] in *. rewrite spawned_own. rewrite !count_app in *.
    pose proof (drop_guards_spawns own g s Hg) as Hz. rewrite Hd in Hz. cbn [snd] in Hz. rewrite Hz.
    change s' with (s', ts).1. rewrite <- Hd. apply (drop_guards_count own g s); [done|lia].
  - by rewrite (outside_out g s s').
  - rewrite flat_map_app. cbn [flat_map th_own app]. by rewrite !app_nil_r.
Qed.

Lemma accounted_held σ g : accounted σ → excl g = true →
  out g (sy_state σ) = true ↔ ∃ t, t ∈ sy_threads σ ∧ g ∈ th_own t.
Proof using Type.
  intros Ha Hg. specialize (Ha g Hg). split.
  - intros Ho. rewrite Ho in Ha. destruct (filter (λ g', g' = g) (flat_map th_own (sy_threads σ))) as [|x l] eqn:E.
    { unfold count in Ha. by rewrite E in Ha. }
    assert (x ∈ filter (λ g', g' = g) (flat_map th_own (sy_threads σ))) as [-> Hx]%list_elem_of_filter; [rewrite E; by left|].
    apply list_elem_of_In, in_flat_map in Hx as (t & Ht & Hx). exists t. by rewrite !list_elem_of_In.
  - intros (t & (l1 & l2 & Ht)%list_elem_of_split & Hin%count_elem). rewrite Ht, flat_map_app in Ha.
    cbn [flat_map] in Ha. rewrite !count_app in Ha. destruct (out g (sy_state σ)); [done|]. cbn [bit] in Ha. lia.
Qed.

(** Two tasks never hold one exclusive guard. *)
Lemma exclusive_once σ g l1 t1 l2 t2 l3 :
  accounted σ → excl g = true → sy_threads σ = (l1 ++ t1 :: l2 ++ t2 :: l3)%list →
  ¬ (g ∈ th_own t1 ∧ g ∈ th_own t2).
Proof using Type.
  intros Ha Hg Ht [H1 H2]. specialize (Ha g Hg). rewrite Ht in Ha.
  rewrite flat_map_app in Ha. cbn [flat_map] in Ha. rewrite flat_map_app in Ha. cbn [flat_map] in Ha.
  rewrite !count_app in Ha.
  apply count_elem in H1, H2. unfold bit in Ha. destruct (out g (sy_state σ)); lia.
Qed.
End Exclusive.
(** ** What is needed is attended to

    [needs] is a state of affairs that some task must end.  A task [covers] it when, whatever
    the others do, it ends it or hands it to a task it spawns, and when dropping the task
    does.  [serves] are the tasks that cover it from their start. *)
Section Attended.
Context (needs : St → Prop) {needs_dec : ∀ s, Decision (needs s)} (serves : Task → Prop).

Definition relieved (s : St) (ts : list Task) : Prop := needs s → ∃ t, t ∈ ts ∧ serves t.
Definition safe_drop (own : list Guard) : Prop := ∀ s, relieved (drop_guards own s).1 (drop_guards own s).2.

Fixpoint covers {R} (d : bool) (p : proc R) (own : list Guard) (K : R → list Guard → Prop) : Prop :=
  match p with
  | Ret r => K r own
  | Atom aw f k => (d = true → aw = true → safe_drop own) ∧
      ∀ s s' own' ts b, f s own = (s', own', ts, b) → relieved s' ts ∨ covers d (k b) own' K
  | Ask q k => (d = true → safe_drop own) ∧ ∀ a, covers d (k a) own K
  | Lock k => (d = true → safe_drop own) ∧ covers d k (gate_guard :: own) K
  end.

(** Every hold that creates the need leaves it covered; [N] is said of the end. *)
Fixpoint brings {R} (d : bool) (p : proc R) (own : list Guard) (K N : R → list Guard → Prop) : Prop :=
  match p with
  | Ret r => N r own
  | Atom _ f k =>
      ∀ s s' own' ts b, f s own = (s', own', ts, b) →
        (¬ needs s → relieved s' ts ∨ covers d (k b) own' K) ∧ brings d (k b) own' K N
  | Ask q k => ∀ a, brings d (k a) own K N
  | Lock k => brings d k (gate_guard :: own) K N
  end.

Definition at_end : () → list Guard → Prop := λ _ own, safe_drop own.
Definition attends (t : Thread) : Prop := covers (th_may_die t) (th_proc t) (th_own t) at_end.

Lemma covers_mono {R} d (p : proc R) : ∀ own (K K' : R → list Guard → Prop),
  (∀ r own, K r own → K' r own) → covers d p own K → covers d p own K'.
Proof using Type.
  induction p as [a|B aw f k IH|q k IH|k IH]; cbn; intros own K K' HK; [auto|..].
  - intros [Hs Hc]. split; [done|]. intros s s' own' ts b Hf. destruct (Hc s s' own' ts b Hf); [by left|right; eauto].
  - intros [Hs Hc]. split; eauto.
  - intros [Hs Hc]. split; eauto.
Qed.
Lemma covers_bind {A B} d (p : proc A) (h : A → proc B) : ∀ own K,
  covers d p own (λ a own, covers d (h a) own K) → covers d (bind p h) own K.
Proof using Type.
  induction p as [a|B' aw f k IH|q k IH|k IH]; cbn; intros own K; [done|..].
  - intros [Hs Hc]. split; [done|]. intros s s' own' ts b Hf. destruct (Hc s s' own' ts b Hf); [by left|right; eauto].
  - intros [Hs Hc]. split; eauto.
  - intros [Hs Hc]. split; eauto.
Qed.
Lemma brings_bind {A B} d (p : proc A) (h : A → proc B) K N : ∀ own,
  brings d p own (λ a own, covers d (h a) own K) (λ a own, brings d (h a) own K N) → brings d (bind p h) own K N.
Proof using Type.
  induction p as [a|B' aw f k IH|q k IH|k IH]; cbn; intros own Hp; [done|..|auto|auto].
  intros s s' own' ts b E. destruct (Hp s s' own' ts b E) as [Hf Hk]. split; [|auto].
  intros Hn. destruct (Hf Hn); [by left|right; by apply covers_bind].
Qed.
Lemma brings_mono {R} d (p : proc R) K N N' : ∀ own,
  (∀ r own, N r own → N' r own) → brings d p own K N → brings d p own K N'.
Proof using Type.
  induction p as [a|B' aw f k IH|q k IH|k IH]; cbn; intros own HN Hp; [auto|..|eauto|eauto].
  intros s s' own' ts b E. destruct (Hp s s' own' ts b E) as [Hf Hk]. split; eauto.
Qed.

(** A task that never creates the need; one whose guards hand it over. *)
Definition needless (s : St) (_ : list Guard) (s' : St) (_ : list Guard) (_ : list Task) : Prop := needs s' → needs s.
Lemma needless_brings {R} d (p : proc R) A Q K N : ∀ own, tracked needless A Q p own N → brings d p own K N.
Proof using Type.
  induction p as [a|B aw f k IH|q k IH|k IH]; cbn; intros own Hp; [done|..].
  - intros s s' own' ts b E. destruct Hp as [_ Hp]. destruct (Hp s s' own' ts b E) as [Hl Hk]. split; [|auto].
    intros Hn. left. intros Hs'. by apply Hl in Hs'.
  - intros a. destruct Hp. auto.
  - destruct Hp. auto.
Qed.
Lemma tracked_covers {R} d P A Q (p : proc R) K : (∀ own, Q own → d = true → safe_drop own) →
  ∀ own, tracked P A Q p own K → covers d p own K.
Proof using Type.
  intros HQ. induction p as [a|B aw f k IH|q k IH|k IH]; cbn; intros own Hp; [done|..].
  - destruct Hp as [Ho Hp]. split; [eauto|]. intros s s' own' ts b E. destruct (Hp s s' own' ts b E). auto.
  - destruct Hp as [[Ho _] Hp]. split; eauto.
  - destruct Hp. split; eauto.
Qed.

Class AttendedLaws := {
  release_needs g s : needs (release g s).1 → needs s;
  gate_needs s : needs (take_gate s) → needs s;
  outside_needs s s' : outside s s' → needs s' → needs s;
  serves_attends t : serves t → attends (start_task t)
}.
Context {AL : AttendedLaws}.

Lemma drop_guards_needs own : ∀ s, needs (drop_guards own s).1 → needs s.
Proof using AL.
  induction own as [|g own IH]; intros s; cbn [drop_guards]; [done|].
  pose proof (release_needs g s) as Hg. destruct (release g s) as [s1 ts]. cbn [fst] in Hg.
  specialize (IH s1). destruct (drop_guards own s1). cbn in *. auto.
Qed.

Lemma attends_safe t : attends t → th_proc t = Ret () ∨ th_may_die t = true ∧ awaits (th_proc t) = true → safe_drop (th_own t).
Proof using Type.
  unfold attends. destruct t as [p own d]. cbn. intros Hc [->|[Hd Ha]]; [exact Hc|].
  destruct p; cbn in Hc; [exact Hc|naive_solver..].
Qed.

Definition attended (σ : System) : Prop := needs (sy_state σ) → ∃ t, t ∈ sy_threads σ ∧ attends t.
Definition brought (t : Thread) : Prop := brings (th_may_die t) (th_proc t) (th_own t) at_end whatever.
Definition all_bring (σ : System) : Prop := Forall brought (sy_threads σ).

Lemma served s ts l : relieved s ts → needs s → ∃ t, t ∈ (l ++ map start_task ts)%list ∧ attends t.
Proof using AL.
  intros Hr Hn. destruct (Hr Hn) as (t & Ht & Hs). exists (start_task t). split; [|by apply serves_attends].
  apply elem_of_app. right. apply list_elem_of_fmap. by exists t.
Qed.

Lemma attended_step σ l σ' :
  (∀ t, brought (start_task t)) → (∀ p, arrives p → brought (MkThread p [] true)) →
  step σ l σ' → attended σ ∧ all_bring σ → attended σ' ∧ all_bring σ'.
Proof using AL needs_dec.
  intros Htask Harr Hstep [Ha Hb].
  assert (∀ ts, Forall brought (map start_task ts)) as Hsp.
  { intros ts. induction ts; constructor; auto. }
  unfold all_bring, attended in *.
  destruct Hstep as [l1 l2 s B aw f k own d s' own' ts b Hf|l1 l2 s q k own d a|l1 l2 s k own d Hfree|l1 l2 s p own d s' ts Hp Hd|s s' l Ho|s l p Hp];
    cbn [sy_state sy_threads] in *.
  - apply Forall_app in Hb as [Hb1 [Hb0 Hb2]%Forall_cons]. destruct (Hb0 s s' own' ts b Hf) as [Hh Hk]. split.
    2:{ apply Forall_app. split; [done|]. apply Forall_cons. split; [apply Hk|]. apply Forall_app. split; [done|apply Hsp]. }
    intros Hn'. assert (relieved s' ts ∨ covers d (k b) own' at_end →
      ∃ t, t ∈ (l1 ++ MkThread (k b) own' d :: l2 ++ map start_task ts)%list ∧ attends t) as Hdone.
    { intros [Hr|Hc]; [|exists (MkThread (k b) own' d); split; [set_solver|exact Hc]].
      destruct (served s' ts (l1 ++ MkThread (k b) own' d :: l2)%list Hr Hn') as (t & Ht & Hat).
      exists t. split; [|done]. by rewrite <- app_assoc in Ht. }
    destruct (decide (needs s)) as [Hn|Hn]; [|apply Hdone; eauto].
    destruct (Ha Hn) as (t & Ht & Hat). apply elem_of_app in Ht as [Ht|[->|Ht]%elem_of_cons].
    + exists t. split; [set_solver|done].
    + apply Hdone. destruct Hat as [_ Hat]. eauto.
    + exists t. split; [set_solver|done].
  - apply Forall_app in Hb as [Hb1 [Hh Hb2]%Forall_cons]. split.
    2:{ apply Forall_app. split; [done|]. apply Forall_cons. split; [apply Hh|done]. }
    intros Hn. destruct (Ha Hn) as (t & Ht & Hat). apply elem_of_app in Ht as [Ht|[->|Ht]%elem_of_cons].
    + exists t. split; [set_solver|done].
    + exists (MkThread (k a) own d). split; [set_solver|]. apply Hat.
    + exists t. split; [set_solver|done].
  - apply Forall_app in Hb as [Hb1 [Hh Hb2]%Forall_cons]. split.
    2:{ apply Forall_app. split; [done|]. apply Forall_cons. by split. }
    intros Hn%gate_needs. destruct (Ha Hn) as (t & Ht & Hat). apply elem_of_app in Ht as [Ht|[->|Ht]%elem_of_cons].
    + exists t. split; [set_solver|done].
    + exists (MkThread k (gate_guard :: own) d). split; [set_solver|]. apply Hat.
    + exists t. split; [set_solver|done].
  - apply Forall_app in Hb as [Hb1 [Hh Hb2]%Forall_cons]. split.
    2:{ apply Forall_app. split; [done|]. apply Forall_app. by split. }
    intros Hn'. pose proof (drop_guards_needs own s) as Hdn. rewrite Hd in Hdn. cbn [fst] in Hdn.
    destruct (Ha (Hdn Hn')) as (t & Ht & Hat). apply elem_of_app in Ht as [Ht|[->|Ht]%elem_of_cons].
    + exists t. split; [set_solver|done].
    + pose proof (attends_safe _ Hat Hp s) as Hr. cbn [th_own] in Hr. rewrite Hd in Hr. cbn [fst snd] in Hr.
      destruct (served s' ts (l1 ++ l2)%list Hr Hn') as (t & Ht & Hat'). exists t. split; [|done]. by rewrite <- app_assoc in Ht.
    + exists t. split; [set_solver|done].
  - split; [|done]. intros Hn'. apply Ha. by eapply outside_needs.
  - split.
    + intros Hn. destruct (Ha Hn) as (t & Ht & Hat). exists t. split; [set_solver|done].
    + apply Forall_app. split; [done|]. apply Forall_cons. split; [by apply Harr|done].
Qed.
End Attended.

(** ** What is not done any more

    While the state is [calm] a [quiet] task does not come to ask a [loud] question.  A task
    is [guarded] when it only stops being quiet with the gate in its hands. *)
Section Quiet.
Context (calm : St → Prop) (loud : Query → Prop).

Fixpoint quiet {R} (p : proc R) (own : list Guard) (K : R → list Guard → Prop) : Prop :=
  match p with
  | Ret r => K r own
  | Atom _ f k => ∀ s s' own' ts b, calm s → f s own = (s', own', ts, b) → quiet (k b) own' K
  | Ask q k => ¬ loud q ∧ ∀ a, quiet (k a) own K
  | Lock k => quiet k (gate_guard :: own) K
  end.

Fixpoint guarded {R} (p : proc R) (own : list Guard) (K KQ : R → list Guard → Prop) : Prop :=
  match p with
  | Ret r => K r own
  | Atom _ f k =>
      ∀ s s' own' ts b, f s own = (s', own', ts, b) →
        guarded (k b) own' K KQ ∧ (gate_guard ∉ own' → quiet (k b) own' KQ)
  | Ask q k => ∀ a, guarded (k a) own K KQ
  | Lock k => guarded k (gate_guard :: own) K KQ
  end.

Definition disciplined (t : Thread) : Prop :=
  guarded (th_proc t) (th_own t) whatever whatever ∧
  (gate_guard ∉ th_own t → quiet (th_proc t) (th_own t) whatever).

Lemma quiet_mono {R} (p : proc R) (K K' : R → list Guard → Prop) : (∀ r own, K r own → K' r own) →
  ∀ own, quiet p own K → quiet p own K'.
Proof using Type.
  intros HK. induction p as [a|B aw f k IH|q k IH|k IH]; cbn; intros own; [auto|eauto|intros [? ?]; split; auto|auto].
Qed.
Lemma quiet_bind {A B} (p : proc A) (h : A → proc B) K : ∀ own, quiet p own (λ a own, quiet (h a) own K) → quiet (bind p h) own K.
Proof using Type.
  induction p as [a|B' aw f k IH|q k IH|k IH]; cbn; intros own; [done|eauto|intros [? ?]; split; auto|auto].
Qed.
Lemma guarded_mono {R} (p : proc R) (K K' KQ KQ' : R → list Guard → Prop) :
  (∀ r own, K r own → K' r own) → (∀ r own, KQ r own → KQ' r own) → ∀ own, guarded p own K KQ → guarded p own K' KQ'.
Proof using Type.
  intros HK HKQ. induction p as [a|B' aw f k IH|q k IH|k IH]; cbn; intros own; [auto|..|auto|auto].
  intros Hg s s' own' ts b E. destruct (Hg s s' own' ts b E) as [H1 H2]. split; [auto|].
  intros Hf. eapply quiet_mono; [exact HKQ|auto].
Qed.
Lemma guarded_bind {A B} (p : proc A) (h : A → proc B) K KQ : ∀ own,
  guarded p own (λ a own, guarded (h a) own K KQ) (λ a own, quiet (h a) own KQ) → guarded (bind p h) own K KQ.
Proof using Type.
  induction p as [a|B' aw f k IH|q k IH|k IH]; cbn; intros own Hg; [done|..|auto|auto].
  intros s s' own' ts b E. destruct (Hg s s' own' ts b E) as [H1 H2].
  split; [by apply IH|]. intros Hf. by apply quiet_bind, H2.
Qed.

(** A task that asks nothing loud. *)
Definition unheard (q : Query) (_ : list Guard) : Prop := ¬ loud q.
Lemma tracked_quiet {R} P Q (p : proc R) K : ∀ own, tracked P unheard Q p own K → quiet p own K.
Proof using Type.
  induction p as [a|B aw f k IH|q k IH|k IH]; cbn; intros own Hp; [done|..].
  - intros s s' own' ts b _ E. destruct Hp as [_ Hp]. apply IH. by apply (Hp s s' own' ts b).
  - destruct Hp as [[_ Hq] Hp]. split; auto.
  - apply IH, Hp.
Qed.
Lemma tracked_guarded {R} P Q (p : proc R) K : ∀ own, tracked P unheard Q p own K → guarded p own K K.
Proof using Type.
  induction p as [a|B aw f k IH|q k IH|k IH]; cbn; intros own Hp; [done|..].
  - intros s s' own' ts b E. destruct Hp as [_ Hp]. destruct (Hp s s' own' ts b E) as [_ Hk].
    split; [auto|]. intros _. by eapply tracked_quiet.
  - destruct Hp as [_ Hp]. auto.
  - apply IH, Hp.
Qed.

(** A part that never lets go of the gate. *)
Definition keeps_gate (_ : St) (own : list Guard) (_ : St) (own' : list Guard) (_ : list Task) : Prop :=
  gate_guard ∈ own → gate_guard ∈ own'.
Lemma tracked_kept {R} A Q (p : proc R) K KQ : ∀ own, gate_guard ∈ own → tracked keeps_gate A Q p own K → guarded p own K KQ.
Proof using Type.
  induction p as [a|B aw f k IH|q k IH|k IH]; cbn; intros own Hg Hp; [done|..].
  - intros s s' own' ts b E. destruct Hp as [_ Hp]. destruct (Hp s s' own' ts b E) as [Hk Hp']. specialize (Hk Hg).
    split; [by apply IH|]. done.
  - intros a. apply IH; [done|]. apply Hp.
  - apply IH; [|apply Hp]. apply elem_of_cons. by left.
Qed.

Context (Htask : ∀ t, disciplined (start_task t)) (Hgateless : ∀ t, gate_guard ∉ task_own t) (Harr : ∀ p, arrives p → disciplined (MkThread p [] true)).

Definition all_disciplined (σ : System) : Prop := Forall disciplined (sy_threads σ).
Definition hushed (σ : System) : Prop := Forall (λ t, quiet (th_proc t) (th_own t) whatever) (sy_threads σ).

Lemma disciplined_step σ l σ' : step σ l σ' → all_disciplined σ → all_disciplined σ'.
Proof using Htask Harr Hgateless.
  intros Hstep Hb. assert (∀ ts, Forall disciplined (map start_task ts)) as Hsp.
  { intros ts. induction ts; constructor; cbn; auto. }
  unfold all_disciplined in *.
  destruct Hstep as [l1 l2 s B aw f k own d s' own' ts b Hf|l1 l2 s q k own d a|l1 l2 s k own d Hfree|l1 l2 s p own d s' ts Hp Hd|s s' l Ho|s l p Hp];
    cbn [sy_state sy_threads] in *; [apply Forall_app in Hb as [Hb1 [Hh Hb2]%Forall_cons]..|done|].
  - apply Forall_app. split; [done|]. apply Forall_cons. split; [|apply Forall_app; split; [done|apply Hsp]].
    destruct Hh as [Hg _]. by eapply Hg.
  - apply Forall_app. split; [done|]. apply Forall_cons. split; [|done]. destruct Hh as [Hg Hq].
    split; [apply Hg|]. intros Hn. apply (Hq Hn).
  - apply Forall_app. split; [done|]. apply Forall_cons. split; [|done]. destruct Hh as [Hg Hq].
    split; cbn [th_own th_proc]; [exact Hg|]. intros Hn. exfalso. apply Hn. apply elem_of_cons. by left.
  - apply Forall_app. split; [done|]. apply Forall_app. by split.
  - apply Forall_app. split; [done|]. apply Forall_cons. split; [by apply Harr|done].
Qed.

Lemma hushed_step σ l σ' : calm (sy_state σ) → step σ l σ' → hushed σ →
  hushed σ' ∧ match l with Asked q _ => ¬ loud q | _ => True end.
Proof using Htask Harr Hgateless.
  intros Hc Hstep Hb. assert (∀ t, quiet (task_proc t) (task_own t) whatever) as Hq.
  { intros t. destruct (Htask t) as [_ Hq]. apply Hq. apply Hgateless. }
  assert (∀ ts, Forall (λ t, quiet (th_proc t) (th_own t) whatever) (map start_task ts)) as Hsp.
  { intros ts. induction ts; constructor; cbn; auto. }
  unfold hushed in *.
  destruct Hstep as [l1 l2 s B aw f k own d s' own' ts b Hf|l1 l2 s q k own d a|l1 l2 s k own d Hfree|l1 l2 s p own d s' ts Hp Hd|s s' l Ho|s l p Hp];
    cbn [sy_state sy_threads] in *; [apply Forall_app in Hb as [Hb1 [Hh Hb2]%Forall_cons]..|done|].
  - split; [|done]. apply Forall_app. split; [done|]. apply Forall_cons. split; [|apply Forall_app; split; [done|apply Hsp]].
    by eapply Hh.
  - destruct Hh as [Hl Hh]. split; [|done]. apply Forall_app. split; [done|]. apply Forall_cons. split; [apply Hh|done].
  - split; [|done]. apply Forall_app. split; [done|]. apply Forall_cons. by split.
  - split; [|done]. apply Forall_app. split; [done|]. apply Forall_app. by split.
  - split; [|done]. apply Forall_app. split; [done|]. apply Forall_cons. split; [|done].
    destruct (Harr _ Hp) as [_ Hq']. apply Hq'. cbn. set_solver.
Qed.

(** As long as it stays calm, nothing loud is asked. *)
Lemma hushed_execution σ ls σ' : execution_while calm σ ls σ' → hushed σ →
  Forall (λ l, match l with Asked q _ => ¬ loud q | _ => True end) ls.
Proof using Htask Harr Hgateless.
  induction 1 as [|σ1 l σ2 ls σ3 Hc Hs He IH]; intros Hh; [constructor|].
  destruct (hushed_step _ _ _ Hc Hs Hh) as [Hh' Hl]. constructor; auto.
Qed.
End Quiet.

(** With the gate free, every task is quiet; so it is with the gate in the hands of a quiet
    task. *)
Lemma free_gate_hushes calm loud excl out σ :
  excl gate_guard = true → accounted excl out σ → out gate_guard (sy_state σ) = false →
  all_disciplined calm loud σ → hushed calm loud σ.
Proof.
  intros Hg Ha Hout Hd. unfold hushed, all_disciplined in *. rewrite Forall_forall in Hd |- *.
  intros t Ht. apply (Hd t Ht). intros Hin. specialize (Ha _ Hg). rewrite Hout in Ha.
  apply list_elem_of_split in Ht as (l1 & l2 & Ht). rewrite Ht, flat_map_app in Ha. cbn [flat_map bit] in Ha.
  rewrite !count_app in Ha. assert (1 ≤ count gate_guard (th_own t))%nat; [|lia].
  by apply count_elem.
Qed.
(** With the gate in the hands of a quiet task, every task is quiet. *)
Lemma gate_hushes calm loud excl out σ l1 t l2 :
  excl gate_guard = true → accounted excl out σ → all_disciplined calm loud σ →
  sy_threads σ = (l1 ++ t :: l2)%list → gate_guard ∈ th_own t → quiet calm loud (th_proc t) (th_own t) whatever → hushed calm loud σ.
Proof.
  intros Hg Ha Hd Ht Hin Hq. unfold hushed, all_disciplined in *. rewrite Ht in *.
  apply Forall_app in Hd as [Hd1 [_ Hd2]%Forall_cons].
  assert (∀ t', (∃ a b, l1 = a ++ t' :: b)%list ∨ (∃ a b, l2 = a ++ t' :: b)%list → gate_guard ∉ th_own t') as Hno.
  { intros t' [(a & b & ->)|(a & b & ->)] Hin'.
    - apply (exclusive_once excl out σ gate_guard a t' b t l2 Ha Hg); [by rewrite Ht, <- app_assoc|done].
    - by apply (exclusive_once excl out σ gate_guard l1 t a t' b Ha Hg). }
  apply Forall_app. split; [|apply Forall_cons; split; [done|]].
  - rewrite Forall_forall in Hd1 |- *. intros t' Ht'. apply (Hd1 t' Ht'). apply Hno. left.
    by apply list_elem_of_split in Ht'.
  - rewrite Forall_forall in Hd2 |- *. intros t' Ht'. apply (Hd2 t' Ht'). apply Hno. right.
    by apply list_elem_of_split in Ht'.
Qed.
End Executions.
