(* ===== verification/TeamControl.v ===== *)
(** * Control of team runs by their users (crates/relay-server/src/state/app/team.rs; the
      stopping of threads is in workflow.rs and review.rs, the send of a user in sessions.rs)

    Starting, pausing, stopping, marking, resolving, resuming and reopening a run; the guards
    that clean up after a handler or a driver whose future is dropped; and the net that
    reconciles a run whose driver is gone.  Each is a [Proc] of [Process]: a hold of the relay's
    lock is one step of it, [gated] is the scope of a drive-gate guard.  What is asked of the
    providers, of git and of the file system is a [Query]. *)

From Stdlib Require Import ZArith Lia String.
From S2P Require Import Prelude RustStr Json Tokens Backend TeamTypes TeamRun TeamThreads Paths Device Retention.
From S2P Require Import Approvals Transcript Runtime TeamTable Surfaces ThreadState ThreadTurns ThreadFlow Process.

Open Scope string_scope.
Open Scope Z_scope.
Open Scope proc_scope.

(** ** State *)

(** The part of [AppState] that team runs use: the relay's state behind its lock, the clocks,
    the ids of the runs that have a driver, and the two gates. *)
Record AppState : Type := MkAppState {
  as_relay : ThreadState;
  as_beta_features_enabled : bool;
  as_starting_scheduled_proposals : list string;   (** their ids *)
  as_team_turn_phases : gmap string string;
  as_unix_now : Z;
  as_instant : Z;                                  (** [Instant::now], in milliseconds *)
  as_driving_team_runs : gset string;
  as_team_drive_gate : bool;                       (** whether it is held *)
  as_session_guard : bool
}.
#[export] Instance AppState_expand : Expand AppState := λ s,
  MkAppState (as_relay s) (as_beta_features_enabled s) (as_starting_scheduled_proposals s)
    (as_team_turn_phases s) (as_unix_now s) (as_instant s) (as_driving_team_runs s)
    (as_team_drive_gate s) (as_session_guard s).
Definition as_team_runs (s : AppState) : TeamRuns := ts_team_runs (as_relay s).

(** What [Drop] undoes: the mutex guards, [TeamDriveTicket], and the crash nets
    [TeamDriverGuard], [TeamStopGuard] and [TeamRecoveryGuard]. *)
Inductive Guard : Type :=
| DriveGate | SessionSlot
| TeamDriveTicket (run_id : string)
| TeamDriverGuard (run_id : string)
| TeamStopGuard (run_id : string)
| TeamRecoveryGuard (run_id : string).
#[export] Instance Guard_eq_dec : EqDecision Guard.
Proof. solve_decision. Defined.

(** What is given to [tokio::spawn]. *)
Inductive Spawned : Type :=
| RunDriver (run_id : string)
| InterruptIfStranded (run_id : string)
| AbandonStop (run_id : string)
| RestoreBlocked (run_id : string)
| ReleaseThreads (run_id : string).

Record TaskWorktree : Type := MkTaskWorktree {
  wt_path : string; wt_branch : string; wt_target_ref : string; wt_base_commit : string;
  wt_repo_main_worktree : string; wt_source_dirty : bool
}.

(** What [select!] on the watch channel and [sleep_until] gave. *)
Inductive Wake : Type := Changed | ChannelClosed | DeadlinePassed.

(** The thread a provider started for a seat; the model and effort its catalog resolved. *)
Record StartedSeat : Type := MkStartedSeat {
  sst_thread : ThreadSummaryView; sst_model : string; sst_effort : string
}.

(** What [run_git_capture] gives, and the fields of a diff that runs use. *)
Record GitOutput : Type := MkGitOutput { go_code : option Z; go_stdout : string; go_stderr : string }.
Record WorkspaceDiff : Type := MkWorkspaceDiff { wd_diff : string; wd_file_changes : list FileChangeDiffView }.

(** Which provider a send goes to, its models, and the model and effort resolved. *)
Record SendPlan : Type := MkSendPlan {
  sp_provider_name : string; sp_models : option (list ModelOptionView); sp_model : string; sp_effort : string
}.

(** Questions outside the component.  [HowLong] bounds the rounds of a wait: every execution
    is finite, so some number is large enough for it. *)
Inductive Query : Type :=
| DenyApproval (approval : PendingApproval)                  (** find_thread_provider, respond_to_approval *)
| RequestTurnStop (thread_id : string) (turn_id : option string)
| RoutesToProvider (thread_id : string)                      (** find_thread_provider *)
| ReleaseThread (thread_id : string)
| SessionCanTakeATurn (thread_id : string)
| HowLong
| WakeUp (until : Z)
| Trusted (cwd : string)                                     (** admit, trusted *)
| IsLiveDir (cwd : string)
| ProvisionWorktree (origin title : string) (target_branch : option string) (device_scope allowed_roots : list string)
| PlanSend (thread_id : string) (model effort : option string)
| StartTurn (for_run thread_id prompt model effort : string)
| StartedThreadId (thread_id : string)
| ReadLastReply (thread_id : string)
| ResolveProvider (name : string)
| StartSeat (cwd provider model effort approval_policy sandbox : string)
| CollectDiff (cwd : string) (base : option string)
| MergeBase (cwd target_ref : string)
| RunGit (for_run cwd : string) (args : list string)
| UserTurn (thread_id : string).
Definition answer (q : Query) : Type :=
  match q with
  | DenyApproval _ => result () string
  | RequestTurnStop _ _ | RoutesToProvider _ | ReleaseThread _ | SessionCanTakeATurn _
  | Trusted _ | IsLiveDir _ => bool
  | HowLong => nat
  | WakeUp _ => Wake
  | ProvisionWorktree _ _ _ _ _ => result TaskWorktree string
  | PlanSend _ _ _ => result SendPlan string
  | StartTurn _ _ _ _ _ => result (option string) string
  | StartedThreadId _ => string
  | ReadLastReply _ => option (string * string)
  | ResolveProvider _ => result string string
  | StartSeat _ _ _ _ _ _ => result StartedSeat string
  | MergeBase _ _ => option string
  | CollectDiff _ _ => result WorkspaceDiff string
  | RunGit _ _ _ => result GitOutput string
  | UserTurn _ => ()
  end.

Abbreviation proc := (@Proc AppState Guard Spawned Query answer).
Abbreviation ask := (@Process.ask AppState Guard Spawned Query answer).

Inductive ActionError : Type :=
| BadRunId (e : RunIdError)
| OutOfScope (e : ScopeError)
| Refused (message : string).
Abbreviation action A := (proc (result A ActionError)).
Notation "x <-? p ;; k" :=
  (bind p (λ r, match r with Ok x => k%proc | Err e => ret (Err e) end))
  (at level 100, p at next level, right associativity) : proc_scope.
Notation "p ;;? k" :=
  (bind p (λ r, match r with Ok _ => k%proc | Err e => ret (Err e) end))
  (at level 100, right associativity) : proc_scope.

Definition map_err {A E E'} (f : E → E') (r : result A E) : result A E' :=
  match r with Ok a => Ok a | Err e => Err (f e) end.

(** ** Holds of the lock, and guards *)
Definition relay_write {B} (f : Z → ThreadState → ThreadState * B) : proc B :=
  write (λ s, let '(relay, b) := f (as_unix_now s) (as_relay s) in (s <| as_relay := relay |>, b)).
Definition relay_read {B} (f : ThreadState → B) : proc B := read (λ s, f (as_relay s)).

(** [update_team_run], with what its closure leaves in a captured variable. *)
Definition update_run {B} (run_id : string) (f : TeamRun → TeamRun * B) (unchanged : B) (s : ThreadState) :
    ThreadState * B :=
  (s <| ts_team_runs ::= λ m, (update_team_run run_id (λ r, (f r).1) m).1 |>,
   match ts_team_runs s !! run_id with Some r => (f r).2 | None => unchanged end).
Definition set_run (run_id : string) (f : TeamRun → TeamRun) (s : ThreadState) : ThreadState :=
  (update_run run_id (λ r, (f r, ())) () s).1.
Definition notify_if (changed : bool) (s : ThreadState) : ThreadState := if changed then notify s else s.

Definition guard_dropped (g : Guard) (s : AppState) : AppState * list Spawned :=
  match g with
  | DriveGate => (s <| as_team_drive_gate := false |>, [])
  | SessionSlot => (s <| as_session_guard := false |>, [])
  | TeamDriveTicket run_id => (s <| as_driving_team_runs ::= λ d, d ∖ {[run_id]} |>, [])
  | TeamDriverGuard run_id => (s, [InterruptIfStranded run_id])
  | TeamStopGuard run_id => (s, [AbandonStop run_id])
  | TeamRecoveryGuard run_id => (s, [RestoreBlocked run_id])
  end.
(** A guard goes out of scope before its task ends. *)
Definition drop_guard (g : Guard) : proc () :=
  at_once (λ s own, if decide (g ∈ own) then let '(s, ts) := guard_dropped g s in (s, without g own, ts, ())
                    else (s, own, [], ())).

(** [let _gate = self.team_drive_gate.lock().await] and the rest of its block. *)
Definition gated {A} (p : proc A) : proc A := lock;; a <- p;; drop_guard DriveGate;; ret a.

(** [acquire_session_slot]: [try_lock_owned]. *)
Definition SLOT_TAKEN : string :=
  "a review is in progress; wait for it to finish before changing the session".
Definition acquire_session_slot : action () :=
  at_once (λ s own, if as_session_guard s then (s, own, [], Err (Refused SLOT_TAKEN))
                    else (s <| as_session_guard := true |>, SessionSlot :: own, [], Ok ())).
Definition slotted {A} (p : action A) : action A :=
  acquire_session_slot;;? r <- p;; drop_guard SessionSlot;; ret r.

(** [try_hold_team_drive_gate]. *)
Definition try_hold_team_drive_gate : proc bool :=
  at_once (λ s own, if as_team_drive_gate s then (s, own, [], false)
                    else (s <| as_team_drive_gate := true |>, DriveGate :: own, [], true)).

Definition claim_team_drive (run_id : string) : proc bool :=
  at_once (λ s own, if decide (run_id ∈ as_driving_team_runs s) then (s, own, [], false)
                    else (s <| as_driving_team_runs ::= λ d, {[run_id]} ∪ d |>, TeamDriveTicket run_id :: own, [], true)).
(** The ticket moves into the task. *)
Definition spawn_team_driver (run_id : string) : proc () :=
  at_once (λ s own, (s, without (TeamDriveTicket run_id) own, [RunDriver run_id], ())).

Fixpoint each {A} (l : list A) (f : A → proc ()) : proc () :=
  match l with [] => ret () | a :: l => f a;; each l f end.

(** ** Stopping the turns of a thread *)
Definition pending_approvals_of (thread_id : string) (s : ThreadState) : list PendingApproval :=
  filter (λ p, pa_thread_id p = thread_id) (map_to_list (ts_pending_approvals s)).*2.
Definition pending_questions_of (thread_id : string) (s : ThreadState) : list PendingAskUserQuestion :=
  filter (λ p, pq_thread_id p = thread_id) (map_to_list (ts_pending_ask_user_questions s)).*2.

Definition deny_thread_approvals_best_effort (thread_id : string) : proc () :=
  pending <- relay_read (pending_approvals_of thread_id);;
  each pending (λ approval, ask (DenyApproval approval);; ret ()).

Definition clear_thread_interactions (thread_id : string) : proc () :=
  relay_write (λ _ s,
    let approvals := map pa_request_id (pending_approvals_of thread_id s) in
    let questions := map pq_request_id (pending_questions_of thread_id s) in
    match approvals, questions with
    | [], [] => (s, ())
    | _, _ =>
        let s := foldl (λ s id, (remove_pending_approval id s).1) s approvals in
        let s := foldl (λ s id, (remove_pending_ask_user_question id s).1) s questions in
        (notify s, ())
    end).

Definition request_provider_stop (thread_id : string) (turn_id : option string) : proc bool :=
  ask (RequestTurnStop thread_id turn_id).
Definition request_thread_stop (thread_id : string) : proc bool :=
  runtime <- relay_read (λ s, ts_runtimes s !! thread_id);;
  match runtime with
  | Some r => request_provider_stop thread_id (rt_active_turn_id r)
  | None => ret false
  end.

Definition thread_working (thread_id : string) (s : ThreadState) : bool :=
  match ts_runtimes s !! thread_id with Some r => is_working r | None => false end.

Definition push_runtime_log : proc () := relay_write (λ _ s, (notify s, ())).

(** The loop of [stop_and_drain]. *)
Fixpoint drain_loop (rounds : nat) (thread_id : string) (deadline : Z) : proc bool :=
  request_thread_stop thread_id;;
  working <- relay_read (thread_working thread_id);;
  if negb working then clear_thread_interactions thread_id;; ret true
  else
    now <- read as_instant;;
    match rounds with
    | S rounds =>
        if deadline <=? now then push_runtime_log;; ret false
        else ask (WakeUp deadline);; drain_loop rounds thread_id deadline
    | O => push_runtime_log;; ret false
    end.

(** ** The settings of the process *)
Class TeamSettings := {
  workflow_drain_max_ms : Z;
  team_step_stall_ms : Z;
  team_liveness_window_ms : Z;
  available_providers : list string;   (** in the relay's order of preference *)
  has_team_driver : bool
}.

Section Control.
Context `{!TeamSettings, FileSystem}.

Definition stop_and_drain (thread_id : string) : proc bool :=
  deny_thread_approvals_best_effort thread_id;;
  now <- read as_instant;;
  rounds <- ask HowLong;;
  drain_loop rounds thread_id (now + workflow_drain_max_ms).

Definition NO_SUCH_TASK : string := "there is no task with that id".
Definition TASKS_LOCKED_MESSAGE : string :=
  "Tasks is still in development and is off in this build; relaunch with `sealwire --beta` to try it".
Definition HAS_DRIVER : string := "this task already has a driver".

(** ** Reading a run *)
Definition team_run_snapshot (run_id : string) : proc (option TeamRun) :=
  relay_read (λ s, ts_team_runs s !! run_id).
Definition run_status (run_id : string) : action TeamRunStatus :=
  run <- team_run_snapshot run_id;;
  ret (ok_or (tr_status <$> run) (Refused NO_SUCH_TASK)).
Definition owned_threads (run_id : string) (s : ThreadState) : list string :=
  match ts_team_runs s !! run_id with Some r => owned_thread_ids r | None => [] end.
Definition team_owned_threads (run_id : string) : proc (list string) := relay_read (owned_threads run_id).
Definition working_team_threads (run_id : string) : proc (list string) :=
  owned <- team_owned_threads run_id;;
  relay_read (λ s, filter (λ id, thread_working id s = true) owned).

Definition require_embedded_team_backend (run_id : string) : action () :=
  run <- team_run_snapshot run_id;;
  ret match run with
      | None => Err (Refused NO_SUCH_TASK)
      | Some run =>
          if is_executable_by_current_build run then Ok ()
          else Err (Refused (default PINNED (non_executing_backend_reason run)))
      end.

Definition require_stoppable_team_run (run_id : string) : action TeamRunStatus :=
  status <-? run_status run_id;;
  ret (if is_terminal status then Err (Refused ("this task already finished as " +:+ status_as_str status))
       else if bool_decide (status = Blocked) || bool_decide (status = Resolving)
       then Err (Refused "this task is blocked; resolve it first")
       else Ok status).

(** ** Authority *)
Definition require_device_id (device_id : option string) : result string ActionError :=
  ok_or (non_empty device_id) (Refused "device_id is required").
Definition surface_path_scope (device_id : string) (s : ThreadState) : list string := scope_of device_id (ts_surfaces s).
Definition allowed_roots (s : ThreadState) : list string := sf_allowed_roots (ts_surfaces s).
Definition in_worktree_scope (run_id device_id : string) (s : ThreadState) : result () ActionError :=
  let cwd := match ts_team_runs s !! run_id with Some run => tr_cwd run | None => "" end in
  map_err OutOfScope (ensure_path_within_device_scope cwd (surface_path_scope device_id s) (allowed_roots s)).

(** Both authorizations, by how an omitted id is resolved. *)
Definition authorize_with (resolve : TeamRuns → result string RunIdError) (device_id : option string) :
    action (string * string) :=
  match require_device_id device_id with
  | Err e => ret (Err e)
  | Ok device_id =>
      relay_read (λ s,
        let? run_id := map_err BadRunId (resolve (ts_team_runs s)) in
        let? _ := in_worktree_scope run_id device_id s in
        Ok (run_id, device_id))
  end.
Definition authorize_team_action (run_id device_id : option string) : action (string * string) :=
  authorize_with (active_team_run_id run_id) device_id.
Definition authorize_team_mark (run_id device_id : option string) : action (string * string) :=
  authorize_with (team_run_id_for_mark run_id) device_id.

(** ** Writing a settlement *)
Definition release_seats_when_settled (run_id : string) (status : TeamRunStatus) : proc () :=
  if is_terminal status || is_settled_without_driver status then spawn (ReleaseThreads run_id) else ret ().

Definition changed_by (f : TeamRun → TeamRun) (r : TeamRun) : TeamRun * bool :=
  let r' := f r in
  (r', negb (bool_decide (tr_status r' = tr_status r) && bool_decide (tr_error r' = tr_error r))).

Definition fail_team_run (run_id error : string) : proc () :=
  changed <- relay_write (λ now s,
    let '(s, changed) := update_run run_id (changed_by (fail_run now error)) false s in
    (notify_if changed s, changed));;
  if changed then release_seats_when_settled run_id Failed else ret ().
Definition block_team_run (run_id error : string) : proc () :=
  relay_write (λ now s,
    let '(s, changed) := update_run run_id (changed_by (block now error)) false s in
    (notify_if changed s, ())).
Definition update_team_status (run_id : string) (status : TeamRunStatus) : proc () :=
  relay_write (λ now s, (notify (set_run run_id (set_status now status) s), ()));;
  release_seats_when_settled run_id status.

Definition team_boundary_check (run_id : string) : proc (option TeamRunStatus) :=
  relay_read (λ s,
    match ts_team_runs s !! run_id with
    | None => None
    | Some run =>
        if is_terminal (tr_status run) then Some (tr_status run)
        else if is_settled_without_driver (tr_status run) then Some (tr_status run)
        else if tr_pause_requested run then Some Paused else None
    end).

Definition settlement (now : Z) (status : TeamRunStatus) (reason : string) (kind : TeamPauseKind) (r : TeamRun) : TeamRun :=
  match status with
  | Paused => (settle_paused now reason kind r).1
  | Cancelled => (cancel now reason r).1
  | Done => (force_mark_status now Done r).1
  | other => set_status now other r
  end.
Definition still_working (working : list string) : string := String.concat ", " working +:+ " still has a turn in flight".
Definition settle_team_run (run_id : string) (status : TeamRunStatus) (reason : string) (kind : TeamPauseKind) : proc () :=
  run <- team_run_snapshot run_id;;
  if bool_decide (tr_status <$> run = Some status) then ret ()
  else
    working <- (match status with
                | Paused | Cancelled | Done => working_team_threads run_id
                | _ => ret []
                end);;
    match working with
    | _ :: _ =>
        block_team_run run_id
          ("cannot settle this task as " +:+ status_as_str status +:+ ": " +:+ still_working working)
    | [] =>
        relay_write (λ now s, (notify (set_run run_id (settlement now status reason kind) s), ()));;
        release_seats_when_settled run_id status
    end.

(** ** Draining a run *)
Fixpoint drain_each (threads : list string) : proc bool :=
  match threads with
  | [] => ret true
  | thread_id :: threads =>
      stopped <- stop_and_drain thread_id;;
      rest <- drain_each threads;;
      ret (stopped && rest)
  end.
Definition drain_team_run (run_id : string) : proc bool :=
  owned <- team_owned_threads run_id;;
  drained <- drain_each owned;;
  run <- team_run_snapshot run_id;;
  match run ≫= tr_in_flight_thread with
  | Some in_flight =>
      observable <- relay_read (λ s, is_some (ts_runtimes s !! in_flight));;
      ret (drained && observable)
  | None => ret drained
  end.

(** Release every seat of a settled run. *)
Definition release_team_threads (run_id : string) : proc () :=
  owned <- team_owned_threads run_id;;
  each owned (λ thread_id,
    routes <- ask (RoutesToProvider thread_id);;
    if negb routes then ret ()
    else
      released <- ask (ReleaseThread thread_id);;
      if released then ret () else relay_write (λ _ s, (notify s, ()))).

(** ** Crash nets *)
Definition needs_a_driver (run : TeamRun) : bool :=
  is_live_in_current_build run && negb (is_settled_without_driver (tr_status run)).

Definition DRIVER_ENDED : string := "the task's driver ended unexpectedly".
Definition interrupt_team_run_if_stranded (run_id : string) : proc () :=
  run <- team_run_snapshot run_id;;
  if negb (default false (needs_a_driver <$> run)) then ret ()
  else gated (
    drained <- drain_team_run run_id;;
    if negb drained then
      block_team_run run_id
        "the task's driver ended unexpectedly and at least one owned turn did not confirm stopping"
    else
      atom (λ s own,
        let now := as_unix_now s in
        let '(relay, interrupted) :=
          update_run run_id
            (λ r, mark_interrupted_if_stranded now (r <| tr_error := get_or_insert (tr_error r) DRIVER_ENDED |>))
            false (as_relay s) in
        (s <| as_relay := notify_if interrupted relay |>, own,
         (if interrupted then [ReleaseThreads run_id] else []), ()))).

(** [pause_requested] is left set. *)
Definition abandon_stop (r : TeamRun) : TeamRun * bool :=
  if tr_stopping r && negb (is_terminal (tr_status r)) then (r <| tr_stopping := false |>, true) else (r, false).
Definition abandon_team_stop (run_id : string) : proc () :=
  relay_write (λ _ s,
    let '(s, abandoned) := update_run run_id abandon_stop false s in (notify_if abandoned s, ())).

Definition restore_resolving_team_run_as_blocked (run_id error : string) : proc () :=
  relay_write (λ now s,
    let '(s, restored) := update_run run_id (restore_resolving_as_blocked now error) false s in
    (notify_if restored s, ())).

(** ** Pause and stop *)
Definition pause_team_run (run_id device_id : option string) : action TeamRunStatus :=
  who <-? authorize_team_action run_id device_id;;
  let '(run_id, device_id) := who in
  require_embedded_team_backend run_id;;?
  gated (
    status <-? require_stoppable_team_run run_id;;
    if bool_decide (status = Paused) then ret (Ok status)
    else relay_write (λ now s,
      let s := set_run run_id (request_pause now device_id) s in
      (notify s, Ok (default Failed (tr_status <$> ts_team_runs s !! run_id))))).

Inductive TeamStopKind : Type := StopPause | StopCancel | StopDone.
#[export] Instance TeamStopKind_eq_dec : EqDecision TeamStopKind.
Proof. solve_decision. Defined.
Definition settled_status (k : TeamStopKind) : TeamRunStatus :=
  match k with StopPause => Paused | StopCancel => Cancelled | StopDone => Done end.
Definition stop_reason (k : TeamStopKind) : string :=
  match k with
  | StopPause => "stopped by the user"
  | StopCancel => "the task was cancelled by the user"
  | StopDone => "the task was marked done by the user"
  end.

Definition NOT_STOPPED : string := "the task could not be stopped: at least one owned turn did not confirm stopping".
Definition BLOCKED_BY_TURN : string := "this task is blocked because an owned turn did not confirm stopping".
Definition stop_team_run (run_id device_id : option string) (kind : TeamStopKind) : action TeamRunStatus :=
  who <-? authorize_team_action run_id device_id;;
  let '(run_id, device_id) := who in
  require_embedded_team_backend run_id;;?
  gated (
    status <-? require_stoppable_team_run run_id;;
    if bool_decide (kind = StopPause) && bool_decide (status = Paused) then
      drained <- drain_team_run run_id;;
      if negb drained then block_team_run run_id NOT_STOPPED;; ret (Err (Refused BLOCKED_BY_TURN))
      else run_status run_id
    else
      relay_write (λ now s, (notify (set_run run_id (request_stop now device_id) s), ()));;
      arm (TeamStopGuard run_id);;
      drained <- drain_team_run run_id;;
      if negb drained then
        block_team_run run_id NOT_STOPPED;;
        disarm (TeamStopGuard run_id);;
        ret (Err (Refused BLOCKED_BY_TURN))
      else
        settle_team_run run_id (settled_status kind) (stop_reason kind) PauseUser;;
        disarm (TeamStopGuard run_id);;
        run_status run_id).
Definition force_stop_team_run (run_id device_id : option string) : action TeamRunStatus :=
  stop_team_run run_id device_id StopPause.
Definition cancel_team_run (run_id device_id : option string) : action TeamRunStatus :=
  stop_team_run run_id device_id StopCancel.

(** ** Recovery of a blocked run *)
Definition STILL_BLOCKED : string := "this task is still blocked: at least one owned turn did not confirm stopping".
Definition begin_resolving (run_id device_id : string) (now : Z) (s : ThreadState) :
    ThreadState * result () ActionError :=
  match in_worktree_scope run_id device_id s with
  | Err e => (s, Err e)
  | Ok _ =>
      let '(s, began) := update_run run_id (begin_resolving_blocked now) false s in
      if negb began then (s, Err (Refused "this task is no longer blocked")) else (notify s, Ok ())
  end.
(** From the guard on: under the gate. *)
Definition recover_team_run (run_id : string) : action TeamRunStatus :=
  arm (TeamRecoveryGuard run_id);;
  gated (
    drained <- drain_team_run run_id;;
    if negb drained then
      block_team_run run_id STILL_BLOCKED;;
      disarm (TeamRecoveryGuard run_id);;
      ret (Err (Refused "this task is still blocked because an owned turn did not confirm stopping"))
    else
      settled <- relay_write (λ now s,
        let '(s, settled) :=
          update_run run_id (resolve_as_paused now "recovered by stopping every owned turn" PauseUser) false s in
        (notify_if settled s, settled));;
      disarm (TeamRecoveryGuard run_id);;
      if negb settled then
        status <-? run_status run_id;;
        ret (if is_terminal status then Ok status else Err (Refused "this task is no longer resolving"))
      else
        release_seats_when_settled run_id Paused;;
        ret (Ok Paused)).
Definition resolve_blocked_team_run (run_id device_id : option string) : action TeamRunStatus :=
  match require_device_id device_id with
  | Err e => ret (Err e)
  | Ok device_id =>
      run_id <-? relay_write (λ now s,
        match blocked_team_run_id run_id (ts_team_runs s) with
        | Err e => (s, Err (BadRunId e))
        | Ok run_id => let '(s, began) := begin_resolving run_id device_id now s in
                       (s, let? _ := began in Ok run_id)
        end);;
      recover_team_run run_id
  end.

(** ** Marking a run done or cancelled *)
Definition no_longer_marked (status target : TeamRunStatus) : string :=
  "this task is " +:+ status_as_str status +:+ "; it can no longer be marked " +:+ status_as_str target.

(** The write of both marks below; the closure's [changed] and [outcome]. *)
Definition forced_mark (now : Z) (target : TeamRunStatus) (guard : TeamRun → option (result TeamRunStatus ActionError))
    (run : TeamRun) : TeamRun * (bool * result TeamRunStatus ActionError) :=
  match guard run with
  | Some outcome => (run, (false, outcome))
  | None =>
      let '(run, marked) := force_mark_status now target run in
      if negb marked
      then (run, (false, Err (Refused ("this task could not be marked " +:+ status_as_str target))))
      else (run, (true, Ok target))
  end.
Definition write_mark (run_id : string) (target : TeamRunStatus)
    (guard : TeamRun → option (result TeamRunStatus ActionError)) (now : Z) (s : ThreadState) :
    ThreadState * (bool * result TeamRunStatus ActionError) :=
  let '(s, (changed, outcome)) :=
    update_run run_id (forced_mark now target guard) (false, Err (Refused NO_SUCH_TASK)) s in
  (notify_if changed s, (changed, outcome)).

Definition commit_force_mark (run_id : string) (target : TeamRunStatus) (allowed_from : TeamRunStatus → bool) :
    action TeamRunStatus :=
  marked <- relay_write (write_mark run_id target (λ run,
    if bool_decide (tr_status run = target) then Some (Ok target)
    else if negb (allowed_from (tr_status run)) then Some (Err (Refused (no_longer_marked (tr_status run) target)))
    else None));;
  let '(changed, outcome) := marked in
  (if changed then release_seats_when_settled run_id target else ret ());;
  ret outcome.

Definition mark_non_executable_team_run_cancelled (run_id : string) : action TeamRunStatus :=
  marked <- relay_write (write_mark run_id Cancelled (λ run,
    if is_executable_by_current_build run then Some (Err (Refused "this task is executable by this build"))
    else if bool_decide (tr_status run = Cancelled) then Some (Ok Cancelled)
    else None));;
  let outcome := marked.2 in
  (if bool_decide (result_ok outcome = Some Cancelled) then release_seats_when_settled run_id Cancelled else ret ());;
  ret outcome.

Definition mark_quiescent_team_run (run_id : string) (target : TeamRunStatus) : action TeamRunStatus :=
  gated (
    working <- working_team_threads run_id;;
    match working with
    | _ :: _ =>
        ret (Err (Refused ("cannot mark this task " +:+ status_as_str target +:+ ": " +:+ still_working working)))
    | [] => commit_force_mark run_id target (λ status, is_terminal status || bool_decide (status = Paused))
    end).

Definition mark_blocked_team_run (run_id : string) (target : TeamRunStatus) : action TeamRunStatus :=
  gated (
    status <-? run_status run_id;;
    if negb (bool_decide (status = Blocked)) then ret (Err (Refused (no_longer_marked status target)))
    else
      drained <- drain_team_run run_id;;
      if negb drained then
        ret (Err (Refused "this task could not be marked: at least one owned turn did not confirm stopping"))
      else commit_force_mark run_id target (λ status, bool_decide (status = Blocked))).

Definition beta_features_enabled : action () :=
  enabled <- read as_beta_features_enabled;;
  ret (if enabled then Ok () else Err (Refused TASKS_LOCKED_MESSAGE)).

Definition mark_team_run (run_id device_id : option string) (target : TeamRunStatus) : action TeamRunStatus :=
  match target with
  | Done | Cancelled =>
      beta_features_enabled;;?
      who <-? authorize_team_mark run_id device_id;;
      let '(run_id, device_id) := who in
      run <- team_run_snapshot run_id;;
      match run with
      | None => ret (Err (Refused NO_SUCH_TASK))
      | Some run =>
          let status := tr_status run in
          if bool_decide (status = target) then ret (Ok target)
          else if negb (is_executable_by_current_build run) then
            (if bool_decide (target = Cancelled) then mark_non_executable_team_run_cancelled run_id
             else ret (Err (Refused (default PINNED (non_executing_backend_reason run)))))
          else if bool_decide (status = Resolving) then
            ret (Err (Refused "this task is being resolved; wait for that to finish before marking it"))
          else if bool_decide (status = Blocked) then mark_blocked_team_run run_id target
          else if is_terminal status || bool_decide (status = Paused) then mark_quiescent_team_run run_id target
          else stop_team_run (Some run_id) (Some device_id)
                 (match target with Cancelled => StopCancel | _ => StopDone end)
      end
  | _ => ret (Err (Refused ("a task may only be marked done or cancelled, not " +:+ status_as_str target)))
  end.

(** ** Resuming *)

(** [admit(cwd).trusted()]: the worktree is there and may be worked in. *)
Definition team_workspace (run_id : string) : proc (option string) :=
  run <- team_run_snapshot run_id;;
  match run with
  | None => ret None
  | Some run => trusted <- ask (Trusted (tr_cwd run));; ret (if trusted then Some (tr_cwd run) else None)
  end.
(** [TeamPortError]. *)
Inductive TeamPortError : Type := PortBlocked (message : string) | PortFailed (message : string) | PortSettled.
Definition require_team_workspace (run_id : string) : proc (result string TeamPortError) :=
  workspace <- team_workspace run_id;;
  match workspace with
  | Some workspace => ret (Ok workspace)
  | None =>
      run <- team_run_snapshot run_id;;
      let recorded := match run with Some run => tr_cwd run | None => "" end in
      ret (Err (PortBlocked ("the task worktree " +:+ recorded +:+ " no longer exists")))
  end.
Definition port_error_message (settled : string) (e : TeamPortError) : string :=
  match e with PortBlocked message | PortFailed message => message | PortSettled => settled end.

(** The ticket is dropped with the function unless the driver got it. *)
Definition resume_team_run_holding_gate (run_id : string) : action TeamRunStatus :=
  working <- working_team_threads run_id;;
  match working with
  | _ :: _ =>
      drop_guard (TeamDriveTicket run_id);;
      ret (Err (Refused (String.concat ", " working +:+ " is still finishing a turn; try again in a moment")))
  | [] =>
      resumed <- relay_write (λ now s,
        let '(s, resumed) := update_run run_id (resume now) false s in (notify_if resumed s, resumed));;
      if negb resumed then
        drop_guard (TeamDriveTicket run_id);;
        ret (Err (Refused "this task is no longer paused"))
      else
        spawn_team_driver run_id;;
        ret (Ok Running)
  end.

Definition resume_team_run (run_id device_id : option string) : action TeamRunStatus :=
  who <-? authorize_team_action run_id device_id;;
  let '(run_id, _) := who in
  require_embedded_team_backend run_id;;?
  status <-? run_status run_id;;
  if negb (is_resumable status) then
    ret (Err (Refused ("only a paused task can be resumed; this one is " +:+ status_as_str status)))
  else
    workspace <- require_team_workspace run_id;;
    match workspace with
    | Err error =>
        let message := port_error_message "the task settled before it could resume" error in
        block_team_run run_id message;;
        ret (Err (Refused message))
    | Ok _ =>
        claimed <- claim_team_drive run_id;;
        if negb claimed then ret (Err (Refused HAS_DRIVER))
        else gated (resume_team_run_holding_gate run_id)
    end.

(** ** Reopening *)
Definition reopen (instruction : string) (updates : TaskSpecUpdates) (run : TeamRun) : TeamRun :=
  run <| tr_status := Paused |>
      <| tr_phase := Intake |>
      <| tr_pending_user_notes ::= λ l, (l ++ [instruction])%list |>
      <| tr_spec ::= λ spec, (apply_updates spec updates).1 |>
      <| tr_reopened_count ::= λ n, Z.min (n + 1) u32_max |>
      <| tr_error := None |>
      <| tr_design_review_rounds := 0 |>
      <| tr_mr_rounds_used := 0 |>
      <| tr_unresolved := [] |>
      <| tr_mr_verdict := None |>
      <| tr_design_verdict := None |>.
Definition rollback (restore run : TeamRun) : TeamRun * bool :=
  if is_terminal (tr_status run) then (run, false)
  else if negb (bool_decide (tr_status run = Paused)) then (run, false)
  else (restore, true).
Definition rollback_reopen_provision (target : string) (restore : TeamRun) : proc () :=
  relay_write (λ _ s,
    let '(s, restored) := update_run target (rollback restore) false s in (notify_if restored s, ())).

Definition reopen_write (target instruction : string) (updates : TaskSpecUpdates) (s : ThreadState) :
    ThreadState * result TeamRun ActionError :=
  match ts_team_runs s !! target with
  | None => (s, Err (Refused NO_SUCH_TASK))
  | Some before =>
      if negb (is_reopenable (tr_status before)) then
        (s, Err (Refused ("only a finished task can be reopened; this one is " +:+ status_as_str (tr_status before))))
      else (notify (set_run target (reopen instruction updates) s), Ok before)
  end.
(** The block under the gate. *)
Definition reopen_holding_gate (target instruction : string) (updates : TaskSpecUpdates) : action TeamRunStatus :=
  restore <-? relay_write (λ _ s, reopen_write target instruction updates s);;
  claimed <- claim_team_drive target;;
  if negb claimed then
    rollback_reopen_provision target restore;;
    ret (Err (Refused HAS_DRIVER))
  else
    resumed <- resume_team_run_holding_gate target;;
    match resumed with
    | Ok status => ret (Ok status)
    | Err error => rollback_reopen_provision target restore;; ret (Err error)
    end.
Definition reopen_team_run (run_id : option string) (instruction : string) (updates : TaskSpecUpdates)
    (device_id : option string) : action TeamRunStatus :=
  let instruction := trim instruction in
  if is_empty instruction then ret (Err (Refused "say what the team should do now"))
  else slotted (
    requested <-? relay_read (λ s, map_err BadRunId (reopenable_team_run_id run_id (ts_team_runs s)));;
    who <-? authorize_team_action (Some requested) device_id;;
    let '(target, _) := who in
    require_embedded_team_backend target;;?
    workspace <- require_team_workspace target;;
    match workspace with
    | Err error => ret (Err (Refused (port_error_message "the task settled while reopening" error)))
    | Ok _ =>
        gated (reopen_holding_gate target instruction updates)
    end).

(** ** Starting *)
Record TeamStartRequest : Type := MkStartRequest {
  sr_spec : TaskSpec;
  sr_origin_cwd : string;
  sr_target_branch : option string;
  sr_device_id : string;
  sr_tl_provider : string; sr_dev_provider : string; sr_reviewer_provider : string;
  sr_tl_model : string; sr_dev_model : string; sr_reviewer_model : string;
  sr_tl_effort : string; sr_dev_effort : string; sr_reviewer_effort : string;
  sr_dev_agents : option Z;
  sr_starting_proposal_id : option string
}.
Definition PLAN_REL_PATH : string := ".sealwire/PLAN.md".
Definition DESIGN_REL_PATH : string := ".sealwire/DESIGN.md".
Definition REPORT_REL_PATH : string := ".sealwire/REPORT.md".
Definition BUILTIN_TEAM_ID : string := "builtin".
Definition BUILTIN_TEAM_VERSION_ID : string := "builtin-v1".
Definition strip_task_prefix (branch : string) : string :=
  if starts_with "task/" branch then String.substring 5 (String.length branch - 5) branch else branch.
Definition run_started (now : Z) (run_id : string) (input : TeamStartRequest) (w : TaskWorktree) : TeamRun :=
  (TeamRun_new now run_id (sr_spec input) (wt_path w) (sr_device_id input))
    <| tr_slug := strip_task_prefix (wt_branch w) |>
    <| tr_branch := wt_branch w |>
    <| tr_target_ref := wt_target_ref w |>
    <| tr_base_commit := wt_base_commit w |>
    <| tr_repo_main_worktree := wt_repo_main_worktree w |>
    <| tr_source_dirty := wt_source_dirty w |>
    <| tr_plan_rel_path := PLAN_REL_PATH |>
    <| tr_design_rel_path := DESIGN_REL_PATH |>
    <| tr_report_rel_path := REPORT_REL_PATH |>
    <| tr_tl_provider := sr_tl_provider input |>
    <| tr_dev_provider := sr_dev_provider input |>
    <| tr_reviewer_provider := sr_reviewer_provider input |>
    <| tr_tl_model := sr_tl_model input |>
    <| tr_dev_model := sr_dev_model input |>
    <| tr_reviewer_model := sr_reviewer_model input |>
    <| tr_tl_effort := sr_tl_effort input |>
    <| tr_dev_effort := sr_dev_effort input |>
    <| tr_reviewer_effort := sr_reviewer_effort input |>
    <| tr_dev_agents := sr_dev_agents input |>
    <| tr_team_id := Some BUILTIN_TEAM_ID |>
    <| tr_team_version_id := Some BUILTIN_TEAM_VERSION_ID |>.

Definition NOT_GRANTED (cwd : string) : string :=
  cwd +:+ " is not a workspace this relay has been granted; open it locally and trust it before starting a task team there".
(** [suffix] is what [random_suffix] draws. *)
Definition start_team_run (suffix : string) (input : TeamStartRequest) : action string :=
  slotted (
    let origin_cwd := normalize_cwd (sr_origin_cwd input) in
    scopes <- relay_read (λ s, (allowed_roots s, surface_path_scope (sr_device_id input) s));;
    let '(roots, device_scope) := scopes in
    match ensure_path_within_device_scope origin_cwd device_scope roots with
    | Err e => ret (Err (OutOfScope e))
    | Ok _ =>
        trusted <- ask (Trusted origin_cwd);;
        if negb trusted then ret (Err (Refused (NOT_GRANTED origin_cwd)))
        else
          provisioned <- ask (ProvisionWorktree origin_cwd (ts_title (sr_spec input)) (sr_target_branch input) device_scope roots);;
          match provisioned with
          | Err error => ret (Err (Refused error))
          | Ok worktree =>
              let run_id := "team_" +:+ suffix in
              write (λ s,
                let run := run_started (as_unix_now s) run_id input worktree in
                (s <| as_relay ::= λ relay, notify (relay <| ts_team_runs ::= insert_team_run run |>) |>
                   <| as_starting_scheduled_proposals ::=
                        match sr_starting_proposal_id input with
                        | Some proposal_id => filter (λ id, id ≠ proposal_id)
                        | None => id
                        end |>, ()));;
              claimed <- claim_team_drive run_id;;
              if negb claimed then ret (Err (Refused HAS_DRIVER))
              else spawn_team_driver run_id;; ret (Ok run_id)
          end
    end).

(** ** The handlers of requests *)
Record StartTeamInput : Type := MkStartInput {
  ti_title : string; ti_context : string; ti_acceptance_criteria : string;
  ti_agreed_scope : string; ti_quality_rules : string;
  ti_device_id : option string;
  ti_cwd : option string;
  ti_target_branch : option string;
  ti_tl_provider : option string; ti_dev_provider : option string; ti_reviewer_provider : option string;
  ti_tl_model : option string; ti_dev_model : option string; ti_reviewer_model : option string;
  ti_tl_effort : option string; ti_dev_effort : option string; ti_reviewer_effort : option string;
  ti_dev_agents : option Z;
  ti_starting_proposal_id : option string
}.
Definition resolve_seat_provider (named : option string) (seat : string) : result string ActionError :=
  match non_empty named with
  | None => Ok (default "" (head available_providers))
  | Some named =>
      if bool_decide (named ∈ available_providers) then Ok named
      else Err (Refused ("the " +:+ seat +:+ " asked for agent provider '" +:+ named +:+ "', which is not available (have: "
             +:+ (if bool_decide (available_providers = []) then "none" else String.concat ", " available_providers)
             +:+ ")"))
  end.
Definition asked (value : option string) : string := default "" (non_empty value).
Record StartTeamReceipt : Type := MkStartReceipt {
  rc_team_run_id : string; rc_cwd : string; rc_branch : string; rc_status : string; rc_message : string
}.
Definition start_request (input : StartTeamInput) (current_cwd : string) : result TeamStartRequest ActionError :=
  let? title := ok_or (non_empty (Some (ti_title input))) (Refused "title is required") in
  let? device_id := require_device_id (ti_device_id input) in
  let? tl_provider := resolve_seat_provider (ti_tl_provider input) "team lead" in
  let? dev_provider := resolve_seat_provider (ti_dev_provider input) "developer" in
  let? reviewer_provider := resolve_seat_provider (ti_reviewer_provider input) "reviewer" in
  Ok (MkStartRequest
        (MkTaskSpec title (ti_context input) (ti_acceptance_criteria input) (ti_agreed_scope input) (ti_quality_rules input))
        (default current_cwd (non_empty (ti_cwd input))) (non_empty (ti_target_branch input)) device_id
        tl_provider dev_provider reviewer_provider
        (asked (ti_tl_model input)) (asked (ti_dev_model input)) (asked (ti_reviewer_model input))
        (asked (ti_tl_effort input)) (asked (ti_dev_effort input)) (asked (ti_reviewer_effort input))
        (ti_dev_agents input) (ti_starting_proposal_id input)).
Definition start_team (suffix : string) (input : StartTeamInput) : action StartTeamReceipt :=
  beta_features_enabled;;?
  if negb has_team_driver then
    ret (Err (Refused "task team is not available in this build; install a release that includes it"))
  else
    current_cwd <- relay_read ts_current_cwd;;
    match start_request input current_cwd with
    | Err e => ret (Err e)
    | Ok request =>
        run_id <-? start_team_run suffix request;;
        run <- team_run_snapshot run_id;;
        ret match run with
            | None => Err (Refused "the task vanished before it could be reported")
            | Some run => Ok (MkStartReceipt (tr_id run) (tr_cwd run) (tr_branch run) (status_as_str (tr_status run))
                                ("Task started on " +:+ tr_branch run +:+ "."))
            end
    end.

Inductive TeamAction2 : Type := ActPause | ActStop | ActCancel | ActResume | ActResolve.
Definition action_message (action : TeamAction2) (status : TeamRunStatus) : string :=
  let status := status_as_str status in
  match action with
  | ActPause => "Pause requested; the task is " +:+ status +:+ "."
  | ActStop => "Task stopped; it is " +:+ status +:+ "."
  | ActCancel => "Task cancelled; it is " +:+ status +:+ "."
  | ActResume => "Task resumed; it is " +:+ status +:+ "."
  | ActResolve => "Task unblocked; it is " +:+ status +:+ "."
  end.
Record TeamActionReceipt : Type := MkActionReceipt { ar_team_run_id : string; ar_status : string; ar_message : string }.
Definition team_action (act : TeamAction2) (run_id device_id : option string) : action TeamActionReceipt :=
  beta_features_enabled;;?
  run_id <-? relay_read (λ s, map_err BadRunId (active_team_run_id run_id (ts_team_runs s)));;
  let target := Some run_id in
  status <-? match act with
             | ActPause => pause_team_run target device_id
             | ActStop => force_stop_team_run target device_id
             | ActCancel => cancel_team_run target device_id
             | ActResume => resume_team_run target device_id
             | ActResolve => resolve_blocked_team_run target device_id
             end;;
  ret (Ok (MkActionReceipt run_id (status_as_str status) (action_message act status))).

Definition parse_team_mark_status (raw : string) : result TeamRunStatus ActionError :=
  if decide (raw = "done") then Ok Done
  else if decide (raw = "cancelled") then Ok Cancelled
  else Err (Refused ("status must be done or cancelled, not " +:+ raw)).
Definition mark_team (status : string) (run_id device_id : option string) : action TeamActionReceipt :=
  match parse_team_mark_status status with
  | Err e => ret (Err e)
  | Ok target =>
      run_id <-? relay_read (λ s, map_err BadRunId (team_run_id_for_mark run_id (ts_team_runs s)));;
      status <-? mark_team_run (Some run_id) device_id target;;
      let message := match status with
                     | Done => "Task marked done."
                     | Cancelled => "Task marked cancelled."
                     | other => "Task is " +:+ status_as_str other +:+ "."
                     end in
      ret (Ok (MkActionReceipt run_id (status_as_str status) message))
  end.

(** ** Paused runs at boot *)
Definition validate_paused (run : TeamRun) : proc () :=
  live <- ask (IsLiveDir (tr_cwd run));;
  if negb live then
    block_team_run (tr_id run)
      ("the task worktree " +:+ tr_cwd run +:+ " no longer exists, so this task cannot be resumed; its branch is untouched"
       +:+ match non_executing_backend_reason run with Some reason => "; " +:+ reason | None => "" end)
  else if is_executable_by_current_build run && negb (is_empty (tr_tl_thread_id run)) then
    routes <- ask (RoutesToProvider (tr_tl_thread_id run));;
    if routes then ret ()
    else relay_write (λ now s,
      (notify (set_run (tr_id run)
         (request_tl_reseed now "the team lead's session did not survive the relay restart") s), ()))
  else ret ().
Definition validate_paused_team_runs : proc () :=
  paused <- relay_read (λ s,
    filter (λ run, is_resumable (tr_status run) = true) (map_to_list (ts_team_runs s)).*2);;
  each paused validate_paused.

(** ** A user's message to the team lead (sessions.rs)

    From the check of the gate to the send; the rest of the request does not concern runs. *)
Definition thread_cwd (s : ThreadState) (thread_id : string) : option string :=
  let kept (cwd : string) := if is_empty cwd then None else Some cwd in
  option_or (ts_runtimes s !! thread_id ≫= (kept ∘ rt_current_cwd))
            (thread_row thread_id s ≫= (kept ∘ sm_cwd)).
Definition TEAM_LOCKED_THREAD_MSG : string :=
  "this thread belongs to a running task; pause the task to talk to its team lead".
Definition send_to_thread (target_thread : string) : action () :=
  team_owned <- relay_read (λ s,
    match team_thread_gate (thread_cwd s) target_thread (ts_team_runs s) with GateFree => false | _ => true end);;
  if negb team_owned then ask (UserTurn target_thread);; ret (Ok ())
  else
    held <- try_hold_team_drive_gate;;
    if negb held then ret (Err (Refused "this task is settling right now; try again in a moment"))
    else
      allowed <- relay_read (λ s,
        match team_thread_gate (thread_cwd s) target_thread (ts_team_runs s) with GateTlWhilePaused => true | _ => false end);;
      (if negb allowed then drop_guard DriveGate;; ret (Err (Refused TEAM_LOCKED_THREAD_MSG))
       else ask (UserTurn target_thread);; drop_guard DriveGate;; ret (Ok ())).
End Control.
