(* ===== verification/TeamDrive.v ===== *)
(** * The port of a team's driver (crates/relay-server/src/state/app/team.rs; sending to a
      thread is in review.rs)

    What the relay does for the driver of a run: turns on team threads, waiting for them, the
    threads of the seats, replacing the team lead, git in the task worktree.  The driver itself
    is not part of the repository: it is a [PortProgram], any sequence of port operations on its
    own run.  Below it the tasks of the relay are put together as a [Runtime] of [Process]. *)

From Stdlib Require Import ZArith Lia Ascii String.
From S2P Require Import Prelude RustStr Json Tokens Backend TeamTypes TeamRun TeamThreads Paths Device Retention.
From S2P Require Import Approvals Transcript Runtime TeamTable Surfaces ThreadState ThreadTurns ThreadRows ThreadFlow.
From S2P Require Import Process TeamControl.

Open Scope string_scope.
Open Scope Z_scope.
Open Scope proc_scope.

Inductive TeamTurnOutcome : Type :=
| Replied (text : string) | Silent | TurnFailed (error : string) | TurnBlocked (error : string).

Section Port.
Context `{!TeamSettings, FileSystem}.

Definition TL_MAX_TURNS_PER_GENERATION : Z := 40.
Definition TL_MAX_TRANSCRIPT_BYTES : nat := 400 * 1024.
Definition TEAM_ASK_USER_MAX_SECS : Z := 24 * 60 * 60.
Definition REVIEW_DIFF_MAX_BYTES : nat := 256 * 1024.
Definition NO_HOOKS : string := "core.hooksPath=/dev/null".
Definition PAUSED_BEFORE_STEP : string :=
  "The task paused before its next step began. You can resume from where it left off.".
Definition NO_WORK_YET : string := "This step hasn't produced any work yet. You can resume to run it again.".

(** ** Refusals *)
Definition settled_before (run_id : string) (status : TeamRunStatus) : string :=
  "task run " +:+ run_id +:+ " settled as " +:+ status_as_str status +:+ " before this turn started".

Definition settled_team_turn_refusal (run_id : string) : proc (option string) :=
  run <- team_run_snapshot run_id;;
  ret match run with
      | Some run => if driver_locked (tr_status run) then Some (settled_before run_id (tr_status run)) else None
      | None => None
      end.

Definition team_turn_preflight (run_id thread_id : string) : proc (result () string) :=
  relay_read (λ s,
    match ts_team_runs s !! run_id with
    | None => Err ("task run " +:+ run_id +:+ " is gone")
    | Some run =>
        if driver_locked (tr_status run) then Err (settled_before run_id (tr_status run))
        else if negb (bool_decide (thread_id ∈ owned_thread_ids run)) then
          Err ("thread " +:+ thread_id +:+ " is not owned by task run " +:+ run_id)
        else if default false (has_live_turn <$> ts_runtimes s !! thread_id) then
          Err ("thread " +:+ thread_id +:+ " already has a turn in flight; refusing to overlap it")
        else Ok ()
    end).

(** The decision and its write are one hold of the lock; with the reason, whether the run is
    newly paused. *)
Definition reset_sub_task (index : nat) (r : TeamRun) : TeamRun :=
  r <| tr_sub_tasks ::= alter (λ t, t <| st_status := SubPending |>) index |>.
Definition refuse_reviewer (run_id : string) (index : nat) (now : Z) (s : ThreadState) :
    ThreadState * (option string * bool) :=
  match ts_team_runs s !! run_id with
  | None => (s, (None, false))
  | Some run =>
      if driver_locked (tr_status run) then (s, (Some (settled_before run_id (tr_status run)), false))
      else if tr_stopping run then (s, (Some PAUSED_BEFORE_STEP, false))
      else
        let landed := default 0 (st_dev_turns_landed <$> tr_sub_tasks run !! index) in
        if negb (tr_pause_requested run) && negb (landed =? 0) then (s, (None, false))
        else
          let '(reason, kind, reset) :=
            if tr_pause_requested run then (PAUSED_BEFORE_STEP, PauseUser, false)
            else (NO_WORK_YET, PauseBoundary, true) in
          let working := filter (λ id, thread_working id s = true) (owned_thread_ids run) in
          let '(s, newly_paused) :=
            update_run run_id (λ r,
              let r := if reset then reset_sub_task index r else r in
              match working with
              | [] => settle_paused now reason kind r
              | _ :: _ => (block now ("cannot settle this task as paused: " +:+ still_working working) r, false)
              end) false s in
          (notify s, (Some reason, newly_paused))
  end.
Definition reviewer_turn_refusal (run_id : string) (slot : TeamThreadSlot) : proc (option string) :=
  match slot with
  | SlotSubTaskReviewer index =>
      refused <- relay_write (refuse_reviewer run_id index);;
      let '(reason, newly_paused) := refused in
      (if newly_paused then release_seats_when_settled run_id Paused else ret ());;
      ret reason
  | _ => ret None
  end.

(** ** Small reads and writes *)
Definition resolve_team_slot (run_id : string) (slot : TeamThreadSlot) : proc (option string) :=
  relay_read (λ s, mbind (M:=option) (thread_in_slot slot) (ts_team_runs s !! run_id)).
Definition set_in_flight_thread (run_id : string) (thread_id : option string) : proc () :=
  relay_write (λ _ s, (set_run run_id (λ r, r <| tr_in_flight_thread := thread_id |>) s, ())).

Definition latest_agent_entry (views : list TranscriptEntryView) : option (string * string) :=
  head (omap (λ entry,
    if bool_decide (tv_kind entry = EkAgentText) then
      match tv_text entry with
      | Some text => if is_empty (trim text) then None else Some (default "" (tv_item_id entry), trim text)
      | None => None
      end
    else None) (rev views)).
Definition latest_assistant_entry (thread_id : string) : proc (option (string * string)) :=
  known <- relay_read (λ s, mbind (M:=option) (latest_agent_entry ∘ transcript_views) (ts_runtimes s !! thread_id));;
  match known with Some entry => ret (Some entry) | None => ask (ReadLastReply thread_id) end.

Definition note_team_turn_phase (run_id thread_id : string) : proc (result () string) :=
  write (λ s,
    match as_team_runs s !! run_id with
    | Some run =>
        if driver_locked (tr_status run) then (s, Err (settled_before run_id (tr_status run)))
        else (s <| as_team_turn_phases ::= <[thread_id := phase_as_str (tr_phase run)]> |>, Ok ())
    | None => (s, Ok ())
    end).

Definition dispatched_thread_id (sent_to : string) : proc string :=
  relay_read (resolve_promoted_thread_id sent_to).
Definition thread_turn_revision (thread_id : string) (s : ThreadState) : Z :=
  default 0 (rt_turn_revision <$> ts_runtimes s !! thread_id).

(** ** Sending to a thread (review.rs) *)
Definition seed_turn (plan : SendPlan) (thread_id : string) (turn_id : option string) (turn_revision now : Z)
    (s : ThreadState) : ThreadState :=
  let turn_settled_meanwhile := negb (thread_turn_revision thread_id s =? turn_revision) in
  notify (
    if bool_decide (ts_active_thread_id s = Some thread_id) then
      let s := set_provider_name (sp_provider_name plan) s in
      let s := match sp_models plan with Some models => set_available_models models s | None => s end in
      let s := if turn_settled_meanwhile then s else set_active_turn now turn_id s in
      remember_active_thread_settings
        (s <| ts_model := sp_model plan |> <| ts_reasoning_effort := sp_effort plan |>)
    else if negb turn_settled_meanwhile && is_some (ts_runtimes s !! thread_id) then
      bg_set_active_turn now thread_id turn_id now s
    else s).
Definition send_message_to_thread (for_run thread_id text : string) (model effort : option string) :
    proc (result (string * option string) string) :=
  plan <- ask (PlanSend thread_id model effort);;
  match plan with
  | Err error => ret (Err error)
  | Ok plan =>
      turn_revision <- relay_read (thread_turn_revision thread_id);;
      started <- ask (StartTurn for_run thread_id text (sp_model plan) (sp_effort plan));;
      match started with
      | Err error => ret (Err error)
      | Ok turn_id =>
          thread_id <- ask (StartedThreadId thread_id);;
          relay_write (λ now s, (seed_turn plan thread_id turn_id turn_revision now s, ()));;
          ret (Ok (thread_id, turn_id))
      end
  end.

(** ** Waiting *)
Fixpoint observe_loop (rounds : nat) (thread_id : string) (deadline : Z) : proc bool :=
  working <- relay_read (thread_working thread_id);;
  if working then ret true
  else
    now <- read as_instant;;
    if deadline <=? now then ret false
    else match rounds with
         | O => ret false
         | S rounds =>
             woke <- ask (WakeUp deadline);;
             match woke with ChannelClosed => ret false | _ => observe_loop rounds thread_id deadline end
         end.
Definition observe_turn_liveness (thread_id : string) : proc bool :=
  now <- read as_instant;;
  rounds <- ask HowLong;;
  observe_loop rounds thread_id (now + team_liveness_window_ms).

Fixpoint deny_each (pending : list PendingApproval) : proc (list string * list string) :=
  match pending with
  | [] => ret ([], [])
  | approval :: pending =>
      response <- ask (DenyApproval approval);;
      rest <- deny_each pending;;
      let '(denied, refused) := rest in
      ret match response with
          | Ok _ => (pa_request_id approval :: denied, refused)
          | Err error => (denied, error :: refused)
          end
  end.
Definition denial_note (thread_id : string) : string :=
  "a tool approval on thread " +:+ thread_id +:+ " was denied automatically; the task worktree is sandboxed and nobody is watching a background turn".
Definition record_denials (run_id thread_id : string) (denied : list string) (s : ThreadState) : ThreadState :=
  let s := foldl (λ s id, (remove_pending_approval id s).1) s denied in
  notify match denied with
         | [] => s
         | _ => set_run run_id (λ r,
                  if bool_decide (denial_note thread_id ∈ tr_unresolved r) then r
                  else r <| tr_unresolved ::= λ l, (l ++ [denial_note thread_id])%list |>) s
         end.
Definition auto_handle_team_approval (run_id thread_id : string) : proc (result () string) :=
  pending <- relay_read (pending_approvals_of thread_id);;
  answers <- deny_each pending;;
  let '(denied, refused) := answers in
  relay_write (λ _ s, (record_denials run_id thread_id denied s, ()));;
  ret match refused with
      | [] => Ok ()
      | _ => Err ("thread " +:+ thread_id +:+ " raised a tool approval that could not be denied ("
                  +:+ String.concat "; " refused +:+ "); its turn cannot continue")
      end.

Definition park_team_run_on_question (run_id thread_id : string) (role : TeamRole) (pending : PendingAskUserQuestion) :
    proc () :=
  let awaiting := MkAwaitingUser thread_id (pq_request_id pending) (role_as_str role) (pq_requested_at pending) in
  relay_write (λ now s,
    (notify (set_run run_id (λ r, set_status now AwaitingUser (r <| tr_awaiting := Some awaiting |>)) s), ())).
Definition unpark (now : Z) (r : TeamRun) : TeamRun * bool :=
  let changed := is_some (tr_awaiting r) in
  let r := r <| tr_awaiting := None |> in
  (if bool_decide (tr_status r = AwaitingUser) then set_status now Running r else r, changed).
Definition unpark_team_run (run_id : string) : proc () :=
  relay_write (λ now s, let '(s, changed) := update_run run_id (unpark now) false s in (notify_if changed s, ())).

(** What one round reads under the lock; the clock, for the deadline of a turn that moved. *)
Record Watch : Type := MkWatch {
  wa_has_approval : bool; wa_question : option PendingAskUserQuestion; wa_working : bool; wa_revision : Z; wa_now : Z
}.
Definition watch_thread (thread_id : string) (last_revision : Z) (s : AppState) : Watch :=
  let relay := as_relay s in
  let '(working, revision) := match ts_runtimes relay !! thread_id with
                              | Some r => (is_working r, rt_transcript_revision r)
                              | None => (false, last_revision)
                              end in
  MkWatch (bool_decide (pending_approvals_of thread_id relay ≠ [])) (head (pending_questions_of thread_id relay))
    working revision (as_instant s).
Definition wake_at (parked_since : option Z) (deadline : Z) : Z :=
  match parked_since with Some since => since + TEAM_ASK_USER_MAX_SECS * 1000 | None => deadline end.
Definition unpark_if (parked_since : option Z) (run_id : string) : proc () :=
  if is_some parked_since then unpark_team_run run_id else ret ().

(** The loop of [wait_for_team_step].  The wake-up at its end, and the rounds after it. *)
Definition sleep_or_wake (again : proc (option string)) (run_id thread_id : string) (parked_since : option Z)
    (deadline : Z) : proc (option string) :=
  woke <- ask (WakeUp (wake_at parked_since deadline));;
  match woke with
  | Changed => again
  | ChannelClosed => unpark_if parked_since run_id;; ret None
  | DeadlinePassed =>
      match parked_since with
      | Some _ =>
          unpark_team_run run_id;;
          ret (Some ("thread " +:+ thread_id +:+ " asked a question that went unanswered for "
                     +:+ pretty TEAM_ASK_USER_MAX_SECS +:+ "s"))
      | None =>
          ret (Some ("thread " +:+ thread_id +:+ " made no progress for " +:+ pretty (team_step_stall_ms / 1000) +:+ "s"))
      end
  end.
Fixpoint wait_loop (rounds : nat) (run_id thread_id : string) (role : TeamRole) (deadline last_revision : Z)
    (parked_since : option Z) : proc (option string) :=
  match rounds with
  | O => unpark_if parked_since run_id;; ret None
  | S rounds =>
      w <- read (watch_thread thread_id last_revision);;
      if negb (wa_working w) then unpark_if parked_since run_id;; ret None
      else
        let deadline := if wa_revision w =? last_revision then deadline else wa_now w + team_step_stall_ms in
        let again deadline parked_since := wait_loop rounds run_id thread_id role deadline (wa_revision w) parked_since in
        if wa_has_approval w then
          handled <- auto_handle_team_approval run_id thread_id;;
          match handled with
          | Err error => unpark_if parked_since run_id;; ret (Some error)
          | Ok _ => again deadline parked_since
          end
        else
          match wa_question w, parked_since with
          | Some pending, None =>
              since <- read as_instant;;
              park_team_run_on_question run_id thread_id role pending;;
              sleep_or_wake (again deadline (Some since)) run_id thread_id (Some since) deadline
          | None, Some _ =>
              unpark_team_run run_id;;
              now <- read as_instant;;
              let deadline := now + team_step_stall_ms in
              sleep_or_wake (again deadline None) run_id thread_id None deadline
          | _, _ => sleep_or_wake (again deadline parked_since) run_id thread_id parked_since deadline
          end
  end.
Definition wait_for_team_step (run_id thread_id : string) (role : TeamRole) : proc (option string) :=
  now <- read as_instant;;
  last_revision <- relay_read (λ s, default 0 (rt_transcript_revision <$> ts_runtimes s !! thread_id));;
  rounds <- ask HowLong;;
  wait_loop rounds run_id thread_id role (now + team_step_stall_ms) last_revision None.

(** ** Work that landed *)
Definition turn_billed_work (thread_id : string) (sent_turn_id : option string) : proc bool :=
  match sent_turn_id with
  | None => ret false
  | Some turn_id =>
      relay_read (λ s,
        match ts_runtimes s !! thread_id ≫= rt_last_turn_spend with
        | Some spend => bool_decide (tsp_turn_id spend = turn_id) && (negb (tsp_failed spend) && (0 <? tsp_billed spend))
        | None => false
        end)
  end.
Definition turn_has_checkpoint_work (run_id : string) (index : nat) : proc bool :=
  run <- team_run_snapshot run_id;;
  match run with
  | None => ret false
  | Some run =>
      let checkpoint := default "" (st_base_commit <$> tr_sub_tasks run !! index) in
      if is_empty checkpoint then ret false
      else
        workspace <- team_workspace run_id;;
        match workspace with
        | None => ret false
        | Some workspace =>
            diff <- ask (CollectDiff workspace (Some checkpoint));;
            ret match diff with
                | Ok diff => negb (is_empty (trim (wd_diff diff))) || bool_decide (wd_file_changes diff ≠ [])
                | Err _ => false
                end
        end
  end.
Definition count_landed (index : nat) (r : TeamRun) : TeamRun :=
  r <| tr_sub_tasks ::= alter (λ t, t <| st_dev_turns_landed ::= λ n, Z.min (n + 1) u32_max |>) index |>.

(** ** One turn on a team thread *)
Definition unless_refused (refusal : proc (option string)) (k : proc TeamTurnOutcome) : proc TeamTurnOutcome :=
  refused <- refusal;;
  match refused with Some reason => ret (TurnFailed reason) | None => k end.

(** From the gate to the provider's [start_turn]: the thread the turn runs on, and its id. *)
Definition dispatch_holding_gate (run_id : string) (slot : TeamThreadSlot) (thread_id prompt : string) :
    proc (result (string * string) TeamTurnOutcome) :=
  refused <- reviewer_turn_refusal run_id slot;;
  match refused with
  | Some reason => ret (Err (TurnFailed reason))
  | None =>
      preflight <- team_turn_preflight run_id thread_id;;
      match preflight with
      | Err error => ret (Err (TurnFailed error))
      | Ok _ =>
          set_in_flight_thread run_id (Some thread_id);;
          runtime <- relay_read (λ s, ts_runtimes s !! thread_id);;
          outcome <- send_message_to_thread run_id thread_id prompt (rt_model <$> runtime) (rt_reasoning_effort <$> runtime);;
          match outcome with
          | Ok (thread_id, Some turn_id) => ret (Ok (thread_id, turn_id))
          | _ =>
              let why := match outcome with Err error => error | Ok _ => "the provider returned no turn id" end in
              let thread_id := match outcome with Ok (thread_id, _) => thread_id | Err _ => thread_id end in
              thread_id <- dispatched_thread_id thread_id;;
              live <- observe_turn_liveness thread_id;;
              stopped <- (if live then stop_and_drain thread_id else ret true);;
              if negb stopped then
                ret (Err (TurnBlocked ("thread " +:+ thread_id
                       +:+ "'s turn started despite a failed request and did not confirm stopping: " +:+ why)))
              else
                set_in_flight_thread run_id None;;
                ret (Err (TurnFailed ("could not start a turn on thread " +:+ thread_id +:+ ": " +:+ why)))
          end
      end
  end.
Definition dispatch_turn (run_id : string) (slot : TeamThreadSlot) (thread_id prompt : string) :
    proc (result (string * string) TeamTurnOutcome) :=
  gated (dispatch_holding_gate run_id slot thread_id prompt).

(** A failure that the provider recorded for the very turn that was sent. *)
Definition matched_failure (thread_id turn_id : string) (s : ThreadState) : option (string * bool) :=
  match ts_runtimes s !! thread_id ≫= rt_last_turn_failure with
  | Some failure =>
      if bool_decide (tf_turn_id failure = turn_id)
      then Some (tf_reason failure, default false (halts_the_run <$> tf_kind failure))
      else None
  | None => None
  end.

(** After the turn: its reply, and whether a developer's work has landed. *)
Definition conclude_turn (run_id : string) (slot : TeamThreadSlot) (role : TeamRole) (thread_id turn_id : string)
    (baseline : option string) : proc TeamTurnOutcome :=
  latest <- latest_assistant_entry thread_id;;
  let outcome := match latest with
                 | Some (id, text) => if bool_decide (baseline = Some id) then Silent else Replied text
                 | None => Silent
                 end in
  (match role, slot with
   | RoleDev, SlotSubTaskDev index =>
       billed <- turn_billed_work thread_id (Some turn_id);;
       worked <- (if billed then ret true else turn_has_checkpoint_work run_id index);;
       if worked then relay_write (λ _ s, (set_run run_id (count_landed index) s, ())) else ret ()
   | _, _ => ret ()
   end);;
  ret outcome.
Definition await_turn (run_id : string) (slot : TeamThreadSlot) (role : TeamRole) (thread_id turn_id : string)
    (baseline : option string) : proc TeamTurnOutcome :=
  promoted <- resolve_team_slot run_id slot;;
  let thread_id := default thread_id promoted in
  outcome <- wait_for_team_step run_id thread_id role;;
  promoted <- resolve_team_slot run_id slot;;
  let thread_id := default thread_id promoted in
  match outcome with
  | Some error =>
      stopped <- stop_and_drain thread_id;;
      if negb stopped then
        ret (TurnBlocked (error +:+ "; and thread " +:+ thread_id +:+ " did not confirm stopping"))
      else set_in_flight_thread run_id None;; ret (TurnFailed error)
  | None =>
      set_in_flight_thread run_id None;;
      failure <- relay_read (matched_failure thread_id turn_id);;
      match failure with
      | Some (reason, halts) =>
          (if halts then settle_team_run run_id Paused reason PauseProvider else ret ());;
          ret (TurnFailed reason)
      | None => conclude_turn run_id slot role thread_id turn_id baseline
      end
  end.

Definition slot_debug (slot : TeamThreadSlot) : string :=
  match slot with
  | SlotTl => "Tl"
  | SlotSubTaskDev index => "SubTaskDev(" +:+ pretty index +:+ ")"
  | SlotSubTaskReviewer index => "SubTaskReviewer(" +:+ pretty index +:+ ")"
  | SlotRunOwned index => "RunOwned(" +:+ pretty index +:+ ")"
  | SlotMrDev => "MrDev"
  end.
Definition team_turn (run_id : string) (slot : TeamThreadSlot) (role : TeamRole) (prompt : string) :
    proc TeamTurnOutcome :=
  unless_refused (settled_team_turn_refusal run_id) (
  unless_refused (reviewer_turn_refusal run_id slot) (
  unless_refused (settled_team_turn_refusal run_id) (
    seated <- resolve_team_slot run_id slot;;
    match seated with
    | None => ret (TurnFailed ("task run " +:+ run_id +:+ " has no thread in " +:+ slot_debug slot))
    | Some thread_id =>
        unless_refused (settled_team_turn_refusal run_id) (
          baseline <- latest_assistant_entry thread_id;;
          noted <- note_team_turn_phase run_id thread_id;;
          match noted with
          | Err error => ret (TurnFailed error)
          | Ok _ =>
              dispatched <- dispatch_turn run_id slot thread_id prompt;;
              match dispatched with
              | Err outcome => ret outcome
              | Ok (thread_id, turn_id) => await_turn run_id slot role thread_id turn_id (fst <$> baseline)
              end
          end)
    end))).

(** ** The threads of the seats *)
Definition reviewer_thread_settings (provider parent_approval parent_sandbox : string) : string * string * bool :=
  if decide (provider = "codex") then ("never", "read-only", true)
  else if decide (provider = "claude" ∨ provider = "claude_code") then ("review_read_only", parent_sandbox, false)
  else if decide (provider = "fake") then ("never", "read-only", true)
  else ("review_read_only", parent_sandbox, false).
Definition team_thread_settings (provider : string) (role : TeamRole) (default_approval default_sandbox : string) :
    string * string :=
  match role with
  | RoleReviewer => (reviewer_thread_settings provider default_approval default_sandbox).1
  | _ =>
      if decide (provider = "codex") then ("never", "workspace-write")
      else if decide (provider = "claude" ∨ provider = "claude_code") then ("bypass", default_sandbox)
      else if decide (provider = "cursor") then ("bypass", default_sandbox)
      else (default_approval, default_sandbox)
  end.

Definition seat_ask (role : TeamRole) (run : TeamRun) : string * string * string :=
  match role with
  | RoleTl => (tr_tl_provider run, tr_tl_model run, tr_tl_effort run)
  | RoleDev => (tr_dev_provider run, tr_dev_model run, tr_dev_effort run)
  | RoleReviewer => (tr_reviewer_provider run, tr_reviewer_model run, tr_reviewer_effort run)
  end.
(** The write once the provider has started the thread. *)
Definition register_seat (run_id : string) (role : TeamRole) (workspace provider approval_policy sandbox : string)
    (seat : StartedSeat) (now : Z) (s : ThreadState) : ThreadState :=
  let thread := (sst_thread seat) <| sm_provider := provider |> <| sm_source := provider |> in
  let thread_id := sm_id thread in
  let s := register_background_thread now thread workspace
             (MkSettings approval_policy sandbox (sst_effort seat) (sst_model seat)) s in
  let s := (set_thread_workspace thread_id (Some workspace) s).1 in
  let s := set_run run_id (record_run_thread_role now thread_id role) s in
  let s := match role with
           | RoleReviewer =>
               let tl := match ts_team_runs s !! run_id with Some run => tr_tl_thread_id run | None => "" end in
               register_task_reviewer_thread thread_id tl s
           | _ => s
           end in
  notify s.
Definition start_team_thread (run_id : string) (role : TeamRole) (workspace : string) : proc (result string string) :=
  run <- team_run_snapshot run_id;;
  match run with
  | None => ret (Err "task run is gone")
  | Some run =>
      let '(provider, model_override, effort_override) := seat_ask role run in
      provider <- ask (ResolveProvider provider);;
      match provider with
      | Err error => ret (Err error)
      | Ok provider =>
          defaults <- relay_read (λ s, (ts_approval_policy s, ts_sandbox s));;
          let '(approval_policy, sandbox) := team_thread_settings provider role defaults.1 defaults.2 in
          started <- ask (StartSeat workspace provider model_override effort_override approval_policy sandbox);;
          match started with
          | Err error => ret (Err error)
          | Ok seat =>
              relay_write (λ now s, (register_seat run_id role workspace provider approval_policy sandbox seat now s, ()));;
              ret (Ok (sm_id (sst_thread seat)))
          end
      end
  end.
Definition port_record_run_thread (run_id thread_id : string) : proc TeamThreadSlot :=
  relay_write (λ now s,
    let s := set_run run_id (TeamThreads.record_run_thread now thread_id) s in
    let index := match ts_team_runs s !! run_id with
                 | Some run => default O (position (λ id, bool_decide (id = thread_id)) (tr_run_owned_thread_ids run))
                 | None => O
                 end in
    (notify s, SlotRunOwned index)).

(** [TeamPort::start_thread] and [resume_or_start_thread]. *)
Definition start_thread (run_id : string) (role : TeamRole) : proc (result string TeamPortError) :=
  workspace <- require_team_workspace run_id;;
  match workspace with
  | Err error => ret (Err error)
  | Ok workspace =>
      started <- start_team_thread run_id role workspace;;
      ret (map_err PortFailed started)
  end.
Fixpoint resume_or_start_thread (run_id : string) (role : TeamRole) (candidates : list string) :
    proc (result string TeamPortError) :=
  match candidates with
  | [] => start_thread run_id role
  | candidate :: candidates =>
      if is_empty candidate then resume_or_start_thread run_id role candidates
      else
        routes <- ask (RoutesToProvider candidate);;
        usable <- (if routes then ask (SessionCanTakeATurn candidate) else ret false);;
        if usable then ret (Ok candidate) else resume_or_start_thread run_id role candidates
  end.

(** ** The team lead *)
Definition ensure_tl_thread (run_id : string) : proc (result string TeamPortError) :=
  run <- team_run_snapshot run_id;;
  let existing := match run with Some run => tr_tl_thread_id run | None => "" end in
  if negb (is_empty existing) then ret (Ok existing)
  else
    workspace <- require_team_workspace run_id;;
    match workspace with
    | Err error => ret (Err error)
    | Ok workspace =>
        started <- start_team_thread run_id RoleTl workspace;;
        match started with
        | Ok thread_id =>
            relay_write (λ _ s, (notify (set_run run_id (λ r, r <| tr_tl_thread_id := thread_id |>) s), ()));;
            ret (Ok thread_id)
        | Err error => ret (Err (PortFailed ("could not start the team lead: " +:+ error)))
        end
    end.
Definition count_tl_turn (r : TeamRun) : TeamRun := r <| tr_tl_turns_this_generation ::= λ n, u32_add n 1 |>.
Definition tl_turn (run_id prompt : string) : proc TeamTurnOutcome :=
  ensured <- ensure_tl_thread run_id;;
  match ensured with
  | Err (PortBlocked error) => ret (TurnBlocked error)
  | Err (PortFailed error) => ret (TurnFailed error)
  | Err PortSettled => ret (TurnFailed "the task settled before the team lead turn")
  | Ok _ =>
      outcome <- team_turn run_id SlotTl RoleTl prompt;;
      relay_write (λ _ s, (set_run run_id count_tl_turn s, ()));;
      ret outcome
  end.
Definition transcript_bytes (r : ThreadRuntime) : nat :=
  foldl (λ n record, match tx_text record with Some text => n + String.length text | None => n end)%nat O (rt_transcript r).
Definition tl_transcript_bytes (thread_id : string) : proc nat :=
  relay_read (λ s, default O (transcript_bytes <$> ts_runtimes s !! thread_id)).
Definition tl_needs_reseed (run_id : string) : proc (option string) :=
  run <- team_run_snapshot run_id;;
  match run with
  | None => ret None
  | Some run =>
      match tr_tl_reseed_reason run with
      | Some reason => ret (Some reason)
      | None =>
          if is_empty (tr_tl_thread_id run) then ret None
          else if TL_MAX_TURNS_PER_GENERATION <=? tr_tl_turns_this_generation run then
            ret (Some ("the team lead had taken " +:+ pretty (tr_tl_turns_this_generation run) +:+ " turns"))
          else
            bytes <- tl_transcript_bytes (tr_tl_thread_id run);;
            ret (if (TL_MAX_TRANSCRIPT_BYTES <=? bytes)%nat
                 then Some ("the team lead's transcript had reached " +:+ pretty bytes +:+ " bytes") else None)
      end
  end.
Definition reseed_tl (run_id reason handover_prompt : string) : proc (result () TeamPortError) :=
  run <- team_run_snapshot run_id;;
  match run with
  | None => ret (Err (PortFailed "the task record disappeared while replacing its team lead"))
  | Some run =>
      retired <- relay_write (λ now s,
        let '(s, retired) := update_run run_id (retire_tl now reason) false s in (notify s, retired));;
      if negb retired then
        ret (Err (PortFailed ("the team lead was replaced " +:+ pretty (tl_generation_count run)
                              +:+ " times and still could not carry the task")))
      else
        ensured <- ensure_tl_thread run_id;;
        match ensured with
        | Err error => ret (Err error)
        | Ok _ =>
            outcome <- team_turn run_id SlotTl RoleTl handover_prompt;;
            match outcome with
            | TurnBlocked error => ret (Err (PortBlocked error))
            | TurnFailed error => ret (Err (PortFailed ("could not brief a new team lead: " +:+ error)))
            | _ => relay_write (λ _ s, (notify (set_run run_id count_tl_turn s), ()));; ret (Ok ())
            end
        end
  end.

(** ** Git in the task worktree *)
Definition succeeded (o : GitOutput) : bool := bool_decide (go_code o = Some 0).
Definition exit_debug (code : option Z) : string :=
  match code with Some code => "Some(" +:+ pretty code +:+ ")" | None => "None" end.
Definition commit_worktree (run_id workspace message : string) : proc (result bool string) :=
  staged <- ask (RunGit run_id workspace ["add"; "-A"]);;
  match staged with
  | Err error => ret (Err error)
  | Ok staged =>
      if negb (succeeded staged) then
        ret (Err ("git add failed in " +:+ workspace +:+ ": " +:+ trim (go_stderr staged)))
      else
        pending <- ask (RunGit run_id workspace ["diff"; "--cached"; "--quiet"]);;
        match pending with
        | Err error => ret (Err error)
        | Ok pending =>
            if bool_decide (go_code pending = Some 0) then ret (Ok false)
            else if negb (bool_decide (go_code pending = Some 1)) then
              ret (Err ("git diff --cached failed in " +:+ workspace +:+ " (exit " +:+ exit_debug (go_code pending)
                        +:+ "): " +:+ trim (go_stderr pending)))
            else
              committed <- ask (RunGit run_id workspace ["-c"; NO_HOOKS; "commit"; "--no-verify"; "-m"; message]);;
              match committed with
              | Err error => ret (Err error)
              | Ok committed =>
                  if negb (succeeded committed) then
                    ret (Err ("git commit failed in " +:+ workspace +:+ ": " +:+ trim (go_stderr committed)))
                  else ret (Ok true)
              end
        end
  end.
(** [team_git_gate] and the commit under it. *)
Definition commit_holding_gate (run_id workspace message : string) : proc (result bool TeamPortError) :=
  run <- team_run_snapshot run_id;;
  if negb (default false (needs_a_driver <$> run)) then ret (Err PortSettled)
  else
    committed <- commit_worktree run_id workspace message;;
    ret (map_err PortFailed committed).
Definition commit_worktree_gated (run_id workspace message : string) : proc (result bool TeamPortError) :=
  gated (commit_holding_gate run_id workspace message).
Definition checkpoint_commit (run_id workspace : string) : proc (option string) :=
  output <- ask (RunGit run_id workspace ["rev-parse"; "--verify"; "--quiet"; "HEAD"]);;
  ret match output with
      | Ok output => let commit := trim (go_stdout output) in
                     if succeeded output && negb (is_empty commit) then Some commit else None
      | Err _ => None
      end.

Definition render_piece (change : FileChangeDiffView) : string :=
  if is_empty (trim (fc_diff change))
  then "--- " +:+ fc_path change +:+ " (" +:+ fc_change_type change +:+ ", no textual diff)" +:+ String "010"%char ""
  else fc_diff change +:+ String "010"%char "".
Definition render_step (acc : string * Z) (change : FileChangeDiffView) : string * Z :=
  let '(rendered, dropped) := acc in
  let piece := render_piece change in
  if (REVIEW_DIFF_MAX_BYTES <? String.length rendered + String.length piece)%nat then (rendered, dropped + 1)
  else (rendered +:+ piece, dropped).
Definition omission_note (dropped : Z) : string :=
  String "010"%char ("[" +:+ pretty dropped +:+ " more changed file(s) omitted: this diff exceeded 256 KiB. Treat anything you were not shown as unreviewed.]"
  +:+ String "010"%char "").
Definition render_review_diff (response : WorkspaceDiff) : string :=
  let '(rendered, dropped) := foldl render_step ("", 0) (wd_file_changes response) in
  if 0 <? dropped then rendered +:+ omission_note dropped else rendered.

(** ** The port *)
Definition port_update_run (run_id : string) (mutation : TeamRun → TeamRun) : proc bool :=
  outcome <- relay_write (λ now s,
    let existed := is_some (ts_team_runs s !! run_id) in
    let '(runs, updated) :=
      update_team_run run_id (λ r, (hold_phase_for_waiting_sub_tasks now (mutation r)).1) (ts_team_runs s) in
    (notify_if existed (s <| ts_team_runs := runs |>), (updated, existed)));;
  let '(updated, existed) := outcome in
  if updated then ret true
  else
    (if existed then
       fail_team_run run_id "team driver attempted to change the orchestration backend after execution began"
     else ret ());;
    ret false.

Inductive PortOp : Type :=
| RunSnapshot
| UpdateRun (mutation : TeamRun → TeamRun)
| UpdateStatus (status : TeamRunStatus)
| FailRun (error : string)
| BlockRun (error : string)
| BoundaryStatus
| SettleRun (status : TeamRunStatus) (reason : string)
| TlReseedReason
| ReseedTl (reason handover_prompt : string)
| TlTurn (prompt : string)
| RequireWorkspace
| StartThread (role : TeamRole)
| ResumeOrStartThread (role : TeamRole) (candidates : list string)
| RecordRunThread (thread_id : string)
| Turn (slot : TeamThreadSlot) (role : TeamRole) (prompt : string)
| CheckpointCommit
| CollectReviewDiff (base : option string)
| FindMergeBase (target_ref : string)
| Commit (message : string)
| PushLog.
Definition port_answer (op : PortOp) : Type :=
  match op with
  | RunSnapshot => option TeamRun
  | UpdateRun _ => bool
  | UpdateStatus _ | FailRun _ | BlockRun _ | SettleRun _ _ | PushLog => ()
  | BoundaryStatus => option TeamRunStatus
  | TlReseedReason => option string
  | ReseedTl _ _ | RequireWorkspace => result () TeamPortError
  | TlTurn _ | Turn _ _ _ => TeamTurnOutcome
  | StartThread _ | ResumeOrStartThread _ _ => result string TeamPortError
  | RecordRunThread _ => TeamThreadSlot
  | CheckpointCommit | FindMergeBase _ => result (option string) TeamPortError
  | CollectReviewDiff _ => result string TeamPortError
  | Commit _ => result bool TeamPortError
  end.

Definition in_workspace {A} (run_id : string) (k : string → proc (result A TeamPortError)) : proc (result A TeamPortError) :=
  workspace <- require_team_workspace run_id;;
  match workspace with Err error => ret (Err error) | Ok workspace => k workspace end.

Definition port (run_id : string) (op : PortOp) : proc (port_answer op) :=
  match op with
  | RunSnapshot => team_run_snapshot run_id
  | UpdateRun mutation => port_update_run run_id mutation
  | UpdateStatus status => update_team_status run_id status
  | FailRun error => fail_team_run run_id error
  | BlockRun error => block_team_run run_id error
  | BoundaryStatus => team_boundary_check run_id
  | SettleRun status reason => settle_team_run run_id status reason PauseBoundary
  | TlReseedReason => tl_needs_reseed run_id
  | ReseedTl reason handover_prompt => reseed_tl run_id reason handover_prompt
  | TlTurn prompt => tl_turn run_id prompt
  | RequireWorkspace => in_workspace run_id (λ _, ret (Ok ()))
  | StartThread role => start_thread run_id role
  | ResumeOrStartThread role candidates => resume_or_start_thread run_id role candidates
  | RecordRunThread thread_id => port_record_run_thread run_id thread_id
  | Turn slot role prompt => team_turn run_id slot role prompt
  | CheckpointCommit => in_workspace run_id (λ workspace, commit <- checkpoint_commit run_id workspace;; ret (Ok commit))
  | CollectReviewDiff base =>
      in_workspace run_id (λ workspace,
        diff <- ask (CollectDiff workspace base);;
        ret match diff with Ok diff => Ok (render_review_diff diff) | Err error => Err (PortFailed error) end)
  | FindMergeBase target_ref =>
      in_workspace run_id (λ workspace, found <- ask (MergeBase workspace target_ref);; ret (Ok found))
  | Commit message => in_workspace run_id (λ workspace, commit_worktree_gated run_id workspace message)
  | PushLog => push_runtime_log
  end.

(** ** The driver's task *)
Inductive PortProgram : Type :=
| Returned
| Call (op : PortOp) (k : port_answer op → PortProgram).
Fixpoint drive (run_id : string) (p : PortProgram) : proc () :=
  match p with
  | Returned => ret ()
  | Call op k => a <- port run_id op;; drive run_id (k a)
  end.

(** [drive] of the registered [TeamDriver]. *)
Context (team_driver : string → PortProgram).
Definition error_text (e : ActionError) : string := match e with Refused message => message | _ => "" end.
Definition driver_task (run_id : string) : proc () :=
  arm (TeamDriverGuard run_id);;
  if negb has_team_driver then
    fail_team_run run_id "this build has no task-team engine, so the run cannot be driven";;
    disarm (TeamDriverGuard run_id)
  else
    embedded <- require_embedded_team_backend run_id;;
    match embedded with
    | Err error => fail_team_run run_id (error_text error);; disarm (TeamDriverGuard run_id)
    | Ok _ =>
        drive run_id (team_driver run_id);;
        interrupt_team_run_if_stranded run_id;;
        disarm (TeamDriverGuard run_id)
    end.
End Port.
