(* ===== verification/TeamSafety.v ===== *)
(** * Team runs under concurrency

    The tasks of [TeamControl] and [TeamDrive] as a [Runtime], and what holds of every
    interleaving of them. *)

From Stdlib Require Import ZArith Lia String.
From S2P Require Import Prelude RustStr Json Tokens Backend TeamTypes TeamRun TeamThreads Paths Device Retention.
From S2P Require Import Approvals Transcript Runtime TeamTable Surfaces ThreadState ThreadTurns ThreadRows ThreadFlow.
From S2P Require Import Process TeamControl TeamDrive.

Open Scope string_scope.
Open Scope Z_scope.
Open Scope proc_scope.

Create HintDb gentle.
Create HintDb plain.
Create HintDb framed.

(** ** The runtime *)
Inductive Request : Type :=
| StartTeam (suffix : string) (input : StartTeamInput)
| TeamAction (act : TeamAction2) (run_id device_id : option string)
| MarkTeam (status : string) (run_id device_id : option string)
| ReopenTeam (run_id : option string) (instruction : string) (updates : TaskSpecUpdates) (device_id : option string)
| ValidatePaused
| SendMessage (thread_id : string).

Section TeamRuntime.
Context `{!TeamSettings, FileSystem} (team_driver : string → PortProgram) (admitted : Request → Prop).

Definition request_task (q : Request) : proc () :=
  match q with
  | StartTeam suffix input => start_team suffix input;; ret ()
  | TeamAction act run_id device_id => team_action act run_id device_id;; ret ()
  | MarkTeam status run_id device_id => mark_team status run_id device_id;; ret ()
  | ReopenTeam run_id instruction updates device_id => reopen_team_run run_id instruction updates device_id;; ret ()
  | ValidatePaused => validate_paused_team_runs
  | SendMessage thread_id => send_to_thread thread_id;; ret ()
  end.

Definition RECOVERY_INTERRUPTED : string :=
  "the task's recovery was interrupted before its owned turns confirmed stopping".
Definition spawned_task (t : Spawned) : proc () :=
  match t with
  | RunDriver run_id => driver_task team_driver run_id
  | InterruptIfStranded run_id => interrupt_team_run_if_stranded run_id
  | AbandonStop run_id => abandon_team_stop run_id
  | RestoreBlocked run_id => restore_resolving_team_run_as_blocked run_id RECOVERY_INTERRUPTED
  | ReleaseThreads run_id => release_team_threads run_id
  end.

(** What the rest of the relay may do meanwhile: anything, as long as it keeps the gates and
    the standing of every run.  It re-keys threads, records notes and widens scopes. *)
Definition standing (r : TeamRun) : TeamRunStatus * OrchestrationBackendRef := (tr_status r, tr_orchestration_backend r).
Definition elsewhere (s s' : AppState) : Prop :=
  as_driving_team_runs s' = as_driving_team_runs s ∧
  as_team_drive_gate s' = as_team_drive_gate s ∧
  as_session_guard s' = as_session_guard s ∧
  ∀ id, standing <$> as_team_runs s' !! id = standing <$> as_team_runs s !! id.

#[export] Instance team_runtime : Runtime AppState Guard Spawned Query answer := {|
  gate_guard := DriveGate;
  gate_free := λ s, negb (as_team_drive_gate s);
  take_gate := λ s, s <| as_team_drive_gate := true |>;
  Process.release := guard_dropped;
  task_proc := spawned_task;
  task_own := λ t, match t with RunDriver run_id => [TeamDriveTicket run_id] | _ => [] end;
  task_may_die := λ t, match t with RunDriver _ => true | _ => false end;
  outside := elsewhere;
  arrives := λ p, ∃ q, admitted q ∧ p = request_task q
|}.
End TeamRuntime.

(** ** What a hold does to the table of runs *)
Definition locked (r : TeamRun) : bool := driver_locked (tr_status r).
Record steady (r r' : TeamRun) : Prop := MkSteady {
  sd_locked : locked r = true → locked r' = true;
  sd_awake : needs_a_driver r' = true → needs_a_driver r = true;
  sd_resolving : tr_status r' = Resolving → tr_status r = Resolving
}.
#[export] Instance steady_preorder : PreOrder steady.
Proof. split; [by intros r; constructor|]. intros r1 r2 r3 [] []. constructor; auto. Qed.

Definition rows_rel (m m' : TeamRuns) : Prop :=
  ∀ id, match m !! id, m' !! id with
        | Some r, Some r' => steady r r'
        | None, None => True
        | _, _ => False
        end.
#[export] Instance rows_rel_preorder : PreOrder rows_rel.
Proof.
  split.
  - intros m id. by destruct (m !! id).
  - intros m1 m2 m3 H1 H2 id. specialize (H1 id). specialize (H2 id).
    destruct (m1 !! id), (m2 !! id), (m3 !! id); try done. by etrans.
Qed.

Lemma needs_iff r : needs_a_driver r = is_executable_by_current_build r && negb (locked r).
Proof. unfold needs_a_driver, is_live_in_current_build, locked, driver_locked. by destruct is_executable_by_current_build, is_terminal. Qed.

(** A closure given to [update_team_run]: it does not unlock a run or make it executable, and
    it does not write [Resolving]. *)
Record gentle (f : TeamRun → TeamRun) : Prop := MkGentle {
  ge_locked r : locked r = true → locked (f r) = true;
  ge_executable r : is_executable_by_current_build (f r) = true → is_executable_by_current_build r = true;
  ge_resolving r : tr_status (f r) = Resolving → tr_status r = Resolving
}.

Lemma gentle_update id f m : gentle f → rows_rel m (update_team_run id f m).1.
Proof.
  intros [Hl He Hr] id'. unfold update_team_run. destruct (m !! id) as [r|] eqn:Em; cbn.
  2:{ by destruct (m !! id'). }
  assert (∀ r', tr_status r' = tr_status (f r) →
            tr_orchestration_backend r' = tr_orchestration_backend (f r) ∨
            tr_orchestration_backend r' = tr_orchestration_backend r → steady r r') as Hs.
  { intros r' Es Eb. constructor.
    - unfold locked in *. rewrite Es. apply Hl.
    - rewrite !needs_iff. unfold locked in *. rewrite Es, !andb_true_iff, !negb_true_iff. intros [Hx Hu]. split.
      + destruct Eb as [Eb|Eb]; unfold is_executable_by_current_build in *; rewrite Eb in Hx; [by apply He|done].
      + destruct (driver_locked (tr_status r)) eqn:El; [|done]. rewrite (Hl r El) in Hu. done.
    - rewrite Es. apply Hr. }
  case_if; cbn; destruct (decide (id = id')) as [->|Hne]; rewrite ?lookup_insert_eq, ?lookup_insert_ne by done;
    rewrite ?Em; try (by destruct (m !! id')); apply Hs; auto.
Qed.

Ltac gentle :=
  constructor; intros r; unfold is_executable_by_current_build, locked, driver_locked;
  cbn [tr_status tr_orchestration_backend set_field fst snd];
  repeat (case_match; cbn [tr_status tr_orchestration_backend fst snd] in *);
  try done; try congruence; rewrite ?orb_true_iff; auto.

Lemma gentle_same f : (∀ r, standing (f r) = standing r) → gentle f.
Proof.
  intros Hf. unfold standing in Hf. constructor; intros r; specialize (Hf r); injection Hf as Hs Hb;
    unfold locked, is_executable_by_current_build; congruence.
Qed.
Lemma gentle_set_status now status : status ≠ Resolving → gentle (set_status now status).
Proof. intros Hr. unfold set_status. gentle. Qed.
Lemma gentle_fail now error : gentle (fail_run now error).
Proof. unfold fail_run, set_status. gentle. Qed.
Lemma gentle_block now error : gentle (block now error).
Proof. unfold block. gentle. Qed.
Lemma gentle_pause now device : gentle (request_pause now device).
Proof. unfold request_pause, set_status. gentle. Qed.
Lemma gentle_stop now device : gentle (request_stop now device).
Proof. unfold request_stop, request_pause, set_status. gentle. Qed.
Lemma gentle_settle_paused now reason kind : gentle (λ r, (settle_paused now reason kind r).1).
Proof. unfold settle_paused. gentle. Qed.
Lemma gentle_cancel now reason : gentle (λ r, (cancel now reason r).1).
Proof. unfold cancel. gentle. Qed.
Lemma gentle_force_mark now status : gentle (λ r, (force_mark_status now status r).1).
Proof. unfold force_mark_status. gentle. Qed.
Lemma gentle_resolve_as_paused now reason kind : gentle (λ r, (resolve_as_paused now reason kind r).1).
Proof. unfold resolve_as_paused. gentle. Qed.
Lemma gentle_restore_resolving now error : gentle (λ r, (restore_resolving_as_blocked now error r).1).
Proof. unfold restore_resolving_as_blocked, block. gentle. Qed.
Lemma gentle_interrupted now d :
  gentle (λ r, (mark_interrupted_if_stranded now (r <| tr_error := d r |>)).1).
Proof. unfold mark_interrupted_if_stranded. gentle. Qed.
Lemma gentle_settlement now status reason kind : status ≠ Resolving → gentle (settlement now status reason kind).
Proof.
  intros Hr. unfold settlement.
  destruct status; [..|apply gentle_cancel]; try (by apply gentle_set_status);
    [apply gentle_settle_paused|apply gentle_force_mark].
Qed.
Lemma gentle_reopen instruction updates : gentle (reopen instruction updates).
Proof. unfold reopen. gentle. Qed.
Lemma gentle_reviewer now reason kind msg index (reset : bool) (working : list string) :
  gentle (λ r, (let r := if reset then reset_sub_task index r else r in
                match working with
                | [] => settle_paused now reason kind r
                | _ :: _ => (block now msg r, false)
                end).1).
Proof. unfold reset_sub_task, settle_paused, block. gentle. Qed.
Lemma gentle_park now a : gentle (λ r, set_status now AwaitingUser (r <| tr_awaiting := Some a |>)).
Proof. unfold set_status. gentle. Qed.
Lemma gentle_unpark now : gentle (λ r, (unpark now r).1).
Proof. unfold unpark, set_status. gentle. Qed.
Lemma gentle_retire now reason : gentle (λ r, (retire_tl now reason r).1).
Proof. apply gentle_same. intros r. unfold retire_tl, standing. repeat case_match; done. Qed.
Lemma gentle_abandon : gentle (λ r, (abandon_stop r).1).
Proof. apply gentle_same. intros r. unfold abandon_stop. by case_match. Qed.
Lemma gentle_mutation now f : gentle f → gentle (λ r, (hold_phase_for_waiting_sub_tasks now (f r)).1).
Proof.
  intros [Hl He Hr]. assert (∀ r, standing (hold_phase_for_waiting_sub_tasks now r).1 = standing r) as Hs.
  { intros r. unfold hold_phase_for_waiting_sub_tasks, standing. repeat case_match; done. }
  constructor; intros r; specialize (Hs (f r)); injection Hs as Hs Hb; unfold locked, is_executable_by_current_build in *;
    rewrite ?Hs, ?Hb; auto.
Qed.
Lemma gentle_comp {B} (f : TeamRun → TeamRun * B) : gentle (λ r, (f r).1) → gentle (λ r, (f r).1).
Proof. done. Qed.
Lemma gentle_changed_by f : gentle f → gentle (λ r, (changed_by f r).1).
Proof. done. Qed.
#[export] Hint Resolve gentle_changed_by gentle_set_status gentle_fail gentle_block gentle_pause gentle_stop gentle_settle_paused
  gentle_cancel gentle_force_mark gentle_resolve_as_paused gentle_restore_resolving gentle_interrupted
  gentle_settlement gentle_reopen gentle_reviewer gentle_park gentle_unpark gentle_retire gentle_abandon : gentle.

(** ** Operations that leave the runs alone *)
Ltac teams_alone := repeat first [progress case_match | progress cbn]; try done.
Lemma notify_teams s : ts_team_runs (notify s) = ts_team_runs s.
Proof. done. Qed.
Lemma notify_if_teams b s : ts_team_runs (notify_if b s) = ts_team_runs s.
Proof. by destruct b. Qed.
Lemma with_runtime_teams th f s : ts_team_runs (with_runtime th f s) = ts_team_runs s.
Proof. done. Qed.
Lemma materialize_teams now s : ts_team_runs (materialize_selected_runtime_from_fields now s) = ts_team_runs s.
Proof. unfold materialize_selected_runtime_from_fields, next_transcript_revision. teams_alone. Qed.
Lemma ensure_teams now th s : ts_team_runs (ensure_runtime_for_thread now th s) = ts_team_runs s.
Proof.
  unfold ensure_runtime_for_thread, next_transcript_revision.
  teams_alone; rewrite ?materialize_teams; teams_alone.
Qed.
Lemma sync_teams s : ts_team_runs (sync_selected_runtime_to_fields s) = ts_team_runs s.
Proof. unfold sync_selected_runtime_to_fields. teams_alone. Qed.
Lemma remove_approval_teams id s : ts_team_runs (remove_pending_approval id s).1 = ts_team_runs s.
Proof. unfold remove_pending_approval, with_runtime. teams_alone. Qed.
Lemma remove_question_teams id s : ts_team_runs (remove_pending_ask_user_question id s).1 = ts_team_runs s.
Proof. unfold remove_pending_ask_user_question, with_runtime. teams_alone. Qed.
Lemma foldl_teams {A} (f : ThreadState → A → ThreadState) l : ∀ s,
  (∀ s a, ts_team_runs (f s a) = ts_team_runs s) → ts_team_runs (foldl f s l) = ts_team_runs s.
Proof. induction l as [|a l IH]; intros s Hf; cbn; [done|]. by rewrite IH. Qed.
Lemma set_provider_teams name s : ts_team_runs (set_provider_name name s) = ts_team_runs s.
Proof. unfold set_provider_name. teams_alone. Qed.
Lemma set_models_teams models s : ts_team_runs (set_available_models models s) = ts_team_runs s.
Proof. unfold set_available_models. teams_alone. Qed.
Lemma set_active_turn_teams now turn s : ts_team_runs (set_active_turn now turn s) = ts_team_runs s.
Proof. unfold set_active_turn. teams_alone; rewrite ?sync_teams, ?with_runtime_teams, ?ensure_teams; teams_alone. Qed.
Lemma bg_set_active_turn_teams clock th turn now s :
  ts_team_runs (bg_set_active_turn clock th turn now s) = ts_team_runs s.
Proof.
  unfold bg_set_active_turn, sync_if_active.
  teams_alone; rewrite ?sync_teams; cbn; by rewrite ensure_teams.
Qed.
Lemma remember_active_teams s : ts_team_runs (remember_active_thread_settings s) = ts_team_runs s.
Proof. unfold remember_active_thread_settings, remember_thread_settings. teams_alone. Qed.
Lemma set_model_teams m e s : ts_team_runs (s <| ts_model := m |> <| ts_reasoning_effort := e |>) = ts_team_runs s.
Proof. done. Qed.
Lemma seed_turn_teams plan th turn rev now s : ts_team_runs (seed_turn plan th turn rev now s) = ts_team_runs s.
Proof.
  unfold seed_turn. rewrite notify_teams. case_match; [|case_match; [apply bg_set_active_turn_teams|done]].
  rewrite remember_active_teams, set_model_teams.
  destruct (negb (_ =? _)), (sp_models plan); rewrite ?set_active_turn_teams, ?set_models_teams; apply set_provider_teams.
Qed.
Lemma upsert_thread_teams t s : ts_team_runs (upsert_thread t s) = ts_team_runs s.
Proof. unfold upsert_thread. teams_alone; rewrite ?sync_teams; teams_alone. Qed.
Lemma register_background_teams now t cwd st s : ts_team_runs (register_background_thread now t cwd st s) = ts_team_runs s.
Proof. unfold register_background_thread, next_transcript_revision. cbn. by rewrite upsert_thread_teams. Qed.
Lemma set_workspace_teams th cwd s : ts_team_runs (set_thread_workspace th cwd s).1 = ts_team_runs s.
Proof. unfold set_thread_workspace, store_workspace. teams_alone. Qed.

(** ** Holds that are no event for the guards *)
Definition is_release (t : Spawned) : Prop := match t with ReleaseThreads _ => True | _ => False end.
Record relay_hold (s s' : AppState) (ts : list Spawned) : Prop := MkRelayHold {
  rh_driving : as_driving_team_runs s' = as_driving_team_runs s;
  rh_gate : as_team_drive_gate s' = as_team_drive_gate s;
  rh_guard : as_session_guard s' = as_session_guard s;
  rh_rows : rows_rel (as_team_runs s) (as_team_runs s');
  rh_spawned : Forall is_release ts
}.
Lemma relay_hold_refl s : relay_hold s s [].
Proof. by constructor. Qed.

(** The relay's part of a hold. *)
Definition keeps_rows {B} (f : Z → ThreadState → ThreadState * B) : Prop :=
  ∀ now s, rows_rel (ts_team_runs s) (ts_team_runs (f now s).1).
Lemma rows_same m m' : m' = m → rows_rel m m'.
Proof. by intros ->. Qed.
Lemma update_run_rows {B} id (f : TeamRun → TeamRun * B) b s :
  gentle (λ r, (f r).1) → rows_rel (ts_team_runs s) (ts_team_runs (update_run id f b s).1).
Proof. intros Hf. cbn. by apply gentle_update. Qed.
Lemma set_run_rows id f s : gentle f → rows_rel (ts_team_runs s) (ts_team_runs (set_run id f s)).
Proof. intros Hf. cbn. by apply gentle_update. Qed.

(** The rows after a write: an update by a gentle closure, or nothing. *)
Ltac rows :=
  try match goal with
  | |- context [update_run ?id ?f ?b ?s] =>
      let E := fresh "E" in
      destruct (update_run id f b s) as [? ?] eqn:E;
      apply (f_equal fst) in E; cbn [fst] in *; rewrite ?notify_if_teams, ?notify_teams, <- E; clear E
  end;
  cbn [fst]; rewrite ?notify_if_teams, ?notify_teams;
  first [ reflexivity | apply set_run_rows; solve [auto with gentle] | apply update_run_rows; solve [auto with gentle]
        | apply update_run_rows | apply set_run_rows ].

(** Turns and writes of git are done for a run. *)
Definition acts (q : Query) : option string :=
  match q with
  | StartTurn for_run _ _ _ _ => Some for_run
  | RunGit for_run _ args => if bool_decide (head args = Some "rev-parse") then None else Some for_run
  | _ => None
  end.

(** ** Tasks that only use the gate

    [plain] programs hold the lock, ask, take the gate and let it go, and end with the guards
    they began with. *)
Section Plain.
Context `{!TeamSettings, FileSystem} (team_driver : string → PortProgram) (admitted : Request → Prop).
#[local] Existing Instance team_runtime.
#[local] Instance the_runtime : Runtime AppState Guard Spawned Query answer := team_runtime team_driver admitted.
Context (P : AppState → list Guard → AppState → list Guard → list Spawned → Prop) (Asks : Query → list Guard → Prop)
  (Q : list Guard → Prop)
  (HA : ∀ q own, Q own → acts q = None → Asks q own)
  (HP : ∀ s own s' ts, Q own → relay_hold s s' ts → P s own s' own ts)
  (HPgate : ∀ s own, Q own → P s (DriveGate :: own) (s <| as_team_drive_gate := false |>) own [])
  (HQ : ∀ own, Q own → Q (DriveGate :: own)).

Definition plain {R} (p : proc R) : Prop := ∀ own, Q own → tracked P Asks Q p own (λ _ own', own' = own).

Lemma plain_ret {R} (r : R) : plain (ret r).
Proof using Type. by intros own Hown. Qed.
Lemma plain_bind {A B} (p : proc A) (h : A → proc B) : plain p → (∀ a, plain (h a)) → plain (bind p h).
Proof using Type.
  intros Hp Hh own Hown. apply tracked_bind. eapply tracked_mono; [|by apply Hp].
  intros a own' ->. by apply Hh.
Qed.
Lemma plain_ask q : acts q = None → plain (ask q).
Proof using HA. intros Hq own Hown. split; [by auto|done]. Qed.
Lemma plain_hold {B} aw (f : AppState → list Guard → @Effect AppState Guard Spawned B) :
  (∀ s own s' own' ts b, f s own = (s', own', ts, b) → own' = own ∧ relay_hold s s' ts) → plain (Atom aw f Ret).
Proof using HA HP.
  intros Hf own Hown. cbn. split; [done|]. intros s s' own' ts b E. destruct (Hf s own s' own' ts b E) as [-> Hr]. auto.
Qed.
Lemma plain_read {B} (f : AppState → B) : plain (read f).
Proof using HA HP. apply plain_hold. intros s own s' own' ts b E. simplify_eq. split; [done|apply relay_hold_refl]. Qed.
Lemma plain_relay_read {B} (f : ThreadState → B) : plain (relay_read f).
Proof using HA HP. apply plain_read. Qed.
Lemma plain_relay_write {B} (f : Z → ThreadState → ThreadState * B) : keeps_rows f → plain (relay_write f).
Proof using HA HP.
  intros Hf. apply plain_hold. intros s own s' own' ts b E.
  specialize (Hf (as_unix_now s) (as_relay s)). destruct (f (as_unix_now s) (as_relay s)) as [relay b']. simplify_eq.
  split; [done|]. by constructor.
Qed.
Lemma plain_release run_id : plain (spawn (ReleaseThreads run_id)).
Proof using HA HP.
  apply plain_hold. intros s own s' own' ts b E. simplify_eq. split; [done|]. constructor; try done. by repeat constructor.
Qed.
Lemma tracked_drop_gate {A} (a : A) own K : Q own → K a own →
  tracked P Asks Q (drop_guard DriveGate;; ret a) (DriveGate :: own) K.
Proof using HA HP HPgate HQ.
  intros Hown HK. cbn. split; [by apply HQ|]. intros s s' own' ts b E.
  rewrite decide_True in E by set_solver. rewrite decide_True in E by done. simplify_eq. split; [by apply HPgate|done].
Qed.
Lemma plain_gated {A} (p : proc A) : plain p → plain (gated p).
Proof using HA HP HPgate HQ.
  intros Hp own Hown. split; [done|].
  change (tracked P Asks Q (a <- p;; drop_guard DriveGate;; ret a) (DriveGate :: own) (λ _ own', own' = own)).
  apply tracked_bind. eapply tracked_mono; [|apply Hp; auto]. intros a own' ->. by apply tracked_drop_gate.
Qed.
Lemma plain_each {A} (l : list A) (f : A → proc ()) : (∀ a, plain (f a)) → plain (each l f).
Proof using Type. intros Hf. induction l as [|a l IH]; cbn; [apply plain_ret|]. apply plain_bind; auto. Qed.

#[local] Hint Resolve plain_ret plain_read plain_relay_read plain_release plain_gated plain_each : plain.
Ltac plain_step :=
  match goal with
  | |- plain (bind _ _) => apply plain_bind; [|intros ?]
  | |- plain (ret _) => apply plain_ret
  | |- plain (Process.ask ?q) => exact (plain_ask q eq_refl)
  | |- plain (match ?x with _ => _ end) => destruct x eqn:?
  | |- plain (relay_write _) => apply plain_relay_write; intros ? ?; cbn [fst]
  | |- plain _ => solve [auto with plain]
  end.
Ltac plain := repeat plain_step.
Lemma plain_team_run_snapshot run_id : plain (team_run_snapshot run_id).
Proof using HA HP. apply plain_relay_read. Qed.
Lemma plain_run_status run_id : plain (run_status run_id).
Proof using HA HP. unfold run_status. plain. apply plain_team_run_snapshot. Qed.
Lemma plain_working_team_threads run_id : plain (working_team_threads run_id).
Proof using HA HP. unfold working_team_threads, team_owned_threads. plain. Qed.
Lemma plain_release_seats run_id status : plain (release_seats_when_settled run_id status).
Proof using HA HP. unfold release_seats_when_settled. plain. Qed.
#[local] Hint Resolve plain_team_run_snapshot plain_run_status plain_working_team_threads plain_release_seats : plain.
Lemma plain_fail_team_run run_id error : plain (fail_team_run run_id error).
Proof using HA HP. unfold fail_team_run. plain. rows. Qed.
Lemma plain_block_team_run run_id error : plain (block_team_run run_id error).
Proof using HA HP. unfold block_team_run. plain. rows. Qed.
#[local] Hint Resolve plain_fail_team_run plain_block_team_run : plain.
Lemma plain_update_team_status run_id status : status ≠ Resolving → plain (update_team_status run_id status).
Proof using HA HP. intros Hr. unfold update_team_status. plain. rows. Qed.
Lemma plain_settle_team_run run_id status reason kind : status ≠ Resolving → plain (settle_team_run run_id status reason kind).
Proof using HA HP. intros Hr. unfold settle_team_run. plain; rows. Qed.

(** Draining. *)
Lemma plain_push_runtime_log : plain push_runtime_log.
Proof using HA HP. unfold push_runtime_log. plain. rows. Qed.
Lemma plain_request_thread_stop th : plain (request_thread_stop th).
Proof using HA HP. unfold request_thread_stop, request_provider_stop. plain. Qed.
Lemma clear_teams ids1 ids2 s :
  ts_team_runs (foldl (λ s id, (remove_pending_ask_user_question id s).1)
                  (foldl (λ s id, (remove_pending_approval id s).1) s ids1) ids2) = ts_team_runs s.
Proof using Type. rewrite !foldl_teams; auto using remove_approval_teams, remove_question_teams. Qed.
Lemma plain_clear_interactions th : plain (clear_thread_interactions th).
Proof using HA HP.
  unfold clear_thread_interactions. plain. apply rows_same.
  generalize (map pa_request_id (pending_approvals_of th s)) (map pq_request_id (pending_questions_of th s)).
  intros [|a1 l1] [|a2 l2]; [done|exact (clear_teams [] (a2 :: l2) s)|exact (clear_teams (a1 :: l1) [] s)
    |exact (clear_teams (a1 :: l1) (a2 :: l2) s)].
Qed.
#[local] Hint Resolve plain_push_runtime_log plain_request_thread_stop plain_clear_interactions : plain.
Lemma plain_drain_loop rounds : ∀ th deadline, plain (drain_loop rounds th deadline).
Proof using HA HP. induction rounds as [|rounds IH]; intros th deadline; cbn [drain_loop]; plain. Qed.
#[local] Hint Resolve plain_drain_loop : plain.
Lemma plain_stop_and_drain th : plain (stop_and_drain th).
Proof using HA HP.
  unfold stop_and_drain, deny_thread_approvals_best_effort. plain. apply plain_each. intros. plain.
Qed.
#[local] Hint Resolve plain_stop_and_drain : plain.
Lemma plain_drain_each l : plain (drain_each l).
Proof using HA HP. induction l; cbn [drain_each]; plain. Qed.
#[local] Hint Resolve plain_drain_each : plain.
Lemma plain_drain_team_run run_id : plain (drain_team_run run_id).
Proof using HA HP. unfold drain_team_run, team_owned_threads. plain. Qed.
#[local] Hint Resolve plain_drain_team_run : plain.

(** The nets. *)
Lemma plain_release_team_threads run_id : plain (release_team_threads run_id).
Proof using HA HP. unfold release_team_threads, team_owned_threads. plain. apply plain_each. intros. plain. rows. Qed.
Lemma plain_interrupt run_id : plain (interrupt_team_run_if_stranded run_id).
Proof using HA HP HPgate HQ.
  unfold interrupt_team_run_if_stranded. plain. apply plain_gated. plain.
  apply plain_hold. intros s own s' own' ts b E.
  destruct (update_run _ _ _ _) as [relay interrupted] eqn:Eu in E. simplify_eq. split; [done|].
  constructor; try done; [|destruct interrupted; by repeat constructor].
  apply (f_equal fst) in Eu. cbn [fst] in Eu.
  change (rows_rel (as_team_runs s) (ts_team_runs (notify_if interrupted relay))). rewrite notify_if_teams, <- Eu.
  apply update_run_rows. apply (gentle_interrupted _ (λ r, get_or_insert (tr_error r) DRIVER_ENDED)).
Qed.
Lemma plain_abandon run_id : plain (abandon_team_stop run_id).
Proof using HA HP. unfold abandon_team_stop. plain. rows. Qed.
Lemma plain_restore_blocked run_id error : plain (restore_resolving_team_run_as_blocked run_id error).
Proof using HA HP. unfold restore_resolving_team_run_as_blocked. plain. rows. Qed.
#[local] Hint Resolve plain_release_team_threads plain_interrupt plain_abandon plain_restore_blocked plain_settle_team_run plain_update_team_status : plain.

(** The handlers that only use the gate. *)
Lemma plain_require_backend run_id : plain (require_embedded_team_backend run_id).
Proof using HA HP. unfold require_embedded_team_backend. plain. Qed.
Lemma plain_require_stoppable run_id : plain (require_stoppable_team_run run_id).
Proof using HA HP. unfold require_stoppable_team_run. plain. Qed.
Lemma plain_authorize_with resolve device_id : plain (authorize_with resolve device_id).
Proof using HA HP. unfold authorize_with. plain. Qed.
Lemma plain_authorize_action run_id device_id : plain (authorize_team_action run_id device_id).
Proof using HA HP. apply plain_authorize_with. Qed.
Lemma plain_authorize_mark run_id device_id : plain (authorize_team_mark run_id device_id).
Proof using HA HP. apply plain_authorize_with. Qed.
Lemma plain_beta : plain beta_features_enabled.
Proof using HA HP. unfold beta_features_enabled. plain. Qed.
#[local] Hint Resolve plain_require_backend plain_require_stoppable plain_authorize_action plain_authorize_mark plain_beta : plain.
Lemma plain_pause run_id device_id : plain (pause_team_run run_id device_id).
Proof using HA HP HPgate HQ. unfold pause_team_run. plain. apply plain_gated. plain. rows. Qed.

Lemma gentle_forced_mark now target guard : gentle (λ r, (forced_mark now target guard r).1).
Proof using Type.
  assert (∀ r, (forced_mark now target guard r).1 = r ∨ (forced_mark now target guard r).1 = (force_mark_status now target r).1) as Hc.
  { intros r. unfold forced_mark. destruct (guard r); [by left|]. destruct (force_mark_status now target r) as [r' []]; cbn; auto. }
  destruct (gentle_force_mark now target) as [H1 H2 H3].
  constructor; intros r; destruct (Hc r) as [->| ->]; auto.
Qed.
Lemma write_mark_rows run_id target guard now s :
  rows_rel (ts_team_runs s) (ts_team_runs (write_mark run_id target guard now s).1).
Proof using Type.
  unfold write_mark. destruct (update_run _ _ _ _) as [s' [changed outcome]] eqn:E. cbn. rewrite notify_if_teams.
  apply (f_equal fst) in E. cbn [fst] in E. rewrite <- E. apply update_run_rows, gentle_forced_mark.
Qed.
Lemma plain_commit_force_mark run_id target allowed : plain (commit_force_mark run_id target allowed).
Proof using HA HP. unfold commit_force_mark. plain. apply write_mark_rows. Qed.
Lemma plain_mark_non_executable run_id : plain (mark_non_executable_team_run_cancelled run_id).
Proof using HA HP. unfold mark_non_executable_team_run_cancelled. plain. apply write_mark_rows. Qed.
#[local] Hint Resolve plain_commit_force_mark plain_mark_non_executable : plain.
Lemma plain_mark_quiescent run_id target : plain (mark_quiescent_team_run run_id target).
Proof using HA HP HPgate HQ. unfold mark_quiescent_team_run. apply plain_gated. plain. Qed.
Lemma plain_mark_blocked run_id target : plain (mark_blocked_team_run run_id target).
Proof using HA HP HPgate HQ. unfold mark_blocked_team_run. apply plain_gated. plain. Qed.
Lemma gentle_reseed now reason : gentle (request_tl_reseed now reason).
Proof using Type. apply gentle_same. intros r. unfold request_tl_reseed. by case_match. Qed.
#[local] Hint Resolve gentle_reseed : gentle.
Lemma plain_validate : plain validate_paused_team_runs.
Proof using HA HP.
  unfold validate_paused_team_runs. plain. apply plain_each. intros run. unfold validate_paused. plain. rows.
Qed.
Lemma plain_workspace run_id : plain (team_workspace run_id).
Proof using HA HP. unfold team_workspace. plain. Qed.
#[local] Hint Resolve plain_workspace : plain.
Lemma plain_require_workspace run_id : plain (require_team_workspace run_id).
Proof using HA HP. unfold require_team_workspace. plain. Qed.
#[local] Hint Resolve plain_require_workspace : plain.

(** The port of the driver of a run.  What acts for it is asked with the gate in hand. *)
Context (the_run : string) (HL : ∀ q own, Q own → acts q = Some the_run → Asks q (DriveGate :: own)).
Definition under_gate {R} (p : proc R) : Prop :=
  ∀ own, Q own → tracked P Asks Q p (DriveGate :: own) (λ _ own', own' = DriveGate :: own).
Lemma gate_plain {R} (p : proc R) : plain p → under_gate p.
Proof using HQ. intros Hp own Hown. by apply Hp, HQ. Qed.
Lemma gate_acts q : acts q = Some the_run → under_gate (ask q).
Proof using HL HQ. intros Hq own Hown. split; [by auto|done]. Qed.
Lemma gate_bind {X Y} (p : proc X) (h : X → proc Y) : under_gate p → (∀ a, under_gate (h a)) → under_gate (bind p h).
Proof using Type.
  intros Hp Hh own Hown. apply tracked_bind. eapply tracked_mono; [|by apply Hp]. intros a own' ->. by apply Hh.
Qed.
Lemma gated_plain {R} (p : proc R) : under_gate p → plain (gated p).
Proof using HA HP HPgate HQ.
  intros Hp own Hown. split; [done|].
  change (tracked P Asks Q (a <- p;; drop_guard DriveGate;; ret a) (DriveGate :: own) (λ _ own', own' = own)).
  apply tracked_bind. eapply tracked_mono; [|by apply Hp]. intros a own' ->. by apply tracked_drop_gate.
Qed.
Ltac gate := apply gate_plain; plain.
Lemma gentle_standing_id (f : TeamRun → TeamRun) : (∀ r, standing (f r) = standing r) → gentle f.
Proof using Type. apply gentle_same. Qed.
#[local] Hint Extern 5 (gentle (λ r, _)) => (apply gentle_same; intros ?; reflexivity) : gentle.
Lemma plain_settled_refusal run_id : plain (settled_team_turn_refusal run_id).
Proof using HA HP. unfold settled_team_turn_refusal. plain. Qed.
Lemma refuse_reviewer_rows run_id index now s :
  rows_rel (ts_team_runs s) (ts_team_runs (refuse_reviewer run_id index now s).1).
Proof using Type.
  unfold refuse_reviewer. destruct (ts_team_runs s !! run_id) as [run|]; [|done].
  destruct (driver_locked (tr_status run)); [done|]. destruct (tr_stopping run); [done|].
  destruct (negb (tr_pause_requested run) && _); [done|].
  generalize (filter (λ id, thread_working id s = true) (owned_thread_ids run)). intros working.
  destruct (tr_pause_requested run); cbv beta iota zeta; rows;
    [apply (gentle_reviewer _ _ _ _ index false working)|apply (gentle_reviewer _ _ _ _ index true working)].
Qed.
Lemma plain_reviewer_refusal run_id slot : plain (reviewer_turn_refusal run_id slot).
Proof using HA HP. unfold reviewer_turn_refusal. plain. apply refuse_reviewer_rows. Qed.
Lemma plain_set_in_flight run_id th : plain (set_in_flight_thread run_id th).
Proof using HA HP. unfold set_in_flight_thread. plain. rows. Qed.
Lemma plain_latest th : plain (latest_assistant_entry th).
Proof using HA HP. unfold latest_assistant_entry. plain. Qed.
Lemma plain_slot run_id slot : plain (resolve_team_slot run_id slot).
Proof using HA HP. unfold resolve_team_slot. plain. Qed.
#[local] Hint Resolve plain_settled_refusal plain_reviewer_refusal plain_set_in_flight plain_latest plain_slot : plain.
Lemma plain_note_phase run_id th : plain (note_team_turn_phase run_id th).
Proof using HA HP.
  apply plain_hold. intros s own s' own' ts b E.
  destruct (as_team_runs s !! run_id) as [run|]; [destruct (driver_locked _)|]; simplify_eq; split; done.
Qed.
(** A turn is started with the gate in hand. *)
Lemma gate_send th text model effort : under_gate (send_message_to_thread the_run th text model effort).
Proof using HA HP HL HQ.
  unfold send_message_to_thread. apply gate_bind; [gate|]. intros [plan|error]; [|gate].
  apply gate_bind; [gate|]. intros rev. apply gate_bind; [by apply gate_acts|]. intros [turn|error]; [|gate].
  gate. apply rows_same, seed_turn_teams.
Qed.
Lemma plain_observe_loop rounds : ∀ th deadline, plain (observe_loop rounds th deadline).
Proof using HA HP. induction rounds as [|rounds IH]; intros th deadline; cbn [observe_loop]; plain. Qed.
#[local] Hint Resolve plain_note_phase plain_observe_loop : plain.
Lemma plain_observe th : plain (observe_turn_liveness th).
Proof using HA HP. unfold observe_turn_liveness. plain. Qed.
Lemma plain_deny_each l : plain (deny_each l).
Proof using HA HP. induction l; cbn [deny_each]; plain. Qed.
#[local] Hint Resolve plain_observe plain_deny_each : plain.
Lemma record_denials_rows run_id th denied s : rows_rel (ts_team_runs s) (ts_team_runs (record_denials run_id th denied s)).
Proof using Type.
  unfold record_denials. rewrite notify_teams.
  rewrite <- (foldl_teams (λ s id, (remove_pending_approval id s).1) denied s) at 1 by (intros; apply remove_approval_teams).
  destruct denied; [done|]. apply set_run_rows, gentle_same. intros r. by case_match.
Qed.
Lemma plain_auto_handle run_id th : plain (auto_handle_team_approval run_id th).
Proof using HA HP. unfold auto_handle_team_approval. plain. apply record_denials_rows. Qed.
Lemma plain_park run_id th role q : plain (park_team_run_on_question run_id th role q).
Proof using HA HP. unfold park_team_run_on_question. plain. rows. Qed.
Lemma plain_unpark run_id : plain (unpark_team_run run_id).
Proof using HA HP. unfold unpark_team_run. plain. rows. Qed.
#[local] Hint Resolve plain_auto_handle plain_park plain_unpark : plain.
Lemma plain_unpark_if parked run_id : plain (unpark_if parked run_id).
Proof using HA HP. unfold unpark_if. plain. Qed.
#[local] Hint Resolve plain_unpark_if : plain.
Lemma plain_sleep again run_id th parked deadline : plain again → plain (sleep_or_wake again run_id th parked deadline).
Proof using HA HP. intros Ha. unfold sleep_or_wake. plain. Qed.
Lemma plain_wait_loop rounds : ∀ run_id th role deadline rev parked, plain (wait_loop rounds run_id th role deadline rev parked).
Proof using HA HP.
  induction rounds as [|rounds IH]; intros; cbn [wait_loop]; plain; apply plain_sleep; auto.
Qed.
#[local] Hint Resolve plain_wait_loop : plain.
Lemma plain_wait run_id th role : plain (wait_for_team_step run_id th role).
Proof using HA HP. unfold wait_for_team_step. plain. Qed.
#[local] Hint Resolve plain_wait : plain.
Lemma plain_preflight run_id th : plain (team_turn_preflight run_id th).
Proof using HA HP. unfold team_turn_preflight. plain. Qed.
#[local] Hint Resolve plain_preflight : plain.
Lemma gate_dispatch slot th prompt : under_gate (dispatch_holding_gate the_run slot th prompt).
Proof using HA HP HQ HL.
  unfold dispatch_holding_gate, dispatched_thread_id.
  apply gate_bind; [gate|]. intros [reason|]; [gate|]. apply gate_bind; [gate|]. intros [[]|error]; [|gate].
  apply gate_bind; [gate|]. intros []. apply gate_bind; [gate|]. intros runtime.
  apply gate_bind; [apply gate_send|]. intros outcome. gate.
Qed.
Lemma plain_dispatch slot th prompt : plain (dispatch_turn the_run slot th prompt).
Proof using HA HP HPgate HQ HL. apply gated_plain, gate_dispatch. Qed.
Lemma plain_checkpoint_work run_id index : plain (turn_has_checkpoint_work run_id index).
Proof using HA HP. unfold turn_has_checkpoint_work. plain. Qed.
Lemma plain_billed th turn : plain (turn_billed_work th turn).
Proof using HA HP. unfold turn_billed_work. plain. Qed.
#[local] Hint Resolve plain_dispatch plain_checkpoint_work plain_billed : plain.
Lemma plain_conclude run_id slot role th turn baseline : plain (conclude_turn run_id slot role th turn baseline).
Proof using HA HP. unfold conclude_turn. plain; rows. Qed.
#[local] Hint Resolve plain_conclude : plain.
Lemma plain_settle_paused run_id reason kind : plain (settle_team_run run_id Paused reason kind).
Proof using HA HP. by apply plain_settle_team_run. Qed.
#[local] Hint Resolve plain_settle_paused : plain.
Lemma plain_await run_id slot role th turn baseline : plain (await_turn run_id slot role th turn baseline).
Proof using HA HP. unfold await_turn. plain. Qed.
#[local] Hint Resolve plain_await : plain.
Lemma plain_unless refusal k : plain refusal → plain k → plain (unless_refused refusal k).
Proof using HA HP. intros Hr Hk. unfold unless_refused. plain. Qed.
Lemma plain_team_turn slot role prompt : plain (team_turn the_run slot role prompt).
Proof using HA HP HPgate HQ HL.
  unfold team_turn. do 3 (apply plain_unless; [auto with plain|]). plain. apply plain_unless; plain.
Qed.
#[local] Hint Resolve plain_team_turn : plain.
Lemma register_reviewer_teams id parent s : ts_team_runs (register_task_reviewer_thread id parent s) = ts_team_runs s.
Proof using Type. done. Qed.
Lemma register_seat_rows run_id role workspace provider approval sandbox seat now s :
  rows_rel (ts_team_runs s) (ts_team_runs (register_seat run_id role workspace provider approval sandbox seat now s)).
Proof using Type.
  unfold register_seat. cbv zeta. rewrite notify_teams.
  match goal with |- context [set_run run_id ?f ?s1] => set (s2 := s1) end.
  assert (ts_team_runs s2 = ts_team_runs s) as Hs2.
  { unfold s2. by rewrite set_workspace_teams, register_background_teams. }
  assert (∀ th, rows_rel (ts_team_runs s) (ts_team_runs (set_run run_id (record_run_thread_role now th role) s2))) as Hr.
  { intros th. rewrite <- Hs2. apply set_run_rows, gentle_same. intros r. unfold record_run_thread_role. by case_match. }
  destruct role; rewrite ?register_reviewer_teams; apply Hr.
Qed.
Lemma plain_start_team_thread run_id role workspace : plain (start_team_thread run_id role workspace).
Proof using HA HP. unfold start_team_thread. plain. apply register_seat_rows. Qed.
Lemma plain_record_run_thread run_id th : plain (port_record_run_thread run_id th).
Proof using HA HP.
  unfold port_record_run_thread. plain. rewrite notify_teams. apply set_run_rows, gentle_same. intros r.
  unfold TeamThreads.record_run_thread. by case_match.
Qed.
#[local] Hint Resolve plain_start_team_thread plain_record_run_thread : plain.
Lemma plain_start_thread run_id role : plain (start_thread run_id role).
Proof using HA HP. unfold start_thread. plain. Qed.
#[local] Hint Resolve plain_start_thread : plain.
Lemma plain_resume_or_start run_id role l : plain (resume_or_start_thread run_id role l).
Proof using HA HP. induction l; cbn [resume_or_start_thread]; plain. Qed.
Lemma plain_ensure_tl run_id : plain (ensure_tl_thread run_id).
Proof using HA HP. unfold ensure_tl_thread. plain. rows. Qed.
#[local] Hint Resolve plain_resume_or_start plain_ensure_tl : plain.
Lemma plain_tl_turn prompt : plain (tl_turn the_run prompt).
Proof using HA HP HPgate HQ HL. unfold tl_turn. plain. rows. Qed.
Lemma plain_tl_needs_reseed run_id : plain (tl_needs_reseed run_id).
Proof using HA HP. unfold tl_needs_reseed, tl_transcript_bytes. plain. Qed.
Lemma plain_reseed_tl reason prompt : plain (reseed_tl the_run reason prompt).
Proof using HA HP HPgate HQ HL. unfold reseed_tl. plain; rows. Qed.
Lemma gate_commit_worktree workspace message : under_gate (commit_worktree the_run workspace message).
Proof using HA HP HL HQ.
  unfold commit_worktree. apply gate_bind; [by apply gate_acts|]. intros [staged|error]; [|gate].
  destruct (negb _); [gate|]. apply gate_bind; [by apply gate_acts|]. intros [pending|error]; [|gate].
  do 2 (case_match; [gate|]). apply gate_bind; [by apply gate_acts|]. intros [committed|error]; gate.
Qed.
#[local] Hint Resolve plain_tl_turn plain_tl_needs_reseed plain_reseed_tl : plain.
Lemma gate_commit workspace message : under_gate (commit_holding_gate the_run workspace message).
Proof using HA HP HQ HL.
  unfold commit_holding_gate. apply gate_bind; [gate|]. intros run. destruct (negb _); [gate|].
  apply gate_bind; [apply gate_commit_worktree|]. intros committed. gate.
Qed.
Lemma plain_commit_gated workspace message : plain (commit_worktree_gated the_run workspace message).
Proof using HA HP HPgate HQ HL. apply gated_plain, gate_commit. Qed.
Lemma plain_checkpoint run_id workspace : plain (checkpoint_commit run_id workspace).
Proof using HA HP. unfold checkpoint_commit. plain. Qed.
#[local] Hint Resolve plain_commit_gated plain_checkpoint : plain.
Lemma plain_in_workspace {A} run_id (k : string → proc (result A TeamPortError)) :
  (∀ w, plain (k w)) → plain (in_workspace run_id k).
Proof using HA HP. intros Hk. unfold in_workspace. plain. Qed.

(** What the driver may write: it does not unlock a run, make it executable, or write
    [Resolving], which is the relay's own. *)
Definition polite_op (op : PortOp) : Prop :=
  match op with
  | UpdateRun mutation => gentle mutation
  | UpdateStatus status | SettleRun status _ => status ≠ Resolving
  | _ => True
  end.
Fixpoint polite (p : PortProgram) : Prop :=
  match p with
  | Returned => True
  | Call op k => polite_op op ∧ ∀ a, polite (k a)
  end.
Lemma plain_port op : polite_op op → plain (port the_run op).
Proof using HA HP HPgate HQ HL.
  destruct op; cbn [port polite_op]; intros Hop;
    try solve [auto with plain | apply plain_in_workspace; intros; plain].
  - unfold port_update_run. plain. destruct (update_team_run _ _ _) as [runs updated] eqn:E. cbn.
    rewrite notify_if_teams. cbn. apply (f_equal fst) in E. cbn [fst] in E. rewrite <- E.
    by apply gentle_update, gentle_mutation.
  - unfold team_boundary_check. plain.
Qed.
Lemma plain_drive p : polite p → plain (drive the_run p).
Proof using HA HP HPgate HQ HL.
  induction p as [|op k IH]; cbn [drive polite]; intros Hp; [apply plain_ret|].
  apply plain_bind; [apply plain_port, Hp|]. intros a. apply IH, Hp.
Qed.
End Plain.
#[export] Hint Resolve plain_ret plain_ask plain_read plain_relay_read plain_release plain_gated plain_each
  plain_team_run_snapshot plain_run_status plain_working_team_threads plain_release_seats plain_fail_team_run
  plain_block_team_run plain_update_team_status plain_settle_team_run plain_push_runtime_log
  plain_request_thread_stop plain_clear_interactions plain_drain_loop plain_stop_and_drain plain_drain_each
  plain_drain_team_run plain_release_team_threads plain_interrupt plain_abandon plain_restore_blocked
  plain_require_backend plain_require_stoppable plain_authorize_with plain_authorize_action plain_authorize_mark
  plain_beta plain_pause plain_commit_force_mark plain_mark_non_executable plain_mark_quiescent
  plain_mark_blocked plain_validate plain_workspace plain_require_workspace plain_settled_refusal
  plain_reviewer_refusal plain_set_in_flight plain_latest plain_slot plain_note_phase
  plain_observe_loop plain_observe plain_deny_each plain_auto_handle plain_park plain_unpark plain_unpark_if
  plain_wait_loop plain_wait plain_preflight plain_dispatch plain_checkpoint_work plain_billed plain_conclude
  plain_settle_paused plain_await plain_team_turn plain_start_team_thread plain_record_run_thread
  plain_start_thread plain_resume_or_start plain_ensure_tl plain_tl_turn plain_tl_needs_reseed plain_reseed_tl
  plain_commit_gated plain_checkpoint plain_port plain_drive : plain.

(** ** The kinds of holds

    [w]: what the program may do to a run beyond the gentle updates. *)
Inductive Feat : Type := Starts (run_id : string) | Wakes | Resolves.
Definition is_net (g : Guard) : bool :=
  match g with TeamDriverGuard _ | TeamStopGuard _ | TeamRecoveryGuard _ => true | _ => false end.
Definition same_gates (s s' : AppState) : Prop :=
  as_driving_team_runs s' = as_driving_team_runs s ∧ as_team_drive_gate s' = as_team_drive_gate s ∧
  as_session_guard s' = as_session_guard s.

Inductive kind (w : Feat → Prop) : AppState → list Guard → AppState → list Guard → list Spawned → Prop :=
| kind_relay s own s' ts : relay_hold s s' ts → kind w s own s' own ts
| kind_arm s own g : is_net g = true → kind w s own s (g :: own) []
| kind_disarm s own g : is_net g = true → kind w s own s (without g own) []
| kind_drop s own g : g ∈ own → kind w s own (guard_dropped g s).1 (without g own) (guard_dropped g s).2
| kind_claim s own r : r ∉ as_driving_team_runs s →
    kind w s own (s <| as_driving_team_runs ::= λ d, {[r]} ∪ d |>) (TeamDriveTicket r :: own) []
| kind_slot s own : as_session_guard s = false → kind w s own (s <| as_session_guard := true |>) (SessionSlot :: own) []
| kind_gate s own : as_team_drive_gate s = false → kind w s own (s <| as_team_drive_gate := true |>) (DriveGate :: own) []
| kind_spawn s own r : TeamDriveTicket r ∈ own → kind w s own s (without (TeamDriveTicket r) own) [RunDriver r]
| kind_resolving s own s' r run now :
    w Resolves → same_gates s s' → as_team_runs s !! r = Some run → tr_status run = Blocked →
    as_team_runs s' = <[r := (begin_resolving_blocked now run).1]> (as_team_runs s) → kind w s own s' own []
| kind_wake s own s' r run now :
    w Wakes → DriveGate ∈ own → TeamDriveTicket r ∈ own → same_gates s s' →
    as_team_runs s !! r = Some run → is_resumable (tr_status run) = true →
    as_team_runs s' = <[r := (resume now run).1]> (as_team_runs s) → kind w s own s' own []
| kind_start s own s' r input worktree :
    w (Starts r) → same_gates s s' →
    as_team_runs s' = insert_team_run (run_started (as_unix_now s) r input worktree) (as_team_runs s) → kind w s own s' own [].

Lemma kind_ungate w s own : kind w s (DriveGate :: own) (s <| as_team_drive_gate := false |>) own [].
Proof.
  pose proof (kind_drop w s (DriveGate :: own) DriveGate) as H1. cbn [guard_dropped fst snd] in H1.
  cbn [without] in H1. rewrite decide_True in H1 by done. apply H1. set_solver.
Qed.

Section Handlers.
Context `{!TeamSettings, FileSystem} (team_driver : string → PortProgram) (admitted : Request → Prop).
#[local] Existing Instance team_runtime.
Context (Asks : Query → list Guard → Prop) (HA : ∀ q own, acts q = None → Asks q own).
#[local] Instance handlers_runtime : Runtime AppState Guard Spawned Query answer := team_runtime team_driver admitted.

Definition framed (w : Feat → Prop) {R} (p : proc R) : Prop :=
  ∀ own, tracked (kind w) Asks any_guards p own (λ _ own', own' = own).
Lemma framed_plain w {R} (p : proc R) : plain team_driver admitted (kind w) Asks any_guards p → framed w p.
Proof using Type. intros Hp own. by apply Hp. Qed.

(** The hypotheses of [Plain] for [kind]. *)
Ltac kinds := first [ by intros; apply HA | by intros; apply kind_relay | by intros; apply kind_ungate | done ].
Ltac by_plain := eapply tracked_mono; [|apply framed_plain; solve [eauto 3 with plain]]; intros ? ? ->.

#[local] Hint Resolve kind_relay kind_ungate : plain.
#[local] Hint Extern 1 (any_guards _) => exact I : plain.
#[local] Hint Extern 1 (Asks _ _) => (apply HA; assumption) : plain.

Lemma framed_bind w {A B} (p : proc A) (h : A → proc B) : framed w p → (∀ a, framed w (h a)) → framed w (bind p h).
Proof using Type. intros Hp Hh own. apply tracked_bind. eapply tracked_mono; [|apply Hp]. intros a own' ->. apply Hh. Qed.
Lemma framed_ask w q : acts q = None → framed w (ask q).
Proof using HA. intros Hq own. split; [split; [done|by apply HA]|done]. Qed.
Lemma framed_ret w {R} (r : R) : framed w (ret r).
Proof using Type. done. Qed.
Lemma tracked_gated w {R} (p : proc R) own (K : R → list Guard → Prop) :
  tracked (kind w) Asks any_guards p (DriveGate :: own) (λ a own', ∃ own2, own' = DriveGate :: own2 ∧ K a own2) →
  tracked (kind w) Asks any_guards (gated p) own K.
Proof using HA.
  intros Hp. split; [done|].
  change (tracked (kind w) Asks any_guards (a <- p;; drop_guard DriveGate;; ret a) (DriveGate :: own) K).
  apply tracked_bind. eapply tracked_mono; [|exact Hp]. intros a own' (own2 & -> & HK).
  apply (tracked_drop_gate team_driver admitted); first [by intros; apply HA | by intros; apply kind_relay | by intros; apply kind_ungate | done | exact HK].
Qed.
Lemma framed_gated w {R} (p : proc R) :
  (∀ own, tracked (kind w) Asks any_guards p (DriveGate :: own) (λ _ own', own' = DriveGate :: own)) → framed w (gated p).
Proof using HA. intros Hp own. apply tracked_gated. eapply tracked_mono; [|apply Hp]. intros a own' ->. eauto. Qed.
Ltac framed_step :=
  match goal with
  | |- framed _ (bind _ _) => apply framed_bind; [|intros ?]
  | |- framed _ (ret _) => apply framed_ret
  | |- framed _ (match ?x with _ => _ end) => destruct x eqn:?
  | |- framed _ (Process.ask ?q) => exact (framed_ask _ q eq_refl)
  | |- framed _ _ => solve [auto with framed | apply framed_plain; eauto 4 with plain]
  end.
Ltac framed := repeat (lazymatch goal with |- framed _ (bind (claim_team_drive _) _) => fail | _ => framed_step end).
Lemma keeps_rows_write w {B} (f : Z → ThreadState → ThreadState * B) : keeps_rows f → framed w (relay_write f).
Proof using HA. intros Hf. apply framed_plain, plain_relay_write; kinds || exact Hf. Qed.
Lemma settled_status_ne k : settled_status k ≠ Resolving.
Proof using Type. by destruct k. Qed.
#[local] Hint Resolve settled_status_ne : plain.
Lemma tracked_arm w g own K : is_net g = true → K () (g :: own) → tracked (kind w) Asks any_guards (arm g) own K.
Proof using Type. intros Hg HK. split; [done|]. intros s s' own' ts b E. simplify_eq. split; [by apply kind_arm|done]. Qed.
Lemma tracked_disarm w g own K : is_net g = true → K () (without g own) → tracked (kind w) Asks any_guards (disarm g) own K.
Proof using Type. intros Hg HK. split; [done|]. intros s s' own' ts b E. simplify_eq. split; [by apply kind_disarm|done]. Qed.
Ltac tr_step :=
  match goal with
  | |- tracked _ _ _ (bind _ _) _ _ => apply tracked_bind
  | |- tracked _ _ _ (ret _) _ _ => cbn
  | |- tracked _ _ _ (match ?x with _ => _ end) _ _ => destruct x eqn:?
  | |- tracked _ _ _ (relay_write _) _ _ =>
      eapply tracked_mono; [|apply keeps_rows_write; intros ? ?; cbn [fst]; rows]; intros ? ? ->
  | |- tracked _ _ _ (arm _) _ _ => apply tracked_arm; [done|]
  | |- tracked _ _ _ (disarm _) _ _ => apply tracked_disarm; [done|]; cbn [without]; rewrite ?decide_False, ?decide_True by done
  | |- tracked _ _ _ _ _ _ => eapply tracked_mono; [|apply framed_plain; solve [eauto 4 with plain]]; intros ? ? ->
  end.

Lemma framed_pause w run_id device_id : framed w (pause_team_run run_id device_id).
Proof using HA. framed. Qed.
Lemma framed_stop w run_id device_id k : framed w (stop_team_run run_id device_id k).
Proof using HA.
  unfold stop_team_run. framed. apply framed_gated. intros own. repeat tr_step; try done.
Qed.

#[local] Hint Resolve framed_stop framed_pause : framed.

(** [update_team_run] with a closure that keeps the backend. *)
Lemma update_same_backend id f (m : TeamRuns) :
  (∀ r, tr_orchestration_backend (f r) = tr_orchestration_backend r) →
  (update_team_run id f m).1 = match m !! id with Some r => <[id := f r]> m | None => m end.
Proof using Type.
  intros Hf. unfold update_team_run. destruct (m !! id) as [r|]; [|done]. cbn.
  rewrite bool_decide_eq_true_2 by apply Hf. by rewrite andb_false_r.
Qed.

Lemma begin_resolving_hold w run_id device_id now s own : w Resolves →
  let r := begin_resolving run_id device_id now (as_relay s) in
  kind w s own (s <| as_relay := r.1 |>) own [].
Proof using Type.
  intros Hw. cbn. unfold begin_resolving. destruct (in_worktree_scope _ _ _); [|apply kind_relay; by constructor].
  destruct (update_run _ _ _ _) as [relay began] eqn:E. unfold update_run in E. simplify_eq.
  set (runs := ts_team_runs (as_relay s)).
  assert ((update_team_run run_id (λ r, (begin_resolving_blocked now r).1) runs).1 =
          match runs !! run_id with Some r => <[run_id := (begin_resolving_blocked now r).1]> runs | None => runs end) as Hu.
  { apply update_same_backend. intros r. unfold begin_resolving_blocked. by case_match. }
  destruct (runs !! run_id) as [run|] eqn:Er.
  2:{ apply kind_relay. constructor; try done. apply rows_same. cbn. fold runs. by rewrite Hu. }
  destruct (decide (tr_status run = Blocked)) as [Hb|Hb].
  - assert ((begin_resolving_blocked now run).2 = true) as Hbegan.
    { unfold begin_resolving_blocked. by rewrite bool_decide_eq_true_2. }
    rewrite Hbegan. by apply (kind_resolving w s own _ run_id run now).
  - assert (begin_resolving_blocked now run = (run, false)) as Hbegan.
    { unfold begin_resolving_blocked. by rewrite bool_decide_eq_false_2. }
    rewrite Hbegan in Hu |- *. apply kind_relay. constructor; try done. apply rows_same.
    etrans; [exact Hu|]. by apply insert_id.
Qed.
Lemma tracked_relay_write w {B} (f : Z → ThreadState → ThreadState * B) own (K : B → list Guard → Prop) :
  (∀ s, kind w s own (s <| as_relay := (f (as_unix_now s) (as_relay s)).1 |>) own [] ∧
        K (f (as_unix_now s) (as_relay s)).2 own) → tracked (kind w) Asks any_guards (relay_write f) own K.
Proof using Type.
  intros Hf. split; [done|]. intros s s' own' ts b E. specialize (Hf s).
  destruct (f (as_unix_now s) (as_relay s)) as [relay b']. simplify_eq. exact Hf.
Qed.
Lemma framed_recover w id : framed w (recover_team_run id).
Proof using HA.
  intros own. unfold recover_team_run. apply tracked_bind, tracked_arm; [done|].
  apply tracked_gated. repeat tr_step; eauto.
Qed.
Lemma framed_resolve w run_id device_id : w Resolves → framed w (resolve_blocked_team_run run_id device_id).
Proof using HA.
  intros Hw. unfold resolve_blocked_team_run. destruct (require_device_id device_id) as [device|e]; [|framed].
  intros own. apply tracked_bind, tracked_relay_write. intros s.
  destruct (blocked_team_run_id run_id (ts_team_runs (as_relay s))) as [id|err];
    [|split; [apply kind_relay; by constructor|done]].
  pose proof (begin_resolving_hold w id device (as_unix_now s) s own Hw) as Hb. cbn zeta in Hb.
  destruct (begin_resolving id device (as_unix_now s) (as_relay s)) as [relay [[]|e]]; (split; [exact Hb|]); [|done].
  apply framed_recover.
Qed.
Lemma framed_mark_run w run_id device_id target : framed w (mark_team_run run_id device_id target).
Proof using HA. unfold mark_team_run. framed. Qed.
#[local] Hint Resolve framed_mark_run : framed.
Lemma framed_mark w status run_id device_id : framed w (mark_team status run_id device_id).
Proof using HA. unfold mark_team. framed. Qed.

(** The slot. *)
Lemma tracked_drop w g own (K : () → list Guard → Prop) : g ∈ own → K () (without g own) →
  tracked (kind w) Asks any_guards (drop_guard g) own K.
Proof using Type.
  intros Hg HK. split; [done|]. intros s s' own' ts b E. rewrite decide_True in E by done.
  destruct (guard_dropped g s) as [s1 ts1] eqn:Er. simplify_eq. split; [|done].
  pose proof (kind_drop w s own g Hg) as Hd. by rewrite Er in Hd.
Qed.
Lemma framed_slotted w {A} (p : action A) :
  (∀ own, tracked (kind w) Asks any_guards p (SessionSlot :: own) (λ _ own', own' = SessionSlot :: own)) → framed w (slotted p).
Proof using HA.
  intros Hp own. unfold slotted. apply tracked_bind. split; [done|]. intros s s' own' ts b E.
  destruct (as_session_guard s) eqn:Es; simplify_eq; (split; [by constructor; try constructor|]); [done|].
  apply tracked_bind. eapply tracked_mono; [|apply Hp]. intros r own' ->.
  apply tracked_bind, tracked_drop; [set_solver|]. cbn [without]. by rewrite decide_True.
Qed.
Lemma framed_send w th : framed w (send_to_thread th).
Proof using HA.
  unfold send_to_thread. apply framed_bind; [framed|]. intros owned. destruct (negb owned); [framed|].
  intros own. apply tracked_bind. split; [done|]. intros s s' own' ts b E.
  destruct (as_team_drive_gate s) eqn:Es; simplify_eq; (split; [by constructor; try constructor|]); [done|].
  cbn [negb]. apply tracked_bind. tr_step. destruct (negb _).
  - apply tracked_bind, tracked_drop; [set_solver|]. cbn [without]. by rewrite decide_True.
  - apply tracked_bind. split; [split; [done|by apply HA]|]. intros []. apply tracked_bind, tracked_drop; [set_solver|]. cbn [without].
    by rewrite decide_True.
Qed.

(** Tickets. *)
Lemma resume_hold w r s own : w Wakes → DriveGate ∈ own → TeamDriveTicket r ∈ own →
  kind w s own (s <| as_relay := notify_if (update_run r (resume (as_unix_now s)) false (as_relay s)).2
                                      (update_run r (resume (as_unix_now s)) false (as_relay s)).1 |>) own [].
Proof using Type.
  intros Hw Hg Ht. set (now := as_unix_now s). unfold update_run. cbn [fst snd].
  set (runs := ts_team_runs (as_relay s)).
  assert ((update_team_run r (λ run, (resume now run).1) runs).1 =
          match runs !! r with Some run => <[r := (resume now run).1]> runs | None => runs end) as Hu.
  { apply update_same_backend. intros run. unfold resume. by case_match. }
  destruct (runs !! r) as [run|] eqn:Er.
  2:{ apply kind_relay. constructor; try done. apply rows_same. exact Hu. }
  destruct (is_resumable (tr_status run)) eqn:Hres.
  - assert ((resume now run).2 = true) as -> by (unfold resume; by rewrite Hres).
    by apply (kind_wake w s own _ r run now).
  - assert (resume now run = (run, false)) as Hsame by (unfold resume; by rewrite Hres). rewrite Hsame in Hu |- *.
    apply kind_relay. constructor; try done. apply rows_same. etrans; [exact Hu|]. by apply insert_id.
Qed.
Lemma tracked_resume w r own : w Wakes → DriveGate ∈ own → TeamDriveTicket r ∈ own →
  tracked (kind w) Asks any_guards (resume_team_run_holding_gate r) own (λ _ own', own' = without (TeamDriveTicket r) own).
Proof using HA.
  intros Hw Hg Ht. unfold resume_team_run_holding_gate. apply tracked_bind. tr_step.
  match goal with |- tracked _ _ _ (match ?l with _ => _ end) _ _ => destruct l end.
  2:{ apply tracked_bind, tracked_drop; done. }
  apply tracked_bind, tracked_relay_write. intros s. pose proof (resume_hold w r s own Hw Hg Ht) as Hk.
  destruct (update_run r _ _ _) as [relay resumed]. cbn [fst snd] in *. split; [exact Hk|].
  destruct resumed; cbn [negb].
  - apply tracked_bind. split; [done|]. intros s1 s' own' ts b E. simplify_eq. split; [by apply kind_spawn|done].
  - apply tracked_bind, tracked_drop; done.
Qed.
Lemma tracked_claim w r own (K : bool → list Guard → Prop) :
  K true (TeamDriveTicket r :: own) → K false own → tracked (kind w) Asks any_guards (claim_team_drive r) own K.
Proof using Type.
  intros H1 H2. split; [done|]. intros s s' own' ts b E. destruct (decide (r ∈ as_driving_team_runs s)); simplify_eq.
  - split; [apply kind_relay; by constructor|done].
  - split; [by apply kind_claim|done].
Qed.
Lemma without_ticket r own : without (TeamDriveTicket r) (DriveGate :: TeamDriveTicket r :: own) = DriveGate :: own.
Proof using Type. cbn [without]. by rewrite decide_False, decide_True. Qed.
Lemma framed_resume w run_id device_id : w Wakes → framed w (resume_team_run run_id device_id).
Proof using HA.
  intros Hw. unfold resume_team_run. framed.
  intros own. apply tracked_bind, tracked_claim; cbn [negb]; [|done].
  apply tracked_gated. eapply tracked_mono; [|apply tracked_resume; [done|set_solver..]]. intros a' own' ->.
  rewrite without_ticket. eauto.
Qed.

(** Reopening: what is restored was terminal. *)
Lemma reopenable_locked r : is_reopenable (tr_status r) = true → locked r = true ∧ tr_status r ≠ Resolving.
Proof using Type. unfold locked, driver_locked. by destruct (tr_status r). Qed.
Lemma rollback_rows restore target s : is_reopenable (tr_status restore) = true →
  rows_rel (ts_team_runs s) (ts_team_runs (update_run target (rollback restore) false s).1).
Proof using Type.
  intros [Hl Hn]%reopenable_locked id. cbn. unfold update_team_run.
  destruct (ts_team_runs s !! target) as [run|] eqn:Er; cbn.
  2:{ by destruct (ts_team_runs s !! id). }
  assert (∀ b, steady run ((rollback restore run).1 <| tr_orchestration_backend := b |>) ∨
               (rollback restore run).1 = run) as Hs.
  { intros b. unfold rollback. destruct (is_terminal (tr_status run)); [by right|].
    case_bool_decide as Hp; [|by right]. cbn. left. constructor; cbn [tr_status set_field].
    - intros _. exact Hl.
    - rewrite !needs_iff. change (locked (restore <| tr_orchestration_backend := b |>)) with (locked restore).
      by rewrite Hl, andb_false_r.
    - done. }
  assert (steady run (rollback restore run).1) as Hs1.
  { destruct (Hs (tr_orchestration_backend (rollback restore run).1)) as [H1|H1]; [|by rewrite H1].
    by destruct (rollback restore run).1. }
  case_if; cbn; destruct (decide (target = id)) as [->|Hne]; rewrite ?lookup_insert_eq, ?lookup_insert_ne by done;
    rewrite ?Er; try (by destruct (ts_team_runs s !! id)).
  destruct (Hs (tr_orchestration_backend run)) as [H1|H1]; [exact H1|]. rewrite H1. by destruct run.
Qed.
Lemma framed_rollback w target restore : is_reopenable (tr_status restore) = true →
  framed w (rollback_reopen_provision target restore).
Proof using HA.
  intros Hr. apply keeps_rows_write. intros now s. pose proof (rollback_rows restore target s Hr) as H1.
  destruct (update_run _ _ _ _) as [s' restored]. cbn [fst]. by rewrite notify_if_teams.
Qed.
Lemma reopen_write_spec target instruction updates s :
  rows_rel (ts_team_runs s) (ts_team_runs (reopen_write target instruction updates s).1) ∧
  ∀ before, (reopen_write target instruction updates s).2 = Ok before → is_reopenable (tr_status before) = true.
Proof using Type.
  unfold reopen_write. destruct (ts_team_runs s !! target) as [run|]; [|done].
  destruct (is_reopenable (tr_status run)) eqn:Hre; cbn [negb]; [|done]. split.
  - apply set_run_rows, gentle_reopen.
  - intros before E. cbn [snd] in E. by simplify_eq.
Qed.
(** The write of a reopening, and what it gives. *)
Lemma tracked_reopen_write w target instruction updates own (K : result TeamRun ActionError → list Guard → Prop) :
  (∀ e, K (Err e) own) → (∀ before, is_reopenable (tr_status before) = true → K (Ok before) own) →
  tracked (kind w) Asks any_guards (relay_write (λ _ s, reopen_write target instruction updates s)) own K.
Proof using Type.
  intros He Ho. apply tracked_relay_write. intros s.
  destruct (reopen_write_spec target instruction updates (as_relay s)) as [Hr Hb].
  split; [apply kind_relay; by constructor|].
  destruct (reopen_write target instruction updates (as_relay s)) as [s' [before|e]]; cbn in *; auto.
Qed.
Lemma framed_reopen_gated w target instruction updates : w Wakes → framed w (gated (reopen_holding_gate target instruction updates)).
Proof using HA.
  intros Hw own. unfold reopen_holding_gate. apply tracked_gated, tracked_bind, tracked_reopen_write; [cbn; eauto|].
  intros before Hre. apply tracked_bind, tracked_claim; cbn [negb].
  - apply tracked_bind. eapply tracked_mono; [|apply tracked_resume; [done|set_solver..]]. intros resumed own' ->.
    cbn [without]. rewrite decide_True by done. destruct resumed as [status|error]; [cbn; eauto|].
    apply tracked_bind. eapply tracked_mono; [|by apply framed_rollback]. intros [] own' ->. cbn. eauto.
  - apply tracked_bind. eapply tracked_mono; [|by apply framed_rollback]. intros [] own' ->. cbn. eauto.
Qed.
Lemma framed_reopen w run_id instruction updates device_id : w Wakes →
  framed w (reopen_team_run run_id instruction updates device_id).
Proof using HA.
  intros Hw. unfold reopen_team_run. destruct (is_empty _); [framed|]. apply framed_slotted. intros own.
  repeat lazymatch goal with |- tracked _ _ _ (gated _) _ _ => fail | _ => tr_step end; try done.
  by apply framed_reopen_gated.
Qed.

(** Starting. *)
Lemma framed_start_run w suffix input : w (Starts ("team_" +:+ suffix)) → framed w (start_team_run suffix input).
Proof using HA.
  intros Hw. unfold start_team_run. apply framed_slotted. intros own. repeat tr_step; try done.
  split; [done|]. intros st st' own' ts b E. simplify_eq. split.
  { by eapply (kind_start w st _ _ _ input). }
  apply tracked_bind, tracked_claim; cbn [negb]; [|done].
  apply tracked_bind. split; [done|]. intros s1 s' own' ts b E. simplify_eq. split; [apply kind_spawn; set_solver|].
  cbn. rewrite decide_True by done. done.
Qed.
Lemma framed_start w suffix input : w (Starts ("team_" +:+ suffix)) → framed w (start_team suffix input).
Proof using HA.
  intros Hw. unfold start_team. framed. by apply framed_start_run.
Qed.
Lemma framed_action w act run_id device_id :
  (act = ActResume → w Wakes) → (act = ActResolve → w Resolves) → framed w (team_action act run_id device_id).
Proof using HA.
  intros H1 H2. unfold team_action, force_stop_team_run, cancel_team_run. framed; subst;
    [by apply framed_resume, H1|by apply framed_resolve, H2].
Qed.

(** Every request. *)
Definition may (q : Request) (x : Feat) : Prop :=
  match q with
  | StartTeam suffix _ => x = Starts ("team_" +:+ suffix)
  | TeamAction ActResume _ _ | ReopenTeam _ _ _ _ => x = Wakes
  | TeamAction ActResolve _ _ => x = Resolves
  | _ => False
  end.
Lemma framed_request w q : (∀ x, may q x → w x) → framed w (request_task q).
Proof using HA.
  intros Hw. destruct q as [suffix input|act run_id device_id|status run_id device_id|run_id instruction updates device_id| |th];
    cbn [request_task]; [..|framed|]; (apply framed_bind; [|intros; apply framed_ret]).
  - by apply framed_start, Hw.
  - apply framed_action; intros ->; by apply Hw.
  - apply framed_mark.
  - by apply framed_reopen, Hw.
  - apply framed_send.
Qed.
End Handlers.

(** ** Every task is framed *)
Section Framed.
Context `{!TeamSettings, FileSystem} (team_driver : string → PortProgram) (admitted : Request → Prop)
  (Hpolite : ∀ r, polite (team_driver r)).
#[local] Existing Instance team_runtime.
#[local] Instance framed_runtime : Runtime AppState Guard Spawned Query answer := team_runtime team_driver admitted.
#[local] Hint Resolve kind_relay kind_ungate : plain.
#[local] Hint Extern 1 (any_guards _) => exact I : plain.

(** What acts for a run is asked by the task that holds its ticket and the gate. *)
Definition owned (q : Query) (own : list Guard) : Prop :=
  ∀ r, acts q = Some r → DriveGate ∈ own ∧ TeamDriveTicket r ∈ own.
Lemma owned_silent q own : acts q = None → owned q own.
Proof using Type. intros Hq r Hr. congruence. Qed.

Section DriverTask.
Context (w : Feat → Prop) (r : string).
Definition has_ticket (own : list Guard) : Prop := TeamDriveTicket r ∈ own.
Lemma ticket_under_gate own : has_ticket own → has_ticket (DriveGate :: own).
Proof using Type. intros Ho. apply elem_of_cons. by right. Qed.
Lemma ticketed_acts q own : has_ticket own → acts q = Some r → owned q (DriveGate :: own).
Proof using Type.
  intros Ho Hq r' Hr'. rewrite Hq in Hr'. injection Hr' as <-. by split; apply elem_of_cons; [left|right].
Qed.

(** [Asks] may say what is asked for the run under the gate. *)
Context (Asks : Query → list Guard → Prop) (HA : ∀ q own, acts q = None → Asks q own)
  (HL : ∀ q own, has_ticket own → acts q = Some r → Asks q (DriveGate :: own)).
Definition ticketed {R} (p : proc R) : Prop := plain team_driver admitted (kind w) Asks has_ticket p.
#[local] Hint Resolve HL HA ticket_under_gate : plain.
Lemma ticketed_drive : ticketed (drive r (team_driver r)).
Proof using Hpolite HA HL.
  apply plain_drive; first [by intros; apply HA|by intros; apply kind_relay|by intros; apply kind_ungate
    |apply ticket_under_gate|apply HL|apply Hpolite].
Qed.
Lemma tracked_driver_task : ∀ own, has_ticket own →
  tracked (kind w) Asks has_ticket (driver_task team_driver r) own (λ _ own', own' = own).
Proof using Hpolite HA HL.
  intros own Hown. assert (has_ticket (TeamDriverGuard r :: own)) as Hown' by (unfold has_ticket in *; set_solver).
  unfold driver_task. apply tracked_bind. split; [done|]. intros s s' own' ts b E. simplify_eq.
  split; [by apply kind_arm|]. cbn [tracked].
  assert (tracked (kind w) Asks has_ticket (disarm (TeamDriverGuard r)) (TeamDriverGuard r :: own)
            (λ _ own', own' = own)) as Hd.
  { split; [done|]. intros s1 s2 own' ts b E. simplify_eq. split; [by apply kind_disarm|].
    cbn [without tracked]. by rewrite decide_True. }
  assert (∀ R (p : proc R) K, ticketed p → (∀ a, K a (TeamDriverGuard r :: own)) →
            tracked (kind w) Asks has_ticket p (TeamDriverGuard r :: own) K) as Hp.
  { intros R p K Hp HK. eapply tracked_mono; [|by apply Hp]. by intros a own' ->. }
  destruct (negb has_team_driver).
  { apply tracked_bind, Hp; [unfold ticketed; eauto 5 with plain|]. intros []. apply Hd. }
  apply tracked_bind, Hp; [unfold ticketed; eauto 5 with plain|]. intros [[]|e].
  - apply tracked_bind, Hp; [apply ticketed_drive|]. intros [].
    apply tracked_bind, Hp; [unfold ticketed; eauto 5 with plain|]. intros []. apply Hd.
  - apply tracked_bind, Hp; [unfold ticketed; eauto 5 with plain|]. intros []. apply Hd.
Qed.
End DriverTask.
#[local] Hint Resolve owned_silent : plain.

Lemma framed_task w t : every_hold (kind w) owned (start_task t).
Proof using Hpolite.
  destruct t as [r|r|r|r|r]; unfold every_hold; cbn [start_task th_proc th_own task_proc task_own framed_runtime team_runtime spawned_task].
  { eapply (tracked_weaken _ _ owned _ (has_ticket r)); [done..|]. eapply tracked_mono; [done|].
    apply tracked_driver_task; [apply owned_silent|apply ticketed_acts|by apply elem_of_cons; left]. }
  all: eapply tracked_mono; [done|]; apply (framed_plain team_driver admitted owned); eauto 4 with plain.
Qed.
Lemma framed_asked q : every_hold (kind (may q)) owned (MkThread (request_task q) [] true).
Proof using Type. eapply tracked_mono; [done|]. by apply framed_request; [apply owned_silent|]. Qed.

Definition admits (x : Feat) : Prop := ∃ q, admitted q ∧ may q x.
Definition framed_thread (t : Thread) : Prop := every_hold (kind admits) owned t.
Lemma framed_arrival p : arrives p → framed_thread (MkThread p [] true).
Proof using Type.
  intros (q & Hq & ->). eapply tracked_mono; [done|]. apply framed_request; [apply owned_silent|]. intros x Hx. by exists q.
Qed.
Lemma framed_execution C σ ls σ' : execution_while C σ ls σ' → Forall framed_thread (sy_threads σ) →
  Forall framed_thread (sy_threads σ').
Proof using Hpolite.
  apply (execution_ind_inv (λ σ, Forall framed_thread (sy_threads σ))). intros σ1 l σ2 Hf Hs.
  eapply every_hold_step; [apply framed_task|apply framed_arrival|done|done].
Qed.
End Framed.
