(* ===== verification/TeamConcurrency.v ===== *)
(** * Team runs under every interleaving

    Any number of requests, drivers and crash nets run at once, tasks are cancelled at any
    await and panic, and the rest of the relay moves in between: who may act for a run, who may
    wake it, that no run is left awake or half resolved without a task that attends to it, and
    that a settled run stays quiet.  A driver is any [polite] one. *)

From Stdlib Require Import ZArith Lia String.
From S2P Require Import Prelude RustStr Json Tokens Backend TeamTypes TeamRun TeamThreads Paths Device Retention.
From S2P Require Import Approvals Transcript Runtime TeamTable Surfaces ThreadState ThreadTurns ThreadRows ThreadFlow.
From S2P Require Import Process TeamControl TeamDrive TeamSafety.

Open Scope string_scope.
Open Scope Z_scope.
Open Scope proc_scope.

Create HintDb shy.

(** ** The exclusive guards *)
Definition excl (g : Guard) : bool :=
  match g with DriveGate | SessionSlot | TeamDriveTicket _ => true | _ => false end.
Definition out (g : Guard) (s : AppState) : bool :=
  match g with
  | DriveGate => as_team_drive_gate s
  | SessionSlot => as_session_guard s
  | TeamDriveTicket r => bool_decide (r ∈ as_driving_team_runs s)
  | _ => false
  end.
(** Nothing is held. *)
Definition idle (s : AppState) : Prop :=
  as_driving_team_runs s = ∅ ∧ as_team_drive_gate s = false ∧ as_session_guard s = false.

Lemma count_without (g g' : Guard) own : g' ∈ own →
  (count g (without g' own) + bit (bool_decide (g' = g)) = count g own)%nat.
Proof.
  induction own as [|x own IH]; intros Hin; [by apply elem_of_nil in Hin|]. cbn [without].
  apply elem_of_cons in Hin as [<-|Hin].
  - rewrite decide_True by done. rewrite count_guard_cons. lia.
  - destruct (decide (x = g')) as [->|Hne]; [rewrite count_guard_cons; lia|]. rewrite !count_guard_cons, <- IH by done. lia.
Qed.
Lemma count_not_in (g : Guard) own : g ∉ own → count g own = 0%nat.
Proof.
  intros Hn. unfold count. destruct (filter _ own) as [|x l] eqn:E; [done|]. destruct Hn.
  assert (x ∈ filter (λ g', g' = g) own) as [-> Hx]%list_elem_of_filter; [rewrite E; by left|done].
Qed.
Lemma without_not_in (g : Guard) own : g ∉ own → without g own = own.
Proof.
  induction own as [|x own IH]; intros Hn; cbn [without]; [done|]. apply not_elem_of_cons in Hn as [H1 H2].
  rewrite decide_False by done. f_equal. auto.
Qed.
Lemma count_without_ne (g g' : Guard) own : g' ≠ g → count g (without g' own) = count g own.
Proof.
  intros Hne. destruct (decide (g' ∈ own)) as [Hin|Hin]; [|by rewrite without_not_in].
  rewrite <- (count_without g g' own Hin). rewrite bool_decide_eq_false_2 by done. cbn. lia.
Qed.

Lemma out_release g g' s : excl g = true →
  out g (guard_dropped g' s).1 = out g s && negb (bool_decide (g' = g)).
Proof.
  intros Hg. destruct g, g'; try done; cbn [guard_dropped fst out];
    rewrite ?bool_decide_eq_false_2, ?bool_decide_eq_true_2 by congruence; cbn; rewrite ?andb_true_r, ?andb_false_r; try done.
  destruct (decide (run_id = run_id0)) as [->|Hne].
  - rewrite (bool_decide_eq_true_2 (TeamDriveTicket run_id0 = _)) by done. rewrite andb_false_r.
    apply bool_decide_eq_false_2. set_solver.
  - rewrite (bool_decide_eq_false_2 (TeamDriveTicket run_id0 = _)) by congruence. rewrite andb_true_r.
    apply bool_decide_ext. set_solver.
Qed.

Section Concurrent.
Context `{!TeamSettings, FileSystem} (team_driver : string → PortProgram) (admitted : Request → Prop).
#[local] Existing Instance team_runtime.
#[local] Instance concurrent_runtime : Runtime AppState Guard Spawned Query answer := team_runtime team_driver admitted.

Lemma release_own g s : flat_map task_own (guard_dropped g s).2 = [].
Proof using Type. by destruct g. Qed.
#[local] Instance exclusive_laws : ExclusiveLaws excl out.
Proof using Type.
  split.
  - apply out_release.
  - intros g g' s _. cbn [Process.release concurrent_runtime team_runtime]. by rewrite release_own.
  - done.
  - done.
  - intros g s Hg. cbn [take_gate gate_guard concurrent_runtime team_runtime].
    destruct g; cbn; try done; rewrite ?orb_true_r, ?orb_false_r; done.
  - intros g s s' Hg (H1 & H2 & H3 & _). destruct g; cbn [out]; by rewrite ?H1, ?H2, ?H3.
Qed.

Lemma release_balanced g s own : g ∈ own →
  balanced excl out s own (guard_dropped g s).1 (without g own) (guard_dropped g s).2.
Proof using Type.
  intros Hin g' Hg' Hle. rewrite release_own, out_release by done. rewrite <- (count_without g' g own Hin) in *.
  rewrite (count_nil g'). case_bool_decide as Heq; cbn [bit negb] in *; [rewrite andb_false_r|rewrite andb_true_r; lia].
  destruct (out g' s); cbn [bit] in *; lia.
Qed.
#[local] Ltac slots := first [rewrite (bool_decide_eq_true_2 (_ = _)) by done | rewrite (bool_decide_eq_false_2 (_ = _)) by done]; cbn; lia.
Lemma kind_balanced w s own s' own' ts : kind w s own s' own' ts → balanced excl out s own s' own' ts.
Proof using Type.
  assert (∀ s s', same_gates s s' → ∀ g, out g s' = out g s) as Hsame.
  { intros s1 s2 (H1 & H2 & H3) g. destruct g; cbn [out]; by rewrite ?H1, ?H2, ?H3. }
  destruct 1 as [s own s' ts Hr|s own g Hn|s own g Hn|s own g Hin|s own r Hr|s own Hs|s own Hs|s own r Hin
    |s own s' r run now Hs|s own s' r run now Hg Ht Hs|s own s' r input worktree Hw Hs]; try apply release_balanced; try done.
  1: { destruct Hr as [H1 H2 H3 _ Hts]. intros g Hg _. rewrite (Hsame s s') by done.
       assert (flat_map task_own ts = []) as ->; [|rewrite (count_nil g); lia].
       induction Hts as [|t ts Ht _ IH]; [done|]. cbn [flat_map]. rewrite IH. by destruct t. }
  all: intros g' Hg' Hle; cbn [flat_map]; rewrite ?(count_nil g').
  - rewrite count_guard_cons, bool_decide_eq_false_2 by (intros ->; by destruct g'). cbn. lia.
  - rewrite count_without_ne by (intros ->; by destruct g'). lia.
  - rewrite count_guard_cons. case_bool_decide as He.
    + subst g'. cbn [out as_driving_team_runs set_field] in *. rewrite !bool_decide_eq_false_2 in * by done.
      rewrite bool_decide_eq_true_2 by set_solver. cbn [bit] in *. lia.
    + replace (out g' (s <| as_driving_team_runs ::= _ |>)) with (out g' s); [cbn; lia|].
      destruct g'; try done. cbn. apply bool_decide_ext. set_solver.
  - rewrite count_guard_cons. destruct g'; cbn in *; rewrite ?Hs; slots.
  - rewrite count_guard_cons. destruct g'; cbn in *; rewrite ?Hs; slots.
  - rewrite <- (count_without g' _ own Hin) in *. cbn [task_own concurrent_runtime team_runtime app].
    rewrite count_guard_cons, (count_nil g'). lia.
  - rewrite (Hsame s s') by done. lia.
  - rewrite (Hsame s s') by done. lia.
  - rewrite (Hsame s s') by done. lia.
Qed.

(** What holds of every system that has grown from an idle one. *)
Context (Hpolite : ∀ r, polite (team_driver r)).
Definition sound (σ : System) : Prop := Forall (framed_thread team_driver admitted) (sy_threads σ) ∧ accounted excl out σ.

Lemma framed_balanced t : framed_thread team_driver admitted t → every_hold (balanced excl out) any_question t.
Proof using Type. apply tracked_weaken; [intros *; apply kind_balanced|done|done]. Qed.
Lemma sound_idle s : idle s → sound (MkSystem s []).
Proof using Type. intros (H1 & H2 & H3). split; [constructor|]. intros g Hg. destruct g; try done; cbn; by rewrite ?H1, ?H2, ?H3. Qed.
Lemma sound_step σ l σ' : sound σ → step σ l σ' → sound σ'.
Proof using Hpolite.
  intros [Hf Ha] Hs. split.
  - exact (every_hold_step _ _ (framed_task _ _ Hpolite _) (framed_arrival _ _) _ _ _ Hs Hf).
  - apply (accounted_step excl out σ l σ'); [|done|done]. eapply Forall_impl; [exact Hf|]. apply framed_balanced.
Qed.
Lemma sound_execution C σ ls σ' : execution_while C σ ls σ' → sound σ → sound σ'.
Proof using Hpolite. apply execution_ind_inv. apply sound_step. Qed.

(** C1: Whatever requests, drivers and crash nets run at once, whichever of them are cancelled
    or panic at an await and whatever the rest of the relay does meanwhile, no two tasks ever hold the
    drive gate, the session slot, or the ticket of one run; each of these is marked held
    exactly while some task holds it, so that none is leaked; and a turn is started, or git
    written to, on behalf of a run only by the one task that holds both the ticket of that run
    and the drive gate. *)
Theorem one_task_acts_for_a_run s ls σ :
  idle s → execution (MkSystem s []) ls σ →
  (∀ g l1 t1 l2 t2 l3, excl g = true → sy_threads σ = (l1 ++ t1 :: l2 ++ t2 :: l3)%list →
     ¬ (g ∈ th_own t1 ∧ g ∈ th_own t2)) ∧
  (∀ g, excl g = true → out g (sy_state σ) = true ↔ ∃ t, t ∈ sy_threads σ ∧ g ∈ th_own t) ∧
  (∀ q a σ' r, step σ (Asked q a) σ' → acts q = Some r →
     ∃ t, t ∈ sy_threads σ ∧ (∃ k, th_proc t = Ask q k) ∧ DriveGate ∈ th_own t ∧ TeamDriveTicket r ∈ th_own t).
Proof using Hpolite.
  intros Hi He. destruct (sound_execution _ _ _ _ He (sound_idle s Hi)) as [Hf Ha]. split_and!.
  - intros g l1 t1 l2 t2 l3 Hg Ht. by apply (exclusive_once excl out σ g l1 t1 l2 t2 l3).
  - intros g Hg. by apply (accounted_held excl out).
  - intros q a σ' r Hs Hq. destruct (step_asks _ _ _ _ _ _ Hs Hf) as (t & Ht & HA & Hk).
    exists t. destruct (HA r Hq). eauto.
Qed.

(** ** Standing *)
Lemma insert_other run m id : tr_id run ≠ id → insert_team_run run m !! id = None ∨ insert_team_run run m !! id = m !! id.
Proof using Type.
  intros Hne. unfold insert_team_run, insert_job. rewrite lookup_insert_ne by done.
  destruct (prune_jobs MAX_TEAM_RUNS m !! id) as [x|] eqn:E; [right|by left].
  symmetry. by apply (retention_contract MAX_TEAM_RUNS m).
Qed.

(** How one hold of the lock may move a run. *)
Inductive moved (w : Feat → Prop) (own : list Guard) (r : string) (run run' : TeamRun) : Prop :=
| moved_steady : steady run run' → moved w own r run run'
| moved_resolving : w Resolves → tr_status run = Blocked → tr_status run' = Resolving → moved w own r run run'
| moved_awake : w Wakes → tr_status run = Paused → tr_status run' = Running →
    DriveGate ∈ own → TeamDriveTicket r ∈ own → moved w own r run run'.
Lemma kind_row w s own s' own' ts r run' : kind w s own s' own' ts → ¬ w (Starts r) → as_team_runs s' !! r = Some run' →
  ∃ run, as_team_runs s !! r = Some run ∧ moved w own r run run'.
Proof using Type.
  assert (∀ s, as_team_runs s !! r = Some run' → ∃ run, as_team_runs s !! r = Some run ∧ moved w own r run run') as Hsame.
  { intros s1 H1. exists run'. split; [done|by apply moved_steady]. }
  destruct 1 as [s own s' ts Hr|s own g Hn|s own g Hn|s own g Hin|s own r1 Hr|s own Hs|s own Hs|s own r1 Hin
    |s own s' r1 run now Hw Hs Hl Hb Hm|s own s' r1 run now Hw Hg Ht Hs Hl Hp Hm|s own s' r1 input worktree Hw Hs Hm]; intros Hnew E; auto.
  - destruct Hr as [_ _ _ Hrows _]. specialize (Hrows r). rewrite E in Hrows.
    destruct (as_team_runs s !! r) as [run|]; [|done]. exists run. split; [done|by apply moved_steady].
  - apply Hsame. by destruct g.
  - rewrite Hm in E. destruct (decide (r1 = r)) as [->|Hne]; [|rewrite lookup_insert_ne in E by done; auto].
    rewrite lookup_insert_eq in E. simplify_eq. exists run. split; [done|]. apply moved_resolving; [done..|].
    unfold begin_resolving_blocked. by rewrite bool_decide_eq_true_2.
  - rewrite Hm in E. destruct (decide (r1 = r)) as [->|Hne]; [|rewrite lookup_insert_ne in E by done; auto].
    rewrite lookup_insert_eq in E. simplify_eq. exists run. split; [done|].
    apply moved_awake; [done| | |done|done]; unfold resume; rewrite ?Hp; [by destruct (tr_status run)|done].
  - rewrite Hm in E. destruct (decide (r1 = r)) as [->|Hne]; [done|].
    destruct (insert_other (run_started (as_unix_now s) r1 input worktree) (as_team_runs s) r Hne) as [H1|H1];
      rewrite H1 in E; [done|auto].
Qed.

Lemma standing_steady r r' : standing r' = standing r → steady r r'.
Proof using Type.
  unfold standing. intros E. injection E as Hs Hb. constructor; rewrite ?needs_iff; unfold locked, is_executable_by_current_build; by rewrite ?Hs, ?Hb.
Qed.
Lemma release_relay g s : as_relay (guard_dropped g s).1 = as_relay s.
Proof using Type. by destruct g. Qed.
Lemma drop_relay own : ∀ s, as_relay (drop_guards own s).1 = as_relay s.
Proof using Type.
  induction own as [|g own IH]; intros s; cbn [drop_guards]; [done|].
  pose proof (release_relay g s) as Hg. cbn [Process.release concurrent_runtime team_runtime]. destruct (guard_dropped g s) as [s1 ts].
  specialize (IH s1). destruct (drop_guards own s1). cbn in *. congruence.
Qed.
Lemma outside_row s s' r run' : elsewhere s s' → as_team_runs s' !! r = Some run' →
  ∃ run, as_team_runs s !! r = Some run ∧ standing run' = standing run.
Proof using Type.
  intros (_ & _ & _ & Hs) E. specialize (Hs r). rewrite E in Hs. destruct (as_team_runs s !! r) as [run|]; [|done].
  exists run. cbn in Hs. by apply (inj Some) in Hs.
Qed.
Lemma step_row σ l σ' r run' : sound σ → step σ l σ' → ¬ admits admitted (Starts r) → as_team_runs (sy_state σ') !! r = Some run' →
  ∃ run, as_team_runs (sy_state σ) !! r = Some run ∧
    (steady run run' ∨ ∃ t, t ∈ sy_threads σ ∧ moved (admits admitted) (th_own t) r run run').
Proof using Type.
  intros [Hf _] Hs Hnew E. destruct (step_state _ _ _ _ _ Hs Hf) as [Heq|[(t & own' & ts & Ht & Hk)|[[_ Heq]|[(t & Ht & Heq)|Ho]]]].
  - rewrite Heq in E. exists run'. split; [done|by left].
  - destruct (kind_row _ _ _ _ _ _ _ _ Hk Hnew E) as (run & Hr & Hm). exists run. eauto.
  - rewrite Heq in E. exists run'. split; [done|by left].
  - unfold as_team_runs in E. rewrite Heq, drop_relay in E. exists run'. split; [done|by left].
  - destruct (outside_row _ _ _ _ Ho E) as (run & Hr & Hst). exists run. split; [done|left; by apply standing_steady].
Qed.

(** C8: A settled run wakes by a resume and by nothing else.  However the tasks interleave,
    a run that no driver may move (finished, paused, blocked or being resolved) leaves that
    standing in one step only from paused to running, taken while some task holds both the drive
    gate and the ticket of that very run, the ticket that becomes its driver's. *)
Theorem only_a_resume_wakes s ls σ l σ' r run run' :
  idle s → execution (MkSystem s []) ls σ → step σ l σ' → ¬ admits admitted (Starts r) →
  as_team_runs (sy_state σ) !! r = Some run → driver_locked (tr_status run) = true →
  as_team_runs (sy_state σ') !! r = Some run' → driver_locked (tr_status run') = false →
  tr_status run = Paused ∧ tr_status run' = Running ∧
  ∃ t, t ∈ sy_threads σ ∧ DriveGate ∈ th_own t ∧ TeamDriveTicket r ∈ th_own t.
Proof using Hpolite.
  intros Hi He Hs Hnew Hr Hl Hr' Hl'. pose proof (sound_execution _ _ _ _ He (sound_idle s Hi)) as Hsound.
  destruct (step_row _ _ _ _ _ Hsound Hs Hnew Hr') as (run0 & Hr0 & [Hst|(t & Ht & Hm)]); simplify_eq.
  - apply Hst in Hl. unfold locked in Hl. congruence.
  - destruct Hm as [Hst|_ _ Hres|_ Hp Hrun Hg Hti]; [apply Hst in Hl; unfold locked in Hl; congruence|by rewrite Hres in Hl'|eauto 6].
Qed.

(** ** What must not last *)
#[local] Hint Extern 1 (any_hold _ _ _ _ _) => exact I : plain.
#[local] Hint Extern 1 (any_question _ _) => exact I : plain.
#[local] Hint Extern 1 (any_guards _) => exact I : plain.
#[local] Hint Resolve owned_silent kind_relay kind_ungate : plain.

Section Attend.
Context (P : TeamRun → bool) (r : string) (serves : Spawned → Prop)
  (HP : ∀ run run', steady run run' → P run' = true → P run = true).

Definition row_is (s : AppState) : Prop := ∃ run, as_team_runs s !! r = Some run ∧ P run = true.
#[local] Instance row_is_dec s : Decision (row_is s).
Proof using Type.
  destruct (as_team_runs s !! r) as [run|] eqn:E; [|right; intros (x & Hx & _); congruence].
  destruct (P run) eqn:Ep; [left; by exists run|right; intros (x & Hx & Hp); congruence].
Defined.
Lemma row_is_same s s' : as_relay s' = as_relay s → row_is s' → row_is s.
Proof using Type. unfold row_is, as_team_runs. by intros ->. Qed.

(** Programs that do not bring it about. *)
Definition harmless (w : Feat → Prop) : Prop :=
  ¬ w (Starts r) ∧ ∀ own run run', moved w own r run run' → P run' = true → P run = true.
Lemma kind_needless w s own s' own' ts : harmless w → kind w s own s' own' ts → needless row_is s own s' own' ts.
Proof using Type.
  intros [Hnew Hm] Hk (run' & Hr' & Hp). destruct (kind_row _ _ _ _ _ _ _ _ Hk Hnew Hr') as (run & Hr & Hmv).
  exists run. split; [done|]. by eapply Hm.
Qed.
Lemma harmless_none : harmless (λ _, False).
Proof using HP. split; [by intros []|]. intros own run run' [Hs|[]|[]]; by apply HP. Qed.
Lemma brings_tracked w A Q {R} d (p : proc R) own K N : harmless w → tracked (kind w) A Q p own N →
  brings row_is serves d p own K N.
Proof using Type.
  intros Hw Hp. apply (needless_brings _ _ _ _ A Q). revert Hp. apply tracked_weaken; [|done|done].
  intros *. by apply kind_needless.
Qed.
Lemma brings_after w A Q {X Y} d (p : proc X) (h : X → proc Y) own K N : harmless w →
  tracked (kind w) A Q p own (λ a own', brings row_is serves d (h a) own' K N) → brings row_is serves d (bind p h) own K N.
Proof using Type. intros Hw Hp. by apply brings_bind, (brings_tracked w A Q). Qed.

#[local] Instance attended_laws : (∀ t, serves t → attends row_is serves (start_task t)) → AttendedLaws row_is serves.
Proof using HP.
  intros Hserves. split; [..|done].
  - intros g s. apply row_is_same, release_relay.
  - intros s. by apply row_is_same.
  - intros s s' Ho (run' & Hr' & Hp). destruct (outside_row _ _ _ _ Ho Hr') as (run & Hr & Hs).
    exists run. split; [done|]. eapply HP; [by apply standing_steady|done].
Qed.

(** A guard whose drop spawns a task that serves. *)
Lemma net_is_safe g t own : serves t → (∀ s, t ∈ (guard_dropped g s).2) → g ∈ own → safe_drop row_is serves own.
Proof using Type.
  intros Ht Hg Hin s _. exists t. split; [|done]. revert s. induction own as [|g' own IH]; intros s; [by apply elem_of_nil in Hin|].
  cbn [drop_guards Process.release concurrent_runtime team_runtime].
  pose proof (Hg s) as Hgs. destruct (guard_dropped g' s) as [s1 ts] eqn:Er.
  destruct (drop_guards own s1) as [s2 ts'] eqn:Ed. cbn [snd]. apply elem_of_app.
  apply elem_of_cons in Hin as [<-|Hin]; [left; by rewrite Er in Hgs|right]. specialize (IH Hin s1). by rewrite Ed in IH.
Qed.

(** ** Attending *)
Context (net : Guard) (Hnet : ∀ own, net ∈ own → safe_drop row_is serves own).
Definition caught (d : bool) (own : list Guard) : Prop := d = true → net ∈ own.
Lemma caught_safe d own : caught d own → d = true → safe_drop row_is serves own.
Proof using Hnet. intros Hc Hd. by apply Hnet, Hc. Qed.
Lemma caught_gate d own : caught d own → caught d (DriveGate :: own).
Proof using Type. intros Hc Hd. apply elem_of_cons. right. by apply Hc. Qed.
(** [p] leaves nothing to attend to. *)
Definition settles (d : bool) {R} (p : proc R) (own : list Guard) : Prop :=
  covers row_is serves d p own (λ _ _, False).

Lemma covers_plain {X Y} d (p : proc X) (h : X → proc Y) own K :
  plain team_driver admitted any_hold any_question (caught d) p → caught d own →
  (∀ a, covers row_is serves d (h a) own K) → covers row_is serves d (bind p h) own K.
Proof using Hnet.
  intros Hp Ho Hh. apply covers_bind. eapply covers_mono; [|by eapply tracked_covers; [apply caught_safe|apply Hp]].
  by intros a own' ->.
Qed.
Lemma covers_settles {X Y} d (p : proc X) (h : X → proc Y) own K : settles d p own → covers row_is serves d (bind p h) own K.
Proof using Type. intros Hp. apply covers_bind. by eapply covers_mono; [|exact Hp]. Qed.
Lemma covers_snapshot {R} d (k : option TeamRun → proc R) own K : caught d own →
  (∀ run, P run = true → covers row_is serves d (k (Some run)) own K) →
  covers row_is serves d (bind (team_run_snapshot r) k) own K.
Proof using Hnet.
  intros Ho Hk. split; [by intros Hd _; apply (caught_safe d)|]. intros s s' own' ts b E. simplify_eq.
  destruct (as_team_runs s' !! r) as [run|] eqn:Er; [|left; intros (x & Hx & _); congruence].
  destruct (P run) eqn:Ep; [right; unfold as_team_runs in Er; rewrite Er; by apply Hk|left; intros (x & Hx & Hp); congruence].
Qed.
(** A write after which it is not so. *)
Lemma settles_write {B} d (f : Z → ThreadState → ThreadState * B) own : caught d own →
  (∀ now s run, ts_team_runs (f now s).1 !! r = Some run → P run = false) → settles d (relay_write f) own.
Proof using Hnet.
  intros Ho Hf. split; [by intros Hd _; apply (caught_safe d)|]. intros s s' own' ts b E. left.
  specialize (Hf (as_unix_now s) (as_relay s)). destruct (f (as_unix_now s) (as_relay s)) as [relay b']. simplify_eq.
  intros (run & Hr & Hp). rewrite (Hf run Hr) in Hp. done.
Qed.
Lemma settles_gated {R} d (p : proc R) own : caught d own → settles d p (DriveGate :: own) → settles d (gated p) own.
Proof using Hnet. intros Ho Hp. split; [by apply caught_safe|]. by apply (covers_settles d p). Qed.

Lemma brings_gated {R} d (p : proc R) own K N :
  (∀ K', brings row_is serves d p (DriveGate :: own) K' (λ a own', ∃ own2, own' = DriveGate :: own2 ∧ N a own2)) →
  brings row_is serves d (gated p) own K N.
Proof using HP.
  intros Hp. change (brings row_is serves d (a <- p;; drop_guard DriveGate;; ret a) (DriveGate :: own) K N).
  apply brings_bind. eapply brings_mono; [|apply Hp]. intros a own' (own2 & -> & HN).
  apply (brings_tracked (λ _, False) any_question any_guards); [apply harmless_none|].
  apply (tracked_drop_gate team_driver admitted (kind (λ _, False)) any_question any_guards); try done;
    first [by intros; exact I|by intros; apply kind_relay|by intros; apply kind_ungate|done].
Qed.

#[local] Abbreviation none := (λ _ : Feat, False).
Lemma calm_tracked {X Y} d (p : proc X) (h : X → proc Y) own K N :
  tracked (kind none) owned any_guards p own (λ a own', brings row_is serves d (h a) own' K N) →
  brings row_is serves d (bind p h) own K N.
Proof using HP. apply brings_after, harmless_none. Qed.
Lemma calm_bind {X Y} d (p : proc X) (h : X → proc Y) own K N :
  framed team_driver admitted owned none p → (∀ a, brings row_is serves d (h a) own K N) →
  brings row_is serves d (bind p h) own K N.
Proof using HP. intros Hp Hh. apply calm_tracked. eapply tracked_mono; [|apply Hp]. by intros a own' ->. Qed.
Lemma task_brings t : brought row_is serves (start_task t).
Proof using HP Hpolite. apply (brings_tracked none owned any_guards); [apply harmless_none|by apply framed_task]. Qed.
Lemma harmless_request q : harmless (may q) → brought row_is serves (MkThread (request_task q) [] true).
Proof using Type. intros Hw. apply (brings_tracked (may q) owned any_guards); [done|apply framed_asked]. Qed.

(** From a state where it is attended to, it always is. *)
Lemma attended_execution s ts ls σ :
  (∀ t, serves t → attends row_is serves (start_task t)) →
  (∀ q, admitted q → brought row_is serves (MkThread (request_task q) [] true)) →
  (row_is s → ∃ t, t ∈ ts ∧ serves t) →
  execution (MkSystem s (map start_task ts)) ls σ → attended row_is serves σ.
Proof using HP Hpolite.
  intros Hserves Hq Hs He. pose proof (attended_laws Hserves) as HL.
  apply (execution_ind_inv (λ σ, attended row_is serves σ ∧ all_bring row_is serves σ)) in He; [apply He|..].
  - intros σ1 l σ2 Hi Hst. apply (attended_step row_is serves σ1 l σ2); [apply task_brings| |done|done].
    intros p (q & Ha & ->). by apply Hq.
  - split.
    + intros Ha. destruct (Hs Ha) as (t & Ht & Hk). exists (start_task t).
      split; [by apply list_elem_of_fmap; exists t|by apply Hserves].
    + apply Forall_forall. intros t (t' & -> & _)%list_elem_of_fmap. apply task_brings.
Qed.
End Attend.

(** ** No run is stranded *)
Lemma update_status {B} id (f : TeamRun → TeamRun * B) b s run' : ts_team_runs (update_run id f b s).1 !! id = Some run' →
  ∃ run, ts_team_runs s !! id = Some run ∧ tr_status run' = tr_status (f run).1.
Proof using Type.
  cbn. unfold update_team_run. destruct (ts_team_runs s !! id) as [run|] eqn:E; cbn; [|congruence].
  intros Hr. exists run. split; [done|]. case_match; cbn in Hr; rewrite lookup_insert_eq in Hr; by simplify_eq.
Qed.
Lemma locked_at_rest run : locked run = true → needs_a_driver run = false.
Proof using Type. rewrite needs_iff. intros ->. apply andb_false_r. Qed.

#[local] Hint Resolve caught_gate : plain.

Lemma ticket_held id own : TeamDriveTicket id ∈ DriveGate :: TeamDriveTicket id :: own.
Proof using Type. right. by left. Qed.

Section Stranded.
Context (r : string) (Hdriver : has_team_driver = true) (Hnew : ¬ admits admitted (Starts r)).
Definition keeps_driven (t : Spawned) : Prop := t = RunDriver r ∨ t = InterruptIfStranded r.
#[local] Abbreviation awake := (row_is needs_a_driver r).
#[local] Abbreviation net := (TeamDriverGuard r).
#[local] Abbreviation held := (caught net).

Lemma awake_steady run run' : steady run run' → needs_a_driver run' = true → needs_a_driver run = true.
Proof using Type. by intros [_ Ha _]. Qed.
Lemma driver_net own : net ∈ own → safe_drop awake keeps_driven own.
Proof using Type. apply (net_is_safe _ _ _ _ (InterruptIfStranded r)); [by right|]. intros s. by left. Qed.
#[local] Abbreviation settled := (settles needs_a_driver r keeps_driven).

Lemma blocked_at_rest d error own : held d own → settled d (block_team_run r error) own.
Proof using Type.
  intros Ho. apply (settles_write _ _ _ net driver_net); [done|]. intros now s run' E. apply locked_at_rest.
  destruct (update_run r _ _ _) as [s' changed] eqn:Eu in E. cbn [fst] in E. rewrite notify_if_teams in E.
  apply (f_equal fst) in Eu. cbn [fst] in Eu. rewrite <- Eu in E. apply update_status in E as (run & _ & Hs).
  unfold locked. rewrite Hs. cbn [changed_by fst]. unfold block, driver_locked.
  destruct (is_terminal (tr_status run)) eqn:Et; [by rewrite Et|done].
Qed.
Lemma interrupted_at_rest d own : held d own → settled d (interrupt_team_run_if_stranded r) own.
Proof using Type.
  intros Ho. apply (covers_snapshot _ _ _ net driver_net); [done|]. intros run Hp. cbn [fmap option_fmap option_map default].
  rewrite Hp. cbn [negb]. apply (settles_gated _ _ _ net driver_net); [done|].
  apply (covers_plain _ _ _ net driver_net); [solve [eauto 5 with plain]|by apply caught_gate|]. intros drained.
  destruct (negb drained); [by apply blocked_at_rest, caught_gate|].
  split; [intros Hd _; by apply driver_net, (caught_gate net d)|]. intros s s' own' ts b E. left.
  destruct (update_run r _ _ _) as [relay interrupted] eqn:Eu in E. simplify_eq. intros (run' & E & Hp').
  unfold as_team_runs in E. cbn [as_relay set_field] in E. rewrite notify_if_teams in E.
  apply (f_equal fst) in Eu. cbn [fst] in Eu. rewrite <- Eu in E. apply update_status in E as (run1 & _ & Hs).
  rewrite locked_at_rest in Hp'; [done|]. unfold locked. rewrite Hs. clear. unfold mark_interrupted_if_stranded.
  unfold driver_locked. destruct (is_terminal (tr_status run1)) eqn:E1, (is_resumable (tr_status run1)) eqn:E2;
    cbn; rewrite E1, ?E2; cbn; rewrite ?E1; try done. by destruct (tr_status run1).
Qed.

(** The driver's task. *)
Lemma driver_attends : attends awake keeps_driven (start_task (RunDriver r)).
Proof using Hdriver Hpolite.
  unfold attends. cbn [start_task th_proc th_own th_may_die task_proc task_own task_may_die concurrent_runtime team_runtime spawned_task].
  unfold driver_task. rewrite Hdriver. split; [by intros _|]. intros s s' own' ts b E. simplify_eq. right. cbn [negb bind].
  set (own := [net; TeamDriveTicket r]). assert (held true own) as Ho by (intros _; by left).
  apply covers_bind. apply (covers_snapshot _ _ _ net driver_net); [done|]. intros run Hp.
  assert (is_executable_by_current_build run = true) as -> by (rewrite needs_iff in Hp; by apply andb_true_iff in Hp as []).
  cbn [covers ret]. apply (covers_plain _ _ _ net driver_net); [|done|].
  - apply plain_drive; first [by intros; exact I|by intros; apply caught_gate|apply Hpolite|done].
  - intros []. by apply covers_settles, interrupted_at_rest.
Qed.
Lemma keeps_driven_attends t : keeps_driven t → attends awake keeps_driven (start_task t).
Proof using Hdriver Hpolite.
  intros [->| ->]; [apply driver_attends|]. eapply covers_mono; [|by apply interrupted_at_rest]. done.
Qed.
#[local] Abbreviation none := (λ _ : Feat, False).
#[local] Abbreviation wakes := (brings awake keeps_driven true).
#[local] Abbreviation calm_bind := (calm_bind needs_a_driver r keeps_driven awake_steady true).
#[local] Abbreviation calm_tracked := (calm_tracked needs_a_driver r keeps_driven awake_steady true).

(** The flip to running is followed by the driver's spawn before any await. *)
Lemma wakes_resume id own K N : TeamDriveTicket id ∈ own → (∀ a, N a (without (TeamDriveTicket id) own)) →
  wakes (resume_team_run_holding_gate id) own K N.
Proof using Type.
  intros Hin HN. unfold resume_team_run_holding_gate. apply calm_bind; [apply framed_plain; solve [eauto 5 with plain]|].
  assert (∀ K m, wakes (drop_guard (TeamDriveTicket id);; ret (Err (Refused m))) own K N) as Hdrop.
  { intros K0 m. apply calm_tracked, tracked_drop; [done|]. apply HN. }
  intros [|w working]; [|apply Hdrop]. intros s s' own' ts b E.
  destruct (update_run id (resume (as_unix_now s)) false (as_relay s)) as [relay resumed] eqn:Eu. simplify_eq.
  split.
  - intros Hn. destruct (decide (id = r ∧ b = true)) as [[-> ->]|Hno].
    { right. split; [done|]. intros s1 s2 own2 ts2 b2 E. simplify_eq. left. intros _. exists (RunDriver r). split; [by left|by left]. }
    left. intros (run' & Hr & Hp). destruct Hn. exists run'. split; [|done].
    unfold as_team_runs in Hr |- *. cbn [as_relay set_field] in Hr. rewrite notify_if_teams in Hr. unfold update_run in Eu.
    injection Eu as <- Hb. cbn in Hr. unfold update_team_run in Hr.
    destruct (ts_team_runs (as_relay s) !! id) as [run|] eqn:Er; [|done].
    destruct (decide (id = r)) as [->|Hne]; [|case_match; cbn in Hr; by rewrite lookup_insert_ne in Hr].
    assert (resume (as_unix_now s) run = (run, false)) as Hsame.
    { unfold resume in Hb |- *. destruct (is_resumable (tr_status run)); [|done]. destruct Hno. split; [done|by rewrite <- Hb]. }
    rewrite Hsame in Hr. cbn [fst] in Hr. rewrite bool_decide_eq_true_2, andb_false_r in Hr by done. cbn in Hr.
    rewrite lookup_insert_eq in Hr. by simplify_eq.
  - destruct b; cbn [negb]; [|apply Hdrop]. intros s1 s2 own2 ts2 b2 E. simplify_eq. split; [|apply HN].
    intros Hn. left. intros Hn'. by destruct Hn.
Qed.

(** The requests that wake runs. *)
Ltac calm_step :=
  match goal with
  | |- wakes (bind _ _) _ _ _ =>
      apply calm_bind; [first [apply framed_ask; [exact owned_silent|done] | apply framed_plain; solve [eauto 5 with plain]]|intros ?]
  | |- wakes (match ?x with _ => _ end) _ _ _ => destruct x eqn:?
  end.
Lemma wakes_resume_run run_id device_id own K (N : result TeamRunStatus ActionError → list Guard → Prop) :
  (∀ a, N a own) → wakes (resume_team_run run_id device_id) own K N.
Proof using Type.
  intros HN. unfold resume_team_run.
  repeat lazymatch goal with |- wakes (bind (claim_team_drive _) _) _ _ _ => fail | _ => calm_step end; try apply HN.
  apply calm_tracked, tracked_claim; [|apply HN]. cbn [negb].
  apply brings_gated; [apply awake_steady|]. intros K'. apply wakes_resume; [apply ticket_held|]. intros res.
  rewrite without_ticket. eauto.
Qed.
Lemma wakes_reopen_gated target instruction updates own K (N : result TeamRunStatus ActionError → list Guard → Prop) :
  (∀ a, N a own) → wakes (gated (reopen_holding_gate target instruction updates)) own K N.
Proof using Type.
  intros HN. apply brings_gated; [apply awake_steady|]. intros K'. unfold reopen_holding_gate.
  apply calm_tracked, tracked_reopen_write; [cbn; eauto|]. intros before Hre.
  assert (∀ e own, wakes (rollback_reopen_provision target before;; ret (Err e)) (DriveGate :: own) K'
            (λ a own', ∃ own2, own' = DriveGate :: own2 ∧ own2 = own)) as Hback.
  { intros e own1. apply calm_bind; [by apply framed_rollback; [exact owned_silent|]|]. cbn. eauto. }
  apply calm_tracked, tracked_claim; cbn [negb].
  - apply brings_bind, wakes_resume; [by left|]. intros [status|error]; cbn [without]; rewrite decide_True by done.
    + cbn. eauto.
    + eapply brings_mono; [|apply Hback]. intros a own' (own2 & -> & ->). eauto.
  - eapply brings_mono; [|apply Hback]. intros a own' (own2 & -> & ->). eauto.
Qed.
Lemma wakes_slotted {R} (p : action R) own K (N : result R ActionError → list Guard → Prop) :
  (∀ K', wakes p (SessionSlot :: own) K' (λ _ own', own' = SessionSlot :: own)) → (∀ a, N a own) → wakes (slotted p) own K N.
Proof using Type.
  intros Hp HN. unfold slotted. apply calm_tracked. split; [done|]. intros s s' own' ts b E.
  destruct (as_session_guard s) eqn:Es; simplify_eq; (split; [by constructor; try constructor|]); [apply HN|].
  apply brings_bind. eapply brings_mono; [|apply Hp]. intros a own' ->. apply calm_tracked, tracked_drop; [by left|].
  cbn [without]. rewrite decide_True by done. apply HN.
Qed.
Lemma wakes_reopen run_id instruction updates device_id own K (N : result TeamRunStatus ActionError → list Guard → Prop) :
  (∀ a, N a own) → wakes (reopen_team_run run_id instruction updates device_id) own K N.
Proof using Type.
  intros HN. unfold reopen_team_run. destruct (is_empty _); [apply HN|]. apply wakes_slotted; [|done]. intros K'.
  repeat lazymatch goal with |- wakes (gated _) _ _ _ => fail | _ => calm_step end; try done.
  by apply wakes_reopen_gated.
Qed.

Lemma request_brings q : admitted q → brought awake keeps_driven (MkThread (request_task q) [] true).
Proof using Hnew.
  intros Hq. unfold brought. cbn [th_proc th_own th_may_die].
  assert (¬ may q Wakes → wakes (request_task q) [] (at_end awake keeps_driven) whatever) as Hother.
  { intros Hw. apply (harmless_request needs_a_driver r keeps_driven).
    split; [intros Hs; apply Hnew; by exists q|]. intros own run run' [Hs|_ _ Hres|]; [by apply awake_steady| |done].
    intros Ha. rewrite locked_at_rest in Ha; [done|]. unfold locked. by rewrite Hres. }
  destruct q as [suffix input|[] run_id device_id|status run_id device_id|run_id instruction updates device_id| |th];
    try (apply Hother; intros Hm; by cbn in Hm).
  - cbn [request_task]. apply brings_bind. unfold team_action.
    repeat lazymatch goal with |- wakes (bind (resume_team_run _ _) _) _ _ _ => fail | _ => calm_step end; try done.
    apply brings_bind, wakes_resume_run. intros []; done.
  - cbn [request_task]. by apply brings_bind, wakes_reopen.
Qed.


(** C2: No run is stranded.  Take a build with a driver and a run that no request starts anew,
    at rest at first or with its driver just spawned.  Whatever requests, drivers and crash
    nets then run at once, and whichever of them are cancelled or panic at any await, as long as
    the run is awake (executable here, and neither finished, paused, blocked nor being
    resolved) some task attends to it, that is, will whatever the others do put it to rest,
    or spawn a driver or the net that does, even when it is itself cancelled; so that when all
    tasks have ended the run is not awake. *)
Theorem no_run_is_stranded s ts ls σ :
  (awake s → ∃ t, t ∈ ts ∧ keeps_driven t) → execution (MkSystem s (map start_task ts)) ls σ →
  (awake (sy_state σ) → ∃ t, t ∈ sy_threads σ ∧ attends awake keeps_driven t) ∧
  (sy_threads σ = [] → ∀ run, as_team_runs (sy_state σ) !! r = Some run → needs_a_driver run = false).
Proof using Hpolite Hdriver Hnew.
  intros Hs He. pose proof (attended_execution needs_a_driver r keeps_driven awake_steady s ts ls σ
    keeps_driven_attends request_brings Hs He) as Ha.
  split; [exact Ha|]. intros Hnil run Hr. destruct (needs_a_driver run) eqn:Hp; [|done].
  destruct Ha as (t & Ht & _); [by exists run|]. rewrite Hnil in Ht. by apply elem_of_nil in Ht.
Qed.
End Stranded.

(** ** No recovery is lost *)
Section Resolving.
Context (r : string) (Hnew : ¬ admits admitted (Starts r)).
Definition restores (t : Spawned) : Prop := t = RestoreBlocked r.
Definition is_resolving (run : TeamRun) : bool := bool_decide (tr_status run = Resolving).
#[local] Abbreviation resolving := (row_is is_resolving r).
#[local] Abbreviation net := (TeamRecoveryGuard r).
#[local] Abbreviation held := (caught net).
#[local] Abbreviation settled := (settles is_resolving r restores).

Lemma resolving_steady run run' : steady run run' → is_resolving run' = true → is_resolving run = true.
Proof using Type. unfold is_resolving. intros [_ _ Hr]. rewrite !bool_decide_eq_true. apply Hr. Qed.
Lemma recovery_net own : net ∈ own → safe_drop resolving restores own.
Proof using Type. apply (net_is_safe _ _ _ _ (RestoreBlocked r)); [done|]. intros s. by left. Qed.
#[local] Abbreviation calm_bind := (calm_bind is_resolving r restores resolving_steady true).

(** A write that ends the resolving. *)
Lemma resolved_write {B C} d (f : Z → TeamRun → TeamRun * B) b (g : ThreadState * B → ThreadState * C) own : held d own →
  (∀ p, ts_team_runs (g p).1 = ts_team_runs p.1) → (∀ now run, tr_status (f now run).1 ≠ Resolving) →
  settled d (relay_write (λ now s, g (update_run r (f now) b s))) own.
Proof using Type.
  intros Ho Hg Hf. apply (settles_write _ _ _ net recovery_net); [done|]. intros now s run' E. rewrite Hg in E.
  apply update_status in E as (run & _ & Hs). apply bool_decide_eq_false_2. rewrite Hs. apply Hf.
Qed.
Lemma resolved_block d error own : held d own → settled d (block_team_run r error) own.
Proof using Type.
  intros Ho. apply (resolved_write d (λ now, changed_by (block now error)) false (λ '(s, changed), (notify_if changed s, ()))); [done|..].
  - intros [s []]; done.
  - intros now run. cbn [changed_by fst]. unfold block. destruct (is_terminal (tr_status run)) eqn:E; [|done].
    intros Hs. by rewrite Hs in E.
Qed.
Lemma recovery_resolves own : settled true (recover_team_run r) own.
Proof using Type.
  unfold recover_team_run. split; [done|]. intros s s' own' ts b E. simplify_eq. right.
  assert (held true (net :: own)) as Ho by (intros _; by left).
  apply (settles_gated _ _ _ net recovery_net); [done|].
  apply (covers_plain _ _ _ net recovery_net); [solve [eauto 5 with plain]|by apply caught_gate|]. intros drained.
  destruct (negb drained); apply covers_settles; [by apply resolved_block, caught_gate|].
  apply (resolved_write true (λ now, resolve_as_paused now "recovered by stopping every owned turn" PauseUser) false
           (λ '(s, settled), (notify_if settled s, settled))); [by apply caught_gate|..].
  - intros [s1 []]; done.
  - intros now run. unfold resolve_as_paused. case_bool_decide; [done|]. done.
Qed.
Lemma restores_attends t : restores t → attends resolving restores (start_task t).
Proof using Type.
  intros ->. unfold attends. eapply covers_mono; [|
    apply (resolved_write false (λ now, restore_resolving_as_blocked now RECOVERY_INTERRUPTED) false
      (λ '(s, restored), (notify_if restored s, ())))]; [done|done|by intros [s []]|].
  intros now run. unfold restore_resolving_as_blocked. case_bool_decide as Hr; [|done]. cbn [fst]. unfold block.
  by rewrite Hr.
Qed.

Lemma begin_resolving_row id device_id now s run' :
  ts_team_runs (begin_resolving id device_id now s).1 !! r = Some run' → is_resolving run' = true →
  (∃ run, ts_team_runs s !! r = Some run ∧ is_resolving run = true) ∨
  id = r ∧ (begin_resolving id device_id now s).2 = Ok ().
Proof using Type.
  unfold begin_resolving. destruct (in_worktree_scope _ _ _); [|by left; eauto].
  destruct (update_run id (begin_resolving_blocked now) false s) as [s' began] eqn:Eu.
  assert (ts_team_runs (if negb began then (s', Err (Refused "this task is no longer blocked")) else (notify s', Ok ())).1
          = ts_team_runs s') as -> by by destruct began.
  pose proof (f_equal fst Eu) as E1. pose proof (f_equal snd Eu) as E2. cbn [fst] in E1. rewrite <- E1. intros Hr Hp.
  destruct (decide (id = r)) as [->|Hne].
  - pose proof (update_status _ _ _ _ _ Hr) as (run & Hrun & Hs). cbn [snd update_run] in E2. rewrite Hrun in E2.
    unfold begin_resolving_blocked in Hs, E2. destruct (bool_decide (tr_status run = Blocked)) eqn:Eb; cbn [fst snd] in *.
    + right. by rewrite <- E2.
    + left. exists run. split; [done|]. unfold is_resolving in *. by rewrite <- Hs.
  - left. exists run'. split; [|done]. cbn in Hr. unfold update_team_run in Hr.
    destruct (ts_team_runs s !! id); [|done]. case_match; cbn in Hr; by rewrite lookup_insert_ne in Hr.
Qed.
Lemma brings_resolve run_id device_id own K (N : result TeamRunStatus ActionError → list Guard → Prop) :
  (∀ a, N a own) → brings resolving restores true (resolve_blocked_team_run run_id device_id) own K N.
Proof using Type.
  intros HN. unfold resolve_blocked_team_run. destruct (require_device_id device_id) as [device|e]; [|apply HN].
  intros s s' own' ts b E.
  assert (∀ id, brings resolving restores true (recover_team_run id) own K N) as Hrec.
  { intros id. apply (brings_tracked is_resolving r restores (λ _, False) owned any_guards); [apply harmless_none, resolving_steady|].
    eapply tracked_mono; [|apply framed_recover; exact owned_silent]. by intros a own1 ->. }
  destruct (blocked_team_run_id run_id (ts_team_runs (as_relay s))) as [id|err].
  2:{ simplify_eq. split; [|apply HN]. intros Hn. left. intros Hn'. by destruct Hn. }
  pose proof (begin_resolving_row id device (as_unix_now s) (as_relay s)) as Hrow.
  destruct (begin_resolving id device (as_unix_now s) (as_relay s)) as [relay began]. simplify_eq. cbn [fst snd] in Hrow.
  split; [|destruct began as [[]|e]; [apply Hrec|apply HN]].
  intros Hn. destruct (decide (id = r ∧ is_ok began = true)) as [[-> Hok]|Hno].
  - right. destruct began as [[]|e]; [|done]. eapply covers_mono; [|apply recovery_resolves]. done.
  - left. intros (run' & Hr & Hp). destruct (Hrow run' Hr Hp) as [H1|[-> ->]]; [by destruct Hn|by destruct Hno].
Qed.
Lemma request_brings_no_loss q : admitted q → brought resolving restores (MkThread (request_task q) [] true).
Proof using Hnew.
  intros Hq. unfold brought. cbn [th_proc th_own th_may_die].
  assert (¬ may q Resolves →
    brings resolving restores true (request_task q) [] (at_end resolving restores) whatever) as Hother.
  { intros Hw. apply (harmless_request is_resolving r restores).
    split; [intros Hs; apply Hnew; by exists q|]. intros own run run' [Hs| |_ _ Hrun _ _]; [by apply resolving_steady|done|].
    unfold is_resolving. by rewrite Hrun. }
  destruct q as [suffix input|[] run_id device_id|status run_id device_id|run_id instruction updates device_id| |th];
    try (apply Hother; intros Hm; by cbn in Hm).
  cbn [request_task]. apply brings_bind. unfold team_action.
  apply calm_bind; [apply framed_plain; solve [eauto 5 with plain]|]. intros [[]|e]; [|done].
  apply calm_bind; [apply framed_plain; solve [eauto 5 with plain]|]. intros [id|e]; [|done].
  apply brings_bind, brings_resolve. by intros [].
Qed.

(** C9: No recovery is lost.  A run that is being resolved, between the write that takes it
    out of [Blocked] and the one that settles it as paused, blocked or otherwise, always has a
    task that will end this, cancelled at any await or not; so that when all tasks have ended
    no run is left resolving, a status in which every request of its users is refused. *)
Theorem no_recovery_is_lost s ts ls σ :
  (resolving s → ∃ t, t ∈ ts ∧ restores t) → execution (MkSystem s (map start_task ts)) ls σ →
  (resolving (sy_state σ) → ∃ t, t ∈ sy_threads σ ∧ attends resolving restores t) ∧
  (sy_threads σ = [] → ∀ run, as_team_runs (sy_state σ) !! r = Some run → tr_status run ≠ Resolving).
Proof using Hpolite Hnew.
  intros Hs He. pose proof (attended_execution is_resolving r restores resolving_steady s ts ls σ
    restores_attends request_brings_no_loss Hs He) as Ha.
  split; [exact Ha|]. intros Hnil run Hr Hp. destruct Ha as (t & Ht & _).
  { exists run. split; [done|]. by apply bool_decide_eq_true. }
  rewrite Hnil in Ht. by apply elem_of_nil in Ht.
Qed.
End Resolving.

(** ** A settled run stays quiet *)
Section Settled.
Context (r : string).
Definition at_rest (s : AppState) : Prop := ∀ run, as_team_runs s !! r = Some run → driver_locked (tr_status run) = true.
Definition acts_for (q : Query) : Prop := acts q = Some r.
Definition mute (q : Query) (_ : list Guard) : Prop := acts q = None.
#[local] Abbreviation quietly := (quiet at_rest acts_for).
#[local] Abbreviation guardedly := (guarded at_rest acts_for).
Definition ends_with {R} (own : list Guard) : R → list Guard → Prop := λ _ own', own' = own.

(** Programs that begin and end without the gate, and act for the run under it only, after
    looking whether it is at rest. *)
Definition shy {R} (p : proc R) : Prop :=
  ∀ own, DriveGate ∉ own → guardedly p own (ends_with own) (ends_with own) ∧ quietly p own (ends_with own).
Lemma mute_unheard q own : mute q own → unheard acts_for q own.
Proof using Type. unfold mute, unheard, acts_for. congruence. Qed.
Lemma shy_bind {X Y} (p : proc X) (h : X → proc Y) : shy p → (∀ a, shy (h a)) → shy (bind p h).
Proof using Type.
  intros Hp Hh own Hn. destruct (Hp own Hn) as [Hg Hq]. split.
  - apply guarded_bind. eapply guarded_mono; [| |exact Hg]; intros a own' ->; by apply Hh.
  - apply quiet_bind. eapply quiet_mono; [|exact Hq]. intros a own' ->. by apply Hh.
Qed.
Lemma tracked_shy P Q {R} (p : proc R) : (∀ own, tracked P mute Q p own (ends_with own)) → shy p.
Proof using Type.
  intros Hp own Hn. assert (tracked P (unheard acts_for) Q p own (ends_with own)) as Ht.
  { eapply tracked_weaken; [done| |done|apply Hp]. apply mute_unheard. }
  split; [by eapply tracked_guarded|by eapply tracked_quiet].
Qed.
Lemma plain_shy {R} (p : proc R) : plain team_driver admitted any_hold mute any_guards p → shy p.
Proof using Type. intros Hp. apply (tracked_shy any_hold any_guards). intros own. by apply Hp. Qed.
Lemma mute_plain q own : acts q = None → mute q own.
Proof using Type. done. Qed.
#[local] Hint Resolve mute_plain : plain.

Lemma shy_gated {R} (p : proc R) :
  (∀ own K, guardedly p (DriveGate :: own) (ends_with (DriveGate :: own)) K) →
  (∀ own, quietly p (DriveGate :: own) (ends_with (DriveGate :: own))) → shy (gated p).
Proof using Type.
  intros Hg Hq own Hn.
  assert (∀ a : R, tracked any_hold (unheard acts_for) any_guards (drop_guard DriveGate;; ret a) (DriveGate :: own) (ends_with own)) as Hd.
  { intros a. apply (tracked_drop_gate team_driver admitted any_hold (unheard acts_for) any_guards); try done.
    intros q own1 _ Hq1. by apply mute_unheard. }
  split.
  - change (guardedly (a <- p;; drop_guard DriveGate;; ret a) (DriveGate :: own) (ends_with own) (ends_with own)).
    apply guarded_bind. eapply guarded_mono; [|intros a own' HK; exact HK|apply (Hg own)]. intros a own' ->. eapply tracked_guarded, Hd.
  - change (quietly (a <- p;; drop_guard DriveGate;; ret a) (DriveGate :: own) (ends_with own)).
    apply quiet_bind. eapply quiet_mono; [|apply Hq]. intros a own' ->. eapply tracked_quiet, Hd.
Qed.

(** The turns. *)
Lemma rest_run s run : at_rest s → as_team_runs s !! r = Some run → driver_locked (tr_status run) = true ∧ needs_a_driver run = false.
Proof using Type. intros Hs Hr. specialize (Hs run Hr). split; [done|]. by apply locked_at_rest. Qed.
Lemma quiet_refusal {X Y} (p : proc X) (h : X → proc Y) own :
  quietly p own (λ a own', ends_with own a own' ∧ quietly (h a) own (ends_with own)) → quietly (bind p h) own (ends_with own).
Proof using Type. intros Hp. apply quiet_bind. eapply quiet_mono; [|exact Hp]. by intros a own' [-> Hh]. Qed.
Lemma quiet_plain {X Y} (p : proc X) (h : X → proc Y) own :
  plain team_driver admitted any_hold mute any_guards p → (∀ a, quietly (h a) own (ends_with own)) →
  quietly (bind p h) own (ends_with own).
Proof using Type.
  intros Hp Hh. apply quiet_bind. eapply (tracked_quiet _ _ any_hold any_guards).
  eapply tracked_weaken; [done|intros q own1; apply mute_unheard|done|].
  eapply tracked_mono; [|by apply Hp]. by intros a own' ->.
Qed.
Lemma shy_dispatch slot th prompt : shy (dispatch_turn r slot th prompt).
Proof using Type.
  apply shy_gated.
  - intros own K. apply (tracked_kept _ _ any_question any_guards); [by left|].
    apply (gate_dispatch team_driver admitted); try done; try (by intros). intros s own1 s' ts _ _ Hin. exact Hin.
  - intros own. unfold dispatch_holding_gate. apply quiet_plain; [solve [eauto 5 with plain]|]. intros [reason|]; [done|].
    unfold team_turn_preflight. intros s s' own' ts b Hs E. simplify_eq.
    destruct (ts_team_runs (as_relay s') !! r) as [run|] eqn:Er; [|done].
    destruct (rest_run _ _ Hs Er) as [Hl _]. cbn [bind]. by rewrite Hl.
Qed.
Lemma shy_commit workspace message : shy (commit_worktree_gated r workspace message).
Proof using Type.
  apply shy_gated.
  - intros own K. apply (tracked_kept _ _ any_question any_guards); [by left|].
    apply (gate_commit team_driver admitted); try done; try (by intros). intros s own1 s' ts _ _ Hin. exact Hin.
  - intros own. unfold commit_holding_gate. intros s s' own' ts b Hs E. simplify_eq.
    destruct (ts_team_runs (as_relay s') !! r) as [run|] eqn:Er; [|done].
    destruct (rest_run _ _ Hs Er) as [_ Hn1]. cbn [bind fmap option_fmap option_map default]. by rewrite Hn1.
Qed.
Lemma shy_write {B} (f : Z → ThreadState → ThreadState * B) : shy (relay_write f).
Proof using Type.
  apply (tracked_shy any_hold any_guards). intros own. split; [done|]. intros s s' own' ts b E.
  destruct (f (as_unix_now s) (as_relay s)) as [relay b']. by simplify_eq.
Qed.
#[local] Hint Resolve shy_dispatch shy_commit shy_write : shy.
Ltac shy_step :=
  match goal with
  | |- shy (bind _ _) => apply shy_bind; [|intros ?]
  | |- shy (ret _) => apply plain_shy, plain_ret
  | |- shy (match ?x with _ => _ end) => destruct x eqn:?
  | |- shy _ => solve [auto with shy | apply plain_shy; solve [eauto 5 with plain]]
  end.
Ltac shy := repeat shy_step.
Lemma shy_unless refusal k : shy refusal → shy k → shy (unless_refused refusal k).
Proof using Type. intros H1 H2. unfold unless_refused. shy. Qed.
Lemma shy_team_turn slot role prompt : shy (team_turn r slot role prompt).
Proof using Type.
  unfold team_turn. do 3 (apply shy_unless; [shy_step|]). shy. apply shy_unless; shy.
Qed.
#[local] Hint Resolve shy_team_turn : shy.
Lemma shy_tl_turn prompt : shy (tl_turn r prompt).
Proof using Type. unfold tl_turn. shy. Qed.
Lemma shy_reseed reason prompt : shy (reseed_tl r reason prompt).
Proof using Type. unfold reseed_tl. shy. Qed.
#[local] Hint Resolve shy_tl_turn shy_reseed : shy.
Lemma shy_port op : polite_op op → shy (port r op).
Proof using Type.
  intros Hop. destruct op; cbn [port polite_op] in *; unfold in_workspace, port_update_run, team_boundary_check; shy.
Qed.
Lemma shy_drive p : polite p → shy (drive r p).
Proof using Type.
  induction p as [|op k IH]; cbn [drive polite]; intros Hp; [shy|].
  apply shy_bind; [apply shy_port, Hp|]. intros a. apply IH, Hp.
Qed.

(** Every task. *)
Definition modest {R} (p : proc R) (own : list Guard) : Prop :=
  guardedly p own whatever whatever ∧ quietly p own whatever.
Lemma modest_after {X Y} (p : proc X) (h : X → proc Y) own :
  shy p → DriveGate ∉ own → (∀ a, modest (h a) own) → modest (bind p h) own.
Proof using Type.
  intros Hp Hn Hh. destruct (Hp own Hn) as [Hg Hq]. split.
  - apply guarded_bind. eapply guarded_mono; [| |exact Hg]; intros a own' ->; apply Hh.
  - apply quiet_bind. eapply quiet_mono; [|exact Hq]. intros a own' ->. apply Hh.
Qed.
Lemma tracked_modest P Q {R} (p : proc R) own : tracked P (unheard acts_for) Q p own whatever → modest p own.
Proof using Type. intros Hp. split; [by eapply tracked_guarded|by eapply tracked_quiet]. Qed.
Lemma mute_modest {R} (p : proc R) own : plain team_driver admitted any_hold mute any_guards p → modest p own.
Proof using Type.
  intros Hp. apply (tracked_modest any_hold any_guards). eapply tracked_mono; [done|].
  eapply tracked_weaken; [done|intros q own1; apply mute_unheard|done|]. by apply Hp.
Qed.
Lemma modest_disciplined t : modest (th_proc t) (th_own t) → disciplined at_rest acts_for t.
Proof using Type. by intros [Hg Hq]. Qed.
Lemma driver_modest own : DriveGate ∉ own → modest (driver_task team_driver r) own.
Proof using Hpolite.
  intros Hn. set (net := TeamDriverGuard r).
  assert (DriveGate ∉ net :: own) as Hn' by (intros [?|?]%elem_of_cons; done).
  assert (modest (disarm net) (net :: own)) as Hd by (split; cbn; intros; simplify_eq; done).
  assert (∀ p : proc (), modest p (net :: own) → modest (arm net;; p) own) as Harm.
  { intros p [Hg Hq]. split; cbn; intros; simplify_eq; [by split|done]. }
  unfold driver_task. apply Harm. destruct (negb has_team_driver).
  { apply modest_after; [shy|done|done]. }
  apply modest_after; [shy|done|]. intros [[]|e]; apply modest_after; try done; [apply shy_drive, Hpolite| |shy].
  intros []. by apply modest_after; [shy| |].
Qed.
Lemma task_disciplined t : disciplined at_rest acts_for (start_task t).
Proof using Hpolite.
  apply modest_disciplined. destruct t as [r'|r'|r'|r'|r'].
  - destruct (decide (r' = r)) as [->|Hne].
    { apply driver_modest. cbn. by intros [?|?%elem_of_nil]%elem_of_cons. }
    apply (tracked_modest (kind (λ _, False)) (has_ticket r')). eapply tracked_mono; [done|].
    apply (tracked_driver_task team_driver admitted Hpolite); [intros q own; apply mute_unheard| |by left].
    intros q own _ Hq. unfold unheard, acts_for. congruence.
  - apply mute_modest. cbn [start_task th_proc task_proc concurrent_runtime team_runtime spawned_task]. solve [eauto 5 with plain].
  - apply mute_modest. cbn [start_task th_proc task_proc concurrent_runtime team_runtime spawned_task]. solve [eauto 5 with plain].
  - apply mute_modest. cbn [start_task th_proc task_proc concurrent_runtime team_runtime spawned_task]. solve [eauto 5 with plain].
  - apply mute_modest. cbn [start_task th_proc task_proc concurrent_runtime team_runtime spawned_task]. solve [eauto 5 with plain].
Qed.
Lemma task_gateless t : DriveGate ∉ task_own t.
Proof using Type. destruct t; cbn; by first [intros [?|?%elem_of_nil]%elem_of_cons|intros ?%elem_of_nil]. Qed.
Lemma request_disciplined q : disciplined at_rest acts_for (MkThread (request_task q) [] true).
Proof using Type.
  apply modest_disciplined, (tracked_modest (kind (may q)) any_guards). eapply tracked_mono; [done|].
  by apply framed_request; [intros q1 own; apply mute_unheard|].
Qed.

(** C3: A settled run stays quiet.  Take any moment at which a run is finished, paused,
    blocked or being resolved and no task holds the drive gate, as when a stop or a pause has
    returned.  Until it is resumed or reopened, no turn is started on any thread on its behalf,
    and git writes nothing for it, whatever its driver still tries and whatever requests arrive. *)
Theorem settled_runs_are_quiet s ls σ ls' σ' :
  idle s → execution (MkSystem s []) ls σ → as_team_drive_gate (sy_state σ) = false →
  execution_while at_rest σ ls' σ' →
  Forall (λ l, match l with Asked q _ => acts q ≠ Some r | _ => True end) ls'.
Proof using Hpolite.
  intros Hi He Hgate He'. destruct (sound_execution _ _ _ _ He (sound_idle s Hi)) as [_ Ha].
  assert (all_disciplined at_rest acts_for σ) as Hd.
  { apply (execution_ind_inv (all_disciplined at_rest acts_for)) in He; [exact He| |constructor].
    intros σ1 l σ2 H1 H2. eapply disciplined_step; [apply task_disciplined|apply task_gateless| |done|done].
    intros p (q & _ & ->). apply request_disciplined. }
  eapply hushed_execution; [apply task_disciplined|apply task_gateless| |exact He'|].
  - intros p (q & _ & ->). apply request_disciplined.
  - by apply (free_gate_hushes at_rest acts_for excl out).
Qed.
End Settled.
End Concurrent.

(** ** A sample *)
#[local] Instance sample_settings : TeamSettings := {|
  workflow_drain_max_ms := 30000; team_step_stall_ms := 60000; team_liveness_window_ms := 1000;
  available_providers := ["fake"]; has_team_driver := true |}.
#[local] Existing Instance sample_fs.
Definition sample_driver (run_id : string) : PortProgram := Call (TlTurn "begin") (λ _, Returned).
Definition sample_admitted (q : Request) : Prop := match q with StartTeam _ _ => False | _ => True end.
#[local] Existing Instance team_runtime.
#[local] Instance sample_runtime : Runtime AppState Guard Spawned Query answer := team_runtime sample_driver sample_admitted.

Definition sample_run (status : TeamRunStatus) : TeamRun :=
  (TeamRun_new 5 "run-1" TaskSpec_default "/srv/app" "phone") <| tr_status := status |> <| tr_tl_thread_id := "tl" |>.
Definition sample_state (status : TeamRunStatus) : AppState :=
  MkAppState ((relay_state_new "/srv/app") <| ts_team_runs := {["run-1" := sample_run status]} |>) true [] ∅ 100 0 ∅ false false.
Definition sample_oracle (q : Query) : answer q :=
  match q with
  | DenyApproval _ => Ok ()
  | RequestTurnStop _ _ | RoutesToProvider _ | ReleaseThread _ | SessionCanTakeATurn _ | Trusted _ | IsLiveDir _ => true
  | HowLong => 1%nat
  | WakeUp _ => Changed
  | ProvisionWorktree _ _ _ _ _ => Err "no"
  | PlanSend _ _ _ => Ok (MkSendPlan "fake" None "model" "high")
  | StartTurn _ _ _ _ _ => Ok (Some "turn-1")
  | StartedThreadId th => th
  | ReadLastReply _ => None
  | ResolveProvider name => Ok name
  | StartSeat _ _ _ _ _ _ => Err "no"
  | CollectDiff _ _ => Err "no"
  | MergeBase _ _ => None
  | RunGit _ _ _ => Err "no"
  | UserTurn _ => ()
  end.
#[local] Abbreviation sample_move := (@Move AppState Guard Spawned Query answer).
Definition go (i : nat) : sample_move := Go i sample_oracle.
Definition phone_does (act : TeamAction2) : Request := TeamAction act (Some "run-1") (Some "phone").
(** The phone resumes the run, and its driver goes on until it asks for a turn. *)
Definition resuming (n : nat) : list sample_move :=
  [Arrive (request_task (phone_does ActResume))] ++ repeat (go 0) 14 ++ [Finish 0] ++ repeat (go 0) n.
Lemma sample_polite r : polite (sample_driver r).
Proof. done. Qed.
Lemma sample_has_driver : has_team_driver = true.
Proof. done. Qed.
Lemma sample_idle status : idle (sample_state status).
Proof. done. Qed.
Lemma sample_new id : ¬ admits sample_admitted (Starts id).
Proof. intros ([] & Hq & Hm); try done. by destruct act. Qed.
Lemma sample_arrives q : sample_admitted q → admissible (Arrive (request_task q) : sample_move).
Proof. intros Hq. by exists q. Qed.
#[local] Hint Resolve sample_arrives : sample.
Lemma sample_moves (ms : list sample_move) :
  forallb (λ m, match m with Arrive _ => false | _ => true end) ms = true → Forall admissible ms.
Proof. rewrite forallb_forall. intros Hms. apply Forall_forall. intros m Hm%list_elem_of_In%Hms. by destruct m. Qed.
Lemma sample_resuming n : Forall admissible (resuming n).
Proof.
  apply Forall_app. split; [repeat constructor; by apply sample_arrives|].
  apply sample_moves, forallb_forall. intros m Hm. apply in_app_iff in Hm as [Hm%repeat_spec|[<-|Hm%repeat_spec]]; by subst.
Qed.
(** A request that runs as the task [i]. *)
Definition asking (q : Request) (i n : nat) : list sample_move := Arrive (request_task q) :: repeat (go i) n.
Lemma sample_asking q i n : sample_admitted q → Forall admissible (asking q i n).
Proof. intros Hq. constructor; [by apply sample_arrives|]. apply sample_moves, forallb_forall. by intros m ->%repeat_spec. Qed.
Ltac sample := repeat first [apply sample_resuming | by apply sample_asking | apply Forall_app; split | apply sample_moves; reflexivity].

(** The phone resumes the run, and its driver goes on until it has asked for a turn. *)
Lemma one_task_acts_for_a_run_witness : ∃ ls σ t,
  execution (MkSystem (sample_state Paused) []) ls σ ∧ t ∈ sy_threads σ ∧ TeamDriveTicket "run-1" ∈ th_own t.
Proof.
  destruct (played (λ _, true) (resuming 16) (MkSystem (sample_state Paused) []) (λ _ σ, out (TeamDriveTicket "run-1") (sy_state σ)))
    as (ls & σ & He & Hc); [sample|vm_compute; reflexivity|].
  apply (execution_weaken _ (λ _, True)) in He; [|done].
  destruct (one_task_acts_for_a_run sample_driver sample_admitted sample_polite _ ls σ (sample_idle _) He) as (_ & Hheld & _).
  destruct (proj1 (Hheld (TeamDriveTicket "run-1") eq_refl) Hc) as (t & Ht & Hin). by exists ls, σ, t.
Defined.
Definition sample_status (σ : @System AppState Guard Spawned Query answer) : option TeamRunStatus :=
  tr_status <$> as_team_runs (sy_state σ) !! "run-1".
(** The resume of the phone, up to the write that wakes the run. *)
Lemma only_a_resume_wakes_witness : ∃ ls σ l σ' t,
  execution (MkSystem (sample_state Paused) []) ls σ ∧ step σ l σ' ∧ sample_status σ' = Some Running ∧
  t ∈ sy_threads σ ∧ TeamDriveTicket "run-1" ∈ th_own t.
Proof.
  destruct (played (λ _, true) (asking (phone_does ActResume) 0 11) (MkSystem (sample_state Paused) [])
    (λ _ σ, bool_decide (sample_status σ = Some Paused) &&
            match play1 (go 0) σ with Some (_, σ') => bool_decide (sample_status σ' = Some Running) | None => false end))
    as (ls & σ & He & Hc); [sample|vm_compute; reflexivity|].
  apply (execution_weaken _ (λ _, True)) in He; [|done].
  apply andb_true_iff in Hc as [H1%bool_decide_eq_true H2]. destruct (play1 (go 0) σ) as [[l σ']|] eqn:Es; [|done].
  apply bool_decide_eq_true in H2. apply (play1_sound (go 0) σ l σ') in Es; [|done].
  pose proof H1 as E1. pose proof H2 as E2. apply fmap_Some in E1 as (run & Hr & Hs), E2 as (run' & Hr' & Hs').
  destruct (only_a_resume_wakes sample_driver sample_admitted sample_polite _ ls σ l σ' "run-1" run run'
              (sample_idle _) He Es (sample_new _) Hr) as (_ & _ & t & Ht & _ & Hin);
    [by rewrite <- Hs|done|by rewrite <- Hs'|]. by exists ls, σ, l, σ', t.
Defined.

Definition ended (σ : @System AppState Guard Spawned Query answer) : bool := match sy_threads σ with [] => true | _ => false end.
(** The driver is dropped as it begins; the net it leaves interrupts the run. *)
Lemma no_run_is_stranded_witness : ∃ ls σ,
  execution (MkSystem (sample_state Paused) []) ls σ ∧ sample_status σ = Some Interrupted ∧
  ∀ run, as_team_runs (sy_state σ) !! "run-1" = Some run → needs_a_driver run = false.
Proof.
  destruct (played (λ _, true) (resuming 2 ++ [Finish 0] ++ repeat (go 0) 12 ++ [Finish 0] ++ repeat (go 0) 3 ++ [Finish 0])
    (MkSystem (sample_state Paused) []) (λ _ σ, ended σ && bool_decide (sample_status σ = Some Interrupted)))
    as (ls & σ & He & Hc); [sample|vm_compute; reflexivity|].
  apply (execution_weaken _ (λ _, True)) in He; [|done]. apply andb_true_iff in Hc as [H1 H2%bool_decide_eq_true].
  exists ls, σ. split_and!; [done|done|].
  apply (no_run_is_stranded sample_driver sample_admitted sample_polite "run-1" sample_has_driver (sample_new _) (sample_state Paused) [] ls σ);
    [|done|by unfold ended in H1; destruct (sy_threads σ)].
  intros (run & Hr & Hn). vm_compute in Hr. by simplify_eq.
Defined.

(** A request to resolve a blocked run is cancelled while it waits; the net blocks the run again. *)
Lemma no_recovery_is_lost_witness : ∃ ls σ,
  execution (MkSystem (sample_state Blocked) []) ls σ ∧ sample_status σ = Some Blocked ∧
  ∀ run, as_team_runs (sy_state σ) !! "run-1" = Some run → tr_status run ≠ Resolving.
Proof.
  destruct (played (λ _, true) (asking (phone_does ActResolve) 0 6 ++ [Finish 0; go 0; Finish 0])
    (MkSystem (sample_state Blocked) []) (λ _ σ, ended σ && bool_decide (sample_status σ = Some Blocked)))
    as (ls & σ & He & Hc); [sample|vm_compute; reflexivity|].
  apply (execution_weaken _ (λ _, True)) in He; [|done]. apply andb_true_iff in Hc as [H1 H2%bool_decide_eq_true].
  exists ls, σ. split_and!; [done|done|].
  apply (no_recovery_is_lost sample_driver sample_admitted sample_polite "run-1" (sample_new _) (sample_state Blocked) [] ls σ);
    [|done|by unfold ended in H1; destruct (sy_threads σ)].
  intros (run & Hr & Hn). vm_compute in Hr. by simplify_eq.
Defined.

(** The phone stops the run while its driver is about to begin; the driver then gets its turn
    refused. *)
Definition stopped : list sample_move := resuming 2 ++ asking (phone_does ActStop) 1 24 ++ [Finish 1].
Definition resting (s : AppState) : bool :=
  match as_team_runs s !! "run-1" with Some run => driver_locked (tr_status run) | None => true end.
Lemma resting_at_rest s : resting s = true → at_rest "run-1" s.
Proof. unfold resting. intros Hs run Hr. by rewrite Hr in Hs. Qed.
Lemma settled_runs_are_quiet_witness : ∃ ls σ ls' σ',
  execution (MkSystem (sample_state Paused) []) ls σ ∧ sample_status σ = Some Paused ∧ length ls' = 5%nat ∧
  execution_while (at_rest "run-1") σ ls' σ' ∧
  Forall (λ l, match l with Asked q _ => acts q ≠ Some "run-1" | _ => True end) ls'.
Proof.
  destruct (played (λ _, true) stopped (MkSystem (sample_state Paused) [])
    (λ _ σ, negb (as_team_drive_gate (sy_state σ)) && bool_decide (sample_status σ = Some Paused)
            && match play resting (repeat (go 0) 5) σ with Some (ls', _) => bool_decide (length ls' = 5%nat) | None => false end))
    as (ls & σ & He & Hc); [unfold stopped; sample|vm_compute; reflexivity|].
  apply (execution_weaken _ (λ _, True)) in He; [|done].
  apply andb_true_iff in Hc as [[H1%negb_true_iff H2%bool_decide_eq_true]%andb_true_iff H3].
  destruct (play resting (repeat (go 0) 5) σ) as [[ls' σ']|] eqn:Ep; [|done]. apply bool_decide_eq_true in H3.
  apply play_sound in Ep; [|by apply sample_moves]. apply (execution_weaken _ (at_rest "run-1")) in Ep; [|apply resting_at_rest].
  exists ls, σ, ls', σ'. split_and!; [done..|].
  by apply (settled_runs_are_quiet sample_driver sample_admitted sample_polite "run-1" (sample_state Paused) ls σ ls' σ').
Defined.

(** ** An error on a run that was cleanly stopped

    [interrupt_team_run_if_stranded] asks whether the run is stranded before it waits for the
    gate, and writes its error afterwards without asking again.  Here the driver's task is
    dropped, the phone stops the run while the net waits for the gate, every thread confirms
    stopping, and the paused run still ends up with the error of a driver that ended unexpectedly. *)
Lemma clean_stop_gets_an_error : ∃ ls σ run,
  execution (MkSystem (sample_state Paused) []) ls σ ∧
  as_team_runs (sy_state σ) !! "run-1" = Some run ∧ tr_status run = Paused ∧
  tr_pause_reason run = Some (stop_reason StopPause) ∧ tr_error run = Some DRIVER_ENDED.
Proof.
  destruct (played (λ _, true) (resuming 2 ++ [Finish 0; go 0] ++ asking (phone_does ActStop) 1 24 ++ [Finish 1] ++ repeat (go 0) 11)
    (MkSystem (sample_state Paused) [])
    (λ _ σ, match as_team_runs (sy_state σ) !! "run-1" with
            | Some run => bool_decide (tr_status run = Paused) && bool_decide (tr_pause_reason run = Some (stop_reason StopPause))
                          && bool_decide (tr_error run = Some DRIVER_ENDED)
            | None => false
            end)) as (ls & σ & He & Hc); [sample|vm_compute; reflexivity|].
  apply (execution_weaken _ (λ _, True)) in He; [|done].
  destruct (as_team_runs (sy_state σ) !! "run-1") as [run|] eqn:Er; [|done].
  apply andb_true_iff in Hc as [[H1%bool_decide_eq_true H2%bool_decide_eq_true]%andb_true_iff H3%bool_decide_eq_true].
  by exists ls, σ, run.
Qed.

(** ** A build without a driver

    [no_run_is_stranded] takes a build with a driver.  Without one a resume still wakes the run
    and spawns its driver's task, which only records a failure and disarms its net.  When the
    phone stops the run before that failure is recorded the pending stop outranks it, and when
    the request to stop is then dropped, no task is left and the run stays PausePending. *)
Section Driverless.
#[local] Instance driverless_settings : TeamSettings := {|
  workflow_drain_max_ms := 30000; team_step_stall_ms := 60000; team_liveness_window_ms := 1000;
  available_providers := ["fake"]; has_team_driver := false |}.
#[local] Instance driverless_runtime : Runtime AppState Guard Spawned Query answer :=
  @team_runtime driverless_settings _ sample_driver sample_admitted.
Definition driverless_stop : list sample_move :=
  Arrive (request_task (phone_does ActResume)) :: repeat (go 0) 14 ++ [Finish 0] ++
  (Arrive (request_task (phone_does ActStop)) :: repeat (go 1) 8) ++ repeat (go 0) 4 ++
  [Finish 0; Finish 0] ++ repeat (go 0) 3 ++ [Finish 0; go 0; Finish 0].
Lemma driverless_stop_admissible : Forall admissible driverless_stop.
Proof.
  unfold driverless_stop. cbn [repeat app].
  repeat (apply Forall_cons; split; [first [exact I | by eexists (phone_does _)]|]). by apply Forall_nil.
Qed.
Lemma driverless_stop_strands : ∃ ls σ run,
  execution (MkSystem (sample_state Paused) []) ls σ ∧ sy_threads σ = [] ∧
  as_team_runs (sy_state σ) !! "run-1" = Some run ∧ tr_status run = PausePending ∧ needs_a_driver run = true.
Proof.
  destruct (played (λ _, true) driverless_stop (MkSystem (sample_state Paused) [])
    (λ _ σ, ended σ && match as_team_runs (sy_state σ) !! "run-1" with
            | Some run => bool_decide (tr_status run = PausePending) && needs_a_driver run
            | None => false
            end)) as (ls & σ & He & Hc); [apply driverless_stop_admissible|vm_compute; reflexivity|].
  apply (execution_weaken _ (λ _, True)) in He; [|done]. apply andb_true_iff in Hc as [Hn Hc].
  destruct (as_team_runs (sy_state σ) !! "run-1") as [run|] eqn:Er; [|done].
  apply andb_true_iff in Hc as [H1%bool_decide_eq_true H2].
  exists ls, σ, run. split_and!; [done| |done..]. unfold ended in Hn. by destruct (sy_threads σ).
Qed.
End Driverless.
